(* ===== verification/_CoqProject ===== *)
-Q . S2P
Prelude.v
Decimals.v
Models.v
Quota.v
Naming.v
Store.v
Hooks.v
World.v
Output.v
Json.v
Manager.v
Ends.v
Calm.v
Deploy.v
Teardown.v
Rollback.v
Recovery.v
Durations.v
Conditions.v
Policies.v
Cron.v
Expiry.v
Sessions.v
Values.v
Limiter.v
Limits.v
Status.v
Capacity.v
Watcher.v
Group.v
Leader.v
Access.v
Templates.v
Builder.v
Requests.v
Answers.v
Outcomes.v
Tokens.v
Auth.v
Revocation.v
Endings.v
Users.v
Admins.v
Kept.v
Effects.v
Keys.v
KeyRules.v
Instances.v
Creation.v
Races.v
Hub.v
HubRules.v
Fanout.v
FanoutRules.v
Spread.v
Clusters.v
ClusterRules.v
Registry.v
RegistryRules.v
Catalog.v
Diffs.v
Definitions.v
Upgrades.v
Publishing.v
Instantiation.v
UpgradeRules.v
DefinitionRules.v
Transfer.v
ReleaseRules.v
