(* ===== verification/Prelude.v ===== *)
(** * The backend of k8s-stack-manager, modelled and proved

    k8s-stack-manager keeps stacks: an instance is a set of Helm charts that the
    backend installs into one Kubernetes namespace.  This library models the core
    of the Go backend (all paths below are under [src/backend/internal/]) and proves
    what makes it correct when several replicas of the process share one database,
    any of them can stop at any time, and every statement and every external call
    can fail.

    ** The parts and their files

    - [Prelude], [Decimals], [Durations]: strings as Go has them (bytes), errors with
      [errors.Is] and [errors.As], regular expressions, decimal numbers, and the
      floating point hours of a [time.Duration].
    - [Models]: the records of [models/] (instances, deployment logs, charts,
      clusters), the allowlist of chart sources and the validators of instances,
      charts and clusters.  [Quota]: the merge, validation and role check of
      resource quotas.  [Naming]: namespaces from instance and owner names
      ([api/handlers/stack_instances.go]) and the image tag of a branch.
    - [Store]: the tables [stack_instances], [deployment_logs] and
      [replica_heartbeats].  A statement of the repositories in [database/] is a value
      of [dbop], [exec] runs it with the WHERE clause of the source and gives the
      number of changed rows as MySQL counts them.
    - [World]: the effects.  A program is a function on a [World]; every interaction
      takes one [EnvStep], which holds the statements that other processes ran before
      it, the clocks, the faults and the answer.  A theorem over all environments is a
      theorem over all interleavings and faults.  The trace has every statement with the
      number of rows that it changed ([EvWrite]).  The repository methods that combine
      statements, transactions and [withContextErr] are programs here, with the
      judgement [own] (what a program may do).  [Ends] and [Calm] hold the two other
      judgements: a program that ends its log, and the exact result of a program in a
      world without interference.
    - [Hooks]: the lifecycle hooks ([hooks/]): validation of the configuration,
      [applies_to] scopes, the dispatch loop, its gate and the time budgets.
      [Output]: the captured output of an operation.  [Json]: the JSON records that a
      log stores.  [Manager]: the parts of [deployer/manager.go] that all operations
      share (budgets, deadlines, messages, ownership, the final write).
    - The operations of the deployer, each from its entry point to its finalizer:
      [Deploy], [Teardown] (stop and clean), [Rollback]; and [Recovery], which ends
      the operations of a replica that stopped ([deployer/interrupt_recovery.go]).
    - The background work: [Conditions] (the condition language of cleanup policies),
      [Policies] (the run of a policy and the cleanup executor), [Cron] (the jobs of
      the scheduler and its catch-up), [Expiry] (the reaper and the warner of [ttl/]).
      [Group] and [Leader]: the replica that runs this work, with its worker group,
      its campaigns for the lease and its shutdown ([leader/], [api/bootstrap.go]).
    - The view of the cluster ([k8s/]): [Limits] (the ResourceQuota and the LimitRange of a
      namespace), [Status] (releases of objects, the status of a namespace), [Capacity]
      (capacity and requests of a cluster), [Watcher] (the poll that marks an instance
      whose namespace is in error).
    - [Values]: the values of a chart from its layers ([helm/values_generator.go]).
      [Sessions]: the session stores and the revocation of tokens ([sessionstore/]).
      [Limiter]: the rate limiter of the login routes.
    - The requests on instances ([api/handlers/]): [Access] (roles, who may modify, errors
      to answers, TTLs), [Templates] (published releases of a template), [Builder] (the
      values of a request), [Requests] (deploy, stop, clean, delete and rollback) with its
      theorems in [Answers] and [Outcomes], [Instances] (create, update, extend, clone)
      with the judgement [kept] of [Kept] and its theorems in [Creation].  [Races]: the
      transactions of overlapping creates with the lock of the row of the user.
    - Authentication: [Tokens] (the table of refresh tokens), [Auth] (login, refresh,
      logout) with its theorems in [Revocation] and [Endings], [Users] (the table of users
      and its guarded transactions) and [Admins] (the handlers that change users), [Keys]
      (API keys and the middleware that authenticates a request) and [KeyRules].
    - [Effects]: programs over any shared state, with three forms of a program logic
      ([triple], [keeping], [traced]).  [Keys], [Fanout], [Clusters], [Catalog] and the
      files on them use it.
    - The open sockets ([websocket/]): [Hub] (clients, revocable connections, revalidation)
      as a state machine of goroutines with a read/write lock, and [HubRules]; [Fanout]
      (the table of events that the replicas share: poller, writer, cleanup),
      [FanoutRules] and [Spread].
    - The clusters: [Clusters] (the table with its encrypted credentials, its requests and
      the health poller; [pkg/crypto/encrypt.go], [api/handlers/clusters.go]) and
      [ClusterRules]; [Registry] (the cached clients and the cached default,
      [cluster/registry.go]) as a machine of goroutines around one mutex, and
      [RegistryRules].
    - The catalog: [Catalog] (the tables of templates, their charts and versions, and of
      definitions and their charts), [Diffs] (the comparison of charts), [Definitions] and
      [Upgrades] (every request on definitions), [Publishing] and [Instantiation] (every
      request on templates), with their theorems in [UpgradeRules], [DefinitionRules],
      [Transfer] (export and import) and [ReleaseRules] (the history of versions).

    ** How they interact

    A handler or a background worker calls an entry point ([Deploy], [StopWithCharts],
    [Clean], [Rollback]), which writes the log and the row of the instance and starts
    a goroutine ([executeDeploy], [executeStop], ..).  The goroutine waits for its
    concurrency slot, calls Helm and Kubernetes, fires hooks and ends in a finalizer
    that writes the log and the row in one transaction ([writeFinal]).  All processes
    meet in the [Store] only; the goroutines that run next to the modelled one are
    statements of the environment.  Where the source has an interface, the library has
    a class: [SessionStore] with its two stores and its contract, [ActionExecutor] and
    [InstanceStopper] with the laws that their clients use, [Cron], [Template], [Yaml]
    and [QuantityOps] for code outside of the repository.

    A request is a program too ([Requests], [Instances]): it ends with an answer and, when
    it started one, with the operation that goes on in a goroutine ([run_operation]).  The
    tables of refresh tokens, users, keys and events have a state of their own; the rest
    of the system answers anything there, except what a theorem asks of it.  A logout, the
    change of a user and the delete of a key revoke sessions and tell the hub
    ([TDisconnectUser], [KeySockets]); the hub closes the sockets of its replica and
    [published] says what the fan-out brings to the others.

    The requests on clusters call the client registry; their calls are events, and the
    machine of [Registry] runs exactly such sequences as the steps of a handler.  AES-GCM
    and SHA-256 are parameters of [Clusters], the client factories of [Registry].  The
    requests on templates and definitions are programs over one catalog.

    A transaction is atomic for the others in [World], [Tokens] and [Effects], so the row
    locks that it takes (of a publish, of the default cluster, of the user of a create) do
    nothing there.  Where a property rests on a lock, the statements of the transactions are
    steps of their own: the guarded changes of [Users] and the creates of [Races].  The database may give
    rows with equal keys in any order ([ka_rank]), and the stored time of a version has
    milliseconds ([stored_time]).  Instances read the releases that [Templates] computes
    and [Catalog] reads ([read_latestTemplateRelease]).

    ** What the theorems show

    - Footprints ([deploy_footprint], [stop_footprint], [clean_footprint],
      [rollback_footprint], [policy_footprint], [reaper_footprint], [watcher_footprint]): which rows,
      releases and namespaces an operation may touch, under any interference.
    - Progress ([deploy_ends_log], [teardown_ends_log], [rollback_ends_log],
      [stop_wait_ends]): when the statements of this process succeed, a run ends its
      log, whatever Helm, Kubernetes, the hooks and the other replicas do.
    - Exact results ([finalizeDeploy_result], [finalizeStop_result],
      [finalizeClean_result], [finalizeRollback_result], [rejected_restores]).
    - Exclusion between replicas ([finished_log_stable], [delete_mark_exclusive],
      [clean_start_exclusive], [stop_waits], [recovery_spares_live],
      [late_end_changes_nothing], [one_warning]), one leader's workers at a time
      ([terms_never_overlap], [release_after_workers], [watchdog_bound]), and the interrupting transaction as
      one step ([interrupt_refines]).
    - Gates and revocation ([deploy_gate], [fire_gate], [user_block_rule],
      [limiter_refines]), and stores that refine their contract
      ([stores_refine_contract]).
    - Requests ([request_confined], [stranger_refused], [answer_truthful],
      [instance_request_confined], [identity_fixed], [user_limit_kept]): what a request may
      touch, whom it refuses, and that its answer is true of the database.
    - Access ([authentication_sound], [created_key_works], [deleted_key_refused],
      [api_key_limits], [revocation_is_final], [refresh_token_single_use],
      [session_lifetime], [logout_ends_session], [disabled_user_gets_no_token],
      [change_ends_access], [last_admin_remains], [user_changes_atomic]).
    - Sockets ([hub_never_panics], [revocation_cuts_off], [revalidation_closes_revoked],
      [revocation_spreads]) and the fan-out ([each_row_once], [row_never_lost],
      [late_row_delivered], [published_call_read_back], [writer_keeps_order],
      [cleanup_deletes_old]).
    - Clusters ([one_default_cluster], [cluster_secrets_sealed],
      [created_credentials_read_back], [default_change_refreshes]) and their clients
      ([cached_default_fresh], [kubeconfig_files_tracked]).
    - Templates and definitions: the history of versions ([release_history],
      [publish_releases]), upgrades ([check_shows_upgrade], [upgrade_resumes]), who may
      change what ([user_definition_rules]) and the copy of a definition
      ([export_import_roundtrip]).
    - Meaning: [condition_meaning], [jobs_follow_policies], [catch_up_missed],
      [highest_layer_wins], [validate_effective_iff], [check_override_iff],
      [decide_scope_spec], [chart_source_confined], [buildNamespace_valid],
      [recorded_roundtrip], [limit_range_fits], [namespace_status_worst],
      [charts_partition], [effective_request_demand], [same_objects_no_change].

    ** Bounds and fuel

    The wait of a stop ([waitForEarlier]) is a loop with fuel; [stop_wait_ends] shows
    that it ends once the deadlines of the earlier operations passed.  The loops over
    text use the length of the text as fuel, [firstAlive] the number of logs,
    [lastBefore] the 300 seconds of its window: each is enough by the lemma next to it.
    The loop of [DeleteOlderThan] ends within the number of the old rows
    ([cleanup_deletes_old]); the queries of [recheckGaps] have the number of IDs as fuel.
    Durations and times are integers in nanoseconds; the 64-bit overflow is modelled
    where the source can reach it ([Durations], [ParseInt]).

    ** Not modelled

    Routing, the handlers that only read or write a table without rules of their own, the
    pages of a list, quick deploy and the bulk operations on instances (compositions of
    modelled requests with the tables of overrides), the monitors of a cluster ([cluster/]
    but its registry and its health poller), the upgrade of a socket, OIDC,
    the libraries for JWT, bcrypt and Argon2, the clients of Kubernetes, Helm, git services
    and notification channels, the socket library, the election library of Kubernetes,
    metrics and traces, migrations and the repositories of the tables that the modelled
    operations do not write.  Their
    answers are parameters or part of the environment.  The tickers of the workers are
    left out: a theorem about one cycle holds for each of them.  Followers, branch and
    value overrides of an instance are not in the store; their deletes are one step
    that can fail. *)

From Stdlib Require Export ZArith Lia Ascii String Sorted.
From stdpp Require Export base list strings gmap.

Declare Scope go_scope.
Delimit Scope go_scope with go.
#[export] Set Default Goal Selector "!".

(** ** Tactics *)

(** [split_and_hyps] takes conjunctions, existentials and boolean
    conjunctions in the hypotheses apart. *)
Ltac split_hyps :=
  repeat match goal with
  | H : _ /\ _ |- _ => destruct H
  | H : exists _, _ |- _ => destruct H
  | H : (_ && _)%bool = true |- _ => apply andb_true_iff in H
  | H : (_ || _)%bool = false |- _ => apply orb_false_iff in H
  | H : negb _ = true |- _ => apply negb_true_iff in H
  | H : negb _ = false |- _ => apply negb_false_iff in H
  end.

(** [case_go] splits on the first [if]/[match] of the goal or a hypothesis
    and closes the contradictory branches. *)
Ltac case_go :=
  match goal with
  | |- context [if ?b then _ else _] => destruct b eqn:?
  | |- context [match ?x with _ => _ end] => destruct x eqn:?
  | H : context [if ?b then _ else _] |- _ => destruct b eqn:?
  | H : context [match ?x with _ => _ end] |- _ => destruct x eqn:?
  end; simplify_eq/=; try done.

(** ** Early returns

    The Go code is a sequence of guards that return early; the notations below
    keep that shape. *)
Notation "'If' b 'Return' e ;; k" := (if b then e else k)
  (at level 10, b at level 99, e at level 99, k at level 200,
   format "'[v' 'If'  b  'Return'  e  ;;  '//' k ']'") : go_scope.
#[export] Set Warnings "-notation-overridden,-clear-no-such-hyp".
Notation "x |> f" := (f x) (at level 45, left associativity, only parsing) : go_scope.
Open Scope go_scope.

(** ** Errors

    A Go error is a value with a text; [errors.Is] and [errors.As] look through
    the errors that [%w] wraps.  [ESent] is a package level sentinel
    ([errors.New] bound to a variable), [ENew] an error built in place,
    [EWrap pre e post] is [fmt.Errorf] of [pre], one wrapped error and [post],
    [EWrap2] wraps two errors.  The other constructors are the error types of
    the program: [dberrors.DatabaseError], the deployer's [podEventError],
    [instanceTakenError] and [NamespaceTerminatingError], the hooks'
    [FailedError], [DeniedError] and [RedirectError]. *)
Inductive goerr :=
| ESent (name msg : string)
| ENew (msg : string)
| EWrap (pre : string) (inner : goerr) (post : string)
| EWrap2 (e1 : goerr) (sep : string) (e2 : goerr)
| EDB (op : string) (inner : goerr)
| EPod (inner : goerr) (event : string)
| ETaken (status : string) (statusChanged : bool)
| ENamespaceTerminating (namespace : string)
| EHookFailed (hook : string) (inner : goerr)
| EDenied (hook message : string)
| ERedirect (code : Z).

Abbreviation error := (option goerr).

#[global] Instance goerr_eq_dec : EqDecision goerr.
Proof. solve_decision. Defined.

(** [errors.New], as the error result of a function. *)
Definition errorsNew (msg : string) : error := Some (ENew msg).

(** [errors.Is] against the sentinel called [name]. *)
Fixpoint errorsIs (e : goerr) (name : string) : bool :=
  match e with
  | ESent n _ => bool_decide (n = name)
  | ENew _ => false
  | EWrap _ i _ => errorsIs i name
  | EWrap2 a _ b => errorsIs a name || errorsIs b name
  | EDB _ i => errorsIs i name
  | EPod i _ => errorsIs i name
  | EHookFailed _ i => errorsIs i name
  | ETaken _ _ | ENamespaceTerminating _ | EDenied _ _ | ERedirect _ => false
  end.

(** [errors.As]: the first error of the tree (outer errors first) that the
    projection [p] accepts. *)
Fixpoint errorsAs {A} (p : goerr -> option A) (e : goerr) : option A :=
  match p e with
  | Some x => Some x
  | None =>
      match e with
      | EWrap _ i _ | EDB _ i | EPod i _ | EHookFailed _ i => errorsAs p i
      | EWrap2 a _ b => match errorsAs p a with Some x => Some x | None => errorsAs p b end
      | _ => None
      end
  end.

(** [errors.Is] of an error result: false for nil. *)
Definition isErr (e : error) (name : string) : bool :=
  match e with Some x => errorsIs x name | None => false end.

(** ** Results of fallible functions *)
Inductive res (A : Type) :=
| Ok (a : A)
| Err (e : goerr).
Arguments Ok {A} a.
Arguments Err {A} e.

Definition res_bind {A B} (m : res A) (f : A -> res B) : res B :=
  match m with Ok a => f a | Err e => Err e end.

(** Wraps the error of a result, [fmt.Errorf("pre: %w", err)]. *)
Definition res_wrap {A} (pre : string) (m : res A) : res A :=
  match m with Ok a => Ok a | Err e => Err (EWrap pre e "") end.

Notation "x <-r m ;; k" := (res_bind m (fun x => k))
  (at level 100, m at next level, right associativity) : go_scope.

Definition is_ok {A} (m : res A) : bool := match m with Ok _ => true | Err _ => false end.

Lemma res_bind_ok {A B} (m : res A) (f : A -> res B) b :
  res_bind m f = Ok b <-> exists a, m = Ok a /\ f a = Ok b.
Proof.
  destruct m as [a|e]; simpl; split.
  - intros H. by exists a.
  - by intros (? & [= ->] & ?).
  - done.
  - by intros (? & ? & ?).
Qed.

(** Maps a fallible function over a list, stopping at the first error. *)
Fixpoint res_map {A B} (f : A -> res B) (l : list A) : res (list B) :=
  match l with
  | [] => Ok []
  | x :: l' => y <-r f x ;; ys <-r res_map f l' ;; Ok (y :: ys)
  end.

Lemma res_map_ok {A B} (f : A -> res B) l ys :
  res_map f l = Ok ys <-> Forall2 (fun x y => f x = Ok y) l ys.
Proof.
  revert ys. induction l as [|x l IH]; intros ys; simpl.
  - split; [intros [= <-]; constructor | by inversion_clear 1].
  - split.
    + intros (y & Hy & (zs & Hzs & [= <-])%res_bind_ok)%res_bind_ok.
      constructor; [done | by apply IH].
    + inversion 1 as [|? y ? zs Hy Hl]; subst. rewrite Hy. simpl.
      by rewrite (proj2 (IH _) Hl).
Qed.

(** ** Strings

    Go strings are byte strings; [len] is the number of bytes. *)
Definition len (s : string) : Z := Z.of_nat (String.length s).

Definition empty (s : string) : bool := bool_decide (s = "").

Lemma empty_iff s : empty s = true <-> s = "".
Proof. apply bool_decide_eq_true. Qed.

Lemma empty_false s : empty s = false <-> s <> "".
Proof. apply bool_decide_eq_false. Qed.

(** [strings.HasPrefix(s, p)]. *)
Fixpoint HasPrefix (s p : string) {struct p} : bool :=
  match p, s with
  | EmptyString, _ => true
  | String c p', String d s' => Ascii.eqb c d && HasPrefix s' p'
  | String _ _, EmptyString => false
  end.

Fixpoint sdrop (n : nat) (s : string) : string :=
  match n, s with
  | O, _ => s
  | S n', String _ s' => sdrop n' s'
  | S _, EmptyString => EmptyString
  end.

Fixpoint stake (n : nat) (s : string) : string :=
  match n, s with
  | O, _ => EmptyString
  | S n', String c s' => String c (stake n' s')
  | S _, EmptyString => EmptyString
  end.

(** [strings.TrimPrefix]. *)
Definition TrimPrefix (s p : string) : string := if HasPrefix s p then sdrop (String.length p) s else s.

(** [strings.Cut(s, sep)] for a separator that is not empty. *)
Fixpoint Cut (s sep : string) : option (string * string) :=
  if HasPrefix s sep then Some ("", sdrop (String.length sep) s)
  else match s with
       | EmptyString => None
       | String c s' =>
           match Cut s' sep with
           | Some (a, b) => Some (String c a, b)
           | None => None
           end
       end.

(** [strings.Contains(s, sub)]. *)
Definition Contains (s sub : string) : bool := bool_decide (is_Some (Cut s sub)).

Fixpoint sforall (p : ascii -> bool) (s : string) : bool :=
  match s with
  | EmptyString => true
  | String c s' => p c && sforall p s'
  end.

(** [strings.ContainsAny(s, chars)] for a set of ASCII characters. *)
Definition ContainsAny (s : string) (p : ascii -> bool) : bool :=
  negb (sforall (fun c => negb (p c)) s).

Fixpoint sfilter (p : ascii -> bool) (s : string) : string :=
  match s with
  | EmptyString => EmptyString
  | String c s' => if p c then String c (sfilter p s') else sfilter p s'
  end.

Fixpoint smap (f : ascii -> ascii) (s : string) : string :=
  match s with
  | EmptyString => EmptyString
  | String c s' => String (f c) (smap f s')
  end.

(** [strings.TrimLeft] with the cutset [p]. *)
Fixpoint TrimLeft (p : ascii -> bool) (s : string) : string :=
  match s with
  | String c s' => if p c then TrimLeft p s' else s
  | EmptyString => EmptyString
  end.

Fixpoint srev_app (s acc : string) : string :=
  match s with
  | EmptyString => acc
  | String c s' => srev_app s' (String c acc)
  end.
Definition srev (s : string) : string := srev_app s "".

(** [strings.TrimRight] with the cutset [p]. *)
Definition TrimRight (p : ascii -> bool) (s : string) : string :=
  srev (TrimLeft p (srev s)).

Definition in_range (lo hi c : ascii) : bool :=
  (nat_of_ascii lo <=? nat_of_ascii c)%nat && (nat_of_ascii c <=? nat_of_ascii hi)%nat.
Definition is_lower (c : ascii) : bool := in_range "a" "z" c.
Definition is_upper (c : ascii) : bool := in_range "A" "Z" c.
Definition is_digit (c : ascii) : bool := in_range "0" "9" c.
Definition is_alnum (c : ascii) : bool := is_lower c || is_digit c.
Definition ascii_eqb (a b : ascii) : bool := Ascii.eqb a b.

(** Membership of a byte in a literal set of characters. *)
Fixpoint char_in (c : ascii) (set : string) : bool :=
  match set with
  | EmptyString => false
  | String d set' => ascii_eqb c d || char_in c set'
  end.

(** stdpp seals [String.append] for [simpl]; these two equations compute it. *)
Lemma sapp_cons c (a b : string) : String c a +:+ b = String c (a +:+ b).
Proof. done. Qed.
Lemma sapp_empty (b : string) : "" +:+ b = b.
Proof. done. Qed.
Create Rewrite HintDb gostr.
#[export] Hint Rewrite sapp_cons sapp_empty : gostr.
Ltac sapp := simpl in *; autorewrite with gostr in *; simpl in *.

Lemma sapp_assoc (a b c : string) : a +:+ (b +:+ c) = (a +:+ b) +:+ c.
Proof. induction a as [|x a IH]; sapp; [done|]. by f_equal. Qed.

Lemma sapp_nil (a : string) : a +:+ "" = a.
Proof. induction a as [|x a IH]; sapp; [done|]. by f_equal. Qed.

Lemma slength_app (a b : string) :
  String.length (a +:+ b) = (String.length a + String.length b)%nat.
Proof. induction a as [|x a IH]; sapp; [done|]. by f_equal. Qed.

Lemma sapp_inj_l (a b c : string) : a +:+ b = a +:+ c -> b = c.
Proof. induction a as [|x a IH]; sapp; [done|]. intros [= H]. by apply IH. Qed.

Lemma stake_length n s : (String.length (stake n s) <= n)%nat.
Proof. revert s. induction n as [|n IH]; intros [|c s]; simpl; try lia. specialize (IH s). lia. Qed.

Lemma stake_exact n s :
  (n <= String.length s)%nat -> String.length (stake n s) = n.
Proof. revert s. induction n as [|n IH]; intros [|c s] ?; simpl in *; try lia. rewrite IH; lia. Qed.

Lemma stake_sdrop n s : stake n s +:+ sdrop n s = s.
Proof. revert s. induction n as [|n IH]; intros [|c s]; sapp; try done. by rewrite IH. Qed.

Lemma sdrop_length n s : String.length (sdrop n s) = (String.length s - n)%nat.
Proof. revert s. induction n as [|n IH]; intros [|c s]; simpl; try lia. apply IH. Qed.

Lemma len_app a b : len (a +:+ b) = (len a + len b)%Z.
Proof. unfold len. rewrite slength_app. lia. Qed.

Lemma stake_app n p s :
  (String.length p <= n)%nat -> stake n (p +:+ s) = p +:+ stake (n - String.length p) s.
Proof.
  revert n. induction p as [|c p IH]; intros n Hn; sapp; simpl; [by rewrite Nat.sub_0_r|].
  destruct n as [|n]; simpl in *; [lia|]. sapp. by rewrite IH by lia.
Qed.

Lemma stake_all n s : (String.length s <= n)%nat -> stake n s = s.
Proof.
  revert s. induction n as [|n IH]; intros [|c s] ?; simpl in *; try done; try lia.
  rewrite IH; [done|lia].
Qed.

Lemma sforall_stake p n s : sforall p s = true -> sforall p (stake n s) = true.
Proof.
  revert s. induction n as [|n IH]; intros [|c s]; simpl; try done.
  intros [-> H]%andb_true_iff. simpl. by apply IH.
Qed.

Lemma sforall_filter p s : sforall p (sfilter p s) = true.
Proof.
  induction s as [|c s IH]; simpl; [done|].
  destruct (p c) eqn:E; simpl; by rewrite ?E.
Qed.

Lemma sforall_TrimLeft p q s : sforall p s = true -> sforall p (TrimLeft q s) = true.
Proof.
  induction s as [|c s IH]; simpl; [done|]. intros [Hc Hs]%andb_true_iff.
  destruct (q c); [by apply IH|]. simpl. by rewrite Hc, Hs.
Qed.

Lemma sforall_app p a b : sforall p (a +:+ b) = sforall p a && sforall p b.
Proof. induction a as [|c a IH]; sapp; [done|]. by rewrite IH, andb_assoc. Qed.

(** *** Reversal *)

Lemma srev_app_spec s acc : srev_app s acc = srev s +:+ acc.
Proof.
  unfold srev. revert acc. induction s as [|c s IH]; intros acc; [done|]. simpl.
  rewrite IH, (IH (String c "")), <- sapp_assoc. done.
Qed.

Lemma srev_cons c s : srev (String c s) = srev s +:+ String c "".
Proof. unfold srev at 1. simpl. by rewrite srev_app_spec. Qed.

Lemma srev_snoc s c : srev (s +:+ String c "") = String c (srev s).
Proof.
  induction s as [|d s IH]; [done|]. by rewrite sapp_cons, !srev_cons, IH, sapp_cons.
Qed.

Lemma srev_involutive s : srev (srev s) = s.
Proof. induction s as [|c s IH]; [done|]. by rewrite srev_cons, srev_snoc, IH. Qed.

Lemma sforall_srev p s : sforall p (srev s) = sforall p s.
Proof.
  induction s as [|c s IH]; [done|]. rewrite srev_cons, sforall_app, IH. simpl.
  by rewrite andb_true_r, andb_comm.
Qed.

Lemma sforall_mono (p q : ascii -> bool) s :
  (forall c, p c = true -> q c = true) -> sforall p s = true -> sforall q s = true.
Proof.
  intros Hpq. induction s as [|c s IH]; simpl; [done|].
  intros [Hc Hs]%andb_true_iff. rewrite (Hpq _ Hc). by apply IH.
Qed.

Lemma HasPrefix_iff s p : HasPrefix s p = true <-> exists t, s = p +:+ t.
Proof.
  revert s. induction p as [|c p IH]; intros s; simpl.
  - split; [intros _; by exists s | done].
  - destruct s as [|d s].
    + split; [done | by intros (? & ?)].
    + rewrite andb_true_iff, Ascii.eqb_eq, IH. split.
      * intros (-> & t & ->). by exists t.
      * intros (t & [= -> ->]). eauto.
Qed.

Lemma HasPrefix_app p s : HasPrefix (p +:+ s) p = true.
Proof. apply HasPrefix_iff. by exists s. Qed.

Lemma sdrop_app p s : sdrop (String.length p) (p +:+ s) = s.
Proof. induction p as [|c p IH]; sapp; [by destruct s | done]. Qed.
Lemma TrimPrefix_app p s : TrimPrefix (p +:+ s) p = s.
Proof. unfold TrimPrefix. by rewrite HasPrefix_app, sdrop_app. Qed.

(** [Cut] splits at an occurrence of the separator. *)
Lemma Cut_split s sep a b :
  Cut s sep = Some (a, b) -> s = a +:+ sep +:+ b.
Proof.
  revert a b. induction s as [|c s IH]; intros a b; simpl.
  - destruct (HasPrefix "" sep) eqn:E; [|done].
    apply HasPrefix_iff in E as (t & E). intros [= <- <-].
    destruct sep; sapp; done.
  - destruct (HasPrefix (String c s) sep) eqn:E.
    + apply HasPrefix_iff in E as (t & E). rewrite E, sdrop_app. by intros [= <- <-].
    + destruct (Cut s sep) as [[a' b']|]; [|done]. intros [= <- <-].
      sapp. f_equal. by apply IH.
Qed.

(** Cutting at a one byte separator that the left part does not hold. *)
Lemma Cut_first (c : ascii) a b :
  sforall (fun d => negb (ascii_eqb d c)) a = true ->
  Cut (a +:+ String c b) (String c "") = Some (a, b).
Proof.
  induction a as [|d a IH].
  - intros _. sapp. rewrite Ascii.eqb_refl. by destruct b.
  - rewrite sapp_cons. cbn [sforall Cut HasPrefix]. intros [Hd Ha]%andb_true_iff.
    unfold ascii_eqb in Hd. rewrite Ascii.eqb_sym. apply negb_true_iff in Hd.
    rewrite Hd. simpl. by rewrite IH.
Qed.

(** A separator that occurs is found. *)
Lemma Cut_app_some a sep b : exists p, Cut (a +:+ sep +:+ b) sep = Some p.
Proof.
  induction a as [|c a IH]; rewrite ?sapp_cons, ?sapp_empty.
  - destruct (sep +:+ b) as [|d s] eqn:E; simpl; rewrite <- E, HasPrefix_app; eauto.
  - simpl. destruct (HasPrefix _ sep); [eauto|]. destruct IH as ([x y] & ->). eauto.
Qed.

Lemma Contains_iff s sub : Contains s sub = true <-> exists a b, s = a +:+ sub +:+ b.
Proof.
  unfold Contains. rewrite bool_decide_eq_true. split.
  - intros ([a b] & H%Cut_split). eauto.
  - intros (a & b & ->). destruct (Cut_app_some a sub b) as (p & ->). eauto.
Qed.

Lemma Contains_app_r a s sub : Contains s sub = true -> Contains (a +:+ s) sub = true.
Proof.
  rewrite !Contains_iff. intros (x & y & ->). exists (a +:+ x), y. by rewrite !sapp_assoc.
Qed.

(** *** White space and case *)

(** The byte strings that [strings.TrimSpace] removes at both ends: the UTF-8
    encodings of the code points for which [unicode.IsSpace] holds. *)
Definition bytes (l : list nat) : string :=
  fold_right (fun n s => String (ascii_of_nat n) s) "" l.

Definition space_encodings : list string :=
  map bytes ([[32]; [9]; [10]; [11]; [12]; [13]; [194; 133]; [194; 160]; [225; 154; 128]]
    ++ map (fun k => [226; 128; k]) (seq 128 11)
    ++ [[226; 128; 168]; [226; 128; 169]; [226; 128; 175]; [226; 129; 159]; [227; 128; 128]]).

(** Drops one leading encoding of [encs], if there is one. *)
Fixpoint strip_one (encs : list string) (s : string) : option string :=
  match encs with
  | [] => None
  | e :: encs' => if HasPrefix s e then Some (sdrop (String.length e) s) else strip_one encs' s
  end.

(** Every step removes at least one byte, so [String.length s] steps suffice. *)
Fixpoint strip_all (fuel : nat) (encs : list string) (s : string) : string :=
  match fuel with
  | O => s
  | S f => match strip_one encs s with Some s' => strip_all f encs s' | None => s end
  end.

(** [strings.TrimSpace]. *)
Definition TrimSpace (s : string) : string :=
  let l := strip_all (String.length s) space_encodings s in
  srev (strip_all (String.length l) (map srev space_encodings) (srev l)).

(** The lower case of one ASCII byte. *)
Definition lower (c : ascii) : ascii :=
  if is_upper c then ascii_of_nat (nat_of_ascii c + 32) else c.

(** [strings.ToLower] as far as its ASCII output goes: ASCII letters, and the
    only two other code points whose lower case is ASCII (KELVIN SIGN to k,
    capital I with dot above to i).  The lower case of every other code point
    is not ASCII and is kept as it is here; the callers only look at ASCII. *)
Fixpoint ToLower (s : string) : string :=
  match s with
  | EmptyString => EmptyString
  | String c s1 =>
      match s1 with
      | String d s2 =>
          If (nat_of_ascii c =? 196)%nat && (nat_of_ascii d =? 176)%nat Return String "i" (ToLower s2) ;;
          match s2 with
          | String e s3 =>
              If (nat_of_ascii c =? 226)%nat && (nat_of_ascii d =? 132)%nat
                 && (nat_of_ascii e =? 170)%nat Return String "k" (ToLower s3) ;;
              String (lower c) (ToLower s1)
          | EmptyString => String (lower c) (ToLower s1)
          end
      | EmptyString => String (lower c) (ToLower s1)
      end
  end.

(** ** Regular expressions

    The patterns the source uses ([regexp], RE2) are anchored at both ends and
    only use classes of ASCII characters; [re] is their syntax, [re_match] the
    language and [MatchString] an executable matcher by derivatives. *)
Inductive re :=
| RNone
| REps
| RClass (p : ascii -> bool)
| RSeq (a b : re)
| RAlt (a b : re)
| RStar (a : re).

(** [r?] *)
Definition ROpt (r : re) : re := RAlt r REps.

Inductive re_match : re -> string -> Prop :=
| m_eps : re_match REps ""
| m_class p c : p c = true -> re_match (RClass p) (String c "")
| m_seq a b s t : re_match a s -> re_match b t -> re_match (RSeq a b) (s +:+ t)
| m_alt_l a b s : re_match a s -> re_match (RAlt a b) s
| m_alt_r a b s : re_match b s -> re_match (RAlt a b) s
| m_star_nil a : re_match (RStar a) ""
| m_star_cons a s t : re_match a s -> re_match (RStar a) t -> re_match (RStar a) (s +:+ t).

Fixpoint nullable (r : re) : bool :=
  match r with
  | RNone | RClass _ => false
  | REps | RStar _ => true
  | RSeq a b => nullable a && nullable b
  | RAlt a b => nullable a || nullable b
  end.

Fixpoint deriv (c : ascii) (r : re) : re :=
  match r with
  | RNone | REps => RNone
  | RClass p => if p c then REps else RNone
  | RSeq a b => if nullable a then RAlt (RSeq (deriv c a) b) (deriv c b) else RSeq (deriv c a) b
  | RAlt a b => RAlt (deriv c a) (deriv c b)
  | RStar a => RSeq (deriv c a) (RStar a)
  end.

Fixpoint MatchString (r : re) (s : string) : bool :=
  match s with
  | EmptyString => nullable r
  | String c s' => MatchString (deriv c r) s'
  end.

#[export] Hint Constructors re_match : core.

Lemma sapp_eq_nil (a b : string) : a +:+ b = "" -> a = "" /\ b = "".
Proof. destruct a; [by rewrite sapp_empty | by rewrite sapp_cons]. Qed.

Lemma re_seq_iff a b w :
  re_match (RSeq a b) w <-> exists s t, w = s +:+ t /\ re_match a s /\ re_match b t.
Proof. split; [inversion 1; subst; eauto | intros (s & t & -> & ? & ?); eauto]. Qed.

Lemma re_alt_iff a b w : re_match (RAlt a b) w <-> re_match a w \/ re_match b w.
Proof. split; [inversion 1; subst; eauto | intros [?|?]; eauto]. Qed.

Lemma re_class_iff p w : re_match (RClass p) w <-> exists c, w = String c "" /\ p c = true.
Proof. split; [inversion 1; subst; eauto | intros (c & -> & ?); eauto]. Qed.

Lemma nullable_iff r : nullable r = true <-> re_match r "".
Proof.
  induction r as [| |p|a IHa b IHb|a IHa b IHb|a IHa]; simpl.
  - split; [done | inversion 1].
  - split; [eauto | done].
  - split; [done | inversion 1].
  - rewrite andb_true_iff, IHa, IHb, re_seq_iff. split.
    + intros [Ha Hb]. by exists "", "".
    + intros (s & t & Hst & Hs & Ht). symmetry in Hst.
      by apply sapp_eq_nil in Hst as [-> ->].
  - by rewrite orb_true_iff, IHa, IHb, re_alt_iff.
  - split; [eauto | done].
Qed.

Lemma star_cons_inv a c w :
  re_match (RStar a) (String c w) ->
  exists s t, w = s +:+ t /\ re_match a (String c s) /\ re_match (RStar a) t.
Proof.
  remember (RStar a) as r eqn:Hr. remember (String c w) as v eqn:Hv.
  intros H. revert c w Hv. induction H as [| | | | | |a' s t H1 _ H2 IH2]; intros d w Hv; try done.
  simplify_eq. destruct s as [|d' s].
  - rewrite sapp_empty in Hv. by apply IH2.
  - rewrite sapp_cons in Hv. simplify_eq. eauto.
Qed.

Lemma deriv_iff c r s : re_match (deriv c r) s <-> re_match r (String c s).
Proof.
  revert s. induction r as [| |p|a IHa b IHb|a IHa b IHb|a IHa]; intros s; simpl.
  - split; inversion 1.
  - split; inversion 1.
  - destruct (p c) eqn:E; split; inversion 1; subst; eauto; congruence.
  - assert (Hwhole : re_match (RSeq a b) (String c s) <->
      (re_match (RSeq (deriv c a) b) s \/ (re_match a "" /\ re_match b (String c s)))).
    { rewrite !re_seq_iff. split.
      - intros (u & v & Huv & Hu & Hv).
        destruct u as [|d u]; rewrite ?sapp_empty, ?sapp_cons in Huv; simplify_eq; [by right|].
        left. exists u, v. by rewrite IHa.
      - intros [(u & v & -> & Hu & Hv)|[Hu Hv]].
        + exists (String c u), v. by rewrite <- IHa.
        + by exists "", (String c s). }
    rewrite Hwhole, <- nullable_iff, <- IHb. destruct (nullable a);
      rewrite ?re_alt_iff; [tauto | intuition discriminate].
  - by rewrite !re_alt_iff, IHa, IHb.
  - rewrite re_seq_iff. split.
    + intros (u & v & -> & Hu & Hv).
      apply (m_star_cons a (String c u) v); [by apply IHa | done].
    + intros (u & v & -> & Hu%IHa & Hv)%star_cons_inv. eauto.
Qed.

(** The matcher decides the language of the pattern. *)
Lemma MatchString_iff r s : MatchString r s = true <-> re_match r s.
Proof.
  revert r. induction s as [|c s IH]; intros r; simpl.
  - apply nullable_iff.
  - by rewrite IH, deriv_iff.
Qed.

(** The shape of every name pattern of the source, [^e(m*e)?$]: a name starts
    and ends with an edge character and holds middle characters in between. *)
Definition name_re (edge mid : ascii -> bool) : re :=
  RSeq (RClass edge) (ROpt (RSeq (RStar (RClass mid)) (RClass edge))).

Lemma re_star_class p s : re_match (RStar (RClass p)) s <-> sforall p s = true.
Proof.
  split.
  - remember (RStar (RClass p)) as r eqn:Hr. induction 1 as [| | | | | |a s t H1 _ _ IH]; simplify_eq.
    + done.
    + apply re_class_iff in H1 as (c & -> & Hc). rewrite sapp_cons, sapp_empty. simpl.
      by rewrite Hc, IH.
  - induction s as [|c s IH]; simpl; [eauto|]. intros [Hc Hs]%andb_true_iff.
    apply (m_star_cons _ (String c "") s); eauto.
Qed.

Lemma name_re_iff edge mid s :
  MatchString (name_re edge mid) s = true <->
  exists c, edge c = true /\
    (s = String c "" \/
     exists m d, s = String c (m +:+ String d "") /\ sforall mid m = true /\ edge d = true).
Proof.
  rewrite MatchString_iff. unfold name_re, ROpt. rewrite re_seq_iff. split.
  - intros (u & v & -> & (c & -> & Hc)%re_class_iff & Hv). exists c. split; [done|].
    rewrite sapp_cons, sapp_empty. apply re_alt_iff in Hv as [Hv|Hv].
    + apply re_seq_iff in Hv as (m & w & -> & Hm%re_star_class & (d & -> & Hd)%re_class_iff).
      right. eauto.
    + inversion Hv. by left.
  - intros (c & Hc & [-> | (m & d & -> & Hm & Hd)]).
    + exists (String c ""), "". split; [done|]. split; eauto.
    + exists (String c ""), (m +:+ String d ""). split; [done|]. split; [eauto|].
      apply re_alt_iff. left. apply re_seq_iff. exists m, (String d "").
      split; [done|]. split; [by apply re_star_class | eauto].
Qed.

(** Every character of a matched name is an edge or a middle character. *)
Lemma name_re_chars edge mid s :
  (forall c, edge c = true -> mid c = true) ->
  MatchString (name_re edge mid) s = true -> s <> "" /\ sforall mid s = true.
Proof.
  intros Hsub (c & Hc & [-> | (m & d & -> & Hm & Hd)])%name_re_iff; (split; [done|]); simpl.
  - by rewrite Hsub.
  - rewrite Hsub, sforall_app, Hm; [|done]. simpl. by rewrite Hsub.
Qed.

(** ** Sorting

    [sort.Slice] with an integer key.  Go leaves the order of equal elements
    open; [sort_by] keeps it.  The lemmas only speak about the keys. *)
Section sorting.
Context {A : Type} (key : A -> Z).

Fixpoint insert_by (x : A) (l : list A) : list A :=
  match l with
  | [] => [x]
  | y :: l' => if (key x <=? key y)%Z then x :: y :: l' else y :: insert_by x l'
  end.

Fixpoint sort_by (l : list A) : list A :=
  match l with
  | [] => []
  | x :: l' => insert_by x (sort_by l')
  end.

Definition key_le (x y : A) : Prop := (key x <= key y)%Z.

Lemma insert_by_perm x l : Permutation (x :: l) (insert_by x l).
Proof.
  induction l as [|y l IH]; simpl; [done|].
  destruct (key x <=? key y)%Z; [done|].
  rewrite perm_swap. by constructor.
Qed.

Lemma sort_by_perm l : Permutation l (sort_by l).
Proof. induction l as [|x l IH]; simpl; [done|]. rewrite <- insert_by_perm. by constructor. Qed.

Lemma insert_by_sorted x l : StronglySorted key_le l -> StronglySorted key_le (insert_by x l).
Proof.
  unfold key_le. induction 1 as [|y l Hl IH Hy]; simpl; [repeat constructor|].
  destruct (Z.leb_spec (key x) (key y)).
  - constructor; [by constructor|]. constructor; [done|].
    eapply Forall_impl; [done|]. simpl. lia.
  - constructor; [done|]. rewrite <- insert_by_perm. constructor; [lia | done].
Qed.

Lemma sort_by_sorted l : StronglySorted key_le (sort_by l).
Proof. induction l; simpl; [constructor | by apply insert_by_sorted]. Qed.
End sorting.

(** ** Formatting *)

Definition dquote : string := bytes [34].

(** One byte inside [%q]: quotes, backslashes and control characters are
    escaped. *)
Definition hex_digit (n : nat) : ascii :=
  if (n <? 10)%nat then ascii_of_nat (48 + n) else ascii_of_nat (87 + n).
Definition quote_char (c : ascii) : string :=
  let n := nat_of_ascii c in
  let esc (d : nat) := bytes [92; d] in
  if (n =? 34)%nat then esc 34%nat else if (n =? 92)%nat then esc 92%nat
  else if (n =? 7)%nat then esc 97%nat else if (n =? 8)%nat then esc 98%nat
  else if (n =? 9)%nat then esc 116%nat else if (n =? 10)%nat then esc 110%nat
  else if (n =? 11)%nat then esc 118%nat else if (n =? 12)%nat then esc 102%nat
  else if (n =? 13)%nat then esc 114%nat
  else if (n <? 32)%nat || (n =? 127)%nat
  then esc 120%nat +:+ String (hex_digit (n / 16)) (String (hex_digit (n mod 16)) "")
  else String c "".

Fixpoint quote_body (s : string) : string :=
  match s with
  | EmptyString => EmptyString
  | String c s' => quote_char c +:+ quote_body s'
  end.

(** [%q] of a string whose bytes above 127 are printable characters. *)
Definition quote (s : string) : string := dquote +:+ quote_body s +:+ dquote.

(** [%d] of an integer. *)
Fixpoint digits_aux (fuel : nat) (n : Z) (acc : string) : string :=
  match fuel with
  | O => acc
  | S f =>
      let acc' := String (ascii_of_nat (Z.to_nat (48 + n mod 10))) acc in
      if (n <? 10)%Z then acc' else digits_aux f (n / 10) acc'
  end.

(** [Z.log2 n + 1] decimal digits are always enough. *)
Definition itoa (n : Z) : string :=
  let d m := digits_aux (S (Z.to_nat (Z.log2 m))) m "" in
  if (n <? 0)%Z then "-" +:+ d (- n)%Z else d n.

(** [instanceTakenError.cause]. *)
Definition taken_cause (status : string) (statusChanged : bool) : string :=
  If statusChanged Return "instance status changed to " +:+ status ;;
  "another operation started".

(** The text of an error, [err.Error()]. *)
Fixpoint errText (e : goerr) : string :=
  match e with
  | ESent _ m => m
  | ENew m => m
  | EWrap pre i post => pre +:+ errText i +:+ post
  | EWrap2 a sep b => errText a +:+ sep +:+ errText b
  | EDB op i => if empty op then errText i else op +:+ ": " +:+ errText i
  | EPod i ev => errText i +:+ " (pod event: " +:+ ev +:+ ")"
  | ETaken status changed => "stabilization aborted: " +:+ taken_cause status changed
  | ENamespaceTerminating ns =>
      "namespace " +:+ quote ns +:+ " is still terminating; wait for it to be fully removed, then retry"
  | EHookFailed hook i => "hook " +:+ quote hook +:+ " failed (failure_policy=fail): " +:+ errText i
  | EDenied _ m => m
  | ERedirect code =>
      "hook returned status " +:+ itoa code +:+ " (redirect; redirects are not followed)"
  end.

Example itoa_ok : map itoa [0; 7; 63; 1000; 43200; -15]%Z = ["0"; "7"; "63"; "1000"; "43200"; "-15"].
Proof. reflexivity. Qed.

(** ** Lists *)

(** The first error of a list of checks. *)
Fixpoint first_error {A} (f : A -> error) (l : list A) : error :=
  match l with
  | [] => None
  | x :: l' => match f x with Some e => Some e | None => first_error f l' end
  end.

Lemma first_error_none {A} (f : A -> error) l :
  first_error f l = None <-> Forall (fun x => f x = None) l.
Proof.
  induction l as [|x l IH]; simpl.
  - split; [constructor | done].
  - rewrite Forall_cons, <- IH. destruct (f x); [split; [done | by intros [? ?]] | tauto].
Qed.

(** ** Names: first and last characters *)

Definition first_is (p : ascii -> bool) (s : string) : bool :=
  match s with String c _ => p c | EmptyString => false end.

Fixpoint last_is (p : ascii -> bool) (s : string) : bool :=
  match s with
  | EmptyString => false
  | String c EmptyString => p c
  | String _ s' => last_is p s'
  end.

Lemma last_is_snoc p s d : last_is p (s +:+ String d "") = p d.
Proof.
  induction s as [|c s IH]; [done|]. rewrite sapp_cons.
  cbn [last_is]. destruct (s +:+ String d "") eqn:E; [|done].
  by apply sapp_eq_nil in E as [_ ?].
Qed.

Lemma last_is_app p s t : t <> "" -> last_is p (s +:+ t) = last_is p t.
Proof.
  intros Ht. induction s as [|c s IH]; [done|]. rewrite sapp_cons. cbn [last_is].
  destruct (s +:+ t) eqn:E; [|done]. by apply sapp_eq_nil in E as [_ ?].
Qed.

Lemma last_is_inv p s : last_is p s = true -> exists t d, s = t +:+ String d "" /\ p d = true.
Proof.
  induction s as [|c s IH]; [done|]. cbn [last_is]. destruct s as [|d s].
  - intros H. by exists "", c.
  - intros (t & e & -> & He)%IH. exists (String c t), e. by rewrite sapp_cons.
Qed.

(** A name pattern accepts exactly the names of middle characters that start
    and end with an edge character. *)
Lemma name_re_spec edge mid s :
  (forall c, edge c = true -> mid c = true) ->
  MatchString (name_re edge mid) s = true <->
  sforall mid s = true /\ first_is edge s = true /\ last_is edge s = true.
Proof.
  intros Hsub. rewrite name_re_iff. split.
  - intros (c & Hc & [-> | (m & d & -> & Hm & Hd)]).
    + simpl. by rewrite Hsub, Hc.
    + split_and!; [| done |].
      * simpl. rewrite sforall_app, Hm. simpl. by rewrite !Hsub.
      * by rewrite <- sapp_cons, last_is_snoc.
  - intros (Hall & Hfirst & Hlast). destruct s as [|c s]; [done|]. exists c. split; [done|].
    destruct s as [|c' s]; [by left|]. right.
    cbn [last_is] in Hlast. destruct (last_is_inv edge (String c' s) Hlast) as (m & d & E & Hd).
    exists m, d. split; [by rewrite E|]. split; [|done].
    cbn [sforall] in Hall. apply andb_true_iff in Hall as [_ Hall].
    change (mid c' && sforall mid s)%bool with (sforall mid (String c' s)) in Hall.
    rewrite E, sforall_app in Hall. by apply andb_true_iff in Hall as [? _].
Qed.

(** ** UTF-8 *)

Definition cont_in (lo hi : nat) (c : ascii) : bool :=
  let n := nat_of_ascii c in (lo <=? n)%nat && (n <=? hi)%nat.
Definition cont : ascii -> bool := cont_in 128 191.

(** [utf8.ValidString]. *)
Fixpoint valid_utf8 (s : string) : bool :=
  match s with
  | EmptyString => true
  | String c s1 =>
      let n := nat_of_ascii c in
      if (n <? 128)%nat then valid_utf8 s1
      else if (n <? 194)%nat then false
      else match s1 with
      | EmptyString => false
      | String c1 s2 =>
          if (n <? 224)%nat then cont c1 && valid_utf8 s2
          else match s2 with
          | EmptyString => false
          | String c2 s3 =>
              if (n <? 240)%nat then
                cont_in (if (n =? 224)%nat then 160 else 128) (if (n =? 237)%nat then 159 else 191) c1
                && cont c2 && valid_utf8 s3
              else match s3 with
              | EmptyString => false
              | String c3 s4 =>
                  (n <? 245)%nat &&
                  cont_in (if (n =? 240)%nat then 144 else 128) (if (n =? 244)%nat then 143 else 191) c1
                  && cont c2 && cont c3 && valid_utf8 s4
              end
          end
      end
  end.
