(* ===== verification/Decimals.v ===== *)
(** * Decimal numbers

    [strconv.ParseInt] and [strconv.Atoi] on the texts the backend reads (the
    block times of [sessionstore], the conditions of a cleanup policy), and the
    lemma that a printed number reads back as itself. *)

From S2P Require Import Prelude.
Local Open Scope string_scope.

Definition digit_value (c : ascii) : option Z :=
  if is_digit c then Some (Z.of_nat (nat_of_ascii c) - 48)%Z else None.
Fixpoint parse_digits (s : string) (acc : Z) : option Z :=
  match s with
  | EmptyString => Some acc
  | String c s' => d ← digit_value c; parse_digits s' (10 * acc + d)%Z
  end.

(** [strconv.ParseInt(s, 10, 64)]; [None] is an error (syntax or range). *)
Definition ParseInt (s : string) : option Z :=
  let '(negative, digits) := match s with
                             | String "-" s' => (true, s')
                             | String "+" s' => (false, s')
                             | _ => (false, s)
                             end in
  If empty digits Return None ;;
  n ← parse_digits digits 0;
  let v := (if negative : bool then - n else n)%Z in
  If (v <? - 2 ^ 63)%Z || (2 ^ 63 <=? v)%Z Return None ;;
  Some v.

(** ** Numbers that are written and read back *)

Lemma digits_aux_S f n acc :
  digits_aux (S f) n acc =
  let acc' := String (ascii_of_nat (Z.to_nat (48 + n mod 10))) acc in
  if (n <? 10)%Z then acc' else digits_aux f (n / 10) acc'.
Proof. done. Qed.

Lemma digits_aux_acc f n acc : digits_aux f n acc = digits_aux f n "" +:+ acc.
Proof.
  revert n acc. induction f as [|f IH]; intros n acc; [done|]. cbn [digits_aux].
  destruct (n <? 10)%Z; [by rewrite sapp_cons, sapp_empty|].
  rewrite IH, (IH _ (String _ "")), <- sapp_assoc. by rewrite sapp_cons, sapp_empty.
Qed.

Lemma parse_digits_app a b acc :
  parse_digits (a +:+ b) acc = (parse_digits a acc ≫= parse_digits b).
Proof.
  revert acc. induction a as [|c a IH]; intros acc; [done|]. rewrite sapp_cons. cbn [parse_digits].
  destruct (digit_value c) as [d|]; cbn; [apply IH|done].
Qed.

Lemma digit_of_digit n :
  (0 <= n < 10)%Z -> is_digit (ascii_of_nat (Z.to_nat (48 + n))) = true /\
  digit_value (ascii_of_nat (Z.to_nat (48 + n))) = Some n.
Proof.
  intros Hn. rewrite <- (Z2Nat.id n) by lia. assert (Hk : (Z.to_nat n < 10)%nat) by lia.
  revert Hk. generalize (Z.to_nat n). intros k Hk. clear n Hn.
  do 10 (destruct k as [|k]; [by vm_compute|]). lia.
Qed.

(** Enough fuel: the digits are digits and give the number back. *)
Lemma digits_aux_spec f : forall n, (0 <= n)%Z -> (n < 10 ^ Z.of_nat (S f))%Z ->
  sforall is_digit (digits_aux (S f) n "") = true /\ digits_aux (S f) n "" <> "" /\
  forall acc, exists k, (0 <= k)%Z /\ parse_digits (digits_aux (S f) n "") acc = Some (acc * 10 ^ k + n)%Z.
Proof.
  induction f as [|f IH]; intros n Hn Hlt.
  - cbn [digits_aux]. change (10 ^ Z.of_nat 1)%Z with 10%Z in Hlt. rewrite (proj2 (Z.ltb_lt n 10%Z)) by done.
    rewrite Z.mod_small by done. destruct (digit_of_digit n) as [Hd Hv]; [done|]. split_and!; [cbn; by rewrite Hd|done|].
    intros acc. exists 1%Z. cbn. rewrite Hv. cbn. split; [done|]. f_equal. lia.
  - rewrite digits_aux_S. cbv zeta. destruct (Z.ltb_spec n 10) as [H10|H10].
    { rewrite Z.mod_small by done. destruct (digit_of_digit n) as [Hd Hv]; [done|]. split_and!; [cbn; by rewrite Hd|done|].
      intros acc. exists 1%Z. cbn. rewrite Hv. cbn. split; [done|]. f_equal. lia. }
    assert (Hm : (0 <= n mod 10 < 10)%Z) by (by apply Z.mod_pos_bound).
    destruct (IH (n / 10)%Z) as (Ha & Hne & Hp).
    { apply Z.div_pos; lia. }
    { apply Z.div_lt_upper_bound; [done|]. rewrite <- Z.pow_succ_r by lia. by rewrite <- Nat2Z.inj_succ. }
    destruct (digit_of_digit (n mod 10) Hm) as [Hd Hv]. rewrite digits_aux_acc. split_and!.
    + rewrite sforall_app, Ha. cbn. by rewrite Hd.
    + intros E. by apply sapp_eq_nil in E as [_ ?].
    + intros acc. destruct (Hp acc) as (k & Hk & E). exists (k + 1)%Z. split; [lia|]. rewrite parse_digits_app, E. cbn.
      rewrite Hv. cbn. f_equal. rewrite Z.pow_add_r by lia. change (10 ^ 1)%Z with 10%Z.
      pose proof (Z.div_mod n 10). lia.
Qed.

Lemma itoa_digits (n : Z) : (0 <= n)%Z ->
  sforall is_digit (itoa n) = true /\ itoa n <> "" /\ parse_digits (itoa n) 0%Z = Some n.
Proof.
  intros Hn. unfold itoa. rewrite (proj2 (Z.ltb_ge n 0%Z)) by done.
  destruct (digits_aux_spec (Z.to_nat (Z.log2 n)) n Hn) as (Ha & Hne & Hp).
  - destruct (Z.eq_dec n 0%Z) as [->|Hz]; [done|]. pose proof (Z.log2_spec n ltac:(lia)) as [_ H2].
    rewrite Nat2Z.inj_succ, Z2Nat.id by apply Z.log2_nonneg. eapply Z.lt_le_trans; [exact H2|].
    by apply Z.pow_le_mono_l.
  - split_and!; [done|done|]. destruct (Hp 0%Z) as (k & _ & E). rewrite E. done.
Qed.

(** A text of digits has no space to trim. *)
Lemma strip_one_digit encs c s :
  forallb (fun e => match e with String d _ => negb (Ascii.eqb d c) | EmptyString => false end) encs = true ->
  strip_one encs (String c s) = None.
Proof.
  induction encs as [|e encs IH]; [done|]. cbn [forallb strip_one]. intros [He Ht]%andb_true_iff.
  destruct e as [|d e]; [done|]. cbn [HasPrefix]. apply negb_true_iff in He. rewrite He. cbn. by apply IH.
Qed.

Lemma digit_cases c : is_digit c = true -> exists n, (n < 10)%nat /\ c = ascii_of_nat (48 + n).
Proof.
  unfold is_digit, in_range. intros [H1 H2]%andb_true_iff. apply Nat.leb_le in H1, H2.
  exists (nat_of_ascii c - 48)%nat. change (nat_of_ascii "0") with 48%nat in H1. change (nat_of_ascii "9") with 57%nat in H2.
  split; [lia|]. replace (48 + (nat_of_ascii c - 48))%nat with (nat_of_ascii c) by lia.
  symmetry. apply ascii_nat_embedding.
Qed.

Lemma space_free c :
  is_digit c = true ->
  forallb (fun e => match e with String d _ => negb (Ascii.eqb d c) | EmptyString => false end) space_encodings = true /\
  forallb (fun e => match e with String d _ => negb (Ascii.eqb d c) | EmptyString => false end)
    (map srev space_encodings) = true.
Proof. intros H. destruct (digit_cases c H) as (n & Hn & ->). by do 10 (destruct n as [|n]; [by vm_compute|]); lia. Qed.

Lemma strip_all_digit fuel encs c s :
  strip_one encs (String c s) = None -> strip_all fuel encs (String c s) = String c s.
Proof. intros E. destruct fuel; [done|]. cbn [strip_all]. by rewrite E. Qed.

Lemma TrimSpace_digits s : sforall is_digit s = true -> TrimSpace s = s.
Proof.
  intros Hs. unfold TrimSpace. destruct s as [|c s]; [done|].
  assert (E0 : strip_one space_encodings (String c s) = None).
  { apply strip_one_digit, (proj1 (space_free c ltac:(by apply andb_true_iff in Hs as [? _]))). }
  rewrite (strip_all_digit _ space_encodings c s E0).
  pose proof (sforall_srev is_digit (String c s)) as Hr. rewrite Hs in Hr. pose proof (srev_involutive (String c s)) as Hi.
  destruct (srev (String c s)) as [|d r] eqn:E; [done|].
  rewrite strip_all_digit; [done|].
  apply strip_one_digit, (proj2 (space_free d ltac:(by apply andb_true_iff in Hr as [? _]))).
Qed.

Lemma ParseInt_itoa n : (0 <= n < 2 ^ 63)%Z -> ParseInt (TrimSpace (itoa n)) = Some n.
Proof.
  intros Hn. destruct (itoa_digits n) as (Hd & Hne & Hp); [lia|]. rewrite TrimSpace_digits by done.
  unfold ParseInt. destruct (itoa n) as [|c s] eqn:E; [done|].
  assert (Hc : is_digit c = true) by (cbn in Hd; by apply andb_true_iff in Hd as [? _]).
  assert (Hsign : match String c s with
                  | String "-" s' => (true, s') | String "+" s' => (false, s') | _ => (false, String c s)
                  end = (false, String c s)).
  { destruct (digit_cases c Hc) as (d & Hd10 & ->). by do 10 (destruct d as [|d]; [reflexivity|]); lia. }
  rewrite Hsign. cbn [empty]. rewrite (proj2 (empty_false _)) by done. rewrite Hp. cbn [mbind option_bind].
  rewrite (proj2 (Z.ltb_ge n (- 2 ^ 63)%Z)), (proj2 (Z.leb_gt (2 ^ 63)%Z n)) by lia. done.
Qed.
