(* ===== verification/Models.v ===== *)
(** * The data model and its validation

    The records of [backend/internal/models] with their [Validate] methods,
    the chart source allowlist ([models/chart_source.go]) and the quota merge
    ([models/quota_merge.go]). Times are nanoseconds since Go's zero time
    ([0] is the zero time), a nil pointer is [None]. *)

From S2P Require Import Prelude.
Local Open Scope string_scope.

(** ** Records *)

Abbreviation time := Z.
Definition IsZero (t : time) : bool := (t =? 0)%Z.

Record StackInstance := mkInstance {
  si_ID : string;
  si_StackDefinitionID : string;
  si_Name : string;
  si_Namespace : string;
  si_OwnerID : string;
  si_Branch : string;
  si_ClusterID : string;
  si_Status : string;
  si_ErrorMessage : string;
  si_LastDeployedValues : string;
  si_TTLMinutes : Z;
  si_CreatedAt : time;
  si_UpdatedAt : time;
  si_LastDeployedAt : option time;
  si_ExpiresAt : option time;
  si_ExpiryWarnedAt : option time;
  si_StoppedAt : option time;
  si_CleanedAt : option time;
  si_PostDeployHookUntil : option time;
  si_DeleteAfterClean : bool
}.

(** Field updates, as the assignments [x.F = v] of the code. *)
Definition si_set_Status (v : string) (x : StackInstance) : StackInstance :=
  mkInstance (si_ID x) (si_StackDefinitionID x) (si_Name x) (si_Namespace x) (si_OwnerID x) (si_Branch x)
    (si_ClusterID x) v (si_ErrorMessage x) (si_LastDeployedValues x) (si_TTLMinutes x) (si_CreatedAt x)
    (si_UpdatedAt x) (si_LastDeployedAt x) (si_ExpiresAt x) (si_ExpiryWarnedAt x) (si_StoppedAt x)
    (si_CleanedAt x) (si_PostDeployHookUntil x) (si_DeleteAfterClean x).
Definition si_set_ErrorMessage (v : string) (x : StackInstance) : StackInstance :=
  mkInstance (si_ID x) (si_StackDefinitionID x) (si_Name x) (si_Namespace x) (si_OwnerID x) (si_Branch x)
    (si_ClusterID x) (si_Status x) v (si_LastDeployedValues x) (si_TTLMinutes x) (si_CreatedAt x)
    (si_UpdatedAt x) (si_LastDeployedAt x) (si_ExpiresAt x) (si_ExpiryWarnedAt x) (si_StoppedAt x)
    (si_CleanedAt x) (si_PostDeployHookUntil x) (si_DeleteAfterClean x).
Definition si_set_LastDeployedValues (v : string) (x : StackInstance) : StackInstance :=
  mkInstance (si_ID x) (si_StackDefinitionID x) (si_Name x) (si_Namespace x) (si_OwnerID x) (si_Branch x)
    (si_ClusterID x) (si_Status x) (si_ErrorMessage x) v (si_TTLMinutes x) (si_CreatedAt x) (si_UpdatedAt x)
    (si_LastDeployedAt x) (si_ExpiresAt x) (si_ExpiryWarnedAt x) (si_StoppedAt x) (si_CleanedAt x)
    (si_PostDeployHookUntil x) (si_DeleteAfterClean x).
Definition si_set_UpdatedAt (v : time) (x : StackInstance) : StackInstance :=
  mkInstance (si_ID x) (si_StackDefinitionID x) (si_Name x) (si_Namespace x) (si_OwnerID x) (si_Branch x)
    (si_ClusterID x) (si_Status x) (si_ErrorMessage x) (si_LastDeployedValues x) (si_TTLMinutes x)
    (si_CreatedAt x) v (si_LastDeployedAt x) (si_ExpiresAt x) (si_ExpiryWarnedAt x) (si_StoppedAt x)
    (si_CleanedAt x) (si_PostDeployHookUntil x) (si_DeleteAfterClean x).
Definition si_set_LastDeployedAt (v : option time) (x : StackInstance) : StackInstance :=
  mkInstance (si_ID x) (si_StackDefinitionID x) (si_Name x) (si_Namespace x) (si_OwnerID x) (si_Branch x)
    (si_ClusterID x) (si_Status x) (si_ErrorMessage x) (si_LastDeployedValues x) (si_TTLMinutes x)
    (si_CreatedAt x) (si_UpdatedAt x) v (si_ExpiresAt x) (si_ExpiryWarnedAt x) (si_StoppedAt x)
    (si_CleanedAt x) (si_PostDeployHookUntil x) (si_DeleteAfterClean x).
Definition si_set_ExpiresAt (v : option time) (x : StackInstance) : StackInstance :=
  mkInstance (si_ID x) (si_StackDefinitionID x) (si_Name x) (si_Namespace x) (si_OwnerID x) (si_Branch x)
    (si_ClusterID x) (si_Status x) (si_ErrorMessage x) (si_LastDeployedValues x) (si_TTLMinutes x)
    (si_CreatedAt x) (si_UpdatedAt x) (si_LastDeployedAt x) v (si_ExpiryWarnedAt x) (si_StoppedAt x)
    (si_CleanedAt x) (si_PostDeployHookUntil x) (si_DeleteAfterClean x).
Definition si_set_ExpiryWarnedAt (v : option time) (x : StackInstance) : StackInstance :=
  mkInstance (si_ID x) (si_StackDefinitionID x) (si_Name x) (si_Namespace x) (si_OwnerID x) (si_Branch x)
    (si_ClusterID x) (si_Status x) (si_ErrorMessage x) (si_LastDeployedValues x) (si_TTLMinutes x)
    (si_CreatedAt x) (si_UpdatedAt x) (si_LastDeployedAt x) (si_ExpiresAt x) v (si_StoppedAt x)
    (si_CleanedAt x) (si_PostDeployHookUntil x) (si_DeleteAfterClean x).
Definition si_set_StoppedAt (v : option time) (x : StackInstance) : StackInstance :=
  mkInstance (si_ID x) (si_StackDefinitionID x) (si_Name x) (si_Namespace x) (si_OwnerID x) (si_Branch x)
    (si_ClusterID x) (si_Status x) (si_ErrorMessage x) (si_LastDeployedValues x) (si_TTLMinutes x)
    (si_CreatedAt x) (si_UpdatedAt x) (si_LastDeployedAt x) (si_ExpiresAt x) (si_ExpiryWarnedAt x) v
    (si_CleanedAt x) (si_PostDeployHookUntil x) (si_DeleteAfterClean x).
Definition si_set_CleanedAt (v : option time) (x : StackInstance) : StackInstance :=
  mkInstance (si_ID x) (si_StackDefinitionID x) (si_Name x) (si_Namespace x) (si_OwnerID x) (si_Branch x)
    (si_ClusterID x) (si_Status x) (si_ErrorMessage x) (si_LastDeployedValues x) (si_TTLMinutes x)
    (si_CreatedAt x) (si_UpdatedAt x) (si_LastDeployedAt x) (si_ExpiresAt x) (si_ExpiryWarnedAt x)
    (si_StoppedAt x) v (si_PostDeployHookUntil x) (si_DeleteAfterClean x).
Definition si_set_PostDeployHookUntil (v : option time) (x : StackInstance) : StackInstance :=
  mkInstance (si_ID x) (si_StackDefinitionID x) (si_Name x) (si_Namespace x) (si_OwnerID x) (si_Branch x)
    (si_ClusterID x) (si_Status x) (si_ErrorMessage x) (si_LastDeployedValues x) (si_TTLMinutes x)
    (si_CreatedAt x) (si_UpdatedAt x) (si_LastDeployedAt x) (si_ExpiresAt x) (si_ExpiryWarnedAt x)
    (si_StoppedAt x) (si_CleanedAt x) v (si_DeleteAfterClean x).
Definition si_set_DeleteAfterClean (v : bool) (x : StackInstance) : StackInstance :=
  mkInstance (si_ID x) (si_StackDefinitionID x) (si_Name x) (si_Namespace x) (si_OwnerID x) (si_Branch x)
    (si_ClusterID x) (si_Status x) (si_ErrorMessage x) (si_LastDeployedValues x) (si_TTLMinutes x)
    (si_CreatedAt x) (si_UpdatedAt x) (si_LastDeployedAt x) (si_ExpiresAt x) (si_ExpiryWarnedAt x)
    (si_StoppedAt x) (si_CleanedAt x) (si_PostDeployHookUntil x) v.

#[global] Instance StackInstance_eq_dec : EqDecision StackInstance.
Proof. solve_decision. Defined.


(** The status constants of a stack instance. *)
Definition StackStatusDraft := "draft".
Definition StackStatusQueued := "queued".
Definition StackStatusDeploying := "deploying".
Definition StackStatusStabilizing := "stabilizing".
Definition StackStatusRunning := "running".
Definition StackStatusStopping := "stopping".
Definition StackStatusStopped := "stopped".
Definition StackStatusCleaning := "cleaning".
Definition StackStatusPartial := "partial".
Definition StackStatusError := "error".

Definition IsValidStackStatus (status : string) : bool :=
  bool_decide (status ∈ [StackStatusDraft; StackStatusQueued; StackStatusDeploying;
    StackStatusStabilizing; StackStatusRunning; StackStatusStopping; StackStatusStopped;
    StackStatusCleaning; StackStatusPartial; StackStatusError]).

(** The statuses of an instance with cluster resources. *)
Definition CleanStatuses : list string :=
  [StackStatusRunning; StackStatusPartial; StackStatusStopped; StackStatusError].

Definition DeleteCleanFailedMessage := "Clean failed; the stack was not deleted.".

Record DeploymentLog := mkLog {
  dl_ID : string;
  dl_StackInstanceID : string;
  dl_Action : string;
  dl_Status : string;
  dl_Output : string;
  dl_ErrorMessage : string;
  dl_ValuesSnapshot : string;
  dl_TargetLogID : string;
  dl_Branch : string;
  dl_ChartVersions : string;
  dl_UserID : string;
  dl_ReplicaID : string;
  dl_StartedAt : time;
  dl_CompletedAt : option time;
  dl_DeadlineAt : option time
}.

(** Field updates, as the assignments [x.F = v] of the code. *)
Definition dl_set_Status (v : string) (x : DeploymentLog) : DeploymentLog :=
  mkLog (dl_ID x) (dl_StackInstanceID x) (dl_Action x) v (dl_Output x) (dl_ErrorMessage x)
    (dl_ValuesSnapshot x) (dl_TargetLogID x) (dl_Branch x) (dl_ChartVersions x) (dl_UserID x)
    (dl_ReplicaID x) (dl_StartedAt x) (dl_CompletedAt x) (dl_DeadlineAt x).
Definition dl_set_Output (v : string) (x : DeploymentLog) : DeploymentLog :=
  mkLog (dl_ID x) (dl_StackInstanceID x) (dl_Action x) (dl_Status x) v (dl_ErrorMessage x)
    (dl_ValuesSnapshot x) (dl_TargetLogID x) (dl_Branch x) (dl_ChartVersions x) (dl_UserID x)
    (dl_ReplicaID x) (dl_StartedAt x) (dl_CompletedAt x) (dl_DeadlineAt x).
Definition dl_set_ErrorMessage (v : string) (x : DeploymentLog) : DeploymentLog :=
  mkLog (dl_ID x) (dl_StackInstanceID x) (dl_Action x) (dl_Status x) (dl_Output x) v (dl_ValuesSnapshot x)
    (dl_TargetLogID x) (dl_Branch x) (dl_ChartVersions x) (dl_UserID x) (dl_ReplicaID x) (dl_StartedAt x)
    (dl_CompletedAt x) (dl_DeadlineAt x).
Definition dl_set_ValuesSnapshot (v : string) (x : DeploymentLog) : DeploymentLog :=
  mkLog (dl_ID x) (dl_StackInstanceID x) (dl_Action x) (dl_Status x) (dl_Output x) (dl_ErrorMessage x) v
    (dl_TargetLogID x) (dl_Branch x) (dl_ChartVersions x) (dl_UserID x) (dl_ReplicaID x) (dl_StartedAt x)
    (dl_CompletedAt x) (dl_DeadlineAt x).
Definition dl_set_Branch (v : string) (x : DeploymentLog) : DeploymentLog :=
  mkLog (dl_ID x) (dl_StackInstanceID x) (dl_Action x) (dl_Status x) (dl_Output x) (dl_ErrorMessage x)
    (dl_ValuesSnapshot x) (dl_TargetLogID x) v (dl_ChartVersions x) (dl_UserID x) (dl_ReplicaID x)
    (dl_StartedAt x) (dl_CompletedAt x) (dl_DeadlineAt x).
Definition dl_set_CompletedAt (v : option time) (x : DeploymentLog) : DeploymentLog :=
  mkLog (dl_ID x) (dl_StackInstanceID x) (dl_Action x) (dl_Status x) (dl_Output x) (dl_ErrorMessage x)
    (dl_ValuesSnapshot x) (dl_TargetLogID x) (dl_Branch x) (dl_ChartVersions x) (dl_UserID x)
    (dl_ReplicaID x) (dl_StartedAt x) v (dl_DeadlineAt x).
Definition dl_set_DeadlineAt (v : option time) (x : DeploymentLog) : DeploymentLog :=
  mkLog (dl_ID x) (dl_StackInstanceID x) (dl_Action x) (dl_Status x) (dl_Output x) (dl_ErrorMessage x)
    (dl_ValuesSnapshot x) (dl_TargetLogID x) (dl_Branch x) (dl_ChartVersions x) (dl_UserID x)
    (dl_ReplicaID x) (dl_StartedAt x) (dl_CompletedAt x) v.

#[global] Instance DeploymentLog_eq_dec : EqDecision DeploymentLog.
Proof. solve_decision. Defined.


Definition DeployActionDeploy := "deploy".
Definition DeployActionStop := "stop".
Definition DeployActionClean := "clean".
Definition DeployActionRollback := "rollback".

Definition DeployLogRunning := "running".
Definition DeployLogSuccess := "success".
Definition DeployLogError := "error".
Definition DeployLogPartial := "partial".

Definition IsDeployLogAction (action : string) : bool :=
  bool_decide (action ∈ [DeployActionDeploy; DeployActionRollback; DeployActionStop; DeployActionClean]).

Definition IsDeployLogStatus (status : string) : bool :=
  bool_decide (status ∈ [DeployLogRunning; DeployLogSuccess; DeployLogError; DeployLogPartial]).

(** [TemplateChartConfig] and [ChartConfig] differ in the parent ID and in the
    locked values and required flag of a template chart. *)
Record ChartConfig := mkChart {
  cc_ID : string;
  cc_StackDefinitionID : string;
  cc_ChartName : string;
  cc_RepositoryURL : string;
  cc_SourceRepoURL : string;
  cc_BuildPipelineID : string;
  cc_ChartPath : string;
  cc_ChartVersion : string;
  cc_DefaultValues : string;
  cc_DeployOrder : Z
}.

Record TemplateChartConfig := mkTChart {
  tc_ID : string;
  tc_StackTemplateID : string;
  tc_ChartName : string;
  tc_RepositoryURL : string;
  tc_SourceRepoURL : string;
  tc_BuildPipelineID : string;
  tc_ChartPath : string;
  tc_ChartVersion : string;
  tc_DefaultValues : string;
  tc_LockedValues : string;
  tc_DeployOrder : Z;
  tc_Required : bool
}.

Record Cluster := mkCluster {
  cl_CreatedAt : time;
  cl_UpdatedAt : time;
  cl_ID : string;
  cl_Name : string;
  cl_Description : string;
  cl_APIServerURL : string;
  cl_KubeconfigData : string;
  cl_KubeconfigPath : string;
  cl_Region : string;
  cl_HealthStatus : string;
  cl_RegistryURL : string;
  cl_RegistryUsername : string;
  cl_RegistryPassword : string;
  cl_RegistryPasswordUnreadable : bool;
  cl_ImagePullSecretName : string;
  cl_MaxNamespaces : Z;
  cl_MaxInstancesPerUser : Z;
  cl_IsDefault : bool;
  cl_UseInCluster : bool;
  cl_AllowPortForward : bool;
  cl_AllowExec : bool
}.
#[global] Instance Cluster_eq_dec : EqDecision Cluster.
Proof. solve_decision. Defined.
Definition cl_set_CreatedAt (v : time) (c : Cluster) : Cluster :=
  mkCluster v (cl_UpdatedAt c) (cl_ID c) (cl_Name c) (cl_Description c) (cl_APIServerURL c)
    (cl_KubeconfigData c) (cl_KubeconfigPath c) (cl_Region c) (cl_HealthStatus c) (cl_RegistryURL c)
    (cl_RegistryUsername c) (cl_RegistryPassword c) (cl_RegistryPasswordUnreadable c)
    (cl_ImagePullSecretName c) (cl_MaxNamespaces c) (cl_MaxInstancesPerUser c) (cl_IsDefault c)
    (cl_UseInCluster c) (cl_AllowPortForward c) (cl_AllowExec c).
Definition cl_set_UpdatedAt (v : time) (c : Cluster) : Cluster :=
  mkCluster (cl_CreatedAt c) v (cl_ID c) (cl_Name c) (cl_Description c) (cl_APIServerURL c)
    (cl_KubeconfigData c) (cl_KubeconfigPath c) (cl_Region c) (cl_HealthStatus c) (cl_RegistryURL c)
    (cl_RegistryUsername c) (cl_RegistryPassword c) (cl_RegistryPasswordUnreadable c)
    (cl_ImagePullSecretName c) (cl_MaxNamespaces c) (cl_MaxInstancesPerUser c) (cl_IsDefault c)
    (cl_UseInCluster c) (cl_AllowPortForward c) (cl_AllowExec c).
Definition cl_set_ID (v : string) (c : Cluster) : Cluster :=
  mkCluster (cl_CreatedAt c) (cl_UpdatedAt c) v (cl_Name c) (cl_Description c) (cl_APIServerURL c)
    (cl_KubeconfigData c) (cl_KubeconfigPath c) (cl_Region c) (cl_HealthStatus c) (cl_RegistryURL c)
    (cl_RegistryUsername c) (cl_RegistryPassword c) (cl_RegistryPasswordUnreadable c)
    (cl_ImagePullSecretName c) (cl_MaxNamespaces c) (cl_MaxInstancesPerUser c) (cl_IsDefault c)
    (cl_UseInCluster c) (cl_AllowPortForward c) (cl_AllowExec c).
Definition cl_set_KubeconfigData (v : string) (c : Cluster) : Cluster :=
  mkCluster (cl_CreatedAt c) (cl_UpdatedAt c) (cl_ID c) (cl_Name c) (cl_Description c)
    (cl_APIServerURL c) v (cl_KubeconfigPath c) (cl_Region c) (cl_HealthStatus c) (cl_RegistryURL c)
    (cl_RegistryUsername c) (cl_RegistryPassword c) (cl_RegistryPasswordUnreadable c)
    (cl_ImagePullSecretName c) (cl_MaxNamespaces c) (cl_MaxInstancesPerUser c) (cl_IsDefault c)
    (cl_UseInCluster c) (cl_AllowPortForward c) (cl_AllowExec c).
Definition cl_set_KubeconfigPath (v : string) (c : Cluster) : Cluster :=
  mkCluster (cl_CreatedAt c) (cl_UpdatedAt c) (cl_ID c) (cl_Name c) (cl_Description c)
    (cl_APIServerURL c) (cl_KubeconfigData c) v (cl_Region c) (cl_HealthStatus c) (cl_RegistryURL c)
    (cl_RegistryUsername c) (cl_RegistryPassword c) (cl_RegistryPasswordUnreadable c)
    (cl_ImagePullSecretName c) (cl_MaxNamespaces c) (cl_MaxInstancesPerUser c) (cl_IsDefault c)
    (cl_UseInCluster c) (cl_AllowPortForward c) (cl_AllowExec c).
Definition cl_set_HealthStatus (v : string) (c : Cluster) : Cluster :=
  mkCluster (cl_CreatedAt c) (cl_UpdatedAt c) (cl_ID c) (cl_Name c) (cl_Description c)
    (cl_APIServerURL c) (cl_KubeconfigData c) (cl_KubeconfigPath c) (cl_Region c) v (cl_RegistryURL c)
    (cl_RegistryUsername c) (cl_RegistryPassword c) (cl_RegistryPasswordUnreadable c)
    (cl_ImagePullSecretName c) (cl_MaxNamespaces c) (cl_MaxInstancesPerUser c) (cl_IsDefault c)
    (cl_UseInCluster c) (cl_AllowPortForward c) (cl_AllowExec c).
Definition cl_set_RegistryPassword (v : string) (c : Cluster) : Cluster :=
  mkCluster (cl_CreatedAt c) (cl_UpdatedAt c) (cl_ID c) (cl_Name c) (cl_Description c)
    (cl_APIServerURL c) (cl_KubeconfigData c) (cl_KubeconfigPath c) (cl_Region c) (cl_HealthStatus c)
    (cl_RegistryURL c) (cl_RegistryUsername c) v (cl_RegistryPasswordUnreadable c)
    (cl_ImagePullSecretName c) (cl_MaxNamespaces c) (cl_MaxInstancesPerUser c) (cl_IsDefault c)
    (cl_UseInCluster c) (cl_AllowPortForward c) (cl_AllowExec c).
Definition cl_set_RegistryPasswordUnreadable (v : bool) (c : Cluster) : Cluster :=
  mkCluster (cl_CreatedAt c) (cl_UpdatedAt c) (cl_ID c) (cl_Name c) (cl_Description c)
    (cl_APIServerURL c) (cl_KubeconfigData c) (cl_KubeconfigPath c) (cl_Region c) (cl_HealthStatus c)
    (cl_RegistryURL c) (cl_RegistryUsername c) (cl_RegistryPassword c) v (cl_ImagePullSecretName c)
    (cl_MaxNamespaces c) (cl_MaxInstancesPerUser c) (cl_IsDefault c) (cl_UseInCluster c)
    (cl_AllowPortForward c) (cl_AllowExec c).
Definition cl_set_IsDefault (v : bool) (c : Cluster) : Cluster :=
  mkCluster (cl_CreatedAt c) (cl_UpdatedAt c) (cl_ID c) (cl_Name c) (cl_Description c)
    (cl_APIServerURL c) (cl_KubeconfigData c) (cl_KubeconfigPath c) (cl_Region c) (cl_HealthStatus c)
    (cl_RegistryURL c) (cl_RegistryUsername c) (cl_RegistryPassword c) (cl_RegistryPasswordUnreadable c)
    (cl_ImagePullSecretName c) (cl_MaxNamespaces c) (cl_MaxInstancesPerUser c) v (cl_UseInCluster c)
    (cl_AllowPortForward c) (cl_AllowExec c).

Definition ClusterHealthy := "healthy".
Definition ClusterDegraded := "degraded".
Definition ClusterUnreachable := "unreachable".

(** ** Validation *)

Definition helmReleaseNameRegex : re := name_re is_alnum (fun c => is_alnum c || char_in c "._-").
Definition rfc1123LabelRegex : re := name_re is_alnum (fun c => is_alnum c || char_in c "-").

Definition MaxInstanceNameLength : Z := 50.
Definition MaxNamespaceLength : Z := 63.
Definition MsgInstanceNameFormat :=
  "name must be a valid DNS label: lowercase letters a-z, digits 0-9 and '-', starting and ending with a letter or digit".

Definition ValidateInstanceName (name : string) : error :=
  If empty name Return errorsNew "name is required" ;;
  If (MaxInstanceNameLength <? len name)%Z Return errorsNew "name must be at most 50 characters" ;;
  If negb (MatchString rfc1123LabelRegex name) Return errorsNew MsgInstanceNameFormat ;;
  None.

Definition StackInstance_Validate (si : StackInstance) : error :=
  If empty (si_StackDefinitionID si) Return errorsNew "stack_definition_id is required" ;;
  If empty (si_Name si) Return errorsNew "name is required" ;;
  If (MaxInstanceNameLength <? len (si_Name si))%Z Return errorsNew "name must be at most 50 characters" ;;
  If empty (si_OwnerID si) Return errorsNew "owner_id is required" ;;
  If (si_TTLMinutes si <? 0)%Z Return errorsNew "ttl_minutes must be non-negative" ;;
  If empty (si_Namespace si) Return None ;;
  If (MaxNamespaceLength <? len (si_Namespace si))%Z Return errorsNew "namespace must be at most 63 characters" ;;
  If negb (MatchString rfc1123LabelRegex (si_Namespace si)) Return
    errorsNew "namespace must be a valid RFC 1123 label: lowercase alphanumeric and dashes, must not start or end with a dash" ;;
  None.

(** The source of a chart: the allowlist is process state set once at startup,
    here an explicit argument. *)
Definition ErrChartSourceNotAllowed := ESent "ErrChartSourceNotAllowed" "chart source not allowed".

Definition is_location_blank (c : ascii) : bool :=
  char_in c (bytes [32; 9; 13; 10; 92]).

Definition is_slash (c : ascii) : bool := ascii_eqb c "/".

Definition chartLocation (repositoryURL chartPath chartName : string) : res string :=
  let repo := TrimSpace repositoryURL in
  let ref := if empty chartPath then chartName else chartPath in
  If negb (empty repo) && (Contains ref "://" || HasPrefix ref "/") Return
    Err (EWrap "" ErrChartSourceNotAllowed ": chart_path must be relative to repository_url") ;;
  let location := if empty repo then ref else TrimRight is_slash repo +:+ "/" +:+ ref in
  If empty location Return Err (EWrap "" ErrChartSourceNotAllowed ": no chart location") ;;
  If Contains location ".." || ContainsAny location is_location_blank Return
    Err (EWrap "" ErrChartSourceNotAllowed ": chart location must not contain '..', '\' or whitespace") ;;
  Ok location.

Definition checkChartSource (allowed : list string) (repositoryURL chartPath chartName : string) : error :=
  match allowed with
  | [] => None
  | _ =>
      match chartLocation repositoryURL chartPath chartName with
      | Err e => Some e
      | Ok location =>
          If existsb (fun prefix => String.eqb location prefix || HasPrefix location (prefix +:+ "/")) allowed
            Return None ;;
          Some (EWrap "" ErrChartSourceNotAllowed (": " +:+ quote location +:+ " is not in an allowed chart repository"))
      end
  end.

(** The chart reference and the [--repo] value that helm gets. *)
Definition ChartReference (repositoryURL chartPath chartName : string) : string * string :=
  let chartRef := if empty chartPath then chartName else chartPath in
  If HasPrefix repositoryURL "oci://" Return
    (TrimRight is_slash repositoryURL +:+ "/" +:+ chartRef, "") ;;
  (chartRef, repositoryURL).

(** One [ALLOWED_CHART_REPOS] entry. *)
Definition NormalizeChartSourcePrefix (raw : string) : res string :=
  let p := TrimRight is_slash (TrimSpace raw) in
  match Cut p "://" with
  | None => Err (ENew (quote raw +:+ ": must be a URL with a scheme and a host, for example oci://registry.example.com/charts"))
  | Some (scheme, rest) =>
      If empty scheme || empty rest Return
        Err (ENew (quote raw +:+ ": must be a URL with a scheme and a host, for example oci://registry.example.com/charts")) ;;
      If negb (bool_decide (ToLower scheme ∈ ["oci"; "https"; "http"])) Return
        Err (ENew (quote raw +:+ ": scheme must be oci, https or http")) ;;
      If ContainsAny p (fun c => is_location_blank c || char_in c "?#@") || Contains p ".." Return
        Err (ENew (quote raw +:+ ": must not contain whitespace, '?', '#', '@', '\' or '..'")) ;;
      Ok p
  end.

Definition ChartConfig_Validate (allowed : list string) (c : ChartConfig) : error :=
  If empty (cc_StackDefinitionID c) Return errorsNew "stack_definition_id is required" ;;
  If empty (cc_ChartName c) Return errorsNew "chart_name is required" ;;
  If (53 <? len (cc_ChartName c))%Z Return errorsNew "chart_name must be at most 53 characters" ;;
  If negb (MatchString helmReleaseNameRegex (cc_ChartName c)) Return
    errorsNew "chart_name must contain only lowercase alphanumeric characters, dashes, dots, or underscores, and must start and end with an alphanumeric character" ;;
  checkChartSource allowed (cc_RepositoryURL c) (cc_ChartPath c) (cc_ChartName c).

Definition TemplateChartConfig_Validate (allowed : list string) (c : TemplateChartConfig) : error :=
  If empty (tc_StackTemplateID c) Return errorsNew "stack_template_id is required" ;;
  If empty (tc_ChartName c) Return errorsNew "chart_name is required" ;;
  If (53 <? len (tc_ChartName c))%Z Return errorsNew "chart_name must be at most 53 characters" ;;
  If negb (MatchString helmReleaseNameRegex (tc_ChartName c)) Return
    errorsNew "chart_name must contain only lowercase alphanumeric characters, dashes, dots, or underscores, and must start and end with an alphanumeric character" ;;
  checkChartSource allowed (tc_RepositoryURL c) (tc_ChartPath c) (tc_ChartName c).

Definition Cluster_Validate (c : Cluster) : error :=
  If empty (cl_Name c) Return errorsNew "name is required" ;;
  If negb (cl_UseInCluster c) && empty (cl_APIServerURL c) Return
    errorsNew "api_server_url is required (unless use_in_cluster is true)" ;;
  let hasData := negb (empty (cl_KubeconfigData c)) in
  let hasPath := negb (empty (cl_KubeconfigPath c)) in
  If hasData && hasPath Return
    errorsNew "only one of kubeconfig_data or kubeconfig_path must be set, not both" ;;
  If negb (cl_UseInCluster c) && negb hasData && negb hasPath Return
    errorsNew "one of kubeconfig_data, kubeconfig_path, or use_in_cluster is required" ;;
  If cl_UseInCluster c && (hasData || hasPath) Return
    errorsNew "kubeconfig_data and kubeconfig_path must not be set when use_in_cluster is true" ;;
  If (cl_MaxNamespaces c <? 0)%Z Return errorsNew "max_namespaces must be non-negative" ;;
  If (cl_MaxInstancesPerUser c <? 0)%Z Return errorsNew "max_instances_per_user must be non-negative" ;;
  If negb (bool_decide (cl_HealthStatus c ∈ [""; ClusterHealthy; ClusterDegraded; ClusterUnreachable])) Return
    errorsNew ("invalid health_status: " +:+ cl_HealthStatus c) ;;
  let hasRegURL := negb (empty (cl_RegistryURL c)) in
  let hasRegUser := negb (empty (cl_RegistryUsername c)) in
  let hasRegPass := negb (empty (cl_RegistryPassword c)) in
  If hasRegURL && (negb hasRegUser || negb hasRegPass) Return
    errorsNew "registry_username and registry_password are required when registry_url is set" ;;
  If (hasRegUser || hasRegPass) && negb hasRegURL Return
    errorsNew "registry_url is required when registry_username or registry_password is set" ;;
  None.

Record RegistryConfig := mkRegistry {
  rc_URL : string; rc_Username : string; rc_Password : string; rc_SecretName : string
}.

Definition Cluster_RegistryConfig (c : Cluster) : option RegistryConfig :=
  If empty (cl_RegistryURL c) || empty (cl_RegistryPassword c) Return None ;;
  Some (mkRegistry (cl_RegistryURL c) (cl_RegistryUsername c) (cl_RegistryPassword c)
    (if empty (cl_ImagePullSecretName c) then "registry-pull-secret" else cl_ImagePullSecretName c)).

(** ** Properties *)

Lemma alnum_sub extra c : is_alnum c = true -> (is_alnum c || char_in c extra)%bool = true.
Proof. by intros ->. Qed.

(** An RFC 1123 label, stated without the pattern. *)
Definition is_rfc1123_label (s : string) : Prop :=
  sforall (fun c => is_alnum c || char_in c "-")%bool s = true /\
  first_is is_alnum s = true /\ last_is is_alnum s = true.

Lemma rfc1123_iff s : MatchString rfc1123LabelRegex s = true <-> is_rfc1123_label s.
Proof. apply name_re_spec, alnum_sub. Qed.

(** A new instance name is accepted exactly when it is an RFC 1123 label of
    at most 50 bytes; the three guards of [ValidateInstanceName] reject
    everything else. *)
Theorem validate_instance_name_iff name :
  ValidateInstanceName name = None <->
  is_rfc1123_label name /\ (len name <= MaxInstanceNameLength)%Z.
Proof.
  unfold ValidateInstanceName. rewrite <- rfc1123_iff. destruct (empty name) eqn:E.
  - apply empty_iff in E as ->. split; [done|]. by intros [? _].
  - destruct (Z.ltb_spec MaxInstanceNameLength (len name)); [split; [done|]; intros [_ ?]; lia|].
    destruct (MatchString rfc1123LabelRegex name); simpl;
      [split; [by intros _ | done] | split; [done | by intros [? _]]].
Qed.

(** *** The chart source allowlist *)

(** [p] allows [location] at a path boundary. *)
Definition under_prefix (location p : string) : Prop :=
  location = p \/ exists rest, location = p +:+ "/" +:+ rest.

Lemma chartLocation_clean repo path name loc :
  chartLocation repo path name = Ok loc ->
  loc <> "" /\ Contains loc ".." = false /\ ContainsAny loc is_location_blank = false /\
  loc = (if empty (TrimSpace repo) then (if empty path then name else path)
         else TrimRight is_slash (TrimSpace repo) +:+ "/" +:+ (if empty path then name else path)).
Proof.
  unfold chartLocation. destruct (negb (empty (TrimSpace repo)) && _)%bool; [done|].
  set (l := if empty (TrimSpace repo) then _ else _).
  destruct (empty l) eqn:El; [done|]. destruct (_ || _)%bool eqn:Ec; [done|].
  apply orb_false_iff in Ec as [Ec1 Ec2]. intros [= <-].
  apply empty_false in El. by split_and!.
Qed.

(** With an allowlist, a chart source passes only when its location lies
    under an allowed prefix at a path boundary and cannot climb out of it (no
    ".."); and for an OCI repository URL without surrounding white space this
    location is the very chart reference that helm gets, with no [--repo]. *)
Theorem chart_source_confined allowed repo path name :
  allowed <> [] -> checkChartSource allowed repo path name = None ->
  exists loc p, chartLocation repo path name = Ok loc /\ p ∈ allowed /\ under_prefix loc p /\
    Contains loc ".." = false /\
    (TrimSpace repo = repo -> HasPrefix repo "oci://" = true -> ChartReference repo path name = (loc, "")).
Proof.
  intros Hne. unfold checkChartSource. destruct allowed as [|a0 al]; [done|]. clear Hne.
  destruct (chartLocation repo path name) as [loc|e] eqn:El; [|done].
  destruct (existsb _ (a0 :: al)) eqn:Ex; [|done]. intros _.
  apply existsb_exists in Ex as (p & Hin & Hp). exists loc, p.
  destruct (chartLocation_clean _ _ _ _ El) as (Hloc & Hdots & _ & Heq).
  split_and!; [done | by apply list_elem_of_In | | done |].
  - apply orb_true_iff in Hp as [Hp|Hp]; [left; by apply String.eqb_eq|].
    right. apply HasPrefix_iff in Hp as (t & ->). exists t. by rewrite sapp_assoc.
  - intros Htrim Hoci. unfold ChartReference. rewrite Hoci. rewrite Htrim in Heq.
    destruct (empty repo) eqn:Er; [|by rewrite Heq].
    apply empty_iff in Er as ->. done.
Qed.

(** The parts of a valid cluster, without the order of the checks. *)
Definition one_source (c : Cluster) : Prop :=
  cl_UseInCluster c = true /\ cl_KubeconfigData c = "" /\ cl_KubeconfigPath c = "" \/
  cl_UseInCluster c = false /\ cl_APIServerURL c <> "" /\ cl_KubeconfigData c <> "" /\ cl_KubeconfigPath c = "" \/
  cl_UseInCluster c = false /\ cl_APIServerURL c <> "" /\ cl_KubeconfigData c = "" /\ cl_KubeconfigPath c <> "".
Definition whole_registry (c : Cluster) : Prop :=
  cl_RegistryURL c = "" /\ cl_RegistryUsername c = "" /\ cl_RegistryPassword c = "" \/
  cl_RegistryURL c <> "" /\ cl_RegistryUsername c <> "" /\ cl_RegistryPassword c <> "".
Definition valid_cluster (c : Cluster) : Prop :=
  cl_Name c <> "" /\ one_source c /\ (0 <= cl_MaxNamespaces c)%Z /\ (0 <= cl_MaxInstancesPerUser c)%Z /\
  cl_HealthStatus c ∈ [""; ClusterHealthy; ClusterDegraded; ClusterUnreachable] /\ whole_registry c.

Lemma cluster_source_iff c :
  (negb (cl_UseInCluster c) && empty (cl_APIServerURL c) = false /\
   negb (empty (cl_KubeconfigData c)) && negb (empty (cl_KubeconfigPath c)) = false /\
   negb (cl_UseInCluster c) && negb (negb (empty (cl_KubeconfigData c))) && negb (negb (empty (cl_KubeconfigPath c))) = false /\
   cl_UseInCluster c && (negb (empty (cl_KubeconfigData c)) || negb (empty (cl_KubeconfigPath c))) = false)%bool <->
  one_source c.
Proof.
  unfold one_source. destruct (empty (cl_APIServerURL c)) eqn:E1, (empty (cl_KubeconfigData c)) eqn:E2, (empty (cl_KubeconfigPath c)) eqn:E3;
    rewrite ?empty_iff, ?empty_false in *; destruct (cl_UseInCluster c); cbn; naive_solver.
Qed.
Lemma cluster_registry_iff c :
  (negb (empty (cl_RegistryURL c)) && (negb (negb (empty (cl_RegistryUsername c))) || negb (negb (empty (cl_RegistryPassword c)))) = false /\
   (negb (empty (cl_RegistryUsername c)) || negb (empty (cl_RegistryPassword c))) && negb (negb (empty (cl_RegistryURL c))) = false)%bool <->
  whole_registry c.
Proof.
  unfold whole_registry. destruct (empty (cl_RegistryURL c)) eqn:E1, (empty (cl_RegistryUsername c)) eqn:E2, (empty (cl_RegistryPassword c)) eqn:E3;
    rewrite ?empty_iff, ?empty_false in *; cbn; naive_solver.
Qed.
Lemma refuse_iff (b : bool) (e : string) (k : error) (P : Prop) :
  (k = None <-> P) -> (If b Return errorsNew e ;; k) = None <-> b = false /\ P.
Proof. intros H. destruct b; [by split; [|intros [? _]]|]. rewrite H. tauto. Qed.

(** C25. A cluster passes the validation exactly when it has a name, a known health
    status, limits that are not negative, one way to reach its API server (the account of
    the cluster; or an address of the server with kubeconfig data; or an address with a
    kubeconfig path), and registry settings that are complete or absent.  A pull secret
    of an accepted cluster has the URL, the user and the password of the cluster. *)
Theorem cluster_validate_one_source c :
  (Cluster_Validate c = None <->
   cl_Name c <> "" /\
   (cl_UseInCluster c = true /\ cl_KubeconfigData c = "" /\ cl_KubeconfigPath c = "" \/
    cl_UseInCluster c = false /\ cl_APIServerURL c <> "" /\ cl_KubeconfigData c <> "" /\ cl_KubeconfigPath c = "" \/
    cl_UseInCluster c = false /\ cl_APIServerURL c <> "" /\ cl_KubeconfigData c = "" /\ cl_KubeconfigPath c <> "") /\
   (0 <= cl_MaxNamespaces c)%Z /\ (0 <= cl_MaxInstancesPerUser c)%Z /\
   cl_HealthStatus c ∈ [""; "healthy"; "degraded"; "unreachable"] /\
   (cl_RegistryURL c = "" /\ cl_RegistryUsername c = "" /\ cl_RegistryPassword c = "" \/
    cl_RegistryURL c <> "" /\ cl_RegistryUsername c <> "" /\ cl_RegistryPassword c <> "")) /\
  (Cluster_Validate c = None ->
   (cl_RegistryURL c = "" -> Cluster_RegistryConfig c = None) /\
   (cl_RegistryURL c <> "" -> exists secret, secret <> "" /\
      Cluster_RegistryConfig c = Some (mkRegistry (cl_RegistryURL c) (cl_RegistryUsername c) (cl_RegistryPassword c) secret))).
Proof.
  assert (Hv : Cluster_Validate c = None <-> valid_cluster c).
  { unfold Cluster_Validate, valid_cluster. rewrite <- cluster_source_iff, <- cluster_registry_iff. cbv zeta.
    rewrite !refuse_iff by reflexivity. rewrite empty_false, !Z.ltb_ge, negb_false_iff, bool_decide_eq_true. tauto. }
  split; [exact Hv|]. rewrite Hv. intros (_ & _ & _ & _ & _ & Hr). unfold Cluster_RegistryConfig. split; intros Hu.
  - by rewrite Hu.
  - destruct Hr as [[? _]|(_ & _ & Hp)]; [done|]. apply empty_false in Hu as ->. apply empty_false in Hp as ->. cbn.
    eexists. split; [|reflexivity]. destruct (empty (cl_ImagePullSecretName c)) eqn:E; [done|by apply empty_false].
Qed.

(** Witnesses. *)
Lemma chart_source_confined_witness :
  checkChartSource ["oci://r.io/charts"] "oci://r.io/charts/" "" "web" = None /\
  exists loc p, chartLocation "oci://r.io/charts/" "" "web" = Ok loc /\ p ∈ ["oci://r.io/charts"] /\
    under_prefix loc p /\ Contains loc ".." = false /\
    (TrimSpace "oci://r.io/charts/" = "oci://r.io/charts/" ->
     HasPrefix "oci://r.io/charts/" "oci://" = true ->
     ChartReference "oci://r.io/charts/" "" "web" = (loc, "")).
Proof.
  split; [vm_compute; reflexivity|].
  apply (chart_source_confined ["oci://r.io/charts"] "oci://r.io/charts/" "" "web");
    [discriminate | vm_compute; reflexivity].
Defined.

Definition sample_cluster : Cluster :=
  mkCluster 0 0 "c1" "prod" "" "https://api:6443" "" "/etc/kube" "" "healthy" "reg.io" "u" "p" false "" 0 0 false false false false.

Lemma cluster_validate_one_source_witness :
  Cluster_Validate sample_cluster = None /\
  exists secret, secret <> "" /\ Cluster_RegistryConfig sample_cluster = Some (mkRegistry "reg.io" "u" "p" secret).
Proof.
  assert (Hv : Cluster_Validate sample_cluster = None) by (vm_compute; reflexivity).
  split; [exact Hv|]. by apply (proj2 (cluster_validate_one_source sample_cluster) Hv).
Defined.
