(* ===== verification/Quota.v ===== *)
(** * Resource quotas

    [models/quota_merge.go] and the quota part of [models/validation.go]: the
    cluster quota, the per-instance override, their merge, the validation of
    the effective quota and the check that a user does not raise a quota.
    Kubernetes quantities come from [k8s.io/apimachinery]; the class
    [QuantityOps] is the part of that package the code calls. *)

From S2P Require Import Prelude.
Local Open Scope string_scope.

(** ** Kubernetes quantities *)

Class QuantityOps := {
  Quantity : Type;
  ParseQuantity : string -> res Quantity;
  Sign : Quantity -> Z;
  Cmp : Quantity -> Quantity -> Z
}.

(** What the package documents: [Cmp] is the three way comparison of a total
    order, and [Sign] the comparison with zero. *)
Class QuantityLaws `{QuantityOps} := {
  cmp_refl q : Cmp q q = 0%Z;
  cmp_antisym p q : (Cmp p q <= 0)%Z <-> (0 <= Cmp q p)%Z;
  cmp_trans p q r : (Cmp p q <= 0)%Z -> (Cmp q r <= 0)%Z -> (Cmp p r <= 0)%Z
}.

(** ** The quota records *)

(** The quantity fields, in the order of [quotaQuantityFields]. *)
Inductive qfield :=
| CPURequest | CPULimit | MemoryRequest | MemoryLimit | StorageLimit | EphemeralStorageLimit
| ContainerCPURequest | ContainerCPULimit | ContainerCPUMax
| ContainerMemoryRequest | ContainerMemoryLimit | ContainerMemoryMax
| ContainerEphemeralStorageRequest | ContainerEphemeralStorageLimit.

#[global] Instance qfield_eq_dec : EqDecision qfield.
Proof. solve_decision. Defined.

(** The quantity fields that [ResourceQuotaConfig] and [InstanceQuotaOverride]
    share, as values by field. *)
Definition Quantities := qfield -> string.
Definition qset (f : qfield) (v : string) (q : Quantities) : Quantities :=
  fun g => if decide (g = f) then v else q g.
Definition no_quantities : Quantities := fun _ => "".

Record ResourceQuotaConfig := mkQuota {
  rq_ClusterID : string;
  rq_Quantities : Quantities;
  rq_PodLimit : Z
}.

Record InstanceQuotaOverride := mkOverride {
  io_StackInstanceID : string;
  io_Quantities : Quantities;
  io_PodLimit : option Z
}.

Definition empty_quota : ResourceQuotaConfig := mkQuota "" no_quantities 0.
Definition empty_override : InstanceQuotaOverride := mkOverride "" no_quantities None.

Definition quotaQuantityFields : list qfield :=
  [CPURequest; CPULimit; MemoryRequest; MemoryLimit; StorageLimit; EphemeralStorageLimit;
   ContainerCPURequest; ContainerCPULimit; ContainerCPUMax;
   ContainerMemoryRequest; ContainerMemoryLimit; ContainerMemoryMax;
   ContainerEphemeralStorageRequest; ContainerEphemeralStorageLimit].

Definition qname (f : qfield) : string :=
  match f with
  | CPURequest => "cpu_request" | CPULimit => "cpu_limit"
  | MemoryRequest => "memory_request" | MemoryLimit => "memory_limit"
  | StorageLimit => "storage_limit" | EphemeralStorageLimit => "ephemeral_storage_limit"
  | ContainerCPURequest => "container_cpu_request" | ContainerCPULimit => "container_cpu_limit"
  | ContainerCPUMax => "container_cpu_max"
  | ContainerMemoryRequest => "container_memory_request"
  | ContainerMemoryLimit => "container_memory_limit" | ContainerMemoryMax => "container_memory_max"
  | ContainerEphemeralStorageRequest => "container_ephemeral_storage_request"
  | ContainerEphemeralStorageLimit => "container_ephemeral_storage_limit"
  end.

(** Pairs whose first value must not exceed the second when both are set. *)
Definition quotaOrderRules : list (qfield * qfield) :=
  [(CPURequest, CPULimit); (MemoryRequest, MemoryLimit);
   (ContainerCPURequest, ContainerCPULimit); (ContainerCPULimit, ContainerCPUMax);
   (ContainerCPURequest, ContainerCPUMax);
   (ContainerMemoryRequest, ContainerMemoryLimit); (ContainerMemoryLimit, ContainerMemoryMax);
   (ContainerMemoryRequest, ContainerMemoryMax);
   (ContainerEphemeralStorageRequest, ContainerEphemeralStorageLimit);
   (ContainerCPURequest, CPURequest); (ContainerCPURequest, CPULimit); (ContainerCPULimit, CPULimit);
   (ContainerMemoryRequest, MemoryRequest); (ContainerMemoryRequest, MemoryLimit);
   (ContainerMemoryLimit, MemoryLimit);
   (ContainerEphemeralStorageRequest, EphemeralStorageLimit);
   (ContainerEphemeralStorageLimit, EphemeralStorageLimit)].

(** ** Operations *)

Definition IsEmpty (rq : ResourceQuotaConfig) : bool :=
  If negb (rq_PodLimit rq =? 0)%Z Return false ;;
  forallb (fun f => empty (rq_Quantities rq f)) quotaQuantityFields.

(** The merge loop: non-empty override fields replace the cluster value. *)
Definition merge_fields (fields : list qfield) (o : Quantities) (merged : Quantities) : Quantities :=
  fold_left (fun m f => if empty (o f) then m else qset f (o f) m) fields merged.

Definition MergeQuotaOverride (cluster : option ResourceQuotaConfig)
    (override : option InstanceQuotaOverride) : ResourceQuotaConfig :=
  let merged := default empty_quota cluster in
  match override with
  | None => merged
  | Some o =>
      mkQuota (rq_ClusterID merged)
        (merge_fields quotaQuantityFields (io_Quantities o) (rq_Quantities merged))
        (default (rq_PodLimit merged) (io_PodLimit o))
  end.

Inductive quota_source := QuotaSourceOverride | QuotaSourceCluster | QuotaSourceNone.

(** The source of one quantity field; [QuotaSources] is the map of these and of
    the pod limit, keyed by the JSON name. *)
Definition field_source (cluster : ResourceQuotaConfig) (override : option InstanceQuotaOverride)
    (f : qfield) : quota_source :=
  match override with
  | Some o => if negb (empty (io_Quantities o f)) then QuotaSourceOverride
              else if negb (empty (rq_Quantities cluster f)) then QuotaSourceCluster else QuotaSourceNone
  | None => if negb (empty (rq_Quantities cluster f)) then QuotaSourceCluster else QuotaSourceNone
  end.

Definition pod_source (cluster : ResourceQuotaConfig) (override : option InstanceQuotaOverride) : quota_source :=
  match override ≫= io_PodLimit with
  | Some _ => QuotaSourceOverride
  | None => if negb (rq_PodLimit cluster =? 0)%Z then QuotaSourceCluster else QuotaSourceNone
  end.

Definition QuotaSources (cluster : option ResourceQuotaConfig) (override : option InstanceQuotaOverride)
    : gmap string quota_source :=
  let cluster := default empty_quota cluster in
  <["pod_limit" := pod_source cluster override]>
    (fold_left (fun m f => <[qname f := field_source cluster override f]> m) quotaQuantityFields ∅).

Section with_quantities.
Context `{QuantityOps}.

(** The loop over the named values that [validateQuotaQuantities] runs: the
    parsed quantities by name, or the first error. *)
Definition maxQuotaQuantityLen : Z := 20.

Fixpoint parse_quota_values (values : list (qfield * string)) (parsed : qfield -> option Quantity)
    : res (qfield -> option Quantity) :=
  match values with
  | [] => Ok parsed
  | (f, v) :: rest =>
      If empty v Return parse_quota_values rest parsed ;;
      If (maxQuotaQuantityLen <? len v)%Z Return
        Err (ENew (qname f +:+ ": must be at most 20 characters")) ;;
      match ParseQuantity v with
      | Err _ => Err (ENew (qname f +:+ ": invalid quantity (examples: 500m, 2, 512Mi, 10Gi)"))
      | Ok q =>
          If (Sign q <? 0)%Z Return Err (ENew (qname f +:+ ": must not be negative")) ;;
          parse_quota_values rest (fun g => if decide (g = f) then Some q else parsed g)
      end
  end.

Definition order_rule_broken (parsed : qfield -> option Quantity) (p : qfield * qfield) : bool :=
  match parsed p.1, parsed p.2 with
  | Some low, Some high => (0 <? Cmp low high)%Z
  | _, _ => false
  end.

Definition validateQuotaQuantities (values : list (qfield * string)) : error :=
  match parse_quota_values values (fun _ => None) with
  | Err e => Some e
  | Ok parsed =>
      first_error (fun p => if order_rule_broken parsed p
                            then errorsNew (qname p.1 +:+ " must not exceed " +:+ qname p.2) else None)
        quotaOrderRules
  end.

Definition named_values (q : Quantities) : list (qfield * string) :=
  map (fun f => (f, q f)) quotaQuantityFields.

Definition ResourceQuotaConfig_Validate (rq : ResourceQuotaConfig) : error :=
  If empty (rq_ClusterID rq) Return errorsNew "cluster_id is required" ;;
  If (rq_PodLimit rq <? 0)%Z Return errorsNew "pod_limit must be non-negative" ;;
  validateQuotaQuantities (named_values (rq_Quantities rq)).

Definition InstanceQuotaOverride_Validate (iqo : InstanceQuotaOverride) : error :=
  If empty (io_StackInstanceID iqo) Return errorsNew "stack_instance_id is required" ;;
  If match io_PodLimit iqo with Some p => (p <? 0)%Z | None => false end Return
    errorsNew "pod_limit must be non-negative" ;;
  validateQuotaQuantities (named_values (io_Quantities iqo)).

(** ** The effective quota of an instance *)

Record effectiveQuotaField := mkEff { ef_qty : Quantity; ef_value : string; ef_source : string }.

Definition quotaSourceCluster := "cluster quota".
Definition quotaSourceOverride := "instance override".

(** The value that applies to a field and where it comes from. *)
Definition effective_value (cluster : ResourceQuotaConfig) (override : option InstanceQuotaOverride)
    (f : qfield) : option (string * string) :=
  let from_cluster :=
    If empty (rq_Quantities cluster f) Return None ;; Some (rq_Quantities cluster f, quotaSourceCluster) in
  match override with
  | Some o => If negb (empty (io_Quantities o f)) Return Some (io_Quantities o f, quotaSourceOverride) ;;
              from_cluster
  | None => from_cluster
  end.

Definition effective_field (cluster : ResourceQuotaConfig) (override : option InstanceQuotaOverride)
    (f : qfield) : res (option effectiveQuotaField) :=
  match effective_value cluster override f with
  | None => Ok None
  | Some (v, src) =>
      match ParseQuantity v with
      | Err _ => Err (ENew (qname f +:+ " " +:+ quote v +:+ " (" +:+ src +:+ "): invalid quantity"))
      | Ok q =>
          If (Sign q <? 0)%Z Return
            Err (ENew (qname f +:+ " " +:+ v +:+ " (" +:+ src +:+ "): must not be negative")) ;;
          Ok (Some (mkEff q v src))
      end
  end.

Fixpoint effective_fields (cluster : ResourceQuotaConfig) (override : option InstanceQuotaOverride)
    (fields : list qfield) (eff : qfield -> option effectiveQuotaField)
    : res (qfield -> option effectiveQuotaField) :=
  match fields with
  | [] => Ok eff
  | f :: rest =>
      match effective_field cluster override f with
      | Err e => Err e
      | Ok None => effective_fields cluster override rest eff
      | Ok (Some x) =>
          effective_fields cluster override rest (fun g => if decide (g = f) then Some x else eff g)
      end
  end.

Definition effective_rule (eff : qfield -> option effectiveQuotaField) (rule : qfield * qfield) : error :=
  match eff rule.1, eff rule.2 with
  | Some low, Some high =>
      If (0 <? Cmp (ef_qty low) (ef_qty high))%Z Return
        errorsNew (qname rule.1 +:+ " " +:+ ef_value low +:+ " (" +:+ ef_source low
          +:+ ") exceeds the effective " +:+ qname rule.2 +:+ " " +:+ ef_value high
          +:+ " (" +:+ ef_source high +:+ ")") ;;
      None
  | _, _ => None
  end.

Definition ValidateEffectiveQuota (cluster : option ResourceQuotaConfig)
    (override : option InstanceQuotaOverride) : error :=
  let cluster := default empty_quota cluster in
  match effective_fields cluster override quotaQuantityFields (fun _ => None) with
  | Err e => Some e
  | Ok eff =>
      match first_error (effective_rule eff) quotaOrderRules with
      | Some e => Some e
      | None =>
          let '(podLimit, podSource) :=
            match override ≫= io_PodLimit with
            | Some p => (p, quotaSourceOverride)
            | None => (rq_PodLimit cluster, quotaSourceCluster)
            end in
          If (podLimit <? 0)%Z Return
            errorsNew ("pod_limit " +:+ itoa podLimit +:+ " (" +:+ podSource +:+ "): must not be negative") ;;
          None
      end
  end.

(** One field of [CheckOverrideWithinClusterQuota]. *)
Definition check_field_within (cluster : ResourceQuotaConfig) (override existing : InstanceQuotaOverride)
    (f : qfield) : error :=
  let overrideVal := io_Quantities override f in
  let clusterVal := rq_Quantities cluster f in
  let existingVal := io_Quantities existing f in
  If empty overrideVal || empty clusterVal Return None ;;
  match ParseQuantity clusterVal with
  | Err _ => None
  | Ok capQty =>
      match ParseQuantity overrideVal with
      | Err _ => errorsNew (qname f +:+ " " +:+ quote overrideVal +:+ ": invalid quantity")
      | Ok qty =>
          If (Cmp qty capQty <=? 0)%Z Return None ;;
          let exceeds := errorsNew (qname f +:+ " " +:+ overrideVal +:+ " exceeds the cluster quota " +:+ clusterVal) in
          If empty existingVal Return exceeds ;;
          match ParseQuantity existingVal with
          | Ok prev => If (Cmp qty prev =? 0)%Z Return None ;; exceeds
          | Err _ => exceeds
          end
      end
  end.

Definition check_pods_within (cluster : ResourceQuotaConfig) (override existing : InstanceQuotaOverride) : error :=
  match io_PodLimit override with
  | None => None
  | Some pods =>
      If negb (0 <? rq_PodLimit cluster)%Z Return None ;;
      If bool_decide (io_PodLimit existing = Some pods) Return None ;;
      If (pods =? 0)%Z Return
        errorsNew ("pod_limit 0 (no limit) exceeds the cluster quota " +:+ itoa (rq_PodLimit cluster)) ;;
      If (rq_PodLimit cluster <? pods)%Z Return
        errorsNew ("pod_limit " +:+ itoa pods +:+ " exceeds the cluster quota " +:+ itoa (rq_PodLimit cluster)) ;;
      None
  end.

Definition CheckOverrideWithinClusterQuota (cluster : option ResourceQuotaConfig)
    (override existing : option InstanceQuotaOverride) : error :=
  match cluster, override with
  | Some c, Some o =>
      let ex := default empty_override existing in
      match first_error (check_field_within c o ex) quotaQuantityFields with
      | Some e => Some e
      | None => check_pods_within c o ex
      end
  | _, _ => None
  end.

(** ** The deployer's view: the quota of a namespace

    [effectiveNamespaceQuota] after its reads: the merged quota, or the
    user-safe [ErrInvalidQuota] error. *)
Definition ErrInvalidQuota := ESent "ErrInvalidQuota" "invalid resource quota".

Definition effective_quota (cluster : option ResourceQuotaConfig) (override : option InstanceQuotaOverride)
    : res ResourceQuotaConfig :=
  match ValidateEffectiveQuota cluster override with
  | Some e => Err (EWrap2 ErrInvalidQuota ": " e)
  | None => Ok (MergeQuotaOverride cluster override)
  end.

(** ** Lemmas *)

Lemma all_fields f : f ∈ quotaQuantityFields.
Proof. apply list_elem_of_In. destruct f; simpl; tauto. Qed.

Lemma merge_fields_notin fields o m f :
  f ∉ fields -> merge_fields fields o m f = m f.
Proof.
  unfold merge_fields. revert m. induction fields as [|g fields IH]; intros m; simpl; [done|].
  intros [Hfg Hf]%not_elem_of_cons. rewrite IH by done.
  destruct (empty (o g)); [done|]. unfold qset. by destruct (decide (f = g)).
Qed.

Lemma merge_fields_in fields o m f :
  f ∈ fields -> merge_fields fields o m f = if empty (o f) then m f else o f.
Proof.
  unfold merge_fields. revert m. induction fields as [|g fields IH]; intros m; simpl.
  - by intros ?%elem_of_nil.
  - intros Hf. destruct (decide (f ∈ fields)) as [Hin|Hnin].
    + rewrite IH by done. destruct (empty (o f)) eqn:E; [|done].
      destruct (empty (o g)) eqn:E'; [done|]. unfold qset.
      destruct (decide (f = g)) as [->|]; [congruence | done].
    + apply elem_of_cons in Hf as [->|]; [|done].
      change (merge_fields fields o (if empty (o g) then m else qset g (o g) m) g
        = if empty (o g) then m g else o g).
      rewrite merge_fields_notin by done. destruct (empty (o g)); [done|].
      unfold qset. by destruct (decide (g = g)).
Qed.

(** The merged value of a field is the effective value. *)
Lemma merged_value cluster override f :
  rq_Quantities (MergeQuotaOverride cluster override) f =
  default "" (fst <$> effective_value (default empty_quota cluster) override f).
Proof.
  unfold MergeQuotaOverride, effective_value. destruct override as [o|]; cbn [rq_Quantities].
  - rewrite merge_fields_in by apply all_fields.
    destruct (empty (io_Quantities o f)); simpl; [|done].
    destruct (empty (rq_Quantities (default empty_quota cluster) f)) eqn:E; [|done].
    by apply empty_iff in E.
  - destruct (empty (rq_Quantities (default empty_quota cluster) f)) eqn:E; [|done].
    by apply empty_iff in E.
Qed.

Lemma effective_value_merged cluster override f :
  effective_value (default empty_quota cluster) override f = None
  <-> rq_Quantities (MergeQuotaOverride cluster override) f = "".
Proof.
  rewrite merged_value. split; [by intros -> | ].
  unfold effective_value. destruct override as [o|].
  - destruct (empty (io_Quantities o f)) eqn:E1; simpl.
    + destruct (empty (rq_Quantities (default empty_quota cluster) f)) eqn:E2; [done|].
      intros H1. apply empty_iff in H1. simpl in *. congruence.
    + intros H1. apply empty_iff in H1. congruence.
  - destruct (empty (rq_Quantities (default empty_quota cluster) f)) eqn:E2; [done|].
    intros H1. apply empty_iff in H1. simpl in *. congruence.
Qed.

(** *** What a valid quota is *)

(** The quantity of a field, when it is set and parses. *)
Definition field_quantity (q : Quantities) (f : qfield) : option Quantity :=
  If empty (q f) Return None ;;
  match ParseQuantity (q f) with Ok x => Some x | Err _ => None end.

(** A field is empty or holds a quantity that is not negative. *)
Definition field_fine (q : Quantities) (f : qfield) : Prop :=
  q f <> "" -> exists x, ParseQuantity (q f) = Ok x /\ (0 <= Sign x)%Z.

Definition rules_hold (q : Quantities) : Prop :=
  forall a b x y, (a, b) ∈ quotaOrderRules ->
    field_quantity q a = Some x -> field_quantity q b = Some y -> (Cmp x y <= 0)%Z.

(** The specification of a valid quota: parsing, signs, order rules, pods. *)
Definition quota_ok (rq : ResourceQuotaConfig) : Prop :=
  (forall f, field_fine (rq_Quantities rq) f) /\ rules_hold (rq_Quantities rq) /\ (0 <= rq_PodLimit rq)%Z.

Definition lengths_ok (q : Quantities) : Prop := forall f, (len (q f) <= maxQuotaQuantityLen)%Z.

Lemma field_quantity_some q f x :
  field_quantity q f = Some x <-> q f <> "" /\ ParseQuantity (q f) = Ok x.
Proof.
  unfold field_quantity. destruct (empty (q f)) eqn:E.
  - apply empty_iff in E. split; [done | by intros [? ?]].
  - assert (q f <> "") by (intros H0; apply empty_iff in H0; congruence).
    destruct (ParseQuantity (q f)); split; [by intros [= ->] | by intros [_ [= ->]] | done | by intros [_ ?]].
Qed.

(** [order_rule_broken] and [effective_rule] only look at the quantities. *)
Lemma no_rule_broken {B : Type} (f : qfield * qfield -> option B) (g : qfield -> option Quantity) q :
  (forall a, g a = field_quantity q a) ->
  (forall p, is_Some (f p) <-> exists x y, g p.1 = Some x /\ g p.2 = Some y /\ (0 < Cmp x y)%Z) ->
  Forall (fun p => f p = None) quotaOrderRules <-> rules_hold q.
Proof.
  intros Hg Hf. rewrite Forall_forall. split.
  - intros Hall a b x y Hin Hx Hy.
    destruct (Z.lt_ge_cases 0 (Cmp x y)) as [Hlt|]; [|done].
    assert (Hs : is_Some (f (a, b))) by (apply Hf; exists x, y; simpl; by rewrite !Hg).
    rewrite (Hall _ Hin) in Hs. by destruct Hs.
  - intros Hr [a b] Hin. destruct (f (a, b)) eqn:E; [|done].
    assert (Hs : is_Some (f (a, b))) by eauto.
    apply Hf in Hs as (x & y & Hx & Hy & Hlt). simpl in *. rewrite Hg in Hx, Hy.
    specialize (Hr a b x y Hin Hx Hy). lia.
Qed.

(** *** The loops of the validation *)

Lemma parse_values_spec q l p0 :
  match parse_quota_values (map (fun f => (f, q f)) l) p0 with
  | Ok p => (forall f, f ∈ l -> field_fine q f /\ (len (q f) <= maxQuotaQuantityLen)%Z) /\
            (forall f, p f = if empty (q f) then p0 f
                             else if decide (f ∈ l) then field_quantity q f else p0 f)
  | Err _ => exists f, f ∈ l /\ ~ (field_fine q f /\ (len (q f) <= maxQuotaQuantityLen)%Z)
  end.
Proof.
  revert p0. induction l as [|g l IH]; intros p0; simpl.
  - split; [by intros f ?%elem_of_nil|]. intros f. by destruct (empty (q f)).
  - destruct (empty (q g)) eqn:Eg.
    + pose proof Eg as Eg'. apply empty_iff in Eg'. specialize (IH p0).
      destruct (parse_quota_values _ p0) as [p|e].
      * destruct IH as [IH1 IH2]. split.
        -- intros f [->|Hf]%elem_of_cons; [|by apply IH1]. split; [by intros ?|]. by rewrite Eg'.
        -- intros f. rewrite IH2. destruct (empty (q f)) eqn:Ef; [done|].
           destruct (decide (f ∈ l)), (decide (f ∈ g :: l)) as [Hin|Hin]; try done.
           { set_solver. } apply elem_of_cons in Hin as [->|]; [congruence | done].
      * destruct IH as (f & Hf & Hn). exists f. split; [set_solver | done].
    + assert (Hne : q g <> "") by (intros H0; apply empty_iff in H0; congruence).
      destruct (Z.ltb_spec maxQuotaQuantityLen (len (q g))).
      { exists g. split; [set_solver | intros [_ ?]; lia]. }
      destruct (ParseQuantity (q g)) as [x|e] eqn:Ep.
      2: { exists g. split; [set_solver|]. intros [Hf _]. destruct (Hf Hne) as (y & Hy & _). congruence. }
      destruct (Z.ltb_spec (Sign x) 0).
      { exists g. split; [set_solver|]. intros [Hf _]. destruct (Hf Hne) as (y & Hy & ?).
        rewrite Ep in Hy. simplify_eq. lia. }
      specialize (IH (fun h => if decide (h = g) then Some x else p0 h)).
      destruct (parse_quota_values _ _) as [p|e].
      * destruct IH as [IH1 IH2]. split.
        -- intros f [->|Hf]%elem_of_cons; [|by apply IH1]. split; [by exists x | done].
        -- intros f. rewrite IH2. destruct (empty (q f)) eqn:Ef.
           { by rewrite decide_False by congruence. }
           destruct (decide (f = g)) as [->|Hfg].
           ++ rewrite (decide_True (P := g ∈ g :: l)) by set_solver.
              destruct (decide (g ∈ l)); [done|].
              symmetry. by apply field_quantity_some.
           ++ destruct (decide (f ∈ l)), (decide (f ∈ g :: l)); try done; set_solver.
      * destruct IH as (f & Hf & Hn). exists f. split; [set_solver | done].
Qed.

Lemma effective_field_spec c o f :
  let m := rq_Quantities (MergeQuotaOverride (Some c) o) in
  match effective_field c o f with
  | Ok None => m f = ""
  | Ok (Some x) => m f <> "" /\ field_quantity m f = Some (ef_qty x) /\ field_fine m f
  | Err _ => ~ field_fine m f
  end.
Proof.
  intros m. unfold effective_field.
  destruct (effective_value c o f) as [[v src]|] eqn:Ev.
  2: { by apply (effective_value_merged (Some c)). }
  assert (Hm : m f = v) by (unfold m; rewrite merged_value;
    change (default empty_quota (Some c)) with c; by rewrite Ev).
  assert (Hne : m f <> "").
  { intros H0. apply (effective_value_merged (Some c)) in H0. simpl in H0. congruence. }
  destruct (ParseQuantity v) as [x|e] eqn:Ep.
  2: { intros Hf. destruct (Hf Hne) as (y & Hy & _). congruence. }
  destruct (Z.ltb_spec (Sign x) 0).
  - intros Hf. destruct (Hf Hne) as (y & Hy & ?). rewrite Hm, Ep in Hy. simplify_eq. lia.
  - split; [done|]. split.
    + apply field_quantity_some. split; [done|]. by rewrite Hm.
    + intros _. exists x. rewrite Hm. by split.
Qed.

Lemma effective_fields_spec c o l e0 :
  let m := rq_Quantities (MergeQuotaOverride (Some c) o) in
  match effective_fields c o l e0 with
  | Ok eff =>
      (forall f, f ∈ l -> field_fine m f) /\
      (forall f, ef_qty <$> eff f = if empty (m f) then ef_qty <$> e0 f
                       else if decide (f ∈ l) then field_quantity m f else ef_qty <$> e0 f)
  | Err _ => exists f, f ∈ l /\ ~ field_fine m f
  end.
Proof.
  intros m. revert e0. induction l as [|g l IH]; intros e0; cbn [effective_fields].
  - split; [by intros f ?%elem_of_nil|]. intros f. by destruct (empty (m f)).
  - pose proof (effective_field_spec c o g) as Hg. cbv zeta in Hg. fold m in Hg.
    destruct (effective_field c o g) as [[x|]|e].
    + destruct Hg as (Hne & Hq & Hfine).
      specialize (IH (fun h => if decide (h = g) then Some x else e0 h)).
      destruct (effective_fields _ _ _ _) as [eff|e].
      * destruct IH as [IH1 IH2]. split.
        { intros f [->|Hf]%elem_of_cons; [done | by apply IH1]. }
        intros f. rewrite IH2. destruct (empty (m f)) eqn:Ef.
        { apply empty_iff in Ef. by rewrite decide_False by congruence. }
        destruct (decide (f = g)) as [->|Hfg].
        -- rewrite (decide_True (P := g ∈ g :: l)) by set_solver.
           by destruct (decide (g ∈ l)).
        -- destruct (decide (f ∈ l)), (decide (f ∈ g :: l)); try done; set_solver.
      * destruct IH as (f & Hf & Hn). exists f. split; [set_solver | done].
    + specialize (IH e0). destruct (effective_fields _ _ _ _) as [eff|e].
      * destruct IH as [IH1 IH2]. split.
        { intros f [->|Hf]%elem_of_cons; [by intros ? | by apply IH1]. }
        intros f. rewrite IH2. destruct (empty (m f)) eqn:Ef; [done|].
        destruct (decide (f ∈ l)), (decide (f ∈ g :: l)) as [Hin|]; try done; [set_solver|].
        apply elem_of_cons in Hin as [->|]; [|done].
        assert (empty (m g) = true) by (by apply empty_iff). congruence.
      * destruct IH as (f & Hf & Hn). exists f. split; [set_solver | done].
    + exists g. split; [set_solver | done].
Qed.

(** ** Properties *)

(** The pod limit that applies is the merged one. *)
Lemma merged_pods cluster override :
  rq_PodLimit (MergeQuotaOverride cluster override) =
  match override ≫= io_PodLimit with
  | Some p => p
  | None => rq_PodLimit (default empty_quota cluster)
  end.
Proof. destruct override as [o|]; simpl; [by destruct (io_PodLimit o) | done]. Qed.

Lemma effective_rule_none c o eff :
  let m := rq_Quantities (MergeQuotaOverride (Some c) o) in
  (forall f, ef_qty <$> eff f = field_quantity m f) ->
  first_error (effective_rule eff) quotaOrderRules = None <-> rules_hold m.
Proof.
  intros m Heff. rewrite first_error_none.
  apply (no_rule_broken _ (fun f => ef_qty <$> eff f)); [done|].
  intros [a b]. unfold effective_rule. simpl.
  destruct (eff a) as [x|]; simpl; [|split; [by intros [? ?] | by intros (? & ? & ? & _)]].
  destruct (eff b) as [y|]; simpl; [|split; [by intros [? ?] | by intros (? & ? & _ & ? & _)]].
  destruct (Z.ltb_spec 0 (Cmp (ef_qty x) (ef_qty y))); split.
  - intros _. by exists (ef_qty x), (ef_qty y).
  - intros _. eexists. reflexivity.
  - by intros [? ?].
  - intros (? & ? & [= <-] & [= <-] & ?). lia.
Qed.

Lemma effective_quota_ok cluster override :
  ValidateEffectiveQuota cluster override = None <-> quota_ok (MergeQuotaOverride cluster override).
Proof.
  unfold ValidateEffectiveQuota. set (c := default empty_quota cluster).
  assert (Hmerge : MergeQuotaOverride cluster override = MergeQuotaOverride (Some c) override)
    by (by destruct cluster).
  rewrite Hmerge. set (m := MergeQuotaOverride (Some c) override).
  pose proof (effective_fields_spec c override quotaQuantityFields (fun _ => None)) as Hs.
  cbv zeta in Hs. fold m in Hs. unfold quota_ok.
  destruct (effective_fields _ _ _ _) as [eff|e].
  - destruct Hs as [Hfine Heff].
    assert (Heff' : forall f, ef_qty <$> eff f = field_quantity (rq_Quantities m) f).
    { intros f. rewrite Heff, (decide_True (P := f ∈ quotaQuantityFields)) by apply all_fields.
      unfold field_quantity. by destruct (empty (rq_Quantities m f)). }
    pose proof (effective_rule_none c override eff Heff') as Hrules. fold m in Hrules.
    assert (Hpods : rq_PodLimit m = match override ≫= io_PodLimit with
      | Some p => p | None => rq_PodLimit c end) by apply merged_pods.
    destruct (first_error (effective_rule eff) quotaOrderRules) as [e|].
    { split; [done|]. intros (_ & Hr & _). by apply Hrules in Hr. }
    assert (Hok : rules_hold (rq_Quantities m)) by (by apply Hrules).
    assert (Hall : forall f, field_fine (rq_Quantities m) f) by (intros f; apply Hfine, all_fields).
    rewrite Hpods. destruct (override ≫= io_PodLimit) as [p|].
    + destruct (Z.ltb_spec p 0); (split; [by intros ? | intros (_ & _ & ?); try lia; done]).
    + destruct (Z.ltb_spec (rq_PodLimit c) 0); (split; [by intros ? | intros (_ & _ & ?); try lia; done]).
  - split; [done|]. intros (Hf & _). destruct Hs as (f & _ & Hn). by destruct Hn.
Qed.

(** [ValidateEffectiveQuota] accepts a cluster quota and an instance
    override exactly when the merged quota, the one the deployer applies to the
    namespace, is valid: every set field is a quantity that is not negative,
    every order rule holds for the merged values, and the merged pod limit is
    not negative.  No combination of cluster and override values that are
    valid on their own can slip through. *)
Theorem validate_effective_iff cluster override :
  ValidateEffectiveQuota cluster override = None <-> quota_ok (MergeQuotaOverride cluster override).
Proof. apply effective_quota_ok. Qed.

Lemma order_rule_none p q :
  (forall f, p f = field_quantity q f) ->
  first_error (fun r => if order_rule_broken p r
      then errorsNew (qname r.1 +:+ " must not exceed " +:+ qname r.2) else None) quotaOrderRules = None
  <-> rules_hold q.
Proof.
  intros Hp. rewrite first_error_none. apply (no_rule_broken _ p); [done|].
  intros [a b]. unfold order_rule_broken. simpl.
  destruct (p a) as [x|]; [|split; [by intros [? ?] | by intros (? & ? & ? & _)]].
  destruct (p b) as [y|]; [|split; [by intros [? ?] | by intros (? & ? & _ & ? & _)]].
  destruct (Z.ltb_spec 0 (Cmp x y)); split.
  - intros _. by exists x, y.
  - intros _. eexists. reflexivity.
  - by intros [? ?].
  - intros (? & ? & [= <-] & [= <-] & ?). lia.
Qed.

Lemma validate_quantities_iff q :
  validateQuotaQuantities (named_values q) = None <->
  (forall f, field_fine q f) /\ lengths_ok q /\ rules_hold q.
Proof.
  unfold validateQuotaQuantities, named_values.
  pose proof (parse_values_spec q quotaQuantityFields (fun _ => None)) as Hs.
  destruct (parse_quota_values _ _) as [p|e].
  - destruct Hs as [Hf Hp]. rewrite order_rule_none with (q := q).
    + split; [|by intros (_ & _ & ?)]. intros Hr.
      split_and!; [intros f | intros f | done]; by apply Hf, all_fields.
    + intros f. rewrite Hp, (decide_True (P := f ∈ quotaQuantityFields)) by apply all_fields.
      unfold field_quantity. by destruct (empty (q f)).
  - destruct Hs as (f & _ & Hn). split; [done|]. intros (H1 & H2 & _). by destruct Hn.
Qed.

(** [ResourceQuotaConfig.Validate] on the merged quota and
    [ValidateEffectiveQuota] agree: a quota with a cluster ID passes the
    stand-alone validation exactly when the effective validation passes and no
    merged value is longer than the database column. *)
Theorem validate_merged_agrees cluster override :
  let m := MergeQuotaOverride cluster override in
  rq_ClusterID m <> "" -> lengths_ok (rq_Quantities m) ->
  ResourceQuotaConfig_Validate m = None <-> ValidateEffectiveQuota cluster override = None.
Proof.
  intros m Hid Hlen. rewrite effective_quota_ok. fold m. unfold ResourceQuotaConfig_Validate, quota_ok.
  destruct (empty (rq_ClusterID m)) eqn:E; [by apply empty_iff in E|].
  destruct (Z.ltb_spec (rq_PodLimit m) 0).
  - split; [done|]. intros (_ & _ & ?). lia.
  - rewrite validate_quantities_iff. split; [intros (? & _ & ?)|intros (? & ? & _)]; by split_and!.
Qed.

(** The override value of [f] grants more than the cluster quota, and more
    or less than the stored override ([ex]) granted before. *)
Definition raises_field (c : ResourceQuotaConfig) (o ex : InstanceQuotaOverride) (f : qfield) : Prop :=
  exists cap q, field_quantity (rq_Quantities c) f = Some cap /\
    field_quantity (io_Quantities o) f = Some q /\ (0 < Cmp q cap)%Z /\
    forall prev, field_quantity (io_Quantities ex) f = Some prev -> Cmp q prev <> 0%Z.

Definition raises_pods (c : ResourceQuotaConfig) (o ex : InstanceQuotaOverride) : Prop :=
  exists p, io_PodLimit o = Some p /\ (0 < rq_PodLimit c)%Z /\ io_PodLimit ex <> Some p /\
    (p = 0 \/ rq_PodLimit c < p)%Z.

Lemma field_quantity_cases q f :
  (empty (q f) = true /\ field_quantity q f = None) \/
  (empty (q f) = false /\ match ParseQuantity (q f) with
     | Ok x => field_quantity q f = Some x | Err _ => field_quantity q f = None end).
Proof. unfold field_quantity. destruct (empty (q f)); [by left|]. right. by destruct (ParseQuantity (q f)). Qed.

Lemma check_field_none c o ex f :
  field_fine (io_Quantities o) f ->
  check_field_within c o ex f = None <-> ~ raises_field c o ex f.
Proof.
  intros Hfine. unfold check_field_within, raises_field.
  destruct (field_quantity_cases (io_Quantities o) f) as [[-> ->]|[Eo Ho]].
  { split; [|done]. by intros _ (? & ? & _ & ? & _). }
  rewrite Eo. destruct (field_quantity_cases (rq_Quantities c) f) as [[-> ->]|[-> Hc]].
  { split; [|done]. by intros _ (? & ? & ? & _). }
  cbn [orb]. destruct (ParseQuantity (rq_Quantities c f)) as [cap|]; rewrite Hc.
  2: { split; [|done]. by intros _ (? & ? & ? & _). }
  destruct (Hfine) as (q & Hq & _).
  { intros H0. apply empty_iff in H0. congruence. }
  rewrite Hq in *. rewrite Ho.
  destruct (Z.leb_spec (Cmp q cap) 0).
  { split; [|done]. intros _ (? & ? & [= <-] & [= <-] & ? & _). lia. }
  destruct (field_quantity_cases (io_Quantities ex) f) as [[-> ->]|[-> He]].
  { split; [done|]. intros Hn. destruct Hn. exists cap, q. by split_and!. }
  destruct (ParseQuantity (io_Quantities ex f)) as [prev|]; rewrite He.
  2: { split; [done|]. intros Hn. destruct Hn. exists cap, q. by split_and!. }
  destruct (Z.eqb_spec (Cmp q prev) 0).
  { split; [|done]. intros _ (? & ? & _ & [= <-] & _ & Hp). by eapply Hp. }
  split; [done|]. intros Hn. destruct Hn. exists cap, q. split_and!; try done. by intros ? [= <-].
Qed.

Lemma check_pods_none c o ex : check_pods_within c o ex = None <-> ~ raises_pods c o ex.
Proof.
  unfold check_pods_within, raises_pods. destruct (io_PodLimit o) as [p|].
  2: { split; [|done]. by intros _ (? & ? & _). }
  destruct (Z.ltb_spec 0 (rq_PodLimit c)); simpl.
  2: { split; [|done]. intros _ (? & ? & ? & _). lia. }
  destruct (decide (io_PodLimit ex = Some p)).
  { rewrite bool_decide_eq_true_2 by done. split; [|done].
    by intros _ (? & [= <-] & _ & Hn & _). }
  rewrite bool_decide_eq_false_2 by done.
  destruct (Z.eqb_spec p 0) as [->|].
  { split; [done|]. intros Hn. destruct Hn. exists 0%Z. split_and!; try done. by left. }
  destruct (Z.ltb_spec (rq_PodLimit c) p).
  - split; [done|]. intros Hn. destruct Hn. exists p. split_and!; try done. by right.
  - split; [|done]. intros _ (? & [= <-] & _ & _ & [?|?]); lia.
Qed.

Lemma override_within_iff cluster o ex :
  InstanceQuotaOverride_Validate o = None ->
  CheckOverrideWithinClusterQuota (Some cluster) (Some o) ex = None <->
  (forall f, ~ raises_field cluster o (default empty_override ex) f) /\
  ~ raises_pods cluster o (default empty_override ex).
Proof.
  intros Hval. assert (Hfine : forall f, field_fine (io_Quantities o) f).
  { unfold InstanceQuotaOverride_Validate in Hval. repeat case_match; try done.
    all: by apply validate_quantities_iff in Hval as [? _]. }
  unfold CheckOverrideWithinClusterQuota. set (e := default empty_override ex).
  rewrite <- check_pods_none. destruct (first_error _ quotaQuantityFields) as [er|] eqn:Ef.
  - split; [done|]. intros [Hn _]. exfalso. enough (first_error (check_field_within cluster o e)
      quotaQuantityFields = None) by congruence.
    apply first_error_none, Forall_forall. intros f _. by apply check_field_none, Hn.
  - rewrite first_error_none, Forall_forall in Ef. split; [|by intros [_ ?]].
    intros Hp. split; [|done]. intros f. apply check_field_none; [done|]. apply Ef, all_fields.
Qed.

(** For a valid override, [CheckOverrideWithinClusterQuota] accepts exactly
    when no field and no pod limit is raised above the cluster quota, where a
    value equal to the stored override of an admin does not count as a raise
    and a pod limit of 0 (no limit) always does. *)
Theorem check_override_iff cluster o ex :
  InstanceQuotaOverride_Validate o = None ->
  CheckOverrideWithinClusterQuota (Some cluster) (Some o) ex = None <->
  (forall f, ~ raises_field cluster o (default empty_override ex) f) /\
  ~ raises_pods cluster o (default empty_override ex).
Proof. apply override_within_iff. Qed.

(** Saving the stored override again is always allowed, whatever the
    cluster quota has become: an owner keeps an admin's grant. *)
Theorem check_override_resave `{!QuantityLaws} cluster o :
  InstanceQuotaOverride_Validate o = None ->
  CheckOverrideWithinClusterQuota cluster (Some o) (Some o) = None.
Proof.
  intros Hval. destruct cluster as [c|]; [|done].
  apply override_within_iff; [done|]. split.
  - intros f (cap & q & _ & Hq & _ & Hprev). by apply (Hprev q), cmp_refl.
  - by intros (p & Hp & _ & Hn & _).
Qed.
End with_quantities.

(** ** A concrete quantity parser, for the witnesses

    Decimal digits with an optional suffix [m], [Mi] or [Gi], as a number of
    thousandths. *)

Fixpoint digits_value (acc : Z) (s : string) : option Z :=
  match s with
  | "" => Some acc
  | String c s' =>
      if is_digit c then digits_value (acc * 10 + (Z.of_nat (nat_of_ascii c) - 48)) s' else None
  end.

Definition suffixes : list (string * Z) :=
  [("Mi", 1048576000%Z); ("Gi", 1073741824000%Z); ("m", 1%Z)].

Definition milli_parse (s : string) : res Z :=
  let '(digits, scale) :=
    match List.find (fun x => String.eqb (sdrop (String.length s - String.length x.1) s) x.1) suffixes with
    | Some (suffix, scale) => (stake (String.length s - String.length suffix) s, scale)
    | None => (s, 1000%Z)
    end in
  If empty digits Return Err (ENew "quantities must match the regular expression") ;;
  match digits_value 0 digits with
  | Some v => Ok (v * scale)%Z
  | None => Err (ENew "quantities must match the regular expression")
  end.

#[global] Instance milli_ops : QuantityOps := {
  Quantity := Z; ParseQuantity := milli_parse; Sign := Z.sgn; Cmp := fun p q => Z.sgn (p - q)
}.
#[global] Instance milli_laws : QuantityLaws.
Proof. split; simpl; intros; lia. Qed.

Definition cluster_4cpu : ResourceQuotaConfig :=
  mkQuota "c1" (qset CPURequest "2" (qset CPULimit "4" no_quantities)) 10.
Definition override_500m : InstanceQuotaOverride :=
  mkOverride "i1" (qset CPURequest "500m" no_quantities) (Some 5%Z).
Definition override_8cpu : InstanceQuotaOverride :=
  mkOverride "i1" (qset CPULimit "8" no_quantities) None.

Lemma validate_merged_agrees_witness :
  let m := MergeQuotaOverride (Some cluster_4cpu) (Some override_500m) in
  ResourceQuotaConfig_Validate m = None /\
  (ResourceQuotaConfig_Validate m = None <->
   ValidateEffectiveQuota (Some cluster_4cpu) (Some override_500m) = None).
Proof.
  split; [vm_compute; reflexivity|].
  apply (validate_merged_agrees (Some cluster_4cpu) (Some override_500m)).
  - done.
  - intros f. destruct f; vm_compute; congruence.
Defined.

Lemma check_override_iff_witness :
  CheckOverrideWithinClusterQuota (Some cluster_4cpu) (Some override_8cpu) None <> None /\
  (CheckOverrideWithinClusterQuota (Some cluster_4cpu) (Some override_500m) None = None <->
   (forall f, ~ raises_field cluster_4cpu override_500m empty_override f) /\
   ~ raises_pods cluster_4cpu override_500m empty_override).
Proof.
  split; [vm_compute; discriminate|].
  apply (check_override_iff cluster_4cpu override_500m None). vm_compute. reflexivity.
Defined.

Lemma check_override_resave_witness :
  CheckOverrideWithinClusterQuota (Some cluster_4cpu) (Some override_8cpu) None <> None /\
  CheckOverrideWithinClusterQuota (Some cluster_4cpu) (Some override_8cpu) (Some override_8cpu) = None.
Proof.
  split; [vm_compute; discriminate|].
  apply (check_override_resave (Some cluster_4cpu) override_8cpu). vm_compute. reflexivity.
Defined.
