(* ===== verification/Naming.v ===== *)
(** * Names of namespaces and image tags

    [normalizeRFC1123], [cutLabel], [sanitizeRFC1123Label] and
    [buildNamespace] of [api/handlers/stack_instances.go]: how the namespace of
    a stack instance is derived from the instance name and the owner name; and
    [SanitizeImageTag] of [helm/values_generator.go]. *)

From S2P Require Import Prelude Models.
Local Open Scope string_scope.

(** The characters that [rfc1123InvalidChars] keeps, [[a-z0-9-]]. *)
Definition label_char (c : ascii) : bool := is_alnum c || char_in c "-".
Definition is_dash (c : ascii) : bool := ascii_eqb c "-".

(** [rfc1123InvalidChars.ReplaceAllString(s, "-")].  Go replaces one code point
    by one dash, this map one byte; the runs of dashes that a code point of
    several bytes leaves are collapsed by the next step. *)
Definition replace_invalid (s : string) : string :=
  smap (fun c => if label_char c then c else "-"%char) s.

(** [rfc1123ConsecutiveDashes.ReplaceAllString(s, "-")]: a run of two or more
    dashes becomes one dash. *)
Fixpoint collapse_dashes (s : string) : string :=
  match s with
  | EmptyString => EmptyString
  | String c s' =>
      match s' with
      | String d _ => if is_dash c && is_dash d then collapse_dashes s' else String c (collapse_dashes s')
      | EmptyString => String c ""
      end
  end.

Definition normalizeRFC1123 (s : string) : string :=
  let s1 := collapse_dashes (replace_invalid (ToLower s)) in
  let s2 := TrimRight is_dash (TrimLeft is_dash s1) in
  If empty s2 Return "default" ;; s2.

Definition cutLabel (s : string) (n : Z) : string :=
  If (len s <=? n)%Z Return s ;;
  TrimRight is_dash (stake (Z.to_nat n) s).

Definition maxNamespaceLen : Z := 63.
Definition namespacePrefix := "stack-".
Definition namespaceHashLen : Z := 6.
Definition minNamespaceInstanceLen : Z := 10.

Definition sanitizeRFC1123Label (s : string) : string := cutLabel (normalizeRFC1123 s) maxNamespaceLen.

(** [SanitizeImageTag] of [helm/values_generator.go]: the Docker tag of a
    branch. *)
Definition maxImageTagLen : Z := 128.
Definition tag_char (c : ascii) : bool := is_alnum c || char_in c "-.".
Definition SanitizeImageTag (branch : string) : string :=
  let tag := smap (fun c => if char_in c "/ _" then "-"%char else c) (ToLower branch) in
  let tag := TrimLeft (fun c => char_in c "-.") (sfilter tag_char tag) in
  let tag := if (maxImageTagLen <? len tag)%Z then stake (Z.to_nat maxImageTagLen) tag else tag in
  If empty tag Return "latest" ;; tag.

Section build.
(** The hex encoding of the SHA-256 digest (Go's [crypto/sha256] and
    [encoding/hex]): 64 lower case hex digits. *)
Variable sha256_hex : string -> string.

Definition buildNamespace (instancePart ownerPart : string) : string :=
  let instance := normalizeRFC1123 instancePart in
  let owner := normalizeRFC1123 ownerPart in
  let ns := namespacePrefix +:+ instance +:+ "-" +:+ owner in
  If (len ns <=? maxNamespaceLen)%Z Return ns ;;
  let hash := stake (Z.to_nat namespaceHashLen) (sha256_hex (instance +:+ "/" +:+ owner)) in
  let room := (maxNamespaceLen - len namespacePrefix - namespaceHashLen - 2)%Z in
  let instanceLen0 := (room - len owner)%Z in
  let instanceLen := (if (instanceLen0 <? minNamespaceInstanceLen)%Z
                      then Z.min minNamespaceInstanceLen (len instance) else instanceLen0) in
  let ownerLen := (room - instanceLen)%Z in
  namespacePrefix +:+ cutLabel instance instanceLen +:+ "-" +:+ hash +:+ "-" +:+ cutLabel owner ownerLen.
End build.

(** ** Lemmas *)

(** A normalized name: label characters, no dash at either end. *)
Definition normalized (s : string) : Prop :=
  sforall label_char s = true /\ first_is is_alnum s = true /\ last_is is_alnum s = true.

Lemma normalized_iff s : normalized s <-> is_rfc1123_label s.
Proof. done. Qed.

Lemma srev_length s : String.length (srev s) = String.length s.
Proof. induction s as [|c s IH]; [done|]. rewrite srev_cons, slength_app, IH. simpl. lia. Qed.

Lemma last_is_srev p s : last_is p (srev s) = first_is p s.
Proof. destruct s as [|c s]; [done|]. by rewrite srev_cons, last_is_snoc. Qed.

Lemma first_is_srev p s : first_is p (srev s) = last_is p s.
Proof. by rewrite <- (srev_involutive s) at 2; rewrite last_is_srev. Qed.

Lemma TrimLeft_head p s : TrimLeft p s = "" \/ first_is (fun c => negb (p c)) (TrimLeft p s) = true.
Proof.
  induction s as [|c s IH]; [by left|]. simpl. destruct (p c) eqn:E; [done|]. right. simpl. by rewrite E.
Qed.

Lemma TrimLeft_id p s : first_is (fun c => negb (p c)) s = true -> TrimLeft p s = s.
Proof. destruct s as [|c s]; [done|]. simpl. by destruct (p c). Qed.

Lemma TrimLeft_length p s : (String.length (TrimLeft p s) <= String.length s)%nat.
Proof. induction s as [|c s IH]; [done|]. simpl. destruct (p c); simpl; lia. Qed.

Lemma TrimLeft_last p q s :
  TrimLeft p s <> "" -> last_is q (TrimLeft p s) = last_is q s.
Proof.
  induction s as [|c s IH]; [done|]. cbn [TrimLeft]. destruct (p c); [|done].
  intros Hne. rewrite IH by done. destruct s as [|d s]; [done|]. done.
Qed.

Lemma TrimRight_last p s : TrimRight p s = "" \/ last_is (fun c => negb (p c)) (TrimRight p s) = true.
Proof.
  unfold TrimRight. destruct (TrimLeft_head p (srev s)) as [->|H]; [by left|].
  right. by rewrite last_is_srev.
Qed.

Lemma TrimRight_first p q s :
  TrimRight p s <> "" -> first_is q (TrimRight p s) = first_is q s.
Proof.
  unfold TrimRight. intros Hne. rewrite <- last_is_srev, srev_involutive, TrimLeft_last.
  - by rewrite last_is_srev.
  - intros E. by rewrite E in Hne.
Qed.

Lemma TrimRight_length p s : (String.length (TrimRight p s) <= String.length s)%nat.
Proof. unfold TrimRight. rewrite srev_length, <- (srev_length s). apply TrimLeft_length. Qed.

Lemma sforall_TrimRight p q s : sforall p s = true -> sforall p (TrimRight q s) = true.
Proof. intros H. unfold TrimRight. rewrite sforall_srev. by apply sforall_TrimLeft; rewrite sforall_srev. Qed.

Lemma TrimLeft_nil p s : TrimLeft p s = "" -> sforall p s = true.
Proof. induction s as [|c s IH]; [done|]. simpl. by destruct (p c). Qed.

Lemma TrimRight_nonempty p s : first_is (fun c => negb (p c)) s = true -> TrimRight p s <> "".
Proof.
  intros Hf H. assert (Hn : TrimLeft p (srev s) = "").
  { rewrite <- (srev_involutive (TrimLeft p (srev s))). by unfold TrimRight in H; rewrite H. }
  apply TrimLeft_nil in Hn. rewrite sforall_srev in Hn.
  destruct s as [|c s]; [done|]. simpl in *. by destruct (p c).
Qed.

Lemma first_is_mono (p q : ascii -> bool) s :
  (forall c, p c = true -> q c = true) -> first_is p s = true -> first_is q s = true.
Proof. intros Hpq. destruct s; simpl; auto. Qed.

Lemma last_is_mono (p q : ascii -> bool) s :
  (forall c, p c = true -> q c = true) -> last_is p s = true -> last_is q s = true.
Proof. intros Hpq. induction s as [|c [|d s] IH]; simpl in *; auto. Qed.

Lemma alnum_not_dash c : is_alnum c = true -> negb (is_dash c) = true.
Proof.
  unfold is_dash, ascii_eqb. intros H. destruct (Ascii.eqb_spec c "-") as [->|]; done.
Qed.

Lemma label_not_dash_alnum c : label_char c = true -> negb (is_dash c) = true -> is_alnum c = true.
Proof.
  unfold label_char, is_dash, ascii_eqb. simpl. intros [?|H]%orb_true_iff Hd; [done|].
  rewrite orb_false_r in H. unfold ascii_eqb in H. by rewrite H in Hd.
Qed.

(** Inside a string of label characters, a character that is no dash is alphanumeric. *)
Lemma first_alnum s :
  sforall label_char s = true -> first_is (fun c => negb (is_dash c)) s = true -> first_is is_alnum s = true.
Proof.
  destruct s as [|c s]; [done|]. simpl. intros [Hc _]%andb_true_iff Hd.
  by apply label_not_dash_alnum.
Qed.

Lemma last_alnum s :
  sforall label_char s = true -> last_is (fun c => negb (is_dash c)) s = true -> last_is is_alnum s = true.
Proof. rewrite <- (sforall_srev _ s), <- !first_is_srev. apply first_alnum. Qed.

Lemma replace_invalid_ok s : sforall label_char (replace_invalid s) = true.
Proof.
  induction s as [|c s IH]; [done|]. cbn. destruct (label_char c) eqn:E; rewrite ?E; exact IH.
Qed.

Lemma collapse_ok p s : sforall p s = true -> sforall p (collapse_dashes s) = true.
Proof.
  induction s as [|c s IH]; [done|]. cbn [collapse_dashes sforall]. intros [Hc Hs]%andb_true_iff.
  destruct s as [|d s]; [simpl; by rewrite Hc|].
  destruct (is_dash c && is_dash d)%bool; [by apply IH|]. cbn [sforall]. by rewrite Hc, IH.
Qed.

(** [normalizeRFC1123] turns every input into an RFC 1123 label (of any length). *)
Lemma normalizeRFC1123_label s : is_rfc1123_label (normalizeRFC1123 s).
Proof.
  unfold normalizeRFC1123. set (t := collapse_dashes _).
  assert (Ht : sforall label_char t = true) by apply collapse_ok, replace_invalid_ok.
  set (u := TrimRight is_dash (TrimLeft is_dash t)).
  destruct (empty u) eqn:E; [by vm_compute|]. apply empty_false in E.
  assert (Hu : sforall label_char u = true) by (by apply sforall_TrimRight, sforall_TrimLeft).
  split; [done|]. split.
  - apply first_alnum; [done|]. unfold u. rewrite TrimRight_first by done.
    destruct (TrimLeft_head is_dash t) as [H|H]; [|done]. unfold u in E. by rewrite H in E.
  - apply last_alnum; [done|]. by destruct (TrimRight_last is_dash (TrimLeft is_dash t)).
Qed.

Lemma first_is_stake p n s : (1 <= n)%nat -> first_is p (stake n s) = first_is p s.
Proof. destruct n, s; simpl; try lia; done. Qed.

Lemma cutLabel_label s n :
  (1 <= n)%Z -> is_rfc1123_label s -> is_rfc1123_label (cutLabel s n) /\ (len (cutLabel s n) <= n)%Z.
Proof.
  intros Hn (Hall & Hfirst & Hlast). unfold cutLabel. destruct (Z.leb_spec (len s) n); [done|].
  set (t := stake (Z.to_nat n) s).
  assert (Ht : sforall label_char t = true) by (by apply sforall_stake).
  assert (Hft : first_is is_alnum t = true) by (unfold t; rewrite first_is_stake; [done | lia]).
  assert (Hne : TrimRight is_dash t <> "").
  { apply TrimRight_nonempty. eapply first_is_mono, Hft. apply alnum_not_dash. }
  split.
  - split; [by apply sforall_TrimRight|]. split; [by rewrite TrimRight_first|].
    apply last_alnum; [by apply sforall_TrimRight|]. by destruct (TrimRight_last is_dash t).
  - unfold len. pose proof (TrimRight_length is_dash t). pose proof (stake_length (Z.to_nat n) s).
    fold t in H1. lia.
Qed.

Lemma label_nonempty s : is_rfc1123_label s -> (1 <= len s)%Z.
Proof. intros (_ & H & _). destruct s; [done|]. unfold len. simpl. lia. Qed.

(** Two labels joined by a dash are a label. *)
Lemma label_join a b : is_rfc1123_label a -> is_rfc1123_label b -> is_rfc1123_label (a +:+ "-" +:+ b).
Proof.
  intros (Ha & Fa & La) (Hb & Fb & Lb). split; [|split].
  - rewrite !sforall_app, Ha, Hb. done.
  - destruct a; [done|]. by rewrite sapp_cons.
  - rewrite last_is_app by (by rewrite sapp_cons). rewrite last_is_app; [done|]. by destruct b.
Qed.

Lemma join_prefix x : namespacePrefix +:+ x = "stack" +:+ "-" +:+ x.
Proof. done. Qed.

(** What [sha256] and [hex] document: 64 lower case hex digits. *)
Class HexDigest (sha256_hex : string -> string) : Prop := {
  digest_len x : String.length (sha256_hex x) = 64%nat;
  digest_hex x : sforall is_alnum (sha256_hex x) = true
}.

Lemma sforall_last_is p s : sforall p s = true -> s <> "" -> last_is p s = true.
Proof.
  destruct s as [|c s]; [done|]. intros H _. revert c H.
  induction s as [|d s IH]; intros c H; cbn [sforall last_is] in *.
  - by rewrite andb_true_r in H.
  - apply IH. cbn [sforall]. by apply andb_true_iff in H as [_ ?].
Qed.

Lemma hash_label (h : string -> string) `{!HexDigest h} x :
  is_rfc1123_label (stake (Z.to_nat namespaceHashLen) (h x)) /\
  len (stake (Z.to_nat namespaceHashLen) (h x)) = namespaceHashLen.
Proof.
  set (t := stake _ _). assert (Hl : String.length t = 6%nat).
  { unfold t. rewrite stake_exact; [done|]. rewrite digest_len. unfold namespaceHashLen. lia. }
  assert (Ha : sforall is_alnum t = true) by (apply sforall_stake, digest_hex).
  split; [|unfold len; by rewrite Hl].
  clearbody t. destruct t as [|c t]; [done|]. split; [|split].
  - eapply sforall_mono, Ha. by intros d ->.
  - simpl in *. by apply andb_true_iff in Ha as [? _].
  - by apply sforall_last_is.
Qed.

(** ** Image tags *)

Lemma char_case (P : ascii -> bool) : forallb (fun n => P (ascii_of_nat n)) (seq 0 256) = true -> forall c, P c = true.
Proof.
  intros H c. rewrite forallb_forall in H. rewrite <- (ascii_nat_embedding c). apply H, in_seq.
  pose proof (nat_ascii_bounded c). lia.
Qed.

Lemma tag_char_facts c :
  tag_char c = true -> nat_of_ascii c <> 196%nat /\ nat_of_ascii c <> 226%nat /\ lower c = c /\ char_in c "/ _" = false.
Proof.
  intros Hc. pose proof (char_case (fun c => negb (tag_char c) || (negb (nat_of_ascii c =? 196)%nat &&
    negb (nat_of_ascii c =? 226)%nat && Ascii.eqb (lower c) c && negb (char_in c "/ _"))) eq_refl c) as H.
  cbn beta in H. rewrite Hc in H. cbn [negb orb] in H. split_hyps.
  split_and!; [by apply Nat.eqb_neq|by apply Nat.eqb_neq|by apply Ascii.eqb_eq|done].
Qed.

Lemma ToLower_tag s : sforall tag_char s = true -> ToLower s = s.
Proof.
  induction s as [|c s IH]; [done|]. intros [Hc Hs]%andb_true_iff. destruct (tag_char_facts c Hc) as (H1 & H2 & H3 & _).
  apply Nat.eqb_neq in H1, H2. cbn [ToLower]. rewrite H1, H2, H3. cbn [andb].
  destruct s as [|d s]; [done|]. destruct s as [|e s]; by rewrite IH.
Qed.

Lemma sfilter_id p s : sforall p s = true -> sfilter p s = s.
Proof. induction s as [|c s IH]; simpl; [done|]. intros [-> Hs]%andb_true_iff. by rewrite IH. Qed.

Lemma smap_id f s : sforall (fun c => Ascii.eqb (f c) c) s = true -> smap f s = s.
Proof. induction s as [|c s IH]; simpl; [done|]. intros [->%Ascii.eqb_eq Hs]%andb_true_iff. by rewrite IH. Qed.

Lemma sforall_impl (p q : ascii -> bool) s : (forall c, p c = true -> q c = true) -> sforall p s = true -> sforall q s = true.
Proof. intros H. induction s as [|c s IH]; simpl; [done|]. intros [Hc Hs]%andb_true_iff. by rewrite H, IH. Qed.

(** The image tag of a branch (any bytes, any length) is a valid Docker tag:
    at most 128 bytes of lower case letters, digits, dashes and dots, with a
    letter or a digit first; and a branch that is such a tag is its own image
    tag. *)
Theorem image_tag_valid branch :
  let tag := SanitizeImageTag branch in
  sforall tag_char tag = true /\ first_is is_alnum tag = true /\ (len tag <= 128)%Z /\
  (sforall tag_char branch = true -> first_is is_alnum branch = true -> (len branch <= 128)%Z -> tag = branch).
Proof.
  unfold SanitizeImageTag. set (t := TrimLeft _ _). set (u := if (_ <? len t)%Z then _ else t).
  assert (Ht : sforall tag_char t = true) by apply sforall_TrimLeft, sforall_filter.
  assert (Hu : sforall tag_char u = true) by (unfold u; case_match; [by apply sforall_stake|done]).
  assert (Hlen : (len u <= 128)%Z).
  { unfold u. destruct (Z.ltb_spec maxImageTagLen (len t)); [|done].
    unfold len. pose proof (stake_length (Z.to_nat maxImageTagLen) t). unfold maxImageTagLen in *. lia. }
  assert (Hfirst : u = "" \/ first_is is_alnum u = true).
  { assert (Hf : t = "" \/ first_is is_alnum t = true).
    { destruct (TrimLeft_head (fun c => char_in c "-.") (sfilter tag_char (smap (fun c => if char_in c "/ _" then "-"%char else c)
        (ToLower branch)))) as [H|H]; [by left|right]. fold t in H. destruct t as [|c t']; [done|].
      cbn [first_is sforall] in *. apply andb_true_iff in Ht as [Hc _]. unfold tag_char in Hc.
      destruct (is_alnum c); [done|]. cbn in Hc, H. by rewrite Hc in H. }
    unfold u. case_match; [|done]. destruct Hf as [->|Hf]; [by left|right]. rewrite first_is_stake; [done|].
    unfold maxImageTagLen. lia. }
  split_and!.
  - by destruct (empty u).
  - destruct u; [reflexivity|]. by destruct Hfirst.
  - destruct (empty u); [by vm_compute|done].
  - intros Hb Hf Hl. assert (E : t = branch).
    { unfold t. rewrite ToLower_tag by done. rewrite smap_id.
      2: { eapply sforall_impl, Hb. intros c Hc. destruct (tag_char_facts c Hc) as (_ & _ & _ & ->). apply Ascii.eqb_refl. }
      rewrite sfilter_id by done. destruct branch as [|c b]; [done|]. cbn [TrimLeft first_is] in *.
      assert (Hd : char_in c "-." = false).
      { pose proof (char_case (fun c => negb (is_alnum c) || negb (char_in c "-.")) eq_refl c) as H.
        cbn beta in H. rewrite Hf in H. by apply negb_true_iff in H. }
      by rewrite Hd. }
    unfold u. rewrite E. destruct (Z.ltb_spec maxImageTagLen (len branch)); [unfold maxImageTagLen in *; lia|].
    by destruct branch.
Qed.

(** Whatever the instance and owner names are (any bytes, any length), the
    generated namespace is an RFC 1123 label of at most 63 bytes that starts
    with "stack-": the namespace check of [StackInstance.Validate] never
    rejects it, and the stack namespace listing finds it. *)
Theorem buildNamespace_valid (h : string -> string) `{!HexDigest h} instancePart ownerPart :
  let ns := buildNamespace h instancePart ownerPart in
  is_rfc1123_label ns /\ (len ns <= MaxNamespaceLength)%Z /\ HasPrefix ns "stack-" = true.
Proof.
  intros ns. unfold ns, buildNamespace.
  set (i := normalizeRFC1123 instancePart). set (o := normalizeRFC1123 ownerPart).
  pose proof (normalizeRFC1123_label instancePart) as Hi. fold i in Hi.
  pose proof (normalizeRFC1123_label ownerPart) as Ho. fold o in Ho.
  assert (Hst : is_rfc1123_label "stack") by (by vm_compute).
  destruct (Z.leb_spec (len (namespacePrefix +:+ i +:+ "-" +:+ o)) maxNamespaceLen) as [Hle|Hgt].
  - split; [|split; [done|apply HasPrefix_app]]. rewrite join_prefix. by repeat apply label_join.
  - pose proof (label_nonempty _ Hi). pose proof (label_nonempty _ Ho).
    rewrite !len_app in Hgt. change (len namespacePrefix) with 6%Z in *. change (len "-") with 1%Z in *.
    unfold maxNamespaceLen, namespaceHashLen, minNamespaceInstanceLen, MaxNamespaceLength in *.
    destruct (hash_label h (i +:+ "/" +:+ o)) as [Hh Hhl].
    set (hs := stake _ _) in *.
    set (n := if (63 - 6 - 6 - 2 - len o <? 10)%Z then _ else _).
    assert (Hn : (1 <= n <= 48)%Z) by (unfold n; destruct (Z.ltb_spec (63 - 6 - 6 - 2 - len o) 10); lia).
    destruct (cutLabel_label i n) as [Hc1 Hc2]; [lia|done|].
    destruct (cutLabel_label o (63 - 6 - 6 - 2 - n)) as [Hc3 Hc4]; [lia|done|].
    split; [|split; [|apply HasPrefix_app]].
    + rewrite join_prefix. by repeat apply label_join.
    + rewrite !len_app, Hhl. change (len namespacePrefix) with 6%Z. change (len "-") with 1%Z.
      unfold namespaceHashLen in *. lia.
Qed.

(** A digest with the documented shape, for the witness. *)
Definition zero_digest : string -> string := fun _ =>
  "0000000000000000000000000000000000000000000000000000000000000000".
#[global] Instance zero_digest_hex : HexDigest zero_digest.
Proof. split; by intros x. Qed.

Lemma buildNamespace_valid_witness :
  let ns := buildNamespace zero_digest "My Very_Long Instance Name that does not fit anywhere" "--Jane.Doe@Example.com--" in
  ns = "stack-my-very-long-instance-name-th-000000-jane-doe-example-com" /\ is_rfc1123_label ns.
Proof.
  split; [vm_compute; reflexivity|].
  apply (buildNamespace_valid zero_digest).
Defined.
