(* ===== verification/Store.v ===== *)
(** * The database

    The tables [stack_instances], [deployment_logs] and [replica_heartbeats]
    with every statement that the repositories of [backend/internal/database]
    run on them ([stack_instance_repository.go], [deployment_log_repository.go],
    [interrupted_operation_repository.go], [replica_heartbeat_repository.go],
    [retention_repository.go]).  A statement is data ([dbop]); [exec] runs it
    and returns the number of changed rows, as MySQL counts them.  [db_steps] is
    what any number of processes can do to the database.  The methods that
    combine statements are in the file [World].

    gorm's [Save] updates all columns and inserts the row when the update
    matches nothing (the comment of [GORMDeploymentLogRepository.Update]). *)

From S2P Require Import Prelude Models.
Local Open Scope string_scope.

Record Store := mkStore {
  st_instances : gmap string StackInstance;
  st_logs : gmap string DeploymentLog;
  st_beats : gmap string time
}.

Definition with_instances (m : gmap string StackInstance) (s : Store) : Store :=
  mkStore m (st_logs s) (st_beats s).
Definition with_logs (m : gmap string DeploymentLog) (s : Store) : Store :=
  mkStore (st_instances s) m (st_beats s).
Definition with_beats (m : gmap string time) (s : Store) : Store :=
  mkStore (st_instances s) (st_logs s) m.

(** Durations, in nanoseconds. *)
Definition Millisecond : Z := 1000000.
Definition Second : Z := 1000000000.
Definition Minute : Z := 60 * Second.

Definition expiryMatchTolerance : Z := Second.

(** ** Statements *)

Inductive dbop :=
(* stack_instances *)
| InsertInstance (i : StackInstance)
| ClearExpiryWarning (id : string) (expiresAt : option time)
| SaveInstance (i : StackInstance)
| SetCleaning (id : string) (fromStatuses : list string) (deleteAfterClean : bool) (now : time)
| SetNamespaceError (id message : string) (now updated : time)
| SetStatus (id to : string) (from : list string) (now : time)
| ClearDelete (id : string)
| SetExpiryWarned (id : string) (expiresAt warnedAt : time)
| InterruptInstance (id status : string) (updatedAt : time) (message : string) (now : time)
| RemoveInstance (id : string)
(* deployment_logs *)
| InsertLog (l : DeploymentLog)
| SaveRunningLog (l : DeploymentLog)
| SetDeadline (id : string) (deadline : time)
| SetRunningOutput (id output : string)
| InterruptLog (id replica message : string) (staleAfter : Z) (now : time)
| RemoveFinishedLogs (ids : list string) (age : Z)
(* replica_heartbeats *)
| UpsertBeat (id : string)
| RemoveBeat (id : string)
| RemoveBeatsOlder (age : Z).

(** [UPDATE .. WHERE id = ? AND guard]: MySQL counts a row only when a value
    changed. *)
Definition update_where {R} `{EqDecision R} (id : string) (guard : R -> bool) (f : R -> R)
    (m : gmap string R) : Z * gmap string R :=
  match m !! id with
  | None => (0%Z, m)
  | Some r =>
      If negb (guard r) Return (0%Z, m) ;;
      ((if decide (f r = r) then 0%Z else 1%Z), <[id := f r]> m)
  end.

(** [columnExpiryWarnedAt] and [columnDeleteAfterClean] are never written by
    [Save]. *)
Definition saved_row (stored i : StackInstance) : StackInstance :=
  i |> si_set_ExpiryWarnedAt (si_ExpiryWarnedAt stored)
    |> si_set_DeleteAfterClean (si_DeleteAfterClean stored).
Definition inserted_row (i : StackInstance) : StackInstance :=
  i |> si_set_ExpiryWarnedAt None |> si_set_DeleteAfterClean false.

(** The WHERE clause of [clearExpiryWarningIfExpiryChanged]. *)
Definition expiry_changed (stored expiresAt : option time) : bool :=
  match expiresAt, stored with
  | None, None => false
  | None, Some _ => true
  | Some _, None => true
  | Some e, Some s => (s <=? e - expiryMatchTolerance)%Z || (e + expiryMatchTolerance <=? s)%Z
  end.

Definition has_status (statuses : list string) (i : StackInstance) : bool :=
  bool_decide (si_Status i ∈ statuses).
Definition log_running (l : DeploymentLog) : bool := bool_decide (dl_Status l = DeployLogRunning).
Definition before (t : option time) (now : time) : bool :=
  match t with Some x => (x <? now)%Z | None => false end.

(** The guard of [MarkExpiryWarned]. *)
Definition warning_applies (expiresAt : time) (i : StackInstance) : bool :=
  bool_decide (si_ExpiryWarnedAt i = None) &&
  match si_ExpiresAt i with
  | Some e => (expiresAt - expiryMatchTolerance <? e)%Z && (e <? expiresAt + expiryMatchTolerance)%Z
  | None => false
  end.

(** The guard of [MarkNamespaceError]. *)
Definition namespace_error_applies (now : time) (i : StackInstance) : bool :=
  has_status [StackStatusRunning; StackStatusPartial] i ||
  (has_status [StackStatusStabilizing] i &&
   match si_PostDeployHookUntil i with None => true | Some u => (u <? now)%Z end).

(** The guard of [MarkCleanStart]: a plain clean never matches a marked row. *)
Definition clean_start_applies (from : list string) (deleteAfterClean : bool) (i : StackInstance) : bool :=
  has_status from i && (deleteAfterClean || negb (si_DeleteAfterClean i)).

Definition set_cleaning (deleteAfterClean : bool) (now : time) (i : StackInstance) : StackInstance :=
  let i := i |> si_set_Status StackStatusCleaning |> si_set_ErrorMessage "" |> si_set_UpdatedAt now in
  if deleteAfterClean then si_set_DeleteAfterClean true i else i.

(** [dbNowMinus]: the database time minus an age, in milliseconds. *)
Definition dbNowMinus (dbnow age : Z) : time := (dbnow - (age `quot` Millisecond) * Millisecond)%Z.

(** [staleHeartbeatCond]: no heartbeat row of the replica within [staleAfter]. *)
Definition staleHeartbeat (beats : gmap string time) (dbnow : time) (replica : string) (staleAfter : Z) : bool :=
  match beats !! replica with
  | Some seen => (seen <? dbNowMinus dbnow staleAfter)%Z
  | None => true
  end.

(** [finishedDeployLogStatuses] and the delete scope of the retention: a
    running log is never deleted. *)
Definition finishedDeployLogStatuses : list string :=
  [DeployLogSuccess; DeployLogError; DeployLogPartial].
Definition retention_deletes (ids : list string) (cutoff : time) (l : DeploymentLog) : bool :=
  bool_decide (dl_ID l ∈ ids) && bool_decide (dl_Status l ∈ finishedDeployLogStatuses) &&
  (dl_StartedAt l <? cutoff)%Z.

Definition ErrDuplicateKey := ESent "ErrDuplicateKey" "duplicate key violation".
Definition ErrNotFound := ESent "ErrNotFound" "record not found".

Definition on_instances (s : Store) (r : Z * gmap string StackInstance) : res Z * Store :=
  (Ok r.1, with_instances r.2 s).
Definition on_logs (s : Store) (r : Z * gmap string DeploymentLog) : res Z * Store :=
  (Ok r.1, with_logs r.2 s).

(** One statement at database time [dbnow]: the number of changed rows, or the
    duplicate key error. *)
Definition exec (dbnow : time) (op : dbop) (s : Store) : res Z * Store :=
  match op with
  | InsertInstance i =>
      match st_instances s !! si_ID i with
      | Some _ => (Err ErrDuplicateKey, s)
      | None => (Ok 1%Z, with_instances (<[si_ID i := i]> (st_instances s)) s)
      end
  | ClearExpiryWarning id expiresAt =>
      on_instances s (update_where id
        (fun r => bool_decide (is_Some (si_ExpiryWarnedAt r)) && expiry_changed (si_ExpiresAt r) expiresAt)
        (si_set_ExpiryWarnedAt None) (st_instances s))
  | SaveInstance i =>
      match st_instances s !! si_ID i with
      | Some r => on_instances s (update_where (si_ID i) (fun _ => true) (fun r => saved_row r i) (st_instances s))
      | None => (Ok 1%Z, with_instances (<[si_ID i := inserted_row i]> (st_instances s)) s)
      end
  | SetCleaning id from del now =>
      on_instances s (update_where id (clean_start_applies from del) (set_cleaning del now) (st_instances s))
  | SetNamespaceError id message now updated =>
      on_instances s (update_where id (namespace_error_applies now)
        (fun r => r |> si_set_Status StackStatusError |> si_set_ErrorMessage message |> si_set_UpdatedAt updated)
        (st_instances s))
  | SetStatus id to from now =>
      on_instances s (update_where id (has_status from)
        (fun r => r |> si_set_Status to |> si_set_UpdatedAt now) (st_instances s))
  | ClearDelete id =>
      on_instances s (update_where id (fun _ => true) (si_set_DeleteAfterClean false) (st_instances s))
  | SetExpiryWarned id expiresAt warnedAt =>
      on_instances s (update_where id (warning_applies expiresAt)
        (si_set_ExpiryWarnedAt (Some warnedAt)) (st_instances s))
  | InterruptInstance id status updatedAt message now =>
      on_instances s (update_where id
        (fun r => bool_decide (si_Status r = status) && (si_UpdatedAt r =? updatedAt)%Z)
        (fun r => r |> si_set_Status StackStatusError |> si_set_ErrorMessage message
                    |> si_set_PostDeployHookUntil None |> si_set_DeleteAfterClean false |> si_set_UpdatedAt now)
        (st_instances s))
  | RemoveInstance id =>
      (Ok (if decide (is_Some (st_instances s !! id)) then 1%Z else 0%Z),
       with_instances (delete id (st_instances s)) s)
  | InsertLog l =>
      match st_logs s !! dl_ID l with
      | Some _ => (Err ErrDuplicateKey, s)
      | None => (Ok 1%Z, with_logs (<[dl_ID l := l]> (st_logs s)) s)
      end
  | SaveRunningLog l =>
      on_logs s (update_where (dl_ID l) log_running (fun _ => l) (st_logs s))
  | SetDeadline id deadline =>
      on_logs s (update_where id
        (fun r => log_running r &&
           match dl_DeadlineAt r with None => true | Some d => (d <? deadline)%Z end)
        (dl_set_DeadlineAt (Some deadline)) (st_logs s))
  | SetRunningOutput id output =>
      on_logs s (update_where id log_running (dl_set_Output output) (st_logs s))
  | InterruptLog id replica message staleAfter now =>
      on_logs s (update_where id
        (fun r => log_running r && bool_decide (dl_ReplicaID r = replica) &&
                  staleHeartbeat (st_beats s) dbnow (dl_ReplicaID r) staleAfter)
        (fun r => r |> dl_set_Status DeployLogError |> dl_set_ErrorMessage message
                    |> dl_set_CompletedAt (Some now)) (st_logs s))
  | RemoveFinishedLogs ids age =>
      let gone (p : string * DeploymentLog) :=
        retention_deletes ids (dbNowMinus dbnow age) p.2 = true in
      (Ok (Z.of_nat (size (filter gone (st_logs s)))),
       with_logs (filter (fun p => ~ gone p) (st_logs s)) s)
  | UpsertBeat id => (Ok 1%Z, with_beats (<[id := dbnow]> (st_beats s)) s)
  | RemoveBeat id => (Ok 1%Z, with_beats (delete id (st_beats s)) s)
  | RemoveBeatsOlder age =>
      let old (p : string * time) := (p.2 < dbNowMinus dbnow age)%Z in
      (Ok (Z.of_nat (size (filter old (st_beats s)))),
       with_beats (filter (fun p => ~ old p) (st_beats s)) s)
  end.

Definition exec_all (ops : list (time * dbop)) (s : Store) : Store :=
  fold_left (fun s p => (exec p.1 p.2 s).2) ops s.

(** ** What the processes can do to the database

    [db_steps P] is any sequence of statements that satisfy [P]: [P] is what a
    process (or all of them) may do. *)

Definition db_step (P : dbop -> Prop) (s s' : Store) : Prop :=
  exists dbnow op, P op /\ s' = (exec dbnow op s).2.
Definition db_steps (P : dbop -> Prop) : Store -> Store -> Prop := rtc (db_step P).

Lemma exec_steps (P : dbop -> Prop) dbnow op s : P op -> db_steps P s (exec dbnow op s).2.
Proof. intros H. apply rtc_once. by exists dbnow, op. Qed.

Lemma exec_all_steps (P : dbop -> Prop) ops s :
  Forall (fun p => P p.2) ops -> db_steps P s (exec_all ops s).
Proof.
  intros H. revert s. induction H as [|[t op] ops Hp _ IH]; intros s; [done|].
  simpl. eapply rtc_l, IH. by exists t, op.
Qed.

#[global] Instance db_steps_preorder P : PreOrder (db_steps P).
Proof. unfold db_steps. apply _. Qed.

Lemma db_steps_mono (P Q : dbop -> Prop) s s' :
  (forall op, P op -> Q op) -> db_steps P s s' -> db_steps Q s s'.
Proof.
  intros H. induction 1 as [|s1 s2 s3 (t & op & Hp & ->) _ IH]; [done|].
  eapply rtc_l, IH. exists t, op. by split; [apply H|].
Qed.

(** An invariant of every statement is an invariant of every run. *)
Lemma db_steps_inv (P : dbop -> Prop) (I : Store -> Prop) :
  (forall dbnow op s, P op -> I s -> I (exec dbnow op s).2) ->
  forall s s', db_steps P s s' -> I s -> I s'.
Proof.
  intros H s s'. induction 1 as [|s1 s2 s3 (t & op & Hp & ->) _ IH]; [done|].
  intros Hi. by apply IH, H.
Qed.

Lemma update_where_other {R} `{EqDecision R} id id' g (f : R -> R) m :
  id <> id' -> (update_where id g f m).2 !! id' = m !! id'.
Proof.
  intros Hne. unfold update_where. destruct (m !! id) as [r|]; [|done].
  destruct (negb (g r)); [done|]. simpl. by rewrite lookup_insert_ne.
Qed.

Lemma update_where_same {R} `{EqDecision R} id g (f : R -> R) m :
  (update_where id g f m).2 !! id =
  match m !! id with Some r => Some (if g r then f r else r) | None => None end.
Proof.
  unfold update_where. destruct (m !! id) as [r|] eqn:E; [|done].
  destruct (g r); simpl; [by rewrite lookup_insert_eq|done].
Qed.

Lemma update_where_lookup {R} `{EqDecision R} id id' g (f : R -> R) m :
  (update_where id g f m).2 !! id' =
  if decide (id = id')
  then match m !! id' with Some r => Some (if g r then f r else r) | None => None end
  else m !! id'.
Proof. case_decide; [subst; apply update_where_same | by apply update_where_other]. Qed.

Lemma update_where_rows {R} `{EqDecision R} id g (f : R -> R) m :
  (update_where id g f m).1 <> 0%Z -> exists r, m !! id = Some r /\ g r = true.
Proof.
  unfold update_where. destruct (m !! id) as [r|]; [|done]. destruct (g r) eqn:E; [|done].
  intros _. by exists r.
Qed.

(** ** Rows that a statement does not touch *)

Definition writes_log (op : dbop) (id : string) : bool :=
  match op with
  | InsertLog l | SaveRunningLog l => bool_decide (dl_ID l = id)
  | SetDeadline i _ | SetRunningOutput i _ | InterruptLog i _ _ _ _ => bool_decide (i = id)
  | RemoveFinishedLogs ids _ => true
  | _ => false
  end.

Definition writes_instance (op : dbop) (id : string) : bool :=
  match op with
  | InsertInstance i | SaveInstance i => bool_decide (si_ID i = id)
  | ClearExpiryWarning i _ | SetCleaning i _ _ _ | SetNamespaceError i _ _ _ | SetStatus i _ _ _
  | ClearDelete i | SetExpiryWarned i _ _ | InterruptInstance i _ _ _ _ | RemoveInstance i =>
      bool_decide (i = id)
  | _ => false
  end.

Ltac exec_cases op := destruct op; cbn [exec]; unfold on_instances, on_logs; cbn [fst snd].

Lemma exec_instance_frame dbnow op s id :
  writes_instance op id = false -> st_instances (exec dbnow op s).2 !! id = st_instances s !! id.
Proof.
  exec_cases op; intros H; try (repeat case_match; done); cbn [writes_instance] in H;
    apply bool_decide_eq_false in H.
  all: repeat case_match; cbn [snd with_instances st_instances]; try done.
  all: rewrite ?update_where_other, ?lookup_insert_ne, ?lookup_delete_ne by done; done.
Qed.

Lemma instance_untouched P s s' id :
  db_steps P s s' -> (forall op, P op -> writes_instance op id = false) ->
  st_instances s' !! id = st_instances s !! id.
Proof.
  intros Hs HP. eapply (db_steps_inv P (fun x => st_instances x !! id = st_instances s !! id)); try done.
  intros t op x Hp <-. by apply exec_instance_frame, HP.
Qed.

(** ** A finished log never changes *)

(** The rows are stored under their own ID. *)
Definition keyed (s : Store) : Prop :=
  (forall id l, st_logs s !! id = Some l -> dl_ID l = id) /\
  (forall id i, st_instances s !! id = Some i -> si_ID i = id).

Lemma update_where_keyed {R} `{EqDecision R} (key : R -> string) id g (f : R -> R) m :
  (forall r, key r = id -> key (f r) = id) ->
  (forall id' r, m !! id' = Some r -> key r = id') ->
  forall id' r, (update_where id g f m).2 !! id' = Some r -> key r = id'.
Proof.
  intros Hf Hm id' r. rewrite update_where_lookup. case_decide as Hd; [subst|apply Hm].
  destruct (m !! id') as [r0|] eqn:E; [|done]. intros [= <-].
  specialize (Hm _ _ E). destruct (g r0); auto.
Qed.

Lemma insert_keyed {R} (key : R -> string) (r : R) (m : gmap string R) :
  (forall id' x, m !! id' = Some x -> key x = id') ->
  forall id' x, <[key r := r]> m !! id' = Some x -> key x = id'.
Proof.
  intros Hm id' x. destruct (decide (key r = id')) as [<-|].
  - rewrite lookup_insert_eq. by intros [= <-].
  - rewrite lookup_insert_ne by done. apply Hm.
Qed.

Lemma exec_keyed dbnow op s : keyed s -> keyed (exec dbnow op s).2.
Proof.
  intros [Hl Hi]. exec_cases op.
  all: repeat match goal with |- context [match ?x !! ?k with _ => _ end] => destruct (x !! k) eqn:? end.
  all: split; cbn [st_logs st_instances with_logs with_instances with_beats on_instances on_logs snd]; try done.
  all: try (apply update_where_keyed; [|done]; intros r Hr; first [done | exact Hr | by destruct deleteAfterClean]).
  all: try (by apply insert_keyed).
  - apply (insert_keyed si_ID (inserted_row i)). done.
  - intros id' r H. apply lookup_delete_Some in H as [_ H]. by apply Hi.
  - intros id' r H. apply map_lookup_filter_Some in H as [H _]. by apply Hl.
Qed.

Lemma db_steps_keyed P s s' : db_steps P s s' -> keyed s -> keyed s'.
Proof. apply db_steps_inv. intros t op x _. apply exec_keyed. Qed.

Definition reuses_log (id : string) (op : dbop) : Prop :=
  match op with InsertLog l => dl_ID l = id | _ => False end.

Definition log_final (id : string) (l : DeploymentLog) (s : Store) : Prop :=
  st_logs s !! id = Some l \/ st_logs s !! id = None.

Lemma update_where_guarded {R} `{EqDecision R} id id' g (f : R -> R) m r :
  m !! id' = Some r -> g r = false -> (update_where id g f m).2 !! id' = Some r.
Proof.
  intros Hm Hg. rewrite update_where_lookup. case_decide; [|done]. by rewrite Hm, Hg.
Qed.

Lemma update_where_absent {R} `{EqDecision R} id id' g (f : R -> R) m :
  m !! id' = None -> (update_where id g f m).2 !! id' = None.
Proof. intros Hm. rewrite update_where_lookup. case_decide; by rewrite Hm. Qed.

Lemma exec_log_final dbnow op s id l :
  ~ reuses_log id op -> log_running l = false -> log_final id l s -> log_final id l (exec dbnow op s).2.
Proof.
  intros Hnew Hfin. unfold log_final.
  exec_cases op; try (repeat case_match; by cbn [snd with_instances with_beats st_logs]).
  - destruct (st_logs s !! dl_ID l0) eqn:E; cbn [snd with_logs st_logs]; [done|].
    cbn [reuses_log] in Hnew. by rewrite lookup_insert_ne.
  - cbn. intros [H|H]; [left; by apply update_where_guarded | right; by apply update_where_absent].
  - cbn. intros [H|H]; [left; apply update_where_guarded; [done|by rewrite Hfin]
                       | right; by apply update_where_absent].
  - cbn. intros [H|H]; [left; by apply update_where_guarded | right; by apply update_where_absent].
  - cbn. intros [H|H]; [left; apply update_where_guarded; [done|by rewrite Hfin]
                       | right; by apply update_where_absent].
  - cbn. intros [H|H].
    + destruct (decide (retention_deletes ids (dbNowMinus dbnow age) l = true)) as [Hd|Hd].
      * right. apply map_lookup_filter_None. right. intros x Hx. simpl. rewrite H in Hx.
        simplify_eq. tauto.
      * left. by apply map_lookup_filter_Some.
    + right. apply map_lookup_filter_None. by left.
Qed.

(** C7. A deployment log that has ended keeps its row for ever: whatever
    statements any replica runs in any order (late finalizers, live output
    writes, deadline extensions, interrupt recoveries, instance updates,
    retention), the row of a log that is not running stays exactly as it is
    until the retention removes it, provided no new log reuses its ID. *)
Theorem finished_log_stable s s' id l :
  st_logs s !! id = Some l -> log_running l = false ->
  db_steps (fun op => ~ reuses_log id op) s s' ->
  st_logs s' !! id = Some l \/ st_logs s' !! id = None.
Proof.
  intros Hl Hfin Hs. eapply (db_steps_inv _ (log_final id l)); [|exact Hs|by left].
  intros t op x Hp. by apply exec_log_final.
Qed.

(** ** The row of an instance under a statement

    [row_rel]: the row exists and satisfies [I]; [row_all]: it satisfies [I] if
    it exists.  [update_where] keeps both when the update does. *)
Definition row_rel (I : StackInstance -> Prop) (id : string) (s : Store) : Prop :=
  exists i, st_instances s !! id = Some i /\ I i.

Lemma update_where_inv {R} `{EqDecision R} (I : R -> Prop) id id' g (f : R -> R) m :
  (id = id' -> forall r, I r -> g r = true -> I (f r)) ->
  (exists r, m !! id' = Some r /\ I r) -> exists r, (update_where id g f m).2 !! id' = Some r /\ I r.
Proof.
  intros Hf (r & Hm & Hr). rewrite update_where_lookup. case_decide as Hd; [|eauto].
  rewrite Hm. eexists. split; [done|]. destruct (g r) eqn:E; [by apply Hf|done].
Qed.

Lemma update_where_inv_all {R} `{EqDecision R} (I : R -> Prop) id id' g (f : R -> R) m :
  (id = id' -> forall r, I r -> g r = true -> I (f r)) ->
  (forall r, m !! id' = Some r -> I r) -> forall r, (update_where id g f m).2 !! id' = Some r -> I r.
Proof.
  intros Hf Hm r. rewrite update_where_lookup. case_decide as Hd; [|apply Hm].
  destruct (m !! id') as [r0|]; [|done]. intros [= <-].
  destruct (g r0) eqn:E; [apply Hf|]; auto.
Qed.

Definition row_all (I : StackInstance -> Prop) (id : string) (s : Store) : Prop :=
  forall i, st_instances s !! id = Some i -> I i.

(** ** The delete mark *)

Definition sets_mark (id : string) (op : dbop) : Prop :=
  match op with
  | SetCleaning i _ del _ => i = id /\ del = true
  | InsertInstance i => si_ID i = id /\ si_DeleteAfterClean i = true
  | _ => False
  end.
Definition clears_mark (id : string) (op : dbop) : Prop :=
  match op with
  | ClearDelete i | InterruptInstance i _ _ _ _ | RemoveInstance i => i = id
  | _ => False
  end.

Lemma exec_unmarked dbnow op s id :
  ~ sets_mark id op -> row_all (fun i => si_DeleteAfterClean i = false) id s ->
  row_all (fun i => si_DeleteAfterClean i = false) id (exec dbnow op s).2.
Proof.
  unfold row_all. intros Hn Hs. exec_cases op; try done.
  all: try (apply update_where_inv_all; [|done]; by intros _ r Hr _).
  - destruct (st_instances s !! si_ID i) eqn:E; cbn; [done|]. intros j.
    destruct (decide (si_ID i = id)) as [<-|]; [|by rewrite lookup_insert_ne; auto].
    rewrite lookup_insert_eq. intros [= <-]. cbn in Hn. destruct (si_DeleteAfterClean i); tauto.
  - destruct (st_instances s !! si_ID i) eqn:E; cbn.
    + apply update_where_inv_all; [|done]. by intros _ r Hr _.
    + intros j. destruct (decide (si_ID i = id)) as [<-|]; [|by rewrite lookup_insert_ne; auto].
      rewrite lookup_insert_eq. by intros [= <-].
  - apply update_where_inv_all; [|done]. intros -> r Hr _. cbn in Hn.
    destruct deleteAfterClean; [tauto|done].
  - intros j. cbn. destruct (decide (id0 = id)) as [->|]; [by rewrite lookup_delete_eq|].
    rewrite lookup_delete_ne by done. apply Hs.
  - destruct (st_logs s !! dl_ID l); done.
Qed.

Lemma exec_marked dbnow op s id :
  ~ clears_mark id op -> row_rel (fun i => si_DeleteAfterClean i = true) id s ->
  row_rel (fun i => si_DeleteAfterClean i = true) id (exec dbnow op s).2.
Proof.
  unfold row_rel. intros Hn Hs. exec_cases op; try done.
  all: try (apply update_where_inv; [|done]; cbn in Hn; intros ? r Hr _; (done || by destruct Hn)).
  - destruct (st_instances s !! si_ID i) eqn:E; cbn; [done|].
    destruct Hs as (j & Hj & ?). exists j. rewrite lookup_insert_ne by congruence. done.
  - destruct (st_instances s !! si_ID i) eqn:E; cbn.
    + apply update_where_inv; [|done]. by intros _ r Hr _.
    + destruct Hs as (j & Hj & ?). exists j. rewrite lookup_insert_ne by congruence. done.
  - apply update_where_inv; [|done]. intros _ r Hr _. by destruct deleteAfterClean.
  - destruct Hs as (j & Hj & ?). exists j. cbn in Hn |- *. rewrite lookup_delete_ne by done. done.
  - destruct (st_logs s !! dl_ID l); done.
Qed.

(** The delete mark ([delete_after_clean]) cannot be forged or lost by a
    concurrent full-row write.  Without a [MarkCleanStart] of a delete, no
    sequence of statements (stale [Update]s of a marked copy included) marks
    an instance; and a marked instance stays marked until
    [ClearDeleteAfterClean], an interrupt recovery or the row's deletion. *)
Theorem delete_mark_exclusive id s s' :
  (db_steps (fun op => ~ sets_mark id op) s s' ->
   row_all (fun i => si_DeleteAfterClean i = false) id s ->
   row_all (fun i => si_DeleteAfterClean i = false) id s') /\
  (db_steps (fun op => ~ clears_mark id op) s s' ->
   row_rel (fun i => si_DeleteAfterClean i = true) id s ->
   row_rel (fun i => si_DeleteAfterClean i = true) id s').
Proof.
  split; apply db_steps_inv; intros t op x.
  - apply exec_unmarked.
  - apply exec_marked.
Qed.

(** ** Only one clean starts *)

Definition ends_clean (id : string) (op : dbop) : Prop :=
  match op with
  | SaveInstance i => si_ID i = id
  | SetStatus i _ from _ => i = id /\ StackStatusCleaning ∈ from
  | InterruptInstance i _ _ _ _ | RemoveInstance i => i = id
  | _ => False
  end.

Lemma exec_cleaning dbnow op s id :
  ~ ends_clean id op -> row_rel (fun i => si_Status i = StackStatusCleaning) id s ->
  row_rel (fun i => si_Status i = StackStatusCleaning) id (exec dbnow op s).2.
Proof.
  unfold row_rel. intros Hn Hs. exec_cases op; try done.
  all: try (apply update_where_inv; [|done]; cbn in Hn; intros ? r Hr _; (done || by destruct Hn)).
  - destruct (st_instances s !! si_ID i) eqn:E; cbn; [done|].
    destruct Hs as (j & Hj & ?). exists j. rewrite lookup_insert_ne by congruence. done.
  - cbn in Hn. destruct (st_instances s !! si_ID i) eqn:E; cbn.
    + rewrite update_where_other by done. done.
    + destruct Hs as (j & Hj & ?). exists j. rewrite lookup_insert_ne by done. done.
  - apply update_where_inv; [|done]. intros _ r Hr _. by destruct deleteAfterClean.
  - apply update_where_inv; [|done]. intros _ r Hr Hg. exfalso. revert Hg.
    unfold namespace_error_applies, has_status. rewrite Hr. by vm_compute.
  - apply update_where_inv; [|done]. intros -> r Hr Hg. exfalso. unfold has_status in Hg.
    rewrite Hr in Hg. apply bool_decide_eq_true in Hg. apply Hn. by split.
  - destruct Hs as (j & Hj & ?). exists j. cbn in Hn |- *. rewrite lookup_delete_ne by done. done.
  - destruct (st_logs s !! dl_ID l); done.
Qed.

Lemma update_where_none {R} `{EqDecision R} id g (f : R -> R) m r :
  m !! id = Some r -> g r = false -> update_where id g f m = (0%Z, m).
Proof. intros Hm Hg. unfold update_where. by rewrite Hm, Hg. Qed.

Lemma with_instances_id s : with_instances (st_instances s) s = s.
Proof. by destruct s. Qed.
Lemma with_logs_id s : with_logs (st_logs s) s = s.
Proof. by destruct s. Qed.

(** Cleans are mutually exclusive across replicas.  After one
    [MarkCleanStart] changed the row, every other one (plain clean or delete,
    from [CleanStatuses]) changes no row, as long as the first clean was not
    ended by a final write, an interrupt recovery or a deletion, whatever else
    runs in between. *)
Theorem clean_start_exclusive id del1 del2 t1 t2 now1 now2 s s1 s2 :
  exec t1 (SetCleaning id CleanStatuses del1 now1) s = (Ok 1%Z, s1) ->
  db_steps (fun op => ~ ends_clean id op) s1 s2 ->
  exec t2 (SetCleaning id CleanStatuses del2 now2) s2 = (Ok 0%Z, s2).
Proof.
  intros H1 Hs. assert (Hc : row_rel (fun i => si_Status i = StackStatusCleaning) id s1).
  { cbn [exec] in H1. unfold on_instances in H1. injection H1 as Hr <-.
    destruct (update_where_rows id (clean_start_applies CleanStatuses del1) (set_cleaning del1 now1)
      (st_instances s)) as (r & Hm & Hg); [rewrite Hr; done|].
    eexists. cbn. rewrite update_where_same, Hm, Hg. split; [done|]. by destruct del1. }
  destruct (db_steps_inv _ _ (fun t op x => exec_cleaning t op x id) _ _ Hs Hc) as (i & Hi & Hst).
  cbn [exec]. unfold on_instances. erewrite update_where_none; [|exact Hi|].
  - cbn. by rewrite with_instances_id.
  - unfold clean_start_applies, has_status. rewrite Hst. by vm_compute.
Qed.

(** ** A database, for the witnesses *)

#[local] Open Scope Z_scope.

Definition sample_instance (id status : string) : StackInstance :=
  mkInstance id "def-1" "shop" "stack-shop-alice" "alice" "main" "c1" status "" "" 0 1000 1000
    None (Some (3600 * Second)%Z) None None None None false.
Definition sample_log (id action status : string) : DeploymentLog :=
  mkLog id "i1" action status "" "" "" "" "main" "" "alice" "pod-a" 2000 None None.
Definition sample_store : Store :=
  mkStore {["i1" := sample_instance "i1" StackStatusRunning]}
    {["l1" := sample_log "l1" DeployActionDeploy DeployLogSuccess]} {["pod-a" := 5000%Z]}.

(** A late final write of the finished log, then an insert of another log. *)
Lemma finished_log_stable_witness :
  st_logs sample_store !! "l1" = Some (sample_log "l1" DeployActionDeploy DeployLogSuccess) /\
  (let s' := (exec 10 (InsertLog (sample_log "l2" DeployActionStop DeployLogRunning))
      (exec 9 (SaveRunningLog (sample_log "l1" DeployActionDeploy DeployLogError)) sample_store).2).2 in
   st_logs s' !! "l1" = Some (sample_log "l1" DeployActionDeploy DeployLogSuccess) \/ st_logs s' !! "l1" = None).
Proof.
  split; [vm_compute; reflexivity|].
  apply (finished_log_stable sample_store).
  - vm_compute. reflexivity.
  - vm_compute. reflexivity.
  - transitivity (exec 9 (SaveRunningLog (sample_log "l1" DeployActionDeploy DeployLogError)) sample_store).2.
    + apply exec_steps. by intros [].
    + apply exec_steps. discriminate.
Defined.

(** A delete of [i1] is marked; a stale full-row write of an unmarked copy
    follows. *)
Definition marked_store : Store := (exec 3000 (SetCleaning "i1" CleanStatuses true 3000) sample_store).2.

Lemma delete_mark_exclusive_witness :
  row_rel (fun i => si_DeleteAfterClean i = true) "i1"
    (exec 4000 (SaveInstance (sample_instance "i1" StackStatusRunning)) marked_store).2.
Proof.
  apply (proj2 (delete_mark_exclusive "i1" marked_store _)).
  - apply exec_steps. by intros [].
  - eexists. split; vm_compute; reflexivity.
Defined.

Lemma clean_start_exclusive_witness :
  exec 3000 (SetCleaning "i1" CleanStatuses true 3000) sample_store = (Ok 1%Z, marked_store) /\
  exec 3001 (SetCleaning "i1" CleanStatuses false 3001) marked_store = (Ok 0%Z, marked_store).
Proof.
  split; [vm_compute; reflexivity|].
  apply (clean_start_exclusive "i1" true false 3000 3001 3000 3001 sample_store marked_store).
  - vm_compute. reflexivity.
  - reflexivity.
Defined.
