(* ===== verification/Hooks.v ===== *)
(** * Webhook subscriptions

    [backend/internal/hooks]: the [applies_to] scope ([scope.go]), the
    configuration check ([config.go]), the dispatch of an event to its
    subscribers ([dispatcher.go]) and the user-safe error texts ([errors.go]).
    The answer of a subscriber (the HTTP call of [client.go]) is an argument:
    [answer n] is the result of the [n]-th call of one dispatch. *)

From S2P Require Import Prelude.
Local Open Scope string_scope.

(** ** Event names *)

Definition EventPreDeploy := "pre-deploy".
Definition EventPostDeploy := "post-deploy".
Definition EventPreRollback := "pre-rollback".
Definition EventPostRollback := "post-rollback".
Definition EventDeployFinalized := "deploy-finalized".
Definition EventStopCompleted := "stop-completed".
Definition EventCleanCompleted := "clean-completed".
Definition EventRollbackCompleted := "rollback-completed".
Definition EventDeleteCompleted := "delete-completed".
Definition EventPreInstanceCreate := "pre-instance-create".
Definition EventPostInstanceCreate := "post-instance-create".
Definition EventPreInstanceDelete := "pre-instance-delete".
Definition EventPostInstanceDelete := "post-instance-delete".
Definition EventDeployTimeout := "deploy-timeout".
Definition EventCleanupPolicyExecuted := "cleanup-policy-executed".

Definition isKnownEvent (e : string) : bool :=
  bool_decide (e ∈ [EventPreDeploy; EventPostDeploy;
    EventPreInstanceCreate; EventPostInstanceCreate; EventPreInstanceDelete; EventPostInstanceDelete;
    "pre-namespace-create"; "post-namespace-create"; EventPreRollback; EventPostRollback;
    EventDeployFinalized; EventStopCompleted; EventCleanCompleted; EventRollbackCompleted;
    EventDeleteCompleted; "instance-created"; EventDeployTimeout; EventCleanupPolicyExecuted;
    "stack-expired"; "stack-expiring"; "quota-warning"; "secret-expiring"]).

Definition hasEvent (events : list string) (event : string) : bool :=
  existsb (fun e => bool_decide (e = event)) events.

(** ** The instance of an envelope *)

(** The payload of [cleanup-policy-executed]. *)
Record CleanupPolicyInstance := mkPolicyInstance {
  pi_ID : string; pi_Name : string; pi_Namespace : string; pi_OwnerID : string; pi_Result : string; pi_Error : string
}.
Record CleanupPolicyRun := mkPolicyRun {
  pn_ID : string;
  pn_Name : string;
  pn_Action : string;
  pn_ClusterID : string;
  pn_Condition : string;
  pn_DryRun : bool;
  pn_Run : string;
  pn_Matched : Z;
  pn_Succeeded : Z;
  pn_Failed : Z;
  pn_Instances : list CleanupPolicyInstance;
  pn_InstancesTruncated : bool
}.

Record InstanceRef := mkRef {
  ir_ID : string;
  ir_Name : string;
  ir_Namespace : string;
  ir_OwnerID : string;
  ir_StackDefinitionID : string;
  ir_Branch : string;
  ir_ClusterID : string;
  ir_Status : string;
  ir_TemplateID : string;
  ir_TemplateCategory : string;
  ir_templateResolved : bool
}.

(** A chart of an envelope. *)
Record ChartRef := mkChartRef {
  cr_Name : string;
  cr_ReleaseName : string;
  cr_Version : string;
  cr_SourceRepoURL : string;
  cr_BuildPipelineID : string;
  cr_Branch : string;
  cr_ImageTag : string
}.

(** ** Scopes *)

Record Scope := mkScope {
  TemplateIDs : list string;
  TemplateCategories : list string;
  DefinitionIDs : list string;
  ClusterIDs : list string
}.

Definition is_nil {A} (l : list A) : bool := match l with [] => true | _ => false end.

Definition Scope_IsEmpty (s : Scope) : bool :=
  is_nil (TemplateIDs s) && is_nil (TemplateCategories s) && is_nil (DefinitionIDs s) &&
  is_nil (ClusterIDs s).

Definition needsTemplate (s : Scope) : bool :=
  negb (is_nil (TemplateIDs s)) || negb (is_nil (TemplateCategories s)).

Definition maxScopeValues : Z := 50.
Definition maxScopeValueLen : Z := 255.
Definition maxScopeIDLen : Z := 36.

Definition normalizeCategory (c : string) : string := ToLower (TrimSpace c).

Fixpoint normalize_values (field : string) (maxLen : Z) (lowerCase : bool) (i : Z) (values : list string)
    : res (list string) :=
  match values with
  | [] => Ok []
  | v :: rest =>
      let v := TrimSpace v in
      If empty v Return
        Err (ENew ("applies_to." +:+ field +:+ "[" +:+ itoa i +:+ "]: must not be empty")) ;;
      If (maxLen <? len v)%Z Return
        Err (ENew ("applies_to." +:+ field +:+ "[" +:+ itoa i +:+ "]: at most " +:+ itoa maxLen +:+ " characters")) ;;
      let v := if lowerCase then normalizeCategory v else v in
      out <-r normalize_values field maxLen lowerCase (i + 1) rest ;;
      Ok (v :: out)
  end.

Definition normalizeScopeValues (field : string) (values : list string) (maxLen : Z) (lowerCase : bool)
    : res (list string) :=
  If is_nil values Return Ok [] ;;
  If (maxScopeValues <? Z.of_nat (length values))%Z Return
    Err (ENew ("applies_to." +:+ field +:+ ": at most " +:+ itoa maxScopeValues +:+ " values")) ;;
  normalize_values field maxLen lowerCase 0 values.

Definition Scope_Validate (s : Scope) : res Scope :=
  templateIDs <-r normalizeScopeValues "template_ids" (TemplateIDs s) maxScopeIDLen false ;;
  categories <-r normalizeScopeValues "template_categories" (TemplateCategories s) maxScopeValueLen true ;;
  definitionIDs <-r normalizeScopeValues "definition_ids" (DefinitionIDs s) maxScopeIDLen false ;;
  clusterIDs <-r normalizeScopeValues "cluster_ids" (ClusterIDs s) maxScopeValueLen false ;;
  If bool_decide ("all" ∈ clusterIDs) Return
    Err (ENew ("applies_to.cluster_ids: " +:+ dquote +:+ "all" +:+ dquote +:+
      " matches no instance; omit cluster_ids to match every cluster")) ;;
  Ok (mkScope templateIDs categories definitionIDs clusterIDs).

Inductive scopeDecision := scopeMatch | scopeNoMatch | scopeUnknown.

#[global] Instance scopeDecision_eq_dec : EqDecision scopeDecision.
Proof. solve_decision. Defined.

Definition containsString (values : list string) (v : string) : bool :=
  negb (empty v) && bool_decide (v ∈ values).

Definition decide_scope (s : Scope) (ref : option InstanceRef) : scopeDecision :=
  If Scope_IsEmpty s Return scopeMatch ;;
  match ref with
  | None => scopeNoMatch
  | Some ref =>
      If negb (is_nil (DefinitionIDs s)) && negb (containsString (DefinitionIDs s) (ir_StackDefinitionID ref))
        Return scopeNoMatch ;;
      If negb (is_nil (ClusterIDs s)) && negb (containsString (ClusterIDs s) (ir_ClusterID ref))
        Return scopeNoMatch ;;
      If negb (needsTemplate s) Return scopeMatch ;;
      If negb (ir_templateResolved ref) Return scopeUnknown ;;
      If negb (is_nil (TemplateIDs s)) && negb (containsString (TemplateIDs s) (ir_TemplateID ref))
        Return scopeNoMatch ;;
      If negb (is_nil (TemplateCategories s)) &&
         negb (containsString (TemplateCategories s) (normalizeCategory (ir_TemplateCategory ref)))
        Return scopeNoMatch ;;
      scopeMatch
  end.

(** ** Subscriptions *)

Definition FailurePolicyFail := "fail".
Definition FailurePolicyIgnore := "ignore".

Record Subscription := mkSub {
  sub_Name : string;
  sub_Events : list string;
  sub_URL : string;
  sub_TimeoutSeconds : Z;
  sub_FailurePolicy : string;
  sub_Blocking : bool;
  sub_AppliesTo : Scope
}.

Definition defaultTimeoutSeconds : Z := 5.
Definition maxTimeoutSeconds : Z := 60 * 60.

Section config.
(** [url.Parse] gives the scheme http or https and a host. *)
Variable httpURL : string -> bool.

(** One iteration of [Config.Validate]: the normalized subscription. *)
Definition validate_subscription (i : Z) (seen : list string) (s : Subscription) : res Subscription :=
  let name := sub_Name s in
  let bad (text : string) := Err (ENew ("subscription " +:+ quote name +:+ ": " +:+ text)) in
  If empty name Return Err (ENew ("subscription[" +:+ itoa i +:+ "]: name is required")) ;;
  If bool_decide (name ∈ seen) Return bad "duplicate name" ;;
  If is_nil (sub_Events s) Return bad "at least one event required" ;;
  match List.find (fun e => negb (isKnownEvent e)) (sub_Events s) with
  | Some e => bad ("unknown event " +:+ quote e)
  | None =>
      If sub_Blocking s && negb (hasEvent (sub_Events s) EventPostDeploy) Return
        bad ("blocking requires the " +:+ EventPostDeploy +:+ " event") ;;
      match Scope_Validate (sub_AppliesTo s) with
      | Err e => Err (EWrap ("subscription " +:+ quote name +:+ ": ") e "")
      | Ok scope =>
          If negb (Scope_IsEmpty scope) && hasEvent (sub_Events s) EventCleanupPolicyExecuted Return
            bad ("applies_to cannot be used with the " +:+ EventCleanupPolicyExecuted +:+ " event") ;;
          If empty (sub_URL s) Return bad "url is required" ;;
          If negb (httpURL (sub_URL s)) Return bad "invalid url" ;;
          let policy := if empty (sub_FailurePolicy s) then FailurePolicyIgnore else sub_FailurePolicy s in
          If negb (bool_decide (policy = FailurePolicyFail)) && negb (bool_decide (policy = FailurePolicyIgnore))
            Return bad "failure_policy must be fail or ignore" ;;
          If (sub_TimeoutSeconds s <? 0)%Z Return bad "timeout_seconds must be >= 0" ;;
          let timeout := if (sub_TimeoutSeconds s =? 0)%Z then defaultTimeoutSeconds else sub_TimeoutSeconds s in
          If (maxTimeoutSeconds <? timeout)%Z Return
            bad ("timeout_seconds must be <= " +:+ itoa maxTimeoutSeconds) ;;
          Ok (mkSub name (sub_Events s) (sub_URL s) timeout policy (sub_Blocking s) scope)
      end
  end.

Fixpoint validate_subscriptions (i : Z) (seen : list string) (subs : list Subscription)
    : res (list Subscription) :=
  match subs with
  | [] => Ok []
  | s :: rest =>
      s' <-r validate_subscription i seen s ;;
      out <-r validate_subscriptions (i + 1) (sub_Name s' :: seen) rest ;;
      Ok (s' :: out)
  end.

Definition Config_Validate (subs : list Subscription) : res (list Subscription) :=
  validate_subscriptions 0 [] subs.
End config.

(** ** The dispatcher

    [None] is the nil dispatcher.  [byEvent] is the registration order: a
    subscription is listed once per occurrence of the event in its list. *)
Abbreviation Dispatcher := (list Subscription).

Definition byEvent (d : Dispatcher) (event : string) : list Subscription :=
  flat_map (fun s => List.map (fun _ => s) (List.filter (fun e => bool_decide (e = event)) (sub_Events s))) d.

Definition isBlocking (sub : Subscription) (event : string) : bool :=
  sub_Blocking sub && bool_decide (event = EventPostDeploy).

Definition blockingSubs (d : option Dispatcher) (event : string) : list Subscription :=
  match d with
  | None => []
  | Some d => List.filter (fun s => isBlocking s event) (byEvent d event)
  end.

Definition blockingSubsFor (d : option Dispatcher) (event : string) (ref : option InstanceRef) : list Subscription :=
  List.filter (fun s => negb (bool_decide (decide_scope (sub_AppliesTo s) ref = scopeNoMatch)))
    (blockingSubs d event).

Definition HasBlocking (d : option Dispatcher) (event : string) : bool := negb (is_nil (blockingSubs d event)).
Definition HasBlockingFor (d : option Dispatcher) (event : string) (ref : option InstanceRef) : bool :=
  negb (is_nil (blockingSubsFor d event ref)).

(** Durations in nanoseconds. *)
Definition sumTimeouts (subs : list Subscription) : Z :=
  fold_left (fun total s => (total + sub_TimeoutSeconds s * 1000000000)%Z) subs 0%Z.

Definition BlockingTimeout (d : option Dispatcher) (event : string) : Z := sumTimeouts (blockingSubs d event).
Definition BlockingTimeoutFor (d : option Dispatcher) (event : string) (ref : option InstanceRef) : Z :=
  sumTimeouts (blockingSubsFor d event ref).
Definition TotalTimeout (d : option Dispatcher) (event : string) : Z :=
  match d with None => 0 | Some d => sumTimeouts (byEvent d event) end.

(** *** One dispatch *)

Definition ErrScopeUnknown := ESent "ErrScopeUnknown"
  "could not check where the hook applies: the template of the instance is unknown".

Record HookResponse := mkResponse { hr_Allowed : bool; hr_Message : string }.

Definition checkScope (sub : Subscription) (ref : option InstanceRef) : res bool :=
  match decide_scope (sub_AppliesTo sub) ref with
  | scopeMatch => Ok true
  | scopeNoMatch => Ok false
  | scopeUnknown =>
      If bool_decide (sub_FailurePolicy sub = FailurePolicyFail) Return
        Err (EHookFailed (sub_Name sub) ErrScopeUnknown) ;;
      Ok false
  end.

(** [invoke] after the HTTP call: a denial is an error. *)
Definition invoke (sub : Subscription) (answer : res HookResponse) : error :=
  match answer with
  | Err e => Some e
  | Ok r =>
      If hr_Allowed r Return None ;;
      Some (EDenied (sub_Name sub) (if empty (hr_Message r) then "subscriber denied" else hr_Message r))
  end.

(** [fireInternal] from the [n]-th call on: the names of the subscribers that
    were called, and the error. *)
Fixpoint fire_subs (event : string) (ref : option InstanceRef) (answer : nat -> res HookResponse)
    (n : nat) (subs : list Subscription) : list string * error :=
  match subs with
  | [] => ([], None)
  | sub :: rest =>
      If isBlocking sub event Return fire_subs event ref answer n rest ;;
      match checkScope sub ref with
      | Err e => ([], Some e)
      | Ok false => fire_subs event ref answer n rest
      | Ok true =>
          match invoke sub (answer n) with
          | Some e =>
              If bool_decide (sub_FailurePolicy sub = FailurePolicyFail) Return
                ([sub_Name sub], Some (EHookFailed (sub_Name sub) e)) ;;
              let r := fire_subs event ref answer (S n) rest in (sub_Name sub :: r.1, r.2)
          | None => let r := fire_subs event ref answer (S n) rest in (sub_Name sub :: r.1, r.2)
          end
      end
  end.

Definition Fire (d : Dispatcher) (event : string) (ref : option InstanceRef)
    (answer : nat -> res HookResponse) : list string * error :=
  fire_subs event ref answer 0 (byEvent d event).

Record IgnoredFailure := mkIgnored { if_Hook : string; if_Err : goerr }.

(** [FireBlocking]: the subscribers that were started, the ignored failures
    and the error. *)
Fixpoint fire_blocking (ref : option InstanceRef) (answer : nat -> res HookResponse)
    (n : nat) (subs : list Subscription) : list string * list IgnoredFailure * error :=
  match subs with
  | [] => ([], [], None)
  | sub :: rest =>
      match checkScope sub ref with
      | Err e => ([], [], Some e)
      | Ok false => fire_blocking ref answer n rest
      | Ok true =>
          match invoke sub (answer n) with
          | None => let '(started, ignored, e) := fire_blocking ref answer (S n) rest in
                    (sub_Name sub :: started, ignored, e)
          | Some err =>
              If bool_decide (sub_FailurePolicy sub = FailurePolicyFail) Return
                ([sub_Name sub], [], Some (EHookFailed (sub_Name sub) err)) ;;
              let '(started, ignored, e) := fire_blocking ref answer (S n) rest in
              (sub_Name sub :: started, mkIgnored (sub_Name sub) err :: ignored, e)
          end
      end
  end.

Definition FireBlocking (d : option Dispatcher) (event : string) (ref : option InstanceRef)
    (answer : nat -> res HookResponse) : list string * list IgnoredFailure * error :=
  fire_blocking ref answer 0 (blockingSubs d event).

(** ** User messages *)

Definition maxDenyMessageLen : nat := 500.

(** [strings.Fields]: [cur] is the field read so far, reversed. *)
Fixpoint fields_aux (fuel : nat) (cur s : string) : list string :=
  let flush := if empty cur then [] else [srev cur] in
  match fuel with
  | O => flush
  | S f =>
      match strip_one space_encodings s with
      | Some s' => flush ++ fields_aux f "" s'
      | None =>
          match s with
          | EmptyString => flush
          | String c s' => fields_aux f (String c cur) s'
          end
      end
  end.

(** Every step removes at least one byte: [len s + 1] steps suffice. *)
Definition Fields (s : string) : list string := fields_aux (S (String.length s)) "" s.

Definition ellipsis : string := bytes [226; 128; 166].

Definition sanitizeDenyMessage (msg : string) : string :=
  let msg := String.concat " " (Fields msg) in
  let msg := if (maxDenyMessageLen <? String.length msg)%nat then stake maxDenyMessageLen msg +:+ ellipsis else msg in
  If empty msg Return "subscriber denied" ;; msg.

Definition asFailed (e : goerr) : option string :=
  errorsAs (fun x => match x with EHookFailed h _ => Some h | _ => None end) e.
Definition asDenied (e : goerr) : option (string * string) :=
  errorsAs (fun x => match x with EDenied h m => Some (h, m) | _ => None end) e.
Definition asRedirect (e : goerr) : option Z :=
  errorsAs (fun x => match x with ERedirect c => Some c | _ => None end) e.

Definition UserMessage (err : goerr) (event operation : string) : string :=
  let hook := default "" (asFailed err) in
  match asDenied err with
  | Some (dh, message) =>
      let hook := if empty hook then dh else hook in
      event +:+ " hook " +:+ quote hook +:+ " denied the " +:+ operation +:+ ": " +:+ sanitizeDenyMessage message
  | None =>
      If negb (empty hook) && errorsIs err "ErrScopeUnknown" Return
        event +:+ " hook " +:+ quote hook +:+ " failed (could not check where it applies; try again)" ;;
      If negb (empty hook) && bool_decide (is_Some (asRedirect err)) Return
        event +:+ " hook " +:+ quote hook +:+ " failed (the subscriber answered with a redirect)" ;;
      If negb (empty hook) Return
        event +:+ " hook " +:+ quote hook +:+ " failed (unreachable or timed out)" ;;
      event +:+ " hook failed"
  end.

Definition IgnoredFailure_UserMessage (f : IgnoredFailure) (event operation : string) : string :=
  UserMessage (EHookFailed (if_Hook f) (if_Err f)) event operation.

(** * Theorems *)

Lemma is_nil_true {A} (l : list A) : is_nil l = true <-> l = [].
Proof. by destruct l. Qed.

Lemma containsString_iff values v : containsString values v = true <-> v <> "" /\ v ∈ values.
Proof.
  unfold containsString. rewrite andb_true_iff, negb_true_iff, bool_decide_eq_true.
  destruct (empty v) eqn:E; [apply empty_iff in E|]; naive_solver.
Qed.

(** A field of a scope lets [v] pass: it is not set, or it names [v]. *)
Definition field_passes (values : list string) (v : string) : Prop :=
  values = [] \/ (v <> "" /\ v ∈ values).

Lemma field_blocks values v :
  negb (is_nil values) && negb (containsString values v) = false <-> field_passes values v.
Proof.
  unfold field_passes. rewrite <- containsString_iff.
  destruct values as [|x l]; [split; [by left | done]|]. simpl.
  rewrite negb_false_iff. split; [by right | by intros [?|?]].
Qed.

Lemma field_blocks' values v :
  negb (is_nil values) && negb (containsString values v) = true <-> ~ field_passes values v.
Proof. rewrite <- field_blocks. by destruct (_ && _). Qed.

(** [applies_to] decides as its documentation says: the fields combine with
    AND, the values in a field with OR, an empty field passes, and an empty ID
    never matches.  The answer is "unknown" exactly when the fields that need
    no lookup pass, a template field is set and the template lookup did not
    answer: the dispatcher never guesses. *)
Theorem decide_scope_spec s ref :
  (decide_scope s (Some ref) = scopeMatch <->
     field_passes (DefinitionIDs s) (ir_StackDefinitionID ref) /\
     field_passes (ClusterIDs s) (ir_ClusterID ref) /\
     (needsTemplate s = false \/
      ir_templateResolved ref = true /\ field_passes (TemplateIDs s) (ir_TemplateID ref) /\
      field_passes (TemplateCategories s) (normalizeCategory (ir_TemplateCategory ref)))) /\
  (decide_scope s (Some ref) = scopeUnknown <->
     field_passes (DefinitionIDs s) (ir_StackDefinitionID ref) /\
     field_passes (ClusterIDs s) (ir_ClusterID ref) /\
     needsTemplate s = true /\ ir_templateResolved ref = false).
Proof.
  unfold decide_scope. destruct (Scope_IsEmpty s) eqn:E0.
  { unfold Scope_IsEmpty in E0. split_hyps.
    repeat match goal with H : is_nil _ = true |- _ => apply is_nil_true in H end.
    unfold needsTemplate, field_passes.
    repeat match goal with H : _ = [] |- _ => rewrite H end. simpl. naive_solver. }
  destruct (negb (is_nil (DefinitionIDs s)) && _) eqn:E1; [apply field_blocks' in E1; naive_solver|].
  apply field_blocks in E1.
  destruct (negb (is_nil (ClusterIDs s)) && _) eqn:E2; [apply field_blocks' in E2; naive_solver|].
  apply field_blocks in E2.
  destruct (needsTemplate s) eqn:E3; simpl; [|naive_solver].
  destruct (ir_templateResolved ref) eqn:E4; simpl; [|naive_solver].
  destruct (negb (is_nil (TemplateIDs s)) && _) eqn:E5; [apply field_blocks' in E5; naive_solver|].
  apply field_blocks in E5.
  destruct (negb (is_nil (TemplateCategories s)) && _) eqn:E6; [apply field_blocks' in E6|apply field_blocks in E6];
    naive_solver.
Qed.

(** ** Gates *)

Definition fails_closed (s : Subscription) : Prop := sub_FailurePolicy s = FailurePolicyFail.

(** The subscribers that one dispatch calls, in order. *)
Definition callees (event : string) (ref : option InstanceRef) (subs : list Subscription) : list Subscription :=
  List.filter (fun s => negb (isBlocking s event) &&
    bool_decide (decide_scope (sub_AppliesTo s) ref = scopeMatch)) subs.

Definition gate_open (event : string) (ref : option InstanceRef) (answer : nat -> res HookResponse)
    (n : nat) (subs : list Subscription) : Prop :=
  (forall s, s ∈ subs -> isBlocking s event = false -> fails_closed s ->
     decide_scope (sub_AppliesTo s) ref <> scopeUnknown) /\
  (forall i s, callees event ref subs !! i = Some s -> fails_closed s -> invoke s (answer (n + i)) = None).

Lemma gate_open_skip event ref answer n sub subs :
  (isBlocking sub event = true \/ decide_scope (sub_AppliesTo sub) ref = scopeNoMatch \/
   (decide_scope (sub_AppliesTo sub) ref = scopeUnknown /\ ~ fails_closed sub)) ->
  gate_open event ref answer n (sub :: subs) <-> gate_open event ref answer n subs.
Proof.
  intros Hskip. unfold gate_open. assert (Hc : callees event ref (sub :: subs) = callees event ref subs).
  { unfold callees. simpl. destruct Hskip as [-> | [Hd | [Hd _]]]; [done | |]; rewrite Hd;
      rewrite bool_decide_eq_false_2 by done; by rewrite andb_false_r. }
  rewrite Hc. setoid_rewrite elem_of_cons. split; intros [H1 H2]; split; try done; intros s; [auto|].
  intros [->|Hs] Hb Hf; [|by apply H1]. destruct Hskip as [? | [-> | [_ ?]]]; congruence || done.
Qed.

Lemma gate_open_call event ref answer n sub subs :
  isBlocking sub event = false -> decide_scope (sub_AppliesTo sub) ref = scopeMatch ->
  gate_open event ref answer n (sub :: subs) <->
  (fails_closed sub -> invoke sub (answer n) = None) /\ gate_open event ref answer (S n) subs.
Proof.
  intros Hb Hd. unfold gate_open.
  assert (Hc : callees event ref (sub :: subs) = sub :: callees event ref subs).
  { unfold callees. simpl. by rewrite Hb, Hd. }
  rewrite Hc. setoid_rewrite elem_of_cons. split.
  - intros [H1 H2]. split; [intros Hf; specialize (H2 0%nat sub eq_refl Hf); by rewrite Nat.add_0_r in H2|].
    split; [intros s Hs; apply H1; by right|]. intros i s Hi Hf.
    specialize (H2 (S i) s Hi Hf). by rewrite Nat.add_succ_r in H2.
  - intros [H0 [H1 H2]]. split.
    + intros s [->|Hs] ?; [by rewrite Hd | by apply H1].
    + intros [|i] s Hi Hf; simpl in Hi; [simplify_eq; rewrite Nat.add_0_r; by apply H0|].
      rewrite Nat.add_succ_r. by apply H2.
Qed.

Lemma fire_subs_none event ref answer subs : forall n,
  (fire_subs event ref answer n subs).2 = None <-> gate_open event ref answer n subs.
Proof.
  induction subs as [|sub rest IH]; intros n; simpl.
  { split; [|done]. intros _. split; [by intros s ?%not_elem_of_nil|by intros [|i] s]. }
  destruct (isBlocking sub event) eqn:Hb; [rewrite gate_open_skip by auto; apply IH|].
  unfold checkScope. destruct (decide_scope (sub_AppliesTo sub) ref) eqn:Hd.
  - rewrite gate_open_call by done. unfold fails_closed. destruct (invoke sub (answer n)).
    + case_bool_decide; simpl; [naive_solver|]. rewrite IH. tauto.
    + simpl. rewrite IH. tauto.
  - rewrite gate_open_skip by auto. apply IH.
  - case_bool_decide as Hf; simpl.
    + split; [done|]. intros [H1 _]. destruct (H1 sub); try done. by left.
    + rewrite gate_open_skip by auto. apply IH.
Qed.

Lemma fire_subs_called event ref answer subs : forall n,
  (fire_subs event ref answer n subs).2 = None ->
  (fire_subs event ref answer n subs).1 = List.map sub_Name (callees event ref subs).
Proof.
  induction subs as [|sub rest IH]; intros n; [done|]. unfold callees. simpl. fold (callees event ref rest).
  destruct (isBlocking sub event) eqn:Hb; [apply IH|].
  unfold checkScope. destruct (decide_scope (sub_AppliesTo sub) ref) eqn:Hd; simpl.
  - destruct (invoke sub (answer n)); [case_bool_decide|]; simpl; try done; intros Hn; by rewrite IH.
  - apply IH.
  - case_bool_decide; [done|apply IH].
Qed.

(** A pre-operation gate is exact and fails closed.  [Fire] lets the
    operation go on exactly when no subscriber with [failure_policy=fail] has
    an undecidable scope and every called subscriber with that policy answered
    "allowed"; then every non-blocking subscriber whose scope matches was
    called once, in registration order, and no other one. *)
Theorem fire_gate d event ref answer :
  ((Fire d event ref answer).2 = None <-> gate_open event ref answer 0 (byEvent d event)) /\
  ((Fire d event ref answer).2 = None ->
   (Fire d event ref answer).1 = List.map sub_Name (callees event ref (byEvent d event))).
Proof. split; [apply fire_subs_none | apply fire_subs_called]. Qed.

(** ** Texts *)

(** The user message of a failed subscriber never contains the transport
    error (which can hold the subscriber URL): for a failure that is not a
    denial it is one of three fixed texts with the event and the hook name. *)
Theorem user_message_safe err event operation h :
  asFailed err = Some h -> h <> "" -> asDenied err = None ->
  exists detail, UserMessage err event operation = event +:+ " hook " +:+ quote h +:+ detail /\
    detail ∈ [" failed (could not check where it applies; try again)";
              " failed (the subscriber answered with a redirect)";
              " failed (unreachable or timed out)"].
Proof.
  intros Hf Hh Hd. unfold UserMessage. rewrite Hf, Hd. simpl.
  assert (E : empty h = false) by (destruct (empty h) eqn:E; [by apply empty_iff in E|done]).
  rewrite E. simpl. destruct (errorsIs _ _).
  - eexists. split; [reflexivity|]. set_solver.
  - destruct (bool_decide _); eexists; (split; [reflexivity|]; set_solver).
Qed.

Lemma sanitizeDenyMessage_length msg :
  sanitizeDenyMessage msg <> "" /\ (String.length (sanitizeDenyMessage msg) <= 503)%nat.
Proof.
  unfold sanitizeDenyMessage. set (m := String.concat _ _).
  set (t := if (_ <? _)%nat then _ else _).
  assert (Ht : (String.length t <= 503)%nat).
  { unfold t. destruct (Nat.ltb_spec maxDenyMessageLen (String.length m)).
    - rewrite slength_app. pose proof (stake_length maxDenyMessageLen m). unfold maxDenyMessageLen in *.
      change (String.length ellipsis) with 3%nat. lia.
    - unfold maxDenyMessageLen in *. lia. }
  destruct (empty t) eqn:E.
  - split; [done|]. simpl. lia.
  - split; [|done]. intros H. apply empty_iff in H. congruence.
Qed.

(** ** Time budgets *)

Lemma sumTimeouts_acc subs : forall a,
  fold_left (fun total s => (total + sub_TimeoutSeconds s * 1000000000)%Z) subs a =
  (a + sumTimeouts subs)%Z.
Proof.
  unfold sumTimeouts. induction subs as [|s l IH]; intros a; cbn [fold_left]; [lia|].
  rewrite IH, (IH (0 + _)%Z). lia.
Qed.

Lemma sumTimeouts_cons s l :
  sumTimeouts (s :: l) = (sub_TimeoutSeconds s * 1000000000 + sumTimeouts l)%Z.
Proof. unfold sumTimeouts at 1. cbn [fold_left]. rewrite sumTimeouts_acc. lia. Qed.

Lemma sumTimeouts_filter p l :
  Forall (fun s => (0 <= sub_TimeoutSeconds s)%Z) l ->
  (0 <= sumTimeouts (List.filter p l) <= sumTimeouts l)%Z.
Proof.
  induction 1 as [|s l Hs _ IH]; [done|]. simpl. destruct (p s); rewrite ?sumTimeouts_cons; lia.
Qed.

Lemma validate_subscriptions_timeouts httpURL subs : forall i seen d,
  validate_subscriptions httpURL i seen subs = Ok d ->
  Forall (fun s => (1 <= sub_TimeoutSeconds s <= maxTimeoutSeconds)%Z) d.
Proof.
  induction subs as [|s rest IH]; intros i seen d; simpl; [intros [= <-]; constructor|].
  intros (s' & Hs & (out & Ho & [= <-])%res_bind_ok)%res_bind_ok. constructor; [|by eapply IH].
  unfold validate_subscription in Hs. repeat case_match; try done.
  all: simplify_eq; cbn [sub_TimeoutSeconds]; unfold maxTimeoutSeconds, defaultTimeoutSeconds in *; lia.
Qed.

Lemma byEvent_Forall (P : Subscription -> Prop) d event : Forall P d -> Forall P (byEvent d event).
Proof.
  intros H. unfold byEvent. induction H as [|s l Hs _ IH]; simpl; [constructor|].
  apply Forall_app. split; [|done]. apply Forall_forall. intros x.
  rewrite list_elem_of_In, in_map_iff. by intros (? & <- & _).
Qed.

(** The time budgets of the deployer are upper bounds for every instance:
    with an accepted configuration the time of the blocking subscribers that
    apply to an instance is at most the budget of all blocking subscribers,
    which is at most the time of all subscribers of the event. *)
Theorem blocking_budget httpURL subs d event ref :
  Config_Validate httpURL subs = Ok d ->
  (0 <= BlockingTimeoutFor (Some d) event ref <= BlockingTimeout (Some d) event)%Z /\
  (BlockingTimeout (Some d) event <= TotalTimeout (Some d) event)%Z.
Proof.
  intros Hd%validate_subscriptions_timeouts.
  assert (H : Forall (fun s => (0 <= sub_TimeoutSeconds s)%Z) (byEvent d event)).
  { apply byEvent_Forall. eapply Forall_impl; [exact Hd|]. simpl. lia. }
  unfold BlockingTimeoutFor, BlockingTimeout, TotalTimeout, blockingSubsFor, blockingSubs. split.
  - apply sumTimeouts_filter. apply List.Forall_forall. intros s [Hs _]%filter_In.
    by eapply List.Forall_forall in H.
  - by apply sumTimeouts_filter.
Qed.

(** ** A configuration, for the witnesses *)

Definition any_scope : Scope := mkScope [] [] [] [].
Definition gate_sub : Subscription :=
  mkSub "ci-gate" [EventPreDeploy] "https://ci.example/hook" 600 FailurePolicyFail false any_scope.
Definition restore_sub : Subscription :=
  mkSub "db-restore" [EventPostDeploy] "https://db.example/hook" 900 FailurePolicyFail true
    (mkScope [] ["web"] [] []).

Lemma blocking_budget_witness :
  Config_Validate (fun _ => true) [gate_sub; restore_sub] = Ok [gate_sub; restore_sub] /\
  (BlockingTimeout (Some [gate_sub; restore_sub]) EventPostDeploy <=
   TotalTimeout (Some [gate_sub; restore_sub]) EventPostDeploy)%Z.
Proof.
  split; [vm_compute; reflexivity|].
  apply (blocking_budget (fun _ => true) [gate_sub; restore_sub] [gate_sub; restore_sub] EventPostDeploy None).
  vm_compute. reflexivity.
Defined.

Lemma user_message_safe_witness :
  UserMessage (EHookFailed "ci-gate" (ENew "Post https://u:secret@ci: EOF")) EventPreDeploy "deployment"
    = "pre-deploy hook " +:+ quote "ci-gate" +:+ " failed (unreachable or timed out)" /\
  exists detail,
    UserMessage (EHookFailed "ci-gate" (ENew "Post https://u:secret@ci: EOF")) EventPreDeploy "deployment" =
    EventPreDeploy +:+ " hook " +:+ quote "ci-gate" +:+ detail /\
    detail ∈ [" failed (could not check where it applies; try again)";
              " failed (the subscriber answered with a redirect)";
              " failed (unreachable or timed out)"].
Proof.
  split; [vm_compute; reflexivity|].
  apply (user_message_safe (EHookFailed "ci-gate" (ENew "Post https://u:secret@ci: EOF"))).
  - reflexivity.
  - discriminate.
  - reflexivity.
Defined.
