(* ===== verification/World.v ===== *)
(** * Processes, faults and interleavings

    The effects of the backend: one process runs a program of type [M A] in a
    [World], while the other processes change the database.  Every interaction
    with the outside (a database statement, a clock reading, a Helm or
    Kubernetes call, a hook) consumes one [EnvStep]: the statements that other
    processes ran before it, the time, whether the server shuts down, whether
    the statement fails (before or after it took effect), and the answer of the
    external call.  A theorem about a program holds for every environment, so
    for every interleaving and every fault.

    The second half are the repository methods of [backend/internal/database]
    as programs over the statements of [Store], and the judgement [own] that
    bounds what a program may do to the database. *)

From S2P Require Import Prelude Models Quota Store Hooks.
Local Open Scope string_scope.
Local Open Scope list_scope.

(** ** Worlds *)

(** What started an operation ([hooks/trigger.go]). *)
Record Trigger := mkTrigger { tr_Type : string; tr_ID : string; tr_Name : string }.
Definition TriggerUser := "user".
Definition TriggerCleanupPolicy := "cleanup-policy".

(** [deployer.liveOutput]. *)
Record LiveOutput := mkLive { lo_buf : string; lo_full : bool; lo_dirty : bool }.

(** The in-memory state of the deploy manager of this process. *)
Record Mem := mkMem {
  logActions : gmap string string;
  logTriggers : gmap string Trigger;
  liveOut : gmap string LiveOutput
}.

(** What the program reads of a Kubernetes namespace ([k8s.NamespaceStatus]):
    its status and the host and URL of its Ingresses. *)
Record NamespaceStatus := mkNsStatus { ns_Status : string; ns_Ingresses : list (string * string) }.

(** The part of a hook envelope that the operation chooses ([hookOpts] of
    [deployer/manager.go]; the progress callback and the trigger are arguments
    of their own). *)
Record hookOpts := mkOpts { ho_Charts : list ChartRef; ho_Metadata : list (string * string) }.

(** Calls of this process that another part of the system sees. *)
Inductive event :=
| EvWrite (op : dbop) (rows : Z)
| EvStatus (instanceID status logID errorMessage action : string)
| EvLine (instanceID logID line : string)
| EvInstanceDeleted (instanceID logID : string)
| EvHook (name : string) (instance : StackInstance) (logID : string) (opts : hookOpts)
| EvNotify (instanceID notifType title message : string) (trigger : option Trigger) (siteURL : string)
| EvHelmInstall (release namespace chartRef repoURL version values : string) (namespaceReady : bool)
| EvHelmUninstall (release namespace : string) (noWait : bool) (timeout : Z)
| EvHelmRollback (release namespace : string) (revision : Z)
| EvK8s (call : string) (argument : string)
| EvAudit (entityID details : string)
| EvExpired (instanceID : string)
| EvInstanceHealth (instanceID status : string)
| EvInstanceCreated (instanceID : string)
| EvStreamsClosed (instanceID : string)
| EvSystemNotify (notifType title message entityID : string) (instances : list string)
| EvPolicyRun (trigger : Trigger) (run : CleanupPolicyRun)
| EvLastRun (policyID : string) (at_ : time)
| EvCopyOverride (kind cloneID chart value : string)
| EvCopyQuota (cloneID : string) (quota : InstanceQuotaOverride).

Record EnvStep := mkEnv {
  e_others : list (time * dbop);
  e_now : time;
  e_dbnow : time;
  e_down : bool;
  e_ctx : error;
  e_fault : error;
  e_lost : bool;
  e_text : string;
  e_err : error;
  e_polls : nat;
  e_lines : list string;
  e_answer : nat -> res HookResponse;
  e_template : string * string * bool;
  e_revisions : list (Z * string);
  e_namespace : NamespaceStatus;
  e_quota : option ResourceQuotaConfig;
  e_override : option InstanceQuotaOverride
}.

Record World := mkWorld {
  w_db : Store;
  w_env : nat -> EnvStep;
  w_tick : nat;
  w_down : bool;
  w_quiet : bool;
  w_mem : Mem;
  w_trace : list event
}.

Definition set_db (s : Store) (w : World) : World :=
  mkWorld s (w_env w) (w_tick w) (w_down w) (w_quiet w) (w_mem w) (w_trace w).
Definition set_quiet (q : bool) (w : World) : World :=
  mkWorld (w_db w) (w_env w) (w_tick w) (w_down w) q (w_mem w) (w_trace w).
Definition set_mem (m : Mem) (w : World) : World :=
  mkWorld (w_db w) (w_env w) (w_tick w) (w_down w) (w_quiet w) m (w_trace w).
Definition add_event (e : event) (w : World) : World :=
  mkWorld (w_db w) (w_env w) (w_tick w) (w_down w) (w_quiet w) (w_mem w) (e :: w_trace w).

(** ** Programs *)

Definition M (A : Type) : Type := World -> A * World.

Definition ret {A} (a : A) : M A := fun w => (a, w).
Definition bind {A B} (m : M A) (k : A -> M B) : M B := fun w => let r := m w in k r.1 r.2.

Notation "'let!' x ':=' m 'in' k" := (bind m (fun x => k))
  (at level 10, x pattern, m at level 99, k at level 200) : go_scope.
Notation "'run!' m 'in' k" := (bind m (fun _ => k))
  (at level 10, m at level 99, k at level 200) : go_scope.

(** One interaction: inside a transaction the other processes do not show. *)
Definition step : M EnvStep := fun w =>
  let st := w_env w (w_tick w) in
  let db := if w_quiet w then w_db w else exec_all (e_others st) (w_db w) in
  (st, mkWorld db (w_env w) (S (w_tick w)) (w_down w || e_down st) (w_quiet w) (w_mem w) (w_trace w)).

(** [time.Now()]. *)
Definition clock : M time := let! st := step in ret (e_now st).
(** [shutdownCtx.Err() != nil]. *)
Definition isDown : M bool := fun w => let r := step w in (w_down r.2, r.2).
Definition emit (e : event) : M unit := fun w => (tt, add_event e w).
Definition getMem : M Mem := fun w => (w_mem w, w).
Definition modMem (f : Mem -> Mem) : M unit := fun w => (tt, set_mem (f (w_mem w)) w).

(** A read of a table that the model does not hold: any answer, at any time. *)
Definition external {A} (answer : nat -> A) : M A := fun w => (answer (w_tick w), (step w).2).

Definition when_ (b : bool) (m : M unit) : M unit := if b then m else ret tt.

Fixpoint forEach {A} (l : list A) (f : A -> M unit) : M unit :=
  match l with
  | [] => ret tt
  | x :: l' => run! f x in forEach l' f
  end.

(** The rows that a statement changed: a rejected one changes none. *)
Definition changed_rows (r : res Z) : Z := match r with Ok n => n | Err _ => 0%Z end.

(** One writing statement.  Its event shows the rows that it changed, also when the
    answer of the database got lost. *)
Definition db (op : dbop) : M (res Z) := fun w =>
  let '(st, w1) := step w in
  let '(r, s) := exec (e_dbnow st) op (w_db w1) in
  let written := add_event (EvWrite op (changed_rows r)) (set_db s w1) in
  match e_fault st with
  | Some e => (Err e, if e_lost st then written else w1)
  | None => (r, written)
  end.

(** One reading statement. *)
Definition query {A} (f : time -> Store -> A) : M (res A) := fun w =>
  let '(st, w1) := step w in
  match e_fault st with
  | Some e => (Err e, w1)
  | None => (Ok (f (e_dbnow st) (w_db w1)), w1)
  end.

(** Database and trace of [w0], the rest of [w]. *)
Definition rollback (w0 w : World) : World :=
  mkWorld (w_db w0) (w_env w) (w_tick w) (w_down w) (w_quiet w0) (w_mem w) (w_trace w0).

(** [gorm.DB.Transaction]: begin, the statements of [body] without
    interference, commit.  An error of [body] rolls back; a failed commit may
    have taken effect or not.  The body also gives a result (a variable that
    the closure sets), [default_result] when the transaction did not begin. *)
Definition transaction_with {A} (default_result : A) (body : M (error * A)) : M (error * A) := fun w =>
  let '(st, w1) := step w in
  match e_fault st with
  | Some e => ((Some e, default_result), w1)
  | None =>
      let '((r, a), w2) := body (set_quiet true w1) in
      match r with
      | Some e => ((Some e, a), rollback w1 w2)
      | None =>
          let '(st', w3) := step w2 in
          match e_fault st' with
          | None => ((None, a), set_quiet (w_quiet w1) w3)
          | Some e => ((Some e, a), if e_lost st' then set_quiet (w_quiet w1) w3 else rollback w1 w3)
          end
      end
  end.

Definition transaction (body : M error) : M error :=
  let! r := transaction_with tt (let! e := body in ret (e, tt)) in
  ret r.1.

(** The context error seen after a call, [ctx.Err()]. *)
Definition ctxErr : M error := let! st := step in ret (e_ctx st).

(** [withContextErr] of [lock_retry.go]; the second case keeps an error that
    already is a database error. *)
Definition is_db_error (e : goerr) : bool :=
  bool_decide (is_Some (errorsAs (fun x => match x with EDB _ _ => Some tt | _ => None end) e)).
Definition wraps_sentinel (e c : goerr) : bool :=
  match c with ESent n _ => errorsIs e n | _ => bool_decide (e = c) end.
Definition withContextErr (ctx : error) (op : string) (err : error) : error :=
  match err, ctx with
  | Some e, Some c =>
      If negb (wraps_sentinel e c) Return Some (EDB op (EWrap2 c ": " e)) ;;
      If is_db_error e Return Some e ;;
      Some (EDB op e)
  | _, _ => err
  end.

(** [TxRunner.RunInTx]. *)
Definition RunInTx (body : M error) : M error :=
  let! err := transaction body in
  let! ctx := ctxErr in
  ret (withContextErr ctx "transaction" err).

(** ** [GORMStackInstanceRepository] *)

Definition instance_FindByID (id : string) : M (res StackInstance) :=
  let! r := query (fun _ s => st_instances s !! id) in
  ret match r with
      | Err e => Err (EDB "find_by_id" e)
      | Ok None => Err (EDB "find_by_id" ErrNotFound)
      | Ok (Some i) => Ok i
      end.

Definition instance_Create (i : StackInstance) : M error :=
  let! now := clock in
  let! r := db (InsertInstance (si_set_UpdatedAt now i)) in
  ret match r with Ok _ => None | Err e => Some (EDB "create" e) end.

(** [Update] writes every column but the expiry warning and the delete mark. *)
Definition instance_Update (i : StackInstance) : M error :=
  let! now := clock in
  let i := si_set_UpdatedAt now i in
  let! err := transaction (
    let! r := db (ClearExpiryWarning (si_ID i) (si_ExpiresAt i)) in
    match r with
    | Err e => ret (Some e)
    | Ok _ =>
        let! r := db (SaveInstance i) in
        ret match r with Err e => Some e | Ok _ => None end
    end) in
  match err with
  | None => ret None
  | Some e =>
      let! ctx := ctxErr in
      If bool_decide (is_Some ctx) Return ret (withContextErr ctx "update" err) ;;
      If errorsIs e "ErrDuplicateKey" Return ret (Some (EDB "update" ErrDuplicateKey)) ;;
      ret (Some (EDB "update" e))
  end.

Definition ErrDeleteConflict := ESent "ErrDeleteConflict" "another operation changed the instance".
Definition ErrCleanConflict := ESent "ErrCleanConflict" "another operation changed the instance".

Definition MarkCleanStart (id : string) (fromStatuses : list string) (deleteAfterClean : bool) : M error :=
  let! now := clock in
  let! r := db (SetCleaning id fromStatuses deleteAfterClean now) in
  ret match r with
      | Err e => Some (EDB "mark_clean_start" e)
      | Ok n => If (n =? 0)%Z Return Some (if deleteAfterClean then ErrDeleteConflict else ErrCleanConflict) ;;
                None
      end.

Definition MarkNamespaceError (id message : string) (now : time) : M (res bool) :=
  let! updated := clock in
  let! r := db (SetNamespaceError id message now updated) in
  ret match r with Err e => Err (EDB "mark_namespace_error" e) | Ok n => Ok (0 <? n)%Z end.

(** MySQL reports an unchanged row as 0 rows, so 0 rows reads the status. *)
Definition MarkStatus (id to : string) (from : list string) : M (res bool) :=
  let! now := clock in
  let! r := db (SetStatus id to from now) in
  match r with
  | Err e => ret (Err (EDB "mark_status" e))
  | Ok n =>
      If (0 <? n)%Z Return ret (Ok true) ;;
      let! r := query (fun _ s => si_Status <$> st_instances s !! id) in
      ret match r with
          | Err e => Err (EDB "mark_status" e)
          | Ok status => Ok (bool_decide (status = Some to))
          end
  end.

Definition ClearDeleteAfterClean (id : string) : M error :=
  let! r := db (ClearDelete id) in
  ret match r with Err e => Some (EDB "clear_delete_after_clean" e) | Ok _ => None end.

Definition MarkExpiryWarned (id : string) (expiresAt warnedAt : time) : M (res bool) :=
  let! r := db (SetExpiryWarned id expiresAt warnedAt) in
  ret match r with Err e => Err (EDB "mark_expiry_warned" e) | Ok n => Ok (n =? 1)%Z end.

Definition instance_Delete (id : string) : M error :=
  let! r := db (RemoveInstance id) in
  ret match r with
      | Err e => Some (EDB "delete" e)
      | Ok n => If (n =? 0)%Z Return Some (EDB "delete" ErrNotFound) ;; None
      end.

(** ** [GORMDeploymentLogRepository] *)

Definition ErrDeployLogNotRunning := ESent "ErrDeployLogNotRunning" "deployment log is no longer running".

Definition log_Create (l : DeploymentLog) : M error :=
  let! r := db (InsertLog l) in
  ret match r with Err e => Some (EDB "create" e) | Ok _ => None end.

Definition log_is_running (id : string) (s : Store) : bool :=
  match st_logs s !! id with Some l => log_running l | None => false end.

(** A conditional write of a running log: 0 changed rows is no error when the
    log is still running ([Update], [ExtendDeadline], [UpdateRunningOutput]). *)
Definition write_running (opName : string) (id : string) (op : dbop) : M error :=
  let! r := db op in
  match r with
  | Err e => ret (Some (EDB opName e))
  | Ok n =>
      If (0 <? n)%Z Return ret None ;;
      let! r := query (fun _ s => log_is_running id s) in
      ret match r with
          | Err e => Some (EDB opName e)
          | Ok true => None
          | Ok false => Some ErrDeployLogNotRunning
          end
  end.

Definition log_Update (l : DeploymentLog) : M error := write_running "update" (dl_ID l) (SaveRunningLog l).
Definition ExtendDeadline (id : string) (deadline : time) : M error :=
  write_running "extend_deadline" id (SetDeadline id deadline).
Definition UpdateRunningOutput (id output : string) : M error :=
  write_running "update_running_output" id (SetRunningOutput id output).

(** Newest first, at most [limit] rows; ties keep the order of the table. *)
Definition latest_by_actions (instanceID : string) (actions : list string) (limit : nat) (s : Store)
    : list DeploymentLog :=
  take limit (sort_by (fun l => - dl_StartedAt l)%Z
    (List.filter (fun l => bool_decide (dl_StackInstanceID l = instanceID) && bool_decide (dl_Action l ∈ actions))
       (List.map snd (map_to_list (st_logs s))))).

Definition ListLatestByActions (instanceID : string) (actions : list string) (limit : nat)
    : M (res (list DeploymentLog)) :=
  let limit := match limit with O => 1%nat | _ => limit end in
  let! r := query (fun _ s => latest_by_actions instanceID actions limit s) in
  ret match r with Err e => Err (EDB "list_latest_by_actions" e) | Ok l => Ok l end.

(** ** [GORMReplicaHeartbeatRepository] *)

Definition Beat (id : string) : M error :=
  let! r := db (UpsertBeat id) in ret match r with Err e => Some e | Ok _ => None end.
Definition heartbeat_Remove (id : string) : M error :=
  let! r := db (RemoveBeat id) in ret match r with Err e => Some e | Ok _ => None end.
Definition DeleteOlderThan (maxAge : Z) : M (res Z) := db (RemoveBeatsOlder maxAge).
Definition SeenWithin (id : string) (maxAge : Z) : M (res bool) :=
  query (fun dbnow s => negb (staleHeartbeat (st_beats s) dbnow id maxAge)).

(** ** [GORMInterruptedOperationRepository] *)

Record InterruptRequest := mkInterrupt {
  rq_LogStartedAt : time;
  rq_Now : time;
  rq_InstanceUpdatedAt : time;
  rq_LogID : string;
  rq_InstanceID : string;
  rq_ReplicaID : string;
  rq_StaleAfter : Z;
  rq_InstanceStatus : string;
  rq_Message : string
}.
Record InterruptResult := mkResult { LogClosed : bool; InstanceUpdated : bool }.

Definition ErrInterruptConflict := ESent "ErrInterruptConflict" "instance changed during the interrupt".
Definition errInterruptRollback := ESent "errInterruptRollback" "rollback".

(** The WHERE clause of [ListInterruptCandidates]. *)
Definition interrupt_candidate (now dbnow : time) (selfID : string) (staleAfter : Z)
    (beats : gmap string time) (l : DeploymentLog) : bool :=
  log_running l && before (dl_DeadlineAt l) now && negb (empty (dl_ReplicaID l)) &&
  negb (bool_decide (dl_ReplicaID l = selfID)) && staleHeartbeat beats dbnow (dl_ReplicaID l) staleAfter.

Definition ListInterruptCandidates (now : time) (selfID : string) (staleAfter : Z) (limit : nat)
    : M (res (list DeploymentLog)) :=
  query (fun dbnow s => take limit (sort_by dl_StartedAt
    (List.filter (interrupt_candidate now dbnow selfID staleAfter (st_beats s))
       (List.map snd (map_to_list (st_logs s)))))).

(** A log of the instance that started after the interrupted one. *)
Definition newer_log (req : InterruptRequest) (s : Store) : bool :=
  existsb (fun p : string * DeploymentLog =>
      bool_decide (dl_StackInstanceID p.2 = rq_InstanceID req) && negb (bool_decide (dl_ID p.2 = rq_LogID req)) &&
      (rq_LogStartedAt req <? dl_StartedAt p.2)%Z)
    (map_to_list (st_logs s)).

(** The statements inside the transaction; the result is the error and what
    was changed so far. *)
Definition interrupt_body (req : InterruptRequest) : M (error * InterruptResult) :=
  let! r := db (InterruptLog (rq_LogID req) (rq_ReplicaID req) (rq_Message req) (rq_StaleAfter req) (rq_Now req)) in
  match r with
  | Err e => ret (Some e, mkResult false false)
  | Ok n =>
      If (n =? 0)%Z Return ret (None, mkResult false false) ;;
      If empty (rq_InstanceStatus req) Return ret (None, mkResult true false) ;;
      let! r := query (fun _ s => newer_log req s) in
      match r with
      | Err e => ret (Some e, mkResult true false)
      | Ok true => ret (None, mkResult true false)
      | Ok false =>
          let! r := db (InterruptInstance (rq_InstanceID req) (rq_InstanceStatus req)
                          (rq_InstanceUpdatedAt req) (rq_Message req) (rq_Now req)) in
          ret match r with
              | Err e => (Some e, mkResult true false)
              | Ok n => If (n =? 0)%Z Return (Some errInterruptRollback, mkResult true false) ;;
                        (None, mkResult true true)
              end
      end
  end.

Definition InterruptOperation (req : InterruptRequest) : M (res InterruptResult) :=
  let! r := transaction_with (mkResult false false) (interrupt_body req) in
  ret match r.1 with
      | None => Ok r.2
      | Some e =>
          If errorsIs e "errInterruptRollback" Return Err ErrInterruptConflict ;;
          Err e
      end.

(** * What a program may do

    [own Ev m Φ]: whatever the environment does, every event of [m] (its
    statements, its Helm and Kubernetes calls, its messages) satisfies [Ev], all
    else that happens to the database comes from the environment, and the
    result satisfies [Φ].  A rolled back transaction leaves no event. *)

Definition env_ok (Q : dbop -> Prop) (w : World) : Prop :=
  forall n, Forall (fun p => Q p.2) (e_others (w_env w n)).

(** A statement is allowed whatever it changes. *)
Abbreviation may_write Ev op := (forall rows, Ev (EvWrite op rows)) (only parsing).

Record evolves (Ev : event -> Prop) (w w' : World) : Prop := {
  ev_env : w_env w' = w_env w;
  ev_quiet : w_quiet w' = w_quiet w;
  ev_tick : (w_tick w <= w_tick w')%nat;
  ev_keyed : keyed (w_db w) -> keyed (w_db w');
  ev_db : forall Q, env_ok Q w -> db_steps (fun op => may_write Ev op \/ Q op) (w_db w) (w_db w');
  ev_trace : exists tr, w_trace w' = tr ++ w_trace w /\ Forall Ev tr
}.

Definition own (Ev : event -> Prop) {A} (m : M A) (Φ : A -> Prop) : Prop :=
  forall w, keyed (w_db w) -> evolves Ev w (m w).2 /\ Φ (m w).1.

(** The same for one world. *)
Definition own_at (Ev : event -> Prop) (w : World) {A} (m : M A) (Φ : A -> Prop) : Prop :=
  evolves Ev w (m w).2 /\ Φ (m w).1.

Lemma only_writes (P : dbop -> Prop) op :
  may_write (fun e => forall op' rows, e = EvWrite op' rows -> P op') op -> P op.
Proof. intros H. by eapply (H 0%Z). Qed.

Lemma own_evolves Ev {A} (m : M A) Φ w : own Ev m Φ -> keyed (w_db w) -> evolves Ev w (m w).2.
Proof. intros H Hw. apply (H w Hw). Qed.

Section own_rules.
Context (Ev : event -> Prop).

Lemma evolves_refl w : evolves Ev w w.
Proof. split; try done. by exists []. Qed.

Lemma evolves_trans w1 w2 w3 : evolves Ev w1 w2 -> evolves Ev w2 w3 -> evolves Ev w1 w3.
Proof.
  intros [E1 Q1 N1 K1 D1 (t1 & T1 & F1)] [E2 Q2 N2 K2 D2 (t2 & T2 & F2)]. split.
  - congruence.
  - congruence.
  - lia.
  - tauto.
  - intros Q HQ. transitivity (w_db w2); [by apply D1|]. apply D2. unfold env_ok. by rewrite E1.
  - exists (t2 ++ t1). rewrite T2, T1, app_assoc. split; [done|]. by apply Forall_app.
Qed.

Lemma own_ret {A} (Φ : A -> Prop) a : Φ a -> own Ev (ret a) Φ.
Proof. intros H w _. split; [apply evolves_refl|done]. Qed.

Lemma own_bind {A B} (m : M A) (k : A -> M B) (Ψ : A -> Prop) (Φ : B -> Prop) :
  own Ev m Ψ -> (forall a, Ψ a -> own Ev (k a) Φ) -> own Ev (bind m k) Φ.
Proof.
  intros Hm Hk w Hw. destruct (Hm w Hw) as [E1 H1].
  assert (Hw' : keyed (w_db (m w).2)) by (by apply (ev_keyed _ _ _ E1)).
  destruct (Hk _ H1 (m w).2 Hw') as [E2 H2]. split; [by eapply evolves_trans|done].
Qed.

Lemma own_post {A} (m : M A) (Φ Ψ : A -> Prop) :
  own Ev m Ψ -> (forall a, Ψ a -> Φ a) -> own Ev m Φ.
Proof. intros H HΦ w Hw. destruct (H w Hw). split; [done|]. by apply HΦ. Qed.

Lemma evolves_step w : evolves Ev w (step w).2.
Proof.
  unfold step. cbn. split; cbn; try done; try lia.
  - intros Hk. destruct (w_quiet w); [done|].
    eapply (db_steps_keyed (fun _ => True)), Hk. apply exec_all_steps. by apply Forall_forall.
  - intros Q HQ. destruct (w_quiet w); [done|]. apply exec_all_steps.
    eapply Forall_impl; [apply HQ|]. intros p Hp. by right.
  - by exists [].
Qed.

Lemma own_step : own Ev step (fun _ => True).
Proof. intros w _. split; [apply evolves_step|done]. Qed.
Lemma own_isDown : own Ev isDown (fun _ => True).
Proof. intros w _. split; [apply evolves_step|done]. Qed.
Lemma own_clock : own Ev clock (fun _ => True).
Proof. eapply own_bind; [apply own_step|]. intros. by apply own_ret. Qed.
Lemma own_ctxErr : own Ev ctxErr (fun _ => True).
Proof. eapply own_bind; [apply own_step|]. intros. by apply own_ret. Qed.

Lemma own_external {A} (f : nat -> A) : own Ev (external f) (fun _ => True).
Proof. intros w _. split; [apply evolves_step|done]. Qed.

Lemma own_emit e : Ev e -> own Ev (emit e) (fun _ => True).
Proof. intros H w _. split; [|done]. split; try done. exists [e]. split; [done|by constructor]. Qed.
Lemma own_getMem : own Ev getMem (fun _ => True).
Proof. intros w _. split; [apply evolves_refl|done]. Qed.
Lemma own_modMem f : own Ev (modMem f) (fun _ => True).
Proof. intros w _. split; [|done]. split; try done. by exists []. Qed.

Lemma own_when b m : (b = true -> own Ev m (fun _ => True)) -> own Ev (when_ b m) (fun _ => True).
Proof. destruct b; intros H; [by apply H|by apply own_ret]. Qed.

Lemma own_forEach {A} (l : list A) f :
  (forall x, own Ev (f x) (fun _ => True)) -> own Ev (forEach l f) (fun _ => True).
Proof.
  intros H. induction l as [|x l IH]; [by apply own_ret|]. simpl.
  eapply own_bind; [apply H|]. by intros _ _.
Qed.

Lemma evolves_db w op : may_write Ev op -> evolves Ev w (db op w).2.
Proof.
  intros Hop. unfold db. destruct (step w) as [st w1] eqn:Es.
  assert (E1 : evolves Ev w w1) by (pose proof (evolves_step w) as E; by rewrite Es in E).
  destruct (exec (e_dbnow st) op (w_db w1)) as [r s] eqn:Ex.
  assert (E2 : evolves Ev w1 (add_event (EvWrite op (changed_rows r)) (set_db s w1))).
  { assert (Hs : s = (exec (e_dbnow st) op (w_db w1)).2) by (by rewrite Ex). split; cbn; try done.
    - intros Hk. rewrite Hs. by apply exec_keyed.
    - intros Q _. rewrite Hs. apply exec_steps. by left.
    - exists [EvWrite op (changed_rows r)]. split; [done|]. by constructor. }
  destruct (e_fault st); [destruct (e_lost st)|]; cbn; by eauto using evolves_trans.
Qed.

Lemma own_db op : may_write Ev op -> own Ev (db op) (fun _ => True).
Proof. intros H w _. split; [by apply evolves_db|done]. Qed.

Lemma own_query {A} (f : time -> Store -> A) (Φ : A -> Prop) :
  (forall t s, keyed s -> Φ (f t s)) -> own Ev (query f) (fun r => forall a, r = Ok a -> Φ a).
Proof.
  intros HΦ w Hw. unfold query. pose proof (evolves_step w) as E. destruct (step w) as [st w1] eqn:Es.
  simpl in E. destruct (e_fault st); cbn; (split; [done|]).
  - by intros.
  - intros a [= <-]. apply HΦ. by apply (ev_keyed _ _ _ E).
Qed.

Lemma evolves_rollback w0 w1 w : evolves Ev w0 w1 -> w_env w = w_env w0 -> (w_tick w0 <= w_tick w)%nat -> evolves Ev w0 (rollback w1 w).
Proof. intros [E Q N K D T] Hw Ht. by split. Qed.

Lemma evolves_quiet w w2 q : evolves Ev (set_quiet q w) w2 -> evolves Ev w (set_quiet (w_quiet w) w2).
Proof. intros [E Q N K D T]. by split. Qed.

Lemma own_transaction_with {A} d (body : M (error * A)) Ψ :
  own Ev body Ψ -> own Ev (transaction_with d body) (fun _ => True).
Proof.
  intros Hb w Hw. split; [|done]. unfold transaction_with. pose proof (evolves_step w) as E.
  destruct (step w) as [st w1] eqn:Es. simpl in E. destruct (e_fault st); [done|].
  destruct (Hb (set_quiet true w1)) as [E2 _]; [cbn; by apply (ev_keyed _ _ _ E)|].
  destruct (body (set_quiet true w1)) as [[r a] w2]. cbn in E2.
  assert (Hr : forall w', w_env w' = w_env w2 -> (w_tick w2 <= w_tick w')%nat -> evolves Ev w (rollback w1 w')).
  { intros w' He Ht. apply evolves_rollback; [done| |].
    - rewrite He, (ev_env _ _ _ E2). apply (ev_env _ _ _ E).
    - pose proof (ev_tick _ _ _ E). pose proof (ev_tick _ _ _ E2) as Ht2. cbn in Ht2. lia. }
  destruct r; [by apply Hr|]. pose proof (evolves_step w2) as E3.
  destruct (step w2) as [st' w3]. cbn in E3.
  assert (Hc : evolves Ev w (set_quiet (w_quiet w1) w3)).
  { eapply evolves_trans; [exact E|]. eapply evolves_quiet, evolves_trans; eassumption. }
  destruct (e_fault st'); [|done]. destruct (e_lost st'); [done|]. apply Hr; [apply (ev_env _ _ _ E3)|apply (ev_tick _ _ _ E3)].
Qed.
End own_rules.

Lemma own_mono (Ev Ev' : event -> Prop) {A} (m : M A) Φ :
  (forall e, Ev e -> Ev' e) -> own Ev m Φ -> own Ev' m Φ.
Proof.
  intros HP Hm w Hw. destruct (Hm w Hw) as [[E Q N K D (tr & T & F)] H]. split; [|done]. split; try done.
  - intros R HR. eapply db_steps_mono; [|by apply D]. intros op [?|?]; [left; auto|by right].
  - exists tr. split; [done|]. eapply Forall_impl; [exact F|]. intros [] ?; simpl in *; auto.
Qed.

Create HintDb own discriminated.
#[export] Hint Resolve own_step own_isDown own_clock own_ctxErr own_getMem own_modMem own_external : own.

(** [own_steps side]: applies the rules along the program; [side] proves that an
    event satisfies [Ev]. *)
Ltac own_prim side :=
  solve [ eauto with own
        | apply own_db; side
        | apply own_emit; side
        | apply own_when; intros _; own_prim side
        | apply (own_query _ _ (fun _ => True)); done
        | eauto with own nocore ].
Ltac own_steps side :=
  repeat first
    [ progress intros
    | apply own_ret; done
    | match goal with |- own _ (if _ then _ else _) _ => case_match end
    | match goal with |- own _ (match _ with _ => _ end) _ => case_match end
    | eapply own_bind; [own_prim side|]
    | eapply own_post; [own_prim side|]
    | own_prim side
    | eapply (own_bind _ _ _ (fun _ => True)); [solve [own_steps side]|] ].

(** Messages: no statement, no Helm or Kubernetes call. *)
Definition message (e : event) : Prop :=
  match e with
  | EvStatus _ _ _ _ _ | EvLine _ _ _ | EvInstanceDeleted _ _ | EvHook _ _ _ _ | EvNotify _ _ _ _ _ _
  | EvAudit _ _ | EvExpired _ | EvInstanceHealth _ _ | EvSystemNotify _ _ _ _ _ | EvPolicyRun _ _
  | EvInstanceCreated _ | EvStreamsClosed _ => True
  | _ => False
  end.

(** ** The statements of the repository methods *)

(** A statement on the row of instance [iid] only. *)
Definition on_instance (iid : string) (op : dbop) : Prop :=
  match op with
  | InsertInstance i | SaveInstance i => si_ID i = iid
  | ClearExpiryWarning i _ | SetCleaning i _ _ _ | SetNamespaceError i _ _ _ | SetStatus i _ _ _
  | ClearDelete i | SetExpiryWarned i _ _ | InterruptInstance i _ _ _ _ | RemoveInstance i => i = iid
  | _ => False
  end.

(** A conditional write of the running log [lid]. *)
Definition on_log (lid : string) (op : dbop) : Prop :=
  match op with
  | SaveRunningLog l => dl_ID l = lid
  | SetDeadline i _ | SetRunningOutput i _ | InterruptLog i _ _ _ _ => i = lid
  | _ => False
  end.

Section methods.
Context (Ev : event -> Prop).

Lemma own_FindByID id : own Ev (instance_FindByID id) (fun r => forall i, r = Ok i -> si_ID i = id).
Proof.
  unfold instance_FindByID. eapply own_bind.
  - apply (own_query _ _ (fun o => forall i, o = Some i -> si_ID i = id)).
    intros _ s [_ Hi] i. apply Hi.
  - intros [[i|]|e] H; apply own_ret; try done. intros ? [= <-]. by apply (H (Some i)).
Qed.

Lemma own_Update i :
  (forall now, may_write Ev (SaveInstance (si_set_UpdatedAt now i))) ->
  (forall e, may_write Ev (ClearExpiryWarning (si_ID i) e)) -> own Ev (instance_Update i) (fun _ => True).
Proof.
  intros Hs Hc. unfold instance_Update. eapply own_bind; [apply own_clock|]. intros now _.
  eapply (own_bind _ _ _ (fun _ => True)).
  - eapply own_bind; [|intros; by apply own_ret].
    apply (own_transaction_with _ _ _ (fun _ => True)). eapply (own_bind _ _ _ (fun _ => True)).
    + eapply own_bind; [apply own_db, Hc|]. intros [n|e] _; [|by apply own_ret].
      eapply own_bind; [apply own_db, Hs|]. intros [? |?] _; by apply own_ret.
    + intros e _. by apply own_ret.
  - intros [e|] _; [|by apply own_ret]. eapply own_bind; [apply own_ctxErr|]. intros c _.
    repeat case_match; by apply own_ret.
Qed.
End methods.

(** Methods whose statements satisfy [P] under a condition on the arguments. *)
Section methods_more.
Context (Ev : event -> Prop).

Lemma own_write_running name id op : may_write Ev op -> own Ev (write_running name id op) (fun _ => True).
Proof. intros H. unfold write_running. own_steps ltac:(exact H). Qed.

Lemma own_log_Update l : may_write Ev (SaveRunningLog l) -> own Ev (log_Update l) (fun _ => True).
Proof. apply own_write_running. Qed.
Lemma own_ExtendDeadline id d : may_write Ev (SetDeadline id d) -> own Ev (ExtendDeadline id d) (fun _ => True).
Proof. apply own_write_running. Qed.
Lemma own_UpdateRunningOutput id o :
  may_write Ev (SetRunningOutput id o) -> own Ev (UpdateRunningOutput id o) (fun _ => True).
Proof. apply own_write_running. Qed.
Lemma own_log_Create l : may_write Ev (InsertLog l) -> own Ev (log_Create l) (fun _ => True).
Proof. intros H. unfold log_Create. own_steps ltac:(exact H). Qed.
Lemma own_ListLatestByActions iid acts n : own Ev (ListLatestByActions iid acts n) (fun _ => True).
Proof. unfold ListLatestByActions. own_steps idtac. Qed.
Lemma own_SeenWithin id a : own Ev (SeenWithin id a) (fun _ => True).
Proof. eapply own_post; [apply (own_query _ _ (fun _ => True)); done|done]. Qed.

Lemma own_MarkStatus id to from :
  (forall now, may_write Ev (SetStatus id to from now)) -> own Ev (MarkStatus id to from) (fun _ => True).
Proof. intros H. unfold MarkStatus. own_steps ltac:(apply H). Qed.
Lemma own_MarkCleanStart id from d :
  (forall now, may_write Ev (SetCleaning id from d now)) -> own Ev (MarkCleanStart id from d) (fun _ => True).
Proof. intros H. unfold MarkCleanStart. own_steps ltac:(apply H). Qed.
Lemma own_ClearDeleteAfterClean id :
  may_write Ev (ClearDelete id) -> own Ev (ClearDeleteAfterClean id) (fun _ => True).
Proof. intros H. unfold ClearDeleteAfterClean. own_steps ltac:(exact H). Qed.
Lemma own_instance_Delete id : may_write Ev (RemoveInstance id) -> own Ev (instance_Delete id) (fun _ => True).
Proof. intros H. unfold instance_Delete. own_steps ltac:(exact H). Qed.

Lemma own_RunInTx body : own Ev body (fun _ => True) -> own Ev (RunInTx body) (fun _ => True).
Proof.
  intros H. unfold RunInTx. eapply (own_bind _ _ _ (fun _ => True)).
  - unfold transaction. eapply own_bind; [|intros; by apply own_ret].
    apply (own_transaction_with _ _ _ (fun _ => True)).
    eapply own_bind; [exact H|]. intros; by apply own_ret.
  - intros e _. eapply own_bind; [apply own_ctxErr|]. intros; by apply own_ret.
Qed.
End methods_more.
#[export] Hint Resolve own_ListLatestByActions own_SeenWithin own_FindByID : own.
