(* ===== verification/Output.v ===== *)
(** * Stored output of an operation

    [truncateString] of [deployer/manager.go], the hook progress buffer
    ([deployer/hook_progress.go]) and the live output of running operations
    ([deployer/live_output.go]). *)

From S2P Require Import Prelude Store World.
Local Open Scope string_scope.

Definition maxInstanceErrorLen : Z := 256.
Definition maxLogErrorLen : Z := 1024.
Definition maxOutputLen : Z := 64 * 1024.
Definition maxHookProgressLen : Z := 16 * 1024.

(** Bytes, not characters: [len] and slicing count bytes. *)
Definition truncateString (s : string) (maxLen : Z) : string :=
  If (len s <=? maxLen)%Z Return s ;;
  If (maxLen <=? 3)%Z Return stake (Z.to_nat maxLen) s ;;
  stake (Z.to_nat (maxLen - 3)) s +:+ "...".

(** ** Hook progress *)

Definition newline : ascii := ascii_of_nat 10.
Definition nl : string := String newline "".

(** [utf8.RuneStart]: not a continuation byte. *)
Definition RuneStart (c : ascii) : bool :=
  let n := nat_of_ascii c in negb ((128 <=? n)%nat && (n <? 192)%nat).

(** The index of the first newline, if any. *)
Fixpoint newline_index (s : string) : option nat :=
  match s with
  | EmptyString => None
  | String c s' => if ascii_eqb c newline then Some 0%nat else S <$> newline_index s'
  end.

(** Bytes before the first rune start. *)
Fixpoint continuation_bytes (s : string) : nat :=
  match s with
  | EmptyString => 0
  | String c s' => if RuneStart c then 0 else S (continuation_bytes s')
  end.

(** [tailCut]: the start of the last [maxLen] bytes, moved forward to a line
    start, or to a rune start when the tail is one line. *)
Definition tailCut (s : string) (maxLen : Z) : nat :=
  let cut := (len s - maxLen)%Z in
  If (cut <=? 0)%Z Return 0%nat ;;
  let cut := Z.to_nat cut in
  match String.get (cut - 1) s with
  | Some c =>
      If ascii_eqb c newline Return cut ;;
      match newline_index (sdrop cut s) with
      | Some i =>
          If (cut + i + 1 <? String.length s)%nat Return (cut + i + 1)%nat ;;
          (cut + continuation_bytes (sdrop cut s))%nat
      | None => (cut + continuation_bytes (sdrop cut s))%nat
      end
  | None => cut
  end.

Record hookProgress := mkProgress { hp_buf : string; hp_dropped : Z }.
Definition newHookProgress : hookProgress := mkProgress "" 0.

Definition progress_add (maxLen : Z) (line : string) (p : hookProgress) : hookProgress :=
  let s := hp_buf p +:+ line +:+ nl in
  If (len s <=? 2 * maxLen)%Z Return mkProgress s (hp_dropped p) ;;
  let cut := tailCut s maxLen in
  mkProgress (sdrop cut s) (hp_dropped p + Z.of_nat cut)%Z.

Definition progress_String (maxLen : Z) (p : hookProgress) : string :=
  let s := hp_buf p in
  let cut := tailCut s maxLen in
  let dropped := (hp_dropped p + Z.of_nat cut)%Z in
  If (dropped =? 0)%Z Return s ;;
  "[hook output truncated: first " +:+ itoa dropped +:+ " bytes not kept]" +:+ nl +:+ sdrop cut s.

(** The text of the progress lines of one hook. *)
Definition progress_of (lines : list string) : string :=
  progress_String maxHookProgressLen
    (fold_left (fun p line => progress_add maxHookProgressLen line p) lines newHookProgress).

(** ** Live output *)

(** [appendLiveOutput] on the map of live outputs. *)
Definition live_append (logID line : string) (m : Mem) : Mem :=
  If empty logID Return m ;;
  let lo := default (mkLive "" false false) (liveOut m !! logID) in
  let lo :=
    If lo_full lo Return lo ;;
    If (maxOutputLen <? len (lo_buf lo) + len line + 1)%Z Return mkLive (lo_buf lo) true (lo_dirty lo) ;;
    mkLive (lo_buf lo +:+ line +:+ nl) false true in
  mkMem (logActions m) (logTriggers m) (<[logID := lo]> (liveOut m)).

Definition live_drop (logID : string) (m : Mem) : Mem :=
  mkMem (logActions m) (logTriggers m) (delete logID (liveOut m)).

Definition live_set_dirty (logID : string) (d : bool) (m : Mem) : Mem :=
  match liveOut m !! logID with
  | None => m
  | Some lo => mkMem (logActions m) (logTriggers m) (<[logID := mkLive (lo_buf lo) (lo_full lo) d]> (liveOut m))
  end.

(** [flushLiveOutputs]: every changed live output is written to its log while
    the log runs; a log that does not run any more loses its live output, a
    failed write stays marked.  The result is false when nothing is left. *)
Definition live_todo (m : Mem) : list (string * string) :=
  List.map (fun p => (p.1, lo_buf p.2)) (List.filter (fun p => lo_dirty p.2) (map_to_list (liveOut m))).

Definition flush_one (p : string * string) : M unit :=
  let! err := UpdateRunningOutput p.1 p.2 in
  match err with
  | None => ret tt
  | Some e =>
      If errorsIs e "ErrDeployLogNotRunning" Return modMem (live_drop p.1) ;;
      modMem (live_set_dirty p.1 true)
  end.

Definition flushLiveOutputs : M bool :=
  let! m := getMem in
  let todo := live_todo m in
  run! modMem (fun m => fold_left (fun m p => live_set_dirty p.1 false m) todo m) in
  run! forEach todo flush_one in
  let! m := getMem in
  ret (negb (bool_decide (liveOut m = ∅))).

(** * Theorems *)

Lemma truncateString_len s maxLen : (0 <= maxLen)%Z -> (len (truncateString s maxLen) <= maxLen)%Z.
Proof.
  intros H. unfold truncateString. destruct (Z.leb_spec (len s) maxLen); [done|].
  destruct (Z.leb_spec maxLen 3).
  - unfold len. rewrite stake_exact by (unfold len in *; lia). lia.
  - rewrite len_app. unfold len. rewrite stake_exact by (unfold len in *; lia). simpl. lia.
Qed.

Lemma truncateString_id s maxLen : (len s <= maxLen)%Z -> truncateString s maxLen = s.
Proof. intros H. unfold truncateString. by destruct (Z.leb_spec (len s) maxLen); [|lia]. Qed.

(** A short prefix survives the cut. *)
Lemma truncateString_prefix p s maxLen :
  (len p + 3 < maxLen)%Z -> HasPrefix (truncateString (p +:+ s) maxLen) p = true.
Proof.
  intros H. unfold truncateString. destruct (len (p +:+ s) <=? maxLen)%Z; [apply HasPrefix_app|].
  unfold len in H. destruct (Z.leb_spec maxLen 3); [lia|]. rewrite stake_app by lia.
  rewrite <- sapp_assoc. apply HasPrefix_app.
Qed.

Lemma truncateString_empty s maxLen : (4 <= maxLen)%Z -> truncateString s maxLen = "" -> s = "".
Proof.
  intros H. unfold truncateString. destruct (Z.leb_spec (len s) maxLen); [done|].
  destruct (Z.leb_spec maxLen 3); [lia|]. intros E. by apply sapp_eq_nil in E as [_ ?].
Qed.

Lemma continuation_le s : (continuation_bytes s <= String.length s)%nat.
Proof. induction s as [|c s IH]; simpl; [lia|]. case_match; lia. Qed.

Lemma newline_index_lt s i : newline_index s = Some i -> (i < String.length s)%nat.
Proof.
  revert i. induction s as [|c s IH]; intros i; simpl; [done|]. case_match.
  - intros [= <-]. lia.
  - destruct (newline_index s) as [j|]; [|done]. intros [= <-]. specialize (IH j eq_refl). lia.
Qed.

Lemma tailCut_bounds s maxLen :
  (0 <= maxLen)%Z -> (len s - maxLen <= Z.of_nat (tailCut s maxLen) <= Z.max (len s - maxLen) (len s))%Z.
Proof.
  intros Hm. unfold tailCut. destruct (Z.leb_spec (len s - maxLen) 0); [unfold len in *; lia|].
  set (cut := Z.to_nat (len s - maxLen)). assert (Hc : (Z.of_nat cut = len s - maxLen)%Z) by lia.
  assert (Hd : (String.length (sdrop cut s) = String.length s - cut)%nat) by apply sdrop_length.
  destruct (String.get _ s) as [c|]; [|lia]. destruct (ascii_eqb c newline); [lia|].
  pose proof (continuation_le (sdrop cut s)). unfold len in *.
  destruct (newline_index _) as [i|]; [destruct (Nat.ltb_spec (cut + i + 1) (String.length s))|]; lia.
Qed.

(** The kept text of a progress buffer is at most [maxLen] bytes. *)
Lemma progress_tail_len p maxLen :
  (0 <= maxLen)%Z -> (len (sdrop (tailCut (hp_buf p) maxLen) (hp_buf p)) <= maxLen)%Z.
Proof.
  intros Hm. pose proof (tailCut_bounds (hp_buf p) maxLen Hm). unfold len in *.
  rewrite sdrop_length. lia.
Qed.

(** Everything a hook wrote, one line per progress call. *)
Definition full_text (lines : list string) : string :=
  fold_right (fun line s => line +:+ nl +:+ s) "" lines.

Lemma progress_add_inv maxLen line p text :
  (0 <= maxLen)%Z ->
  (exists pre, text = pre +:+ hp_buf p /\ len pre = hp_dropped p) ->
  exists pre, text +:+ line +:+ nl = pre +:+ hp_buf (progress_add maxLen line p) /\
    len pre = hp_dropped (progress_add maxLen line p).
Proof.
  intros Hm (pre & -> & Hl). unfold progress_add. set (s := hp_buf p +:+ line +:+ nl).
  destruct (Z.leb_spec (len s) (2 * maxLen)); cbn [hp_buf hp_dropped].
  - exists pre. split; [|done]. unfold s. by rewrite !sapp_assoc.
  - exists (pre +:+ stake (tailCut s maxLen) s). split.
    + rewrite <- (sapp_assoc pre (stake _ _)), stake_sdrop. unfold s. by rewrite !sapp_assoc.
    + rewrite len_app, Hl. f_equal. unfold len. rewrite stake_exact; [done|].
      pose proof (tailCut_bounds s maxLen Hm). unfold len in *. lia.
Qed.

Lemma progress_fold_inv maxLen lines : (0 <= maxLen)%Z -> forall p text,
  (exists pre, text = pre +:+ hp_buf p /\ len pre = hp_dropped p) ->
  let p' := fold_left (fun p line => progress_add maxLen line p) lines p in
  exists pre, text +:+ full_text lines = pre +:+ hp_buf p' /\ len pre = hp_dropped p'.
Proof.
  intros Hm. induction lines as [|l lines IH]; intros p text Hp; cbn [fold_left full_text fold_right].
  - by rewrite sapp_nil.
  - destruct (IH (progress_add maxLen l p) (text +:+ l +:+ nl)) as (pre & E & Hl);
      [by apply progress_add_inv|].
    exists pre. split; [|done]. rewrite <- E. by rewrite !sapp_assoc.
Qed.

(** The stored progress of a hook is exact and bounded, however much the
    hook writes: it is the end of everything the hook wrote, at most 16 KiB,
    and when something was dropped a first line gives the exact number of
    missing bytes. *)
Theorem progress_of_tail lines :
  exists pre kept, full_text lines = pre +:+ kept /\ (len kept <= maxHookProgressLen)%Z /\
    progress_of lines =
      (if (len pre =? 0)%Z then kept
       else "[hook output truncated: first " +:+ itoa (len pre) +:+ " bytes not kept]" +:+ nl +:+ kept).
Proof.
  unfold progress_of. set (p := fold_left _ _ _).
  assert (Hm : (0 <= maxHookProgressLen)%Z) by done.
  destruct (progress_fold_inv _ lines Hm newHookProgress "") as (pre & E & Hl); [by exists ""|].
  fold p in E, Hl. rewrite sapp_empty in E. set (cut := tailCut (hp_buf p) maxHookProgressLen).
  exists (pre +:+ stake cut (hp_buf p)), (sdrop cut (hp_buf p)). split; [|split].
  - by rewrite <- (sapp_assoc pre (stake _ _)), stake_sdrop.
  - by apply progress_tail_len.
  - assert (Hc : (cut <= String.length (hp_buf p))%nat).
    { pose proof (tailCut_bounds (hp_buf p) _ Hm) as B. fold cut in B. unfold len in B. lia. }
    assert (Hlen : len (pre +:+ stake cut (hp_buf p)) = (hp_dropped p + Z.of_nat cut)%Z).
    { rewrite len_app, Hl. f_equal. unfold len. by rewrite stake_exact. }
    rewrite Hlen. unfold progress_String. fold cut.
    destruct (Z.eqb_spec (hp_dropped p + Z.of_nat cut) 0) as [H0|]; [|done].
    assert (cut = 0%nat) as -> by (unfold len in Hl; lia). done.
Qed.

(** The live output of every running operation is at most [maxOutputLen]. *)
Definition live_bounded (m : Mem) : Prop :=
  forall id lo, liveOut m !! id = Some lo -> (len (lo_buf lo) <= maxOutputLen)%Z.

Lemma live_append_bounded logID line m : live_bounded m -> live_bounded (live_append logID line m).
Proof.
  intros H. unfold live_append. destruct (empty logID); [done|]. intros id lo. cbn [liveOut].
  destruct (decide (logID = id)) as [<-|]; [|rewrite lookup_insert_ne by done; apply H].
  rewrite lookup_insert_eq. intros [= <-].
  assert (Hold : (len (lo_buf (default (mkLive "" false false) (liveOut m !! logID))) <= maxOutputLen)%Z).
  { destruct (liveOut m !! logID) eqn:E; [by eapply H|done]. }
  destruct (lo_full _); [done|]. destruct (Z.ltb_spec maxOutputLen
    (len (lo_buf (default (mkLive "" false false) (liveOut m !! logID))) + len line + 1)); [done|].
  cbn [lo_buf]. rewrite !len_app. change (len nl) with 1%Z. lia.
Qed.

(** The live output buffer of a running operation never grows over the size
    of the stored column, and a flush writes only logs that run: whatever the
    other processes do meanwhile, the flusher runs nothing but conditional
    output updates. *)
Theorem live_output_safe :
  (forall lines m, live_bounded m ->
     live_bounded (fold_left (fun m p => live_append p.1 p.2 m) lines m)) /\
  own (fun e => exists id out rows, e = EvWrite (SetRunningOutput id out) rows) flushLiveOutputs (fun _ => True).
Proof.
  split.
  - intros lines. induction lines as [|[i l] lines IH]; intros m Hm; [done|]. by apply IH, live_append_bounded.
  - unfold flushLiveOutputs. eapply own_bind; [apply own_getMem|]. intros m _.
    eapply own_bind; [apply own_modMem|]. intros _ _. eapply own_bind.
    + apply own_forEach. intros [id out]. unfold flush_one.
      eapply own_bind; [apply own_UpdateRunningOutput; eauto|].
      intros [e|] _; [case_match; apply own_modMem|by apply own_ret].
    + intros _ _. eapply own_bind; [apply own_getMem|]. intros. by apply own_ret.
Qed.

(** A text of two-byte characters. *)
Definition accents (n : nat) : string := Nat.iter n (fun s => bytes [195; 169] +:+ s) "".

(** [truncateString] keeps the bound in bytes, but it does not keep UTF-8: a
    valid text can be cut in the middle of a character, so that the stored
    error message and output are not valid UTF-8. *)
Theorem truncateString_bound_not_utf8 :
  (forall s, (len (truncateString s maxInstanceErrorLen) <= maxInstanceErrorLen)%Z) /\
  valid_utf8 (accents 200) = true /\
  valid_utf8 (truncateString (accents 200) maxInstanceErrorLen) = false.
Proof.
  split; [intros s; by apply truncateString_len|]. split; vm_compute; reflexivity.
Qed.
