(* ===== verification/Json.v ===== *)
(** * JSON objects of strings

    [encoding/json] for [map[string]string], which is how a deployment log
    stores its chart versions and its values snapshot and an instance the values
    of its last deploy ([chartVersionsJSON], [ParseChartVersions] and
    [mergeRunningValues] of [deployer/rollback_target.go]): [json.Marshal]
    (sorted keys, HTML escapes, U+2028 and U+2029 escaped, invalid UTF-8
    replaced) and [json.Unmarshal] (whitespace, escapes with surrogate pairs,
    null members).  Every document that is neither null nor an object of strings
    and nulls is an error, which is all the callers see of it.  The round trip
    of a map of valid texts is proved. *)

From S2P Require Import Prelude.
Local Open Scope string_scope.

Definition backslash : ascii := ascii_of_nat 92.
Definition dq : ascii := ascii_of_nat 34.

(** ** Runes *)

(** The size of the UTF-8 encoding at the head of a text, 0 when it is invalid
    or the text is empty ([utf8.DecodeRune]). *)
Definition rune_len (s : string) : nat :=
  match s with
  | EmptyString => 0
  | String c s1 =>
      let n := nat_of_ascii c in
      If (n <? 128)%nat Return 1 ;;
      If (n <? 194)%nat Return 0 ;;
      match s1 with
      | EmptyString => 0
      | String c1 s2 =>
          If (n <? 224)%nat Return (if cont c1 then 2 else 0) ;;
          match s2 with
          | EmptyString => 0
          | String c2 s3 =>
              If (n <? 240)%nat Return
                (if cont_in (if (n =? 224)%nat then 160 else 128) (if (n =? 237)%nat then 159 else 191) c1 && cont c2
                 then 3 else 0) ;;
              match s3 with
              | EmptyString => 0
              | String c3 _ =>
                  if (n <? 245)%nat &&
                     cont_in (if (n =? 240)%nat then 144 else 128) (if (n =? 244)%nat then 143 else 191) c1 &&
                     cont c2 && cont c3
                  then 4 else 0
              end
          end
      end
  end%nat.

(** [utf8.AppendRune] of a code point that is no surrogate. *)
Definition utf8_encode (r : N) : string :=
  let tail (k : N) := N.to_nat (128 + N.shiftr r k mod 64)%N in
  If (r <? 128)%N Return bytes [N.to_nat r] ;;
  If (r <? 2048)%N Return bytes [N.to_nat (192 + N.shiftr r 6)%N; tail 0%N] ;;
  If (r <? 65536)%N Return bytes [N.to_nat (224 + N.shiftr r 12)%N; tail 6%N; tail 0%N] ;;
  bytes [N.to_nat (240 + N.shiftr r 18)%N; tail 12%N; tail 6%N; tail 0%N].
Definition RuneError : string := bytes [239; 191; 189].

(** ** Marshal *)

(** A hexadecimal digit of a value below 16, as Go's [hex] string. *)
Definition hexd (n : nat) : ascii :=
  ascii_of_nat (if (n <? 10)%nat then 48 + n else 87 + n).
Definition unhexd (c : ascii) : option nat :=
  let n := nat_of_ascii c in
  If (48 <=? n)%nat && (n <=? 57)%nat Return Some (n - 48)%nat ;;
  If (97 <=? n)%nat && (n <=? 102)%nat Return Some (n - 87)%nat ;;
  If (65 <=? n)%nat && (n <=? 70)%nat Return Some (n - 55)%nat ;;
  None.

Definition u_escape (n : nat) : string :=
  String backslash (String "u" (String "0" (String "0" (String (hexd (n / 16)) (String (hexd (n mod 16)) ""))))).

(** One ASCII byte of a JSON string. *)
Definition json_char (c : ascii) : string :=
  let n := nat_of_ascii c in
  If (n =? 34)%nat || (n =? 92)%nat Return String backslash (String c "") ;;
  If (n =? 8)%nat Return String backslash "b" ;;
  If (n =? 12)%nat Return String backslash "f" ;;
  If (n =? 10)%nat Return String backslash "n" ;;
  If (n =? 13)%nat Return String backslash "r" ;;
  If (n =? 9)%nat Return String backslash "t" ;;
  If (n <? 32)%nat || (n =? 60)%nat || (n =? 62)%nat || (n =? 38)%nat Return u_escape n ;;
  String c "".

(** U+2028 or U+2029 at the head. *)
Definition line_separator (s : string) : option string :=
  match s with
  | String a (String b (String c _)) =>
      If negb ((nat_of_ascii a =? 226)%nat && (nat_of_ascii b =? 128)%nat) Return None ;;
      If (nat_of_ascii c =? 168)%nat Return Some (String backslash "u2028") ;;
      If (nat_of_ascii c =? 169)%nat Return Some (String backslash "u2029") ;;
      None
  | _ => None
  end.

(** The body of a string; [skip] bytes of a rune are left, which are copied when
    [copy]. *)
Fixpoint json_bytes (copy : bool) (skip : nat) (s : string) : string :=
  match s with
  | EmptyString => ""
  | String c s' =>
      match skip with
      | S k => (if copy then String c "" else "") +:+ json_bytes copy k s'
      | O =>
          If (nat_of_ascii c <? 128)%nat Return json_char c +:+ json_bytes true 0 s' ;;
          match rune_len s with
          | O => String backslash "ufffd" +:+ json_bytes true 0 s'
          | S k =>
              match line_separator s with
              | Some e => e +:+ json_bytes false k s'
              | None => String c "" +:+ json_bytes true k s'
              end
          end
      end
  end.
Definition json_body : string -> string := json_bytes true 0.
Definition json_string (s : string) : string := String dq (json_body s +:+ String dq "").

Definition json_member (p : string * string) : string := json_string p.1 +:+ ":" +:+ json_string p.2.

(** [json.Marshal] of a map, as the list of its entries in key order. *)
Definition json_object (l : list (string * string)) : string :=
  "{" +:+ String.concat "," (List.map json_member l) +:+ "}".

(** The entries of a Go map in the key order of [json.Marshal]. *)
Fixpoint insert_entry (p : string * string) (l : list (string * string)) : list (string * string) :=
  match l with
  | [] => [p]
  | q :: l' => if String.leb p.1 q.1 then p :: l else q :: insert_entry p l'
  end.
Definition sorted_entries (m : gmap string string) : list (string * string) :=
  fold_right insert_entry [] (map_to_list m).
Definition json_Marshal (m : gmap string string) : string := json_object (sorted_entries m).

(** ** Unmarshal *)

Fixpoint skip_ws (s : string) : string :=
  match s with
  | String c s' => if char_in c (bytes [32; 9; 10; 13]) then skip_ws s' else s
  | EmptyString => ""
  end.

Definition hex4 (a b c d : ascii) : option N :=
  match unhexd a, unhexd b, unhexd c, unhexd d with
  | Some a, Some b, Some c, Some d =>
      Some (((N.of_nat a * 16 + N.of_nat b) * 16 + N.of_nat c) * 16 + N.of_nat d)%N
  | _, _, _, _ => None
  end.
Definition high_surrogate (r : N) : bool := (55296 <=? r)%N && (r <? 56320)%N.
Definition low_surrogate (r : N) : bool := (56320 <=? r)%N && (r <? 57344)%N.

(** The byte that a single-letter escape stands for. *)
Definition unescape (e : ascii) : option ascii :=
  If char_in e (String dq (String backslash "/")) Return Some e ;;
  match e with
  | "b" => Some (ascii_of_nat 8)
  | "f" => Some (ascii_of_nat 12)
  | "n" => Some (ascii_of_nat 10)
  | "r" => Some (ascii_of_nat 13)
  | "t" => Some (ascii_of_nat 9)
  | _ => None
  end%char.

Definition app_fst (p : string) (r : option (string * string)) : option (string * string) :=
  match r with Some (s, t) => Some (p +:+ s, t) | None => None end.

(** A string literal after its opening quote: its value and the rest. *)
Fixpoint lit (s : string) : option (string * string) :=
  match s with
  | EmptyString => None
  | String c s1 =>
      If ascii_eqb c dq Return Some ("", s1) ;;
      If ascii_eqb c backslash Return
        match s1 with
        | EmptyString => None
        | String e s2 =>
            If negb (ascii_eqb e "u") Return
              match unescape e with Some b => app_fst (String b "") (lit s2) | None => None end ;;
            match s2 with
            | String h1 (String h2 (String h3 (String h4 s3))) =>
                match hex4 h1 h2 h3 h4 with
                | None => None
                | Some r =>
                    If negb (high_surrogate r || low_surrogate r) Return app_fst (utf8_encode r) (lit s3) ;;
                    match s3 with
                    | String b (String u (String l1 (String l2 (String l3 (String l4 s4))))) =>
                        match hex4 l1 l2 l3 l4 with
                        | Some r' =>
                            If high_surrogate r && ascii_eqb b backslash && ascii_eqb u "u" && low_surrogate r' Return
                              app_fst (utf8_encode ((r - 55296) * 1024 + (r' - 56320) + 65536)%N) (lit s4) ;;
                            app_fst RuneError (lit s3)
                        | None => app_fst RuneError (lit s3)
                        end
                    | _ => app_fst RuneError (lit s3)
                    end
                end
            | _ => None
            end
        end ;;
      If (nat_of_ascii c <? 32)%nat Return None ;;
      match rune_len s, s1 with
      | 1, _ => app_fst (String c "") (lit s1)
      | 2, String c1 s2 => app_fst (String c (String c1 "")) (lit s2)
      | 3, String c1 (String c2 s3) => app_fst (String c (String c1 (String c2 ""))) (lit s3)
      | 4, String c1 (String c2 (String c3 s4)) =>
          app_fst (String c (String c1 (String c2 (String c3 "")))) (lit s4)
      | _, _ => app_fst RuneError (lit s1)
      end%nat
  end.

(** The value of a member: a string, or null for the zero value. *)
Definition member_value (s : string) : option (string * string) :=
  match s with
  | String c s1 =>
      If ascii_eqb c dq Return lit s1 ;;
      If HasPrefix s "null" Return Some ("", sdrop 4 s) ;;
      None
  | EmptyString => None
  end.

Definition expect (c : ascii) (s : string) : option string :=
  match s with
  | String d s' => If ascii_eqb c d Return Some s' ;; None
  | EmptyString => None
  end.

(** The members of an object after its brace or a comma. *)
Fixpoint members (fuel : nat) (s : string) (m : gmap string string) : option (gmap string string) :=
  match fuel with
  | O => None
  | S fuel =>
      s ← expect dq (skip_ws s);
      '(k, s) ← lit s;
      s ← expect ":" (skip_ws s);
      '(v, s) ← member_value (skip_ws s);
      match skip_ws s with
      | String "," s => members fuel s (<[k := v]> m)
      | String "}" s => If empty (skip_ws s) Return Some (<[k := v]> m) ;; None
      | _ => None
      end
  end.

(** [json.Unmarshal] into a [map[string]string] that is empty: [None] is an
    error, [Some None] the nil map of a null document. *)
Definition json_Unmarshal (s : string) : option (option (gmap string string)) :=
  let s := skip_ws s in
  If HasPrefix s "null" && empty (skip_ws (sdrop 4 s)) Return Some None ;;
  s ← expect "{" s;
  match expect "}" (skip_ws s) with
  | Some rest => If empty (skip_ws rest) Return Some (Some ∅) ;; None
  | None => Some <$> members (String.length s) s ∅
  end.

(** * The round trip *)

(** A rune of several bytes at the head of a valid text. *)
Lemma valid_rune c s :
  (128 <= nat_of_ascii c)%nat -> valid_utf8 (String c s) = true ->
  (exists c1 t, s = String c1 t /\ (nat_of_ascii c < 224)%nat /\ valid_utf8 t = true /\
     forall x, rune_len (String c (String c1 x)) = 2%nat) \/
  (exists c1 c2 t, s = String c1 (String c2 t) /\ valid_utf8 t = true /\
     forall x, rune_len (String c (String c1 (String c2 x))) = 3%nat) \/
  (exists c1 c2 c3 t, s = String c1 (String c2 (String c3 t)) /\ (240 <= nat_of_ascii c)%nat /\ valid_utf8 t = true /\
     forall x, rune_len (String c (String c1 (String c2 (String c3 x)))) = 4%nat).
Proof.
  intros Hn. cbn [valid_utf8]. unfold rune_len.
  destruct (Nat.ltb_spec (nat_of_ascii c) 128); [lia|].
  destruct (Nat.ltb_spec (nat_of_ascii c) 194); [done|]. destruct s as [|c1 s]; [done|].
  destruct (Nat.ltb_spec (nat_of_ascii c) 224).
  { intros [Hc Hv]%andb_true_iff. left. exists c1, s. by rewrite Hc. }
  destruct s as [|c2 s]; [done|]. destruct (Nat.ltb_spec (nat_of_ascii c) 240).
  { intros [Hc Hv]%andb_true_iff. right; left. exists c1, c2, s. by rewrite Hc. }
  destruct s as [|c3 s]; [done|]. intros [Hc Hv]%andb_true_iff. right; right. exists c1, c2, c3, s. by rewrite Hc.
Qed.

Lemma line_separator_some s e :
  line_separator s = Some e ->
  exists t, (s = bytes [226; 128; 168] +:+ t /\ e = String backslash "u2028") \/
            (s = bytes [226; 128; 169] +:+ t /\ e = String backslash "u2029").
Proof.
  destruct s as [|a [|b [|c t]]]; try done. unfold line_separator.
  assert (Hc : forall c n, nat_of_ascii c = n -> c = ascii_of_nat n) by (intros c' n <-; by rewrite ascii_nat_embedding).
  destruct (Nat.eqb_spec (nat_of_ascii a) 226) as [Ha|]; [|done].
  destruct (Nat.eqb_spec (nat_of_ascii b) 128) as [Hb|]; [|done]. cbn [andb negb]. intros H. exists t.
  rewrite (Hc a _ Ha), (Hc b _ Hb).
  destruct (Nat.eqb_spec (nat_of_ascii c) 168) as [Hn|_].
  { left. rewrite (Hc c _ Hn). by injection H as <-. }
  destruct (Nat.eqb_spec (nat_of_ascii c) 169) as [Hn|_]; [|done].
  right. rewrite (Hc c _ Hn). by injection H as <-.
Qed.

Lemma lit_char c x : (nat_of_ascii c < 128)%nat -> lit (json_char c +:+ x) = app_fst (String c "") (lit x).
Proof.
  intros Hc. destruct c as [[] [] [] [] [] [] [] []]; try reflexivity; exfalso; vm_compute in Hc; lia.
Qed.

(** A byte above ASCII is not special in a literal. *)
Lemma lit_high c x :
  (128 <= nat_of_ascii c)%nat ->
  lit (String c x) =
    match rune_len (String c x), x with
    | 1, _ => app_fst (String c "") (lit x)
    | 2, String c1 s2 => app_fst (String c (String c1 "")) (lit s2)
    | 3, String c1 (String c2 s3) => app_fst (String c (String c1 (String c2 ""))) (lit s3)
    | 4, String c1 (String c2 (String c3 s4)) =>
        app_fst (String c (String c1 (String c2 (String c3 "")))) (lit s4)
    | _, _ => app_fst RuneError (lit x)
    end%nat.
Proof.
  intros Hc. cbn [lit]. unfold ascii_eqb.
  destruct (Ascii.eqb_spec c dq) as [->|_]; [vm_compute in Hc; lia|].
  destruct (Ascii.eqb_spec c backslash) as [->|_]; [vm_compute in Hc; lia|].
  destruct (Nat.ltb_spec (nat_of_ascii c) 32); [lia|]. done.
Qed.

Lemma json_bytes_char c s :
  (nat_of_ascii c < 128)%nat -> json_body (String c s) = json_char c +:+ json_body s.
Proof. intros Hc. unfold json_body. cbn [json_bytes]. by destruct (Nat.ltb_spec (nat_of_ascii c) 128); [|lia]. Qed.

Lemma json_bytes_rune c s k :
  (128 <= nat_of_ascii c)%nat -> rune_len (String c s) = S k ->
  json_body (String c s) = match line_separator (String c s) with
                           | Some e => e +:+ json_bytes false k s
                           | None => String c (json_bytes true k s)
                           end.
Proof.
  intros Hc Hr. unfold json_body. cbn [json_bytes]. destruct (Nat.ltb_spec (nat_of_ascii c) 128); [lia|]. by rewrite Hr.
Qed.

Lemma json_bytes_skip copy s : json_bytes copy 0 s = json_body s.
Proof. by destruct s. Qed.

(** The two line separators, which are written as escapes. *)
Lemma lit_separator (b : nat) t x :
  b = 168%nat \/ b = 169%nat ->
  let s := bytes [226; 128; b] +:+ t in
  lit (json_body s +:+ x) = app_fst (bytes [226; 128; b]) (lit (json_body t +:+ x)) /\
  valid_utf8 s = valid_utf8 t.
Proof.
  intros [-> | ->]; (split; [|reflexivity]);
    rewrite <- (json_bytes_skip false t); reflexivity.
Qed.

Lemma app_fst_some p s t : app_fst p (Some (s, t)) = Some (p +:+ s, t).
Proof. done. Qed.

(** Reading back a string literal. *)
Lemma lit_json_body s x : valid_utf8 s = true -> lit (json_body s +:+ String dq x) = Some (s, x).
Proof.
  remember (String.length s) as n eqn:Hn. revert s Hn. induction n as [n IH] using lt_wf_ind. intros s -> Hv.
  destruct s as [|c s]; [done|].
  destruct (Nat.lt_ge_cases (nat_of_ascii c) 128) as [Hc|Hc].
  - rewrite json_bytes_char, <- sapp_assoc, lit_char by done. rewrite (IH (String.length s)); [done|simpl; lia|done|].
    cbn [valid_utf8] in Hv. by destruct (Nat.ltb_spec (nat_of_ascii c) 128); [|lia].
  - destruct (line_separator (String c s)) as [e|] eqn:El.
    + destruct (line_separator_some _ e El) as [t Ht].
      assert (exists b, (b = 168 \/ b = 169)%nat /\ String c s = bytes [226; 128; b] +:+ t) as (b & Hb & E)
        by (destruct Ht as [[-> _]|[-> _]]; eauto).
      rewrite E in *. destruct (lit_separator b t (String dq x) Hb) as [-> Hv']. rewrite Hv' in Hv.
      rewrite (IH (String.length t)); [done| |done|done]. rewrite slength_app. cbn. lia.
    + destruct (valid_rune c s Hc Hv) as
        [(c1 & t & -> & _ & Ht & Hr)|[(c1 & c2 & t & -> & Ht & Hr)|(c1 & c2 & c3 & t & -> & _ & Ht & Hr)]];
        (erewrite json_bytes_rune by eauto); rewrite El; cbn [json_bytes];
        change (json_bytes true 0 t) with (json_body t); repeat rewrite ?sapp_cons, ?sapp_empty;
        rewrite lit_high, Hr by done;
        (rewrite (IH (String.length t)); [done|simpl; lia|done|done]).
Qed.

(** ** Objects *)

Definition valid_entry (p : string * string) : Prop := valid_utf8 p.1 = true /\ valid_utf8 p.2 = true.

Lemma json_string_eq s x : json_string s +:+ x = String dq (json_body s +:+ String dq x).
Proof. unfold json_string. rewrite sapp_cons, <- sapp_assoc. by rewrite sapp_cons, sapp_empty. Qed.

(** One member up to the separator after it. *)
Lemma members_member fuel p x m :
  valid_entry p ->
  members (S fuel) (json_member p +:+ x) m =
  match skip_ws x with
  | String "," s => members fuel s (<[p.1 := p.2]> m)
  | String "}" s => If empty (skip_ws s) Return Some (<[p.1 := p.2]> m) ;; None
  | _ => None
  end.
Proof.
  intros [H1 H2]. unfold json_member. rewrite <- !sapp_assoc, json_string_eq. cbn [members].
  change (skip_ws (String dq ?s)) with (String dq s). cbn [mbind option_bind expect].
  change (ascii_eqb dq dq) with true. cbn [mbind option_bind]. rewrite lit_json_body by done. cbn [mbind option_bind].
  rewrite sapp_cons, sapp_empty, json_string_eq.
  change (skip_ws (String ":" ?s)) with (String ":" s). cbn [expect].
  change (ascii_eqb ":" ":") with true. cbn [mbind option_bind].
  change (skip_ws (String dq ?s)) with (String dq s). cbn [member_value].
  change (ascii_eqb dq dq) with true. cbn iota. by rewrite lit_json_body.
Qed.

(** The members of an object, read back one after the other. *)
Lemma members_spec l : forall p fuel m,
  Forall valid_entry (p :: l) -> (length l < fuel)%nat ->
  members fuel (String.concat "," (List.map json_member (p :: l)) +:+ "}") m =
  Some (fold_left (fun m p => <[p.1 := p.2]> m) (p :: l) m).
Proof.
  induction l as [|q l IH]; intros p fuel m Hl Hf; (destruct fuel as [|fuel]; [cbn in Hf; lia|]);
    apply Forall_cons in Hl as [Hp Hl].
  - cbn [List.map String.concat]. by rewrite members_member.
  - change (String.concat "," (List.map json_member (p :: q :: l)))
      with (json_member p +:+ "," +:+ String.concat "," (List.map json_member (q :: l))).
    rewrite <- !sapp_assoc, members_member by done. rewrite sapp_cons, sapp_empty.
    change (skip_ws (String "," ?s)) with (String "," s). cbn iota. rewrite IH; [done|done|cbn in Hf; lia].
Qed.

Lemma insert_entry_perm p l : insert_entry p l ≡ₚ p :: l.
Proof.
  induction l as [|q l IH]; [done|]. cbn [insert_entry]. case_match; [done|]. rewrite IH. apply perm_swap.
Qed.
Lemma sorted_entries_perm m : sorted_entries m ≡ₚ map_to_list m.
Proof.
  unfold sorted_entries. induction (map_to_list m) as [|p l IH]; [done|]. cbn [fold_right].
  by rewrite insert_entry_perm, IH.
Qed.

Lemma fold_insert (l : list (string * string)) : forall m : gmap string string,
  NoDup l.*1 -> fold_left (fun m p => <[p.1 := p.2]> m) l m = list_to_map l ∪ m.
Proof.
  induction l as [|[k v] l IH]; intros m Hd; [by rewrite list_to_map_nil, (left_id_L ∅ (∪))|].
  apply NoDup_cons in Hd as [Hk Hd]. cbn [fold_left fst snd]. rewrite IH, list_to_map_cons by done.
  rewrite <- insert_union_l. symmetry. apply insert_union_r. by apply not_elem_of_list_to_map_1.
Qed.

Lemma members_length l : (length l <= String.length (String.concat "," (List.map json_member l)))%nat.
Proof.
  induction l as [|p l IH]; [done|]. destruct l as [|q l].
  { cbn [List.map String.concat length]. unfold json_member. rewrite slength_app. unfold json_string at 1.
    cbn [String.length]. lia. }
  change (String.concat "," (List.map json_member (p :: q :: l)))
    with (json_member p +:+ "," +:+ String.concat "," (List.map json_member (q :: l))).
  rewrite !slength_app. cbn [length] in *. cbn [String.length]. lia.
Qed.

(** Every object of valid texts with distinct keys is read back. *)
Lemma json_Unmarshal_object l :
  NoDup l.*1 -> Forall valid_entry l -> json_Unmarshal (json_object l) = Some (Some (list_to_map l)).
Proof.
  intros Hd Hv. unfold json_object, json_Unmarshal.
  assert (Hf : fold_left (fun m p => <[p.1 := p.2]> m) l ∅ = (list_to_map l : gmap string string)).
  { by rewrite fold_insert, (right_id_L ∅ (∪)). }
  rewrite sapp_cons, sapp_empty. change (skip_ws (String "{" ?s)) with (String "{" s).
  change (HasPrefix (String "{" ?s) "null") with false. cbn [andb expect].
  change (ascii_eqb "{" "{") with true. cbn [mbind option_bind].
  destruct l as [|p l]; [by rewrite <- Hf|].
  set (x := String.concat _ _ +:+ "}"). assert (Hx : expect "}" (skip_ws x) = None).
  { unfold x, json_member. cbn [List.map]. destruct l as [|q l]; reflexivity. }
  rewrite Hx. unfold x. rewrite members_spec; [by rewrite Hf|done|].
  rewrite slength_app. pose proof (members_length (p :: l)) as Hlen. cbn [Datatypes.length] in *. lia.
Qed.

(** Every map of valid texts is read back from its document. *)
Lemma json_Unmarshal_Marshal m :
  map_Forall (fun k v => valid_utf8 k = true /\ valid_utf8 v = true) m ->
  json_Unmarshal (json_Marshal m) = Some (Some m).
Proof.
  intros Hm. pose proof (sorted_entries_perm m) as Hp. unfold json_Marshal. rewrite json_Unmarshal_object.
  - do 2 f_equal. etrans; [|apply list_to_map_to_list].
    apply list_to_map_proper; [rewrite Hp; apply NoDup_fst_map_to_list|done].
  - rewrite Hp. apply NoDup_fst_map_to_list.
  - rewrite Hp. apply Forall_forall. intros [k v] H%elem_of_map_to_list. by apply (Hm k v).
Qed.
