(* ===== verification/Manager.v ===== *)
(** * The deploy manager: what its operations share

    [backend/internal/deployer]: the configuration, the errors and their
    user-safe texts ([manager.go], [post_deploy_blocking.go]), time budgets and
    deadlines ([deadline.go]), broadcasts and notifications ([broadcast.go]),
    hooks ([hook_watch.go]), ownership of an instance and the final write of an
    operation ([rollback_target.go]).

    Logging ([slog]), tracing spans and the concurrency semaphore are left out;
    the repositories are the GORM ones, so the optional interfaces
    ([CleanStartMarker], [InstanceStatusMarker], [DeploymentLogDeadlineExtender],
    [DeploymentLogOutputWriter]) are implemented. *)

From S2P Require Import Prelude Models Naming Store Hooks World Output.
Local Open Scope string_scope.

(** ** Configuration *)

Record NamespaceRoleBindingSpec := mkBinding {
  rb_ClusterRoleName : string;
  rb_ServiceAccountName : string;
  rb_ServiceAccountNamespace : string;
  rb_RoleBindingName : string
}.

(** A Helm executor: its timeout and whether it streams its output. *)
Record HelmExecutor := mkHelm { he_Timeout : Z; he_streaming : bool }.

(** The clients of a cluster; a Kubernetes client is [true], none is [false]. *)
Record ClusterResolver := mkResolver {
  ResolveClusterID : string -> res string;
  GetHelmExecutor : string -> res (option HelmExecutor);
  GetK8sClient : string -> res bool;
  GetRegistryConfig : string -> res (option RegistryConfig)
}.

(** The fields of the Go struct that the operations use; a nil dependency is
    [false] (or [None]).  [m_allowedSources] is [AllowedChartSources()]. *)
Record Manager := mkManager {
  m_txRunner : bool;
  m_hub : bool;
  m_notifier : bool;
  m_logRepo : bool;
  m_heartbeats : bool;
  m_quotaRepo : bool;
  m_registry : option ClusterResolver;
  m_hooks : option Dispatcher;
  m_replicaID : string;
  m_stabilizeTimeout : Z;
  m_allowedSources : list string;
  m_wildcardTLSSourceNS : string;
  m_wildcardTLSSourceSecret : string;
  m_wildcardTLSTargetSecret : string;
  m_namespaceRoleBindings : list NamespaceRoleBindingSpec
}.

Record ChartDeployInfo := mkChartInfo {
  ci_ChartConfig : ChartConfig;
  ci_ValuesYAML : string;
  ci_Branch : string
}.
Definition chartName (c : ChartDeployInfo) : string := cc_ChartName (ci_ChartConfig c).

(** [Duration.String] of the standard library, for the texts. *)
Definition pad_zeros (n : nat) (s : string) : string :=
  Nat.iter (n - String.length s) (fun s => "0" +:+ s) s.
Definition fmtFrac (v : Z) (prec : nat) : string :=
  let s := TrimRight (fun c => ascii_eqb c "0") (pad_zeros prec (itoa (v mod 10 ^ Z.of_nat prec))) in
  If empty s Return "" ;; "." +:+ s.
Definition Duration_String (d : Z) : string :=
  let u := Z.abs d in
  let sign := if (d <? 0)%Z then "-" else "" in
  If (u =? 0)%Z Return "0s" ;;
  If (u <? 1000)%Z Return sign +:+ itoa u +:+ "ns" ;;
  If (u <? Millisecond)%Z Return sign +:+ itoa (u / 1000) +:+ fmtFrac u 3 +:+ "µs" ;;
  If (u <? Second)%Z Return sign +:+ itoa (u / Millisecond) +:+ fmtFrac u 6 +:+ "ms" ;;
  let secs := (u / Second)%Z in
  let mins := (secs / 60)%Z in
  let hours := (mins / 60)%Z in
  sign +:+ (if (0 <? hours)%Z then itoa hours +:+ "h" else "")
       +:+ (if (0 <? mins)%Z then itoa (mins mod 60) +:+ "m" else "")
       +:+ itoa (secs mod 60) +:+ fmtFrac u 9 +:+ "s".

Example Duration_String_minutes : Duration_String (10 * Minute) = "10m0s".
Proof. reflexivity. Qed.
Example Duration_String_fraction : Duration_String (1500 * Millisecond) = "1.5s".
Proof. reflexivity. Qed.

Definition StaleAfter : Z := 2 * Minute.

(** ** Errors *)

Definition ErrDeployCancelled := ESent "ErrDeployCancelled" "deploy cancelled".
Definition ErrDeployInterrupted := ESent "ErrDeployInterrupted" "Interrupted by a server restart. Deploy again.".
Definition errStopInterrupted := ESent "errStopInterrupted" "Interrupted by a server restart. Stop again.".
Definition errPostDeployNotStarted := ESent "errPostDeployNotStarted"
  "The post-deploy steps did not run: the stack could not be read. Deploy again.".
Definition DeadlineExceeded := ESent "DeadlineExceeded" "context deadline exceeded".

Definition postDeployHookPrefix := "post-deploy hook".

Definition isPostDeployHookError (err : error) : bool :=
  match err with
  | None => false
  | Some e => HasPrefix (errText e) postDeployHookPrefix && bool_decide (is_Some (asFailed e))
  end.

Definition isTimeoutError (err : error) : bool :=
  match err with
  | None => false
  | Some e =>
      If errorsIs e "DeadlineExceeded" Return true ;;
      Contains (errText e) "timed out" || Contains (errText e) "deadline exceeded"
  end.

Definition withPodEvent (err : error) (event : string) : error :=
  match err with
  | None => None
  | Some e => If empty event Return Some e ;; Some (EPod e event)
  end.

(** [errors.As] for [*podEventError] and [*instanceTakenError]. *)
Definition asPod (e : goerr) : option (goerr * string) :=
  errorsAs (fun x => match x with EPod i ev => Some (i, ev) | _ => None end) e.
Definition asTaken (e : goerr) : option (string * bool) :=
  errorsAs (fun x => match x with ETaken s c => Some (s, c) | _ => None end) e.

(** [instanceTakenError.takenBy]. *)
Definition takenBy (status : string) (statusChanged : bool) : string :=
  If statusChanged Return "another operation changed the instance (status " +:+ status +:+ ")" ;;
  "another operation started".

(** The messages that [sanitizeDeployError] keeps as they are. *)
Definition user_safe (e : goerr) : bool :=
  HasPrefix (errText e) "all charts failed" || HasPrefix (errText e) "partial deploy" ||
  errorsIs e "ErrInvalidQuota" || errorsIs e "ErrDeployInterrupted" || errorsIs e "errPostDeployNotStarted" ||
  errorsIs e "ErrDeployCancelled" || errorsIs e "errStopInterrupted".

Definition operationPrefixes : list string :=
  ["pre-deploy hook"; "pre-rollback hook"; "post-deploy hook";
   "deploying chart "; "uninstalling chart "; "deleting namespace "; "creating temp directory";
   "scaling down "; "scaling up "; "waiting for MySQL"; "running PVC cleanup";
   "getting history for chart "; "rolling back chart "].

(** The generic text of an operation error: the text before the first colon of
    a known prefix. *)
Definition generic_error (msg : string) : string :=
  match List.find (HasPrefix msg) operationPrefixes with
  | Some prefix =>
      match Cut msg ":" with
      | Some (pre, _) =>
          If empty pre Return prefix +:+ "operation failed" ;; pre +:+ ": operation failed"
      | None => prefix +:+ "operation failed"
      end
  | None => "deployment operation failed"
  end.

(** The text without the pod event. *)
Definition sanitize_plain (err : goerr) : string :=
  let msg := errText err in
  If HasPrefix msg "pre-deploy hook" && bool_decide (is_Some (asFailed err)) Return
    UserMessage err EventPreDeploy "deployment" ;;
  If isPostDeployHookError (Some err) Return UserMessage err EventPostDeploy "deployment" ;;
  If user_safe err Return msg ;;
  generic_error msg.

(** The nesting depth of an error bounds the recursion into pod errors. *)
Fixpoint err_depth (e : goerr) : nat :=
  match e with
  | EWrap _ i _ | EDB _ i | EPod i _ | EHookFailed _ i => S (err_depth i)
  | EWrap2 a _ b => S (err_depth a + err_depth b)
  | _ => 0
  end.
Fixpoint sanitize_depth (n : nat) (err : goerr) : string :=
  match n, asPod err with
  | S n, Some (inner, event) => sanitize_depth n inner +:+ " (pod event: " +:+ event +:+ ")"
  | _, _ => sanitize_plain err
  end.
Definition sanitizeDeployError (err : goerr) : string := sanitize_depth (err_depth err) err.

(** ** Budgets and deadlines *)

Definition chartTimeoutMargin : Z := Minute.
Definition blockingPhaseMargin : Z := Minute.
Definition DeadlineMargin : Z := 5 * Minute.
Definition defaultHelmTimeout : Z := 5 * Minute.
Definition defaultUninstallTimeout : Z := 5 * Minute.
Definition uninstallWaitMargin : Z := 10 * Second.

Definition deployBudget (helmTimeout : Z) (charts : Z) : Z :=
  let charts := if (charts <? 1)%Z then 1%Z else charts in
  (charts * helmTimeout + chartTimeoutMargin)%Z.

Definition helmTimeoutOf (helm : option HelmExecutor) : Z :=
  match helm with None => defaultHelmTimeout | Some h => he_Timeout h end.

(** [uninstallWaitTimeout]: [deadline] is the context deadline. *)
Definition uninstallWaitTimeout (deadline : option time) (now : time) : Z :=
  match deadline with
  | None => defaultUninstallTimeout
  | Some dl =>
      let t := (dl - now - uninstallWaitMargin)%Z in
      If (defaultUninstallTimeout <? t)%Z Return defaultUninstallTimeout ;;
      If (t <? Second)%Z Return Second ;;
      t
  end.

Section manager.
Context (m : Manager).

Definition preSlotBudget (action : string) : Z :=
  If bool_decide (action = DeployActionDeploy) Return TotalTimeout (m_hooks m) EventPreDeploy ;;
  If bool_decide (action = DeployActionRollback) Return TotalTimeout (m_hooks m) EventPreRollback ;;
  0%Z.

Definition runBudget (action : string) (helmTimeout charts : Z) : Z :=
  If bool_decide (action = DeployActionDeploy) Return
    (let budget := (deployBudget helmTimeout charts + m_stabilizeTimeout m)%Z in
     If HasBlocking (m_hooks m) EventPostDeploy Return
       (budget + BlockingTimeout (m_hooks m) EventPostDeploy + blockingPhaseMargin)%Z ;;
     budget) ;;
  If bool_decide (action = DeployActionRollback) Return
    (deployBudget helmTimeout charts + m_stabilizeTimeout m)%Z ;;
  (helmTimeout + chartTimeoutMargin)%Z.

Definition operationDeadline (start : time) (action : string) (helm : option HelmExecutor) (charts : Z) : time :=
  (start + (preSlotBudget action + runBudget action (helmTimeoutOf helm) charts + DeadlineMargin))%Z.

(** ** Messages to clients *)

Definition in_progress (status : string) : bool :=
  bool_decide (status ∈ [StackStatusQueued; StackStatusDeploying; StackStatusStabilizing;
    StackStatusStopping; StackStatusCleaning]).

Definition mem_set_action (logID action : string) (x : Mem) : Mem :=
  mkMem (<[logID := action]> (logActions x)) (logTriggers x) (liveOut x).
Definition mem_del_action (logID : string) (x : Mem) : Mem :=
  mkMem (delete logID (logActions x)) (logTriggers x) (liveOut x).
Definition mem_set_trigger (logID : string) (t : Trigger) (x : Mem) : Mem :=
  mkMem (logActions x) (<[logID := t]> (logTriggers x)) (liveOut x).
Definition mem_del_trigger (logID : string) (x : Mem) : Mem :=
  mkMem (logActions x) (delete logID (logTriggers x)) (liveOut x).

(** A final status removes the action entry of the log. *)
Definition logAction (logID status : string) : M string :=
  let! x := getMem in
  run! when_ (negb (in_progress status)) (modMem (mem_del_action logID)) in
  ret (default "" (logActions x !! logID)).

Definition broadcastStatusWithError (instanceID status logID errorMessage : string) : M unit :=
  If negb (m_hub m) Return ret tt ;;
  let! action := logAction logID status in
  emit (EvStatus instanceID status logID errorMessage action).
Definition broadcastStatus (instanceID status logID : string) : M unit :=
  broadcastStatusWithError instanceID status logID "".

Definition broadcastLog (instanceID logID line : string) : M unit :=
  run! modMem (live_append logID line) in
  when_ (m_hub m) (emit (EvLine instanceID logID line)).

Definition broadcastInstanceDeleted (instanceID logID : string) : M unit :=
  when_ (m_hub m) (emit (EvInstanceDeleted instanceID logID)).

Definition triggerFor (logID : string) : M (option Trigger) :=
  If empty logID Return ret None ;;
  let! x := getMem in
  ret (logTriggers x !! logID).

Definition cleanupPolicyTrigger (logID : string) : M (option Trigger) :=
  let! t := triggerFor logID in
  ret match t with
      | Some t => If bool_decide (tr_Type t = TriggerCleanupPolicy) Return Some t ;; None
      | None => None
      end.

Definition rememberTrigger (ctxTrigger : option Trigger) (logID : string) : M unit :=
  let t := match ctxTrigger with
           | Some t => If empty (tr_Type t) Return mkTrigger TriggerUser "" "" ;; t
           | None => mkTrigger TriggerUser "" ""
           end in
  modMem (mem_set_trigger logID t).

Definition policyActionMessage (instanceName done : string) (policy : Trigger) : string :=
  If empty (tr_Name policy) Return
    "Stack " +:+ instanceName +:+ " has been " +:+ done +:+ " by a cleanup policy" ;;
  "Stack " +:+ instanceName +:+ " has been " +:+ done +:+ " by cleanup policy " +:+ quote (tr_Name policy).

Definition notifyInstance (instance : StackInstance) (notifType title message : string)
    (trigger : option Trigger) (siteURL : string) : M unit :=
  when_ (m_notifier m) (emit (EvNotify (si_ID instance) notifType title message trigger siteURL)).

(** ** Hooks *)

Definition HookInstanceRef (i : StackInstance) : InstanceRef :=
  mkRef (si_ID i) (si_Name i) (si_Namespace i) (si_OwnerID i) (si_StackDefinitionID i) (si_Branch i)
    (si_ClusterID i) (si_Status i) "" "" false.

(** The template fields that the lookup of the dispatcher adds. *)
Definition withTemplateOf (ref : InstanceRef) (t : string * string * bool) : InstanceRef :=
  mkRef (ir_ID ref) (ir_Name ref) (ir_Namespace ref) (ir_OwnerID ref) (ir_StackDefinitionID ref)
    (ir_Branch ref) (ir_ClusterID ref) (ir_Status ref) t.1.1 t.1.2 t.2.

(** [fireDeployHook]: one dispatch; the progress lines of the subscribers go
    to [onProgress] first. *)
Definition fireDeployHook (event : string) (instance : StackInstance) (logID : string)
    (opts : hookOpts) (onProgress : string -> M unit) : M (error * list string) :=
  match m_hooks m with
  | None => ret (None, [])
  | Some d =>
      let! st := step in
      run! emit (EvHook event instance logID opts) in
      run! forEach (e_lines st) onProgress in
      ret ((Fire d event (Some (withTemplateOf (HookInstanceRef instance) (e_template st))) (e_answer st)).2,
           e_lines st)
  end.

(** The charts of an envelope; a chart without a branch has [defaultBranch] and
    [versions] overrides the version per chart name. *)
Definition chartRefsFor (charts : list ChartDeployInfo) (defaultBranch : string) (versions : gmap string string)
    : list ChartRef :=
  List.map (fun c =>
    let cfg := ci_ChartConfig c in
    let branch := if empty (ci_Branch c) then defaultBranch else ci_Branch c in
    let v := default "" (versions !! chartName c) in
    mkChartRef (chartName c) (chartName c) (if empty v then cc_ChartVersion cfg else v) (cc_SourceRepoURL cfg)
      (cc_BuildPipelineID cfg) branch (SanitizeImageTag branch)) charts.

Definition no_progress : string -> M unit := fun _ => ret tt.

(** A hook whose error the caller drops. *)
Definition fireAndForget (event : string) (instance : StackInstance) (logID : string)
    (metadata : list (string * string)) : M unit :=
  run! fireDeployHook event instance logID (mkOpts [] metadata) no_progress in ret tt.

(** ** Ownership of an instance *)

Definition allLogActions : list string :=
  [DeployActionDeploy; DeployActionStop; DeployActionClean; DeployActionRollback].

(** The instance has a log that is newer than [logID]; a failed read counts as
    no. *)
Definition newerOperation (instanceID logID : string) : M bool :=
  If negb (m_logRepo m) Return ret false ;;
  let! r := ListLatestByActions instanceID allLogActions 1 in
  ret match r with
      | Ok (l :: _) => negb (bool_decide (dl_ID l = logID))
      | _ => false
      end.

Inductive ownership := ownershipOwned | ownershipLost | ownershipUnknown.

Definition instanceOwnership (instanceID logID : string) (okStatuses : list string)
    : M (ownership * res StackInstance) :=
  let! r := instance_FindByID instanceID in
  match r with
  | Err e => ret (ownershipUnknown, Err e)
  | Ok inst =>
      If negb (bool_decide (si_Status inst ∈ okStatuses)) Return ret (ownershipLost, Ok inst) ;;
      let! newer := newerOperation instanceID logID in
      ret (if newer then ownershipLost else ownershipOwned, Ok inst)
  end.

(** A read error counts as not owned. *)
Definition ownsInstance (instanceID logID : string) (okStatuses : list string) : M (bool * string) :=
  let! p := instanceOwnership instanceID logID okStatuses in
  ret match p with
      | (ownershipOwned, Ok inst) => (true, si_Status inst)
      | (ownershipLost, Ok inst) => (false, si_Status inst)
      | _ => (false, "unknown")
      end.

Definition ownsAfterPreHook (instanceID logID : string) : M (bool * string) :=
  ownsInstance instanceID logID [StackStatusDeploying].

(** A read error counts as owned. *)
Definition hookPhaseOwned (instanceID logID : string) (okStatuses : list string) : M (bool * string) :=
  let! r := instance_FindByID instanceID in
  match r with
  | Err _ => ret (true, "")
  | Ok inst =>
      If negb (bool_decide (si_Status inst ∈ okStatuses)) Return ret (false, si_Status inst) ;;
      let! newer := newerOperation instanceID logID in
      ret (negb newer, si_Status inst)
  end.

Definition installsOwned (instanceID logID : string) : M (bool * string) :=
  let! newer := newerOperation instanceID logID in
  If negb newer Return ret (true, "") ;;
  let! r := instance_FindByID instanceID in
  ret (false, match r with Ok inst => si_Status inst | Err _ => "unknown" end).

(** [watchOwnership]: [n] polls while a call runs, until one shows that the
    instance is lost (then the call is cancelled); the result is the status
    that this poll saw. *)
Fixpoint watch (n : nat) (owned : M (bool * string)) : M (option string) :=
  match n with
  | O => ret None
  | S n =>
      let! p := owned in
      If negb p.1 Return ret (Some p.2) ;;
      watch n owned
  end.

Record preHookResult := mkPreHook { ph_err : error; ph_lost : option string; ph_progress : string }.

(** [firePreHook] with the progress buffer of its callers: the lines go to the
    clients and into the buffer.  The polls of the watcher while the
    subscribers run come after their lines. *)
Definition firePreHook (event : string) (instance : StackInstance) (logID : string)
    (opts : hookOpts) : M preHookResult :=
  If bool_decide (m_hooks m = None) Return ret (mkPreHook None None "") ;;
  let! r := fireDeployHook event instance logID opts (broadcastLog (si_ID instance) logID) in
  let! st := step in
  let! lost := watch (e_polls st) (hookPhaseOwned (si_ID instance) logID [StackStatusDeploying]) in
  ret (mkPreHook r.1 lost (progress_of r.2)).

(** ** The final write *)

Definition dropLiveOutput (logID : string) : M unit := modMem (live_drop logID).

(** Writes the log alone; false when the stored log no longer runs. *)
Definition fallbackLogUpdate (deployLog : DeploymentLog) : M bool :=
  run! dropLiveOutput (dl_ID deployLog) in
  let! err := log_Update deployLog in
  ret match err with
      | Some e => negb (errorsIs e "ErrDeployLogNotRunning")
      | None => true
      end.

Definition wrap_err (pre : string) (err : error) : error :=
  match err with Some e => Some (EWrap pre e "") | None => None end.

Definition writeFinal (instance : option StackInstance) (deployLog : DeploymentLog) : M bool :=
  run! dropLiveOutput (dl_ID deployLog) in
  match instance with
  | None => fallbackLogUpdate deployLog
  | Some instance =>
      If m_txRunner m Return (
        let! err := RunInTx (
          let! err := log_Update deployLog in
          match err with
          | Some e => ret (Some (EWrap "updating deploy log: " e ""))
          | None =>
              let! err := instance_Update instance in
              ret (wrap_err "updating instance: " err)
          end) in
        match err with
        | None => ret true
        | Some e =>
            If errorsIs e "ErrDeployLogNotRunning" Return ret false ;;
            fallbackLogUpdate deployLog
        end) ;;
      let! ok := fallbackLogUpdate deployLog in
      If negb ok Return ret false ;;
      run! instance_Update instance in
      ret true
  end.

(** The start of an operation: the log and the instance, in one transaction
    when a runner is configured. *)
Definition createLogAndUpdate (instance : StackInstance) (deployLog : DeploymentLog) : M error :=
  let body :=
    let! err := log_Create deployLog in
    match err with
    | Some e => ret (Some (EWrap "creating deployment log: " e ""))
    | None =>
        let! err := instance_Update instance in
        ret (wrap_err "updating instance status: " err)
    end in
  if m_txRunner m then RunInTx body else body.

(** ** The concurrency slot

    The log when the operation may go on, with its later deadline; [None] when
    the leader ended the operation while it waited. *)
Definition extendDeadline (deployLog : DeploymentLog) (helm : option HelmExecutor) (charts : Z)
    : M (option DeploymentLog) :=
  let! now := clock in
  let d := (now + (runBudget (dl_Action deployLog) (helmTimeoutOf helm) charts + DeadlineMargin))%Z in
  let! err := ExtendDeadline (dl_ID deployLog) d in
  If isErr err "ErrDeployLogNotRunning" Return (
    run! modMem (mem_del_action (dl_ID deployLog)) in ret None) ;;
  If bool_decide (is_Some err) Return ret (Some deployLog) ;;
  ret (Some (match dl_DeadlineAt deployLog with
             | None => dl_set_DeadlineAt (Some d) deployLog
             | Some old => if (old <? d)%Z then dl_set_DeadlineAt (Some d) deployLog else deployLog
             end)).
End manager.

(** * What the shared parts do to the database

    Under the hypothesis that messages are allowed, the helpers above do nothing
    else; the final writes need the statements that they run. *)

Section owned.
Context (m : Manager) (Ev : event -> Prop).
Context (Hmsg : forall e, message e -> Ev e).

Ltac msg := solve [apply Hmsg; exact I].
Ltac go := own_steps msg.

Lemma own_broadcastStatusWithError i s l e : own Ev (broadcastStatusWithError m i s l e) (fun _ => True).
Proof. unfold broadcastStatusWithError, logAction. go. Qed.
Lemma own_broadcastStatus i s l : own Ev (broadcastStatus m i s l) (fun _ => True).
Proof. apply own_broadcastStatusWithError. Qed.
Lemma own_broadcastLog i l line : own Ev (broadcastLog m i l line) (fun _ => True).
Proof. unfold broadcastLog. go. Qed.
Lemma own_broadcastInstanceDeleted i l : own Ev (broadcastInstanceDeleted m i l) (fun _ => True).
Proof. unfold broadcastInstanceDeleted. go. Qed.
Lemma own_triggerFor l : own Ev (triggerFor l) (fun _ => True).
Proof. unfold triggerFor. go. Qed.
Lemma own_cleanupPolicyTrigger l : own Ev (cleanupPolicyTrigger l) (fun _ => True).
Proof. unfold cleanupPolicyTrigger, triggerFor. go. Qed.
Lemma own_rememberTrigger t l : own Ev (rememberTrigger t l) (fun _ => True).
Proof. unfold rememberTrigger. go. Qed.
Lemma own_notifyInstance i t a b tr u : own Ev (notifyInstance m i t a b tr u) (fun _ => True).
Proof. unfold notifyInstance. go. Qed.

Lemma own_fireDeployHook ev i l md f :
  (forall s, own Ev (f s) (fun _ => True)) -> own Ev (fireDeployHook m ev i l md f) (fun _ => True).
Proof.
  intros Hf. unfold fireDeployHook. destruct (m_hooks m); [|by apply own_ret].
  eapply own_bind; [apply own_step|]. intros st _. eapply own_bind; [apply own_emit; msg|]. intros _ _.
  eapply own_bind; [by apply own_forEach|]. intros _ _. by apply own_ret.
Qed.
Lemma own_fireAndForget ev i l md : own Ev (fireAndForget m ev i l md) (fun _ => True).
Proof.
  unfold fireAndForget. eapply own_bind; [apply own_fireDeployHook; intros; by apply own_ret|].
  intros. by apply own_ret.
Qed.

Lemma own_newerOperation i l : own Ev (newerOperation m i l) (fun _ => True).
Proof. unfold newerOperation. go. Qed.
Hint Resolve own_newerOperation : own.

(** The instance that an ownership check read is the one asked for; a check
    that answers "owned" saw one of the accepted statuses. *)
Lemma own_instanceOwnership i l oks :
  own Ev (instanceOwnership m i l oks)
    (fun p => (forall inst, p.2 = Ok inst -> si_ID inst = i) /\
              (p.1 = ownershipOwned -> exists inst, p.2 = Ok inst /\ si_Status inst ∈ oks)).
Proof.
  unfold instanceOwnership. eapply own_bind; [apply own_FindByID|]. intros [inst|e] H.
  - destruct (negb _) eqn:E; [apply own_ret; split; [done|done]|].
    eapply own_bind; [apply own_newerOperation|]. intros n _. apply own_ret. simpl. split; [done|].
    intros _. exists inst. split; [done|]. by apply negb_false_iff, bool_decide_eq_true in E.
  - by apply own_ret.
Qed.
Lemma own_ownsInstance i l oks : own Ev (ownsInstance m i l oks) (fun _ => True).
Proof. unfold ownsInstance. eapply own_bind; [apply own_instanceOwnership|]. intros. by apply own_ret. Qed.
Lemma own_hookPhaseOwned i l oks : own Ev (hookPhaseOwned m i l oks) (fun _ => True).
Proof. unfold hookPhaseOwned. go. Qed.
Lemma own_installsOwned i l : own Ev (installsOwned m i l) (fun _ => True).
Proof. unfold installsOwned. go. Qed.
Lemma own_watch n f : own Ev f (fun _ => True) -> own Ev (watch n f) (fun _ => True).
Proof.
  intros Hf. induction n as [|n IH]; [by apply own_ret|]. simpl. eapply own_bind; [exact Hf|].
  intros p _. case_match; [by apply own_ret|exact IH].
Qed.
Lemma own_firePreHook ev i l md : own Ev (firePreHook m ev i l md) (fun _ => True).
Proof.
  unfold firePreHook. case_match; [by apply own_ret|].
  eapply own_bind; [apply own_fireDeployHook, own_broadcastLog|]. intros r _.
  eapply own_bind; [apply own_step|]. intros st _.
  eapply own_bind; [apply own_watch, own_hookPhaseOwned|]. intros. by apply own_ret.
Qed.

Lemma own_fallbackLogUpdate l : may_write Ev (SaveRunningLog l) -> own Ev (fallbackLogUpdate l) (fun _ => True).
Proof.
  intros H. unfold fallbackLogUpdate, dropLiveOutput. eapply own_bind; [apply own_modMem|]. intros _ _.
  eapply own_bind; [by apply own_log_Update|]. intros. by apply own_ret.
Qed.

(** The statements of a final write. *)
Definition final_writes (instance : option StackInstance) (l : DeploymentLog) : Prop :=
  may_write Ev (SaveRunningLog l) /\
  match instance with
  | None => True
  | Some i => (forall now, may_write Ev (SaveInstance (si_set_UpdatedAt now i))) /\
              (forall e, may_write Ev (ClearExpiryWarning (si_ID i) e))
  end.

Lemma own_writeFinal i l : final_writes i l -> own Ev (writeFinal m i l) (fun _ => True).
Proof.
  intros [Hl Hi]. unfold writeFinal, dropLiveOutput. eapply own_bind; [apply own_modMem|]. intros _ _.
  destruct i as [i|]; [|by apply own_fallbackLogUpdate]. destruct Hi as [Hs Hc]. case_match.
  - eapply own_bind; [apply own_RunInTx; eapply own_bind; [by apply own_log_Update|]|].
    + intros [e|] _; [by apply own_ret|]. eapply own_bind; [by apply own_Update|].
      intros. by apply own_ret.
    + intros [e|] _; [|by apply own_ret]. case_match; [by apply own_ret|by apply own_fallbackLogUpdate].
  - eapply own_bind; [by apply own_fallbackLogUpdate|]. intros b _. case_match; [by apply own_ret|].
    eapply own_bind; [by apply own_Update|]. intros. by apply own_ret.
Qed.

Lemma own_createLogAndUpdate i l :
  may_write Ev (InsertLog l) -> (forall now, may_write Ev (SaveInstance (si_set_UpdatedAt now i))) ->
  (forall e, may_write Ev (ClearExpiryWarning (si_ID i) e)) ->
  own Ev (createLogAndUpdate m i l) (fun _ => True).
Proof.
  intros Hl Hs Hc. unfold createLogAndUpdate. set (body := bind _ _).
  assert (H : own Ev body (fun _ => True)).
  { eapply own_bind; [by apply own_log_Create|]. intros [e|] _; [by apply own_ret|].
    eapply own_bind; [by apply own_Update|]. intros. by apply own_ret. }
  case_match; [by apply own_RunInTx|done].
Qed.

(** Only the deadline of the log can change before the run. *)
Lemma own_extendDeadline l helm n :
  (forall d, may_write Ev (SetDeadline (dl_ID l) d)) ->
  own Ev (extendDeadline m l helm n) (fun r => forall l', r = Some l' -> exists d, l' = dl_set_DeadlineAt d l).
Proof.
  intros H. unfold extendDeadline. eapply own_bind; [apply own_clock|]. intros now _.
  eapply own_bind; [by apply own_ExtendDeadline|]. intros err _.
  assert (Hid : l = dl_set_DeadlineAt (dl_DeadlineAt l) l) by (by destruct l).
  case_match; [eapply own_bind; [apply own_modMem|]; intros; by apply own_ret|].
  case_match; apply own_ret; intros l' [= <-]; [eauto|].
  case_match; [case_match|]; eauto.
Qed.
End owned.

#[export] Hint Resolve own_broadcastStatusWithError own_broadcastStatus own_broadcastLog own_broadcastInstanceDeleted
  own_triggerFor own_cleanupPolicyTrigger own_rememberTrigger own_notifyInstance own_fireAndForget
  own_newerOperation own_instanceOwnership own_ownsInstance own_hookPhaseOwned own_installsOwned
  own_firePreHook : own.
