(* ===== verification/Ends.v ===== *)
(** * Every operation ends its log

    A running log of a live replica is never ended by anyone else (the recovery
    needs a stale heartbeat), so each operation must end its own.  [ends m]: after
    [m] in a world whose database statements do not fail, the log [lid] does not
    run.  The other processes may do anything but create the log anew. *)

From S2P Require Import Prelude Models Store Hooks World Output Manager.
Local Open Scope string_scope.

(** No database statement of this process fails. *)
Definition no_fault (w : World) : Prop := forall n, e_fault (w_env w n) = None.

(** The log is finished or missing. *)
Definition over (lid : string) (s : Store) : Prop :=
  forall l, st_logs s !! lid = Some l -> log_running l = false.

Definition fresh_ops (lid : string) (op : dbop) : Prop := ~ reuses_log lid op.

Definition fair (lid : string) (w : World) : Prop :=
  keyed (w_db w) /\ no_fault w /\ env_ok (fresh_ops lid) w.

Lemma exec_over dbnow op s lid : fresh_ops lid op -> over lid s -> over lid (exec dbnow op s).2.
Proof.
  unfold over. intros Hop Hs l. destruct (st_logs s !! lid) as [l0|] eqn:E.
  - destruct (exec_log_final dbnow op s lid l0 Hop (Hs _ eq_refl) (or_introl E)) as [-> | ->]; [|done].
    intros [= <-]. by apply Hs.
  - intros Hl. exfalso. revert Hl. unfold fresh_ops in Hop.
    exec_cases op; cbn [st_logs with_logs with_instances with_beats reuses_log] in *; try congruence.
    all: repeat case_match; cbn [snd st_logs with_logs with_instances with_beats] in *;
      rewrite ?lookup_insert_ne, ?E by done; try congruence.
    all: try (by rewrite (update_where_absent _ _ _ _ _ E)).
    rewrite map_lookup_filter_Some. intros [? _]. congruence.
Qed.

Lemma over_evolves Ev lid w w' :
  evolves Ev w w' -> (forall op, may_write Ev op -> fresh_ops lid op) -> env_ok (fresh_ops lid) w ->
  over lid (w_db w) -> over lid (w_db w').
Proof.
  intros He Hp Hq. apply (db_steps_inv (fun op => may_write Ev op \/ fresh_ops lid op)).
  - intros t op s Ho. apply exec_over. destruct Ho; auto.
  - by apply (ev_db _ _ _ He).
Qed.

Lemma fair_evolves Ev lid w w' : evolves Ev w w' -> fair lid w -> fair lid w'.
Proof.
  intros He (Hk & Hn & Ho). split; [by apply (ev_keyed _ _ _ He)|].
  unfold no_fault, env_ok in *. by rewrite (ev_env _ _ _ He).
Qed.

(** ** The judgement *)

Section ends.
Context (lid : string).

Definition ends {A} (m : M A) : Prop := forall w, fair lid w -> over lid (w_db (m w).2).

(** The program keeps the log finished. *)
Definition keeps {A} (m : M A) (Φ : A -> Prop) : Prop :=
  own (fun e => forall op rows, e = EvWrite op rows -> fresh_ops lid op) m Φ.

Lemma ends_then {A B} (m : M A) (k : A -> M B) Φ :
  keeps m Φ -> (forall a, Φ a -> ends (k a)) -> ends (bind m k).
Proof.
  intros Hm Hk w Hw. destruct (Hm w (proj1 Hw)) as [He Ha]. unfold bind. cbn.
  apply Hk; [exact Ha|]. by eapply fair_evolves.
Qed.

Lemma ends_first {A B} (m : M A) (k : A -> M B) Φ :
  ends m -> keeps m Φ -> (forall a, keeps (k a) (fun _ => True)) -> ends (bind m k).
Proof.
  intros Hm Hm' Hk w Hw. destruct (Hm' w (proj1 Hw)) as [He _]. specialize (Hm w Hw). unfold bind. cbn.
  assert (Hf : fair lid (m w).2) by (by eapply fair_evolves).
  destruct (Hk (m w).1 (m w).2 (proj1 Hf)) as [He' _].
  eapply over_evolves; [exact He'|intros op H; by apply only_writes in H|apply Hf|exact Hm].
Qed.

Lemma ends_if {A} (b : bool) (m1 m2 : M A) :
  (b = true -> ends m1) -> (b = false -> ends m2) -> ends (if b then m1 else m2).
Proof. destruct b; auto. Qed.
End ends.

(** ** Statements in a world without faults *)

Lemma bind_eq {A B} (m : M A) (k : A -> M B) w : bind m k w = k (m w).1 (m w).2.
Proof. done. Qed.

Lemma step_eq w : step w = (w_env w (w_tick w), (step w).2).
Proof. by unfold step. Qed.

(** The final write of a log leaves it finished, whatever it was; it reports an
    error only when the log did not run, and then it changed nothing. *)
Lemma db_save_final lid l w :
  fair lid w -> dl_ID l = lid -> log_running l = false ->
  over lid (w_db (db (SaveRunningLog l) w).2) /\
  exists n, (db (SaveRunningLog l) w).1 = Ok n /\
    (n = 0%Z -> over lid (w_db (step w).2) /\ w_db (db (SaveRunningLog l) w).2 = w_db (step w).2).
Proof.
  intros (Hk & Hn & Ho) Hid Hl. unfold db. rewrite step_eq. set (w1 := (step w).2).
  rewrite (Hn (w_tick w)). cbn [exec]. unfold on_logs, update_where. rewrite Hid.
  destruct (st_logs (w_db w1) !! lid) as [r|] eqn:E.
  - destruct (log_running r) eqn:Hr; cbn.
    + split.
      * intros x. cbn. rewrite lookup_insert_eq. by intros [= <-].
      * eexists. split; [done|]. case_decide; [congruence|done].
    + assert (Hov : over lid (w_db w1)) by (intros x Hx; congruence). split.
      * intros x. cbn. intros Hx. apply Hov. done.
      * eexists. split; [done|]. intros _. split; [done|]. by rewrite with_logs_id.
  - assert (Hov : over lid (w_db w1)) by (intros x Hx; congruence). split.
    + intros x. cbn. apply Hov.
    + eexists. split; [done|]. intros _. split; [done|]. cbn. by rewrite with_logs_id.
Qed.

Lemma query_ok {A} (f : time -> Store -> A) w :
  no_fault w -> query f w = (Ok (f (e_dbnow (w_env w (w_tick w))) (w_db (step w).2)), (step w).2).
Proof. intros Hn. unfold query. rewrite step_eq. by rewrite (Hn (w_tick w)). Qed.

Lemma keeps_step lid : keeps lid step (fun _ => True).
Proof. apply own_step. Qed.
Lemma over_step lid w : fair lid w -> over lid (w_db w) -> over lid (w_db (step w).2).
Proof.
  intros Hf. destruct (keeps_step lid w (proj1 Hf)) as [He _]. eapply over_evolves; [exact He| |apply Hf].
  intros op H; by apply only_writes in H.
Qed.
Lemma step_quiet w : w_quiet w = true -> w_db (step w).2 = w_db w.
Proof. intros H. unfold step. cbn. by rewrite H. Qed.

Lemma over_not_running lid s : over lid s -> log_is_running lid s = false.
Proof. intros H. unfold log_is_running. destruct (st_logs s !! lid) eqn:E; [by apply H|done]. Qed.

Lemma not_running_over lid s : log_is_running lid s = false -> over lid s.
Proof. unfold log_is_running. intros H l Hl. by rewrite Hl in H. Qed.

Lemma log_Update_final lid l w :
  fair lid w -> dl_ID l = lid -> log_running l = false ->
  over lid (w_db (log_Update l w).2) /\ ((log_Update l w).1 = None \/
   ((log_Update l w).1 = Some ErrDeployLogNotRunning /\ (w_quiet w = true -> over lid (w_db w)))).
Proof.
  intros Hf Hid Hl. destruct (db_save_final lid l w Hf Hid Hl) as (Ho & n & Hn & H0).
  assert (Hf' : fair lid (db (SaveRunningLog l) w).2).
  { eapply fair_evolves; [|exact Hf]. apply (evolves_db (fun _ => True)). done. }
  assert (Hn0 : (0 <= n)%Z).
  { revert Hn. clear -Hf. unfold db. rewrite step_eq, (proj1 (proj2 Hf)). cbn [exec]. unfold on_logs, update_where.
    repeat case_match; cbn; intros [= <-]; lia. }
  unfold log_Update, write_running, bind. destruct (db (SaveRunningLog l) w) as [r w2]. cbn [fst snd] in *.
  rewrite Hn. destruct (Z.ltb_spec 0 n) as [H|H]; [by auto|].
  rewrite query_ok by apply Hf'. cbn [fst snd]. rewrite Hid.
  assert (Ho' := over_step _ _ Hf' Ho). rewrite (over_not_running lid) by exact Ho'. cbn [fst snd ret].
  split; [exact Ho'|]. right. split; [done|]. intros Hq. destruct H0 as [H0 _]; [lia|].
  by rewrite (step_quiet _ Hq) in H0.
Qed.

(** An update of an instance succeeds. *)
Lemma db_save_instance_ok i w : no_fault w -> exists n, (db (SaveInstance i) w).1 = Ok n.
Proof.
  intros Hn. unfold db. rewrite step_eq, (Hn (w_tick w)). cbn [exec]. unfold on_instances.
  destruct (st_instances _ !! _); cbn; [|eauto]. destruct (update_where _ _ _ _). cbn. eauto.
Qed.
Lemma db_clear_warning_ok id e w : no_fault w -> exists n, (db (ClearExpiryWarning id e) w).1 = Ok n.
Proof.
  intros Hn. unfold db. rewrite step_eq, (Hn (w_tick w)). cbn [exec]. unfold on_instances.
  destruct (update_where _ _ _ _). cbn. eauto.
Qed.

Lemma no_fault_db op w : no_fault w -> no_fault (db op w).2.
Proof.
  intros Hn n. rewrite (ev_env _ _ _ (evolves_db (fun _ => True) w op (fun _ => I))). apply Hn.
Qed.
Lemma no_fault_step w : no_fault w -> no_fault (step w).2.
Proof. done. Qed.

(** A transaction without faults: the body runs in a quiet world, and its
    error, if any, rolls back. *)
Lemma transaction_ok {A} d (body : M (error * A)) w :
  no_fault w -> no_fault (body (set_quiet true (step w).2)).2 ->
  transaction_with d body w =
  ((body (set_quiet true (step w).2)).1,
   match (body (set_quiet true (step w).2)).1.1 with
   | Some _ => rollback (step w).2 (body (set_quiet true (step w).2)).2
   | None => set_quiet (w_quiet w) (step (body (set_quiet true (step w).2)).2).2
   end).
Proof.
  intros Hn Hb. unfold transaction_with. rewrite (step_eq w) at 1. rewrite (Hn (w_tick w)).
  destruct (body (set_quiet true (step w).2)) as [[[e|] x] w2]; cbn [fst snd] in *; [done|].
  rewrite step_eq, (Hb (w_tick w2)). done.
Qed.

Lemma instance_Update_ok i w : no_fault w -> (instance_Update i w).1 = None.
Proof.
  intros Hn. unfold instance_Update, clock, transaction, bind. cbn [fst snd ret]. rewrite step_eq. cbn [fst snd].
  set (w1 := (step w).2). assert (Hn1 : no_fault w1) by done. clearbody w1.
  set (i' := si_set_UpdatedAt _ i).
  set (w2 := set_quiet true (step w1).2). assert (Hn2 : no_fault w2) by done.
  rewrite transaction_ok; [|done|].
  - fold w2. cbn [fst snd].
    destruct (db_clear_warning_ok (si_ID i') (si_ExpiresAt i') w2 Hn2) as [n ->].
    destruct (db_save_instance_ok i' _ (no_fault_db (ClearExpiryWarning (si_ID i') (si_ExpiresAt i')) w2 Hn2)) as [n' ->].
    done.
  - fold w2. cbn [fst snd].
    destruct (db_clear_warning_ok (si_ID i') (si_ExpiresAt i') w2 Hn2) as [n ->]. cbn [fst snd].
    by apply no_fault_db, no_fault_db.
Qed.

(** ** The final write *)

(** A statement that creates no log keeps a finished log finished. *)
Ltac keep_op := intros; simplify_eq; unfold fresh_ops; cbn; tauto.

Section final.
Context (m : Manager) (lid : string).

Lemma keeps_log_Update l : keeps lid (log_Update l) (fun _ => True).
Proof. apply own_log_Update. keep_op. Qed.
Lemma keeps_instance_Update i : keeps lid (instance_Update i) (fun _ => True).
Proof. apply own_Update; keep_op. Qed.

Lemma ends_fallbackLogUpdate l :
  dl_ID l = lid -> log_running l = false -> ends lid (fallbackLogUpdate l).
Proof.
  intros Hid Hl. unfold fallbackLogUpdate, dropLiveOutput. eapply ends_then; [apply own_modMem|]. intros _ _.
  eapply ends_first; [|apply keeps_log_Update|intros; by apply own_ret].
  intros w Hw. by apply log_Update_final.
Qed.

(** The two writes of [writeFinal] in one transaction. *)
Definition final_tx (instance : StackInstance) (l : DeploymentLog) : M error :=
  RunInTx (
    let! err := log_Update l in
    match err with
    | Some e => ret (Some (EWrap "updating deploy log: " e ""))
    | None =>
        let! err := instance_Update instance in
        ret (wrap_err "updating instance: " err)
    end).

Lemma keeps_final_tx i l : keeps lid (final_tx i l) (fun _ => True).
Proof.
  apply own_RunInTx. eapply own_bind; [apply keeps_log_Update|]. intros [e|] _; [by apply own_ret|].
  eapply own_bind; [apply keeps_instance_Update|]. intros. by apply own_ret.
Qed.

Lemma fair_quiet w q : fair lid w -> fair lid (set_quiet q w).
Proof. by intros (? & ? & ?). Qed.

Lemma ends_final_tx i l : dl_ID l = lid -> log_running l = false -> ends lid (final_tx i l).
Proof.
  intros Hid Hl w Hw. unfold final_tx, RunInTx, transaction.
  set (body := bind (log_Update l) _). set (body' := bind body _).
  assert (Hs : fair lid (step w).2) by (eapply fair_evolves; [apply (evolves_step (fun _ => True))|done]).
  set (w1 := set_quiet true (step w).2). assert (Hf1 : fair lid w1) by (by apply fair_quiet).
  assert (Kb : keeps lid body' (fun _ => True)).
  { eapply (own_bind _ _ _ (fun _ => True)); [|intros; by apply own_ret].
    eapply own_bind; [apply keeps_log_Update|]. intros [e|] _; [by apply own_ret|].
    eapply own_bind; [apply keeps_instance_Update|]. intros. by apply own_ret. }
  destruct (Kb w1 (proj1 Hf1)) as [Eb _].
  assert (Hf2 : fair lid (body' w1).2) by (by eapply fair_evolves).
  assert (Hov : over lid (w_db (transaction_with tt body' w).2)).
  { rewrite transaction_ok; [|apply Hw|apply Hf2]. fold w1. cbn [snd].
    destruct (log_Update_final lid l w1 Hf1 Hid Hl) as [Ho [Hr|[Hr Hq]]].
    - assert (Hu : fair lid (log_Update l w1).2).
      { destruct (keeps_log_Update l w1 (proj1 Hf1)) as [E _]. by eapply fair_evolves. }
      assert (Ho2 : over lid (w_db (body' w1).2)).
      { unfold body', body, bind. rewrite Hr. cbn [fst snd ret].
        destruct (keeps_instance_Update i _ (proj1 Hu)) as [E _].
        eapply over_evolves; [exact E| |apply Hu|exact Ho]. intros op H; by apply only_writes in H. }
      assert (Hn : (body' w1).1.1 = None).
      { unfold body', body, bind. rewrite Hr. cbn [fst snd ret]. by rewrite instance_Update_ok by apply Hu. }
      rewrite Hn. cbn. by apply over_step.
    - assert (Hn : exists e, (body' w1).1.1 = Some e).
      { unfold body', body, bind. rewrite Hr. cbn [fst snd ret]. eauto. }
      destruct Hn as [e ->]. cbn. by apply Hq. }
  assert (Ht : fair lid (transaction_with tt body' w).2).
  { destruct (own_transaction_with _ tt body' _ Kb w (proj1 Hw)) as [E _]. by eapply fair_evolves. }
  unfold bind, ctxErr, ret. cbn [fst snd]. by apply over_step.
Qed.

Lemma ends_writeFinal i l : dl_ID l = lid -> log_running l = false -> ends lid (writeFinal m i l).
Proof.
  intros Hid Hl. unfold writeFinal, dropLiveOutput. eapply ends_then; [apply own_modMem|]. intros _ _.
  destruct i as [i|]; [|by apply ends_fallbackLogUpdate].
  apply ends_if; intros _.
  - fold (final_tx i l). intros w Hw. pose proof (ends_final_tx i l Hid Hl w Hw) as Ho.
    destruct (keeps_final_tx i l w (proj1 Hw)) as [E _]. assert (Hf : fair lid (final_tx i l w).2) by (by eapply fair_evolves).
    unfold bind. destruct (final_tx i l w) as [[e|] w']; cbn [fst snd] in *; [|done].
    destruct (errorsIs e _); [done|]. by apply ends_fallbackLogUpdate.
  - eapply ends_first; [by apply ends_fallbackLogUpdate| |].
    + apply own_fallbackLogUpdate. keep_op.
    + intros b. destruct (negb b); [by apply own_ret|]. eapply own_bind; [apply keeps_instance_Update|].
      intros. by apply own_ret.
Qed.
End final.

Lemma keeps_msg lid e : message e -> forall op rows, e = EvWrite op rows -> fresh_ops lid op.
Proof. by destruct e. Qed.
#[export] Hint Resolve keeps_msg : own.

(** The slot: when the leader ended the operation meanwhile, the log is over. *)
Lemma write_running_over lid name op w :
  fair lid w -> fresh_ops lid op -> isErr (write_running name lid op w).1 "ErrDeployLogNotRunning" = true ->
  over lid (w_db (write_running name lid op w).2).
Proof.
  intros Hf Hop. unfold write_running, bind.
  assert (Hf' : fair lid (db op w).2) by (eapply fair_evolves; [by apply (evolves_db (fun _ => True))|done]).
  assert (He : forall e, (db op w).1 = Err e -> errorsIs e "ErrDeployLogNotRunning" = true -> False).
  { intros e. unfold db. rewrite step_eq, (proj1 (proj2 Hf)). cbn [fst].
    destruct (exec _ _ _) as [r s] eqn:Ex. cbn. intros ->.
    destruct op; cbn in Ex; unfold on_instances, on_logs in Ex; repeat case_match; simplify_eq/=; done. }
  destruct (db op w) as [[n|e] w2]; cbn [fst snd] in *; [|intros H; exfalso; by eapply He].
  destruct (0 <? n)%Z; [done|]. rewrite query_ok by apply Hf'. cbn [fst snd ret].
  destruct (log_is_running lid _) eqn:E; [done|]. intros _. by apply not_running_over.
Qed.

Lemma extendDeadline_over m l helm n w :
  fair (dl_ID l) w -> (extendDeadline m l helm n w).1 = None ->
  over (dl_ID l) (w_db (extendDeadline m l helm n w).2).
Proof.
  intros Hf. unfold extendDeadline. rewrite bind_eq.
  assert (Hs : fair (dl_ID l) (clock w).2).
  { destruct (own_clock (fun _ => True) w (proj1 Hf)) as [E _]. by eapply fair_evolves. }
  set (now := (clock w).1). set (w1 := (clock w).2) in *. cbv zeta. rewrite bind_eq. unfold ExtendDeadline.
  set (op := SetDeadline _ _). pose proof (write_running_over (dl_ID l) "extend_deadline" op w1 Hs) as Ho.
  destruct (write_running "extend_deadline" (dl_ID l) op w1) as [err w2]. cbn [fst snd] in *.
  destruct (isErr err _).
  - intros _. apply Ho; [by intros []|done].
  - destruct (bool_decide (is_Some err)); cbn [fst snd ret]; [done|]. repeat case_match; done.
Qed.

(** ** While an invariant holds

    [Stable Inv bad]: every statement but the [bad] ones keeps [Inv].  An
    operation whose end needs the invariant ends its log in every world where it
    holds and the other processes make no bad statement. *)
Class Stable (Inv : Store -> Prop) (bad : dbop -> Prop) : Prop := {
  stable_exec : forall t op s, ~ bad op -> Inv s -> Inv (exec t op s).2
}.

Section ends_inv.
Context (lid : string) (Inv : Store -> Prop) (bad : dbop -> Prop).

Definition stays (w : World) : Prop := fair lid w /\ env_ok (fun op => ~ bad op) w /\ Inv (w_db w).
Definition ends_inv {A} (m : M A) : Prop := forall w, stays w -> over lid (w_db (m w).2).

(** A program that keeps the log finished and the invariant. *)
Definition keeps_inv {A} (m : M A) (Φ : A -> Prop) : Prop :=
  own (fun e => forall op rows, e = EvWrite op rows -> fresh_ops lid op /\ ~ bad op) m Φ.
End ends_inv.

Section ends_inv_rules.
Context {lid : string} {Inv : Store -> Prop} {bad : dbop -> Prop} `{!Stable Inv bad}.
Local Abbreviation stays := (stays lid Inv bad).
Local Abbreviation ends_inv := (ends_inv lid Inv bad).
Local Abbreviation keeps_inv := (keeps_inv lid bad).

Lemma stays_evolves w w' :
  evolves (fun e => forall op rows, e = EvWrite op rows -> fresh_ops lid op /\ ~ bad op) w w' -> stays w -> stays w'.
Proof.
  intros He (Hf & Ho & Hp). split_and!; [by eapply fair_evolves|unfold env_ok in *; by rewrite (ev_env _ _ _ He)|].
  eapply (db_steps_inv (fun op => ~ bad op)); [intros; by apply stable_exec| |exact Hp].
  eapply db_steps_mono; [|apply (ev_db _ _ _ He), Ho]. intros op [H|H]; [by apply only_writes in H as []|done].
Qed.

Lemma inv_then {A B} (m : M A) (k : A -> M B) Φ :
  keeps_inv m Φ -> (forall a, Φ a -> ends_inv (k a)) -> ends_inv (bind m k).
Proof.
  intros Hm Hk w Hw. destruct (Hm w (proj1 (proj1 Hw))) as [He Ha]. rewrite bind_eq.
  apply Hk; [exact Ha|]. by eapply stays_evolves.
Qed.
Lemma inv_first {A B} (m : M A) (k : A -> M B) Φ :
  ends_inv m -> keeps lid m Φ -> (forall a, keeps lid (k a) (fun _ => True)) -> ends_inv (bind m k).
Proof.
  intros Hm Hm' Hk w Hw. specialize (Hm w Hw). destruct (Hm' w (proj1 (proj1 Hw))) as [He _]. rewrite bind_eq.
  assert (Hf : fair lid (m w).2) by (by eapply fair_evolves; [|apply Hw]).
  eapply over_evolves; [apply (own_evolves _ _ _ _ (Hk (m w).1)), Hf|intros op H; by apply only_writes in H|apply Hf|exact Hm].
Qed.
Lemma inv_ends {A} (m : M A) : ends lid m -> ends_inv m.
Proof. intros H w Hw. apply H, Hw. Qed.

(** The wait for the slot: the operation goes on with a later deadline, or its
    log is over. *)
Lemma inv_extend {A} m (l : DeploymentLog) helm n (k : option DeploymentLog -> M A) :
  dl_ID l = lid -> (forall d, ~ bad (SetDeadline lid d)) -> keeps lid (k None) (fun _ => True) ->
  (forall d, ends_inv (k (Some (dl_set_DeadlineAt d l)))) ->
  ends_inv (bind (extendDeadline m l helm n) k).
Proof.
  intros Hid Hb Hn Hk w Hw. rewrite bind_eq.
  pose proof (extendDeadline_over m l helm n w) as Ho. rewrite Hid in Ho. specialize (Ho (proj1 Hw)).
  assert (Hx : keeps_inv (extendDeadline m l helm n)
    (fun r => forall l', r = Some l' -> exists d, l' = dl_set_DeadlineAt d l)).
  { apply own_extendDeadline. intros d ? ? ? [= <- _]. rewrite Hid. by split; [intros []|]. }
  destruct (Hx w (proj1 (proj1 Hw))) as [E Hl].
  assert (Hs : stays (extendDeadline m l helm n w).2) by (by eapply stays_evolves).
  destruct (extendDeadline m l helm n w) as [[l'|] w']; cbn [fst snd] in *.
  - destruct (Hl l' eq_refl) as [d ->]. by apply Hk.
  - eapply over_evolves; [apply (own_evolves _ _ _ _ Hn), Hs|intros op H; by apply only_writes in H|apply Hs|by apply Ho].
Qed.
End ends_inv_rules.
