(* ===== verification/Calm.v ===== *)
(** * Undisturbed runs

    [hoare s m Q]: started in the database [s], when no other process writes and
    no database statement fails, [m] returns [r] and leaves [s'] with [Q r s'].
    The functional results of the operations are stated this way; what happens
    under interference and faults is the subject of [own] and [ends]. *)

From S2P Require Import Prelude Models Store Hooks World Output Manager Ends.
Local Open Scope string_scope.

Definition calm (w : World) : Prop := no_fault w /\ forall n, e_others (w_env w n) = [].

Definition hoare (s : Store) {A} (m : M A) (Q : A -> Store -> Prop) : Prop :=
  forall w, calm w -> w_db w = s -> calm (m w).2 /\ Q (m w).1 (w_db (m w).2).

Lemma hoare_ret s {A} (a : A) (Q : A -> Store -> Prop) : Q a s -> hoare s (ret a) Q.
Proof. by intros H w Hw <-. Qed.

Lemma hoare_bind s {A B} (m : M A) (k : A -> M B) R Q :
  hoare s m R -> (forall a s', R a s' -> hoare s' (k a) Q) -> hoare s (bind m k) Q.
Proof.
  intros Hm Hk w Hw Hs. destruct (Hm w Hw Hs) as [Hw' Hr]. rewrite bind_eq. by apply (Hk _ _ Hr).
Qed.

Lemma hoare_post s {A} (m : M A) (R Q : A -> Store -> Prop) :
  hoare s m R -> (forall a s', R a s' -> Q a s') -> hoare s m Q.
Proof. intros Hm HQ w Hw Hs. destruct (Hm w Hw Hs). auto. Qed.

Lemma calm_step w : calm w -> calm (step w).2 /\ w_db (step w).2 = w_db w.
Proof. intros [Hn Ho]. split; [done|]. unfold step. cbn. rewrite Ho. by destruct (w_quiet w). Qed.

Lemma hoare_step s : hoare s step (fun _ s' => s' = s).
Proof. intros w Hw <-. by apply calm_step. Qed.
Lemma hoare_clock s : hoare s clock (fun _ s' => s' = s).
Proof. eapply hoare_bind; [apply hoare_step|]. intros ? ? ->. by apply hoare_ret. Qed.
Lemma hoare_ctxErr s : hoare s ctxErr (fun _ s' => s' = s).
Proof. eapply hoare_bind; [apply hoare_step|]. intros ? ? ->. by apply hoare_ret. Qed.

Lemma hoare_db s op : hoare s (db op) (fun r s' => exists t, exec t op s = (r, s')).
Proof.
  intros w Hw <-. destruct (calm_step w Hw) as [Hc Hd]. unfold db. rewrite step_eq.
  rewrite (proj1 Hw (w_tick w)), Hd. destruct (exec _ _ _) as [r s'] eqn:E. cbn. split; [done|]. by eexists.
Qed.

Lemma hoare_query s {A} (f : time -> Store -> A) :
  hoare s (query f) (fun r s' => s' = s /\ exists t, r = Ok (f t s)).
Proof.
  intros w Hw <-. destruct (calm_step w Hw) as [Hc Hd]. rewrite query_ok by apply Hw. cbn [fst snd].
  rewrite Hd. split; [done|]. split; [done|]. by eexists.
Qed.

(** A program whose footprint has no statement changes nothing. *)
Lemma hoare_own (Ev : event -> Prop) s {A} (m : M A) Φ :
  own Ev m Φ -> keyed s -> (forall op, ~ may_write Ev op) -> hoare s m (fun r s' => s' = s /\ Φ r).
Proof.
  intros Hm Hk Hn w Hw <-. destruct (Hm w Hk) as [He Hr]. split; [|split; [|done]].
  - unfold calm, no_fault in *. by rewrite (ev_env _ _ _ He).
  - assert (Hd := ev_db _ _ _ He (fun _ => False)).
    destruct Hd as [s0|s1 s2 s3 (t & op & [Hop|[]] & _) _]; [|done|by destruct (Hn op)].
    intros n. by rewrite (proj2 Hw n).
Qed.

(** ** Transactions *)

Lemma hoare_transaction_with s {A} d (body : M (error * A)) Q :
  hoare s body (fun r s' => Q r match r.1 with Some _ => s | None => s' end) ->
  hoare s (transaction_with d body) Q.
Proof.
  intros Hb w Hw <-. destruct (calm_step w Hw) as [Hc Hd].
  assert (Hq : calm (set_quiet true (step w).2)) by done.
  destruct (Hb _ Hq Hd) as [Hc2 HQ]. rewrite transaction_ok; [|apply Hw|apply Hc2]. cbn [fst snd].
  destruct (body _).1.1; cbn [rollback set_quiet w_db fst snd].
  - split; [split|by rewrite Hd].
    + intros n. apply (proj1 Hc2).
    + intros n. apply (proj2 Hc2).
  - destruct (calm_step _ Hc2) as [Hc3 Hd3]. split; [done|]. by rewrite Hd3.
Qed.

Lemma hoare_RunInTx s (body : M error) (Q : error -> Store -> Prop) :
  hoare s body (fun r s' => r = None /\ Q None s') -> hoare s (RunInTx body) Q.
Proof.
  intros Hb. unfold RunInTx, transaction. eapply hoare_bind; [eapply hoare_bind|].
  - apply (hoare_transaction_with _ _ _ (fun r s' => r.1 = None /\ Q None s')).
    eapply hoare_bind; [exact Hb|]. intros r s' [-> HQ]. by apply hoare_ret.
  - intros r s' HQ. apply (hoare_ret _ _ (fun r s' => r = None /\ Q None s')). exact HQ.
  - intros r s' [-> HQ]. eapply hoare_bind; [apply hoare_ctxErr|]. intros c s'' ->. by apply hoare_ret.
Qed.

(** ** Repository methods *)

Definition find_result (id : string) (s : Store) : res StackInstance :=
  match st_instances s !! id with Some i => Ok i | None => Err (EDB "find_by_id" ErrNotFound) end.

Lemma hoare_FindByID s id : hoare s (instance_FindByID id) (fun r s' => s' = s /\ r = find_result id s).
Proof.
  unfold instance_FindByID. eapply hoare_bind; [apply hoare_query|]. intros r s' [-> [t ->]].
  apply hoare_ret. split; [done|]. unfold find_result. by destruct (st_instances s !! id).
Qed.

(** A newer log of the instance. *)
Definition superseded (m : Manager) (iid lid : string) (s : Store) : bool :=
  m_logRepo m && match latest_by_actions iid allLogActions 1 s with
                 | l :: _ => negb (bool_decide (dl_ID l = lid))
                 | [] => false
                 end.

Lemma hoare_newerOperation m s iid lid :
  hoare s (newerOperation m iid lid) (fun r s' => s' = s /\ r = superseded m iid lid s).
Proof.
  unfold newerOperation, superseded, ListLatestByActions. destruct (m_logRepo m); [|by apply hoare_ret].
  cbn [negb]. eapply hoare_bind; [eapply hoare_bind; [apply hoare_query|]|].
  - intros r s' [-> [t ->]]. apply (hoare_ret _ _ (fun r s' => s' = s /\ r = Ok (latest_by_actions iid allLogActions 1 s))).
    done.
  - intros r s' [-> ->]. by apply hoare_ret.
Qed.

(** The operation of [lid] still has the instance. *)
Definition owned_in (m : Manager) (iid lid : string) (oks : list string) (s : Store) : bool :=
  match st_instances s !! iid with
  | Some i => bool_decide (si_Status i ∈ oks) && negb (superseded m iid lid s)
  | None => false
  end.

Lemma hoare_instanceOwnership m s iid lid oks :
  hoare s (instanceOwnership m iid lid oks) (fun r s' => s' = s /\ r.2 = find_result iid s /\
    r.1 = match st_instances s !! iid with
          | None => ownershipUnknown
          | Some _ => if owned_in m iid lid oks s then ownershipOwned else ownershipLost
          end).
Proof.
  unfold instanceOwnership, owned_in. eapply hoare_bind; [apply hoare_FindByID|].
  intros r s' [-> ->]. unfold find_result. destruct (st_instances s !! iid) as [i|]; [|by apply hoare_ret].
  case_bool_decide; cbn [negb andb]; [|by apply hoare_ret].
  eapply hoare_bind; [apply hoare_newerOperation|]. intros n s' [-> ->].
  apply hoare_ret. by destruct (superseded m iid lid s).
Qed.

Lemma hoare_ownsInstance m s iid lid oks :
  hoare s (ownsInstance m iid lid oks) (fun r s' => s' = s /\ r.1 = owned_in m iid lid oks s).
Proof.
  unfold ownsInstance. eapply hoare_bind; [apply hoare_instanceOwnership|]. intros [o r] s' (-> & H2 & H1). cbn in H1, H2. subst o r.
  apply hoare_ret. split; [done|]. unfold find_result, owned_in.
  destruct (st_instances s !! iid); [|done]. by destruct (_ && _).
Qed.

(** The final write of a running log. *)
Lemma hoare_log_Update s l l0 :
  st_logs s !! dl_ID l = Some l0 -> log_running l0 = true -> log_running l = false ->
  hoare s (log_Update l) (fun r s' => r = None /\ s' = with_logs (<[dl_ID l := l]> (st_logs s)) s).
Proof.
  intros Hl Hr Hf. unfold log_Update, write_running. eapply hoare_bind; [apply hoare_db|].
  intros r s' [t Ht]. cbn [exec] in Ht. unfold on_logs, update_where in Ht. rewrite Hl, Hr in Ht. cbn in Ht.
  case_decide; [congruence|]. injection Ht as <- <-. by apply hoare_ret.
Qed.

Lemma expiry_same e : expiry_changed e e = false.
Proof.
  unfold expiry_changed, expiryMatchTolerance, Second. destruct e as [e|]; [|done].
  apply orb_false_iff. split; apply Z.leb_gt; lia.
Qed.

(** The row that [Update] leaves when the expiry did not change. *)
Lemma hoare_instance_Update s i i0 :
  st_instances s !! si_ID i = Some i0 -> si_ExpiresAt i = si_ExpiresAt i0 ->
  hoare s (instance_Update i) (fun r s' => r = None /\ exists now,
    s' = with_instances (<[si_ID i := saved_row i0 (si_set_UpdatedAt now i)]> (st_instances s)) s).
Proof.
  intros Hi He. unfold instance_Update, transaction. eapply hoare_bind; [apply hoare_clock|]. intros now ? ->.
  set (i' := si_set_UpdatedAt now i).
  set (s1 := with_instances (<[si_ID i := saved_row i0 i']> (st_instances s)) s).
  assert (Htx : hoare s (let! r := db (ClearExpiryWarning (si_ID i') (si_ExpiresAt i')) in
     match r with
     | Err e => ret (Some e)
     | Ok _ => let! r := db (SaveInstance i') in ret match r with Err e => Some e | Ok _ => None end
     end) (fun r s' => r = None /\ s' = s1)).
  { eapply hoare_bind; [apply hoare_db|]. intros r s' [t Ht].
    assert (Hs : r = Ok 0%Z /\ s' = s).
    { cbn [exec] in Ht. unfold on_instances in Ht. erewrite update_where_none in Ht; [|exact Hi|].
      - cbn in Ht. rewrite with_instances_id in Ht. by injection Ht as <- <-.
      - cbn. by rewrite He, expiry_same, andb_false_r. }
    destruct Hs as [-> ->]. eapply hoare_bind; [apply hoare_db|]. intros r s' [t' Ht'].
    cbn [exec] in Ht'. cbn [si_ID] in Ht'. change (si_ID i') with (si_ID i) in Ht'. rewrite Hi in Ht'.
    unfold on_instances, update_where in Ht'. rewrite Hi in Ht'. cbn in Ht'. injection Ht' as <- <-.
    by apply hoare_ret. }
  eapply (hoare_bind _ _ _ (fun r s' => r = None /\ s' = s1)).
  - eapply hoare_bind.
    + apply (hoare_transaction_with _ _ _ (fun r s' => r.1 = None /\ s' = s1)).
      eapply hoare_bind; [exact Htx|]. intros r s' [-> ->]. by apply hoare_ret.
    + intros r s' [Hr ->]. by apply hoare_ret.
  - intros r s' [-> ->]. apply hoare_ret. split; [done|]. by exists now.
Qed.

(** ** The final write *)

Definition end_log (l : DeploymentLog) (s : Store) : Store :=
  with_logs (<[dl_ID l := l]> (st_logs s)) s.
Definition set_instance (i : StackInstance) (s : Store) : Store :=
  with_instances (<[si_ID i := i]> (st_instances s)) s.

(** [Update] keeps the warning and the delete mark of the stored row. *)
Lemma saved_row_same stored i :
  si_ExpiryWarnedAt i = si_ExpiryWarnedAt stored -> si_DeleteAfterClean i = si_DeleteAfterClean stored ->
  saved_row stored i = i.
Proof. destruct i. unfold saved_row. cbn. by intros <- <-. Qed.

Lemma hoare_modMem s f : hoare s (modMem f) (fun _ s' => s' = s).
Proof. by intros w Hw <-. Qed.

Section final.
Context (m : Manager) (s : Store) (l l0 : DeploymentLog).
Context (Hl : st_logs s !! dl_ID l = Some l0) (Hr : log_running l0 = true) (Hf : log_running l = false).

Lemma hoare_fallbackLogUpdate : hoare s (fallbackLogUpdate l) (fun r s' => r = true /\ s' = end_log l s).
Proof.
  unfold fallbackLogUpdate, dropLiveOutput. eapply hoare_bind; [apply hoare_modMem|]. intros ? ? ->.
  eapply hoare_bind; [by eapply hoare_log_Update|]. intros r s' [-> ->]. by apply hoare_ret.
Qed.

Lemma hoare_writeFinal_log : hoare s (writeFinal m None l) (fun r s' => r = true /\ s' = end_log l s).
Proof.
  unfold writeFinal, dropLiveOutput. eapply hoare_bind; [apply hoare_modMem|]. intros ? ? ->.
  apply hoare_fallbackLogUpdate.
Qed.

(** Both rows are written, with and without a transaction runner. *)
Lemma hoare_writeFinal i i0 :
  st_instances s !! si_ID i = Some i0 -> si_ID i0 = si_ID i -> si_ExpiresAt i = si_ExpiresAt i0 ->
  hoare s (writeFinal m (Some i) l)
    (fun r s' => r = true /\ exists now, s' = set_instance (saved_row i0 (si_set_UpdatedAt now i)) (end_log l s)).
Proof.
  intros Hi Hid He. unfold writeFinal, dropLiveOutput. eapply hoare_bind; [apply hoare_modMem|]. intros ? ? ->.
  assert (Hu : hoare (end_log l s) (instance_Update i)
    (fun r s' => r = None /\ exists now, s' = set_instance (saved_row i0 (si_set_UpdatedAt now i)) (end_log l s))).
  { eapply hoare_post; [by apply (hoare_instance_Update _ i i0)|]. intros r s' [-> [now ->]].
    split; [done|]. by exists now. }
  case_match.
  - eapply (hoare_bind _ _ _ (fun r s' => r = None /\
      exists now, s' = set_instance (saved_row i0 (si_set_UpdatedAt now i)) (end_log l s))).
    + eapply hoare_RunInTx, hoare_bind; [by eapply hoare_log_Update|]. intros r s' [-> ->].
      eapply hoare_bind; [exact Hu|]. intros r s' [-> Hs]. apply hoare_ret. by split.
    + intros r s' [-> Hs]. by apply hoare_ret.
  - eapply hoare_bind; [apply hoare_fallbackLogUpdate|]. intros r s' [-> ->]. cbn [negb].
    eapply hoare_bind; [exact Hu|]. intros r s' [-> Hs]. by apply hoare_ret.
Qed.
End final.

(** ** Messages after the final write *)

Lemma keyed_set_end i l s : keyed s -> keyed (set_instance i (end_log l s)).
Proof.
  intros [Kl Ki]. split; cbn; intros id x.
  - rewrite lookup_insert_Some. intros [[<- <-]|[_ H]]; [done|by apply Kl].
  - rewrite lookup_insert_Some. intros [[<- <-]|[_ H]]; [done|by apply Ki].
Qed.

(** The effect of a message-only program. *)
Lemma hoare_messages s (p : M unit) :
  own message p (fun _ => True) -> keyed s -> hoare s p (fun _ s' => s' = s).
Proof.
  intros Hp Hk. eapply hoare_post; [apply (hoare_own message); [exact Hp|done|intros op H; exact (H 0%Z)]|].
  by intros ? ? [-> _].
Qed.

Lemma keyed_end_log l s : keyed s -> keyed (end_log l s).
Proof.
  intros [Kl Ki]. split; cbn; intros id x; [|by apply Ki].
  rewrite lookup_insert_Some. intros [[<- <-]|[_ H]]; [done|by apply Kl].
Qed.

(** ** Worlds for the witnesses *)

(** A step at time [now] without interference or fault; no hook answers. *)
Definition calm_env (now : time) : EnvStep :=
  mkEnv [] now now false None None false "" None 0 [] (fun _ => Err (ENew "unreachable")) ("", "", false) []
    (mkNsStatus "healthy" []) None None.
Definition calm_world (s : Store) : World :=
  mkWorld s (fun n => calm_env (10000 + Z.of_nat n)) 0 false false (mkMem ∅ ∅ ∅) [].

Lemma calm_world_calm s : calm (calm_world s).
Proof. done. Qed.

Definition plain_manager : Manager :=
  mkManager true true true true true false None None "pod-a" (10 * Minute) ["oci://registry.example/charts"] "" "" "" [].

(** The instance [i1] in the middle of an operation of the log [l2]. *)
Definition busy_store (status action : string) : Store :=
  mkStore {["i1" := sample_instance "i1" status]}
    (<["l1" := sample_log "l1" DeployActionDeploy DeployLogSuccess]>
      {["l2" := dl_set_DeadlineAt (Some 9000%Z)
          (mkLog "l2" "i1" action DeployLogRunning "" "" "" "" "main" "" "alice" "pod-a" 3000 None None)]})
    {["pod-a" := 5000%Z]}.

Lemma busy_store_keyed status action : keyed (busy_store status action).
Proof.
  split; intros id x; cbn; rewrite ?lookup_insert_Some, ?lookup_singleton_Some; naive_solver.
Qed.
