(* ===== verification/Deploy.v ===== *)
(** * Deploy

    [deployer/manager.go] from [Deploy] to [finalizeDeployWith], with
    [post_deploy_blocking.go], [pending_release.go], [site_url.go] and the
    quota application.  [Deploy] writes the log and starts [executeDeploy];
    every path of [executeDeploy] ends in [finalizeDeployWith].

    A Helm or Kubernetes call is an environment step with an arbitrary answer.
    The pod event watch ([pod_events.go]) is such an answer too: the lines and
    the event text of one poll.  The polls of a watcher that runs during a call
    come after the answer of that call. *)

From S2P Require Import Prelude Models Quota Store Hooks World Output Json Manager Ends Calm.
Local Open Scope string_scope.

(** ** Calls *)

Definition helmCall (e : event) : M (string * error) :=
  let! st := step in run! emit e in ret (e_text st, e_err st).
Definition k8sCall (call arg : string) : M error :=
  let! st := step in run! emit (EvK8s call arg) in ret (e_err st).

Definition GetNamespaceStatus (namespace : string) : M (res NamespaceStatus) :=
  let! st := step in
  ret (match e_err st with Some e => Err e | None => Ok (e_namespace st) end).

Definition StatusHealthy := "healthy".

Definition chartHeader (name text : string) : string :=
  "=== Chart: " +:+ name +:+ " ===" +:+ nl +:+ text +:+ nl.

(** [chartVersionsJSON]; chart names are unique in a definition, a repeated name
    keeps the last version. *)
Definition chart_versions (charts : list ChartDeployInfo) : gmap string string :=
  fold_left (fun m c => if empty (cc_ChartVersion (ci_ChartConfig c)) then m
                        else <[chartName c := cc_ChartVersion (ci_ChartConfig c)]> m) charts ∅.
Definition chartVersionsJSON (charts : list ChartDeployInfo) : string :=
  let versions := chart_versions charts in
  If bool_decide (versions = ∅) Return "" ;;
  json_Marshal versions.

(** [url.Parse(s).Host] of a URL with an authority, "" otherwise. *)
Definition host_of (s : string) : string :=
  match Cut s "://" with
  | None => ""
  | Some (_, rest) =>
      let upto (sep : string) (x : string) := match Cut x sep with Some (a, _) => a | None => x end in
      let authority := upto "/" (upto "?" (upto "#" rest)) in
      match Cut authority "@" with Some (_, h) => h | None => authority end
  end.

(** [helmReleaseSecretName] and [recoverPendingRelease]: the message or the
    error. *)
Definition helmReleaseSecretName (releaseName : string) (revision : Z) : string :=
  "sh.helm.release.v1." +:+ releaseName +:+ ".v" +:+ itoa revision.
Definition pendingReleaseStatuses : list string := ["pending-install"; "pending-upgrade"; "pending-rollback"].

Definition recoverPendingRelease (releaseName namespace : string) : M (res string) :=
  let! st := step in
  match e_err st, last (e_revisions st) with
  | None, Some (revision, status) =>
      If negb (bool_decide (ToLower status ∈ pendingReleaseStatuses)) Return ret (Ok "") ;;
      let secret := helmReleaseSecretName releaseName revision in
      let! err := k8sCall "delete secret" (namespace +:+ "/" +:+ secret) in
      ret match err with
          | Some e =>
              If errorsIs e "NotFound" Return
                Ok ("Recovered release " +:+ quote releaseName +:+ ": revision " +:+ itoa revision +:+
                    " was stuck in " +:+ status +:+ "; removed that revision so the deploy can continue.") ;;
              Err (EWrap ("deleting stuck helm revision secret " +:+ namespace +:+ "/" +:+ secret +:+ ": ") e "")
          | None => Ok ("Recovered release " +:+ quote releaseName +:+ ": revision " +:+ itoa revision +:+
                    " was stuck in " +:+ status +:+ "; removed that revision so the deploy can continue.")
          end
  | _, _ => ret (Ok "")
  end.

Section deploy.
Context (m : Manager).

(** ** Site URL *)

Definition primaryURL (st : option NamespaceStatus) : string :=
  match st with
  | Some st => match ns_Ingresses st with
               | (host, url) :: _ => if empty host then "" else url
               | [] => ""
               end
  | None => ""
  end.

Definition siteURLFor (k8sClient : bool) (namespace : string) (last : option NamespaceStatus)
    (readinessRan : bool) : M string :=
  If negb (m_notifier m) || negb k8sClient || empty namespace Return ret "" ;;
  If readinessRan Return ret (primaryURL last) ;;
  let! r := GetNamespaceStatus namespace in
  ret (match r with Err _ => "" | Ok st => primaryURL (Some st) end).

(** ** Quotas *)

Section quotas.
Context `{QuantityOps} (reg : ClusterResolver).

(** The reads of the quota and of the override; a failed read counts as none. *)
Definition readQuota : M (option ResourceQuotaConfig * option InstanceQuotaOverride) :=
  let! st := step in
  let! st' := step in
  ret (match e_fault st with Some _ => None | None => e_quota st end,
       match e_fault st' with Some _ => None | None => e_override st' end).

Definition effectiveNamespaceQuota (instanceID : string) : M (res (string * ResourceQuotaConfig)) :=
  let! r := instance_FindByID instanceID in
  match r with
  | Err e => ret (Err (EWrap "finding instance: " e ""))
  | Ok instance =>
      match ResolveClusterID reg (si_ClusterID instance) with
      | Err e => ret (Err (EWrap "resolving cluster: " e ""))
      | Ok clusterID =>
          let! q := readQuota in
          ret (match effective_quota q.1 q.2 with Err e => Err e | Ok c => Ok (clusterID, c) end)
      end
  end.

Definition applyNamespaceQuotas (instanceID namespace : string) : M error :=
  let! r := effectiveNamespaceQuota instanceID in
  match r with
  | Err e => ret (Some e)
  | Ok (clusterID, quota) =>
      If IsEmpty quota Return ret None ;;
      match GetK8sClient reg clusterID with
      | Err e => ret (Some (EWrap "getting k8s client: " e ""))
      | Ok false => ret (errorsNew ("k8s client is nil for cluster " +:+ clusterID))
      | Ok true =>
          let! err := k8sCall "ensure resource quota" namespace in
          match err with
          | Some e => ret (Some (EWrap "ensuring resource quota: " e ""))
          | None =>
              let! err := k8sCall "ensure limit range" namespace in
              ret (wrap_err "ensuring limit range: " err)
          end
      end
  end.

Definition applyQuotasForDeploy (instanceID namespace : string) : M string :=
  let! err := applyNamespaceQuotas instanceID namespace in
  ret (match err with
       | Some e => "WARNING: failed to apply resource quotas: " +:+ errText e +:+ nl
       | None => ""
       end).
End quotas.

(** ** The final state *)

Definition msgFinalizeInstanceUnreadable :=
  "The deploy ended, but the stack could not be read. Check the stack status and deploy again.".

(** The metadata of the [deploy-finalized] hook. *)
Definition finalize_metadata (readinessWarning : string) (ignored : list IgnoredFailure) : list (string * string) :=
  (if empty readinessWarning then []
   else [("readiness", "timeout"); ("readiness_warning", readinessWarning)])%list ++
  (match ignored with [] => [] | _ => [("post_deploy_failed", String.concat "," (List.map if_Hook ignored))] end).

(** The log and the instance that a finished deploy writes. *)
Definition ended_log (output : string) (now : time) (l : DeploymentLog) : DeploymentLog :=
  l |> dl_set_Output (truncateString output maxOutputLen) |> dl_set_CompletedAt (Some now).

(** The log of a deploy whose instance another operation took. *)
Definition concurrent_log (deployErr : error) (partialDeploy : bool) (values : string) (l : DeploymentLog)
    : DeploymentLog :=
  let l := l |> dl_set_Status DeployLogSuccess |> dl_set_ValuesSnapshot values in
  match deployErr with
  | None => l
  | Some e => l |> dl_set_Status (if partialDeploy then DeployLogPartial else DeployLogError)
                |> dl_set_ErrorMessage (truncateString (sanitizeDeployError e) maxLogErrorLen)
  end.

Definition sanitize_opt (err : error) : string :=
  match err with Some e => sanitizeDeployError e | None => "" end.

(** [partialDeploy] is only set together with [deployErr]. *)
Definition finalized (now : time) (deployErr : error) (partialDeploy : bool) (values : string)
    (instance : StackInstance) (l : DeploymentLog) : StackInstance * DeploymentLog :=
  let instance := si_set_PostDeployHookUntil None instance in
  let text := sanitize_opt deployErr in
  If bool_decide (is_Some deployErr) && negb partialDeploy Return
    (instance |> si_set_Status StackStatusError |> si_set_ErrorMessage (truncateString text maxInstanceErrorLen),
     l |> dl_set_Status DeployLogError |> dl_set_ErrorMessage (truncateString text maxLogErrorLen)) ;;
  If partialDeploy Return
    (instance |> si_set_Status StackStatusPartial |> si_set_ErrorMessage (truncateString text maxInstanceErrorLen)
              |> si_set_LastDeployedAt (Some now) |> si_set_LastDeployedValues values,
     l |> dl_set_Status DeployLogPartial |> dl_set_ErrorMessage (truncateString text maxLogErrorLen)
       |> dl_set_ValuesSnapshot values) ;;
  (instance |> si_set_Status StackStatusRunning |> si_set_ErrorMessage ""
            |> si_set_LastDeployedAt (Some now) |> si_set_LastDeployedValues values,
   l |> dl_set_Status DeployLogSuccess |> dl_set_ValuesSnapshot values).

(** The hooks and notifications after the final write. *)
Definition announceDeploy (instance : StackInstance) (logID : string) (deployErr : error) (partialDeploy : bool)
    (readinessWarning : string) (ignored : list IgnoredFailure) (siteURL : string) : M unit :=
  run! broadcastStatusWithError m (si_ID instance) (si_Status instance) logID (si_ErrorMessage instance) in
  run! when_ (bool_decide (deployErr = None) || partialDeploy)
         (fireAndForget m EventPostDeploy instance logID []) in
  run! fireAndForget m EventDeployFinalized instance logID (finalize_metadata readinessWarning ignored) in
  let! trigger := triggerFor logID in
  run! forEach ignored (fun f =>
    notifyInstance m instance "deployment.warning" ("Post-deploy step " +:+ if_Hook f +:+ " failed")
      ("Deployment of " +:+ si_Name instance +:+ ": " +:+ IgnoredFailure_UserMessage f EventPostDeploy "deployment")
      trigger "") in
  If bool_decide (is_Some deployErr) && negb partialDeploy Return (
    If isTimeoutError deployErr && negb (isPostDeployHookError deployErr) && negb (isErr deployErr "ErrDeployInterrupted")
      Return (
        run! notifyInstance m instance "deploy.timeout" "Deployment timed out"
          ("Deployment of " +:+ si_Name instance +:+ " exceeded the timeout threshold") trigger "" in
        fireAndForget m EventDeployTimeout instance logID []) ;;
    notifyInstance m instance "deployment.error" "Deployment failed"
      ("Deployment of " +:+ si_Name instance +:+ " failed: " +:+ si_ErrorMessage instance) trigger "") ;;
  If partialDeploy Return
    notifyInstance m instance "deployment.partial" "Deployment partially succeeded"
      ("Deployment of " +:+ si_Name instance +:+ " partially succeeded: " +:+ si_ErrorMessage instance)
      trigger siteURL ;;
  notifyInstance m instance "deployment.success" "Deployment succeeded"
    ("Deployment of " +:+ si_Name instance +:+ " completed successfully") trigger siteURL.

Definition finalizeDeployWith (instanceID : string) (deployLog : DeploymentLog) (output : string)
    (deployErr : error) (partialDeploy : bool) (lastDeployedValues readinessWarning : string)
    (postDeployIgnored : list IgnoredFailure) (siteURL : string) : M unit :=
  let! now := clock in
  let! r := instance_FindByID instanceID in
  match r with
  | Err _ =>
      run! fallbackLogUpdate (ended_log output now deployLog
                              |> dl_set_Status DeployLogError
                              |> dl_set_ErrorMessage msgFinalizeInstanceUnreadable) in
      ret tt
  | Ok instance =>
      let deployLog := ended_log output now deployLog in
      let otherStatus := negb (bool_decide (si_Status instance = StackStatusDeploying)) &&
                         negb (bool_decide (si_Status instance = StackStatusStabilizing)) in
      let! newer := if otherStatus then ret true else newerOperation m instanceID (dl_ID deployLog) in
      If newer Return (
        run! modMem (mem_del_action (dl_ID deployLog)) in
        run! writeFinal m None (concurrent_log deployErr partialDeploy lastDeployedValues deployLog) in
        ret tt) ;;
      let '(instance, deployLog) := finalized now deployErr partialDeploy lastDeployedValues instance deployLog in
      let! ok := writeFinal m (Some instance) deployLog in
      If negb ok Return modMem (mem_del_action (dl_ID deployLog)) ;;
      announceDeploy instance (dl_ID deployLog) deployErr partialDeploy readinessWarning postDeployIgnored siteURL
  end.

Definition finalizeDeploy (instanceID : string) (deployLog : DeploymentLog) (output : string) (deployErr : error)
    (partialDeploy : bool) (lastDeployedValues readinessWarning : string) : M unit :=
  finalizeDeployWith instanceID deployLog output deployErr partialDeploy lastDeployedValues readinessWarning [] "".

(** ** Waiting for ready pods *)

Definition stabilizing_statuses : list string := [StackStatusDeploying; StackStatusStabilizing].

Definition markStabilizing (instanceID logID : string) : M error :=
  let! p := instanceOwnership m instanceID logID stabilizing_statuses in
  match p with
  | (_, Err e) => ret (Some (EWrap "find instance for stabilize: " e ""))
  | (ownershipLost, Ok inst) =>
      ret (Some (ETaken (si_Status inst) (negb (bool_decide (si_Status inst ∈ stabilizing_statuses)))))
  | (_, Ok inst) =>
      let! r := MarkStatus instanceID StackStatusStabilizing stabilizing_statuses in
      match r with
      | Err _ => ret None
      | Ok true => ret None
      | Ok false =>
          let! r := instance_FindByID instanceID in
          ret (Some (ETaken (match r with Ok cur => si_Status cur | Err _ => "unknown" end) true))
      end
  end.

Definition readinessAfterShutdown (instanceID namespace logID : string) (last : option NamespaceStatus)
    : M (option NamespaceStatus * error) :=
  let! r := GetNamespaceStatus namespace in
  match r with
  | Err _ => ret (last, Some ErrDeployInterrupted)
  | Ok st =>
      If bool_decide (ns_Status st = StatusHealthy) Return (
        run! broadcastLog m instanceID logID "All pods healthy" in ret (Some st, None)) ;;
      ret (Some st, Some ErrDeployInterrupted)
  end.

(** The loop of [awaitReadiness]: [n] ticks until the timeout or the shutdown. *)
Fixpoint readinessTicks (n : nat) (instanceID namespace logID : string) (last : option NamespaceStatus)
    : M (option NamespaceStatus * error) :=
  match n with
  | O =>
      let! down := isDown in
      If down Return readinessAfterShutdown instanceID namespace logID last ;;
      let text := "readiness timeout after " +:+ Duration_String (m_stabilizeTimeout m) in
      run! broadcastLog m instanceID logID ("WARNING: " +:+ text) in
      ret (last, errorsNew text)
  | S n =>
      let! p := hookPhaseOwned m instanceID logID [StackStatusStabilizing] in
      If negb p.1 Return (
        let changed := negb (bool_decide (p.2 = StackStatusStabilizing)) in
        run! broadcastLog m instanceID logID ("Stabilization aborted: " +:+ taken_cause p.2 changed) in
        ret (last, Some (ETaken p.2 changed))) ;;
      let! r := GetNamespaceStatus namespace in
      match r with
      | Err _ => readinessTicks n instanceID namespace logID last
      | Ok st =>
          If bool_decide (ns_Status st = StatusHealthy) Return (
            run! broadcastLog m instanceID logID "All pods healthy" in ret (Some st, None)) ;;
          readinessTicks n instanceID namespace logID (Some st)
      end
  end.

Definition awaitReadiness (instanceID namespace logID : string) : M (option NamespaceStatus * error) :=
  let! down := isDown in
  If down Return readinessAfterShutdown instanceID namespace logID None ;;
  let! err := markStabilizing instanceID logID in
  match err with
  | Some e =>
      run! match asTaken e with
           | Some (status, changed) =>
               broadcastLog m instanceID logID ("Stabilization aborted: " +:+ taken_cause status changed)
           | None => ret tt
           end in
      ret (None, Some e)
  | None =>
      run! broadcastStatus m instanceID StackStatusStabilizing logID in
      run! broadcastLog m instanceID logID "Helm charts installed, waiting for pods to become ready..." in
      let! st := step in
      readinessTicks (e_polls st) instanceID namespace logID None
  end.

(** ** Blocking post-deploy subscribers *)

Record blockingPostDeployResult := mkBlocking {
  bp_output : string;
  bp_err : error;
  bp_ignored : list IgnoredFailure;
  bp_cancelled : error
}.
Definition blocking_none : blockingPostDeployResult := mkBlocking "" None [] None.

Definition blockingNotStarted (instanceID logID : string) (err : goerr) : M blockingPostDeployResult :=
  let line := "ERROR: " +:+ errText err in
  run! broadcastLog m instanceID logID line in
  ret (mkBlocking (line +:+ nl) (Some err) [] None).

(** [blockingPhaseTarget]: the instance and the ref of the envelope when a
    subscriber applies. *)
Definition blockingPhaseTarget (instanceID logID : string)
    : M (ownership * option (StackInstance * InstanceRef)) :=
  let! p := instanceOwnership m instanceID logID stabilizing_statuses in
  match p with
  | (ownershipOwned, Ok inst) =>
      let! st := step in
      let ref := withTemplateOf (HookInstanceRef (si_set_Status StackStatusStabilizing inst)) (e_template st) in
      If negb (HasBlockingFor (m_hooks m) EventPostDeploy (Some ref)) Return ret (ownershipOwned, None) ;;
      ret (ownershipOwned, Some (inst, ref))
  | (o, _) => ret (o, None)
  end.

Definition markBlockingPhase (inst : StackInstance) (ref : InstanceRef) (logID : string) : M time :=
  let! now := clock in
  let until := (now + (BlockingTimeoutFor (m_hooks m) EventPostDeploy (Some ref) + blockingPhaseMargin))%Z in
  let inst := inst |> si_set_Status StackStatusStabilizing |> si_set_PostDeployHookUntil (Some until) in
  let! err := instance_Update inst in
  run! when_ (bool_decide (err = None)) (broadcastStatus m (si_ID inst) StackStatusStabilizing logID) in
  ret until.

Definition blockingPhaseOwned (instanceID logID : string) : M (bool * string) :=
  hookPhaseOwned m instanceID logID [StackStatusStabilizing; StackStatusDeploying].

(** The lines of the started subscribers, each after its start line. *)
Fixpoint blockingLines (instanceID logID : string) (started : list string) : M (list string) :=
  match started with
  | [] => ret []
  | h :: rest =>
      let! st := step in
      let lines := ("Running post-deploy step " +:+ quote h +:+ " ...") :: e_lines st in
      run! forEach lines (broadcastLog m instanceID logID) in
      let! more := blockingLines instanceID logID rest in
      ret (lines ++ more)%list
  end.

(** One call of the blocking subscribers while the watcher polls: the lines,
    the ignored failures, the error and, when another operation took the
    instance, its status. *)
Definition callBlocking (instanceID logID : string) (inst : StackInstance) (ref : InstanceRef)
    (opts : hookOpts) : M (list string * list IgnoredFailure * error * option string) :=
  let! st := step in
  run! emit (EvHook EventPostDeploy (si_set_Status StackStatusStabilizing inst) logID opts) in
  let '(started, ignored, err) := FireBlocking (m_hooks m) EventPostDeploy (Some ref) (e_answer st) in
  let! lines := blockingLines instanceID logID started in
  let! lost := watch (e_polls st) (blockingPhaseOwned instanceID logID) in
  let! lost := match lost with
               | Some s => ret (Some s)
               | None => let! p := blockingPhaseOwned instanceID logID in
                         ret (if p.1 then None else Some p.2)
               end in
  ret (lines, ignored, err, lost).

Definition runBlockingPostDeploy (instanceID : string) (deployLog : DeploymentLog)
    (opts : hookOpts) : M blockingPostDeployResult :=
  let logID := dl_ID deployLog in
  let say (line : string) := broadcastLog m instanceID logID line in
  If negb (HasBlocking (m_hooks m) EventPostDeploy) Return ret blocking_none ;;
  let! t := blockingPhaseTarget instanceID logID in
  match t with
  | (ownershipLost, _) => ret blocking_none
  | (ownershipUnknown, _) =>
      let! down := isDown in
      blockingNotStarted instanceID logID (if down then ErrDeployInterrupted else errPostDeployNotStarted)
  | (ownershipOwned, None) => ret blocking_none
  | (ownershipOwned, Some (inst, ref)) =>
      let! down := isDown in
      If down Return blockingNotStarted instanceID logID ErrDeployInterrupted ;;
      run! markBlockingPhase inst ref logID in
      let! r := callBlocking instanceID logID inst ref
                  (mkOpts (ho_Charts opts) (ho_Metadata opts ++ [("blocking", "true")])%list) in
      let '(lines, ignored, hookErr, lost) := r in
      match lost with
      | Some current =>
          let e := EWrap "" ErrDeployCancelled (": another operation changed the instance (status " +:+ current +:+
                     ") during the post-deploy hook") in
          let line := "WARNING: " +:+ errText e in
          run! say line in
          ret (mkBlocking (progress_of (lines ++ [line])%list) None [] (Some e))
      | None =>
          let! down := isDown in
          If down Return (
            let line := "ERROR: " +:+ errText ErrDeployInterrupted in
            run! say line in
            ret (mkBlocking (progress_of (lines ++ [line])%list) (Some ErrDeployInterrupted) [] None)) ;;
          let warnings := List.map (fun f => "WARNING: " +:+ IgnoredFailure_UserMessage f EventPostDeploy "deployment") ignored in
          run! forEach warnings say in
          let line := match hookErr with
                      | Some e => "ERROR: " +:+ UserMessage e EventPostDeploy "deployment"
                      | None => "Post-deploy steps finished"
                      end in
          run! say line in
          ret (mkBlocking (progress_of (lines ++ warnings ++ [line])%list)
                 (wrap_err (postDeployHookPrefix +:+ ": ") hookErr) ignored None)
      end
  end.

(** ** Resources before the installs *)

(** [EnsureNamespace]: false without a client or when it failed. *)
Definition ensureNamespace (k8sClient : bool) (namespace : string) : M bool :=
  If negb k8sClient Return ret false ;;
  let! err := k8sCall "ensure namespace" namespace in
  ret (bool_decide (err = None)).

Definition copyWildcardTLS (nsReady : bool) (namespace : string) : M string :=
  If empty (m_wildcardTLSSourceSecret m) || empty (m_wildcardTLSSourceNS m) || negb nsReady Return ret "" ;;
  let! err := k8sCall "copy secret" (m_wildcardTLSSourceNS m +:+ "/" +:+ m_wildcardTLSSourceSecret m +:+ " -> " +:+
                 namespace +:+ "/" +:+ m_wildcardTLSTargetSecret m) in
  ret (match err with
       | Some e => "WARNING: failed to replicate wildcard TLS secret: " +:+ errText e +:+ nl
       | None => ""
       end).

Definition ensurePullSecret (regCfg : option RegistryConfig) (nsReady : bool) (namespace : string) : M string :=
  match regCfg with
  | None => ret ""
  | Some rc =>
      If negb nsReady Return ret "" ;;
      let! err := k8sCall "ensure docker registry secret" (namespace +:+ "/" +:+ rc_SecretName rc) in
      match err with
      | Some e => ret ("WARNING: failed to provision image pull secret: " +:+ errText e +:+ nl)
      | None =>
          let line := "Image pull secret " +:+ quote (rc_SecretName rc) +:+ " provisioned for registry " +:+ rc_URL rc +:+ nl in
          let! err := k8sCall "patch service account" (namespace +:+ "/" +:+ rc_SecretName rc) in
          ret (match err with
               | Some e => line +:+ "WARNING: failed to patch default SA with imagePullSecret: " +:+ errText e +:+ nl
               | None => line
               end)
      end
  end.

Definition applyRoleBinding (namespace : string) (i : nat) (spec : NamespaceRoleBindingSpec) : M string :=
  If empty (rb_ClusterRoleName spec) || empty (rb_ServiceAccountName spec) || empty (rb_ServiceAccountNamespace spec)
    Return ret ("WARNING: skipped incomplete NamespaceRoleBindingSpec at index " +:+ itoa (Z.of_nat i) +:+
      " (clusterRole=" +:+ quote (rb_ClusterRoleName spec) +:+ " sa=" +:+ quote (rb_ServiceAccountNamespace spec) +:+
      "/" +:+ quote (rb_ServiceAccountName spec) +:+ ")" +:+ nl) ;;
  let! err := k8sCall "ensure role binding" (namespace +:+ "/" +:+ rb_RoleBindingName spec) in
  ret (match err with
       | Some e => "WARNING: failed to apply RoleBinding " +:+ quote (rb_ClusterRoleName spec) +:+ ": " +:+ errText e +:+ nl
       | None => "RoleBinding for ClusterRole " +:+ quote (rb_ClusterRoleName spec) +:+ " (SA " +:+
           rb_ServiceAccountNamespace spec +:+ "/" +:+ rb_ServiceAccountName spec +:+ ") applied to " +:+ namespace +:+ nl
       end).

Fixpoint applyRoleBindings (namespace : string) (i : nat) (specs : list NamespaceRoleBindingSpec) : M string :=
  match specs with
  | [] => ret ""
  | spec :: rest =>
      let! out := applyRoleBinding namespace i spec in
      let! more := applyRoleBindings namespace (S i) rest in
      ret (out +:+ more)
  end.

Definition registryLogin (regCfg : option RegistryConfig) : M string :=
  match regCfg with
  | None => ret ""
  | Some rc =>
      let host := if empty (host_of (rc_URL rc)) then rc_URL rc else host_of (rc_URL rc) in
      let! err := k8sCall "helm registry login" host in
      ret (match err with
           | Some e => "WARNING: helm registry login failed: " +:+ errText e +:+ nl
           | None => "Helm registry login succeeded for " +:+ host +:+ nl
           end)
  end.

(** ** The installs *)

Record installState := mkInstall {
  is_output : string;
  is_failed : list string;
  is_taken : string;
  is_lost : option string
}.
Definition is_add (text : string) (s : installState) : installState :=
  mkInstall (is_output s +:+ text) (is_failed s) (is_taken s) (is_lost s).
Definition is_fail (name : string) (s : installState) : installState :=
  mkInstall (is_output s) (is_failed s ++ [name])%list (is_taken s) (is_lost s).

(** One read of the pod event watch; without a Kubernetes client there is none. *)
Definition podDrain (k8sClient : bool) (instanceID logID : string) : M string :=
  If negb k8sClient Return ret "" ;;
  let! st := step in
  run! forEach (e_lines st) (broadcastLog m instanceID logID) in
  ret (e_text st).
(** [podEventWatch.stop]: the last lines and the most relevant problem. *)
Definition podStop (k8sClient : bool) (instanceID logID : string) : M (string * string) :=
  let! lines := podDrain k8sClient instanceID logID in
  If negb k8sClient Return ret (lines, "") ;;
  let! st := step in
  ret (lines, e_text st).

(** The values file: nothing to write for a chart without values. *)
Definition writeValues (c : ChartDeployInfo) : M error :=
  If empty (ci_ValuesYAML c) Return ret None ;;
  let! st := step in ret (e_err st).

(** [helm.Install], with the lines of a streaming executor and the polls of the
    install watcher. *)
Definition helmInstall (helm : HelmExecutor) (instanceID logID namespace : string) (nsReady : bool)
    (c : ChartDeployInfo) (lost : option string) : M (string * error * option string) :=
  let cfg := ci_ChartConfig c in
  let '(chartRef, repoURL) := ChartReference (cc_RepositoryURL cfg) (cc_ChartPath cfg) (cc_ChartName cfg) in
  let! st := step in
  run! emit (EvHelmInstall (cc_ChartName cfg) namespace chartRef repoURL (cc_ChartVersion cfg) (ci_ValuesYAML c) nsReady) in
  run! when_ (he_streaming helm) (forEach (e_lines st) (broadcastLog m instanceID logID)) in
  let! lost := match lost with
               | Some s => ret (Some s)
               | None => watch (e_polls st) (installsOwned m instanceID logID)
               end in
  ret (e_text st, e_err st, lost).

(** One chart that may be installed. *)
Definition installChart (helm : HelmExecutor) (k8sClient : bool) (instanceID logID namespace : string)
    (nsReady : bool) (c : ChartDeployInfo) (s : installState) : M installState :=
  let name := chartName c in
  let! err := writeValues c in
  match err with
  | Some e => ret (s |> is_add (chartHeader name ("ERROR writing values: " +:+ errText e)) |> is_fail name)
  | None =>
      let! r := if k8sClient then recoverPendingRelease name namespace else ret (Ok "") in
      let! s := match r with
                | Err e => ret (is_add ("WARNING: " +:+ errText e +:+ nl) s)
                | Ok msg =>
                    If empty msg Return ret s ;;
                    run! broadcastLog m instanceID logID msg in
                    ret (is_add (msg +:+ nl) s)
                end in
      let! r := helmInstall helm instanceID logID namespace nsReady c (is_lost s) in
      let '(output, err, lost) := r in
      let! pods := podDrain k8sClient instanceID logID in
      run! when_ (negb (he_streaming helm)) (broadcastLog m instanceID logID output) in
      let s := mkInstall (is_output s +:+ chartHeader name output +:+ pods) (is_failed s) (is_taken s) lost in
      ret match err with
          | Some e => s |> is_fail name
                        |> is_add ("ERROR: deploying chart " +:+ quote name +:+ ": " +:+ errText e +:+ nl)
          | None => s
          end
  end.

Fixpoint installCharts (helm : HelmExecutor) (k8sClient : bool) (instanceID logID namespace : string)
    (nsReady : bool) (charts : list ChartDeployInfo) (s : installState) : M installState :=
  match charts with
  | [] => ret s
  | c :: rest =>
      let! p := installsOwned m instanceID logID in
      If negb p.1 Return ret (mkInstall (is_output s) (is_failed s) p.2 (is_lost s)) ;;
      let cfg := ci_ChartConfig c in
      let! s :=
        match checkChartSource (m_allowedSources m) (cc_RepositoryURL cfg) (cc_ChartPath cfg) (cc_ChartName cfg) with
        | Some e =>
            let line := "ERROR: chart " +:+ quote (chartName c) +:+ ": " +:+ errText e in
            run! broadcastLog m instanceID logID line in
            ret (s |> is_add (chartHeader (chartName c) line) |> is_fail (chartName c))
        | None => installChart helm k8sClient instanceID logID namespace nsReady c s
        end in
      installCharts helm k8sClient instanceID logID namespace nsReady rest s
  end.

(** The deploy error of the failed charts. *)
Definition chartsError (failed : list string) (charts : nat) : error :=
  If (0 <? length failed)%nat && (length failed =? charts)%nat Return
    errorsNew ("all charts failed to deploy: " +:+ String.concat ", " failed) ;;
  If (0 <? length failed)%nat Return
    errorsNew ("partial deploy — failed charts: " +:+ String.concat ", " failed) ;;
  None.

(** The readiness wait after the installs: error, warning and last status. *)
Definition readinessPhase (instanceID namespace logID : string)
    : M (error * string * string * option NamespaceStatus) :=
  let! r := awaitReadiness instanceID namespace logID in
  match r with
  | (last, None) => ret (None, "", "", last)
  | (last, Some e) =>
      If errorsIs e "ErrDeployInterrupted" Return (
        let line := "ERROR: " +:+ errText e in
        run! broadcastLog m instanceID logID line in
        ret (Some e, line +:+ nl, "", last)) ;;
      match asTaken e with
      | Some (status, changed) =>
          let e := EWrap "" ErrDeployCancelled (": " +:+ takenBy status changed +:+ " during the readiness wait") in
          let line := "WARNING: " +:+ errText e in
          run! broadcastLog m instanceID logID line in
          ret (Some e, line +:+ nl, "", last)
      | None => ret (None, "", errText e, last)
      end
  end.

(** ** The whole deploy *)

Section execute.
Context `{QuantityOps} (reg : ClusterResolver).

(** What the steps after the installs need. *)
Record deployArgs := mkDeployArgs {
  da_helm : HelmExecutor;
  da_k8s : bool;
  da_regCfg : option RegistryConfig;
  da_instance : StackInstance;
  da_charts : list ChartDeployInfo;
  da_values : string;
  da_opts : hookOpts
}.

Definition cancelDeployAfterPreHook (instanceID : string) (deployLog : DeploymentLog)
    (hookOutput current lastDeployedValues : string) : M unit :=
  let cancelErr := EWrap "" ErrDeployCancelled (": another operation changed the instance (status " +:+ current +:+
                     ") during the pre-deploy hook") in
  let line := "WARNING: " +:+ errText cancelErr in
  run! broadcastLog m instanceID (dl_ID deployLog) line in
  finalizeDeploy instanceID deployLog (hookOutput +:+ line +:+ nl) (Some cancelErr) false lastDeployedValues "".

(** The readiness wait, the blocking subscribers and the end of a deploy whose
    installs ran to their end. *)
Definition afterInstalls (a : deployArgs) (deployLog : DeploymentLog) (quotaPending : bool)
    (s : installState) : M unit :=
  let instanceID := si_ID (da_instance a) in
  let namespace := si_Namespace (da_instance a) in
  let logID := dl_ID deployLog in
  let charts := length (da_charts a) in
  let failed := length (is_failed s) in
  let deployErr := chartsError (is_failed s) charts in
  let! quotaWarning := if quotaPending && (failed <? charts)%nat
                       then applyQuotasForDeploy reg instanceID namespace else ret "" in
  let wait := bool_decide (deployErr = None) && (0 <? m_stabilizeTimeout m)%Z && da_k8s a in
  let! ready := if wait then readinessPhase instanceID namespace logID else ret (deployErr, "", "", None) in
  let '(deployErr, readyOutput, readinessWarning, lastStatus) := ready in
  let! siteURL := if bool_decide (deployErr = None) || (failed <? charts)%nat
                  then siteURLFor (da_k8s a) namespace lastStatus wait else ret "" in
  let! pods := podStop (da_k8s a) instanceID logID in
  let '(podLines, podEvent) := pods in
  let deployErr := if isErr deployErr "ErrDeployInterrupted" then deployErr else withPodEvent deployErr podEvent in
  let readinessWarning :=
    if empty readinessWarning || empty podEvent then readinessWarning
    else readinessWarning +:+ " (pod event: " +:+ podEvent +:+ ")" in
  let allOutput := is_output s +:+ quotaWarning +:+ readyOutput +:+ podLines +:+
    (if empty readinessWarning then "" else "WARNING: " +:+ readinessWarning +:+ nl) in
  let partialDeploy := (0 <? failed)%nat && (failed <? charts)%nat in
  If negb ((bool_decide (deployErr = None) || partialDeploy) && HasBlocking (m_hooks m) EventPostDeploy) Return
    finalizeDeployWith instanceID deployLog allOutput deployErr partialDeploy (da_values a) readinessWarning [] siteURL ;;
  let! res := runBlockingPostDeploy instanceID deployLog (da_opts a) in
  let allOutput := allOutput +:+ bp_output res in
  match bp_cancelled res with
  | Some e => finalizeDeploy instanceID deployLog allOutput (Some e) false (da_values a) readinessWarning
  | None =>
      match bp_err res with
      | Some e => finalizeDeployWith instanceID deployLog allOutput (Some e) false (da_values a) readinessWarning
                    (bp_ignored res) siteURL
      | None => finalizeDeployWith instanceID deployLog allOutput deployErr partialDeploy (da_values a)
                  readinessWarning (bp_ignored res) siteURL
      end
  end.

(** From the concurrency slot on. *)
Definition runInstalls (a : deployArgs) (deployLog : DeploymentLog) (hookOutput : string) : M unit :=
  let instanceID := si_ID (da_instance a) in
  let namespace := si_Namespace (da_instance a) in
  let logID := dl_ID deployLog in
  let! tmp := (let! st := step in ret (e_err st)) in
  match tmp with
  | Some e => finalizeDeploy instanceID deployLog hookOutput (Some (EWrap "creating temp directory: " e "")) false (da_values a) ""
  | None =>
      let! nsReady := ensureNamespace (da_k8s a) namespace in
      let! quotaWarning := if m_quotaRepo m && nsReady then applyQuotasForDeploy reg instanceID namespace else ret "" in
      let quotaPending := m_quotaRepo m && (negb nsReady || negb (empty quotaWarning)) in
      let! tls := copyWildcardTLS nsReady namespace in
      let! pull := ensurePullSecret (da_regCfg a) nsReady namespace in
      let! roles := if nsReady then applyRoleBindings namespace 0 (m_namespaceRoleBindings m) else ret "" in
      let! login := registryLogin (da_regCfg a) in
      let! s := installCharts (da_helm a) (da_k8s a) instanceID logID namespace nsReady (da_charts a)
                  (mkInstall (hookOutput +:+ quotaWarning +:+ tls +:+ pull +:+ roles +:+ login) [] "" None) in
      If bool_decide (is_Some (is_lost s)) || negb (empty (is_taken s)) Return (
        let taken := if empty (is_taken s) then default "" (is_lost s) else is_taken s in
        let e := EWrap "" ErrDeployCancelled (": another operation changed the instance (status " +:+ taken +:+
                   ") during the chart installs") in
        let line := "WARNING: " +:+ errText e in
        run! broadcastLog m instanceID logID line in
        let! pods := podStop (da_k8s a) instanceID logID in
        finalizeDeploy instanceID deployLog (is_output s +:+ pods.1 +:+ line +:+ nl) (Some e) false (da_values a) "") ;;
      afterInstalls a deployLog quotaPending s
  end.

Definition executeDeploy (a : deployArgs) (deployLog : DeploymentLog) : M unit :=
  let instance := da_instance a in
  let instanceID := si_ID instance in
  let logID := dl_ID deployLog in
  let finish (output : string) (err : goerr) :=
    finalizeDeploy instanceID deployLog output (Some err) false (da_values a) "" in
  let body :=
    let! q := if m_quotaRepo m then effectiveNamespaceQuota reg instanceID else ret (Ok ("", empty_quota)) in
    match q with
    | Err e =>
        If errorsIs e "ErrInvalidQuota" Return (
          let line := "ERROR: " +:+ errText e in
          run! broadcastLog m instanceID logID line in
          ret (Some (line +:+ nl, e))) ;;
        ret None
    | Ok _ => ret None
    end in
  let! rejected := body in
  run! match rejected with
  | Some (output, e) => finish output e
  | None =>
      let! pre := firePreHook m EventPreDeploy instance logID (da_opts a) in
      match ph_lost pre, ph_err pre with
      | Some current, _ => cancelDeployAfterPreHook instanceID deployLog (ph_progress pre) current (da_values a)
      | None, Some e =>
          let reason := UserMessage e EventPreDeploy "deployment" in
          run! broadcastLog m instanceID logID ("ERROR: " +:+ reason) in
          finish (ph_progress pre +:+ "ERROR: " +:+ reason +:+ nl) (EWrap "pre-deploy hook: " e "")
      | None, None =>
          let! p := ownsAfterPreHook m instanceID logID in
          If negb p.1 Return cancelDeployAfterPreHook instanceID deployLog (ph_progress pre) p.2 (da_values a) ;;
          let! ext := extendDeadline m deployLog (Some (da_helm a)) (Z.of_nat (length (da_charts a))) in
          match ext with
          | None => ret tt
          | Some deployLog => runInstalls a deployLog (ph_progress pre)
          end
      end
  end in
  modMem (mem_del_trigger logID).

(** ** The start *)

Record DeployRequest := mkDeployRequest {
  dr_Instance : StackInstance;
  dr_Charts : list ChartDeployInfo;
  dr_UserID : string;
  dr_LastDeployedValues : string
}.

(** The clients of the cluster of a request. *)
Definition resolveClients (reg : option ClusterResolver) (clusterID : string)
    : res (ClusterResolver * HelmExecutor * option RegistryConfig * bool) :=
  match reg with
  | None => Err (ENew "cluster registry is not configured")
  | Some reg =>
      id <-r res_wrap "resolving cluster: " (ResolveClusterID reg clusterID) ;;
      helm <-r res_wrap "getting cluster clients: " (GetHelmExecutor reg id) ;;
      match helm with
      | None => Err (ENew "getting cluster clients: helm executor is nil")
      | Some helm =>
          k8s <-r res_wrap "getting cluster k8s client: " (GetK8sClient reg id) ;;
          Ok (reg, helm, match GetRegistryConfig reg id with Ok c => c | Err _ => None end, k8s)
      end
  end.

Definition namespacePhase (k8sClient : bool) (namespace : string) : M error :=
  If negb k8sClient Return ret None ;;
  let! st := step in
  ret match e_err st with
      | Some e => Some (EWrap "checking namespace phase: " e "")
      | None => If bool_decide (e_text st = "Terminating") Return Some (ENamespaceTerminating namespace) ;; None
      end.

(** The deployment log of a new deploy and its instance. *)
Definition newDeployLog (req : DeployRequest) (logID : string) (now : time) (helm : HelmExecutor) : DeploymentLog :=
  mkLog logID (si_ID (dr_Instance req)) DeployActionDeploy DeployLogRunning "" "" "" ""
    (si_Branch (dr_Instance req)) (chartVersionsJSON (dr_Charts req)) (dr_UserID req) (m_replicaID m) now None
    (Some (operationDeadline m now DeployActionDeploy (Some helm) (Z.of_nat (length (dr_Charts req))))).
Definition deployingInstance (i : StackInstance) : StackInstance :=
  i |> si_set_Status StackStatusDeploying |> si_set_ErrorMessage "" |> si_set_StoppedAt None
    |> si_set_CleanedAt None |> si_set_PostDeployHookUntil None.

(** [Deploy]: the log ID and the job of the goroutine, or the error. *)
Definition Deploy (trigger : option Trigger) (req : DeployRequest)
    : M (res (ClusterResolver * deployArgs * DeploymentLog)) :=
  let! ctx := ctxErr in
  match ctx with
  | Some e => ret (Err (EWrap "request cancelled: " e ""))
  | None =>
      let! down := isDown in
      If down Return ret (Err (ENew "server is shutting down")) ;;
      match resolveClients (m_registry m) (si_ClusterID (dr_Instance req)) with
      | Err e => ret (Err e)
      | Ok (reg, helm, regCfg, k8s) =>
          let! phase := namespacePhase k8s (si_Namespace (dr_Instance req)) in
          match phase with
          | Some e => ret (Err e)
          | None =>
              let! st := step in
              let logID := e_text st in
              let deployLog := newDeployLog req logID (e_now st) helm in
              run! modMem (mem_set_action logID DeployActionDeploy) in
              let instance := deployingInstance (dr_Instance req) in
              let! err := createLogAndUpdate m instance deployLog in
              match err with
              | Some e => ret (Err e)
              | None =>
                  run! broadcastStatus m (si_ID instance) StackStatusDeploying logID in
                  run! rememberTrigger trigger logID in
                  ret (Ok (reg,
                    mkDeployArgs helm k8s regCfg instance
                      (sort_by (fun c => cc_DeployOrder (ci_ChartConfig c)) (dr_Charts req))
                      (dr_LastDeployedValues req)
                      (mkOpts (chartRefsFor (dr_Charts req) (si_Branch instance) ∅)
                         (match regCfg with Some rc => [("registry_url", rc_URL rc)] | None => [] end)),
                    deployLog))
              end
          end
      end
  end.
End execute.
End deploy.

(** * What a deploy may do *)

(** The Kubernetes calls of a deploy; none deletes the namespace. *)
Definition deployCalls : list string :=
  ["ensure namespace"; "ensure resource quota"; "ensure limit range"; "copy secret";
   "ensure docker registry secret"; "patch service account"; "ensure role binding";
   "helm registry login"; "delete secret"].

Definition deployStatuses : list string :=
  [StackStatusStabilizing; StackStatusRunning; StackStatusPartial; StackStatusError].

(** The statements of one deploy: the end or the deadline of its log, and the
    row of its instance with a status of a deploy. *)
Definition deploy_stmt (iid lid : string) (op : dbop) : Prop :=
  match op with
  | SaveRunningLog l => dl_ID l = lid /\ log_running l = false
  | SetDeadline i _ => i = lid
  | ClearExpiryWarning i _ => i = iid
  | SaveInstance i => si_ID i = iid /\ si_Status i ∈ deployStatuses
  | SetStatus i to from _ => i = iid /\ to = StackStatusStabilizing /\ from = stabilizing_statuses
  | _ => False
  end.

(** A chart that may be installed. *)
Definition installable (m : Manager) (c : ChartDeployInfo) : Prop :=
  let cfg := ci_ChartConfig c in
  checkChartSource (m_allowedSources m) (cc_RepositoryURL cfg) (cc_ChartPath cfg) (cc_ChartName cfg) = None.

Definition install_of (namespace : string) (c : ChartDeployInfo) (e : event) : Prop :=
  let cfg := ci_ChartConfig c in
  exists nsReady, e = EvHelmInstall (cc_ChartName cfg) namespace
    (ChartReference (cc_RepositoryURL cfg) (cc_ChartPath cfg) (cc_ChartName cfg)).1
    (ChartReference (cc_RepositoryURL cfg) (cc_ChartPath cfg) (cc_ChartName cfg)).2
    (cc_ChartVersion cfg) (ci_ValuesYAML c) nsReady.

Definition deploy_event (m : Manager) (a : deployArgs) (lid : string) (e : event) : Prop :=
  match e with
  | EvWrite op _ => deploy_stmt (si_ID (da_instance a)) lid op
  | EvK8s call _ => call ∈ deployCalls
  | EvHelmInstall _ _ _ _ _ _ _ =>
      exists c, c ∈ da_charts a /\ installable m c /\ install_of (si_Namespace (da_instance a)) c e
  | _ => message e
  end.

Lemma finalized_id now err p v i l :
  si_ID (finalized now err p v i l).1 = si_ID i /\ dl_ID (finalized now err p v i l).2 = dl_ID l.
Proof. unfold finalized. repeat case_match; by split. Qed.

Lemma finalized_status now err p v i l :
  si_Status (finalized now err p v i l).1 ∈ deployStatuses /\
  log_running (finalized now err p v i l).2 = false.
Proof.
  unfold finalized. repeat case_match; cbn; (split; [|by vm_compute]); unfold deployStatuses; set_solver.
Qed.

Lemma concurrent_log_ended err p v l :
  dl_ID (concurrent_log err p v l) = dl_ID l /\ log_running (concurrent_log err p v l) = false.
Proof. unfold concurrent_log. destruct err; [destruct p|]; (split; [done|by vm_compute]). Qed.

Section footprint.
Context (m : Manager) (Ev : event -> Prop) (iid lid : string).
Context (Hmsg : forall e, message e -> Ev e).
Context (Hlog : forall l, dl_ID l = lid -> log_running l = false -> may_write Ev (SaveRunningLog l)).
Context (Hclear : forall e, may_write Ev (ClearExpiryWarning iid e)).
Context (Hsave : forall i, si_ID i = iid -> si_Status i ∈ deployStatuses -> may_write Ev (SaveInstance i)).
Context (Hmark : forall now, may_write Ev (SetStatus iid StackStatusStabilizing stabilizing_statuses now)).
Context (Hk8s : forall call arg, call ∈ deployCalls -> Ev (EvK8s call arg)).

Ltac msg := solve [apply Hmsg; exact I | apply Hk8s; clear; unfold deployCalls; set_solver].
Ltac go := own_steps msg.

Lemma own_k8sCall call arg : call ∈ deployCalls -> own Ev (k8sCall call arg) (fun _ => True).
Proof. intros H. unfold k8sCall. own_steps ltac:(by apply Hk8s). Qed.
Lemma own_GetNamespaceStatus ns : own Ev (GetNamespaceStatus ns) (fun _ => True).
Proof. unfold GetNamespaceStatus. go. Qed.
Hint Resolve own_GetNamespaceStatus : own.
Hint Extern 2 (own _ (k8sCall _ _) _) => (apply own_k8sCall; clear; unfold deployCalls; set_solver) : own.

Lemma own_recoverPendingRelease r ns : own Ev (recoverPendingRelease r ns) (fun _ => True).
Proof. unfold recoverPendingRelease. go. Qed.
Lemma own_siteURLFor k ns l r : own Ev (siteURLFor m k ns l r) (fun _ => True).
Proof. unfold siteURLFor. go. Qed.
Lemma own_announceDeploy i l err p w ig u : own Ev (announceDeploy m i l err p w ig u) (fun _ => True).
Proof.
  unfold announceDeploy. eapply own_bind; [eauto with own|]. intros _ _.
  eapply own_bind; [apply own_when; eauto with own|]. intros _ _.
  eapply own_bind; [eauto with own|]. intros _ _. eapply own_bind; [eauto with own|]. intros t _.
  eapply own_bind; [apply own_forEach; eauto with own|]. go.
Qed.

Lemma own_finalizeDeployWith l out err p v w ig u :
  dl_ID l = lid -> own Ev (finalizeDeployWith m iid l out err p v w ig u) (fun _ => True).
Proof.
  intros Hid. unfold finalizeDeployWith. eapply own_bind; [apply own_clock|]. intros now _.
  eapply own_bind; [apply own_FindByID|]. intros [inst|e] Hinst.
  - eapply (own_bind _ _ _ (fun _ => True)); [case_match; eauto with own; by apply own_ret|]. intros n _.
    destruct n.
    + eapply own_bind; [apply own_modMem|]. intros _ _.
      destruct (concurrent_log_ended err p v (ended_log out now l)) as [H1 H2].
      eapply own_bind; [apply own_writeFinal; split; [by apply Hlog; rewrite ?H1|done]|].
      intros. by apply own_ret.
    + specialize (Hinst inst eq_refl).
      destruct (finalized_id now err p v inst (ended_log out now l)) as [H1 H2].
      destruct (finalized_status now err p v inst (ended_log out now l)) as [H3 H4].
      destruct (finalized _ _ _ _ _ _) as [inst' l']. simpl in *.
      eapply own_bind; [apply own_writeFinal; split; [by apply Hlog; rewrite ?H2|]|].
      { split; [intros; by apply Hsave; [rewrite <- Hinst|]|]. intros. rewrite H1, Hinst. apply Hclear. }
      intros [] _; [apply own_announceDeploy|apply own_modMem].
  - eapply own_bind; [by apply own_fallbackLogUpdate, Hlog|]. intros. by apply own_ret.
Qed.
Lemma own_finalizeDeploy l out err p v w :
  dl_ID l = lid -> own Ev (finalizeDeploy m iid l out err p v w) (fun _ => True).
Proof. apply own_finalizeDeployWith. Qed.

Lemma own_markStabilizing : own Ev (markStabilizing m iid lid) (fun _ => True).
Proof.
  unfold markStabilizing. eapply own_bind; [by apply own_instanceOwnership|]. intros [o [i|e]] _; [|by destruct o; apply own_ret].
  destruct o; try (by apply own_ret).
  - eapply own_bind; [by apply own_MarkStatus|]. go.
  - eapply own_bind; [by apply own_MarkStatus|]. go.
Qed.
Lemma own_readinessAfterShutdown ns last : own Ev (readinessAfterShutdown m iid ns lid last) (fun _ => True).
Proof. unfold readinessAfterShutdown. go. Qed.
Hint Resolve own_readinessAfterShutdown : own.
Lemma own_readinessTicks n ns : forall last, own Ev (readinessTicks m n iid ns lid last) (fun _ => True).
Proof. induction n as [|n IH]; intros last; simpl; go; apply IH. Qed.
Lemma own_awaitReadiness ns : own Ev (awaitReadiness m iid ns lid) (fun _ => True).
Proof.
  unfold awaitReadiness. eapply own_bind; [apply own_isDown|]. intros d _. case_match; [eauto with own|].
  eapply own_bind; [apply own_markStabilizing|]. intros [e|] _; [go|].
  eapply own_bind; [eauto with own|]. intros _ _. eapply own_bind; [eauto with own|]. intros _ _.
  eapply own_bind; [apply own_step|]. intros st _. apply own_readinessTicks.
Qed.
Hint Resolve own_awaitReadiness : own.
Lemma own_readinessPhase ns : own Ev (readinessPhase m iid ns lid) (fun _ => True).
Proof. unfold readinessPhase. go. Qed.
Hint Resolve own_readinessPhase : own.

(** *** The blocking phase *)
Lemma own_blockingNotStarted e : own Ev (blockingNotStarted m iid lid e) (fun _ => True).
Proof. unfold blockingNotStarted. go. Qed.
Lemma own_blockingPhaseTarget :
  own Ev (blockingPhaseTarget m iid lid) (fun p => forall t, p.2 = Some t -> si_ID t.1 = iid).
Proof.
  unfold blockingPhaseTarget. eapply own_bind; [by apply own_instanceOwnership|]. intros [o r] [Hi _].
  destruct o, r as [i|e]; try (by apply own_ret). eapply own_bind; [apply own_step|]. intros st _.
  case_match; apply own_ret; [done|]. intros ? [= <-]. by apply Hi.
Qed.
Lemma own_markBlockingPhase i ref : si_ID i = iid -> own Ev (markBlockingPhase m i ref lid) (fun _ => True).
Proof.
  intros Hi. unfold markBlockingPhase. eapply own_bind; [apply own_clock|]. intros now _.
  eapply own_bind.
  - apply own_Update; [intros; apply Hsave; [done|]|].
    + cbn. unfold deployStatuses. set_solver.
    + intros e. cbn. rewrite Hi. apply Hclear.
  - intros e _. go.
Qed.
Lemma own_blockingLines started : own Ev (blockingLines m iid lid started) (fun _ => True).
Proof.
  induction started as [|h rest IH]; [by apply own_ret|]. cbn [blockingLines].
  eapply own_bind; [apply own_step|]. intros st _. eapply own_bind; [apply own_forEach; eauto with own|].
  intros _ _. eapply own_bind; [exact IH|]. intros. by apply own_ret.
Qed.
Lemma own_blockingPhaseOwned : own Ev (blockingPhaseOwned m iid lid) (fun _ => True).
Proof. unfold blockingPhaseOwned. eauto with own. Qed.
Lemma own_callBlocking i ref md : own Ev (callBlocking m iid lid i ref md) (fun _ => True).
Proof.
  unfold callBlocking. eapply own_bind; [apply own_step|]. intros st _.
  eapply own_bind; [apply own_emit; msg|]. intros _ _. destruct (FireBlocking _ _ _ _) as [[s ig] e].
  eapply own_bind; [apply own_blockingLines|]. intros lines _.
  eapply own_bind; [apply own_watch, own_blockingPhaseOwned|]. intros lost _.
  eapply (own_bind _ _ _ (fun _ => True)); [|intros; by apply own_ret].
  destruct lost; [by apply own_ret|]. eapply own_bind; [apply own_blockingPhaseOwned|].
  intros. by apply own_ret.
Qed.
Lemma own_runBlockingPostDeploy l md :
  dl_ID l = lid -> own Ev (runBlockingPostDeploy m iid l md) (fun _ => True).
Proof.
  intros Hid. unfold runBlockingPostDeploy. rewrite Hid. case_match; [by apply own_ret|].
  eapply own_bind; [apply own_blockingPhaseTarget|]. intros [o t] Ht. destruct o.
  - destruct t as [[i ref]|]; [|by apply own_ret]. eapply own_bind; [apply own_isDown|]. intros d _.
    case_match; [apply own_blockingNotStarted|]. eapply own_bind; [by apply own_markBlockingPhase, (Ht _ eq_refl)|].
    intros _ _. eapply own_bind; [apply own_callBlocking|]. intros [[[ls ig] e] lost] _.
    destruct lost; [go|]. eapply own_bind; [apply own_isDown|]. intros d' _. case_match; [go|].
    eapply own_bind; [apply own_forEach; eauto with own|]. go.
  - by apply own_ret.
  - eapply own_bind; [apply own_isDown|]. intros. apply own_blockingNotStarted.
Qed.

(** *** The installs *)
Lemma own_copyWildcardTLS r ns : own Ev (copyWildcardTLS m r ns) (fun _ => True).
Proof. unfold copyWildcardTLS. go. Qed.
Lemma own_ensureNamespace k ns : own Ev (ensureNamespace k ns) (fun _ => True).
Proof. unfold ensureNamespace. go. Qed.
Lemma own_ensurePullSecret rc r ns : own Ev (ensurePullSecret rc r ns) (fun _ => True).
Proof. unfold ensurePullSecret. go. Qed.
Lemma own_applyRoleBindings ns specs : forall i, own Ev (applyRoleBindings ns i specs) (fun _ => True).
Proof.
  induction specs as [|s specs IH]; intros i; [by apply own_ret|]. cbn [applyRoleBindings].
  eapply (own_bind _ _ _ (fun _ => True)); [unfold applyRoleBinding; go|]. intros o _.
  eapply own_bind; [apply IH|]. intros. by apply own_ret.
Qed.
Lemma own_registryLogin rc : own Ev (registryLogin rc) (fun _ => True).
Proof. unfold registryLogin. go. Qed.
Lemma own_podDrain k : own Ev (podDrain m k iid lid) (fun _ => True).
Proof.
  unfold podDrain. case_match; [by apply own_ret|]. eapply own_bind; [apply own_step|]. intros st _.
  eapply own_bind; [apply own_forEach; eauto with own|]. intros. by apply own_ret.
Qed.
Hint Resolve own_podDrain : own.
Lemma own_podStop k : own Ev (podStop m k iid lid) (fun _ => True).
Proof. unfold podStop. go. Qed.

Context (namespace : string).
Definition may_install (c : ChartDeployInfo) : Prop := forall e, install_of namespace c e -> Ev e.

Lemma own_helmInstall helm ready c lost :
  may_install c -> own Ev (helmInstall m helm iid lid namespace ready c lost) (fun _ => True).
Proof.
  intros Hc. unfold helmInstall, may_install, install_of in *.
  destruct (ChartReference _ _ _) as [ref repo] eqn:Eref. eapply own_bind; [apply own_step|]. intros st _.
  eapply own_bind; [apply own_emit, Hc; by eexists|]. intros _ _.
  eapply own_bind; [apply own_when; intros _; apply own_forEach; eauto with own|]. intros _ _.
  eapply (own_bind _ _ _ (fun _ => True)); [|intros; by apply own_ret].
  destruct lost; [by apply own_ret|]. apply own_watch. eauto with own.
Qed.
Lemma own_installChart helm k ready c s :
  may_install c -> own Ev (installChart m helm k iid lid namespace ready c s) (fun _ => True).
Proof.
  intros Hc. unfold installChart. eapply (own_bind _ _ _ (fun _ => True)); [unfold writeValues; go|].
  intros [e|] _; [by apply own_ret|].
  eapply (own_bind _ _ _ (fun _ => True)); [case_match; [apply own_recoverPendingRelease|by apply own_ret]|].
  intros r _. eapply (own_bind _ _ _ (fun _ => True)); [destruct r; go|]. intros s' _.
  eapply own_bind; [by apply own_helmInstall|]. intros [[out err] lost] _.
  eapply own_bind; [apply own_podDrain|]. intros pods _. go.
Qed.
Lemma own_installCharts helm k ready charts : forall s,
  (forall c, c ∈ charts -> installable m c -> may_install c) ->
  own Ev (installCharts m helm k iid lid namespace ready charts s) (fun _ => True).
Proof.
  induction charts as [|c rest IH]; intros s Hc; [by apply own_ret|]. cbn [installCharts].
  eapply own_bind; [by apply own_installsOwned|]. intros p _. case_match; [by apply own_ret|].
  eapply (own_bind _ _ _ (fun _ => True)); [|intros; apply IH; intros c' ?; apply Hc; by right].
  destruct (checkChartSource _ _ _ _) eqn:E; [go|]. apply own_installChart, Hc; [by left|exact E].
Qed.

(** *** The quotas *)
Context `{QuantityOps} (reg : ClusterResolver).
Lemma own_effectiveNamespaceQuota i : own Ev (effectiveNamespaceQuota reg i) (fun _ => True).
Proof. unfold effectiveNamespaceQuota, readQuota. go. Qed.
Hint Resolve own_effectiveNamespaceQuota : own.
Lemma own_applyQuotasForDeploy i ns : own Ev (applyQuotasForDeploy reg i ns) (fun _ => True).
Proof. unfold applyQuotasForDeploy, applyNamespaceQuotas. go. Qed.

(** *** The whole deploy *)
Context (a : deployArgs) (Hiid : si_ID (da_instance a) = iid) (Hns : si_Namespace (da_instance a) = namespace).
Context (Hinstall : forall c, c ∈ da_charts a -> installable m c -> may_install c).
Context (Hdeadline : forall d, may_write Ev (SetDeadline lid d)).

Lemma own_cancelDeployAfterPreHook l out cur v :
  dl_ID l = lid -> own Ev (cancelDeployAfterPreHook m iid l out cur v) (fun _ => True).
Proof.
  intros Hid. unfold cancelDeployAfterPreHook. eapply own_bind; [eauto with own|]. intros _ _.
  by apply own_finalizeDeploy.
Qed.

Lemma own_afterInstalls l q s : dl_ID l = lid -> own Ev (afterInstalls m reg a l q s) (fun _ => True).
Proof.
  intros Hid. unfold afterInstalls. rewrite Hiid, Hns, Hid.
  eapply (own_bind _ _ _ (fun _ => True)); [case_match; [apply own_applyQuotasForDeploy|by apply own_ret]|].
  intros w _. eapply (own_bind _ _ _ (fun _ => True)); [case_match; [apply own_readinessPhase|by apply own_ret]|].
  intros [[[err out] rw] last] _.
  eapply (own_bind _ _ _ (fun _ => True)); [case_match; [apply own_siteURLFor|by apply own_ret]|]. intros u _.
  eapply own_bind; [apply own_podStop|]. intros [lines ev] _.
  case_match; [by apply own_finalizeDeployWith|].
  eapply own_bind; [by apply own_runBlockingPostDeploy|]. intros r _.
  repeat case_match; by apply own_finalizeDeployWith.
Qed.

Lemma own_runInstalls l out : dl_ID l = lid -> own Ev (runInstalls m reg a l out) (fun _ => True).
Proof.
  intros Hid. unfold runInstalls. rewrite Hiid, Hns, Hid.
  eapply (own_bind _ _ _ (fun _ => True)); [go|]. intros [e|] _; [by apply own_finalizeDeploy|].
  eapply own_bind; [apply own_ensureNamespace|]. intros r _.
  eapply (own_bind _ _ _ (fun _ => True)); [case_match; [apply own_applyQuotasForDeploy|by apply own_ret]|]. intros w _.
  eapply own_bind; [apply own_copyWildcardTLS|]. intros tls _.
  eapply own_bind; [apply own_ensurePullSecret|]. intros pull _.
  eapply (own_bind _ _ _ (fun _ => True)); [case_match; [apply own_applyRoleBindings|by apply own_ret]|]. intros roles _.
  eapply own_bind; [apply own_registryLogin|]. intros login _.
  eapply own_bind; [apply own_installCharts; exact Hinstall|]. intros s _.
  case_match; [|by apply own_afterInstalls].
  eapply own_bind; [eauto with own|]. intros _ _. eapply own_bind; [apply own_podStop|]. intros pods _.
  by apply own_finalizeDeploy.
Qed.

(** The checks before the concurrency slot install nothing. *)
Lemma own_executeDeploy l : dl_ID l = lid -> own Ev (executeDeploy m reg a l) (fun _ => True).
Proof.
  intros Hid. unfold executeDeploy. rewrite Hiid, Hid.
  eapply (own_bind _ _ _ (fun _ => True)).
  { eapply (own_bind _ _ _ (fun _ => True)); [case_match; [apply own_effectiveNamespaceQuota|by apply own_ret]|].
    intros [?|e] _; [by apply own_ret|]. go. }
  intros rej _. eapply (own_bind _ _ _ (fun _ => True)); [|intros; apply own_modMem].
  destruct rej as [[out e]|]; [by apply own_finalizeDeploy|].
  eapply own_bind; [by apply own_firePreHook|]. intros pre _.
  destruct (ph_lost pre); [by apply own_cancelDeployAfterPreHook|].
  destruct (ph_err pre).
  - eapply own_bind; [eauto with own|]. intros _ _. by apply own_finalizeDeploy.
  - eapply own_bind; [by apply own_ownsInstance|]. intros p _.
    case_match; [by apply own_cancelDeployAfterPreHook|].
    eapply own_bind; [by apply own_extendDeadline; rewrite Hid|]. intros [l'|] Hl; [|by apply own_ret].
    destruct (Hl l' eq_refl) as [d ->]. by apply own_runInstalls.
Qed.
End footprint.

(** C1. Whatever the other replicas, Helm, Kubernetes, the hooks and the
    database do, a deploy stays inside its own footprint.  It writes only its
    own log (and only to end it or to move its deadline) and the row of its own
    instance (only with a status of a deploy), it never uninstalls or rolls back
    a release and never deletes a namespace, and every chart it installs is a
    chart of the request from an allowed source, with the values, version and
    reference of its configuration, in the namespace of the instance. *)
Theorem deploy_footprint m `{QuantityOps} reg a l :
  own (deploy_event m a (dl_ID l)) (executeDeploy m reg a l) (fun _ => True).
Proof.
  eapply (own_executeDeploy m _ (si_ID (da_instance a)) (dl_ID l)); try done.
  - intros [] ?; done.
  - intros c Hc Hi e He. destruct He as [r ->]. exists c. split_and!; [done|done|by eexists].
Qed.

(** ** A deploy ends its log *)

Section ending.
Context (m : Manager) (iid lid : string).

Ltac keep L := unshelve (eapply L; keep_op); exact lid.

Lemma keeps_announceDeploy i l err p w ig u : keeps lid (announceDeploy m i l err p w ig u) (fun _ => True).
Proof. apply own_announceDeploy, keeps_msg. Qed.

Lemma ends_finalizeDeployWith l out err p v w ig u :
  dl_ID l = lid -> ends lid (finalizeDeployWith m iid l out err p v w ig u).
Proof.
  intros Hid. unfold finalizeDeployWith. eapply ends_then; [apply own_clock|]. intros now _.
  eapply ends_then; [apply own_FindByID|]. intros [inst|e] _.
  - eapply (ends_then _ _ _ (fun _ => True)); [case_match; [by apply own_ret|apply own_newerOperation]|]. intros [] _.
    + eapply ends_then; [apply own_modMem|]. intros _ _.
      destruct (concurrent_log_ended err p v (ended_log out now l)) as [H1 H2].
      eapply ends_first; [apply ends_writeFinal; [by rewrite H1|done]| |intros; by apply own_ret].
      apply own_writeFinal. split; [keep_op|done].
    + destruct (finalized_id now err p v inst (ended_log out now l)) as [H1 H2].
      destruct (finalized_status now err p v inst (ended_log out now l)) as [_ H4].
      destruct (finalized _ _ _ _ _ _) as [inst' l']. simpl in *.
      eapply ends_first; [apply ends_writeFinal; [by rewrite H2|done]| |].
      * apply own_writeFinal. split; [|split]; keep_op.
      * intros []; [apply keeps_announceDeploy|apply own_modMem].
  - eapply ends_first; [by apply ends_fallbackLogUpdate| |intros; by apply own_ret].
    apply own_fallbackLogUpdate. keep_op.
Qed.
Lemma ends_finalizeDeploy l out err p v w :
  dl_ID l = lid -> ends lid (finalizeDeploy m iid l out err p v w).
Proof. apply ends_finalizeDeployWith. Qed.

Context `{QuantityOps} (reg : ClusterResolver) (a : deployArgs) (Hiid : si_ID (da_instance a) = iid).

Lemma ends_cancelDeployAfterPreHook l out cur v :
  dl_ID l = lid -> ends lid (cancelDeployAfterPreHook m iid l out cur v).
Proof.
  intros Hid. unfold cancelDeployAfterPreHook. eapply ends_then; [apply own_broadcastLog, keeps_msg|].
  intros _ _. by apply ends_finalizeDeploy.
Qed.

Lemma ends_afterInstalls l q s : dl_ID l = lid -> ends lid (afterInstalls m reg a l q s).
Proof.
  intros Hid. unfold afterInstalls. rewrite Hiid, Hid.
  eapply (ends_then _ _ _ (fun _ => True)); [case_match; [keep own_applyQuotasForDeploy|by apply own_ret]|].
  intros w _. eapply (ends_then _ _ _ (fun _ => True)); [case_match; [keep own_readinessPhase|by apply own_ret]|].
  intros [[[err out] rw] last] _.
  eapply (ends_then _ _ _ (fun _ => True)); [case_match; [keep own_siteURLFor|by apply own_ret]|]. intros u _.
  eapply ends_then; [keep own_podStop|]. intros [lines ev] _.
  apply ends_if; intros _; [by apply ends_finalizeDeployWith|].
  eapply ends_then; [eapply own_runBlockingPostDeploy; (exact Hid || keep_op)|]. intros r _.
  repeat case_match; by apply ends_finalizeDeployWith.
Qed.

Lemma ends_runInstalls l out : dl_ID l = lid -> ends lid (runInstalls m reg a l out).
Proof.
  intros Hid. unfold runInstalls. rewrite Hiid, Hid.
  eapply (ends_then _ _ _ (fun _ => True)); [own_steps ltac:(keep_op)|]. intros [e|] _; [by apply ends_finalizeDeploy|].
  eapply ends_then; [keep own_ensureNamespace|]. intros r _.
  eapply (ends_then _ _ _ (fun _ => True)); [case_match; [keep own_applyQuotasForDeploy|by apply own_ret]|]. intros w _.
  eapply ends_then; [keep own_copyWildcardTLS|]. intros tls _.
  eapply ends_then; [keep own_ensurePullSecret|]. intros pull _.
  eapply (ends_then _ _ _ (fun _ => True)); [case_match; [keep own_applyRoleBindings|by apply own_ret]|]. intros roles _.
  eapply ends_then; [keep own_registryLogin|]. intros login _.
  eapply ends_then.
  { eapply own_installCharts; try keep_op. intros c _ _ e He op rows ->. by destruct He. }
  intros s _. apply ends_if; intros _; [|by apply ends_afterInstalls].
  eapply ends_then; [apply own_broadcastLog, keeps_msg|]. intros _ _.
  eapply ends_then; [keep own_podStop|]. intros pods _. by apply ends_finalizeDeploy.
Qed.

Lemma ends_executeDeploy l : dl_ID l = lid -> ends lid (executeDeploy m reg a l).
Proof.
  intros Hid. unfold executeDeploy. rewrite Hiid, Hid.
  eapply (ends_then _ _ _ (fun _ => True)).
  { eapply (own_bind _ _ _ (fun _ => True)); [case_match; [keep own_effectiveNamespaceQuota|by apply own_ret]|].
    intros [?|e] _; [by apply own_ret|]. case_match; [|by apply own_ret].
    eapply own_bind; [apply own_broadcastLog, keeps_msg|]. intros. by apply own_ret. }
  intros rej _.
  eapply (ends_first _ _ _ (fun _ => True)); [| |intros; apply own_modMem].
  - destruct rej as [[out e]|]; [by apply ends_finalizeDeploy|].
    eapply ends_then; [apply own_firePreHook, keeps_msg|]. intros pre _.
    destruct (ph_lost pre); [by apply ends_cancelDeployAfterPreHook|].
    destruct (ph_err pre).
    + eapply ends_then; [apply own_broadcastLog, keeps_msg|]. intros _ _. by apply ends_finalizeDeploy.
    + eapply ends_then; [apply own_ownsInstance|]. intros p _.
      apply ends_if; intros _; [by apply ends_cancelDeployAfterPreHook|].
      intros w Hw. rewrite bind_eq. pose proof (extendDeadline_over m l (Some (da_helm a))
        (Z.of_nat (length (da_charts a))) w) as Ho. rewrite Hid in Ho. specialize (Ho Hw).
      destruct (own_extendDeadline m (fun e => forall op rows, e = EvWrite op rows -> fresh_ops lid op)
        l (Some (da_helm a)) (Z.of_nat (length (da_charts a)))) with (w := w) as [E Hl]; [keep_op|apply Hw|].
      assert (Hf : fair lid (extendDeadline m l (Some (da_helm a)) (Z.of_nat (length (da_charts a))) w).2)
        by (by eapply fair_evolves).
      destruct (extendDeadline _ _ _ _ _) as [[l'|] w']; cbn [fst snd] in *; [|by apply Ho].
      destruct (Hl l' eq_refl) as [d ->]. by apply ends_runInstalls.
  - destruct rej as [[out e]|]; [eapply own_finalizeDeploy; (exact Hid || keep_op)|].
    eapply own_bind; [apply own_firePreHook, keeps_msg|]. intros pre _.
    destruct (ph_lost pre); [eapply own_cancelDeployAfterPreHook; (exact Hid || keep_op)|].
    destruct (ph_err pre).
    + eapply own_bind; [apply own_broadcastLog, keeps_msg|]. intros _ _.
      eapply own_finalizeDeploy; (exact Hid || keep_op).
    + eapply own_bind; [apply own_ownsInstance|]. intros p _.
      case_match; [eapply own_cancelDeployAfterPreHook; (exact Hid || keep_op)|].
      eapply own_bind; [apply own_extendDeadline; keep_op|]. intros [l'|] Hl; [|by apply own_ret].
      destruct (Hl l' eq_refl) as [d ->].
      eapply own_runInstalls; try eassumption; try keep_op; try reflexivity.
      intros c _ _ e He op rows ->. by destruct He.
Qed.
End ending.

(** C2. Every deploy ends its log.  Whatever Helm, Kubernetes, the hooks and the
    other replicas do, also when another operation takes the instance or the
    leader ends the deploy meanwhile, the log of the deploy does not run any
    more when [executeDeploy] returns, provided the database statements of this
    process succeed and no log reuses its ID. *)
Theorem deploy_ends_log m `{QuantityOps} reg a l w :
  keyed (w_db w) -> no_fault w -> env_ok (fresh_ops (dl_ID l)) w ->
  over (dl_ID l) (w_db (executeDeploy m reg a l w).2).
Proof. intros Hk Hn Ho. eapply (ends_executeDeploy m (si_ID (da_instance a))); done. Qed.

(** ** The result of a deploy *)

(** Another operation has the instance: another status, or a newer log. *)
Definition taken_over (m : Manager) (lid : string) (inst : StackInstance) (s : Store) : bool :=
  (negb (bool_decide (si_Status inst = StackStatusDeploying)) &&
   negb (bool_decide (si_Status inst = StackStatusStabilizing))) ||
  superseded m (si_ID inst) lid s.

Lemma hoare_announceDeploy m s i lid err p w ig u :
  keyed s -> hoare s (announceDeploy m i lid err p w ig u) (fun _ s' => s' = s).
Proof.
  intros Hk. eapply hoare_post.
  - apply (hoare_own message); [by apply own_announceDeploy|done|intros op H; exact (H 0%Z)].
  - by intros ? ? [-> _].
Qed.

Lemma hoare_finalizeDeployWith m s l out err p v rw ig u inst l0 :
  keyed s -> st_instances s !! si_ID inst = Some inst ->
  st_logs s !! dl_ID l = Some l0 -> log_running l0 = true ->
  hoare s (finalizeDeployWith m (si_ID inst) l out err p v rw ig u) (fun _ s' => exists now upd,
    let l1 := ended_log out now l in
    let f := finalized now err p v inst l1 in
    s' = if taken_over m (dl_ID l) inst s then end_log (concurrent_log err p v l1) s
         else set_instance (si_set_UpdatedAt upd f.1) (end_log f.2 s)).
Proof.
  intros Hk Hi Hl Hr. unfold finalizeDeployWith, taken_over.
  eapply hoare_bind; [apply hoare_clock|]. intros now ? ->.
  eapply hoare_bind; [apply hoare_FindByID|]. intros r s' [-> ->]. unfold find_result. rewrite Hi.
  set (other := negb _ && negb _).
  eapply (hoare_bind _ _ _ (fun r s' => s' = s /\ r = other || superseded m (si_ID inst) (dl_ID l) s)).
  { destruct other; [by apply hoare_ret|]. apply hoare_newerOperation. }
  intros b s' [-> ->]. destruct (other || _).
  - eapply hoare_bind; [apply hoare_modMem|]. intros ? ? ->.
    destruct (concurrent_log_ended err p v (ended_log out now l)) as [H1 H2].
    eapply hoare_bind; [apply (hoare_writeFinal_log _ _ _ l0); [by rewrite H1|done|done]|].
    intros r s' [-> ->]. apply hoare_ret. by exists now, 0%Z.
  - destruct (finalized_id now err p v inst (ended_log out now l)) as [H1 H2].
    destruct (finalized_status now err p v inst (ended_log out now l)) as [_ H4].
    assert (Hrow : forall t, saved_row inst (si_set_UpdatedAt t (finalized now err p v inst (ended_log out now l)).1) =
                             si_set_UpdatedAt t (finalized now err p v inst (ended_log out now l)).1).
    { intros t. apply saved_row_same; unfold finalized; by repeat case_match. }
    assert (He : si_ExpiresAt (finalized now err p v inst (ended_log out now l)).1 = si_ExpiresAt inst).
    { unfold finalized. repeat case_match; done. }
    destruct (finalized now err p v inst (ended_log out now l)) as [i' l'] eqn:Ef. cbn [fst snd] in *.
    eapply hoare_bind; [apply (hoare_writeFinal _ _ _ l0) with (i0 := inst)|].
    { by rewrite H2. } { done. } { done. } { by rewrite H1. } { done. } { done. }
    intros r s' [-> [upd ->]]. cbn [negb]. rewrite Hrow. eapply hoare_post; [apply hoare_announceDeploy|].
    + set (s1 := set_instance _ _). unfold s1.
      destruct Hk as [Kl Ki]. split; cbn; intros id x.
      * rewrite lookup_insert_Some. intros [[<- <-]|[_ H]]; [done|by apply Kl].
      * rewrite lookup_insert_Some. intros [[<- <-]|[_ H]]; [done|by apply Ki].
    + intros ? ? ->. exists now, upd. by rewrite Ef.
Qed.

(** The end of a deploy without interference, for every result of the
    installs: the database afterwards is the one before with the log replaced
    and, when the deploy still has the instance, its row.  The row gets running
    (and the deployed values), partial or error with the sanitized reason; the
    marker of the blocking hooks is cleared, and the expiry and the delete mark
    are kept.  A failed deploy keeps the last deploy time.  When another operation has the instance (another status or a newer
    log), no instance row changes.  The log ends with the status of the result
    in both cases. *)
Theorem finalizeDeploy_result m l out err p v rw ig u w inst l0 :
  calm w -> keyed (w_db w) -> st_instances (w_db w) !! si_ID inst = Some inst ->
  st_logs (w_db w) !! dl_ID l = Some l0 -> log_running l0 = true -> (p = true -> is_Some err) ->
  exists i' l',
    w_db (finalizeDeployWith m (si_ID inst) l out err p v rw ig u w).2 =
      (if taken_over m (dl_ID l) inst (w_db w) then end_log l' (w_db w) else set_instance i' (end_log l' (w_db w))) /\
    dl_ID l' = dl_ID l /\ dl_Output l' = truncateString out maxOutputLen /\ is_Some (dl_CompletedAt l') /\
    dl_Status l' = match err with None => "success" | Some _ => if p then "partial" else "error" end /\
    si_ID i' = si_ID inst /\ si_PostDeployHookUntil i' = None /\
    si_ExpiresAt i' = si_ExpiresAt inst /\ si_DeleteAfterClean i' = si_DeleteAfterClean inst /\
    match err with
    | None => si_Status i' = "running" /\ si_ErrorMessage i' = "" /\ si_LastDeployedValues i' = v /\
              is_Some (si_LastDeployedAt i')
    | Some e => si_ErrorMessage i' = truncateString (sanitizeDeployError e) 256 /\
                dl_ErrorMessage l' = truncateString (sanitizeDeployError e) 1024 /\
                if p then si_Status i' = "partial" /\ si_LastDeployedValues i' = v
                else si_Status i' = "error" /\ si_LastDeployedAt i' = si_LastDeployedAt inst
    end.
Proof.
  intros Hc Hk Hi Hl Hr Hp.
  destruct (hoare_finalizeDeployWith m _ l out err p v rw ig u inst l0 Hk Hi Hl Hr w Hc eq_refl) as [_ (now & upd & ->)].
  exists (si_set_UpdatedAt upd (finalized now err p v inst (ended_log out now l)).1),
    (if taken_over m (dl_ID l) inst (w_db w) then concurrent_log err p v (ended_log out now l)
     else (finalized now err p v inst (ended_log out now l)).2).
  unfold finalized, concurrent_log. destruct err as [e|], p; [| |by destruct (Hp eq_refl)|].
  all: destruct (taken_over _ _ _ _); cbn; split_and!; eauto.
Qed.

(** ** The pre-deploy gate *)

Definition no_helm (e : event) : Prop :=
  match e with
  | EvHelmInstall _ _ _ _ _ _ _ | EvHelmUninstall _ _ _ _ | EvHelmRollback _ _ _ | EvK8s _ _ => False
  | _ => True
  end.
Lemma no_helm_msg e : message e -> no_helm e.
Proof. by destruct e. Qed.

(** Every answer of the subscribers closes the gate. *)
Definition gate_closed (d : Dispatcher) (event : string) (w : World) : Prop :=
  forall n ref, (Fire d event (Some ref) (e_answer (w_env w n))).2 <> None.

Lemma firePreHook_closed m d event i lid md w :
  m_hooks m = Some d -> gate_closed d event w -> keyed (w_db w) ->
  is_Some (ph_err (firePreHook m event i lid md w).1).
Proof.
  intros Hd Hg Hk. unfold firePreHook. rewrite Hd. rewrite bool_decide_eq_false_2 by done.
  rewrite bind_eq. unfold fireDeployHook. rewrite Hd. rewrite !bind_eq. cbn [ret fst snd ph_err].
  rewrite step_eq. cbn [fst]. destruct (Fire _ _ _ _).2 eqn:E; [done|]. by destruct (Hg _ _ E).
Qed.

(** C10. A denied deploy installs nothing.  When every answer of the pre-deploy
    subscribers closes the gate (a fail-closed subscriber denies, fails, or its
    scope cannot be decided), the whole run of [executeDeploy] makes no Helm and
    no Kubernetes call, whatever else happens. *)
Theorem deploy_gate m `{QuantityOps} reg a l w d :
  m_hooks m = Some d -> keyed (w_db w) -> gate_closed d EventPreDeploy w ->
  exists tr, w_trace (executeDeploy m reg a l w).2 = (tr ++ w_trace w)%list /\ Forall no_helm tr.
Proof.
  intros Hd Hk Hg. unfold executeDeploy. rewrite bind_eq. set (body := bind _ _ : M (option _)).
  assert (Hb : own no_helm body (fun _ => True)).
  { eapply (own_bind _ _ _ (fun _ => True)); [case_match; [by eapply own_effectiveNamespaceQuota|by apply own_ret]|].
    intros [?|e] _; [by apply own_ret|]. case_match; [|by apply own_ret].
    eapply own_bind; [apply own_broadcastLog, no_helm_msg|]. intros. by apply own_ret. }
  destruct (Hb w Hk) as [E1 _]. rewrite bind_eq.
  set (w1 := (body w).2) in *. set (run := match (body w).1 with Some _ => _ | None => _ end).
  assert (Hg1 : gate_closed d EventPreDeploy w1) by (unfold gate_closed; by rewrite (ev_env _ _ _ E1)).
  assert (Hk1 : keyed (w_db w1)) by by apply (ev_keyed _ _ _ E1).
  assert (E2 : evolves no_helm w1 (run w1).2).
  { unfold run. destruct (body w).1 as [[out e]|].
    { eapply own_evolves, Hk1. eapply (own_finalizeDeploy _ _ _ (dl_ID l)); try done; apply no_helm_msg. }
    rewrite bind_eq.
    destruct (firePreHook_closed m d EventPreDeploy (da_instance a) (dl_ID l) (da_opts a) w1 Hd Hg1 Hk1) as [e He].
    destruct (own_firePreHook m no_helm no_helm_msg EventPreDeploy (da_instance a) (dl_ID l) (da_opts a) w1 Hk1) as [E _].
    assert (Hk2 := ev_keyed _ _ _ E Hk1).
    destruct (firePreHook m EventPreDeploy _ _ _ w1) as [pre w2]. cbn [fst snd] in *.
    eapply evolves_trans; [exact E|]. destruct (ph_lost pre).
    - eapply own_evolves, Hk2. eapply (own_cancelDeployAfterPreHook _ _ _ (dl_ID l)); try done; apply no_helm_msg.
    - rewrite He. eapply own_evolves, Hk2. eapply own_bind; [apply own_broadcastLog, no_helm_msg|].
      intros _ _. eapply (own_finalizeDeploy _ _ _ (dl_ID l)); try done; apply no_helm_msg. }
  apply (ev_trace _ _ _ (evolves_trans _ _ _ _ E1 E2)).
Qed.

(** ** Witnesses *)

Definition sample_chart (name : string) (order : Z) : ChartDeployInfo :=
  mkChartInfo (mkChart ("c-" +:+ name) "def-1" name "oci://registry.example/charts" "" "" "" "1.2.3" "" order)
    "replicas: 1" "main".
Definition sample_deploy : deployArgs :=
  mkDeployArgs (mkHelm (5 * Minute) false) true None (sample_instance "i1" StackStatusDeploying)
    [sample_chart "api" 1; sample_chart "web" 2] "{}" (mkOpts [] []).
Definition sample_resolver : ClusterResolver :=
  mkResolver (fun id => Ok id) (fun _ => Ok (Some (mkHelm (5 * Minute) false))) (fun _ => Ok true) (fun _ => Ok None).
Definition deploying_world : World := calm_world (busy_store StackStatusDeploying DeployActionDeploy).
Definition running_log : DeploymentLog :=
  mkLog "l2" "i1" DeployActionDeploy DeployLogRunning "" "" "" "" "main" "" "alice" "pod-a" 3000 None (Some 9000%Z).

(** A deploy of two charts on a healthy cluster runs to the end: the instance is
    running and the log is a success. *)
Example executeDeploy_runs :
  let w := (@executeDeploy plain_manager milli_ops sample_resolver sample_deploy running_log deploying_world).2 in
  (si_Status <$> st_instances (w_db w) !! "i1") = Some StackStatusRunning /\
  (dl_Status <$> st_logs (w_db w) !! "l2") = Some DeployLogSuccess /\
  length (List.filter (fun e => match e with EvHelmInstall _ _ _ _ _ _ _ => true | _ => false end) (w_trace w)) = 2%nat.
Proof. vm_compute. auto. Qed.

Lemma deploy_ends_log_witness :
  over "l2" (w_db (@executeDeploy plain_manager milli_ops sample_resolver sample_deploy running_log deploying_world).2).
Proof.
  apply (deploy_ends_log plain_manager sample_resolver sample_deploy running_log deploying_world).
  - apply busy_store_keyed.
  - apply calm_world_calm.
  - intros n. constructor.
Defined.

(** A partial deploy of an instance that still stabilizes. *)
Definition stabilizing_world : World := calm_world (busy_store StackStatusStabilizing DeployActionDeploy).
Lemma finalizeDeploy_result_witness :
  exists i' l',
    w_db (finalizeDeployWith plain_manager "i1" running_log "done" (errorsNew "partial deploy: web") true "{}" "" [] ""
            stabilizing_world).2 = set_instance i' (end_log l' (w_db stabilizing_world)) /\
    si_Status i' = "partial" /\ dl_Status l' = "partial".
Proof.
  destruct (finalizeDeploy_result plain_manager running_log "done" (errorsNew "partial deploy: web") true "{}" "" [] ""
    stabilizing_world (sample_instance "i1" StackStatusStabilizing) running_log
    (calm_world_calm _) (busy_store_keyed _ _) eq_refl eq_refl eq_refl (fun _ => ltac:(by eexists)))
    as (i' & l' & H & _ & _ & _ & Hs & _ & _ & _ & _ & _ & _ & Hi & _).
  exists i', l'. split; [exact H|]. split; [exact Hi|exact Hs].
Defined.

(** [plain_manager] with a gate whose subscriber cannot be reached. *)
Definition gated_manager : Manager :=
  mkManager true true true true true false None (Some [gate_sub]) "pod-a" (10 * Minute) [] "" "" "" [].

Lemma deploy_gate_witness :
  exists tr, w_trace (@executeDeploy gated_manager milli_ops sample_resolver sample_deploy running_log deploying_world).2
             = (tr ++ w_trace deploying_world)%list /\ Forall no_helm tr.
Proof.
  apply (deploy_gate gated_manager sample_resolver sample_deploy running_log deploying_world [gate_sub]).
  - reflexivity.
  - apply busy_store_keyed.
  - intros n ref. discriminate.
Defined.
