(* ===== verification/Teardown.v ===== *)
(** * Stop and clean

    [deployer/manager.go] from [StopWithCharts] to [finalizeClean] and
    [operation_wait.go].  The wait of a stop for an earlier operation is a loop
    with fuel: [None] says that it still waits.  The tables that hang on an
    instance (overrides, followers, action runs) and the owned definition are not
    modelled: their deletes are one step that can fail. *)

From S2P Require Import Prelude Models Store Hooks World Output Manager Ends Calm Deploy.
Local Open Scope string_scope.

(** ** Waiting for an earlier operation *)

Definition helmLogActions : list string := [DeployActionDeploy; DeployActionRollback].
Definition earlierOperationReadBudget : Z := 2 * Minute.

(** A log that the stop of [stopLog] must wait for at [now]. *)
Definition awaited (stopLog : DeploymentLog) (now : time) (l : DeploymentLog) : bool :=
  negb (bool_decide (dl_ID l = dl_ID stopLog)) && log_running l &&
  negb (dl_StartedAt stopLog <? dl_StartedAt l)%Z &&
  match dl_DeadlineAt l with None => false | Some d => (now <? d)%Z end.

Definition runningEarlierLog (logs : list DeploymentLog) (stopLog : DeploymentLog) (now : time)
    : option DeploymentLog := List.find (awaited stopLog now) logs.

Definition withoutLog (logs : list DeploymentLog) (id : string) : list DeploymentLog :=
  List.filter (fun l => negb (bool_decide (dl_ID l = id))) logs.

Section teardown.
Context (m : Manager).

Definition replicaAlive (replicaID : string) : M (res bool) :=
  If empty replicaID || bool_decide (replicaID = m_replicaID m) || negb (m_heartbeats m) Return ret (Ok true) ;;
  SeenWithin replicaID StaleAfter.

(** The loop over the running logs; every turn drops one log, so as many turns
    as logs are enough. *)
Fixpoint firstAlive (n : nat) (logs : list DeploymentLog) (stopLog : DeploymentLog)
    : M (res (option DeploymentLog)) :=
  let! now := clock in
  match n, runningEarlierLog logs stopLog now with
  | S n, Some running =>
      let! alive := replicaAlive (dl_ReplicaID running) in
      match alive with
      | Err e => ret (Err e)
      | Ok true => ret (Ok (Some running))
      | Ok false => firstAlive n (withoutLog logs (dl_ID running)) stopLog
      end
  | _, _ => ret (Ok None)
  end.

Definition runningEarlierOperation (instanceID : string) (stopLog : DeploymentLog)
    : M (res (option DeploymentLog)) :=
  let! r := ListLatestByActions instanceID helmLogActions (length helmLogActions + 1) in
  match r with
  | Err e => ret (Err e)
  | Ok logs => firstAlive (length logs) logs stopLog
  end.

(** [waitForEarlierOperations]: the output line, or [None] when the fuel ends
    while an operation is awaited. *)
Fixpoint waitForEarlier (fuel : nat) (instanceID : string) (stopLog : DeploymentLog) (waitLine : string)
    (failingSince : option time) : M (option string) :=
  match fuel with
  | O => ret None
  | S fuel =>
      let next (waitLine : string) (failingSince : option time) :=
        let! down := isDown in
        If down Return ret (Some waitLine) ;;
        waitForEarlier fuel instanceID stopLog waitLine failingSince in
      let! r := runningEarlierOperation instanceID stopLog in
      match r with
      | Err _ =>
          let! now := clock in
          let since := default now failingSince in
          let! now' := clock in
          If (earlierOperationReadBudget <=? now' - since)%Z Return ret (Some waitLine) ;;
          next waitLine (Some since)
      | Ok None => ret (Some waitLine)
      | Ok (Some running) =>
          If negb (empty waitLine) Return next waitLine None ;;
          let line := "Waiting for the running " +:+ dl_Action running +:+ " (log " +:+ dl_ID running +:+
                      ") to end before the uninstall" in
          run! broadcastLog m instanceID (dl_ID stopLog) line in
          next (line +:+ nl) None
      end
  end.

Definition waitForEarlierOperations (fuel : nat) (instanceID : string) (stopLog : DeploymentLog)
    : M (option string) :=
  If negb (m_logRepo m) Return ret (Some "") ;;
  waitForEarlier fuel instanceID stopLog "" None.

(** ** Stop *)

Definition msgStopCancelled := "stop cancelled: a newer operation started on the instance while the stop waited".

Definition cancelStopForNewerOperation (instanceID : string) (stopLog : DeploymentLog) (output : string) : M unit :=
  run! broadcastLog m instanceID (dl_ID stopLog) ("WARNING: " +:+ msgStopCancelled) in
  let! now := clock in
  run! modMem (mem_del_action (dl_ID stopLog)) in
  run! writeFinal m None (ended_log (output +:+ "WARNING: " +:+ msgStopCancelled +:+ nl) now stopLog
         |> dl_set_Status DeployLogError |> dl_set_ErrorMessage msgStopCancelled) in
  ret tt.

(** The rows that a finished stop writes. *)
Definition stopped (now : time) (stopErr : error) (instance : StackInstance) (l : DeploymentLog)
    : StackInstance * DeploymentLog :=
  let instance := si_set_PostDeployHookUntil None instance in
  match stopErr with
  | Some e =>
      (instance |> si_set_Status StackStatusError
                |> si_set_ErrorMessage (truncateString (sanitizeDeployError e) maxInstanceErrorLen),
       l |> dl_set_Status DeployLogError
         |> dl_set_ErrorMessage (truncateString (sanitizeDeployError e) maxLogErrorLen))
  | None =>
      (instance |> si_set_Status StackStatusStopped |> si_set_ErrorMessage "" |> si_set_StoppedAt (Some now),
       l |> dl_set_Status DeployLogSuccess)
  end.

Definition announceStop (instance : StackInstance) (logID : string) (stopErr : error) : M unit :=
  run! broadcastStatusWithError m (si_ID instance) (si_Status instance) logID
         (if bool_decide (is_Some stopErr) then si_ErrorMessage instance else "") in
  run! fireAndForget m EventStopCompleted instance logID [] in
  let! trigger := triggerFor logID in
  If bool_decide (is_Some stopErr) Return
    notifyInstance m instance "stop.error" "Stop failed"
      ("Stopping " +:+ si_Name instance +:+ " failed: " +:+ si_ErrorMessage instance) trigger "" ;;
  let! policy := cleanupPolicyTrigger logID in
  match policy with
  | Some p => notifyInstance m instance "cleanup.policy.stop" "Stack stopped by a cleanup policy"
                (policyActionMessage (si_Name instance) "stopped" p) trigger ""
  | None => notifyInstance m instance "deployment.stopped" "Stack stopped"
              ("Stack " +:+ si_Name instance +:+ " has been stopped") trigger ""
  end.

Definition finalizeStop (instanceID : string) (deployLog : DeploymentLog) (output : string) (stopErr : error) : M unit :=
  let! now := clock in
  let! r := instance_FindByID instanceID in
  match r with
  | Err _ => ret tt
  | Ok instance =>
      let '(instance, deployLog) := stopped now stopErr instance (ended_log output now deployLog) in
      let! ok := writeFinal m (Some instance) deployLog in
      If negb ok Return modMem (mem_del_action (dl_ID deployLog)) ;;
      announceStop instance (dl_ID deployLog) stopErr
  end.

(** One uninstall; [timeout] is 0 for a clean, which does not wait. *)
Definition helmUninstall (helm : HelmExecutor) (instanceID logID release namespace : string) (noWait : bool)
    (timeout : Z) : M (string * error) :=
  let! st := step in
  run! emit (EvHelmUninstall release namespace noWait timeout) in
  run! when_ (he_streaming helm) (forEach (e_lines st) (broadcastLog m instanceID logID)) in
  run! when_ (negb (he_streaming helm)) (broadcastLog m instanceID logID (e_text st)) in
  ret (e_text st, e_err st).

(** The uninstalls of a stop end at the first error; [deadline] is the deadline
    of their context. *)
Fixpoint stopCharts (helm : HelmExecutor) (instanceID logID namespace : string) (deadline : time)
    (charts : list ChartDeployInfo) (output : string) : M (string * error) :=
  match charts with
  | [] => ret (output, None)
  | c :: rest =>
      let! now := clock in
      let! r := helmUninstall helm instanceID logID (chartName c) namespace false
                  (uninstallWaitTimeout (Some deadline) now) in
      let output := output +:+ chartHeader (chartName c) r.1 in
      match r.2 with
      | None => stopCharts helm instanceID logID namespace deadline rest output
      | Some e =>
          If Contains r.1 "not found" Return
            stopCharts helm instanceID logID namespace deadline rest
              (output +:+ "Release " +:+ quote (chartName c) +:+ " already removed, skipping" +:+ nl) ;;
          let err := EWrap ("uninstalling chart " +:+ quote (chartName c) +:+ ": ") e "" in
          ret (output +:+ "ERROR: " +:+ errText err +:+ nl, Some err)
      end
  end.

(** [executeStopWithCharts]: false when it still waits after [fuel] turns. *)
Definition executeStop (fuel : nat) (helm : HelmExecutor) (instanceID : string) (deployLog : DeploymentLog)
    (namespace : string) (charts : list ChartDeployInfo) : M bool :=
  let! waited := waitForEarlierOperations fuel instanceID deployLog in
  match waited with
  | None => ret false
  | Some waitOutput =>
      let! down := isDown in
      run! (If down Return finalizeStop instanceID deployLog waitOutput (Some errStopInterrupted) ;;
        let! newer := newerOperation m instanceID (dl_ID deployLog) in
        If newer Return cancelStopForNewerOperation instanceID deployLog waitOutput ;;
        let! ext := extendDeadline m deployLog (Some helm) (Z.of_nat (length charts)) in
        match ext with
        | None => ret tt
        | Some deployLog =>
            let! start := clock in
            let! r := stopCharts helm instanceID (dl_ID deployLog) namespace (start + he_Timeout helm) charts waitOutput in
            finalizeStop instanceID deployLog r.1 r.2
        end) in
      run! modMem (mem_del_trigger (dl_ID deployLog)) in
      ret true
  end.

(** The start of a stop. *)
Definition newLog (action : string) (instance : StackInstance) (logID : string) (now : time)
    (helm : HelmExecutor) (charts : nat) : DeploymentLog :=
  mkLog logID (si_ID instance) action DeployLogRunning "" "" "" "" "" "" "" (m_replicaID m) now None
    (Some (operationDeadline m now action (Some helm) (Z.of_nat charts))).

(** Reverse deploy order. *)
Definition teardown_order (charts : list ChartDeployInfo) : list ChartDeployInfo :=
  sort_by (fun c => - cc_DeployOrder (ci_ChartConfig c))%Z charts.

(** The Helm executor of the cluster of an instance, and its Kubernetes client
    when [needK8s]. *)
Definition teardownClients (needK8s : bool) (clusterID : string) : res (HelmExecutor * bool) :=
  match m_registry m with
  | None => Err (ENew "cluster registry is not configured")
  | Some reg =>
      id <-r res_wrap "resolving cluster: " (ResolveClusterID reg clusterID) ;;
      helm <-r res_wrap "getting cluster clients: " (GetHelmExecutor reg id) ;;
      match helm with
      | None => Err (ENew "getting cluster clients: helm executor is nil")
      | Some helm =>
          If negb needK8s Return Ok (helm, false) ;;
          k8s <-r res_wrap "getting cluster k8s client: " (GetK8sClient reg id) ;;
          Ok (helm, k8s)
      end
  end.

(** [StopWithCharts]: the job of the goroutine or the error. *)
Definition StopWithCharts (trigger : option Trigger) (instance : StackInstance) (charts : list ChartDeployInfo)
    : M (res (HelmExecutor * DeploymentLog * list ChartDeployInfo)) :=
  let! ctx := ctxErr in
  match ctx with
  | Some e => ret (Err (EWrap "request cancelled: " e ""))
  | None =>
      let! down := isDown in
      If down Return ret (Err (ENew "server is shutting down")) ;;
      match teardownClients false (si_ClusterID instance) with
      | Err e => ret (Err e)
      | Ok (helm, _) =>
          let! st := step in
          let logID := e_text st in
          let deployLog := newLog DeployActionStop instance logID (e_now st) helm (length charts) in
          run! modMem (mem_set_action logID DeployActionStop) in
          let instance := instance |> si_set_Status StackStatusStopping |> si_set_ErrorMessage "" in
          let! err := createLogAndUpdate m instance deployLog in
          match err with
          | Some e => ret (Err e)
          | None =>
              run! broadcastStatus m (si_ID instance) StackStatusStopping logID in
              run! rememberTrigger trigger logID in
              ret (Ok (helm, deployLog, teardown_order charts))
          end
      end
  end.

(** ** Clean *)

Definition clearDeleteAfterClean (instanceID : string) : M unit :=
  run! ClearDeleteAfterClean instanceID in ret tt.

(** [DeleteInstanceRecord] in its transaction; without a transaction runner only
    the instance row is deleted. *)
Definition deleteDependents : M error := let! st := step in ret (e_fault st).
Definition deleteInstance (instanceID : string) : M error :=
  If negb (m_txRunner m) Return instance_Delete instanceID ;;
  RunInTx (
    let! err := deleteDependents in
    match err with
    | Some e => ret (Some e)
    | None => instance_Delete instanceID
    end).

(** The rows that a finished clean writes. *)
Definition cleaned (now : time) (cleanErr : error) (instance : StackInstance) (l : DeploymentLog)
    : StackInstance * DeploymentLog :=
  let shouldDelete := si_DeleteAfterClean instance in
  let instance := si_set_PostDeployHookUntil None instance in
  match cleanErr with
  | Some e =>
      let text := sanitizeDeployError e in
      (instance |> si_set_Status StackStatusError
                |> si_set_DeleteAfterClean false
                |> si_set_ErrorMessage (truncateString
                     (if shouldDelete then DeleteCleanFailedMessage +:+ " " +:+ text else text) maxInstanceErrorLen),
       l |> dl_set_Status DeployLogError |> dl_set_ErrorMessage (truncateString text maxLogErrorLen))
  | None =>
      (instance |> si_set_Status StackStatusDraft |> si_set_ErrorMessage "" |> si_set_LastDeployedAt None
                |> si_set_StoppedAt None |> si_set_CleanedAt (Some now),
       l |> dl_set_Status DeployLogSuccess)
  end.

(** The hooks and notifications of a finished clean. *)
Definition announceClean (instance : StackInstance) (logID : string) (cleanErr : error) (deleted : bool) : M unit :=
  run! fireAndForget m EventCleanCompleted instance logID
         (if deleted then [("operation", "delete")] else []) in
  let! trigger := triggerFor logID in
  let! policy := cleanupPolicyTrigger logID in
  If bool_decide (is_Some cleanErr) Return
    notifyInstance m instance "clean.error" "Cleanup failed"
      ("Cleanup of " +:+ si_Name instance +:+ " failed: " +:+ si_ErrorMessage instance) trigger "" ;;
  If deleted Return (
    let message := match policy with
                   | Some p => if empty (tr_Name p) then "Stack " +:+ si_Name instance +:+ " has been deleted"
                               else "Stack " +:+ si_Name instance +:+ " has been deleted by cleanup policy " +:+ quote (tr_Name p)
                   | None => "Stack " +:+ si_Name instance +:+ " has been deleted"
                   end in
    run! notifyInstance m instance "instance.deleted" "Stack deleted" message trigger "" in
    run! fireAndForget m EventPostInstanceDelete instance logID [] in
    fireAndForget m EventDeleteCompleted instance logID []) ;;
  match policy with
  | Some p => notifyInstance m instance "cleanup.policy.clean" "Stack cleaned by a cleanup policy"
                (policyActionMessage (si_Name instance) "cleaned" p +:+ " and returned to draft") trigger ""
  | None => notifyInstance m instance "clean.completed" "Cleanup completed"
              ("Stack " +:+ si_Name instance +:+ " has been cleaned and returned to draft") trigger ""
  end.

(** After the final write: the delete of a marked instance. *)
Definition afterClean (instance : StackInstance) (logID : string) (cleanErr : error) (shouldDelete : bool) : M bool :=
  let instanceID := si_ID instance in
  If bool_decide (is_Some cleanErr) Return (
    run! broadcastStatusWithError m instanceID StackStatusError logID (si_ErrorMessage instance) in ret false) ;;
  If negb shouldDelete Return (
    run! broadcastStatus m instanceID StackStatusDraft logID in ret false) ;;
  let! err := deleteInstance instanceID in
  If bool_decide (is_Some err) Return (
    run! clearDeleteAfterClean instanceID in
    run! broadcastStatus m instanceID StackStatusDraft logID in ret false) ;;
  run! broadcastInstanceDeleted m instanceID logID in
  ret true.

Definition finalizeClean (instanceID : string) (deployLog : DeploymentLog) (output : string) (cleanErr : error) : M unit :=
  let! now := clock in
  let! r := instance_FindByID instanceID in
  match r with
  | Err _ => ret tt
  | Ok instance =>
      let shouldDelete := si_DeleteAfterClean instance in
      let '(instance, deployLog) := cleaned now cleanErr instance (ended_log output now deployLog) in
      run! when_ (bool_decide (is_Some cleanErr) && shouldDelete) (clearDeleteAfterClean instanceID) in
      let! ok := writeFinal m (Some instance) deployLog in
      If negb ok Return (
        run! modMem (mem_del_action (dl_ID deployLog)) in
        when_ shouldDelete (clearDeleteAfterClean instanceID)) ;;
      let! deleted := afterClean instance (dl_ID deployLog) cleanErr shouldDelete in
      announceClean instance (dl_ID deployLog) cleanErr deleted
  end.

(** The uninstalls of a clean go on after an error: the output and the number of
    errors. *)
Fixpoint cleanCharts (helm : HelmExecutor) (instanceID logID namespace : string)
    (charts : list ChartDeployInfo) (output : string) (errors : nat) : M (string * nat) :=
  match charts with
  | [] => ret (output, errors)
  | c :: rest =>
      let! r := helmUninstall helm instanceID logID (chartName c) namespace true 0 in
      let output := output +:+ chartHeader (chartName c) r.1 in
      match r.2 with
      | None => cleanCharts helm instanceID logID namespace rest output errors
      | Some e =>
          If Contains r.1 "not found" Return
            cleanCharts helm instanceID logID namespace rest
              (output +:+ "Release " +:+ quote (chartName c) +:+ " already removed, skipping" +:+ nl) errors ;;
          cleanCharts helm instanceID logID namespace rest
            (output +:+ "ERROR: uninstalling chart " +:+ quote (chartName c) +:+ ": " +:+ errText e +:+ nl) (S errors)
      end
  end.

Definition executeClean (helm : HelmExecutor) (k8sClient : bool) (instanceID : string) (deployLog : DeploymentLog)
    (namespace : string) (charts : list ChartDeployInfo) : M unit :=
  let! ext := extendDeadline m deployLog (Some helm) (Z.of_nat (length charts)) in
  run! match ext with
  | None => clearDeleteAfterClean instanceID
  | Some deployLog =>
      let! r := cleanCharts helm instanceID (dl_ID deployLog) namespace charts "" 0 in
      let! err := if k8sClient then k8sCall "delete namespace" namespace else ret None in
      let cleanErr := wrap_err ("deleting namespace " +:+ quote namespace +:+ ": ") err in
      let output := r.1 +:+ (if negb k8sClient then "" else
        match cleanErr with
        | Some e => "ERROR: " +:+ errText e +:+ nl
        | None => "=== Namespace " +:+ namespace +:+ " deleted ===" +:+ nl
        end) in
      let output := output +:+ (if bool_decide (cleanErr = None) && (0 <? r.2)%nat
        then "WARNING: " +:+ itoa (Z.of_nat r.2) +:+ " of " +:+ itoa (Z.of_nat (length charts)) +:+
             " charts failed to uninstall (namespace deletion cleaned up remaining resources)" +:+ nl
        else "") in
      finalizeClean instanceID deployLog output cleanErr
  end in
  modMem (mem_del_trigger (dl_ID deployLog)).

(** [markCleanStart] and the log of a clean, in this order. *)
Definition startCleanRows (instanceID : string) (deployLog : DeploymentLog) (forDelete : bool) : M error :=
  let body :=
    let! err := MarkCleanStart instanceID CleanStatuses forDelete in
    match err with
    | Some e => ret (Some (EWrap "updating instance status: " e ""))
    | None =>
        let! err := log_Create deployLog in
        ret (wrap_err "creating deployment log: " err)
    end in
  if m_txRunner m then RunInTx body else body.

Definition startClean (trigger : option Trigger) (instance : StackInstance) (charts : list ChartDeployInfo)
    (forDelete : bool) : M (res (HelmExecutor * bool * DeploymentLog * list ChartDeployInfo)) :=
  let! ctx := ctxErr in
  match ctx with
  | Some e => ret (Err (EWrap "request cancelled: " e ""))
  | None =>
      let! down := isDown in
      If down Return ret (Err (ENew "server is shutting down")) ;;
      match teardownClients true (si_ClusterID instance) with
      | Err e => ret (Err e)
      | Ok (helm, k8s) =>
          let! st := step in
          let logID := e_text st in
          let deployLog := newLog DeployActionClean instance logID (e_now st) helm (length charts) in
          run! modMem (mem_set_action logID DeployActionClean) in
          let! err := startCleanRows (si_ID instance) deployLog forDelete in
          match err with
          | Some e => run! modMem (mem_del_action logID) in ret (Err e)
          | None =>
              run! broadcastStatus m (si_ID instance) StackStatusCleaning logID in
              run! rememberTrigger trigger logID in
              ret (Ok (helm, k8s, deployLog, teardown_order charts))
          end
      end
  end.
Definition Clean := fun t i c => startClean t i c false.
Definition CleanForDelete := fun t i c => startClean t i c true.
End teardown.

(** * What a stop and a clean may do *)

(** The end or the deadline of the log of the operation and the row of its
    instance with one of [statuses]. *)
Definition final_stmt (statuses : list string) (iid lid : string) (op : dbop) : Prop :=
  match op with
  | SaveRunningLog l => dl_ID l = lid /\ log_running l = false
  | SetDeadline i _ => i = lid
  | ClearExpiryWarning i _ => i = iid
  | SaveInstance i => si_ID i = iid /\ si_Status i ∈ statuses
  | _ => False
  end.

Definition stop_event (iid lid namespace : string) (charts : list ChartDeployInfo) (e : event) : Prop :=
  match e with
  | EvWrite op _ => final_stmt [StackStatusStopped; StackStatusError] iid lid op
  | EvHelmUninstall release ns noWait timeout =>
      release ∈ List.map chartName charts /\ ns = namespace /\ noWait = false /\
      (Second <= timeout <= defaultUninstallTimeout)%Z
  | EvHelmInstall _ _ _ _ _ _ _ | EvHelmRollback _ _ _ | EvK8s _ _ => False
  | _ => True
  end.

Definition clean_event (iid lid namespace : string) (charts : list ChartDeployInfo) (e : event) : Prop :=
  match e with
  | EvWrite (ClearDelete i) _ | EvWrite (RemoveInstance i) _ => i = iid
  | EvWrite op _ => final_stmt [StackStatusDraft; StackStatusError] iid lid op
  | EvHelmUninstall release ns noWait _ =>
      release ∈ List.map chartName charts /\ ns = namespace /\ noWait = true
  | EvK8s call arg => call = "delete namespace" /\ arg = namespace
  | EvHelmInstall _ _ _ _ _ _ _ | EvHelmRollback _ _ _ => False
  | _ => True
  end.

Lemma final_stmt_fresh sts iid lid id op :
  final_stmt sts iid lid op -> forall rows op' rows', EvWrite op rows = EvWrite op' rows' -> fresh_ops id op'.
Proof. intros Hop ? ? ? [= <- _]. unfold fresh_ops. destruct op; cbn in *; tauto. Qed.

Lemma stopped_facts now err i l :
  si_ID (stopped now err i l).1 = si_ID i /\ dl_ID (stopped now err i l).2 = dl_ID l /\
  si_Status (stopped now err i l).1 ∈ [StackStatusStopped; StackStatusError] /\
  log_running (stopped now err i l).2 = false /\
  si_ExpiresAt (stopped now err i l).1 = si_ExpiresAt i.
Proof. unfold stopped. destruct err; (split_and!; first [done|set_solver|by vm_compute]). Qed.

Lemma cleaned_facts now err i l :
  si_ID (cleaned now err i l).1 = si_ID i /\ dl_ID (cleaned now err i l).2 = dl_ID l /\
  si_Status (cleaned now err i l).1 ∈ [StackStatusDraft; StackStatusError] /\
  log_running (cleaned now err i l).2 = false /\
  si_ExpiresAt (cleaned now err i l).1 = si_ExpiresAt i.
Proof. unfold cleaned. destruct err; (split_and!; first [done|set_solver|by vm_compute]). Qed.

Lemma uninstallWaitTimeout_bounds dl now :
  (Second <= uninstallWaitTimeout dl now <= defaultUninstallTimeout)%Z.
Proof.
  unfold uninstallWaitTimeout, defaultUninstallTimeout, Minute, Second.
  destruct dl as [dl|]; [|lia]. repeat case_match; lia.
Qed.

Section footprint.
Context (m : Manager) (Ev : event -> Prop) (iid lid namespace : string) (statuses : list string).
Context (Hmsg : forall e, message e -> Ev e).
Context (Hfinal : forall op, final_stmt statuses iid lid op -> may_write Ev op).

Ltac msg := solve [apply Hmsg; exact I].
Ltac go := own_steps msg.

Lemma own_replicaAlive r : own Ev (replicaAlive m r) (fun _ => True).
Proof. unfold replicaAlive. go. Qed.
Hint Resolve own_replicaAlive : own.
Lemma own_firstAlive n sl : forall logs, own Ev (firstAlive m n logs sl) (fun _ => True).
Proof. induction n as [|n IH]; intros logs; cbn [firstAlive]; go; apply IH. Qed.
Hint Resolve own_firstAlive : own.
Lemma own_runningEarlierOperation i sl : own Ev (runningEarlierOperation m i sl) (fun _ => True).
Proof. unfold runningEarlierOperation. go. Qed.
Hint Resolve own_runningEarlierOperation : own.
Lemma own_waitForEarlier i sl n : forall wl fs, own Ev (waitForEarlier m n i sl wl fs) (fun _ => True).
Proof. induction n as [|n IH]; intros wl fs; cbn [waitForEarlier]; [by apply own_ret|]. go; apply IH. Qed.
Hint Resolve own_waitForEarlier : own.
Lemma own_waitForEarlierOperations i sl n : own Ev (waitForEarlierOperations m n i sl) (fun _ => True).
Proof. unfold waitForEarlierOperations. go. Qed.

Lemma own_writeFinal_of i l :
  si_ID i = iid -> dl_ID l = lid -> si_Status i ∈ statuses -> log_running l = false ->
  own Ev (writeFinal m (Some i) l) (fun _ => True).
Proof.
  intros Hi Hl Hs Hr. apply own_writeFinal. split; [by apply Hfinal|].
  split; intros; apply Hfinal; [done|exact Hi].
Qed.

Lemma own_cancelStop sl out :
  dl_ID sl = lid -> own Ev (cancelStopForNewerOperation m iid sl out) (fun _ => True).
Proof.
  intros Hid. unfold cancelStopForNewerOperation. eapply own_bind; [eauto with own|]. intros _ _.
  eapply own_bind; [apply own_clock|]. intros now _. eapply own_bind; [apply own_modMem|]. intros _ _.
  eapply own_bind; [apply own_writeFinal; split; [by apply Hfinal|done]|]. intros. by apply own_ret.
Qed.

Lemma own_announceStop i l err : own Ev (announceStop m i l err) (fun _ => True).
Proof. unfold announceStop. go. Qed.
Lemma own_announceClean i l err d : own Ev (announceClean m i l err d) (fun _ => True).
Proof. unfold announceClean. go. Qed.

Lemma own_finalizeStop l out err :
  statuses = [StackStatusStopped; StackStatusError] -> dl_ID l = lid ->
  own Ev (finalizeStop m iid l out err) (fun _ => True).
Proof.
  intros Hst Hid. unfold finalizeStop. eapply own_bind; [apply own_clock|]. intros now _.
  eapply own_bind; [apply own_FindByID|]. intros [i|e] Hi; [|by apply own_ret].
  destruct (stopped_facts now err i (ended_log out now l)) as (H1 & H2 & H3 & H4 & _).
  rewrite <- Hst in H3. destruct (stopped _ _ _ _) as [i' l']. cbn [fst snd] in *.
  eapply own_bind; [apply own_writeFinal_of; [by rewrite H1, (Hi _ eq_refl)|by rewrite H2|done|done]|].
  intros [] _; [apply own_announceStop|apply own_modMem].
Qed.

Lemma own_helmUninstall helm release ns noWait t :
  Ev (EvHelmUninstall release ns noWait t) ->
  own Ev (helmUninstall m helm iid lid release ns noWait t) (fun _ => True).
Proof.
  intros H. unfold helmUninstall. eapply own_bind; [apply own_step|]. intros st _.
  eapply own_bind; [by apply own_emit|]. intros _ _.
  eapply own_bind; [apply own_when; intros _; apply own_forEach; eauto with own|]. go.
Qed.

Lemma own_stopCharts helm dl charts : forall out,
  (forall c t, c ∈ charts -> (Second <= t <= defaultUninstallTimeout)%Z ->
     Ev (EvHelmUninstall (chartName c) namespace false t)) ->
  own Ev (stopCharts m helm iid lid namespace dl charts out) (fun _ => True).
Proof.
  induction charts as [|c rest IH]; intros out H; [by apply own_ret|]. cbn [stopCharts].
  eapply own_bind; [apply own_clock|]. intros now _.
  eapply own_bind; [apply own_helmUninstall, H; [by left|apply uninstallWaitTimeout_bounds]|].
  intros r _. repeat case_match; try (by apply own_ret); apply IH; intros; apply H; by try right.
Qed.

Lemma own_cleanCharts helm charts : forall out n,
  (forall c, c ∈ charts -> Ev (EvHelmUninstall (chartName c) namespace true 0)) ->
  own Ev (cleanCharts m helm iid lid namespace charts out n) (fun _ => True).
Proof.
  induction charts as [|c rest IH]; intros out n H; [by apply own_ret|]. cbn [cleanCharts].
  eapply own_bind; [apply own_helmUninstall, H; by left|].
  intros r _. repeat case_match; apply IH; intros; apply H; by right.
Qed.

Lemma own_clearDelete : may_write Ev (ClearDelete iid) -> own Ev (clearDeleteAfterClean iid) (fun _ => True).
Proof.
  intros H. unfold clearDeleteAfterClean. eapply own_bind; [by apply own_ClearDeleteAfterClean|].
  intros. by apply own_ret.
Qed.
Lemma own_deleteInstance : may_write Ev (RemoveInstance iid) -> own Ev (deleteInstance m iid) (fun _ => True).
Proof.
  intros H. unfold deleteInstance. case_match; [by apply own_instance_Delete|]. apply own_RunInTx.
  unfold deleteDependents. eapply (own_bind _ _ _ (fun _ => True)); [go|]. intros [e|] _; [by apply own_ret|by apply own_instance_Delete].
Qed.

Lemma own_finalizeClean l out err :
  statuses = [StackStatusDraft; StackStatusError] -> dl_ID l = lid ->
  may_write Ev (ClearDelete iid) -> may_write Ev (RemoveInstance iid) ->
  own Ev (finalizeClean m iid l out err) (fun _ => True).
Proof.
  intros Hst Hid Hc Hd. unfold finalizeClean. eapply own_bind; [apply own_clock|]. intros now _.
  eapply own_bind; [apply own_FindByID|]. intros [i|e] Hi; [|by apply own_ret]. specialize (Hi _ eq_refl).
  destruct (cleaned_facts now err i (ended_log out now l)) as (H1 & H2 & H3 & H4 & _).
  rewrite <- Hst in H3. destruct (cleaned _ _ _ _) as [i' l']. cbn [fst snd] in *.
  eapply own_bind; [apply own_when; intros _; by apply own_clearDelete|]. intros _ _.
  eapply own_bind; [apply own_writeFinal_of; [by rewrite H1|by rewrite H2|done|done]|].
  intros ok _. case_match.
  - eapply own_bind; [apply own_modMem|]. intros _ _. apply own_when. intros _. by apply own_clearDelete.
  - eapply (own_bind _ _ _ (fun _ => True)); [|intros; apply own_announceClean].
    unfold afterClean. rewrite H1, Hi. case_match; [go|]. case_match; [go|].
    eapply own_bind; [by apply own_deleteInstance|]. intros er _. case_match; [|go].
    eapply own_bind; [by apply own_clearDelete|]. go.
Qed.
End footprint.

(** A stop after its wait. *)
Lemma own_afterWait (Ev : event -> Prop) m helm iid l namespace charts out :
  (forall e, message e -> Ev e) ->
  (forall op, final_stmt [StackStatusStopped; StackStatusError] iid (dl_ID l) op -> may_write Ev op) ->
  (forall c t, c ∈ charts -> (Second <= t <= defaultUninstallTimeout)%Z ->
     Ev (EvHelmUninstall (chartName c) namespace false t)) ->
  own Ev (let! down := isDown in
      run! (If down Return finalizeStop m iid l out (Some errStopInterrupted) ;;
        let! newer := newerOperation m iid (dl_ID l) in
        If newer Return cancelStopForNewerOperation m iid l out ;;
        let! ext := extendDeadline m l (Some helm) (Z.of_nat (length charts)) in
        match ext with
        | None => ret tt
        | Some l =>
            let! start := clock in
            let! r := stopCharts m helm iid (dl_ID l) namespace (start + he_Timeout helm) charts out in
            finalizeStop m iid l r.1 r.2
        end) in
      run! modMem (mem_del_trigger (dl_ID l)) in
      ret true) (fun _ => True).
Proof.
  intros Hmsg Hf Hu. eapply own_bind; [apply own_isDown|]. intros down _.
  eapply (own_bind _ _ _ (fun _ => True)); [|intros; eapply own_bind; [apply own_modMem|]; intros; by apply own_ret].
  case_match; [by eapply own_finalizeStop|]. eapply own_bind; [by apply own_newerOperation|]. intros n _.
  case_match; [by eapply own_cancelStop|].
  eapply own_bind; [by apply own_extendDeadline; intros; apply Hf|]. intros [l'|] Hl; [|by apply own_ret].
  destruct (Hl l' eq_refl) as [d ->]. eapply own_bind; [apply own_clock|]. intros now _.
  eapply own_bind; [|intros; by eapply own_finalizeStop]. by apply own_stopCharts.
Qed.

(** The whole stop and the whole clean, for any description of the events. *)
Lemma own_executeStop (Ev : event -> Prop) m fuel helm iid l namespace charts :
  (forall e, message e -> Ev e) ->
  (forall op, final_stmt [StackStatusStopped; StackStatusError] iid (dl_ID l) op -> may_write Ev op) ->
  (forall c t, c ∈ charts -> (Second <= t <= defaultUninstallTimeout)%Z ->
     Ev (EvHelmUninstall (chartName c) namespace false t)) ->
  own Ev (executeStop m fuel helm iid l namespace charts) (fun _ => True).
Proof.
  intros Hmsg Hf Hu. unfold executeStop. eapply own_bind; [by apply own_waitForEarlierOperations|].
  intros [out|] _; [by apply own_afterWait|by apply own_ret].
Qed.

Lemma own_executeClean (Ev : event -> Prop) m helm k8sClient iid l namespace charts :
  (forall e, message e -> Ev e) ->
  (forall op, final_stmt [StackStatusDraft; StackStatusError] iid (dl_ID l) op -> may_write Ev op) ->
  may_write Ev (ClearDelete iid) -> may_write Ev (RemoveInstance iid) ->
  (forall c, c ∈ charts -> Ev (EvHelmUninstall (chartName c) namespace true 0)) ->
  Ev (EvK8s "delete namespace" namespace) ->
  own Ev (executeClean m helm k8sClient iid l namespace charts) (fun _ => True).
Proof.
  intros Hmsg Hf Hc Hr Hu Hk. unfold executeClean. eapply own_bind; [by apply own_extendDeadline; intros; apply Hf|].
  intros ext Hl. eapply (own_bind _ _ _ (fun _ => True)); [|intros; apply own_modMem].
  destruct ext as [l'|]; [|by apply own_clearDelete]. destruct (Hl l' eq_refl) as [d ->].
  eapply own_bind; [by apply own_cleanCharts|]. intros r _. eapply (own_bind _ _ _ (fun _ => True)).
  { case_match; [|by apply own_ret]. unfold k8sCall. eapply own_bind; [apply own_step|]. intros st _.
    eapply own_bind; [by apply own_emit|]. intros. by apply own_ret. }
  intros err _. by eapply own_finalizeClean.
Qed.

(** A stop stays inside its footprint, whatever happens around it.  It ends
    (or extends) only its own log, writes only the row of its instance and only
    with the status stopped or error, makes no install, no rollback and no
    Kubernetes call, and uninstalls only releases of its charts in the namespace
    of the instance, each with a wait between one second and five minutes. *)
Theorem stop_footprint m fuel helm iid l namespace charts :
  own (stop_event iid (dl_ID l) namespace charts) (executeStop m fuel helm iid l namespace charts) (fun _ => True).
Proof.
  apply own_executeStop; [by intros []|done|]. intros c t Hc Ht. split_and!; try done; try apply Ht.
  apply list_elem_of_In, in_map. by apply list_elem_of_In.
Qed.

(** A clean stays inside its footprint.  It ends (or extends) only its own
    log, writes the row of its instance only with the status draft or error (or
    clears its delete mark, or deletes it), uninstalls only releases of its
    charts in the namespace of the instance, and its only Kubernetes call deletes
    this namespace. *)
Theorem clean_footprint m helm k8sClient iid l namespace charts :
  own (clean_event iid (dl_ID l) namespace charts) (executeClean m helm k8sClient iid l namespace charts) (fun _ => True).
Proof.
  apply own_executeClean; try done; [by intros []|by intros []|]. intros c Hc. split_and!; try done.
  apply list_elem_of_In, in_map. by apply list_elem_of_In.
Qed.

(** ** The end of a stop and of a clean *)

(** The row of the instance exists, and nobody else removes it. *)
Definition removes (iid : string) (op : dbop) : Prop :=
  match op with RemoveInstance i => i = iid | _ => False end.
Definition present (iid : string) (s : Store) : Prop := is_Some (st_instances s !! iid).

Lemma exec_present dbnow op s iid : ~ removes iid op -> present iid s -> present iid (exec dbnow op s).2.
Proof.
  unfold present. intros Hop [i Hi].
  assert (Hu : forall id g f, is_Some ((update_where id g f (st_instances s)).2 !! iid)).
  { intros id g f. rewrite update_where_lookup, Hi. case_decide; eauto. }
  exec_cases op; try done; try (apply Hu); try (by eexists).
  - repeat case_match; cbn; [by eexists|]. destruct (decide (si_ID i0 = iid)) as [->|];
      rewrite ?lookup_insert_eq, ?lookup_insert_ne by done; eauto.
  - repeat case_match; cbn; [apply Hu|]. destruct (decide (si_ID i0 = iid)) as [->|];
      rewrite ?lookup_insert_eq, ?lookup_insert_ne by done; eauto.
  - cbn in Hop |- *. rewrite lookup_delete_ne by done. eauto.
  - repeat case_match; cbn; by eexists.
Qed.

#[export] Instance present_stable iid : Stable (present iid) (removes iid).
Proof. split. intros t op s. apply exec_present. Qed.

(** [ends] while the row of the instance exists, and programs that keep the log
    finished and the row. *)
Local Abbreviation stays iid lid := (stays lid (present iid) (removes iid)).
Local Abbreviation ends_present iid lid := (ends_inv lid (present iid) (removes iid)).

(** The read of the row cannot fail. *)
Lemma present_find {B} iid lid (k : res StackInstance -> M B) :
  (forall i, si_ID i = iid -> ends_present iid lid (k (Ok i))) -> ends_present iid lid (bind (instance_FindByID iid) k).
Proof.
  intros Hk w Hw. rewrite bind_eq.
  assert (E : evolves (fun e => forall op rows, e = EvWrite op rows -> fresh_ops lid op /\ ~ removes iid op) w (instance_FindByID iid w).2)
    by (eapply own_evolves; [apply own_FindByID|apply Hw]).
  destruct (own_FindByID (fun _ => True) iid w (proj1 (proj1 Hw))) as [_ Hid].
  assert (Hr : exists i, (instance_FindByID iid w).1 = Ok i).
  { assert (Es : stays iid lid (step w).2) by (eapply stays_evolves, Hw; apply evolves_step).
    unfold instance_FindByID. rewrite bind_eq, query_ok by apply Hw. cbn [fst snd ret].
    destruct Es as (_ & _ & [i Hi]). exists i. by rewrite Hi. }
  destruct Hr as [i Hi]. rewrite Hi in *. apply Hk; [by apply Hid|]. by eapply stays_evolves.
Qed.

Section ending.
Context (m : Manager) (iid lid : string).

Ltac keep_row := intros; simplify_eq; unfold fresh_ops; cbn; tauto.
Ltac row_msg := let e := fresh in intros e ? op rows ->; done.

Lemma ends_announced i l (post : M unit) :
  dl_ID l = lid -> log_running l = false -> keeps lid post (fun _ => True) -> ends lid (
    let! ok := writeFinal m (Some i) l in
    If negb ok Return modMem (mem_del_action (dl_ID l)) ;; post).
Proof.
  intros Hid Hr Hp. eapply ends_first; [by apply ends_writeFinal| |].
  - apply own_writeFinal. split; [|split]; keep_op.
  - intros []; [exact Hp|apply own_modMem].
Qed.

Lemma present_finalizeStop l out err : dl_ID l = lid -> ends_present iid lid (finalizeStop m iid l out err).
Proof.
  intros Hid. unfold finalizeStop. eapply inv_then; [apply own_clock|]. intros now _.
  apply present_find. intros i Hi. apply inv_ends.
  destruct (stopped_facts now err i (ended_log out now l)) as (H1 & H2 & _ & H4 & _).
  destruct (stopped _ _ _ _) as [i' l']. cbn [fst snd] in *. apply ends_announced; [by rewrite H2|done|].
  apply own_announceStop, keeps_msg.
Qed.

Lemma ends_cancelStop sl out : dl_ID sl = lid -> ends lid (cancelStopForNewerOperation m iid sl out).
Proof.
  intros Hid. unfold cancelStopForNewerOperation. eapply ends_then; [apply own_broadcastLog, keeps_msg|].
  intros _ _. eapply ends_then; [apply own_clock|]. intros now _. eapply ends_then; [apply own_modMem|]. intros _ _.
  eapply ends_first; [by apply ends_writeFinal| |intros; by apply own_ret].
  apply own_writeFinal. split; [keep_op|done].
Qed.

Lemma present_finalizeClean l out err : dl_ID l = lid -> ends_present iid lid (finalizeClean m iid l out err).
Proof.
  intros Hid. unfold finalizeClean. eapply inv_then; [apply own_clock|]. intros now _.
  apply present_find. intros i Hi.
  destruct (cleaned_facts now err i (ended_log out now l)) as (H1 & H2 & _ & H4 & _).
  destruct (cleaned _ _ _ _) as [i' l']. cbn [fst snd] in *.
  assert (Kc : forall Ev : event -> Prop, may_write Ev (ClearDelete iid) -> own Ev (clearDeleteAfterClean iid) (fun _ => True))
    by (intros; by apply own_clearDelete).
  eapply inv_then; [apply own_when; intros _; apply Kc; keep_row|]. intros _ _. apply inv_ends.
  eapply ends_first; [apply ends_writeFinal; [by rewrite H2|done]| |].
  - apply own_writeFinal. split; [|split]; keep_op.
  - intros ok. case_match.
    + eapply own_bind; [apply own_modMem|]. intros _ _. apply own_when. intros _. apply Kc. keep_op.
    + eapply (own_bind _ _ _ (fun _ => True)); [|intros; apply own_announceClean, keeps_msg].
      unfold afterClean. rewrite H1, Hi. case_match.
      { eapply own_bind; [apply own_broadcastStatusWithError, keeps_msg|]. intros; by apply own_ret. }
      case_match; [eapply own_bind; [apply own_broadcastStatus, keeps_msg|]; intros; by apply own_ret|].
      eapply own_bind; [eapply own_deleteInstance; keep_op|]. intros er _. case_match.
      * eapply own_bind; [apply Kc; keep_op|]. intros _ _.
        eapply own_bind; [apply own_broadcastStatus, keeps_msg|]. intros; by apply own_ret.
      * eapply own_bind; [apply own_broadcastInstanceDeleted, keeps_msg|]. intros; by apply own_ret.
Qed.

Lemma present_executeClean helm k8sClient l namespace charts :
  dl_ID l = lid -> ends_present iid lid (executeClean m helm k8sClient iid l namespace charts).
Proof.
  intros Hid. unfold executeClean. apply inv_extend; [done|by intros ? []| |intros d].
  - eapply own_bind; [eapply own_clearDelete; keep_op|]. intros. apply own_modMem.
  - assert (Hk8s : forall Ev : event -> Prop, (forall c a, Ev (EvK8s c a)) ->
      own Ev (if k8sClient then k8sCall "delete namespace" namespace else ret None) (fun _ => True)).
    { intros Ev H. case_match; [|by apply own_ret]. unfold k8sCall. eapply own_bind; [apply own_step|].
      intros st _. eapply own_bind; [apply own_emit, H|]. intros. by apply own_ret. }
    eapply (inv_first _ _ (fun _ => True)); [| |intros; apply own_modMem].
    + eapply inv_then; [eapply own_cleanCharts; keep_row|]. intros r _.
      eapply inv_then; [apply Hk8s; keep_row|]. intros err _. by apply present_finalizeClean.
    + eapply own_bind; [eapply own_cleanCharts; keep_op|]. intros r _.
      eapply own_bind; [apply Hk8s; keep_op|]. intros err _.
      eapply (own_finalizeClean _ _ _ lid [StackStatusDraft; StackStatusError]);
        first [reflexivity | exact Hid | exact (keeps_msg lid) | keep_op | intros op; apply final_stmt_fresh].
Qed.

Lemma present_stop_run helm l namespace charts out (down : bool) :
  dl_ID l = lid -> ends_present iid lid (
    If down Return finalizeStop m iid l out (Some errStopInterrupted) ;;
    let! newer := newerOperation m iid (dl_ID l) in
    If newer Return cancelStopForNewerOperation m iid l out ;;
    let! ext := extendDeadline m l (Some helm) (Z.of_nat (length charts)) in
    match ext with
    | None => ret tt
    | Some l =>
        let! start := clock in
        let! r := stopCharts m helm iid (dl_ID l) namespace (start + he_Timeout helm) charts out in
        finalizeStop m iid l r.1 r.2
    end).
Proof.
  intros Hid. destruct down; [by apply present_finalizeStop|].
  eapply inv_then; [apply own_newerOperation|]. intros n _.
  destruct n; [by apply inv_ends, ends_cancelStop|].
  apply inv_extend; [done|by intros ? []|by apply own_ret|]. intros d.
  eapply inv_then; [apply own_clock|]. intros now _.
  eapply inv_then; [eapply own_stopCharts; keep_row|]. intros r _. by apply present_finalizeStop.
Qed.

Lemma keeps_stop_run helm l namespace charts out (down : bool) :
  dl_ID l = lid -> keeps lid (
    If down Return finalizeStop m iid l out (Some errStopInterrupted) ;;
    let! newer := newerOperation m iid (dl_ID l) in
    If newer Return cancelStopForNewerOperation m iid l out ;;
    let! ext := extendDeadline m l (Some helm) (Z.of_nat (length charts)) in
    match ext with
    | None => ret tt
    | Some l =>
        let! start := clock in
        let! r := stopCharts m helm iid (dl_ID l) namespace (start + he_Timeout helm) charts out in
        finalizeStop m iid l r.1 r.2
    end) (fun _ => True).
Proof.
  intros Hid.
  assert (Hf : forall op, final_stmt [StackStatusStopped; StackStatusError] iid lid op ->
    forall rows op' rows', EvWrite op rows = EvWrite op' rows' -> fresh_ops lid op') by (intros op; apply final_stmt_fresh).
  assert (Kf : forall l out err, dl_ID l = lid -> keeps lid (finalizeStop m iid l out err) (fun _ => True)).
  { intros. eapply own_finalizeStop; [apply keeps_msg|exact Hf|done|done]. }
  destruct down; [by apply Kf|]. eapply own_bind; [apply own_newerOperation|]. intros n _.
  destruct n; [eapply own_cancelStop; [apply keeps_msg|exact Hf|done]|].
  eapply own_bind; [apply own_extendDeadline; keep_op|]. intros [l'|] Hl; [|by apply own_ret].
  destruct (Hl l' eq_refl) as [d ->]. eapply own_bind; [apply own_clock|]. intros now _.
  eapply own_bind; [eapply own_stopCharts; keep_op|]. intros r _. by apply Kf.
Qed.

Lemma present_executeStop fuel helm l namespace charts w :
  dl_ID l = lid -> stays iid lid w -> (executeStop m fuel helm iid l namespace charts w).1 = true ->
  over lid (w_db (executeStop m fuel helm iid l namespace charts w).2).
Proof.
  intros Hid Hw. unfold executeStop. rewrite bind_eq.
  assert (Hs : stays iid lid (waitForEarlierOperations m fuel iid l w).2).
  { eapply stays_evolves, Hw. eapply own_evolves; [|apply Hw]. eapply own_waitForEarlierOperations. row_msg. }
  destruct (waitForEarlierOperations m fuel iid l w) as [[out|] w1]; cbn [fst snd] in *; [|done]. intros _.
  revert w1 Hs. change (ends_present iid lid (
    let! down := isDown in
    run! (If down Return finalizeStop m iid l out (Some errStopInterrupted) ;;
      let! newer := newerOperation m iid (dl_ID l) in
      If newer Return cancelStopForNewerOperation m iid l out ;;
      let! ext := extendDeadline m l (Some helm) (Z.of_nat (length charts)) in
      match ext with
      | None => ret tt
      | Some l =>
          let! start := clock in
          let! r := stopCharts m helm iid (dl_ID l) namespace (start + he_Timeout helm) charts out in
          finalizeStop m iid l r.1 r.2
      end) in
    run! modMem (mem_del_trigger (dl_ID l)) in ret true)).
  eapply inv_then; [apply own_isDown|]. intros down _.
  eapply inv_first; [by apply present_stop_run|by apply keeps_stop_run|].
  intros _. eapply own_bind; [apply own_modMem|]. intros. by apply own_ret.
Qed.
End ending.

(** A stop and a clean end their log.  When [executeStop] (after its wait) or
    [executeClean] returns, its log does not run any more, whatever Helm,
    Kubernetes, the hooks and the other replicas do, provided the database
    statements of this process succeed, nobody else deletes the instance and no
    log reuses the ID. *)
Theorem teardown_ends_log m fuel helm k8sClient iid l namespace charts w :
  keyed (w_db w) -> no_fault w -> env_ok (fun op => fresh_ops (dl_ID l) op /\ ~ removes iid op) w ->
  present iid (w_db w) ->
  ((executeStop m fuel helm iid l namespace charts w).1 = true ->
   over (dl_ID l) (w_db (executeStop m fuel helm iid l namespace charts w).2)) /\
  over (dl_ID l) (w_db (executeClean m helm k8sClient iid l namespace charts w).2).
Proof.
  intros Hk Hn Ho Hp. assert (Hs : stays iid (dl_ID l) w).
  { assert (H : forall P : dbop -> Prop, (forall op, fresh_ops (dl_ID l) op /\ ~ removes iid op -> P op) -> env_ok P w).
    { intros P HP n. eapply Forall_impl; [apply Ho|]. intros x Hx. by apply HP. }
    split; [split; [done|split; [done|]]|split; [|done]]; apply H; tauto. }
  split; [by apply present_executeStop|by apply present_executeClean].
Qed.

(** ** The results of a stop and of a clean without interference *)

Lemma hoare_finalizeStop m s l out err inst l0 :
  keyed s -> st_instances s !! si_ID inst = Some inst ->
  st_logs s !! dl_ID l = Some l0 -> log_running l0 = true ->
  hoare s (finalizeStop m (si_ID inst) l out err) (fun _ s' => exists now upd,
    let f := stopped now err inst (ended_log out now l) in
    s' = set_instance (si_set_UpdatedAt upd f.1) (end_log f.2 s)).
Proof.
  intros Hk Hi Hl Hr. unfold finalizeStop.
  eapply hoare_bind; [apply hoare_clock|]. intros now ? ->.
  eapply hoare_bind; [apply hoare_FindByID|]. intros r s' [-> ->]. unfold find_result. rewrite Hi.
  destruct (stopped_facts now err inst (ended_log out now l)) as (H1 & H2 & _ & H4 & H5).
  assert (Hrow : forall t, saved_row inst (si_set_UpdatedAt t (stopped now err inst (ended_log out now l)).1) =
                           si_set_UpdatedAt t (stopped now err inst (ended_log out now l)).1)
    by (intros t; apply saved_row_same; unfold stopped; by destruct err).
  destruct (stopped now err inst (ended_log out now l)) as [i' l'] eqn:Ef. cbn [fst snd] in *.
  eapply hoare_bind; [apply (hoare_writeFinal _ _ _ l0) with (i0 := inst); by rewrite ?H1, ?H2|].
  intros r s' [-> [upd ->]]. cbn [negb]. rewrite Hrow. eapply hoare_post.
  - apply hoare_messages; [by apply own_announceStop|by apply keyed_set_end].
  - intros ? ? ->. exists now, upd. by rewrite Ef.
Qed.

(** The end of a stop without interference: the row of the instance gets
    stopped (with the time of the stop and no error) or error with the sanitized
    reason, the marker of the blocking hooks is cleared, the expiry and the
    delete mark are kept, and the log ends with the matching status; nothing
    else changes. *)
Theorem finalizeStop_result m l out err w inst l0 :
  calm w -> keyed (w_db w) -> st_instances (w_db w) !! si_ID inst = Some inst ->
  st_logs (w_db w) !! dl_ID l = Some l0 -> log_running l0 = true ->
  exists i' l',
    w_db (finalizeStop m (si_ID inst) l out err w).2 = set_instance i' (end_log l' (w_db w)) /\
    dl_ID l' = dl_ID l /\ dl_Output l' = truncateString out maxOutputLen /\ is_Some (dl_CompletedAt l') /\
    si_ID i' = si_ID inst /\ si_PostDeployHookUntil i' = None /\
    si_ExpiresAt i' = si_ExpiresAt inst /\ si_DeleteAfterClean i' = si_DeleteAfterClean inst /\
    match err with
    | None => si_Status i' = "stopped" /\ si_ErrorMessage i' = "" /\ is_Some (si_StoppedAt i') /\
              dl_Status l' = "success"
    | Some e => si_Status i' = "error" /\ si_ErrorMessage i' = truncateString (sanitizeDeployError e) 256 /\
                si_StoppedAt i' = si_StoppedAt inst /\
                dl_Status l' = "error" /\ dl_ErrorMessage l' = truncateString (sanitizeDeployError e) 1024
    end.
Proof.
  intros Hc Hk Hi Hl Hr.
  destruct (hoare_finalizeStop m _ l out err inst l0 Hk Hi Hl Hr w Hc eq_refl) as [_ (now & upd & ->)].
  exists (si_set_UpdatedAt upd (stopped now err inst (ended_log out now l)).1), (stopped now err inst (ended_log out now l)).2.
  unfold stopped. destruct err; cbn; split_and!; eauto.
Qed.

(** The row after a clean: deleted, or back to draft, or error without mark. *)
Definition clean_result (now upd : time) (out : string) (err : error) (inst : StackInstance) (l : DeploymentLog)
    (s : Store) : Store :=
  let f := cleaned now err inst (ended_log out now l) in
  if bool_decide (err = None) && si_DeleteAfterClean inst
  then with_instances (delete (si_ID inst) (st_instances s)) (end_log f.2 s)
  else set_instance (si_set_UpdatedAt upd f.1) (end_log f.2 s).

Lemma hoare_clearDelete s id i :
  st_instances s !! id = Some i ->
  hoare s (clearDeleteAfterClean id)
    (fun _ s' => s' = with_instances (<[id := si_set_DeleteAfterClean false i]> (st_instances s)) s).
Proof.
  intros Hi. unfold clearDeleteAfterClean, ClearDeleteAfterClean. eapply hoare_bind; [eapply hoare_bind; [apply hoare_db|]|].
  - intros r s' [t Ht]. cbn [exec] in Ht. unfold on_instances, update_where in Ht. rewrite Hi in Ht. cbn in Ht.
    injection Ht as <- <-.
    apply (hoare_ret _ _ (fun _ s' => s' = with_instances (<[id := si_set_DeleteAfterClean false i]> (st_instances s)) s)).
    done.
  - intros r s' ->. by apply hoare_ret.
Qed.

Lemma hoare_deleteInstance m s id :
  present id s ->
  hoare s (deleteInstance m id) (fun r s' => r = None /\ s' = with_instances (delete id (st_instances s)) s).
Proof.
  intros Hp. assert (Hd : hoare s (instance_Delete id)
    (fun r s' => r = None /\ s' = with_instances (delete id (st_instances s)) s)).
  { unfold instance_Delete. eapply hoare_bind; [apply hoare_db|]. intros r s' [t Ht]. cbn [exec] in Ht.
    rewrite decide_True in Ht by exact Hp. injection Ht as <- <-. by apply hoare_ret. }
  unfold deleteInstance. case_match; [done|]. apply hoare_RunInTx. unfold deleteDependents.
  eapply (hoare_bind _ _ _ (fun r s' => r = None /\ s' = s)).
  - intros w Hw <-. destruct (calm_step w Hw) as [Hc He]. rewrite bind_eq. cbn [fst snd ret]. split; [done|].
    split; [|done]. rewrite step_eq. apply (proj1 Hw).
  - intros r s' [-> ->]. eapply hoare_post; [exact Hd|]. by intros ? ? [-> ->].
Qed.

Lemma set_instance_overwrites i x l s :
  set_instance i (end_log l (with_instances (<[si_ID i := x]> (st_instances s)) s)) = set_instance i (end_log l s).
Proof. unfold set_instance, end_log, with_instances, with_logs. cbn. by rewrite insert_insert_eq. Qed.

(** Messages that end with the answer "not deleted". *)
Lemma hoare_message_false s (p : M unit) :
  own message p (fun _ => True) -> keyed s -> hoare s (run! p in ret false) (fun r s' => s' = s).
Proof.
  intros Hp Hk. eapply hoare_bind; [by apply hoare_messages|]. intros ? ? ->. by apply hoare_ret.
Qed.

(** After the final write a clean deletes the row of a marked instance. *)
Lemma hoare_afterClean m s i lid err mark :
  keyed s -> present (si_ID i) s ->
  hoare s (afterClean m i lid err mark) (fun _ s' =>
    s' = (if bool_decide (err = None) && mark then with_instances (delete (si_ID i) (st_instances s)) s else s) /\
    keyed s').
Proof.
  intros Hk Hp. unfold afterClean. destruct err as [e|]; cbn [bool_decide is_Some].
  - rewrite bool_decide_eq_true_2 by eauto. rewrite bool_decide_eq_false_2 by done. cbn.
    eapply hoare_post; [apply hoare_message_false; [by apply own_broadcastStatusWithError|done]|]. by intros ? ? ->.
  - rewrite bool_decide_eq_false_2 by (by intros []). rewrite bool_decide_eq_true_2 by done. cbn [andb].
    destruct mark; cbn [negb].
    + eapply hoare_bind; [by apply hoare_deleteInstance|].
      intros ? ? [-> ->]. rewrite bool_decide_eq_false_2 by (by intros []).
      pose proof (exec_keyed 0%Z (RemoveInstance (si_ID i)) s Hk) as Hk3.
      eapply hoare_bind; [apply hoare_messages; [by apply own_broadcastInstanceDeleted|done]|].
      intros ? ? ->. by apply hoare_ret.
    + eapply hoare_post; [apply hoare_message_false; [by apply own_broadcastStatus|done]|]. by intros ? ? ->.
Qed.

Lemma hoare_finalizeClean m s l out err inst l0 :
  keyed s -> st_instances s !! si_ID inst = Some inst ->
  st_logs s !! dl_ID l = Some l0 -> log_running l0 = true ->
  hoare s (finalizeClean m (si_ID inst) l out err) (fun _ s' =>
    exists now upd, s' = clean_result now upd out err inst l s).
Proof.
  intros Hk Hi Hl Hr. unfold finalizeClean.
  eapply hoare_bind; [apply hoare_clock|]. intros now ? ->.
  eapply hoare_bind; [apply hoare_FindByID|]. intros r s' [-> ->]. unfold find_result. rewrite Hi.
  destruct (cleaned_facts now err inst (ended_log out now l)) as (H1 & H2 & _ & H4 & H5).
  set (clear := bool_decide (is_Some err) && si_DeleteAfterClean inst).
  set (inst1 := if clear then si_set_DeleteAfterClean false inst else inst).
  assert (Hrow : forall t, saved_row inst1 (si_set_UpdatedAt t (cleaned now err inst (ended_log out now l)).1) =
                           si_set_UpdatedAt t (cleaned now err inst (ended_log out now l)).1).
  { intros t. apply saved_row_same; unfold inst1, clear, cleaned;
      destruct err, (si_DeleteAfterClean inst) eqn:Em; cbn; try done; by rewrite Em. }
  unfold clean_result. destruct (cleaned now err inst (ended_log out now l)) as [i' l'] eqn:Ef. cbn [fst snd] in *.
  set (s1 := if clear then with_instances (<[si_ID inst := inst1]> (st_instances s)) s else s).
  eapply (hoare_bind _ _ _ (fun _ s' => s' = s1)).
  { unfold s1, inst1. destruct clear; [by apply hoare_clearDelete|by apply hoare_ret]. }
  intros _ ? ->.
  assert (Hi1 : st_instances s1 !! si_ID i' = Some inst1).
  { rewrite H1. unfold s1, inst1. destruct clear; [by apply lookup_insert_eq|done]. }
  assert (Hl1 : st_logs s1 = st_logs s) by (unfold s1; by destruct clear).
  assert (Hid1 : si_ID inst1 = si_ID i' /\ si_ExpiresAt i' = si_ExpiresAt inst1)
    by (unfold inst1; destruct clear; by rewrite H1, H5).
  eapply hoare_bind; [apply (hoare_writeFinal _ _ _ l0) with (i0 := inst1); try done; [by rewrite Hl1, H2|apply Hid1|apply Hid1]|].
  intros r s' [-> [upd ->]]. cbn [negb]. rewrite Hrow.
  assert (Hs : set_instance (si_set_UpdatedAt upd i') (end_log l' s1) = set_instance (si_set_UpdatedAt upd i') (end_log l' s)).
  { unfold s1. destruct clear; [|done]. rewrite <- H1. apply (set_instance_overwrites (si_set_UpdatedAt upd i')). }
  rewrite Hs. set (s2 := set_instance _ _).
  assert (Hk2 : keyed s2) by by apply keyed_set_end.
  eapply (hoare_bind _ _ _ (fun _ s' => s' = (if bool_decide (err = None) && si_DeleteAfterClean inst
    then with_instances (delete (si_ID inst) (st_instances s)) (end_log l' s) else s2) /\ keyed s')).
  - eapply hoare_post; [apply (hoare_afterClean m s2 i'); [by apply keyed_set_end|]|].
    { eexists. by apply lookup_insert_eq. }
    intros ? ? [-> Hk3]. split; [|exact Hk3]. case_match; [|done].
    unfold s2, set_instance, with_instances. cbn. by rewrite delete_insert_eq, H1.
  - intros d s3 [-> Hk3]. eapply hoare_post; [apply hoare_messages; [by apply own_announceClean|done]|].
    intros ? ? ->. exists now, upd. rewrite Ef. by destruct (bool_decide (err = None) && _).
Qed.

(** The end of a clean without interference.  A clean that succeeded for a
    marked instance (the clean of a delete) deletes its row; one that succeeded
    for an unmarked instance returns it to draft; a failed clean leaves it with
    the status error, always without the delete mark (so no later clean deletes
    it), and says that the delete did not happen when it was one.  The log ends
    with success or error accordingly. *)
Theorem finalizeClean_result m l out err w inst l0 :
  calm w -> keyed (w_db w) -> st_instances (w_db w) !! si_ID inst = Some inst ->
  st_logs (w_db w) !! dl_ID l = Some l0 -> log_running l0 = true ->
  exists i' l',
    w_db (finalizeClean m (si_ID inst) l out err w).2 =
      (if bool_decide (err = None) && si_DeleteAfterClean inst
       then with_instances (delete (si_ID inst) (st_instances (w_db w))) (end_log l' (w_db w))
       else set_instance i' (end_log l' (w_db w))) /\
    dl_ID l' = dl_ID l /\ dl_Output l' = truncateString out maxOutputLen /\ is_Some (dl_CompletedAt l') /\
    si_ID i' = si_ID inst /\ si_PostDeployHookUntil i' = None /\ si_ExpiresAt i' = si_ExpiresAt inst /\
    match err with
    | None => si_Status i' = "draft" /\ si_ErrorMessage i' = "" /\ si_LastDeployedAt i' = None /\
              si_StoppedAt i' = None /\ is_Some (si_CleanedAt i') /\
              si_DeleteAfterClean i' = si_DeleteAfterClean inst /\ dl_Status l' = "success"
    | Some e => si_Status i' = "error" /\ si_DeleteAfterClean i' = false /\
                (si_DeleteAfterClean inst = true -> HasPrefix (si_ErrorMessage i') DeleteCleanFailedMessage = true) /\
                (si_DeleteAfterClean inst = false -> si_ErrorMessage i' = truncateString (sanitizeDeployError e) 256) /\
                dl_Status l' = "error" /\ dl_ErrorMessage l' = truncateString (sanitizeDeployError e) 1024
    end.
Proof.
  intros Hc Hk Hi Hl Hr.
  destruct (hoare_finalizeClean m _ l out err inst l0 Hk Hi Hl Hr w Hc eq_refl) as [_ (now & upd & ->)].
  exists (si_set_UpdatedAt upd (cleaned now err inst (ended_log out now l)).1), (cleaned now err inst (ended_log out now l)).2.
  unfold clean_result, cleaned. destruct err; cbn -[HasPrefix]; split_and!; eauto; intros ->; [|done].
  apply (truncateString_prefix DeleteCleanFailedMessage). by vm_compute.
Qed.

(** ** The wait of a stop *)

Lemma latest_by_actions_in iid acts n s l :
  keyed s -> l ∈ latest_by_actions iid acts n s -> st_logs s !! dl_ID l = Some l.
Proof.
  intros [Hk _] Hl. unfold latest_by_actions in Hl. apply list_elem_of_In, List.In_nth_error in Hl as [k Hl].
  assert (Hin : In l (sort_by (fun l => (- dl_StartedAt l)%Z)
    (List.filter (fun l => bool_decide (dl_StackInstanceID l = iid) && bool_decide (dl_Action l ∈ acts))
       (List.map snd (map_to_list (st_logs s)))))).
  { rewrite <- (take_drop n). apply in_app_iff. left. by eapply nth_error_In. }
  eapply Permutation_in in Hin; [|symmetry; apply sort_by_perm]. apply filter_In in Hin as [Hin _].
  apply in_map_iff in Hin as ([id x] & <- & Hin). apply list_elem_of_In, elem_of_map_to_list in Hin.
  cbn. by rewrite (Hk _ _ Hin).
Qed.

(** The world after [k] interactions of a program that makes no statement. *)
Definition after (k : nat) (w : World) : World := Nat.iter k (fun w => (step w).2) w.

(** From [w] to [w'] the program only reads and sends messages: the database is the
    one that the other processes made in the meantime. *)
Definition idles (w w' : World) : Prop := exists k,
  w_db w' = w_db (after k w) /\ w_tick w' = (w_tick w + k)%nat /\ w_env w' = w_env w /\ w_quiet w' = w_quiet w /\
  exists tr, w_trace w' = (tr ++ w_trace w)%list /\ Forall message tr.

Lemma after_S k w : after (S k) w = (step (after k w)).2.
Proof. done. Qed.
Lemma after_add j k w : after (j + k) w = after j (after k w).
Proof. unfold after. by rewrite Nat.iter_add. Qed.
Lemma after_facts k w :
  w_tick (after k w) = (w_tick w + k)%nat /\ w_env (after k w) = w_env w /\ w_quiet (after k w) = w_quiet w /\
  w_trace (after k w) = w_trace w.
Proof.
  induction k as [|k (IH1 & IH2 & IH3 & IH4)]; [by rewrite Nat.add_0_r|]. rewrite after_S. unfold step.
  cbn [snd w_tick w_env w_quiet w_trace]. split_and!; try done. lia.
Qed.
Lemma after_idles k w : idles w (after k w).
Proof. destruct (after_facts k w) as (? & ? & ? & ?). exists k. split_and!; try done. by exists []. Qed.
Lemma after_ext k w1 w2 : w_db w1 = w_db w2 -> w_tick w1 = w_tick w2 -> w_env w1 = w_env w2 -> w_quiet w1 = w_quiet w2 ->
  w_db (after k w1) = w_db (after k w2).
Proof.
  intros Hd Ht He Hq. induction k as [|k IH]; [done|]. rewrite !after_S. unfold step. cbn [snd w_db].
  destruct (after_facts k w1) as (E1 & E2 & E3 & _), (after_facts k w2) as (F1 & F2 & F3 & _).
  by rewrite E1, E2, E3, F1, F2, F3, IH, Ht, He, Hq.
Qed.
Lemma idles_refl w : idles w w.
Proof. apply (after_idles 0). Qed.
Lemma idles_trans w1 w2 w3 : idles w1 w2 -> idles w2 w3 -> idles w1 w3.
Proof.
  intros (j & D1 & T1 & E1 & Q1 & t1 & U1 & F1) (k & D2 & T2 & E2 & Q2 & t2 & U2 & F2). exists (k + j)%nat.
  destruct (after_facts j w1) as (? & ? & ? & _). split_and!; try congruence; [|lia|].
  - rewrite D2, after_add. apply after_ext; congruence.
  - exists (t2 ++ t1)%list. rewrite U2, U1, app_assoc. split; [done|]. by apply Forall_app.
Qed.
Lemma idles_step w : idles w (step w).2.
Proof. apply (after_idles 1). Qed.
Lemma idles_message w w' : w_db w' = w_db w -> w_tick w' = w_tick w -> w_env w' = w_env w -> w_quiet w' = w_quiet w ->
  (exists tr, w_trace w' = (tr ++ w_trace w)%list /\ Forall message tr) -> idles w w'.
Proof. intros. exists 0%nat. split_and!; try done. by rewrite Nat.add_0_r. Qed.

Lemma bind_clock {B} (k : time -> M B) w : bind clock k w = k (e_now (w_env w (w_tick w))) (step w).2.
Proof. done. Qed.

Lemma bind_list {B} iid acts n (k : res (list DeploymentLog) -> M B) w : bind (ListLatestByActions iid acts (S n)) k w =
  k (match e_fault (w_env w (w_tick w)) with
     | Some e => Err (EDB "list_latest_by_actions" e)
     | None => Ok (latest_by_actions iid acts (S n) (w_db (step w).2))
     end) (step w).2.
Proof.
  unfold ListLatestByActions. rewrite !bind_eq. unfold query. rewrite step_eq. by destruct (e_fault _).
Qed.

Section waiting.
Context (m : Manager) (iid : string) (stopLog : DeploymentLog).

(** A log that the stop need not wait for, found between [w] and [w']: it does not run,
    is the own one, a later one or one without a deadline, its deadline passed, or its
    replica is another one whose heartbeat is stale. *)
Definition settled (w w' : World) (l : DeploymentLog) : Prop :=
  log_running l = false \/ dl_ID l = dl_ID stopLog \/ (dl_StartedAt stopLog < dl_StartedAt l)%Z \/
  dl_DeadlineAt l = None \/
  (exists n d, (w_tick w <= n < w_tick w')%nat /\ dl_DeadlineAt l = Some d /\ (d <= e_now (w_env w n))%Z) \/
  (empty (dl_ReplicaID l) = false /\ dl_ReplicaID l <> m_replicaID m /\ m_heartbeats m = true /\
   exists k, (w_tick w + k < w_tick w')%nat /\
     staleHeartbeat (st_beats (w_db (after (S k) w))) (e_dbnow (w_env w (w_tick w + k))) (dl_ReplicaID l) StaleAfter = true).

(** A look from [w] to [w'] that finds nothing to wait for among the newest deploys and
    rollbacks that its first statement lists. *)
Definition clear_look (w w' : World) : Prop :=
  forall l, l ∈ latest_by_actions iid helmLogActions 3 (w_db (step w).2) -> settled w w' l.

(** Consecutive looks that could not read: from [w], the first one failed at the clock
    reading [t], and the last one ended in [w']. *)
Definition pause (w : World) : World := after 3 w.
Inductive failing : World -> time -> World -> Prop :=
| failing_first w e w' :
    runningEarlierOperation m iid stopLog w = (Err e, w') -> failing w (e_now (w_env w' (w_tick w'))) w'
| failing_next w t w1 e w' :
    failing w t w1 -> runningEarlierOperation m iid stopLog (pause w1) = (Err e, w') -> failing w t w'.

(** Why a wait from [w] ends in [w']. *)
Inductive leaves_wait (w w' : World) : Prop :=
| leaves_clear w0 : idles w w0 -> idles w0 w' -> clear_look w0 w' -> leaves_wait w w'
| leaves_unreadable w0 t w1 :
    idles w w0 -> failing w0 t w1 -> w' = after 2 w1 ->
    (earlierOperationReadBudget <= e_now (w_env w1 (S (w_tick w1))) - t)%Z -> leaves_wait w w'
| leaves_shutdown : w_down w' = true -> leaves_wait w w'.

Lemma settled_later w w1 w' l k : w1 = after k w -> settled w1 w' l -> settled w w' l.
Proof.
  intros -> H. destruct (after_facts k w) as (Ht & He & _). unfold settled in *. rewrite Ht, He in H.
  destruct H as [?|[?|[?|[?|[(n & d & Hn & H)|(? & ? & ? & j & Hj & Hs)]]]]]; auto 6.
  - do 4 right. left. exists n, d. split; [lia|done].
  - do 5 right. split_and!; try done. exists (j + k)%nat. split; [lia|].
    change (S (j + k)) with (S j + k)%nat. rewrite after_add. by rewrite (Nat.add_comm j k), Nat.add_assoc.
Qed.

Lemma withoutLog_shorter logs x : x ∈ logs -> (length (withoutLog logs (dl_ID x)) < length logs)%nat.
Proof.
  intros Hx. unfold withoutLog. induction logs as [|y l IHl]; [by apply not_elem_of_nil in Hx|].
  cbn. apply elem_of_cons in Hx as [<-|Hx].
  - rewrite bool_decide_eq_true_2 by done. cbn. apply Nat.lt_succ_r, filter_length_le.
  - specialize (IHl Hx). case_match; cbn; lia.
Qed.
Lemma elem_of_withoutLog logs x l : l ∈ withoutLog logs x <-> l ∈ logs /\ dl_ID l <> x.
Proof.
  unfold withoutLog. rewrite !list_elem_of_In, filter_In. split; intros [H1 H2]; (split; [done|]).
  - by apply negb_true_iff, bool_decide_eq_false in H2.
  - by apply negb_true_iff, bool_decide_eq_false.
Qed.

Lemma not_awaited_settled w w' l n :
  (w_tick w <= n < w_tick w')%nat -> awaited stopLog (e_now (w_env w n)) l = false -> settled w w' l.
Proof.
  intros Hn Ha. unfold awaited in Ha. unfold settled. rewrite !andb_false_iff in Ha. destruct Ha as [[[Ha|Ha]|Ha]|Ha]; auto.
  - apply negb_false_iff, bool_decide_eq_true in Ha. auto.
  - apply negb_false_iff, Z.ltb_lt in Ha. auto.
  - destruct (dl_DeadlineAt l) as [d|]; [|auto 6]. apply Z.ltb_ge in Ha. do 4 right. left. by exists n, d.
Qed.

(** The answer about a replica takes at most one read. *)
Lemma replicaAlive_reads r w : exists k, (replicaAlive m r w).2 = after k w /\
  ((replicaAlive m r w).1 = Ok false -> k = 1%nat /\ empty r = false /\ r <> m_replicaID m /\ m_heartbeats m = true /\
   staleHeartbeat (st_beats (w_db (after 1 w))) (e_dbnow (w_env w (w_tick w))) r StaleAfter = true).
Proof.
  unfold replicaAlive. destruct (empty r || _ || _) eqn:E; [by exists 0%nat|]. rewrite !orb_false_iff in E.
  destruct E as [[E1 E2] E3]. apply bool_decide_eq_false in E2. apply negb_false_iff in E3.
  unfold SeenWithin, query. rewrite step_eq. exists 1%nat. destruct (e_fault _); cbn [fst snd]; [done|].
  split; [done|]. intros [= Hs]. by apply negb_false_iff in Hs.
Qed.

(** The look at the listed logs: it reads only, and when it finds nothing all of them
    are settled. *)
Lemma firstAlive_reads n : forall logs w, (length logs <= n)%nat ->
  (forall l1 l2, l1 ∈ logs -> l2 ∈ logs -> dl_ID l1 = dl_ID l2 -> l1 = l2) ->
  exists k, (firstAlive m n logs stopLog w).2 = after k w /\
    ((firstAlive m n logs stopLog w).1 = Ok None -> forall l, l ∈ logs -> settled w (after k w) l).
Proof.
  induction n as [|n IH]; intros logs w Hn Hu.
  { destruct logs as [|]; [|simpl in Hn; lia]. exists 1%nat. split; [done|]. intros _ l Hl. by apply not_elem_of_nil in Hl. }
  cbn [firstAlive]. rewrite !bind_clock. set (w1 := (step w).2). set (t := e_now (w_env w (w_tick w))).
  destruct (runningEarlierLog logs stopLog t) as [x|] eqn:Ex; cycle 1.
  { exists 1%nat. split; [done|]. intros _ l Hl. apply (not_awaited_settled _ _ _ (w_tick w)); [cbn; lia|].
    eapply List.find_none in Ex; [exact Ex|by apply list_elem_of_In]. }
  apply List.find_some in Ex as [Hx _]. apply list_elem_of_In in Hx. rewrite !bind_eq.
  destruct (replicaAlive_reads (dl_ReplicaID x) w1) as (k & -> & Hdead).
  assert (E1 : forall j, after j w1 = after (j + 1) w) by (intros j; by rewrite after_add).
  destruct ((replicaAlive m (dl_ReplicaID x) w1).1) as [[]|e]; [by exists (k + 1)%nat; rewrite <- E1|clear E1|by exists (k + 1)%nat; rewrite <- E1].
  destruct (Hdead eq_refl) as (-> & He & Hne & Hh & Hs). change (after 1 w1) with (after 2 w) in *.
  destruct (IH (withoutLog logs (dl_ID x)) (after 2 w)) as (j & Ej & Hj).
  { pose proof (withoutLog_shorter logs x Hx). lia. }
  { intros l1 l2 [H1 _]%elem_of_withoutLog [H2 _]%elem_of_withoutLog. by apply Hu. }
  exists (j + 2)%nat. rewrite Ej, <- after_add. split; [done|]. intros Hnone l Hl.
  destruct (decide (dl_ID l = dl_ID x)) as [Eid|Eid].
  - rewrite (Hu l x Hl Hx Eid). do 5 right. split_and!; try done. exists 1%nat.
    destruct (after_facts (j + 2) w) as (-> & _). split; [lia|]. by rewrite Nat.add_1_r.
  - rewrite <- after_add in Hj. eapply (settled_later _ (after 2 w)); [done|].
    apply (Hj Hnone). by apply elem_of_withoutLog.
Qed.

(** A look reads only; without something to wait for it is clear. *)
Lemma look_reads w : keyed (w_db w) -> exists k, (runningEarlierOperation m iid stopLog w).2 = after k w /\
  ((runningEarlierOperation m iid stopLog w).1 = Ok None -> clear_look w (after k w)).
Proof.
  intros Hk. unfold runningEarlierOperation. change (length helmLogActions + 1)%nat with 3%nat. rewrite !bind_list. set (w1 := (step w).2). assert (Hk1 : keyed (w_db w1)) by (by apply (ev_keyed _ _ _ (evolves_step (fun _ => True) w))).
  destruct (e_fault _); [by exists 1%nat|]. cbv beta iota. set (logs := latest_by_actions _ _ _ _).
  destruct (firstAlive_reads (length logs) logs w1) as (k & -> & Hs); [done| |].
  { intros l1 l2 H1 H2 E. apply latest_by_actions_in in H1, H2; [|done..]. congruence. }
  exists (k + 1)%nat. split; [by rewrite after_add|]. intros Hn l Hl. eapply (settled_later _ w1); [by apply (eq_refl (after 1 w))|].
  rewrite after_add. by apply (Hs Hn).
Qed.

Lemma idles_broadcastLog i l line w : idles w (broadcastLog m i l line w).2.
Proof.
  apply idles_message; unfold broadcastLog, when_, modMem, emit, bind, ret; cbn; try by case_match.
  case_match; [by exists [EvLine i l line]; split; [|by constructor]|by exists []].
Qed.

(** The reads have failed since [t] when the loop starts in [w']. *)
Definition failing_since (w : World) (since : option time) (w' : World) : Prop :=
  match since with
  | None => True
  | Some t => exists w0 w1, idles w w0 /\ failing w0 t w1 /\ w' = pause w1
  end.

Lemma waits fuel : forall line since w w', keyed (w_db w') -> idles w w' -> failing_since w since w' ->
  idles w (waitForEarlier m fuel iid stopLog line since w').2 /\
  (is_Some (waitForEarlier m fuel iid stopLog line since w').1 ->
   leaves_wait w (waitForEarlier m fuel iid stopLog line since w').2).
Proof.
  induction fuel as [|fuel IH]; intros line since w w' Hk Hi Hf; cbn [waitForEarlier]; [split; [done|by intros []]|].
  destruct (look_reads w' Hk) as (k & Ek & Hclear). rewrite bind_eq, Ek.
  assert (Hi1 : idles w (after k w')) by (eapply idles_trans; [exact Hi|apply after_idles]).
  assert (Hk1 : keyed (w_db (after k w'))).
  { rewrite <- Ek. by apply (ev_keyed _ _ _ (own_evolves _ _ _ _ (own_runningEarlierOperation m (fun _ => True) iid stopLog) Hk)). }
  assert (Hnext : forall line since w2, keyed (w_db w2) -> idles w w2 -> failing_since w since (step w2).2 ->
    let r := (let! down := isDown in If down Return ret (Some line) ;;
              waitForEarlier m fuel iid stopLog line since) w2 in
    idles w r.2 /\ (is_Some r.1 -> leaves_wait w r.2)).
  { intros line' since' w2 Hk2 Hi2 Hf2. cbv zeta. rewrite bind_eq. unfold isDown. cbn [fst snd].
    assert (Hi3 : idles w (step w2).2) by (eapply idles_trans; [exact Hi2|apply idles_step]).
    destruct (w_down (step w2).2) eqn:Ed; [split; [done|]; intros _; by apply leaves_shutdown|].
    apply IH; [by apply (ev_keyed _ _ _ (evolves_step (fun _ => True) w2))|done|done]. }
  destruct ((runningEarlierOperation m iid stopLog w').1) as [[r|]|e] eqn:Er.
  - destruct (negb (empty line)); [by apply Hnext|]. rewrite bind_eq. apply Hnext; [|by eapply idles_trans; [|apply idles_broadcastLog]|done].
    by apply (ev_keyed _ _ _ (own_evolves _ _ _ _ (own_broadcastLog m (fun _ => True) ltac:(done) _ _ _) Hk1)).
  - split; [done|]. intros _. eapply leaves_clear; [exact Hi|apply after_idles|by apply Hclear].
  - rewrite !bind_clock. set (w2 := after k w') in *. set (now := e_now (w_env w2 (w_tick w2))). set (t := default now since).
    assert (Hfail : exists w0, idles w w0 /\ failing w0 t w2).
    { destruct since as [t'|].
      - destruct Hf as (w0 & w1 & H0 & H1 & ->). exists w0. split; [done|]. eapply failing_next; [exact H1|].
        by rewrite (surjective_pairing (runningEarlierOperation _ _ _ _)), Er, Ek.
      - exists w'. split; [done|]. apply (failing_first _ e). by rewrite (surjective_pairing (runningEarlierOperation _ _ _ _)), Er, Ek. }
    destruct Hfail as (w0 & H0 & H1).
    assert (Hi3 : idles w (after 2 w2)) by (eapply idles_trans; [exact Hi1|apply after_idles]).
    case_match eqn:Eb.
    + split; [exact Hi3|]. intros _. apply Z.leb_le in Eb. by eapply (leaves_unreadable _ _ w0 t w2).
    + apply Hnext; [|exact Hi3|by exists w0, w2].
      by do 2 apply (ev_keyed _ _ _ (evolves_step (fun _ => True) _)).
Qed.
End waiting.

(** ** An instance that cannot be read *)

(** The same world with calm interactions in the past: what a program does does not
    depend on them. *)
Definition calm_past (w : World) : World :=
  mkWorld (w_db w) (fun n => if (n <? w_tick w)%nat then calm_env 0 else w_env w n) (w_tick w) (w_down w) (w_quiet w)
    (w_mem w) (w_trace w).

Lemma ended_fallback l w :
  log_running l = false -> keyed (w_db w) -> (forall n, (w_tick w <= n)%nat -> e_fault (w_env w n) = None) ->
  env_ok (fresh_ops (dl_ID l)) w -> over (dl_ID l) (w_db (fallbackLogUpdate l w).2).
Proof.
  intros Hl Hk Hn Ho. set (t := w_tick w).
  assert (H0 : (t <? t)%nat = false) by (apply Nat.ltb_ge; lia). assert (H1 : (S t <? t)%nat = false) by (apply Nat.ltb_ge; lia).
  assert (E : w_db (fallbackLogUpdate l (calm_past w)).2 = w_db (fallbackLogUpdate l w).2).
  { unfold fallbackLogUpdate, log_Update, write_running, dropLiveOutput, calm_past, bind, modMem, db, query, step, ret. cbn -[Nat.ltb exec].
    fold t. rewrite H0. destruct (exec _ _ _) as [r s]. rewrite (Hn t) by (unfold t; lia). cbn -[Nat.ltb exec].
    destruct r as [n|]; [|done]. cbn -[Nat.ltb exec]. destruct (0 <? n)%Z; [done|]. cbn -[Nat.ltb exec]. fold t. rewrite H1.
    by rewrite (Hn (S t)) by (unfold t; lia). }
  rewrite <- E. apply ends_fallbackLogUpdate; [done|done|]. split; [exact Hk|]. split; intros n; cbn [w_env calm_past]; destruct (n <? w_tick w)%nat eqn:En.
  - done.
  - apply Hn. by apply Nat.ltb_ge.
  - apply Forall_nil_2.
  - apply Ho.
Qed.

(** C24. An operation whose instance cannot be read at its end, because the read fails
    or the row is gone, whatever the other processes do.  The finalizers of a stop and of
    a clean do nothing after the read: no statement, no message, so their log stays
    running.  [finalizeDeploy] ends its log, when its statements after the read succeed. *)
Theorem finalize_without_instance m l out err v w iid e :
  keyed (w_db w) -> (instance_FindByID iid (step w).2).1 = Err e ->
  (finalizeStop m iid l out err w).2 = after 2 w /\
  (finalizeClean m iid l out err w).2 = after 2 w /\
  ((forall n, (w_tick w + 2 <= n)%nat -> e_fault (w_env w n) = None) -> env_ok (fresh_ops (dl_ID l)) w ->
   over (dl_ID l) (w_db (finalizeDeploy m iid l out err false v "" w).2)).
Proof.
  intros Hk Hr. assert (Hw : (instance_FindByID iid (step w).2).2 = after 2 w).
  { unfold instance_FindByID, query. rewrite bind_eq. rewrite step_eq. by destruct (e_fault _). }
  unfold finalizeStop, finalizeClean, finalizeDeploy, finalizeDeployWith. rewrite !bind_clock, !bind_eq, Hr, Hw.
  split; [done|]. split; [done|]. intros Hn Ho. rewrite bind_eq. unfold ret at 1. cbn [snd].
  destruct (after_facts 2 w) as (Ht & He & _). set (l' := dl_set_ErrorMessage _ _).
  change (dl_ID l) with (dl_ID l'). apply ended_fallback; [done| |by rewrite Ht, He|unfold env_ok; by rewrite He].
  do 2 apply (ev_keyed _ _ _ (evolves_step (fun _ => True) _)). done.
Qed.

Definition uninstalls (e : event) : Prop := match e with EvHelmUninstall _ _ _ _ => True | _ => False end.

(** C3. A stop never runs its uninstalls beside a live deploy or rollback.  Whatever the
    other processes do and whatever fails, until its wait is over the stop makes no
    statement and no uninstall, and a stop that still waits has done nothing.  The wait
    is over only after a look that found every listed deploy and rollback of the instance
    settled (ended, not an earlier one, past its deadline, or of another replica whose
    heartbeat is stale), after all looks of two minutes failed to read, or at a shutdown,
    and then the stop ends without an uninstall. *)
Theorem stop_waits m iid stopLog fuel helm namespace charts w :
  m_logRepo m = true -> keyed (w_db w) ->
  let wait := waitForEarlierOperations m fuel iid stopLog w in
  let stop := executeStop m fuel helm iid stopLog namespace charts w in
  idles w wait.2 /\
  match wait.1 with
  | None => stop = (false, wait.2)
  | Some _ => leaves_wait m iid stopLog w wait.2 /\
      exists tr, w_trace stop.2 = (tr ++ w_trace wait.2)%list /\ (w_down wait.2 = true -> Forall (fun e => ~ uninstalls e) tr)
  end.
Proof.
  intros Hrepo Hk. cbv zeta. destruct (waits m iid stopLog fuel "" None w w Hk (idles_refl w) I) as [Hi Hl].
  assert (Ew : waitForEarlierOperations m fuel iid stopLog w = waitForEarlier m fuel iid stopLog "" None w)
    by (unfold waitForEarlierOperations; by rewrite Hrepo).
  unfold executeStop. rewrite bind_eq, Ew.
  assert (Hkw : keyed (w_db (waitForEarlier m fuel iid stopLog "" None w).2)).
  { by apply (ev_keyed _ _ _ (own_evolves _ _ _ _ (own_waitForEarlier m (fun _ => True) ltac:(done) iid stopLog fuel "" None) Hk)). }
  destruct (waitForEarlier m fuel iid stopLog "" None w) as [[out|] w1]; cbn [fst snd] in *; [|done].
  split; [done|]. split; [by apply Hl|]. destruct (w_down w1) eqn:Ed.
  - rewrite bind_eq. unfold isDown. cbn [fst snd]. assert (Hd : w_down (step w1).2 = true) by (unfold step; cbn; by rewrite Ed).
    rewrite Hd. assert (Hk1 : keyed (w_db (step w1).2)) by (by apply (ev_keyed _ _ _ (evolves_step (fun _ => True) w1))).
    set (p := bind _ _). assert (Hp : own (fun e => ~ uninstalls e) p (fun _ => True)).
    { unfold p. eapply (own_bind _ _ _ (fun _ => True)); [|intros; eapply own_bind; [apply own_modMem|]; intros; by apply own_ret].
      eapply (own_finalizeStop m _ iid (dl_ID stopLog)); [by intros []; cbn; tauto|intros op _ rows []|done|done]. }
    destruct (ev_trace _ _ _ (own_evolves _ _ _ _ Hp Hk1)) as (tr & Et & Hf). exists tr. split; [exact Et|done].
  - assert (Hp := own_afterWait (fun _ => True) m helm iid stopLog namespace charts out ltac:(done) ltac:(done) ltac:(done)).
    destruct (ev_trace _ _ _ (own_evolves _ _ _ _ Hp Hkw)) as (tr & Et & Hf). exists tr. split; [exact Et|done].
Qed.

(** ** The wait ends *)


Section wait_ends.
Context (m : Manager) (s : Store) (iid : string) (stopLog : DeploymentLog) (D : time) (K : nat).
Context (Hkey : keyed s).

(** After [K] interactions every deadline of the stored logs has passed. *)
Definition deadlines_pass (w : World) : Prop :=
  calm w /\ w_db w = s /\ (forall n, (K <= n)%nat -> (D <= e_now (w_env w n))%Z) /\
  forall id l d, st_logs s !! id = Some l -> dl_DeadlineAt l = Some d -> (d <= D)%Z.

Lemma passes_own {A} (p : M A) Φ w :
  own message p Φ -> deadlines_pass w -> deadlines_pass (p w).2 /\ (w_tick w <= w_tick (p w).2)%nat.
Proof.
  intros Hp (Hc & Hs & Hn & Hl). assert (Hk : keyed (w_db w)) by (by rewrite Hs).
  destruct (hoare_own message (w_db w) p Φ Hp Hk ltac:(intros op H; exact (H 0%Z)) w Hc eq_refl) as [Hc' [Hs' _]].
  assert (E := own_evolves _ _ _ _ Hp Hk). split; [|apply (ev_tick _ _ _ E)].
  split; [exact Hc'|split; [by rewrite Hs'|split; [|done]]]. by rewrite (ev_env _ _ _ E).
Qed.

Lemma running_at_end w :
  deadlines_pass w -> (K <= w_tick w)%nat -> (runningEarlierOperation m iid stopLog w).1 = Ok None.
Proof.
  intros (Hc & Hs & Hn & Hl) Ht. unfold runningEarlierOperation, ListLatestByActions. rewrite !bind_eq.
  rewrite query_ok by apply Hc. cbn [fst snd ret]. rewrite (proj2 (calm_step w Hc)), Hs.
  set (logs := latest_by_actions _ _ _ _). destruct (length logs) as [|n] eqn:E; cbn [firstAlive];
    unfold clock; rewrite !bind_eq; cbn [fst snd ret]; [done|].
  destruct (runningEarlierLog logs stopLog _) as [x|] eqn:Ex; [|done]. exfalso.
  apply List.find_some in Ex as [Hx Ha]. apply list_elem_of_In, latest_by_actions_in in Hx; [|done].
  unfold awaited in Ha. apply andb_true_iff in Ha as [_ Ha]. destruct (dl_DeadlineAt x) as [d|] eqn:Ed; [|done].
  apply Z.ltb_lt in Ha. specialize (Hl _ _ _ Hx Ed).
  assert (Hd : (D <= e_now (w_env w (S (w_tick w))))%Z) by (apply Hn; lia).
  rewrite step_eq in Ha. cbn in Ha. lia.
Qed.

Lemma waitForEarlier_ends fuel : forall line since w,
  deadlines_pass w -> (K - w_tick w < fuel)%nat -> is_Some (waitForEarlier m fuel iid stopLog line since w).1.
Proof.
  induction fuel as [|fuel IH]; intros line since w Hw Hf; [lia|]. cbn [waitForEarlier]. rewrite bind_eq.
  assert (Ho := own_runningEarlierOperation m message iid stopLog).
  destruct (passes_own _ _ w Ho Hw) as [Hw' Ht].
  assert (Hnext : forall line since w', deadlines_pass w' -> (w_tick w <= w_tick w')%nat -> (K > w_tick w)%nat ->
    is_Some ((let! down := isDown in
      If down Return ret (Some line) ;; waitForEarlier m fuel iid stopLog line since) w').1).
  { intros line' since' w2 Hw2 Ht2 HK. rewrite bind_eq. destruct (passes_own _ _ w2 (own_isDown _) Hw2) as [Hw3 _].
    assert (Ht3 : w_tick (isDown w2).2 = S (w_tick w2)) by done.
    case_match; [by eexists|]. apply IH; [done|]. lia. }
  destruct (decide (K <= w_tick w)%nat) as [HK|HK].
  { rewrite (running_at_end w Hw HK). by eexists. }
  set (w1 := (runningEarlierOperation m iid stopLog w).2) in *.
  destruct (runningEarlierOperation m iid stopLog w).1 as [[r|]|e].
  - destruct (negb (empty line)); [apply Hnext; try done; lia|]. rewrite bind_eq.
    match goal with |- context [broadcastLog m iid (dl_ID stopLog) ?t] => set (text := t) end.
    destruct (passes_own (broadcastLog m iid (dl_ID stopLog) text) _ w1 (own_broadcastLog m message ltac:(done) _ _ _) Hw') as [Hw2 Ht2].
    apply Hnext; try done; lia.
  - by eexists.
  - rewrite bind_eq. destruct (passes_own _ _ w1 (own_clock _) Hw') as [Hw2 Ht2].
    rewrite bind_eq. destruct (passes_own _ _ _ (own_clock _) Hw2) as [Hw3 Ht3].
    case_match; [by eexists|]. apply Hnext; try done; lia.
Qed.
End wait_ends.

(** C11. The wait of a stop ends.  In a run without faults, without interference of
    others and without a shutdown, once the clock has passed
    the deadlines of the stored logs (after [K] interactions), the stop has left
    its wait and finished after at most [K + 1] turns: a lost replica cannot keep
    a stop waiting for ever. *)
Theorem stop_wait_ends m s iid stopLog D K helm namespace charts w :
  keyed s -> deadlines_pass s D K w ->
  (executeStop m (S K) helm iid stopLog namespace charts w).1 = true.
Proof.
  intros Hk Hw. unfold executeStop, waitForEarlierOperations. rewrite bind_eq.
  assert (H : is_Some ((if negb (m_logRepo m) then ret (Some "") else waitForEarlier m (S K) iid stopLog "" None) w).1).
  { case_match; [by eexists|]. apply (waitForEarlier_ends m s iid stopLog D K Hk); [done|lia]. }
  destruct H as [out ->]. done.
Qed.

(** ** Witnesses *)

Definition stopping_world : World := calm_world (busy_store StackStatusStopping DeployActionStop).
Definition stop_log : DeploymentLog :=
  mkLog "l2" "i1" DeployActionStop DeployLogRunning "" "" "" "" "main" "" "alice" "pod-a" 3000 None (Some 9000%Z).
Definition sample_helm : HelmExecutor := mkHelm (5 * Minute) false.

(** A stop and a clean of two charts run to the end. *)
Example executeStop_runs :
  let r := executeStop plain_manager 3 sample_helm "i1" stop_log "stack-shop-alice"
             (teardown_order (da_charts sample_deploy)) stopping_world in
  r.1 = true /\
  (si_Status <$> st_instances (w_db r.2) !! "i1") = Some StackStatusStopped /\
  (dl_Status <$> st_logs (w_db r.2) !! "l2") = Some DeployLogSuccess /\
  List.filter (fun e => match e with EvHelmUninstall _ _ _ _ => true | _ => false end) (w_trace r.2) =
    [EvHelmUninstall "api" "stack-shop-alice" false (290 * Second - 3);
     EvHelmUninstall "web" "stack-shop-alice" false (290 * Second - 1)].
Proof. vm_compute. auto. Qed.

Lemma teardown_ends_log_witness :
  over "l2" (w_db (executeClean plain_manager sample_helm true "i1" stop_log "stack-shop-alice"
    (da_charts sample_deploy) stopping_world).2).
Proof.
  apply (teardown_ends_log plain_manager 3 sample_helm true "i1" stop_log "stack-shop-alice"
    (da_charts sample_deploy) stopping_world).
  - apply busy_store_keyed.
  - apply calm_world_calm.
  - intros n. constructor.
  - eexists. vm_compute. reflexivity.
Defined.

Lemma finalizeStop_result_witness :
  exists i' l',
    w_db (finalizeStop plain_manager "i1" stop_log "done" None stopping_world).2 =
      set_instance i' (end_log l' (busy_store StackStatusStopping DeployActionStop)) /\
    dl_ID l' = "l2" /\ si_Status i' = "stopped" /\ dl_Status l' = "success".
Proof.
  destruct (finalizeStop_result plain_manager stop_log "done" None stopping_world
    (sample_instance "i1" StackStatusStopping) stop_log) as (i' & l' & H & ? & _ & _ & _ & _ & _ & _ & ? & _ & _ & ?).
  - apply calm_world_calm.
  - apply busy_store_keyed.
  - vm_compute. reflexivity.
  - vm_compute. reflexivity.
  - vm_compute. reflexivity.
  - exists i', l'. split; [exact H|]. split; [assumption|]. split; assumption.
Defined.

(** The clean of a delete: the instance is marked. *)
Definition deleting_instance : StackInstance := si_set_DeleteAfterClean true (sample_instance "i1" StackStatusCleaning).
Definition deleting_store : Store :=
  with_instances {["i1" := deleting_instance]} (busy_store StackStatusCleaning DeployActionClean).
Lemma deleting_store_keyed : keyed deleting_store.
Proof.
  split; intros id x; cbn; rewrite ?lookup_insert_Some, ?lookup_singleton_Some; naive_solver.
Qed.
Definition clean_log : DeploymentLog :=
  mkLog "l2" "i1" DeployActionClean DeployLogRunning "" "" "" "" "main" "" "alice" "pod-a" 3000 None (Some 9000%Z).

Lemma finalizeClean_result_witness :
  exists l',
    w_db (finalizeClean plain_manager "i1" clean_log "done" None (calm_world deleting_store)).2 =
      with_instances (delete "i1" (st_instances deleting_store)) (end_log l' deleting_store) /\
    dl_ID l' = "l2" /\ dl_Status l' = "success".
Proof.
  destruct (finalizeClean_result plain_manager clean_log "done" None (calm_world deleting_store) deleting_instance clean_log)
    as (i' & l' & H & ? & _ & _ & _ & _ & _ & _ & _ & _ & _ & _ & _ & ?).
  - apply calm_world_calm.
  - apply deleting_store_keyed.
  - vm_compute. reflexivity.
  - vm_compute. reflexivity.
  - vm_compute. reflexivity.
  - exists l'. split; [exact H|]. split; assumption.
Defined.

(** The instance was deleted during the stop. *)
Definition orphan_store : Store := with_instances ∅ (busy_store StackStatusStopping DeployActionStop).

Lemma orphan_store_keyed : keyed orphan_store.
Proof. split; [apply busy_store_keyed|done]. Qed.

(** The row is gone: the log of the stop runs on, that of a deploy would end. *)
Lemma finalize_without_instance_witness :
  (dl_Status <$> st_logs (w_db (finalizeStop plain_manager "i1" stop_log "done" None (calm_world orphan_store)).2) !! "l2")
    = Some DeployLogRunning /\
  over "l2" (w_db (finalizeDeploy plain_manager "i1" stop_log "done" None false "" "" (calm_world orphan_store)).2).
Proof.
  destruct (finalize_without_instance plain_manager stop_log "done" None "" (calm_world orphan_store) "i1"
    (EDB "find_by_id" ErrNotFound) orphan_store_keyed eq_refl) as (H & _ & Hd).
  split; [rewrite H; vm_compute; reflexivity|]. apply Hd; [intros; reflexivity|intros n; apply Forall_nil_2].
Defined.

(** A deploy of the same instance runs on this process until 10 s. *)
Definition live_deploy : DeploymentLog :=
  mkLog "l0" "i1" DeployActionDeploy DeployLogRunning "" "" "" "" "main" "" "alice" "pod-a" 2500 None (Some 10000000000%Z).
Definition busy_with_deploy : Store :=
  with_logs {["l0" := live_deploy]} (busy_store StackStatusStopping DeployActionStop).
(** The time stands still; the wait could go on for ever. *)
Definition still_world (s : Store) (now : time) : World :=
  mkWorld s (fun _ => calm_env now) 0 false false (mkMem ∅ ∅ ∅) [].

Lemma busy_with_deploy_keyed : keyed busy_with_deploy.
Proof. split; intros id x; cbn; rewrite ?lookup_singleton_Some; naive_solver. Qed.

Lemma stop_waits_witness :
  executeStop plain_manager 5 sample_helm "i1" stop_log "stack-shop-alice" [] (still_world busy_with_deploy 20000) =
    (false, (waitForEarlierOperations plain_manager 5 "i1" stop_log (still_world busy_with_deploy 20000)).2).
Proof.
  destruct (stop_waits plain_manager "i1" stop_log 5 sample_helm "stack-shop-alice" []
    (still_world busy_with_deploy 20000) eq_refl busy_with_deploy_keyed) as [_ H].
  assert (E : (waitForEarlierOperations plain_manager 5 "i1" stop_log (still_world busy_with_deploy 20000)).1 = None)
    by (vm_compute; reflexivity).
  rewrite E in H. exact H.
Defined.

Lemma stop_wait_ends_witness :
  (executeStop plain_manager 1 sample_helm "i1" stop_log "stack-shop-alice" []
     (still_world busy_with_deploy 20000000000)).1 = true.
Proof.
  apply (stop_wait_ends plain_manager busy_with_deploy "i1" stop_log 10000000000 0).
  - apply busy_with_deploy_keyed.
  - split; [done|]. split; [done|]. split; [intros n _; discriminate|].
    intros id l d. cbn. rewrite lookup_singleton_Some. intros [_ <-] [= <-]. discriminate.
Defined.
