(* ===== verification/Rollback.v ===== *)
(** * Rollback

    [Rollback], [executeRollback], [finalizeRollback] of [deployer/manager.go]
    and [deployer/rollback_target.go]: a rollback by one Helm revision, or to the
    values and chart versions that the log of an earlier deploy recorded.

    A write to a nil map panics in Go and ends the process: [mergeRunningValues]
    is [None] then (only for a stored [null], which no operation writes), and the
    rollback makes no further step. *)

From S2P Require Import Prelude Models Quota Naming Store Hooks World Output Json Manager Ends Calm Deploy Teardown.
Local Open Scope string_scope.

(** ** Recorded values and versions *)

Definition ParseChartVersions (s : string) : gmap string string :=
  If empty s Return ∅ ;;
  match json_Unmarshal s with Some (Some m) => m | _ => ∅ end.

(** [mergeRunningValues]: the values that run after [applied] were installed. *)
Definition mergeRunningValues (previous : string) (applied : gmap string string) : option string :=
  If bool_decide (applied = ∅) Return Some previous ;;
  match (if empty previous then Some (Some ∅) else json_Unmarshal previous) with
  | Some (Some merged) => Some (json_Marshal (applied ∪ merged))
  | Some None => None
  | None => Some (json_Marshal applied)
  end.

Record rollbackTarget := mkTarget {
  rt_values : gmap string string;
  rt_versions : gmap string string;
  rt_regCfg : option RegistryConfig
}.

Record RollbackRequest := mkRollbackRequest {
  rr_Instance : StackInstance;
  rr_Charts : list ChartDeployInfo;
  rr_TargetLogID : string;
  rr_TargetValues : gmap string string;
  rr_TargetChartVersions : gmap string string;
  rr_TargetBranch : string
}.

Definition with_branch (branch : string) (c : ChartDeployInfo) : ChartDeployInfo :=
  mkChartInfo (ci_ChartConfig c) (ci_ValuesYAML c) branch.

(** The charts of a request that the target deploy included. *)
Definition target_charts (values : gmap string string) (charts : list ChartDeployInfo) : list ChartDeployInfo :=
  List.filter (fun c => bool_decide (is_Some (values !! chartName c))) charts.

(** The payload of the pre-rollback hook; the metadata keys are distinct, their
    order has no meaning. *)
Definition rollbackHookOpts (req : RollbackRequest) (regCfg : option RegistryConfig) (previousBranch : string)
    : hookOpts :=
  let registry := match regCfg with Some rc => [("registry_url", rc_URL rc)] | None => [] end in
  let instBranch := si_Branch (rr_Instance req) in
  If bool_decide (rr_TargetValues req = ∅) Return
    (let mode := (registry ++ [("rollback_mode", "previous_revision")])%list in
     If empty previousBranch Return
       mkOpts (chartRefsFor (rr_Charts req) instBranch ∅) (mode ++ [("branch_source", "current")])%list ;;
     mkOpts (chartRefsFor (List.map (with_branch previousBranch) (rr_Charts req)) previousBranch ∅)
       (mode ++ [("branch_source", "previous_deploy")])%list) ;;
  let branch := if empty (rr_TargetBranch req) then instBranch else rr_TargetBranch req in
  mkOpts
    (chartRefsFor (List.map (with_branch branch) (target_charts (rr_TargetValues req) (rr_Charts req)))
       branch (rr_TargetChartVersions req))
    (registry ++ [("branch_source", "target_deploy"); ("rollback_mode", "target");
                  ("target_log_id", rr_TargetLogID req); ("target_branch", branch)])%list.

(** The branch of the [want]-th successful log. *)
Definition successful_branch (want : nat) (logs : list DeploymentLog) : string :=
  match nth_error (List.filter (fun l => bool_decide (dl_Status l = DeployLogSuccess)) logs) (want - 1) with
  | Some l => dl_Branch l
  | None => ""
  end.

(** The branch of the revision that helm goes back to, from the logs newest
    first. *)
Definition revision_branch (logs : list DeploymentLog) : string :=
  match logs with
  | [] => ""
  | l :: _ => successful_branch (if bool_decide (dl_Status l = DeployLogSuccess) then 2 else 1) logs
  end.

Record rollbackJob := mkJob {
  rj_helm : HelmExecutor;
  rj_k8s : bool;
  rj_instance : StackInstance;
  rj_charts : list ChartDeployInfo;
  rj_target : option rollbackTarget;
  rj_opts : hookOpts;
  rj_prevStatus : string;
  rj_prevError : string
}.

Definition rollbackOutcomeSucceeded := "succeeded".
Definition rollbackOutcomeFailed := "failed".
Definition rollbackOutcomeRejected := "rejected".
Definition rollbackOutcomeCancelled := "cancelled".

Section rollback.
Context (m : Manager).

Definition previousRevisionBranch (instanceID : string) : M string :=
  If negb (m_logRepo m) Return ret "" ;;
  let! r := ListLatestByActions instanceID [DeployActionDeploy; DeployActionRollback] 20 in
  ret match r with Err _ => "" | Ok logs => revision_branch logs end.

(** ** The end of a rollback *)

Definition fireOutcome (instance : StackInstance) (logID outcome : string) : M unit :=
  fireAndForget m EventRollbackCompleted instance logID [("outcome", outcome)].

Definition rollbackCancelReason (status : string) : string :=
  "rollback cancelled: another operation changed the instance (status " +:+ status +:+ ") during the pre-rollback hook".

(** The log of a rollback that ends with an error and a text of its own. *)
Definition failed_log (now : time) (output reason : string) (l : DeploymentLog) : DeploymentLog :=
  ended_log output now l |> dl_set_Status DeployLogError |> dl_set_ErrorMessage (truncateString reason maxLogErrorLen).

Definition finalizeRollbackCancelled (instanceID : string) (deployLog : DeploymentLog) (output reason : string) : M unit :=
  let logID := dl_ID deployLog in
  let! now := clock in
  run! broadcastLog m instanceID logID ("WARNING: " +:+ reason) in
  let! ok := writeFinal m None (failed_log now (output +:+ "WARNING: " +:+ reason +:+ nl) reason deployLog) in
  run! (If negb ok Return ret tt ;;
    let! r := instance_FindByID instanceID in
    match r with
    | Err _ => ret tt
    | Ok instance => fireOutcome instance logID rollbackOutcomeCancelled
    end) in
  modMem (mem_del_action logID).

(** The status and the error from before the rollback. *)
Definition restored (job : rollbackJob) (i : StackInstance) : StackInstance :=
  i |> si_set_Status (rj_prevStatus job) |> si_set_ErrorMessage (rj_prevError job).

Definition finalizeRollbackRejected (job : rollbackJob) (deployLog : DeploymentLog) (output : string) (hookErr : goerr)
    : M unit :=
  let instanceID := si_ID (rj_instance job) in
  let logID := dl_ID deployLog in
  let reason := UserMessage hookErr EventPreRollback "rollback" in
  let! now := clock in
  run! broadcastLog m instanceID logID ("ERROR: " +:+ reason) in
  let deployLog := failed_log now (output +:+ "ERROR: " +:+ reason +:+ nl) reason deployLog in
  let! p := ownsInstance m instanceID logID [StackStatusDeploying] in
  let restore := p.1 in
  let! r := instance_FindByID instanceID in
  run! match r with
  | Err _ => run! fallbackLogUpdate deployLog in ret tt
  | Ok instance =>
      let instance := if restore then restored job instance else instance in
      let! ok := writeFinal m (if restore then Some instance else None) deployLog in
      If negb ok Return ret tt ;;
      run! when_ restore (broadcastStatusWithError m instanceID (si_Status instance) logID (si_ErrorMessage instance)) in
      run! fireOutcome instance logID rollbackOutcomeRejected in
      let! trigger := triggerFor logID in
      notifyInstance m instance "rollback.error" "Rollback rejected"
        ("Rollback of " +:+ si_Name instance +:+ " was rejected: " +:+ reason) trigger ""
  end in
  modMem (mem_del_action logID).

(** The rows that a finished rollback writes; [None] is the panic of the merge. *)
Definition rolled_back (now : time) (rollbackErr : error) (applied : gmap string string)
    (instance : StackInstance) (l : DeploymentLog) : option (StackInstance * DeploymentLog) :=
  let instance := si_set_PostDeployHookUntil None instance in
  match rollbackErr with
  | Some e =>
      let text := sanitizeDeployError e in
      let instance := instance |> si_set_Status StackStatusError
                               |> si_set_ErrorMessage (truncateString text maxInstanceErrorLen) in
      let l := l |> dl_set_Status DeployLogError |> dl_set_ErrorMessage (truncateString text maxLogErrorLen) in
      If bool_decide (applied = ∅) Return Some (instance, l) ;;
      match mergeRunningValues (si_LastDeployedValues instance) applied with
      | Some running => Some (si_set_LastDeployedValues running instance, l)
      | None => None
      end
  | None =>
      let instance := instance |> si_set_Status StackStatusRunning |> si_set_ErrorMessage ""
                               |> si_set_LastDeployedAt (Some now) |> si_set_CleanedAt None in
      let l := dl_set_Status DeployLogSuccess l in
      If bool_decide (applied = ∅) Return Some (instance, l) ;;
      match mergeRunningValues (si_LastDeployedValues instance) applied with
      | Some running => Some (si_set_LastDeployedValues running instance, dl_set_ValuesSnapshot running l)
      | None => None
      end
  end.

Definition announceRollback (instance : StackInstance) (logID : string) (rollbackErr : error) (siteURL : string) : M unit :=
  let failed := bool_decide (is_Some rollbackErr) in
  run! (if failed then broadcastStatusWithError m (si_ID instance) StackStatusError logID (si_ErrorMessage instance)
        else broadcastStatus m (si_ID instance) StackStatusRunning logID) in
  run! fireOutcome instance logID (if failed then rollbackOutcomeFailed else rollbackOutcomeSucceeded) in
  If failed Return (
    let! trigger := triggerFor logID in
    notifyInstance m instance "rollback.error" "Rollback failed"
      ("Rollback of " +:+ si_Name instance +:+ " failed: " +:+ si_ErrorMessage instance) trigger "") ;;
  run! fireAndForget m EventPostRollback instance logID [] in
  let! trigger := triggerFor logID in
  notifyInstance m instance "rollback.completed" "Rollback completed"
    ("Stack " +:+ si_Name instance +:+ " has been rolled back successfully") trigger siteURL.

Definition finalizeRollback (instanceID : string) (deployLog : DeploymentLog) (output : string) (rollbackErr : error)
    (applied : gmap string string) (siteURL : string) : M unit :=
  let logID := dl_ID deployLog in
  let! now := clock in
  let! r := instance_FindByID instanceID in
  match r with
  | Err _ => ret tt
  | Ok instance =>
      let deployLog := ended_log output now deployLog in
      let! p := ownsInstance m instanceID logID stabilizing_statuses in
      If negb p.1 Return
        finalizeRollbackCancelled instanceID deployLog output
          ("rollback result not applied to the instance: another operation changed it (status " +:+ p.2 +:+ ")") ;;
      match rolled_back now rollbackErr applied instance deployLog with
      | None => ret tt
      | Some (instance, deployLog) =>
          let! ok := writeFinal m (Some instance) deployLog in
          If negb ok Return modMem (mem_del_action logID) ;;
          announceRollback instance logID rollbackErr siteURL
      end
  end.

(** ** The rollback to a target *)

(** The version that is installed: the recorded one, else the configured one. *)
Definition rollback_version (target : rollbackTarget) (c : ChartDeployInfo) : string :=
  let v := default "" (rt_versions target !! chartName c) in
  if empty v then cc_ChartVersion (ci_ChartConfig c) else v.

Definition rollbackLogin (regCfg : option RegistryConfig) : M string :=
  match regCfg with
  | None => ret ""
  | Some rc =>
      let! err := k8sCall "helm registry login" (if empty (host_of (rc_URL rc)) then rc_URL rc else host_of (rc_URL rc)) in
      ret (match err with
           | Some e => "WARNING: helm registry login failed: " +:+ errText e +:+ nl
           | None => ""
           end)
  end.

(** A stuck release is recovered: the output line and whether it was. *)
Definition recoverRelease (k8sClient : bool) (instanceID logID name namespace : string) : M (string * bool) :=
  If negb k8sClient Return ret ("", false) ;;
  let! r := recoverPendingRelease name namespace in
  match r with
  | Err e => ret ("WARNING: " +:+ errText e +:+ nl, false)
  | Ok msg =>
      If empty msg Return ret ("", false) ;;
      run! broadcastLog m instanceID logID msg in
      ret (msg +:+ nl, true)
  end.

(** The lines of a streaming executor, or the whole text after the call. *)
Definition showOutput (helm : HelmExecutor) (instanceID logID : string) (st : EnvStep) : M unit :=
  run! when_ (he_streaming helm) (forEach (e_lines st) (broadcastLog m instanceID logID)) in
  when_ (negb (he_streaming helm)) (broadcastLog m instanceID logID (e_text st)).

(** One chart of the target with its recorded [values]: the output and the
    error. *)
Definition rollbackChart (helm : HelmExecutor) (k8sClient : bool) (instanceID : string) (deployLog : DeploymentLog)
    (namespace : string) (nsReady : bool) (target : rollbackTarget) (c : ChartDeployInfo) (values : string)
    : M (string * error) :=
  let cfg := ci_ChartConfig c in
  let name := chartName c in
  let logID := dl_ID deployLog in
  match checkChartSource (m_allowedSources m) (cc_RepositoryURL cfg) (cc_ChartPath cfg) name with
  | Some e => ret ("", Some (EWrap ("chart " +:+ quote name +:+ ": ") e ""))
  | None =>
      let! err := writeValues (mkChartInfo cfg values (ci_Branch c)) in
      match err with
      | Some e => ret ("", Some (EWrap ("writing values for chart " +:+ quote name +:+ ": ") e ""))
      | None =>
          let! rec := recoverRelease k8sClient instanceID logID name namespace in
          let '(chartRef, repoURL) := ChartReference (cc_RepositoryURL cfg) (cc_ChartPath cfg) name in
          let version := rollback_version target c in
          let! st := step in
          run! emit (EvHelmInstall name namespace chartRef repoURL version values nsReady) in
          run! showOutput helm instanceID logID st in
          ret (rec.1 +:+ "=== Chart: " +:+ name +:+ " (-> values of deploy " +:+ dl_TargetLogID deployLog +:+
                 ", chart version " +:+ quote version +:+ ") ===" +:+ nl +:+ e_text st +:+ nl,
               wrap_err ("rolling back chart " +:+ quote name +:+ " to deploy " +:+ dl_TargetLogID deployLog +:+ ": ")
                 (e_err st))
      end
  end.

(** The charts in order up to the first error: output, applied values, error. *)
Fixpoint rollbackCharts (helm : HelmExecutor) (k8sClient : bool) (instanceID : string) (deployLog : DeploymentLog)
    (namespace : string) (nsReady : bool) (target : rollbackTarget) (charts : list ChartDeployInfo)
    (output : string) (applied : gmap string string) : M (string * gmap string string * error) :=
  match charts with
  | [] => ret (output, applied, None)
  | c :: rest =>
      let continue output applied :=
        rollbackCharts helm k8sClient instanceID deployLog namespace nsReady target rest output applied in
      match rt_values target !! chartName c with
      | None => continue (output +:+ "=== Chart: " +:+ chartName c +:+
                  " === (skipped: not part of the target deploy; left unchanged)" +:+ nl) applied
      | Some values =>
          let! r := rollbackChart helm k8sClient instanceID deployLog namespace nsReady target c values in
          match r.2 with
          | Some e => ret (output +:+ r.1, applied, Some e)
          | None => continue (output +:+ r.1) (<[chartName c := values]> applied)
          end
      end
  end.

(** The charts of the target that are no longer in the definition, sorted. *)
Definition missing_charts (target : rollbackTarget) (charts : list ChartDeployInfo) : list string :=
  List.filter (fun n => negb (bool_decide (n ∈ List.map chartName charts)))
    (List.map fst (sorted_entries (rt_values target))).

Section quota.
Context `{QuantityOps} (reg : ClusterResolver).

Definition rollbackToTarget (helm : HelmExecutor) (k8sClient : bool) (instanceID : string)
    (deployLog : DeploymentLog) (namespace : string) (charts : list ChartDeployInfo) (target : rollbackTarget)
    : M (string * gmap string string * error) :=
  let! tmp := (let! st := step in ret (e_err st)) in
  match tmp with
  | Some e => ret ("", ∅, Some (EWrap "creating temp directory: " e ""))
  | None =>
      let! nsReady := ensureNamespace k8sClient namespace in
      let! quota := if m_quotaRepo m && nsReady then applyQuotasForDeploy reg instanceID namespace else ret "" in
      let! login := rollbackLogin (rt_regCfg target) in
      let! r := rollbackCharts helm k8sClient instanceID deployLog namespace nsReady target charts (quota +:+ login) ∅ in
      let '(output, applied, err) := r in
      match err with
      | Some e => ret (output, applied, Some e)
      | None =>
          let warnings := List.map (fun n => "WARNING: chart " +:+ n +:+
            " is in the target deploy but not in the stack definition; skipped" +:+ nl) (missing_charts target charts) in
          ret (output +:+ String.concat "" warnings, applied, None)
      end
  end.

(** ** The rollback by one revision *)

(** The revision that a chart goes back to, from its history (oldest first);
    [None]: there is none. *)
Definition target_revision (revisions : list (Z * string)) (recovered : bool) : option Z :=
  match revisions with
  | [] => None
  | (r, _) :: rest =>
      If recovered Return (fst <$> last revisions) ;;
      match rest with [] => None | _ => Some r end
  end.

Fixpoint revertCharts (helm : HelmExecutor) (k8sClient : bool) (instanceID logID namespace : string)
    (charts : list ChartDeployInfo) (output : string) (done : list ChartDeployInfo)
    : M (string * list ChartDeployInfo * error) :=
  match charts with
  | [] => ret (output, done, None)
  | c :: rest =>
      let name := chartName c in
      let! rec := recoverRelease k8sClient instanceID logID name namespace in
      let output := output +:+ rec.1 in
      let! st := step in
      match e_err st with
      | Some e =>
          let err := EWrap ("getting history for chart " +:+ quote name +:+ ": ") e "" in
          ret (output +:+ "ERROR: " +:+ errText err +:+ nl, done, Some err)
      | None =>
          match target_revision (e_revisions st) rec.2 with
          | None =>
              revertCharts helm k8sClient instanceID logID namespace rest
                (output +:+ "=== Chart: " +:+ name +:+ " === (skipped: only " +:+
                 itoa (Z.of_nat (length (e_revisions st))) +:+ " revision)" +:+ nl) done
          | Some revision =>
              let! st := step in
              run! emit (EvHelmRollback name namespace revision) in
              run! when_ (he_streaming helm) (forEach (e_lines st) (broadcastLog m instanceID logID)) in
              let! pods := podDrain m k8sClient instanceID logID in
              run! when_ (negb (he_streaming helm)) (broadcastLog m instanceID logID (e_text st)) in
              let output := output +:+ "=== Chart: " +:+ name +:+ " (→ rev " +:+ itoa revision +:+ ") ===" +:+ nl +:+
                            e_text st +:+ nl +:+ pods in
              match e_err st with
              | Some e =>
                  let err := EWrap ("rolling back chart " +:+ quote name +:+ " to revision " +:+ itoa revision +:+ ": ") e "" in
                  ret (output +:+ "ERROR: " +:+ errText err +:+ nl, done, Some err)
              | None => revertCharts helm k8sClient instanceID logID namespace rest output (done ++ [c])%list
              end
          end
      end
  end.

(** [helm get values] of each chart; what cannot be read is left out. *)
Fixpoint collectChartValues (charts : list ChartDeployInfo) (values : gmap string string) : M (gmap string string) :=
  match charts with
  | [] => ret values
  | c :: rest =>
      let! st := step in
      collectChartValues rest
        (match e_err st with
         | Some _ => values
         | None => if empty (TrimSpace (e_text st)) then values else <[chartName c := e_text st]> values
         end)
  end.

(** [rollbackReadiness]: the warning line and the URL. *)
Definition rollbackReadiness (k8sClient : bool) (instanceID namespace logID : string) (rollbackErr : error)
    : M (string * string) :=
  If bool_decide (is_Some rollbackErr) Return ret ("", "") ;;
  If (m_stabilizeTimeout m <=? 0)%Z || negb k8sClient Return
    (let! url := siteURLFor m k8sClient namespace None false in ret ("", url)) ;;
  let! r := awaitReadiness m instanceID namespace logID in
  let! url := siteURLFor m k8sClient namespace r.1 true in
  ret (match r.2 with Some e => "WARNING: " +:+ errText e +:+ nl | None => "" end, url).

(** ** The whole rollback *)

(** From the concurrency slot on: output, values that run and error of the
    charts, then the readiness wait. *)
Definition runRollback (job : rollbackJob) (deployLog : DeploymentLog) (hookOutput : string) : M unit :=
  let instanceID := si_ID (rj_instance job) in
  let namespace := si_Namespace (rj_instance job) in
  let logID := dl_ID deployLog in
  let helm := rj_helm job in
  let! r := match rj_target job with
    | Some target => rollbackToTarget helm (rj_k8s job) instanceID deployLog namespace (rj_charts job) target
    | None =>
        let! r := revertCharts helm (rj_k8s job) instanceID logID namespace (rj_charts job) "" [] in
        let '(output, done, err) := r in
        let! running := collectChartValues (if bool_decide (is_Some err) then done else rj_charts job) ∅ in
        ret (output, running, err)
    end in
  let '(output, applied, err) := r in
  let! ready := rollbackReadiness (rj_k8s job) instanceID namespace logID err in
  let! pods := podStop m (rj_k8s job) instanceID logID in
  finalizeRollback instanceID deployLog (hookOutput +:+ output +:+ pods.1 +:+ ready.1)
    (withPodEvent err pods.2) applied ready.2.

Definition executeRollback (job : rollbackJob) (deployLog : DeploymentLog) : M unit :=
  let instanceID := si_ID (rj_instance job) in
  let logID := dl_ID deployLog in
  let! pre := firePreHook m EventPreRollback (rj_instance job) logID (rj_opts job) in
  run! match ph_lost pre, ph_err pre with
  | Some status, _ =>
      finalizeRollbackCancelled instanceID deployLog (ph_progress pre) (rollbackCancelReason status)
  | None, Some e => finalizeRollbackRejected job deployLog (ph_progress pre) e
  | None, None =>
      let! p := ownsAfterPreHook m instanceID logID in
      If negb p.1 Return
        finalizeRollbackCancelled instanceID deployLog (ph_progress pre) (rollbackCancelReason p.2) ;;
      let! ext := extendDeadline m deployLog (Some (rj_helm job)) (Z.of_nat (length (rj_charts job))) in
      match ext with
      | None => ret tt
      | Some deployLog => runRollback job deployLog (ph_progress pre)
      end
  end in
  modMem (mem_del_trigger logID).
End quota.

(** ** The start *)

(** The clients of a rollback; a missing Kubernetes client or registry is no
    error. *)
Definition rollbackClients (clusterID : string)
    : res (ClusterResolver * HelmExecutor * option RegistryConfig * bool) :=
  match m_registry m with
  | None => Err (ENew "cluster registry is not configured")
  | Some reg =>
      id <-r res_wrap "resolving cluster: " (ResolveClusterID reg clusterID) ;;
      helm <-r res_wrap "getting cluster clients: " (GetHelmExecutor reg id) ;;
      match helm with
      | None => Err (ENew "getting cluster clients: helm executor is nil")
      | Some helm =>
          Ok (reg, helm, match GetRegistryConfig reg id with Ok c => c | Err _ => None end,
              match GetK8sClient reg id with Ok b => b | Err _ => false end)
      end
  end.

Definition newRollbackLog (req : RollbackRequest) (logID : string) (now : time) (helm : HelmExecutor)
    (previousBranch : string) : DeploymentLog :=
  let branch :=
    If negb (empty (rr_TargetBranch req)) Return rr_TargetBranch req ;;
    If negb (empty previousBranch) Return previousBranch ;;
    si_Branch (rr_Instance req) in
  mkLog logID (si_ID (rr_Instance req)) DeployActionRollback DeployLogRunning "" "" "" (rr_TargetLogID req) branch "" ""
    (m_replicaID m) now None
    (Some (operationDeadline m now DeployActionRollback (Some helm) (Z.of_nat (length (rr_Charts req))))).

(** [Rollback]: the job of the goroutine and its log, or the error. *)
Definition Rollback (trigger : option Trigger) (req : RollbackRequest)
    : M (res (ClusterResolver * rollbackJob * DeploymentLog)) :=
  let! ctx := ctxErr in
  match ctx with
  | Some e => ret (Err (EWrap "request cancelled: " e ""))
  | None =>
      let! down := isDown in
      If down Return ret (Err (ENew "server is shutting down")) ;;
      match rollbackClients (si_ClusterID (rr_Instance req)) with
      | Err e => ret (Err e)
      | Ok (reg, helm, regCfg, k8s) =>
          let target := if bool_decide (rr_TargetValues req = ∅) then None
            else Some (mkTarget (rr_TargetValues req) (rr_TargetChartVersions req) regCfg) in
          let! previousBranch := if bool_decide (target = None) then previousRevisionBranch (si_ID (rr_Instance req))
                                 else ret "" in
          let opts := rollbackHookOpts req regCfg previousBranch in
          let! st := step in
          let logID := e_text st in
          let deployLog := newRollbackLog req logID (e_now st) helm previousBranch in
          run! modMem (mem_set_action logID DeployActionRollback) in
          let inst := rr_Instance req in
          let instance := inst |> si_set_Status StackStatusDeploying |> si_set_ErrorMessage "" in
          let! err := createLogAndUpdate m instance deployLog in
          match err with
          | Some e => ret (Err e)
          | None =>
              run! broadcastStatus m (si_ID instance) StackStatusDeploying logID in
              run! rememberTrigger trigger logID in
              ret (Ok (reg,
                mkJob helm k8s instance (sort_by (fun c => cc_DeployOrder (ci_ChartConfig c)) (rr_Charts req))
                  target opts (si_Status inst) (si_ErrorMessage inst),
                deployLog))
          end
      end
  end.
End rollback.

(** * What a rollback may do *)

(** The statements of one rollback: the end or the deadline of its log, and the
    row of its instance with a status of a rollback or the one from before. *)
Definition rollback_stmt (prevStatus iid lid : string) (op : dbop) : Prop :=
  match op with
  | SetStatus i to from _ => i = iid /\ to = StackStatusStabilizing /\ from = stabilizing_statuses
  | _ => final_stmt [StackStatusRunning; StackStatusError; prevStatus] iid lid op
  end.

(** A rollback to a target installs the charts of the target that are still in
    the definition, with the recorded values and version. *)
Definition target_install (m : Manager) (job : rollbackJob) (release namespace chartRef repoURL version values : string)
    : Prop :=
  exists target c, rj_target job = Some target /\ c ∈ rj_charts job /\ installable m c /\
    release = chartName c /\ namespace = si_Namespace (rj_instance job) /\
    (chartRef, repoURL) = ChartReference (cc_RepositoryURL (ci_ChartConfig c)) (cc_ChartPath (ci_ChartConfig c)) release /\
    version = rollback_version target c /\ rt_values target !! release = Some values.

Definition rollback_event (m : Manager) (job : rollbackJob) (lid : string) (e : event) : Prop :=
  match e with
  | EvWrite op _ => rollback_stmt (rj_prevStatus job) (si_ID (rj_instance job)) lid op
  | EvK8s call _ => call ∈ deployCalls
  | EvHelmInstall release ns chartRef repoURL version values _ =>
      target_install m job release ns chartRef repoURL version values
  | EvHelmRollback release ns _ =>
      rj_target job = None /\ release ∈ List.map chartName (rj_charts job) /\ ns = si_Namespace (rj_instance job)
  | _ => message e
  end.

Lemma failed_log_facts now out r l : dl_ID (failed_log now out r l) = dl_ID l /\ log_running (failed_log now out r l) = false.
Proof. split; [done|by vm_compute]. Qed.

Lemma rolled_back_facts now err applied i l i' l' :
  rolled_back now err applied i l = Some (i', l') ->
  si_ID i' = si_ID i /\ dl_ID l' = dl_ID l /\ si_Status i' ∈ [StackStatusRunning; StackStatusError] /\
  log_running l' = false /\ si_ExpiresAt i' = si_ExpiresAt i /\
  si_ExpiryWarnedAt i' = si_ExpiryWarnedAt i /\ si_DeleteAfterClean i' = si_DeleteAfterClean i.
Proof.
  unfold rolled_back. intros H. repeat case_match; simplify_eq;
    (split_and!; first [done|set_solver|by vm_compute]).
Qed.

Section footprint.
Context (m : Manager) (Ev : event -> Prop) (iid lid prevStatus : string).
Context (Hmsg : forall e, message e -> Ev e).
Context (Hstmt : forall op, rollback_stmt prevStatus iid lid op -> may_write Ev op).
Context (Hk8s : forall call arg, call ∈ deployCalls -> Ev (EvK8s call arg)).

Ltac msg := solve [apply Hmsg; exact I | apply Hk8s; clear; unfold deployCalls; set_solver].
Ltac go := own_steps msg.

Lemma own_fireOutcome i l o : own Ev (fireOutcome m i l o) (fun _ => True).
Proof. unfold fireOutcome. eauto with own. Qed.
Hint Resolve own_fireOutcome : own.

(** The final write of a rollback. *)
Lemma own_rollback_final i l :
  dl_ID l = lid -> log_running l = false ->
  (forall i', i = Some i' -> si_ID i' = iid /\ si_Status i' ∈ [StackStatusRunning; StackStatusError; prevStatus]) ->
  own Ev (writeFinal m i l) (fun _ => True).
Proof.
  intros Hl Hr Hi. apply own_writeFinal. split; [by apply Hstmt|]. destruct i as [i|]; [|done].
  destruct (Hi i eq_refl) as [Hid Hs]. split; intros; apply Hstmt; cbn; [by split|done].
Qed.

Lemma own_rollbackCancelled l out r :
  dl_ID l = lid -> own Ev (finalizeRollbackCancelled m iid l out r) (fun _ => True).
Proof.
  intros Hid. unfold finalizeRollbackCancelled. eapply own_bind; [apply own_clock|]. intros now _.
  eapply own_bind; [eauto with own|]. intros _ _.
  eapply own_bind; [by apply own_rollback_final|]. intros ok _. go.
Qed.

Lemma own_rollbackRejected job l out e :
  dl_ID l = lid -> si_ID (rj_instance job) = iid -> rj_prevStatus job = prevStatus ->
  own Ev (finalizeRollbackRejected m job l out e) (fun _ => True).
Proof.
  intros Hid Hi Hp. unfold finalizeRollbackRejected. rewrite Hi. eapply own_bind; [apply own_clock|]. intros now _.
  eapply own_bind; [eauto with own|]. intros _ _. eapply own_bind; [eauto with own|]. intros p _.
  eapply own_bind; [apply own_FindByID|]. intros r Hr.
  eapply (own_bind _ _ _ (fun _ => True)); [|intros; apply own_modMem].
  destruct r as [i|er].
  - eapply own_bind.
    + apply own_rollback_final; [done|done|]. intros i' Hi'. destruct p.1; [|done]. injection Hi' as <-.
      split; [exact (Hr i eq_refl)|]. cbn. rewrite Hp. clear. set_solver.
    + intros ok _. case_match; [by apply own_ret|]. eapply own_bind; [apply own_when; eauto with own|]. go.
  - eapply own_bind; [by apply own_fallbackLogUpdate, Hstmt|]. intros. by apply own_ret.
Qed.

Lemma own_announceRollback i l err u : own Ev (announceRollback m i l err u) (fun _ => True).
Proof. unfold announceRollback. eapply (own_bind _ _ _ (fun _ => True)); [case_match; eauto with own|]. go. Qed.

Lemma own_finalizeRollback l out err applied u :
  dl_ID l = lid -> own Ev (finalizeRollback m iid l out err applied u) (fun _ => True).
Proof.
  intros Hid. unfold finalizeRollback. eapply own_bind; [apply own_clock|]. intros now _.
  eapply own_bind; [apply own_FindByID|]. intros [i|e] Hi; [|by apply own_ret].
  eapply own_bind; [eauto with own|]. intros p _. case_match; [by apply own_rollbackCancelled|].
  destruct (rolled_back _ _ _ _ _) as [[i' l']|] eqn:E; [|by apply own_ret].
  destruct (rolled_back_facts _ _ _ _ _ _ _ E) as (H1 & H2 & H3 & H4 & _).
  eapply own_bind.
  - apply own_rollback_final; [by rewrite H2|done|]. intros ? [= <-]. rewrite H1. split; [by apply Hi|clear - H3; set_solver].
  - intros ok _. case_match; [apply own_modMem|apply own_announceRollback].
Qed.

(** ** The Helm calls *)

Lemma own_recoverRelease k i l n ns : own Ev (recoverRelease m k i l n ns) (fun _ => True).
Proof.
  unfold recoverRelease. case_match; [by apply own_ret|].
  eapply own_bind; [by apply own_recoverPendingRelease|]. intros r _. go.
Qed.
Lemma own_showOutput helm i l st : own Ev (showOutput m helm i l st) (fun _ => True).
Proof.
  unfold showOutput. eapply own_bind; [apply own_when; intros _; apply own_forEach; eauto with own|]. go.
Qed.

Lemma own_rollbackCharts job helm k l ns r target : forall charts out applied,
  (forall c, c ∈ charts -> c ∈ rj_charts job) -> rj_target job = Some target ->
  ns = si_Namespace (rj_instance job) ->
  (forall a b c d e f g, target_install m job a b c d e f -> Ev (EvHelmInstall a b c d e f g)) ->
  own Ev (rollbackCharts m helm k iid l ns r target charts out applied) (fun _ => True).
Proof.
  intros charts. induction charts as [|c rest IH]; intros out applied Hc Ht Hns Hev; [by apply own_ret|].
  cbn [rollbackCharts].
  assert (Hrest : forall c, c ∈ rest -> c ∈ rj_charts job) by (intros; apply Hc; by right).
  destruct (rt_values target !! chartName c) as [values|] eqn:Ev'; [|by apply IH].
  eapply (own_bind _ _ _ (fun _ => True)); [|intros x _; case_match; [by apply own_ret|by apply IH]].
  unfold rollbackChart. destruct (checkChartSource _ _ _ _) eqn:Es; [by apply own_ret|].
  eapply (own_bind _ _ _ (fun _ => True)); [unfold writeValues; go|]. intros [e|] _; [by apply own_ret|].
  eapply own_bind; [apply own_recoverRelease|]. intros rec _.
  destruct (ChartReference _ _ _) as [chartRef repoURL] eqn:Er.
  eapply own_bind; [apply own_step|]. intros st _. eapply own_bind; [apply own_emit, Hev|].
  - exists target, c. split_and!; try done. apply Hc. by left.
  - intros _ _. eapply own_bind; [apply own_showOutput|]. intros. by apply own_ret.
Qed.

Lemma own_rollbackToTarget `{QuantityOps} reg job helm k l ns charts target :
  (forall c, c ∈ charts -> c ∈ rj_charts job) -> rj_target job = Some target ->
  ns = si_Namespace (rj_instance job) ->
  (forall a b c d e f g, target_install m job a b c d e f -> Ev (EvHelmInstall a b c d e f g)) ->
  own Ev (rollbackToTarget m reg helm k iid l ns charts target) (fun _ => True).
Proof.
  intros Hc Ht Hns Hev. unfold rollbackToTarget. eapply (own_bind _ _ _ (fun _ => True)); [go|].
  intros [e|] _; [by apply own_ret|]. eapply own_bind; [by apply own_ensureNamespace|]. intros nsReady _.
  eapply (own_bind _ _ _ (fun _ => True)); [case_match; [by apply own_applyQuotasForDeploy|by apply own_ret]|]. intros q _.
  eapply (own_bind _ _ _ (fun _ => True)).
  { unfold rollbackLogin. case_match; [|by apply own_ret]. eapply own_bind; [apply own_k8sCall; [exact Hk8s|]|].
    - clear. unfold deployCalls. set_solver.
    - intros. by apply own_ret. }
  intros lg _. eapply own_bind; [by eapply own_rollbackCharts|]. intros [[o a] [e|]] _; by apply own_ret.
Qed.

Lemma own_revertCharts helm k ns (all : list ChartDeployInfo) : forall charts out done,
  (forall c, c ∈ charts -> c ∈ all) ->
  (forall c rev, c ∈ all -> Ev (EvHelmRollback (chartName c) ns rev)) ->
  own Ev (revertCharts m helm k iid lid ns charts out done) (fun _ => True).
Proof.
  intros charts. induction charts as [|c rest IH]; intros out done0 Hc Hev; [by apply own_ret|]. cbn [revertCharts].
  assert (Hrest : forall c, c ∈ rest -> c ∈ all) by (intros; apply Hc; by right).
  eapply own_bind; [apply own_recoverRelease|]. intros rec _. eapply own_bind; [apply own_step|]. intros st _.
  case_match; [by apply own_ret|]. case_match; [|by apply IH].
  eapply own_bind; [apply own_step|]. intros st' _. eapply own_bind; [apply own_emit, Hev, Hc; by left|]. intros _ _.
  eapply own_bind; [apply own_when; intros _; apply own_forEach; eauto with own|]. intros _ _.
  eapply own_bind; [by apply own_podDrain|]. intros pods _.
  eapply own_bind; [apply own_when; eauto with own|]. intros _ _. case_match; [by apply own_ret|by apply IH].
Qed.
Lemma own_collectChartValues charts : forall values, own Ev (collectChartValues charts values) (fun _ => True).
Proof.
  induction charts as [|c rest IH]; intros values; [by apply own_ret|]. cbn [collectChartValues].
  eapply own_bind; [apply own_step|]. intros st _. apply IH.
Qed.

Lemma own_rollbackReadiness k ns err :
  (forall now, may_write Ev (SetStatus iid StackStatusStabilizing stabilizing_statuses now)) -> own Ev (rollbackReadiness m k iid ns lid err) (fun _ => True).
Proof.
  intros Hmark. unfold rollbackReadiness. case_match; [by apply own_ret|]. case_match.
  - eapply own_bind; [by apply own_siteURLFor|]. intros. by apply own_ret.
  - eapply own_bind; [by apply own_awaitReadiness|].
    intros r _. eapply own_bind; [by apply own_siteURLFor|]. intros. by apply own_ret.
Qed.
End footprint.

(** The whole rollback, for any description of the events. *)
Lemma own_executeRollback `{QuantityOps} (Ev : event -> Prop) m reg job l :
  (forall e, message e -> Ev e) ->
  (forall op, rollback_stmt (rj_prevStatus job) (si_ID (rj_instance job)) (dl_ID l) op -> may_write Ev op) ->
  (forall call arg, call ∈ deployCalls -> Ev (EvK8s call arg)) ->
  (forall a b c d e f g, target_install m job a b c d e f -> Ev (EvHelmInstall a b c d e f g)) ->
  (forall c rev, rj_target job = None -> c ∈ rj_charts job ->
     Ev (EvHelmRollback (chartName c) (si_Namespace (rj_instance job)) rev)) ->
  own Ev (executeRollback m reg job l) (fun _ => True).
Proof.
  set (iid := si_ID (rj_instance job)). set (lid := dl_ID l). intros Hmsg Hstmt Hk8s Hinst Hrev.
  unfold executeRollback. fold iid lid. eapply own_bind; [by apply own_firePreHook|]. intros pre _.
  eapply (own_bind _ _ _ (fun _ => True)); [|intros; apply own_modMem].
  destruct (ph_lost pre); [by eapply own_rollbackCancelled|].
  destruct (ph_err pre); [by eapply own_rollbackRejected|].
  eapply own_bind; [by apply own_ownsInstance|]. intros p _. case_match; [by eapply own_rollbackCancelled|].
  eapply own_bind; [apply own_extendDeadline; intros; by apply Hstmt|]. intros [l'|] Hl; [|by apply own_ret].
  destruct (Hl l' eq_refl) as [d ->]. unfold runRollback. fold iid. change (dl_ID (dl_set_DeadlineAt d l)) with lid.
  eapply (own_bind _ _ _ (fun _ => True)).
  - destruct (rj_target job) as [target|] eqn:Et.
    + by eapply own_rollbackToTarget.
    + eapply own_bind; [eapply own_revertCharts with (all := rj_charts job); [exact Hmsg|exact Hk8s|done|]|].
      * intros c rev Hc. by apply Hrev.
      * intros [[o dn] err] _. eapply own_bind; [by apply own_collectChartValues|]. intros. by apply own_ret.
  - intros [[o applied] err] _. eapply own_bind; [eapply own_rollbackReadiness; [exact Hmsg|intros; by apply Hstmt]|]. intros ready _.
    eapply own_bind; [by apply own_podStop|]. intros pods _. by eapply own_finalizeRollback.
Qed.

(** A rollback stays inside its footprint, whatever happens around it.  It
    ends (or extends) only its own log and writes only the row of its instance,
    with the status stabilizing, running, error or the one from before the
    rollback.  A rollback to a target makes no Helm rollback and installs only
    charts of the target that are in the definition and come from an allowed
    source, each with the recorded values and the recorded version (the configured
    one when none is recorded); a rollback by one revision installs nothing and
    rolls back only releases of its charts.  Neither uninstalls or deletes a
    namespace. *)
Theorem rollback_footprint `{QuantityOps} m reg job l :
  own (rollback_event m job (dl_ID l)) (executeRollback m reg job l) (fun _ => True).
Proof.
  apply own_executeRollback; try done; [by intros []|]. intros c rev Ht Hc. split_and!; try done.
  apply list_elem_of_In, in_map. by apply list_elem_of_In.
Qed.

(** * The end of a rollback *)

(** The recorded values can be merged: they are no JSON null. *)
Definition mergeable (values : string) : Prop := values = "" \/ json_Unmarshal values <> Some None.

Lemma mergeable_some values applied : mergeable values -> is_Some (mergeRunningValues values applied).
Proof.
  intros H. unfold mergeRunningValues. case_bool_decide; [by eexists|].
  destruct (empty values) eqn:E; [by eexists|].
  destruct (json_Unmarshal values) as [[x|]|] eqn:Ev; try (by eexists).
  destruct H as [->|H]; [done|by rewrite Ev in H].
Qed.

(** The row of the instance exists with values that can be merged. *)
Definition mergeable_row (iid : string) (s : Store) : Prop :=
  exists i, st_instances s !! iid = Some i /\ mergeable (si_LastDeployedValues i).
Definition spoils (iid : string) (op : dbop) : Prop :=
  removes iid op \/ match op with
  | SaveInstance i => si_ID i = iid /\ ~ mergeable (si_LastDeployedValues i)
  | _ => False
  end.

Lemma saved_values r i : si_LastDeployedValues (saved_row r i) = si_LastDeployedValues i.
Proof. done. Qed.

Lemma update_where_mergeable iid id g f s :
  (forall r, mergeable (si_LastDeployedValues r) -> mergeable (si_LastDeployedValues (f r))) ->
  mergeable_row iid s -> mergeable_row iid (with_instances (update_where id g f (st_instances s)).2 s).
Proof.
  intros Hf (r & Hr & Hm). unfold mergeable_row, with_instances. cbn [st_instances].
  rewrite update_where_lookup, Hr. case_decide; [|by exists r].
  exists (if g r then f r else r). destruct (g r); auto.
Qed.

#[export] Instance mergeable_stable iid : Stable (mergeable_row iid) (spoils iid).
Proof.
  split. intros dbnow op s Hop Hs. unfold spoils in Hop.
  exec_cases op; try done; try (apply update_where_mergeable; [|done]; intros r; unfold set_cleaning; by repeat case_match).
  - destruct Hs as (r & Hr & Hm). case_match eqn:E; cbn; [by exists r|]. exists r. split; [|done].
    cbn. rewrite lookup_insert_ne; [done|]. intros <-. congruence.
  - destruct Hs as (r & Hr & Hm). cbn in Hop. case_match eqn:E; cbn.
    + exists (if decide (si_ID i = iid) then saved_row r i else r). cbn.
      rewrite update_where_lookup. destruct (decide (si_ID i = iid)) as [He|He].
      * rewrite Hr. split; [done|]. rewrite saved_values.
        destruct (String.eqb (si_LastDeployedValues i) "") eqn:Ee; [by left; apply String.eqb_eq|].
        right. intros Hn. apply Hop. right. split; [done|]. intros [Hx|Hx]; [|done].
        apply String.eqb_neq in Ee. done.
      * by rewrite Hr.
    + exists r. cbn. rewrite lookup_insert_ne; [done|]. intros <-. congruence.
  - destruct Hs as (r & Hr & Hm). exists r. cbn in *. rewrite lookup_delete_ne; [done|tauto].
  - destruct Hs as (r & Hr & Hm). case_match; cbn; by exists r.
Qed.

Section ending.
Context (m : Manager) (iid lid : string).
Local Abbreviation ends_row := (ends_inv lid (mergeable_row iid) (spoils iid)).

Ltac keep_row := intros; simplify_eq; unfold fresh_ops, spoils; cbn; tauto.
Ltac row_msg := let e := fresh in intros e ? op rows ->; done.

(** The read of the row finds values that can be merged. *)
Lemma merge_find {B} (k : res StackInstance -> M B) :
  (forall i, si_ID i = iid -> mergeable (si_LastDeployedValues i) -> ends_row (k (Ok i))) ->
  ends_row (bind (instance_FindByID iid) k).
Proof.
  intros Hk w Hw. rewrite bind_eq.
  assert (E : evolves (fun e => forall op rows, e = EvWrite op rows -> fresh_ops lid op /\ ~ spoils iid op) w (instance_FindByID iid w).2)
    by (eapply own_evolves; [apply own_FindByID|apply Hw]).
  destruct (own_FindByID (fun _ => True) iid w (proj1 (proj1 Hw))) as [_ Hid].
  assert (Hr : exists i, (instance_FindByID iid w).1 = Ok i /\ mergeable (si_LastDeployedValues i)).
  { assert (Es : stays lid (mergeable_row iid) (spoils iid) (step w).2) by (eapply stays_evolves, Hw; apply evolves_step).
    unfold instance_FindByID. rewrite bind_eq, query_ok by apply Hw. cbn [fst snd ret].
    destruct Es as (_ & _ & i & Hi & Hm). exists i. by rewrite Hi. }
  destruct Hr as (i & Hi & Hm). rewrite Hi in *. apply Hk; [by apply Hid|done|]. by eapply stays_evolves.
Qed.

Lemma ends_cancelled l out r : dl_ID l = lid -> ends lid (finalizeRollbackCancelled m iid l out r).
Proof.
  intros Hid. unfold finalizeRollbackCancelled. eapply ends_then; [apply own_clock|]. intros now _.
  eapply ends_then; [apply own_broadcastLog, keeps_msg|]. intros _ _.
  eapply ends_first; [by apply ends_writeFinal| |].
  - apply own_writeFinal. split; [keep_op|done].
  - intros ok. eapply (own_bind _ _ _ (fun _ => True)); [|intros; apply own_modMem].
    case_match; [by apply own_ret|]. eapply own_bind; [apply own_FindByID|]. intros [i|e] _; [|by apply own_ret].
    apply own_fireAndForget, keeps_msg.
Qed.

Lemma ends_rejected job l out e :
  si_ID (rj_instance job) = iid -> dl_ID l = lid -> ends lid (finalizeRollbackRejected m job l out e).
Proof.
  intros Hi Hid. unfold finalizeRollbackRejected. rewrite Hi. eapply ends_then; [apply own_clock|]. intros now _.
  eapply ends_then; [apply own_broadcastLog, keeps_msg|]. intros _ _.
  eapply ends_then; [apply own_ownsInstance|]. intros p _. eapply ends_then; [apply own_FindByID|]. intros r Hr.
  assert (Hw : forall i l', (i = None \/ exists x, i = Some x) -> dl_ID l' = lid -> log_running l' = false ->
    keeps lid (writeFinal m i l') (fun _ => True)).
  { intros i l' _ H1 H2. apply own_writeFinal. split; [keep_op|]. destruct i; [split; keep_op|done]. }
  eapply (ends_first _ _ _ (fun _ => True)); [| |intros; apply own_modMem]; destruct r as [i|er].
  - eapply ends_first; [by apply ends_writeFinal|apply Hw; [destruct p.1; eauto|done|done]|].
    intros ok. case_match; [by apply own_ret|].
    eapply own_bind; [apply own_when; intros _; apply own_broadcastStatusWithError, keeps_msg|]. intros _ _.
    eapply own_bind; [apply own_fireAndForget, keeps_msg|]. intros _ _.
    eapply own_bind; [apply own_triggerFor|]. intros t _. apply own_notifyInstance, keeps_msg.
  - eapply ends_first; [by apply ends_fallbackLogUpdate| |intros; by apply own_ret].
    apply own_fallbackLogUpdate. keep_op.
  - eapply own_bind; [apply Hw; [destruct p.1; eauto|done|done]|]. intros ok _. case_match; [by apply own_ret|].
    eapply own_bind; [apply own_when; intros _; apply own_broadcastStatusWithError, keeps_msg|]. intros _ _.
    eapply own_bind; [apply own_fireAndForget, keeps_msg|]. intros _ _.
    eapply own_bind; [apply own_triggerFor|]. intros t _. apply own_notifyInstance, keeps_msg.
  - eapply own_bind; [apply own_fallbackLogUpdate; keep_op|]. intros. by apply own_ret.
Qed.

Lemma row_finalizeRollback l out err applied u : dl_ID l = lid -> ends_row (finalizeRollback m iid l out err applied u).
Proof.
  intros Hid. unfold finalizeRollback. eapply inv_then; [apply own_clock|]. intros now _.
  apply merge_find. intros i Hi Hm. eapply inv_then; [apply own_ownsInstance|]. intros p _.
  case_match; [by apply inv_ends, ends_cancelled|].
  destruct (rolled_back now err applied i (ended_log out now l)) as [[i' l']|] eqn:E.
  - destruct (rolled_back_facts _ _ _ _ _ _ _ E) as (H1 & H2 & _ & H4 & _).
    apply inv_ends. eapply ends_first; [apply ends_writeFinal; [by rewrite H2|done]| |].
    + apply own_writeFinal. split; [|split]; keep_op.
    + intros ok. case_match; [apply own_modMem|]. apply own_announceRollback, keeps_msg.
  - exfalso. destruct (mergeable_some _ applied Hm) as [running Hr]. unfold rolled_back in E.
    destruct err; cbn in E; rewrite Hr in E; by repeat case_match.
Qed.

Context `{QuantityOps} (reg : ClusterResolver).

(** Everything before the final write leaves the log and the row alone. *)
Lemma rollback_keeps (Ev : event -> Prop) job l :
  si_ID (rj_instance job) = iid -> dl_ID l = lid ->
  (forall e, message e -> Ev e) ->
  (forall a b, Ev (EvK8s a b)) -> (forall a b c d e f g, Ev (EvHelmInstall a b c d e f g)) ->
  (forall a b c, Ev (EvHelmRollback a b c)) ->
  own Ev (match rj_target job with
    | Some target => rollbackToTarget m reg (rj_helm job) (rj_k8s job) iid l (si_Namespace (rj_instance job)) (rj_charts job) target
    | None =>
        let! r := revertCharts m (rj_helm job) (rj_k8s job) iid (dl_ID l) (si_Namespace (rj_instance job)) (rj_charts job) "" [] in
        let '(output, done, err) := r in
        let! running := collectChartValues (if bool_decide (is_Some err) then done else rj_charts job) ∅ in
        ret (output, running, err)
    end) (fun _ => True).
Proof.
  intros Hi Hid Hmsg Hk Hin Hro. destruct (rj_target job) eqn:Et.
  - eapply own_rollbackToTarget; eauto.
  - rewrite Hid. eapply own_bind; [eapply own_revertCharts with (all := rj_charts job); auto|].
    intros [[o dn] err] _. eapply own_bind; [apply own_collectChartValues|]. intros. by apply own_ret.
Qed.

Lemma row_runRollback job l out :
  si_ID (rj_instance job) = iid -> dl_ID l = lid -> ends_row (runRollback m reg job l out).
Proof.
  intros Hi Hid. unfold runRollback. rewrite Hi. eapply inv_then; [apply rollback_keeps; [done|done|row_msg|keep_row..]|].
  intros [[o applied] err] _. rewrite Hid. eapply inv_then; [eapply own_rollbackReadiness|].
  { row_msg. } { keep_row. }
  intros ready _. eapply inv_then; [apply own_podStop; row_msg|]. intros pods _. by apply row_finalizeRollback.
Qed.

Lemma keeps_runRollback job l out :
  si_ID (rj_instance job) = iid -> dl_ID l = lid -> keeps lid (runRollback m reg job l out) (fun _ => True).
Proof.
  intros Hi Hid. unfold runRollback. rewrite Hi.
  eapply own_bind; [apply rollback_keeps; [done|done|apply keeps_msg|keep_op..]|].
  intros [[o applied] err] _. rewrite Hid. eapply own_bind; [eapply own_rollbackReadiness|].
  { apply keeps_msg. } { keep_op. }
  intros ready _. eapply own_bind; [apply own_podStop, keeps_msg|]. intros pods _.
  apply (own_finalizeRollback m _ iid lid "" (keeps_msg lid)); [|done]. intros op Hop ? ? ? [= <- _].
  unfold fresh_ops. destruct op; cbn in *; tauto.
Qed.

Lemma row_executeRollback job l :
  si_ID (rj_instance job) = iid -> dl_ID l = lid -> ends_row (executeRollback m reg job l).
Proof.
  intros Hi Hid. unfold executeRollback. rewrite Hi.
  eapply inv_then; [apply own_firePreHook; row_msg|]. intros pre _.
  eapply (inv_first _ _ (fun _ => True)); [| |intros; apply own_modMem].
  - destruct (ph_lost pre); [by apply inv_ends, ends_cancelled|].
    destruct (ph_err pre); [by apply inv_ends, ends_rejected|].
    eapply inv_then; [apply own_ownsInstance|]. intros p _. case_match; [by apply inv_ends, ends_cancelled|].
    apply inv_extend; [done|by intros ? [[]|[]]|by apply own_ret|]. intros d. by apply row_runRollback.
  - assert (Hf : forall op, rollback_stmt (rj_prevStatus job) iid lid op -> forall rows op' rows', EvWrite op rows = EvWrite op' rows' -> fresh_ops lid op').
    { intros op Hop ? ? ? [= <- _]. unfold fresh_ops. destruct op; cbn in *; tauto. }
    destruct (ph_lost pre); [by eapply own_rollbackCancelled; [apply keeps_msg|exact Hf|]|].
    destruct (ph_err pre); [by eapply own_rollbackRejected; [apply keeps_msg|exact Hf|..]|].
    eapply own_bind; [apply own_ownsInstance|]. intros p _.
    case_match; [by eapply own_rollbackCancelled; [apply keeps_msg|exact Hf|]|].
    eapply own_bind; [apply own_extendDeadline; keep_op|]. intros [l'|] Hl; [|by apply own_ret].
    destruct (Hl l' eq_refl) as [d ->]. by apply keeps_runRollback.
Qed.
End ending.

(** A rollback ends its log.  When [executeRollback] returns, its log does
    not run any more, whatever Helm, Kubernetes, the hooks and the other replicas
    do, provided the database statements of this process succeed, nobody else
    deletes the instance or stores a JSON null as its deployed values, and no log
    reuses the ID. *)
Theorem rollback_ends_log `{QuantityOps} m reg job l w :
  let iid := si_ID (rj_instance job) in
  keyed (w_db w) -> no_fault w -> env_ok (fun op => fresh_ops (dl_ID l) op /\ ~ spoils iid op) w ->
  mergeable_row iid (w_db w) ->
  over (dl_ID l) (w_db (executeRollback m reg job l w).2).
Proof.
  intros iid Hk Hn Ho Hm. apply (row_executeRollback m iid (dl_ID l) reg job l); [done|done|].
  split; [split; [done|split; [done|]]|split; [|done]]; intros n; (eapply Forall_impl; [apply Ho|]); cbn; tauto.
Qed.

(** * The results of a rollback without interference *)

(** * The results of a rollback without interference *)

Lemma own_cancelled_msgs m i l :
  own message (
    let! r := instance_FindByID i in
    match r with Err _ => ret tt | Ok instance => fireOutcome m instance l rollbackOutcomeCancelled end) (fun _ => True).
Proof.
  eapply own_bind; [apply own_FindByID|]. intros [inst|e] _; [|by apply own_ret]. apply own_fireAndForget. by intros.
Qed.

Lemma hoare_cancelled m s iid l out r l0 :
  keyed s -> st_logs s !! dl_ID l = Some l0 -> log_running l0 = true ->
  hoare s (finalizeRollbackCancelled m iid l out r) (fun _ s' => exists now,
    s' = end_log (failed_log now (out +:+ "WARNING: " +:+ r +:+ nl) r l) s).
Proof.
  intros Hk Hl Hr. unfold finalizeRollbackCancelled. eapply hoare_bind; [apply hoare_clock|]. intros now ? ->.
  eapply hoare_bind; [apply hoare_messages; [by apply own_broadcastLog|done]|]. intros _ ? ->.
  eapply hoare_bind; [by apply (hoare_writeFinal_log _ _ _ l0)|]. intros ok s' [-> ->]. cbn [negb].
  eapply hoare_bind; [apply hoare_messages; [apply own_cancelled_msgs|by apply keyed_end_log]|].
  intros _ ? ->. eapply hoare_post; [apply hoare_modMem|]. intros ? ? ->. by exists now.
Qed.

Lemma hoare_finalizeRollback m s l out err applied u inst l0 running :
  keyed s -> st_instances s !! si_ID inst = Some inst -> st_logs s !! dl_ID l = Some l0 -> log_running l0 = true ->
  mergeRunningValues (si_LastDeployedValues inst) applied = Some running ->
  hoare s (finalizeRollback m (si_ID inst) l out err applied u) (fun _ s' => exists now upd,
    if owned_in m (si_ID inst) (dl_ID l) stabilizing_statuses s
    then exists i' l', rolled_back now err applied inst (ended_log out now l) = Some (i', l') /\
         s' = set_instance (si_set_UpdatedAt upd i') (end_log l' s)
    else exists r, s' = end_log (failed_log now (out +:+ "WARNING: " +:+ r +:+ nl) r (ended_log out upd l)) s).
Proof.
  intros Hk Hi Hl Hr Hm. unfold finalizeRollback. eapply hoare_bind; [apply hoare_clock|]. intros now ? ->.
  eapply hoare_bind; [apply hoare_FindByID|]. intros ? s' [-> ->]. unfold find_result. rewrite Hi.
  eapply hoare_bind; [apply hoare_ownsInstance|]. intros p s' [-> ->]. change (dl_ID (ended_log out now l)) with (dl_ID l).
  destruct (owned_in _ _ _ _ _); cbn [negb].
  - assert (E : exists i' l', rolled_back now err applied inst (ended_log out now l) = Some (i', l')).
    { unfold rolled_back. destruct err; cbn [si_LastDeployedValues si_set_PostDeployHookUntil] in *;
        (case_match; [by eauto|]); cbn; rewrite Hm; eauto. }
    destruct E as (i' & l' & E). destruct (rolled_back_facts _ _ _ _ _ _ _ E) as (H1 & H2 & _ & H4 & H5 & H6 & H7).
    rewrite E. eapply hoare_bind; [apply (hoare_writeFinal _ _ _ l0) with (i0 := inst); by rewrite ?H1, ?H2|].
    intros ok s' [-> [upd ->]]. cbn [negb]. rewrite saved_row_same by done.
    eapply hoare_post; [apply hoare_messages; [by apply own_announceRollback|by apply keyed_set_end]|].
    intros ? ? ->. exists now, upd, i', l'. done.
  - eapply hoare_post; [by eapply hoare_cancelled|]. intros ? ? [now' ->]. by exists now', now; eauto.
Qed.

(** The end of a rollback without interference.  While the rollback still
    has the instance, its row gets running (with no error, the deploy time and
    the end of the cleaned period) or error with the sanitized reason and the old
    deploy time; in both cases the recorded running values become the old ones
    overlaid with the values that were applied, also after a partial failure, and
    only a successful rollback that applied values stores them as the snapshot
    of its log.  When another operation has the instance, no row changes.  The
    log ends in all cases. *)
Theorem finalizeRollback_result m l out err applied u w inst l0 running :
  calm w -> keyed (w_db w) -> st_instances (w_db w) !! si_ID inst = Some inst ->
  st_logs (w_db w) !! dl_ID l = Some l0 -> log_running l0 = true ->
  mergeRunningValues (si_LastDeployedValues inst) applied = Some running ->
  exists i' l',
    w_db (finalizeRollback m (si_ID inst) l out err applied u w).2 =
      (if owned_in m (si_ID inst) (dl_ID l) stabilizing_statuses (w_db w)
       then set_instance i' (end_log l' (w_db w)) else end_log l' (w_db w)) /\
    dl_ID l' = dl_ID l /\ is_Some (dl_CompletedAt l') /\
    si_ID i' = si_ID inst /\ si_PostDeployHookUntil i' = None /\ si_LastDeployedValues i' = running /\
    si_ExpiresAt i' = si_ExpiresAt inst /\ si_DeleteAfterClean i' = si_DeleteAfterClean inst /\
    if negb (owned_in m (si_ID inst) (dl_ID l) stabilizing_statuses (w_db w)) then dl_Status l' = "error"
    else dl_Output l' = truncateString out maxOutputLen /\
    match err with
    | None => si_Status i' = "running" /\ si_ErrorMessage i' = "" /\ is_Some (si_LastDeployedAt i') /\
              si_CleanedAt i' = None /\ dl_Status l' = "success" /\
              (applied <> ∅ -> dl_ValuesSnapshot l' = running)
    | Some e => si_Status i' = "error" /\ si_ErrorMessage i' = truncateString (sanitizeDeployError e) 256 /\
                si_LastDeployedAt i' = si_LastDeployedAt inst /\ dl_Status l' = "error" /\
                dl_ErrorMessage l' = truncateString (sanitizeDeployError e) 1024 /\
                dl_ValuesSnapshot l' = dl_ValuesSnapshot l
    end.
Proof.
  intros Hc Hk Hi Hl Hr Hm.
  destruct (hoare_finalizeRollback m _ l out err applied u inst l0 running Hk Hi Hl Hr Hm w Hc eq_refl) as [_ (now & upd & H)].
  destruct (owned_in _ _ _ _ _).
  - destruct H as (i' & l' & E & ->). exists (si_set_UpdatedAt upd i'), l'. split; [done|].
    unfold rolled_back in E. unfold mergeRunningValues in Hm. destruct err as [e|]; case_bool_decide;
      cbn [si_LastDeployedValues si_set_PostDeployHookUntil] in *; simplify_eq; (try by (cbn; split_and!; eauto));
      unfold mergeRunningValues in E; rewrite bool_decide_eq_false_2 in E by done; cbn in E; rewrite Hm in E;
      simplify_eq; cbn; split_and!; eauto.
  - destruct H as (r & ->). exists (si_set_PostDeployHookUntil None (si_set_LastDeployedValues running inst)).
    eexists. split; [done|]. cbn. split_and!; eauto.
Qed.

Lemma hoare_rejected m s job l out e inst l0 :
  keyed s -> si_ID (rj_instance job) = si_ID inst -> st_instances s !! si_ID inst = Some inst ->
  st_logs s !! dl_ID l = Some l0 -> log_running l0 = true ->
  hoare s (finalizeRollbackRejected m job l out e) (fun _ s' => exists now upd,
    let reason := UserMessage e EventPreRollback "rollback" in
    let l' := failed_log now (out +:+ "ERROR: " +:+ reason +:+ nl) reason l in
    s' = if owned_in m (si_ID inst) (dl_ID l) [StackStatusDeploying] s
         then set_instance (si_set_UpdatedAt upd (restored job inst)) (end_log l' s) else end_log l' s).
Proof.
  intros Hk Hid Hi Hl Hr. unfold finalizeRollbackRejected. rewrite Hid. set (reason := UserMessage _ _ _).
  eapply hoare_bind; [apply hoare_clock|]. intros now ? ->.
  eapply hoare_bind; [apply hoare_messages; [by apply own_broadcastLog|done]|]. intros _ ? ->.
  set (l' := failed_log _ _ _ _). eapply hoare_bind; [apply hoare_ownsInstance|]. intros p s' [-> ->].
  eapply hoare_bind; [apply hoare_FindByID|]. intros ? s' [-> ->]. unfold find_result. rewrite Hi.
  eapply (hoare_bind _ _ _ (fun _ s' => exists upd, s' =
    if owned_in m (si_ID inst) (dl_ID l) [StackStatusDeploying] s
    then set_instance (si_set_UpdatedAt upd (restored job inst)) (end_log l' s) else end_log l' s)).
  - set (final := if owned_in _ _ _ _ _ then Some _ else None).
    eapply (hoare_bind _ _ _ (fun r s' => r = true /\ keyed s' /\ exists upd, s' =
      if owned_in m (si_ID inst) (dl_ID l) [StackStatusDeploying] s
      then set_instance (si_set_UpdatedAt upd (restored job inst)) (end_log l' s) else end_log l' s)).
    + unfold final. destruct (owned_in _ _ _ _ _).
      * eapply hoare_post; [by apply (hoare_writeFinal _ _ _ l0) with (i0 := inst)|].
        intros r s' [-> [upd ->]]. rewrite saved_row_same by done.
        split; [done|]. split; [by apply keyed_set_end|by exists upd].
      * eapply hoare_post; [by apply (hoare_writeFinal_log _ _ _ l0)|]. intros r s' [-> ->].
        split; [done|]. split; [by apply keyed_end_log|by exists 0%Z].
    + intros ok s' (-> & Hk' & upd & ->). cbn [negb]. eapply hoare_post; [apply hoare_messages; [|done]|].
      * eapply own_bind; [apply own_when; intros _; by apply own_broadcastStatusWithError|]. intros _ _.
        eapply own_bind; [by apply own_fireOutcome|]. intros _ _.
        eapply own_bind; [by apply own_triggerFor|]. intros t _. by apply own_notifyInstance.
      * intros ? ? ->. by exists upd.
  - intros _ s' [upd ->]. eapply hoare_post; [apply hoare_modMem|]. intros ? ? ->. by exists now, upd.
Qed.

(** A rejected rollback without interference: the instance gets exactly the
    status and the error message from before the rollback back (every other
    column keeps its value) and the log ends with the user-safe reason; when
    another operation has the instance meanwhile, its row does not change. *)
Theorem rejected_restores m job l out e w inst l0 :
  calm w -> keyed (w_db w) -> si_ID (rj_instance job) = si_ID inst ->
  st_instances (w_db w) !! si_ID inst = Some inst -> st_logs (w_db w) !! dl_ID l = Some l0 -> log_running l0 = true ->
  exists upd l',
    w_db (finalizeRollbackRejected m job l out e w).2 =
      (if owned_in m (si_ID inst) (dl_ID l) ["deploying"] (w_db w)
       then set_instance (inst |> si_set_Status (rj_prevStatus job) |> si_set_ErrorMessage (rj_prevError job)
                               |> si_set_UpdatedAt upd) (end_log l' (w_db w))
       else end_log l' (w_db w)) /\
    dl_ID l' = dl_ID l /\ dl_Status l' = "error" /\ is_Some (dl_CompletedAt l') /\
    dl_ErrorMessage l' = truncateString (UserMessage e EventPreRollback "rollback") 1024.
Proof.
  intros Hc Hk Hid Hi Hl Hr.
  destruct (hoare_rejected m _ job l out e inst l0 Hk Hid Hi Hl Hr w Hc eq_refl) as [_ (now & upd & H)].
  exists upd. eexists. split; [exact H|]. cbn. by eauto.
Qed.

(** ** Recorded values and versions *)

Definition valid_texts (m : gmap string string) : Prop :=
  map_Forall (fun k v => valid_utf8 k = true /\ valid_utf8 v = true) m.

Lemma valid_texts_union a b : valid_texts a -> valid_texts b -> valid_texts (a ∪ b).
Proof. intros Ha Hb k v [H|[_ H]]%lookup_union_Some_raw; [by apply Ha|by apply Hb]. Qed.

Lemma chart_versions_valid charts :
  (forall c, c ∈ charts -> valid_utf8 (chartName c) = true /\ valid_utf8 (cc_ChartVersion (ci_ChartConfig c)) = true) ->
  valid_texts (chart_versions charts).
Proof.
  unfold chart_versions. intros H. assert (H0 : valid_texts ∅) by apply map_Forall_empty.
  revert H H0. generalize (∅ : gmap string string). induction charts as [|c charts IH]; intros m H Hm; [done|].
  cbn [fold_left]. apply IH; [intros; apply H; by right|]. case_match; [done|].
  apply map_Forall_insert_2; [apply H; by left|done].
Qed.

(** What a deploy records about its charts is what a rollback reads: parsing
    the chart versions of a log gives back the version of every chart (the map
    is the same, for any texts in valid UTF-8), and after a rollback the recorded
    values decode to the applied values for every applied chart and to the
    previous values for every other chart. *)
Theorem recorded_roundtrip charts previous applied :
  (forall c, c ∈ charts -> valid_utf8 (chartName c) = true /\ valid_utf8 (cc_ChartVersion (ci_ChartConfig c)) = true) ->
  valid_texts previous -> valid_texts applied ->
  ParseChartVersions (chartVersionsJSON charts) = chart_versions charts /\
  exists running, mergeRunningValues (json_Marshal previous) applied = Some running /\
    json_Unmarshal running = Some (Some (applied ∪ previous)).
Proof.
  intros Hc Hp Ha. split.
  - unfold ParseChartVersions, chartVersionsJSON. case_bool_decide as E; [by rewrite E|].
    rewrite json_Unmarshal_Marshal by by apply chart_versions_valid.
    by destruct (empty _) eqn:En.
  - unfold mergeRunningValues. case_bool_decide as E.
    + subst applied. eexists. split; [done|]. by rewrite (left_id_L ∅ (∪)), json_Unmarshal_Marshal.
    + rewrite (json_Unmarshal_Marshal previous) by done. eexists. split; [done|].
      by apply json_Unmarshal_Marshal, valid_texts_union.
Qed.

(** ** Witnesses *)

Definition rollback_log : DeploymentLog :=
  mkLog "l2" "i1" DeployActionRollback DeployLogRunning "" "" "" "l1" "main" "" "alice" "pod-a" 3000 None (Some 9000%Z).
Definition stored_log : DeploymentLog :=
  mkLog "l2" "i1" DeployActionRollback DeployLogRunning "" "" "" "" "main" "" "alice" "pod-a" 3000 None (Some 9000%Z).
Definition rollback_world : World := calm_world (busy_store StackStatusDeploying DeployActionRollback).
Definition sample_target : rollbackTarget := mkTarget {["api" := "replicas: 2"]} {["api" := "1.1.0"]} None.
Definition sample_job : rollbackJob :=
  mkJob (mkHelm (5 * Minute) false) false (sample_instance "i1" StackStatusDeploying)
    [sample_chart "api" 1; sample_chart "web" 2] (Some sample_target) (mkOpts [] []) StackStatusRunning "".

Lemma finalizeRollback_result_witness :
  exists i' l',
    w_db (finalizeRollback plain_manager "i1" rollback_log "done" None {["api" := "replicas: 2"]} "" rollback_world).2 =
      set_instance i' (end_log l' (busy_store StackStatusDeploying DeployActionRollback)) /\
    si_Status i' = "running" /\ dl_Status l' = "success".
Proof.
  destruct (finalizeRollback_result plain_manager rollback_log "done" None {["api" := "replicas: 2"]} "" rollback_world
    (sample_instance "i1" StackStatusDeploying) stored_log (json_Marshal {["api" := "replicas: 2"]}))
    as (i' & l' & H & _ & _ & _ & _ & _ & _ & _ & _ & Hs & _ & _ & _ & Hl & _).
  - apply calm_world_calm.
  - apply busy_store_keyed.
  - vm_compute. reflexivity.
  - vm_compute. reflexivity.
  - vm_compute. reflexivity.
  - vm_compute. reflexivity.
  - exists i', l'. split; [exact H|]. split; assumption.
Defined.

Lemma rejected_restores_witness :
  exists upd l',
    w_db (finalizeRollbackRejected plain_manager sample_job rollback_log "" (EDenied "gate" "no image") rollback_world).2 =
      set_instance (sample_instance "i1" StackStatusDeploying |> si_set_Status StackStatusRunning |> si_set_ErrorMessage ""
                    |> si_set_UpdatedAt upd)
        (end_log l' (busy_store StackStatusDeploying DeployActionRollback)) /\ dl_Status l' = "error".
Proof.
  destruct (rejected_restores plain_manager sample_job rollback_log "" (EDenied "gate" "no image") rollback_world
    (sample_instance "i1" StackStatusDeploying) stored_log) as (upd & l' & H & _ & Hs & _).
  - apply calm_world_calm.
  - apply busy_store_keyed.
  - reflexivity.
  - vm_compute. reflexivity.
  - vm_compute. reflexivity.
  - vm_compute. reflexivity.
  - exists upd, l'. split; [exact H|exact Hs].
Defined.

Lemma recorded_roundtrip_witness :
  ParseChartVersions (chartVersionsJSON [sample_chart "api" 1]) = chart_versions [sample_chart "api" 1] /\
  exists running, mergeRunningValues (json_Marshal {["web" := "a: 1"]}) {["api" := "replicas: 2"]} = Some running /\
    json_Unmarshal running = Some (Some ({["api" := "replicas: 2"]} ∪ {["web" := "a: 1"]})).
Proof.
  apply (recorded_roundtrip [sample_chart "api" 1] {["web" := "a: 1"]} {["api" := "replicas: 2"]}).
  - intros c ->%list_elem_of_singleton. split; vm_compute; reflexivity.
  - apply map_Forall_singleton. split; vm_compute; reflexivity.
  - apply map_Forall_singleton. split; vm_compute; reflexivity.
Defined.

(** A rollback to a target that runs: one chart is installed with the recorded
    values and version, the other is left alone. *)
Example executeRollback_runs :
  let w := (executeRollback plain_manager sample_resolver sample_job rollback_log rollback_world).2 in
  List.filter (fun e => match e with EvHelmInstall _ _ _ _ _ _ _ => true | _ => false end) (w_trace w) =
    [EvHelmInstall "api" "stack-shop-alice" "oci://registry.example/charts/api" "" "1.1.0" "replicas: 2" false] /\
  option_map si_Status (st_instances (w_db w) !! "i1") = Some "running" /\
  option_map dl_Status (st_logs (w_db w) !! "l2") = Some "success".
Proof. vm_compute. done. Qed.

Lemma rollback_ends_log_witness :
  over "l2" (w_db (executeRollback plain_manager sample_resolver sample_job rollback_log rollback_world).2).
Proof.
  apply (rollback_ends_log plain_manager sample_resolver sample_job rollback_log rollback_world).
  - apply busy_store_keyed.
  - intros n. reflexivity.
  - intros n. constructor.
  - eexists. split; [reflexivity|]. left. reflexivity.
Defined.
