(* ===== verification/Recovery.v ===== *)
(** * Interrupted operations

    [deployer/interrupt_recovery.go]: the leader ends the operations whose replica
    stopped without ending them.  [RunOnce] is one check of the worker; its
    transaction [InterruptOperation] is in [World].  The theorems: the recovery
    never touches the log of a live replica, its transaction is atomic and refines
    the specification [interrupt_spec], and an operation that was ended this way
    writes nothing when it finishes late.  The ticker of [Run] and the metrics are
    left out; an audit entry is an event. *)

From S2P Require Import Prelude Models Store Hooks World Output Manager Ends Calm Deploy Teardown Rollback.
Local Open Scope string_scope.

(** ** The worker *)

Definition heartbeatRetention : Z := 60 * Minute.
Definition interruptBatch : nat := 100.

(** [InterruptRecoveryConfig]; the optional dependencies are booleans. *)
Record InterruptRecoveryConfig := mkRecovery {
  iv_SelfID : string;
  iv_StaleAfter : Z;
  iv_AuditLog : bool;
  iv_Hub : bool;
  iv_Notifier : bool
}.

(** [NewInterruptRecovery]: the default of the heartbeat age. *)
Definition NewInterruptRecovery (cfg : InterruptRecoveryConfig) : InterruptRecoveryConfig :=
  If (iv_StaleAfter cfg <=? 0)%Z Return
    mkRecovery (iv_SelfID cfg) StaleAfter (iv_AuditLog cfg) (iv_Hub cfg) (iv_Notifier cfg) ;;
  cfg.

Definition InterruptedOperationMessage (action : string) : string :=
  let prefix := "Interrupted: the server that ran this operation stopped. " in
  If bool_decide (action = DeployActionStop) Return prefix +:+ "Stop again." ;;
  If bool_decide (action = DeployActionClean) Return prefix +:+ "Clean again." ;;
  prefix +:+ "Deploy again.".

(** The notification of an interrupted action: type, title and text. *)
Definition interrupt_notice (action name message : string) : string * string * string :=
  If bool_decide (action = DeployActionRollback) Return
    ("rollback.error", "Rollback failed", "Rollback of " +:+ name +:+ " failed: " +:+ message) ;;
  If bool_decide (action = DeployActionStop) Return
    ("stop.error", "Stop failed", "Stopping " +:+ name +:+ " failed: " +:+ message) ;;
  If bool_decide (action = DeployActionClean) Return
    ("clean.error", "Cleanup failed", "Cleanup of " +:+ name +:+ " failed: " +:+ message) ;;
  ("deployment.error", "Deployment failed", "Deployment of " +:+ name +:+ " failed: " +:+ message).

Section recovery.
Context (cfg : InterruptRecoveryConfig).

Definition interrupt_request (l : DeploymentLog) (inst : option StackInstance) (now : time) : InterruptRequest :=
  let '(status, updatedAt) :=
    match inst with
    | Some i => if in_progress (si_Status i) then (si_Status i, si_UpdatedAt i) else ("", 0%Z)
    | None => ("", 0%Z)
    end in
  mkInterrupt (dl_StartedAt l) now updatedAt (dl_ID l) (dl_StackInstanceID l) (dl_ReplicaID l) (iv_StaleAfter cfg)
    status (InterruptedOperationMessage (dl_Action l)).

Definition audit (l : DeploymentLog) (instanceUpdated : bool) : M unit :=
  If negb (iv_AuditLog cfg) Return ret tt ;;
  let! st := step in
  when_ (bool_decide (e_fault st = None))
    (emit (EvAudit (dl_StackInstanceID l)
      ("Operation " +:+ dl_Action l +:+ " (deploy log " +:+ dl_ID l +:+ ") interrupted: replica " +:+ dl_ReplicaID l +:+
       " stopped" +:+ (if instanceUpdated then "; instance set to error" else "")))).

Definition notifyInterrupted (inst : StackInstance) (action message : string) : M unit :=
  let '(notifType, title, text) := interrupt_notice action (si_Name inst) message in
  when_ (iv_Notifier cfg) (emit (EvNotify (si_ID inst) notifType title text None "")).

(** [interrupt]: whether it closed the log. *)
Definition interrupt (l : DeploymentLog) (now : time) : M bool :=
  let! r := instance_FindByID (dl_StackInstanceID l) in
  If match r with Err e => negb (errorsIs e "ErrNotFound") | Ok _ => false end Return ret false ;;
  let inst := match r with Ok i => Some i | Err _ => None end in
  let! res := InterruptOperation (interrupt_request l inst now) in
  match res with
  | Err _ => ret false
  | Ok res =>
      If negb (LogClosed res) Return ret false ;;
      run! audit l (InstanceUpdated res) in
      run! match inst with
           | Some i =>
               If negb (InstanceUpdated res) Return ret tt ;;
               let message := InterruptedOperationMessage (dl_Action l) in
               run! when_ (iv_Hub cfg)
                 (emit (EvStatus (dl_StackInstanceID l) StackStatusError (dl_ID l) message (dl_Action l))) in
               notifyInterrupted i (dl_Action l) message
           | None => ret tt
           end in
      ret true
  end.

(** The loop of [recover] ends when the context is done. *)
Fixpoint recoverLogs (now : time) (logs : list DeploymentLog) (closed : nat) : M nat :=
  match logs with
  | [] => ret closed
  | l :: rest =>
      let! done := ctxErr in
      If bool_decide (is_Some done) Return ret closed ;;
      If empty (dl_ReplicaID l) || bool_decide (dl_ReplicaID l = iv_SelfID cfg) Return recoverLogs now rest closed ;;
      let! ok := interrupt l now in
      recoverLogs now rest (if ok : bool then S closed else closed)
  end.

Definition recover (now : time) : M nat :=
  let! r := ListInterruptCandidates now (iv_SelfID cfg) (iv_StaleAfter cfg) interruptBatch in
  match r with
  | Err _ => ret 0%nat
  | Ok logs => recoverLogs now logs 0
  end.

Definition RunOnce : M nat :=
  let! now := clock in
  let! closed := recover now in
  run! DeleteOlderThan heartbeatRetention in
  ret closed.
End recovery.

(** ** A live operation is never ended

    What the recovery may do: end logs of other replicas with the heartbeat
    guard of the statement, and set instances that were in progress to error. *)

Definition recovery_event (cfg : InterruptRecoveryConfig) (e : event) : Prop :=
  match e with
  | EvWrite (InterruptLog _ replica _ staleAfter _) _ =>
      replica <> "" /\ replica <> iv_SelfID cfg /\ staleAfter = iv_StaleAfter cfg
  | EvWrite (InterruptInstance _ status _ _ _) _ => in_progress status = true
  | EvWrite (RemoveBeatsOlder age) _ => age = heartbeatRetention
  | e => message e
  end.

(** The replica of the log is this process, unknown, or alive. *)
Definition spared (cfg : InterruptRecoveryConfig) (dbnow : time) (s : Store) (l : DeploymentLog) : Prop :=
  dl_ReplicaID l = "" \/ dl_ReplicaID l = iv_SelfID cfg \/
  staleHeartbeat (st_beats s) dbnow (dl_ReplicaID l) (iv_StaleAfter cfg) = false.

Lemma own_InterruptOperation Ev req :
  may_write Ev (InterruptLog (rq_LogID req) (rq_ReplicaID req) (rq_Message req) (rq_StaleAfter req) (rq_Now req)) ->
  (rq_InstanceStatus req <> "" ->
   may_write Ev (InterruptInstance (rq_InstanceID req) (rq_InstanceStatus req) (rq_InstanceUpdatedAt req)
                  (rq_Message req) (rq_Now req))) ->
  own Ev (InterruptOperation req) (fun _ => True).
Proof.
  intros H1 H2. unfold InterruptOperation. eapply own_bind; [|intros; by apply own_ret].
  apply (own_transaction_with _ _ _ (fun _ => True)). unfold interrupt_body.
  eapply own_bind; [by apply own_db|]. intros [n|e] _; [|by apply own_ret].
  case_match; [by apply own_ret|]. destruct (empty (rq_InstanceStatus req)) eqn:E; [by apply own_ret|].
  apply empty_false in E. own_steps ltac:(by apply H2).
Qed.

Lemma recovery_message cfg e : message e -> recovery_event cfg e.
Proof. by destruct e. Qed.

Lemma in_progress_status inst now cfg l :
  rq_InstanceStatus (interrupt_request cfg l inst now) <> "" ->
  in_progress (rq_InstanceStatus (interrupt_request cfg l inst now)) = true.
Proof. unfold interrupt_request. destruct inst as [i|]; [destruct (in_progress (si_Status i)) eqn:E|]; by cbn. Qed.

Lemma interrupt_request_replica cfg l inst now :
  rq_ReplicaID (interrupt_request cfg l inst now) = dl_ReplicaID l /\
  rq_StaleAfter (interrupt_request cfg l inst now) = iv_StaleAfter cfg.
Proof. unfold interrupt_request. destruct inst as [i|]; [destruct (in_progress (si_Status i))|]; done. Qed.

Lemma own_interrupt cfg l now :
  dl_ReplicaID l <> "" -> dl_ReplicaID l <> iv_SelfID cfg ->
  own (recovery_event cfg) (interrupt cfg l now) (fun _ => True).
Proof.
  intros Hr Hs. unfold interrupt, audit, notifyInterrupted.
  eapply own_bind; [apply own_FindByID|]. intros r _. case_match; [by apply own_ret|].
  eapply own_bind; [apply own_InterruptOperation|].
  - destruct (interrupt_request_replica cfg l (match r with Ok i => Some i | Err _ => None end) now) as [-> ->].
    by cbn.
  - intros Hne rows. by apply in_progress_status.
  - intros res _. own_steps ltac:(by apply recovery_message).
Qed.

Lemma own_recoverLogs cfg now logs : forall closed,
  own (recovery_event cfg) (recoverLogs cfg now logs closed) (fun _ => True).
Proof.
  induction logs as [|l logs IH]; intros closed; cbn; [by apply own_ret|].
  eapply own_bind; [apply own_ctxErr|]. intros c _. case_match; [by apply own_ret|].
  destruct (empty (dl_ReplicaID l) || _) eqn:E; [done|]. apply orb_false_iff in E as [E1 E2].
  apply empty_false in E1. apply bool_decide_eq_false in E2.
  eapply own_bind; [by apply own_interrupt|]. done.
Qed.

Lemma own_RunOnce cfg : own (recovery_event cfg) (RunOnce cfg) (fun _ => True).
Proof.
  unfold RunOnce, recover. eapply own_bind; [apply own_clock|]. intros now _.
  eapply (own_bind _ _ _ (fun _ => True)).
  - eapply own_bind; [apply (own_query _ _ (fun _ => True)); done|]. intros [logs|e] _; [|by apply own_ret].
    apply own_recoverLogs.
  - intros n _. eapply own_bind; [by apply own_db|]. intros. by apply own_ret.
Qed.

Lemma dbNowMinus_mono dbnow a b : (a <= b)%Z -> (dbNowMinus dbnow b <= dbNowMinus dbnow a)%Z.
Proof.
  intros H. unfold dbNowMinus. pose proof (Z.quot_le_mono a b Millisecond ltac:(done) H).
  unfold Millisecond in *. lia.
Qed.

(** C8. The recovery never ends the operation of a live replica.  Whatever
    the other processes do and whatever fails, a check runs only statements of
    [recovery_event]; and none of them, on any database at any time, changes
    the log of an operation whose replica is this process, is not recorded, or
    has a heartbeat within [StaleAfter]; nor does one make a live replica look
    stopped, when [StaleAfter] is at most the heartbeat retention of an hour. *)
Theorem recovery_spares_live cfg :
  own (recovery_event cfg) (RunOnce cfg) (fun _ => True) /\
  forall dbnow op rows s, recovery_event cfg (EvWrite op rows) ->
    (forall id l, st_logs s !! id = Some l -> spared cfg dbnow s l ->
       st_logs (exec dbnow op s).2 !! id = Some l) /\
    ((iv_StaleAfter cfg <= heartbeatRetention)%Z -> forall replica,
       staleHeartbeat (st_beats (exec dbnow op s).2) dbnow replica (iv_StaleAfter cfg) =
       staleHeartbeat (st_beats s) dbnow replica (iv_StaleAfter cfg)).
Proof.
  split; [apply own_RunOnce|]. intros dbnow op rows s Hop. split.
  - intros id l Hl Hsp. exec_cases op; cbn in Hop; try done. cbn.
    rewrite update_where_lookup. case_decide as Hid; [|done]. rewrite Hl. f_equal.
    destruct Hop as (He & Hs & ->). destruct (log_running l); [|done]. cbn.
    case_bool_decide as Hr; [|done]. subst replica. cbn.
    destruct Hsp as [? | [? | ->]]; [done|done|done].
  - intros Hle r. exec_cases op; cbn in Hop; try done. subst age. cbn. unfold staleHeartbeat.
    destruct (st_beats s !! r) as [seen|] eqn:E.
    + destruct (decide (seen < dbNowMinus dbnow heartbeatRetention)%Z) as [Hd|Hd].
      * pose proof (dbNowMinus_mono dbnow _ _ Hle).
        rewrite (proj2 (map_lookup_filter_None _ _ _)); [symmetry; apply Z.ltb_lt; lia|].
        right. intros x Hx. rewrite E in Hx. injection Hx as <-. cbn. tauto.
      * rewrite (proj2 (map_lookup_filter_Some _ _ _ seen)); done.
    + rewrite (proj2 (map_lookup_filter_None _ _ _)); [done|by left].
Qed.

(** ** The transaction as one step

    [interrupt_spec] is what [InterruptOperation] promises: at one point of time
    the whole change of the database and the result, or nothing. *)

Definition interrupted_log (req : InterruptRequest) (l : DeploymentLog) : DeploymentLog :=
  l |> dl_set_Status DeployLogError |> dl_set_ErrorMessage (rq_Message req) |> dl_set_CompletedAt (Some (rq_Now req)).
Definition interrupted_instance (req : InterruptRequest) (i : StackInstance) : StackInstance :=
  i |> si_set_Status StackStatusError |> si_set_ErrorMessage (rq_Message req)
    |> si_set_PostDeployHookUntil None |> si_set_DeleteAfterClean false |> si_set_UpdatedAt (rq_Now req).

(** The operation that the request describes still runs and its replica stopped. *)
Definition interruptible (dbnow : time) (req : InterruptRequest) (s : Store) : option DeploymentLog :=
  match st_logs s !! rq_LogID req with
  | Some l => if log_running l && bool_decide (dl_ReplicaID l = rq_ReplicaID req) &&
                 staleHeartbeat (st_beats s) dbnow (rq_ReplicaID req) (rq_StaleAfter req)
              then Some l else None
  | None => None
  end.

Definition interrupt_spec (dbnow : time) (req : InterruptRequest) (s : Store) : res InterruptResult * Store :=
  match interruptible dbnow req s with
  | None => (Ok (mkResult false false), s)
  | Some l =>
      let s1 := with_logs (<[rq_LogID req := interrupted_log req l]> (st_logs s)) s in
      If empty (rq_InstanceStatus req) || newer_log req s1 Return (Ok (mkResult true false), s1) ;;
      match st_instances s !! rq_InstanceID req with
      | Some i =>
          If bool_decide (si_Status i = rq_InstanceStatus req) && (si_UpdatedAt i =? rq_InstanceUpdatedAt req)%Z
            Return (Ok (mkResult true true),
                    with_instances (<[rq_InstanceID req := interrupted_instance req i]> (st_instances s1)) s1) ;;
          (Err ErrInterruptConflict, s)
      | None => (Err ErrInterruptConflict, s)
      end
  end.

(** A statement inside a transaction. *)
Lemma db_quiet op w :
  w_quiet w = true ->
  w_quiet (db op w).2 = true /\
  match e_fault (w_env w (w_tick w)) with
  | Some e => (db op w).1 = Err e
  | None => (db op w).1 = (exec (e_dbnow (w_env w (w_tick w))) op (w_db w)).1 /\
            w_db (db op w).2 = (exec (e_dbnow (w_env w (w_tick w))) op (w_db w)).2
  end.
Proof.
  intros Hq. unfold db, step. rewrite Hq. cbn. destruct (exec _ _ _) as [r s]. cbn.
  destruct (e_fault _); [by destruct (e_lost _)|done].
Qed.

Lemma query_quiet {A} (f : time -> Store -> A) w :
  w_quiet w = true ->
  w_quiet (query f w).2 = true /\ w_db (query f w).2 = w_db w /\
  match e_fault (w_env w (w_tick w)) with
  | Some e => (query f w).1 = Err e
  | None => (query f w).1 = Ok (f (e_dbnow (w_env w (w_tick w))) (w_db w))
  end.
Proof. intros Hq. unfold query, step. rewrite Hq. cbn. by destruct (e_fault _). Qed.

Lemma query_env {A} (f : time -> Store -> A) w : w_env (query f w).2 = w_env w.
Proof. unfold query, step. cbn. by destruct (e_fault _). Qed.
Lemma db_env op w : w_env (db op w).2 = w_env w.
Proof. apply (ev_env _ _ _ (evolves_db (fun _ => True) w op (fun _ => I))). Qed.

(** What the statement on the log does. *)
Lemma exec_InterruptLog dbnow req s :
  exec dbnow (InterruptLog (rq_LogID req) (rq_ReplicaID req) (rq_Message req) (rq_StaleAfter req) (rq_Now req)) s =
  match interruptible dbnow req s with
  | None => (Ok 0%Z, s)
  | Some l => (Ok 1%Z, with_logs (<[rq_LogID req := interrupted_log req l]> (st_logs s)) s)
  end.
Proof.
  cbn [exec]. unfold on_logs, update_where, interruptible. destruct (st_logs s !! rq_LogID req) as [l|] eqn:E.
  - rewrite <- andb_assoc. destruct (log_running l) eqn:Hr; cbn; [|by rewrite with_logs_id].
    case_bool_decide as Hid; cbn; [|by rewrite with_logs_id]. rewrite Hid.
    destruct (staleHeartbeat _ _ _ _); cbn; [|by rewrite with_logs_id].
    case_decide as Hd; [|done]. exfalso. apply (f_equal log_running) in Hd. cbn in Hd. rewrite Hr in Hd. done.
  - cbn. by rewrite with_logs_id.
Qed.

Lemma exec_InterruptInstance dbnow req s :
  rq_InstanceStatus req <> StackStatusError ->
  exec dbnow (InterruptInstance (rq_InstanceID req) (rq_InstanceStatus req) (rq_InstanceUpdatedAt req)
                (rq_Message req) (rq_Now req)) s =
  match st_instances s !! rq_InstanceID req with
  | Some i =>
      If bool_decide (si_Status i = rq_InstanceStatus req) && (si_UpdatedAt i =? rq_InstanceUpdatedAt req)%Z
        Return (Ok 1%Z, with_instances (<[rq_InstanceID req := interrupted_instance req i]> (st_instances s)) s) ;;
      (Ok 0%Z, s)
  | None => (Ok 0%Z, s)
  end.
Proof.
  intros Hne. cbn [exec]. unfold on_instances, update_where.
  destruct (st_instances s !! rq_InstanceID req) as [i|] eqn:E; cbn; [|by rewrite with_instances_id].
  case_bool_decide as Hs; cbn; [|by rewrite with_instances_id].
  destruct (si_UpdatedAt i =? _)%Z; cbn; [|by rewrite with_instances_id].
  case_decide as Hd; [|done]. exfalso. apply (f_equal si_Status) in Hd. cbn in Hd. congruence.
Qed.

(** The body: its result without an error is the specification's; without
    faults its only error is the roll back of a conflict. *)
Lemma interrupt_body_spec req w :
  w_quiet w = true -> rq_InstanceStatus req <> StackStatusError ->
  let out := interrupt_body req w in
  let spec := interrupt_spec (e_dbnow (w_env w (w_tick w))) req (w_db w) in
  w_quiet out.2 = true /\ w_env out.2 = w_env w /\
  match out.1.1 with
  | None => spec = (Ok out.1.2, w_db out.2)
  | Some e => no_fault w -> e = errInterruptRollback /\ spec = (Err ErrInterruptConflict, w_db w)
  end.
Proof.
  intros Hq Hne. cbv zeta. unfold interrupt_body. rewrite bind_eq.
  set (op := InterruptLog _ _ _ _ _). destruct (db_quiet op w Hq) as [Hq1 H1].
  pose proof (db_env op w) as He1. set (w1 := (db op w).2) in *.
  destruct (e_fault (w_env w (w_tick w))) as [e|] eqn:Ef.
  { rewrite H1. cbn. split_and!; [done|done|]. intros Hn. by rewrite Hn in Ef. }
  destruct H1 as [-> Hd1]. unfold op in *. rewrite exec_InterruptLog in Hd1 |- *. unfold interrupt_spec.
  destruct (interruptible _ _ _) as [l|]; cbn [fst snd] in *; [|cbn; by rewrite Hd1].
  set (s1 := with_logs _ _) in *. change (1 =? 0)%Z with false. cbn iota.
  destruct (empty (rq_InstanceStatus req)); [cbn; by rewrite Hd1|]. cbn [orb].
  rewrite bind_eq. set (f := fun (_ : time) s => newer_log req s). destruct (query_quiet f w1 Hq1) as (Hq2 & Hd2 & H2).
  pose proof (query_env f w1) as He2. set (w2 := (query f w1).2) in *.
  destruct (e_fault (w_env w1 (w_tick w1))) as [e|] eqn:Ef1.
  { rewrite H2. cbn. split_and!; [done|congruence|]. intros Hn. rewrite He1, Hn in Ef1. done. }
  rewrite H2. unfold f. rewrite Hd1. destruct (newer_log req s1); [cbn; rewrite Hd2, Hd1; split_and!; congruence|].
  rewrite bind_eq. set (op2 := InterruptInstance _ _ _ _ _). destruct (db_quiet op2 w2 Hq2) as [Hq3 H3].
  pose proof (db_env op2 w2) as He3. set (w3 := (db op2 w2).2) in *.
  destruct (e_fault (w_env w2 (w_tick w2))) as [e|] eqn:Ef2.
  { rewrite H3. cbn. split_and!; [done|congruence|]. intros Hn. rewrite He2, He1, Hn in Ef2. done. }
  destruct H3 as [-> Hd3]. unfold op2 in *. rewrite exec_InterruptInstance in Hd3 |- * by done. rewrite Hd2, Hd1 in Hd3. rewrite ?Hd2, ?Hd1.
  change (st_instances s1) with (st_instances (w_db w)) in *.
  destruct (st_instances (w_db w) !! rq_InstanceID req) as [i|]; [destruct (_ && _)|]; cbn in *;
    rewrite ?Hd3; split_and!; try congruence; done.
Qed.

(** The transaction with its two steps named. *)
Lemma transaction_with_eq {A} d (body : M (error * A)) w :
  transaction_with d body w =
  match e_fault (w_env w (w_tick w)) with
  | Some e => ((Some e, d), (step w).2)
  | None =>
      let r := body (set_quiet true (step w).2) in
      match r.1.1 with
      | Some e => (r.1, rollback (step w).2 r.2)
      | None =>
          match e_fault (w_env r.2 (w_tick r.2)) with
          | None => (r.1, set_quiet (w_quiet w) (step r.2).2)
          | Some e => ((Some e, r.1.2), if e_lost (w_env r.2 (w_tick r.2)) then set_quiet (w_quiet w) (step r.2).2
                                       else rollback (step w).2 (step r.2).2)
          end
      end
  end.
Proof.
  unfold transaction_with. rewrite (step_eq w) at 1. destruct (e_fault _); [done|].
  cbv zeta. destruct (body _) as [[[e|] a] w2]; cbn [fst snd]; [done|].
  rewrite (step_eq w2) at 1. by destruct (e_fault _).
Qed.

(** C9. [InterruptOperation] refines its specification, and is atomic.  It acts
    on the database that it finds after the other processes' statements before
    its start.  A result is exactly the specification's, with its whole change
    of the database; on an error the database is either unchanged or, when the
    answer of the commit was lost, the specification's; and without faults the
    result and the database are the specification's, conflicts included. *)
Theorem interrupt_refines req w :
  rq_InstanceStatus req <> StackStatusError ->
  let s := w_db (step w).2 in
  let spec := interrupt_spec (e_dbnow (w_env w (S (w_tick w)))) req s in
  let out := InterruptOperation req w in
  match out.1 with
  | Ok r => spec = (Ok r, w_db out.2)
  | Err _ => w_db out.2 = s \/ w_db out.2 = spec.2
  end /\ (no_fault w -> spec = (out.1, w_db out.2)).
Proof.
  intros Hne. cbv zeta. unfold InterruptOperation. rewrite bind_eq, transaction_with_eq. set (w1 := (step w).2).
  destruct (e_fault (w_env w (w_tick w))) as [e|] eqn:Ef.
  { cbn. split; [|intros Hn; by rewrite Hn in Ef]. destruct (errorsIs _ _); by left. }
  destruct (interrupt_body_spec req (set_quiet true w1) eq_refl Hne) as (Hq & He & Hs).
  destruct (interrupt_body req (set_quiet true w1)) as [[err a] w2]. cbn [fst snd] in *.
  change (w_env (set_quiet true w1)) with (w_env w) in *. change (w_tick (set_quiet true w1)) with (S (w_tick w)) in *.
  change (w_db (set_quiet true w1)) with (w_db w1) in *.
  destruct err as [e|]; cbn [fst snd]; unfold ret; cbn [fst snd].
  - split; [destruct (errorsIs e _); by left|]. intros Hn. by destruct (Hs Hn) as [-> ->].
  - assert (Hd3 : w_db (step w2).2 = w_db w2) by (by apply step_quiet). rewrite Hs.
    destruct (e_fault (w_env w2 (w_tick w2))) as [e|] eqn:Ef2; cbn [fst snd].
    + split; [|intros Hn; rewrite He, Hn in Ef2; done].
      destruct (errorsIs e _), (e_lost _); cbn [w_db set_quiet rollback]; rewrite ?Hd3; auto.
    + cbn [w_db set_quiet]. by rewrite Hd3.
Qed.

(** ** An operation that finishes after the recovery ended it

    [late m Φ]: started when the log [lid] is over, [m] changes nothing in the
    database: all changes come from the other processes.  Without a transaction
    runner that needs a world whose database statements do not fail (the plain
    fallback writes the instance after a failed write of the log). *)

Section late.
Context (m : Manager) (lid : string).

Definition tardy (w : World) : Prop :=
  keyed (w_db w) /\ env_ok (fresh_ops lid) w /\ over lid (w_db w) /\ (m_txRunner m = true \/ no_fault w).

Definition only_others (w w' : World) : Prop :=
  w_env w' = w_env w /\ forall Q, env_ok Q w -> db_steps Q (w_db w) (w_db w').

Definition late {A} (p : M A) (Φ : A -> Prop) : Prop :=
  forall w, tardy w -> only_others w (p w).2 /\ Φ (p w).1.

Lemma tardy_others w w' : only_others w w' -> tardy w -> tardy w'.
Proof.
  intros [He Hd] (Hk & Ho & Hv & Hf). unfold tardy, env_ok, no_fault in *. rewrite He. split_and!; try done.
  - by eapply db_steps_keyed, Hk; apply Hd.
  - eapply db_steps_inv, Hv; [intros t op s; apply exec_over|]. by apply Hd.
Qed.

Lemma others_trans w1 w2 w3 : only_others w1 w2 -> only_others w2 w3 -> only_others w1 w3.
Proof.
  intros [E1 D1] [E2 D2]. split; [congruence|]. intros Q HQ. transitivity (w_db w2); [by apply D1|].
  apply D2. unfold env_ok in *. by rewrite E1.
Qed.

Lemma late_ret {A} (a : A) Φ : Φ a -> late (ret a) Φ.
Proof. by intros H w _. Qed.

Lemma late_bind {A B} (p : M A) (k : A -> M B) Ψ Φ :
  late p Ψ -> (forall a, Ψ a -> late (k a) Φ) -> late (bind p k) Φ.
Proof.
  intros Hp Hk w Hw. destruct (Hp w Hw) as [Ho Ha]. rewrite bind_eq.
  destruct (Hk _ Ha (p w).2) as [Ho' Hb]; [by eapply tardy_others|]. split; [by eapply others_trans|done].
Qed.

(** A program that only sends messages. *)
Lemma late_messages {A} (p : M A) Φ : own message p Φ -> late p Φ.
Proof.
  intros Hp w (Hk & _). destruct (Hp w Hk) as [[He _ _ _ Hd _] Ha]. split; [|done]. split; [done|].
  intros Q HQ. eapply db_steps_mono; [|by apply Hd]. intros op [H|?]; [destruct (H 0%Z)|done].
Qed.

Lemma others_step w : only_others w (step w).2.
Proof.
  split; [done|]. intros Q HQ. unfold step. cbn. destruct (w_quiet w); [done|]. apply exec_all_steps, HQ.
Qed.

(** The final write of a finished log changes no row. *)
Lemma late_log_Update l :
  dl_ID l = lid -> late (log_Update l) (fun r => is_Some r).
Proof.
  intros Hid w Hw. unfold log_Update, write_running. rewrite bind_eq.
  assert (Hs : tardy (step w).2) by (eapply tardy_others; [apply others_step|done]).
  assert (Hx : forall t, exec t (SaveRunningLog l) (w_db (step w).2) = (Ok 0%Z, w_db (step w).2)).
  { intros t. cbn [exec]. unfold on_logs, update_where. rewrite Hid.
    destruct (st_logs _ !! lid) as [l0|] eqn:E; [|cbn; by rewrite with_logs_id].
    destruct Hs as (_ & _ & Hv & _). rewrite (Hv _ E). cbn. by rewrite with_logs_id. }
  assert (Hdb : only_others w (db (SaveRunningLog l) w).2 /\ (forall n, (db (SaveRunningLog l) w).1 = Ok n -> n = 0%Z)).
  { unfold db. rewrite step_eq, Hx. destruct (e_fault _); cbn; (split; [|by intros ? [=]]);
      [destruct (e_lost _)|]; (split; [done|]); apply (others_step w). }
  destruct Hdb as [Ho Hn]. assert (Hw1 : tardy (db (SaveRunningLog l) w).2) by (by eapply tardy_others).
  destruct (db (SaveRunningLog l) w) as [[n|e] w1]; cbn [fst snd] in *; [|split; [exact Ho|by eexists]].
  rewrite (Hn n eq_refl). cbn [Z.ltb Z.compare]. rewrite bind_eq.
  assert (Hq : only_others w (query (fun _ s => log_is_running (dl_ID l) s) w1).2 /\
               (forall b, (query (fun _ s => log_is_running (dl_ID l) s) w1).1 = Ok b -> b = false)).
  { unfold query. rewrite step_eq. destruct (e_fault _); cbn; (split; [eapply others_trans, others_step; exact Ho|]).
    - done.
    - intros b [= <-]. rewrite Hid. apply over_not_running.
      by destruct (tardy_others _ _ (others_step w1) Hw1) as (_ & _ & ? & _). }
  destruct Hq as [Ho2 Hb]. destruct (query _ w1) as [[b|e] w2]; cbn [fst snd] in *.
  - rewrite (Hb b eq_refl). split; [exact Ho2|by eexists].
  - split; [exact Ho2|by eexists].
Qed.

(** Without faults the write reports that the log does not run. *)
Lemma late_log_Update_calm l w :
  dl_ID l = lid -> tardy w -> no_fault w -> (log_Update l w).1 = Some ErrDeployLogNotRunning.
Proof.
  intros Hid Hw Hn. destruct (late_log_Update l Hid w Hw) as [_ Hs]. revert Hs.
  assert (Hok : forall e, (db (SaveRunningLog l) w).1 <> Err e).
  { intros e. unfold db. rewrite step_eq, Hn. cbn [exec]. unfold on_logs. by destruct (update_where _ _ _ _). }
  unfold log_Update, write_running. rewrite bind_eq.
  destruct (db (SaveRunningLog l) w) as [[n|e] w1] eqn:E; cbn [fst snd] in *; [|by destruct (Hok e)].
  assert (Hn1 : no_fault w1).
  { replace w1 with (db (SaveRunningLog l) w).2 by (by rewrite E). by apply no_fault_db. }
  destruct (0 <? n)%Z; [by intros [? ?]|]. cbn iota. rewrite bind_eq, query_ok by done. cbn [fst snd ret].
  destruct (log_is_running _ _); cbn; [by intros [? ?]|done].
Qed.

Lemma late_fallbackLogUpdate l :
  dl_ID l = lid -> late (fallbackLogUpdate l) (fun _ => True).
Proof.
  intros Hid. unfold fallbackLogUpdate, dropLiveOutput. eapply late_bind; [apply late_messages, own_modMem|].
  intros _ _. eapply late_bind; [by apply late_log_Update|]. intros. by apply late_ret.
Qed.

Lemma late_fallbackLogUpdate_calm l w :
  dl_ID l = lid -> tardy w -> no_fault w -> (fallbackLogUpdate l w).1 = false.
Proof.
  intros Hid Hw Hn. unfold fallbackLogUpdate, dropLiveOutput. rewrite !bind_eq.
  assert (Hw' : tardy (modMem (live_drop (dl_ID l)) w).2) by exact Hw.
  by rewrite (late_log_Update_calm l _ Hid Hw').
Qed.

(** The transaction of the two writes is rolled back. *)
Lemma late_final_tx i l :
  dl_ID l = lid -> late (final_tx i l) (fun r => is_Some r).
Proof.
  intros Hid. unfold final_tx, RunInTx. eapply (late_bind _ _ (fun r => is_Some r)).
  - unfold transaction. eapply (late_bind _ _ (fun r : error * unit => is_Some r.1)); [|intros r Hr; by apply late_ret].
    intros w Hw. rewrite transaction_with_eq. destruct (e_fault _); cbn [fst snd]; [by split; [apply others_step|]|].
    set (body := bind _ _). set (w1 := set_quiet true (step w).2).
    assert (Hw1 : tardy w1) by (by apply (tardy_others w); [apply others_step|]).
    assert (Hb : only_others w1 (body w1).2 /\ is_Some (body w1).1.1).
    { apply (late_bind _ _ (fun r => is_Some r) (fun r : error * unit => is_Some r.1)); [|intros; by apply late_ret|exact Hw1].
      eapply late_bind; [by apply late_log_Update|]. intros e [x ->]. by apply late_ret. }
    destruct Hb as [[He _] [e Hr]]. rewrite Hr. cbn. split; [|by eexists]. split; [exact He|].
    apply (others_step w).
  - intros r Hr. eapply late_bind; [apply late_messages, own_ctxErr|]. intros c _. apply late_ret.
    destruct Hr as [e ->]. unfold withContextErr. destruct c; repeat case_match; by eexists.
Qed.

Lemma late_writeFinal i l : dl_ID l = lid -> late (writeFinal m i l) (fun _ => True).
Proof.
  intros Hid. unfold writeFinal, dropLiveOutput. eapply late_bind; [apply late_messages, own_modMem|]. intros _ _.
  destruct i as [i|]; [|by apply late_fallbackLogUpdate]. destruct (m_txRunner m) eqn:Htx.
  - fold (final_tx i l). eapply late_bind; [by apply late_final_tx|]. intros r [e ->].
    destruct (errorsIs e _); [by apply late_ret|by apply late_fallbackLogUpdate].
  - intros w Hw. assert (Hn : no_fault w) by (by destruct Hw as (_ & _ & _ & [?|?]); [congruence|]).
    rewrite bind_eq, late_fallbackLogUpdate_calm by done. cbn [negb].
    destruct (late_fallbackLogUpdate l Hid w Hw) as [Ho _]. by split.
Qed.

(** Without faults the final write reports that the log was over. *)
Lemma withContextErr_is c op e name :
  errorsIs e name = true -> exists x, withContextErr c op (Some e) = Some x /\ errorsIs x name = true.
Proof.
  intros He. unfold withContextErr. destruct c as [c|]; [|by exists e].
  destruct (negb _); [eexists; split; [done|]; cbn; by rewrite He, orb_true_r|].
  destruct (is_db_error e); by eexists.
Qed.

Lemma late_writeFinal_calm i l w :
  dl_ID l = lid -> tardy w -> no_fault w -> (writeFinal m i l w).1 = false.
Proof.
  intros Hid Hw Hn. unfold writeFinal, dropLiveOutput. rewrite bind_eq. set (w0 := (modMem _ w).2).
  assert (Hw0 : tardy w0) by exact Hw. assert (Hn0 : no_fault w0) by exact Hn. clearbody w0.
  destruct i as [i|]; [|by apply late_fallbackLogUpdate_calm]. destruct (m_txRunner m).
  - fold (final_tx i l). rewrite bind_eq.
    assert (Hf : exists e, (final_tx i l w0).1 = Some e /\ errorsIs e "ErrDeployLogNotRunning" = true).
    { unfold final_tx, RunInTx, transaction. rewrite !bind_eq. set (body := bind _ (fun e => ret (e, tt))).
      assert (Hb : (body (set_quiet true (step w0).2)).1.1 = Some (EWrap "updating deploy log: " ErrDeployLogNotRunning "")).
      { unfold body. rewrite !bind_eq. rewrite late_log_Update_calm; [done|done| |done].
        by apply (tardy_others w0); [apply others_step|]. }
      rewrite transaction_with_eq, Hn0. cbv zeta. rewrite Hb. unfold ret. cbn [fst snd]. rewrite Hb.
      by apply withContextErr_is. }
    destruct Hf as (e & -> & ->). done.
  - rewrite bind_eq. by rewrite late_fallbackLogUpdate_calm.
Qed.
End late.

Section late_ends.
Context (m : Manager) (l : DeploymentLog).
Local Abbreviation late := (late m (dl_ID l)).

Lemma late_bind_any {A B} (p : M A) (k : A -> M B) :
  late p (fun _ => True) -> (forall a, late (k a) (fun _ => True)) -> late (bind p k) (fun _ => True).
Proof. intros Hp Hk. eapply late_bind; [exact Hp|]. auto. Qed.

Lemma late_clock Φ : (forall t, Φ t) -> late clock Φ.
Proof. intros H. apply late_messages. eapply own_post; [apply own_clock|auto]. Qed.

Lemma late_finalizeDeployWith iid out err partial values warning ignored url :
  late (finalizeDeployWith m iid l out err partial values warning ignored url) (fun _ => True).
Proof.
  unfold finalizeDeployWith. apply late_bind_any; [by apply late_clock|]. intros now.
  apply late_bind_any; [apply late_messages; eapply own_post; [apply own_FindByID|done]|]. intros [i|e].
  - apply late_bind_any; [apply late_messages; case_match; [by apply own_ret|by apply own_newerOperation]|].
    intros [].
    + apply late_bind_any; [apply late_messages, own_modMem|]. intros _.
      destruct (concurrent_log_ended err partial values (ended_log out now l)) as [H1 _].
      apply late_bind_any; [by apply late_writeFinal; rewrite H1|]. intros _. by apply late_ret.
    + destruct (finalized_id now err partial values i (ended_log out now l)) as [_ H2].
      destruct (finalized _ _ _ _ _ _) as [i' l']. cbn [fst snd] in *.
      apply late_bind_any; [by apply late_writeFinal|]. intros [].
      * apply late_messages. by apply own_announceDeploy.
      * apply late_messages, own_modMem.
  - apply late_bind_any; [by apply late_fallbackLogUpdate|]. intros _. by apply late_ret.
Qed.

Lemma late_finalizeStop iid out err : late (finalizeStop m iid l out err) (fun _ => True).
Proof.
  unfold finalizeStop. apply late_bind_any; [by apply late_clock|]. intros now.
  apply late_bind_any; [apply late_messages; eapply own_post; [apply own_FindByID|done]|].
  intros [i|e]; [|by apply late_ret].
  destruct (stopped_facts now err i (ended_log out now l)) as (_ & H2 & _).
  destruct (stopped _ _ _ _) as [i' l']. cbn [fst snd] in *.
  apply late_bind_any; [by apply late_writeFinal|]. intros [].
  - apply late_messages. by apply own_announceStop.
  - apply late_messages, own_modMem.
Qed.

Lemma late_rollbackCancelled iid l' out reason :
  dl_ID l' = dl_ID l -> late (finalizeRollbackCancelled m iid l' out reason) (fun _ => True).
Proof.
  intros Hid. unfold finalizeRollbackCancelled. apply late_bind_any; [by apply late_clock|]. intros now.
  apply late_bind_any; [by apply late_messages, own_broadcastLog|]. intros _.
  apply late_bind_any; [by apply late_writeFinal|]. intros ok.
  apply late_messages. eapply (own_bind _ _ _ (fun _ => True)); [|intros; apply own_modMem].
  case_match; [by apply own_ret|]. eapply own_bind; [apply own_FindByID|]. intros [i|e] _; [|by apply own_ret].
  by apply own_fireOutcome.
Qed.

Lemma late_finalizeRollback iid out err applied url :
  late (finalizeRollback m iid l out err applied url) (fun _ => True).
Proof.
  unfold finalizeRollback. apply late_bind_any; [by apply late_clock|]. intros now.
  apply late_bind_any; [apply late_messages; eapply own_post; [apply own_FindByID|done]|].
  intros [i|e]; [|by apply late_ret].
  apply late_bind_any; [by apply late_messages, own_ownsInstance|]. intros p.
  case_match; [by apply late_rollbackCancelled|].
  destruct (rolled_back _ _ _ _ _) as [[i' l']|] eqn:E; [|by apply late_ret].
  destruct (rolled_back_facts _ _ _ _ _ _ _ E) as (_ & H2 & _).
  apply late_bind_any; [by apply late_writeFinal|]. intros [].
  - apply late_messages. by apply own_announceRollback.
  - apply late_messages, own_modMem.
Qed.

(** A clean may still clear the mark. *)
Definition clearing (iid : string) (e : event) : Prop := (exists rows, e = EvWrite (ClearDelete iid) rows) \/ message e.

Section clean.
Context (iid : string) (Q : dbop -> Prop) (s : Store).

Lemma clearing_op op : may_write (clearing iid) op -> op = ClearDelete iid.
Proof. intros H. by destruct (H 0%Z) as [[? [= ->]]|[]]. Qed.

Definition clean_state (w : World) : Prop :=
  tardy m (dl_ID l) w /\ no_fault w /\ env_ok Q w /\ db_steps (fun op => op = ClearDelete iid \/ Q op) s (w_db w).

Lemma clean_state_env w w' :
  clean_state w -> w_env w' = w_env w -> keyed (w_db w') -> over (dl_ID l) (w_db w') ->
  db_steps (fun op => op = ClearDelete iid \/ Q op) (w_db w) (w_db w') -> clean_state w'.
Proof.
  intros ((Hk & Ho & Hv & Hf) & Hn & HQ & Hs) He Hk' Hv' Hs'.
  unfold clean_state, tardy, no_fault, env_ok in *. rewrite !He. split_and!; try done. by etrans.
Qed.

Lemma clean_state_own {A} (p : M A) Φ w :
  own (clearing iid) p Φ -> clean_state w -> clean_state (p w).2 /\ Φ (p w).1.
Proof.
  intros Hp Hw. destruct (Hp w (proj1 (proj1 Hw))) as [He Ha]. split; [|done].
  destruct Hw as ((Hk & Ho & Hv & Hf) & Hn & HQ & Hs).
  eapply (clean_state_env w); [done|apply He|by apply (ev_keyed _ _ _ He)| |].
  - eapply over_evolves; [exact He| |exact Ho|exact Hv]. intros op H. rewrite (clearing_op op H). by intros [].
  - eapply db_steps_mono; [|by apply (ev_db _ _ _ He)]. intros op [H|H]; [left; by apply clearing_op|by right].
Qed.

Lemma clean_state_writeFinal i l' w :
  dl_ID l' = dl_ID l -> clean_state w -> clean_state (writeFinal m i l' w).2 /\ (writeFinal m i l' w).1 = false.
Proof.
  intros Hid Hw. split; [|apply (late_writeFinal_calm m (dl_ID l)); [done|apply Hw|apply Hw]].
  destruct (late_writeFinal m (dl_ID l) i l' Hid w (proj1 Hw)) as [Ho _].
  destruct (tardy_others _ _ _ _ Ho (proj1 Hw)) as (Hk & _ & Hv & _).
  eapply (clean_state_env w); [done|apply Ho|done|done|].
  eapply db_steps_mono; [|apply Ho, Hw]. auto.
Qed.

Lemma late_finalizeClean out err w :
  clean_state w -> clean_state (finalizeClean m iid l out err w).2.
Proof.
  assert (Hclear : forall b, own (clearing iid) (when_ b (clearDeleteAfterClean iid)) (fun _ => True)).
  { intros b. apply own_when. intros _. apply own_clearDelete. left. eauto. }
  intros Hw. unfold finalizeClean. rewrite bind_eq.
  destruct (clean_state_own clock (fun _ => True) w) as [Hw1 _]; [apply own_clock|done|].
  set (now := (clock w).1). clearbody now. set (w1 := (clock w).2) in *. clearbody w1. rewrite bind_eq.
  destruct (clean_state_own (instance_FindByID iid) (fun _ => True) w1) as [Hw2 _]; [by eapply own_post; [apply own_FindByID|]|done|].
  destruct (instance_FindByID iid w1) as [[i|e] w2]; cbn [fst snd] in *; [|done].
  destruct (cleaned_facts now err i (ended_log out now l)) as (_ & H2 & _).
  destruct (cleaned _ _ _ _) as [i' l']. cbn [fst snd] in *. rewrite bind_eq.
  destruct (clean_state_own _ _ w2 (Hclear (bool_decide (is_Some err) && si_DeleteAfterClean i)) Hw2) as [Hw3 _].
  rewrite bind_eq. destruct (clean_state_writeFinal (Some i') l' _ H2 Hw3) as [Hw4 ->]. cbn [negb].
  rewrite bind_eq. apply (clean_state_own _ (fun _ => True)); [apply Hclear|].
  by apply (clean_state_own (modMem (mem_del_action (dl_ID l'))) (fun _ => True)); [apply own_modMem|].
Qed.
End clean.
End late_ends.

(** An operation that finishes after its log was over (ended by the
    recovery of the leader while it still ran, or by anything else) changes
    nothing: the final write of a deploy, a stop or a rollback leaves the
    database to the other processes, whatever they do; and a clean deletes no
    row and writes neither its log nor its instance, it at most clears the delete
    mark. *)
Theorem late_end_changes_nothing m l w :
  tardy m (dl_ID l) w ->
  (forall iid out err partial values warning ignored url,
     only_others w (finalizeDeployWith m iid l out err partial values warning ignored url w).2) /\
  (forall iid out err, only_others w (finalizeStop m iid l out err w).2) /\
  (forall iid out err applied url, only_others w (finalizeRollback m iid l out err applied url w).2) /\
  (no_fault w -> forall iid out err Q, env_ok Q w ->
     db_steps (fun op => op = ClearDelete iid \/ Q op) (w_db w) (w_db (finalizeClean m iid l out err w).2)).
Proof.
  intros Hw. split_and!.
  - intros. eapply (late_finalizeDeployWith m l), Hw.
  - intros. eapply (late_finalizeStop m l), Hw.
  - intros. eapply (late_finalizeRollback m l), Hw.
  - intros Hn iid out err Q HQ. by apply late_finalizeClean.
Qed.

(** ** Examples *)

Definition recovery_config : InterruptRecoveryConfig :=
  NewInterruptRecovery (mkRecovery "pod-b" 0 true true true).

(** [pod-a], which runs the deploy of the log [l2], stopped an hour ago. *)
Definition dead_store : Store := busy_store StackStatusDeploying DeployActionDeploy.
Definition late_env (now : time) : EnvStep :=
  mkEnv [] now now false None None false "" None 0 [] (fun _ => Err (ENew "unreachable")) ("", "", false) []
    (mkNsStatus "healthy" []) None None.
Definition dead_world : World :=
  mkWorld dead_store (fun n => late_env (3600 * Second + Z.of_nat n)%Z) 0 false false (mkMem ∅ ∅ ∅) [].

(** One check of [pod-b] ends the deploy and sets the instance to error. *)
Example RunOnce_runs :
  (RunOnce recovery_config dead_world).1 = 1%nat /\
  (let s := w_db (RunOnce recovery_config dead_world).2 in
   (si_Status <$> st_instances s !! "i1", dl_Status <$> st_logs s !! "l2") = (Some "error", Some "error")).
Proof. vm_compute. done. Qed.

Definition dead_request : InterruptRequest :=
  interrupt_request recovery_config
    (default (sample_log "l2" DeployActionDeploy DeployLogRunning) (st_logs dead_store !! "l2"))
    (st_instances dead_store !! "i1") (3600 * Second).

Lemma interrupt_refines_witness :
  (InterruptOperation dead_request dead_world).1 = Ok (mkResult true true) /\
  interrupt_spec (3600 * Second + 1) dead_request dead_store =
    (Ok (mkResult true true), w_db (InterruptOperation dead_request dead_world).2).
Proof.
  split; [vm_compute; reflexivity|].
  apply (interrupt_refines dead_request dead_world); [vm_compute; discriminate|intros n; reflexivity].
Defined.

(** The deploy of [pod-a] finishes after the check. *)
Definition ended_world : World := (RunOnce recovery_config dead_world).2.
Definition late_log : DeploymentLog := sample_log "l2" DeployActionDeploy DeployLogRunning.

Lemma ended_world_tardy : tardy plain_manager "l2" ended_world.
Proof.
  assert (Hk : keyed (w_db dead_world)) by apply busy_store_keyed.
  destruct (own_RunOnce recovery_config dead_world Hk) as [He _].
  split_and!.
  - apply (ev_keyed _ _ _ He), Hk.
  - intros n. unfold ended_world. rewrite (ev_env _ _ _ He). constructor.
  - intros x Hx. vm_compute in Hx. injection Hx as <-. reflexivity.
  - left. reflexivity.
Qed.

Lemma late_end_changes_nothing_witness :
  only_others ended_world
    (finalizeDeployWith plain_manager "i1" late_log "" None false "{}" "" [] "" ended_world).2.
Proof.
  destruct (late_end_changes_nothing plain_manager late_log ended_world ended_world_tardy) as [H _]. apply H.
Defined.
