(* ===== verification/Durations.v ===== *)
(** * Durations as floating point hours

    [time.Duration.Hours] and the comparison of ages in the cleanup conditions
    ([scheduler/conditions.go]): [now.Sub(t).Hours() < float64(days*24)].  A
    binary64 number is an integer over a power of two; [round64] is rounding to
    nearest, ties to even, with 53 significant bits (the numbers here are far from
    the bounds of the exponent).  [time.Time.Sub] saturates and [days*24] wraps
    around, both at 64 bits. *)

From S2P Require Import Prelude Models Store.
Local Open Scope Z_scope.

Definition Hour : Z := 60 * Minute.

(** ** 64-bit integers *)

Definition max64 : Z := 2 ^ 63 - 1.
Definition min64 : Z := - 2 ^ 63.
(** [t.Sub(u)]. *)
Definition Sub (t u : time) : Z := Z.max min64 (Z.min max64 (t - u)).
(** An integer operation, modulo 2^64. *)
Definition wrap64 (x : Z) : Z := (x + 2 ^ 63) mod 2 ^ 64 - 2 ^ 63.

(** ** binary64 *)

(** The value [f_m / 2 ^ f_k]. *)
Record float64 := mkF { f_m : Z; f_k : Z }.

(** The integer nearest to [a / b], ties to even. *)
Definition nearest_even (a b : Z) : Z :=
  let q := a / b in
  let r := a mod b in
  If 2 * r <? b Return q ;;
  If b <? 2 * r Return q + 1 ;;
  if Z.even q then q else q + 1.

(** The exponent of [a / b] for positive [a] and [b]. *)
Definition exponent (a b : Z) : Z :=
  if b <=? a then Z.log2 (a / b) else - Z.log2_up ((b + a - 1) / a).

Definition round_pos (a b : Z) : float64 :=
  let k := 52 - exponent a b in
  if 0 <=? k then mkF (nearest_even (a * 2 ^ k) b) k
  else mkF (nearest_even a (b * 2 ^ (- k)) * 2 ^ (- k)) 0.

(** The rounded value of [a / b], [b] positive. *)
Definition round64 (a b : Z) : float64 :=
  If a =? 0 Return mkF 0 0 ;;
  If a <? 0 Return (let f := round_pos (- a) b in mkF (- f_m f) (f_k f)) ;;
  round_pos a b.

Definition of_int (n : Z) : float64 := round64 n 1.
Definition fadd (x y : float64) : float64 :=
  round64 (f_m x * 2 ^ f_k y + f_m y * 2 ^ f_k x) (2 ^ (f_k x + f_k y)).
Definition flt (x y : float64) : bool := f_m x * 2 ^ f_k y <? f_m y * 2 ^ f_k x.

(** [d.Hours()]: [float64(d / Hour) + float64(d % Hour) / (60*60*1e9)].  The
    remainder is below 2^53, so its conversion is exact. *)
Definition Hours (d : Z) : float64 := fadd (of_int (Z.quot d Hour)) (round64 (Z.rem d Hour) Hour).

(** [!(d.Hours() < float64(days*24))]. *)
Definition days_passed (d days : Z) : bool := negb (flt (Hours d) (of_int (wrap64 (days * 24)))).

Example days_passed_week :
  (days_passed (7 * 24 * Hour - 1) 7, days_passed (7 * 24 * Hour - Second) 7, days_passed (7 * 24 * Hour) 7)
  = (false, false, true).
Proof. vm_compute. done. Qed.

(** ** What the comparison decides *)

Lemma nearest_even_ge a b n : 0 < b -> n * b <= a -> n <= nearest_even a b.
Proof.
  intros Hb H. assert (Hq : n <= a / b) by (apply Z.div_le_lower_bound; lia).
  unfold nearest_even. repeat case_match; lia.
Qed.
Lemma nearest_even_le a b n : 0 < b -> a <= n * b -> nearest_even a b <= n.
Proof.
  intros Hb H. assert (Hd := Z.div_mod a b ltac:(lia)). assert (Hm := Z.mod_pos_bound a b Hb).
  unfold nearest_even. destruct (Z.ltb_spec (2 * (a mod b)) b).
  - assert (a / b <= n); [|lia]. apply Z.div_le_upper_bound; lia.
  - assert (a / b < n) by nia. repeat case_match; lia.
Qed.
(** Half a unit of rounding at most. *)
Lemma nearest_even_error a b : 0 < b -> 2 * a - b <= 2 * b * nearest_even a b <= 2 * a + b.
Proof.
  intros Hb. assert (Hd := Z.div_mod a b ltac:(lia)). assert (Hm := Z.mod_pos_bound a b Hb).
  unfold nearest_even. destruct (Z.ltb_spec (2 * (a mod b)) b), (Z.ltb_spec b (2 * (a mod b))), (Z.even (a / b)); nia.
Qed.


(** Integers are exact: a value on one side of an integer rounds to a value on
    the same side. *)
Lemma exponent_small a b : 0 < a -> 0 < b -> a < 2 ^ 53 * b -> exponent a b <= 52.
Proof.
  intros Ha Hb H. unfold exponent. destruct (Z.leb_spec b a) as [Hl|Hl].
  - assert (Hq : 0 < a / b) by (apply Z.div_str_pos; lia).
    assert (a / b < 2 ^ 53) by (apply Z.div_lt_upper_bound; lia).
    assert (Z.log2 (a / b) < 53); [|lia]. by apply Z.log2_lt_pow2.
  - pose proof (Z.log2_up_nonneg ((b + a - 1) / a)). lia.
Qed.

Lemma round_pos_small a b :
  0 < a -> 0 < b -> a < 2 ^ 53 * b ->
  round_pos a b = mkF (nearest_even (a * 2 ^ (52 - exponent a b)) b) (52 - exponent a b) /\ 0 <= 52 - exponent a b.
Proof.
  intros Ha Hb H. pose proof (exponent_small a b Ha Hb H). unfold round_pos.
  rewrite (proj2 (Z.leb_le 0 (52 - exponent a b))) by lia. split; [done|lia].
Qed.

Lemma round_pos_ge a b n :
  0 < a -> 0 < b -> a < 2 ^ 53 * b -> n * b <= a -> n * 2 ^ f_k (round_pos a b) <= f_m (round_pos a b).
Proof.
  intros Ha Hb H Hn. destruct (round_pos_small a b Ha Hb H) as [-> Hk]. cbn [f_m f_k].
  apply nearest_even_ge; [done|]. assert (0 < 2 ^ (52 - exponent a b)) by (by apply Z.pow_pos_nonneg). nia.
Qed.
Lemma round_pos_le a b n :
  0 < a -> 0 < b -> a < 2 ^ 53 * b -> a <= n * b -> f_m (round_pos a b) <= n * 2 ^ f_k (round_pos a b).
Proof.
  intros Ha Hb H Hn. destruct (round_pos_small a b Ha Hb H) as [-> Hk]. cbn [f_m f_k].
  apply nearest_even_le; [done|]. assert (0 < 2 ^ (52 - exponent a b)) by (by apply Z.pow_pos_nonneg). nia.
Qed.

Lemma pow2_pos k : 0 <= k -> 0 < 2 ^ k.
Proof. intros. by apply Z.pow_pos_nonneg. Qed.

(** A positive value stays positive. *)
Lemma round_pos_positive a b : 0 < a -> 0 < b -> a < 2 ^ 53 * b -> 0 < f_m (round_pos a b) /\ 0 <= f_k (round_pos a b).
Proof.
  intros Ha Hb H. destruct (round_pos_small a b Ha Hb H) as [-> Hk]. cbn [f_m f_k]. split; [|done].
  assert (1 <= nearest_even (a * 2 ^ (52 - exponent a b)) b); [|lia]. apply nearest_even_ge; [done|].
  unfold exponent in *. destruct (Z.leb_spec b a) as [Hl|Hl].
  - pose proof (pow2_pos _ Hk). nia.
  - set (c := (b + a - 1) / a) in *. assert (Hc : b <= a * c).
    { pose proof (Z.div_mod (b + a - 1) a ltac:(lia)). pose proof (Z.mod_pos_bound (b + a - 1) a Ha). unfold c. lia. }
    assert (Hc1 : 1 <= c) by nia. assert (Hl2 : c <= 2 ^ Z.log2_up c).
    { destruct (Z.eq_dec c 1) as [->|]; [done|]. apply Z.log2_up_spec. lia. }
    pose proof (Z.log2_up_nonneg c). replace (52 - - Z.log2_up c) with (Z.log2_up c + 52) by lia.
    rewrite Z.pow_add_r by lia. change (2 ^ 52) with 4503599627370496. nia.
Qed.

Lemma of_int_exact n : 0 <= n < 2 ^ 53 -> f_m (of_int n) = n * 2 ^ f_k (of_int n) /\ 0 <= f_k (of_int n).
Proof.
  intros Hn. unfold of_int, round64. destruct (Z.eqb_spec n 0) as [->|Hz]; [done|].
  rewrite (proj2 (Z.ltb_ge n 0)) by lia.
  pose proof (round_pos_ge n 1 n ltac:(lia) ltac:(lia) ltac:(lia) ltac:(lia)).
  pose proof (round_pos_le n 1 n ltac:(lia) ltac:(lia) ltac:(lia) ltac:(lia)).
  pose proof (round_pos_positive n 1 ltac:(lia) ltac:(lia) ltac:(lia)). lia.
Qed.

(** The fraction of an hour, at least 53 bits behind the point. *)
Lemma fraction_spec r :
  0 < r < Hour ->
  let y := round_pos r Hour in
  53 <= f_k y /\ 0 < f_m y <= 2 ^ f_k y /\ 2 * Hour * f_m y <= 2 * (r * 2 ^ f_k y) + Hour.
Proof.
  intros Hr. cbv zeta. pose proof (round_pos_positive r Hour ltac:(lia) ltac:(done) ltac:(unfold Hour, Minute, Second in *; lia)) as [Hp _].
  pose proof (round_pos_le r Hour 1 ltac:(lia) ltac:(done) ltac:(unfold Hour, Minute, Second in *; lia) ltac:(lia)) as Hle.
  destruct (round_pos_small r Hour) as [E Hk]; [lia|done|unfold Hour, Minute, Second in *; lia|].
  rewrite E in *. cbn [f_m f_k] in *. split_and!; [|done|lia|].
  - unfold exponent. rewrite (proj2 (Z.leb_gt Hour r)) by lia.
    assert (1 <= Z.log2_up ((Hour + r - 1) / r)); [|lia].
    assert (2 <= (Hour + r - 1) / r) by (apply Z.div_le_lower_bound; lia).
    change 1 with (Z.log2_up 2). by apply Z.log2_up_le_mono.
  - apply nearest_even_error. done.
Qed.

(** ** The hours of a duration against whole hours *)

Lemma div_facts d : 0 <= d -> d = Hour * (d / Hour) + d mod Hour /\ 0 <= d mod Hour < Hour /\ 0 <= d / Hour.
Proof.
  intros Hd. pose proof (Z.div_mod d Hour ltac:(done)). pose proof (Z.mod_pos_bound d Hour ltac:(done)).
  pose proof (Z.div_pos d Hour Hd ltac:(done)). done.
Qed.

Lemma flt_of_int F T : 0 <= T < 2 ^ 52 -> flt F (of_int T) = false <-> T * 2 ^ f_k F <= f_m F.
Proof.
  intros HT. destruct (of_int_exact T ltac:(lia)) as [HTm HTk]. pose proof (pow2_pos _ HTk) as HP.
  unfold flt. rewrite HTm, Z.ltb_ge. rewrite (Z.mul_le_mono_pos_r (T * 2 ^ f_k F) (f_m F) _ HP).
  replace (T * 2 ^ f_k F * 2 ^ f_k (of_int T)) with (T * 2 ^ f_k (of_int T) * 2 ^ f_k F) by ring. done.
Qed.

(** At most 292 years. *)
Lemma hours_bound d : d <= 2 ^ 63 -> d / Hour <= 2562047.
Proof.
  intros Hd. assert (d / Hour < 2562048); [|lia]. apply Z.div_lt_upper_bound; [done|].
  apply Z.le_lt_trans with (2 ^ 63); [done|]. by vm_compute.
Qed.

(** The sum before its rounding, over a common power of two. *)
Lemma Hours_sum d :
  0 <= d <= 2 ^ 63 ->
  let h := d / Hour in
  exists A B y, Hours d = round64 A B /\ 0 < B /\ 0 <= f_k y /\ 0 <= f_m y <= 2 ^ f_k y /\
    A * 2 ^ f_k y = (h * 2 ^ f_k y + f_m y) * B /\
    (d mod Hour = 0 -> f_m y = 0) /\
    (0 < d mod Hour -> 0 < f_m y /\ 53 <= f_k y /\ 2 * Hour * f_m y <= 2 * (d mod Hour * 2 ^ f_k y) + Hour).
Proof.
  intros [Hd Hmax]. cbv zeta. destruct (div_facts d Hd) as (Hdiv & Hr & Hh).
  pose proof (hours_bound d Hmax) as Hb. unfold Hours, fadd. rewrite Z.quot_div_nonneg, Z.rem_mod_nonneg by done.
  set (h := d / Hour) in *. set (r := d mod Hour) in *. set (y := round64 r Hour).
  destruct (of_int_exact h ltac:(lia)) as [Hx Hk1]. set (x := of_int h) in *.
  assert (Hy : 0 <= f_k y /\ 0 <= f_m y <= 2 ^ f_k y /\ (r = 0 -> f_m y = 0) /\
               (0 < r -> 0 < f_m y /\ 53 <= f_k y /\ 2 * Hour * f_m y <= 2 * (r * 2 ^ f_k y) + Hour)).
  { unfold y, round64. destruct (Z.eqb_spec r 0) as [->|Hz]; [by split_and!|].
    rewrite (proj2 (Z.ltb_ge r 0)) by lia. destruct (fraction_spec r ltac:(lia)) as (H1 & H2 & H3).
    split_and!; lia. }
  destruct Hy as (Hk2 & Hm & H0 & H1). eexists _, _, y. split; [reflexivity|].
  split; [apply pow2_pos; lia|]. split_and!; try done; try lia.
  rewrite Z.pow_add_r, Hx by lia. ring.
Qed.

(** A sum that is rounded up to a whole hour lacks less than 2^-32 of it. *)
Lemma round_pos_near a b t :
  0 < a -> 0 < b -> a < 2 ^ 22 * b -> t * 2 ^ f_k (round_pos a b) <= f_m (round_pos a b) ->
  exists q, 2 ^ 31 <= q /\ 2 * b * (t * q) <= 2 * a * q + b.
Proof.
  intros Ha Hb Hl H. destruct (round_pos_small a b Ha Hb) as [E Hk]; [lia|]. rewrite E in H. cbn [f_m f_k] in H.
  exists (2 ^ (52 - exponent a b)). split.
  - apply Z.pow_le_mono_r; [done|]. unfold exponent. destruct (Z.leb_spec b a).
    + assert (a / b < 2 ^ 22) by (apply Z.div_lt_upper_bound; lia).
      assert (0 < a / b) by (apply Z.div_str_pos; lia).
      assert (Z.log2 (a / b) < 22); [by apply Z.log2_lt_pow2|lia].
    + pose proof (Z.log2_up_nonneg ((b + a - 1) / a)). lia.
  - pose proof (nearest_even_error (a * 2 ^ (52 - exponent a b)) b Hb). nia.
Qed.

Lemma sum_near h r A B P m T q :
  0 < B -> 2 ^ 53 <= P -> 2 ^ 31 <= q -> A * P = (h * P + m) * B -> 2 * B * (T * q) <= 2 * A * q + B ->
  T = h + 1 -> 0 <= m <= P -> 2 * Hour * m <= 2 * (r * P) + Hour -> Hour - r < 1000.
Proof.
  intros HB HP Hq HA Hn -> Hm Hf.
  assert (H1 : 2 * q * (P - m) <= P).
  { assert (2 * B * ((h + 1) * q) * P <= 2 * ((h * P + m) * B) * q + B * P) by nia.
    apply (Z.mul_le_mono_pos_l _ _ B HB). nia. }
  assert (H2 : 2 ^ 32 * (P - m) <= P) by nia.
  change (2 ^ 32) with 4294967296 in H2. change (2 ^ 53) with 9007199254740992 in HP.
  unfold Hour, Minute, Second in *. destruct (Z_lt_le_dec (60 * (60 * 1000000000) - r) 1000) as [?|Hc]; [done|].
  exfalso. nia.
Qed.

(** A rounded sum that reaches [T] hours is short of it by less than a microsecond. *)
Lemma reach_near d T A B m P :
  0 <= d <= 2 ^ 63 -> 0 < P -> 0 < A -> 0 < B -> A < 2 ^ 22 * B -> 0 <= m <= P ->
  A * P = (d / Hour * P + m) * B ->
  (d mod Hour = 0 -> m = 0) ->
  (0 < d mod Hour -> 0 < m /\ 2 ^ 53 <= P /\ 2 * Hour * m <= 2 * (d mod Hour * P) + Hour) ->
  T * 2 ^ f_k (round_pos A B) <= f_m (round_pos A B) -> T * Hour - 1000 < d.
Proof.
  intros Hd HP HAp HB HAB Hm HA H0 H1 Hge. destruct (div_facts d (proj1 Hd)) as (Hdiv & Hr & Hh).
  set (h := d / Hour) in *. set (r := d mod Hour) in *.
  assert (Hsm : A < 2 ^ 53 * B) by lia. assert (HHp : 0 < Hour) by done.
  assert (HT : T <= h + 1).
  { assert (Hup : A <= (h + 1) * B).
    { apply (Z.mul_le_mono_pos_r _ _ P); [done|]. rewrite HA. replace ((h + 1) * B * P) with ((h + 1) * P * B) by ring.
      apply Z.mul_le_mono_nonneg_r; lia. }
    destruct (round_pos_positive A B HAp HB Hsm) as [_ Hkf].
    pose proof (round_pos_le A B (h + 1) HAp HB Hsm Hup). apply (Z.mul_le_mono_pos_r _ _ _ (pow2_pos _ Hkf)). lia. }
  destruct (Z_lt_le_dec h T) as [Hlt|Hle']; [|nia]. assert (T = h + 1) as -> by lia.
  destruct (round_pos_near A B (h + 1) HAp HB HAB Hge) as (q & Hq & Hn).
  destruct (Z.eq_dec r 0) as [Hr0|Hr0].
  - rewrite (H0 Hr0) in HA. assert (A = h * B) as -> by (apply (Z.mul_cancel_r _ _ P); lia). nia.
  - destruct H1 as (Hmp & HP53 & Hf); [lia|].
    assert (Hour - r < 1000); [|nia]. by apply (sum_near h r A B P m (h + 1) q).
Qed.

(** Whole hours are reached on time, and less than a microsecond early. *)
Lemma Hours_reach_nonneg d T :
  0 <= d <= 2 ^ 63 -> 0 <= T < 2 ^ 52 ->
  (T * Hour <= d -> flt (Hours d) (of_int T) = false) /\
  (flt (Hours d) (of_int T) = false -> T * Hour - 1000 < d).
Proof.
  intros Hd HT. rewrite flt_of_int by done. destruct (Hours_sum d Hd) as (A & B & y & -> & HB & Hk & Hm & HA & H0 & H1).
  destruct (div_facts d (proj1 Hd)) as (Hdiv & Hr & Hh). pose proof (hours_bound d (proj2 Hd)) as Hhb.
  set (h := d / Hour) in *. set (r := d mod Hour) in *. set (P := 2 ^ f_k y) in *.
  assert (HP : 0 < P) by (by apply pow2_pos). assert (HHp : 0 < Hour) by done.
  unfold round64. destruct (Z.eqb_spec A 0) as [HA0|HA0].
  { assert (Hz : h * P + f_m y = 0) by (apply (Z.mul_cancel_r _ 0 B); lia).
    assert (h = 0) by nia. assert (f_m y = 0) by nia. cbn [f_m f_k].
    assert (r = 0) by (destruct (Z.eq_dec r 0); [done|]; destruct H1; lia).
    change (2 ^ 0) with 1. split; intros; unfold Hour, Minute, Second in *; nia. }
  assert (Hsum : 0 <= h * P + f_m y <= 2562048 * P) by nia.
  assert (HAp : 0 < A) by nia. rewrite (proj2 (Z.ltb_ge A 0)) by lia.
  assert (HAB : A < 2 ^ 22 * B) by (apply (Z.mul_lt_mono_pos_r P); [done|]; rewrite HA; nia).
  assert (Hsm : A < 2 ^ 53 * B) by lia.
  destruct (round_pos_positive A B HAp HB Hsm) as [_ Hkf]. split.
  - intros Hle. assert (T <= h) by (apply Z.div_le_lower_bound; lia). apply round_pos_ge; try done.
    apply (Z.mul_le_mono_pos_r _ _ P); [done|]. rewrite HA. replace (T * B * P) with (T * P * B) by ring.
    apply Z.mul_le_mono_nonneg_r; nia.
  - intros Hge. apply (reach_near d T A B (f_m y) P); try done. intros Hp. destruct (H1 Hp) as (? & ? & ?). split_and!; try done. by apply Z.pow_le_mono_r.
Qed.

(** *** Negative durations *)

Definition fneg (x : float64) : float64 := mkF (- f_m x) (f_k x).

Lemma round64_opp a b : round64 (- a) b = fneg (round64 a b).
Proof.
  unfold round64, fneg. destruct (Z.eqb_spec a 0) as [->|Ha]; [done|]. rewrite (proj2 (Z.eqb_neq (- a) 0)) by lia.
  destruct (Z.ltb_spec a 0); [rewrite (proj2 (Z.ltb_ge (- a) 0)) by lia|rewrite (proj2 (Z.ltb_lt (- a) 0)) by lia]; cbn.
  - destruct (round_pos (- a) b). cbn. by rewrite Z.opp_involutive.
  - by rewrite Z.opp_involutive.
Qed.
Lemma fadd_opp x y : fadd (fneg x) (fneg y) = fneg (fadd x y).
Proof. unfold fadd. rewrite <- round64_opp. cbn [fneg f_m f_k]. apply (f_equal2 round64); [ring|done]. Qed.
Lemma Hours_opp d : Hours (- d) = fneg (Hours d).
Proof. unfold Hours, of_int. by rewrite Z.quot_opp_l, Z.rem_opp_l, !round64_opp, fadd_opp. Qed.

(** The comparison with whole hours, for every 64-bit duration. *)
Lemma Hours_reach d T :
  min64 <= d <= max64 -> 0 <= T < 2 ^ 52 ->
  (T * Hour <= d -> flt (Hours d) (of_int T) = false) /\
  (flt (Hours d) (of_int T) = false -> T * Hour - 1000 < d).
Proof.
  unfold min64, max64. intros Hd HT. destruct (Z_lt_le_dec d 0) as [Hn|]; [|by apply Hours_reach_nonneg; lia].
  assert (HHp : 0 < Hour) by done. split; [nia|]. intros Hf. exfalso. revert Hf.
  replace d with (- - d) by lia. rewrite Hours_opp. set (e := - d). assert (He : 0 < e <= 2 ^ 63) by lia.
  destruct (Hours_sum e ltac:(lia)) as (A & B & y & -> & HB & Hk & Hm & HA & H0 & H1).
  destruct (div_facts e ltac:(lia)) as (Hdiv & Hr & Hh). pose proof (hours_bound e (proj2 He)) as Hhb.
  pose proof (pow2_pos _ Hk) as HP.
  assert (HAp : 0 < A).
  { destruct (Z.eq_dec (e mod Hour) 0); [|destruct H1; [lia|nia]]. assert (0 < e / Hour) by nia. nia. }
  unfold round64. rewrite (proj2 (Z.eqb_neq A 0)), (proj2 (Z.ltb_ge A 0)) by lia.
  destruct (round_pos_positive A B HAp HB) as [Hp Hkf].
  { apply (Z.mul_lt_mono_pos_r (2 ^ f_k y)); [done|]. rewrite HA. replace (2 ^ 53 * B * 2 ^ f_k y) with (2 ^ 53 * 2 ^ f_k y * B) by ring.
    apply Z.mul_lt_mono_pos_r; nia. }
  pose proof (pow2_pos _ Hkf).
  unfold fneg. cbn [f_m f_k]. intros Hf. pose proof (Z.mul_nonneg_nonneg T (2 ^ f_k (round_pos A B))). apply flt_of_int in Hf; [|done]. cbn [f_m f_k] in Hf. lia.
Qed.
