(* ===== verification/Conditions.v ===== *)
(** * The conditions of cleanup policies

    [scheduler/conditions.go]: the condition language ([ParseCondition]) and the
    match of an instance ([matchesAt]).  An age is compared in floating point
    hours ([Durations]); [matches_within] is the exact meaning of a condition, and
    [matchesAt] agrees with it up to a microsecond. *)

From S2P Require Import Prelude Decimals Models Store Durations.
Local Open Scope string_scope.

(** ** The condition language *)

Record InstanceFilter := mkFilter {
  if_Status : string;
  if_IdleDays : Z;
  if_AgeDays : Z;
  if_StoppedDays : Z;
  if_CleanedDays : Z;
  if_TTLExpired : bool;
  if_ExpiresWithinHours : Z;
  if_hasStoppedDays : bool;
  if_hasCleanedDays : bool;
  if_hasExpiresWithin : bool
}.
Definition empty_filter : InstanceFilter := mkFilter "" 0 0 0 0 false 0 false false false.

Definition maxExpiresWithinHours : Z := 365 * 24.

(** [strings.Split(s, sep)] for a separator of one character. *)
Fixpoint Split (s : string) (sep : ascii) : list string :=
  match s with
  | EmptyString => [""]
  | String c s' =>
      If ascii_eqb c sep Return "" :: Split s' sep ;;
      match Split s' sep with
      | x :: l => String c x :: l
      | [] => [String c ""]
      end
  end.

(** [strings.SplitN(TrimSpace(part), ":", 2)], both parts trimmed. *)
Definition key_value (part : string) : string * string :=
  let part := TrimSpace part in
  match Cut part ":" with
  | Some (k, v) => (TrimSpace k, TrimSpace v)
  | None => (TrimSpace part, "")
  end.

(** [strconv.Atoi]: an [int] has 64 bits. *)
Definition Atoi (s : string) : option Z := ParseInt s.

Definition parse_error (text : string) : res InstanceFilter := Err (ENew text).

(** One part of the condition. *)
Definition parse_part (f : InstanceFilter) (part : string) : res InstanceFilter :=
  let '(mkFilter status idle age stopped cleaned expired within hs hc hw) := f in
  let '(key, value) := key_value part in
  If bool_decide (key = "idle_days") Return
    match Atoi value with
    | Some days => Ok (mkFilter status days age stopped cleaned expired within hs hc hw)
    | None => parse_error ("invalid idle_days value: " +:+ value)
    end ;;
  If bool_decide (key = "status") Return Ok (mkFilter value idle age stopped cleaned expired within hs hc hw) ;;
  If bool_decide (key = "age_days") Return
    match Atoi value with
    | Some days => Ok (mkFilter status idle days stopped cleaned expired within hs hc hw)
    | None => parse_error ("invalid age_days value: " +:+ value)
    end ;;
  If bool_decide (key = "stopped_days") Return
    match Atoi value with
    | Some days => If (days <? 0)%Z Return parse_error ("invalid stopped_days value: " +:+ value) ;;
                   Ok (mkFilter status idle age days cleaned expired within true hc hw)
    | None => parse_error ("invalid stopped_days value: " +:+ value)
    end ;;
  If bool_decide (key = "cleaned_days") Return
    match Atoi value with
    | Some days => If (days <? 0)%Z Return parse_error ("invalid cleaned_days value: " +:+ value) ;;
                   Ok (mkFilter status idle age stopped days expired within hs true hw)
    | None => parse_error ("invalid cleaned_days value: " +:+ value)
    end ;;
  If bool_decide (key = "ttl_expired") Return Ok (mkFilter status idle age stopped cleaned true within hs hc hw) ;;
  If bool_decide (key = "expires_within_hours") Return
    (let bad := parse_error ("invalid expires_within_hours value: " +:+ value +:+
                  " (0 to " +:+ itoa maxExpiresWithinHours +:+ ")") in
     match Atoi value with
     | Some hours => If (hours <? 0)%Z || (maxExpiresWithinHours <? hours)%Z Return bad ;;
                     Ok (mkFilter status idle age stopped cleaned expired hours hs hc true)
     | None => bad
     end) ;;
  parse_error ("unknown condition key: " +:+ key).

Fixpoint parse_parts (f : InstanceFilter) (parts : list string) : res InstanceFilter :=
  match parts with
  | [] => Ok f
  | p :: rest => f' <-r parse_part f p ;; parse_parts f' rest
  end.

Definition ParseCondition (condition : string) : res InstanceFilter :=
  parse_parts empty_filter (Split condition ",").

Example ParseCondition_two :
  ParseCondition "status:stopped, age_days:14" = Ok (mkFilter "stopped" 0 14 0 0 false 0 false false false).
Proof. vm_compute. done. Qed.
Example ParseCondition_bad : ParseCondition "stopped_days:-1" = parse_error "invalid stopped_days value: -1".
Proof. vm_compute. done. Qed.

(** ** The match *)

(** [now.Sub(t).Hours() >= float64(days*24)]. *)
Definition old_enough (now t : time) (days : Z) : bool := days_passed (Sub now t) days.

(** [x.After(now)] of an optional time. *)
Definition after (x : option time) (now : time) : bool :=
  match x with Some e => (now <? e)%Z | None => false end.
Definition up (status : string) : bool :=
  bool_decide (status = StackStatusRunning) || bool_decide (status = StackStatusPartial).

Definition matchesAt (f : InstanceFilter) (inst : StackInstance) (now : time) : bool :=
  If negb (empty (if_Status f)) && negb (bool_decide (si_Status inst = if_Status f)) Return false ;;
  If (0 <? if_IdleDays f)%Z &&
     (let lastActive := default (si_CreatedAt inst) (si_LastDeployedAt inst) in
      negb (old_enough now lastActive (if_IdleDays f)) ||
      up (si_Status inst) && after (si_ExpiresAt inst) now) Return false ;;
  If (0 <? if_AgeDays f)%Z && negb (old_enough now (si_CreatedAt inst) (if_AgeDays f)) Return false ;;
  If if_hasStoppedDays f &&
     (negb (bool_decide (si_Status inst = StackStatusStopped)) ||
      match si_StoppedAt inst with
      | None => true
      | Some t => negb (old_enough now t (if_StoppedDays f))
      end) Return false ;;
  If if_hasCleanedDays f &&
     (negb (bool_decide (si_Status inst = StackStatusDraft)) ||
      match si_CleanedAt inst with
      | None => true
      | Some t => negb (old_enough now t (if_CleanedDays f))
      end) Return false ;;
  If if_TTLExpired f &&
     match si_ExpiresAt inst with None => true | Some e => negb (e <? now)%Z end Return false ;;
  If if_hasExpiresWithin f && after (si_ExpiresAt inst) (now + if_ExpiresWithinHours f * Hour) Return false ;;
  true.

(** ** The meaning of a condition *)

(** Ages in nanoseconds, [slack] less than asked. *)
Definition aged (slack : Z) (now t : time) (days : Z) : Prop := (days * 24 * Hour - slack <= now - t)%Z.

Record matches_within (slack : Z) (f : InstanceFilter) (inst : StackInstance) (now : time) : Prop := {
  mw_status : if_Status f <> "" -> si_Status inst = if_Status f;
  mw_idle : (0 < if_IdleDays f)%Z ->
    aged slack now (default (si_CreatedAt inst) (si_LastDeployedAt inst)) (if_IdleDays f) /\
    ((si_Status inst = StackStatusRunning \/ si_Status inst = StackStatusPartial) ->
     forall e, si_ExpiresAt inst = Some e -> (e <= now)%Z);
  mw_age : (0 < if_AgeDays f)%Z -> aged slack now (si_CreatedAt inst) (if_AgeDays f);
  mw_stopped : if_hasStoppedDays f = true ->
    si_Status inst = StackStatusStopped /\ exists t, si_StoppedAt inst = Some t /\ aged slack now t (if_StoppedDays f);
  mw_cleaned : if_hasCleanedDays f = true ->
    si_Status inst = StackStatusDraft /\ exists t, si_CleanedAt inst = Some t /\ aged slack now t (if_CleanedDays f);
  mw_expired : if_TTLExpired f = true -> exists e, si_ExpiresAt inst = Some e /\ (e < now)%Z;
  mw_within : if_hasExpiresWithin f = true ->
    forall e, si_ExpiresAt inst = Some e -> (e <= now + if_ExpiresWithinHours f * Hour)%Z
}.

(** 292 years, the longest [time.Duration]. *)
Definition maxDays : Z := 106751.
Definition small_days (f : InstanceFilter) : Prop :=
  Forall (fun d => d <= maxDays)%Z [if_IdleDays f; if_AgeDays f; if_StoppedDays f; if_CleanedDays f].

Lemma wrap64_id x : (- 2 ^ 63 <= x < 2 ^ 63)%Z -> wrap64 x = x.
Proof. intros H. unfold wrap64. rewrite Z.mod_small by lia. lia. Qed.

Lemma Sub_range t u : (min64 <= Sub t u <= max64)%Z.
Proof. unfold Sub. assert (min64 <= max64)%Z by done. lia. Qed.

Lemma days_ns d : (d <= maxDays)%Z -> (d * 24 * Hour <= max64)%Z.
Proof. intros H. apply Z.le_trans with (maxDays * 24 * Hour)%Z; [|by vm_compute]. apply Z.mul_le_mono_nonneg_r; [done|lia]. Qed.

Lemma old_enough_spec now t d :
  (0 <= d <= maxDays)%Z ->
  (aged 0 now t d -> old_enough now t d = true) /\ (old_enough now t d = true -> aged 1000 now t d).
Proof.
  intros Hd. pose proof (days_ns d ltac:(lia)) as Hns. pose proof (Sub_range now t) as Hr.
  unfold old_enough, days_passed, aged. unfold maxDays in Hd. rewrite wrap64_id by lia.
  destruct (Hours_reach (Sub now t) (d * 24) Hr ltac:(lia)) as [H1 H2]. rewrite negb_true_iff. split.
  - intros H. apply H1. unfold Sub. assert (min64 <= 0)%Z by done. assert (0 < Hour)%Z by done. nia.
  - intros H. specialize (H2 H). unfold Sub in H2. assert (min64 <= - 1000)%Z by done. assert (0 < Hour)%Z by done. nia.
Qed.

Lemma up_iff s : up s = true <-> s = StackStatusRunning \/ s = StackStatusPartial.
Proof. unfold up. rewrite orb_true_iff, !bool_decide_eq_true. done. Qed.

(** ** What the parser accepts *)

Record parsed_filter (f : InstanceFilter) : Prop := {
  pf_stopped : (0 <= if_StoppedDays f)%Z;
  pf_cleaned : (0 <= if_CleanedDays f)%Z;
  pf_within : (0 <= if_ExpiresWithinHours f <= maxExpiresWithinHours)%Z
}.

Lemma parse_part_ok f p f' : parse_part f p = Ok f' -> parsed_filter f -> parsed_filter f'.
Proof.
  destruct f as [st i a s c ex w hs hc hw]. unfold parse_part, parse_error. destruct (key_value p) as [key value].
  intros E [Hs Hc Hw]. cbn in *. repeat case_match; simplify_eq; split; cbn; try done; lia.
Qed.

Lemma ParseCondition_ok c f : ParseCondition c = Ok f -> parsed_filter f.
Proof.
  unfold ParseCondition. assert (H0 : parsed_filter empty_filter) by (by split).
  revert H0. generalize empty_filter. induction (Split c ",") as [|p l IH]; intros g Hg; cbn; [by intros [= <-]|].
  destruct (parse_part g p) as [g'|e] eqn:E; cbn; [|done]. apply IH. by eapply parse_part_ok.
Qed.

(** ** The match has its meaning *)

Definition matches_status f i := negb (empty (if_Status f)) && negb (bool_decide (si_Status i = if_Status f)) = false.

Lemma return_false (b c : bool) : (if b then false else c) = true <-> b = false /\ c = true.
Proof. by destruct b; split; intros; destruct_and?. Qed.

Lemma dead_iff (p : Prop) `{Decision p} (b : bool) (q : Prop) :
  (b = true <-> q) -> (bool_decide p && negb b = false <-> (p -> q)).
Proof.
  intros Hb. case_bool_decide; cbn.
  - rewrite negb_false_iff, Hb. tauto.
  - tauto.
Qed.
Lemma after_iff x now : after x now = false <-> forall e, x = Some e -> (e <= now)%Z.
Proof.
  unfold after. destruct x as [e|]; [|by split].
  rewrite Z.ltb_ge. split; [by intros H ? [= <-]|]. intros H. by apply H.
Qed.

Section meaning.
Context (f : InstanceFilter) (i : StackInstance) (now : time).
Context (Hf : parsed_filter f) (Hd : small_days f).

(** One age of the condition, in both directions. *)
Lemma age_guard (b : bool) t d :
  (b = true -> (0 <= d <= maxDays)%Z) ->
  ((b = true -> aged 0 now t d) -> b && negb (old_enough now t d) = false) /\
  (b && negb (old_enough now t d) = false -> b = true -> aged 1000 now t d).
Proof.
  intros Hb. destruct b; cbn; [|done]. destruct (old_enough_spec now t d (Hb eq_refl)) as [H1 H2].
  rewrite negb_false_iff. auto.
Qed.

(** A finished stop or clean of a given age. *)
Lemma ended_guard (b : bool) status x d :
  (b = true -> (0 <= d <= maxDays)%Z) ->
  let guard := b && (negb (bool_decide (si_Status i = status)) ||
                     match x with None => true | Some t => negb (old_enough now t d) end) in
  ((b = true -> si_Status i = status /\ exists t, x = Some t /\ aged 0 now t d) -> guard = false) /\
  (guard = false -> b = true -> si_Status i = status /\ exists t, x = Some t /\ aged 1000 now t d).
Proof.
  intros Hb. destruct b; cbn; [|done]. split.
  - intros H. destruct (H eq_refl) as (Hs & t & -> & Ha). rewrite bool_decide_true by done. cbn.
    by rewrite (proj1 (old_enough_spec now t d (Hb eq_refl)) Ha).
  - intros [H1 H2]%orb_false_iff _. apply negb_false_iff, bool_decide_eq_true in H1. split; [done|].
    destruct x as [t|]; [|done]. apply negb_false_iff in H2. exists t. split; [done|].
    by apply (old_enough_spec now t d (Hb eq_refl)).
Qed.

Lemma days_le :
  (if_IdleDays f <= maxDays)%Z /\ (if_AgeDays f <= maxDays)%Z /\ (if_StoppedDays f <= maxDays)%Z /\
  (if_CleanedDays f <= maxDays)%Z.
Proof. unfold small_days in Hd. by rewrite !Forall_cons in Hd; destruct_and?. Qed.

Lemma idle_guard :
  let last := default (si_CreatedAt i) (si_LastDeployedAt i) in
  let guard := (0 <? if_IdleDays f)%Z &&
    (negb (old_enough now last (if_IdleDays f)) || up (si_Status i) && after (si_ExpiresAt i) now) in
  let fresh := ((si_Status i = StackStatusRunning \/ si_Status i = StackStatusPartial) ->
     forall e, si_ExpiresAt i = Some e -> (e <= now)%Z) in
  (((0 < if_IdleDays f)%Z -> aged 0 now last (if_IdleDays f) /\ fresh) -> guard = false) /\
  (guard = false -> (0 < if_IdleDays f)%Z -> aged 1000 now last (if_IdleDays f) /\ fresh).
Proof.
  cbv zeta. set (last := default _ _). destruct (Z.ltb_spec 0 (if_IdleDays f)) as [Hp|Hp]; cbn; [|split; [done|lia]].
  assert (Hr : (0 <= if_IdleDays f <= maxDays)%Z) by (split; [lia|apply days_le]).
  destruct (old_enough_spec now last _ Hr) as [H1 H2]. rewrite orb_false_iff, negb_false_iff, andb_false_iff.
  rewrite <- up_iff, <- after_iff. destruct (up (si_Status i)); naive_solver.
Qed.

Lemma status_guard :
  negb (empty (if_Status f)) && negb (bool_decide (si_Status i = if_Status f)) = false <->
  (if_Status f <> "" -> si_Status i = if_Status f).
Proof. unfold empty. do 2 case_bool_decide; cbn; naive_solver. Qed.

Lemma expired_guard :
  if_TTLExpired f && match si_ExpiresAt i with None => true | Some e => negb (e <? now)%Z end = false <->
  (if_TTLExpired f = true -> exists e, si_ExpiresAt i = Some e /\ (e < now)%Z).
Proof.
  destruct (if_TTLExpired f); cbn; [|by split]. destruct (si_ExpiresAt i) as [e|]; [|naive_solver].
  rewrite negb_false_iff, Z.ltb_lt. split; [by exists e|]. intros H. destruct (H eq_refl) as (? & [= <-] & ?). done.
Qed.

Lemma within_guard :
  if_hasExpiresWithin f && after (si_ExpiresAt i) (now + if_ExpiresWithinHours f * Hour) = false <->
  (if_hasExpiresWithin f = true ->
   forall e, si_ExpiresAt i = Some e -> (e <= now + if_ExpiresWithinHours f * Hour)%Z).
Proof. destruct (if_hasExpiresWithin f); cbn; [|by split]. rewrite after_iff. tauto. Qed.

Lemma matchesAt_meaning :
  (matches_within 0 f i now -> matchesAt f i now = true) /\ (matchesAt f i now = true -> matches_within 1000 f i now).
Proof.
  destruct (idle_guard) as [I1 I2].
  destruct (age_guard (0 <? if_AgeDays f)%Z (si_CreatedAt i) (if_AgeDays f)) as [A1 A2].
  { intros H%Z.ltb_lt. split; [lia|apply days_le]. }
  destruct (ended_guard (if_hasStoppedDays f) StackStatusStopped (si_StoppedAt i) (if_StoppedDays f)) as [S1 S2].
  { intros _. split; [apply Hf|apply days_le]. }
  destruct (ended_guard (if_hasCleanedDays f) StackStatusDraft (si_CleanedAt i) (if_CleanedDays f)) as [C1 C2].
  { intros _. split; [apply Hf|apply days_le]. }
  unfold matchesAt. rewrite !return_false, status_guard, expired_guard, within_guard. rewrite Z.ltb_lt in A1, A2.
  split.
  - intros [Hst Hi Ha Hs Hc He Hw]. split_and!; [done|by apply I1|by apply A1|by apply S1|by apply C1|done|done|done].
  - intros (Hst & Hi & Ha & Hs & Hc & He & Hw & _). split; [done|by apply I2|by apply A2|by apply S2|by apply C2|done|done].
Qed.
End meaning.

(** C12. The meaning of a cleanup condition.  For every text that the parser
    accepts with ages up to 292 years, an instance that fulfils every part of the
    condition exactly is matched, and a matched instance fulfils every part with
    at most a microsecond missing from an age (the hours are floating point
    numbers).  A condition on idle days never matches a running or partial stack
    with an expiry in the future. *)
Theorem condition_meaning condition f i now :
  ParseCondition condition = Ok f -> small_days f ->
  (matches_within 0 f i now -> matchesAt f i now = true) /\
  (matchesAt f i now = true -> matches_within 1000 f i now).
Proof. intros Hp Hd. apply matchesAt_meaning; [by eapply ParseCondition_ok|done]. Qed.

Definition stopped_instance (at_ : time) : StackInstance :=
  mkInstance "i1" "d1" "shop" "stack-shop-ann" "u1" "main" "c1" StackStatusStopped "" "" 0 0 0 None None None
    (Some at_) None None false.

Lemma condition_meaning_witness :
  ParseCondition "status:stopped, stopped_days:3" = Ok (mkFilter "stopped" 0 0 3 0 false 0 true false false) /\
  matchesAt (mkFilter "stopped" 0 0 3 0 false 0 true false false) (stopped_instance 0) (3 * 24 * Hour) = true.
Proof.
  split; [by vm_compute|].
  apply (condition_meaning "status:stopped, stopped_days:3"); [by vm_compute| |].
  - repeat constructor; by vm_compute.
  - split; cbn; try done. intros _. split; [done|]. exists 0%Z. split; [done|]. by vm_compute.
Defined.

(** Outside of these bounds: a negative age is accepted for idle_days and
    age_days and then asks nothing, and [days*24] wraps around at 64 bits. *)
Lemma negative_age_matches_all :
  exists f, ParseCondition "idle_days:-7" = Ok f /\ forall i now, matchesAt f i now = true.
Proof. eexists. split; [vm_compute; done|]. intros i now. done. Qed.
Example wrapped_age_matches :
  (f <-r ParseCondition "stopped_days:768614336404564651" ;; Ok (matchesAt f (stopped_instance 0) (8 * Hour))) = Ok true.
Proof. vm_compute. done. Qed.
