(* ===== verification/Policies.v ===== *)
(** * Cleanup policies

    The run of a cleanup policy ([scheduler/scheduler.go], [executePolicyWithOptions]
    and its callers) and the actions that it takes ([deployer/cleanup_executor.go]).
    The interface [ActionExecutor] is a class; [CleanupExecutor] is its instance.
    A stop or a clean that was started goes on in a goroutine of its own (a process
    of the environment here).  Policies, definitions and charts are in tables that
    the model does not hold: their reads have any answer.  Spans and metrics are left
    out, as are the followers of a notification. *)

From S2P Require Import Prelude Models Store Hooks World Output Json Manager Deploy Teardown Durations Conditions.
Local Open Scope string_scope.

Record CleanupPolicy := mkPolicy {
  cp_ID : string;
  cp_Name : string;
  cp_ClusterID : string;
  cp_Action : string;
  cp_Condition : string;
  cp_Schedule : string;
  cp_Enabled : bool;
  cp_DryRun : bool;
  cp_CreatedAt : time;
  cp_LastRunAt : option time
}.

(** [CleanupPolicy.Validate]; [parseStandard] is the cron parser. *)
Definition validCleanupActions : list string := ["stop"; "clean"; "delete"].
Definition CleanupPolicy_Validate (parseStandard : string -> error) (p : CleanupPolicy) : error :=
  If empty (cp_Name p) Return errorsNew "name is required" ;;
  If negb (bool_decide (cp_Action p ∈ validCleanupActions)) Return
    errorsNew "action must be one of: stop, clean, delete" ;;
  If empty (cp_Condition p) Return errorsNew "condition is required" ;;
  If empty (cp_Schedule p) Return errorsNew "schedule is required" ;;
  match parseStandard (cp_Schedule p) with
  | Some e => Some (EWrap "invalid cron schedule: " e "")
  | None => If empty (cp_ClusterID p) Return errorsNew "cluster_id is required" ;; None
  end.

(** [CleanupResult]; its notification target is the instance. *)
Record CleanupResult := mkCleanup {
  cr_InstanceID : string;
  cr_InstanceName : string;
  cr_Namespace : string;
  cr_OwnerID : string;
  cr_Action : string;
  cr_Status : string;
  cr_Error : string
}.

(** ** The actions *)

Class ActionExecutor := {
  ae_StopInstance : option Trigger -> StackInstance -> M error;
  ae_CleanInstance : option Trigger -> StackInstance -> M error;
  ae_DeleteInstance : option Trigger -> StackInstance -> M error
}.

Definition res_error {A} (r : res A) : error := match r with Ok _ => None | Err e => Some e end.
Definition plain_chart (c : ChartConfig) : ChartDeployInfo := mkChartInfo c "" "".

Section executor.
Context (m : Manager).
(** [definitionRepo.FindByID] (the ID of the definition) and
    [chartConfigRepo.ListByDefinition]. *)
Context (definitions : nat -> string -> res string).
Context (chartConfigs : nat -> string -> res (list ChartConfig)).

(** The definition and its charts. *)
Definition definitionCharts (inst : StackInstance) : M (res (string * list ChartConfig)) :=
  let! def := external (fun t => definitions t (si_StackDefinitionID inst)) in
  match def with
  | Err e => ret (Err (EWrap "finding definition: " e ""))
  | Ok id =>
      let! charts := external (fun t => chartConfigs t id) in
      ret match charts with
          | Err e => Err (EWrap "listing charts: " e "")
          | Ok charts => Ok (id, charts)
          end
  end.

Definition resolveCharts (inst : StackInstance) : M (res (list ChartConfig)) :=
  let! r := definitionCharts inst in
  ret match r with
      | Err e => Err e
      | Ok (id, []) => Err (ENew ("no charts configured for definition " +:+ id))
      | Ok (_, charts) => Ok charts
      end.

Definition CleanupExecutor_StopInstance (trigger : option Trigger) (inst : StackInstance) : M error :=
  let! charts := resolveCharts inst in
  match charts with
  | Err e => ret (Some e)
  | Ok charts => let! r := StopWithCharts m trigger inst (List.map plain_chart charts) in ret (res_error r)
  end.

Definition CleanupExecutor_CleanInstance (trigger : option Trigger) (inst : StackInstance) : M error :=
  let! charts := resolveCharts inst in
  match charts with
  | Err e => ret (Some e)
  | Ok charts => let! r := Clean m trigger inst (List.map plain_chart charts) in ret (res_error r)
  end.

(** A running instance or one in the middle of an operation is not deleted. *)
Definition undeletable : list string :=
  [StackStatusRunning; StackStatusPartial; StackStatusDeploying; StackStatusStabilizing; StackStatusStopping;
   StackStatusCleaning; StackStatusQueued].
Definition needsClean (status : string) : bool := bool_decide (status ∈ [StackStatusStopped; StackStatusError]).

Definition deleted_message (trigger : option Trigger) (name : string) : string :=
  match trigger with
  | Some t =>
      If bool_decide (tr_Type t = TriggerCleanupPolicy) && negb (empty (tr_Name t)) Return
        "Stack " +:+ name +:+ " has been deleted by cleanup policy " +:+ quote (tr_Name t) ;;
      "Stack " +:+ name +:+ " has been deleted"
  | None => "Stack " +:+ name +:+ " has been deleted"
  end.

Definition afterDelete (trigger : option Trigger) (inst : StackInstance) : M unit :=
  run! when_ (negb (empty (si_ID inst))) (broadcastInstanceDeleted m (si_ID inst) "") in
  run! fireAndForget m EventPostInstanceDelete inst "" [] in
  run! fireAndForget m EventDeleteCompleted inst "" [] in
  let notifyTrigger := match trigger with
                       | Some t => if empty (tr_Type t) then None else Some t
                       | None => None
                       end in
  notifyInstance m inst "instance.deleted" "Stack deleted" (deleted_message trigger (si_Name inst)) notifyTrigger "".

(** A stopped or failed instance is cleaned first; the clean deletes the row. *)
Definition cleanBeforeDelete (trigger : option Trigger) (inst : StackInstance) : M error :=
  let! r := definitionCharts inst in
  match r with
  | Err e => ret (Some e)
  | Ok (_, charts) =>
      let! r := CleanForDelete m trigger inst (List.map plain_chart charts) in
      ret match r with
          | Ok _ => None
          | Err e =>
              If errorsIs e "ErrDeleteConflict" Return
                errorsNew ("cannot delete instance " +:+ si_ID inst +:+ ": another operation started on it") ;;
              Some e
          end
  end.

Definition CleanupExecutor_DeleteInstance (trigger : option Trigger) (inst : StackInstance) : M error :=
  let! ctx := ctxErr in
  match ctx with
  | Some e => ret (Some e)
  | None =>
      If bool_decide (si_Status inst ∈ undeletable) Return
        ret (errorsNew ("cannot delete instance " +:+ si_ID inst +:+ " while status is " +:+ si_Status inst +:+
                        "; stop/clean must complete first")) ;;
      let! hook := fireDeployHook m EventPreInstanceDelete inst "" (mkOpts [] []) no_progress in
      match hook.1 with
      | Some e => ret (errorsNew (UserMessage e EventPreInstanceDelete "delete"))
      | None =>
          If needsClean (si_Status inst) Return cleanBeforeDelete trigger inst ;;
          let! err := deleteInstance m (si_ID inst) in
          match err with
          | Some e => ret (Some e)
          | None => run! afterDelete trigger inst in ret None
          end
      end
  end.

#[global] Instance CleanupExecutor : ActionExecutor := {
  ae_StopInstance := CleanupExecutor_StopInstance;
  ae_CleanInstance := CleanupExecutor_CleanInstance;
  ae_DeleteInstance := CleanupExecutor_DeleteInstance
}.
End executor.

(** ** The run of a policy *)

Definition runScheduled := "scheduled".
Definition runManual := "manual".
Definition maxHookInstances : nat := 200.
Definition maxHookErrorLen : nat := 500.
Definition maxMessageNames : nat := 10.
Definition defaultActionTimeout : Z := 5 * Minute.

Definition CleanupResultSuccess := "success".
Definition CleanupResultError := "error".
Definition CleanupResultDryRun := "dry_run".

(** [joinNames]. *)
Definition joinNames (names : list string) (limit : nat) : string :=
  If (length names <=? limit)%nat Return String.concat ", " names ;;
  String.concat ", " (take limit names) +:+ " and " +:+ itoa (Z.of_nat (length names - limit)) +:+ " more".

(** [hookErrorText]: one line, cut before a UTF-8 character. *)
Fixpoint cutRune (cut : nat) (msg : string) : nat :=
  match cut with
  | O => O
  | S c => match sdrop cut msg with
           | String b _ => if cont b then cutRune c msg else cut
           | EmptyString => cut
           end
  end.
Definition hookErrorText (msg : string) : string :=
  let msg := String.concat " " (Fields msg) in
  If (maxHookErrorLen <? String.length msg)%nat Return stake (cutRune maxHookErrorLen msg) msg +:+ ellipsis ;;
  msg.

Definition policyTrigger (p : CleanupPolicy) : Trigger := mkTrigger TriggerCleanupPolicy (cp_ID p) (cp_Name p).

Definition count_status (status : string) (results : list CleanupResult) : Z :=
  Z.of_nat (length (List.filter (fun r => bool_decide (cr_Status r = status)) results)).

Definition buildPolicyRun (p : CleanupPolicy) (results : list CleanupResult) (dryRun : bool) (run : string)
    : CleanupPolicyRun :=
  mkPolicyRun (cp_ID p) (cp_Name p) (cp_Action p) (cp_ClusterID p) (cp_Condition p) dryRun run
    (Z.of_nat (length results)) (count_status CleanupResultSuccess results) (count_status CleanupResultError results)
    (List.map (fun r => mkPolicyInstance (cr_InstanceID r) (cr_InstanceName r) (cr_Namespace r) (cr_OwnerID r)
                          (cr_Status r) (hookErrorText (cr_Error r)))
       (take maxHookInstances results))
    (maxHookInstances <? length results)%nat.

(** The dependencies of the scheduler; a nil one is [false] or [None]. *)
Record Scheduler := mkScheduler {
  sc_executor : option ActionExecutor;
  sc_audit : bool;
  sc_notifier : bool;
  sc_hooks : option Dispatcher
}.

Section run.
Context (s : Scheduler).

(** [actionTimeout]. *)
Definition actionTimeout (action : string) : Z :=
  If negb (bool_decide (action = "delete")) Return defaultActionTimeout ;;
  If bool_decide (sc_hooks s = None) Return defaultActionTimeout ;;
  Z.max defaultActionTimeout (TotalTimeout (sc_hooks s) EventPreInstanceDelete + Minute)%Z.

Definition listInstances (p : CleanupPolicy) : M (res (list StackInstance)) :=
  If bool_decide (cp_ClusterID p = "all") Return (
    let! r := query (fun _ st => List.map snd (map_to_list (st_instances st))) in
    ret match r with Err e => Err (EWrap "listing instances: " (EDB "list" e) "") | Ok l => Ok l end) ;;
  let! r := query (fun _ st => List.filter (fun i => bool_decide (si_ClusterID i = cp_ClusterID p))
                                 (List.map snd (map_to_list (st_instances st)))) in
  ret match r with Err e => Err (EWrap "finding instances by cluster: " (EDB "find_by_cluster" e) "") | Ok l => Ok l end.

Definition newResult (p : CleanupPolicy) (inst : StackInstance) (status err : string) : CleanupResult :=
  mkCleanup (si_ID inst) (si_Name inst) (si_Namespace inst) (si_OwnerID inst) (cp_Action p) status err.

Definition runAction (ae : ActionExecutor) (p : CleanupPolicy) (inst : StackInstance) : M error :=
  let trigger := Some (policyTrigger p) in
  If bool_decide (cp_Action p = "stop") Return ae_StopInstance trigger inst ;;
  If bool_decide (cp_Action p = "clean") Return ae_CleanInstance trigger inst ;;
  If bool_decide (cp_Action p = "delete") Return ae_DeleteInstance trigger inst ;;
  ret (errorsNew ("unknown cleanup action: " +:+ cp_Action p)).

Definition auditDetails (p : CleanupPolicy) (status : string) : string :=
  json_Marshal (<["policy_id" := cp_ID p]> (<["policy_name" := cp_Name p]>
    (<["action" := cp_Action p]> (<["status" := status]> ∅)))).
Definition createAuditEntry (p : CleanupPolicy) (inst : StackInstance) (status : string) : M unit :=
  If negb (sc_audit s) Return ret tt ;;
  let! st := step in
  when_ (bool_decide (e_fault st = None)) (emit (EvAudit (si_ID inst) (auditDetails p status))).

(** The loop over the listed instances: the results so far and the error of an
    interrupted run. *)
Fixpoint runInstances (filter : InstanceFilter) (p : CleanupPolicy) (dryRun : bool) (instances : list StackInstance)
    (results : list CleanupResult) : M (list CleanupResult * error) :=
  match instances with
  | [] => ret (results, None)
  | inst :: rest =>
      let! ctx := ctxErr in
      match ctx with
      | Some e => ret (results, Some e)
      | None =>
          let! now := clock in
          If negb (matchesAt filter inst now) Return runInstances filter p dryRun rest results ;;
          match sc_executor s with
          | Some ae =>
              If dryRun Return
                runInstances filter p dryRun rest (results ++ [newResult p inst CleanupResultDryRun ""]) ;;
              let! err := runAction ae p inst in
              let! ctx := match err with Some _ => ctxErr | None => ret None end in
              match err, ctx with
              | Some _, Some c => ret (results, Some c)
              | Some e, None =>
                  run! createAuditEntry p inst CleanupResultError in
                  runInstances filter p dryRun rest (results ++ [newResult p inst CleanupResultError (errText e)])
              | None, _ =>
                  run! createAuditEntry p inst CleanupResultSuccess in
                  runInstances filter p dryRun rest (results ++ [newResult p inst CleanupResultSuccess ""])
              end
          | None => runInstances filter p dryRun rest (results ++ [newResult p inst CleanupResultDryRun ""])
          end
      end
  end.

Definition executePolicyWithOptions (p : CleanupPolicy) (dryRun : bool) : M (list CleanupResult * error) :=
  match ParseCondition (cp_Condition p) with
  | Err e => ret ([], Some (EWrap "parsing condition: " e ""))
  | Ok filter =>
      let! r := listInstances p in
      match r with
      | Err e => ret ([], Some e)
      | Ok instances =>
          let! r := runInstances filter p dryRun instances [] in
          ret (r.1, wrap_err "cleanup policy run interrupted: " r.2)
      end
  end.

(** *** After the run *)

Definition affected (results : list CleanupResult) : list CleanupResult :=
  List.filter (fun r => bool_decide (cr_Status r ∈ [CleanupResultSuccess; CleanupResultDryRun])) results.

Definition policyMessage (p : CleanupPolicy) (results : list CleanupResult) : string :=
  let dryRunLabel := if cp_DryRun p then " (dry run)" else "" in
  let names := List.map cr_InstanceName (affected results) in
  let failed := count_status CleanupResultError results in
  "Policy " +:+ quote (cp_Name p) +:+ " matched " +:+ itoa (Z.of_nat (length names)) +:+ " instance(s), action: " +:+
  cp_Action p +:+ dryRunLabel +:+
  (match names with [] => "" | _ => ": " +:+ joinNames names maxMessageNames end) +:+
  (if (0 <? failed)%Z then " (" +:+ itoa failed +:+ " failed)" else "").

Definition notifyPolicyExecuted (p : CleanupPolicy) (results : list CleanupResult) : M unit :=
  when_ (sc_notifier s && negb (is_nil results))
    (emit (EvSystemNotify "cleanup.policy.executed"
             ("Cleanup policy " +:+ quote (cp_Name p) +:+ " ran" +:+ (if cp_DryRun p then " (dry run)" else ""))
             (policyMessage p results) (cp_ID p) (List.map cr_InstanceID (affected results)))).

Definition firePolicyExecuted (p : CleanupPolicy) (results : list CleanupResult) (dryRun : bool) (run : string) : M unit :=
  when_ (bool_decide (is_Some (sc_hooks s)) && negb (is_nil results))
    (emit (EvPolicyRun (policyTrigger p) (buildPolicyRun p results dryRun run))).

(** [policyRepo.FindByID] and [SetLastRunAt], which writes only its column. *)
Context (policies : nat -> string -> res CleanupPolicy).
Definition SetLastRunAt (id : string) (now : time) : M unit :=
  let! st := step in
  when_ (bool_decide (e_fault st = None) || e_lost st) (emit (EvLastRun id now)).

Definition RunPolicy (policyID : string) (dryRun : bool) : M (list CleanupResult * error) :=
  let! r := external (fun t => policies t policyID) in
  match r with
  | Err e => ret ([], Some e)
  | Ok p =>
      let! r := executePolicyWithOptions p dryRun in
      run! when_ (bool_decide (r.2 = None)) (firePolicyExecuted p r.1 dryRun runManual) in
      ret r
  end.

Definition executeScheduledPolicy (policyID : string) : M unit :=
  let! ctx := ctxErr in
  If bool_decide (is_Some ctx) Return ret tt ;;
  let! r := external (fun t => policies t policyID) in
  match r with
  | Err _ => ret tt
  | Ok p =>
      If negb (cp_Enabled p) Return ret tt ;;
      let! r := executePolicyWithOptions p (cp_DryRun p) in
      let! ctx := ctxErr in
      If bool_decide (is_Some ctx) Return ret tt ;;
      let! now := clock in
      run! SetLastRunAt (cp_ID p) now in
      run! notifyPolicyExecuted p r.1 in
      firePolicyExecuted p r.1 (cp_DryRun p) runScheduled
  end.
End run.

(** * What a policy may do *)

(** The statements that start a stop of [inst]: its log and its row, with the
    listed values and the status stopping. *)
Definition stop_start (inst : StackInstance) (op : dbop) : Prop :=
  match op with
  | InsertLog l => dl_StackInstanceID l = si_ID inst /\ dl_Action l = DeployActionStop
  | SaveInstance i =>
      exists now, i = (inst |> si_set_Status StackStatusStopping |> si_set_ErrorMessage "" |> si_set_UpdatedAt now)
  | ClearExpiryWarning id _ => id = si_ID inst
  | _ => False
  end.
(** The conditional start of a clean. *)
Definition clean_start (forDelete : bool) (inst : StackInstance) (op : dbop) : Prop :=
  match op with
  | InsertLog l => dl_StackInstanceID l = si_ID inst /\ dl_Action l = DeployActionClean
  | SetCleaning id from del _ => id = si_ID inst /\ from = CleanStatuses /\ del = forDelete
  | _ => False
  end.
Definition delete_start (inst : StackInstance) (op : dbop) : Prop :=
  (si_Status inst ∉ undeletable) /\
  (if needsClean (si_Status inst) then clean_start true inst op else op = RemoveInstance (si_ID inst)).

(** What the scheduler relies on: an action writes nothing but its start. *)
Class SafeExecutor (ae : ActionExecutor) : Prop := {
  safe_stop Ev t i : (forall e, message e -> Ev e) -> (forall op, stop_start i op -> may_write Ev op) ->
    own Ev (ae_StopInstance t i) (fun _ => True);
  safe_clean Ev t i : (forall e, message e -> Ev e) -> (forall op, clean_start false i op -> may_write Ev op) ->
    own Ev (ae_CleanInstance t i) (fun _ => True);
  safe_delete Ev t i : (forall e, message e -> Ev e) -> (forall op, delete_start i op -> may_write Ev op) ->
    own Ev (ae_DeleteInstance t i) (fun _ => True)
}.

Section executor_safe.
Context (m : Manager) (definitions : nat -> string -> res string).
Context (chartConfigs : nat -> string -> res (list ChartConfig)) (Ev : event -> Prop).
Context (Hmsg : forall e, message e -> Ev e).
Ltac go := own_steps ltac:(solve [apply Hmsg; exact I]).

Lemma own_definitionCharts i : own Ev (definitionCharts definitions chartConfigs i) (fun _ => True).
Proof. unfold definitionCharts. go. Qed.
Hint Resolve own_definitionCharts : own.
Lemma own_resolveCharts i : own Ev (resolveCharts definitions chartConfigs i) (fun _ => True).
Proof. unfold resolveCharts. go. Qed.
Hint Resolve own_resolveCharts : own.

Lemma own_StopWithCharts t i charts :
  (forall op, stop_start i op -> may_write Ev op) -> own Ev (StopWithCharts m t i charts)
    (fun r => forall helm l ordered, r = Ok (helm, l, ordered) -> dl_StackInstanceID l = si_ID i).
Proof.
  intros H. unfold StopWithCharts. eapply own_bind; [apply own_ctxErr|]. intros [e|] _; [by apply own_ret|].
  eapply own_bind; [apply own_isDown|]. intros d _. case_match; [by apply own_ret|].
  case_match; [|by apply own_ret]. case_match. eapply own_bind; [apply own_step|]. intros st _.
  eapply own_bind; [apply own_modMem|]. intros _ _. cbv zeta.
  eapply own_bind; [apply own_createLogAndUpdate|].
  - by apply H.
  - intros now. apply H. by exists now.
  - intros e. by apply H.
  - intros [e|] _; [by apply own_ret|]. eapply (own_bind _ _ _ (fun _ => True)); [go|]. intros _ _.
    eapply (own_bind _ _ _ (fun _ => True)); [go|]. intros _ _. apply own_ret. by intros ??? [= <- <- <-].
Qed.

Lemma own_startClean t i charts d :
  (forall op, clean_start d i op -> may_write Ev op) ->
  own Ev (startClean m t i charts d)
    (fun r => forall helm k8s l ordered, r = Ok (helm, k8s, l, ordered) -> dl_StackInstanceID l = si_ID i).
Proof.
  intros H. unfold startClean. eapply own_bind; [apply own_ctxErr|]. intros [e|] _; [by apply own_ret|].
  eapply own_bind; [apply own_isDown|]. intros dn _. case_match; [by apply own_ret|].
  case_match; [|by apply own_ret]. case_match. eapply own_bind; [apply own_step|]. intros st _.
  eapply own_bind; [apply own_modMem|]. intros _ _. cbv zeta.
  eapply (own_bind _ _ _ (fun _ => True)).
  2: { intros [e|] _; eapply (own_bind _ _ _ (fun _ => True)); [go| |go|]; intros _ _; [by apply own_ret|].
       eapply (own_bind _ _ _ (fun _ => True)); [go|]. intros _ _. apply own_ret. by intros ???? [= <- <- <- <-]. }
  unfold startCleanRows. set (body := bind _ _).
  assert (Hb : own Ev body (fun _ => True)); [|case_match; [by apply own_RunInTx|done]].
  eapply own_bind; [apply own_MarkCleanStart; intros; by apply H|]. intros [e|] _; [by apply own_ret|].
  eapply own_bind; [apply own_log_Create; by apply H|]. intros. by apply own_ret.
Qed.

Lemma own_DeleteInstance t i :
  (forall op, delete_start i op -> may_write Ev op) ->
  own Ev (CleanupExecutor_DeleteInstance m definitions chartConfigs t i) (fun _ => True).
Proof.
  intros H. unfold CleanupExecutor_DeleteInstance.
  eapply own_bind; [apply own_ctxErr|]. intros [e|] _; [by apply own_ret|].
  case_bool_decide as Hs; [by apply own_ret|].
  eapply own_bind; [apply own_fireDeployHook; [done|intros; by apply own_ret]|]. intros r _.
  case_match; [by apply own_ret|]. destruct (needsClean (si_Status i)) eqn:En.
  - unfold cleanBeforeDelete. eapply own_bind; [apply own_definitionCharts|]. intros [[? charts]|e] _; [|by apply own_ret].
    eapply own_bind; [apply own_startClean|]. { intros op Hop. apply H. split; [done|]. by rewrite En. }
    intros. go.
  - eapply own_bind; [apply own_deleteInstance; apply H; split; [done|by rewrite En]|].
    intros [e|] _; [by apply own_ret|]. unfold afterDelete. go.
Qed.
End executor_safe.

#[global] Instance CleanupExecutor_safe m definitions chartConfigs :
  SafeExecutor (CleanupExecutor m definitions chartConfigs).
Proof.
  split; intros Ev t i Hmsg H; cbn.
  - unfold CleanupExecutor_StopInstance. eapply own_bind; [by apply own_resolveCharts|]. intros [charts|e] _; [|by apply own_ret].
    eapply own_bind; [by apply own_StopWithCharts|]. intros. by apply own_ret.
  - unfold CleanupExecutor_CleanInstance. eapply own_bind; [by apply own_resolveCharts|]. intros [charts|e] _; [|by apply own_ret].
    eapply own_bind; [by apply own_startClean|]. intros. by apply own_ret.
  - by apply own_DeleteInstance.
Qed.

Definition action_start (action : string) (inst : StackInstance) (op : dbop) : Prop :=
  If bool_decide (action = "stop") Return stop_start inst op ;;
  If bool_decide (action = "clean") Return clean_start false inst op ;;
  bool_decide (action = "delete") = true /\ delete_start inst op.

(** A row that the policy is for: in its cluster, and matched by its condition
    at some time of the run. *)
Definition targeted (p : CleanupPolicy) (inst : StackInstance) : Prop :=
  (cp_ClusterID p = "all" \/ si_ClusterID inst = cp_ClusterID p) /\
  exists f now, ParseCondition (cp_Condition p) = Ok f /\ matchesAt f inst now = true.

Definition policy_event (p : CleanupPolicy) (dryRun : bool) (e : event) : Prop :=
  match e with
  | EvWrite op _ => dryRun = false /\ exists inst, targeted p inst /\ action_start (cp_Action p) inst op
  | e => message e
  end.

Lemma policy_message p d e : message e -> policy_event p d e.
Proof. by destruct e. Qed.

Lemma own_runAction ae Ev p i :
  SafeExecutor ae -> (forall e, message e -> Ev e) ->
  (forall op, action_start (cp_Action p) i op -> may_write Ev op) -> own Ev (runAction ae p i) (fun _ => True).
Proof.
  intros Hae Hmsg H. unfold runAction, action_start in *.
  case_bool_decide as Ha; [by apply safe_stop|]. case_bool_decide as Hb; [by apply safe_clean|].
  case_bool_decide as Hc; [|by apply own_ret]. apply safe_delete; [done|]. intros op Hop. by apply H.
Qed.

(** The results name listed instances, in the order of the list and once each;
    a dry run has dry results only. *)
Definition results_of (dryRun : bool) (instances : list StackInstance) (acc results : list CleanupResult) : Prop :=
  exists new, results = (acc ++ new)%list /\ List.map cr_InstanceID new `sublist_of` List.map si_ID instances /\
    (dryRun = true -> Forall (fun r => cr_Status r = CleanupResultDryRun) new).

Lemma results_skip d i l acc r : results_of d l acc r -> results_of d (i :: l) acc r.
Proof. intros (new & -> & Hs & Hd). exists new. split_and!; [done| |done]. cbn. by apply sublist_cons. Qed.
Lemma results_cons d i l p acc st e r :
  results_of d l (acc ++ [newResult p i st e])%list r -> (d = true -> st = CleanupResultDryRun) ->
  results_of d (i :: l) acc r.
Proof.
  intros (new & -> & Hs & Hd) Hst. exists (newResult p i st e :: new). split_and!.
  - by rewrite <- app_assoc.
  - cbn. by apply sublist_skip.
  - intros H. constructor; [by apply Hst|by apply Hd].
Qed.
Lemma results_end d l acc : results_of d l acc acc.
Proof. exists []. split_and!; [by rewrite app_nil_r|apply sublist_nil_l|done]. Qed.

Section policy_safe.
Context (s : Scheduler) (p : CleanupPolicy) (f : InstanceFilter) (dryRun : bool).
Context (Hae : forall ae, sc_executor s = Some ae -> SafeExecutor ae).
Context (Hf : ParseCondition (cp_Condition p) = Ok f).

Lemma own_createAuditEntry d i st :
  own (policy_event p d) (createAuditEntry s p i st) (fun _ => True).
Proof. unfold createAuditEntry. own_steps ltac:(done). Qed.

Lemma own_runInstances l : forall acc,
  (forall i, i ∈ l -> cp_ClusterID p = "all" \/ si_ClusterID i = cp_ClusterID p) ->
  own (policy_event p dryRun) (runInstances s f p dryRun l acc)
    (fun r => results_of dryRun l acc r.1).
Proof.
  induction l as [|i l IH]; intros acc Hl; cbn [runInstances]; [apply own_ret, results_end|].
  assert (Hl' : forall i, i ∈ l -> cp_ClusterID p = "all" \/ si_ClusterID i = cp_ClusterID p).
  { intros j Hj. apply Hl. by right. }
  eapply own_bind; [apply own_ctxErr|]. intros [e|] _; [apply own_ret, results_end|].
  eapply own_bind; [apply own_clock|]. intros now _. destruct (negb (matchesAt f i now)) eqn:Em.
  { eapply own_post; [by apply IH|]. intros a. apply results_skip. }
  apply negb_false_iff in Em. destruct (sc_executor s) as [ae|] eqn:Ee.
  - destruct dryRun eqn:Ed.
    { eapply own_post; [by apply IH|]. intros a H. eapply results_cons; [exact H|done]. }
    eapply own_bind; [apply (own_runAction ae); [by apply Hae|apply policy_message|]|].
    { intros op Hop. split; [done|]. exists i. split; [|done]. split; [apply Hl; by left|]. by exists f, now. }
    intros err _. eapply (own_bind _ _ _ (fun _ => True)); [destruct err; [apply own_ctxErr|by apply own_ret]|].
    intros c _. destruct err as [e|]; [destruct c|].
    + apply own_ret, results_end.
    + eapply own_bind; [apply own_createAuditEntry|]. intros _ _.
      eapply own_post; [by apply IH|]. intros a H. eapply results_cons; [exact H|done].
    + eapply own_bind; [apply own_createAuditEntry|]. intros _ _.
      eapply own_post; [by apply IH|]. intros a H. eapply results_cons; [exact H|done].
  - eapply own_post; [by apply IH|]. intros a H. eapply results_cons; [exact H|done].
Qed.
End policy_safe.

Lemma own_listInstances Ev p :
  own Ev (listInstances p) (fun r => forall l, r = Ok l ->
    (forall i, i ∈ l -> cp_ClusterID p = "all" \/ si_ClusterID i = cp_ClusterID p) /\ NoDup (List.map si_ID l)).
Proof.
  assert (Hids : forall s, keyed s -> List.map si_ID (List.map snd (map_to_list (st_instances s))) =
                                      List.map fst (map_to_list (st_instances s))).
  { intros s [_ Hk]. rewrite map_map. apply map_ext_in. intros [k i] Hi. cbn.
    apply (Hk k i). apply elem_of_map_to_list. by apply list_elem_of_In. }
  assert (Hnd : forall s, keyed s -> NoDup (List.map si_ID (List.map snd (map_to_list (st_instances s))))).
  { intros s Hk. rewrite Hids by done. apply NoDup_fst_map_to_list. }
  unfold listInstances. case_bool_decide as Ha.
  - eapply own_bind.
    + apply (own_query _ _ (fun l => NoDup (List.map si_ID l))). intros _ s Hk. by apply Hnd.
    + intros [l|e] Hl; apply own_ret; [|done]. intros ? [= <-]. split; [by left|by apply Hl].
  - eapply own_bind.
    + apply (own_query _ _ (fun l => (forall i, i ∈ l -> si_ClusterID i = cp_ClusterID p) /\ NoDup (List.map si_ID l))).
      intros _ s Hk. split.
      * intros i Hi%list_elem_of_In. apply List.filter_In in Hi as [_ Hi]. by apply bool_decide_eq_true in Hi.
      * specialize (Hnd s Hk). revert Hnd. generalize (List.map snd (map_to_list (st_instances s))). intros l.
        induction l as [|i l IH]; cbn; [done|]. intros [Hi Hl]%NoDup_cons. case_match; [|by apply IH].
        cbn. apply NoDup_cons. split; [|by apply IH]. contradict Hi.
        apply list_elem_of_fmap in Hi as (j & -> & Hj). apply list_elem_of_fmap. exists j. split; [done|].
        apply list_elem_of_In in Hj. apply List.filter_In in Hj as [Hj _]. by apply list_elem_of_In.
    + intros [l|e] Hl; apply own_ret; [|done]. intros ? [= <-].
      destruct (Hl l eq_refl) as [Hc Hn]. split; [|done]. intros i Hi. right. by apply Hc.
Qed.

(** What a run gives: every instance once, and only dry results of a dry run. *)
Definition run_result (dryRun : bool) (r : list CleanupResult * error) : Prop :=
  NoDup (List.map cr_InstanceID r.1) /\ (dryRun = true -> Forall (fun x => cr_Status x = CleanupResultDryRun) r.1).

Lemma own_executePolicy s p dryRun :
  (forall ae, sc_executor s = Some ae -> SafeExecutor ae) ->
  own (policy_event p dryRun) (executePolicyWithOptions s p dryRun) (run_result dryRun).
Proof.
  intros Hae. assert (H0 : forall e, run_result dryRun ([], e)) by (by split; [apply NoDup_nil_2|]).
  unfold executePolicyWithOptions. destruct (ParseCondition (cp_Condition p)) as [f|e] eqn:Ef; [|by apply own_ret].
  eapply own_bind; [apply own_listInstances|]. intros [l|e] Hl; [|by apply own_ret].
  destruct (Hl l eq_refl) as [Hc Hn]. eapply own_bind; [by apply own_runInstances|].
  intros [rs err] (new & E & Hs & Hd). apply own_ret. cbn in *. subst rs. split; [|done].
  by eapply sublist_NoDup.
Qed.

(** A policy run stays inside its footprint, whatever the other processes do
    and whatever fails.  It writes nothing but the start of its own action on rows
    of its cluster that its condition matched: a stop saves the listed row with the
    status stopping, a clean and a delete use the conditional start, and a row is
    removed at once only when it was listed in no operation and with nothing to
    clean.  It acts on an instance at most once, makes no Helm and no Kubernetes call
    of its own, and a dry run writes nothing at all. *)
Theorem policy_footprint m definitions chartConfigs audit notifier hooks p dryRun :
  own (policy_event p dryRun)
    (executePolicyWithOptions
       (mkScheduler (Some (CleanupExecutor m definitions chartConfigs)) audit notifier hooks) p dryRun)
    (run_result dryRun).
Proof. apply own_executePolicy. intros ae [= <-]. apply _. Qed.

(** The events of a scheduled run of the policies that the repository answers. *)
Definition scheduled_event (policies : nat -> string -> res CleanupPolicy) (e : event) : Prop :=
  match e with
  | EvLastRun id _ => exists t i p, policies t i = Ok p /\ cp_ID p = id /\ cp_Enabled p = true
  | e => message e \/ exists t i p, policies t i = Ok p /\ cp_Enabled p = true /\ policy_event p (cp_DryRun p) e
  end.

Lemma own_executeScheduledPolicy s policies id :
  (forall ae, sc_executor s = Some ae -> SafeExecutor ae) ->
  own (scheduled_event policies) (executeScheduledPolicy s policies id) (fun _ => True).
Proof.
  intros Hae. unfold executeScheduledPolicy. eapply own_bind; [apply own_ctxErr|]. intros c _.
  case_match; [by apply own_ret|].
  eapply (own_bind _ _ _ (fun r => forall p, r = Ok p -> exists t, policies t id = Ok p)).
  { intros w Hw. split; [by apply (own_external _ (fun t => policies t id))|]. cbn. intros p Hp. by exists (w_tick w). }
  intros [p|e] Hp; [|by apply own_ret]. destruct (Hp p eq_refl) as [t Ht].
  destruct (cp_Enabled p) eqn:Een; cbn; [|by apply own_ret].
  eapply own_bind; [eapply own_mono; [|by apply (own_executePolicy s p (cp_DryRun p))]|].
  { intros e He. destruct e; try (by right; exists t, id, p); done. }
  intros r _. eapply own_bind; [apply own_ctxErr|]. intros c' _. case_match; [by apply own_ret|].
  eapply own_bind; [apply own_clock|]. intros now _. eapply own_bind.
  { unfold SetLastRunAt. eapply own_bind; [apply own_step|]. intros st _. apply own_when. intros _.
    apply own_emit. by exists t, id, p. }
  intros _ _. eapply own_bind; [apply own_when; intros _; apply own_emit; by left|]. intros _ _.
  apply own_when. intros _. apply own_emit. by left.
Qed.

(** The action timeout of a delete covers the hooks before it. *)
Lemma actionTimeout_delete s :
  (defaultActionTimeout <= actionTimeout s "delete")%Z /\
  (forall d, sc_hooks s = Some d -> TotalTimeout (Some d) EventPreInstanceDelete + Minute <= actionTimeout s "delete")%Z.
Proof.
  unfold actionTimeout. rewrite bool_decide_true by done. cbv [negb].
  case_bool_decide as E; [split; [done|]; congruence|]. split; [apply Z.le_max_l|]. intros d <-. apply Z.le_max_r.
Qed.

(** ** The texts of a run *)

Lemma cutRune_le n msg : (cutRune n msg <= n)%nat.
Proof. induction n as [|n IH]; [done|]. cbn [cutRune]. repeat case_match; lia. Qed.
Lemma hookErrorText_length msg : (String.length (hookErrorText msg) <= maxHookErrorLen + 3)%nat.
Proof.
  unfold hookErrorText. generalize (String.concat " " (Fields msg)). intros t.
  destruct (Nat.ltb_spec maxHookErrorLen (String.length t)) as [E|E]; cbv iota; [|lia].
  rewrite slength_app. pose proof (stake_length (cutRune maxHookErrorLen t) t).
  pose proof (cutRune_le maxHookErrorLen t). change (String.length ellipsis) with 3%nat. lia.
Qed.
