(* ===== verification/Cron.v ===== *)
(** * The schedules of cleanup policies

    The state of the scheduler ([scheduler/scheduler.go]): [activate], [Reload],
    [deactivate] and the catch-up of a missed run.  The cron library is the class
    [Cron]: its operations and what their documentation promises.  The invariant
    [tracks] says that an active scheduler has one job for every loaded policy with a
    valid schedule and no other; it holds after every sequence of operations.  The
    mutex makes every operation one step. *)

From S2P Require Import Prelude Models Store Policies.
Local Open Scope string_scope.

(** ** The cron library *)

Class Cron := {
  cron : Type;
  schedule : Type;
  (** [cron.New], [AddFunc] (the job is the ID of its policy) and [Remove]. *)
  cron_New : cron;
  AddFunc : string -> string -> cron -> option Z * cron;
  cron_Remove : Z -> cron -> cron;
  (** [ParseStandard], a [ConstantDelaySchedule] and [Schedule.Next]; the zero
      time is none. *)
  ParseStandard : string -> option schedule;
  constant_delay : schedule -> bool;
  Next : schedule -> time -> option time;
  (** What the library keeps and means. *)
  entries : cron -> gmap Z (string * string);
  activation : schedule -> time -> Prop;
  entries_New : entries cron_New = ∅;
  AddFunc_spec spec job c :
    match ParseStandard spec with
    | None => (AddFunc spec job c).1 = None /\ entries (AddFunc spec job c).2 = entries c
    | Some _ => exists e, (AddFunc spec job c).1 = Some e /\ entries c !! e = None /\
                  entries (AddFunc spec job c).2 = <[e := (spec, job)]> (entries c)
    end;
  Remove_spec e c : entries (cron_Remove e c) = delete e (entries c);
  Next_spec s t :
    match Next s t with
    | Some u => (t < u)%Z /\ activation s u /\ (forall v, (t < v)%Z -> activation s v -> (u <= v)%Z)
    | None => forall v, (t < v)%Z -> ~ activation s v
    end;
  activation_seconds s t : activation s t -> exists n, t = (n * Second)%Z
}.

Section scheduler.
Context `{Cron}.

(** ** The state and its operations *)

(** [Scheduler]: [ss_cron] is nil when not active. *)
Record SchedulerState := mkState {
  ss_cron : option cron;
  ss_entryMap : gmap string Z;
  ss_loaded : gmap string string
}.
Definition NewScheduler : SchedulerState := mkState None ∅ ∅.
Definition Active (s : SchedulerState) : bool := bool_decide (is_Some (ss_cron s)).

(** One turn of [loadLocked] with [schedulePolicy]. *)
Definition schedulePolicy (c : cron) (em : gmap string Z) (p : CleanupPolicy) : cron * gmap string Z :=
  let '(e, c) := AddFunc (cp_Schedule p) (cp_ID p) c in
  match e with
  | Some e => (c, <[cp_ID p := e]> em)
  | None => (c, em)
  end.
Definition load_one (x : cron * gmap string Z * gmap string string) (p : CleanupPolicy)
    : cron * gmap string Z * gmap string string :=
  (schedulePolicy x.1.1 x.1.2 p, <[cp_ID p := cp_Schedule p]> x.2).
Definition loadLocked (c : cron) (em : gmap string Z) (policies : list CleanupPolicy) : SchedulerState :=
  let x := fold_left load_one policies (c, em, ∅) in
  mkState (Some x.1.1) x.1.2 x.2.

Definition sameSchedulesLocked (s : SchedulerState) (policies : list CleanupPolicy) : bool :=
  (length policies =? size (ss_loaded s))%nat &&
  forallb (fun p => bool_decide (ss_loaded s !! cp_ID p = Some (cp_Schedule p))) policies.

(** The state of [activate]; the catch-up is below. *)
Definition activate (listed : res (list CleanupPolicy)) (s : SchedulerState) : error * SchedulerState :=
  If Active s Return (None, s) ;;
  match listed with
  | Err e => (Some (EWrap "loading policies: " e ""), s)
  | Ok policies => (None, loadLocked cron_New (ss_entryMap s) policies)
  end.

Definition deactivate (s : SchedulerState) : SchedulerState :=
  If negb (Active s) Return s ;;
  mkState None ∅ ∅.

(** The removal of all entries in the loop over [entryMap]. *)
Definition removeAll (c : cron) (em : gmap string Z) : cron :=
  fold_left (fun c p => cron_Remove p.2 c) (map_to_list em) c.

Definition Reload (listed : res (list CleanupPolicy)) (s : SchedulerState) : error * SchedulerState :=
  match ss_cron s with
  | None => (None, s)
  | Some c =>
      match listed with
      | Err e => (Some (EWrap "reloading policies: " e ""), s)
      | Ok policies =>
          If sameSchedulesLocked s policies Return (None, s) ;;
          (None, loadLocked (removeAll c (ss_entryMap s)) ∅ policies)
      end
  end.

(** ** Catch-up *)

Definition catchUpWindow : Z := 5 * Minute.

(** The loop of [previousScheduledTime]; [fuel] bounds its turns. *)
Fixpoint lastBefore (fuel : nat) (s : schedule) (t : option time) (now : time) (prev : option time) : option time :=
  match fuel, t with
  | S fuel, Some t => If negb (t <? now)%Z Return prev ;; lastBefore fuel s (Next s t) now (Some t)
  | _, _ => prev
  end.
(** The window has 300 seconds. *)
Definition window_fuel : nat := 301.

Definition previousScheduledTime (spec : string) (now : time) : option time :=
  match ParseStandard spec with
  | None => None
  | Some s =>
      If constant_delay s Return None ;;
      lastBefore window_fuel s (Next s (now - catchUpWindow)) now None
  end.

(** The policies that [catchUpLocked] runs. *)
Definition missed (em : gmap string Z) (now : time) (p : CleanupPolicy) : bool :=
  bool_decide (is_Some (em !! cp_ID p)) &&
  match previousScheduledTime (cp_Schedule p) now with
  | None => false
  | Some prev => (default (cp_CreatedAt p) (cp_LastRunAt p) <? prev)%Z
  end.
Definition catchUpLocked (em : gmap string Z) (now : time) (policies : list CleanupPolicy) : list CleanupPolicy :=
  List.filter (missed em now) policies.

(** * Theorems *)

Definition policies_map (policies : list CleanupPolicy) : gmap string string :=
  list_to_map (List.map (fun p => (cp_ID p, cp_Schedule p)) policies).
Definition unique_ids (policies : list CleanupPolicy) : Prop := NoDup (List.map cp_ID policies).

(** One job for every loaded policy whose schedule parses, and no other. *)
Record jobs_ok (c : cron) (em : gmap string Z) (loaded : gmap string string) : Prop := {
  jo_entries e spec id : entries c !! e = Some (spec, id) <-> em !! id = Some e /\ loaded !! id = Some spec;
  jo_valid id : is_Some (em !! id) <-> exists spec, loaded !! id = Some spec /\ is_Some (ParseStandard spec)
}.
Definition tracks (s : SchedulerState) : Prop :=
  match ss_cron s with
  | None => ss_entryMap s = ∅ /\ ss_loaded s = ∅
  | Some c => jobs_ok c (ss_entryMap s) (ss_loaded s)
  end.

Lemma jobs_ok_empty c : entries c = ∅ -> jobs_ok c ∅ ∅.
Proof.
  intros Ec. split.
  - intros e spec id. rewrite Ec, !lookup_empty. naive_solver.
  - intros id. rewrite lookup_empty. split; [by intros []|]. intros (? & E & _). by rewrite lookup_empty in E.
Qed.

Lemma load_one_ok c em loaded p :
  loaded !! cp_ID p = None -> jobs_ok c em loaded ->
  let x := load_one (c, em, loaded) p in jobs_ok x.1.1 x.1.2 x.2.
Proof.
  intros Hn [He Hv]. assert (Hem : em !! cp_ID p = None).
  { destruct (em !! cp_ID p) eqn:E; [|done]. destruct (proj1 (Hv (cp_ID p))) as (? & E' & _); [by eexists|]. congruence. }
  cbn. unfold schedulePolicy. pose proof (AddFunc_spec (cp_Schedule p) (cp_ID p) c) as Ha.
  destruct (AddFunc (cp_Schedule p) (cp_ID p) c) as [r c']. cbn [fst snd] in Ha.
  destruct (ParseStandard (cp_Schedule p)) as [s|] eqn:Ep.
  - destruct Ha as (e & -> & Hfresh & Ec). cbn. split.
    + intros e' spec id. rewrite Ec. destruct (decide (id = cp_ID p)) as [->|Hid].
      * rewrite !lookup_insert_eq. destruct (decide (e' = e)) as [->|Hne]; [rewrite lookup_insert_eq; naive_solver|].
        rewrite lookup_insert_ne, He, Hem by done. naive_solver.
      * rewrite !(lookup_insert_ne _ (cp_ID p)) by done. destruct (decide (e' = e)) as [->|Hne].
        -- rewrite lookup_insert_eq. split; [naive_solver|]. intros Hx. apply He in Hx. congruence.
        -- by rewrite lookup_insert_ne.
    + intros id. destruct (decide (id = cp_ID p)) as [->|Hid]; [|by rewrite !lookup_insert_ne by done].
      rewrite !lookup_insert_eq. naive_solver.
  - destruct Ha as [-> Ec]. cbn. split.
    + intros e' spec id. rewrite Ec, He. destruct (decide (id = cp_ID p)) as [->|Hid]; [rewrite Hem|by rewrite lookup_insert_ne].
      naive_solver.
    + intros id. destruct (decide (id = cp_ID p)) as [->|Hid]; [|by rewrite !lookup_insert_ne by done].
      rewrite Hem, lookup_insert_eq. split; [by intros []|]. intros (? & [= <-] & Hs). rewrite Ep in Hs. by destruct Hs.
Qed.

Lemma loadLocked_fold policies : forall c em loaded,
  unique_ids policies -> (forall p, p ∈ policies -> loaded !! cp_ID p = None) -> jobs_ok c em loaded ->
  let x := fold_left load_one policies (c, em, loaded) in
  jobs_ok x.1.1 x.1.2 x.2 /\ x.2 = policies_map policies ∪ loaded.
Proof.
  induction policies as [|p ps IH]; intros c em loaded Hu Hn Hok; cbv zeta.
  { cbn. split; [done|]. by rewrite (left_id_L ∅ (∪)). }
  unfold unique_ids in Hu. cbn [List.map] in Hu. apply NoDup_cons in Hu as [Hp Hu]. cbn [fold_left].
  pose proof (load_one_ok c em loaded p (Hn p ltac:(by left)) Hok) as H1. cbv zeta in H1.
  destruct (load_one (c, em, loaded) p) as [[c' em'] loaded'] eqn:El. cbn [fst snd] in H1.
  assert (El' : loaded' = <[cp_ID p := cp_Schedule p]> loaded) by (unfold load_one in El; cbn in El; congruence).
  destruct (IH c' em' loaded') as [H2 E2]; [done| |done|].
  { intros q Hq. rewrite El'. rewrite lookup_insert_ne; [apply Hn; by right|].
    intros E. apply Hp. rewrite E. apply list_elem_of_fmap. by exists q. }
  split; [done|]. rewrite E2, El'. cbn. rewrite <- insert_union_l, insert_union_r; [done|].
  apply not_elem_of_list_to_map_1. contradict Hp. rewrite <- list_fmap_compose in Hp. done.
Qed.

Lemma loadLocked_tracks c policies :
  entries c = ∅ -> unique_ids policies ->
  tracks (loadLocked c ∅ policies) /\ ss_loaded (loadLocked c ∅ policies) = policies_map policies.
Proof.
  intros Hc Hu. destruct (loadLocked_fold policies c ∅ ∅ Hu) as [H1 H2]; [done|by apply jobs_ok_empty|].
  split; [done|]. cbn. by rewrite H2, (right_id_L ∅ (∪)).
Qed.

Lemma remove_each (l : list (string * Z)) : forall c e x,
  entries (fold_left (fun c p => cron_Remove p.2 c) l c) !! e = Some x <->
  entries c !! e = Some x /\ e ∉ List.map snd l.
Proof.
  induction l as [|[k e'] l IH]; intros c e x; [cbn; split; [intros; split; [done|apply not_elem_of_nil]|tauto]|].
  cbn [fold_left List.map]. rewrite IH, Remove_spec, lookup_delete_Some, not_elem_of_cons. cbn. naive_solver.
Qed.

Lemma removeAll_entries em c loaded : jobs_ok c em loaded -> entries (removeAll c em) = ∅.
Proof.
  intros [He _]. apply map_eq. intros e. rewrite lookup_empty. apply eq_None_not_Some. intros [[spec id] Hx].
  apply remove_each in Hx as [Hx Hout]. apply He in Hx as [Hx _]. apply Hout. apply list_elem_of_fmap.
  exists (id, e). split; [done|]. by apply elem_of_map_to_list.
Qed.

Lemma schedule_ids policies : (List.map (fun p => (cp_ID p, cp_Schedule p)) policies).*1 = List.map cp_ID policies.
Proof. induction policies as [|p l IH]; [done|]. cbn. by f_equal. Qed.

(** An unchanged list is recognised: the loaded map is the map of the list. *)
Lemma same_schedules s policies :
  unique_ids policies -> sameSchedulesLocked s policies = true <-> ss_loaded s = policies_map policies.
Proof.
  intros Hu. unfold sameSchedulesLocked. rewrite andb_true_iff, Nat.eqb_eq, List.forallb_forall.
  assert (Hin : forall p, p ∈ policies -> policies_map policies !! cp_ID p = Some (cp_Schedule p)).
  { intros p Hp. apply elem_of_list_to_map_1; [by rewrite schedule_ids|]. apply list_elem_of_fmap. by exists p. }
  assert (Hsize : size (policies_map policies) = length policies).
  { unfold policies_map. rewrite <- size_dom, dom_list_to_map_L, size_list_to_set by (by rewrite schedule_ids).
    by rewrite !length_fmap. }
  split.
  - intros [Hl Ha]. symmetry. apply map_subseteq_size_eq; [|by rewrite Hsize, Hl].
    apply map_subseteq_spec. intros id spec E. apply elem_of_list_to_map_2, list_elem_of_fmap in E as (p & [= -> ->] & Hp).
    apply list_elem_of_In, Ha in Hp. by apply bool_decide_eq_true in Hp.
  - intros ->. split; [by rewrite Hsize|]. intros p Hp. apply bool_decide_eq_true, Hin. by apply list_elem_of_In.
Qed.

(** ** Sequences of operations *)

Inductive sched_op :=
| OpActivate (listed : res (list CleanupPolicy))
| OpReload (listed : res (list CleanupPolicy))
| OpDeactivate.

Definition sched_run (s : SchedulerState) (op : sched_op) : SchedulerState :=
  match op with
  | OpActivate l => (activate l s).2
  | OpReload l => (Reload l s).2
  | OpDeactivate => deactivate s
  end.

(** The IDs are the primary key of the table. *)
Definition op_unique (op : sched_op) : Prop :=
  match op with
  | OpActivate (Ok l) | OpReload (Ok l) => unique_ids l
  | _ => True
  end.

(** The list that an active scheduler read last. *)
Definition last_list (cur : option (list CleanupPolicy)) (op : sched_op) : option (list CleanupPolicy) :=
  match op, cur with
  | OpActivate (Ok l), None => Some l
  | OpReload (Ok l), Some _ => Some l
  | OpDeactivate, _ => None
  | _, _ => cur
  end.

Definition follows (s : SchedulerState) (cur : option (list CleanupPolicy)) : Prop :=
  tracks s /\
  match cur with
  | None => ss_cron s = None
  | Some l => is_Some (ss_cron s) /\ ss_loaded s = policies_map l /\ unique_ids l
  end.

Lemma follows_step s cur op : op_unique op -> follows s cur -> follows (sched_run s op) (last_list cur op).
Proof.
  intros Hu [Ht Hc]. destruct op as [[l|e]|[l|e]|]; cbn in Hu.
  - unfold sched_run, activate, Active. destruct cur as [l0|].
    + destruct Hc as (Hs & Hl & ?). rewrite bool_decide_true by done. cbn. done.
    + rewrite Hc. cbn. unfold tracks in Ht. rewrite Hc in Ht. destruct Ht as [-> _].
      destruct (loadLocked_tracks cron_New l entries_New Hu) as [H1 H2]. split; [done|].
      split; [by eexists|done].
  - assert (E : sched_run s (OpActivate (Err e)) = s) by (unfold sched_run, activate; by destruct (Active s)). rewrite E. by destruct cur.
  - unfold sched_run, Reload. destruct cur as [l0|].
    + destruct Hc as ([c Hs] & Hl & ?). unfold tracks in Ht. rewrite Hs in Ht |- *. cbn.
      destruct (sameSchedulesLocked s l) eqn:E; cbn.
      * apply same_schedules in E; [|done]. split; [unfold tracks; by rewrite Hs|]. split; [by eexists|done].
      * destruct (loadLocked_tracks (removeAll c (ss_entryMap s)) l) as [H1 H2]; [by eapply removeAll_entries|done|].
        split; [done|]. split; [by eexists|done].
    + rewrite Hc. by split.
  - assert (E : sched_run s (OpReload (Err e)) = s) by (unfold sched_run, Reload; by destruct (ss_cron s)). rewrite E. by destruct cur.
  - assert (E : ss_cron (deactivate s) = None /\ tracks (deactivate s)); [|split; [apply E|by destruct cur, E]].
    unfold deactivate, Active. destruct (ss_cron s) as [c|] eqn:Es; cbn; [done|]. done.
Qed.

Lemma follows_run ops : forall s cur,
  Forall op_unique ops -> follows s cur -> follows (fold_left sched_run ops s) (fold_left last_list ops cur).
Proof.
  induction ops as [|op ops IH]; intros s cur Hu Hf; [done|]. apply Forall_cons in Hu as [Hu Hs].
  cbn. apply IH; [done|]. by apply follows_step.
Qed.

(** C13. The jobs of the scheduler are those of the policies.  After any sequence
    of activations, reloads (failed ones too) and deactivations, the scheduler is
    active exactly when its last change was an activation, and then its cron
    instance has exactly one job for every policy of the last list that was read
    whose schedule parses, with that schedule, and no other job; so a reload that
    skips an unchanged list and one that rebuilds all entries come to the same. *)
Theorem jobs_follow_policies ops :
  Forall op_unique ops ->
  let s := fold_left sched_run ops NewScheduler in
  match fold_left last_list ops None with
  | None => ss_cron s = None
  | Some policies => exists c, ss_cron s = Some c /\
      (forall spec id, (exists e, entries c !! e = Some (spec, id)) <->
         exists p, p ∈ policies /\ cp_ID p = id /\ cp_Schedule p = spec /\ is_Some (ParseStandard spec)) /\
      (forall e e' x x', entries c !! e = Some x -> entries c !! e' = Some x' -> x.2 = x'.2 -> e = e')
  end.
Proof.
  intros Hu. cbv zeta. destruct (follows_run ops NewScheduler None Hu) as [Ht Hc]; [by split|].
  destruct (fold_left last_list ops None) as [l|]; [|done]. destruct Hc as ([c Hs] & Hl & Hn).
  exists c. split; [done|]. unfold tracks in Ht. rewrite Hs, Hl in Ht. destruct Ht as [He Hv]. split.
  - assert (Hm : forall id spec, policies_map l !! id = Some spec <->
                   exists p, p ∈ l /\ cp_ID p = id /\ cp_Schedule p = spec).
    { intros id spec. unfold policies_map. rewrite <- elem_of_list_to_map.
      - rewrite list_elem_of_fmap. naive_solver.
      - by rewrite schedule_ids. }
    intros spec id. setoid_rewrite He. split.
    + intros (e & E1 & E2). destruct (proj1 (Hv id)) as (spec' & E3 & Hp); [by eexists|].
      assert (spec' = spec) as -> by congruence. apply Hm in E2 as (p & ? & ? & ?). eauto 10.
    + intros (p & Hp & Hid & Hsp & Hv'). assert (E : policies_map l !! id = Some spec) by (apply Hm; eauto).
      destruct (proj2 (Hv id)) as [e Ee]; [by exists spec|]. by exists e.
  - intros e e' [spec id] [spec' id'] H1%He H2%He Heq. cbn in Heq. subst id'. destruct H1, H2. congruence.
Qed.

(** ** The catch-up of a missed run *)

Lemma lastBefore_spec fuel s now : forall t prev,
  activation s t -> (now - t <= Z.of_nat fuel * Second)%Z ->
  ((now <= t)%Z -> lastBefore fuel s (Some t) now prev = prev) /\
  ((t < now)%Z -> exists r, lastBefore fuel s (Some t) now prev = Some r /\ (t <= r < now)%Z /\ activation s r /\
                    forall v, activation s v -> (v < now)%Z -> (v <= r)%Z).
Proof.
  induction fuel as [|fuel IH]; intros t prev Ht Hf; cbn [lastBefore]; [split; [done|lia]|].
  split; [intros Hl; by rewrite (proj2 (Z.ltb_ge t now))|]. intros Hl. rewrite (proj2 (Z.ltb_lt t now)) by done. cbv [negb].
  pose proof (Next_spec s t) as Hn. destruct (Next s t) as [u|].
  - destruct Hn as (Hu & Hau & Hmin). assert (Hs : (t + Second <= u)%Z).
    { destruct (activation_seconds s t Ht) as [a ->], (activation_seconds s u Hau) as [b ->]. unfold Second in *. nia. }
    destruct (IH u (Some t) Hau) as [H1 H2]; [unfold Second in *; lia|].
    destruct (Z_lt_le_dec u now) as [Hun|Hun].
    + destruct (H2 Hun) as (r & E & ? & ? & ?). exists r. split_and!; try done; lia.
    + exists t. rewrite H1 by done. split_and!; try done; try lia. intros v Hv Hvn.
      destruct (Z_lt_le_dec t v) as [Htv|]; [|done]. pose proof (Hmin v Htv Hv). lia.
  - exists t. split_and!; try done; try lia; [by destruct fuel|]. intros v Hv Hvn.
    destruct (Z_lt_le_dec t v) as [Htv|]; [|done]. by destruct (Hn v Htv).
Qed.

(** An activation of the schedule inside the window. *)
Definition due (spec : string) (now v : time) : Prop :=
  exists s, ParseStandard spec = Some s /\ constant_delay s = false /\ activation s v /\
    (now - catchUpWindow < v < now)%Z.

Lemma previous_spec spec now :
  match previousScheduledTime spec now with
  | Some r => due spec now r /\ forall v, due spec now v -> (v <= r)%Z
  | None => forall v, ~ due spec now v
  end.
Proof.
  unfold previousScheduledTime, due. destruct (ParseStandard spec) as [s|]; [|by intros v (? & ? & _)].
  destruct (constant_delay s) eqn:Ec; [intros v (? & [= <-] & ? & _); congruence|].
  pose proof (Next_spec s (now - catchUpWindow)) as Hn. destruct (Next s (now - catchUpWindow)) as [u|].
  - destruct Hn as (Hu & Ha & Hmin). assert (HS : (0 < Second)%Z) by done.
    destruct (lastBefore_spec window_fuel s now u None Ha) as [H1 H2].
    { change catchUpWindow with (300 * Second)%Z in Hu. change (Z.of_nat window_fuel) with 301%Z. lia. }
    destruct (Z_lt_le_dec u now) as [Hun|Hun].
    + destruct (H2 Hun) as (r & -> & ? & ? & Hr). split; [exists s; split_and!; try done; lia|].
      intros v (? & [= <-] & _ & Hv & _ & ?). by apply Hr.
    + rewrite H1 by done. intros v (? & [= <-] & _ & Hv & ? & ?). pose proof (Hmin v ltac:(lia) Hv). lia.
  - intros v (? & [= <-] & _ & Hv & ? & ?). by apply (Hn v).
Qed.

(** The catch-up after a leader change runs exactly the missed policies: those
    with a job, a schedule with fixed times, and a scheduled time in the last five
    minutes that is after their last run (their creation when they never ran).  The
    walk over the scheduled times ends within the 300 seconds of the window. *)
Theorem catch_up_missed em now policies p :
  p ∈ catchUpLocked em now policies <->
  p ∈ policies /\ is_Some (em !! cp_ID p) /\
  exists v, due (cp_Schedule p) now v /\ (default (cp_CreatedAt p) (cp_LastRunAt p) < v)%Z.
Proof.
  unfold catchUpLocked. rewrite !list_elem_of_In, List.filter_In. unfold missed.
  rewrite andb_true_iff, bool_decide_eq_true. pose proof (previous_spec (cp_Schedule p) now) as Hp.
  destruct (previousScheduledTime (cp_Schedule p) now) as [r|].
  - destruct Hp as [Hr Hmax]. rewrite Z.ltb_lt. split; [naive_solver|].
    intros (? & ? & v & Hv & ?). split_and!; try done. specialize (Hmax v Hv). lia.
  - split; [naive_solver|]. intros (_ & _ & v & Hv & _). by destruct (Hp v).
Qed.
End scheduler.

(** ** A cron library with one schedule *)

Definition every_minute : string := "* * * * *".
#[local] Program Instance minute_cron : Cron := {
  cron := Z * gmap Z (string * string);
  schedule := unit;
  cron_New := (1%Z, ∅);
  AddFunc spec job c :=
    if bool_decide (spec = every_minute)
    then let e := fresh (dom c.2) in (Some e, (e, <[e := (spec, job)]> c.2)) else (None, c);
  cron_Remove e c := (c.1, delete e c.2);
  ParseStandard spec := if bool_decide (spec = every_minute) then Some tt else None;
  constant_delay _ := false;
  Next _ t := Some ((t / Minute + 1) * Minute)%Z;
  entries c := c.2;
  activation _ t := exists n, t = (n * Minute)%Z
}.
Next Obligation. done. Qed.
Next Obligation.
  intros spec job c. cbn. case_bool_decide; cbn; [|done]. eexists. split; [done|]. split; [|done].
  apply not_elem_of_dom, is_fresh.
Qed.
Next Obligation. done. Qed.
Next Obligation.
  intros ? t. cbn. pose proof (Z.div_mod t Minute ltac:(done)). pose proof (Z.mod_pos_bound t Minute ltac:(done)).
  split_and!; [lia|by eexists|]. intros v Hv [n ->]. apply Z.mul_le_mono_nonneg_r; [done|].
  assert (t / Minute < n)%Z; [|lia]. apply Z.div_lt_upper_bound; [done|lia].
Qed.
Next Obligation. intros ? t [n ->]. exists (n * 60)%Z. unfold Minute. lia. Qed.

Definition sample_policy (id schedule : string) : CleanupPolicy :=
  mkPolicy id "nightly" "all" "stop" "idle_days:7" schedule true false 0 None.

Lemma jobs_follow_policies_witness :
  let ops := [OpActivate (Ok [sample_policy "p1" every_minute]); OpReload (Err (ENew "down"));
              OpReload (Ok [sample_policy "p2" every_minute; sample_policy "p3" "bad"])] in
  let s := fold_left sched_run ops NewScheduler in
  Forall op_unique ops /\
  exists c, ss_cron s = Some c /\ exists e, entries c !! e = Some (every_minute, "p2").
Proof.
  set (ops := [_; _; _]). cbv zeta. assert (Hu : Forall op_unique ops).
  { repeat constructor; cbn; unfold unique_ids; cbn; apply (bool_decide_eq_true _); by vm_compute. }
  split; [done|]. destruct (jobs_follow_policies ops Hu) as (c & Hc & He & _).
  exists c. split; [done|]. apply He. exists (sample_policy "p2" every_minute). split; [by left|]. split; [done|]. split; [done|]. by eexists.
Defined.

(** The run of the last full minute was missed. *)
Lemma catch_up_missed_witness :
  sample_policy "p1" every_minute ∈
    catchUpLocked {["p1" := 1%Z]} (600 * Second + 1)%Z [sample_policy "p1" every_minute; sample_policy "p2" every_minute].
Proof.
  apply (catch_up_missed {["p1" := 1%Z]} (600 * Second + 1)%Z).
  split; [by left|]. split; [by eexists|]. exists (600 * Second)%Z. split; [|reflexivity].
  exists tt. split; [reflexivity|]. split; [reflexivity|]. split; [by exists 10%Z|]. by vm_compute.
Defined.
