(* ===== verification/Expiry.v ===== *)
(** * Expiry of stacks

    The reaper and the warner of [ttl/reaper.go] and [ttl/warner.go], one cycle each
    (the tickers of [Run] are left out), with the queries [ListExpired] and
    [ListExpiringSoon] and the stop of [deployer/expiry_stopper.go] behind the
    interface [InstanceStopper].  The theorems: what the reaper may write, and that
    replicas which run the warner at the same time send one warning for an expiry. *)

From S2P Require Import Prelude Models Store Hooks World Output Manager Ends Calm Deploy Teardown Durations Conditions Policies.
Local Open Scope string_scope.

Definition TriggerTTL := "ttl".
Definition ttl_trigger : option Trigger := Some (mkTrigger TriggerTTL "" "").

(** ** The queries *)

(** Running or partial, with an expiry. *)
Definition expiry_of (i : StackInstance) : option time :=
  if up (si_Status i) then si_ExpiresAt i else None.
Definition expired (now : time) (i : StackInstance) : bool :=
  match expiry_of i with Some e => (e <? now)%Z | None => false end.
Definition expiring_soon (now threshold : time) (i : StackInstance) : bool :=
  match expiry_of i with
  | Some e => (now <? e)%Z && (e <=? now + threshold)%Z && bool_decide (si_ExpiryWarnedAt i = None)
  | None => false
  end.

Definition ListExpired : M (res (list StackInstance)) :=
  let! now := clock in
  let! r := query (fun _ s => List.filter (expired now) (List.map snd (map_to_list (st_instances s)))) in
  ret match r with Err e => Err (EDB "list_expired" e) | Ok l => Ok l end.
Definition ListExpiringSoon (threshold : Z) : M (res (list StackInstance)) :=
  let! now := clock in
  let! r := query (fun _ s => sort_by (fun i => default 0%Z (si_ExpiresAt i))
              (List.filter (expiring_soon now threshold) (List.map snd (map_to_list (st_instances s))))) in
  ret match r with Err e => Err (EDB "list_expiring_soon" e) | Ok l => Ok l end.

(** ** The reaper *)

Class InstanceStopper := { is_StopInstance : StackInstance -> M error }.

(** [ExpiryStopper.StopInstance]; the charts are read as by [resolveCharts]. *)
Definition ExpiryStopper_StopInstance (m : Manager) (definitions : nat -> string -> res string)
    (chartConfigs : nat -> string -> res (list ChartConfig)) (inst : StackInstance) : M error :=
  let! charts := resolveCharts definitions chartConfigs inst in
  match charts with
  | Err e => ret (Some e)
  | Ok charts => let! r := StopWithCharts m ttl_trigger inst (List.map plain_chart charts) in ret (res_error r)
  end.
#[global] Instance ExpiryStopper m definitions chartConfigs : InstanceStopper := {
  is_StopInstance := ExpiryStopper_StopInstance m definitions chartConfigs
}.

(** [Reaper]; a nil dependency is [false] or [None]. *)
Record Reaper := mkReaper { re_audit : bool; re_hub : bool; re_notifier : bool; re_stopper : option InstanceStopper }.

Section reaper.
Context (r : Reaper).

Definition expiredMessage (inst : StackInstance) (outcome : string) : string :=
  let cause := if (si_TTLMinutes inst =? 0)%Z then "reached its stop time" else "expired after its TTL" in
  "Stack " +:+ quote (si_Name inst) +:+ " " +:+ cause +:+ " and " +:+ outcome.
Definition notifyExpired (inst : StackInstance) (outcome : string) : M unit :=
  when_ (re_notifier r)
    (emit (EvNotify (si_ID inst) "stack.expired" "Stack expired" (expiredMessage inst outcome) ttl_trigger "")).

Definition logExpiry (inst : StackInstance) : M unit :=
  run! (If negb (re_audit r) Return ret tt ;;
        let! st := step in
        when_ (bool_decide (e_fault st = None)) (emit (EvAudit (si_ID inst) "Instance expired after TTL"))) in
  when_ (re_hub r) (emit (EvExpired (si_ID inst))).

(** The stop by the stopper: started, the end of the cycle, or neither. *)
Inductive stop_outcome := StopStarted | CycleEnded | NotStopped.
Definition tryStop (inst : StackInstance) : M stop_outcome :=
  match re_stopper r with
  | None => ret NotStopped
  | Some st =>
      let! err := is_StopInstance inst in
      If bool_decide (err = None) Return ret StopStarted ;;
      let! ctx := ctxErr in
      ret (if bool_decide (is_Some ctx) then CycleEnded else NotStopped)
  end.

(** The row that the reaper saves when no stop could start: the listed row. *)
Definition expired_row (now : time) (inst : StackInstance) : StackInstance :=
  inst |> si_set_Status StackStatusStopped |> si_set_ErrorMessage "Expired (TTL)" |> si_set_StoppedAt (Some now)
       |> si_set_UpdatedAt now.

Fixpoint reapAll (expired : list StackInstance) : M unit :=
  match expired with
  | [] => ret tt
  | inst :: rest =>
      let! ctx := ctxErr in
      If bool_decide (is_Some ctx) Return ret tt ;;
      let! outcome := tryStop inst in
      match outcome with
      | CycleEnded => ret tt
      | StopStarted =>
          run! logExpiry inst in
          run! notifyExpired inst "is being stopped" in
          reapAll rest
      | NotStopped =>
          let! now := clock in
          let! err := instance_Update (expired_row now inst) in
          If bool_decide (is_Some err) Return reapAll rest ;;
          run! logExpiry inst in
          run! notifyExpired inst "was stopped" in
          reapAll rest
      end
  end.

Definition processExpired : M unit :=
  let! l := ListExpired in
  match l with
  | Err _ => ret tt
  | Ok l => reapAll l
  end.
End reaper.

(** ** The warner *)

Definition expiring := "stack.expiring".

Definition warnOne (inst : StackInstance) : M unit :=
  match si_ExpiresAt inst with
  | None => ret tt
  | Some e =>
      let! now := clock in
      let! marked := MarkExpiryWarned (si_ID inst) e now in
      match marked with
      | Ok true =>
          let! now := clock in
          let remaining := Sub e now in
          emit (EvNotify (si_ID inst) expiring "Stack expiring soon"
                  ("Stack " +:+ quote (si_Name inst) +:+ " will expire in " +:+
                   Duration_String (Z.quot remaining Minute * Minute)) None "")
      | _ => ret tt
      end
  end.

Definition check (threshold : Z) : M unit :=
  let! r := ListExpiringSoon threshold in
  match r with
  | Err _ => ret tt
  | Ok instances => forEach instances warnOne
  end.

(** * Theorems *)

(** What the scheduler and the reaper ask of a stopper. *)
Class SafeStopper (st : InstanceStopper) : Prop := {
  safe_is_stop Ev i : (forall e, message e -> Ev e) -> (forall op, stop_start i op -> may_write Ev op) ->
    own Ev (is_StopInstance i) (fun _ => True)
}.
#[global] Instance ExpiryStopper_safe m definitions chartConfigs : SafeStopper (ExpiryStopper m definitions chartConfigs).
Proof.
  split. intros Ev i Hmsg H. cbn. unfold ExpiryStopper_StopInstance.
  eapply own_bind; [by apply own_resolveCharts|]. intros [charts|e] _; [|by apply own_ret].
  eapply own_bind; [by apply own_StopWithCharts|]. intros. by apply own_ret.
Qed.

(** The start of a stop or the row that the reaper saves, for a listed row. *)
Definition reaper_event (e : event) : Prop :=
  match e with
  | EvWrite op _ => exists inst now, expired now inst = true /\
      (stop_start inst op \/
       match op with
       | SaveInstance i => exists n u, i = si_set_UpdatedAt u (expired_row n inst)
       | _ => False
       end)
  | e => message e
  end.
Lemma reaper_message e : message e -> reaper_event e.
Proof. by destruct e. Qed.

Section reaper_safe.
Context (r : Reaper) (Hst : forall st, re_stopper r = Some st -> SafeStopper st).
Ltac go := own_steps ltac:(done).

Lemma own_logExpiry i : own reaper_event (logExpiry r i) (fun _ => True).
Proof.
  unfold logExpiry. eapply (own_bind _ _ _ (fun _ => True)); [|intros; by apply own_when; intros; apply own_emit].
  case_match; [by apply own_ret|]. eapply own_bind; [apply own_step|]. intros st _. apply own_when. intros _. by apply own_emit.
Qed.
Lemma own_notifyExpired i o : own reaper_event (notifyExpired r i o) (fun _ => True).
Proof. unfold notifyExpired. apply own_when. intros _. by apply own_emit. Qed.

Lemma own_tryStop now i : expired now i = true -> own reaper_event (tryStop r i) (fun _ => True).
Proof.
  intros He. unfold tryStop. destruct (re_stopper r) as [st|] eqn:E; [|by apply own_ret].
  pose proof (Hst st eq_refl). eapply own_bind.
  - apply (safe_is_stop reaper_event i reaper_message). intros op Hop. exists i, now. auto.
  - intros err _. case_match; [by apply own_ret|]. eapply own_bind; [apply own_ctxErr|]. intros. by apply own_ret.
Qed.

Lemma own_expired_row now n i :
  expired now i = true -> own reaper_event (instance_Update (expired_row n i)) (fun _ => True).
Proof.
  intros He. apply own_Update.
  - intros u. exists i, now. split; [done|]. right. by exists n, u.
  - intros e. exists i, now. split; [done|]. by left.
Qed.

Lemma own_reapAll now l : (forall i, i ∈ l -> expired now i = true) -> own reaper_event (reapAll r l) (fun _ => True).
Proof.
  induction l as [|i l IH]; intros Hl; cbn [reapAll]; [by apply own_ret|].
  assert (Hi : expired now i = true) by (apply Hl; by left).
  assert (IH' : own reaper_event (reapAll r l) (fun _ => True)) by (apply IH; intros; apply Hl; by right).
  eapply own_bind; [apply own_ctxErr|]. intros c _. case_match; [by apply own_ret|].
  eapply own_bind; [by eapply own_tryStop|]. intros [] _; [|by apply own_ret|].
  - eapply own_bind; [apply own_logExpiry|]. intros _ _. eapply own_bind; [apply own_notifyExpired|]. done.
  - eapply own_bind; [apply own_clock|]. intros n _. eapply own_bind; [by eapply own_expired_row|].
    intros err _. case_match; [done|].
    eapply own_bind; [apply own_logExpiry|]. intros _ _. eapply own_bind; [apply own_notifyExpired|]. done.
Qed.
End reaper_safe.

(** A cycle of the reaper writes only rows of running or partial stacks whose
    expiry was in the past when it read them: the start of their stop, or, when no
    stop could start, the listed row with the status stopped.  It makes no Helm and
    no Kubernetes call of its own, whatever the other processes do. *)
Theorem reaper_footprint m definitions chartConfigs audit hub notifier :
  own reaper_event
    (processExpired (mkReaper audit hub notifier (Some (ExpiryStopper m definitions chartConfigs)))) (fun _ => True).
Proof.
  unfold processExpired, ListExpired. eapply (own_bind _ _ _ (fun r => forall l, r = Ok l ->
    exists now, forall i, i ∈ l -> expired now i = true)).
  - eapply own_bind; [apply own_clock|]. intros now _. eapply own_bind.
    + apply (own_query _ _ (fun l => forall i, i ∈ l -> expired now i = true)). intros _ s _ i Hi.
      apply list_elem_of_In, List.filter_In in Hi. apply Hi.
    + intros [l|e] Hl; apply own_ret; [|done]. intros ? [= <-]. exists now. by apply Hl.
  - intros [l|e] Hl; [|by apply own_ret]. destruct (Hl l eq_refl) as [now Hn].
    eapply own_reapAll; [|exact Hn]. cbn. intros st [= <-]. apply _.
Qed.

(** ** One warning per expiry

    [e0] is the expiry of the instance [id].  The judgement [once] composes: from a
    marked row no warning is sent, and a warning marks the row. *)

Definition keeps_expiry (id : string) (e0 : time) (op : dbop) : Prop :=
  match op with
  | ClearExpiryWarning i e => i = id -> e = Some e0
  | SaveInstance i => si_ID i = id -> si_ExpiresAt i = Some e0
  | RemoveInstance i => i <> id
  | _ => True
  end.

Definition expires (e0 : time) (i : StackInstance) : Prop := si_ExpiresAt i = Some e0.
Definition warned (e0 : time) (i : StackInstance) : Prop := is_Some (si_ExpiryWarnedAt i) /\ expires e0 i.

Lemma exec_warned dbnow op s id e0 (I : StackInstance -> Prop) :
  I = expires e0 \/ I = warned e0 -> keeps_expiry id e0 op -> row_rel I id s -> row_rel I id (exec dbnow op s).2.
Proof.
  intros HI Hn Hs. unfold row_rel in *. exec_cases op; try done.
  all: try (apply update_where_inv; [|done]; cbn in Hn; intros Hid r Hr Hg; destruct HI as [-> | ->]; done).
  - destruct (st_instances s !! si_ID i) eqn:E; cbn; [done|].
    destruct Hs as (j & Hj & ?). exists j. rewrite lookup_insert_ne by congruence. done.
  - apply update_where_inv; [|done]. cbn in Hn. intros Hid r Hr [Hg1 Hg2]%andb_true_iff. exfalso.
    specialize (Hn Hid). subst expiresAt. assert (He : si_ExpiresAt r = Some e0) by (destruct HI as [-> | ->]; apply Hr).
    rewrite He in Hg2. cbn in Hg2. unfold expiryMatchTolerance, Second in Hg2. lia.
  - destruct (st_instances s !! si_ID i) eqn:E; cbn.
    + apply update_where_inv; [|done]. cbn in Hn. intros Hid r Hr _. specialize (Hn Hid).
      destruct HI as [-> | ->]; [done|]. split; [apply Hr|done].
    + destruct Hs as (j & Hj & ?). exists j. rewrite lookup_insert_ne by congruence. done.
  - apply update_where_inv; [|done]. intros _ r Hr _. destruct HI as [-> | ->]; by destruct deleteAfterClean.
  - apply update_where_inv; [|done]. intros _ r Hr _. destruct HI as [-> | ->]; [done|split; [by eexists|apply Hr]].
  - destruct Hs as (j & Hj & ?). exists j. cbn in Hn |- *. rewrite lookup_delete_ne by done. done.
  - destruct (st_logs s !! dl_ID l); done.
Qed.

Definition is_warning (id : string) (e : event) : bool :=
  match e with EvNotify i t _ _ _ _ => bool_decide (i = id) && bool_decide (t = expiring) | _ => false end.
Definition warnings (id : string) (w : World) : nat := length (List.filter (is_warning id) (w_trace w)).

(** The mark of a warning that changed the row. *)
Definition is_mark (id : string) (x : dbop * Z) : bool :=
  match x.1 with SetExpiryWarned i _ _ => bool_decide (i = id) && (x.2 =? 1)%Z | _ => false end.

(** The statements of a trace with the rows that they changed, oldest first. *)
Definition statement (e : event) : option (dbop * Z) := match e with EvWrite op rows => Some (op, rows) | _ => None end.
Definition statements (tr : list event) : list (dbop * Z) := reverse (omap statement tr).
(** The events that a program added to the trace. *)
Definition new_events (w w' : World) : list event := take (length (w_trace w') - length (w_trace w)) (w_trace w').

(** ** The statements of all processes *)

(** A history of the database: who ran which statement when. *)
Definition history : Type := list (nat * time * dbop).
(** The statements with the rows that they changed. *)
Fixpoint results (h : history) (s : Store) : list (nat * (dbop * Z)) :=
  match h with
  | [] => []
  | (k, t, op) :: h => (k, (op, changed_rows (exec t op s).1)) :: results h (exec t op s).2
  end.
Definition results_of (k : nat) (l : list (nat * (dbop * Z))) : list (dbop * Z) :=
  List.map snd (List.filter (fun x => (x.1 =? k)%nat) l).

Section marks.
Context (id : string) (e0 : time).

(** A mark that changed the row found it unmarked and leaves it marked. *)
Lemma mark_row t op s : keeps_expiry id e0 op -> row_rel (expires e0) id s ->
  is_mark id (op, changed_rows (exec t op s).1) = true ->
  row_rel (warned e0) id (exec t op s).2 /\ ~ row_rel (warned e0) id s.
Proof.
  intros Hk Hx Hm. assert (Hx' := exec_warned t op s id e0 (expires e0) (or_introl eq_refl) Hk Hx).
  unfold is_mark in Hm. destruct op; try done. cbn [fst snd] in Hm.
  apply andb_true_iff in Hm as [->%bool_decide_eq_true Hr%Z.eqb_eq]. cbn [exec] in *. unfold on_instances in *. cbn [fst snd changed_rows] in *.
  destruct (update_where_rows id (warning_applies expiresAt) (si_set_ExpiryWarnedAt (Some warnedAt)) (st_instances s))
    as (row & Hm & Hg); [by rewrite Hr|]. split.
  - destruct Hx' as (row' & Hm' & He). unfold row_rel. exists row'. split; [exact Hm'|]. split; [|exact He].
    cbn in Hm'. rewrite update_where_same, Hm, Hg in Hm'. injection Hm' as <-. by eexists.
  - intros (row' & Hm' & Hsome & _). assert (row' = row) as -> by congruence. unfold warning_applies in Hg.
    apply andb_true_iff in Hg as [Hn%bool_decide_eq_true _]. rewrite Hn in Hsome. by destruct Hsome.
Qed.

(** In the history of all processes at most one mark changes the row. *)
Lemma marks_once h : forall s, Forall (fun x => keeps_expiry id e0 x.2) h -> row_rel (expires e0) id s ->
  (length (List.filter (fun x => is_mark id x.2) (results h s)) <= 1)%nat /\
  (row_rel (warned e0) id s -> List.filter (fun x => is_mark id x.2) (results h s) = []).
Proof.
  induction h as [|[[k t] op] h IH]; intros s Hh Hx; [cbn; split; [lia|done]|].
  apply Forall_cons in Hh as [Hop Hh]. cbn in Hop.
  destruct (IH (exec t op s).2 Hh) as [H1 H2]; [by apply (exec_warned _ _ _ _ e0); auto|].
  cbn [results List.filter snd]. destruct (is_mark id _) eqn:Em.
  - destruct (mark_row t op s Hop Hx Em) as [Hw Hn]. rewrite (H2 Hw). split; [done|]. intros H. by destruct Hn.
  - split; [exact H1|]. intros Hw. apply H2. by apply (exec_warned _ _ _ _ e0); auto.
Qed.

(** The marks are those of the processes. *)
Fixpoint total {A} (f : A -> nat) (l : list A) : nat := match l with [] => 0 | a :: l => f a + total f l end.
Definition marks_of (l : list (nat * (dbop * Z))) (k : nat) : nat := length (List.filter (is_mark id) (results_of k l)).

Lemma marks_of_cons k x l j :
  marks_of ((k, x) :: l) j = ((if is_mark id x && bool_decide (k = j) then 1 else 0) + marks_of l j)%nat.
Proof.
  unfold marks_of, results_of. cbn [List.filter fst]. destruct (Nat.eqb_spec k j) as [->|Hne].
  - rewrite bool_decide_true by done. rewrite andb_true_r. cbn [List.map snd List.filter]. by destruct (is_mark id x).
  - rewrite bool_decide_false by done. by rewrite andb_false_r.
Qed.
Lemma marks_of_all l ks : NoDup ks ->
  (total (marks_of l) ks <= length (List.filter (fun x => is_mark id x.2) l))%nat.
Proof.
  intros Hks. induction l as [|[k x] l IH].
  { clear Hks. induction ks as [|j ks IHk]; [done|]. cbn. exact IHk. }
  assert (Hs : (total (marks_of ((k, x) :: l)) ks <=
    (if is_mark id x && bool_decide (k ∈ ks) then 1 else 0) + total (marks_of l) ks)%nat).
  { clear IH. induction Hks as [|j ks Hj _ IHk]; [cbn [total]; lia|]. cbn [total]. rewrite marks_of_cons.
    destruct (is_mark id x); cbn [andb] in *; [|lia]. destruct (decide (k = j)) as [->|Hne].
    - rewrite (bool_decide_true (j = j)), (bool_decide_true (j ∈ j :: ks)) by set_solver.
      rewrite (bool_decide_false (j ∈ ks)) in IHk by done. lia.
    - rewrite (bool_decide_false (k = j)) by done.
      assert (bool_decide (k ∈ j :: ks) = bool_decide (k ∈ ks)) as ->; [apply bool_decide_ext; set_solver|lia]. }
  cbn [List.filter snd]. destruct (is_mark id x); cbn [andb length] in *; [destruct (bool_decide _); lia|lia].
Qed.
End marks.

(** ** One cycle *)

Section once.
Context (id : string).

(** What a program adds to the trace. *)
Definition tells {A} (m : M A) (R : A -> list event -> Prop) : Prop := forall w,
  exists tr, w_trace (m w).2 = (tr ++ w_trace w)%list /\ R (m w).1 tr.
Definition count_warnings (tr : list event) : nat := length (List.filter (is_warning id) tr).
Definition count_marks (tr : list event) : nat := length (List.filter (is_mark id) (omap statement tr)).
(** No more warnings than marks that changed the row. *)
Definition covered {A} (_ : A) (tr : list event) : Prop := (count_warnings tr <= count_marks tr)%nat.

Lemma count_app tr1 tr2 : count_warnings (tr1 ++ tr2) = (count_warnings tr1 + count_warnings tr2)%nat /\
  count_marks (tr1 ++ tr2) = (count_marks tr1 + count_marks tr2)%nat.
Proof.
  unfold count_warnings, count_marks. rewrite List.filter_app, length_app. split; [done|].
  by rewrite omap_app, List.filter_app, length_app.
Qed.
Lemma tells_bind {A B} (m : M A) (k : A -> M B) R1 R :
  tells m R1 -> (forall a tr1, R1 a tr1 -> tells (k a) (fun b tr2 => R b (tr2 ++ tr1)%list)) -> tells (bind m k) R.
Proof.
  intros Hm Hk w. rewrite bind_eq. destruct (Hm w) as (tr1 & E1 & H1). destruct (Hk _ _ H1 (m w).2) as (tr2 & E2 & H2).
  exists (tr2 ++ tr1)%list. by rewrite E2, E1, app_assoc.
Qed.
Lemma tells_ret {A} (a : A) (R : A -> list event -> Prop) : R a [] -> tells (ret a) R.
Proof. intros H w. by exists []. Qed.
Lemma tells_clock : tells clock (fun _ tr => tr = []).
Proof. intros w. by exists []. Qed.
Lemma tells_query {A} (f : time -> Store -> A) : tells (query f) (fun _ tr => tr = []).
Proof. intros w. exists []. unfold query. rewrite step_eq. by destruct (e_fault _). Qed.
Lemma tells_MarkExpiryWarned i e t : tells (MarkExpiryWarned i e t) (fun r tr =>
  (count_warnings tr = 0 /\ (r = Ok true -> i = id -> count_marks tr = 1))%nat).
Proof.
  intros w. unfold MarkExpiryWarned, db. rewrite bind_eq, step_eq. destruct (exec _ _ _) as [r s].
  destruct (e_fault _) as [er|]; [destruct (e_lost _)|]; cbn.
  - exists [EvWrite (SetExpiryWarned i e t) (changed_rows r)]. split; [done|]. split; [done|]. intros [=].
  - exists []. split; [done|]. split; [done|]. intros [=].
  - exists [EvWrite (SetExpiryWarned i e t) (changed_rows r)]. split; [done|]. split; [done|].
    destruct r as [n|er]; cbn; intros [= Hn] ->. unfold count_marks. cbn. by rewrite bool_decide_true, Hn.
Qed.

Lemma tells_warnOne i : tells (warnOne i) covered.
Proof.
  unfold warnOne. destruct (si_ExpiresAt i) as [e|]; [|apply tells_ret, Nat.le_refl]. eapply tells_bind; [apply tells_clock|].
  intros now ? ->. eapply tells_bind; [apply tells_MarkExpiryWarned|]. intros r tr1 [Hw Hm].
  assert (Hend : forall tr, covered tt (tr ++ tr1 ++ []) <-> (count_warnings tr <= count_marks tr + count_marks tr1)%nat).
  { intros tr. unfold covered. rewrite app_nil_r. destruct (count_app tr tr1) as [-> ->]. lia. }
  destruct r as [[]|er]; [|apply tells_ret, (proj2 (Hend [])), Nat.le_0_l..].
  eapply tells_bind; [apply tells_clock|]. intros now' ? ->. intros w. eexists [_]. split; [done|]. apply (proj2 (Hend [_])).
  unfold count_warnings. cbn [List.filter is_warning]. destruct (decide (si_ID i = id)) as [Hi|Hi].
  - rewrite (Hm eq_refl Hi), Nat.add_1_r. rewrite !bool_decide_true by done. apply le_n_S, Nat.le_0_l.
  - rewrite (bool_decide_false (si_ID i = id)) by done. apply Nat.le_0_l.
Qed.

Lemma tells_check threshold : tells (check threshold) covered.
Proof.
  unfold check, ListExpiringSoon. eapply (tells_bind _ _ (fun _ tr => tr = [])).
  - eapply tells_bind; [apply tells_clock|]. intros now ? ->. eapply tells_bind; [apply tells_query|]. intros r ? ->.
    by apply tells_ret.
  - intros [l|e] ? ->; [|apply tells_ret, Nat.le_refl]. induction l as [|i l IH]; [apply tells_ret, Nat.le_refl|]. cbn [forEach].
    eapply tells_bind; [apply tells_warnOne|]. intros [] tr1 H1 w. destruct (IH w) as (tr2 & E2 & H2). exists tr2. split; [exact E2|].
    unfold covered in *. rewrite app_nil_r in *. destruct (count_app tr2 tr1) as [-> ->]. lia.
Qed.

Lemma filter_reverse {A} (f : A -> bool) l : List.filter f (reverse l) = rev (List.filter f l).
Proof.
  induction l as [|a l IH]; [done|]. rewrite reverse_cons, List.filter_app, IH. cbn. destruct (f a); cbn; [done|by rewrite app_nil_r].
Qed.

(** A cycle sends no more warnings than its marks changed the row. *)
Lemma check_covered threshold w :
  let w' := (check threshold w).2 in
  warnings id w' = (count_warnings (new_events w w') + warnings id w)%nat /\
  (count_warnings (new_events w w') <= length (List.filter (is_mark id) (statements (new_events w w'))))%nat.
Proof.
  cbv zeta. destruct (tells_check threshold w) as (tr & E & Hc). unfold new_events. rewrite E.
  replace (length (tr ++ w_trace w) - length (w_trace w))%nat with (length tr) by (rewrite length_app; lia).
  rewrite take_app_length. split.
  - unfold warnings, count_warnings. by rewrite E, List.filter_app, length_app.
  - unfold covered, count_marks in Hc. unfold statements.
    rewrite filter_reverse, length_rev. exact Hc.
Qed.
End once.

(** C16. One warning per expiry.  Any number of replicas run cycles of the warner at the
    same time, over a common database: [h] is the history of all statements of all
    processes, in their real order, and the statements of cycle [k] in it, with the rows
    that they changed, are those of its run.  While the statements keep the expiry [e0]
    of the instance, all cycles together send at most one warning of it, and none when
    the row was warned before.  Whatever the other processes do in the middle of a cycle
    (another cycle included) and whatever fails is in the worlds of the cycles. *)
Theorem one_warning id e0 (cycles : list (Z * World)) (h : history) (s : Store) :
  row_rel (expires e0) id s -> Forall (fun x => keeps_expiry id e0 x.2) h ->
  (forall k threshold w, cycles !! k = Some (threshold, w) ->
     statements (new_events w (check threshold w).2) = results_of k (results h s)) ->
  let sent := total (fun c : Z * World => (warnings id (check c.1 c.2).2 - warnings id c.2)%nat) cycles in
  (sent <= 1)%nat /\ (row_rel (warned e0) id s -> sent = 0%nat).
Proof.
  intros Hx Hh Hc. cbv zeta. destruct (marks_once id e0 h s Hh Hx) as [H1 H2].
  assert (Hsum : forall cs n, (forall k threshold w, cs !! k = Some (threshold, w) ->
      statements (new_events w (check threshold w).2) = results_of (n + k) (results h s)) ->
    (total (fun c : Z * World => (warnings id (check c.1 c.2).2 - warnings id c.2)%nat) cs <=
     total (marks_of id (results h s)) (seq n (length cs)))%nat).
  { intros cs. induction cs as [|[th w] cs IH]; intros n Hn; [done|]. cbn [total seq length fst snd].
    destruct (check_covered id th w) as [Hw Hm]. rewrite (Hn 0%nat th w eq_refl), Nat.add_0_r in Hm.
    specialize (IH (S n)). unfold marks_of at 1. rewrite Hw.
    assert (Hr : forall k threshold w, cs !! k = Some (threshold, w) ->
      statements (new_events w (check threshold w).2) = results_of (S n + k) (results h s)).
    { intros k th' w' Hk. replace (S n + k)%nat with (n + S k)%nat by lia. by apply (Hn (S k)). }
    specialize (IH Hr). lia. }
  pose proof (Hsum cycles 0%nat Hc) as Hs. pose proof (marks_of_all id (results h s) (seq 0 (length cycles)) (NoDup_seq _ _)) as Hm.
  split; [lia|]. intros Hw. rewrite (H2 Hw) in Hm. cbn in Hm. lia.
Qed.

(** ** Examples *)

(** Two replicas list the stack at the same time; the second one finds it marked. *)
Definition mark_by (now : time) : dbop := SetExpiryWarned "i1" (3600 * Second) now.
Definition first_cycle : World := calm_world sample_store.
Definition late_env (n : nat) : EnvStep :=
  let now := (20000 + Z.of_nat n)%Z in
  mkEnv (if (n =? 3)%nat then [(now, mark_by 10002)] else []) now now false None None false
    "" None 0 [] (fun _ => Err (ENew "unreachable")) ("", "", false) [] (mkNsStatus "healthy" []) None None.
Definition second_cycle : World := mkWorld sample_store late_env 0 false false (mkMem ∅ ∅ ∅) [].

Lemma one_warning_witness :
  (total (fun c : Z * World => (warnings "i1" (check c.1 c.2).2 - warnings "i1" c.2)%nat)
     [((7200 * Second)%Z, first_cycle); ((7200 * Second)%Z, second_cycle)] <= 1)%nat.
Proof.
  apply (one_warning "i1" (3600 * Second) [((7200 * Second)%Z, first_cycle); ((7200 * Second)%Z, second_cycle)]
    [(0%nat, 0%Z, mark_by 10002); (1%nat, 0%Z, mark_by 20002)] sample_store).
  - eexists. split; vm_compute; reflexivity.
  - repeat constructor.
  - intros [|[|k]] th w Hk; cbn in Hk; [injection Hk as <- <-; vm_compute; reflexivity..|discriminate].
Defined.

(** A TTL that its owner extends between the list and the write of the reaper: the
    extended expiry is overwritten with the listed one and the stack is stopped. *)
Definition extended (s : Store) : StackInstance := si_set_ExpiresAt (Some (9000 * Second)%Z)
  (default (sample_instance "i1" StackStatusRunning) (st_instances s !! "i1")).
Definition extending_world : World :=
  mkWorld sample_store
    (fun n => let now := (4000 * Second + Z.of_nat n)%Z in
       mkEnv (if (n =? 2)%nat then [(now, SaveInstance (extended sample_store))] else []) now now false None None false
         "" None 0 [] (fun _ => Err (ENew "unreachable")) ("", "", false) [] (mkNsStatus "healthy" []) None None)
    0 false false (mkMem ∅ ∅ ∅) [].

Example extension_overwritten :
  let s := w_db (processExpired (mkReaper true true true None) extending_world).2 in
  (si_Status <$> st_instances s !! "i1", si_ExpiresAt <$> st_instances s !! "i1") =
  (Some StackStatusStopped, Some (Some (3600 * Second)%Z)).
Proof. vm_compute. done. Qed.
