(* ===== verification/Sessions.v ===== *)
(** * The session store and the revocation of tokens

    [backend/internal/sessionstore]: the interface [SessionStore] as a class of
    operations, its two implementations [MemoryStore] ([memory.go]) and
    [MySQLStore] ([mysql.go], the table [session_entries]), and the check of a
    token against it ([RevocationStatus] of [api/middleware/auth.go]).  The
    contract of the interface is a third instance, [SpecStore], which never
    forgets an entry; a simulation shows that a store gives its answers, so that
    a claim about the contract holds for every store.

    Times are nanoseconds since 1970; a token without an issue time has none.
    The cleanup goroutine is the operation [Cleanup] at any point of a run.  Keys
    are compared byte by byte.  Documents are read as objects of strings, which
    is what the store writes. *)

From S2P Require Import Prelude Decimals Models Store Json.
Local Open Scope string_scope.

(** ** Data *)

Record OIDCStateData := mkOIDC { oi_CodeVerifier : string; oi_RedirectURL : string; oi_LoopbackURL : string }.
Record CLIAuthData := mkCLI { ca_Token : string; ca_UserID : string; ca_Username : string; ca_Status : string }.

#[global] Instance CLIAuthData_eq_dec : EqDecision CLIAuthData.
Proof. solve_decision. Defined.

Definition ErrSessionNotFound := ESent "ErrSessionNotFound" "session not found or expired".

(** What one call sees: the clock, the error of its [n]-th statement, and whether
    a failed statement took effect. *)
Record SEnv := mkSEnv { sv_now : time; sv_fault : nat -> error; sv_lost : bool }.
Definition at_time (now : time) : SEnv := mkSEnv now (fun _ => None) false.

(** [time.Time.Unix] and [UnixMilli]. *)
Definition Unix (t : time) : Z := (t / Second)%Z.
Definition UnixMilli (t : time) : Z := (t / Millisecond)%Z.

(** ** The block time of a user *)

Definition msTimestampMin : Z := 1000000000000.

(** Unix milliseconds, 0 when the block time is unknown. *)
Definition parseBlockedAt (data : string) : Z :=
  match ParseInt (TrimSpace data) with
  | None => 0
  | Some v =>
      If (v <=? 0)%Z Return 0%Z ;;
      If (v <? msTimestampMin)%Z Return (v * 1000 + 999)%Z ;;
      v
  end.

Definition userBlockApplies (blockedAtMs : Z) (issuedAt : option time) : bool :=
  match issuedAt with
  | None => true
  | Some i => (blockedAtMs <=? 0)%Z || (UnixMilli i <=? blockedAtMs)%Z
  end.

(** The seconds and the milliseconds entry, [None] when absent. *)
Definition userBlockTime (secData msData : option string) : Z :=
  let secMs := match secData with Some d => parseBlockedAt d | None => 0%Z end in
  let ms := match msData with Some d => parseBlockedAt d | None => 0%Z end in
  If bool_decide (msData = None) || (ms <=? 0)%Z Return secMs ;;
  If bool_decide (secData = None) Return ms ;;
  If (secMs <=? 0)%Z Return 0%Z ;;
  If (secMs `quot` 1000 <=? ms `quot` 1000)%Z Return ms ;;
  secMs.

(** ** The interface *)

Class SessionStore (S : Type) := {
  BlockToken : SEnv -> string -> time -> S -> error * S;
  IsTokenBlocked : SEnv -> string -> S -> res bool * S;
  BlockUser : SEnv -> string -> time -> S -> error * S;
  IsUserBlocked : SEnv -> string -> option time -> S -> res bool * S;
  UnblockUser : SEnv -> string -> S -> error * S;
  BlockSessions : SEnv -> list string -> time -> S -> error * S;
  IsSessionBlocked : SEnv -> string -> S -> res bool * S;
  SaveOIDCState : SEnv -> string -> OIDCStateData -> Z -> S -> error * S;
  ConsumeOIDCState : SEnv -> string -> S -> res (option OIDCStateData) * S;
  SaveCLIAuth : SEnv -> string -> CLIAuthData -> Z -> S -> error * S;
  GetCLIAuth : SEnv -> string -> S -> res (option CLIAuthData) * S;
  UpdateCLIAuth : SEnv -> string -> CLIAuthData -> S -> error * S;
  ConsumeCLIAuth : SEnv -> string -> S -> res (option CLIAuthData) * S;
  Cleanup : SEnv -> S -> error * S
}.

Definition BlockSession {S} `{SessionStore S} (e : SEnv) (sessionID : string) (until : time) : S -> error * S :=
  BlockSessions e [sessionID] until.

(** ** The store in memory *)

Record memBlockEntry := mkBlock { mb_expiresAt : time; mb_blockedAtSec : Z; mb_blockedAtMs : Z }.

Record MemoryStore := mkMemory {
  blocked : gmap string memBlockEntry;
  userBlocks : gmap string memBlockEntry;
  sessionBlocks : gmap string memBlockEntry;
  oidcStates : gmap string (OIDCStateData * time);
  cliAuths : gmap string (CLIAuthData * time)
}.

Definition NewMemoryStore : MemoryStore := mkMemory ∅ ∅ ∅ ∅ ∅.

Definition blocked_now (now : time) (e : option memBlockEntry) : bool :=
  match e with Some e => (now <? mb_expiresAt e)%Z | None => false end.

Definition MemoryStore_BlockToken (e : SEnv) (jti : string) (expiresAt : time) (s : MemoryStore) : error * MemoryStore :=
  (None, mkMemory (<[jti := mkBlock expiresAt 0 0]> (blocked s)) (userBlocks s) (sessionBlocks s) (oidcStates s) (cliAuths s)).
Definition MemoryStore_IsTokenBlocked (e : SEnv) (jti : string) (s : MemoryStore) : res bool * MemoryStore :=
  (Ok (blocked_now (sv_now e) (blocked s !! jti)), s).

Definition MemoryStore_BlockUser (e : SEnv) (userID : string) (until : time) (s : MemoryStore) : error * MemoryStore :=
  let entry := mkBlock until (Unix (sv_now e)) (UnixMilli (sv_now e)) in
  (None, mkMemory (blocked s) (<[userID := entry]> (userBlocks s)) (sessionBlocks s) (oidcStates s) (cliAuths s)).
Definition MemoryStore_IsUserBlocked (e : SEnv) (userID : string) (issuedAt : option time) (s : MemoryStore)
    : res bool * MemoryStore :=
  match userBlocks s !! userID with
  | None => (Ok false, s)
  | Some entry =>
      If negb (sv_now e <? mb_expiresAt entry)%Z Return (Ok false, s) ;;
      let blockedAt := userBlockTime (Some (itoa (mb_blockedAtSec entry)))
        (if (0 <? mb_blockedAtMs entry)%Z then Some (itoa (mb_blockedAtMs entry)) else None) in
      (Ok (userBlockApplies blockedAt issuedAt), s)
  end.
Definition MemoryStore_UnblockUser (e : SEnv) (userID : string) (s : MemoryStore) : error * MemoryStore :=
  (None, mkMemory (blocked s) (delete userID (userBlocks s)) (sessionBlocks s) (oidcStates s) (cliAuths s)).

(** A short block never shortens a long one. *)
Definition block_session (until : time) (m : gmap string memBlockEntry) (id : string) : gmap string memBlockEntry :=
  match m !! id with
  | Some cur => if (mb_expiresAt cur <? until)%Z then <[id := mkBlock until 0 0]> m else m
  | None => <[id := mkBlock until 0 0]> m
  end.
Definition MemoryStore_BlockSessions (e : SEnv) (sessionIDs : list string) (until : time) (s : MemoryStore) : error * MemoryStore :=
  (None, mkMemory (blocked s) (userBlocks s) (fold_left (block_session until) sessionIDs (sessionBlocks s))
           (oidcStates s) (cliAuths s)).
Definition MemoryStore_IsSessionBlocked (e : SEnv) (sessionID : string) (s : MemoryStore) : res bool * MemoryStore :=
  (Ok (blocked_now (sv_now e) (sessionBlocks s !! sessionID)), s).

Definition with_oidc (m : gmap string (OIDCStateData * time)) (s : MemoryStore) : MemoryStore :=
  mkMemory (blocked s) (userBlocks s) (sessionBlocks s) m (cliAuths s).
Definition with_cli (m : gmap string (CLIAuthData * time)) (s : MemoryStore) : MemoryStore :=
  mkMemory (blocked s) (userBlocks s) (sessionBlocks s) (oidcStates s) m.

Definition MemoryStore_SaveOIDCState (e : SEnv) (state : string) (data : OIDCStateData) (ttl : Z) (s : MemoryStore)
    : error * MemoryStore :=
  (None, with_oidc (<[state := (data, (sv_now e + ttl)%Z)]> (oidcStates s)) s).
Definition MemoryStore_ConsumeOIDCState (e : SEnv) (state : string) (s : MemoryStore) : res (option OIDCStateData) * MemoryStore :=
  match oidcStates s !! state with
  | None => (Ok None, s)
  | Some (data, expiresAt) =>
      let s := with_oidc (delete state (oidcStates s)) s in
      If (expiresAt <? sv_now e)%Z Return (Ok None, s) ;;
      (Ok (Some data), s)
  end.

Definition MemoryStore_SaveCLIAuth (e : SEnv) (sessionID : string) (data : CLIAuthData) (ttl : Z) (s : MemoryStore)
    : error * MemoryStore :=
  (None, with_cli (<[sessionID := (data, (sv_now e + ttl)%Z)]> (cliAuths s)) s).
Definition MemoryStore_GetCLIAuth (e : SEnv) (sessionID : string) (s : MemoryStore) : res (option CLIAuthData) * MemoryStore :=
  match cliAuths s !! sessionID with
  | None => (Ok None, s)
  | Some (data, expiresAt) =>
      If (expiresAt <? sv_now e)%Z Return (Ok None, with_cli (delete sessionID (cliAuths s)) s) ;;
      (Ok (Some data), s)
  end.
Definition MemoryStore_UpdateCLIAuth (e : SEnv) (sessionID : string) (data : CLIAuthData) (s : MemoryStore) : error * MemoryStore :=
  match cliAuths s !! sessionID with
  | None => (Some ErrSessionNotFound, s)
  | Some (_, expiresAt) =>
      If (expiresAt <? sv_now e)%Z Return (Some ErrSessionNotFound, with_cli (delete sessionID (cliAuths s)) s) ;;
      (None, with_cli (<[sessionID := (data, expiresAt)]> (cliAuths s)) s)
  end.
Definition MemoryStore_ConsumeCLIAuth (e : SEnv) (sessionID : string) (s : MemoryStore) : res (option CLIAuthData) * MemoryStore :=
  match cliAuths s !! sessionID with
  | None => (Ok None, s)
  | Some (data, expiresAt) =>
      let s := with_cli (delete sessionID (cliAuths s)) s in
      If (expiresAt <? sv_now e)%Z Return (Ok None, s) ;;
      (Ok (Some data), s)
  end.

(** The entries that have not expired before [now]. *)
Definition unexpired {A} (now : time) (expiry : A -> time) (m : gmap string A) : gmap string A :=
  filter (fun p => ~ (expiry p.2 < now)%Z) m.
Definition MemoryStore_Cleanup (e : SEnv) (s : MemoryStore) : error * MemoryStore :=
  let now := sv_now e in
  (None, mkMemory (unexpired now mb_expiresAt (blocked s)) (unexpired now mb_expiresAt (userBlocks s))
           (unexpired now mb_expiresAt (sessionBlocks s)) (unexpired now snd (oidcStates s))
           (unexpired now snd (cliAuths s))).

#[global] Instance MemoryStore_store : SessionStore MemoryStore := {
  BlockToken := MemoryStore_BlockToken; IsTokenBlocked := MemoryStore_IsTokenBlocked;
  BlockUser := MemoryStore_BlockUser; IsUserBlocked := MemoryStore_IsUserBlocked; UnblockUser := MemoryStore_UnblockUser;
  BlockSessions := MemoryStore_BlockSessions; IsSessionBlocked := MemoryStore_IsSessionBlocked;
  SaveOIDCState := MemoryStore_SaveOIDCState; ConsumeOIDCState := MemoryStore_ConsumeOIDCState;
  SaveCLIAuth := MemoryStore_SaveCLIAuth; GetCLIAuth := MemoryStore_GetCLIAuth;
  UpdateCLIAuth := MemoryStore_UpdateCLIAuth; ConsumeCLIAuth := MemoryStore_ConsumeCLIAuth; Cleanup := MemoryStore_Cleanup
}.

(** ** The store in the database

    A row of [session_entries] under its primary key (entry key and kind).
    [expires_at] is in whole seconds. *)

Definition kindTokenBlock := "token_block".
Definition kindOIDCState := "oidc_state".
Definition kindUserBlock := "user_block".
Definition kindUserBlockMs := "user_block_ms".
Definition kindCLIAuth := "cli_auth".
Definition kindSessionBlock := "session_block".

Record SessionEntry := mkEntry { se_Data : string; se_ExpiresAt : Z }.
Abbreviation Table := (gmap (string * string) SessionEntry).

#[global] Instance SessionEntry_eq_dec : EqDecision SessionEntry.
Proof. solve_decision. Defined.

(** The [n]-th statement of a call, which writes. *)
Definition stmt (e : SEnv) (n : nat) (f : Table -> Table) (t : Table) : error * Table :=
  match sv_fault e n with
  | Some err => (Some err, if sv_lost e then f t else t)
  | None => (None, f t)
  end.

(** The row of a kind that has not expired. *)
Definition live_row (now : time) (key kind : string) (t : Table) : option SessionEntry :=
  match t !! (key, kind) with
  | Some r => if (Unix now <? se_ExpiresAt r)%Z then Some r else None
  | None => None
  end.

(** [ON DUPLICATE KEY UPDATE expires_at], [expires_at, data] and
    [sessionBlockUpsert]. *)
Definition upsert_expiry (key kind : string) (expires : Z) (t : Table) : Table :=
  <[(key, kind) := mkEntry (match t !! (key, kind) with Some r => se_Data r | None => "" end) expires]> t.
Definition upsert_row (key kind data : string) (expires : Z) (t : Table) : Table :=
  <[(key, kind) := mkEntry data expires]> t.
Definition sessionBlockUpsert (expires : Z) (t : Table) (key : string) : Table :=
  <[(key, kindSessionBlock) := match t !! (key, kindSessionBlock) with
                               | Some r => mkEntry (se_Data r) (Z.max (se_ExpiresAt r) expires)
                               | None => mkEntry "" expires
                               end]> t.

Definition MySQLStore_BlockToken (e : SEnv) (jti : string) (expiresAt : time) (t : Table) : error * Table :=
  stmt e 0 (upsert_expiry jti kindTokenBlock (Unix expiresAt)) t.

(** [SELECT COUNT] of the live rows of one key. *)
Definition is_blocked (kind : string) (e : SEnv) (key : string) (t : Table) : res bool * Table :=
  match sv_fault e 0 with
  | Some err => (Err err, t)
  | None => (Ok (bool_decide (is_Some (live_row (sv_now e) key kind t))), t)
  end.
Definition MySQLStore_IsTokenBlocked : SEnv -> string -> Table -> res bool * Table := is_blocked kindTokenBlock.
Definition MySQLStore_IsSessionBlocked : SEnv -> string -> Table -> res bool * Table := is_blocked kindSessionBlock.

Definition MySQLStore_BlockUser (e : SEnv) (userID : string) (until : time) (t : Table) : error * Table :=
  let now := sv_now e in
  stmt e 0 (fun t => upsert_row userID kindUserBlockMs (itoa (UnixMilli now)) (Unix until)
                       (upsert_row userID kindUserBlock (itoa (Unix now)) (Unix until) t)) t.
Definition MySQLStore_IsUserBlocked (e : SEnv) (userID : string) (issuedAt : option time) (t : Table)
    : res bool * Table :=
  match sv_fault e 0 with
  | Some err => (Err err, t)
  | None =>
      let secData := se_Data <$> live_row (sv_now e) userID kindUserBlock t in
      let msData := se_Data <$> live_row (sv_now e) userID kindUserBlockMs t in
      If bool_decide (secData = None) && bool_decide (msData = None) Return (Ok false, t) ;;
      (Ok (userBlockApplies (userBlockTime secData msData) issuedAt), t)
  end.
Definition MySQLStore_UnblockUser (e : SEnv) (userID : string) (t : Table) : error * Table :=
  stmt e 0 (fun t => delete (userID, kindUserBlock) (delete (userID, kindUserBlockMs) t)) t.

Definition sessionBlockBatch : nat := 500.

(** The IDs without the later duplicates. *)
Fixpoint distinct (seen : list string) (ids : list string) : list string :=
  match ids with
  | [] => []
  | id :: rest => If bool_decide (id ∈ seen) Return distinct seen rest ;; id :: distinct (id :: seen) rest
  end.

(** One statement per batch from [start] on; a failure ends the loop. *)
Fixpoint block_batches (fuel : nat) (e : SEnv) (until : Z) (total start : nat) (entries : list string) (t : Table)
    : error * Table :=
  match fuel, entries with
  | S fuel, _ :: _ =>
      let '(err, t) := stmt e (start / sessionBlockBatch) (fun t =>
        fold_left (sessionBlockUpsert until) (take sessionBlockBatch entries) t) t in
      match err with
      | Some err =>
          (Some (EWrap ("blocked " +:+ itoa (Z.of_nat start) +:+ " of " +:+ itoa (Z.of_nat total) +:+ " sessions: ") err ""), t)
      | None => block_batches fuel e until total (start + sessionBlockBatch) (drop sessionBlockBatch entries) t
      end
  | _, _ => (None, t)
  end.
Definition MySQLStore_BlockSessions (e : SEnv) (sessionIDs : list string) (until : time) (t : Table) : error * Table :=
  let entries := distinct [] sessionIDs in
  block_batches (length entries) e (Unix until) (length entries) 0 entries t.

(** [json.Marshal] and [json.Unmarshal] of the data. *)
Definition omitempty (key v : string) : list (string * string) := if empty v then [] else [(key, v)].
Definition oidc_members (d : OIDCStateData) : list (string * string) :=
  ([("code_verifier", oi_CodeVerifier d); ("redirect_url", oi_RedirectURL d)]
     ++ omitempty "loopback_url" (oi_LoopbackURL d))%list.
Definition oidc_decode (s : string) : option OIDCStateData :=
  m ← json_Unmarshal s;
  let field k := default "" (m ≫= lookup k) in
  Some (mkOIDC (field "code_verifier") (field "redirect_url") (field "loopback_url")).
Definition cli_members (d : CLIAuthData) : list (string * string) :=
  (omitempty "token" (ca_Token d) ++ omitempty "user_id" (ca_UserID d) ++ omitempty "username" (ca_Username d)
     ++ [("status", ca_Status d)])%list.
Definition cli_decode (s : string) : option CLIAuthData :=
  m ← json_Unmarshal s;
  let field k := default "" (m ≫= lookup k) in
  Some (mkCLI (field "token") (field "user_id") (field "username") (field "status")).

Definition errJSON := ENew "invalid session data".
Definition ErrDuplicateEntry := ESent "ErrDuplicatedKey" "duplicated key not allowed".

(** [Create] of a row: a duplicate key is an error, expired or not. *)
Definition insert_row (e : SEnv) (key kind data : string) (expires : Z) (t : Table) : error * Table :=
  match t !! (key, kind) with
  | Some _ => (Some (default ErrDuplicateEntry (sv_fault e 0)), t)
  | None => stmt e 0 (upsert_row key kind data expires) t
  end.

(** The transaction that reads a live row and deletes it: its begin and its read
    are the first statement, the delete and the commit the second. *)
Definition consume_row (e : SEnv) (key kind : string) (t : Table) : res (option SessionEntry) * Table :=
  match sv_fault e 0 with
  | Some err => (Err err, t)
  | None =>
      match live_row (sv_now e) key kind t with
      | None => (Ok None, t)
      | Some r => match stmt e 1 (delete (key, kind)) t with
                  | (Some err, t) => (Err err, t)
                  | (None, t) => (Ok (Some r), t)
                  end
      end
  end.
Definition decode_with {A} (decode : string -> option A) (r : res (option SessionEntry)) : res (option A) :=
  match r with
  | Err e => Err e
  | Ok None => Ok None
  | Ok (Some row) => match decode (se_Data row) with Some d => Ok (Some d) | None => Err errJSON end
  end.

Definition MySQLStore_SaveOIDCState (e : SEnv) (state : string) (data : OIDCStateData) (ttl : Z) (t : Table)
    : error * Table :=
  insert_row e state kindOIDCState (json_object (oidc_members data)) (Unix (sv_now e + ttl)) t.
Definition MySQLStore_ConsumeOIDCState (e : SEnv) (state : string) (t : Table) : res (option OIDCStateData) * Table :=
  let '(r, t) := consume_row e state kindOIDCState t in (decode_with oidc_decode r, t).

Definition MySQLStore_SaveCLIAuth (e : SEnv) (sessionID : string) (data : CLIAuthData) (ttl : Z) (t : Table)
    : error * Table :=
  insert_row e sessionID kindCLIAuth (json_object (cli_members data)) (Unix (sv_now e + ttl)) t.
Definition MySQLStore_GetCLIAuth (e : SEnv) (sessionID : string) (t : Table) : res (option CLIAuthData) * Table :=
  match sv_fault e 0 with
  | Some err => (Err err, t)
  | None => (decode_with cli_decode (Ok (live_row (sv_now e) sessionID kindCLIAuth t)), t)
  end.

(** MySQL counts the rows that change, so an update with the stored data finds
    no row. *)
Definition MySQLStore_UpdateCLIAuth (e : SEnv) (sessionID : string) (data : CLIAuthData) (t : Table) : error * Table :=
  let raw := json_object (cli_members data) in
  match live_row (sv_now e) sessionID kindCLIAuth t with
  | None => (Some (default ErrSessionNotFound (sv_fault e 0)), t)
  | Some r =>
      match stmt e 0 (upsert_row sessionID kindCLIAuth raw (se_ExpiresAt r)) t with
      | (Some err, t) => (Some err, t)
      | (None, t) => (if bool_decide (se_Data r = raw) then Some ErrSessionNotFound else None, t)
      end
  end.
Definition MySQLStore_ConsumeCLIAuth (e : SEnv) (sessionID : string) (t : Table) : res (option CLIAuthData) * Table :=
  let '(r, t) := consume_row e sessionID kindCLIAuth t in (decode_with cli_decode r, t).

Definition MySQLStore_Cleanup (e : SEnv) (t : Table) : error * Table :=
  stmt e 0 (filter (fun p => ~ (se_ExpiresAt p.2 < Unix (sv_now e))%Z)) t.

#[global] Instance MySQLStore_store : SessionStore Table := {
  BlockToken := MySQLStore_BlockToken; IsTokenBlocked := MySQLStore_IsTokenBlocked;
  BlockUser := MySQLStore_BlockUser; IsUserBlocked := MySQLStore_IsUserBlocked; UnblockUser := MySQLStore_UnblockUser;
  BlockSessions := MySQLStore_BlockSessions; IsSessionBlocked := MySQLStore_IsSessionBlocked;
  SaveOIDCState := MySQLStore_SaveOIDCState; ConsumeOIDCState := MySQLStore_ConsumeOIDCState;
  SaveCLIAuth := MySQLStore_SaveCLIAuth; GetCLIAuth := MySQLStore_GetCLIAuth;
  UpdateCLIAuth := MySQLStore_UpdateCLIAuth; ConsumeCLIAuth := MySQLStore_ConsumeCLIAuth; Cleanup := MySQLStore_Cleanup
}.

(** ** The contract

    What the interface promises: entries live until their expiry, and nothing
    else happens to them.  The two stores differ in the precision of an expiry. *)

Class Expiry := {
  block_live : time -> time -> bool;
  state_live : time -> time -> bool;
  block_live_mono : forall t t' x, (t <= t')%Z -> block_live t' x = true -> block_live t x = true;
  state_live_mono : forall t t' x, (t <= t')%Z -> state_live t' x = true -> state_live t x = true
}.

Record Contract := mkContract {
  sp_tokens : gmap string time;
  sp_users : gmap string (time * time);
  sp_sessions : gmap string time;
  sp_oidc : gmap string (OIDCStateData * time);
  sp_cli : gmap string (CLIAuthData * time)
}.
Definition NewContract : Contract := mkContract ∅ ∅ ∅ ∅ ∅.

Section contract.
Context `{Expiry}.

Definition live_value {A} (now : time) (e : option (A * time)) : option A :=
  match e with Some (d, x) => if state_live now x then Some d else None | None => None end.
Definition spec_blocked (now : time) (e : option time) : bool :=
  match e with Some x => block_live now x | None => false end.

(** Tokens that were issued in the millisecond of the block or before. *)
Definition spec_user_blocked (now : time) (e : option (time * time)) (issuedAt : option time) : bool :=
  match e with
  | Some (at_, until) =>
      block_live now until && match issuedAt with Some i => (UnixMilli i <=? UnixMilli at_)%Z | None => true end
  | None => false
  end.

Definition spec_block_session (until : time) (m : gmap string time) (id : string) : gmap string time :=
  <[id := match m !! id with Some x => Z.max x until | None => until end]> m.

Definition sp_with_oidc m a := mkContract (sp_tokens a) (sp_users a) (sp_sessions a) m (sp_cli a).
Definition sp_with_cli m a := mkContract (sp_tokens a) (sp_users a) (sp_sessions a) (sp_oidc a) m.

Definition spec_consume {A} (now : time) (k : string) (m : gmap string (A * time)) : option A * gmap string (A * time) :=
  match live_value now (m !! k) with Some d => (Some d, delete k m) | None => (None, m) end.

#[local] Instance SpecStore : SessionStore Contract := {
  BlockToken e jti x a :=
    (None, mkContract (<[jti := x]> (sp_tokens a)) (sp_users a) (sp_sessions a) (sp_oidc a) (sp_cli a));
  IsTokenBlocked e jti a := (Ok (spec_blocked (sv_now e) (sp_tokens a !! jti)), a);
  BlockUser e u until a :=
    (None, mkContract (sp_tokens a) (<[u := (sv_now e, until)]> (sp_users a)) (sp_sessions a) (sp_oidc a) (sp_cli a));
  IsUserBlocked e u i a := (Ok (spec_user_blocked (sv_now e) (sp_users a !! u) i), a);
  UnblockUser e u a :=
    (None, mkContract (sp_tokens a) (delete u (sp_users a)) (sp_sessions a) (sp_oidc a) (sp_cli a));
  BlockSessions e ids until a :=
    (None, mkContract (sp_tokens a) (sp_users a) (fold_left (spec_block_session until) ids (sp_sessions a))
             (sp_oidc a) (sp_cli a));
  IsSessionBlocked e sid a := (Ok (spec_blocked (sv_now e) (sp_sessions a !! sid)), a);
  SaveOIDCState e k d ttl a := (None, sp_with_oidc (<[k := (d, (sv_now e + ttl)%Z)]> (sp_oidc a)) a);
  ConsumeOIDCState e k a :=
    let r := spec_consume (sv_now e) k (sp_oidc a) in (Ok r.1, sp_with_oidc r.2 a);
  SaveCLIAuth e k d ttl a := (None, sp_with_cli (<[k := (d, (sv_now e + ttl)%Z)]> (sp_cli a)) a);
  GetCLIAuth e k a := (Ok (live_value (sv_now e) (sp_cli a !! k)), a);
  UpdateCLIAuth e k d a :=
    match sp_cli a !! k with
    | Some (_, x) => If state_live (sv_now e) x Return (None, sp_with_cli (<[k := (d, x)]> (sp_cli a)) a) ;;
                     (Some ErrSessionNotFound, a)
    | None => (Some ErrSessionNotFound, a)
    end;
  ConsumeCLIAuth e k a :=
    let r := spec_consume (sv_now e) k (sp_cli a) in (Ok r.1, sp_with_cli r.2 a);
  Cleanup e a := (None, a)
}.
End contract.

(** ** Runs *)

Inductive sop :=
| OpBlockToken (jti : string) (expiresAt : time)
| OpIsTokenBlocked (jti : string)
| OpBlockUser (userID : string) (until : time)
| OpIsUserBlocked (userID : string) (issuedAt : option time)
| OpUnblockUser (userID : string)
| OpBlockSessions (ids : list string) (until : time)
| OpIsSessionBlocked (sid : string)
| OpSaveOIDCState (state : string) (data : OIDCStateData) (ttl : Z)
| OpConsumeOIDCState (state : string)
| OpSaveCLIAuth (sid : string) (data : CLIAuthData) (ttl : Z)
| OpGetCLIAuth (sid : string)
| OpUpdateCLIAuth (sid : string) (data : CLIAuthData)
| OpConsumeCLIAuth (sid : string)
| OpCleanup.

Inductive answer :=
| ADone (err : error)
| ABlocked (r : res bool)
| AState (r : res (option OIDCStateData))
| ACli (r : res (option CLIAuthData)).

Definition on_fst {A B S} (f : A -> B) (r : A * S) : B * S := (f r.1, r.2).

Definition call {S} `{SessionStore S} (e : SEnv) (o : sop) (s : S) : answer * S :=
  match o with
  | OpBlockToken j x => on_fst ADone (BlockToken e j x s)
  | OpIsTokenBlocked j => on_fst ABlocked (IsTokenBlocked e j s)
  | OpBlockUser u x => on_fst ADone (BlockUser e u x s)
  | OpIsUserBlocked u i => on_fst ABlocked (IsUserBlocked e u i s)
  | OpUnblockUser u => on_fst ADone (UnblockUser e u s)
  | OpBlockSessions ids x => on_fst ADone (BlockSessions e ids x s)
  | OpIsSessionBlocked i => on_fst ABlocked (IsSessionBlocked e i s)
  | OpSaveOIDCState k d ttl => on_fst ADone (SaveOIDCState e k d ttl s)
  | OpConsumeOIDCState k => on_fst AState (ConsumeOIDCState e k s)
  | OpSaveCLIAuth k d ttl => on_fst ADone (SaveCLIAuth e k d ttl s)
  | OpGetCLIAuth k => on_fst ACli (GetCLIAuth e k s)
  | OpUpdateCLIAuth k d => on_fst ADone (UpdateCLIAuth e k d s)
  | OpConsumeCLIAuth k => on_fst ACli (ConsumeCLIAuth e k s)
  | OpCleanup => on_fst ADone (Cleanup e s)
  end.

(** The answers of a run without store failures, and the state after it. *)
Fixpoint run_store {S} `{SessionStore S} (tr : list (time * sop)) (s : S) : list answer * S :=
  match tr with
  | [] => ([], s)
  | (now, o) :: tr' =>
      let r := call (at_time now) o s in
      let r' := run_store tr' r.2 in (r.1 :: r'.1, r'.2)
  end.

(** What the callers respect: state keys are fresh, texts are UTF-8, an update
    changes the data, and the clock that a block stores is after 2001 (and
    before the year 292 million). *)
Definition valid_oidc (d : OIDCStateData) : bool :=
  valid_utf8 (oi_CodeVerifier d) && valid_utf8 (oi_RedirectURL d) && valid_utf8 (oi_LoopbackURL d).
Definition valid_cli (d : CLIAuthData) : bool :=
  valid_utf8 (ca_Token d) && valid_utf8 (ca_UserID d) && valid_utf8 (ca_Username d) && valid_utf8 (ca_Status d).

Definition admissible (now : time) (o : sop) (a : Contract) : Prop :=
  match o with
  | OpBlockUser _ _ => (msTimestampMin <= UnixMilli now < 2 ^ 63)%Z
  | OpSaveOIDCState k d _ => sp_oidc a !! k = None /\ valid_oidc d = true
  | OpSaveCLIAuth k d _ => sp_cli a !! k = None /\ valid_cli d = true
  | OpUpdateCLIAuth k d => valid_cli d = true /\ forall d' x, sp_cli a !! k = Some (d', x) -> d' <> d
  | _ => True
  end.

Fixpoint legal `{Expiry} (t : time) (tr : list (time * sop)) (a : Contract) : Prop :=
  match tr with
  | [] => True
  | (now, o) :: tr' =>
      (t <= now)%Z /\ admissible now o a /\ legal now tr' (call (H := SpecStore) (at_time now) o a).2
  end.

(** A store implements the contract: a relation that holds of the new store and
    that every legal call keeps, with equal answers. *)
Class Implements (E : Expiry) (S : Type) `{SessionStore S} (new : S) := {
  sim : time -> S -> Contract -> Prop;
  sim_new : forall t, sim t new NewContract;
  sim_call : forall t now o s a, sim t s a -> (t <= now)%Z -> admissible now o a ->
    (call (at_time now) o s).1 = (call (H := SpecStore) (at_time now) o a).1 /\
    sim now (call (at_time now) o s).2 (call (H := SpecStore) (at_time now) o a).2
}.

Lemma run_sim {E : Expiry} {S} `{SessionStore S} {new : S} `{!Implements E S new} tr : forall t s a, sim t s a -> legal t tr a ->
  (run_store tr s).1 = (run_store (H := SpecStore) tr a).1 /\
  exists t', sim t' (run_store tr s).2 (run_store (H := SpecStore) tr a).2.
Proof.
  induction tr as [|[now o] tr IH]; intros t s a Hs Hl; [by split; [|exists t]|]. cbn in Hl |- *.
  destruct Hl as (Ht & Ha & Hl). destruct (sim_call t now o s a Hs Ht Ha) as [-> Hs'].
  destruct (IH _ _ _ Hs' Hl) as [-> Hx]. by split.
Qed.

(** ** Related entries

    [agree t x y]: the entry [x] of a store stands for the entry [y] of the
    contract at time [t]: related by [P], or both expired; a store may have
    forgotten an expired entry. *)

Section agree.
Context {A B : Type} (la : time -> A -> bool) (lb : time -> B -> bool) (P : A -> B -> Prop).
Context (HP : forall t a b, P a b -> la t a = lb t b).
Context (Ha : forall t t' a, (t <= t')%Z -> la t' a = true -> la t a = true).
Context (Hb : forall t t' b, (t <= t')%Z -> lb t' b = true -> lb t b = true).

Definition agree (t : time) (x : option A) (y : option B) : Prop :=
  match x, y with
  | Some a, Some b => P a b \/ (la t a = false /\ lb t b = false)
  | None, Some b => lb t b = false
  | None, None => True
  | Some _, None => False
  end.

Lemma expired_mono {C} (l : time -> C -> bool) t t' c :
  (forall t t' c, (t <= t')%Z -> l t' c = true -> l t c = true) -> (t <= t')%Z -> l t c = false -> l t' c = false.
Proof. intros Hl Ht He. destruct (l t' c) eqn:E; [|done]. rewrite (Hl t t' c Ht E) in He. done. Qed.

Lemma agree_mono t t' x y : (t <= t')%Z -> agree t x y -> agree t' x y.
Proof.
  intros Ht. unfold agree. destruct x as [a|], y as [b|]; try done.
  - intros [?|[? ?]]; [by left|right]. split; by eapply expired_mono.
  - intros ?. by eapply expired_mono.
Qed.

(** At a later time either both entries are live and related, or neither is. *)
Lemma agree_cases t now x y :
  (t <= now)%Z -> agree t x y ->
  (exists a b, x = Some a /\ y = Some b /\ P a b /\ la now a = true /\ lb now b = true) \/
  ((forall a, x = Some a -> la now a = false) /\ (forall b, y = Some b -> lb now b = false)).
Proof.
  intros Ht. unfold agree. destruct x as [a|], y as [b|]; [| |intros H|].
  - intros [H|[H1 H2]].
    + destruct (la now a) eqn:E; [left; exists a, b; by rewrite <- (HP _ _ _ H)|].
      right. split; [by intros ? [= <-]|]. intros ? [= <-]. by rewrite <- (HP _ _ _ H).
    + right. split; intros ? [= <-]; by eapply expired_mono.
  - done.
  - right. split; [done|]. intros ? [= <-]. by eapply expired_mono.
  - intros _. by right.
Qed.

Definition agree_map {K} (t : time) (f : K -> option A) (g : K -> option B) : Prop := forall k, agree t (f k) (g k).

Lemma agree_map_mono {K} t t' (f : K -> option A) g : (t <= t')%Z -> agree_map t f g -> agree_map t' f g.
Proof. intros Ht Hm k. by eapply agree_mono. Qed.

(** The entry of one key changes. *)
Lemma agree_map_set `{EqDecision K} t (f f' : K -> option A) (g g' : K -> option B) k :
  agree_map t f g -> (forall j, j <> k -> f' j = f j /\ g' j = g j) -> agree t (f' k) (g' k) -> agree_map t f' g'.
Proof.
  intros Hm Ho Hk j. destruct (decide (j = k)) as [->|Hj]; [done|]. destruct (Ho j Hj) as [-> ->]. apply Hm.
Qed.

(** Expired entries are forgotten. *)
Lemma agree_map_forget {K} t now (f f' : K -> option A) (g : K -> option B) :
  agree_map t f g -> (t <= now)%Z -> (forall k, f' k = f k \/ (f' k = None /\ forall a, f k = Some a -> la now a = false)) ->
  agree_map now f' g.
Proof.
  intros Hm Ht Hf k. destruct (Hf k) as [->|[-> Hd]]; [by eapply agree_mono|].
  destruct (agree_cases t now (f k) (g k) Ht (Hm k)) as [(a & b & Ef & Eg & _ & Hl & _)|[_ He]].
  - rewrite (Hd a Ef) in Hl. done.
  - unfold agree. destruct (g k) as [b|]; [by apply He|done].
Qed.
End agree.

(** ** The store in memory implements the contract *)

#[global] Program Instance memory_expiry : Expiry := {
  block_live now x := (now <? x)%Z;
  state_live now x := negb (x <? now)%Z
}.
Next Obligation. intros t t' x ?. rewrite !Z.ltb_lt. lia. Qed.
Next Obligation. intros t t' x ?. rewrite !negb_true_iff, !Z.ltb_ge. lia. Qed.

(** *** The block time that is written and read back *)

(** The block time that both stores read back is the time of the block. *)
Lemma userBlockTime_itoa t :
  (msTimestampMin <= UnixMilli t < 2 ^ 63)%Z ->
  userBlockTime (Some (itoa (Unix t))) (Some (itoa (UnixMilli t))) = UnixMilli t.
Proof.
  unfold msTimestampMin. intros Ht.
  assert (Hs : Unix t = (UnixMilli t / 1000)%Z).
  { unfold Unix, UnixMilli, Second, Millisecond. by rewrite Z.div_div. }
  set (ms := UnixMilli t) in *. rewrite Hs.
  assert (Hq : (1000000000 <= ms / 1000)%Z) by (apply Z.div_le_lower_bound; lia).
  assert (Hq' : (ms / 1000 <= ms)%Z) by (apply Z.div_le_upper_bound; lia).
  unfold userBlockTime, parseBlockedAt, msTimestampMin.
  rewrite !ParseInt_itoa by lia. change (bool_decide (Some ?a = None)) with false. cbn [orb].
  rewrite (proj2 (Z.leb_gt ms 0%Z)), (proj2 (Z.leb_gt (ms / 1000) 0%Z)) by lia.
  rewrite (proj2 (Z.ltb_ge ms 1000000000000%Z)) by lia. rewrite (proj2 (Z.leb_gt ms 0%Z)) by lia.
  destruct (ms / 1000 <? 1000000000000)%Z.
  - rewrite (proj2 (Z.leb_gt (ms / 1000 * 1000 + 999) 0%Z)) by lia.
    rewrite !Z.quot_div_nonneg by lia. rewrite Z.div_add_l by lia. change (999 / 1000)%Z with 0%Z.
    by rewrite Z.add_0_r, Z.leb_refl.
  - rewrite (proj2 (Z.leb_gt (ms / 1000) 0%Z)) by lia. rewrite !Z.quot_div_nonneg by lia.
    rewrite (proj2 (Z.leb_le _ _)); [done|]. apply Z.div_le_mono; lia.
Qed.

Lemma userBlockApplies_ms ms i :
  (0 < ms)%Z -> userBlockApplies ms i = match i with Some i => (UnixMilli i <=? ms)%Z | None => true end.
Proof. intros H. unfold userBlockApplies. destruct i; [|done]. by rewrite (proj2 (Z.leb_gt ms 0%Z)). Qed.

(** *** The simulation *)

Section lives.
Context `{Expiry}.
(** The block or state with the expiry [f] is live. *)
Definition bl {A} (f : A -> time) (t : time) (e : A) : bool := block_live t (f e).
Definition sl {A} (f : A -> time) (t : time) (e : A) : bool := state_live t (f e).
Lemma bl_mono {A} (f : A -> time) t t' e : (t <= t')%Z -> bl f t' e = true -> bl f t e = true.
Proof. apply block_live_mono. Qed.
Lemma sl_mono {A} (f : A -> time) t t' e : (t <= t')%Z -> sl f t' e = true -> sl f t e = true.
Proof. apply state_live_mono. Qed.
End lives.

Definition block_entry (e : memBlockEntry) (x : time) : Prop := mb_expiresAt e = x.
Definition user_entry (e : memBlockEntry) (p : time * time) : Prop :=
  e = mkBlock p.2 (Unix p.1) (UnixMilli p.1) /\ (msTimestampMin <= UnixMilli p.1 < 2 ^ 63)%Z.

Record memory_sim (t : time) (s : MemoryStore) (a : Contract) : Prop := {
  ms_tokens : agree_map (bl mb_expiresAt) (bl id) block_entry t (fun k => blocked s !! k) (fun k => sp_tokens a !! k);
  ms_users : agree_map (bl mb_expiresAt) (bl snd) user_entry t (fun k => userBlocks s !! k) (fun k => sp_users a !! k);
  ms_sessions : agree_map (bl mb_expiresAt) (bl id) block_entry t
                  (fun k => sessionBlocks s !! k) (fun k => sp_sessions a !! k);
  ms_oidc : agree_map (sl snd) (sl snd) eq t (fun k => oidcStates s !! k) (fun k => sp_oidc a !! k);
  ms_cli : agree_map (sl snd) (sl snd) eq t (fun k => cliAuths s !! k) (fun k => sp_cli a !! k)
}.

Lemma block_entry_live t e x : block_entry e x -> bl mb_expiresAt t e = bl id t x.
Proof. by intros <-. Qed.
Lemma user_entry_live t e p : user_entry e p -> bl mb_expiresAt t e = bl snd t p.
Proof. by intros [-> _]. Qed.
Lemma eq_live {A} (f : A -> time) t (x y : A) : x = y -> sl f t x = sl f t y.
Proof. by intros ->. Qed.

Create HintDb agree discriminated.
#[local] Hint Resolve block_entry_live user_entry_live eq_live bl_mono sl_mono : agree.

Lemma memory_sim_mono t t' s a : (t <= t')%Z -> memory_sim t s a -> memory_sim t' s a.
Proof.
  intros Ht [H1 H2 H3 H4 H5].
  split; (eapply agree_map_mono; [..|exact Ht|eassumption]); intros; eauto with agree.
Qed.

(** Setting and deleting one key on both sides. *)
Lemma agree_insert {A B} la lb (P : A -> B -> Prop) t (m : gmap string A) (n : gmap string B) k x y :
  agree_map la lb P t (fun k => m !! k) (fun k => n !! k) -> agree la lb P t (Some x) (Some y) ->
  agree_map la lb P t (fun j => <[k := x]> m !! j) (fun j => <[k := y]> n !! j).
Proof.
  intros Hm Hx. eapply agree_map_set with (k := k); [apply _|exact Hm| |].
  - intros j Hj. by rewrite !lookup_insert_ne.
  - by rewrite !lookup_insert_eq.
Qed.
Lemma agree_delete {A B} la lb (P : A -> B -> Prop) t (m : gmap string A) (n : gmap string B) k :
  agree_map la lb P t (fun k => m !! k) (fun k => n !! k) ->
  agree_map la lb P t (fun j => delete k m !! j) (fun j => delete k n !! j).
Proof.
  intros Hm. eapply agree_map_set with (k := k); [apply _|exact Hm| |].
  - intros j Hj. by rewrite !lookup_delete_ne.
  - by rewrite !lookup_delete_eq.
Qed.

Lemma block_session_agree t until sid m n :
  agree_map (bl mb_expiresAt) (bl id) block_entry t (fun k => m !! k) (fun k => n !! k) ->
  agree_map (bl mb_expiresAt) (bl id) block_entry t
    (fun k => block_session until m sid !! k) (fun k => spec_block_session until n sid !! k).
Proof.
  intros Hm. eapply agree_map_set with (k := sid); [apply _|exact Hm| |].
  - intros j Hj. unfold block_session, spec_block_session. rewrite lookup_insert_ne by done.
    split; [|done]. repeat case_match; by rewrite ?lookup_insert_ne.
  - specialize (Hm sid). unfold block_session, spec_block_session, agree in *. rewrite lookup_insert_eq.
    unfold bl, block_entry in *. cbn in *.
    destruct (m !! sid) as [e|] eqn:Em, (n !! sid) as [x|]; try done.
    + destruct (Z.ltb_spec (mb_expiresAt e) until) as [Hl|Hl].
      * rewrite lookup_insert_eq. cbn. rewrite !Z.ltb_ge in *. destruct (Z.ltb_spec t until); lia.
      * rewrite Em. cbn. rewrite !Z.ltb_ge in *. lia.
    + rewrite lookup_insert_eq. cbn. rewrite !Z.ltb_ge in *. lia.
    + rewrite lookup_insert_eq. by left.
Qed.

Lemma block_sessions_agree t until ids : forall m n,
  agree_map (bl mb_expiresAt) (bl id) block_entry t (fun k => m !! k) (fun k => n !! k) ->
  agree_map (bl mb_expiresAt) (bl id) block_entry t
    (fun k => fold_left (block_session until) ids m !! k) (fun k => fold_left (spec_block_session until) ids n !! k).
Proof. induction ids as [|sid ids IH]; intros m n Hm; [done|]. by apply IH, block_session_agree. Qed.

Lemma unexpired_agree {A B} (f : A -> time) la lb (P : A -> B -> Prop) t now (m : gmap string A) (g : string -> option B) :
  (forall t a b, P a b -> la t a = lb t b) ->
  (forall t t' a, (t <= t')%Z -> la t' a = true -> la t a = true) ->
  (forall t t' b, (t <= t')%Z -> lb t' b = true -> lb t b = true) ->
  (forall a, (f a < now)%Z -> la now a = false) -> (t <= now)%Z ->
  agree_map la lb P t (fun k => m !! k) g -> agree_map la lb P now (fun k => unexpired now f m !! k) g.
Proof.
  intros HP Hla Hlb Hf Ht Hm. eapply agree_map_forget; [exact HP|exact Hla|exact Hlb|exact Hm|exact Ht|]. intros k.
  unfold unexpired. destruct (filter _ m !! k) as [a|] eqn:E.
  - left. apply map_lookup_filter_Some in E as [-> _]. done.
  - right. split; [done|]. intros a Ha. apply map_lookup_filter_None in E as [E|E]; [congruence|].
    apply Hf. specialize (E a Ha). cbn in E. destruct (decide (f a < now)%Z); [done|tauto].
Qed.

(** The answers about one entry. *)
Lemma blocked_now_agree t now x y :
  (t <= now)%Z -> agree (bl mb_expiresAt) (bl id) block_entry t x y -> blocked_now now x = spec_blocked now y.
Proof.
  intros Ht Hx. destruct (agree_cases _ _ _ block_entry_live (bl_mono _) (bl_mono _) t now x y Ht Hx)
    as [(a & b & -> & -> & _ & H1 & H2)|[H1 H2]].
  - cbn. unfold bl in *. cbn in *. congruence.
  - transitivity false; [|symmetry].
    + destruct x as [a|]; [apply (H1 a eq_refl)|done].
    + destruct y as [b|]; [apply (H2 b eq_refl)|done].
Qed.

Lemma live_value_agree {A} t now (x y : option (A * time)) :
  (t <= now)%Z -> agree (sl snd) (sl snd) eq t x y ->
  live_value now x = live_value now y /\ (is_Some (live_value now y) -> x = y).
Proof.
  intros Ht Hx. destruct (agree_cases _ _ _ (eq_live snd) (sl_mono snd) (sl_mono snd) t now x y Ht Hx)
    as [([d e] & b & -> & -> & <- & H1 & H2)|[H1 H2]]; [done|].
  assert (Hy : live_value now y = None).
  { destruct y as [[d e]|]; [|done]. cbn. specialize (H2 _ eq_refl). unfold sl in H2. cbn in *. by rewrite H2. }
  rewrite Hy. split; [|by intros [? ?]]. destruct x as [[d e]|]; [|done]. cbn. specialize (H1 _ eq_refl).
  unfold sl in H1. cbn in *. by rewrite H1.
Qed.

(** Taking an entry out: an expired one may go on one side only. *)
Lemma consume_agree {A} t k (m n : gmap string (A * time)) :
  agree_map (sl snd) (sl snd) eq t (fun j => m !! j) (fun j => n !! j) ->
  live_value t (m !! k) = (spec_consume t k n).1 /\
  agree_map (sl snd) (sl snd) eq t (fun j => delete k m !! j) (fun j => (spec_consume t k n).2 !! j).
Proof.
  intros Hm. destruct (live_value_agree t t _ _ (Z.le_refl t) (Hm k)) as [Hv Hs]. unfold spec_consume.
  rewrite Hv. destruct (live_value t (n !! k)) as [d|] eqn:E; (split; [done|]); cbn [fst snd].
  - by apply agree_delete.
  - eapply agree_map_set with (k := k); [apply _|exact Hm| |].
    + intros j Hj. by rewrite lookup_delete_ne.
    + rewrite lookup_delete_eq. unfold agree. destruct (n !! k) as [[d x]|]; [|done]. cbn in E.
      unfold sl. cbn. by destruct (x <? t)%Z.
Qed.

Lemma memory_state_live now (A : Type) (d : A) x :
  live_value now (Some (d, x)) = if (x <? now)%Z then None else Some d.
Proof. cbn. by destruct (x <? now)%Z. Qed.

Lemma MemoryStore_IsUserBlocked_state e u i s : (MemoryStore_IsUserBlocked e u i s).2 = s.
Proof. unfold MemoryStore_IsUserBlocked. destruct (userBlocks s !! u); [by destruct (negb _)|done]. Qed.

Lemma memory_call now o s a :
  memory_sim now s a -> admissible now o a ->
  (call (at_time now) o s).1 = (call (H := SpecStore) (at_time now) o a).1 /\
  memory_sim now (call (at_time now) o s).2 (call (H := SpecStore) (at_time now) o a).2.
Proof.
  intros Hs Ha. pose proof Hs as [H1 H2 H3 H4 H5].
  destruct o; cbn [call on_fst BlockToken IsTokenBlocked BlockUser IsUserBlocked UnblockUser BlockSessions
    IsSessionBlocked SaveOIDCState ConsumeOIDCState SaveCLIAuth GetCLIAuth UpdateCLIAuth ConsumeCLIAuth Cleanup
    MemoryStore_store SpecStore fst snd sv_now at_time].
  - split; [done|]. split; cbn; try done. apply agree_insert; [done|]. by left.
  - split; [|done]. unfold MemoryStore_IsTokenBlocked, MemoryStore_IsSessionBlocked. cbn [fst at_time sv_now].
    do 2 f_equal. by apply (blocked_now_agree now).
  - split; [done|]. split; cbn; try done. apply agree_insert; [done|]. left. by split.
  - split; [|by rewrite MemoryStore_IsUserBlocked_state]. unfold MemoryStore_IsUserBlocked, spec_user_blocked.
    cbn [at_time sv_now]. destruct (agree_cases _ _ _ user_entry_live (bl_mono _) (bl_mono _) now now _ _ (Z.le_refl now) (H2 userID))
      as [(e & p & -> & -> & [-> Hp] & Hl & _)|[Hl1 Hl2]].
    + unfold bl in Hl. cbn in Hl. destruct p as [b u]. cbn in *. rewrite Hl. cbn.
      rewrite (proj2 (Z.ltb_lt 0%Z (UnixMilli b))) by (unfold msTimestampMin in *; lia).
      rewrite userBlockTime_itoa, userBlockApplies_ms by (unfold msTimestampMin in *; lia). done.
    + destruct (userBlocks s !! userID) as [e|]; [specialize (Hl1 _ eq_refl); unfold bl in Hl1; cbn in Hl1; rewrite Hl1|];
        (destruct (sp_users a !! userID) as [[b u]|]; [specialize (Hl2 _ eq_refl); unfold bl in Hl2; cbn in Hl2|]); cbn;
        rewrite ?Hl2; done.
  - split; [done|]. split; cbn; try done. by apply agree_delete.
  - split; [done|]. split; cbn; try done. by apply block_sessions_agree.
  - split; [|done]. unfold MemoryStore_IsTokenBlocked, MemoryStore_IsSessionBlocked. cbn [fst at_time sv_now].
    do 2 f_equal. by apply (blocked_now_agree now).
  - split; [done|]. split; cbn; try done. apply agree_insert; [done|]. by left.
  - destruct (consume_agree now state _ _ H4) as [Hv Hc]. unfold MemoryStore_ConsumeOIDCState. cbn [at_time sv_now].
    rewrite <- Hv. destruct (oidcStates s !! state) as [[d x]|] eqn:E.
    + rewrite memory_state_live. destruct (x <? now)%Z; (split; [done|by split]).
    + split; [done|]. split; try done. cbn. by rewrite delete_id in Hc.
  - split; [done|]. split; cbn; try done. apply agree_insert; [done|]. by left.
  - destruct (live_value_agree now now _ _ (Z.le_refl now) (H5 sid)) as [Hv _]. rewrite <- Hv.
    unfold MemoryStore_GetCLIAuth. cbn [at_time sv_now]. destruct (cliAuths s !! sid) as [[d x]|] eqn:E; [|by split].
    rewrite memory_state_live in Hv |- *. destruct (x <? now)%Z eqn:Ex; [|by split]. split; [done|].
    split; try done. cbn. destruct (consume_agree now sid _ _ H5) as [_ Hc]. unfold spec_consume in Hc.
    by rewrite <- Hv in Hc.
  - destruct (live_value_agree now now _ _ (Z.le_refl now) (H5 sid)) as [Hv Hsame].
    unfold MemoryStore_UpdateCLIAuth. cbn [at_time sv_now].
    destruct (sp_cli a !! sid) as [[d' x']|] eqn:E'; cbn [live_value] in *.
    + destruct (state_live now x') eqn:Ex'.
      * rewrite (Hsame ltac:(by eexists)). cbn in Ex'. apply negb_true_iff in Ex'. rewrite Ex'. split; [done|].
        split; try done. cbn. apply agree_insert; [done|]. by left.
      * destruct (cliAuths s !! sid) as [[d x]|] eqn:E; [|by split]. rewrite memory_state_live in Hv.
        destruct (x <? now)%Z eqn:Ex; [|done]. split; [done|]. split; try done. cbn.
        destruct (consume_agree now sid _ _ H5) as [_ Hc]. unfold spec_consume in Hc.
        rewrite E' in Hc. cbn [live_value] in Hc. by rewrite Ex' in Hc.
    + pose proof (H5 sid) as Hx. unfold agree in Hx. cbn in Hx. rewrite E' in Hx.
      destruct (cliAuths s !! sid); [done|]. by split.
  - destruct (consume_agree now sid _ _ H5) as [Hv Hc]. unfold MemoryStore_ConsumeCLIAuth. cbn [at_time sv_now].
    rewrite <- Hv. destruct (cliAuths s !! sid) as [[d x]|] eqn:E.
    + rewrite memory_state_live. destruct (x <? now)%Z; (split; [done|by split]).
    + split; [done|]. split; try done. cbn. by rewrite delete_id in Hc.
  - split; [done|]. assert (Hb : forall e : memBlockEntry, (mb_expiresAt e < now)%Z -> bl mb_expiresAt now e = false).
    { intros e He. apply Z.ltb_ge. lia. }
    assert (Hl : forall (A : Type) (p : A * time), (p.2 < now)%Z -> sl snd now p = false).
    { intros A p Hp. apply negb_false_iff, Z.ltb_lt, Hp. }
    split; (eapply unexpired_agree; [| | | |apply Z.le_refl|eassumption]);
      first [exact block_entry_live|exact user_entry_live|exact (eq_live snd)|apply bl_mono|apply sl_mono|exact Hb|apply Hl].
Qed.

#[global] Program Instance memory_implements : Implements memory_expiry MemoryStore NewMemoryStore := {
  sim := memory_sim
}.
Next Obligation. intros t. split; intros k; cbn; by rewrite !lookup_empty. Qed.
Next Obligation.
  intros t now o s a Hs Ht Ha. apply memory_call; [|done]. by eapply memory_sim_mono.
Qed.

(** ** The store in the database implements the contract *)

Lemma Unix_mono t t' : (t <= t')%Z -> (Unix t <= Unix t')%Z.
Proof. intros H. apply Z.div_le_mono; [done|exact H]. Qed.
Lemma Unix_max a b : Unix (Z.max a b) = Z.max (Unix a) (Unix b).
Proof. pose proof (Unix_mono a b). pose proof (Unix_mono b a). destruct (Z.max_spec a b) as [[H1 ->]|[H1 ->]]; lia. Qed.

(** Expiries in whole seconds. *)
Program Definition mysql_expiry : Expiry := {|
  block_live now x := (Unix now <? Unix x)%Z;
  state_live now x := (Unix now <? Unix x)%Z
|}.
Next Obligation. intros t t' x H. pose proof (Unix_mono t t' H). rewrite !Z.ltb_lt. lia. Qed.
Next Obligation. intros t t' x H. pose proof (Unix_mono t t' H). rewrite !Z.ltb_lt. lia. Qed.

Section mysql.
#[local] Existing Instance mysql_expiry | 0.

Definition rl (t : time) (r : SessionEntry) : bool := (Unix t <? se_ExpiresAt r)%Z.
Lemma rl_mono t t' r : (t <= t')%Z -> rl t' r = true -> rl t r = true.
Proof. intros H. pose proof (Unix_mono t t' H). unfold rl. rewrite !Z.ltb_lt. lia. Qed.

Definition expiry_row (r : SessionEntry) (x : time) : Prop := se_ExpiresAt r = Unix x.
Definition time_row (f : time -> Z) (r : SessionEntry) (p : time * time) : Prop :=
  r = mkEntry (itoa (f p.1)) (Unix p.2) /\ (msTimestampMin <= UnixMilli p.1 < 2 ^ 63)%Z.
Definition data_row {A} (encode : A -> string) (valid : A -> bool) (r : SessionEntry) (p : A * time) : Prop :=
  r = mkEntry (encode p.1) (Unix p.2) /\ valid p.1 = true.

Definition oidc_encode (d : OIDCStateData) : string := json_object (oidc_members d).
Definition cli_encode (d : CLIAuthData) : string := json_object (cli_members d).

Definition rows (kind : string) (t : Table) (k : string) : option SessionEntry := t !! (k, kind).

Record mysql_sim (t : time) (s : Table) (a : Contract) : Prop := {
  my_tokens : agree_map rl (bl id) expiry_row t (rows kindTokenBlock s) (fun k => sp_tokens a !! k);
  my_users : agree_map rl (bl snd) (time_row Unix) t (rows kindUserBlock s) (fun k => sp_users a !! k);
  my_users_ms : agree_map rl (bl snd) (time_row UnixMilli) t (rows kindUserBlockMs s) (fun k => sp_users a !! k);
  my_sessions : agree_map rl (bl id) expiry_row t (rows kindSessionBlock s) (fun k => sp_sessions a !! k);
  my_oidc : agree_map rl (sl snd) (data_row oidc_encode valid_oidc) t (rows kindOIDCState s) (fun k => sp_oidc a !! k);
  my_cli : agree_map rl (sl snd) (data_row cli_encode valid_cli) t (rows kindCLIAuth s) (fun k => sp_cli a !! k)
}.

Lemma expiry_row_live t r x : expiry_row r x -> rl t r = bl id t x.
Proof. unfold rl, bl. by intros ->. Qed.
Lemma time_row_live f t r p : time_row f r p -> rl t r = bl snd t p.
Proof. by intros [-> _]. Qed.
Lemma data_row_live {A} (encode : A -> string) valid t r p : data_row encode valid r p -> rl t r = sl snd t p.
Proof. by intros [-> _]. Qed.

Lemma agree_map_ext {A B} la lb (P : A -> B -> Prop) t (f f' : string -> option A) (g g' : string -> option B) :
  (forall k, f' k = f k) -> (forall k, g' k = g k) -> agree_map la lb P t f g -> agree_map la lb P t f' g'.
Proof. intros Hf Hg Hm k. rewrite Hf, Hg. apply Hm. Qed.

Ltac live_facts := first [exact expiry_row_live|exact (time_row_live _)|exact (data_row_live _ _)|exact rl_mono
  |apply bl_mono|apply sl_mono].

Lemma mysql_sim_mono t t' s a : (t <= t')%Z -> mysql_sim t s a -> mysql_sim t' s a.
Proof.
  intros Ht [H1 H2 H3 H4 H5 H6]. split; (eapply agree_map_mono; [| |exact Ht|eassumption]); live_facts.
Qed.

(** Rows of another kind, and of the kind that changes. *)
Lemma rows_insert_other kind kind' k r s j : kind <> kind' -> rows kind (<[(k, kind') := r]> s) j = rows kind s j.
Proof. intros H. unfold rows. apply lookup_insert_ne. intros [=]. congruence. Qed.
Lemma rows_delete_other kind kind' k s j : kind <> kind' -> rows kind (delete (k, kind') s) j = rows kind s j.
Proof. intros H. unfold rows. apply lookup_delete_ne. intros [=]. congruence. Qed.
Lemma rows_insert kind k r s j : rows kind (<[(k, kind) := r]> s) j = if decide (j = k) then Some r else rows kind s j.
Proof.
  unfold rows. case_decide as H; [subst; by rewrite lookup_insert_eq|]. apply lookup_insert_ne. intros [=]. congruence.
Qed.
Lemma rows_delete kind k s j : rows kind (delete (k, kind) s) j = if decide (j = k) then None else rows kind s j.
Proof.
  unfold rows. case_decide as H; [subst; by rewrite lookup_delete_eq|]. apply lookup_delete_ne. intros [=]. congruence.
Qed.

Ltac same_rows tac :=
  match goal with
  | |- agree_map _ _ _ _ (rows ?kind _) _ =>
      match goal with
      | H : agree_map _ _ _ _ (rows kind _) _ |- _ => eapply agree_map_ext; [| |exact H]; [|done]; intros j; tac
      end
  end.
Ltac rows_other :=
  same_rows ltac:(unfold upsert_expiry, upsert_row;
    repeat first [rewrite rows_insert_other by discriminate|rewrite rows_delete_other by discriminate]; done).

(** One key changes on both sides. *)
Lemma rows_agree_insert {B} lb (P : SessionEntry -> B -> Prop) t kind s (n : gmap string B) k r y :
  agree_map rl lb P t (rows kind s) (fun k => n !! k) -> agree rl lb P t (Some r) (Some y) ->
  agree_map rl lb P t (rows kind (<[(k, kind) := r]> s)) (fun j => <[k := y]> n !! j).
Proof.
  intros Hm Hx. eapply agree_map_set with (k := k); [apply _|exact Hm| |].
  - intros j Hj. rewrite rows_insert, decide_False, lookup_insert_ne by done. done.
  - cbv beta. by rewrite rows_insert, decide_True, lookup_insert_eq by done.
Qed.
Lemma rows_agree_delete {B} lb (P : SessionEntry -> B -> Prop) t kind s (n : gmap string B) k :
  agree_map rl lb P t (rows kind s) (fun k => n !! k) ->
  agree_map rl lb P t (rows kind (delete (k, kind) s)) (fun j => delete k n !! j).
Proof.
  intros Hm. eapply agree_map_set with (k := k); [apply _|exact Hm| |].
  - intros j Hj. rewrite rows_delete, decide_False, lookup_delete_ne by done. done.
  - cbv beta. by rewrite rows_delete, decide_True, lookup_delete_eq by done.
Qed.

Lemma live_row_rows now k kind s :
  live_row now k kind s = match rows kind s k with Some r => if rl now r then Some r else None | None => None end.
Proof. done. Qed.

(** The live rows stand for the live entries. *)
Lemma live_row_agree {B} lb (P : SessionEntry -> B -> Prop) now kind s (g : string -> option B) k :
  (forall t r b, P r b -> rl t r = lb t b) -> (forall t t' b, (t <= t')%Z -> lb t' b = true -> lb t b = true) ->
  agree_map rl lb P now (rows kind s) g ->
  match g k with
  | Some b => if lb now b then exists r, live_row now k kind s = Some r /\ rows kind s k = Some r /\ P r b
              else live_row now k kind s = None
  | None => live_row now k kind s = None /\ rows kind s k = None
  end.
Proof.
  intros HP Hlb Hm. rewrite live_row_rows. pose proof (Hm k) as Hx. unfold agree in Hx.
  destruct (rows kind s k) as [r|], (g k) as [b|]; try done.
  - destruct Hx as [Hp|[H1 H2]].
    + rewrite (HP now r b Hp). destruct (lb now b); [by exists r|done].
    + by rewrite H1, H2.
  - by rewrite Hx.
Qed.

(** *** Encodings *)

Lemma oidc_decode_encode d : valid_oidc d = true -> oidc_decode (oidc_encode d) = Some d.
Proof.
  destruct d as [v r l]. unfold valid_oidc. cbn [oi_CodeVerifier oi_RedirectURL oi_LoopbackURL].
  rewrite !andb_true_iff. intros [[Hv Hr] Hl]. unfold oidc_decode, oidc_encode, oidc_members, omitempty.
  cbn [oi_CodeVerifier oi_RedirectURL oi_LoopbackURL].
  destruct (empty l) eqn:E; rewrite json_Unmarshal_object; cbn [app list_to_map foldr fst snd mbind option_bind].
  - apply empty_iff in E. subst l. done.
  - cbn. repeat constructor; set_solver.
  - by repeat constructor.
  - done.
  - cbn. repeat constructor; set_solver.
  - by repeat constructor.
Qed.

Lemma cli_decode_encode d : valid_cli d = true -> cli_decode (cli_encode d) = Some d.
Proof.
  destruct d as [tk u n st]. unfold valid_cli. cbn [ca_Token ca_UserID ca_Username ca_Status].
  rewrite !andb_true_iff. intros [[[Ht Hu] Hn] Hs]. unfold cli_decode, cli_encode, cli_members, omitempty.
  cbn [ca_Token ca_UserID ca_Username ca_Status].
  destruct (empty tk) eqn:E1, (empty u) eqn:E2, (empty n) eqn:E3;
    rewrite ?empty_iff in *; subst; (rewrite json_Unmarshal_object; [done|cbn; repeat constructor; set_solver|by repeat constructor]).
Qed.

Lemma cli_encode_inj d d' : valid_cli d = true -> valid_cli d' = true -> cli_encode d = cli_encode d' -> d = d'.
Proof. intros H H' E. apply cli_decode_encode in H, H'. rewrite E in H. congruence. Qed.

(** *** Blocking sessions *)

Lemma session_upsert_other kind x s k : kind <> kindSessionBlock -> forall j, rows kind (sessionBlockUpsert x s k) j = rows kind s j.
Proof. intros H j. unfold sessionBlockUpsert. by apply rows_insert_other. Qed.

Lemma session_upserts_other kind x ids : kind <> kindSessionBlock -> forall s j,
  rows kind (fold_left (sessionBlockUpsert x) ids s) j = rows kind s j.
Proof.
  intros H. induction ids as [|i ids IH]; intros s j; [done|]. cbn [fold_left]. by rewrite IH, session_upsert_other.
Qed.

Lemma session_upsert_agree t until sid s n :
  agree_map rl (bl id) expiry_row t (rows kindSessionBlock s) (fun k => n !! k) ->
  agree_map rl (bl id) expiry_row t (rows kindSessionBlock (sessionBlockUpsert (Unix until) s sid))
    (fun k => spec_block_session until n sid !! k).
Proof.
  intros Hm. unfold sessionBlockUpsert, spec_block_session. apply rows_agree_insert; [done|].
  pose proof (Hm sid) as Hx. unfold agree, rows in *. unfold rl, bl, expiry_row in *. cbn in *.
  destruct (s !! (sid, kindSessionBlock)) as [r|], (n !! sid) as [x|]; cbn in *; rewrite ?Unix_max, ?Z.ltb_ge in *; try done; lia.
Qed.

Lemma session_upserts_agree t until ids : forall s n,
  agree_map rl (bl id) expiry_row t (rows kindSessionBlock s) (fun k => n !! k) ->
  agree_map rl (bl id) expiry_row t (rows kindSessionBlock (fold_left (sessionBlockUpsert (Unix until)) ids s))
    (fun k => fold_left (spec_block_session until) ids n !! k).
Proof. induction ids as [|i ids IH]; intros s n Hm; [done|]. by apply IH, session_upsert_agree. Qed.

(** A second block until the same time changes nothing. *)
Lemma spec_block_again until n sid x :
  n !! sid = Some x -> (until <= x)%Z -> spec_block_session until n sid = n.
Proof. intros Hn Hx. unfold spec_block_session. rewrite Hn, Z.max_l by done. by apply insert_id. Qed.

Lemma spec_block_keeps until n sid k x :
  n !! k = Some x -> (until <= x)%Z -> exists y, spec_block_session until n sid !! k = Some y /\ (until <= y)%Z.
Proof.
  intros Hn Hx. unfold spec_block_session. destruct (decide (k = sid)) as [->|Hk].
  - rewrite lookup_insert_eq, Hn. eexists. split; [done|]. lia.
  - rewrite lookup_insert_ne by done. by exists x.
Qed.

Lemma spec_block_distinct until ids : forall seen n,
  (forall k, k ∈ seen -> exists x, n !! k = Some x /\ (until <= x)%Z) ->
  fold_left (spec_block_session until) ids n = fold_left (spec_block_session until) (distinct seen ids) n.
Proof.
  induction ids as [|i ids IH]; intros seen n Hs; [done|]. cbn [distinct fold_left]. case_bool_decide as Hi.
  - destruct (Hs i Hi) as (x & Hn & Hx). rewrite (spec_block_again until n i x) by done. by apply IH.
  - cbn [fold_left]. apply IH. intros k [->|Hk]%elem_of_cons.
    + unfold spec_block_session. rewrite lookup_insert_eq. eexists. split; [done|]. case_match; lia.
    + destruct (Hs k Hk) as (x & Hn & Hx). by eapply spec_block_keeps.
Qed.

(** Without a failure the batches block every session; the fuel is enough. *)
Lemma block_batches_ok e x total : forall fuel start entries s,
  (forall n, sv_fault e n = None) -> (length entries <= fuel)%nat ->
  block_batches fuel e x total start entries s = (None, fold_left (sessionBlockUpsert x) entries s).
Proof.
  induction fuel as [|fuel IH]; intros start entries s Hf Hl; [by destruct entries; [|cbn in Hl; lia]|].
  destruct entries as [|i entries]; [done|]. cbn [block_batches]. unfold stmt. rewrite Hf. cbn iota beta.
  rewrite IH; [|done|rewrite length_drop; unfold sessionBlockBatch; cbn [length] in *; lia].
  by rewrite <- fold_left_app, take_drop.
Qed.

Lemma mysql_blocked now kind s k (n : gmap string time) :
  agree_map rl (bl id) expiry_row now (rows kind s) (fun k => n !! k) ->
  bool_decide (is_Some (live_row now k kind s)) = spec_blocked now (n !! k).
Proof.
  intros Hm. pose proof (live_row_agree _ _ now kind s _ k expiry_row_live (bl_mono id) Hm) as Hx. cbv beta in Hx.
  unfold spec_blocked. destruct (n !! k) as [x|]; [|by destruct Hx as [-> _]].
  unfold bl in Hx. cbn [id] in Hx. destruct (block_live now x); [|by rewrite Hx].
  destruct Hx as (r & -> & _). by apply bool_decide_eq_true.
Qed.

(** Taking a row out. *)
Lemma mysql_consume {A} (encode : A -> string) valid (decode : string -> option A) now kind k s (n : gmap string (A * time)) :
  (forall d, valid d = true -> decode (encode d) = Some d) ->
  agree_map rl (sl snd) (data_row encode valid) now (rows kind s) (fun k => n !! k) ->
  decode_with decode (consume_row (at_time now) k kind s).1 = Ok (spec_consume now k n).1 /\
  agree_map rl (sl snd) (data_row encode valid) now (rows kind (consume_row (at_time now) k kind s).2)
    (fun j => (spec_consume now k n).2 !! j) /\
  forall kind', kind' <> kind -> forall j, rows kind' (consume_row (at_time now) k kind s).2 j = rows kind' s j.
Proof.
  intros Hd Hm. pose proof (live_row_agree _ _ now kind s _ k (data_row_live _ _) (sl_mono snd) Hm) as Hx. cbv beta in Hx.
  unfold consume_row, spec_consume. cbn [at_time sv_fault sv_now].
  destruct (n !! k) as [[d x]|]; cbn [live_value]; [|destruct Hx as [-> _]; by split_and!].
  unfold sl in Hx. cbn [snd] in Hx. destruct (state_live now x); [|rewrite Hx; by split_and!].
  destruct Hx as (r & -> & _ & [-> Hv]). unfold stmt. cbn [at_time sv_fault fst snd decode_with se_Data].
  rewrite Hd by done. split_and!; [done|by apply rows_agree_delete|]. intros kind' Hk j. by apply rows_delete_other.
Qed.

Lemma mysql_get {A} (encode : A -> string) valid (decode : string -> option A) now kind k s (n : gmap string (A * time)) :
  (forall d, valid d = true -> decode (encode d) = Some d) ->
  agree_map rl (sl snd) (data_row encode valid) now (rows kind s) (fun k => n !! k) ->
  decode_with decode (Ok (live_row now k kind s)) = Ok (live_value now (n !! k)).
Proof.
  intros Hd Hm. pose proof (live_row_agree _ _ now kind s _ k (data_row_live _ _) (sl_mono snd) Hm) as Hx. cbv beta in Hx.
  destruct (n !! k) as [[d x]|]; cbn [live_value]; [|by destruct Hx as [-> _]].
  unfold sl in Hx. cbn [snd] in Hx. destruct (state_live now x); [|by rewrite Hx].
  destruct Hx as (r & -> & _ & [-> Hv]). cbn. by rewrite Hd.
Qed.

Lemma mysql_user_blocked now u i s a :
  mysql_sim now s a ->
  MySQLStore_IsUserBlocked (at_time now) u i s = (Ok (spec_user_blocked now (sp_users a !! u) i), s).
Proof.
  intros [_ H1 H2 _ _ _]. unfold MySQLStore_IsUserBlocked. cbn [at_time sv_fault sv_now].
  pose proof (live_row_agree _ _ now _ s _ u (time_row_live Unix) (bl_mono snd) H1) as Hx.
  pose proof (live_row_agree _ _ now _ s _ u (time_row_live UnixMilli) (bl_mono snd) H2) as Hy. cbv beta in Hx, Hy.
  unfold spec_user_blocked. destruct (sp_users a !! u) as [[b x]|]; [|by destruct Hx as [-> _], Hy as [-> _]].
  unfold bl in Hx, Hy. cbn [snd] in Hx, Hy. destruct (block_live now x); [|by rewrite Hx, Hy].
  destruct Hx as (r1 & -> & _ & [-> Hr]), Hy as (r2 & -> & _ & [-> _]). cbn [fst snd] in *.
  change (se_Data <$> Some (mkEntry ?d ?y)) with (Some d). cbn [bool_decide andb]. cbn -[userBlockTime userBlockApplies UnixMilli].
  rewrite userBlockTime_itoa, userBlockApplies_ms by (unfold msTimestampMin in *; lia). done.
Qed.

Lemma fresh_row {B} lb (P : SessionEntry -> B -> Prop) t kind s (g : string -> option B) k :
  agree_map rl lb P t (rows kind s) g -> g k = None -> s !! (k, kind) = None.
Proof.
  intros Hm Hk. pose proof (Hm k) as Hx. rewrite Hk in Hx. unfold agree, rows in Hx.
  by destruct (s !! (k, kind)).
Qed.

Lemma mysql_update now k d s a :
  mysql_sim now s a -> admissible now (OpUpdateCLIAuth k d) a ->
  (MySQLStore_UpdateCLIAuth (at_time now) k d s).1 = (UpdateCLIAuth (SessionStore := SpecStore) (at_time now) k d a).1 /\
  mysql_sim now (MySQLStore_UpdateCLIAuth (at_time now) k d s).2
    (UpdateCLIAuth (SessionStore := SpecStore) (at_time now) k d a).2.
Proof.
  intros Hs [Hv Hne]. pose proof Hs as [H1 H2 H3 H4 H5 H6]. unfold MySQLStore_UpdateCLIAuth.
  pose proof (live_row_agree _ _ now _ s _ k (data_row_live _ _) (sl_mono snd) H6) as Hx. cbv beta in Hx.
  cbn [UpdateCLIAuth SpecStore at_time sv_fault sv_now].
  destruct (sp_cli a !! k) as [[d' x]|]; [|by destruct Hx as [-> _]].
  unfold sl in Hx. cbn [snd] in Hx. destruct (state_live now x); [|by rewrite Hx].
  destruct Hx as (r & -> & _ & [-> Hv']). unfold stmt. cbn [sv_fault fst snd se_Data se_ExpiresAt].
  fold (cli_encode d). cbn [fst] in *.
  rewrite bool_decide_eq_false_2; [|intros E; by apply (Hne d' x eq_refl), cli_encode_inj]. cbn [fst snd].
  split; [done|]. split; cbn; try rows_other. apply rows_agree_insert; [done|]. left. by split.
Qed.

Lemma mysql_call now o s a :
  mysql_sim now s a -> admissible now o a ->
  (call (at_time now) o s).1 = (call (H := SpecStore) (at_time now) o a).1 /\
  mysql_sim now (call (at_time now) o s).2 (call (H := SpecStore) (at_time now) o a).2.
Proof.
  intros Hs Ha. pose proof Hs as [H1 H2 H3 H4 H5 H6].
  destruct o; cbn [call on_fst BlockToken IsTokenBlocked BlockUser IsUserBlocked UnblockUser BlockSessions
    IsSessionBlocked SaveOIDCState ConsumeOIDCState SaveCLIAuth GetCLIAuth ConsumeCLIAuth Cleanup
    MySQLStore_store SpecStore fst snd sv_now].
  - unfold MySQLStore_BlockToken, stmt. cbn [at_time sv_fault fst snd]. split; [done|]. split; cbn; try rows_other.
    apply rows_agree_insert; [done|]. by left.
  - unfold MySQLStore_IsTokenBlocked, is_blocked. cbn [at_time sv_fault sv_now fst snd]. split; [|done].
    do 2 f_equal. by apply mysql_blocked.
  - unfold MySQLStore_BlockUser, stmt. cbn [at_time sv_fault sv_now fst snd]. split; [done|]. cbn in Ha.
    split; cbn; try rows_other.
    + eapply agree_map_ext; [intros j; unfold upsert_row; by rewrite rows_insert_other|done|].
      apply rows_agree_insert; [done|]. left. by split.
    + unfold upsert_row. apply rows_agree_insert; [rows_other|]. left. by split.
  - by rewrite (mysql_user_blocked now userID issuedAt s a Hs).
  - unfold MySQLStore_UnblockUser, stmt. cbn [at_time sv_fault fst snd]. split; [done|]. split; cbn; try rows_other.
    + apply rows_agree_delete. rows_other.
    + eapply agree_map_ext; [intros j; by rewrite rows_delete_other|done|]. by apply rows_agree_delete.
  - unfold MySQLStore_BlockSessions. rewrite block_batches_ok by done. cbn [fst snd]. split; [done|].
    rewrite (spec_block_distinct until ids []) by (intros k Hk; by apply elem_of_nil in Hk).
    split; cbn; try (same_rows ltac:(by apply session_upserts_other)).
    by apply session_upserts_agree.
  - unfold MySQLStore_IsSessionBlocked, is_blocked. cbn [at_time sv_fault sv_now fst snd]. split; [|done].
    do 2 f_equal. by apply mysql_blocked.
  - destruct Ha as [Hf Hv]. unfold MySQLStore_SaveOIDCState, insert_row.
    rewrite (fresh_row _ _ _ _ _ _ state H5 Hf). unfold stmt. cbn [at_time sv_fault sv_now fst snd].
    split; [done|]. split; cbn; try rows_other. apply rows_agree_insert; [done|]. left. by split.
  - unfold MySQLStore_ConsumeOIDCState.
    destruct (mysql_consume _ _ _ now _ state s _ oidc_decode_encode H5) as (Hv & Hc & Ho).
    destruct (consume_row _ _ _ _) as [r s']. cbn [fst snd] in *. split; [by rewrite Hv|].
    split; cbn; try (same_rows ltac:(by apply Ho)). done.
  - destruct Ha as [Hf Hv]. unfold MySQLStore_SaveCLIAuth, insert_row.
    rewrite (fresh_row _ _ _ _ _ _ sid H6 Hf). unfold stmt. cbn [at_time sv_fault sv_now fst snd].
    split; [done|]. split; cbn; try rows_other. apply rows_agree_insert; [done|]. left. by split.
  - unfold MySQLStore_GetCLIAuth. cbn [at_time sv_fault sv_now fst snd]. split; [|done].
    f_equal. by apply (mysql_get _ _ _ now _ sid s _ cli_decode_encode H6).
  - destruct (mysql_update now sid data s a Hs Ha) as [Hx Hy]. split; [f_equal; exact Hx|exact Hy].
  - unfold MySQLStore_ConsumeCLIAuth.
    destruct (mysql_consume _ _ _ now _ sid s _ cli_decode_encode H6) as (Hv & Hc & Ho).
    destruct (consume_row _ _ _ _) as [r s']. cbn [fst snd] in *. split; [by rewrite Hv|].
    split; cbn; try (same_rows ltac:(by apply Ho)). done.
  - unfold MySQLStore_Cleanup, stmt. cbn [at_time sv_fault sv_now fst snd]. split; [done|].
    split; (eapply agree_map_forget; [| | |eassumption|apply Z.le_refl|]); try live_facts; intros k; unfold rows;
      (destruct (filter _ s !! _) as [r|] eqn:E;
        [left; apply map_lookup_filter_Some in E as [-> _]; done|right; split; [done|]]);
      intros r Hr; (apply map_lookup_filter_None in E as [E|E]; [congruence|]); specialize (E r Hr); cbn in E;
      unfold rl; apply Z.ltb_ge; (destruct (decide (se_ExpiresAt r < Unix now)%Z); [lia|tauto]).
Qed.
End mysql.

#[global] Program Instance mysql_implements : Implements mysql_expiry Table (∅ : Table) := {
  sim := mysql_sim
}.
Next Obligation. intros t. split; intros k; unfold rows; cbn; by rewrite !lookup_empty. Qed.
Next Obligation.
  intros t now o s a Hs Ht Ha. apply mysql_call; [|done]. by eapply mysql_sim_mono.
Qed.

(** * What the stores promise *)

(** C23. Both session stores implement the contract of the interface: for every
    legal sequence of calls (cleanups included, at any points) they give the same
    answers as the store that never forgets an entry, with expiries to the
    nanosecond in memory and to the second in the database.  So a block is never
    lost before its expiry, neither by a cleanup, nor by a shorter block of the
    same session, nor by the batches of [BlockSessions]. *)
Theorem stores_refine_contract t tr :
  (legal (H := memory_expiry) t tr NewContract ->
   (run_store tr NewMemoryStore).1 = (run_store (H := SpecStore (H := memory_expiry)) tr NewContract).1) /\
  (legal (H := mysql_expiry) t tr NewContract ->
   (run_store tr (∅ : Table)).1 = (run_store (H := SpecStore (H := mysql_expiry)) tr NewContract).1).
Proof.
  split; intros Hl.
  - by eapply (run_sim (E := memory_expiry)), Hl; apply sim_new.
  - by eapply (run_sim (E := mysql_expiry)), Hl; apply sim_new.
Qed.

(** ** A failed batch *)

Lemma block_batches_prefix e x total : forall fuel start entries t,
  (length entries <= fuel)%nat ->
  let r := block_batches fuel e x total start entries t in
  exists k, r.2 = fold_left (sessionBlockUpsert x) (take k entries) t /\
  match r.1 with
  | None => (length entries <= k)%nat
  | Some err => exists n cause, (n < length entries)%nat /\ (n <= k)%nat /\ (sv_lost e = false -> k = n) /\
      err = EWrap ("blocked " +:+ itoa (Z.of_nat (start + n)) +:+ " of " +:+ itoa (Z.of_nat total) +:+ " sessions: ")
              cause ""
  end.
Proof.
  induction fuel as [|fuel IH]; intros start entries t Hl; cbv zeta.
  { destruct entries; [|cbn in Hl; lia]. exists 0%nat. split; [done|]. cbn. lia. }
  destruct entries as [|i entries]; [exists 0%nat; split; [done|cbn; lia]|]. cbn [block_batches]. set (l := i :: entries) in *.
  unfold stmt. destruct (sv_fault e (start / sessionBlockBatch)) as [cause|].
  - assert (H0 : (0 < length l)%nat) by (cbn; lia). destruct (sv_lost e) eqn:El; cbn [fst snd].
    + exists sessionBlockBatch. split; [done|]. exists 0%nat, cause. rewrite Nat.add_0_r. split_and!; [done|lia|done|done].
    + exists 0%nat. split; [done|]. exists 0%nat, cause. rewrite Nat.add_0_r. by split_and!.
  - cbn [fst snd]. set (t1 := fold_left _ (take sessionBlockBatch l) t).
    destruct (IH (start + sessionBlockBatch)%nat (drop sessionBlockBatch l) t1) as (k & Hk & Hr).
    { rewrite length_drop. unfold sessionBlockBatch. cbn [length l] in *. lia. }
    exists (sessionBlockBatch + k)%nat. split.
    + rewrite Hk. unfold t1. rewrite <- fold_left_app. by rewrite take_take_drop.
    + destruct (block_batches _ _ _ _ _ _ _).1 as [err|].
      * destruct Hr as (d & c & H1 & H2 & H3 & ->). exists (sessionBlockBatch + d)%nat, c. rewrite length_drop in H1.
        split_and!; [lia|lia|intros El; by rewrite H3|]. by rewrite Nat.add_assoc.
      * rewrite length_drop in Hr. lia.
Qed.

(** A failure of [BlockSessions] in the database keeps what was written:
    the sessions before the failed batch (as many as the error says, in the order
    of the call, without repetitions) are blocked, with their later expiry kept, and
    no other row changes; without an error every session is blocked. *)
Theorem block_sessions_partial e ids until t :
  let entries := distinct [] ids in
  let r := MySQLStore_BlockSessions e ids until t in
  exists k, r.2 = fold_left (sessionBlockUpsert (Unix until)) (take k entries) t /\
  match r.1 with
  | None => (length entries <= k)%nat
  | Some err => exists n cause, (n < length entries)%nat /\ (n <= k)%nat /\ (sv_lost e = false -> k = n) /\
      err = EWrap ("blocked " +:+ itoa (Z.of_nat n) +:+ " of " +:+ itoa (Z.of_nat (length entries)) +:+ " sessions: ")
              cause ""
  end.
Proof. apply (block_batches_prefix e (Unix until) (length (distinct [] ids)) _ 0). done. Qed.

(** ** The check of a token *)

(** The claims of a JWT that the check reads. *)
Record Claims := mkClaims {
  cl_ID : string;
  cl_UserID : string;
  cl_SessionID : string;
  cl_IssuedAtMs : Z;
  cl_IssuedAt : option time
}.

Definition IssueTime (c : Claims) : option time :=
  If (0 <? cl_IssuedAtMs c)%Z Return Some (cl_IssuedAtMs c * Millisecond)%Z ;;
  match cl_IssuedAt c with
  | Some t => Some (Unix t * Second)%Z
  | None => None
  end.

(** The claims of a new token; the ID is a new UUID. *)
Definition newClaims (now : time) (jti userID sessionID : string) : Claims :=
  mkClaims jti userID sessionID (UnixMilli now) (Some now).

Definition ErrTokenRevoked := ESent "ErrTokenRevoked" "token revoked".
Definition ErrSessionRevoked := ESent "ErrSessionRevoked" "session revoked".

(** One check of [RevocationStatus]: skipped, failed, or answered. *)
Definition revocation_check {S} (skip : bool) (what : string) (revoked : goerr) (check : S -> res bool * S)
    (next : list goerr -> S -> (error * list goerr) * S) (errs : list goerr) (s : S) : (error * list goerr) * S :=
  If skip Return next errs s ;;
  match check s with
  | (Err e, s) => next (errs ++ [EWrap (what +:+ " blocklist: ") e ""])%list s
  | (Ok true, s) => ((Some revoked, errs), s)
  | (Ok false, s) => next errs s
  end.

(** [RevocationStatus]: the revocation and the joined store errors; the three
    calls see [e1], [e2] and [e3]. *)
Definition RevocationStatus {S} `{SessionStore S} (e1 e2 e3 : SEnv) (claims : option Claims) (s : S)
    : (error * list goerr) * S :=
  match claims with
  | None => ((None, []), s)
  | Some c =>
      revocation_check (empty (cl_ID c)) "token" ErrTokenRevoked (IsTokenBlocked e1 (cl_ID c))
        (revocation_check (empty (cl_SessionID c)) "session" ErrSessionRevoked (IsSessionBlocked e2 (cl_SessionID c))
          (revocation_check (empty (cl_UserID c)) "user" ErrSessionRevoked (IsUserBlocked e3 (cl_UserID c) (IssueTime c))
            (fun errs s => ((None, errs), s)))) [] s
  end.

(** [CheckRevocation] without the log; a nil store passes. *)
Definition CheckRevocation {S} `{SessionStore S} (e1 e2 e3 : SEnv) (store : option S) (claims : option Claims) : error :=
  match store with
  | None => None
  | Some s => (RevocationStatus e1 e2 e3 claims s).1.1
  end.

(** What the contract says of a token. *)
Definition spec_revocation `{Expiry} (now : time) (c : Claims) (a : Contract) : error :=
  If negb (empty (cl_ID c)) && spec_blocked now (sp_tokens a !! cl_ID c) Return Some ErrTokenRevoked ;;
  If negb (empty (cl_SessionID c)) && spec_blocked now (sp_sessions a !! cl_SessionID c) Return Some ErrSessionRevoked ;;
  If negb (empty (cl_UserID c)) && spec_user_blocked now (sp_users a !! cl_UserID c) (IssueTime c)
    Return Some ErrSessionRevoked ;;
  None.

Section client.
Context {E : Expiry} {S : Type} `{SessionStore S} {new : S} `{!Implements E S new}.

(** Every store that implements the contract answers as the contract does. *)
Lemma CheckRevocation_spec t now c s a :
  sim t s a -> (t <= now)%Z ->
  CheckRevocation (at_time now) (at_time now) (at_time now) (Some s) (Some c) = spec_revocation now c a.
Proof.
  intros Hs Ht. unfold CheckRevocation, RevocationStatus, spec_revocation, revocation_check.
  destruct (empty (cl_ID c)); cbn [negb andb].
  2: destruct (sim_call t now (OpIsTokenBlocked (cl_ID c)) s a Hs Ht I) as [H1 H2]; cbn in H1, H2;
     destruct (IsTokenBlocked _ _ s) as [r s']; cbn [fst snd] in *; injection H1 as ->;
     destruct (spec_blocked now (sp_tokens a !! cl_ID c)); [done|]; clear Hs Ht; rename H2 into Hs;
     pose proof (Z.le_refl now) as Ht; clear s; rename s' into s.
  all: destruct (empty (cl_SessionID c)); cbn [negb andb].
  2,4: destruct (sim_call _ now (OpIsSessionBlocked (cl_SessionID c)) s a Hs Ht I) as [H1 H2]; cbn in H1, H2;
     destruct (IsSessionBlocked _ _ s) as [r s']; cbn [fst snd] in *; injection H1 as ->;
     destruct (spec_blocked now (sp_sessions a !! cl_SessionID c)); [done|]; clear Hs Ht; rename H2 into Hs;
     pose proof (Z.le_refl now) as Ht; clear s; rename s' into s.
  all: destruct (empty (cl_UserID c)); cbn [negb andb]; [done|].
  all: destruct (sim_call _ now (OpIsUserBlocked (cl_UserID c) (IssueTime c)) s a Hs Ht I) as [H1 _]; cbn in H1;
     destruct (IsUserBlocked _ _ _ s) as [r s']; cbn [fst snd] in *; injection H1 as ->;
     by destruct (spec_user_blocked _ _ _).
Qed.
End client.

(** *** What the calls after a block do to it *)

Definition touches_user (u : string) (o : sop) : bool :=
  match o with OpBlockUser v _ | OpUnblockUser v => bool_decide (v = u) | _ => false end.
Definition blocks_token (jti : string) (o : sop) : bool :=
  match o with OpBlockToken j _ => bool_decide (j = jti) | _ => false end.
Definition blocks_session (sid : string) (o : sop) : bool :=
  match o with OpBlockSessions ids _ => bool_decide (sid ∈ ids) | _ => false end.

Lemma spec_sessions_other until ids sid : forall m,
  sid ∉ ids -> fold_left (spec_block_session until) ids m !! sid = m !! sid.
Proof.
  induction ids as [|i ids IH]; intros m Hn; [done|]. apply not_elem_of_cons in Hn as [H1 H2]. cbn [fold_left].
  rewrite IH by done. unfold spec_block_session. by rewrite lookup_insert_ne.
Qed.

Lemma spec_call_frame `{Expiry} now o a :
  (forall u, touches_user u o = false ->
     sp_users (call (H := SpecStore) (at_time now) o a).2 !! u = sp_users a !! u) /\
  (forall j, blocks_token j o = false ->
     sp_tokens (call (H := SpecStore) (at_time now) o a).2 !! j = sp_tokens a !! j) /\
  (forall i, blocks_session i o = false ->
     sp_sessions (call (H := SpecStore) (at_time now) o a).2 !! i = sp_sessions a !! i).
Proof.
  split_and!; intros k Hk; destruct o; cbn; try done; cbn in Hk;
    try (apply bool_decide_eq_false in Hk); rewrite ?lookup_insert_ne, ?lookup_delete_ne by done; try done.
  all: repeat case_match; try done. by apply spec_sessions_other.
Qed.

Lemma spec_run_frame `{Expiry} tr : forall a,
  (forall u, Forall (fun p => touches_user u p.2 = false) tr ->
     sp_users (run_store (H := SpecStore) tr a).2 !! u = sp_users a !! u) /\
  (forall j, Forall (fun p => blocks_token j p.2 = false) tr ->
     sp_tokens (run_store (H := SpecStore) tr a).2 !! j = sp_tokens a !! j) /\
  (forall i, Forall (fun p => blocks_session i p.2 = false) tr ->
     sp_sessions (run_store (H := SpecStore) tr a).2 !! i = sp_sessions a !! i).
Proof.
  induction tr as [|[now o] tr IH]; intros a; [done|].
  destruct (spec_call_frame now o a) as (F1 & F2 & F3).
  destruct (IH (call (H := SpecStore) (at_time now) o a).2) as (G1 & G2 & G3).
  split_and!; intros k [Ho Hr]%Forall_cons; cbn [run_store snd] in *.
  - rewrite (G1 k Hr). by apply F1.
  - rewrite (G2 k Hr). by apply F2.
  - rewrite (G3 k Hr). by apply F3.
Qed.

Lemma run_store_app {S} `{SessionStore S} tr1 tr2 : forall s,
  (run_store (tr1 ++ tr2)%list s).2 = (run_store tr2 (run_store tr1 s).2).2.
Proof. induction tr1 as [|[now o] tr1 IH]; intros s; [done|]. apply IH. Qed.

(** The time after a run. *)
Definition end_time (t : time) (tr : list (time * sop)) : time := fold_left (fun _ p => p.1) tr t.

Lemma run_sim_end {E : Expiry} {S} `{SessionStore S} {new : S} `{!Implements E S new} tr : forall t s a,
  sim t s a -> legal t tr a -> sim (end_time t tr) (run_store tr s).2 (run_store (H := SpecStore) tr a).2.
Proof.
  induction tr as [|[now o] tr IH]; intros t s a Hs Hl; [done|]. cbn in Hl |- *.
  destruct Hl as (Ht & Ha & Hl). apply IH; [|done]. by apply (sim_call t).
Qed.

Lemma UnixMilli_ms ms : UnixMilli (ms * Millisecond) = ms.
Proof. unfold UnixMilli. by apply Z.div_mul. Qed.

(** A user block cuts exactly at its millisecond, in every store that
    implements the contract.  After [BlockUser] at [tb], and whatever calls
    follow that do not block or unblock this user again (cleanups included), up to
    the end of the block every token of the user that was issued in the
    millisecond of the block or before is refused; and a token of the user that
    was issued in a later millisecond passes, unless its own ID or its session is
    blocked. *)
Theorem user_block_rule {E : Expiry} {S} `{SessionStore S} {new : S} `{!Implements E S new}
    t0 tr1 tr2 tb until u now ti jti sid :
  legal t0 (tr1 ++ (tb, OpBlockUser u until) :: tr2)%list NewContract ->
  Forall (fun p => touches_user u p.2 = false) tr2 ->
  (end_time tb tr2 <= now)%Z -> block_live now until = true -> u <> "" -> (0 < UnixMilli ti)%Z ->
  let s := (run_store (tr1 ++ (tb, OpBlockUser u until) :: tr2)%list new).2 in
  let answer := CheckRevocation (at_time now) (at_time now) (at_time now) (Some s) (Some (newClaims ti jti u sid)) in
  ((UnixMilli ti <= UnixMilli tb)%Z -> is_Some answer) /\
  ((UnixMilli tb < UnixMilli ti)%Z ->
   Forall (fun p => blocks_token jti p.2 = false) (tr1 ++ tr2)%list ->
   Forall (fun p => blocks_session sid p.2 = false) (tr1 ++ tr2)%list -> answer = None).
Proof.
  intros Hl Hu Hend Hlive Hne Hti. cbv zeta. set (tr := (tr1 ++ (tb, OpBlockUser u until) :: tr2)%list) in *.
  pose proof (run_sim_end tr t0 new NewContract (sim_new t0) Hl) as Hs.
  set (a := (run_store (H := SpecStore) tr NewContract).2) in *.
  assert (Hnow : (end_time t0 tr <= now)%Z) by (unfold tr, end_time in *; by rewrite fold_left_app).
  rewrite (CheckRevocation_spec _ _ _ _ _ Hs Hnow). unfold spec_revocation, newClaims, IssueTime.
  cbn [cl_ID cl_UserID cl_SessionID cl_IssuedAtMs].
  assert (Hau : sp_users a !! u = Some (tb, until)).
  { unfold a, tr. rewrite run_store_app. cbn [run_store snd]. destruct (spec_run_frame tr2
      (call (H := SpecStore) (at_time tb) (OpBlockUser u until) (run_store (H := SpecStore) tr1 NewContract).2).2) as (F & _).
    rewrite (F u Hu). cbn. by rewrite lookup_insert_eq. }
  rewrite Hau, (proj2 (empty_false u) Hne), (proj2 (Z.ltb_lt 0%Z (UnixMilli ti)) Hti). cbn [negb andb spec_user_blocked].
  rewrite Hlive, UnixMilli_ms. cbn [andb]. split.
  - intros Hle. rewrite (proj2 (Z.leb_le _ _) Hle). repeat case_match; by eexists.
  - intros Hlt Hj Hi. rewrite (proj2 (Z.leb_gt _ _) Hlt).
    assert (Hrest : sp_tokens a !! jti = None /\ sp_sessions a !! sid = None).
    { apply Forall_app in Hj as [Hj1 Hj2], Hi as [Hi1 Hi2]. destruct (spec_run_frame tr NewContract) as (_ & F2 & F3).
      split; [apply F2|apply F3]; apply Forall_app; (split; [done|]); by apply Forall_cons. }
    destruct Hrest as [-> ->]. cbn [spec_blocked]. by rewrite !andb_false_r.
Qed.

(** ** Examples *)

(** Alice is blocked at 12:00 (in seconds since 1970), the store is cleaned a
    minute later. *)
Definition noon : time := (1800000000 * Second)%Z.
Definition block_run : list (time * sop) :=
  [(noon, OpBlockUser "alice" (noon + 3600 * Second)%Z); (noon + 60 * Second, OpCleanup)%Z;
   (noon + 61 * Second, OpIsUserBlocked "alice" (Some noon))%Z;
   (noon + 62 * Second, OpIsUserBlocked "alice" (Some (noon + Second)))%Z].

Lemma block_run_legal `{Expiry} : legal 0 block_run NewContract.
Proof. unfold block_run, noon. cbn. split_and!; try done. Qed.

Lemma stores_refine_contract_witness :
  (run_store block_run NewMemoryStore).1 =
    [ADone None; ADone None; ABlocked (Ok true); ABlocked (Ok false)] /\
  (run_store block_run NewMemoryStore).1 =
    (run_store (H := SpecStore (H := memory_expiry)) block_run NewContract).1 /\
  (run_store block_run (∅ : Table)).1 =
    (run_store (H := SpecStore (H := mysql_expiry)) block_run NewContract).1.
Proof.
  split; [vm_compute; reflexivity|].
  destruct (stores_refine_contract 0 block_run) as [Hm Hd]. split.
  - apply Hm, block_run_legal.
  - apply Hd, block_run_legal.
Defined.

(** A token that Alice got at noon, and one that she gets a second later. *)
Lemma user_block_rule_witness :
  let s := (run_store block_run (∅ : Table)).2 in
  let check ti := CheckRevocation (at_time (noon + 63 * Second)) (at_time (noon + 63 * Second))
                    (at_time (noon + 63 * Second)) (Some s) (Some (newClaims ti "jti" "alice" "sid")) in
  is_Some (check noon) /\ check (noon + Second)%Z = None.
Proof.
  assert (Hu : Forall (fun p => touches_user "alice" p.2 = false) (tl block_run)) by (repeat constructor).
  pose proof (user_block_rule (E := mysql_expiry) (new := (∅ : Table)) 0 [] (tl block_run) noon (noon + 3600 * Second)%Z
    "alice" (noon + 63 * Second)%Z noon "jti" "sid" block_run_legal Hu ltac:(vm_compute; discriminate) eq_refl
    ltac:(discriminate) ltac:(vm_compute; reflexivity)) as [H1 _].
  pose proof (user_block_rule (E := mysql_expiry) (new := (∅ : Table)) 0 [] (tl block_run) noon (noon + 3600 * Second)%Z
    "alice" (noon + 63 * Second)%Z (noon + Second)%Z "jti" "sid" block_run_legal Hu ltac:(vm_compute; discriminate) eq_refl
    ltac:(discriminate) ltac:(vm_compute; reflexivity)) as [_ H2].
  split.
  - apply H1. vm_compute. discriminate.
  - apply H2; [vm_compute; reflexivity|repeat constructor|repeat constructor].
Defined.

(** The stores differ on an update that changes nothing: MySQL counts no row, so
    the session counts as missing, while the store in memory accepts it. *)
Definition cli_pending : CLIAuthData := mkCLI "" "" "" "pending".
Definition update_run : list (time * sop) :=
  [(noon, OpSaveCLIAuth "s1" cli_pending (600 * Second)); (noon + Second, OpUpdateCLIAuth "s1" cli_pending)%Z].
Example update_unchanged_differs :
  (run_store update_run NewMemoryStore).1 = [ADone None; ADone None] /\
  (run_store update_run (∅ : Table)).1 = [ADone None; ADone (Some ErrSessionNotFound)].
Proof. vm_compute. done. Qed.
