(* ===== verification/Values.v ===== *)
(** * Values of charts

    [helm/values_generator.go]: the layers of values of a chart are parsed, merged
    (shared values, defaults, overrides, locked values, the later one wins) and their
    strings are expanded as templates.  The YAML library and [text/template] are
    classes.  A Go map is an association list with unique keys; its order is not
    observable (the loops of the code over a map touch every key once).  The zip
    export and the wording of YAML errors are left out. *)

From S2P Require Import Prelude Models Naming.
Local Open Scope string_scope.
#[local] Set Warnings "-register-all".

(** ** YAML values *)

(** A decoded value.  [YOther] is a number, a boolean or a time stamp, with its
    text; [YAnyMap] is a [map[interface{}]interface{}] (a map with a key that is no
    string), with the texts of its keys as [%v] prints them. *)
Inductive yval :=
| YNull
| YString (s : string)
| YOther (text : string)
| YList (l : list yval)
| YMap (m : list (string * yval))
| YAnyMap (m : list (string * yval)).

Definition ymap : Type := list (string * yval).

Fixpoint alookup (k : string) (m : ymap) : option yval :=
  match m with
  | [] => None
  | (k', v) :: m' => if bool_decide (k' = k) then Some v else alookup k m'
  end.
Fixpoint aset (k : string) (v : yval) (m : ymap) : ymap :=
  match m with
  | [] => [(k, v)]
  | (k', v') :: m' => if bool_decide (k' = k) then (k, v) :: m' else (k', v') :: aset k v m'
  end.
Fixpoint adel (k : string) (m : ymap) : ymap :=
  match m with
  | [] => []
  | (k', v') :: m' => if bool_decide (k' = k) then adel k m' else (k', v') :: adel k m'
  end.
Definition akeys (m : ymap) : list string := List.map fst m.

(** [toMap] of a map with keys of any type: of two keys with the same text the
    last one stays. *)
Fixpoint any_entries (m : ymap) : ymap :=
  match m with
  | [] => []
  | (k, v) :: m' => if bool_decide (k ∈ akeys m') then any_entries m' else (k, v) :: any_entries m'
  end.
Definition toMap (v : yval) : option ymap :=
  match v with
  | YMap m => Some m
  | YAnyMap m => Some (any_entries m)
  | _ => None
  end.

(** ** Merge *)

(** What a key of the source does to the output; [merge] merges two values that
    both exist. *)
Definition put_with (merge : yval -> yval -> yval) (out : ymap) (k : string) (v : yval) : ymap :=
  match v with
  | YNull => adel k out
  | _ => match alookup k out with
         | None => aset k v out
         | Some old => aset k (merge v old) out
         end
  end.

(** The new value of a key: two maps are merged, else the source replaces. *)
Fixpoint merge_val (sv dv : yval) {struct sv} : yval :=
  match sv with
  | YMap sm =>
      match toMap dv with
      | None => sv
      | Some dm =>
          YMap ((fix go (l : ymap) (out : ymap) : ymap :=
                   match l with
                   | [] => out
                   | (k, v) :: l' => go l' (put_with (fun _ old => merge_val v old) out k v)
                   end) sm dm)
      end
  | YAnyMap sm =>
      match toMap dv with
      | None => sv
      | Some dm =>
          YMap ((fix go (l : ymap) (out : ymap) : ymap :=
                   match l with
                   | [] => out
                   | (k, v) :: l' =>
                       if bool_decide (k ∈ akeys l') then go l' out
                       else go l' (put_with (fun _ old => merge_val v old) out k v)
                   end) sm dm)
      end
  | _ => sv
  end.

Definition deepMerge (dst src : ymap) : ymap :=
  fold_left (fun out kv => put_with merge_val out kv.1 kv.2) src dst.

(** ** Templates *)

Record TemplateVars := mkVars {
  tv_Branch : string;
  tv_ImageTag : string;
  tv_Namespace : string;
  tv_InstanceName : string;
  tv_StackName : string;
  tv_Owner : string
}.

(** [text/template] with the registered functions, and [yaml.v3]: [Unmarshal] into
    a map (null is none) and the encoder. *)
Class Template := {
  template : Type;
  Parse : string -> res template;
  Execute : template -> TemplateVars -> res string
}.
Class Yaml := {
  Unmarshal : string -> res (option ymap);
  Encode : ymap -> res string
}.

Section generate.
Context `{Template} `{Yaml}.

Definition substituteString (s : string) (vars : TemplateVars) : res yval :=
  If negb (Contains s "{{") Return Ok (YString s) ;;
  t <-r res_wrap ("parsing template " +:+ quote s +:+ ": ") (Parse s) ;;
  text <-r res_wrap ("executing template " +:+ quote s +:+ ": ") (Execute t vars) ;;
  Ok (YString text).

Fixpoint substituteValue (v : yval) (vars : TemplateVars) : res yval :=
  match v with
  | YString s => substituteString s vars
  | YMap m =>
      m' <-r (fix go (l : ymap) : res ymap :=
                match l with
                | [] => Ok []
                | (k, v) :: l' =>
                    v' <-r res_wrap ("key " +:+ quote k +:+ ": ") (substituteValue v vars) ;;
                    r <-r go l' ;;
                    Ok ((k, v') :: r)
                end) m ;;
      Ok (YMap m')
  | YList l =>
      l' <-r (fix go (l : list yval) : res (list yval) :=
                match l with
                | [] => Ok []
                | v :: l' => v' <-r substituteValue v vars ;; r <-r go l' ;; Ok (v' :: r)
                end) l ;;
      Ok (YList l')
  | v => Ok v
  end.
Definition substituteVars (m : ymap) (vars : TemplateVars) : res ymap :=
  v <-r substituteValue (YMap m) vars ;;
  match v with YMap m' => Ok m' | _ => Ok [] end.

(** ** The generator *)

Definition parseYAML (s : string) : res ymap :=
  let s := TrimSpace s in
  If empty s Return Ok [] ;;
  m <-r Unmarshal s ;;
  Ok (default [] m).

Definition marshalYAML (m : ymap) : res string :=
  match m with
  | [] => Ok ("{}" +:+ bytes [10])
  | _ => res_wrap "marshaling YAML: " (Encode m)
  end.

Record GenerateParams := mkGenerate {
  gp_ChartName : string;
  gp_DefaultValues : string;
  gp_LockedValues : string;
  gp_OverrideValues : string;
  gp_SharedValues : list string;
  gp_ChartBranch : string;
  gp_TemplateVars : TemplateVars
}.

(** The shared values that parse; the others are skipped. *)
Definition sharedLayers (l : list string) : list ymap :=
  List.concat (List.map (fun s => match parseYAML s with Ok m => [m] | Err _ => [] end) l).

(** The layers, the one that wins last. *)
Definition layers (p : GenerateParams) : res (list ymap) :=
  defaults <-r res_wrap "parsing default values: " (parseYAML (gp_DefaultValues p)) ;;
  overrides <-r res_wrap "parsing override values: " (parseYAML (gp_OverrideValues p)) ;;
  locked <-r res_wrap "parsing locked values: " (parseYAML (gp_LockedValues p)) ;;
  Ok (sharedLayers (gp_SharedValues p) ++ [defaults; overrides; locked])%list.

Definition chartVars (p : GenerateParams) : TemplateVars :=
  let v := gp_TemplateVars p in
  If empty (gp_ChartBranch p) Return v ;;
  mkVars (gp_ChartBranch p) (SanitizeImageTag (gp_ChartBranch p)) (tv_Namespace v) (tv_InstanceName v)
    (tv_StackName v) (tv_Owner v).

Definition mergeLayers (l : list ymap) : ymap := fold_left deepMerge l [].

(** The map that is encoded. *)
Definition generatedMap (p : GenerateParams) : res ymap :=
  ls <-r layers p ;;
  res_wrap "substituting template variables: " (substituteVars (mergeLayers ls) (chartVars p)).
Definition GenerateValues (p : GenerateParams) : res string :=
  m <-r generatedMap p ;;
  marshalYAML m.

(** [GenerateAllValues]; the template variables are shared. *)
Fixpoint GenerateAllValues (charts : list GenerateParams) (vars : TemplateVars) (result : gmap string string)
    : res (gmap string string) :=
  match charts with
  | [] => Ok result
  | c :: rest =>
      let c := mkGenerate (gp_ChartName c) (gp_DefaultValues c) (gp_LockedValues c) (gp_OverrideValues c)
                 (gp_SharedValues c) (gp_ChartBranch c) vars in
      data <-r res_wrap ("generating values for chart " +:+ quote (gp_ChartName c) +:+ ": ") (GenerateValues c) ;;
      GenerateAllValues rest vars (<[gp_ChartName c := data]> result)
  end.
End generate.

(** * The merge *)

Lemma alookup_aset k k' v m : alookup k' (aset k v m) = if decide (k' = k) then Some v else alookup k' m.
Proof.
  induction m as [|[k0 v0] m IH]; cbn.
  - case_bool_decide; case_decide; congruence.
  - destruct (decide (k0 = k)) as [->|Hk]; [rewrite bool_decide_true by done|rewrite bool_decide_false by done].
    + cbn. case_bool_decide; case_decide; congruence.
    + cbn. rewrite IH. case_bool_decide; case_decide; congruence.
Qed.
Lemma alookup_adel k k' m : alookup k' (adel k m) = if decide (k' = k) then None else alookup k' m.
Proof.
  induction m as [|[k0 v0] m IH]; cbn; [by case_decide|].
  destruct (decide (k0 = k)) as [->|Hk]; [rewrite bool_decide_true by done|rewrite bool_decide_false by done].
  - rewrite IH. case_decide; [done|]. by rewrite bool_decide_false.
  - cbn. rewrite IH. case_bool_decide; case_decide; congruence.
Qed.
Lemma alookup_None k m : k ∉ akeys m -> alookup k m = None.
Proof.
  induction m as [|[k0 v0] m IH]; [done|]. cbn. rewrite not_elem_of_cons. intros [Hk Hm].
  rewrite bool_decide_false by done. by apply IH.
Qed.

(** The value of a key after the merge. *)
Definition merged (sv dv : option yval) : option yval :=
  match sv with
  | None => dv
  | Some YNull => None
  | Some v => Some (match dv with None => v | Some old => merge_val v old end)
  end.

Lemma put_lookup out k k' v :
  alookup k' (put_with merge_val out k v) =
  if decide (k' = k) then merged (Some v) (alookup k out) else alookup k' out.
Proof.
  unfold put_with, merged. destruct v; rewrite ?alookup_adel; try done; destruct (alookup k out); by rewrite alookup_aset.
Qed.

Lemma deepMerge_lookup src : forall dst k,
  NoDup (akeys src) -> alookup k (deepMerge dst src) = merged (alookup k src) (alookup k dst).
Proof.
  unfold deepMerge. induction src as [|[k0 v0] src IH]; intros dst k Hn; [done|].
  cbn [akeys List.map] in Hn. apply NoDup_cons in Hn as [Hk Hn]. cbn [fold_left alookup fst snd]. rewrite IH by done.
  rewrite put_lookup. case_decide as Hd.
  - subst k0. rewrite bool_decide_true, (alookup_None _ src) by done. done.
  - rewrite bool_decide_false by congruence. done.
Qed.

(** Maps are merged, anything else is replaced. *)
Lemma merge_val_YMap sm dv :
  merge_val (YMap sm) dv = match toMap dv with None => YMap sm | Some dm => YMap (deepMerge dm sm) end.
Proof.
  cbn [merge_val]. destruct (toMap dv) as [dm|]; [|done]. f_equal. unfold deepMerge. revert dm.
  induction sm as [|[k v] sm IH]; intros dm; [done|]. cbn [fold_left fst snd]. by rewrite <- IH.
Qed.
Lemma merge_val_YAnyMap sm dv :
  merge_val (YAnyMap sm) dv =
  match toMap dv with None => YAnyMap sm | Some dm => YMap (deepMerge dm (any_entries sm)) end.
Proof.
  cbn [merge_val]. destruct (toMap dv) as [dm|]; [|done]. f_equal. unfold deepMerge. revert dm.
  induction sm as [|[k v] sm IH]; intros dm; [done|]. cbn [any_entries]. case_bool_decide; [apply IH|].
  cbn [fold_left fst snd]. by rewrite <- IH.
Qed.

(** ** Paths *)

Fixpoint get (p : list string) (v : yval) : option yval :=
  match p with
  | [] => Some v
  | k :: p => match v with YMap m => alookup k m ≫= get p | _ => None end
  end.

(** Go maps have unique keys, at every depth. *)
Fixpoint wf (v : yval) : bool :=
  match v with
  | YMap m => bool_decide (NoDup (akeys m)) && forallb (fun kv => wf kv.2) m
  | YAnyMap m => forallb (fun kv => wf kv.2) m
  | YList l => forallb wf l
  | _ => true
  end.

(** A value that replaces whatever was there. *)
Definition leaf (v : yval) : bool :=
  match v with YString _ | YOther _ | YList _ => true | _ => false end.

(** A layer says nothing about a path: the walk ends at a missing key. *)
Fixpoint silent (p : list string) (v : yval) : bool :=
  match p with
  | [] => false
  | k :: p => match v with
              | YMap m => match alookup k m with None => true | Some v' => silent p v' end
              | _ => false
              end
  end.

Lemma wf_YMap m : wf (YMap m) = true <-> NoDup (akeys m) /\ forall k v, alookup k m = Some v -> wf v = true.
Proof.
  cbn. rewrite andb_true_iff, bool_decide_eq_true, List.forallb_forall. split; intros [Hn H]; (split; [done|]).
  - clear Hn. induction m as [|[k0 v0] m IH]; [done|]. intros k v. cbn. case_bool_decide.
    + intros [= <-]. apply (H (k0, v0)). by left.
    + apply IH. intros x Hx. apply H. by right.
  - intros [k v] Hin. cbn. apply (H k). clear H. induction m as [|[k0 v0] m IH]; [done|].
    cbn in Hn. apply NoDup_cons in Hn as [Hk Hn]. cbn. destruct Hin as [[= -> ->]|Hin].
    + by rewrite bool_decide_true.
    + rewrite bool_decide_false; [by apply IH|]. intros ->. apply Hk. apply list_elem_of_In.
      apply (List.in_map fst _ _ Hin).
Qed.

Lemma merge_get_leaf p : forall src dst v,
  wf (YMap src) = true -> p <> [] -> get p (YMap src) = Some v -> leaf v = true ->
  get p (YMap (deepMerge dst src)) = Some v.
Proof.
  induction p as [|k p IH]; [done|]. intros src dst v Hwf _ Hg Hl. apply wf_YMap in Hwf as [Hn Hsub].
  cbn in Hg |- *. rewrite deepMerge_lookup by done. destruct (alookup k src) as [sv|] eqn:Es; [|done]. cbn in Hg.
  destruct p as [|k' p'].
  - injection Hg as ->. cbn. destruct v; try done; by destruct (alookup k dst).
  - destruct sv as [| | | |sm|]; try done. cbn [merged]. destruct (alookup k dst) as [dv|]; [|exact Hg].
    rewrite merge_val_YMap. destruct (toMap dv) as [dm|]; [|exact Hg]. cbn [mbind option_bind].
    apply IH; [by eapply Hsub|done|exact Hg|done].
Qed.

Lemma merge_get_silent p : forall src dst v,
  wf (YMap src) = true -> silent p (YMap src) = true -> get p (YMap dst) = Some v ->
  get p (YMap (deepMerge dst src)) = Some v.
Proof.
  induction p as [|k p IH]; [done|]. intros src dst v Hwf Hs Hg. apply wf_YMap in Hwf as [Hn Hsub].
  cbn in Hs, Hg |- *. rewrite deepMerge_lookup by done. destruct (alookup k src) as [sv|] eqn:Es; [|exact Hg].
  destruct p as [|k' p']; [done|]. destruct sv as [| | | |sm|]; try done. cbn [merged].
  destruct (alookup k dst) as [dv|]; [|done]. cbn [mbind option_bind] in Hg |- *.
  destruct dv as [| | | |dm|]; try done. rewrite merge_val_YMap. cbn [toMap].
  apply IH; [by eapply Hsub|done|exact Hg].
Qed.

(** A null removes an existing entry. *)
Lemma merge_get_null p : forall src dst k m,
  wf (YMap src) = true -> get (p ++ [k]) (YMap src) = Some YNull -> get p (YMap dst) = Some (YMap m) ->
  get (p ++ [k]) (YMap (deepMerge dst src)) = None.
Proof.
  induction p as [|k0 p IH]; intros src dst k m Hwf Hs Hd; apply wf_YMap in Hwf as [Hn Hsub].
  - cbn in Hs |- *. rewrite deepMerge_lookup by done. destruct (alookup k src) as [sv|]; [|done].
    cbn in Hs. by injection Hs as ->.
  - cbn [app get] in Hs, Hd |- *. rewrite deepMerge_lookup by done.
    destruct (alookup k0 src) as [sv|] eqn:Es; [|done]. cbn [mbind option_bind] in Hs.
    destruct (alookup k0 dst) as [dv|]; [|done]. cbn [mbind option_bind] in Hd.
    assert (Hsv : exists sm, sv = YMap sm) by (destruct (p ++ [k])%list eqn:E; [by apply app_nil in E as [_ ?]|destruct sv; first [done | by eexists]]).
    destruct Hsv as [sm ->]. cbn [merged]. cbn [mbind option_bind]. rewrite merge_val_YMap.
    assert (Hdv : exists dm, dv = YMap dm) by (destruct p; [cbn in Hd; injection Hd as ->; by eexists|destruct dv; first [done | by eexists]]).
    destruct Hdv as [dm ->]. cbn [toMap]. eapply IH; [by eapply Hsub|exact Hs|exact Hd].
Qed.

(** ** Substitution *)

Section substitution.
Context `{Template} `{Yaml}.

(** The entries of a map, each with its own expansion. *)
Definition expands (vars : TemplateVars) (kv kv' : string * yval) : Prop :=
  kv'.1 = kv.1 /\ substituteValue kv.2 vars = Ok kv'.2.

Lemma substitute_YMap m vars v :
  substituteValue (YMap m) vars = Ok v -> exists m', v = YMap m' /\ Forall2 (expands vars) m m'.
Proof.
  cbn [substituteValue]. set (go := fix go (l : ymap) : res ymap := _).
  assert (Hgo : forall l r, go l = Ok r -> Forall2 (expands vars) l r).
  { induction l as [|[k x] l IH]; intros r; cbn; [by intros [= <-]|].
    destruct (substituteValue x vars) as [x'|e] eqn:Ex; cbn; [|done].
    destruct (go l) as [r'|e] eqn:El; cbn; [|done]. intros [= <-]. constructor; [done|by apply IH]. }
  destruct (go m) as [m'|e] eqn:Em; cbn; [|done]. intros [= <-]. exists m'. auto.
Qed.

Lemma expands_lookup vars m m' k v :
  Forall2 (expands vars) m m' -> alookup k m = Some v ->
  exists v', substituteValue v vars = Ok v' /\ alookup k m' = Some v'.
Proof.
  induction 1 as [|[k0 v0] [k1 v1] m m' [Hk Hv] _ IH]; [done|]. cbn in Hk, Hv |- *. subst k1.
  case_bool_decide; [|done]. intros [= <-]. by exists v1.
Qed.

Lemma substitute_get vars p : forall v v' x,
  substituteValue v vars = Ok v' -> get p v = Some x ->
  exists x', substituteValue x vars = Ok x' /\ get p v' = Some x'.
Proof.
  induction p as [|k p IH]; intros v v' x Hs Hg; [injection Hg as <-; by exists v'|].
  destruct v as [| | | |m|]; try done. apply substitute_YMap in Hs as (m' & -> & HF).
  cbn in Hg |- *. destruct (alookup k m) as [y|] eqn:Ek; [|done].
  destruct (expands_lookup vars m m' k y HF Ek) as (y' & Hy & ->). cbn [mbind option_bind] in Hg |- *. by eapply IH.
Qed.

(** ** The layers *)

Lemma layers_silent p v after :
  Forall (fun x => wf (YMap x) = true /\ silent p (YMap x) = true) after ->
  forall d, get p (YMap d) = Some v -> get p (YMap (fold_left deepMerge after d)) = Some v.
Proof.
  induction 1 as [|x after [Hx Hs] _ IH]; intros d Hd; [done|]. cbn [fold_left]. apply IH. by apply merge_get_silent.
Qed.

Lemma mergeLayers_wins p v l after before :
  p <> [] -> wf (YMap l) = true -> get p (YMap l) = Some v -> leaf v = true ->
  Forall (fun x => wf (YMap x) = true /\ silent p (YMap x) = true) after ->
  get p (YMap (mergeLayers (before ++ l :: after))) = Some v.
Proof.
  intros Hp Hwf Hg Hl Ha. unfold mergeLayers. rewrite fold_left_app. cbn [fold_left].
  apply layers_silent; [done|]. by apply merge_get_leaf.
Qed.

(** The layer that wins.  Where the highest layer that says anything about a path
    (the locked values before the overrides, the overrides before the defaults, then
    the shared values, the later one first) gives a string, another scalar or a list,
    the generated values of the chart hold exactly the expansion of that value at that
    path, whatever the lower layers hold; so a locked value cannot be overridden.
    Layers have unique keys, as decoded maps do. *)
Theorem highest_layer_wins params ls before l after p v out :
  layers params = Ok ls -> ls = (before ++ l :: after)%list ->
  wf (YMap l) = true -> p <> [] -> get p (YMap l) = Some v -> leaf v = true ->
  Forall (fun x => wf (YMap x) = true /\ silent p (YMap x) = true) after ->
  generatedMap params = Ok out ->
  exists v', substituteValue v (chartVars params) = Ok v' /\ get p (YMap out) = Some v'.
Proof.
  intros Hls -> Hwf Hp Hg Hl Ha Hgen. unfold generatedMap in Hgen. rewrite Hls in Hgen. cbn [res_bind] in Hgen.
  pose proof (mergeLayers_wins p v l after before Hp Hwf Hg Hl Ha) as Hm. unfold substituteVars in Hgen.
  destruct (substituteValue (YMap (mergeLayers _)) (chartVars params)) as [r|e] eqn:Es; [|done].
  destruct (substitute_YMap _ _ _ Es) as (m' & -> & _). cbn in Hgen. injection Hgen as <-.
  exact (substitute_get _ p _ _ _ Es Hm).
Qed.

(** All charts are generated, each with its own values. *)
Definition with_vars (vars : TemplateVars) (c : GenerateParams) : GenerateParams :=
  mkGenerate (gp_ChartName c) (gp_DefaultValues c) (gp_LockedValues c) (gp_OverrideValues c) (gp_SharedValues c)
    (gp_ChartBranch c) vars.

Lemma generate_all vars charts : forall acc result,
  GenerateAllValues charts vars acc = Ok result -> NoDup (List.map gp_ChartName charts) ->
  forall name, result !! name =
    match List.find (fun c => bool_decide (gp_ChartName c = name)) charts with
    | Some c => match GenerateValues (with_vars vars c) with Ok d => Some d | Err _ => None end
    | None => acc !! name
    end.
Proof.
  induction charts as [|c charts IH]; intros acc result Hg Hn name; cbn in Hg |- *; [by injection Hg as <-|].
  cbn [List.map] in Hn. apply NoDup_cons in Hn as [Hc Hn].
  change (mkGenerate _ _ _ _ _ _ _) with (with_vars vars c) in Hg.
  destruct (GenerateValues (with_vars vars c)) as [d|e] eqn:Ed; cbn in Hg; [|done].
  rewrite (IH _ _ Hg Hn name). case_bool_decide as Hd.
  - subst name. rewrite Ed. destruct (List.find _ charts) as [c'|] eqn:Ef; [|by rewrite lookup_insert_eq].
    apply List.find_some in Ef as [Hin Hb]. apply bool_decide_eq_true in Hb. exfalso. apply Hc.
    rewrite <- Hb. apply list_elem_of_In. by apply List.in_map.
  - destruct (List.find _ charts); [done|]. by rewrite lookup_insert_ne.
Qed.
End substitution.

(** ** Examples *)

Section examples.
(** A template language with one variable, and two documents. *)
#[local] Instance branch_template : Template := {
  template := string;
  Parse s := Ok s;
  Execute t v := Ok (if bool_decide (t = "{{.Branch}}") then tv_Branch v else t)
}.
Definition image_doc (tag : string) : ymap := [("image", YMap [("tag", YString tag); ("pull", YString "always")])].
#[local] Instance doc_yaml : Yaml := {
  Unmarshal s := if bool_decide (s = "locked") then Ok (Some [("image", YMap [("tag", YString "{{.Branch}}")])])
                 else Ok (Some (image_doc s));
  Encode _ := Ok "encoded"
}.
Definition sample_params : GenerateParams :=
  mkGenerate "web" "v1" "locked" "v2" [] "feature/x" (mkVars "main" "main" "ns" "shop" "shop" "alice").

Example generated_example :
  generatedMap sample_params = Ok [("image", YMap [("tag", YString "feature/x"); ("pull", YString "always")])].
Proof. vm_compute. done. Qed.

(** The locked tag wins over the override; what the locked values leave out stays. *)
Lemma highest_layer_wins_witness :
  exists v', substituteValue (YString "{{.Branch}}") (chartVars sample_params) = Ok v' /\
    get ["image"; "tag"] (YMap [("image", YMap [("tag", YString "feature/x"); ("pull", YString "always")])]) = Some v'.
Proof.
  apply (highest_layer_wins sample_params
           ([image_doc "v1"; image_doc "v2"] ++ [[("image", YMap [("tag", YString "{{.Branch}}")])]])%list
           [image_doc "v1"; image_doc "v2"] [("image", YMap [("tag", YString "{{.Branch}}")])] []).
  - vm_compute. reflexivity.
  - reflexivity.
  - vm_compute. reflexivity.
  - discriminate.
  - vm_compute. reflexivity.
  - reflexivity.
  - constructor.
  - vm_compute. reflexivity.
Defined.

(** Strings in a map with a key that is no string are not expanded. *)
Example any_map_not_expanded :
  substituteValue (YAnyMap [("8080", YString "{{.Branch}}")]) (chartVars sample_params) =
  Ok (YAnyMap [("8080", YString "{{.Branch}}")]).
Proof. vm_compute. done. Qed.
End examples.
