(* ===== verification/Limiter.v ===== *)
(** * The rate limiter

    [api/handlers/rate_limiter.go]: a sliding window of request times per client
    address.  [Allow] and the cleanup are atomic (the write lock); the clock of a
    process does not go back.  The limiter refines a specification that keeps all
    accepted requests, and never accepts more than its limit in a window. *)

From S2P Require Import Prelude Models.

Record RateLimiter := mkLimiter { rl_requests : gmap string (list time); rl_limit : Z; rl_window : Z }.
Definition NewRateLimiter (limit window : Z) : RateLimiter := mkLimiter ∅ limit window.

Definition with_requests (m : gmap string (list time)) (rl : RateLimiter) : RateLimiter :=
  mkLimiter m (rl_limit rl) (rl_window rl).

Definition Allow (ip : string) (now : time) (rl : RateLimiter) : bool * RateLimiter :=
  let windowStart := (now - rl_window rl)%Z in
  let valid := List.filter (fun t => windowStart <? t)%Z (default [] (rl_requests rl !! ip)) in
  If (rl_limit rl <=? Z.of_nat (length valid))%Z Return (false, with_requests (<[ip := valid]> (rl_requests rl)) rl) ;;
  (true, with_requests (<[ip := valid ++ [now]]> (rl_requests rl)) rl).

Definition cleanupExpired (now : time) (rl : RateLimiter) : RateLimiter :=
  with_requests (omap (fun times =>
      match List.filter (fun t => now - t <? rl_window rl)%Z times with
      | [] => None
      | valid => Some valid
      end) (rl_requests rl)) rl.

(** ** Runs *)

Inductive limiter_op := OpAllow (ip : string) (now : time) | OpCleanup (now : time).
Definition op_time (op : limiter_op) : time := match op with OpAllow _ t | OpCleanup t => t end.

(** The answers of a run, the first one first. *)
Fixpoint limiter_run (ops : list limiter_op) (rl : RateLimiter) : list bool :=
  match ops with
  | [] => []
  | OpAllow ip now :: rest => let r := Allow ip now rl in r.1 :: limiter_run rest r.2
  | OpCleanup now :: rest => limiter_run rest (cleanupExpired now rl)
  end.

(** The clock does not go back, and is not before [t]. *)
Fixpoint ordered (t : time) (ops : list limiter_op) : Prop :=
  match ops with
  | [] => True
  | op :: rest => (t <= op_time op)%Z /\ ordered (op_time op) rest
  end.

(** ** The specification: all accepted requests *)

Definition in_window (window now : Z) (ip : string) (accepted : list (string * time)) : list time :=
  List.filter (fun t => now - window <? t)%Z
    (List.map snd (List.filter (fun p => bool_decide (p.1 = ip)) accepted)).

Fixpoint spec_run (limit window : Z) (ops : list limiter_op) (accepted : list (string * time))
    : list bool * list (string * time) :=
  match ops with
  | [] => ([], accepted)
  | OpAllow ip now :: rest =>
      let ok := (Z.of_nat (length (in_window window now ip accepted)) <? limit)%Z in
      let r := spec_run limit window rest (if ok then accepted ++ [(ip, now)] else accepted) in
      (ok :: r.1, r.2)
  | OpCleanup _ :: rest => spec_run limit window rest accepted
  end.

(** ** Refinement *)

(** From [now] on, the kept times give the windows of the accepted ones. *)
Definition keeps (rl : RateLimiter) (accepted : list (string * time)) (now : time) : Prop :=
  forall ip u, (now <= u)%Z ->
    List.filter (fun t => u - rl_window rl <? t)%Z (default [] (rl_requests rl !! ip)) =
    in_window (rl_window rl) u ip accepted.

Lemma filter_filter {A} (p q : A -> bool) l :
  (forall x, p x = true -> q x = true) -> List.filter p (List.filter q l) = List.filter p l.
Proof.
  intros H. induction l as [|x l IH]; [done|]. cbn. destruct (q x) eqn:Eq; cbn.
  - destruct (p x); [by f_equal|done].
  - destruct (p x) eqn:Ep; [|done]. rewrite (H x Ep) in Eq. done.
Qed.

Lemma in_window_snoc w u ip accepted ip' t :
  in_window w u ip (accepted ++ [(ip', t)]) =
  in_window w u ip accepted ++
    (if bool_decide (ip' = ip) && (u - w <? t)%Z then [t] else []).
Proof.
  unfold in_window. rewrite List.filter_app, List.map_app, List.filter_app. f_equal. cbn.
  case_bool_decide; cbn; [|done]. by destruct (u - w <? t)%Z.
Qed.

Lemma keeps_mono rl accepted t now : keeps rl accepted t -> (t <= now)%Z -> keeps rl accepted now.
Proof. intros H Ht ip u Hu. apply H. lia. Qed.

Lemma keeps_cleanup rl accepted now : keeps rl accepted now -> keeps (cleanupExpired now rl) accepted now.
Proof.
  intros H ip u Hu. rewrite <- H by done. unfold cleanupExpired. cbn. rewrite lookup_omap.
  destruct (rl_requests rl !! ip) as [times|]; [|done]. cbn.
  set (valid := List.filter _ times).
  assert (E : List.filter (fun t => u - rl_window rl <? t)%Z valid = List.filter (fun t => u - rl_window rl <? t)%Z times).
  { apply filter_filter. intros x Hx. apply Z.ltb_lt in Hx. apply Z.ltb_lt. lia. }
  by destruct valid.
Qed.

Lemma keeps_Allow rl accepted ip now :
  keeps rl accepted now ->
  let ok := (Z.of_nat (length (in_window (rl_window rl) now ip accepted)) <? rl_limit rl)%Z in
  let r := Allow ip now rl in
  r.1 = ok /\ rl_limit r.2 = rl_limit rl /\ rl_window r.2 = rl_window rl /\
  keeps r.2 (if ok then accepted ++ [(ip, now)] else accepted) now.
Proof.
  intros H. cbv zeta. unfold Allow. pose proof (H ip now (Z.le_refl _)) as Hv. rewrite Hv.
  assert (Hvalid : forall u, (now <= u)%Z ->
    List.filter (fun t => u - rl_window rl <? t)%Z (in_window (rl_window rl) now ip accepted) =
    in_window (rl_window rl) u ip accepted).
  { intros u Hu. unfold in_window. apply filter_filter. intros x Hx. apply Z.ltb_lt in Hx. apply Z.ltb_lt. lia. }
  destruct (Z.leb_spec (rl_limit rl) (Z.of_nat (length (in_window (rl_window rl) now ip accepted)))) as [Hl|Hl].
  - rewrite (proj2 (Z.ltb_ge _ _)) by done. split_and!; [done|done|done|]. intros ip' u Hu. cbn.
    destruct (decide (ip' = ip)) as [->|Hne]; [rewrite lookup_insert_eq; by apply Hvalid|].
    rewrite lookup_insert_ne by done. by apply H.
  - rewrite (proj2 (Z.ltb_lt _ _)) by done. split_and!; [done|done|done|]. intros ip' u Hu.
    cbn [snd with_requests rl_requests rl_window]. rewrite in_window_snoc.
    destruct (decide (ip' = ip)) as [->|Hne].
    + rewrite lookup_insert_eq. cbn [from_option id]. rewrite List.filter_app, Hvalid by done. f_equal. cbn.
      by rewrite bool_decide_true.
    + rewrite lookup_insert_ne, bool_decide_false by done. cbn. rewrite app_nil_r. by apply H.
Qed.

Lemma run_refines ops : forall rl accepted t,
  keeps rl accepted t -> ordered t ops ->
  limiter_run ops rl = (spec_run (rl_limit rl) (rl_window rl) ops accepted).1.
Proof.
  induction ops as [|[ip now|now] ops IH]; intros rl accepted t Hk Ho; [done| |]; cbn in Ho; destruct Ho as [Ht Ho].
  - pose proof (keeps_mono _ _ _ _ Hk Ht) as Hk'. destruct (keeps_Allow rl accepted ip now Hk') as (E & El & Ew & Hk2).
    cbn [limiter_run spec_run fst]. rewrite E. f_equal.
    specialize (IH _ _ now Hk2 Ho). by rewrite El, Ew in IH.
  - cbn [limiter_run spec_run]. apply (IH (cleanupExpired now rl) accepted now); [|done].
    by apply keeps_cleanup, (keeps_mono _ _ t).
Qed.

(** ** The bound *)

Definition spec_bound (limit window : Z) (accepted : list (string * time)) : Prop :=
  forall ip u, (Z.of_nat (length (List.filter (fun x => x <=? u)%Z (in_window window u ip accepted))) <= limit)%Z.

Lemma filter_length_le {A} (p : A -> bool) l : (length (List.filter p l) <= length l)%nat.
Proof. induction l as [|x l IH]; [done|]. cbn. destruct (p x); cbn; lia. Qed.

Lemma filter_length_mono {A} (p q : A -> bool) l :
  (forall x, p x = true -> q x = true) -> (length (List.filter p l) <= length (List.filter q l))%nat.
Proof.
  intros H. rewrite <- (filter_filter p q l H). apply filter_length_le.
Qed.

Lemma spec_run_bound limit window ops : forall t accepted,
  (0 <= limit)%Z -> ordered t ops -> spec_bound limit window accepted ->
  spec_bound limit window (spec_run limit window ops accepted).2.
Proof.
  induction ops as [|[ip now|now] ops IH]; intros t accepted Hl Ho Hb; [done| |]; cbn in Ho; destruct Ho as [Ht Ho];
    cbn [spec_run snd]; [|by apply (IH now)].
  apply (IH now); [done|done|]. destruct (Z.ltb_spec (Z.of_nat (length (in_window window now ip accepted))) limit) as [Hlt|];
    [|exact Hb].
  intros ip' u. rewrite in_window_snoc, List.filter_app, List.length_app. specialize (Hb ip' u).
  destruct (decide (ip = ip')) as [->|Hne]; [rewrite bool_decide_true by done|rewrite bool_decide_false by done; cbn; lia].
  cbn [andb]. destruct (Z.ltb_spec (u - window) now) as [Hw|Hw]; cbn [List.filter length]; [|lia].
  destruct (Z.leb_spec now u) as [Hu|Hu]; cbn [length]; [|lia].
  assert (Hle : (length (List.filter (fun x => x <=? u)%Z (in_window window u ip' accepted)) <=
                 length (in_window window now ip' accepted))%nat); [|lia].
  etransitivity; [apply filter_length_le|]. unfold in_window. apply filter_length_mono.
  intros x Hx. apply Z.ltb_lt in Hx. apply Z.ltb_lt. lia.
Qed.

(** The limiter refines its specification, for any limit and window and any
    interleaving of requests and cleanups with a clock that does not go back: a
    request is accepted exactly when fewer than the limit of the accepted requests of
    its address are in the window before it (rejected ones do not count, and forgotten
    times never matter); so in no span of one window are more than the limit of an
    address accepted. *)
Theorem limiter_refines limit window t ops :
  ordered t ops ->
  limiter_run ops (NewRateLimiter limit window) = (spec_run limit window ops []).1 /\
  ((0 <= limit)%Z -> forall ip u,
     (Z.of_nat (length (List.filter (fun x => x <=? u)%Z (in_window window u ip (spec_run limit window ops []).2)))
      <= limit)%Z).
Proof.
  intros Ho. split.
  - apply (run_refines ops (NewRateLimiter limit window) [] t); [|done]. intros ip u _. cbn. by rewrite lookup_empty.
  - intros Hl. apply (spec_run_bound limit window ops t []); [done|done|]. by intros ip u.
Qed.

Lemma limiter_refines_witness :
  let ops := [OpAllow "a" 10; OpAllow "a" 12; OpCleanup 13; OpAllow "a" 14; OpAllow "a" 25]%string%Z in
  limiter_run ops (NewRateLimiter 2 10) = [true; true; false; true] /\
  limiter_run ops (NewRateLimiter 2 10) = (spec_run 2 10 ops []).1.
Proof.
  cbv zeta. split; [vm_compute; reflexivity|]. apply (limiter_refines 2 10 0). cbn. repeat split; lia.
Defined.
