(* ===== verification/Limits.v ===== *)
(** * The objects that enforce a quota

    [k8s/quota.go]: the [ResourceQuota] and the [LimitRange] of a namespace, made from
    the effective quota of [Quota].  The quantities are those of the class
    [QuantityOps]; [QuantityConsts] adds the two constructors of that package that are
    used here ([resource.MustParse] of constants and [resource.NewQuantity]).  The
    server's answers to Get, Create and Update are arguments. *)

From S2P Require Import Prelude Quota.
Local Open Scope string_scope.
Local Open Scope list_scope.

Class QuantityConsts `{QuantityOps} := {
  MustParse : string -> Quantity;
  NewQuantity : Z -> Quantity
}.

Definition quotaName := "stack-manager-quota".
Definition limitRangeName := "stack-manager-limits".

(** Writes to the API server: the name of the object and what it holds. *)
Inductive ObjectWrite (S : Type) :=
| OCreate (name : string) (spec : S)
| OUpdate (name : string) (spec : S).
Arguments OCreate {S} name spec.
Arguments OUpdate {S} name spec.

(** The answers of the server to the calls of one function: an error of Get is
    NotFound ([None]) or another one. *)
Record Answers := mkAnswers {
  an_get : option (option goerr);
  an_create : error;
  an_update : error
}.

(** The end of both functions: Get, then Create or Update. *)
Definition ensure {S} (what name namespace : string) (spec : S) (a : Answers) : error * list (ObjectWrite S) :=
  let wrap verb e := Some (EWrap (verb +:+ " " +:+ what +:+ " in " +:+ quote namespace +:+ ": ") e "") in
  match an_get a with
  | Some None =>
      match an_create a with
      | Some e => (wrap "create" e, [OCreate name spec])
      | None => (None, [OCreate name spec])
      end
  | Some (Some e) => (wrap "get" e, [])
  | None =>
      match an_update a with
      | Some e => (wrap "update" e, [OUpdate name spec])
      | None => (None, [OUpdate name spec])
      end
  end.

Section with_quantities.
Context `{QuantityConsts}.

Local Abbreviation ResourceList := (gmap string Quantity).

(** ** The ResourceQuota *)

(** The resources that a field limits. *)
Definition hard_names (f : qfield) : list string :=
  match f with
  | CPURequest => ["requests.cpu"] | CPULimit => ["limits.cpu"]
  | MemoryRequest => ["requests.memory"] | MemoryLimit => ["limits.memory"]
  | StorageLimit => ["requests.storage"]
  | EphemeralStorageLimit => ["requests.ephemeral-storage"; "limits.ephemeral-storage"]
  | _ => []
  end.
Definition hard_fields : list qfield :=
  [CPURequest; CPULimit; MemoryRequest; MemoryLimit; StorageLimit; EphemeralStorageLimit].

Definition parse_field (config : ResourceQuotaConfig) (f : qfield) : res (option Quantity) :=
  let v := rq_Quantities config f in
  If empty v Return Ok None ;;
  match ParseQuantity v with
  | Ok q => Ok (Some q)
  | Err e => Err (EWrap ("parse " +:+ qname f +:+ " " +:+ quote v +:+ ": ") e "")
  end.

Fixpoint hard_list (config : ResourceQuotaConfig) (fields : list qfield) (hard : ResourceList) : res ResourceList :=
  match fields with
  | [] => Ok hard
  | f :: fields =>
      q <-r parse_field config f ;;
      hard_list config fields
        match q with
        | Some q => fold_left (fun hard n => <[n := q]> hard) (hard_names f) hard
        | None => hard
        end
  end.

Definition quota_hard (config : ResourceQuotaConfig) : res ResourceList :=
  hard <-r hard_list config hard_fields ∅ ;;
  Ok (if (0 <? rq_PodLimit config)%Z then <["pods" := NewQuantity (rq_PodLimit config)]> hard else hard).

Definition EnsureResourceQuota (namespace : string) (config : ResourceQuotaConfig) (a : Answers)
    : error * list (ObjectWrite ResourceList) :=
  match quota_hard config with
  | Err e => (Some e, [])
  | Ok hard =>
      If bool_decide (hard = ∅) Return (None, []) ;;
      ensure "resource quota" quotaName namespace hard a
  end.

(** ** The LimitRange *)

Record limitRangeResource := mkLimitRangeResource {
  lr_name : string;
  lr_nsRequest : qfield;
  lr_nsLimit : qfield;
  lr_request : qfield;
  lr_limit : qfield;
  lr_max : option qfield;
  lr_fallbackRequest : string;
  lr_fallbackLimit : string
}.

Definition limitRangeResources : list limitRangeResource :=
  [mkLimitRangeResource "cpu" CPURequest CPULimit ContainerCPURequest ContainerCPULimit
     (Some ContainerCPUMax) "100m" "500m";
   mkLimitRangeResource "memory" MemoryRequest MemoryLimit ContainerMemoryRequest ContainerMemoryLimit
     (Some ContainerMemoryMax) "128Mi" "512Mi";
   mkLimitRangeResource "ephemeral-storage" EphemeralStorageLimit EphemeralStorageLimit
     ContainerEphemeralStorageRequest ContainerEphemeralStorageLimit None "128Mi" "1Gi"].

Definition smallestQuantity (base : Quantity) (caps : list (option Quantity)) : Quantity :=
  fold_left (fun out c => match c with
                          | Some c => if (Cmp c out <? 0)%Z then c else out
                          | None => out
                          end) caps base.

Record Entries := mkEntries {
  en_request : option Quantity;
  en_limit : option Quantity;
  en_max : option Quantity
}.

(** The part of [entries] after the values are parsed. *)
Definition entries_of (fallbackRequest fallbackLimit : string) (nsReq nsLim req lim maxQty : option Quantity)
    : Entries :=
  match nsReq, nsLim, req, lim, maxQty with
  | None, None, None, None, None => mkEntries None None None
  | _, _, _, _, _ =>
      let defaultRequest :=
        match req with
        | Some q => q
        | None => smallestQuantity (MustParse fallbackRequest) [nsReq; nsLim; lim; maxQty]
        end in
      let defaultLimit :=
        match lim with
        | Some q => Some q
        | None =>
            match nsLim, maxQty with
            | None, None => None
            | _, _ =>
                let q := smallestQuantity (MustParse fallbackLimit) [nsLim; maxQty] in
                Some (if (Cmp q defaultRequest <? 0)%Z then defaultRequest else q)
            end
        end in
      mkEntries (Some defaultRequest) defaultLimit maxQty
  end.

Definition entries (config : ResourceQuotaConfig) (r : limitRangeResource) : res Entries :=
  nsReq <-r parse_field config (lr_nsRequest r) ;;
  nsLim <-r parse_field config (lr_nsLimit r) ;;
  req <-r parse_field config (lr_request r) ;;
  lim <-r parse_field config (lr_limit r) ;;
  maxQty <-r match lr_max r with Some f => parse_field config f | None => Ok None end ;;
  Ok (entries_of (lr_fallbackRequest r) (lr_fallbackLimit r) nsReq nsLim req lim maxQty).

(** The item of the LimitRange: [Default], [DefaultRequest] and [Max]. *)
Record LimitRangeItem := mkItem {
  it_Default : ResourceList;
  it_DefaultRequest : ResourceList;
  it_Max : ResourceList
}.
Definition empty_item : LimitRangeItem := mkItem ∅ ∅ ∅.

Definition put (n : string) (q : option Quantity) (l : ResourceList) : ResourceList :=
  match q with Some q => <[n := q]> l | None => l end.

Fixpoint limit_item (config : ResourceQuotaConfig) (rs : list limitRangeResource) (item : LimitRangeItem)
    : res LimitRangeItem :=
  match rs with
  | [] => Ok item
  | r :: rs =>
      e <-r entries config r ;;
      limit_item config rs
        (mkItem (put (lr_name r) (en_limit e) (it_Default item))
                (put (lr_name r) (en_request e) (it_DefaultRequest item))
                (put (lr_name r) (en_max e) (it_Max item)))
  end.

Definition EnsureLimitRange (namespace : string) (config : ResourceQuotaConfig) (a : Answers)
    : error * list (ObjectWrite LimitRangeItem) :=
  match limit_item config limitRangeResources empty_item with
  | Err e => (Some e, [])
  | Ok item =>
      If bool_decide (it_Default item = ∅) && bool_decide (it_DefaultRequest item = ∅)
         && bool_decide (it_Max item = ∅) Return (None, []) ;;
      ensure "limit range" limitRangeName namespace item a
  end.

(** ** Lemmas *)

(** The values that a ResourceQuota holds for the fields, when they parse. *)
Definition field_value (config : ResourceQuotaConfig) (f : qfield) : option Quantity :=
  field_quantity (rq_Quantities config) f.

Definition put_all (names : list string) (q : option Quantity) (hard : ResourceList) : ResourceList :=
  match q with Some q => fold_left (fun hard n => <[n := q]> hard) names hard | None => hard end.

Lemma parse_field_fine config f :
  field_fine (rq_Quantities config) f -> parse_field config f = Ok (field_value config f).
Proof.
  unfold field_fine, parse_field, field_value, field_quantity. intros Hf.
  destruct (empty (rq_Quantities config f)) eqn:E; [done|]. apply empty_false in E.
  by destruct (Hf E) as (x & -> & _).
Qed.

Lemma hard_list_fine config fields hard :
  (forall f, field_fine (rq_Quantities config) f) ->
  hard_list config fields hard =
    Ok (fold_left (fun hard f => put_all (hard_names f) (field_value config f) hard) fields hard).
Proof.
  intros Hf. revert hard. induction fields as [|f fields IH]; intros hard; cbn [hard_list fold_left]; [done|].
  rewrite parse_field_fine by done. cbn. rewrite IH. done.
Qed.

Lemma put_all_lookup names q hard n :
  put_all names q hard !! n =
    match (if existsb (String.eqb n) names then q else None) with Some q => Some q | None => hard !! n end.
Proof.
  unfold put_all. destruct q as [q|]; [|by destruct (existsb _ _)].
  revert hard. induction names as [|m names IH]; intros hard; cbn [fold_left existsb]; [done|].
  rewrite IH. destruct (String.eqb_spec n m) as [->|Hne]; cbn [orb].
  - rewrite lookup_insert_eq. by destruct (existsb _ _).
  - by rewrite lookup_insert_ne by congruence.
Qed.

(** What the quota of the namespace holds for the compute resources. *)
Lemma quota_hard_lookup config :
  (forall f, field_fine (rq_Quantities config) f) ->
  exists hard, quota_hard config = Ok hard /\
    hard !! "requests.cpu" = field_value config CPURequest /\
    hard !! "limits.cpu" = field_value config CPULimit /\
    hard !! "requests.memory" = field_value config MemoryRequest /\
    hard !! "limits.memory" = field_value config MemoryLimit /\
    hard !! "requests.ephemeral-storage" = field_value config EphemeralStorageLimit /\
    hard !! "limits.ephemeral-storage" = field_value config EphemeralStorageLimit.
Proof.
  intros Hf. unfold quota_hard. rewrite hard_list_fine by done. cbn [res_bind]. eexists. split; [done|].
  set (hard := fold_left _ _ _).
  assert (forall n, n <> "pods" -> (if (0 <? rq_PodLimit config)%Z then <["pods" := NewQuantity (rq_PodLimit config)]> hard else hard) !! n = hard !! n) as Hp.
  { intros n Hn. destruct (_ <? _)%Z; [|done]. by rewrite lookup_insert_ne. }
  rewrite !Hp by done. unfold hard. cbn [fold_left hard_fields]. rewrite !put_all_lookup.
  split_and!; simpl; by destruct (field_value config _).
Qed.

Lemma put_list_lookup m q l n :
  put m q l !! n = match (if String.eqb n m then q else None) with Some q => Some q | None => l !! n end.
Proof.
  unfold put. destruct q as [q|]; destruct (String.eqb_spec n m) as [->|Hne]; try done;
    by rewrite ?lookup_insert_eq, ?lookup_insert_ne by congruence.
Qed.

(** What the maps hold for a resource, as one record. *)
Lemma entries_eta (e : Entries) n :
  mkEntries (match en_request e with Some q => Some q | None => (∅ : ResourceList) !! n end)
            (match en_limit e with Some q => Some q | None => (∅ : ResourceList) !! n end)
            (match en_max e with Some q => Some q | None => (∅ : ResourceList) !! n end) = e.
Proof. destruct e as [[] [] []]; by rewrite ?lookup_empty. Qed.

Section laws.
Context `{!QuantityLaws}.

(** At most, when both are set. *)
Definition ole (a b : option Quantity) : Prop := forall x y, a = Some x -> b = Some y -> (Cmp x y <= 0)%Z.

Lemma smallest_le base caps :
  (Cmp (smallestQuantity base caps) base <= 0)%Z /\
  forall c, Some c ∈ caps -> (Cmp (smallestQuantity base caps) c <= 0)%Z.
Proof.
  unfold smallestQuantity. revert base. induction caps as [|c0 caps IH]; intros base; cbn [fold_left].
  { split; [by rewrite cmp_refl|]. by intros c ?%elem_of_nil. }
  set (out := match c0 with Some _ => _ | None => _ end). destruct (IH out) as [Ho Hc].
  assert ((Cmp out base <= 0)%Z /\ forall c, c0 = Some c -> (Cmp out c <= 0)%Z) as [Hb Hc0].
  { unfold out. destruct c0 as [c|]; [|by split; [rewrite cmp_refl|]].
    destruct (Z.ltb_spec (Cmp c base) 0); (split; [|intros c' [= <-]]).
    - lia.
    - by rewrite cmp_refl.
    - by rewrite cmp_refl.
    - by apply cmp_antisym. }
  split; [by eapply cmp_trans|].
  intros c [Hc1|Hc1]%elem_of_cons; [|by apply Hc]. eapply cmp_trans; [exact Ho|]. by apply Hc0.
Qed.

Lemma smallest_ole base caps c : c ∈ caps -> ole (Some (smallestQuantity base caps)) c.
Proof. intros Hc x y [= <-] ->. by apply smallest_le. Qed.

(** The smaller of two bounds, or the default request that is under both. *)
Lemma raised_ole q r b : ole (Some q) b -> ole (Some r) b -> ole (Some (if (Cmp q r <? 0)%Z then r else q)) b.
Proof. by destruct (_ <? _)%Z. Qed.

Record entries_ok (e : Entries) (nsReq nsLim : option Quantity) : Prop := {
  eo_request_limit : ole (en_request e) (en_limit e);
  eo_limit_max : ole (en_limit e) (en_max e);
  eo_request_max : ole (en_request e) (en_max e);
  eo_request_nsRequest : ole (en_request e) nsReq;
  eo_request_nsLimit : ole (en_request e) nsLim;
  eo_limit_nsLimit : ole (en_limit e) nsLim;
  eo_has_request : is_Some nsReq \/ is_Some nsLim -> is_Some (en_request e);
  eo_has_limit : is_Some nsLim -> is_Some (en_limit e)
}.

Lemma entries_of_ok fr fl nsReq nsLim req lim mx :
  ole req lim -> ole lim mx -> ole req mx -> ole req nsReq -> ole req nsLim -> ole lim nsLim ->
  entries_ok (entries_of fr fl nsReq nsLim req lim mx) nsReq nsLim.
Proof.
  intros B1 B2 B3 B4 B5 B6.
  set (small := smallestQuantity (MustParse fr) [nsReq; nsLim; lim; mx]).
  assert (forall b, b ∈ [nsReq; nsLim; lim; mx] -> ole req b -> ole (Some (default small req)) b) as Hr.
  { intros b Hb Ho. destruct req; [done|]. by apply smallest_ole. }
  pose proof (Hr nsReq ltac:(set_solver) B4). pose proof (Hr nsLim ltac:(set_solver) B5).
  pose proof (Hr lim ltac:(set_solver) B1). pose proof (Hr mx ltac:(set_solver) B3).
  set (dr := default small req) in *. set (smallL := smallestQuantity (MustParse fl) [nsLim; mx]).
  set (dl := if (Cmp smallL dr <? 0)%Z then dr else smallL).
  assert (ole (Some dr) (Some dl)) as Hdl.
  { intros x y [= <-] [= <-]. unfold dl. destruct (Z.ltb_spec (Cmp smallL dr) 0); [by rewrite cmp_refl|].
    by apply cmp_antisym. }
  assert (forall b, b ∈ [nsLim; mx] -> ole (Some dr) b -> ole (Some dl) b) as Hl.
  { intros b Hb Ho. apply raised_ole; [by apply smallest_ole|done]. }
  assert (entries_of fr fl nsReq nsLim req lim mx =
    match nsReq, nsLim, req, lim, mx with
    | None, None, None, None, None => mkEntries None None None
    | _, _, _, _, _ => mkEntries (Some dr)
        match lim with Some q => Some q | None => match nsLim, mx with None, None => None | _, _ => Some dl end end mx
    end) as -> by (by destruct nsReq, nsLim, req, lim, mx).
  destruct nsReq as [q|], nsLim as [q0|], req as [q1|], lim as [q2|], mx as [q3|];
    split; cbn [en_request en_limit en_max]; try done; try (by eauto); try (apply Hl; [set_solver|done]).
  all: by intros [[? ?]|[? ?]].
Qed.
End laws.
End with_quantities.

(** The order rules are the hypotheses of [entries_of_ok]. *)
Ltac fit :=
  apply entries_of_ok; try done; match goal with Ho : forall a b, _ -> _ |- _ => apply Ho end;
  apply list_elem_of_In; simpl; tauto.

(** ** Theorems *)

(** For every valid effective quota the LimitRange is one that Kubernetes accepts
    and fits the ResourceQuota next to it: the default request of a container is at most
    its default limit, the limit at most the maximum, neither exceeds the totals of the
    namespace, and a container without values gets one wherever the ResourceQuota
    demands it. *)
Theorem limit_range_fits `{QuantityConsts} `{!QuantityLaws} config :
  quota_ok config ->
  exists hard item, quota_hard config = Ok hard /\ limit_item config limitRangeResources empty_item = Ok item /\
    forall n, n ∈ ["cpu"; "memory"; "ephemeral-storage"] ->
      entries_ok (mkEntries (it_DefaultRequest item !! n) (it_Default item !! n) (it_Max item !! n))
        (hard !! ("requests." +:+ n)) (hard !! ("limits." +:+ n)).
Proof.
  intros (Hf & Hr & _).
  destruct (quota_hard_lookup config Hf) as (hard & -> & L1 & L2 & L3 & L4 & L5 & L6).
  unfold limitRangeResources, limit_item, entries.
  rewrite !parse_field_fine by done. cbn [res_bind lr_max lr_name lr_nsRequest lr_nsLimit lr_request lr_limit
    lr_fallbackRequest lr_fallbackLimit]. rewrite !parse_field_fine by done. cbn [res_bind].
  assert (forall a b, (a, b) ∈ quotaOrderRules -> ole (field_value config a) (field_value config b)) as Ho.
  { intros a b Hin x y Hx Hy. by eapply Hr. }
  eexists hard, _. split; [done|]. split; [reflexivity|]. cbn [it_Default it_DefaultRequest it_Max].
  intros n Hn. repeat (apply elem_of_cons in Hn as [->|Hn]); [..|by apply elem_of_nil in Hn];
    rewrite !put_list_lookup; simpl; rewrite entries_eta.
  - change (hard !! ("requests." +:+ "cpu")) with (hard !! "requests.cpu").
    change (hard !! ("limits." +:+ "cpu")) with (hard !! "limits.cpu"). rewrite L1, L2. by fit.
  - change (hard !! ("requests." +:+ "memory")) with (hard !! "requests.memory").
    change (hard !! ("limits." +:+ "memory")) with (hard !! "limits.memory"). rewrite L3, L4. by fit.
  - change (hard !! ("requests." +:+ "ephemeral-storage")) with (hard !! "requests.ephemeral-storage").
    change (hard !! ("limits." +:+ "ephemeral-storage")) with (hard !! "limits.ephemeral-storage").
    rewrite L5, L6. by fit.
Qed.

#[global] Instance milli_consts : QuantityConsts := {
  MustParse := fun s => match milli_parse s with Ok q => q | Err _ => 0%Z end;
  NewQuantity := fun n => (n * 1000)%Z
}.

(** A namespace of 300m CPU: the fallbacks of the containers are capped. *)
Definition small_namespace : ResourceQuotaConfig :=
  mkQuota "c1" (qset CPULimit "300m" (qset MemoryLimit "64Mi" no_quantities)) 10.

Lemma limit_range_fits_witness :
  exists item, limit_item small_namespace limitRangeResources empty_item = Ok item /\
    it_DefaultRequest item !! "cpu" = Some 100%Z /\ it_Default item !! "cpu" = Some 300%Z /\
    ole (it_DefaultRequest item !! "memory") (it_Default item !! "memory").
Proof.
  destruct (limit_range_fits small_namespace) as (hard & item & _ & Hi & Hn).
  - apply (effective_quota_ok (Some small_namespace) None). vm_compute. reflexivity.
  - exists item. split; [exact Hi|].
    assert (match limit_item small_namespace limitRangeResources empty_item with
            | Ok i => it_DefaultRequest i !! "cpu" = Some 100%Z /\ it_Default i !! "cpu" = Some 300%Z
            | Err _ => False
            end) as Hc by (vm_compute; by split).
    rewrite Hi in Hc. destruct Hc as [Hr Hl].
    split; [exact Hr|]. split; [exact Hl|].
    apply (eo_request_limit _ _ _ (Hn "memory" ltac:(set_solver))).
Defined.
