(* ===== verification/Status.v ===== *)
(** * The status of a namespace

    [k8s/release_owner.go] and the pure part of [k8s/status.go]: which release an
    object belongs to, the charts of a namespace with their status, the overall
    status, the ingresses and events, the requests of a pod and the summary of a
    cluster.  The records [KPod], .. hold the fields of the Kubernetes objects that the
    code reads; what the API server lists is an argument.  The range over a Go map has
    no fixed order: the class [MapRange] is any order. *)

From S2P Require Import Prelude Models Store Durations.
Local Open Scope string_scope.
Local Open Scope list_scope.

(** ** The objects *)

Abbreviation Labels := (gmap string string).

Record KMeta := mkMeta {
  km_Name : string;
  km_Labels : Labels;
  km_Annotations : Labels
}.

(** A condition: its type, status, reason and message. *)
Record KCondition := mkCondition {
  kc_Type : string;
  kc_Status : string;
  kc_Reason : string;
  kc_Message : string
}.

Record KDeployment := mkDeployment {
  kd_meta : KMeta;
  kd_Replicas : option Z;
  kd_ReadyReplicas : Z;
  kd_UpdatedReplicas : Z;
  kd_Conditions : list KCondition
}.

Inductive KState :=
| KRunning
| KWaiting (reason message : string)
| KTerminated (reason message : string) (exitCode : Z)
| KNoState.

Record KContainerStatus := mkContainerStatus {
  ks_Name : string;
  ks_Ready : bool;
  ks_RestartCount : Z;
  ks_Image : string;
  ks_State : KState
}.

(** A container with its requests in millicores and bytes; [kct_Always] says that it
    is an init container with the restart policy Always. *)
Record KContainer := mkContainer {
  kct_Name : string;
  kct_Image : string;
  kct_cpu : Z;
  kct_mem : Z;
  kct_Always : bool
}.

(** [kp_controller]: the controlling owner reference, its kind and name. *)
Record KPod := mkPod {
  kp_meta : KMeta;
  kp_controller : option (string * string);
  kp_InitStatuses : list KContainerStatus;
  kp_Statuses : list KContainerStatus;
  kp_Conditions : list KCondition;
  kp_InitContainers : list KContainer;
  kp_Containers : list KContainer;
  kp_Overhead : option (Z * Z);
  kp_NodeName : string;
  kp_StartTime : option time;
  kp_Phase : string;
  kp_deleting : bool
}.

Record KPort := mkPort { kpt_Port : Z; kpt_Protocol : string; kpt_NodePort : Z }.
Record KService := mkService {
  ksv_meta : KMeta;
  ksv_Type : string;
  ksv_ClusterIP : string;
  ksv_Ports : list KPort;
  ksv_LoadBalancer : list (string * string)
}.

(** ** Ownership ([release_owner.go]) *)

Definition helmReleaseLabels : list string := ["app.kubernetes.io/instance"; "helm.sh/release"].
Definition helmReleaseNameAnnotation := "meta.helm.sh/release-name".
Definition helmReleaseNamespaceAnnotation := "meta.helm.sh/release-namespace".
Definition podTemplateHashLabel := "pod-template-hash".

(** The first of the keys that is set. *)
Fixpoint first_label (keys : list string) (lbls : Labels) : string :=
  match keys with
  | [] => ""
  | k :: keys => match lbls !! k with Some v => v | None => first_label keys lbls end
  end.
Definition labelRelease (lbls : Labels) : string := first_label helmReleaseLabels lbls.

(** A lookup in a Go map of strings. *)
Definition get_or_empty (k : string) (m : Labels) : string := default "" (m !! k).

Definition objectRelease (namespace : string) (obj : KMeta) : string :=
  let r := labelRelease (km_Labels obj) in
  If negb (empty r) Return r ;;
  let r := get_or_empty helmReleaseNameAnnotation (km_Annotations obj) in
  If empty r Return "" ;;
  match km_Annotations obj !! helmReleaseNamespaceAnnotation with
  | Some ns => if bool_decide (ns = namespace) then r else ""
  | None => r
  end.

Definition deploymentReleases (namespace : string) (deployments : list KDeployment) : Labels :=
  fold_left (fun out d =>
    let r := objectRelease namespace (kd_meta d) in
    if empty r then out else <[km_Name (kd_meta d) := r]> out) deployments ∅.

(** [strings.CutSuffix]. *)
Definition CutSuffix (s suffix : string) : option string :=
  let n := (String.length s - String.length suffix)%nat in
  if (String.length suffix <=? String.length s)%nat && String.eqb (sdrop n s) suffix then Some (stake n s) else None.

Definition podRelease (p : KPod) (byDeployment : Labels) : string :=
  let r := labelRelease (km_Labels (kp_meta p)) in
  If negb (empty r) Return r ;;
  match kp_controller p with
  | None => ""
  | Some (kind, name) =>
      If negb (bool_decide (kind = "ReplicaSet")) Return "" ;;
      let hash := get_or_empty podTemplateHashLabel (km_Labels (kp_meta p)) in
      If empty hash Return "" ;;
      match CutSuffix name ("-" +:+ hash) with
      | None => ""
      | Some name => get_or_empty name byDeployment
      end
  end.

(** [ownerReleasePods], after its two lists. *)
Definition ownerReleasePods (namespace release : string) (deps : list KDeployment) (pods : list KPod) : list KPod :=
  let byDeployment := deploymentReleases namespace deps in
  If negb (existsb (fun kv => bool_decide (kv.2 = release)) (map_to_list byDeployment)) Return [] ;;
  List.filter (fun p => empty (labelRelease (km_Labels (kp_meta p))) &&
                        bool_decide (podRelease p byDeployment = release)) pods.

(** ** The charts of a namespace *)

Definition StatusHealthy := "healthy".
Definition StatusProgressing := "progressing".
Definition StatusDegraded := "degraded".
Definition StatusError := "error".
Definition StatusNotFound := "not_found".
Definition degradedRestartThreshold : Z := 5.

Record DeploymentInfo := mkDeploymentInfo {
  di_Name : string;
  di_ReadyReplicas : Z;
  di_DesiredReplicas : Z;
  di_UpdatedReplicas : Z;
  di_Available : bool
}.
Record ContainerStateInfo := mkStateInfo {
  ci_ExitCode : option Z;
  ci_Name : string;
  ci_State : string;
  ci_Reason : string;
  ci_Message : string;
  ci_Image : string;
  ci_RestartCount : Z;
  ci_Ready : bool
}.
Record PodInfo := mkPodInfo {
  pi_StartTime : option time;
  pi_ContainerStates : list ContainerStateInfo;
  pi_Conditions : list KCondition;
  pi_Name : string;
  pi_Phase : string;
  pi_Image : string;
  pi_NodeName : string;
  pi_RestartCount : Z;
  pi_Ready : bool
}.
Record ServiceInfo := mkServiceInfo {
  sv_Name : string;
  sv_Type : string;
  sv_ClusterIP : string;
  sv_ExternalIP : string;
  sv_Ports : list string;
  sv_NodePorts : list Z;
  sv_IngressHosts : list string
}.

Definition ptrInt32OrDefault (p : option Z) (def : Z) : Z := match p with Some x => x | None => def end.

Definition deployment_info (d : KDeployment) : DeploymentInfo :=
  mkDeploymentInfo (km_Name (kd_meta d)) (kd_ReadyReplicas d) (ptrInt32OrDefault (kd_Replicas d) 1)
    (kd_UpdatedReplicas d)
    (existsb (fun c => bool_decide (kc_Type c = "Available") && bool_decide (kc_Status c = "True")) (kd_Conditions d)).

Definition state_info (cs : KContainerStatus) : ContainerStateInfo :=
  let mk exit state reason message :=
    mkStateInfo exit (ks_Name cs) state reason message (ks_Image cs) (ks_RestartCount cs) (ks_Ready cs) in
  match ks_State cs with
  | KRunning => mk None "running" "" ""
  | KWaiting reason message => mk None "waiting" reason message
  | KTerminated reason message code => mk (Some code) "terminated" reason message
  | KNoState => mk None "unknown" "" ""
  end.

(** An addition of two [int32]. *)
Definition wrap32 (x : Z) : Z := ((x + 2 ^ 31) mod 2 ^ 32 - 2 ^ 31)%Z.
Definition sum32 (l : list Z) : Z := fold_left (fun a x => wrap32 (a + x)) l 0%Z.

Definition pod_statuses (p : KPod) : list KContainerStatus := kp_InitStatuses p ++ kp_Statuses p.
Definition pod_info (p : KPod) : PodInfo :=
  mkPodInfo (kp_StartTime p) (map state_info (pod_statuses p)) (kp_Conditions p) (km_Name (kp_meta p)) (kp_Phase p)
    (match kp_Containers p with c :: _ => kct_Image c | [] => "" end) (kp_NodeName p)
    (sum32 (map ks_RestartCount (pod_statuses p))) (forallb ks_Ready (pod_statuses p)).

Definition service_info (s : KService) : ServiceInfo :=
  mkServiceInfo (km_Name (ksv_meta s)) (ksv_Type s) (ksv_ClusterIP s)
    (if bool_decide (ksv_Type s = "LoadBalancer") then
       match ksv_LoadBalancer s with
       | (ip, hostname) :: _ => if empty ip then hostname else ip
       | [] => ""
       end
     else "")
    (map (fun p => itoa (kpt_Port p) +:+ "/" +:+ kpt_Protocol p) (ksv_Ports s))
    (if bool_decide (ksv_Type s = "NodePort") || bool_decide (ksv_Type s = "LoadBalancer")
     then List.filter (fun n => negb (n =? 0)%Z) (map kpt_NodePort (ksv_Ports s)) else [])
    [].

Record chartResources := mkResources {
  cr_deployments : list DeploymentInfo;
  cr_pods : list PodInfo;
  cr_services : list ServiceInfo
}.
Definition no_resources : chartResources := mkResources [] [] [].

Definition or_unmanaged (release : string) : string := if empty release then "_unmanaged" else release.

(** [ensureChart] and the append to the chart. *)
Definition add_to (release : string) (f : chartResources -> chartResources) (charts : gmap string chartResources)
    : gmap string chartResources :=
  <[or_unmanaged release := f (default no_resources (charts !! or_unmanaged release))]> charts.

Definition add_deployment (d : DeploymentInfo) (cr : chartResources) : chartResources :=
  mkResources (cr_deployments cr ++ [d]) (cr_pods cr) (cr_services cr).
Definition add_pod (p : PodInfo) (cr : chartResources) : chartResources :=
  mkResources (cr_deployments cr) (cr_pods cr ++ [p]) (cr_services cr).
Definition add_service (s : ServiceInfo) (cr : chartResources) : chartResources :=
  mkResources (cr_deployments cr) (cr_pods cr) (cr_services cr ++ [s]).

(** The three loops over the listed objects. *)
Definition group_objects (namespace : string) (deps : list KDeployment) (pods : list KPod) (svcs : list KService)
    : gmap string chartResources :=
  let byDeployment := deploymentReleases namespace deps in
  let charts := fold_left (fun m d => add_to (objectRelease namespace (kd_meta d)) (add_deployment (deployment_info d)) m) deps ∅ in
  let charts := fold_left (fun m p => add_to (podRelease p byDeployment) (add_pod (pod_info p)) m) pods charts in
  fold_left (fun m s => add_to (objectRelease namespace (ksv_meta s)) (add_service (service_info s)) m) svcs charts.

(** ** The status of a chart and of the namespace *)

(** The three flags of [determineChartStatus]: error, degraded, progressing. *)
Record Flags := mkFlags { fl_error : bool; fl_degraded : bool; fl_progressing : bool }.

Definition pod_flags (f : Flags) (p : PodInfo) : Flags :=
  If bool_decide (pi_Phase p = "Failed") Return mkFlags true (fl_degraded f) (fl_progressing f) ;;
  If bool_decide (pi_Phase p = "Succeeded") Return f ;;
  If (degradedRestartThreshold <=? pi_RestartCount p)%Z Return mkFlags (fl_error f) true (fl_progressing f) ;;
  If bool_decide (pi_Phase p = "Pending") || negb (pi_Ready p) Return mkFlags (fl_error f) (fl_degraded f) true ;;
  f.

Definition deployment_flags (f : Flags) (d : DeploymentInfo) : Flags :=
  If negb (di_ReadyReplicas d <? di_DesiredReplicas d)%Z Return f ;;
  if (di_UpdatedReplicas d <? di_DesiredReplicas d)%Z then mkFlags (fl_error f) (fl_degraded f) true
  else mkFlags (fl_error f) true (fl_progressing f).

Definition determineChartStatus (deployments : list DeploymentInfo) (pods : list PodInfo) : string :=
  let f := fold_left deployment_flags deployments (fold_left pod_flags pods (mkFlags false false false)) in
  If fl_error f Return StatusError ;;
  If fl_degraded f Return StatusDegraded ;;
  If fl_progressing f Return StatusProgressing ;;
  StatusHealthy.

(** The map [priority]; a missing key reads as zero. *)
Definition priority (s : string) : Z :=
  If bool_decide (s = StatusProgressing) Return 1%Z ;;
  If bool_decide (s = StatusDegraded) Return 2%Z ;;
  If bool_decide (s = StatusError) Return 3%Z ;;
  0%Z.

Record ChartStatus := mkChartStatus {
  ch_ReleaseName : string;
  ch_ChartName : string;
  ch_Status : string;
  ch_Deployments : list DeploymentInfo;
  ch_Pods : list PodInfo;
  ch_Services : list ServiceInfo
}.

Definition determineOverallStatus (charts : list ChartStatus) : string :=
  match charts with
  | [] => StatusHealthy
  | _ => fold_left (fun worst c => if (priority worst <? priority (ch_Status c))%Z then ch_Status c else worst)
           charts StatusHealthy
  end.

(** ** Ingresses *)

(** A path of a rule: the path and the service of its backend. *)
Record KRule := mkRule { kr_Host : string; kr_Paths : option (list (string * option string)) }.
Record KIngress := mkIngress {
  ki_meta : KMeta;
  ki_TLS : list (list string);
  ki_Rules : list KRule
}.

Record IngressInfo := mkIngressInfo {
  ii_Name : string;
  ii_Host : string;
  ii_Path : string;
  ii_URL : string;
  ii_TLS : bool;
  ii_Primary : bool
}.

Definition PrimaryURLAnnotation := "k8s-stack-manager.io/primary-url".

Definition constructIngressURL (host path : string) (tls : bool) : string :=
  let scheme := if tls then "https" else "http" in
  If empty path || bool_decide (path = "/") Return scheme +:+ "://" +:+ host ;;
  scheme +:+ "://" +:+ host +:+ path.

Definition appendUnique (slice : list string) (val : string) : list string :=
  if existsb (String.eqb val) slice then slice else slice ++ [val].

(** The state of the loop over the ingresses: the entries, the hosts with TLS and the
    hosts of each service. *)
Record IngressScan := mkScan {
  is_ingresses : list IngressInfo;
  is_tls : gset string;
  is_hosts : gmap string (list string)
}.

Definition scan_path (name host : string) (primary : bool) (x : IngressScan) (p : string * option string) : IngressScan :=
  let tls := bool_decide (host ∈ is_tls x) in
  mkScan (is_ingresses x ++ [mkIngressInfo name host p.1 (constructIngressURL host p.1 tls) tls primary]) (is_tls x)
    (match p.2 with
     | Some svc => <[svc := appendUnique (default [] (is_hosts x !! svc)) host]> (is_hosts x)
     | None => is_hosts x
     end).

Definition scan_rule (name : string) (primary : bool) (x : IngressScan) (r : KRule) : IngressScan :=
  match kr_Paths r with
  | None => x
  | Some paths => fold_left (scan_path name (kr_Host r) primary) paths x
  end.

Definition scan_ingress (x : IngressScan) (ing : KIngress) : IngressScan :=
  let primary := bool_decide (km_Annotations (ki_meta ing) !! PrimaryURLAnnotation = Some "true") in
  let x := mkScan (is_ingresses x) (is_tls x ∪ list_to_set (concat (ki_TLS ing))) (is_hosts x) in
  fold_left (scan_rule (km_Name (ki_meta ing)) primary) (ki_Rules ing) x.

Definition scan_ingresses (l : list KIngress) : IngressScan := fold_left scan_ingress l (mkScan [] ∅ ∅).

(** [sort.SliceStable] with primary entries first. *)
Definition primary_first (l : list IngressInfo) : list IngressInfo :=
  sort_by (fun i => if ii_Primary i then 0%Z else 1%Z) l.

Definition with_hosts (hosts : gmap string (list string)) (s : ServiceInfo) : ServiceInfo :=
  match hosts !! sv_Name s with
  | Some h => mkServiceInfo (sv_Name s) (sv_Type s) (sv_ClusterIP s) (sv_ExternalIP s) (sv_Ports s) (sv_NodePorts s) h
  | None => s
  end.
Definition attach_hosts (hosts : gmap string (list string)) (charts : gmap string chartResources) : gmap string chartResources :=
  (fun cr => mkResources (cr_deployments cr) (cr_pods cr) (map (with_hosts hosts) (cr_services cr))) <$> charts.

(** ** Events *)

Record KEvent := mkEvent {
  ke_Type : string;
  ke_Reason : string;
  ke_Message : string;
  ke_Kind : string;
  ke_Name : string;
  ke_Count : Z;
  ke_First : option time;
  ke_Last : option time;
  ke_Creation : time
}.
Record PodEvent := mkPodEvent {
  pe_FirstSeen : time;
  pe_LastSeen : time;
  pe_Type : string;
  pe_Reason : string;
  pe_Message : string;
  pe_Object : string;
  pe_Count : Z
}.

Definition event_lastSeen (e : KEvent) : time := default (ke_Creation e) (ke_Last e).
Definition event_kept (oneHourAgo : time) (e : KEvent) : bool :=
  negb (negb (bool_decide (ke_Type e = "Warning")) && (event_lastSeen e <? oneHourAgo)%Z).
Definition event_info (e : KEvent) : PodEvent :=
  mkPodEvent (default (ke_Creation e) (ke_First e)) (event_lastSeen e) (ke_Type e) (ke_Reason e) (ke_Message e)
    (if empty (ke_Kind e) then "" else ke_Kind e +:+ "/" +:+ ke_Name e) (ke_Count e).

(** ** GetNamespaceStatus *)

Class MapRange := {
  range_map : forall {A}, gmap string A -> list (string * A);
  range_map_perm : forall {A} (m : gmap string A), Permutation (range_map m) (map_to_list m)
}.

(** [sort.Slice] by the last time, newest first: a sorted permutation, the order of
    equal times is not fixed. *)
Class EventSort := {
  sort_events : list PodEvent -> list PodEvent;
  sort_events_perm : forall l, Permutation (sort_events l) l;
  sort_events_sorted : forall l, StronglySorted (fun a b => (pe_LastSeen b <= pe_LastSeen a)%Z) (sort_events l)
}.

Record NamespaceStatus := mkNamespaceStatus {
  nst_LastChecked : time;
  nst_Namespace : string;
  nst_Status : string;
  nst_Charts : list ChartStatus;
  nst_Ingresses : list IngressInfo;
  nst_Events : list PodEvent
}.

(** The answers of the API server. *)
Record Listing := mkListing {
  ls_exists : res bool;
  ls_deployments : res (list KDeployment);
  ls_pods : res (list KPod);
  ls_services : res (list KService);
  ls_ingresses : res (list KIngress);
  ls_events : res (list KEvent)
}.

Section status.
Context `{MapRange} `{EventSort}.

Definition chart_status (kv : string * chartResources) : ChartStatus :=
  mkChartStatus kv.1 kv.1 (determineChartStatus (cr_deployments kv.2) (cr_pods kv.2))
    (cr_deployments kv.2) (cr_pods kv.2) (cr_services kv.2).

Definition list_events (now : time) (l : res (list KEvent)) : list PodEvent :=
  match l with
  | Err _ => []
  | Ok l => take 50 (sort_events (map event_info (List.filter (event_kept (now - Hour)) l)))
  end.

Definition GetNamespaceStatus (namespace : string) (includeEvents : bool) (now : time) (k : Listing) : res NamespaceStatus :=
  exists_ <-r res_wrap "check namespace: " (ls_exists k) ;;
  If negb exists_ Return Ok (mkNamespaceStatus now namespace StatusNotFound [] [] []) ;;
  deps <-r res_wrap ("list deployments in " +:+ quote namespace +:+ ": ") (ls_deployments k) ;;
  pods <-r res_wrap ("list pods in " +:+ quote namespace +:+ ": ") (ls_pods k) ;;
  svcs <-r res_wrap ("list services in " +:+ quote namespace +:+ ": ") (ls_services k) ;;
  let charts := group_objects namespace deps pods svcs in
  let '(ingresses, charts) :=
    match ls_ingresses k with
    | Err _ => ([], charts)
    | Ok l => let x := scan_ingresses l in (primary_first (is_ingresses x), attach_hosts (is_hosts x) charts)
    end in
  let events := if includeEvents then list_events now (ls_events k) else [] in
  let statuses := map chart_status (range_map charts) in
  Ok (mkNamespaceStatus now namespace (determineOverallStatus statuses) statuses ingresses events).
End status.

(** ** Lemmas: the charts *)

Definition in_chart {A} (rel : A -> string) (r : string) (l : list A) : list A :=
  List.filter (fun x => bool_decide (or_unmanaged (rel x) = r)) l.

Lemma fold_add_lookup {A} (rel : A -> string) (add : A -> chartResources -> chartResources) l :
  forall m r, fold_left (fun m x => add_to (rel x) (add x) m) l m !! r =
    match in_chart rel r l with
    | [] => m !! r
    | xs => Some (fold_left (fun cr x => add x cr) xs (default no_resources (m !! r)))
    end.
Proof.
  unfold in_chart. induction l as [|x l IH]; intros m r; cbn [fold_left List.filter]; [done|].
  rewrite IH. unfold add_to. destruct (decide (or_unmanaged (rel x) = r)) as [<-|Hne].
  - rewrite bool_decide_eq_true_2 by done. rewrite lookup_insert_eq. cbn [fold_left]. by destruct (List.filter _ l).
  - rewrite bool_decide_eq_false_2 by done. by rewrite lookup_insert_ne.
Qed.

Lemma fold_deployments (l : list KDeployment) : forall cr,
  fold_left (fun cr d => add_deployment (deployment_info d) cr) l cr =
    mkResources (cr_deployments cr ++ map deployment_info l) (cr_pods cr) (cr_services cr).
Proof.
  induction l as [|x l IH]; intros cr; cbn [fold_left map].
  - rewrite app_nil_r. by destruct cr.
  - rewrite IH. cbn. by rewrite <- app_assoc.
Qed.
Lemma fold_pods (l : list KPod) : forall cr,
  fold_left (fun cr p => add_pod (pod_info p) cr) l cr =
    mkResources (cr_deployments cr) (cr_pods cr ++ map pod_info l) (cr_services cr).
Proof.
  induction l as [|x l IH]; intros cr; cbn [fold_left map].
  - rewrite app_nil_r. by destruct cr.
  - rewrite IH. cbn. by rewrite <- app_assoc.
Qed.
Lemma fold_services (l : list KService) : forall cr,
  fold_left (fun cr s => add_service (service_info s) cr) l cr =
    mkResources (cr_deployments cr) (cr_pods cr) (cr_services cr ++ map service_info l).
Proof.
  induction l as [|x l IH]; intros cr; cbn [fold_left map].
  - rewrite app_nil_r. by destruct cr.
  - rewrite IH. cbn. by rewrite <- app_assoc.
Qed.

(** The release of the objects of each kind. *)
Definition dep_release (namespace : string) (d : KDeployment) : string := objectRelease namespace (kd_meta d).
Definition svc_release (namespace : string) (s : KService) : string := objectRelease namespace (ksv_meta s).
Definition pod_release (namespace : string) (deps : list KDeployment) (p : KPod) : string :=
  podRelease p (deploymentReleases namespace deps).

(** The chart of a release holds the objects of the release, in the order of the lists. *)
Lemma group_objects_lookup namespace deps pods svcs r :
  group_objects namespace deps pods svcs !! r =
    match in_chart (dep_release namespace) r deps, in_chart (pod_release namespace deps) r pods,
          in_chart (svc_release namespace) r svcs with
    | [], [], [] => None
    | ds, ps, ss => Some (mkResources (map deployment_info ds) (map pod_info ps) (map service_info ss))
    end.
Proof.
  unfold group_objects. rewrite (fold_add_lookup (svc_release namespace) (fun s => add_service (service_info s))).
  rewrite (fold_add_lookup (pod_release namespace deps) (fun p => add_pod (pod_info p))).
  rewrite (fold_add_lookup (dep_release namespace) (fun d => add_deployment (deployment_info d))).
  rewrite lookup_empty.
  destruct (in_chart (dep_release namespace) r deps) as [|d ds];
    destruct (in_chart (pod_release namespace deps) r pods) as [|p ps];
    destruct (in_chart (svc_release namespace) r svcs) as [|s ss]; try done;
    rewrite ?fold_deployments, ?fold_pods, ?fold_services; cbn [default from_option id];
    rewrite ?fold_deployments, ?fold_pods, ?fold_services; done.
Qed.

(** ** Lemmas: severity *)

(** How bad a pod and a deployment are, on the scale of [priority]. *)
Definition pod_severity (p : PodInfo) : Z :=
  If bool_decide (pi_Phase p = "Failed") Return 3%Z ;;
  If bool_decide (pi_Phase p = "Succeeded") Return 0%Z ;;
  If (degradedRestartThreshold <=? pi_RestartCount p)%Z Return 2%Z ;;
  if bool_decide (pi_Phase p = "Pending") || negb (pi_Ready p) then 1%Z else 0%Z.

Definition deployment_severity (d : DeploymentInfo) : Z :=
  If (di_DesiredReplicas d <=? di_ReadyReplicas d)%Z Return 0%Z ;;
  if (di_UpdatedReplicas d <? di_DesiredReplicas d)%Z then 1%Z else 2%Z.

(** The severity that the flags stand for. *)
Definition flags_level (f : Flags) : Z :=
  if fl_error f then 3%Z else if fl_degraded f then 2%Z else if fl_progressing f then 1%Z else 0%Z.

Lemma pod_flags_level f p : flags_level (pod_flags f p) = Z.max (flags_level f) (pod_severity p).
Proof.
  unfold pod_flags, pod_severity, flags_level. destruct f as [e d g]. cbn.
  repeat case_match; destruct e, d, g; simplify_eq/=; lia.
Qed.
Lemma deployment_flags_level f d : flags_level (deployment_flags f d) = Z.max (flags_level f) (deployment_severity d).
Proof.
  unfold deployment_flags, deployment_severity, flags_level. destruct f as [e b g]. cbn.
  destruct (Z.ltb_spec (di_ReadyReplicas d) (di_DesiredReplicas d));
    destruct (Z.leb_spec (di_DesiredReplicas d) (di_ReadyReplicas d)); try lia; cbn;
    repeat case_match; destruct e, b, g; simplify_eq/=; lia.
Qed.

(** The largest severity of a list, at least [z]. *)
Definition worst {A} (sev : A -> Z) (l : list A) (z : Z) : Z := fold_left (fun z x => Z.max z (sev x)) l z.

Lemma worst_ge {A} (sev : A -> Z) l : forall z k,
  (k <= worst sev l z)%Z <-> (k <= z)%Z \/ exists x, x ∈ l /\ (k <= sev x)%Z.
Proof.
  unfold worst. induction l as [|x l IH]; intros z k; cbn [fold_left].
  - split; [by left|]. intros [?|(x & []%elem_of_nil & _)]; done.
  - rewrite IH. split.
    + intros [Hk|(y & Hy & Hk)].
      * destruct (Z.le_gt_cases k z); [by left|]. right. exists x. split; [by left|lia].
      * right. exists y. split; [by right|done].
    + intros [Hk|(y & [->|Hy]%elem_of_cons & Hk)]; [left; lia|left; lia|right; eauto].
Qed.

Lemma fold_level {A} (step : Flags -> A -> Flags) (sev : A -> Z) l :
  (forall f x, flags_level (step f x) = Z.max (flags_level f) (sev x)) ->
  forall f, flags_level (fold_left step l f) = worst sev l (flags_level f).
Proof. intros Hs. unfold worst. induction l as [|x l IH]; intros f; cbn; [done|]. by rewrite IH, Hs. Qed.

Lemma chart_status_priority deps pods :
  priority (determineChartStatus deps pods) = worst deployment_severity deps (worst pod_severity pods 0).
Proof.
  unfold determineChartStatus. change 0%Z with (flags_level (mkFlags false false false)).
  rewrite <- (fold_level pod_flags), <- (fold_level deployment_flags) by auto using pod_flags_level, deployment_flags_level.
  set (f := fold_left _ _ _). unfold flags_level. by destruct f as [[] [] []].
Qed.

Lemma overall_priority charts :
  priority (determineOverallStatus charts) = worst (fun c => priority (ch_Status c)) charts 0.
Proof.
  assert (forall z, priority (fold_left (fun worst c => if (priority worst <? priority (ch_Status c))%Z
      then ch_Status c else worst) charts z) = worst (fun c => priority (ch_Status c)) charts (priority z)) as Hf.
  { unfold worst. induction charts as [|c l IH]; intros z; cbn [fold_left]; [done|]. rewrite IH. f_equal.
    destruct (Z.ltb_spec (priority z) (priority (ch_Status c))); lia. }
  unfold determineOverallStatus. destruct charts as [|c l]; [done|]. by rewrite Hf.
Qed.

Definition known_status (s : string) : Prop :=
  s = StatusHealthy \/ s = StatusProgressing \/ s = StatusDegraded \/ s = StatusError.

Lemma chart_known deps pods : known_status (determineChartStatus deps pods).
Proof. unfold determineChartStatus, known_status. repeat case_match; auto. Qed.

Lemma overall_known charts :
  Forall (fun c => known_status (ch_Status c)) charts -> known_status (determineOverallStatus charts).
Proof.
  intros Hc. unfold determineOverallStatus. destruct charts as [|c0 l0] eqn:E; [by left|]. rewrite <- E in *. clear E.
  assert (known_status StatusHealthy) as H0 by (by left). revert H0. generalize StatusHealthy.
  induction Hc as [|c l Hk _ IH]; intros z Hz; cbn [fold_left]; [done|]. apply IH. by case_match.
Qed.

(** A known status is the one of its priority. *)
Lemma known_priority s z : known_status s -> known_status z -> priority s = priority z -> s = z.
Proof. by intros [->|[->|[->| ->]]] [->|[->|[->| ->]]]. Qed.

Lemma attach_hosts_lookup hosts charts r :
  attach_hosts hosts charts !! r =
    (fun cr => mkResources (cr_deployments cr) (cr_pods cr) (map (with_hosts hosts) (cr_services cr))) <$> charts !! r.
Proof. unfold attach_hosts. apply lookup_fmap. Qed.

(** ** Lemmas: ingresses *)

Definition primary_key (i : IngressInfo) : Z := if ii_Primary i then 0%Z else 1%Z.

Lemma insert_primary x l : ii_Primary x = true -> insert_by primary_key x l = x :: l.
Proof. intros E. destruct l as [|y l]; cbn; [done|]. unfold primary_key. rewrite E. by destruct (ii_Primary y). Qed.

Lemma insert_secondary x l : ii_Primary x = false ->
  insert_by primary_key x (List.filter ii_Primary l ++ List.filter (fun i => negb (ii_Primary i)) l)%list =
  (List.filter ii_Primary l ++ x :: List.filter (fun i => negb (ii_Primary i)) l)%list.
Proof.
  intros E. assert (forall m, Forall (fun i => ii_Primary i = false) m -> insert_by primary_key x m = x :: m) as Hn.
  { intros m [|y m' Ey _]; cbn; [done|]. unfold primary_key. by rewrite E, Ey. }
  assert (forall n m, Forall (fun i => ii_Primary i = true) n -> Forall (fun i => ii_Primary i = false) m ->
            insert_by primary_key x (n ++ m)%list = (n ++ x :: m)%list) as Ha.
  { intros n m Hp Hm. induction Hp as [|y n Ey _ IH]; cbn [app insert_by]; [by apply Hn|].
    unfold primary_key at 1 2. rewrite E, Ey. cbn. by rewrite IH. }
  apply Ha; apply Forall_forall; intros y Hy; apply list_elem_of_In, filter_In in Hy as [_ Hy]; [done|].
  by apply negb_true_iff.
Qed.

Lemma primary_first_partition l :
  primary_first l = (List.filter ii_Primary l ++ List.filter (fun i => negb (ii_Primary i)) l)%list.
Proof.
  unfold primary_first. fold primary_key. induction l as [|x l IH]; cbn [sort_by List.filter]; [done|].
  rewrite IH. destruct (ii_Primary x) eqn:E; cbn [negb app]; [by rewrite insert_primary|by rewrite insert_secondary].
Qed.

(** ** Theorems *)

Section theorems.
Context `{MapRange} `{EventSort}.

Lemma range_map_elem {A} (m : gmap string A) k x : (k, x) ∈ range_map m <-> m !! k = Some x.
Proof. rewrite (range_map_perm m). apply elem_of_map_to_list. Qed.

(** A status of an existing namespace with its charts. *)
Lemma status_inv namespace ev now k st :
  GetNamespaceStatus namespace ev now k = Ok st -> ls_exists k = Ok true ->
  exists deps pods svcs hosts,
    ls_deployments k = Ok deps /\ ls_pods k = Ok pods /\ ls_services k = Ok svcs /\
    let charts := match hosts with
                  | Some h => attach_hosts h (group_objects namespace deps pods svcs)
                  | None => group_objects namespace deps pods svcs
                  end in
    nst_Charts st = map chart_status (range_map charts) /\ nst_Status st = determineOverallStatus (nst_Charts st).
Proof.
  unfold GetNamespaceStatus. intros Hs He. rewrite He in Hs. cbn in Hs.
  destruct (ls_deployments k) as [deps|e]; [|done]. destruct (ls_pods k) as [pods|e]; [|done].
  destruct (ls_services k) as [svcs|e]; [|done]. cbn in Hs.
  destruct (ls_ingresses k) as [l|e]; simplify_eq/=.
  - by exists deps, pods, svcs, (Some (is_hosts (scan_ingresses l))).
  - by exists deps, pods, svcs, None.
Qed.

(** The content of the chart of a release; [f] sets the hosts of the services. *)
Definition chart_content (namespace : string) (deps : list KDeployment) (pods : list KPod) (svcs : list KService)
    (f : ServiceInfo -> ServiceInfo) (r : string) : option chartResources :=
  match in_chart (dep_release namespace) r deps, in_chart (pod_release namespace deps) r pods,
        in_chart (svc_release namespace) r svcs with
  | [], [], [] => None
  | ds, ps, ss => Some (mkResources (map deployment_info ds) (map pod_info ps) (map f (map service_info ss)))
  end.
Definition set_hosts (hosts : option (gmap string (list string))) : ServiceInfo -> ServiceInfo :=
  match hosts with Some h => with_hosts h | None => fun s => s end.

Lemma charts_lookup namespace deps pods svcs hosts r :
  match hosts with
  | Some h => attach_hosts h (group_objects namespace deps pods svcs)
  | None => group_objects namespace deps pods svcs
  end !! r = chart_content namespace deps pods svcs (set_hosts hosts) r.
Proof.
  unfold chart_content. destruct hosts as [h|]; rewrite ?attach_hosts_lookup, group_objects_lookup;
    destruct (in_chart (dep_release namespace) r deps), (in_chart (pod_release namespace deps) r pods),
      (in_chart (svc_release namespace) r svcs); cbn; by rewrite ?map_id.
Qed.

Lemma chart_content_some namespace deps pods svcs f r cr :
  chart_content namespace deps pods svcs f r = Some cr ->
  cr = mkResources (map deployment_info (in_chart (dep_release namespace) r deps))
         (map pod_info (in_chart (pod_release namespace deps) r pods))
         (map f (map service_info (in_chart (svc_release namespace) r svcs))).
Proof.
  unfold chart_content. by destruct (in_chart (dep_release namespace) r deps),
    (in_chart (pod_release namespace deps) r pods), (in_chart (svc_release namespace) r svcs); intros [= <-].
Qed.

Lemma in_chart_elem {A} (rel : A -> string) r l x : x ∈ in_chart rel r l <-> x ∈ l /\ or_unmanaged (rel x) = r.
Proof. unfold in_chart. by rewrite !list_elem_of_In, filter_In, bool_decide_eq_true. Qed.

(** The chart of an object exists. *)
Lemma chart_content_exists namespace deps pods svcs f r :
  (exists d, d ∈ in_chart (dep_release namespace) r deps) \/
  (exists p, p ∈ in_chart (pod_release namespace deps) r pods) \/
  (exists s, s ∈ in_chart (svc_release namespace) r svcs) ->
  is_Some (chart_content namespace deps pods svcs f r).
Proof.
  unfold chart_content. destruct (in_chart (dep_release namespace) r deps), (in_chart (pod_release namespace deps) r pods),
    (in_chart (svc_release namespace) r svcs); try (by eexists).
  by intros [[? ?%elem_of_nil]|[[? ?%elem_of_nil]|[? ?%elem_of_nil]]].
Qed.

Lemma worst_map {A B} (sev : B -> Z) (f : A -> B) l z k :
  (k <= worst sev (map f l) z)%Z <-> (k <= z)%Z \/ exists x, x ∈ l /\ (k <= sev (f x))%Z.
Proof.
  rewrite worst_ge. split; (intros [?|(x & Hx & Hk)]; [by left|right]).
  - apply list_elem_of_In, in_map_iff in Hx as (y & <- & Hy). exists y. by rewrite list_elem_of_In.
  - exists (f x). split; [|done]. by apply list_elem_of_In, in_map, list_elem_of_In.
Qed.
End theorems.

(** The charts of a namespace partition its objects: every deployment, pod and
    service is in the chart of its release ([_unmanaged] without one), in the order of
    the list, and in no other; a release has one chart. *)
Theorem charts_partition `{MapRange} `{EventSort} namespace ev now k deps pods svcs st :
  GetNamespaceStatus namespace ev now k = Ok st -> ls_exists k = Ok true ->
  ls_deployments k = Ok deps -> ls_pods k = Ok pods -> ls_services k = Ok svcs ->
  NoDup (map ch_ReleaseName (nst_Charts st)) /\
  (forall ch, ch ∈ nst_Charts st ->
     let r := ch_ReleaseName ch in
     ch_Deployments ch = map deployment_info (in_chart (dep_release namespace) r deps) /\
     ch_Pods ch = map pod_info (in_chart (pod_release namespace deps) r pods) /\
     map sv_Name (ch_Services ch) = map (fun s => km_Name (ksv_meta s)) (in_chart (svc_release namespace) r svcs)) /\
  (forall p, p ∈ pods -> or_unmanaged (pod_release namespace deps p) ∈ map ch_ReleaseName (nst_Charts st)) /\
  (forall d, d ∈ deps -> or_unmanaged (dep_release namespace d) ∈ map ch_ReleaseName (nst_Charts st)) /\
  (forall s, s ∈ svcs -> or_unmanaged (svc_release namespace s) ∈ map ch_ReleaseName (nst_Charts st)).
Proof.
  intros Hs He Hdl Hpl Hsl. destruct (status_inv _ _ _ _ _ Hs He) as (deps' & pods' & svcs' & hosts & D & P & S & Hc & _).
  rewrite Hdl in D. rewrite Hpl in P. rewrite Hsl in S. injection D as <-. injection P as <-. injection S as <-. rewrite Hc. set (charts := match hosts with Some _ => _ | None => _ end) in *.
  assert (forall r, charts !! r = chart_content namespace deps pods svcs (set_hosts hosts) r) as Hl by apply charts_lookup.
  rewrite map_map. cbn [chart_status ch_ReleaseName].
  assert (forall r, is_Some (charts !! r) -> r ∈ map fst (range_map charts)) as Hin.
  { intros r [cr Hr]. apply list_elem_of_In, in_map_iff. exists (r, cr). split; [done|].
    by apply list_elem_of_In, range_map_elem. }
  split_and!.
  - rewrite (range_map_perm charts). apply NoDup_fst_map_to_list.
  - intros ch (kv & <- & Hkv%list_elem_of_In)%list_elem_of_In%in_map_iff. destruct kv as [r cr].
    apply range_map_elem in Hkv. rewrite Hl in Hkv. apply chart_content_some in Hkv as ->.
    cbn. split_and!; [done..|]. rewrite !map_map. apply map_ext. intros s. unfold set_hosts, with_hosts.
    destruct hosts as [h|]; [|done]. by destruct (h !! _).
  - intros p Hp. apply Hin. rewrite Hl. apply chart_content_exists. right. left. exists p. by apply in_chart_elem.
  - intros d Hd. apply Hin. rewrite Hl. apply chart_content_exists. left. exists d. by apply in_chart_elem.
  - intros s Hs'. apply Hin. rewrite Hl. apply chart_content_exists. right. right. exists s. by apply in_chart_elem.
Qed.

(** The status of a namespace is that of its worst object, however the objects are
    grouped into charts and in whatever order the charts are visited. *)
Theorem namespace_status_worst `{MapRange} `{EventSort} namespace ev now k deps pods st :
  GetNamespaceStatus namespace ev now k = Ok st -> ls_exists k = Ok true ->
  ls_deployments k = Ok deps -> ls_pods k = Ok pods ->
  known_status (nst_Status st) /\
  priority (nst_Status st) =
    worst deployment_severity (map deployment_info deps) (worst pod_severity (map pod_info pods) 0).
Proof.
  intros Hs He Hdl Hpl. destruct (status_inv _ _ _ _ _ Hs He) as (deps' & pods' & svcs & hosts & D & P & S & Hc & ->).
  rewrite Hdl in D. rewrite Hpl in P. injection D as <-. injection P as <-. rewrite Hc. set (charts := match hosts with Some _ => _ | None => _ end) in *.
  assert (forall r, charts !! r = chart_content namespace deps pods svcs (set_hosts hosts) r) as Hl by apply charts_lookup.
  split.
  { apply overall_known, Forall_forall. intros ch (kv & <- & _)%list_elem_of_In%in_map_iff. apply chart_known. }
  rewrite overall_priority.
  enough (forall z, (z <= worst (fun c => priority (ch_Status c)) (map chart_status (range_map charts)) 0)%Z <->
    (z <= worst deployment_severity (map deployment_info deps) (worst pod_severity (map pod_info pods) 0))%Z) as Hz.
  { apply Z.le_antisymm; apply Hz; lia. }
  intros z. rewrite !worst_map. split.
  - intros [Hz|([r cr] & Hkv & Hz)]; [by left; left|].
    apply range_map_elem in Hkv. rewrite Hl in Hkv. apply chart_content_some in Hkv as ->.
    cbn [chart_status ch_Status cr_deployments cr_pods fst snd] in Hz. rewrite chart_status_priority in Hz.
    apply worst_map in Hz as [Hz|(d & [Hd _]%in_chart_elem & Hz)]; [|by right; exists d].
    left. apply worst_map in Hz as [Hz|(p & [Hp _]%in_chart_elem & Hz)]; [by left|by right; exists p].
  - assert (forall r, is_Some (charts !! r) -> exists kv, kv ∈ range_map charts /\ kv.1 = r /\
      kv.2 = mkResources (map deployment_info (in_chart (dep_release namespace) r deps))
         (map pod_info (in_chart (pod_release namespace deps) r pods))
         (map (set_hosts hosts) (map service_info (in_chart (svc_release namespace) r svcs)))) as Hin.
    { intros r [cr Hr]. exists (r, cr). split; [by apply range_map_elem|]. split; [done|].
      rewrite Hl in Hr. by apply chart_content_some in Hr. }
    intros [[Hz|(p & Hp & Hz)]|(d & Hd & Hz)]; [by left|..]; right.
    + destruct (Hin (or_unmanaged (pod_release namespace deps p))) as ([r cr] & Hkv & Hr & Hcr).
      { rewrite Hl. apply chart_content_exists. right. left. exists p. by apply in_chart_elem. }
      cbn in Hr, Hcr. subst r cr. eexists. split; [exact Hkv|]. cbn. rewrite chart_status_priority, worst_map. left. rewrite worst_map. right.
      exists p. split; [|done]. by apply in_chart_elem.
    + destruct (Hin (or_unmanaged (dep_release namespace d))) as ([r cr] & Hkv & Hr & Hcr).
      { rewrite Hl. apply chart_content_exists. left. exists d. by apply in_chart_elem. }
      cbn in Hr, Hcr. subst r cr. eexists. split; [exact Hkv|]. cbn. rewrite chart_status_priority, worst_map. right.
      exists d. split; [|done]. by apply in_chart_elem.
Qed.

(** A pod of a chart without release labels is found through its Deployment: the name of
    its ReplicaSet is the name of the Deployment, a dash and the hash of the pod. *)
Lemma CutSuffix_app a b : CutSuffix (a +:+ b) b = Some a.
Proof.
  unfold CutSuffix. rewrite slength_app.
  replace (String.length a + String.length b - String.length b)%nat with (String.length a) by lia.
  rewrite sdrop_app, String.eqb_refl. rewrite (proj2 (Nat.leb_le _ _)) by lia. cbn [andb].
  rewrite stake_app, Nat.sub_diag by lia. f_equal. destruct b; apply sapp_nil.
Qed.

Definition put_release (namespace : string) (out : Labels) (d : KDeployment) : Labels :=
  let r := objectRelease namespace (kd_meta d) in
  if empty r then out else <[km_Name (kd_meta d) := r]> out.
Definition dep_name (d : KDeployment) : string := km_Name (kd_meta d).

Lemma releases_other namespace l k : k ∉ map dep_name l -> forall m,
  fold_left (put_release namespace) l m !! k = m !! k.
Proof.
  induction l as [|d l IH]; cbn; intros Hk m; [done|]. apply not_elem_of_cons in Hk as [Hne Hk].
  rewrite IH by done. unfold put_release. destruct (empty _); [done|]. by rewrite lookup_insert_ne.
Qed.

Lemma deployment_release_in namespace l d : NoDup (map dep_name l) -> d ∈ l ->
  get_or_empty (dep_name d) (deploymentReleases namespace l) = objectRelease namespace (kd_meta d).
Proof.
  unfold deploymentReleases. change (fun out d => _) with (put_release namespace).
  assert (forall m, m !! dep_name d = None -> NoDup (map dep_name l) -> d ∈ l ->
    get_or_empty (dep_name d) (fold_left (put_release namespace) l m) = objectRelease namespace (kd_meta d)) as Hg;
    [|by apply Hg].
  induction l as [|x l IH]; cbn; intros m Hm Hnd Hd; [by apply elem_of_nil in Hd|].
  apply NoDup_cons in Hnd as [Hx Hl].
  apply elem_of_cons in Hd as [->|Hd].
  - unfold get_or_empty. rewrite releases_other by done. unfold put_release.
    destruct (empty (objectRelease namespace (kd_meta x))) eqn:E.
    + apply empty_iff in E. by rewrite Hm, E.
    + unfold dep_name at 1. by rewrite lookup_insert_eq.
  - apply IH; try done. unfold put_release. destruct (empty _); [done|]. rewrite lookup_insert_ne; [done|].
    change (dep_name x <> dep_name d). intros E. apply Hx. rewrite E. by apply list_elem_of_In, in_map, list_elem_of_In.
Qed.

(** A pod without release labels belongs to the release of its Deployment. *)
Theorem pod_release_of_deployment namespace deps p d hash :
  NoDup (map dep_name deps) -> d ∈ deps -> labelRelease (km_Labels (kp_meta p)) = "" ->
  get_or_empty podTemplateHashLabel (km_Labels (kp_meta p)) = hash -> hash <> "" ->
  kp_controller p = Some ("ReplicaSet", dep_name d +:+ "-" +:+ hash) ->
  pod_release namespace deps p = dep_release namespace d.
Proof.
  intros Hn Hd Hl Hh Hne Hc. unfold pod_release, podRelease. rewrite Hl, Hc, Hh. cbn [negb empty].
  rewrite bool_decide_eq_true_2 by done. apply empty_false in Hne. rewrite Hne. cbn [negb].
  rewrite CutSuffix_app. by apply deployment_release_in.
Qed.

(** ** A concrete order, for the witnesses *)

#[global] Instance list_range : MapRange := {
  range_map := fun A m => map_to_list m;
  range_map_perm := fun A m => reflexivity _
}.

#[global] Program Instance insertion_sort : EventSort := {
  sort_events := sort_by (fun e => - pe_LastSeen e)%Z
}.
Next Obligation. intros l. symmetry. apply sort_by_perm. Qed.
Next Obligation.
  intros l. pose proof (sort_by_sorted (fun e => - pe_LastSeen e)%Z l) as Hs. induction Hs as [|a m _ IH Ha]; constructor; [done|].
  eapply Forall_impl; [exact Ha|]. unfold key_le. intros b Hb. cbn in Hb |- *. lia.
Qed.

(** A web deployment whose pods carry no release label, and a failed pod of no release. *)
Definition web_meta : KMeta := mkMeta "web" ∅ {[helmReleaseNameAnnotation := "shop"]}.
Definition web_deployment : KDeployment := mkDeployment web_meta (Some 2%Z) 1 2 [].
Definition web_pod : KPod :=
  mkPod (mkMeta "web-abc-x" {[podTemplateHashLabel := "abc"]} ∅) (Some ("ReplicaSet", "web-abc")) [] [] [] [] [] None
    "n1" None "Running" false.
Definition failed_pod : KPod := mkPod (mkMeta "job" ∅ ∅) None [] [] [] [] [] None "n1" None "Failed" false.
Definition shop_listing (pods : list KPod) : Listing :=
  mkListing (Ok true) (Ok [web_deployment]) (Ok pods) (Ok []) (Err (ENew "forbidden")) (Ok []).

Lemma charts_partition_witness :
  exists st, GetNamespaceStatus "ns" false 0 (shop_listing [web_pod; failed_pod]) = Ok st /\
    NoDup (map ch_ReleaseName (nst_Charts st)) /\ "shop" ∈ map ch_ReleaseName (nst_Charts st).
Proof.
  destruct (GetNamespaceStatus "ns" false 0 (shop_listing [web_pod; failed_pod])) as [st|e] eqn:E; [|by vm_compute in E].
  exists st. split; [done|].
  destruct (charts_partition "ns" false 0 (shop_listing [web_pod; failed_pod]) _ _ _ st E eq_refl eq_refl eq_refl eq_refl)
    as (Hn & _ & Hp & _).
  split; [exact Hn|]. apply (Hp web_pod). set_solver.
Defined.

Lemma namespace_status_worst_witness :
  exists st, GetNamespaceStatus "ns" false 0 (shop_listing [web_pod]) = Ok st /\ nst_Status st = StatusDegraded.
Proof.
  destruct (GetNamespaceStatus "ns" false 0 (shop_listing [web_pod])) as [st|e] eqn:E; [|by vm_compute in E].
  exists st. split; [done|].
  destruct (namespace_status_worst "ns" false 0 (shop_listing [web_pod]) _ _ st E eq_refl eq_refl eq_refl) as [Hk Hp].
  apply known_priority; [exact Hk|right; right; by left|exact Hp].
Defined.
