(* ===== verification/Capacity.v ===== *)
(** * Requests and capacity of a cluster

    The rest of [k8s/status.go]: the requests of a pod by the rule of the scheduler, the
    sums over a cluster, the nodes and the text of an amount of memory.  Requests are in
    millicores and bytes; the sums are far below 64 bits. *)

From S2P Require Import Prelude Models Store Durations Status.
From Stdlib Require OrdersEx.
Local Open Scope string_scope.
Local Open Scope list_scope.

(** ** The requests of a pod *)

(** The state of the loop over the init containers, for one resource. *)
Definition init_step (req : KContainer -> Z) (x : Z * Z) (c : KContainer) : Z * Z :=
  let '(sidecar, init) := x in
  If kct_Always c Return (let sidecar := sidecar + req c in (sidecar, Z.max init sidecar))%Z ;;
  (sidecar, Z.max init (sidecar + req c))%Z.

Definition sum_requests (req : KContainer -> Z) (l : list KContainer) : Z := fold_left (fun z c => z + req c)%Z l 0%Z.

Definition effective_request (req : KContainer -> Z) (overhead : Z) (p : KPod) : Z :=
  let app := sum_requests req (kp_Containers p) in
  let '(sidecar, init) := fold_left (init_step req) (kp_InitContainers p) (0, 0)%Z in
  (Z.max init (app + sidecar) + overhead)%Z.

Definition podEffectiveRequests (p : KPod) : Z * Z :=
  (effective_request kct_cpu (match kp_Overhead p with Some o => o.1 | None => 0 end) p,
   effective_request kct_mem (match kp_Overhead p with Some o => o.2 | None => 0 end) p)%Z.

(** ** Sums over the cluster *)

Record ClusterRequests := mkRequests { CPUMillis : Z; MemoryBytes : Z }.

Definition request_counts (p : KPod) : bool :=
  negb (empty (kp_NodeName p) || bool_decide (kp_Phase p = "Succeeded") || bool_decide (kp_Phase p = "Failed")).

Definition add_request (r : ClusterRequests) (p : KPod) : ClusterRequests :=
  If negb (request_counts p) Return r ;;
  let '(cpu, mem) := podEffectiveRequests p in
  mkRequests (CPUMillis r + cpu) (MemoryBytes r + mem).

Definition GetClusterRequests (listed : res (list KPod)) : res ClusterRequests :=
  pods <-r res_wrap "list pods: " listed ;;
  Ok (fold_left add_request pods (mkRequests 0 0)).

(** ** Nodes and namespaces *)

Record KNode := mkNode {
  kn_Name : string;
  kn_Conditions : list KCondition;
  kn_CapacityCPU : option Z;
  kn_CapacityMemory : option Z;
  kn_AllocatableCPU : option Z;
  kn_AllocatableMemory : option Z
}.
Record KNamespace := mkNamespace {
  kns_meta : KMeta;
  kns_Phase : string;
  kns_CreatedAt : time
}.

Definition is_ready (c : KCondition) : bool := bool_decide (kc_Type c = "Ready") && bool_decide (kc_Status c = "True").
Definition node_ready (n : KNode) : bool := existsb is_ready (kn_Conditions n).
Definition sum_option (f : KNode -> option Z) (l : list KNode) : Z :=
  fold_left (fun z n => match f n with Some x => z + x | None => z end)%Z l 0%Z.

(** [formatMemoryBytes]: [%.1f] prints the nearest number with one decimal, ties to
    even. *)
Definition gi : Z := (1024 * 1024 * 1024)%Z.
Definition mi : Z := (1024 * 1024)%Z.
Definition one_decimal (x : float64) : string :=
  let t := nearest_even (f_m x * 10) (2 ^ f_k x) in
  itoa (t / 10) +:+ "." +:+ itoa (t mod 10).
(** [float64(bytes)/float64(gi)]: [gi] is a power of two, so only the conversion of
    [bytes] rounds. *)
Definition in_gi (bytes : Z) : float64 := let x := of_int bytes in mkF (f_m x) (f_k x + 30).
Definition formatMemoryBytes (bytes : Z) : string :=
  If (gi <=? bytes)%Z Return one_decimal (in_gi bytes) +:+ "Gi" ;;
  itoa (Z.quot bytes mi) +:+ "Mi".
Definition FormatCPUMillis (m : Z) : string := itoa m +:+ "m".

Record ClusterSummary := mkSummary {
  cs_NodeCount : Z;
  cs_ReadyNodeCount : Z;
  cs_TotalCPU : string;
  cs_TotalMemory : string;
  cs_AllocatableCPU : string;
  cs_AllocatableMemory : string;
  cs_NamespaceCount : Z
}.

Definition is_stack (ns : KNamespace) : bool := HasPrefix (km_Name (kns_meta ns)) "stack-".

Definition GetClusterSummary (nodes : res (list KNode)) (namespaces : res (list KNamespace)) : res ClusterSummary :=
  nodes <-r res_wrap "list nodes: " nodes ;;
  namespaces <-r res_wrap "list namespaces: " namespaces ;;
  Ok (mkSummary (Z.of_nat (length nodes)) (Z.of_nat (length (List.filter node_ready nodes)))
        (FormatCPUMillis (sum_option kn_CapacityCPU nodes)) (formatMemoryBytes (sum_option kn_CapacityMemory nodes))
        (FormatCPUMillis (sum_option kn_AllocatableCPU nodes)) (formatMemoryBytes (sum_option kn_AllocatableMemory nodes))
        (Z.of_nat (length (List.filter is_stack namespaces)))).

Record NamespaceInfo := mkNamespaceInfo {
  ni_CreatedAt : time;
  ni_Name : string;
  ni_Phase : string;
  ni_Managed : bool
}.
Definition ManagedByLabelKey := "managed-by".
Definition ManagedByLabelValue := "k8s-stack-manager".

Definition namespace_info (ns : KNamespace) : NamespaceInfo :=
  mkNamespaceInfo (kns_CreatedAt ns) (km_Name (kns_meta ns)) (kns_Phase ns)
    (bool_decide (km_Labels (kns_meta ns) !! ManagedByLabelKey = Some ManagedByLabelValue)).
Definition ListStackNamespaces (listed : res (list KNamespace)) : res (list NamespaceInfo) :=
  l <-r res_wrap "list namespaces: " listed ;;
  Ok (map namespace_info (List.filter is_stack l)).

(** [PodReady] and [SelectReadyPod] ([pod_select.go]): the first ready pod by name. *)
Definition PodReady (p : option KPod) : bool :=
  match p with
  | None => false
  | Some p =>
      If kp_deleting p || negb (bool_decide (kp_Phase p = "Running")) Return false ;;
      match List.find (fun c => bool_decide (kc_Type c = "Ready")) (kp_Conditions p) with
      | Some c => bool_decide (kc_Status c = "True")
      | None => false
      end
  end.

Definition pod_name (p : KPod) : string := km_Name (kp_meta p).
Definition select_step (best : option KPod) (p : KPod) : option KPod :=
  If negb (PodReady (Some p)) Return best ;;
  match best with
  | None => Some p
  | Some b => if String.ltb (pod_name p) (pod_name b) then Some p else Some b
  end.
Definition SelectReadyPod (pods : list KPod) : option KPod := fold_left select_step pods None.

(** ** Theorems *)

(** The demand of an init container when it runs: its request and those of the sidecars
    that were started before it; and of the containers with all sidecars. *)
Definition sidecars (l : list KContainer) : list KContainer := List.filter kct_Always l.
Definition init_demand (req : KContainer -> Z) (l : list KContainer) (i : nat) : Z :=
  match l !! i with
  | Some c => sum_requests req (sidecars (take i l)) + req c
  | None => 0
  end.
Definition app_demand (req : KContainer -> Z) (p : KPod) : Z :=
  sum_requests req (kp_Containers p) + sum_requests req (sidecars (kp_InitContainers p)).
Definition max_list (l : list Z) : Z := fold_left Z.max l 0%Z.

Lemma sum_requests_snoc req l c : sum_requests req (l ++ [c]) = (sum_requests req l + req c)%Z.
Proof. unfold sum_requests. by rewrite fold_left_app. Qed.

Lemma max_list_snoc l x : max_list (l ++ [x]) = Z.max (max_list l) x.
Proof. unfold max_list. by rewrite fold_left_app. Qed.

Lemma init_demand_app req l c i : (i < length l)%nat -> init_demand req (l ++ [c]) i = init_demand req l i.
Proof. intros Hi. unfold init_demand. rewrite lookup_app_l, take_app_le by lia. done. Qed.

Lemma init_loop req l :
  fold_left (init_step req) l (0, 0)%Z =
  (sum_requests req (sidecars l), max_list (map (init_demand req l) (seq 0 (length l)))).
Proof.
  induction l as [|c l IH] using rev_ind; [done|].
  rewrite fold_left_app, IH, length_app. cbn [fold_left init_step length]. rewrite Nat.add_1_r, seq_S, map_app. cbn [map Nat.add].
  rewrite (map_ext_in (init_demand req (l ++ [c])) (init_demand req l)).
  2: { intros i Hi%in_seq. apply init_demand_app. lia. }
  rewrite max_list_snoc.
  assert (init_demand req (l ++ [c]) (length l) = (sum_requests req (sidecars l) + req c)%Z) as ->.
  { unfold init_demand. rewrite lookup_app_r, Nat.sub_diag, take_app_length by lia. done. }
  assert (sidecars (l ++ [c]) = sidecars l ++ (if kct_Always c then [c] else [])) as ->.
  { unfold sidecars. rewrite List.filter_app. by destruct (kct_Always c) eqn:E; cbn; rewrite E. }
  destruct (kct_Always c); [by rewrite sum_requests_snoc|]. by rewrite app_nil_r.
Qed.

(** The requests that a pod needs are the largest demand of any moment of its life
    (an init container with the sidecars started before it, or the containers with all
    sidecars), and the overhead. *)
Theorem effective_request_demand p req overhead :
  effective_request req overhead p =
  (max_list (map (init_demand req (kp_InitContainers p)) (seq 0 (length (kp_InitContainers p))) ++ [app_demand req p])
   + overhead)%Z.
Proof.
  unfold effective_request, app_demand. by rewrite init_loop, max_list_snoc.
Qed.

(** ** The selected pod *)

Lemma ltb_lt a b : String.ltb a b = true <-> OrdersEx.String_as_OT.lt a b.
Proof.
  assert (String.compare a b = OrdersEx.String_as_OT.compare a b) as E.
  { revert b. induction a as [|c a IH]; intros [|d b]; cbn; try done. }
  unfold String.ltb, OrdersEx.String_as_OT.lt. rewrite <- E. by destruct (String.compare a b).
Qed.

Lemma ltb_trans a b c : String.ltb a b = true -> String.ltb b c = true -> String.ltb a c = true.
Proof. rewrite !ltb_lt. apply transitivity. Qed.
Lemma ltb_irrefl a : String.ltb a a = false.
Proof.
  destruct (String.ltb a a) eqn:E; [|done]. apply ltb_lt in E.
  by destruct (irreflexivity OrdersEx.String_as_OT.lt a E).
Qed.

(** What a fold of [select_step] has chosen among the pods it saw. *)
Definition selected (seen : list KPod) (best : option KPod) : Prop :=
  match best with
  | None => forall p, p ∈ seen -> PodReady (Some p) = false
  | Some b => b ∈ seen /\ PodReady (Some b) = true /\
              forall p, p ∈ seen -> PodReady (Some p) = true -> String.ltb (pod_name p) (pod_name b) = false
  end.

#[local] Arguments PodReady : simpl never.

Lemma select_step_ok seen best p : selected seen best -> selected (seen ++ [p]) (select_step best p).
Proof.
  intros S. unfold select_step. destruct (PodReady (Some p)) eqn:R; cbn [negb].
  - destruct best as [b|]; cbn in S.
    + destruct S as (Hb & Rb & Hmin). destruct (String.ltb (pod_name p) (pod_name b)) eqn:L.
      * split; [set_solver|]. split; [done|]. intros q [Hq|Hq]%elem_of_app Rq.
        -- destruct (String.ltb (pod_name q) (pod_name p)) eqn:L'; [|done].
           rewrite <- (Hmin q Hq Rq). symmetry. by eapply ltb_trans.
        -- apply list_elem_of_singleton in Hq as ->. apply ltb_irrefl.
      * split; [set_solver|]. split; [done|]. intros q [Hq|Hq]%elem_of_app Rq; [by apply Hmin|].
        by apply list_elem_of_singleton in Hq as ->.
    + split; [set_solver|]. split; [done|]. intros q [Hq|Hq]%elem_of_app Rq; [by rewrite S in Rq|].
      apply list_elem_of_singleton in Hq as ->. apply ltb_irrefl.
  - destruct best as [b|]; cbn in S |- *.
    + destruct S as (Hb & Rb & Hmin). split; [set_solver|]. split; [done|].
      intros q [Hq|Hq]%elem_of_app Rq; [by apply Hmin|]. apply list_elem_of_singleton in Hq as ->. congruence.
    + intros q [Hq|Hq]%elem_of_app; [by apply S|]. by apply list_elem_of_singleton in Hq as ->.
Qed.

(** The pod for exec and port-forward is a ready one that no ready pod precedes by name,
    and there is none only when no pod is ready. *)
Theorem select_ready_pod pods : selected pods (SelectReadyPod pods).
Proof.
  unfold SelectReadyPod. induction pods as [|p pods IH] using rev_ind; [by intros p []%elem_of_nil|].
  rewrite fold_left_app. by apply select_step_ok.
Qed.
