(* ===== verification/Watcher.v ===== *)
(** * The status watcher

    [k8s/watcher.go]: one poll over the stored instances.  It reads the status of each
    deployed namespace, broadcasts what changed since the last poll and marks an
    instance whose namespace is in error.  The cache of the last statuses is an argument
    and a result; only the goroutine of the poll writes it.  The client of a cluster and
    its answer ([GetNamespaceStatus] of [Status]) come from the environment.  The ticker
    of [loop] is left out. *)

From stdpp Require Import sorting.
From S2P Require Import Prelude Models Store Hooks World Output Manager Ends Calm Durations Status.
Local Open Scope string_scope.

Abbreviation Cache := (gmap string Status.NamespaceStatus).

(** ** What counts as a change *)

Definition ns_pods (ns : Status.NamespaceStatus) : list PodInfo := (nst_Charts ns ≫= ch_Pods)%list.
Definition ns_deployments (ns : Status.NamespaceStatus) : list DeploymentInfo := (nst_Charts ns ≫= ch_Deployments)%list.

Definition pod_state (p : PodInfo) : string := if pi_Ready p then pi_Phase p +:+ ":ready" else pi_Phase p.
Definition count_state (m : gmap string Z) (p : PodInfo) : gmap string Z :=
  <[pod_state p := (default 0 (m !! pod_state p) + 1)%Z]> m.
Definition countPodStates (ns : Status.NamespaceStatus) : gmap string Z := fold_left count_state (ns_pods ns) ∅.

Definition totalRestarts (ns : Status.NamespaceStatus) : Z := sum32 (map pi_RestartCount (ns_pods ns)).
Definition countReadyReplicas (ns : Status.NamespaceStatus) : Z := sum32 (map di_ReadyReplicas (ns_deployments ns)).

Definition state_entry (pod : PodInfo) (cs : ContainerStateInfo) : string :=
  pi_Name pod +:+ "/" +:+ ci_Name cs +:+ ":" +:+ ci_State cs +:+ ":" +:+ ci_Reason cs +:+ ":" +:+
  itoa (default 0%Z (ci_ExitCode cs)) +:+ ":" +:+ itoa (ci_RestartCount cs).
Definition state_entries (ns : Status.NamespaceStatus) : list string :=
  (ns_pods ns ≫= fun pod => map (state_entry pod) (pi_ContainerStates pod))%list.
(** [sort.Strings] and [strings.Join]. *)
Definition containerStateDigest (ns : Status.NamespaceStatus) : string :=
  String.concat ";" (merge_sort String.le (state_entries ns)).

(** The loop over [prevPods] after the check of the sizes. *)
Definition same_counts (prev curr : gmap string Z) : bool :=
  (size prev =? size curr)%nat &&
  forallb (fun kv => (default 0 (curr !! kv.1) =? kv.2)%Z) (map_to_list prev).

Definition statusDetailsChanged (prev curr : Status.NamespaceStatus) : bool :=
  If negb (length (nst_Charts prev) =? length (nst_Charts curr))%nat Return true ;;
  If negb (same_counts (countPodStates prev) (countPodStates curr)) Return true ;;
  If negb (totalRestarts prev =? totalRestarts curr)%Z Return true ;;
  If negb (String.eqb (containerStateDigest prev) (containerStateDigest curr)) Return true ;;
  negb (countReadyReplicas prev =? countReadyReplicas curr)%Z.

(** ** The poll *)

Section watcher.
(** [clientProvider.GetK8sClient] and the status of a namespace; [hub] says whether there
    is a hub, [marker] whether the repository is an [InstanceErrorMarker]. *)
Context (clients : nat -> string -> error).
Context (status : nat -> string -> res Status.NamespaceStatus).
Context (hub marker : bool).

Definition watched (i : StackInstance) : bool :=
  has_status [StackStatusRunning; StackStatusPartial; StackStatusDeploying; StackStatusStabilizing] i
  && negb (empty (si_Namespace i)).

Definition blockingPostDeployRuns (inst : StackInstance) (now : time) : bool :=
  bool_decide (si_Status inst = StackStatusStabilizing) &&
  match si_PostDeployHookUntil inst with Some u => (now <? u)%Z | None => false end.

Definition namespaceErrorMessage := "namespace resources in error state".

Definition handleStatusTransition (inst : StackInstance) (ns : Status.NamespaceStatus) : M bool :=
  If negb (bool_decide (nst_Status ns = StatusError)) Return ret true ;;
  If bool_decide (si_Status inst = StackStatusDeploying) Return ret false ;;
  let! now := clock in
  If blockingPostDeployRuns inst now Return ret false ;;
  If bool_decide (si_Status inst = StackStatusError) Return ret true ;;
  If marker Return
    (let! now := clock in
     let! r := MarkNamespaceError (si_ID inst) namespaceErrorMessage now in
     ret match r with
         | Err _ => true
         | Ok changed => changed
         end) ;;
  run! instance_Update (inst |> si_set_Status StackStatusError |> si_set_ErrorMessage namespaceErrorMessage) in
  ret true.

Definition pollOne (cache : Cache) (inst : StackInstance) : M Cache :=
  If negb (watched inst) Return ret cache ;;
  let! client := external (fun t => clients t (si_ClusterID inst)) in
  If bool_decide (is_Some client) Return ret cache ;;
  let! r := external (fun t => status t (si_Namespace inst)) in
  match r with
  | Err _ => ret cache
  | Ok ns =>
      let changed := match cache !! si_ID inst with
                     | None => true
                     | Some prev => negb (bool_decide (nst_Status prev = nst_Status ns)) || statusDetailsChanged prev ns
                     end in
      If negb changed Return ret (<[si_ID inst := ns]> cache) ;;
      run! when_ hub (emit (EvInstanceHealth (si_ID inst) (nst_Status ns))) in
      let! keep := handleStatusTransition inst ns in
      ret (if keep then <[si_ID inst := ns]> cache else cache)
  end.

Fixpoint pollAll (cache : Cache) (instances : list StackInstance) : M Cache :=
  match instances with
  | [] => ret cache
  | inst :: rest =>
      let! cache := pollOne cache inst in
      pollAll cache rest
  end.

Definition poll (cache : Cache) : M Cache :=
  let! r := query (fun _ s => List.map snd (map_to_list (st_instances s))) in
  match r with
  | Err _ => ret cache
  | Ok instances => pollAll cache instances
  end.
End watcher.

(** ** Theorems *)

(** A statement that leaves every row alone that an operation owns: its status is
    neither running nor partial, nor is it stabilizing without a blocking post-deploy
    hook at [now]. *)
Definition spares (now : time) (op : dbop) : Prop :=
  forall dbnow s,
    (forall i r, st_instances s !! i = Some r -> namespace_error_applies now r = false ->
       st_instances (exec dbnow op s).2 !! i = Some r) /\
    st_logs (exec dbnow op s).2 = st_logs s /\
    (forall i r, st_instances s !! i = Some r -> exists r', st_instances (exec dbnow op s).2 !! i = Some r' /\
       (r' = r \/ si_Status r' = StackStatusError)).

Definition watcher_event (e : event) : Prop :=
  match e with
  | EvWrite op _ => exists now, spares now op
  | EvInstanceHealth _ _ => True
  | _ => False
  end.

Lemma error_mark_spares id msg now updated : spares now (SetNamespaceError id msg now updated).
Proof.
  intros dbnow s. cbn. split_and!; [|done|].
  - intros i r Hr Hg. by apply update_where_guarded.
  - intros i r Hr. rewrite update_where_lookup, Hr. case_decide; [|by eauto].
    eexists. split; [done|]. destruct (namespace_error_applies now r); auto.
Qed.

Section safe.
Context (clients : nat -> string -> error) (status : nat -> string -> res Status.NamespaceStatus) (hub : bool).

Lemma own_handle inst ns : own watcher_event (handleStatusTransition true inst ns) (fun _ => True).
Proof.
  unfold handleStatusTransition. case_match; [by apply own_ret|]. case_match; [by apply own_ret|].
  eapply own_bind; [apply own_clock|]. intros now _. case_match; [by apply own_ret|]. case_match; [by apply own_ret|].
  eapply own_bind; [apply own_clock|]. intros now2 _. eapply (own_bind _ _ _ (fun _ => True)); [|intros; by apply own_ret].
  unfold MarkNamespaceError. eapply own_bind; [apply own_clock|]. intros updated _.
  eapply own_bind; [apply own_db|intros; by apply own_ret]. exists now2. apply error_mark_spares.
Qed.

Lemma own_pollOne cache inst : own watcher_event (pollOne clients status hub true cache inst) (fun _ => True).
Proof.
  unfold pollOne. case_match; [by apply own_ret|]. eapply own_bind; [apply own_external|]. intros client _.
  case_match; [by apply own_ret|]. eapply own_bind; [apply own_external|]. intros [ns|e] _; [|by apply own_ret].
  cbv zeta. case_match; [by apply own_ret|].
  eapply own_bind; [by apply own_when; intros; apply own_emit|]. intros _ _.
  eapply own_bind; [apply own_handle|]. intros. by apply own_ret.
Qed.

Lemma own_pollAll l : forall cache, own watcher_event (pollAll clients status hub true cache l) (fun _ => True).
Proof.
  induction l as [|i l IH]; intros cache; cbn [pollAll]; [by apply own_ret|].
  eapply own_bind; [apply own_pollOne|]. intros c _. apply IH.
Qed.

(** A poll of the watcher never touches the row of an instance whose status belongs
    to an operation, and no log; every other row keeps its data or becomes an error.
    Apart from that it only broadcasts, whatever the other processes do. *)
Theorem watcher_footprint cache : own watcher_event (poll clients status hub true cache) (fun _ => True).
Proof.
  unfold poll. eapply own_bind; [apply (own_query _ _ (fun _ => True)); by intros|]. intros [l|e] _; [apply own_pollAll|by apply own_ret].
Qed.
End safe.

(** ** The order of the charts does not matter *)

Lemma fold_left_perm {A B} (f : B -> A -> B) (l l' : list A) :
  (forall m a b, f (f m a) b = f (f m b) a) -> Permutation l l' -> forall m, fold_left f l m = fold_left f l' m.
Proof. intros Hf. induction 1 as [|x l l' _ IH|x y l|l l' l'' _ IH1 _ IH2]; intros m; cbn; [done|done|by rewrite Hf|by rewrite IH1]. Qed.

Lemma count_state_comm m a b : count_state (count_state m a) b = count_state (count_state m b) a.
Proof.
  unfold count_state. destruct (decide (pod_state a = pod_state b)) as [->|Hne]; [done|].
  rewrite !(lookup_insert_ne _ _ _ _ Hne), !(lookup_insert_ne _ (pod_state b)) by congruence. by apply insert_insert_ne.
Qed.

Lemma wrap32_add a x : wrap32 (wrap32 a + x) = wrap32 (a + x).
Proof.
  unfold wrap32. f_equal. replace ((a + 2 ^ 31) mod 2 ^ 32 - 2 ^ 31 + x + 2 ^ 31)%Z with ((a + 2 ^ 31) mod 2 ^ 32 + x)%Z by lia.
  rewrite Zplus_mod_idemp_l. f_equal. lia.
Qed.

Lemma sum32_perm l l' : Permutation l l' -> sum32 l = sum32 l'.
Proof. intros Hp. apply fold_left_perm; [|done]. intros m a b. rewrite !wrap32_add. f_equal. lia. Qed.

Section order.
Context (a b : Status.NamespaceStatus) (Hp : Permutation (nst_Charts a) (nst_Charts b)).

Lemma pods_perm : Permutation (ns_pods a) (ns_pods b).
Proof. unfold ns_pods. by rewrite Hp. Qed.
Lemma deployments_perm : Permutation (ns_deployments a) (ns_deployments b).
Proof. unfold ns_deployments. by rewrite Hp. Qed.

Lemma digest_perm : containerStateDigest a = containerStateDigest b.
Proof.
  unfold containerStateDigest. f_equal. apply (StronglySorted_unique String.le).
  - apply StronglySorted_merge_sort; apply _.
  - apply StronglySorted_merge_sort; apply _.
  - rewrite !merge_sort_Permutation. unfold state_entries. by rewrite pods_perm.
Qed.

Lemma same_counts_refl m : same_counts m m = true.
Proof.
  unfold same_counts. rewrite Nat.eqb_refl. cbn. apply forallb_forall. intros [k v] Hk%list_elem_of_In%elem_of_map_to_list.
  cbn. rewrite Hk. apply Z.eqb_refl.
Qed.

(** Two snapshots of the same charts never differ. *)
Lemma same_charts_unchanged : statusDetailsChanged a b = false.
Proof.
  unfold statusDetailsChanged, countPodStates, totalRestarts, countReadyReplicas.
  rewrite (Permutation_length Hp), Nat.eqb_refl, digest_perm, String.eqb_refl. cbn [negb].
  rewrite (fold_left_perm _ _ _ count_state_comm pods_perm), same_counts_refl. cbn [negb].
  rewrite (sum32_perm _ (map pi_RestartCount (ns_pods b))) by (by rewrite pods_perm). rewrite Z.eqb_refl. cbn [negb].
  rewrite (sum32_perm _ (map di_ReadyReplicas (ns_deployments b))) by (by rewrite deployments_perm). by rewrite Z.eqb_refl.
Qed.
End order.

Lemma overall_perm l l' :
  Forall (fun c => known_status (ch_Status c)) l -> Permutation l l' -> determineOverallStatus l = determineOverallStatus l'.
Proof.
  intros Hk Hp. apply known_priority; [by apply overall_known|apply overall_known; by rewrite <- Hp|].
  rewrite !overall_priority. unfold worst. apply fold_left_perm; [|done]. intros. lia.
Qed.

(** The order in which Go visits the charts of a namespace, which is not fixed, and
    the order of events with equal times never change the status of a snapshot and never
    make the watcher see a change: two polls that read the same objects broadcast
    nothing between them. *)
Theorem same_objects_no_change (R R' : MapRange) (E E' : EventSort) namespace ev ev' now now' k a b :
  @GetNamespaceStatus R E namespace ev now k = Ok a -> @GetNamespaceStatus R' E' namespace ev' now' k = Ok b ->
  nst_Status a = nst_Status b /\ statusDetailsChanged a b = false.
Proof.
  unfold GetNamespaceStatus. destruct (ls_exists k) as [[]|e]; cbn; [|intros; by simplify_eq/=|done].
  destruct (ls_deployments k) as [deps|e]; [|done]. destruct (ls_pods k) as [pods|e]; [|done].
  destruct (ls_services k) as [svcs|e]; [|done]. cbn.
  set (x := match ls_ingresses k with Ok _ => _ | Err _ => _ end). destruct x as [ing charts].
  intros Ha Hb.
  assert (Permutation (nst_Charts a) (nst_Charts b)) as Hp.
  { injection Ha as <-. injection Hb as <-. cbn. by rewrite (@range_map_perm R), (@range_map_perm R'). }
  split; [|by apply same_charts_unchanged].
  assert (Forall (fun c => known_status (ch_Status c)) (nst_Charts a) /\
    nst_Status a = determineOverallStatus (nst_Charts a) /\ nst_Status b = determineOverallStatus (nst_Charts b)) as (Hk & -> & ->).
  { injection Ha as <-. injection Hb as <-. split; [|done]. cbn. apply Forall_forall.
    intros c (kv & <- & _)%list_elem_of_In%in_map_iff. apply chart_known. }
  by apply overall_perm.
Qed.

(** ** Examples *)

Definition error_status : Status.NamespaceStatus := mkNamespaceStatus 0 "ns" StatusError [] [] [].
Definition error_poll (cache : Cache) : M Cache :=
  poll (fun _ _ => None) (fun _ _ => Ok error_status) true true cache.

(** A poll whose mark fails stores the error status, so the next poll sees no change:
    the instance stays running although its namespace is in error. *)
Definition failing_world : World :=
  mkWorld sample_store
    (fun n => let st := calm_env (10000 + Z.of_nat n) in
       mkEnv [] (e_now st) (e_dbnow st) false None (if (n =? 6)%nat then Some (ENew "lost") else None) false
         "" None 0 [] (e_answer st) ("", "", false) [] (mkNsStatus "healthy" []) None None)
    0 false false (mkMem ∅ ∅ ∅) [].

Example lost_error :
  let '(cache, w) := error_poll ∅ failing_world in
  let '(_, w') := error_poll cache (calm_world (w_db w)) in
  (si_Status <$> st_instances (w_db w') !! "i1", w_trace w') = (Some StackStatusRunning, []).
Proof. vm_compute. done. Qed.

Example error_marked :
  si_Status <$> st_instances (w_db (error_poll ∅ (calm_world sample_store)).2) !! "i1" = Some StackStatusError.
Proof. vm_compute. done. Qed.

#[local] Instance reversed_range : MapRange := {
  range_map := fun A m => rev (map_to_list m);
  range_map_perm := fun A m => Permutation_sym (Permutation_rev (map_to_list m))
}.

Lemma same_objects_no_change_witness :
  exists a b, @GetNamespaceStatus list_range insertion_sort "ns" false 0 (shop_listing [web_pod; failed_pod]) = Ok a /\
    @GetNamespaceStatus reversed_range insertion_sort "ns" false 5 (shop_listing [web_pod; failed_pod]) = Ok b /\
    nst_Charts a <> nst_Charts b /\ nst_Status a = nst_Status b /\ statusDetailsChanged a b = false.
Proof.
  eexists _, _. split; [vm_compute; reflexivity|]. split; [vm_compute; reflexivity|].
  split; [vm_compute; discriminate|].
  eapply (same_objects_no_change list_range reversed_range insertion_sort insertion_sort "ns" false false 0 5
            (shop_listing [web_pod; failed_pod])); vm_compute; reflexivity.
Defined.
