(* ===== verification/Group.v ===== *)
(** * The group of leader workers

    [leader/group.go].  A term is one call of [Start]: its goroutine waits for the
    workers of the term before, runs its own workers and closes [done].  A channel and
    a cancel function are named by the number of their term.  The fields of the group
    change under its mutex, so each locked part is one step; the goroutines of the
    terms and the callers of [stop] run between these steps.  The invariant [group_ok]
    holds after every step, and implies that the workers of two terms never run at the
    same time ([ok_one_term]). *)

From S2P Require Import Prelude Models Store.
Local Open Scope string_scope.
Local Open Scope list_scope.

Definition DefaultStopTimeout : Z := 30 * Second.

(** A worker by its name: what [Run] does is the environment's. *)
Definition Worker := string.

Record Group := mkGroup {
  gr_cancel : option nat;
  gr_done : option nat;
  gr_prevDone : option nat;
  gr_workers : list Worker;
  gr_stopTimeout : Z;
  gr_closed : bool
}.

Definition NewGroup (stopTimeout : Z) (workers : list Worker) : Group :=
  mkGroup None None None workers
    (if stopTimeout <=? 0 then DefaultStopTimeout else stopTimeout)%Z false.

Definition Group_Add (w : Worker) (g : Group) : Group :=
  mkGroup (gr_cancel g) (gr_done g) (gr_prevDone g) (gr_workers g ++ [w])
    (gr_stopTimeout g) (gr_closed g).
Definition Group_Running (g : Group) : bool := bool_decide (is_Some (gr_cancel g)).

(** ** The goroutine of a term *)

(** Where it is: the [select], the receive from [prev] of a term that ended before it
    started, the loop that starts the workers with the workers that have not returned,
    and after the close of [done]. *)
Inductive Phase :=
| PSelect
| PSkip
| PRun (todo live : list Worker)
| PClosed.

Record Term := mkTerm {
  tm_ctx : nat;
  tm_prev : option nat;
  tm_workers : list Worker;
  tm_cancelled : bool;
  tm_phase : Phase
}.

Definition with_phase (p : Phase) (t : Term) : Term :=
  mkTerm (tm_ctx t) (tm_prev t) (tm_workers t) (tm_cancelled t) p.
Definition cancel_term (t : Term) : Term :=
  mkTerm (tm_ctx t) (tm_prev t) (tm_workers t) true (tm_phase t).

(** [cancel()] of term [n]. *)
Definition cancel_nth (n : nat) (ts : list Term) : list Term :=
  match ts !! n with Some t => <[n := cancel_term t]> ts | None => ts end.

Definition closed_phase (p : Phase) : bool := match p with PClosed => true | _ => false end.
Definition live_workers (t : Term) : list Worker :=
  match tm_phase t with PRun _ live => live | _ => [] end.

(** [done] of term [n] is closed. *)
Definition term_closed (ts : list Term) (n : nat) : bool :=
  match ts !! n with Some t => closed_phase (tm_phase t) | None => false end.
Definition prev_closed (ts : list Term) (t : Term) : bool :=
  match tm_prev t with Some p => term_closed ts p | None => true end.

Inductive TermEvent :=
| TPrev
| TCtx
| TSkipped
| TSpawn
| TReturn (k : nat)
| TDone.

(** [ctxdone]: the context the group was started with is done. *)
Definition goroutine (ctxdone prevclosed : bool) (ev : TermEvent) (t : Term) : option Phase :=
  match tm_phase t, ev with
  | PSelect, TPrev => if prevclosed then Some (PRun (tm_workers t) []) else None
  | PSelect, TCtx =>
      if bool_decide (is_Some (tm_prev t)) && (ctxdone || tm_cancelled t) then Some PSkip else None
  | PSkip, TSkipped => if prevclosed then Some PClosed else None
  | PRun (w :: todo) live, TSpawn => Some (PRun todo (live ++ [w]))
  | PRun todo live, TReturn k => if (k <? length live)%nat then Some (PRun todo (delete k live)) else None
  | PRun [] [], TDone => Some PClosed
  | _, _ => None
  end.

(** One step of the goroutine of term [n]; [ctx c] says whether the context [c] is done. *)
Definition term_step (ctx : nat -> bool) (n : nat) (ev : TermEvent) (ts : list Term) : option (list Term) :=
  match ts !! n with
  | None => None
  | Some t =>
      match goroutine (ctx (tm_ctx t)) (prev_closed ts t) ev t with
      | Some p => Some (<[n := with_phase p t]> ts)
      | None => None
      end
  end.

(** ** Start, Stop and Close *)

Definition Group_Start (ctx : nat) (g : Group) (ts : list Term) : Group * list Term :=
  If gr_closed g || bool_decide (is_Some (gr_cancel g)) Return (g, ts) ;;
  (mkGroup (Some (length ts)) (Some (length ts)) (gr_prevDone g) (gr_workers g) (gr_stopTimeout g) (gr_closed g),
   ts ++ [mkTerm ctx (gr_prevDone g) (gr_workers g) false PSelect]).

(** The locked part of [stop]. *)
Definition stop_take (g : Group) : Group :=
  mkGroup None None (match gr_done g with Some d => Some d | None => gr_prevDone g end)
    (gr_workers g) (gr_stopTimeout g) (gr_closed g).

(** The locked part of [Close], and the timeout it hands to [stop]. *)
Definition Group_Close (g : Group) : Group :=
  mkGroup (gr_cancel g) (gr_done g) (gr_prevDone g) (gr_workers g) (gr_stopTimeout g) true.
Definition Close_timeout (timeout : Z) (g : Group) : Z :=
  if (timeout <=? 0)%Z then gr_stopTimeout g else timeout.

(** A caller inside [stop]: before the lock, before [cancel()], in the last [select]
    and after the return. *)
Inductive Stopper :=
| SpTake
| SpCancel (cancel done : nat)
| SpWait (done : nat)
| SpReturn (stopped : bool).
Inductive StopEvent := StTake | StCancel | StDone | StTimeout.

Definition stop_step (ev : StopEvent) (sp : Stopper) (g : Group) (ts : list Term)
    : option (Stopper * Group * list Term) :=
  match sp, ev with
  | SpTake, StTake =>
      Some (match gr_cancel g, gr_done g with
            | Some c, Some d => SpCancel c d
            | _, _ => SpReturn true
            end, stop_take g, ts)
  | SpCancel c d, StCancel => Some (SpWait d, g, cancel_nth c ts)
  | SpWait d, StDone => if term_closed ts d then Some (SpReturn true, g, ts) else None
  | SpWait _, StTimeout => Some (SpReturn false, g, ts)
  | _, _ => None
  end.

(** ** The invariant *)

Definition pred_opt (n : nat) : option nat := match n with 0%nat => None | S m => Some m end.
Definition last_term (ts : list Term) : option nat := pred_opt (length ts).

Definition has_started (p : Phase) : bool := match p with PRun _ _ | PClosed => true | _ => false end.

Record group_ok (g : Group) (ts : list Term) : Prop := {
  ok_done : gr_done g = gr_cancel g;
  ok_current : match gr_cancel g with
               | Some c => S c = length ts
               | None => gr_prevDone g = last_term ts
               end;
  ok_chain : forall n t, ts !! n = Some t -> tm_prev t = pred_opt n;
  ok_order : forall n t, ts !! S n = Some t -> has_started (tm_phase t) = true -> term_closed ts n = true
}.

(** All workers of all terms have returned. *)
Definition quiet (ts : list Term) : Prop := forall n t, ts !! n = Some t -> tm_phase t = PClosed.

(** ** Lemmas *)

Lemma closed_iff ts n :
  term_closed ts n = true <-> exists t, ts !! n = Some t /\ tm_phase t = PClosed.
Proof.
  unfold term_closed. split.
  - destruct (ts !! n) as [t|] eqn:E; [|done]. destruct (tm_phase t) eqn:P; try done. by eauto.
  - intros (t & -> & ->). done.
Qed.

(** Terms keep their context, their predecessor and their closed channel. *)
Record terms_le (ts ts' : list Term) : Prop := {
  le_length : length ts = length ts';
  le_prev n t' : ts' !! n = Some t' -> exists t, ts !! n = Some t /\ tm_prev t' = tm_prev t /\
                   tm_ctx t' = tm_ctx t;
  le_closed n : term_closed ts n = true -> term_closed ts' n = true
}.

Lemma update_le ts n t t' :
  ts !! n = Some t -> tm_prev t' = tm_prev t -> tm_ctx t' = tm_ctx t ->
  (tm_phase t = PClosed -> tm_phase t' = PClosed) -> terms_le ts (<[n := t']> ts).
Proof.
  intros E Hp Hc Hd. assert (n < length ts)%nat by (by eapply lookup_lt_Some).
  split.
  - by rewrite length_insert.
  - intros m u Hu. destruct (decide (m = n)) as [->|Hne].
    + rewrite list_lookup_insert_eq in Hu by done. simplify_eq. eauto.
    + rewrite list_lookup_insert_ne in Hu by congruence. eauto.
  - intros m. rewrite !closed_iff. intros (u & Hu & Pu). destruct (decide (m = n)) as [->|Hne].
    + exists t'. rewrite list_lookup_insert_eq by done. simplify_eq. auto.
    + exists u. by rewrite list_lookup_insert_ne by congruence.
Qed.

(** A change of one term keeps the invariant when the term starts only after the one
    before it is closed. *)
Lemma update_ok g ts n t t' :
  group_ok g ts -> ts !! n = Some t -> tm_prev t' = tm_prev t -> tm_ctx t' = tm_ctx t ->
  (tm_phase t = PClosed -> tm_phase t' = PClosed) ->
  (has_started (tm_phase t') = true -> has_started (tm_phase t) = true \/ prev_closed ts t = true) ->
  group_ok g (<[n := t']> ts).
Proof.
  intros [D C H O] E Hp Hc Hd Hs. destruct (update_le ts n t t' E Hp Hc Hd) as [Ll Lp Lc]. split.
  - done.
  - unfold last_term in *. by rewrite <- Ll.
  - intros m u Hu. destruct (Lp m u Hu) as (u0 & Hu0 & -> & _). eauto.
  - intros m u Hu Su. apply Lc.
    destruct (decide (S m = n)) as [<-|Hne].
    + rewrite list_lookup_insert_eq in Hu by (by eapply lookup_lt_Some). simplify_eq.
      destruct (Hs Su) as [St | Pc]; [eauto|].
      unfold prev_closed in Pc. by rewrite (H _ _ E) in Pc.
    + rewrite list_lookup_insert_ne in Hu by congruence. eauto.
Qed.

Lemma term_step_ok g ctx n ev ts ts' :
  group_ok g ts -> term_step ctx n ev ts = Some ts' -> group_ok g ts'.
Proof.
  unfold term_step. intros Hok Hs. destruct (ts !! n) as [t|] eqn:E; [|done].
  destruct (goroutine _ _ _ _) as [p|] eqn:G; simplify_eq/=.
  eapply update_ok; try done; cbn; unfold goroutine in G.
  - intros P. by rewrite P in G.
  - intros St. destruct (tm_phase t) as [| |[|w todo] [|l live]|], ev; simplify_eq/=;
      repeat case_go; auto.
Qed.

Lemma cancel_ok g ts c : group_ok g ts -> group_ok g (cancel_nth c ts).
Proof.
  intros Hok. unfold cancel_nth. destruct (ts !! c) as [t|] eqn:E; [|done].
  eapply update_ok; try done. cbn. auto.
Qed.

Lemma cancel_le ts c : terms_le ts (cancel_nth c ts).
Proof.
  unfold cancel_nth. destruct (ts !! c) as [t|] eqn:E; [by eapply update_le|].
  by split; eauto.
Qed.

Lemma term_step_le ctx n ev ts ts' : term_step ctx n ev ts = Some ts' -> terms_le ts ts'.
Proof.
  unfold term_step. intros Hs. destruct (ts !! n) as [t|] eqn:E; [|done].
  destruct (goroutine _ _ _ _) as [p|] eqn:G; simplify_eq/=.
  eapply update_le; try done. cbn. intros P. unfold goroutine in G. by rewrite P in G.
Qed.

Lemma NewGroup_ok timeout ws : group_ok (NewGroup timeout ws) [].
Proof. by split. Qed.

Lemma Add_ok g ts w : group_ok g ts -> group_ok (Group_Add w g) ts.
Proof. intros [D C H O]. by split. Qed.

Lemma Close_ok g ts : group_ok g ts -> group_ok (Group_Close g) ts.
Proof. intros [D C H O]. by split. Qed.

Lemma take_ok g ts : group_ok g ts -> group_ok (stop_take g) ts.
Proof.
  intros [D C H O]. split; try done; cbn. rewrite D.
  destruct (gr_cancel g) as [c|]; [|done]. unfold last_term. by rewrite <- C.
Qed.

Lemma Start_ok c g ts : group_ok g ts -> group_ok (Group_Start c g ts).1 (Group_Start c g ts).2.
Proof.
  intros [D C H O]. unfold Group_Start.
  destruct (gr_closed g || bool_decide (is_Some (gr_cancel g))) eqn:B; [by split|].
  apply orb_false_iff in B as [_ B]. apply bool_decide_eq_false in B.
  assert (gr_cancel g = None) as N by (destruct (gr_cancel g); [by destruct B|done]).
  rewrite N in C. split; cbn.
  - done.
  - rewrite length_app. cbn. lia.
  - intros n t Ht. apply lookup_snoc_Some in Ht as [[_ Ht] | [-> <-]]; eauto.
  - intros n t Ht St. apply lookup_snoc_Some in Ht as [[Hn Ht] | [E <-]]; [|done].
    pose proof (lookup_lt_Some _ _ _ Ht). pose proof (O n t Ht St) as Hc. unfold term_closed in *.
    rewrite lookup_app_l by lia. done.
Qed.

Lemma stop_step_ok ev sp g ts sp' g' ts' :
  group_ok g ts -> stop_step ev sp g ts = Some (sp', g', ts') -> group_ok g' ts'.
Proof.
  intros Hok Hs. destruct sp, ev; simplify_eq/=; repeat case_go; auto using take_ok, cancel_ok.
Qed.

(** ** What the invariant gives *)

Section ok.
Context (g : Group) (ts : list Term) (Hok : group_ok g ts).

Lemma closed_before n m : (m <= n)%nat -> term_closed ts n = true -> term_closed ts m = true.
Proof.
  induction 1 as [|n Hle IH]; [done|]. intros (t & Ht & P)%closed_iff. apply IH.
  apply (ok_order _ _ Hok n t); [done|by rewrite P].
Qed.

Lemma started_after_closed n m t :
  (m < n)%nat -> ts !! n = Some t -> has_started (tm_phase t) = true -> term_closed ts m = true.
Proof.
  destruct n as [|n]; [lia|]. intros Hlt Ht St. apply (closed_before n); [lia|].
  by apply (ok_order _ _ Hok n t).
Qed.

(** The workers of two terms never run at the same time. *)
Lemma ok_one_term n m t u :
  ts !! n = Some t -> ts !! m = Some u -> live_workers t <> [] -> live_workers u <> [] -> n = m.
Proof.
  assert (forall n m t u, ts !! n = Some t -> ts !! m = Some u -> live_workers t <> [] ->
            live_workers u <> [] -> ~ (m < n)%nat) as A.
  { intros n' m' t' u' Ht Hu Lt Lu Hlt.
    assert (term_closed ts m' = true) as (u2 & Hu2 & P)%closed_iff.
    { apply (started_after_closed n' m' t'); try done. unfold live_workers in Lt. by destruct (tm_phase t'). }
    simplify_eq. apply Lu. unfold live_workers. by rewrite P. }
  intros. pose proof (A n m t u). pose proof (A m n u t). intuition lia.
Qed.

Lemma last_closed_quiet n : S n = length ts -> term_closed ts n = true -> quiet ts.
Proof.
  intros L C m t Ht. assert (m < length ts)%nat by (by eapply lookup_lt_Some).
  assert (term_closed ts m = true) as (u & Hu & P)%closed_iff by (apply (closed_before n); [lia|done]).
  by simplify_eq.
Qed.

End ok.
