(* ===== verification/Leader.v ===== *)
(** * Leader election

    [leader/leader.go] with [leaderRuntime.Shutdown] of [api/bootstrap.go].  One
    process is a state machine: the loop of [Run] and [campaign], the goroutine of
    [OnStartedLeading] of each campaign with its [termGuard], the terms of the worker
    group, the watchdog and the shutdown.  [proc_step] is one step of one of them (the parts
    under a mutex and the operations of channels and contexts are single steps); the
    client-go library decides when [LeaderElector.Run] starts the callback (at most
    once, in a goroutine of its own) and when it returns (it cancels the leader context
    then).  [reachable] is closed under all interleavings.  Left out: the process with
    election disabled (one term without a lease), logging, and what [Shutdown] waits
    for after it cancelled the election. *)

From S2P Require Import Prelude Models Store Durations Group.
Local Open Scope string_scope.
Local Open Scope list_scope.

(** ** The configuration *)

Record LeaderConfig := mkLeaderConfig {
  lc_LeaseDuration : Z;
  lc_RenewDeadline : Z;
  lc_RetryPeriod : Z;
  lc_LeaseName : string;
  lc_Namespace : string;
  lc_Identity : string;
  lc_Enabled : bool
}.

Section validate.
(** [time.Duration(leaderelection.JitterFactor*float64(d))] and the factor in the
    text of the error: constants of client-go. *)
Context (jittered : Z -> Z) (factor : string).

Definition LeaderConfig_Validate (c : LeaderConfig) : error :=
  If negb (lc_Enabled c) Return None ;;
  If empty (lc_LeaseName c) Return errorsNew "lease name is required" ;;
  If empty (lc_Namespace c) Return errorsNew "namespace is required" ;;
  If empty (lc_Identity c) Return errorsNew "identity is required" ;;
  If (lc_LeaseDuration c <? Second)%Z Return errorsNew "lease duration must be at least 1s" ;;
  If ((lc_RenewDeadline c <=? 0) || (lc_RetryPeriod c <=? 0))%Z
    Return errorsNew "renew deadline and retry period must be greater than zero" ;;
  If (lc_LeaseDuration c <=? lc_RenewDeadline c)%Z
    Return errorsNew "lease duration must be greater than renew deadline" ;;
  If (lc_RenewDeadline c <=? jittered (lc_RetryPeriod c))%Z
    Return errorsNew ("renew deadline must be greater than " +:+ factor +:+ " x retry period") ;;
  None.

(** [New]; [client] says whether there is a client. *)
Definition Elector_New (c : LeaderConfig) (client : bool) : error :=
  match LeaderConfig_Validate c with
  | Some e => Some (EWrap "leader election config: " e "")
  | None =>
      If lc_Enabled c && negb client
        Return errorsNew "leader election is enabled but no Kubernetes client is set" ;;
      None
  end.
End validate.

(** ** One campaign *)

(** The goroutine of [OnStartedLeading]: not started, before [begin], in [runTerm]
    (before the store to [leading], before [onStartedLeading], at [<-ctx.Done()], in
    [onStoppedLeading]), before [close(term.done)], and returned. *)
Inductive Thread :=
| ThNone
| ThSpawned
| ThBegun
| ThStart
| ThLeading
| ThStop (sp : Stopper)
| ThClose
| ThReturned.

(** The [termGuard] of a campaign, its contexts (done or not) and its goroutine. *)
Record Campaign := mkCampaign {
  ca_started : bool;
  ca_closed : bool;
  ca_stopped : bool;
  ca_done : bool;
  ca_runCtx : bool;
  ca_leaderCtx : bool;
  ca_termCtx : bool;
  ca_thread : Thread
}.
Definition new_campaign : Campaign := mkCampaign false false false false false false false ThNone.

Definition set_thread (th : Thread) (k : Campaign) : Campaign :=
  mkCampaign (ca_started k) (ca_closed k) (ca_stopped k) (ca_done k) (ca_runCtx k) (ca_leaderCtx k) (ca_termCtx k) th.
Definition set_leaderCtx (k : Campaign) : Campaign :=
  mkCampaign (ca_started k) (ca_closed k) (ca_stopped k) (ca_done k) (ca_runCtx k) true (ca_termCtx k) (ca_thread k).
Definition set_termCtx (k : Campaign) : Campaign :=
  mkCampaign (ca_started k) (ca_closed k) (ca_stopped k) (ca_done k) (ca_runCtx k) (ca_leaderCtx k) true (ca_thread k).

(** [termGuard.begin] and the locked part of [wait]. *)
Definition begin (k : Campaign) : bool * Campaign :=
  If ca_closed k Return (false, k) ;;
  (true, mkCampaign true (ca_closed k) (ca_stopped k) (ca_done k) (ca_runCtx k) (ca_leaderCtx k) (ca_termCtx k) (ca_thread k)).
Definition wait_lock (k : Campaign) : Campaign :=
  mkCampaign (ca_started k) true (ca_stopped k) (ca_done k) (ca_runCtx k) (ca_leaderCtx k) (ca_termCtx k) (ca_thread k).

(** [term.stopped = ...; runCancel()], then [termCancel] and [close(term.done)]. *)
Definition end_term (stopped : bool) (k : Campaign) : Campaign :=
  mkCampaign (ca_started k) (ca_closed k) stopped (ca_done k) true (ca_leaderCtx k) (ca_termCtx k) ThClose.
Definition close_term (k : Campaign) : Campaign :=
  mkCampaign (ca_started k) (ca_closed k) (ca_stopped k) true (ca_runCtx k) (ca_leaderCtx k) true ThReturned.

Inductive ThreadEvent :=
| HBegin
| HLead
| HStart
| HLost
| HStop (ev : StopEvent)
| HEnd
| HClose.

(** One step of the goroutine of campaign [c], with the store to [leading] and the
    group: [onStartedLeading] is [Group.Start], [onStoppedLeading] is [Group.Stop]. *)
Definition thread_step (c : nat) (ctxdone : bool) (ev : ThreadEvent) (k : Campaign) (leading : bool)
    (g : Group) (ts : list Term) : option (Campaign * bool * Group * list Term) :=
  match ca_thread k, ev with
  | ThSpawned, HBegin =>
      let '(run, k) := begin k in
      Some (set_thread (if run then ThBegun else ThReturned) k, leading, g, ts)
  | ThBegun, HLead => Some (set_thread ThStart k, true, g, ts)
  | ThStart, HStart =>
      let '(g, ts) := Group_Start c g ts in
      Some (set_thread ThLeading k, leading, g, ts)
  | ThLeading, HLost => if ctxdone then Some (set_thread (ThStop SpTake) k, false, g, ts) else None
  | ThStop sp, HStop e =>
      match stop_step e sp g ts with
      | Some (sp, g, ts) => Some (set_thread (ThStop sp) k, leading, g, ts)
      | None => None
      end
  | ThStop sp, HEnd => match sp with SpReturn b => Some (end_term b k, leading, g, ts) | _ => None end
  | ThClose, HClose => Some (close_term k, leading, g, ts)
  | _, _ => None
  end.

(** ** The process *)

(** The loop of [Run] with the body of [campaign]; the number is the campaign. *)
Inductive Loop :=
| LHead
| LRun (c : nat)
| LWait (c : nat)
| LJoin (c : nat)
| LRelease (c : nat)
| LPause
| LStopped.

(** [leaderRuntime.Shutdown]: not called, in [Close], and after [r.cancel()] (where it
    only waits). *)
Inductive Shutdown :=
| ShIdle
| ShClose (sp : Stopper)
| ShCancelled (stopped : bool).

Record Process := mkProcess {
  pr_root : bool;
  pr_leading : bool;
  pr_loop : Loop;
  pr_campaigns : list Campaign;
  pr_group : Group;
  pr_terms : list Term;
  pr_shutdown : Shutdown
}.

Definition start_process (g : Group) : Process := mkProcess false false LHead [] g [] ShIdle.
Definition IsLeader (s : Process) : bool := pr_leading s.

Definition set_loop (l : Loop) (s : Process) : Process :=
  mkProcess (pr_root s) (pr_leading s) l (pr_campaigns s) (pr_group s) (pr_terms s) (pr_shutdown s).
Definition set_campaigns (ks : list Campaign) (s : Process) : Process :=
  mkProcess (pr_root s) (pr_leading s) (pr_loop s) ks (pr_group s) (pr_terms s) (pr_shutdown s).
Definition set_campaign (c : nat) (k : Campaign) (s : Process) : Process :=
  set_campaigns (<[c := k]> (pr_campaigns s)) s.
Definition set_group (g : Group) (ts : list Term) (s : Process) : Process :=
  mkProcess (pr_root s) (pr_leading s) (pr_loop s) (pr_campaigns s) g ts (pr_shutdown s).
Definition set_leading (b : bool) (s : Process) : Process :=
  mkProcess (pr_root s) b (pr_loop s) (pr_campaigns s) (pr_group s) (pr_terms s) (pr_shutdown s).
Definition set_shutdown (root : bool) (x : Shutdown) (s : Process) : Process :=
  mkProcess root (pr_leading s) (pr_loop s) (pr_campaigns s) (pr_group s) (pr_terms s) x.

(** The term context of campaign [c] is done. *)
Definition ctx_done (s : Process) (c : nat) : bool :=
  pr_root s ||
  match pr_campaigns s !! c with
  | Some k => ca_runCtx k || ca_leaderCtx k || ca_termCtx k
  | None => false
  end.

Inductive Event :=
| EvCampaign
| EvCreateFailed
| EvQuit
| EvAcquired
| EvRunReturned
| EvWait
| EvJoined
| EvReleased
| EvAgain
| EvThread (c : nat) (ev : ThreadEvent)
| EvWatchdog (c : nat)
| EvTerm (n : nat) (ev : TermEvent)
| EvAdd (w : Worker)
| EvShutdown
| EvShutdownStop (ev : StopEvent)
| EvShutdownCancel.

(** The steps of the loop of [Run]. *)
Definition loop_step (ev : Event) (s : Process) : option Process :=
  match pr_loop s, ev with
  | LHead, EvCampaign =>
      If pr_root s Return None ;;
      Some (set_loop (LRun (length (pr_campaigns s))) (set_campaigns (pr_campaigns s ++ [new_campaign]) s))
  | LHead, EvCreateFailed => If pr_root s Return None ;; Some (set_loop LPause s)
  | LHead, EvQuit => if pr_root s then Some (set_loop LStopped s) else None
  | LRun c, EvAcquired =>
      match pr_campaigns s !! c with
      | Some k => match ca_thread k with
                  | ThNone => Some (set_campaign c (set_thread ThSpawned k) s)
                  | _ => None
                  end
      | None => None
      end
  | LRun c, EvRunReturned =>
      match pr_campaigns s !! c with
      | Some k => Some (set_loop (LWait c) (set_campaign c (set_leaderCtx k) s))
      | None => None
      end
  | LWait c, EvWait =>
      match pr_campaigns s !! c with
      | Some k => Some (set_loop (if ca_started k then LJoin c else LPause) (set_campaign c (wait_lock k) s))
      | None => None
      end
  | LJoin c, EvJoined =>
      match pr_campaigns s !! c with
      | Some k => if ca_done k then Some (set_loop (if ca_stopped k then LRelease c else LPause) s) else None
      | None => None
      end
  | LRelease _, EvReleased => Some (set_loop LPause s)
  | LPause, EvAgain => Some (set_loop LHead s)
  | _, _ => None
  end.

Definition proc_step (ev : Event) (s : Process) : option Process :=
  match ev with
  | EvThread c e =>
      match pr_campaigns s !! c with
      | Some k =>
          match thread_step c (ctx_done s c) e k (pr_leading s) (pr_group s) (pr_terms s) with
          | Some (k, b, g, ts) => Some (set_leading b (set_group g ts (set_campaign c k s)))
          | None => None
          end
      | None => None
      end
  | EvWatchdog c =>
      match pr_campaigns s !! c with
      | Some k => if ca_started k then Some (set_campaign c (set_termCtx k) s) else None
      | None => None
      end
  | EvTerm n e =>
      match term_step (ctx_done s) n e (pr_terms s) with
      | Some ts => Some (set_group (pr_group s) ts s)
      | None => None
      end
  | EvAdd w => Some (set_group (Group_Add w (pr_group s)) (pr_terms s) s)
  | EvShutdown =>
      match pr_shutdown s with
      | ShIdle => Some (set_shutdown (pr_root s) (ShClose SpTake) (set_group (Group_Close (pr_group s)) (pr_terms s) s))
      | _ => None
      end
  | EvShutdownStop e =>
      match pr_shutdown s with
      | ShClose sp =>
          match stop_step e sp (pr_group s) (pr_terms s) with
          | Some (sp, g, ts) => Some (set_shutdown (pr_root s) (ShClose sp) (set_group g ts s))
          | None => None
          end
      | _ => None
      end
  | EvShutdownCancel =>
      match pr_shutdown s with
      | ShClose (SpReturn b) => Some (set_shutdown true (ShCancelled b) s)
      | _ => None
      end
  | _ => loop_step ev s
  end.

Fixpoint run (evs : list Event) (s : Process) : option Process :=
  match evs with
  | [] => Some s
  | ev :: evs => match proc_step ev s with Some s => run evs s | None => None end
  end.

Inductive reachable (g : Group) : Process -> Prop :=
| reach_start : reachable g (start_process g)
| reach_step ev s s' : reachable g s -> proc_step ev s = Some s' -> reachable g s'.

(** ** The invariant *)

(** The goroutine has a place in the term: [begin] was true and [done] is open. *)
Definition active (th : Thread) : bool :=
  match th with ThNone | ThSpawned | ThReturned => false | _ => true end.

(** A campaign whose goroutine can not start a term any more. *)
Definition past (k : Campaign) : Prop := ca_closed k = true /\ active (ca_thread k) = false.

Record guard_ok (k : Campaign) : Prop := {
  go_started : active (ca_thread k) = true -> ca_started k = true;
  go_not_started : ca_started k = true -> ca_thread k <> ThNone /\ ca_thread k <> ThSpawned;
  go_done : ca_done k = true -> ca_thread k = ThReturned
}.

Definition current (l : Loop) : option nat :=
  match l with LRun c | LWait c | LJoin c | LRelease c => Some c | _ => None end.
Definition open_loop (l : Loop) : option nat :=
  match l with LRun c | LWait c => Some c | _ => None end.

(** What the goroutine of the current campaign knows about the group, before [Close]. *)
Definition no_term (g : Group) : Prop := gr_cancel g = None.
Definition linked (k : Campaign) (g : Group) (ts : list Term) : Prop :=
  match ca_thread k with
  | ThLeading | ThStop SpTake => exists n, gr_cancel g = Some n
  | ThStop (SpCancel _ d) | ThStop (SpWait d) => no_term g /\ S d = length ts
  | ThStop (SpReturn b) => no_term g /\ (b = true -> quiet ts)
  | ThClose | ThReturned => no_term g /\ (ca_stopped k = true -> quiet ts)
  | _ => no_term g
  end.

(** In [runTerm] between the two stores to [leading]. *)
Definition in_term (th : Thread) : bool := match th with ThStart | ThLeading => true | _ => false end.

(** The term [Close] waits for. *)
Definition closing (x : Shutdown) : option nat :=
  match x with ShClose (SpCancel _ d) | ShClose (SpWait d) => Some d | _ => None end.

Record process_ok (s : Process) : Prop := {
  po_group : group_ok (pr_group s) (pr_terms s);
  po_guard c k : pr_campaigns s !! c = Some k -> guard_ok k;
  po_current c : current (pr_loop s) = Some c -> S c = length (pr_campaigns s);
  po_past c k : pr_campaigns s !! c = Some k -> current (pr_loop s) <> Some c -> past k;
  po_open c k : open_loop (pr_loop s) = Some c -> pr_campaigns s !! c = Some k -> ca_closed k = false;
  po_join c k : pr_loop s = LJoin c -> pr_campaigns s !! c = Some k ->
                ca_closed k = true /\ ca_started k = true;
  po_release c k : pr_loop s = LRelease c -> pr_campaigns s !! c = Some k ->
                   past k /\ ca_thread k = ThReturned /\ ca_stopped k = true;
  po_idle : pr_shutdown s = ShIdle -> gr_closed (pr_group s) = false;
  po_shutdown : pr_shutdown s <> ShIdle -> gr_closed (pr_group s) = true;
  po_closing d : closing (pr_shutdown s) = Some d -> S d = length (pr_terms s);
  po_link c k : pr_shutdown s = ShIdle -> current (pr_loop s) = Some c -> pr_campaigns s !! c = Some k ->
                linked k (pr_group s) (pr_terms s);
  po_none : pr_shutdown s = ShIdle -> current (pr_loop s) = None -> no_term (pr_group s);
  po_leading : pr_leading s = true ->
               exists c k, current (pr_loop s) = Some c /\ pr_campaigns s !! c = Some k /\ in_term (ca_thread k) = true
}.

(** ** Lemmas *)

Lemma quiet_le ts ts' : quiet ts -> terms_le ts ts' -> quiet ts'.
Proof.
  intros Q [L P C] n t Ht. destruct (P n t Ht) as (u & Hu & _).
  assert (term_closed ts' n = true) as (v & Hv & Pv)%closed_iff by (apply C, closed_iff; eauto).
  by simplify_eq.
Qed.

Lemma stop_step_quiet ev sp g ts sp' g' ts' :
  quiet ts -> stop_step ev sp g ts = Some (sp', g', ts') -> quiet ts'.
Proof.
  intros Q Hs. destruct sp, ev; simplify_eq/=; repeat case_go; try done.
  eapply quiet_le; [done|apply cancel_le].
Qed.

Lemma stop_step_closed ev sp g ts sp' g' ts' :
  stop_step ev sp g ts = Some (sp', g', ts') -> gr_closed g' = gr_closed g.
Proof. intros Hs. destruct sp, ev; simplify_eq/=; by repeat case_go. Qed.

Lemma linked_le k g ts ts' : linked k g ts -> terms_le ts ts' -> linked k g ts'.
Proof.
  intros L Hle. pose proof (le_length _ _ Hle) as E. pose proof (fun Q => quiet_le _ _ Q Hle).
  unfold linked in *. destruct (ca_thread k) as [| | | | |[]| |]; rewrite <- ?E; intuition.
Qed.

Lemma linked_no_term k g ts :
  linked k g ts -> active (ca_thread k) = false \/ ca_thread k = ThClose -> no_term g.
Proof. unfold linked. intros L [A|A]; destruct (ca_thread k); simplify_eq/=; intuition. Qed.

(** A goroutine of a past campaign changes nothing but itself. *)
Lemma thread_step_past c d ev k b g ts k' b' g' ts' :
  thread_step c d ev k b g ts = Some (k', b', g', ts') -> past k -> past k' /\ (b', g', ts') = (b, g, ts).
Proof.
  unfold past. intros H [C A]. unfold thread_step, begin in H.
  destruct (ca_thread k), ev; try done. rewrite C in H. by simplify_eq/=.
Qed.

Lemma thread_step_guard c d ev k b g ts k' b' g' ts' :
  thread_step c d ev k b g ts = Some (k', b', g', ts') -> guard_ok k -> guard_ok k' /\ ca_closed k' = ca_closed k.
Proof.
  unfold thread_step, begin. intros H [A N D]. destruct (ca_thread k) as [| | | | |sp| |] eqn:T, ev; try done;
    simplify_eq/=; repeat case_go; (split; [split|try done]); cbn in *; intros; try done; try (by eauto); try (by split).
  all: by specialize (D ltac:(assumption)).
Qed.

Lemma thread_step_group c d ev k b g ts k' b' g' ts' :
  thread_step c d ev k b g ts = Some (k', b', g', ts') -> group_ok g ts ->
  group_ok g' ts' /\ gr_closed g' = gr_closed g.
Proof.
  unfold thread_step, begin. intros H Hok. destruct (ca_thread k) as [| | | | |sp| |] eqn:T, ev; try done;
    simplify_eq/=; try done; try (by destruct sp; simplify_eq/=).
  - by destruct (ca_closed k); simplify_eq/=.
  - pose proof (Start_ok c g ts Hok) as S. split; [by destruct (Group_Start c g ts); simplify_eq/=|].
    unfold Group_Start in *. repeat case_go.
  - by destruct d; simplify_eq/=.
  - case_go. repeat case_go. split; [by eapply stop_step_ok|by eapply stop_step_closed].
Qed.

Lemma linked_stop ev sp g ts sp' g' ts' k :
  stop_step ev sp g ts = Some (sp', g', ts') -> group_ok g ts ->
  ca_thread k = ThStop sp -> linked k g ts -> linked (set_thread (ThStop sp') k) g' ts'.
Proof.
  intros Hs Hok T L. unfold linked in *. rewrite T in L. cbn.
  destruct sp, ev; simplify_eq/=.
  - destruct L as [n L]. pose proof (ok_current _ _ Hok) as C. rewrite L in C.
    by rewrite (ok_done _ _ Hok), L.
  - by rewrite <- (le_length _ _ (cancel_le ts cancel)).
  - repeat case_go. destruct L as [L S]. split; [done|]. intros _. by eapply last_closed_quiet.
  - by destruct L.
Qed.

Lemma thread_step_linked c d ev k b g ts k' b' g' ts' :
  thread_step c d ev k b g ts = Some (k', b', g', ts') -> group_ok g ts -> gr_closed g = false ->
  (ca_thread k = ThSpawned -> ca_closed k = false) -> linked k g ts -> linked k' g' ts'.
Proof.
  unfold thread_step, begin. intros H Hok Hc Hn L. destruct (ca_thread k) as [| | | | |sp| |] eqn:T, ev; try done.
  - rewrite (Hn eq_refl) in H. simplify_eq/=. unfold linked in *. by rewrite T in L.
  - simplify_eq/=. unfold linked in *. by rewrite T in L.
  - unfold linked in L. rewrite T in L. unfold Group_Start in H. rewrite Hc, L in H. simplify_eq/=.
    unfold linked. cbn. eauto.
  - case_go. unfold linked in *. by rewrite T in L.
  - repeat case_go. by eapply linked_stop.
  - repeat case_go. unfold linked in *. by rewrite T in L.
  - simplify_eq/=. unfold linked in *. by rewrite T in L.
Qed.

Lemma stop_step_le ev sp g ts sp' g' ts' :
  stop_step ev sp g ts = Some (sp', g', ts') -> terms_le ts ts'.
Proof.
  assert (terms_le ts ts) by (split; eauto).
  intros Hs. destruct sp, ev; simplify_eq/=; repeat case_go; auto using cancel_le.
Qed.

Lemma thread_step_le c d ev k b g ts k' b' g' ts' :
  thread_step c d ev k b g ts = Some (k', b', g', ts') ->
  gr_closed g = true \/ past k -> terms_le ts ts' /\ gr_closed g' = gr_closed g.
Proof.
  assert (terms_le ts ts) by (split; eauto).
  intros Hs [Hc|Hp].
  - unfold thread_step, Group_Start, begin in Hs. rewrite Hc in Hs.
    destruct (ca_thread k), ev; simplify_eq/=; repeat case_go; try done.
    split; [by eapply stop_step_le|by eapply stop_step_closed].
  - destruct (thread_step_past _ _ _ _ _ _ _ _ _ _ _ Hs Hp). by simplify_eq.
Qed.

(** What a step of a campaign's goroutine, client-go or the watchdog keeps. *)
Record campaign_step (k : Campaign) (b : bool) (g : Group) (ts : list Term)
    (k' : Campaign) (b' : bool) (g' : Group) (ts' : list Term) : Prop := {
  cs_guard : guard_ok k -> guard_ok k';
  cs_closed : ca_closed k' = ca_closed k;
  cs_started : ca_started k = true -> ca_started k' = true;
  cs_past : past k -> past k' /\ b' = b /\ g' = g /\ ts' = ts;
  cs_leading : (b = true -> in_term (ca_thread k) = true) -> b' = true -> in_term (ca_thread k') = true;
  cs_returned : ca_thread k = ThReturned -> ca_thread k' = ThReturned /\ ca_stopped k' = ca_stopped k;
  cs_group : group_ok g ts -> group_ok g' ts';
  cs_gclosed : gr_closed g' = gr_closed g;
  cs_length : gr_closed g = true -> length ts' = length ts;
  cs_linked : group_ok g ts -> gr_closed g = false -> (ca_thread k = ThSpawned -> ca_closed k = false) ->
              linked k g ts -> linked k' g' ts'
}.

Lemma thread_campaign_step c d ev k b g ts k' b' g' ts' :
  thread_step c d ev k b g ts = Some (k', b', g', ts') -> guard_ok k -> campaign_step k b g ts k' b' g' ts'.
Proof.
  intros H G. destruct (thread_step_guard _ _ _ _ _ _ _ _ _ _ _ H G) as [G' C']. split; try done.
  - unfold thread_step, begin in H. intros S. destruct (ca_thread k), ev; simplify_eq/=; repeat case_go; done.
  - intros P. destruct (thread_step_past _ _ _ _ _ _ _ _ _ _ _ H P). by simplify_eq/=.
  - unfold thread_step in H. intros Hb Hb'. destruct (ca_thread k), ev; simplify_eq/=; repeat case_go; try done;
      by specialize (Hb ltac:(done)).
  - intros T. unfold thread_step in H. by rewrite T in H; destruct ev.
  - intros Hok. by eapply thread_step_group.
  - unfold thread_step, begin, Group_Start in H.
    destruct (ca_thread k) as [| | | | |sp| |], ev; simplify_eq/=; repeat case_go; try done.
    by eapply stop_step_closed.
  - intros Hc. symmetry. eapply le_length, thread_step_le; [done|by left].
  - intros Hok Hc Hn L. by eapply thread_step_linked.
Qed.

Lemma context_campaign_step k k' b g ts :
  ca_started k' = ca_started k -> ca_closed k' = ca_closed k -> ca_stopped k' = ca_stopped k ->
  ca_done k' = ca_done k -> ca_thread k' = ca_thread k -> campaign_step k b g ts k' b g ts.
Proof.
  intros S C P D T. split; try done; try congruence.
  - intros []. by split; rewrite ?S, ?D, ?T.
  - unfold past. by rewrite C, T.
  - by rewrite T.
  - by rewrite T, P.
  - unfold linked. by rewrite T, P.
Qed.

Lemma acquire_campaign_step k b g ts :
  ca_thread k = ThNone -> ca_closed k = false -> campaign_step k b g ts (set_thread ThSpawned k) b g ts.
Proof.
  intros T C. split; try done.
  - intros [A N D]. rewrite T in *. split; cbn; [done| |]; intros X; [by destruct (N X)|by specialize (D X)].
  - intros [X _]. congruence.
  - rewrite T. intros Hb Hb'. by specialize (Hb Hb').
  - by rewrite T.
  - unfold linked. by rewrite T.
Qed.

Definition set_step (c : nat) (k : Campaign) (b : bool) (g : Group) (ts : list Term) (s : Process) : Process :=
  set_leading b (set_group g ts (set_campaign c k s)).

Lemma insert_cases {A} (l : list A) (i : nat) (x : A) j y :
  <[i := x]> l !! j = Some y -> (j = i /\ y = x) \/ (j <> i /\ l !! j = Some y).
Proof. intros [(-> & -> & _)|[Hne E]]%list_lookup_insert_Some; auto. Qed.

Lemma campaign_step_ok s c k k' b g ts :
  process_ok s -> pr_campaigns s !! c = Some k ->
  campaign_step k (pr_leading s) (pr_group s) (pr_terms s) k' b g ts -> process_ok (set_step c k' b g ts s).
Proof.
  intros P E CS.
  pose proof (insert_cases (pr_campaigns s) c k') as U.
  assert (current (pr_loop s) <> Some c -> past k' /\ b = pr_leading s /\ g = pr_group s /\ ts = pr_terms s) as Hpast.
  { intros Hne. apply (cs_past _ _ _ _ _ _ _ _ CS). by eapply po_past. }
  split; cbn.
  - eapply cs_group; [done|]. apply P.
  - intros c' u [[-> ->]|[_ Hu]]%U; [by eapply cs_guard, po_guard|by eapply po_guard].
  - intros c'. rewrite length_insert. apply P.
  - intros c' u [[-> ->]|[_ Hu]]%U Hc; [by apply Hpast|by eapply po_past].
  - intros c' u Hc [[-> ->]|[_ Hu]]%U; [rewrite (cs_closed _ _ _ _ _ _ _ _ CS)|]; by eapply po_open.
  - intros c' u Hc [[-> ->]|[_ Hu]]%U; [|by eapply po_join].
    destruct (po_join _ P _ _ Hc E) as [C S]. rewrite (cs_closed _ _ _ _ _ _ _ _ CS). split; [done|].
    by eapply cs_started.
  - intros c' u Hc [[-> ->]|[_ Hu]]%U; [|by eapply po_release].
    destruct (po_release _ P _ _ Hc E) as (Pa & T & S).
    destruct (cs_past _ _ _ _ _ _ _ _ CS Pa) as [? _], (cs_returned _ _ _ _ _ _ _ _ CS T) as [-> ->]. done.
  - intros I. rewrite (cs_gclosed _ _ _ _ _ _ _ _ CS). by apply P.
  - intros I. rewrite (cs_gclosed _ _ _ _ _ _ _ _ CS). by apply P.
  - intros d Hd. rewrite (cs_length _ _ _ _ _ _ _ _ CS); [by apply P|]. apply P. by intros I; rewrite I in Hd.
  - intros c' u I Hc [[-> ->]|[Hne Hu]]%U.
    + eapply cs_linked; try done; [apply P|by apply P|..]; [|by eapply po_link].
      intros T. destruct (pr_loop s) eqn:L; simplify_eq/=.
      * eapply po_open; [done|by rewrite L|done].
      * eapply po_open; [done|by rewrite L|done].
      * destruct (po_join _ P _ _ L E) as [_ S]. by destruct (go_not_started _ (po_guard _ P _ _ E) S).
      * destruct (po_release _ P _ _ L E) as (_ & T' & _). congruence.
    + destruct Hpast as (_ & _ & -> & ->); [congruence|]. by eapply po_link.
  - intros I Hc. destruct Hpast as (_ & _ & -> & _); [by rewrite Hc|]. by eapply po_none.
  - intros Hb. destruct (decide (current (pr_loop s) = Some c)) as [Hc|Hc].
    + exists c, k'. rewrite list_lookup_insert_eq by (by eapply lookup_lt_Some). split_and!; [done..|].
      eapply cs_leading; [done| |done]. intros (c' & u & Hc' & Hu & T)%(po_leading _ P). by simplify_eq.
    + destruct (Hpast Hc) as (_ & -> & _). destruct (po_leading _ P Hb) as (c' & u & Hc' & Hu & T).
      exists c', u. by rewrite list_lookup_insert_ne by congruence.
Qed.

(** A change of the group outside the current campaign. *)
Lemma group_step_ok s g ts :
  process_ok s -> group_ok g ts -> gr_cancel g = gr_cancel (pr_group s) ->
  gr_closed g = gr_closed (pr_group s) -> terms_le (pr_terms s) ts -> process_ok (set_group g ts s).
Proof.
  intros P Hok Hc Hcl Hle. split; cbn; try apply P; try done.
  - rewrite Hcl. apply P.
  - rewrite Hcl. apply P.
  - rewrite <- (le_length _ _ Hle). apply P.
  - intros c k I L E. pose proof (linked_le _ _ _ _ (po_link _ P _ _ I L E) Hle) as Lk.
    unfold linked, no_term in *. by rewrite Hc.
  - intros I L. unfold no_term. rewrite Hc. by apply P.
Qed.

(** After [Close] only the parts without the group and the terms themselves count. *)
Lemma shutdown_step_ok s root x g ts :
  process_ok s -> group_ok g ts -> x <> ShIdle -> gr_closed g = true ->
  (forall d, closing x = Some d -> S d = length ts) -> process_ok (set_shutdown root x (set_group g ts s)).
Proof. intros P Hok Hx. by split; cbn; try apply P. Qed.

Lemma closing_stop ev sp g ts sp' g' ts' :
  stop_step ev sp g ts = Some (sp', g', ts') -> group_ok g ts ->
  (forall d, closing (ShClose sp) = Some d -> S d = length ts) ->
  forall d, closing (ShClose sp') = Some d -> S d = length ts'.
Proof.
  intros Hs Hok H d Hd. rewrite <- (le_length _ _ (stop_step_le _ _ _ _ _ _ _ Hs)).
  destruct sp, ev; simplify_eq/=; repeat case_go; simplify_eq/=; auto.
  pose proof (ok_current _ _ Hok) as C. pose proof (ok_done _ _ Hok). by destruct (gr_cancel g); simplify_eq/=.
Qed.

(** A change of the loop that leaves the current campaign as it is, or leaves it. *)
Lemma loop_stay_ok s c c' :
  process_ok s -> pr_loop s = LRun c -> c' = c -> process_ok (set_loop (LWait c') s).
Proof.
  intros P L ->. split; cbn; try (apply P; done); try done; intros.
  - apply P. by rewrite L.
  - eapply po_past; [done..|]. by rewrite L.
  - eapply po_open; [done|by rewrite L|]. by simplify_eq.
  - eapply po_link; [done..|by rewrite L|]. by simplify_eq.
  - destruct (po_leading _ P ltac:(done)) as (c' & u & Hc & R). rewrite L in Hc. eauto.
Qed.

Lemma loop_leave_ok s l :
  process_ok s -> current l = None ->
  (forall c k, current (pr_loop s) = Some c -> pr_campaigns s !! c = Some k -> past k /\
     (pr_shutdown s = ShIdle -> no_term (pr_group s))) ->
  (forall c, current (pr_loop s) = Some c -> is_Some (pr_campaigns s !! c)) ->
  process_ok (set_loop l s).
Proof.
  intros P L Hp Hs. split; cbn; try apply P; rewrite ?L; try done.
  - intros c k E _. destruct (decide (current (pr_loop s) = Some c)) as [Hc|Hc]; [by eapply Hp|by eapply po_past].
  - intros c k Hl. by destruct l.
  - intros c k Hl. by destruct l.
  - intros c k Hl. by destruct l.
  - intros I _. destruct (current (pr_loop s)) as [c|] eqn:Hc; [|by apply P].
    destruct (Hs c eq_refl) as [k E]. by eapply Hp.
  - intros (c & k & Hc & E & T)%(po_leading _ P). destruct (Hp c k Hc E) as [[_ A] _].
    by destruct (ca_thread k).
Qed.

Lemma current_some s c : process_ok s -> current (pr_loop s) = Some c -> is_Some (pr_campaigns s !! c).
Proof. intros P Hc. apply lookup_lt_is_Some. pose proof (po_current _ P c Hc). lia. Qed.

Lemma campaign_ok s :
  process_ok s -> pr_loop s = LHead ->
  process_ok (set_loop (LRun (length (pr_campaigns s))) (set_campaigns (pr_campaigns s ++ [new_campaign]) s)).
Proof.
  intros P L. split; cbn; try apply P; try done.
  - intros c k [[_ E]|[_ <-]]%lookup_snoc_Some; [by eapply po_guard|by split].
  - intros c [= <-]. rewrite length_app. cbn. lia.
  - intros c k [[Hc E]|[-> <-]]%lookup_snoc_Some Hne; [|done]. eapply po_past; [done..|]. by rewrite L.
  - intros c k [= <-] [[Hc E]|[_ <-]]%lookup_snoc_Some; [lia|done].
  - intros c k I [= <-] [[Hc E]|[_ <-]]%lookup_snoc_Some; [lia|]. unfold linked. cbn. apply P; [done|by rewrite L].
  - intros (c & k & Hc & _)%(po_leading _ P). by rewrite L in Hc.
Qed.

(** [wait] closes the guard: the goroutine is in its term, or never gets there. *)
Lemma wait_ok s c k :
  process_ok s -> pr_loop s = LWait c -> pr_campaigns s !! c = Some k ->
  process_ok (set_loop (if ca_started k then LJoin c else LPause) (set_campaign c (wait_lock k) s)).
Proof.
  intros P L E. pose proof (po_guard _ P _ _ E) as [A N D].
  assert (current (pr_loop s) = Some c) as Hcur by (by rewrite L).
  pose proof (insert_cases (pr_campaigns s) c (wait_lock k)) as U.
  assert (forall l, l = (if ca_started k then LJoin c else LPause) -> current l = None -> active (ca_thread k) = false) as Hi.
  { intros l -> Hl. destruct (active (ca_thread k)) eqn:T; [|done]. by rewrite A in Hl. }
  assert (forall c' u, pr_campaigns s !! c' = Some u -> c' <> c -> past u) as Pa.
  { intros c' u Hu Hne. eapply po_past; [done..|]. rewrite Hcur. congruence. }
  split; cbn; try apply P.
  - intros c' u [[-> ->]|[_ Hu]]%U; [by split|by eapply po_guard].
  - intros c' Hc. rewrite length_insert. apply P. destruct (ca_started k); by simplify_eq/=.
  - intros c' u [[-> ->]|[Hne Hu]]%U Hc; [|by eapply Pa]. split; [done|].
    cbn. destruct (ca_started k) eqn:S; [done|]. by eapply Hi.
  - intros c' u Hc. destruct (ca_started k); by simplify_eq/=.
  - intros c' u Hc [[-> ->]|[Hne Hu]]%U; destruct (ca_started k) eqn:S; by simplify_eq/=.
  - intros c' u Hc. destruct (ca_started k); by simplify_eq/=.
  - intros c' u I Hc Hu. pose proof (po_link _ P _ _ I Hcur E) as Lk.
    destruct (U _ _ Hu) as [[-> ->]|[Hne _]]; [done|]. destruct (ca_started k); by simplify_eq/=.
  - intros I Hl. pose proof (po_link _ P _ _ I Hcur E) as Lk. eapply linked_no_term; [done|]. left. by eapply Hi.
  - intros (c' & u & Hc & Hu & T)%(po_leading _ P). rewrite Hcur in Hc. simplify_eq. exists c', (wait_lock k).
    rewrite list_lookup_insert_eq by (by eapply lookup_lt_Some). rewrite A; [done|]. by destruct (ca_thread k).
Qed.

Lemma join_ok s c k :
  process_ok s -> pr_loop s = LJoin c -> pr_campaigns s !! c = Some k -> ca_done k = true ->
  process_ok (set_loop (if ca_stopped k then LRelease c else LPause) s).
Proof.
  intros P L E D. pose proof (po_guard _ P _ _ E) as G. pose proof (go_done _ G D) as T.
  destruct (po_join _ P _ _ L E) as [C S].
  assert (current (pr_loop s) = Some c) as Hcur by (by rewrite L).
  assert (past k) as Pk by (split; [done|by rewrite T]).
  destruct (ca_stopped k) eqn:B.
  - split; cbn; try apply P; try done; rewrite <- ?Hcur; try apply P.
    intros c' u [= <-] Hu. by simplify_eq.
  - apply loop_leave_ok; try done.
    + intros c' u Hc Hu. simplify_eq. split; [done|]. intros I.
      eapply linked_no_term; [by eapply po_link|]. left. by rewrite T.
    + intros c' Hc. by eapply current_some.
Qed.

Lemma loop_step_ok ev s s' : process_ok s -> loop_step ev s = Some s' -> process_ok s'.
Proof.
  unfold loop_step. intros P H.
  destruct (pr_loop s) as [|c|c|c|c| |] eqn:L, ev; try done; repeat case_go; simplify_eq/=.
  all: try (apply loop_leave_ok; rewrite ?L; done).
  all: try (match goal with B : ca_started ?k = _, E : _ !! _ = Some ?k |- _ =>
              pose proof (wait_ok s c k P L E) as W end; by rewrite Heqb in W).
  all: try (match goal with B : ca_stopped ?k = _, E : _ !! _ = Some ?k |- _ =>
              pose proof (join_ok s c k P L E Heqb) as J end; by rewrite Heqb0 in J).
  - by apply campaign_ok.
  - change (process_ok (set_step c (set_thread ThSpawned c0) (pr_leading s) (pr_group s) (pr_terms s) s)).
    eapply campaign_step_ok, acquire_campaign_step; try done. eapply po_open; [done|by rewrite L|done].
  - eapply loop_stay_ok; [|done..].
    change (process_ok (set_step c (set_leaderCtx c0) (pr_leading s) (pr_group s) (pr_terms s) s)).
    by eapply campaign_step_ok, context_campaign_step.
  - apply loop_leave_ok; try done; rewrite ?L.
    + intros c' k [= <-] E. destruct (po_release _ P _ _ L E) as (Pk & T & _). split; [done|].
      intros I. eapply linked_no_term; [eapply po_link; [done..|by rewrite L|done]|]. left. by rewrite T.
    + intros c' Hc. eapply current_some; [done|by rewrite L].
Qed.

Lemma step_ok ev s s' : process_ok s -> proc_step ev s = Some s' -> process_ok s'.
Proof.
  intros P H. destruct ev; try (by eapply loop_step_ok); cbn in H; repeat case_go; simplify_eq/=.
  - eapply (campaign_step_ok _ _ c0); [done..|]. eapply thread_campaign_step; [done|]. by eapply po_guard.
  - change (process_ok (set_step c (set_termCtx c0) (pr_leading s) (pr_group s) (pr_terms s) s)).
    by eapply campaign_step_ok, context_campaign_step.
  - apply group_step_ok; try done; [|by eapply term_step_le]. eapply term_step_ok; [apply P|done].
  - apply group_step_ok; try done; [apply Add_ok, P|]. by split; eauto.
  - apply shutdown_step_ok; try done. apply Close_ok, P.
  - apply shutdown_step_ok; try done.
    + eapply stop_step_ok; [apply P|done].
    + rewrite (stop_step_closed _ _ _ _ _ _ _ Heqo). apply P. congruence.
    + eapply closing_stop; [done|apply P|]. rewrite <- Heqs0. apply P.
  - change (process_ok (set_shutdown true (ShCancelled stopped) (set_group (pr_group s) (pr_terms s) s))).
    apply shutdown_step_ok; try done; apply P. congruence.
Qed.

Lemma reachable_ok timeout ws s : reachable (NewGroup timeout ws) s -> process_ok s.
Proof.
  induction 1 as [|ev s s' _ IH Hs]; [|by eapply step_ok].
  split; try done.
Qed.

Lemma run_reachable g evs s s' : reachable g s -> run evs s = Some s' -> reachable g s'.
Proof.
  revert s. induction evs as [|ev evs IH]; cbn; intros s R H; simplify_eq/=; [done|].
  case_go. eapply IH; [|done]. by eapply reach_step.
Qed.

(** No step brings a worker to life when no goroutine can call [Start], or [Start] does
    nothing. *)
Definition restful (s : Process) : Prop :=
  quiet (pr_terms s) /\ (gr_closed (pr_group s) = true \/ current (pr_loop s) = None).

Lemma loop_step_rest ev s s' :
  loop_step ev s = Some s' -> ev <> EvCampaign ->
  pr_terms s' = pr_terms s /\ pr_group s' = pr_group s /\ (current (pr_loop s) = None -> current (pr_loop s') = None).
Proof.
  unfold loop_step. intros H Hne. destruct (pr_loop s), ev; try done; repeat case_go; simplify_eq/=; done.
Qed.

Lemma step_rest ev s s' :
  process_ok s -> proc_step ev s = Some s' -> ev <> EvCampaign \/ gr_closed (pr_group s) = true ->
  restful s -> restful s'.
Proof.
  intros P H Hev [Q R].
  assert (forall ts, terms_le (pr_terms s) ts -> quiet ts) as Qle by (intros; by eapply quiet_le).
  destruct ev; cbn [proc_step] in H.
  10: { repeat case_go; simplify_eq/=. destruct (thread_step_le _ _ _ _ _ _ _ _ _ _ _ Heqo0) as [Hle Hc].
        { destruct R as [R|R]; [by left|right]. eapply po_past; [done..|]. by rewrite R. }
        split; cbn; [by apply Qle|by rewrite Hc]. }
  10: by repeat case_go; simplify_eq/=.
  10: { repeat case_go; simplify_eq/=. split; cbn; [|done]. by eapply Qle, term_step_le. }
  10: by simplify_eq/=.
  10: { repeat case_go; simplify_eq/=. split; cbn; auto. }
  10: { repeat case_go; simplify_eq/=. split; cbn; [by eapply Qle, stop_step_le|].
        by rewrite (stop_step_closed _ _ _ _ _ _ _ Heqo). }
  10: by repeat case_go; simplify_eq/=.
  2-9: destruct (loop_step_rest _ _ _ H) as (T & G & L); [done|]; unfold restful; rewrite T, G; intuition.
  unfold loop_step in H. repeat case_go. simplify_eq/=. split; cbn; [done|].
  destruct Hev; [done|by left].
Qed.

Lemma step_closed ev s s' :
  proc_step ev s = Some s' -> gr_closed (pr_group s) = true -> gr_closed (pr_group s') = true.
Proof.
  intros H Hc. destruct ev; cbn [proc_step] in H.
  2-9: by destruct (loop_step_rest _ _ _ H) as (_ & -> & _).
  all: repeat case_go; simplify_eq/=; try done.
  - unfold loop_step in H. by repeat case_go; simplify_eq/=.
  - by destruct (thread_step_le _ _ _ _ _ _ _ _ _ _ _ Heqo0 (or_introl Hc)) as [_ ->].
  - by rewrite (stop_step_closed _ _ _ _ _ _ _ Heqo).
Qed.

Lemma run_rest evs s s' :
  process_ok s -> restful s -> run evs s = Some s' -> EvCampaign ∉ evs \/ gr_closed (pr_group s) = true ->
  quiet (pr_terms s').
Proof.
  revert s. induction evs as [|ev evs IH]; cbn; intros s P Rs Hr Hev.
  { simplify_eq. apply Rs. }
  case_go. eapply IH; [by eapply step_ok| |done|].
  - eapply step_rest; [done..| |done]. destruct Hev as [Hn|Hc]; [|by right].
    apply not_elem_of_cons in Hn as [Hne _]. by left.
  - destruct Hev as [Hn|Hc]; [|right; by eapply step_closed].
    apply not_elem_of_cons in Hn as [_ Hn]. by left.
Qed.

(** ** The watchdog *)

Definition watch_interval (c : LeaderConfig) : Z :=
  let interval := Z.quot (lc_RetryPeriod c) 2 in
  if (interval <=? 0)%Z then lc_RetryPeriod c else interval.

(** The loop of [watchRenewals] from the tick at [t] on: the time at which it ends the
    term.  [lastRenew t] is the renewal it sees at [t]. *)
Fixpoint watchRenewals (ticks : nat) (deadline interval : Z) (lastRenew : time -> time) (t : time) : option time :=
  match ticks with
  | O => None
  | S ticks =>
      If (deadline <? t - lastRenew t)%Z Return Some t ;;
      watchRenewals ticks deadline interval lastRenew (t + interval)%Z
  end.

Section watch.
Context (deadline interval : Z) (lastRenew : time -> time) (r : time).
Hypothesis Hinterval : (0 < interval)%Z.
Hypothesis Hbefore : forall t, (t < r)%Z -> (t - lastRenew t <= deadline)%Z.
Hypothesis Hafter : forall t, (r <= t)%Z -> lastRenew t = r.
Hypothesis Hdeadline : (0 < deadline)%Z.

Lemma watch_fires ticks t :
  (r + deadline < t + interval * Z.of_nat ticks)%Z ->
  exists e, watchRenewals (S ticks) deadline interval lastRenew t = Some e /\
            (r + deadline < e <= Z.max t (r + deadline + interval))%Z.
Proof.
  revert t. induction ticks as [|n IH]; intros t Ht; cbn [watchRenewals];
    destruct (Z.ltb_spec deadline (t - lastRenew t)) as [Hl|Hl].
  1,3: exists t; split; [done|];
       assert (r <= t)%Z by (destruct (Z.lt_ge_cases t r) as [Hr|]; [specialize (Hbefore t Hr)|]; lia);
       rewrite Hafter in Hl by done; lia.
  - rewrite Hafter in Hl by lia. lia.
  - destruct (IH (t + interval)%Z) as (e & He & B); [lia|]. exists e. split; [exact He|].
    assert (t <= r + deadline)%Z; [|lia].
    destruct (Z.lt_ge_cases t r) as [Hr|Hr]; [lia|]. rewrite Hafter in Hl by done. lia.
Qed.
End watch.

(** ** The release of the lease *)

(** A record of the lease with its resource version. *)
Record Lease := mkLease {
  ls_HolderIdentity : string;
  ls_LeaderTransitions : Z;
  ls_LeaseDurationSeconds : Z;
  ls_RenewTime : time;
  ls_AcquireTime : time
}.
Inductive ApiError := ApiConflict | ApiOther.

(** The API server: an update of a version answers with an error or replaces the
    stored record, and does the latter only when that version is the stored one. *)
Class LeaseServer := {
  Update : Z -> Lease -> Lease * Z -> option ApiError * (Lease * Z);
  Update_ok v rec st st' : Update v rec st = (None, st') -> st.2 = v /\ st'.1 = rec /\ st'.2 <> v;
  Update_err v rec st st' e : Update v rec st = (Some e, st') -> st' = st
}.

Inductive releaseOutcome := releaseDone | releaseNotHolder | releaseConflict | releaseFailed.

(** [release]: [got] is the answer of [Get]; [st] is the stored lease when the update
    arrives. *)
Definition release `{LeaseServer} (identity : string) (now : time) (got : option (Lease * Z))
    (st : Lease * Z) : releaseOutcome * (Lease * Z) :=
  match got with
  | None => (releaseFailed, st)
  | Some (rec, version) =>
      If negb (bool_decide (ls_HolderIdentity rec = identity)) Return (releaseNotHolder, st) ;;
      match Update version (mkLease "" (ls_LeaderTransitions rec) 1 now now) st with
      | (None, st) => (releaseDone, st)
      | (Some ApiConflict, st) => (releaseConflict, st)
      | (Some ApiOther, st) => (releaseFailed, st)
      end
  end.

(** ** Theorems *)

(** C15. The workers of two terms never run at the same time, whatever the group, the
    elector, client-go, the watchdog and the shutdown do: a term whose workers started
    has only ended terms before it, also after losses whose workers did not stop in
    time and terms that ended before they started their workers. *)
Theorem terms_never_overlap timeout ws s n t :
  reachable (NewGroup timeout ws) s -> pr_terms s !! n = Some t -> has_started (tm_phase t) = true ->
  (forall m, (m < n)%nat -> term_closed (pr_terms s) m = true) /\
  (forall m u, pr_terms s !! m = Some u -> live_workers t <> [] -> live_workers u <> [] -> m = n).
Proof.
  intros R E St. pose proof (po_group _ (reachable_ok _ _ _ R)) as Hok. split.
  - intros m Hm. by eapply started_after_closed.
  - intros m u Hu Lt Lu. by eapply ok_one_term.
Qed.

(** C14. As long as [Shutdown] was not called, the elector gives up the lease only when
    every worker of every term has returned and the process does not call itself the
    leader; and no worker runs from then on until the next campaign. *)
Theorem release_after_workers timeout ws s s' evs s'' :
  reachable (NewGroup timeout ws) s -> pr_shutdown s = ShIdle -> proc_step EvReleased s = Some s' ->
  run evs s' = Some s'' -> EvCampaign ∉ evs ->
  quiet (pr_terms s) /\ IsLeader s = false /\ quiet (pr_terms s'').
Proof.
  intros R I H Hr Hn. pose proof (reachable_ok _ _ _ R) as P. pose proof (step_ok _ _ _ P H) as P'.
  unfold proc_step, loop_step in H.
  destruct (pr_loop s) as [| | | |c| |] eqn:L; try done.
  destruct (current_some s c P) as [k E]; [by rewrite L|].
  destruct (po_release _ P _ _ L E) as ((_ & A) & T & B).
  assert (quiet (pr_terms s)) as Q.
  { pose proof (po_link _ P c k I ltac:(by rewrite L) E) as Lk. unfold linked in Lk. rewrite T in Lk. by apply Lk. }
  split_and!; [done| |].
  - unfold IsLeader. destruct (pr_leading s) eqn:Hl; [|done].
    destruct (po_leading _ P Hl) as (c' & k' & Hc & E' & T'). rewrite L in Hc. simplify_eq/=. by rewrite T in T'.
  - assert (restful s') as Rs by (simplify_eq/=; split; [done|by right]).
    eapply run_rest; [done..|by left].
Qed.

(** When the shutdown waited for the workers in time, no worker runs from then on. *)
Theorem close_in_time timeout ws s s' evs s'' :
  reachable (NewGroup timeout ws) s -> proc_step (EvShutdownStop StDone) s = Some s' -> run evs s' = Some s'' ->
  quiet (pr_terms s') /\ quiet (pr_terms s'').
Proof.
  intros R H Hr. pose proof (reachable_ok _ _ _ R) as P. pose proof (step_ok _ _ _ P H) as P'.
  cbn in H. destruct (pr_shutdown s) as [|[| |d|]|] eqn:Sh; try done.
  cbn in H. destruct (term_closed (pr_terms s) d) eqn:C; simplify_eq/=.
  assert (quiet (pr_terms s)) as Q.
  { eapply last_closed_quiet; [apply P| |exact C]. apply P. by rewrite Sh. }
  assert (gr_closed (pr_group s) = true) as Hc by (apply P; congruence).
  split; [done|]. eapply run_rest; [exact P'| |done|by right]. split; [done|by left].
Qed.

(** A validated configuration bounds the watchdog: when the last renewal was at [r],
    it ends the term after the renew deadline and at most one tick (half a retry
    period) later, unless it started only then. *)
Theorem watchdog_bound jittered factor c lastRenew r start :
  LeaderConfig_Validate jittered factor c = None -> lc_Enabled c = true ->
  (forall t, (t < r)%Z -> (t - lastRenew t <= lc_RenewDeadline c)%Z) -> (forall t, (r <= t)%Z -> lastRenew t = r) ->
  exists ticks e,
    watchRenewals ticks (lc_RenewDeadline c) (watch_interval c) lastRenew (start + watch_interval c) = Some e /\
    (0 < watch_interval c <= lc_RetryPeriod c)%Z /\
    (r + lc_RenewDeadline c < e <= Z.max start (r + lc_RenewDeadline c) + watch_interval c)%Z.
Proof.
  unfold LeaderConfig_Validate. intros V En Hb Ha. rewrite En in V. cbn [negb] in V.
  repeat match type of V with (if ?b then _ else _) = _ => destruct b eqn:?; [done|] end.
  assert (0 < lc_RenewDeadline c /\ 0 < lc_RetryPeriod c)%Z as [Hd Hp] by lia.
  assert (0 < watch_interval c <= lc_RetryPeriod c)%Z as Hi.
  { unfold watch_interval. pose proof (Z.quot_div_nonneg (lc_RetryPeriod c) 2 ltac:(lia) ltac:(lia)).
    pose proof (Z.div_le_upper_bound (lc_RetryPeriod c) 2 (lc_RetryPeriod c) ltac:(lia) ltac:(lia)).
    destruct (Z.leb_spec (Z.quot (lc_RetryPeriod c) 2) 0); lia. }
  set (i := watch_interval c) in *.
  destruct (watch_fires (lc_RenewDeadline c) i lastRenew r ltac:(lia) Hb Ha Hd
              (Z.to_nat (r + lc_RenewDeadline c - start)) (start + i)) as (e & He & B).
  { pose proof (Z.mul_le_mono_nonneg_r 1 i (Z.max 0 (r + lc_RenewDeadline c - start)) ltac:(lia) ltac:(lia)). lia. }
  eexists _, e. split; [exact He|]. lia.
Qed.

(** The release never overwrites the lease of another replica: a lease that was
    taken since the read (it has another version) stays as it is. *)
Theorem release_no_overwrite `{LeaseServer} identity now got st :
  (forall rec v, got = Some (rec, v) -> st.2 = v -> st.1 = rec) ->
  ls_HolderIdentity st.1 <> identity -> (release identity now got st).2 = st.
Proof.
  intros Hv Hh. unfold release. destruct got as [[rec v]|]; [|done].
  destruct (bool_decide (ls_HolderIdentity rec = identity)) eqn:B; cbn [negb]; [|done].
  apply bool_decide_eq_true in B.
  destruct (Update _ _ _) as [[e|] st'] eqn:U.
  - apply Update_err in U as ->. by destruct e.
  - apply Update_ok in U as (Hs & _). exfalso. apply Hh. by rewrite (Hv _ _ eq_refl Hs).
Qed.

(** ** Runs *)

Definition demo_group : Group := NewGroup 0 ["w"].
Definition demo_run (evs : list Event) : Process :=
  default (start_process demo_group) (run evs (start_process demo_group)).

(** A campaign whose term runs its worker. *)
Definition acquire (c : nat) : list Event :=
  [EvCampaign; EvAcquired; EvThread c HBegin; EvThread c HLead; EvThread c HStart].
Definition lose (c : nat) (done : StopEvent) : list Event :=
  [EvRunReturned; EvThread c HLost; EvThread c (HStop StTake); EvThread c (HStop StCancel);
   EvThread c (HStop done); EvThread c HEnd; EvThread c HClose; EvWait; EvJoined].

Lemma demo_reachable evs :
  is_Some (run evs (start_process demo_group)) -> reachable demo_group (demo_run evs).
Proof.
  intros [s E]. unfold demo_run. rewrite E. eapply run_reachable; [constructor|done].
Qed.

(** The shutdown does not use the result of [Close]: when the workers do not stop in
    time, the elector finds no term to stop, takes it as stopped and gives up the lease
    while the worker runs. *)
Example shutdown_releases_early :
  exists evs s, run evs (start_process demo_group) = Some s /\ pr_shutdown s = ShCancelled false /\
    is_Some (proc_step EvReleased s) /\ ~ quiet (pr_terms s).
Proof.
  exists (acquire 0 ++ [EvTerm 0 TPrev; EvTerm 0 TSpawn; EvShutdown; EvShutdownStop StTake;
            EvShutdownStop StCancel; EvShutdownStop StTimeout; EvShutdownCancel; EvRunReturned;
            EvThread 0 HLost; EvThread 0 (HStop StTake); EvThread 0 HEnd; EvThread 0 HClose; EvWait; EvJoined]).
  eexists. split; [vm_compute; reflexivity|]. split_and!; [done|by eexists|].
  intros Q. by specialize (Q 0%nat _ eq_refl).
Qed.

(** Two terms of which the first did not stop in time. *)
Definition overrun : list Event :=
  acquire 0 ++ [EvTerm 0 TPrev; EvTerm 0 TSpawn] ++ lose 0 StTimeout ++ [EvAgain] ++ acquire 1 ++
  [EvTerm 0 (TReturn 0); EvTerm 0 TDone; EvTerm 1 TPrev; EvTerm 1 TSpawn].

Lemma terms_never_overlap_witness :
  exists t, pr_terms (demo_run overrun) !! 1%nat = Some t /\ live_workers t = ["w"] /\
    term_closed (pr_terms (demo_run overrun)) 0 = true.
Proof.
  eexists. split; [vm_compute; reflexivity|]. split; [done|].
  eapply (proj1 (terms_never_overlap 0 ["w"] (demo_run overrun) 1 _
    (demo_reachable overrun ltac:(vm_compute; eauto)) ltac:(vm_compute; reflexivity) eq_refl)). lia.
Defined.

Definition released : list Event :=
  acquire 0 ++ [EvTerm 0 TPrev; EvTerm 0 TSpawn; EvRunReturned; EvThread 0 HLost; EvThread 0 (HStop StTake);
    EvThread 0 (HStop StCancel); EvTerm 0 (TReturn 0); EvTerm 0 TDone; EvThread 0 (HStop StDone);
    EvThread 0 HEnd; EvThread 0 HClose; EvWait; EvJoined].

Lemma release_after_workers_witness :
  exists s s', proc_step EvReleased (demo_run released) = Some s /\ run [EvAgain; EvShutdown] s = Some s' /\
    quiet (pr_terms (demo_run released)) /\ IsLeader (demo_run released) = false /\ quiet (pr_terms s').
Proof.
  eexists _, _. split; [vm_compute; reflexivity|]. split; [vm_compute; reflexivity|].
  eapply (release_after_workers 0 ["w"] _ _ [EvAgain; EvShutdown]).
  - apply demo_reachable. vm_compute. eauto.
  - by vm_compute.
  - by vm_compute.
  - by vm_compute.
  - set_solver.
Defined.

Definition in_time : list Event :=
  acquire 0 ++ [EvTerm 0 TPrev; EvTerm 0 TSpawn; EvShutdown; EvShutdownStop StTake;
    EvShutdownStop StCancel; EvTerm 0 (TReturn 0); EvTerm 0 TDone].

Lemma close_in_time_witness :
  exists s s', proc_step (EvShutdownStop StDone) (demo_run in_time) = Some s /\ run [EvShutdownCancel; EvRunReturned] s = Some s' /\
    quiet (pr_terms s) /\ quiet (pr_terms s').
Proof.
  eexists _, _. split; [vm_compute; reflexivity|]. split; [vm_compute; reflexivity|].
  eapply (close_in_time 0 ["w"] (demo_run in_time) _ [EvShutdownCancel; EvRunReturned]).
  - apply demo_reachable. vm_compute. eauto.
  - by vm_compute.
  - by vm_compute.
Defined.

(** The default timings: the term ends at most 11 seconds after the last renewal, four
    seconds before another replica takes the lease. *)
Definition default_config : LeaderConfig :=
  mkLeaderConfig (15 * Second) (10 * Second) (2 * Second) "workers" "ns" "pod-a" true.

Lemma watchdog_bound_witness :
  exists ticks e,
    watchRenewals ticks (10 * Second) Second (fun t => Z.min t 0) Second = Some e /\
    (10 * Second < e <= 11 * Second)%Z.
Proof.
  destruct (watchdog_bound (fun d => d * 6 / 5)%Z "1.2" default_config (fun t => Z.min t 0) 0 0)
    as (ticks & e & He & _ & B).
  - by vm_compute.
  - done.
  - intros t Ht. cbn. unfold Second. lia.
  - intros t Ht. cbn. lia.
  - exists ticks, e. split; [exact He|]. exact B.
Defined.
