(* ===== verification/Access.v ===== *)
(** * Who may do what, and until when

    The rules that the HTTP handlers share: the role of a route
    ([api/middleware/role.go]), the caller who may modify an instance
    ([api/handlers/authz.go]), the answer to a repository error
    ([api/handlers/errors.go]) and the rules of TTLs and stop times
    ([api/handlers/instance_ttl.go], [deployExpiry] and [extendExpiry] of
    [stack_instances.go], the limit of [config/instance_ttl.go]).  Times are
    nanoseconds; a [time.Duration] wraps around at 64 bits. *)

From S2P Require Import Prelude Decimals Models Store World Durations.
Local Open Scope string_scope.

(** ** Callers *)

(** What the authentication middleware puts into the request context. *)
Record Caller := mkCaller { ca_UserID : string; ca_Username : string; ca_Role : string }.

Definition roleUser := "user".
Definition roleAdmin := "admin".
Definition roleDevOps := "devops".

Definition isPrivilegedRole (c : Caller) : bool := bool_decide (ca_Role c ∈ [roleAdmin; roleDevOps]).

Definition canModifyInstanceAs (userID role : string) (inst : option StackInstance) : bool :=
  match inst with
  | None => false
  | Some inst =>
      If bool_decide (role = roleAdmin) || bool_decide (role = roleDevOps) Return true ;;
      negb (empty userID) && bool_decide (si_OwnerID inst = userID)
  end.
Definition canModifyInstance (c : Caller) (inst : StackInstance) : bool :=
  canModifyInstanceAs (ca_UserID c) (ca_Role c) (Some inst).

Definition msgInstanceModifyForbidden := "You are not allowed to modify this stack instance".

(** The hook trigger of a request ([hookTriggerCtx]). *)
Definition userTrigger (c : Caller) : option Trigger :=
  Some (mkTrigger TriggerUser (ca_UserID c) (ca_Username c)).

(** ** Roles of a route *)

Definition roleHierarchy : gmap string Z := {[roleUser := 1%Z; roleDevOps := 2%Z; roleAdmin := 3%Z]}.

Definition minLevel_step (minLevel : Z) (r : string) : Z :=
  match roleHierarchy !! r with
  | Some l => if (minLevel =? 0)%Z || (l <? minLevel)%Z then l else minLevel
  | None => minLevel
  end.
Definition minLevel (roles : list string) : Z := fold_left minLevel_step roles 0%Z.

Inductive Gate := Next | Abort (status : Z) (message : string).

Definition RequireRole (roles : list string) (userRole : string) : Gate :=
  let minLevel := minLevel roles in
  If empty userRole Return Abort 401 "Authentication required" ;;
  match roleHierarchy !! userRole with
  | Some userLevel =>
      If (userLevel <? minLevel)%Z Return Abort 403 "Insufficient permissions" ;;
      Next
  | None => Abort 403 "Insufficient permissions"
  end.
Definition RequireAdmin : string -> Gate := RequireRole [roleAdmin].
Definition RequireDevOps : string -> Gate := RequireRole [roleDevOps].
Definition RequireUser : string -> Gate := RequireRole [roleUser].

(** ** Errors *)

Definition Canceled := ESent "Canceled" "context canceled".
Definition ErrValidation := ESent "ErrValidation" "validation error".
Definition ErrNotImplemented := ESent "ErrNotImplemented" "not implemented".

Definition ErrNoDefaultCluster := ESent "ErrNoDefaultCluster" "no default cluster configured".

Definition msgInternalServerError := "Internal server error".
Definition msgInvalidRequestFormat := "Invalid request format".
Definition msgCleanConflict := "Cannot clean: another operation started on the instance".
Definition msgClientClosedRequest := "Client closed request".
Definition statusClientClosedRequest : Z := 499.
Definition entityStackInstance := "Stack instance".
Definition entityStackDefinition := "Stack definition".
Definition entityChartConfigs := "Chart configs".

Definition cancelledRequestError (err : goerr) : option (Z * string) :=
  If negb (errorsIs err "Canceled") Return None ;;
  Some (statusClientClosedRequest, msgClientClosedRequest).

Definition isNotFoundError (e : goerr) : bool := errorsIs e "ErrNotFound" || Contains (errText e) "not found".

(** [mapError] of an error that is not nil. *)
Definition mapError (err : goerr) (entityName : string) : Z * string :=
  match cancelledRequestError err with
  | Some answer => answer
  | None =>
      If errorsIs err "ErrValidation" Return (400%Z, errText err) ;;
      If errorsIs err "ErrNotFound" Return (404%Z, entityName +:+ " not found") ;;
      If errorsIs err "ErrDuplicateKey" Return (409%Z, entityName +:+ " already exists") ;;
      If errorsIs err "ErrNotImplemented" Return (501%Z, "Feature not implemented") ;;
      let errStr := errText err in
      If Contains errStr "not found" Return (404%Z, entityName +:+ " not found") ;;
      If Contains errStr "duplicate" || Contains errStr "already exists" Return
        (409%Z, entityName +:+ " already exists") ;;
      If Contains errStr "validation" Return (400%Z, errStr) ;;
      (500%Z, msgInternalServerError)
  end.

(** ** TTLs and stop times *)

Definition MaxTTLMinutes : Z := 43200.
Definition DefaultMaxInstanceTTLDays : Z := 30.
Definition maxInstanceTTLDaysLimit : Z := 365.

Definition ParseMaxInstanceTTLDays (raw : string) : res Z :=
  let raw := TrimSpace raw in
  If empty raw Return Ok DefaultMaxInstanceTTLDays ;;
  let bad := Err (ENew ("MAX_INSTANCE_TTL_DAYS must be a whole number from 1 to " +:+
                        itoa maxInstanceTTLDaysLimit +:+ ", got " +:+ quote raw)) in
  match ParseInt raw with
  | Some days => If (days <? 1)%Z || (maxInstanceTTLDaysLimit <? days)%Z Return bad ;; Ok days
  | None => bad
  end.

Definition msgTTLAndStopTime := "Send either ttl_minutes or expires_at, not both".
Definition msgStopTimePassed := "The stop time has passed. Set a new stop time or a TTL.".
Definition msgStopTimeNotNext := "expires_at must be in the future".

Definition maxTTLMinutesFromDays (days : Z) : Z :=
  If (days <? 1)%Z Return MaxTTLMinutes ;;
  wrap64 (wrap64 (days * 24) * 60).

(** [InstanceHandler.maxTTL] for the limit that [WithMaxTTLDays] stored (0: not
    called). *)
Definition maxTTL (maxTTLMinutes : Z) : Z := if (0 <? maxTTLMinutes)%Z then maxTTLMinutes else MaxTTLMinutes.

Definition daysText (maxMinutes : Z) : string :=
  let days := (maxMinutes `quot` (24 * 60))%Z in
  If (days =? 1)%Z Return "1 day" ;; itoa days +:+ " days".

Definition ttlExceedsMessage (maxMinutes : Z) : string :=
  "TTL must not exceed " +:+ itoa maxMinutes +:+ " minutes (" +:+ daysText maxMinutes +:+ ")".

(** [time.Duration(n) * time.Minute]. *)
Definition minutes_of (n : Z) : Z := wrap64 (n * Minute).

Definition stopTimeError (stop now : time) (maxMinutes : Z) : string :=
  If negb (now <? stop)%Z Return msgStopTimeNotNext ;;
  If (now + minutes_of maxMinutes <? stop)%Z Return
    "expires_at must not be later than " +:+ daysText maxMinutes +:+ " from now" ;;
  "".

Definition hasFixedStopTime (ttlMinutes : Z) (expiresAt : option time) : bool :=
  (ttlMinutes =? 0)%Z && bool_decide (is_Some expiresAt).

Definition stopTimePassed (ttlMinutes : Z) (expiresAt : option time) (now : time) : bool :=
  hasFixedStopTime ttlMinutes expiresAt &&
  match expiresAt with Some e => negb (now <? e)%Z | None => false end.

(** The TTL and the expiry of a request, or the message of a 400. *)
Definition requestedExpiry (ttlMinutes : option Z) (expiresAt : option time) (defaultTTL maxMinutes : Z)
    (now : time) : (Z * option time) + string :=
  match expiresAt with
  | Some stop =>
      match ttlMinutes with
      | Some _ => inr msgTTLAndStopTime
      | None =>
          let msg := stopTimeError stop now maxMinutes in
          If negb (empty msg) Return inr msg ;;
          inl (0%Z, Some stop)
      end
  | None =>
      let ttl := match ttlMinutes with
                 | Some t => t
                 | None => if (0 <? defaultTTL)%Z then defaultTTL else 0%Z
                 end in
      If (ttl <? 0)%Z Return inr "ttl_minutes must be non-negative" ;;
      If (maxMinutes <? ttl)%Z Return inr (ttlExceedsMessage maxMinutes) ;;
      If (ttl =? 0)%Z Return inl (0%Z, None) ;;
      inl (ttl, Some (now + minutes_of ttl)%Z)
  end.

Definition deployExpiry (current : option time) (ttlMinutes maxMinutes : Z) (now : time) : time :=
  let ttlMinutes := if (maxMinutes <? ttlMinutes)%Z then maxMinutes else ttlMinutes in
  let exp := (now + minutes_of ttlMinutes)%Z in
  match current with
  | Some c => if (exp <? c)%Z then c else exp
  | None => exp
  end.

Definition extendExpiry (current : option time) (minutes maxMinutes : Z) (now : time) : time :=
  let minutes := if (maxMinutes <? minutes)%Z then maxMinutes else minutes in
  let base := match current with Some c => if (now <? c)%Z then c else now | None => now end in
  let exp := (base + minutes_of minutes)%Z in
  let limit := (now + minutes_of maxMinutes)%Z in
  let exp := if (limit <? exp)%Z then limit else exp in
  match current with
  | Some c => if (exp <? c)%Z then c else exp
  | None => exp
  end.

(** ** Theorems *)

(** *** Roles *)

Definition role_level (r : string) : option Z := roleHierarchy !! r.

Lemma level_pos r l : role_level r = Some l -> (0 < l)%Z.
Proof.
  unfold role_level, roleHierarchy. intros H. apply lookup_insert_Some in H as [[_ <-]|[_ H]]; [done|].
  apply lookup_insert_Some in H as [[_ <-]|[_ H]]; [done|]. by apply lookup_singleton_Some in H as [_ <-].
Qed.

(** The running minimum: zero while no known role was seen. *)
Definition lowest (roles : list string) (m : Z) : Prop :=
  (m = 0%Z /\ forall q l, q ∈ roles -> role_level q <> Some l) \/
  ((0 < m)%Z /\ (exists q, q ∈ roles /\ role_level q = Some m) /\
   forall q l, q ∈ roles -> role_level q = Some l -> (m <= l)%Z).

Lemma minLevel_lowest roles : lowest roles (minLevel roles).
Proof.
  unfold minLevel. induction roles as [|r roles IH] using rev_ind; [left; split; [done|]; intros ? ? []%elem_of_nil|].
  rewrite fold_left_app. cbn [fold_left]. set (m := fold_left _ roles _) in *. unfold minLevel_step.
  fold (role_level r). assert (forall q, q ∈ (roles ++ [r])%list <-> q ∈ roles \/ q = r) as He.
  { intros q. rewrite elem_of_app, list_elem_of_singleton. done. }
  destruct (role_level r) as [l|] eqn:Er.
  - pose proof (level_pos r l Er) as Hl. right. destruct IH as [[-> Hn]|(Hm & (q & Hq & Eq) & Hmin)].
    + split; [done|]. split; [exists r; rewrite He; auto|]. intros q l' [Hq| ->]%He Hl'; [by apply Hn in Hl'|].
      rewrite Er in Hl'. by injection Hl' as ->.
    + replace (m =? 0)%Z with false by (symmetry; apply Z.eqb_neq; lia). cbn [orb]. destruct (l <? m)%Z eqn:E.
      * apply Z.ltb_lt in E. split; [done|]. split; [exists r; rewrite He; auto|]. intros q' l' [Hq'| ->]%He Hl'.
        -- apply Hmin in Hl'; [lia|done].
        -- rewrite Er in Hl'. by injection Hl' as ->.
      * apply Z.ltb_ge in E. split; [done|]. split; [exists q; rewrite He; auto|]. intros q' l' [Hq'| ->]%He Hl'.
        -- by eapply Hmin.
        -- rewrite Er in Hl'. injection Hl' as ->. lia.
  - destruct IH as [[-> Hn]|(Hm & (q & Hq & Eq) & Hmin)].
    + left. split; [done|]. intros q l [Hq| ->]%He; [by apply Hn|by rewrite Er].
    + right. split; [done|]. split; [exists q; rewrite He; auto|]. intros q' l' [Hq'| ->]%He Hl'.
      * by eapply Hmin.
      * by rewrite Er in Hl'.
Qed.

(** A route lets exactly the callers through whose role is known and at least as
    powerful as one of the roles that the route names; a route whose roles are all
    misspelt lets every known role through. *)
Theorem RequireRole_spec roles userRole :
  RequireRole roles userRole = Next <->
  exists level, role_level userRole = Some level /\
    ((forall q l, q ∈ roles -> role_level q <> Some l) \/
     exists q l, q ∈ roles /\ role_level q = Some l /\ (l <= level)%Z).
Proof.
  unfold RequireRole. cbv zeta. fold (role_level userRole). pose proof (minLevel_lowest roles) as Hm.
  destruct (empty userRole) eqn:Ee.
  { apply empty_iff in Ee as ->. split; [done|]. by intros (l & Hl & _). }
  destruct (role_level userRole) as [level|] eqn:El; [|split; [done|by intros (? & ? & _)]].
  pose proof (level_pos _ _ El). destruct (level <? minLevel roles)%Z eqn:E.
  - apply Z.ltb_lt in E. split; [done|]. intros (l' & [= <-] & H').
    destruct Hm as [[Hz _]|(Hp & (q & Hq & Eq) & Hmin)]; [lia|]. destruct H' as [Hn|(q' & l & Hq' & El' & Hle)].
    + by apply Hn in Eq.
    + pose proof (Hmin _ _ Hq' El'). lia.
  - apply Z.ltb_ge in E. split; [intros _|done]. exists level. split; [done|].
    destruct Hm as [[_ Hn]|(Hp & (q & Hq & Eq) & Hmin)]; [by left|]. right. by exists q, (minLevel roles).
Qed.

(** *** Errors *)

(** The answer to a failed statement never shows its text, apart from the messages of
    the validators. *)
Lemma mapError_safe err entity status message :
  mapError err entity = (status, message) ->
  status ∈ [400; 404; 409; 499; 500; 501]%Z /\
  (message = errText err -> message ∈ [msgClientClosedRequest; entity +:+ " not found"; entity +:+ " already exists";
      "Feature not implemented"; msgInternalServerError] \/
    errorsIs err "ErrValidation" = true \/ Contains (errText err) "validation" = true).
Proof.
  unfold mapError, cancelledRequestError. intros H.
  repeat first [ progress simplify_eq/= | case_match ]; (split; [set_solver|]); intros He; auto; left;
    unfold statusClientClosedRequest in *; set_solver.
Qed.

(** *** Expiry *)

(** A limit of 1 to 365 days, in minutes. *)
Definition ttl_limit (maxMinutes : Z) : Prop := (1440 <= maxMinutes <= 525600)%Z.

Lemma minutes_of_small n : (- 153000000 <= n <= 153000000)%Z -> minutes_of n = (n * Minute)%Z.
Proof. intros H. unfold minutes_of, wrap64, Minute, Second. rewrite Z.mod_small by lia. lia. Qed.

Lemma configured_limit raw days :
  ParseMaxInstanceTTLDays raw = Ok days ->
  ttl_limit (maxTTL (maxTTLMinutesFromDays days)) /\ maxTTL (maxTTLMinutesFromDays days) = (days * 1440)%Z.
Proof.
  unfold ParseMaxInstanceTTLDays. cbv zeta. intros H.
  assert (1 <= days <= 365)%Z as Hd.
  { destruct (empty _); [injection H as <-; unfold DefaultMaxInstanceTTLDays; lia|].
    destruct (ParseInt _) as [d|]; [|done].
    destruct ((d <? 1)%Z || (maxInstanceTTLDaysLimit <? d)%Z) eqn:E; [done|]. injection H as <-.
    apply orb_false_iff in E as [E1%Z.ltb_ge E2%Z.ltb_ge]. unfold maxInstanceTTLDaysLimit in E2. lia. }
  assert (maxTTLMinutesFromDays days = days * 1440)%Z as E.
  { unfold maxTTLMinutesFromDays. replace (days <? 1)%Z with false by (symmetry; apply Z.ltb_ge; lia).
    unfold wrap64. rewrite (Z.mod_small (days * 24 + _)) by lia. rewrite Z.mod_small by lia. lia. }
  rewrite E. unfold maxTTL, ttl_limit. replace (0 <? days * 1440)%Z with true by (symmetry; apply Z.ltb_lt; lia). lia.
Qed.

Ltac expiry_cases :=
  repeat match goal with
         | H : (_ <? _)%Z = true |- _ => apply Z.ltb_lt in H
         | H : (_ <? _)%Z = false |- _ => apply Z.ltb_ge in H
         | H : (_ =? _)%Z = true |- _ => apply Z.eqb_eq in H
         | H : (_ =? _)%Z = false |- _ => apply Z.eqb_neq in H
         | |- context [if (?a <? ?b)%Z then ?b else ?a] =>
             replace (if (a <? b)%Z then b else a) with (Z.max a b) by (destruct (a <? b)%Z eqn:?; expiry_cases; lia)
         | |- context [if (?a <? ?b)%Z then ?a else ?b] =>
             replace (if (a <? b)%Z then a else b) with (Z.min a b) by (destruct (a <? b)%Z eqn:?; expiry_cases; lia)
         | |- context [if (?a =? ?b)%Z then _ else _] => destruct (a =? b)%Z eqn:?
         | |- context [if (?a <? ?b)%Z then _ else _] => destruct (a <? b)%Z eqn:?
         end.

(** What the deploy and the extend compute. *)
Lemma deployExpiry_eq current ttl maxMinutes now :
  ttl_limit maxMinutes -> (0 <= ttl)%Z ->
  deployExpiry current ttl maxMinutes now =
  match current with
  | Some c => Z.max c (now + Z.min ttl maxMinutes * Minute)
  | None => now + Z.min ttl maxMinutes * Minute
  end%Z.
Proof.
  intros Hl Ht. unfold ttl_limit in Hl. unfold deployExpiry. cbv zeta.
  replace (if (maxMinutes <? ttl)%Z then maxMinutes else ttl) with (Z.min ttl maxMinutes) by (expiry_cases; lia).
  rewrite minutes_of_small by lia. destruct current as [c|]; [|done]. expiry_cases; lia.
Qed.

Lemma extendExpiry_eq current minutes maxMinutes now :
  ttl_limit maxMinutes -> (0 <= minutes)%Z ->
  extendExpiry current minutes maxMinutes now =
  match current with
  | Some c => Z.max c (Z.min (Z.max c now + Z.min minutes maxMinutes * Minute) (now + maxMinutes * Minute))
  | None => now + Z.min minutes maxMinutes * Minute
  end%Z.
Proof.
  intros Hl Ht. unfold ttl_limit in Hl. unfold extendExpiry. cbv zeta.
  replace (if (maxMinutes <? minutes)%Z then maxMinutes else minutes) with (Z.min minutes maxMinutes) by (expiry_cases; lia).
  rewrite !minutes_of_small by lia. unfold Minute, Second. destruct current as [c|]; expiry_cases; lia.
Qed.

(** A request is accepted with these values exactly. *)
Lemma requestedExpiry_iff ttl stop defaultTTL maxMinutes now t e :
  ttl_limit maxMinutes ->
  requestedExpiry ttl stop defaultTTL maxMinutes now = inl (t, e) <->
  (ttl = None /\ t = 0%Z /\ e = stop /\ exists s, stop = Some s /\ (now < s <= now + maxMinutes * Minute)%Z) \/
  (stop = None /\ t = default (Z.max 0 defaultTTL) ttl /\ (0 <= t <= maxMinutes)%Z /\
   e = if (t =? 0)%Z then None else Some (now + t * Minute)%Z).
Proof.
  intros Hl. unfold ttl_limit in Hl. unfold requestedExpiry. destruct stop as [s|].
  - destruct ttl as [x|]; [split; [done|]; intros [(? & _)|(? & _)]; done|]. cbv zeta. unfold stopTimeError.
    rewrite minutes_of_small by lia. split.
    + destruct (negb (now <? s)%Z) eqn:E1; [done|]. apply negb_false_iff, Z.ltb_lt in E1.
      destruct (now + maxMinutes * Minute <? s)%Z eqn:E2.
      * by destruct (empty _) eqn:E3; [apply empty_iff in E3|].
      * apply Z.ltb_ge in E2. intros [= <- <-]. left. eauto 10.
    + intros [(_ & -> & -> & s' & [= <-] & Hs)|(? & _)]; [|done].
      replace (now <? s)%Z with true by (symmetry; apply Z.ltb_lt; lia).
      replace (now + maxMinutes * Minute <? s)%Z with false by (symmetry; apply Z.ltb_ge; lia). done.
  - cbv zeta. replace (match ttl with Some t0 => t0 | None => if (0 <? defaultTTL)%Z then defaultTTL else 0%Z end)
      with (default (Z.max 0 defaultTTL) ttl) by (destruct ttl; [done|]; cbn [default from_option]; expiry_cases; lia).
    set (x := default _ ttl). split.
    + destruct (x <? 0)%Z eqn:E1; [done|]. apply Z.ltb_ge in E1. destruct (maxMinutes <? x)%Z eqn:E2; [done|]. apply Z.ltb_ge in E2.
      intros H. right. destruct (x =? 0)%Z eqn:E3.
      * injection H as <- <-. apply Z.eqb_eq in E3. rewrite E3. split_and!; try done; lia.
      * injection H as <- <-. rewrite E3, minutes_of_small by lia. done.
    + intros [(_ & _ & _ & s & ? & _)|(_ & -> & Hx & ->)]; [done|].
      replace (x <? 0)%Z with false by (symmetry; apply Z.ltb_ge; lia).
      replace (maxMinutes <? x)%Z with false by (symmetry; apply Z.ltb_ge; lia).
      destruct (x =? 0)%Z eqn:E; [apply Z.eqb_eq in E; by rewrite E|]. by rewrite minutes_of_small by lia.
Qed.

(** C17. For every accepted [MAX_INSTANCE_TTL_DAYS] no multiplication overflows and the
    expiry stays within the limit: a create or an update is accepted only with an expiry
    in the future and at most that many days away; a deploy or an extend never makes the
    expiry earlier, and never moves it beyond that many days from now. *)
Theorem expiry_within_limit raw days now :
  ParseMaxInstanceTTLDays raw = Ok days ->
  let limit := maxTTL (maxTTLMinutesFromDays days) in
  let horizon := (now + days * (24 * 60 * Minute))%Z in
  (forall ttl stop defaultTTL t e,
     requestedExpiry ttl stop defaultTTL limit now = inl (t, Some e) -> (now < e <= horizon)%Z) /\
  (forall current ttl, (0 <= ttl)%Z ->
     let e := deployExpiry current ttl limit now in
     (forall c, current = Some c -> c <= e)%Z /\ (now <= e)%Z /\ ((e <= horizon)%Z \/ current = Some e)) /\
  (forall current minutes, (0 < minutes)%Z ->
     let e := extendExpiry current minutes limit now in
     (forall c, current = Some c -> c <= e)%Z /\ (now < e)%Z /\ ((e <= horizon)%Z \/ current = Some e)).
Proof.
  intros H limit horizon. destruct (configured_limit raw days H) as [Hl El]. fold limit in Hl, El.
  pose proof Hl as Hb. unfold ttl_limit in Hb.
  assert (horizon = now + limit * Minute)%Z as Eh by (unfold horizon; lia). assert (0 < Minute)%Z as Hm by done.
  clearbody limit horizon. split_and!.
  - intros ttl stop dflt t e Hr. apply requestedExpiry_iff in Hr; [|done].
    destruct Hr as [(_ & _ & <- & s & Hs & Hr)|(_ & _ & Ht & He)].
    + injection Hs as ->. lia.
    + destruct (t =? 0)%Z eqn:E; [done|]. injection He as ->. apply Z.eqb_neq in E. nia.
  - intros current ttl Ht e. unfold e. rewrite deployExpiry_eq by done.
    assert (0 <= Z.min ttl limit * Minute <= limit * Minute)%Z as Hn by nia.
    destruct current as [c|]; split_and!; try (intros ? [= <-]); try done; try lia.
    destruct (Z.max_spec c (now + Z.min ttl limit * Minute)) as [[? ->]|[? ->]]; [left; lia|by right].
  - intros current n Ht e. unfold e. rewrite extendExpiry_eq by (done || lia).
    assert (0 < Z.min n limit * Minute <= limit * Minute)%Z as Hn by nia.
    destruct current as [c|]; split_and!; try (intros ? [= <-]); try done; try lia.
    set (x := Z.min (Z.max c now + _) _). destruct (Z.max_spec c x) as [[? ->]|[? ->]]; [left; unfold x; lia|by right].
Qed.

Lemma expiry_within_limit_witness :
  ParseMaxInstanceTTLDays " 7 " = Ok 7%Z /\
  (extendExpiry (Some (500 * Minute)%Z) 30 (maxTTL (maxTTLMinutesFromDays 7)) (20 * Minute) <= 20 * Minute + 7 * 1440 * Minute)%Z.
Proof.
  split; [reflexivity|].
  destruct (proj2 (proj2 (expiry_within_limit " 7 " 7 (20 * Minute)%Z eq_refl)) (Some (500 * Minute)%Z) 30%Z)
    as (_ & _ & [H|H]); [reflexivity|exact H|].
  vm_compute in H. discriminate H.
Defined.

(** A redeploy keeps a later expiry. *)
Example deploy_keeps_later : deployExpiry (Some (90 * Minute)%Z) 60 MaxTTLMinutes 0 = (90 * Minute)%Z.
Proof. reflexivity. Qed.
