(* ===== verification/Templates.v ===== *)
(** * Template releases

    A template has a working copy (its row and its chart configs) and published
    snapshots.  Definitions use the latest snapshot only
    ([models/template_version.go], [api/handlers/template_releases.go]).  The
    repositories answer as arguments; the JSON text of a snapshot is a class
    ([encoding/json] of a struct with a list). *)

From stdpp Require Import sorting.
From S2P Require Import Prelude Models Store Hooks Capacity.
Local Open Scope string_scope.
Local Open Scope list_scope.

(** ** Stable sorting by a comparison ([sort.SliceStable]) *)

Fixpoint insert_less {A} (less : A -> A -> bool) (x : A) (l : list A) : list A :=
  match l with
  | [] => [x]
  | y :: l' => if less y x then y :: insert_less less x l' else x :: y :: l'
  end.
Definition sort_less {A} (less : A -> A -> bool) (l : list A) : list A := foldr (insert_less less) [] l.

(** Compared by an integer, then by a name. *)
Definition order_name (o1 : Z) (n1 : string) (o2 : Z) (n2 : string) : bool :=
  If negb (o1 =? o2)%Z Return (o1 <? o2)%Z ;;
  String.ltb n1 n2.

(** ** Snapshots *)

Record StackTemplate := mkTemplate {
  tm_ID : string;
  tm_Name : string;
  tm_Description : string;
  tm_Category : string;
  tm_DefaultBranch : string;
  tm_IsPublished : bool;
  tm_Version : string;
  tm_OwnerID : string
}.

Definition TemplateSnapshotSchemaVersion : Z := 1.

Record TemplateSnapshotData := mkSnapshotData {
  sd_Name : string;
  sd_Description : string;
  sd_Category : string;
  sd_DefaultBranch : string;
  sd_IsPublished : bool;
  sd_Version : string
}.
Record TemplateChartSnapshotData := mkChartSnapshot {
  sc_ChartName : string;
  sc_RepoURL : string;
  sc_DefaultValues : string;
  sc_LockedValues : string;
  sc_IsRequired : bool;
  sc_SortOrder : Z;
  sc_ID : string;
  sc_SourceRepoURL : string;
  sc_BuildPipelineID : string;
  sc_ChartPath : string;
  sc_ChartVersion : string
}.
Record TemplateSnapshot := mkSnapshot {
  ts_SchemaVersion : Z;
  ts_Template : TemplateSnapshotData;
  ts_Charts : list TemplateChartSnapshotData
}.

Definition snapshot_less (a b : TemplateChartSnapshotData) : bool :=
  order_name (sc_SortOrder a) (sc_ChartName a) (sc_SortOrder b) (sc_ChartName b).
Definition sortSnapshotCharts : list TemplateChartSnapshotData -> list TemplateChartSnapshotData :=
  sort_less snapshot_less.

Definition chart_snapshot (ch : TemplateChartConfig) : TemplateChartSnapshotData :=
  mkChartSnapshot (tc_ChartName ch) (tc_RepositoryURL ch) (tc_DefaultValues ch) (tc_LockedValues ch)
    (tc_Required ch) (tc_DeployOrder ch) (tc_ID ch) (tc_SourceRepoURL ch) (tc_BuildPipelineID ch)
    (tc_ChartPath ch) (tc_ChartVersion ch).

Definition NewTemplateSnapshot (tmpl : StackTemplate) (charts : list TemplateChartConfig) : TemplateSnapshot :=
  mkSnapshot TemplateSnapshotSchemaVersion
    (mkSnapshotData (tm_Name tmpl) (tm_Description tmpl) (tm_Category tmpl) (tm_DefaultBranch tmpl)
       (tm_IsPublished tmpl) (tm_Version tmpl))
    (sortSnapshotCharts (map chart_snapshot charts)).

(** [NormalizeValues]: spaces, tabs and line breaks at the end do not count. *)
Definition NormalizeValues (s : string) : string := TrimRight (fun c => char_in c (bytes [32; 9; 13; 10])) s.

Definition same_chart (legacy : bool) (x y : TemplateChartSnapshotData) : bool :=
  bool_decide (sc_ChartName x = sc_ChartName y) && bool_decide (sc_RepoURL x = sc_RepoURL y) &&
  bool_decide (NormalizeValues (sc_DefaultValues x) = NormalizeValues (sc_DefaultValues y)) &&
  bool_decide (NormalizeValues (sc_LockedValues x) = NormalizeValues (sc_LockedValues y)) &&
  Bool.eqb (sc_IsRequired x) (sc_IsRequired y) && (sc_SortOrder x =? sc_SortOrder y)%Z &&
  (legacy ||
   (bool_decide (sc_SourceRepoURL x = sc_SourceRepoURL y) &&
    bool_decide (sc_BuildPipelineID x = sc_BuildPipelineID y) &&
    bool_decide (sc_ChartPath x = sc_ChartPath y) && bool_decide (sc_ChartVersion x = sc_ChartVersion y))).

Fixpoint same_charts (legacy : bool) (l l' : list TemplateChartSnapshotData) : bool :=
  match l, l' with
  | [], [] => true
  | x :: l, y :: l' => same_chart legacy x y && same_charts legacy l l'
  | _, _ => false
  end.

Definition SameTemplateContent (a b : TemplateSnapshot) : bool :=
  let x := ts_Template a in let y := ts_Template b in
  If negb (bool_decide (sd_Name x = sd_Name y)) || negb (bool_decide (sd_Description x = sd_Description y)) ||
     negb (bool_decide (sd_Category x = sd_Category y)) ||
     negb (bool_decide (sd_DefaultBranch x = sd_DefaultBranch y)) ||
     negb (bool_decide (sd_Version x = sd_Version y)) Return false ;;
  If negb (Nat.eqb (length (ts_Charts a)) (length (ts_Charts b))) Return false ;;
  let legacy := (ts_SchemaVersion a <? 1)%Z || (ts_SchemaVersion b <? 1)%Z in
  same_charts legacy (sortSnapshotCharts (ts_Charts a)) (sortSnapshotCharts (ts_Charts b)).

(** [workingByName]: of two charts with one name the last one stays. *)
Definition by_name (working : list TemplateChartConfig) : gmap string TemplateChartConfig :=
  fold_left (fun m w => <[tc_ChartName w := w]> m) working ∅.

Definition released_chart (templateID : string) (legacy : bool) (workingByName : gmap string TemplateChartConfig)
    (ch : TemplateChartSnapshotData) : TemplateChartConfig :=
  let tc (id source pipeline path version : string) :=
    mkTChart id templateID (sc_ChartName ch) (sc_RepoURL ch) source pipeline path version
      (sc_DefaultValues ch) (sc_LockedValues ch) (sc_SortOrder ch) (sc_IsRequired ch) in
  let own := tc (sc_ID ch) (sc_SourceRepoURL ch) (sc_BuildPipelineID ch) (sc_ChartPath ch) (sc_ChartVersion ch) in
  If negb legacy Return own ;;
  match workingByName !! sc_ChartName ch with
  | Some w => tc (tc_ID w) (tc_SourceRepoURL w) (tc_BuildPipelineID w) (tc_ChartPath w) (tc_ChartVersion w)
  | None => own
  end.

Definition ChartConfigs (s : TemplateSnapshot) (templateID : string) (working : list TemplateChartConfig)
    : list TemplateChartConfig :=
  map (released_chart templateID (ts_SchemaVersion s <? 1)%Z (by_name working)) (ts_Charts s).

(** ** Releases *)

Record TemplateVersion := mkVersion {
  tvr_ID : string;
  tvr_TemplateID : string;
  tvr_Version : string;
  tvr_Snapshot : string;
  tvr_ChangeSummary : string;
  tvr_CreatedBy : string;
  tvr_CreatedAt : time
}.

(** The decoder of a stored snapshot ([encoding/json]). *)
Class SnapshotJSON := snapshot_Unmarshal : string -> res TemplateSnapshot.

Definition msgNoPublishedVersion := "Template has no published version".
Definition errNoPublishedVersion := ESent "errNoPublishedVersion" "template has no published version".

Record templateRelease := mkRelease {
  tr_version : TemplateVersion;
  tr_snapshot : TemplateSnapshot;
  tr_Charts : list TemplateChartConfig
}.

Section releases.
Context `{SnapshotJSON}.
(** [GetLatestByTemplate] and [ListByTemplate]; [None] is a nil repository. *)
Context (versionRepo : option (res TemplateVersion)) (chartRepo : option (res (list TemplateChartConfig))).

Definition latestTemplateRelease (templateID : string) : res templateRelease :=
  match versionRepo with
  | None => Err errNoPublishedVersion
  | Some (Err e) =>
      If errorsIs e "ErrNotFound" Return Err errNoPublishedVersion ;;
      Err (EWrap "get latest template version: " e "")
  | Some (Ok latest) =>
      snapshot <-r res_wrap ("unmarshal template version " +:+ tvr_ID latest +:+ ": ") (snapshot_Unmarshal (tvr_Snapshot latest)) ;;
      working <-r (If negb (ts_SchemaVersion snapshot <? 1)%Z Return Ok [] ;;
                   match chartRepo with
                   | Some r => res_wrap "list template charts: " r
                   | None => Ok []
                   end) ;;
      Ok (mkRelease latest snapshot (ChartConfigs snapshot templateID working))
  end.

Definition releasedTemplateCharts (templateID : string) : res (list TemplateChartConfig) :=
  match latestTemplateRelease templateID with
  | Ok release => Ok (tr_Charts release)
  | Err e =>
      If negb (errorsIs e "errNoPublishedVersion") Return Err e ;;
      default (Ok []) chartRepo
  end.

Definition usableTemplateRelease (tmpl : StackTemplate) : res templateRelease :=
  If negb (tm_IsPublished tmpl) Return Err errNoPublishedVersion ;;
  latestTemplateRelease (tm_ID tmpl).
End releases.

(** ** Sorting *)

Section sorting_less.
Context {A} (less : A -> A -> bool).
Definition less_le (x y : A) : Prop := less y x = false.
Context (Htotal : forall x y, less x y = true -> less y x = false).
Context (Htrans : forall x y z, less_le x y -> less_le y z -> less_le x z).

Lemma insert_less_perm x l : Permutation (x :: l) (insert_less less x l).
Proof.
  induction l as [|y l IH]; cbn; [done|]. destruct (less y x); [|done]. rewrite <- IH. constructor.
Qed.
Lemma sort_less_perm l : Permutation l (sort_less less l).
Proof. induction l as [|x l IH]; cbn; [done|]. rewrite <- insert_less_perm. by constructor. Qed.

Lemma insert_less_sorted x l : StronglySorted less_le l -> StronglySorted less_le (insert_less less x l).
Proof.
  induction 1 as [|y l Hl IH Hy]; cbn; [repeat constructor|]. destruct (less y x) eqn:E.
  - constructor; [done|]. rewrite <- insert_less_perm. constructor; [|done]. by apply Htotal.
  - constructor; [by constructor|]. constructor; [done|]. eapply Forall_impl; [exact Hy|].
    intros z Hz. by eapply Htrans.
Qed.
Lemma sort_less_sorted l : StronglySorted less_le (sort_less less l).
Proof. induction l; cbn; [constructor|by apply insert_less_sorted]. Qed.

(** Equal contents are sorted to equal lists. *)
Lemma sort_less_unique l l' :
  (forall x y, x ∈ l -> y ∈ l -> less_le x y -> less_le y x -> x = y) -> Permutation l l' ->
  sort_less less l = sort_less less l'.
Proof.
  intros Hu Hp. apply (StronglySorted_unique_strong less_le).
  - intros x y Hx Hy. apply Hu; [by rewrite (sort_less_perm l)|]. by rewrite Hp, (sort_less_perm l').
  - apply sort_less_sorted.
  - apply sort_less_sorted.
  - by rewrite <- !sort_less_perm.
Qed.
End sorting_less.

Lemma ltb_total a b : String.ltb a b = false -> String.ltb b a = false -> a = b.
Proof.
  intros H1 H2. destruct (OrdersEx.String_as_OT.compare_spec a b) as [|H|H]; [done|..]; apply ltb_lt in H; congruence.
Qed.
Lemma ltb_asym a b : String.ltb a b = true -> String.ltb b a = false.
Proof.
  intros H. destruct (String.ltb b a) eqn:E; [|done]. pose proof (ltb_trans _ _ _ H E) as H'. by rewrite ltb_irrefl in H'.
Qed.
Lemma ltb_le_trans a b c : String.ltb b a = false -> String.ltb c b = false -> String.ltb c a = false.
Proof.
  intros H1 H2. destruct (String.ltb c a) eqn:E; [|done]. destruct (String.ltb b c) eqn:E2.
  - by rewrite (ltb_trans _ _ _ E2 E) in H1.
  - rewrite (ltb_total _ _ E2 H2) in H1. congruence.
Qed.

Section order_name_laws.
Context {A} (order : A -> Z) (name : A -> string).
Definition by_order_name (x y : A) : bool := order_name (order x) (name x) (order y) (name y).

Lemma order_name_iff x y :
  by_order_name x y = true <-> (order x < order y)%Z \/ (order x = order y /\ String.ltb (name x) (name y) = true).
Proof.
  unfold by_order_name, order_name. destruct (Z.eqb_spec (order x) (order y)) as [E|E]; cbn; rewrite ?Z.ltb_lt; naive_solver lia.
Qed.
Lemma order_name_le x y :
  less_le by_order_name x y <-> (order x < order y)%Z \/ (order x = order y /\ String.ltb (name y) (name x) = false).
Proof.
  unfold less_le. rewrite <- not_true_iff_false, order_name_iff, <- (not_true_iff_false (String.ltb _ _)).
  destruct (Ztrichotomy_inf (order x) (order y)) as [[H|H]|H]; naive_solver lia.
Qed.

Lemma order_name_sorts l : StronglySorted (less_le by_order_name) (sort_less by_order_name l).
Proof.
  apply sort_less_sorted.
  - intros x y H. apply order_name_le. apply order_name_iff in H as [H|[H Hn]]; [by left|]. right. split; [done|].
    by apply ltb_asym.
  - intros x y z. rewrite !order_name_le. intros [H1|[H1 L1]] [H2|[H2 L2]]; [left; lia..|]. right. split; [lia|].
    by eapply ltb_le_trans.
Qed.
Lemma order_name_unique l l' :
  NoDup (map (fun x => (order x, name x)) l) -> Permutation l l' ->
  sort_less by_order_name l = sort_less by_order_name l'.
Proof.
  intros Hn. apply sort_less_unique.
  - intros x y H. apply order_name_le. apply order_name_iff in H as [H|[H Hn']]; [by left|]. right. split; [done|].
    by apply ltb_asym.
  - intros x y z. rewrite !order_name_le. intros [H1|[H1 L1]] [H2|[H2 L2]]; [left; lia..|]. right. split; [lia|].
    by eapply ltb_le_trans.
  - intros x y Hx Hy L1%order_name_le L2%order_name_le.
    assert ((order x, name x) = (order y, name y)) as E.
    { destruct L1 as [L1|[E1 N1]], L2 as [L2|[E2 N2]]; try lia. rewrite E1. f_equal. by apply ltb_total. }
    apply list_elem_of_lookup in Hx as [i Hi]. apply list_elem_of_lookup in Hy as [j Hj].
    assert (i = j) as ->; [|congruence]. eapply (NoDup_lookup _ i j (order x, name x) Hn).
    + by rewrite list_lookup_fmap, Hi.
    + by rewrite list_lookup_fmap, Hj, E.
Qed.
End order_name_laws.

(** ** Theorems *)

(** A chart config of template [tid] with the content of [ch]. *)
Definition of_template (tid : string) (ch : TemplateChartConfig) : TemplateChartConfig :=
  mkTChart (tc_ID ch) tid (tc_ChartName ch) (tc_RepositoryURL ch) (tc_SourceRepoURL ch) (tc_BuildPipelineID ch)
    (tc_ChartPath ch) (tc_ChartVersion ch) (tc_DefaultValues ch) (tc_LockedValues ch) (tc_DeployOrder ch)
    (tc_Required ch).

(** The order in which the charts were listed does not show in a snapshot. *)
Lemma snapshot_order tmpl charts charts' :
  NoDup (map (fun c => (tc_DeployOrder c, tc_ChartName c)) charts) -> Permutation charts charts' ->
  NewTemplateSnapshot tmpl charts = NewTemplateSnapshot tmpl charts'.
Proof.
  intros Hn Hp. unfold NewTemplateSnapshot, sortSnapshotCharts, snapshot_less. f_equal.
  apply (order_name_unique sc_SortOrder sc_ChartName); [|by apply fmap_Permutation].
  by rewrite map_map.
Qed.

Lemma same_chart_refl legacy x : same_chart legacy x x = true.
Proof.
  unfold same_chart. rewrite !bool_decide_true by done. rewrite Bool.eqb_reflx, Z.eqb_refl. by destruct legacy.
Qed.
Lemma same_charts_refl legacy l : same_charts legacy l l = true.
Proof. induction l as [|x l IH]; [done|]. cbn. by rewrite same_chart_refl. Qed.

(** The publish check: the working copy that was just published has no changes, in
    whatever order its charts are listed now. *)
Lemma published_unchanged tmpl charts charts' :
  NoDup (map (fun c => (tc_DeployOrder c, tc_ChartName c)) charts) -> Permutation charts charts' ->
  SameTemplateContent (NewTemplateSnapshot tmpl charts) (NewTemplateSnapshot tmpl charts') = true.
Proof.
  intros Hn Hp. rewrite (snapshot_order tmpl charts charts' Hn Hp). unfold SameTemplateContent.
  rewrite !bool_decide_true by done. cbn [negb orb]. rewrite Nat.eqb_refl. apply same_charts_refl.
Qed.

(** What definitions read after a publish is what was published: later edits of the
    working copy, or a failing read of it, do not show. *)
Lemma release_isolated `{SnapshotJSON} tmpl charts v working tid :
  snapshot_Unmarshal (tvr_Snapshot v) = Ok (NewTemplateSnapshot tmpl charts) ->
  exists l, releasedTemplateCharts (Some (Ok v)) working tid = Ok l /\
    Permutation l (map (of_template tid) charts).
Proof.
  intros Hv. unfold releasedTemplateCharts, latestTemplateRelease. rewrite Hv.
  cbn [res_wrap res_bind]. change (ts_SchemaVersion (NewTemplateSnapshot tmpl charts) <? 1)%Z with false.
  cbn [negb res_bind tr_Charts]. eexists. split; [done|]. unfold ChartConfigs. cbn [ts_Charts NewTemplateSnapshot ts_SchemaVersion].
  unfold sortSnapshotCharts. rewrite <- sort_less_perm, map_map. done.
Qed.
