(* ===== verification/Builder.v ===== *)
(** * The values of a request

    [valuesBuilder] ([api/handlers/values_builder.go]) and the shared values of a
    cluster ([shared_values_loader.go], [models/shared_values.go]): the one pipeline
    that renders the values of deploy, bulk deploy, quick deploy, preview, export and
    compare.  Every repository is an answer in [Lookups]; [None] is a repository that
    is not configured.  The log of a skipped entry is left out. *)

From stdpp Require Import sorting.
From S2P Require Import Prelude Models Store Hooks Naming Capacity Values Templates.
Local Open Scope string_scope.
Local Open Scope list_scope.

Record StackDefinition := mkDefinition {
  df_ID : string;
  df_Name : string;
  df_Description : string;
  df_OwnerID : string;
  df_SourceTemplateID : string;
  df_SourceTemplateVersion : string;
  df_DefaultBranch : string;
  df_OwnerInstanceID : string
}.
Record ValueOverride := mkValueOverride { vo_StackInstanceID : string; vo_ChartConfigID : string; vo_Values : string }.
Record ChartBranchOverride := mkBranchOverride { bo_StackInstanceID : string; bo_ChartConfigID : string; bo_Branch : string }.
Record SharedValues := mkShared { sh_ID : string; sh_ClusterID : string; sh_Name : string; sh_Values : string; sh_Priority : Z }.

Definition shared_less (a b : SharedValues) : bool :=
  If negb (sh_Priority a =? sh_Priority b)%Z Return (sh_Priority a <? sh_Priority b)%Z ;;
  If negb (bool_decide (sh_Name a = sh_Name b)) Return String.ltb (sh_Name a) (sh_Name b) ;;
  String.ltb (sh_ID a) (sh_ID b).
Definition SortSharedValues : list SharedValues -> list SharedValues := sort_less shared_less.


Record Lookups := mkLookups {
  lk_sharedValues : option (string -> res (list SharedValues));
  lk_resolver : option (res string);
  lk_defaultCluster : option (res string);
  lk_overrides : option (string -> res (list ValueOverride));
  lk_branchOverrides : option (string -> res (list ChartBranchOverride));
  lk_templateCharts : option (string -> res (list TemplateChartConfig));
  lk_latestVersion : option (string -> res TemplateVersion);
  lk_owner : option (string -> res string);
  lk_ctx : error
}.

Section builder.
Context `{Template} `{Yaml} `{SnapshotJSON}.
Context (lk : Lookups).

(** The cluster whose shared values apply; [None] when there is none. *)
Definition sharedCluster (inst : StackInstance) : res (option string) :=
  If negb (empty (si_ClusterID inst)) Return Ok (Some (si_ClusterID inst)) ;;
  let named (id : string) := if empty id then None else Some id in
  match lk_resolver lk with
  | Some (Ok id) => Ok (named id)
  | Some (Err e) =>
      If errorsIs e "ErrNoDefaultCluster" || errorsIs e "ErrNotFound" Return Ok None ;;
      Err (EWrap "resolve default cluster: " e "")
  | None =>
      match lk_defaultCluster lk with
      | Some (Ok id) => Ok (named id)
      | Some (Err e) =>
          If errorsIs e "ErrNotFound" Return Ok None ;;
          Err (EWrap "find default cluster: " e "")
      | None => Ok None
      end
  end.

(** An entry that is kept: not blank, and a YAML mapping. *)
Definition shared_kept (sv : SharedValues) : bool :=
  negb (empty (TrimSpace (sh_Values sv))) && is_ok (Unmarshal (sh_Values sv)).

Definition loadSharedValues (inst : StackInstance) : res (list string) :=
  match lk_sharedValues lk with
  | None => Ok []
  | Some list_ =>
      cluster <-r sharedCluster inst ;;
      match cluster with
      | None => Ok []
      | Some clusterID =>
          values <-r res_wrap ("list shared values for cluster " +:+ clusterID +:+ ": ") (list_ clusterID) ;;
          Ok (map sh_Values (List.filter shared_kept (SortSharedValues values)))
      end
  end.

(** [resolveOwnerName]. *)
Definition resolveOwnerName (ownerID : string) : string :=
  match lk_owner lk with
  | Some find => match find ownerID with Ok name => name | Err _ => ownerID end
  | None => ownerID
  end.

Definition lockedValues (def : StackDefinition) : res (gmap string string) :=
  match lk_templateCharts lk with
  | Some charts =>
      If empty (df_SourceTemplateID def) Return Ok ∅ ;;
      let id := df_SourceTemplateID def in
      templateCharts <-r res_wrap "list template chart configs: "
        (releasedTemplateCharts (option_map (fun f => f id) (lk_latestVersion lk)) (Some (charts id)) id) ;;
      Ok (fold_left (fun m tc => <[tc_ChartName tc := tc_LockedValues tc]> m) templateCharts ∅)
  | None => Ok ∅
  end.

(** [overridesMap] and [branchMap], by chart config ID. *)
Definition overridesMap (inst : StackInstance) : res (gmap string string) :=
  match lk_overrides lk with
  | Some find =>
      l <-r res_wrap "list value overrides: " (find (si_ID inst)) ;;
      Ok (fold_left (fun m ov => <[vo_ChartConfigID ov := vo_Values ov]> m) l ∅)
  | None => Ok ∅
  end.
Definition branchMapOf (inst : StackInstance) : res (gmap string string) :=
  match lk_branchOverrides lk with
  | Some find =>
      l <-r res_wrap "list branch overrides: " (find (si_ID inst)) ;;
      Ok (fold_left (fun m bo => <[bo_ChartConfigID bo := bo_Branch bo]> m) l ∅)
  | None => Ok ∅
  end.

Definition value_of (k : string) (m : gmap string string) : string := default "" (m !! k).

Definition chart_layers (locked overrides branches : gmap string string) (shared : list string) (vars : TemplateVars)
    (ch : ChartConfig) : GenerateParams :=
  mkGenerate (cc_ChartName ch) (cc_DefaultValues ch) (value_of (cc_ChartName ch) locked)
    (value_of (cc_ID ch) overrides) shared (value_of (cc_ID ch) branches) vars.

(** [valuesBuilder.layers]; the template variables are in each chart's parameters. *)
Definition builder_layers (inst : StackInstance) (def : StackDefinition) (charts : list ChartConfig)
    (ownerName : string) : res (list GenerateParams * gmap string string) :=
  lockedMap <-r res_wrap "build locked values: " (lockedValues def) ;;
  sharedValues <-r res_wrap "load shared values: " (loadSharedValues inst) ;;
  overrides <-r overridesMap inst ;;
  branchMap <-r branchMapOf inst ;;
  ownerName <-r (If negb (empty ownerName) Return Ok ownerName ;;
                 match lk_ctx lk with
                 | Some e => Err (EWrap "resolve owner name: " e "")
                 | None => Ok (resolveOwnerName (si_OwnerID inst))
                 end) ;;
  let templateVars := mkVars (si_Branch inst) (SanitizeImageTag (si_Branch inst)) (si_Namespace inst)
                        (si_Name inst) (df_Name def) ownerName in
  Ok (map (chart_layers lockedMap overrides branchMap sharedValues templateVars) charts, branchMap).

Fixpoint render (charts : list GenerateParams) (result : gmap string string) : res (gmap string string) :=
  match charts with
  | [] => Ok result
  | cv :: rest =>
      yamlData <-r res_wrap ("generate values for chart " +:+ gp_ChartName cv +:+ ": ") (GenerateValues cv) ;;
      render rest (<[gp_ChartName cv := yamlData]> result)
  end.

(** [valuesBuilder.build]: chart name to YAML, and the branches by chart config ID. *)
Definition build (inst : StackInstance) (def : StackDefinition) (charts : list ChartConfig) (ownerName : string)
    : res (gmap string string * gmap string string) :=
  l <-r builder_layers inst def charts ownerName ;;
  result <-r render l.1 ∅ ;;
  Ok (result, l.2).
End builder.

(** ** Theorems *)

Section theorems.
Context `{Template} `{Yaml} `{SnapshotJSON}.

(** The last entry of a key is the one that counts; with unique keys, the only one. *)
Lemma fold_lookup {A} (key val : A -> string) l x : NoDup (map key l) -> x ∈ l -> forall m : gmap string string,
  fold_left (fun m y => <[key y := val y]> m) l m !! key x = Some (val x).
Proof.
  intros Hn Hx. assert (forall l (m : gmap string string) k, k ∉ map key l -> fold_left (fun m y => <[key y := val y]> m) l m !! k = m !! k) as Ho.
  { clear. induction l as [|y l IH]; intros m k Hk; [done|]. cbn in Hk |- *. apply not_elem_of_cons in Hk as [Hk Hl].
    rewrite IH by done. by rewrite lookup_insert_ne. }
  induction l as [|y l IH]; [by apply elem_of_nil in Hx|]. intros m. cbn in Hn |- *. apply NoDup_cons in Hn as [Hy Hn].
  apply elem_of_cons in Hx as [->|Hx]; [|by apply IH]. rewrite Ho by done. apply lookup_insert_eq.
Qed.

Lemma render_lookup l c : NoDup (map gp_ChartName l) -> c ∈ l -> forall m result,
  render l m = Ok result -> exists text, GenerateValues c = Ok text /\ result !! gp_ChartName c = Some text.
Proof.
  assert (forall l (m result : gmap string string) k, k ∉ map gp_ChartName l -> render l m = Ok result -> result !! k = m !! k) as Ho.
  { clear l. induction l as [|y l IH]; intros m result k Hk Hr; cbn in Hk, Hr; [by injection Hr as <-|].
    apply not_elem_of_cons in Hk as [Hk Hl]. destruct (GenerateValues y) as [d|e]; [|done]. cbn in Hr.
    rewrite (IH _ _ _ Hl Hr). by rewrite lookup_insert_ne. }
  induction l as [|y l IH]; intros Hn Hc m result Hr; [by apply elem_of_nil in Hc|].
  cbn in Hn, Hr. apply NoDup_cons in Hn as [Hy Hn]. destruct (GenerateValues y) as [d|e] eqn:Ed; [|done]. cbn in Hr.
  apply elem_of_cons in Hc as [->|Hc]; [|by eapply IH]. exists d. split; [done|].
  rewrite (Ho _ _ _ _ Hy Hr). apply lookup_insert_eq.
Qed.

(** The locked layer is the last one: its leaves are in the generated values. *)
Lemma locked_generated params text l p v :
  GenerateValues params = Ok text -> parseYAML (gp_LockedValues params) = Ok l ->
  wf (YMap l) = true -> p <> [] -> get p (YMap l) = Some v -> leaf v = true ->
  exists out v', marshalYAML out = Ok text /\ substituteValue v (chartVars params) = Ok v' /\
    get p (YMap out) = Some v'.
Proof.
  intros Hg Hlock Hwf Hp Hv Hl. unfold GenerateValues, generatedMap, Values.layers in Hg. rewrite Hlock in Hg.
  destruct (parseYAML (gp_DefaultValues params)) as [d|e]; [|done].
  destruct (parseYAML (gp_OverrideValues params)) as [o|e]; [|done]. cbn [res_wrap res_bind] in Hg.
  set (ls := sharedLayers _ ++ [d; o; l]) in Hg.
  assert (get p (YMap (mergeLayers ls)) = Some v) as Hm.
  { unfold ls. replace (sharedLayers (gp_SharedValues params) ++ [d; o; l])
      with ((sharedLayers (gp_SharedValues params) ++ [d; o]) ++ l :: []) by (by rewrite <- app_assoc).
    by apply mergeLayers_wins. }
  unfold substituteVars in Hg. destruct (substituteValue (YMap (mergeLayers ls)) (chartVars params)) as [r|e] eqn:Es; [|done].
  destruct (substitute_YMap _ _ _ Es) as (m' & -> & _). cbn in Hg.
  destruct (substitute_get _ p _ _ _ Es Hm) as (v' & Hv' & Hg'). by exists m', v'.
Qed.

(** A published lock cannot be overridden.  When the values of an instance are
    built, every leaf that the locked values of a chart had when its template was
    published is in the values of that chart, expanded with the variables of the
    instance: whatever the working copy of the template, the defaults of the definition,
    the overrides of the instance and the shared values of the cluster say.  A failed
    lookup gives no values at all. *)
Theorem published_lock_wins lk inst def charts owner result branches tid latest v tmpl published tc ch l p x :
  build lk inst def charts owner = Ok (result, branches) ->
  df_SourceTemplateID def = tid -> tid <> "" -> is_Some (lk_templateCharts lk) ->
  lk_latestVersion lk = Some latest -> latest tid = Ok v ->
  snapshot_Unmarshal (tvr_Snapshot v) = Ok (NewTemplateSnapshot tmpl published) ->
  NoDup (map tc_ChartName published) -> tc ∈ published ->
  NoDup (map cc_ChartName charts) -> ch ∈ charts -> cc_ChartName ch = tc_ChartName tc ->
  parseYAML (tc_LockedValues tc) = Ok l -> wf (YMap l) = true ->
  p <> [] -> get p (YMap l) = Some x -> leaf x = true ->
  exists text out vars x', result !! cc_ChartName ch = Some text /\ marshalYAML out = Ok text /\
    get p (YMap out) = Some x' /\ substituteValue x vars = Ok x' /\
    (tv_Namespace vars, tv_InstanceName vars, tv_StackName vars) = (si_Namespace inst, si_Name inst, df_Name def).
Proof.
  intros Hb <- Htid [charts_of Hc] Hv Hl Hs Hnp Htc Hnc Hch Hname Hparse Hwf Hp Hx Hleaf.
  unfold build, builder_layers in Hb.
  destruct (release_isolated tmpl published v (Some (charts_of (df_SourceTemplateID def))) (df_SourceTemplateID def) Hs)
    as (rel & Hrel & Hperm).
  assert (lockedValues lk def = Ok (fold_left (fun m y => <[tc_ChartName y := tc_LockedValues y]> m) rel ∅)) as Hlock.
  { unfold lockedValues. rewrite Hc. rewrite (proj2 (empty_false _)) by done. rewrite Hv. cbn [option_map]. by rewrite Hl, Hrel. }
  rewrite Hlock in Hb. cbn [res_wrap res_bind] in Hb.
  set (locked := fold_left _ rel ∅) in Hb.
  assert (locked !! cc_ChartName ch = Some (tc_LockedValues tc)) as Hval.
  { rewrite Hname. change (tc_ChartName tc) with (tc_ChartName (of_template (df_SourceTemplateID def) tc)).
    change (tc_LockedValues tc) with (tc_LockedValues (of_template (df_SourceTemplateID def) tc)).
    apply (fold_lookup tc_ChartName tc_LockedValues).
    - rewrite Hperm, map_map. exact Hnp.
    - rewrite Hperm. by apply list_elem_of_fmap_2. }
  destruct (loadSharedValues lk inst) as [shared|e]; [|done]. destruct (overridesMap lk inst) as [overrides|e]; [|done].
  destruct (branchMapOf lk inst) as [bm|e]; [|done]. cbn [res_wrap res_bind] in Hb.
  match type of Hb with context [if ?b then ?a else ?c] => destruct (if b then a else c) as [name|e]; [|done] end.
  cbn [res_bind fst snd] in Hb. set (vars := mkVars _ _ _ _ _ _) in Hb.
  destruct (render _ ∅) as [r|e] eqn:Er; [|done]. injection Hb as -> ->.
  assert (chart_layers locked overrides branches shared vars ch ∈ map (chart_layers locked overrides branches shared vars) charts) as Hin
    by (by apply list_elem_of_fmap_2).
  assert (NoDup (map gp_ChartName (map (chart_layers locked overrides branches shared vars) charts))) as Hnl
    by (rewrite map_map; exact Hnc).
  destruct (render_lookup _ _ Hnl Hin _ _ Er) as (text & Hg & Hr).
  assert (parseYAML (gp_LockedValues (chart_layers locked overrides branches shared vars ch)) = Ok l) as Hpl.
  { cbn. unfold value_of. by rewrite Hval. }
  destruct (locked_generated _ text l p x Hg Hpl Hwf Hp Hx Hleaf) as (out & x' & Hm & Hsub & Hget).
  eexists text, out, _, x'. split_and!; [exact Hr|done|exact Hget|exact Hsub|].
  unfold chartVars. by case_match.
Qed.
End theorems.

(** ** Example *)

Section example.
#[local] Instance var_template : Template := {
  template := string;
  Parse s := Ok s;
  Execute t v := Ok (if bool_decide (t = "{{.Branch}}") then tv_Branch v else t)
}.
#[local] Instance tag_yaml : Yaml := {
  Unmarshal s := if bool_decide (s = "locked") then Ok (Some [("image", YMap [("tag", YString "{{.Branch}}")])])
                 else Ok (Some (image_doc s));
  Encode m := Ok (match get ["image"; "tag"] (YMap m) with Some (YString s) => s | _ => "" end)
}.
Definition web_template : StackTemplate := mkTemplate "t1" "shop" "" "" "main" true "1.0" "u1".
Definition web_chart (locked : string) : TemplateChartConfig :=
  mkTChart "tc1" "t1" "web" "https://charts" "" "" "" "1.2.3" "v1" locked 0 true.
#[local] Instance one_snapshot : SnapshotJSON :=
  fun _ => Ok (NewTemplateSnapshot web_template [web_chart "locked"]).

(** The working copy of the template lost its lock after the publish, and the instance
    overrides the tag. *)
Definition shop_lookups : Lookups :=
  mkLookups (Some (fun _ => Ok [mkShared "s1" "c1" "base" "v0" 10])) None None
    (Some (fun _ => Ok [mkValueOverride "i1" "cc1" "v2"])) (Some (fun _ => Ok []))
    (Some (fun _ => Ok [web_chart ""])) (Some (fun _ => Ok (mkVersion "v1" "t1" "1.0" "stored" "" "u1" 0)))
    (Some (fun _ => Ok "alice")) None.
Definition shop_instance : StackInstance :=
  mkInstance "i1" "d1" "shop" "stack-shop-alice" "u1" "feature/x" "c1" "draft" "" "" 0 0 0 None None None None None None false.
Definition shop_definition : StackDefinition := mkDefinition "d1" "shop" "" "u1" "t1" "1.0" "main" "".
Definition shop_charts : list ChartConfig := [mkChart "cc1" "d1" "web" "https://charts" "" "" "" "1.2.3" "v1" 0].

Example built : build shop_lookups shop_instance shop_definition shop_charts "" = Ok ({["web" := "feature/x"]}, ∅).
Proof. vm_compute. done. Qed.

Lemma published_lock_wins_witness :
  exists text out vars x', ({["web" := "feature/x"]} : gmap string string) !! "web" = Some text /\ marshalYAML out = Ok text /\
    get ["image"; "tag"] (YMap out) = Some x' /\ substituteValue (YString "{{.Branch}}") vars = Ok x' /\
    (tv_Namespace vars, tv_InstanceName vars, tv_StackName vars) = ("stack-shop-alice", "shop", "shop").
Proof.
  refine (published_lock_wins shop_lookups shop_instance shop_definition shop_charts "" _ ∅ "t1" _ _ web_template
            [web_chart "locked"] (web_chart "locked") (mkChart "cc1" "d1" "web" "https://charts" "" "" "" "1.2.3" "v1" 0)
            [("image", YMap [("tag", YString "{{.Branch}}")])] ["image"; "tag"] (YString "{{.Branch}}")
            _ eq_refl _ _ eq_refl eq_refl eq_refl _ _ _ _ eq_refl _ _ _ eq_refl eq_refl).
  - vm_compute. reflexivity.
  - discriminate.
  - by eexists.
  - apply NoDup_singleton.
  - by apply list_elem_of_singleton.
  - apply NoDup_singleton.
  - by apply list_elem_of_singleton.
  - vm_compute. reflexivity.
  - vm_compute. reflexivity.
  - discriminate.
Defined.
End example.
