(* ===== verification/Requests.v ===== *)
(** * Lifecycle requests

    The handlers of [api/handlers/stack_instances.go] and [instance_rollback.go] that
    start an operation on an instance: deploy, stop, clean, delete and rollback, from
    the lookup of the row to the answer.  A started operation goes on in a goroutine:
    the handler gives it back as an [Operation], [run_operation] runs it.  Definitions,
    charts and the lookups of the values builder are in tables that the model does not
    hold: their reads have any answer at any time.  A request body is the result of its
    JSON binding.  Spans, logs and the followers of a notification are left out. *)

From S2P Require Import Prelude Models Quota Store Hooks World Output Json Manager Deploy Teardown Rollback Values Templates Builder Policies Access.
Local Open Scope string_scope.
Local Open Scope list_scope.

(** ** Answers *)

Record RollbackResponse := mkRollbackResponse {
  rb_LogID : string;
  rb_Message : string;
  rb_TargetLogID : string;
  rb_ValuesDrift : option bool;
  rb_Warning : string
}.

Inductive Body :=
| BError (message : string)
| BLog (logID message : string)
| BRollback (r : RollbackResponse)
| BConflict (error message : string) (suggestions : list string)
| BInstance (i : StackInstance)
| BEmpty.

Record Response := mkResponse { rs_Status : Z; rs_Body : Body }.

Definition answer (status : Z) (message : string) : Response := mkResponse status (BError message).
Definition error_answer (e : goerr) (entity : string) : Response :=
  let m := mapError e entity in answer m.1 m.2.
Definition internal_error : Response := answer 500 msgInternalServerError.

Definition msgInstanceIDRequired := "Instance ID is required".
Definition msgDeployerNotConfigured := "Deployment service not configured".
Definition msgNoCharts := "No charts configured for this stack definition".

(** ** Operations in the background *)

Inductive Operation :=
| StartDeploy (reg : ClusterResolver) (args : deployArgs) (deployLog : DeploymentLog)
| StartStop (helm : HelmExecutor) (inst : StackInstance) (deployLog : DeploymentLog) (charts : list ChartDeployInfo)
| StartClean (helm : HelmExecutor) (k8s : bool) (inst : StackInstance) (deployLog : DeploymentLog)
    (charts : list ChartDeployInfo)
| StartRollback (reg : ClusterResolver) (job : rollbackJob) (deployLog : DeploymentLog).

Definition operation_log (o : Operation) : DeploymentLog :=
  match o with StartDeploy _ _ l | StartStop _ _ l _ | StartClean _ _ _ l _ | StartRollback _ _ l => l end.

Definition run_operation `{QuantityOps} (m : Manager) (fuel : nat) (o : Operation) : M unit :=
  match o with
  | StartDeploy reg args l => executeDeploy m reg args l
  | StartStop helm inst l charts =>
      run! executeStop m fuel helm (si_ID inst) l (si_Namespace inst) charts in ret tt
  | StartClean helm k8s inst l charts => executeClean m helm k8s (si_ID inst) l (si_Namespace inst) charts
  | StartRollback reg job l => executeRollback m reg job l
  end.

(** ** The handler *)

Record InstanceHandler := mkHandler {
  h_deployManager : option Manager;
  h_hooks : option Dispatcher;
  h_txRunner : bool;
  h_notifier : bool;
  h_streamRevoker : bool;
  h_deployLogRepo : bool;
  h_maxTTLMinutes : Z;
  h_defaultTTLMinutes : Z
}.

Definition Handled : Type := Response * option Operation.
Definition refuse (r : Response) : M Handled := ret (r, None).

Definition log_FindByID (id : string) : M (res DeploymentLog) :=
  let! r := query (fun _ s => st_logs s !! id) in
  ret match r with
      | Err e => Err (EDB "find_by_id" e)
      | Ok None => Err (EDB "find_by_id" ErrNotFound)
      | Ok (Some l) => Ok l
      end.

(** [fireInstanceHook] and the answer to a refused one. *)
Definition preHookRefusal (event : string) (err : goerr) : Z * string :=
  If errorsIs err "ErrScopeUnknown" Return
    (503%Z, "Could not check where the " +:+ event +:+ " hook applies. Try again.") ;;
  (403%Z, event +:+ " hook rejected the request").

Definition fireInstanceHook (d : option Dispatcher) (event : string) (inst : StackInstance) : M error :=
  match d with
  | None => ret None
  | Some d =>
      let! st := step in
      run! emit (EvHook event inst "" (mkOpts [] [])) in
      ret (Fire d event (Some (withTemplateOf (HookInstanceRef inst) (e_template st))) (e_answer st)).2
  end.
Definition firePostHook (d : option Dispatcher) (event : string) (inst : StackInstance) : M unit :=
  run! fireInstanceHook d event inst in ret tt.

(** A YAML document of any shape ([yaml.v3] into [any], [reflect.DeepEqual]); [None] is
    the nil of a null document. *)
Class AnyYaml := {
  document : Type;
  Decode : string -> res (option document);
  empty_document : document;
  DeepEqual : document -> document -> bool
}.

Section handler.
Context `{Template} `{Yaml} `{SnapshotJSON} `{AnyYaml}.
Context (h : InstanceHandler).
Context (definitions : nat -> string -> res StackDefinition).
Context (chartConfigs : nat -> string -> res (list ChartConfig)).
Context (lookups : nat -> Lookups).

Definition revokeStreams (id : string) : M unit := when_ (h_streamRevoker h) (emit (EvStreamsClosed id)).

(** The row of the request, when the caller may modify it. *)
Definition load_instance (c : Caller) (id : string) : M (StackInstance + Response) :=
  let! r := instance_FindByID id in
  ret match r with
      | Err e => inr (error_answer e entityStackInstance)
      | Ok inst =>
          If negb (canModifyInstance c inst) Return inr (answer 403 msgInstanceModifyForbidden) ;;
          inl inst
      end.

(** The definition of an instance and its charts. *)
Definition load_charts (inst : StackInstance) : M ((StackDefinition * list ChartConfig) + Response) :=
  let! def := external (fun t => definitions t (si_StackDefinitionID inst)) in
  match def with
  | Err e => ret (inr (error_answer e entityStackDefinition))
  | Ok def =>
      let! charts := external (fun t => chartConfigs t (df_ID def)) in
      ret match charts with
          | Err e => inr (error_answer e entityChartConfigs)
          | Ok charts => inl (def, charts)
          end
  end.

(** *** Deploy *)

Definition deployable : list string :=
  [StackStatusDraft; StackStatusStopped; StackStatusError; StackStatusRunning; StackStatusPartial].
Definition cannot_deploy (status : string) : string :=
  If bool_decide (status ∈ [StackStatusDeploying; StackStatusQueued; StackStatusStopping; StackStatusStabilizing])
    Return "Cannot deploy: instance is currently " +:+ status ;;
  "Cannot deploy: instance is in state " +:+ status.

Definition deploy_charts (charts : list ChartConfig) (values branches : gmap string string) : list ChartDeployInfo :=
  List.map (fun ch => mkChartInfo ch (value_of (cc_ChartName ch) values) (value_of (cc_ID ch) branches)) charts.

(** The expiry of a deploy; a failed write is ignored. *)
Definition restart_ttl (inst : StackInstance) : M StackInstance :=
  If negb (0 <? si_TTLMinutes inst)%Z Return ret inst ;;
  let! now := clock in
  let inst := si_set_ExpiresAt
    (Some (deployExpiry (si_ExpiresAt inst) (si_TTLMinutes inst) (maxTTL (h_maxTTLMinutes h)) now)) inst in
  run! instance_Update inst in
  ret inst.

Definition DeployInstance (c : Caller) (id : string) : M Handled :=
  If empty id Return refuse (answer 400 msgInstanceIDRequired) ;;
  match h_deployManager h with
  | None => refuse (answer 503 msgDeployerNotConfigured)
  | Some m =>
      let! r := load_instance c id in
      match r with
      | inr a => refuse a
      | inl inst =>
          If negb (bool_decide (si_Status inst ∈ deployable)) Return refuse (answer 409 (cannot_deploy (si_Status inst))) ;;
          let! now := clock in
          If stopTimePassed (si_TTLMinutes inst) (si_ExpiresAt inst) now Return refuse (answer 409 msgStopTimePassed) ;;
          let! r := load_charts inst in
          match r with
          | inr a => refuse a
          | inl (def, charts) =>
              If bool_decide (charts = []) Return refuse (answer 400 msgNoCharts) ;;
              If empty (si_Namespace inst) Return refuse (answer 400 "Instance namespace is empty") ;;
              let! built := external (fun t => build (lookups t) inst def charts "") in
              match built with
              | Err e =>
                  refuse (match cancelledRequestError e with
                          | Some a => answer a.1 a.2
                          | None => internal_error
                          end)
              | Ok (values, branches) =>
                  let! inst := restart_ttl inst in
                  let req := mkDeployRequest inst (deploy_charts charts values branches) (ca_UserID c)
                               (json_Marshal values) in
                  let! r := Deploy m (userTrigger c) req in
                  match r with
                  | Err e =>
                      match errorsAs (fun x => match x with ENamespaceTerminating n => Some n | _ => None end) e with
                      | Some n => refuse (answer 409 (errText (ENamespaceTerminating n)))
                      | None => refuse internal_error
                      end
                  | Ok (reg, args, l) =>
                      ret (mkResponse 202 (BLog (dl_ID l) "Deployment started"), Some (StartDeploy reg args l))
                  end
              end
          end
      end
  end.

(** *** Stop *)

Definition stoppable : list string :=
  [StackStatusRunning; StackStatusPartial; StackStatusDeploying; StackStatusStabilizing].

Definition StopInstance (c : Caller) (id : string) : M Handled :=
  If empty id Return refuse (answer 400 msgInstanceIDRequired) ;;
  match h_deployManager h with
  | None => refuse (answer 503 msgDeployerNotConfigured)
  | Some m =>
      let! r := load_instance c id in
      match r with
      | inr a => refuse a
      | inl inst =>
          If negb (bool_decide (si_Status inst ∈ stoppable)) Return
            refuse (answer 409 ("Cannot stop: instance is currently " +:+ si_Status inst)) ;;
          let! r := load_charts inst in
          match r with
          | inr a => refuse a
          | inl (def, charts) =>
              If bool_decide (charts = []) Return refuse (answer 400 msgNoCharts) ;;
              let! r := StopWithCharts m (userTrigger c) inst (List.map plain_chart charts) in
              match r with
              | Err _ => refuse internal_error
              | Ok (helm, l, ordered) =>
                  run! revokeStreams (si_ID inst) in
                  ret (mkResponse 202 (BLog (dl_ID l) "Stop initiated"), Some (StartStop helm inst l ordered))
              end
          end
      end
  end.

(** *** Clean *)

Definition CleanInstance (c : Caller) (id : string) : M Handled :=
  If empty id Return refuse (answer 400 msgInstanceIDRequired) ;;
  match h_deployManager h with
  | None => refuse (answer 503 msgDeployerNotConfigured)
  | Some m =>
      let! r := load_instance c id in
      match r with
      | inr a => refuse a
      | inl inst =>
          If negb (bool_decide (si_Status inst ∈ [StackStatusRunning; StackStatusPartial; StackStatusStopped; StackStatusError]))
            Return refuse (answer 409 ("Cannot clean: instance is currently " +:+ si_Status inst)) ;;
          let! r := load_charts inst in
          match r with
          | inr a => refuse a
          | inl (def, charts) =>
              let! r := Clean m (userTrigger c) inst (List.map plain_chart charts) in
              match r with
              | Err e =>
                  If errorsIs e "ErrCleanConflict" Return refuse (answer 409 msgCleanConflict) ;;
                  refuse internal_error
              | Ok (helm, k8s, l, ordered) =>
                  run! revokeStreams (si_ID inst) in
                  ret (mkResponse 202 (BLog (dl_ID l) "Namespace cleanup initiated"),
                       Some (StartClean helm k8s inst l ordered))
              end
          end
      end
  end.

(** *** Delete *)

(** [afterInstanceDeleted]. *)
Definition afterInstanceDeleted (c : Caller) (inst : StackInstance) : M unit :=
  run! (match h_deployManager h with
        | Some m => when_ (negb (empty (si_ID inst))) (broadcastInstanceDeleted m (si_ID inst) "")
        | None => ret tt
        end) in
  run! firePostHook (h_hooks h) EventPostInstanceDelete inst in
  run! firePostHook (h_hooks h) EventDeleteCompleted inst in
  when_ (h_notifier h)
    (emit (EvNotify (si_ID inst) "instance.deleted" "Stack deleted"
             ("Stack " +:+ si_Name inst +:+ " has been deleted") (userTrigger c) "")).

(** [DeleteInstanceRecord] in its transaction; the rows of the other tables are one
    step that can fail.  The cleanup of an owned definition is best effort and in
    tables of its own. *)
Definition deleteRecord (id : string) : M error :=
  RunInTx (
    let! err := deleteDependents in
    match err with
    | Some e => ret (Some e)
    | None => instance_Delete id
    end).

Definition busy : list string :=
  [StackStatusDeploying; StackStatusStopping; StackStatusCleaning; StackStatusQueued; StackStatusStabilizing].
Definition hasResources : list string :=
  [StackStatusRunning; StackStatusPartial; StackStatusStopped; StackStatusError].

(** [deleteInstance]: the clean that was started, nothing when the row is gone, or the
    answer of an [instanceDeleteError]. *)
Definition delete_instance (c : Caller) (inst : StackInstance) : M (option Operation + Response) :=
  If bool_decide (si_Status inst ∈ busy) Return
    ret (inr (answer 409 ("Cannot delete: instance is currently " +:+ si_Status inst))) ;;
  let! hook := fireInstanceHook (h_hooks h) EventPreInstanceDelete inst in
  match hook with
  | Some e => let a := preHookRefusal EventPreInstanceDelete e in ret (inr (answer a.1 a.2))
  | None =>
      If bool_decide (si_Status inst ∈ hasResources) Return
        match h_deployManager h with
        | None => ret (inr (answer 503 msgDeployerNotConfigured))
        | Some m =>
            let! r := load_charts inst in
            match r with
            | inr a => ret (inr a)
            | inl (def, charts) =>
                let! r := CleanForDelete m (userTrigger c) inst (List.map plain_chart charts) in
                match r with
                | Err e =>
                    If errorsIs e "ErrDeleteConflict" Return
                      ret (inr (answer 409 "Cannot delete: another operation started on the instance")) ;;
                    ret (inr internal_error)
                | Ok (helm, k8s, l, ordered) =>
                    run! revokeStreams (si_ID inst) in
                    ret (inl (Some (StartClean helm k8s inst l ordered)))
                end
            end
        end ;;
      If negb (h_txRunner h) Return ret (inr internal_error) ;;
      let! err := deleteRecord (si_ID inst) in
      match err with
      | Some e => ret (inr (error_answer e entityStackInstance))
      | None =>
          run! revokeStreams (si_ID inst) in
          run! afterInstanceDeleted c inst in
          ret (inl None)
      end
  end.

Definition DeleteInstance (c : Caller) (id : string) : M Handled :=
  If empty id Return refuse (answer 400 msgInstanceIDRequired) ;;
  let! r := load_instance c id in
  match r with
  | inr a => refuse a
  | inl inst =>
      let! r := delete_instance c inst in
      ret match r with
          | inr a => (a, None)
          | inl None => (mkResponse 204 BEmpty, None)
          | inl (Some o) =>
              (mkResponse 202 (BLog (dl_ID (operation_log o))
                 "Cleanup initiated; instance will be deleted after resources are removed"), Some o)
          end
  end.

(** *** Rollback *)

Definition rollbackable : list string := [StackStatusRunning; StackStatusPartial; StackStatusError].
Definition msgValuesDrift :=
  "The stored overrides differ from the running values. The next deploy applies the stored overrides again.".

(** The values, versions and branch of a target log. *)
Record rollbackTargetData := mkTargetData {
  td_values : gmap string string;
  td_versions : gmap string string;
  td_branch : string
}.
Definition no_target : rollbackTargetData := mkTargetData ∅ ∅ "".

Definition target_of (instanceID : string) (l : DeploymentLog) : rollbackTargetData + Response :=
  If negb (bool_decide (dl_StackInstanceID l = instanceID)) Return
    inr (answer 404 "Rollback target deployment log not found for this instance") ;;
  If negb (bool_decide (dl_Action l = DeployActionDeploy) && bool_decide (dl_Status l = DeployLogSuccess)) Return
    inr (answer 400 "Rollback target must be a successful deploy of this instance") ;;
  let no_snapshot := inr (answer 400 "Rollback target has no values snapshot") in
  If empty (dl_ValuesSnapshot l) Return no_snapshot ;;
  match json_Unmarshal (dl_ValuesSnapshot l) with
  | Some (Some values) =>
      If bool_decide (values = ∅) Return no_snapshot ;;
      inl (mkTargetData values (ParseChartVersions (dl_ChartVersions l)) (dl_Branch l))
  | _ => no_snapshot
  end.

Definition loadRollbackTarget (instanceID targetLogID : string) : M (rollbackTargetData + Response) :=
  If negb (h_deployLogRepo h) Return ret (inr (answer 503 "Deployment log service not configured")) ;;
  let! r := log_FindByID targetLogID in
  ret match r with
      | Err e => inr (error_answer e "Rollback target deployment log")
      | Ok l => target_of instanceID l
      end.

(** [valuesEqual]; a null document equals an empty map ([normalizeEmpty]). *)
Definition valuesEqual (a b : string) : bool :=
  If bool_decide (TrimSpace a = TrimSpace b) Return true ;;
  match Decode a, Decode b with
  | Ok pa, Ok pb => DeepEqual (default empty_document pa) (default empty_document pb)
  | _, _ => false
  end.

Definition targetValuesDrift (pending target : gmap string string) : bool :=
  existsb (fun kv => match pending !! kv.1 with
                     | Some current => negb (valuesEqual current kv.2)
                     | None => false
                     end) (map_to_list target).

(** The target of the request and the drift that the answer shows. *)
Definition rollback_target (inst : StackInstance) (def : StackDefinition) (charts : list ChartConfig) (targetLogID : string)
    : M ((rollbackTargetData * option bool) + Response) :=
  If empty targetLogID Return ret (inl (no_target, None)) ;;
  let! r := loadRollbackTarget (si_ID inst) targetLogID in
  match r with
  | inr a => ret (inr a)
  | inl target =>
      let! pending := external (fun t => build (lookups t) inst def charts "") in
      ret match pending with
          | Err e => match cancelledRequestError e with
                     | Some a => inr (answer a.1 a.2)
                     | None => inl (target, None)
                     end
          | Ok (pending, _) => inl (target, Some (targetValuesDrift pending (td_values target)))
          end
  end.

Definition RollbackInstance (c : Caller) (id : string) (body : res string) : M Handled :=
  If empty id Return refuse (answer 400 msgInstanceIDRequired) ;;
  match h_deployManager h with
  | None => refuse (answer 503 msgDeployerNotConfigured)
  | Some m =>
      let! r := load_instance c id in
      match r with
      | inr a => refuse a
      | inl inst =>
          If negb (bool_decide (si_Status inst ∈ rollbackable)) Return
            refuse (answer 409 ("Cannot rollback: instance is in state " +:+ si_Status inst)) ;;
          match (match body with
                 | Ok id => inl id
                 | Err e => if errorsIs e "EOF" then inl "" else inr (answer 400 msgInvalidRequestFormat)
                 end) with
          | inr a => refuse a
          | inl targetLogID =>
              let! r := load_charts inst in
              match r with
              | inr a => refuse a
              | inl (def, charts) =>
                  If bool_decide (charts = []) Return refuse (answer 400 msgNoCharts) ;;
                  let! r := rollback_target inst def charts targetLogID in
                  match r with
                  | inr a => refuse a
                  | inl (target, drift) =>
                      let! r := Rollback m (userTrigger c)
                        (mkRollbackRequest inst (List.map plain_chart charts) targetLogID (td_values target)
                           (td_versions target) (td_branch target)) in
                      match r with
                      | Err _ => refuse internal_error
                      | Ok (reg, job, l) =>
                          let warning := if bool_decide (drift = Some true) then msgValuesDrift else "" in
                          ret (mkResponse 202 (BRollback (mkRollbackResponse (dl_ID l) "Rollback started"
                                 targetLogID drift warning)), Some (StartRollback reg job l))
                      end
                  end
              end
          end
      end
  end.

(** *** The routes *)

Inductive Request :=
| ReqDeploy | ReqStop | ReqClean | ReqDelete | ReqRollback (body : res string).

Definition handle (q : Request) (c : Caller) (id : string) : M Handled :=
  match q with
  | ReqDeploy => DeployInstance c id
  | ReqStop => StopInstance c id
  | ReqClean => CleanInstance c id
  | ReqDelete => DeleteInstance c id
  | ReqRollback body => RollbackInstance c id body
  end.
End handler.
