(* ===== verification/Answers.v ===== *)
(** * What a lifecycle request may do

    The theorems about the handlers of [Requests]: which row a request may start an
    operation on, what a refused request leaves behind, what an accepted one has
    written, and what the request and its operation in the background may touch. *)

From S2P Require Import Prelude Models Quota Store Hooks World Output Json Manager Ends Calm Deploy Teardown Rollback Values Templates Builder Policies Access Requests.
Local Open Scope string_scope.
Local Open Scope list_scope.

(** ** The start of an operation *)

(** The expiry that a deploy of [inst] may write: the old one, or that of a new TTL
    period. *)
Definition deploy_row (limit : Z) (inst i : StackInstance) : Prop :=
  i = inst \/ ((0 < si_TTLMinutes inst)%Z /\
    exists now, i = si_set_ExpiresAt (Some (deployExpiry (si_ExpiresAt inst) (si_TTLMinutes inst) limit now)) inst).

Definition deploy_start (limit : Z) (inst : StackInstance) (op : dbop) : Prop :=
  match op with
  | InsertLog l => dl_StackInstanceID l = si_ID inst /\ dl_Action l = DeployActionDeploy
  | SaveInstance i => exists i0 now, deploy_row limit inst i0 /\
      (i = si_set_UpdatedAt now i0 \/ i = si_set_UpdatedAt now (deployingInstance i0))
  | ClearExpiryWarning id _ => id = si_ID inst
  | _ => False
  end.
Definition rollback_start (inst : StackInstance) (op : dbop) : Prop :=
  match op with
  | InsertLog l => dl_StackInstanceID l = si_ID inst /\ dl_Action l = DeployActionRollback
  | SaveInstance i =>
      exists now, i = (inst |> si_set_Status StackStatusDeploying |> si_set_ErrorMessage "" |> si_set_UpdatedAt now)
  | ClearExpiryWarning id _ => id = si_ID inst
  | _ => False
  end.

(** The statuses from which a request starts, and its statements. *)
Definition starts_from (q : Request) (status : string) : Prop :=
  match q with
  | ReqDeploy => status ∈ deployable
  | ReqStop => status ∈ stoppable
  | ReqClean => status ∈ hasResources
  | ReqDelete => status ∉ busy
  | ReqRollback _ => status ∈ rollbackable
  end.
Definition start_statement (limit : Z) (q : Request) (inst : StackInstance) (op : dbop) : Prop :=
  match q with
  | ReqDeploy => deploy_start limit inst op
  | ReqStop => stop_start inst op
  | ReqClean => clean_start false inst op
  | ReqDelete => if bool_decide (si_Status inst ∈ hasResources) then clean_start true inst op
                 else op = RemoveInstance (si_ID inst)
  | ReqRollback _ => rollback_start inst op
  end.

(** The row of the instance that a request reads: its first statement is that read. *)
Definition row_read (id : string) (w : World) : option StackInstance := st_instances (w_db (step w).2) !! id.

Lemma row_read_id id w inst : keyed (w_db w) -> row_read id w = Some inst -> si_ID inst = id.
Proof. intros Hw. by apply (ev_keyed (fun _ => True) _ _ (evolves_step _ w) Hw). Qed.

(** Any event of a request of caller [c] that read [row]: the caller may modify that
    row and the request starts from its status, and the event is a message or a
    statement that starts the operation on that row. *)
Definition request_event (limit : Z) (q : Request) (c : Caller) (row : option StackInstance) (e : event) : Prop :=
  exists inst, row = Some inst /\ canModifyInstance c inst = true /\ starts_from q (si_Status inst) /\
    (message e \/ exists op rows, e = EvWrite op rows /\ start_statement limit q inst op).

(** ** The parts of a handler *)

Section parts.
Context `{Template} `{Yaml} `{SnapshotJSON} `{AnyYaml}.
Context (h : InstanceHandler) (definitions : nat -> string -> res StackDefinition).
Context (chartConfigs : nat -> string -> res (list ChartConfig)) (lookups : nat -> Lookups).
Context (Ev : event -> Prop).

Lemma own_load_instance c id :
  own Ev (load_instance c id) (fun r => forall inst, r = inl inst -> si_ID inst = id /\ canModifyInstance c inst = true).
Proof.
  unfold load_instance. eapply own_bind; [apply own_FindByID|]. intros [i|e] Hi; [|by apply own_ret].
  apply own_ret. intros inst. destruct (canModifyInstance c i) eqn:E; [|done]. cbn. intros [= <-]. auto.
Qed.
Lemma own_load_charts inst : own Ev (load_charts definitions chartConfigs inst) (fun _ => True).
Proof. unfold load_charts. own_steps idtac. Qed.
Lemma own_log_FindByID id : own Ev (log_FindByID id) (fun _ => True).
Proof. unfold log_FindByID. own_steps idtac. Qed.

Lemma own_fireInstanceHook d ev inst :
  Ev (EvHook ev inst "" (mkOpts [] [])) -> own Ev (fireInstanceHook d ev inst) (fun _ => True).
Proof.
  intros He. unfold fireInstanceHook. destruct d; [|by apply own_ret]. eapply own_bind; [apply own_step|]. intros st _.
  eapply own_bind; [by apply own_emit|]. intros. by apply own_ret.
Qed.

Lemma own_rollback_target inst def charts target :
  own Ev (rollback_target h lookups inst def charts target) (fun _ => True).
Proof.
  unfold rollback_target, loadRollbackTarget. case_match; [by apply own_ret|].
  eapply (own_bind _ _ _ (fun _ => True)).
  - case_match; [by apply own_ret|]. eapply own_bind; [apply own_log_FindByID|]. intros. by apply own_ret.
  - intros [t|a] _; [|by apply own_ret]. eapply own_bind; [apply own_external|]. intros. by apply own_ret.
Qed.

Context (m : Manager) (Hmsg : forall e, message e -> Ev e).

Lemma own_restart_ttl inst :
  (forall i now, deploy_row (maxTTL (h_maxTTLMinutes h)) inst i -> may_write Ev (SaveInstance (si_set_UpdatedAt now i))) ->
  (forall e, may_write Ev (ClearExpiryWarning (si_ID inst) e)) ->
  own Ev (restart_ttl h inst) (deploy_row (maxTTL (h_maxTTLMinutes h)) inst).
Proof.
  intros Hs Hc. unfold restart_ttl. destruct (0 <? si_TTLMinutes inst)%Z eqn:E; cbn [negb]; [|apply own_ret; by left].
  apply Z.ltb_lt in E. eapply own_bind; [apply own_clock|]. intros now _. set (i := si_set_ExpiresAt _ inst).
  assert (deploy_row (maxTTL (h_maxTTLMinutes h)) inst i) as Hi by (right; eauto).
  eapply own_bind; [|intros _ _; by apply own_ret]. apply own_Update; [intros; by apply Hs|apply Hc].
Qed.

(** The start of a deploy and of a rollback; those of a stop and a clean are in
    [Policies]. *)
Lemma own_Deploy t req :
  (forall l, dl_StackInstanceID l = si_ID (dr_Instance req) -> dl_Action l = DeployActionDeploy -> may_write Ev (InsertLog l)) ->
  (forall now, may_write Ev (SaveInstance (si_set_UpdatedAt now (deployingInstance (dr_Instance req))))) ->
  (forall e, may_write Ev (ClearExpiryWarning (si_ID (dr_Instance req)) e)) ->
  own Ev (Deploy m t req) (fun r => forall reg args l, r = Ok (reg, args, l) ->
    da_instance args = deployingInstance (dr_Instance req) /\ Permutation (da_charts args) (dr_Charts req) /\
    dl_StackInstanceID l = si_ID (dr_Instance req)).
Proof.
  intros Hl Hs Hc. unfold Deploy. eapply own_bind; [apply own_ctxErr|]. intros [e|] _; [by apply own_ret|].
  eapply own_bind; [apply own_isDown|]. intros d _. case_match; [by apply own_ret|].
  case_match; [|by apply own_ret]. case_match. case_match. case_match. unfold namespacePhase.
  eapply (own_bind _ _ _ (fun _ => True)).
  { case_match; [by apply own_ret|]. eapply own_bind; [apply own_step|]. intros. by apply own_ret. }
  intros [e|] _; [by apply own_ret|]. eapply own_bind; [apply own_step|]. intros st _.
  eapply own_bind; [apply own_modMem|]. intros _ _. cbv zeta.
  eapply own_bind; [apply own_createLogAndUpdate; [by apply Hl|apply Hs|apply Hc]|].
  intros [e|] _; [by apply own_ret|].
  eapply (own_bind _ _ _ (fun _ => True)); [eauto with own|]. intros _ _.
  eapply (own_bind _ _ _ (fun _ => True)); [eauto with own|]. intros _ _.
  apply own_ret. intros reg args l [= <- <- <-]. cbn. split_and!; [done| |done]. symmetry. apply sort_by_perm.
Qed.

Lemma own_Rollback t req :
  (forall op, rollback_start (rr_Instance req) op -> may_write Ev op) ->
  own Ev (Rollback m t req) (fun r => forall reg job l, r = Ok (reg, job, l) ->
    si_ID (rj_instance job) = si_ID (rr_Instance req) /\
    si_Namespace (rj_instance job) = si_Namespace (rr_Instance req) /\
    Permutation (rj_charts job) (rr_Charts req) /\ dl_StackInstanceID l = si_ID (rr_Instance req)).
Proof.
  intros Hop. unfold Rollback. eapply own_bind; [apply own_ctxErr|]. intros [e|] _; [by apply own_ret|].
  eapply own_bind; [apply own_isDown|]. intros d _. case_match; [by apply own_ret|].
  case_match; [|by apply own_ret]. case_match. case_match. case_match. cbv zeta.
  eapply (own_bind _ _ _ (fun _ => True)).
  { case_match; [|by apply own_ret]. unfold previousRevisionBranch. own_steps idtac. }
  intros branch _. eapply own_bind; [apply own_step|]. intros st _.
  eapply own_bind; [apply own_modMem|]. intros _ _.
  eapply own_bind; [apply own_createLogAndUpdate|].
  - apply Hop. done.
  - intros now. apply Hop. by exists now.
  - intros e. by apply Hop.
  - intros [e|] _; [by apply own_ret|].
    eapply (own_bind _ _ _ (fun _ => True)); [eauto with own|]. intros _ _.
    eapply (own_bind _ _ _ (fun _ => True)); [eauto with own|]. intros _ _.
    apply own_ret. intros reg job l [= <- <- <-]. cbn. split_and!; try done. symmetry. apply sort_by_perm.
Qed.
End parts.

(** ** What the operation in the background does *)

(** [o] is an operation on the row [inst], with a log of its own. *)
Definition operation_of (inst : StackInstance) (o : Operation) : Prop :=
  dl_StackInstanceID (operation_log o) = si_ID inst /\
  let row := match o with
             | StartDeploy _ args _ => da_instance args
             | StartStop _ i _ _ | StartClean _ _ i _ _ => i
             | StartRollback _ job _ => rj_instance job
             end in
  si_ID row = si_ID inst /\ si_Namespace row = si_Namespace inst.

(** An event that stays with one instance, one log and one namespace. *)
Definition confined_event (iid lid namespace : string) (e : event) : Prop :=
  match e with
  | EvWrite op _ => on_instance iid op \/ on_log lid op
  | EvHelmInstall _ ns _ _ _ _ _ | EvHelmUninstall _ ns _ _ | EvHelmRollback _ ns _ => ns = namespace
  | EvK8s call arg => call ∈ deployCalls \/ (call = "delete namespace" /\ arg = namespace)
  | e => message e
  end.

Lemma final_stmt_confined sts iid lid op : final_stmt sts iid lid op -> on_instance iid op \/ on_log lid op.
Proof. destruct op; cbn; try done; naive_solver. Qed.

Lemma own_run_operation `{QuantityOps} m fuel inst o : operation_of inst o ->
  own (confined_event (si_ID inst) (dl_ID (operation_log o)) (si_Namespace inst)) (run_operation m fuel o) (fun _ => True).
Proof.
  intros (_ & Ei & En). unfold run_operation. destruct o as [reg a l|helm i l charts|helm k8s i l charts|reg job l];
    cbn in *; rewrite <- Ei, <- En.
  - eapply (own_executeDeploy m _ (si_ID (da_instance a)) (dl_ID l)) with (namespace := si_Namespace (da_instance a));
      try done; try (by left); try (by right); [by intros []|].
    intros ch _ _ e (r & ->). done.
  - eapply (own_bind _ _ _ (fun _ => True)); [|intros; by apply own_ret].
    apply own_executeStop; try done; [by intros []|]. intros op Hop rows. by eapply final_stmt_confined.
  - apply own_executeClean; try done; try (by left); [by intros []| |by right]. intros op Hop rows. by eapply final_stmt_confined.
  - apply own_executeRollback; try done; try (by left); [by intros []| |].
    + intros op Hop rows. cbn. unfold rollback_stmt in Hop. destruct op; try (by eapply final_stmt_confined). cbn in *. naive_solver.
    + intros ??????? (t & ch & _ & _ & _ & _ & -> & _). done.
Qed.

(** ** What a request writes *)

Section requests.
Context `{Template} `{Yaml} `{SnapshotJSON} `{AnyYaml}.
Context (h : InstanceHandler) (definitions : nat -> string -> res StackDefinition).
Context (chartConfigs : nat -> string -> res (list ChartConfig)) (lookups : nat -> Lookups).
Context (c : Caller) (id : string) (w : World) (Hw : keyed (w_db w)).
Abbreviation event_of q := (request_event (maxTTL (h_maxTTLMinutes h)) q c (row_read id w)).

(** The row on which a request starts, and what it starts there. *)
Definition started (q : Request) (r : Handled) : Prop :=
  forall o, r.2 = Some o -> exists inst,
    row_read id w = Some inst /\ canModifyInstance c inst = true /\ starts_from q (si_Status inst) /\ operation_of inst o.

Lemma started_none q a : started q (a, None).
Proof. done. Qed.
Lemma started_some q inst a o :
  row_read id w = Some inst -> canModifyInstance c inst = true -> starts_from q (si_Status inst) -> operation_of inst o ->
  started q (a, Some o).
Proof. intros ???? ? [= <-]. eauto. Qed.
Lemma event_message q inst e :
  row_read id w = Some inst -> canModifyInstance c inst = true -> starts_from q (si_Status inst) -> message e -> event_of q e.
Proof. intros. exists inst. auto. Qed.
Lemma event_write q inst op :
  row_read id w = Some inst -> canModifyInstance c inst = true -> starts_from q (si_Status inst) ->
  start_statement (maxTTL (h_maxTTLMinutes h)) q inst op -> may_write (event_of q) op.
Proof. intros. exists inst. eauto 8. Qed.

Lemma own_revokeStreams (Ev : event -> Prop) i : Ev (EvStreamsClosed i) -> own Ev (revokeStreams h i) (fun _ => True).
Proof. intros. apply own_when. intros _. by apply own_emit. Qed.

(** In this world: the request reads the row, and the rest of it runs in any world. *)
Lemma at_ret Ev {A} (a : A) (Φ : A -> Prop) : Φ a -> own_at Ev w (ret a) Φ.
Proof. intros Ha. split; [apply evolves_refl|done]. Qed.
Lemma at_load Ev {B} (k : StackInstance + Response -> M B) Φ :
  (forall a, own Ev (k (inr a)) Φ) ->
  (forall inst, row_read id w = Some inst -> canModifyInstance c inst = true -> own Ev (k (inl inst)) Φ) ->
  own_at Ev w (bind (load_instance c id) k) Φ.
Proof.
  intros Ha Hi. assert (E : (load_instance c id w).2 = (step w).2 /\ forall inst, (load_instance c id w).1 = inl inst ->
    row_read id w = Some inst /\ canModifyInstance c inst = true).
  { unfold load_instance, instance_FindByID, row_read. rewrite !bind_eq. unfold query, ret. destruct (step w) as [st w1].
    destruct (e_fault st); [done|]. cbn [fst snd]. destruct (st_instances (w_db w1) !! id) as [i|]; [|done]. cbn [fst snd].
    split; [done|]. destruct (canModifyInstance c i) eqn:Ec; [|done]. by intros inst [= <-]. }
  destruct E as [Ew Er]. unfold own_at. rewrite bind_eq. pose proof (evolves_step Ev w) as Es. rewrite <- Ew in Es.
  assert (Hk : keyed (w_db (load_instance c id w).2)) by (by apply (ev_keyed _ _ _ Es)).
  destruct ((load_instance c id w).1) as [inst|a].
  - destruct (Er inst eq_refl) as [Hr Hc]. destruct (Hi inst Hr Hc _ Hk). split; [by eapply evolves_trans|done].
  - destruct (Ha a _ Hk). split; [by eapply evolves_trans|done].
Qed.

Ltac refused := first [apply own_ret, started_none | apply at_ret, started_none].

Lemma own_DeployInstance :
  own_at (event_of ReqDeploy) w (DeployInstance h definitions chartConfigs lookups c id) (started ReqDeploy).
Proof.
  unfold DeployInstance, refuse. case_match; [refused|]. destruct (h_deployManager h) as [m|]; [|refused].
  apply at_load; [intros; refused|]. intros inst Eid Hc. case_bool_decide as Hs; cbn [negb]; [|refused].
  eapply own_bind; [apply own_clock|]. intros now _. case_match; [refused|].
  eapply own_bind; [apply own_load_charts|]. intros [[def charts]|a] _; [|refused].
  case_match; [refused|]. case_match; [refused|].
  eapply own_bind; [apply own_external|]. intros [[values branches]|e] _; [|refused].
  assert (Hst : forall op, deploy_start (maxTTL (h_maxTTLMinutes h)) inst op -> may_write (event_of ReqDeploy) op).
  { intros op. by apply (event_write ReqDeploy inst). }
  eapply own_bind; [apply own_restart_ttl|].
  { intros i t Hd. apply Hst. exists i, t. auto. }
  { intros e. by apply Hst. }
  intros i Hd. assert (Ei : si_ID i = si_ID inst /\ si_Namespace i = si_Namespace inst) by (destruct Hd as [->|(_ & t & ->)]; done).
  destruct Ei as [Ei En]. eapply own_bind; [apply own_Deploy|].
  - intros e He. by apply (event_message ReqDeploy inst).
  - intros l El Ea. apply Hst. cbn in *. by rewrite El, Ei.
  - intros t. apply Hst. exists i, t. auto.
  - intros e. apply Hst. cbn. done.
  - intros [[[reg args] l]|e] Hr; [|case_match; refused]. destruct (Hr _ _ _ eq_refl) as (Ea & _ & El). cbn in Ea, El.
    apply own_ret. eapply started_some; [exact Eid|done|done|]. split; cbn; [by rewrite El|]. by rewrite Ea.
Qed.

Lemma own_StopInstance : own_at (event_of ReqStop) w (StopInstance h definitions chartConfigs c id) (started ReqStop).
Proof.
  unfold StopInstance, refuse. case_match; [refused|]. destruct (h_deployManager h) as [m|]; [|refused].
  apply at_load; [intros; refused|]. intros inst Eid Hc. case_bool_decide as Hs; cbn [negb]; [|refused].
  eapply own_bind; [apply own_load_charts|]. intros [[def charts]|a] _; [|refused].
  case_match; [refused|]. eapply own_bind; [apply own_StopWithCharts|].
  { intros e He. by apply (event_message ReqStop inst). } { intros op Hop. by apply (event_write ReqStop inst). }
  intros [[[? ?] ?]|e] Hr; [|refused].
  eapply own_bind; [apply own_revokeStreams; by apply (event_message ReqStop inst)|]. intros _ _. apply own_ret.
  eapply started_some; [exact Eid|done|done|]. split; [|done]. by eapply Hr.
Qed.

Lemma own_CleanInstance : own_at (event_of ReqClean) w (CleanInstance h definitions chartConfigs c id) (started ReqClean).
Proof.
  unfold CleanInstance, refuse. case_match; [refused|]. destruct (h_deployManager h) as [m|]; [|refused].
  apply at_load; [intros; refused|]. intros inst Eid Hc. case_bool_decide as Hs; cbn [negb]; [|refused].
  eapply own_bind; [apply own_load_charts|]. intros [[def charts]|a] _; [|refused].
  eapply own_bind; [apply own_startClean|].
  { intros e He. by apply (event_message ReqClean inst). } { intros op Hop. by apply (event_write ReqClean inst). }
  intros [[[[? ?] ?] ?]|e] Hr; [|case_match; refused].
  eapply own_bind; [apply own_revokeStreams; by apply (event_message ReqClean inst)|]. intros _ _. apply own_ret.
  eapply started_some; [exact Eid|done|done|]. split; [|done]. by eapply Hr.
Qed.

Lemma own_deleteRecord (Ev : event -> Prop) i : may_write Ev (RemoveInstance i) -> own Ev (deleteRecord i) (fun _ => True).
Proof.
  intros Hr. apply own_RunInTx. unfold deleteDependents. eapply (own_bind _ _ _ (fun _ => True)).
  - eapply own_bind; [apply own_step|]. intros. by apply own_ret.
  - intros [e|] _; [by apply own_ret|by apply own_instance_Delete].
Qed.

Lemma own_DeleteInstance_request : own_at (event_of ReqDelete) w (DeleteInstance h definitions chartConfigs c id) (started ReqDelete).
Proof.
  unfold DeleteInstance, refuse. case_match; [refused|].
  apply at_load; [intros; refused|]. intros inst Eid Hc.
  eapply (own_bind _ _ _ (fun r => forall o, r = inl (Some o) -> operation_of inst o /\ si_Status inst ∉ busy)).
  2: { intros [[o|]|a] Ho; apply own_ret; try done. destruct (Ho o eq_refl). by eapply started_some. }
  unfold delete_instance. case_bool_decide as Hs; [by apply own_ret|].
  assert (Hmsg : forall e, message e -> event_of ReqDelete e) by (intros; by apply (event_message ReqDelete inst)).
  eapply own_bind; [apply own_fireInstanceHook; by apply Hmsg|]. intros [e|] _; [by apply own_ret|].
  assert (Hst : forall op, start_statement (maxTTL (h_maxTTLMinutes h)) ReqDelete inst op -> may_write (event_of ReqDelete) op).
  { intros op. by apply (event_write ReqDelete inst). }
  case_bool_decide as Hr.
  - destruct (h_deployManager h) as [m|]; [|by apply own_ret]. eapply own_bind; [apply own_load_charts|].
    intros [[def charts]|a] _; [|by apply own_ret]. eapply own_bind; [apply own_startClean; [done|]|].
    { intros op Hop. apply Hst. cbn. by rewrite bool_decide_true. }
    intros [[[[? ?] l] ?]|e] Hl; [|case_match; by apply own_ret].
    eapply own_bind; [apply own_revokeStreams; by apply Hmsg|]. intros _ _. apply own_ret.
    intros o [= <-]. split; [|done]. split; [by eapply Hl|done].
  - case_match; [by apply own_ret|]. eapply own_bind; [apply own_deleteRecord, Hst; cbn; by rewrite bool_decide_false|].
    intros [e|] _; [by apply own_ret|]. eapply own_bind; [apply own_revokeStreams; by apply Hmsg|]. intros _ _.
    eapply (own_bind _ _ _ (fun _ => True)); [|intros; by apply own_ret]. unfold afterInstanceDeleted, firePostHook.
    eapply (own_bind _ _ _ (fun _ => True)); [case_match; [|by apply own_ret]|intros _ _].
    { apply own_when. intros _. by apply own_broadcastInstanceDeleted. }
    do 2 (eapply own_bind; [eapply own_bind; [apply own_fireInstanceHook; by apply Hmsg|]; intros _ _; by apply (own_ret _ (fun _ => True))|intros _ _]).
    apply own_when. intros _. apply own_emit. by apply Hmsg.
Qed.

Lemma own_RollbackInstance body :
  own_at (event_of (ReqRollback body)) w (RollbackInstance h definitions chartConfigs lookups c id body) (started (ReqRollback body)).
Proof.
  unfold RollbackInstance, refuse. case_match; [refused|]. destruct (h_deployManager h) as [m|]; [|refused].
  apply at_load; [intros; refused|]. intros inst Eid Hc. case_bool_decide as Hs; cbn [negb]; [|refused].
  destruct (match body with Ok _ => _ | Err _ => _ end) as [target_id|a]; [|refused].
  eapply own_bind; [apply own_load_charts|]. intros [[def charts]|a] _; [|refused].
  case_match; [refused|]. eapply own_bind; [apply own_rollback_target|]. intros [[target drift]|a] _; [|refused].
  eapply own_bind; [apply own_Rollback|].
  { intros e He. by apply (event_message (ReqRollback body) inst). }
  { intros op Hop. by apply (event_write (ReqRollback body) inst). }
  intros [[[reg job] l]|e] Hr; [|refused]. destruct (Hr _ _ _ eq_refl) as (Ei & En & _ & El). apply own_ret.
  eapply started_some; [exact Eid|done|done|]. split; [done|]. cbn. by rewrite Ei, En.
Qed.

Lemma own_request_handle q : own_at (event_of q) w (handle h definitions chartConfigs lookups q c id) (started q).
Proof.
  destruct q; cbn [handle].
  - apply own_DeployInstance.
  - apply own_StopInstance.
  - apply own_CleanInstance.
  - apply own_DeleteInstance_request.
  - apply own_RollbackInstance.
Qed.
End requests.

(** ** Requests of strangers *)

(** A statement that gives the instance to the user. *)
Definition gives (id user : string) (op : dbop) : Prop :=
  match op with
  | InsertInstance i | SaveInstance i => si_ID i = id /\ si_OwnerID i = user
  | _ => False
  end.
Abbreviation foreign id user := (row_all (fun i => si_OwnerID i <> user) id).

Lemma exec_foreign dbnow op s id user : ~ gives id user op -> foreign id user s -> foreign id user (exec dbnow op s).2.
Proof.
  unfold row_all. intros Hn Hs. exec_cases op; try done; cbn in Hn.
  all: try (apply update_where_inv_all; [|done]; by intros _ r Hr _).
  - destruct (st_instances s !! si_ID i) eqn:E; cbn; [done|]. intros j.
    destruct (decide (si_ID i = id)) as [<-|]; [|by rewrite lookup_insert_ne; auto].
    rewrite lookup_insert_eq. intros [= <-]. cbn. tauto.
  - destruct (st_instances s !! si_ID i) eqn:E; cbn.
    + apply update_where_inv_all; [|done]. intros Hi r Hr _. cbn. tauto.
    + intros j. destruct (decide (si_ID i = id)) as [<-|]; [|by rewrite lookup_insert_ne; auto].
      rewrite lookup_insert_eq. intros [= <-]. cbn. tauto.
  - apply update_where_inv_all; [|done]. intros _ r Hr _. by destruct deleteAfterClean.
  - intros j. cbn. destruct (decide (id0 = id)) as [->|]; [by rewrite lookup_delete_eq|].
    rewrite lookup_delete_ne by done. apply Hs.
  - destruct (st_logs s !! dl_ID l); done.
Qed.

(** The answers of a request that may not modify the instance: forbidden, or the error
    of the read. *)
Definition stranger_answer (a : Response) : Prop :=
  a = answer 403 msgInstanceModifyForbidden \/ a = answer 503 msgDeployerNotConfigured \/
  exists e, a = error_answer (EDB "find_by_id" e) entityStackInstance.

Section stranger.
Context `{Template} `{Yaml} `{SnapshotJSON} `{AnyYaml}.
Context (h : InstanceHandler) (definitions : nat -> string -> res StackDefinition).
Context (chartConfigs : nat -> string -> res (list ChartConfig)) (lookups : nat -> Lookups).
Context (c : Caller) (id : string) (Hrole : ca_Role c <> roleAdmin /\ ca_Role c <> roleDevOps).

Lemma stranger_load w :
  foreign id (ca_UserID c) (w_db w) -> env_ok (fun op => ~ gives id (ca_UserID c) op) w ->
  exists a, load_instance c id w = (inr a, (step w).2) /\ stranger_answer a.
Proof.
  intros Hw He. assert (Hs : foreign id (ca_UserID c) (w_db (step w).2)).
  { eapply (db_steps_inv (fun op => ~ gives id (ca_UserID c) op)), Hw; [intros; by apply exec_foreign|].
    eapply db_steps_mono, (ev_db (fun _ => False)), He; [intros op [Hf|?]; [destruct (Hf 0%Z)|done]|apply evolves_step]. }
  unfold load_instance, instance_FindByID. rewrite !bind_eq. unfold query, ret. destruct (step w) as [st w1]. cbn [snd] in Hs.
  destruct (e_fault st) as [e|]; cbn [fst snd].
  { eexists. split; [done|]. right. right. by eexists. }
  destruct (st_instances (w_db w1) !! id) as [i|] eqn:E; cbn [fst snd].
  2: { eexists. split; [done|]. right. right. by eexists. }
  assert (Hf : canModifyInstance c i = false).
  { unfold canModifyInstance, canModifyInstanceAs. rewrite !bool_decide_false by tauto. cbn.
    rewrite bool_decide_false by (apply (Hs i), E). apply andb_false_r. }
  rewrite Hf. cbn. eexists. split; [done|by left].
Qed.

(** The handler reads the row, and that is all it does. *)
Lemma stranger_handle q w :
  foreign id (ca_UserID c) (w_db w) -> env_ok (fun op => ~ gives id (ca_UserID c) op) w ->
  exists a w', handle h definitions chartConfigs lookups q c id w = ((a, None), w') /\
    (w' = w \/ w' = (step w).2) /\ (stranger_answer a \/ a = answer 400 msgInstanceIDRequired).
Proof.
  intros Hw He. destruct (stranger_load w Hw He) as (a & Ha & Hs).
  destruct (empty id) eqn:Ei.
  { exists (answer 400 msgInstanceIDRequired), w. split_and!; [|by left|by right].
    destruct q; cbn [handle]; unfold DeployInstance, StopInstance, CleanInstance, DeleteInstance, RollbackInstance; by rewrite Ei. }
  destruct (h_deployManager h) as [m|] eqn:Em; [|assert (q = ReqDelete \/ q <> ReqDelete) as [->|Hq] by (destruct q; auto)].
  - exists a, (step w).2. split_and!; [|by right|by left]. destruct q; cbn [handle];
      unfold DeployInstance, StopInstance, CleanInstance, DeleteInstance, RollbackInstance; rewrite Ei, ?Em, bind_eq, Ha; done.
  - exists a, (step w).2. split_and!; [|by right|by left]. cbn [handle]. unfold DeleteInstance. by rewrite Ei, bind_eq, Ha.
  - exists (answer 503 msgDeployerNotConfigured), w. split_and!; [|by left|left; right; by left]. destruct q; try done; cbn [handle];
      unfold DeployInstance, StopInstance, CleanInstance, RollbackInstance; by rewrite Ei, Em.
Qed.
End stranger.

(** C5. A lifecycle request touches one instance.  The first statement of a deploy,
    stop, clean, delete or rollback request for [id] reads the row of [id].  Whatever
    the other processes do and whatever fails, everything the request writes is the
    start of its own operation on that row, when the caller may modify that row and the
    operation may start from its status; when not, or when there is no such row, it
    writes nothing, sends nothing and starts nothing.  The operation that it starts
    writes no other row and no log but its own, and all its Helm calls, and the
    deletion of a namespace, are in the namespace of the row that was read. *)
Theorem request_confined `{QuantityOps} `{Template} `{Yaml} `{SnapshotJSON} `{AnyYaml} h definitions chartConfigs lookups
    q c id m fuel w (Hw : keyed (w_db w)) :
  own_at (request_event (maxTTL (h_maxTTLMinutes h)) q c (row_read id w)) w
    (handle h definitions chartConfigs lookups q c id)
    (fun r => forall o, r.2 = Some o -> exists inst,
       row_read id w = Some inst /\ canModifyInstance c inst = true /\ starts_from q (si_Status inst) /\
       dl_StackInstanceID (operation_log o) = id /\
       own (confined_event id (dl_ID (operation_log o)) (si_Namespace inst)) (run_operation m fuel o) (fun _ => True)).
Proof.
  destruct (own_request_handle h definitions chartConfigs lookups c id w Hw q) as [E Hs]. split; [exact E|].
  intros o Ho. destruct (Hs o Ho) as (inst & Hr & Hc & Hst & Hop). pose proof (row_read_id id w inst Hw Hr) as <-.
  exists inst. split_and!; try done; [apply Hop|by apply own_run_operation].
Qed.

(** A stranger changes nothing.  A caller that is neither admin nor devops, while
    the instance belongs to somebody else (and no other process gives it to the
    caller), gets an error and starts no operation; the request reads the row at most,
    so it leaves the database to the other processes, the trace and the memory of the
    manager as they were. *)
Theorem stranger_refused `{Template} `{Yaml} `{SnapshotJSON} `{AnyYaml} h definitions chartConfigs lookups q c id w
    (Hrole : ca_Role c <> roleAdmin /\ ca_Role c <> roleDevOps)
    (Howner : foreign id (ca_UserID c) (w_db w))
    (Hothers : env_ok (fun op => ~ gives id (ca_UserID c) op) w) :
  exists a w', handle h definitions chartConfigs lookups q c id w = ((a, None), w') /\
    rs_Status a ∈ [400; 403; 404; 409; 499; 500; 501; 503]%Z /\
    (w' = w \/ w' = (step w).2) /\ w_trace w' = w_trace w /\ w_mem w' = w_mem w.
Proof.
  destruct (stranger_handle h definitions chartConfigs lookups c id Hrole q w Howner Hothers) as (a & w' & E & Hw & Ha).
  exists a, w'. split_and!; try done; try (by destruct Hw as [-> | ->]).
  destruct Ha as [[-> | [-> | [e ->]]] | ->]; try (cbn; set_solver). unfold error_answer, answer. cbn [rs_Status].
  destruct (mapError _ _) as [st msg] eqn:Em. apply mapError_safe in Em as [Em _]. cbn. set_solver.
Qed.

(** ** Examples *)

Section examples.
#[local] Existing Instances var_template tag_yaml one_snapshot.
#[local] Instance text_yaml : AnyYaml := {
  document := string;
  Decode s := Ok (if bool_decide (s = "null") then None else Some s);
  empty_document := "";
  DeepEqual a b := bool_decide (a = b)
}.

Definition one_cluster : Manager :=
  mkManager true true true true true false
    (Some sample_resolver) None "pod-a" (10 * Minute) ["oci://registry.example/charts"] "" "" "" [].
Definition plain_handler : InstanceHandler := mkHandler (Some one_cluster) None true true true true 43200 0.
Definition no_lookups : Lookups := mkLookups None None None None None None None None None.

(** The row of [sample_store] belongs to alice. *)
Lemma stranger_refused_witness :
  let c := mkCaller "mallory" "mallory" roleUser in
  exists a w', handle plain_handler (fun _ _ => Err ErrNotFound) (fun _ _ => Err ErrNotFound) (fun _ => no_lookups)
      ReqStop c "i1" (calm_world sample_store) = ((a, None), w') /\
    rs_Status a ∈ [400; 403; 404; 409; 499; 500; 501; 503]%Z /\
    (w' = calm_world sample_store \/ w' = (step (calm_world sample_store)).2) /\
    w_trace w' = w_trace (calm_world sample_store) /\ w_mem w' = w_mem (calm_world sample_store).
Proof.
  apply stranger_refused.
  - split; discriminate.
  - intros i. cbn. rewrite lookup_singleton_Some. intros [_ <-]. discriminate.
  - intros n. apply Forall_nil_2.
Defined.

(** A stop by the owner: the operation runs on the row of [sample_store]. *)
#[local] Existing Instance milli_ops.
Definition owner : Caller := mkCaller "alice" "alice" roleUser.
Definition stop_by_owner : World -> Handled * World :=
  handle plain_handler (fun _ _ => Ok shop_definition) (fun _ _ => Ok shop_charts) (fun _ => no_lookups) ReqStop owner "i1".
Lemma sample_store_keyed : keyed sample_store.
Proof. split; intros id x; cbn; rewrite ?lookup_insert_Some, ?lookup_singleton_Some; naive_solver. Qed.

Lemma request_confined_witness :
  exists o inst, (stop_by_owner (calm_world sample_store)).1.2 = Some o /\ st_instances sample_store !! "i1" = Some inst /\
    own (confined_event "i1" (dl_ID (operation_log o)) (si_Namespace inst)) (run_operation one_cluster 5 o) (fun _ => True).
Proof.
  destruct (request_confined plain_handler (fun _ _ => Ok shop_definition) (fun _ _ => Ok shop_charts) (fun _ => no_lookups)
    ReqStop owner "i1" one_cluster 5 (calm_world sample_store) sample_store_keyed) as [_ H].
  destruct ((stop_by_owner (calm_world sample_store)).1.2) as [o|] eqn:E.
  - destruct (H o E) as (inst & Hr & _ & _ & _ & Ho). exists o, inst. split; [reflexivity|]. split; [exact Hr|exact Ho].
  - vm_compute in E. discriminate.
Defined.
End examples.
