(* ===== verification/Outcomes.v ===== *)
(** * What an answer says about the database

    An accepted lifecycle request has recorded its operation: the log and the busy
    status of the row are written before the answer.  A refused one has written
    nothing.  [leaves m R] relates the result of a program to the events that it
    added to the trace; a rolled back transaction adds none. *)

From S2P Require Import Prelude Models Quota Store Hooks World Output Json Manager Ends Calm Deploy Teardown Rollback Values Templates Builder Policies Access Requests Answers.
Local Open Scope string_scope.
Local Open Scope list_scope.

(** A part of a trace without a statement. *)
Definition silent (e : event) : Prop := forall op rows, e <> EvWrite op rows.

(** No answer to a statement or a commit gets lost after it took effect. *)
Definition lossless (w : World) : Prop := forall n, e_lost (w_env w n) = false.

Section outcomes.
(** The part of a result that only holds without a lost answer: [K] is the condition. *)
Context (K : Prop).

(** ** The judgement *)

Definition leaves {A} (m : M A) (R : A -> list event -> Prop) : Prop := forall w, keyed (w_db w) ->
  (K -> lossless w) ->
  keyed (w_db (m w).2) /\ w_env (m w).2 = w_env w /\ exists tr, w_trace (m w).2 = tr ++ w_trace w /\ R (m w).1 tr.

(** Without an error [S] holds, with one no statement is left. *)
Definition all_or_nothing (S : list event -> Prop) (e : error) (tr : list event) : Prop :=
  match e with None => S tr | Some _ => K -> Forall silent tr end.

Section leaves_rules.

Lemma leaves_ret {A} (a : A) (R : A -> list event -> Prop) : R a [] -> leaves (ret a) R.
Proof. intros H w Hw _. split_and!; [done|done|]. by exists []. Qed.

Lemma leaves_bind {A B} (m : M A) (k : A -> M B) R1 (R : B -> list event -> Prop) :
  leaves m R1 -> (forall a tr1, R1 a tr1 -> leaves (k a) (fun b tr2 => R b (tr2 ++ tr1))) -> leaves (bind m k) R.
Proof.
  intros Hm Hk w Hw Hl. rewrite bind_eq. destruct (Hm w Hw Hl) as (Hw1 & Ee1 & tr1 & E1 & H1).
  destruct (Hk _ _ H1 _ Hw1) as (Hw2 & Ee2 & tr2 & E2 & H2); [unfold lossless; by rewrite Ee1|].
  split_and!; [done|congruence|]. exists (tr2 ++ tr1). by rewrite E2, E1, app_assoc.
Qed.

Lemma leaves_post {A} (m : M A) (R1 R : A -> list event -> Prop) :
  leaves m R1 -> (forall a tr, R1 a tr -> R a tr) -> leaves m R.
Proof.
  intros Hm H w Hw Hl. destruct (Hm w Hw Hl) as (Hw1 & Ee & tr & E & H1). split_and!; [done|done|]. exists tr. auto.
Qed.

(** A program that stays with [Ev] adds events of [Ev]. *)
Lemma leaves_own {A} Ev (m : M A) Φ : own Ev m Φ -> leaves m (fun a tr => Φ a /\ Forall Ev tr).
Proof.
  intros Hm w Hw _. destruct (Hm w Hw) as [E Ha]. split_and!; [by apply (ev_keyed _ _ _ E)|apply (ev_env _ _ _ E)|].
  destruct (ev_trace _ _ _ E) as (tr & Et & Hf). by exists tr.
Qed.
Lemma leaves_any {A} (m : M A) Φ : own (fun _ => True) m Φ -> leaves m (fun _ _ => True).
Proof. intros Hm. by eapply leaves_post; [by apply leaves_own|]. Qed.
Lemma leaves_nothing {A} (m : M A) Φ : own (fun _ => False) m Φ -> leaves m (fun a tr => Φ a /\ tr = []).
Proof.
  intros Hm. eapply leaves_post; [by apply leaves_own|]. intros a tr [Ha Hf]. split; [done|].
  by destruct Hf.
Qed.

(** A statement that is answered has changed the rows of the answer. *)
Lemma leaves_db op : leaves (db op) (fun r tr => forall n, r = Ok n ->
  EvWrite op n ∈ tr /\ exists t s, (exec t op s).1 = Ok n).
Proof.
  intros w Hw _. pose proof (evolves_db (fun _ => True) w op (fun _ => I)) as E.
  split_and!; [by apply (ev_keyed _ _ _ E)|apply (ev_env _ _ _ E)|].
  unfold db. rewrite step_eq. destruct (exec _ _ _) as [r s] eqn:Ex. set (st := w_env w _).
  assert (Ht : w_trace (step w).2 = w_trace w) by done. destruct (e_fault st) as [e|]; [destruct (e_lost st)|]; cbn.
  - by exists [EvWrite op (changed_rows r)].
  - by exists [].
  - exists [EvWrite op (changed_rows r)]. split; [done|]. intros n ->. split; [cbn; set_solver|].
    do 2 eexists. by rewrite Ex.
Qed.

(** A transaction without error has committed what its body did; one with an error has
    committed nothing, unless the answer to its commit got lost. *)
Lemma leaves_transaction_with {A} d (body : M (error * A)) R :
  leaves body R -> leaves (transaction_with d body) (fun r tr => (r.1 = None -> R r tr) /\ (r.1 <> None -> K -> tr = [])).
Proof.
  intros Hb w Hw Hl. unfold transaction_with. rewrite step_eq. set (w1 := (step w).2).
  assert (Hw1 : keyed (w_db w1)) by (eapply (ev_keyed (fun _ => True)), Hw; apply evolves_step).
  destruct (e_fault _); [split_and!; [done|done|]; by exists []|].
  destruct (Hb (set_quiet true w1) Hw1 Hl) as (Hw2 & Ee & tr & Et & Hr). destruct (body (set_quiet true w1)) as [[r a] w2].
  cbn [fst snd] in *. destruct r as [e|].
  { split_and!; [done|exact Ee|]. by exists []. }
  rewrite (step_eq w2). cbn [fst snd].
  assert (Hw3 : keyed (w_db (step w2).2)) by (eapply (ev_keyed (fun _ => True)), Hw2; apply evolves_step).
  assert (Ee3 : w_env (step w2).2 = w_env w) by (rewrite (ev_env _ _ _ (evolves_step (fun _ => True) w2)); exact Ee).
  destruct (e_fault _) as [e|]; [destruct (e_lost _) eqn:El|]; cbn.
  - split_and!; [done|exact Ee3|]. exists tr. split; [exact Et|]. split; [done|]. intros _ HK.
    rewrite Ee in El. cbn in El. by rewrite (Hl HK) in El.
  - split_and!; [done|exact Ee3|]. by exists [].
  - split_and!; [done|exact Ee3|]. exists tr. split; [exact Et|done].
Qed.

Lemma leaves_RunInTx (body : M error) S :
  leaves body (fun e tr => e = None -> S tr) -> leaves (RunInTx body) (all_or_nothing S).
Proof.
  intros Hb. unfold RunInTx. eapply (leaves_bind _ _ (fun e tr => (e = None -> S tr) /\ (e <> None -> K -> tr = []))).
  - unfold transaction. eapply leaves_bind.
    + apply (leaves_transaction_with _ _ (fun r tr => r.1 = None -> S tr)). eapply leaves_bind; [exact Hb|].
      intros e tr He. by apply leaves_ret.
    + intros r tr [Hr Hn]. apply leaves_ret. cbn. auto.
  - intros e tr [He Hn]. eapply leaves_bind; [apply leaves_nothing, own_ctxErr|]. intros c tr' [_ ->]. apply leaves_ret. cbn.
    destruct e as [e|]; [|by apply He]. assert (Hs : K -> Forall silent tr) by (intros HK; by rewrite Hn).
    unfold withContextErr. by repeat case_match.
Qed.
End leaves_rules.

(** ** The writes that start an operation *)

Section writes.

Lemma leaves_log_Create l : leaves (log_Create l) (fun e tr => e = None -> EvWrite (InsertLog l) 1 ∈ tr).
Proof.
  unfold log_Create. eapply leaves_bind; [apply leaves_db|]. intros r tr Hr. apply leaves_ret.
  destruct r as [n|]; [|done]. intros _. destruct (Hr n eq_refl) as [Hin (t & s & Hx)]. cbn in Hx.
  destruct (st_logs s !! dl_ID l); [done|]. by injection Hx as <-.
Qed.

Definition saved (i : StackInstance) (tr : list event) : Prop :=
  exists now rows, EvWrite (SaveInstance (si_set_UpdatedAt now i)) rows ∈ tr.
Definition set_cleaning_done (id : string) (del : bool) (tr : list event) : Prop :=
  exists now, EvWrite (SetCleaning id CleanStatuses del now) 1 ∈ tr.
Lemma saved_app i tr tr' : saved i tr \/ saved i tr' -> saved i (tr ++ tr').
Proof. intros [(now & rows & H)|(now & rows & H)]; exists now, rows; set_solver. Qed.
Lemma cleaning_app id del tr tr' :
  set_cleaning_done id del tr \/ set_cleaning_done id del tr' -> set_cleaning_done id del (tr ++ tr').
Proof. intros [(now & H)|(now & H)]; exists now; set_solver. Qed.

Lemma leaves_instance_Update i : leaves (instance_Update i) (fun e tr => e = None -> saved i tr).
Proof.
  unfold instance_Update. eapply leaves_bind; [apply leaves_nothing, own_clock|]. intros now ? [_ ->].
  eapply (leaves_bind _ _ (fun e tr => e = None -> saved i tr)).
  - unfold transaction. eapply leaves_bind.
    + apply (leaves_transaction_with _ _ (fun r tr => r.1 = None -> saved i tr)).
      eapply (leaves_bind _ _ (fun e tr => e = None -> saved i tr)); [|intros e tr He; by apply leaves_ret].
      eapply leaves_bind; [apply leaves_db|]. intros [n|e] tr1 _; [|by apply leaves_ret].
      eapply leaves_bind; [apply leaves_db|]. intros r tr2 Hr. apply leaves_ret. destruct r as [k|]; [|done].
      intros _. cbn. destruct (Hr k eq_refl) as [Hin _]. exists now, k. set_solver.
    + intros r tr [Hr _]. apply leaves_ret. cbn. auto.
  - intros [e|] tr Ht.
    + eapply leaves_bind; [apply leaves_nothing, own_ctxErr|]. intros c ? [_ ->].
      case_bool_decide as Hc; [|case_match; by apply leaves_ret]. apply leaves_ret. destruct c as [c|]; [|by destruct Hc].
      unfold withContextErr. repeat case_match; done.
    + apply leaves_ret. intros _. cbn. rewrite app_nil_r. by apply Ht.
Qed.

(** The conditional update of a clean: without an error it changed its row. *)
Lemma leaves_MarkCleanStart id del :
  leaves (MarkCleanStart id CleanStatuses del) (fun e tr => e = None -> set_cleaning_done id del tr).
Proof.
  unfold MarkCleanStart. eapply leaves_bind; [apply leaves_nothing, own_clock|]. intros now ? [_ ->].
  eapply leaves_bind; [apply leaves_db|]. intros r tr Hr. apply leaves_ret. destruct r as [n|]; [|done].
  destruct (Hr n eq_refl) as [Hin (t & s & Hx)]. destruct (n =? 0)%Z eqn:En; [done|]. apply Z.eqb_neq in En.
  intros _. exists now. cbn. rewrite app_nil_r. replace 1%Z with n; [done|].
  cbn in Hx. unfold on_instances, update_where in Hx. repeat case_match; cbn in Hx; congruence.
Qed.

Lemma leaves_createLogAndUpdate m i l : leaves (createLogAndUpdate m i l) (fun e tr =>
  (m_txRunner m = true -> all_or_nothing (fun _ => True) e tr) /\
  (e = None -> EvWrite (InsertLog l) 1 ∈ tr /\ saved i tr)).
Proof.
  unfold createLogAndUpdate. set (body := bind _ _).
  assert (Hb : leaves body (fun e tr => e = None -> EvWrite (InsertLog l) 1 ∈ tr /\ saved i tr)).
  { eapply leaves_bind; [apply leaves_log_Create|]. intros [e|] tr1 H1; [by apply leaves_ret|].
    eapply leaves_bind; [apply leaves_instance_Update|]. intros e tr2 H2. apply leaves_ret.
    destruct e; [done|]. intros _. specialize (H1 eq_refl). specialize (H2 eq_refl). cbn.
    split; [set_solver|apply saved_app; auto]. }
  destruct (m_txRunner m); [|by eapply leaves_post; [exact Hb|]]. eapply leaves_post; [apply leaves_RunInTx, Hb|].
  intros [e|] tr Hs; cbn in *; (split; [by auto|done]).
Qed.

Lemma leaves_startCleanRows m id l del : leaves (startCleanRows m id l del) (fun e tr =>
  (m_txRunner m = true -> all_or_nothing (fun _ => True) e tr) /\
  (e = None -> EvWrite (InsertLog l) 1 ∈ tr /\ set_cleaning_done id del tr)).
Proof.
  unfold startCleanRows. set (body := bind _ _).
  assert (Hb : leaves body (fun e tr => e = None -> EvWrite (InsertLog l) 1 ∈ tr /\ set_cleaning_done id del tr)).
  { eapply leaves_bind; [apply leaves_MarkCleanStart|]. intros [e|] tr1 H1; [by apply leaves_ret|].
    eapply leaves_bind; [apply leaves_log_Create|]. intros e tr2 H2. apply leaves_ret.
    destruct e; [done|]. intros _. specialize (H1 eq_refl). specialize (H2 eq_refl). cbn.
    split; [set_solver|apply cleaning_app; auto]. }
  destruct (m_txRunner m); [|by eapply leaves_post; [exact Hb|]]. eapply leaves_post; [apply leaves_RunInTx, Hb|].
  intros [e|] tr Hs; cbn in *; (split; [by auto|done]).
Qed.
(** The removal of a row: without an error it removed one. *)
Lemma leaves_deleteRecord id : leaves (deleteRecord id) (all_or_nothing (fun tr => EvWrite (RemoveInstance id) 1 ∈ tr)).
Proof.
  unfold deleteRecord. apply leaves_RunInTx. unfold deleteDependents.
  eapply (leaves_bind _ _ (fun _ _ => True)); [apply (leaves_any _ (fun _ => True)); own_steps idtac|].
  intros [e|] ? _; [by apply leaves_ret|]. unfold instance_Delete. eapply leaves_bind; [apply leaves_db|].
  intros r tr Hr. apply leaves_ret. destruct r as [n|e]; [|done]. destruct (Hr n eq_refl) as [Hin (t & s & Hx)].
  destruct (n =? 0)%Z eqn:En; [done|]. apply Z.eqb_neq in En. intros _. cbn.
  replace 1%Z with n; [set_solver|]. cbn in Hx. case_decide; congruence.
Qed.
End writes.

Section starts.
Context (m : Manager) (Htx : K -> m_txRunner m = true).

(** What a start leaves: [S] of its result, or nothing with an error. *)
Definition start_leaves {A} (S : A -> list event -> Prop) (r : res A) (tr : list event) : Prop :=
  match r with Ok x => S x tr | Err _ => K -> Forall silent tr end.

Lemma start_err {A} S (e : goerr) tr : (K -> Forall silent tr) -> @start_leaves A S (Err e) tr.
Proof. done. Qed.

(** A part of a program that makes no statement. *)
Lemma leaves_quiet {A B} (p : M A) (k : A -> M B) Φ (Q : B -> list event -> Prop) :
  own silent p Φ ->
  (forall a, leaves (k a) (fun r tr => forall tr0, Forall silent tr0 -> Q r (tr ++ tr0))) ->
  leaves (bind p k) (fun r tr => forall tr0, Forall silent tr0 -> Q r (tr ++ tr0)).
Proof.
  intros Hm Hk. eapply leaves_bind; [by apply leaves_own|]. intros a tr1 [Ha Hf1].
  eapply leaves_post; [by apply Hk|]. intros r tr2 Hf2 tr0 Hf0. rewrite <- app_assoc. apply Hf2. by apply Forall_app.
Qed.
Lemma quiet_err {A} S (e : goerr) :
  leaves (ret (Err e)) (fun r tr => forall tr0, Forall silent tr0 -> @start_leaves A S r (tr ++ tr0)).
Proof. apply leaves_ret. intros tr0 H _. exact H. Qed.
Lemma quiet_done {A} (p : M (res A)) S :
  leaves p (fun r tr => forall tr0, Forall silent tr0 -> start_leaves S r (tr ++ tr0)) -> leaves p (start_leaves S).
Proof. intros Hm. eapply leaves_post; [exact Hm|]. intros r tr Hr. rewrite <- (app_nil_r tr). by apply Hr. Qed.

(** The rows of the start, then only messages. *)
Lemma leaves_rows {A} (rows : M error) (k : error -> M (res A)) (T : list event -> Prop) (S : A -> list event -> Prop) :
  leaves rows (fun e tr => (m_txRunner m = true -> all_or_nothing (fun _ => True) e tr) /\ (e = None -> T tr)) ->
  (forall e, own silent (k (Some e)) (fun r => exists e, r = Err e)) ->
  (forall tr, T tr -> leaves (k None) (fun r tr2 => forall tr0, start_leaves S r (tr2 ++ tr ++ tr0))) ->
  leaves (bind rows k) (fun r tr => forall tr0, Forall silent tr0 -> start_leaves S r (tr ++ tr0)).
Proof.
  intros Hr He Hk. eapply leaves_bind; [exact Hr|]. intros [e|] tr1 [Hn HT].
  - eapply leaves_post; [apply leaves_own, He|]. intros r tr2 [[e' ->] Hs] tr0 Hs0. cbn. intros HK.
    rewrite !Forall_app. split_and!; [done|by apply Hn; auto|done].
  - eapply leaves_post; [apply Hk; by apply HT|]. intros r tr2 Hs tr0 _. rewrite <- app_assoc. apply Hs.
Qed.

(** A part of a program that says nothing about the writes. *)
Ltac pass H := eapply leaves_quiet; [solve [by apply H | eapply H; intros; done]|intros ?].
Ltac after H := eapply (leaves_bind _ _ (fun _ _ => True)); [eapply leaves_any; solve [by apply H | apply H; intros; exact I] | intros ? ? _].

Lemma leaves_Deploy t req : leaves (Deploy m t req) (start_leaves (fun r tr =>
    EvWrite (InsertLog r.2) 1 ∈ tr /\ si_ID (da_instance r.1.2) = si_ID (dr_Instance req) /\
    si_Status (da_instance r.1.2) = StackStatusDeploying /\ saved (da_instance r.1.2) tr)).
Proof.
  apply quiet_done. unfold Deploy. pass own_ctxErr. case_match; [apply quiet_err|]. pass own_isDown. case_match; [apply quiet_err|].
  case_match; [|apply quiet_err]. case_match. case_match. case_match. unfold namespacePhase.
  eapply (leaves_quiet _ _ (fun _ => True)); [own_steps idtac|]. intros ?. case_match; [apply quiet_err|].
  pass own_step. pass own_modMem. cbv zeta. eapply leaves_rows; [apply leaves_createLogAndUpdate| |].
  { intros e. apply own_ret. eauto. }
  intros tr [Hlog Hrow]. after own_broadcastStatus. after own_rememberTrigger.
  apply leaves_ret. intros rest. cbn. split_and!; [set_solver|done|done|]. destruct Hrow as (now & rows & ?). exists now, rows. set_solver.
Qed.

Lemma leaves_Rollback t req : leaves (Rollback m t req) (start_leaves (fun r tr =>
    EvWrite (InsertLog r.2) 1 ∈ tr /\ si_ID (rj_instance r.1.2) = si_ID (rr_Instance req) /\
    si_Status (rj_instance r.1.2) = StackStatusDeploying /\ saved (rj_instance r.1.2) tr)).
Proof.
  apply quiet_done. unfold Rollback. pass own_ctxErr. case_match; [apply quiet_err|]. pass own_isDown. case_match; [apply quiet_err|].
  case_match; [|apply quiet_err]. case_match. case_match. case_match. cbv zeta.
  eapply (leaves_quiet _ _ (fun _ => True)).
  { case_match; [|by apply own_ret]. unfold previousRevisionBranch. own_steps idtac. }
  intros branch. pass own_step. pass own_modMem. eapply leaves_rows; [apply leaves_createLogAndUpdate| |].
  { intros e. apply own_ret. eauto. }
  intros tr [Hlog Hrow]. after own_broadcastStatus. after own_rememberTrigger.
  apply leaves_ret. intros rest. cbn. split_and!; [set_solver|done|done|]. destruct Hrow as (now & rows & ?). exists now, rows. set_solver.
Qed.

Lemma leaves_StopWithCharts t i charts : leaves (StopWithCharts m t i charts) (start_leaves (fun r tr =>
    EvWrite (InsertLog r.1.2) 1 ∈ tr /\
    saved (i |> si_set_Status StackStatusStopping |> si_set_ErrorMessage "") tr)).
Proof.
  apply quiet_done. unfold StopWithCharts. pass own_ctxErr. case_match; [apply quiet_err|]. pass own_isDown. case_match; [apply quiet_err|].
  case_match; [|apply quiet_err]. case_match. pass own_step. pass own_modMem. cbv zeta.
  eapply leaves_rows; [apply leaves_createLogAndUpdate| |].
  { intros e. apply own_ret. eauto. }
  intros tr [Hlog Hrow]. after own_broadcastStatus. after own_rememberTrigger.
  apply leaves_ret. intros rest. cbn. split; [set_solver|]. destruct Hrow as (now & rows & ?). exists now, rows. set_solver.
Qed.

Lemma leaves_startClean t i charts del : leaves (startClean m t i charts del) (start_leaves (fun r tr =>
    EvWrite (InsertLog r.1.2) 1 ∈ tr /\ set_cleaning_done (si_ID i) del tr)).
Proof.
  apply quiet_done. unfold startClean. pass own_ctxErr. case_match; [apply quiet_err|]. pass own_isDown. case_match; [apply quiet_err|].
  case_match; [|apply quiet_err]. case_match. pass own_step. pass own_modMem. cbv zeta.
  eapply leaves_rows; [apply leaves_startCleanRows| |].
  { intros e. eapply own_bind; [apply own_modMem|]. intros. apply own_ret. eauto. }
  intros tr [Hlog Hrow]. after own_broadcastStatus. after own_rememberTrigger.
  apply leaves_ret. intros rest. cbn. split; [set_solver|]. destruct Hrow as (now & ?). exists now. set_solver.
Qed.

End starts.

(** ** Answers *)

(** The statuses of an error answer. *)
Definition error_statuses : list Z := [400; 403; 404; 409; 499; 500; 501; 503]%Z.

(** The statuses with which a request may have written: those of an accepted one, and
    those after its first statement. *)
Definition late_statuses (q : Request) : list Z :=
  match q with
  | ReqDeploy | ReqClean => [202; 409; 500]
  | ReqStop | ReqRollback _ => [202; 500]
  | ReqDelete => [202; 204; 400; 404; 409; 499; 500; 501]
  end%Z.

(** The row that a request marks busy. *)
Definition marks_busy (q : Request) (id : string) (op : dbop) (rows : Z) : Prop :=
  match q, op with
  | (ReqDeploy | ReqRollback _), SaveInstance i => si_ID i = id /\ si_Status i = StackStatusDeploying
  | ReqStop, SaveInstance i => si_ID i = id /\ si_Status i = StackStatusStopping
  | ReqClean, SetCleaning i from del _ => i = id /\ from = CleanStatuses /\ del = false /\ rows = 1%Z
  | ReqDelete, SetCleaning i from del _ => i = id /\ from = CleanStatuses /\ del = true /\ rows = 1%Z
  | _, _ => False
  end.

Definition body_log (b : Body) : option string :=
  match b with BLog l _ => Some l | BRollback r => Some (rb_LogID r) | _ => None end.

(** What a refused request may leave without a lost answer: nothing but, for a deploy,
    the new expiry of the row, which keeps its status. *)
Definition only_restarts (q : Request) (id : string) (e : event) : Prop :=
  silent e \/ (q = ReqDeploy /\ exists op rows, e = EvWrite op rows /\
    match op with
    | SaveInstance i => si_ID i = id /\ si_Status i ∈ deployable
    | ClearExpiryWarning i _ => i = id
    | _ => False
    end).

Definition answered (q : Request) (id : string) (r : Handled) (tr : list event) : Prop :=
  match r.2 with
  | Some o => rs_Status r.1 = 202%Z /\ body_log (rs_Body r.1) = Some (dl_ID (operation_log o)) /\
      EvWrite (InsertLog (operation_log o)) 1 ∈ tr /\
      exists op rows, EvWrite op rows ∈ tr /\ marks_busy q id op rows
  | None => rs_Status r.1 ∈ 204%Z :: error_statuses /\
      (rs_Status r.1 = 204%Z -> EvWrite (RemoveInstance id) 1 ∈ tr) /\
      (rs_Status r.1 ∉ late_statuses q -> Forall silent tr) /\
      (K -> rs_Status r.1 <> 204%Z -> Forall (only_restarts q id) tr)
  end.

Lemma error_answer_status e entity : rs_Status (error_answer e entity) ∈ error_statuses.
Proof.
  unfold error_answer, answer. cbn [rs_Status]. destruct (mapError e entity) as [st msg] eqn:E.
  apply mapError_safe in E as [E _]. cbn. unfold error_statuses. set_solver.
Qed.
Lemma cancelled_status e a : cancelledRequestError e = Some a -> a.1 = 499%Z.
Proof. unfold cancelledRequestError. by case_match; intros [= <-]. Qed.

Section answers.
Context `{Template} `{Yaml} `{SnapshotJSON} `{AnyYaml}.
Context (h : InstanceHandler) (definitions : nat -> string -> res StackDefinition).
Context (chartConfigs : nat -> string -> res (list ChartConfig)) (lookups : nat -> Lookups).
Context (c : Caller) (id : string).

Ltac bad := unfold error_statuses; set_solver.

Lemma silent_restarts q tr : Forall silent tr -> Forall (only_restarts q id) tr.
Proof. intros Hs. eapply Forall_impl; [exact Hs|]. intros e He. by left. Qed.
Lemma refuse_silent q a tr : rs_Status a ∈ error_statuses -> Forall silent tr -> answered q id (a, None) tr.
Proof.
  intros Ha Ht. unfold answered. cbn [fst snd]. split_and!; [by right| |done|intros _ _; by apply silent_restarts].
  intros E. exfalso. rewrite E in Ha. revert Ha. unfold error_statuses. set_solver.
Qed.
Lemma refuse_late q a tr : rs_Status a ∈ error_statuses -> rs_Status a ∈ late_statuses q ->
  (K -> Forall (only_restarts q id) tr) -> answered q id (a, None) tr.
Proof.
  intros Ha Hl Hs. unfold answered. cbn [fst snd]. split_and!; [by right| |done|auto]. intros E. exfalso. rewrite E in Ha.
  revert Ha. unfold error_statuses. set_solver.
Qed.

(** A refusal before anything was done. *)
Lemma answered_refuse q a : rs_Status a ∈ error_statuses -> leaves (refuse a) (answered q id).
Proof. intros Ha. apply leaves_ret. by apply refuse_silent. Qed.

(** The program runs a part that writes nothing. *)
Lemma leaves_silent {A B} (m : M A) (k : A -> M B) Φ (Q : B -> list event -> Prop) :
  own silent m Φ ->
  (forall a, Φ a -> leaves (k a) (fun r tr => forall tr0, Forall silent tr0 -> Q r (tr ++ tr0))) ->
  leaves (bind m k) (fun r tr => forall tr0, Forall silent tr0 -> Q r (tr ++ tr0)).
Proof.
  intros Hm Hk. eapply leaves_bind; [by apply leaves_own|]. intros a tr1 [Ha Hf1].
  eapply leaves_post; [by apply Hk|]. intros r tr2 Hf2 tr0 Hf0. rewrite <- app_assoc. apply Hf2. by apply Forall_app.
Qed.
Lemma silent_refuse q a : rs_Status a ∈ error_statuses ->
  leaves (refuse a) (fun r tr => forall tr0, Forall silent tr0 -> answered q id r (tr ++ tr0)).
Proof. intros Ha. apply leaves_ret. intros tr0 Hf0. by apply refuse_silent. Qed.
Lemma silent_done (m : M Handled) q :
  leaves m (fun r tr => forall tr0, Forall silent tr0 -> answered q id r (tr ++ tr0)) -> leaves m (answered q id).
Proof. intros Hm. eapply leaves_post; [exact Hm|]. intros r tr Hr. rewrite <- (app_nil_r tr). by apply Hr. Qed.
Lemma answered_app q r tr tr0 :
  answered q id r tr -> rs_Status r.1 ∈ late_statuses q -> Forall silent tr0 -> answered q id r (tr ++ tr0).
Proof.
  unfold answered. intros Hr Hl Hs0. destruct r.2 as [o|].
  - destruct Hr as (? & ? & ? & op & rows & ? & ?). split_and!; [done|done|set_solver|]. exists op, rows. set_solver.
  - destruct Hr as (? & H204 & _ & HK). split_and!; [done| |done|].
    + intros E. specialize (H204 E). set_solver.
    + intros k Hn. apply Forall_app. split; [by apply HK|by apply silent_restarts].
Qed.

Lemma load_instance_status Ev : own Ev (load_instance c id)
  (fun r => match r with inl inst => si_ID inst = id | inr a => rs_Status a ∈ error_statuses end).
Proof.
  unfold load_instance. eapply own_bind; [apply own_FindByID|]. intros [i|e] Hi; apply own_ret.
  - destruct (canModifyInstance c i); cbn; [by apply Hi|bad].
  - apply error_answer_status.
Qed.
Lemma load_charts_status Ev inst : own Ev (load_charts definitions chartConfigs inst)
  (fun r => match r with inl _ => True | inr a => rs_Status a ∈ error_statuses end).
Proof.
  unfold load_charts. eapply own_bind; [apply own_external|]. intros [d|e] _; [|apply own_ret, error_answer_status].
  eapply own_bind; [apply own_external|]. intros [l|e] _; apply own_ret; [done|apply error_answer_status].
Qed.
Lemma rollback_target_status Ev inst def charts target : own Ev (rollback_target h lookups inst def charts target)
  (fun r => match r with inl _ => True | inr a => rs_Status a ∈ error_statuses end).
Proof.
  unfold rollback_target. case_match; [by apply own_ret|].
  eapply (own_bind _ _ _ (fun r => match r with inl _ => True | inr a => rs_Status a ∈ error_statuses end)).
  - unfold loadRollbackTarget. case_match; [apply own_ret; cbn; bad|].
    eapply own_bind; [apply own_log_FindByID|]. intros [l|e] _; apply own_ret; [|apply error_answer_status].
    unfold target_of. repeat case_match; try done; cbn; bad.
  - intros [t|a] Ha; [|by apply own_ret]. eapply own_bind; [apply own_external|]. intros [[? ?]|e] _; apply own_ret; [done|].
    destruct (cancelledRequestError e) as [x|] eqn:E; [|done]. cbn. rewrite (cancelled_status _ _ E). bad.
Qed.

(** *** The handlers *)

(** After the first statement only late answers are left. *)
Lemma silent_late (m : M Handled) q :
  leaves m (fun r tr => answered q id r tr /\ rs_Status r.1 ∈ late_statuses q) ->
  leaves m (fun r tr => forall tr0, Forall silent tr0 -> answered q id r (tr ++ tr0)).
Proof. intros Hm. eapply leaves_post; [exact Hm|]. intros r tr [Hr Hl] tr0 Hs0. by apply answered_app. Qed.
Lemma late_refuse q a tr : rs_Status a ∈ error_statuses -> rs_Status a ∈ late_statuses q ->
  (K -> Forall (only_restarts q id) tr) ->
  answered q id (a, None) tr /\ rs_Status (a, @None Operation).1 ∈ late_statuses q.
Proof. intros. split; [by apply refuse_late|done]. Qed.
Lemma late_accept q (a : Response) o tr op rows :
  rs_Status a = 202%Z -> body_log (rs_Body a) = Some (dl_ID (operation_log o)) ->
  EvWrite (InsertLog (operation_log o)) 1 ∈ tr -> EvWrite op rows ∈ tr -> marks_busy q id op rows ->
  answered q id (a, Some o) tr /\ rs_Status (a, Some o).1 ∈ late_statuses q.
Proof.
  intros Ha Hb Hl Hr Hm. split; [unfold answered; cbn [fst snd]; split_and!; eauto|]. cbn [fst]. rewrite Ha.
  destruct q; cbn; set_solver.
Qed.
Lemma late_saved q (a : Response) o tr tr1 tr0 i :
  rs_Status a = 202%Z -> body_log (rs_Body a) = Some (dl_ID (operation_log o)) ->
  EvWrite (InsertLog (operation_log o)) 1 ∈ tr -> saved i tr ->
  (forall now rows, marks_busy q id (SaveInstance (si_set_UpdatedAt now i)) rows) ->
  answered q id (a, Some o) (tr1 ++ tr ++ tr0) /\ rs_Status (a, Some o).1 ∈ late_statuses q.
Proof. intros Ha Hb Hl (now & rows & Hs) Hm. eapply late_accept; [done|done|set_solver|rewrite !elem_of_app; eauto|apply Hm]. Qed.
Lemma late_cleaning q (a : Response) o tr tr1 tr0 del :
  rs_Status a = 202%Z -> body_log (rs_Body a) = Some (dl_ID (operation_log o)) ->
  EvWrite (InsertLog (operation_log o)) 1 ∈ tr -> set_cleaning_done id del tr ->
  (forall now, marks_busy q id (SetCleaning id CleanStatuses del now) 1) ->
  answered q id (a, Some o) (tr1 ++ tr ++ tr0) /\ rs_Status (a, Some o).1 ∈ late_statuses q.
Proof. intros Ha Hb Hl (now & Hs) Hm. eapply late_accept; [done|done|set_solver|rewrite !elem_of_app; eauto|apply Hm]. Qed.

Context (Htx : K -> forall m, h_deployManager h = Some m -> m_txRunner m = true).

Lemma answered_Deploy : leaves (DeployInstance h definitions chartConfigs lookups c id) (answered ReqDeploy id).
Proof.
  apply silent_done. unfold DeployInstance. case_match; [apply silent_refuse; cbn; bad|].
  destruct (h_deployManager h) as [m|]; [|apply silent_refuse; cbn; bad].
  eapply leaves_silent; [apply load_instance_status|]. intros [inst|a] Hi; [|by apply silent_refuse].
  destruct (negb _) eqn:Hst; [apply silent_refuse; cbn; bad|]. apply negb_false_iff, bool_decide_eq_true in Hst.
  eapply leaves_silent; [apply own_clock|]. intros now _.
  case_match; [apply silent_refuse; cbn; bad|]. eapply leaves_silent; [apply load_charts_status|].
  intros [[def charts]|a] Ha; [|by apply silent_refuse]. case_match; [apply silent_refuse; cbn; bad|].
  case_match; [apply silent_refuse; cbn; bad|]. eapply leaves_silent; [apply own_external|].
  intros [[values branches]|e] _.
  2: { apply silent_refuse. destruct (cancelledRequestError e) as [x|] eqn:E; cbn; [rewrite (cancelled_status _ _ E)|]; bad. }
  apply silent_late. eapply leaves_bind; [apply (leaves_own (only_restarts ReqDeploy id))|].
  { apply (own_restart_ttl h _ inst).
    - intros i t Hd rows. right. split; [done|]. do 2 eexists. split; [done|]. by destruct Hd as [->|(_ & t' & ->)].
    - intros e rows. right. split; [done|]. do 2 eexists. done. }
  intros i tr [Hd Hf]. assert (Ei : si_ID i = id) by (destruct Hd as [->|(_ & t & ->)]; done).
  eapply leaves_bind; [apply leaves_Deploy; intros HK; by apply (Htx HK)|]. intros [[[reg args] l]|e] tr1 Hr; cbn in Hr.
  - destruct Hr as (Hlog & Hid & Hs & Hrow). apply leaves_ret.
    apply (late_saved _ _ _ tr1 [] tr (da_instance args)); try done. intros. split; [|done]. by rewrite <- Ei.
  - assert (Hn : K -> Forall (only_restarts ReqDeploy id) (tr1 ++ tr)).
    { intros HK. apply Forall_app. split; [by apply silent_restarts, Hr|done]. }
    case_match; apply leaves_ret, late_refuse; try exact Hn; cbn; bad.
Qed.

Lemma answered_Stop : leaves (StopInstance h definitions chartConfigs c id) (answered ReqStop id).
Proof.
  apply silent_done. unfold StopInstance. case_match; [apply silent_refuse; cbn; bad|].
  destruct (h_deployManager h) as [m|]; [|apply silent_refuse; cbn; bad].
  eapply leaves_silent; [apply load_instance_status|]. intros [inst|a] Hi; [|by apply silent_refuse].
  case_match; [apply silent_refuse; cbn; bad|]. eapply leaves_silent; [apply load_charts_status|].
  intros [[def charts]|a] Ha; [|by apply silent_refuse]. case_match; [apply silent_refuse; cbn; bad|].
  apply silent_late. eapply leaves_bind; [apply leaves_StopWithCharts; intros HK; by apply (Htx HK)|].
  intros [[[helm l] ordered]|e] tr Hr; cbn in Hr.
  - destruct Hr as (Hlog & Hrow).
    eapply (leaves_bind _ _ (fun _ _ => True)); [eapply leaves_any, own_revokeStreams; intros; exact I|]. intros _ tr' _. apply leaves_ret.
    rewrite <- (app_nil_r tr). by eapply (late_saved _ _ _ tr tr' []).
  - apply leaves_ret, late_refuse; [cbn; bad..|]. intros HK. by apply silent_restarts, Hr.
Qed.

Lemma answered_Clean : leaves (CleanInstance h definitions chartConfigs c id) (answered ReqClean id).
Proof.
  apply silent_done. unfold CleanInstance. case_match; [apply silent_refuse; cbn; bad|].
  destruct (h_deployManager h) as [m|]; [|apply silent_refuse; cbn; bad].
  eapply leaves_silent; [apply load_instance_status|]. intros [inst|a] Hi; [|by apply silent_refuse].
  case_match; [apply silent_refuse; cbn; bad|]. eapply leaves_silent; [apply load_charts_status|].
  intros [[def charts]|a] Ha; [|by apply silent_refuse].
  apply silent_late. eapply leaves_bind; [apply leaves_startClean; intros HK; by apply (Htx HK)|].
  intros [[[[helm k8s] l] ordered]|e] tr Hr; cbn in Hr.
  - destruct Hr as (Hlog & Hrow). rewrite Hi in Hrow.
    eapply (leaves_bind _ _ (fun _ _ => True)); [eapply leaves_any, own_revokeStreams; intros; exact I|]. intros _ tr' _. apply leaves_ret.
    rewrite <- (app_nil_r tr). by eapply (late_cleaning _ _ _ tr tr' []).
  - case_match; apply leaves_ret, late_refuse; try (cbn; bad); intros HK; by apply silent_restarts, Hr.
Qed.

Lemma answered_Rollback body : leaves (RollbackInstance h definitions chartConfigs lookups c id body) (answered (ReqRollback body) id).
Proof.
  apply silent_done. unfold RollbackInstance. case_match; [apply silent_refuse; cbn; bad|].
  destruct (h_deployManager h) as [m|]; [|apply silent_refuse; cbn; bad].
  eapply leaves_silent; [apply load_instance_status|]. intros [inst|a] Hi; [|by apply silent_refuse].
  case_match; [apply silent_refuse; cbn; bad|].
  destruct body as [target_id|e]; [|destruct (errorsIs e "EOF"); [|apply silent_refuse; cbn; bad]].
  all: eapply leaves_silent; [apply load_charts_status|]; intros [[def charts]|a] Ha; [|by apply silent_refuse].
  all: case_match; [apply silent_refuse; cbn; bad|].
  all: eapply leaves_silent; [apply rollback_target_status|]; intros [[target drift]|a] Hta; [|by apply silent_refuse].
  all: apply silent_late; eapply leaves_bind; [apply leaves_Rollback; intros HK; by apply (Htx HK)|];
    intros [[[reg job] l]|er] tr Hr; cbn in Hr;
    [|apply leaves_ret, late_refuse; [cbn; bad..|]; intros HK; by apply silent_restarts, Hr].
  all: destruct Hr as (Hlog & Hid & Hs & Hrow); apply leaves_ret; rewrite <- (app_nil_r tr).
  all: eapply (late_saved _ _ _ tr [] []); try done; intros; split; [|exact Hs]; cbn in *; by rewrite Hid.
Qed.

(** The answer of a delete to the result of [deleteInstance]. *)
Definition delete_answer (r : option Operation + Response) : Handled :=
  match r with
  | inr a => (a, None)
  | inl None => (mkResponse 204 BEmpty, None)
  | inl (Some o) =>
      (mkResponse 202 (BLog (dl_ID (operation_log o))
         "Cleanup initiated; instance will be deleted after resources are removed"), Some o)
  end.
Definition deleted (r : option Operation + Response) : list event -> Prop := answered ReqDelete id (delete_answer r).

Lemma deleted_refuse a : rs_Status a ∈ error_statuses ->
  leaves (ret (inr a : option Operation + Response)) (fun r tr => forall tr0, Forall silent tr0 -> deleted r (tr ++ tr0)).
Proof. intros Ha. apply leaves_ret. intros tr0 Hf0. by apply refuse_silent. Qed.
Lemma deleted_late {A} (m : M A) (k : A -> M (option Operation + Response)) R1 :
  leaves m R1 -> (forall a tr1, R1 a tr1 ->
    leaves (k a) (fun r tr => forall tr0, Forall silent tr0 -> deleted r (tr ++ tr1 ++ tr0))) ->
  leaves (bind m k) (fun r tr => forall tr0, Forall silent tr0 -> deleted r (tr ++ tr0)).
Proof.
  intros Hm Hk. eapply leaves_bind; [exact Hm|]. intros a tr1 H1'. eapply leaves_post; [by apply Hk|].
  intros r tr2 Hr tr0 H0'. rewrite <- app_assoc. by apply Hr.
Qed.

Lemma leaves_delete_instance inst : si_ID inst = id -> leaves (delete_instance h definitions chartConfigs c inst)
  (fun r tr => forall tr0, Forall silent tr0 -> deleted r (tr ++ tr0)).
Proof.
  intros Hid. unfold delete_instance. case_match; [apply deleted_refuse; cbn; bad|].
  eapply leaves_silent; [by apply own_fireInstanceHook|]. intros [e|] _.
  { apply deleted_refuse. unfold preHookRefusal. case_match; cbn; bad. }
  case_match.
  - destruct (h_deployManager h) as [m|] eqn:Em; [|apply deleted_refuse; cbn; bad].
    eapply leaves_silent; [apply load_charts_status|]. intros [[def charts]|a] Ha; [|by apply deleted_refuse].
    eapply deleted_late; [apply leaves_startClean; intros HK; by apply (Htx HK)|].
    intros [[[[helm k8s] l] ordered]|e] tr1 Hr; cbn in Hr.
    + destruct Hr as (Hlog & Hrow). rewrite Hid in Hrow.
      eapply (leaves_bind _ _ (fun _ _ => True)); [eapply leaves_any, own_revokeStreams; intros; exact I|].
      intros _ tr' _. apply leaves_ret. intros tr0 _. by eapply (late_cleaning ReqDelete _ _ tr1 tr' tr0).
    + assert (Hn : forall tr0, Forall silent tr0 -> K -> Forall (only_restarts ReqDelete id) (tr1 ++ tr0)).
      { intros tr0 H0' HK. apply silent_restarts, Forall_app. auto. }
      case_match; apply leaves_ret; intros tr0 H0'; apply late_refuse; try (by apply Hn); cbn; bad.
  - case_match; [apply deleted_refuse; cbn; bad|]. eapply deleted_late; [apply leaves_deleteRecord|]. intros [e|] tr1 Hr; cbn in Hr.
    { apply leaves_ret. intros tr0 H0'. unfold error_answer, answer. destruct (mapError _ _) as [st msg] eqn:E.
      apply mapError_safe in E as [E _]. apply late_refuse; [cbn; bad..|]. intros HK. apply silent_restarts. cbn [app]. apply Forall_app. split; [by apply Hr|done]. }
    rewrite Hid in Hr.
    eapply (leaves_bind _ _ (fun _ _ => True)); [eapply leaves_any, own_revokeStreams; intros; exact I|]. intros _ tr2 _.
    eapply (leaves_bind _ _ (fun _ _ => True)).
    { eapply (leaves_any _ (fun _ => True)). unfold afterInstanceDeleted, firePostHook.
      eapply (own_bind _ _ _ (fun _ => True)); [case_match; [|by apply own_ret]|intros _ _].
      { apply own_when. intros _. by apply own_broadcastInstanceDeleted. }
      do 2 (eapply own_bind; [eapply own_bind; [by apply own_fireInstanceHook|]; intros _ _; by apply (own_ret _ (fun _ => True))|intros _ _]).
      apply own_when. intros _. by apply own_emit. }
    intros _ tr3 _. apply leaves_ret. intros tr0 _. unfold deleted, answered. cbn [fst snd delete_answer rs_Status].
    split_and!; [set_solver|intros _; set_solver| |done]. intros Hn. exfalso. apply Hn. cbn. set_solver.
Qed.

Lemma answered_Delete : leaves (DeleteInstance h definitions chartConfigs c id) (answered ReqDelete id).
Proof.
  apply silent_done. unfold DeleteInstance. case_match; [apply silent_refuse; cbn; bad|].
  eapply leaves_silent; [apply load_instance_status|]. intros [inst|a] Hi; [|by apply silent_refuse].
  eapply leaves_bind; [by apply leaves_delete_instance|]. intros r tr Hr. apply leaves_ret. cbn [app]. exact Hr.
Qed.
End answers.
End outcomes.

(** C4. An answer tells what happened.  Whatever the other processes do and whatever
    fails, a lifecycle request that is accepted (202) has started an operation, whose
    log is the one of the answer and was inserted, and a statement of the request has
    written the row of the instance as busy; the conditional one of a clean has changed
    the row.  A 204 has removed the row.  Every other answer is an error and starts no
    operation.  Unless it comes from the start itself (500, and 409 of a deploy or a
    clean, or any error of the removal of a row), the request has made no statement;
    and even then, when no answer of the database gets lost and the deploy manager has
    its transactions, all that is left is the new expiry of a refused deploy. *)
Theorem answer_truthful `{Template} `{Yaml} `{SnapshotJSON} `{AnyYaml} h definitions chartConfigs lookups q c id w
    (Hw : keyed (w_db w)) :
  let r := handle h definitions chartConfigs lookups q c id w in
  exists tr, w_trace r.2 = tr ++ w_trace w /\
    answered (lossless w /\ forall m, h_deployManager h = Some m -> m_txRunner m = true) q id r.1 tr.
Proof.
  set (K := lossless w /\ _).
  assert (Htx : K -> forall m, h_deployManager h = Some m -> m_txRunner m = true) by (unfold K; tauto).
  assert (Hl : leaves K (handle h definitions chartConfigs lookups q c id) (answered K q id)).
  { destruct q; cbn [handle].
    - by apply answered_Deploy.
    - by apply answered_Stop.
    - by apply answered_Clean.
    - by apply answered_Delete.
    - by apply answered_Rollback. }
  apply (Hl w Hw). unfold K. tauto.
Qed.

(** ** Examples *)

Section examples.
#[local] Existing Instances var_template tag_yaml one_snapshot text_yaml.

(** A stop of a running instance by its owner is accepted. *)
Definition alice : Caller := mkCaller "alice" "alice" roleUser.
Definition stop_world : World := calm_world sample_store.
Definition stop_request : Handled * World :=
  handle plain_handler (fun _ _ => Ok shop_definition) (fun _ _ => Ok shop_charts) (fun _ => no_lookups)
    ReqStop alice "i1" stop_world.

Example stop_accepted : rs_Status stop_request.1.1 = 202%Z /\
  si_Status <$> st_instances (w_db stop_request.2) !! "i1" = Some StackStatusStopping.
Proof. vm_compute. done. Qed.

Lemma answer_truthful_witness :
  exists tr, w_trace stop_request.2 = tr ++ w_trace stop_world /\ 
    answered (lossless stop_world /\ forall m, h_deployManager plain_handler = Some m -> m_txRunner m = true)
      ReqStop "i1" stop_request.1 tr.
Proof.
  apply answer_truthful. split; intros id x; cbn; rewrite ?lookup_insert_Some, ?lookup_singleton_Some; naive_solver.
Defined.

(** A deploy that is refused because its namespace is being deleted has already
    restarted the TTL: the row is written before the deploy manager is asked. *)
Definition ttl_row : StackInstance :=
  mkInstance "i1" "d1" "shop" "stack-shop-alice" "alice" "feature/x" "c1" StackStatusStopped "" "" 60 0 0 None
    (Some (60 * Second)%Z) None None None None false.
Definition terminating_world : World :=
  mkWorld (mkStore {["i1" := ttl_row]} ∅ ∅)
    (fun n => mkEnv [] (10 * Second + Z.of_nat n) (10 * Second + Z.of_nat n) false None None false "Terminating" None 0 []
                (fun _ => Err (ENew "unreachable")) ("", "", false) [] (mkNsStatus "healthy" []) None None)
    0 false false (mkMem ∅ ∅ ∅) [].
Definition terminating_deploy : Handled * World :=
  handle plain_handler (fun _ _ => Ok shop_definition) (fun _ _ => Ok shop_charts) (fun _ => shop_lookups)
    ReqDeploy alice "i1" terminating_world.

Example refused_deploy_extends : rs_Status terminating_deploy.1.1 = 409%Z /\ terminating_deploy.1.2 = None /\
  exists e, si_ExpiresAt <$> st_instances (w_db terminating_deploy.2) !! "i1" = Some (Some e) /\ (60 * Second < e)%Z.
Proof. split_and!; [vm_compute; done..|]. eexists. split; [vm_compute; reflexivity|done]. Qed.
End examples.
