(* ===== verification/Tokens.v ===== *)
(** * Refresh tokens

    The table [refresh_tokens] ([models/refresh_token.go]) with the statements of
    [database/refresh_token_repository.go], and the effects of an authentication
    request on it.  As in [World], a request runs while other requests change the
    table, and every step can fail; here the other requests are any function on the
    table ([te_others]), and a theorem names the property that they keep ([rely]).
    The users, the login cache, bcrypt and the session store answer anything at any
    time. *)

From S2P Require Import Prelude Models Store Hooks Decimals Capacity Templates.
Local Open Scope string_scope.
Local Open Scope list_scope.

(** ** The table *)

(** A zero time is [None]. *)
Record RefreshToken := mkToken {
  rt_ExpiresAt : time;
  rt_LastActivity : option time;
  rt_CreatedAt : time;
  rt_SessionStartedAt : option time;
  rt_RotatedAt : option time;
  rt_ID : string;
  rt_UserID : string;
  rt_TokenHash : string;
  rt_FamilyID : string;
  rt_UserAgent : string;
  rt_IPAddress : string;
  rt_Revoked : bool
}.
#[global] Instance RefreshToken_eq_dec : EqDecision RefreshToken.
Proof. solve_decision. Defined.

Definition SessionFamily (t : RefreshToken) : string :=
  If negb (empty (rt_FamilyID t)) Return rt_FamilyID t ;;
  rt_ID t.
Definition SessionStart (t : RefreshToken) : time := default (rt_CreatedAt t) (rt_SessionStartedAt t).

Definition set_revoked (t : RefreshToken) : RefreshToken :=
  mkToken (rt_ExpiresAt t) (rt_LastActivity t) (rt_CreatedAt t) (rt_SessionStartedAt t) (rt_RotatedAt t) (rt_ID t)
    (rt_UserID t) (rt_TokenHash t) (rt_FamilyID t) (rt_UserAgent t) (rt_IPAddress t) true.
Definition set_rotated (at_ : time) (t : RefreshToken) : RefreshToken :=
  mkToken (rt_ExpiresAt t) (rt_LastActivity t) (rt_CreatedAt t) (rt_SessionStartedAt t) (Some at_) (rt_ID t)
    (rt_UserID t) (rt_TokenHash t) (rt_FamilyID t) (rt_UserAgent t) (rt_IPAddress t) true.
Definition set_activity (at_ : time) (t : RefreshToken) : RefreshToken :=
  mkToken (rt_ExpiresAt t) (Some at_) (rt_CreatedAt t) (rt_SessionStartedAt t) (rt_RotatedAt t) (rt_ID t)
    (rt_UserID t) (rt_TokenHash t) (rt_FamilyID t) (rt_UserAgent t) (rt_IPAddress t) (rt_Revoked t).

Abbreviation Tokens := (gmap string RefreshToken).

(** The match of a family: its tokens, and the legacy token that started it. *)
Definition in_family (familyID : string) (t : RefreshToken) : bool :=
  bool_decide (rt_FamilyID t = familyID) || bool_decide (rt_ID t = familyID).
Definition active (t : RefreshToken) : bool := negb (rt_Revoked t).
Definition unexpired (now : time) (t : RefreshToken) : bool := (now <? rt_ExpiresAt t)%Z.

(** ** Statements *)

Inductive tokop :=
| CreateToken (t : RefreshToken)
| RevokeID (id : string)
| MarkRotated (id : string) (rotatedAt : time)
| RevokeFam (familyID : string)
| RevokeFamForUser (familyID userID : string)
| Touch (familyID : string) (at_ : time)
| RevokeUser (userID : string)
| RevokeUserExcept (userID excludeID : string)
| RevokeIDs (ids : list string)
| DeleteTokens (before : time).

Definition ErrDuplicateEntry := ENew "Error 1062 (23000): Duplicate entry".

(** [UPDATE .. WHERE guard]: the number of changed rows and the table. *)
Definition update_all (guard : RefreshToken -> bool) (f : RefreshToken -> RefreshToken) (s : Tokens) : res Z * Tokens :=
  (Ok (Z.of_nat (length (List.filter (fun p => guard p.2 && negb (bool_decide (f p.2 = p.2))) (map_to_list s)))),
   (fun t => if guard t then f t else t) <$> s).

Definition has_hash (hash : string) (s : Tokens) : option RefreshToken :=
  List.find (fun t => bool_decide (rt_TokenHash t = hash)) (List.map snd (map_to_list s)).

Definition texec (op : tokop) (s : Tokens) : res Z * Tokens :=
  match op with
  | CreateToken t =>
      If bool_decide (is_Some (s !! rt_ID t)) || bool_decide (is_Some (has_hash (rt_TokenHash t) s))
        Return (Err ErrDuplicateEntry, s) ;;
      (Ok 1%Z, <[rt_ID t := t]> s)
  | RevokeID id => update_all (fun t => bool_decide (rt_ID t = id)) set_revoked s
  | MarkRotated id at_ => update_all (fun t => bool_decide (rt_ID t = id) && active t) (set_rotated at_) s
  | RevokeFam f => update_all (fun t => in_family f t && active t) set_revoked s
  | RevokeFamForUser f u =>
      update_all (fun t => in_family f t && bool_decide (rt_UserID t = u) && active t) set_revoked s
  | Touch f at_ =>
      update_all (fun t => bool_decide (rt_FamilyID t = f) && active t && unexpired at_ t &&
                           match rt_LastActivity t with Some a => (a <? at_)%Z | None => true end) (set_activity at_) s
  | RevokeUser u => update_all (fun t => bool_decide (rt_UserID t = u) && active t) set_revoked s
  | RevokeUserExcept u id =>
      update_all (fun t => bool_decide (rt_UserID t = u) && active t && negb (bool_decide (rt_ID t = id))) set_revoked s
  | RevokeIDs ids => update_all (fun t => bool_decide (rt_ID t ∈ ids) && active t) set_revoked s
  | DeleteTokens before => (Ok 0%Z, filter (fun p => (before <= rt_ExpiresAt p.2)%Z) s)
  end.

(** ** Users *)

Record User := mkUser {
  us_ID : string;
  us_Username : string;
  us_PasswordHash : string;
  us_DisplayName : string;
  us_Role : string;
  us_AuthProvider : string;
  us_ExternalID : option string;
  us_Email : string;
  us_Disabled : bool;
  us_ServiceAccount : bool
}.

#[global] Instance User_eq_dec : EqDecision User.
Proof. solve_decision. Defined.

(** ** Programs *)

(** Calls that the client or another part of the system sees. *)
Inductive tevent :=
| TWrite (op : tokop)
| TBlockSessions (ids : list string) (until : time)
| TBlockToken (jti : string) (until : time)
| TBlockUser (userID : string) (until : time)
| TSetCookie (rawToken : string) (maxAge : Z)
| TClearCookie
| TDisconnectToken (jti : string)
| TDisconnectUser (userID : string)
| TDeleteKeys (userID : string)
| TUserWrite (op id : string)
| TUserCreate (u : User).

(** One step: the table as the other requests leave it, the clock, a failure (before
    or after the effect), and the answer of an external call. *)
Record TEnv := mkTEnv {
  te_others : Tokens -> Tokens;
  te_now : time;
  te_fault : error;
  te_lost : bool;
  te_text : string;
  te_user : res User;
  te_flag : bool
}.
Record TWorld := mkTWorld {
  tw_db : Tokens;
  tw_env : nat -> TEnv;
  tw_tick : nat;
  tw_quiet : bool;
  tw_trace : list tevent
}.
Definition T (A : Type) : Type := TWorld -> A * TWorld.

Definition tret {A} (a : A) : T A := fun w => (a, w).
Definition tbind {A B} (m : T A) (k : A -> T B) : T B := fun w => let r := m w in k r.1 r.2.

Declare Scope token_scope.
Delimit Scope token_scope with token.
Notation "'get!' x ':=' m 'in' k" := (tbind m (fun x => k))
  (at level 10, x pattern, m at level 99, k at level 200) : token_scope.
Notation "'do!' m 'in' k" := (tbind m (fun _ => k)) (at level 10, m at level 99, k at level 200) : token_scope.
Open Scope token_scope.

Definition tstep : T TEnv := fun w =>
  let st := tw_env w (tw_tick w) in
  (st, mkTWorld (if tw_quiet w then tw_db w else te_others st (tw_db w)) (tw_env w) (S (tw_tick w)) (tw_quiet w) (tw_trace w)).

Definition tclock : T time := get! st := tstep in tret (te_now st).
Definition temit (e : tevent) : T unit := fun w =>
  (tt, mkTWorld (tw_db w) (tw_env w) (tw_tick w) (tw_quiet w) (e :: tw_trace w)).
Definition twhen (b : bool) (m : T unit) : T unit := if b then m else tret tt.

Fixpoint tforEach {A} (l : list A) (f : A -> T unit) : T unit :=
  match l with
  | [] => tret tt
  | x :: l' => do! f x in tforEach l' f
  end.

(** A writing and a reading statement. *)
Definition tdb (op : tokop) : T (res Z) := fun w =>
  let '(st, w1) := tstep w in
  let '(r, s) := texec op (tw_db w1) in
  let written := mkTWorld s (tw_env w1) (tw_tick w1) (tw_quiet w1) (TWrite op :: tw_trace w1) in
  match te_fault st with
  | Some e => (Err e, if te_lost st then written else w1)
  | None => (r, written)
  end.
Definition tquery {A} (f : time -> Tokens -> A) : T (res A) := fun w =>
  let '(st, w1) := tstep w in
  match te_fault st with
  | Some e => (Err e, w1)
  | None => (Ok (f (te_now st) (tw_db w1)), w1)
  end.
(** A call that can fail, with or without effect. *)
Definition tcall (e : tevent) : T error :=
  get! st := tstep in
  do! twhen (bool_decide (te_fault st = None) || te_lost st) (temit e) in
  tret (te_fault st).

(** [WithTx]; the body also gives a result. *)
Definition set_tquiet (q : bool) (w : TWorld) : TWorld := mkTWorld (tw_db w) (tw_env w) (tw_tick w) q (tw_trace w).
Definition trollback (w0 w : TWorld) : TWorld :=
  mkTWorld (tw_db w0) (tw_env w) (tw_tick w) (tw_quiet w0) (tw_trace w0).
Definition WithTx {A} (no_result : A) (body : T (error * A)) : T (error * A) := fun w =>
  let '(st, w1) := tstep w in
  match te_fault st with
  | Some e => ((Some e, no_result), w1)
  | None =>
      let '((r, a), w2) := body (set_tquiet true w1) in
      match r with
      | Some e => ((Some e, a), trollback w1 w2)
      | None =>
          let '(st', w3) := tstep w2 in
          match te_fault st' with
          | None => ((None, a), set_tquiet (tw_quiet w1) w3)
          | Some e => ((Some e, a), if te_lost st' then set_tquiet (tw_quiet w1) w3 else trollback w1 w3)
          end
      end
  end.

(** ** [GORMRefreshTokenRepository] *)

Definition ErrRecordNotFound := ESent "ErrRecordNotFound" "record not found".

Definition exec_err (op : tokop) : T error :=
  get! r := tdb op in
  tret (match r with Ok _ => None | Err e => Some e end).

Definition token_Create (t : RefreshToken) : T error := exec_err (CreateToken t).
Definition FindByTokenHash (hash : string) : T (res RefreshToken) :=
  get! r := tquery (fun _ s => has_hash hash s) in
  tret (match r with
        | Err e => Err e
        | Ok None => Err ErrRecordNotFound
        | Ok (Some t) => Ok t
        end).
Definition RevokeByID (id : string) : T error := exec_err (RevokeID id).
Definition MarkRotatedIfActive (id : string) (rotatedAt : time) : T (res Z) := tdb (MarkRotated id rotatedAt).
Definition RevokeFamily (familyID : string) : T error := exec_err (RevokeFam familyID).
Definition RevokeFamilyForUser (familyID userID : string) : T error := exec_err (RevokeFamForUser familyID userID).
Definition TouchFamily (familyID : string) (at_ : time) : T error := exec_err (Touch familyID at_).
Definition RevokeAllForUser (userID : string) : T error := exec_err (RevokeUser userID).
Definition RevokeAllForUserExcept (userID excludeID : string) : T error := exec_err (RevokeUserExcept userID excludeID).

Definition tokens_of (guard : RefreshToken -> bool) (s : Tokens) : list RefreshToken :=
  List.filter guard (List.map snd (map_to_list s)).

Definition CountActiveInFamily (familyID : string) : T (res Z) :=
  tquery (fun now s => Z.of_nat (length (tokens_of (fun t => in_family familyID t && active t && unexpired now t) s))).
Definition CountActiveForUser (userID : string) : T (res Z) :=
  tquery (fun now s => Z.of_nat (length (tokens_of (fun t => bool_decide (rt_UserID t = userID) && active t && unexpired now t) s))).

Definition MaxRecentFamilies : nat := 1000.
Definition maxRevokeBatch : nat := 1000.

(** The distinct families, by the creation of their newest row. *)
Fixpoint add_family (f : string) (created : time) (l : list (string * time)) : list (string * time) :=
  match l with
  | [] => [(f, created)]
  | (f', c) :: l' => if bool_decide (f' = f) then (f, Z.max c created) :: l' else (f', c) :: add_family f created l'
  end.
Definition families (l : list RefreshToken) : list (string * time) :=
  fold_left (fun acc t => add_family (SessionFamily t) (rt_CreatedAt t) acc) l [].
Definition ListRecentFamiliesForUser (userID : string) (since : time) : T (res (list string)) :=
  tquery (fun _ s =>
    take MaxRecentFamilies (List.map fst (sort_by (fun p => - p.2)%Z
      (families (tokens_of (fun t => bool_decide (rt_UserID t = userID) && (since <? rt_ExpiresAt t)%Z) s))))).

(** Newest first; ids decide ties. *)
Definition newer (a b : RefreshToken) : bool :=
  If negb (rt_CreatedAt a =? rt_CreatedAt b)%Z Return (rt_CreatedAt b <? rt_CreatedAt a)%Z ;;
  String.ltb (rt_ID b) (rt_ID a).
Definition RevokeOldestForUser (userID : string) (keep : Z) (excludeID : string) : T (res Z) :=
  let keep := if (keep <? 0)%Z then 0%Z else keep in
  get! r := tquery (fun now s =>
    take maxRevokeBatch (drop (Z.to_nat keep) (List.map rt_ID (sort_less newer
      (tokens_of (fun t => bool_decide (rt_UserID t = userID) && active t && unexpired now t &&
                           (empty excludeID || negb (bool_decide (rt_ID t = excludeID)))) s))))) in
  match r with
  | Err e => tret (Err e)
  | Ok ids =>
      If bool_decide (ids = []) Return tret (Ok 0%Z) ;;
      tdb (RevokeIDs ids)
  end.
Definition DeleteExpired (before : time) : T (res Z) := tdb (DeleteTokens before).

(** * What a program may do

    [rely P w]: the other requests keep the property [P] of the table.  [safe P Ev m Φ]:
    whatever else they do and whatever fails, [m] keeps [P], the events that it adds
    satisfy [Ev], and the result and the table at the end satisfy [Φ]. *)

Definition rely (P : Tokens -> Prop) (w : TWorld) : Prop := forall n s, P s -> P (te_others (tw_env w n) s).

Definition safe (Env : (nat -> TEnv) -> Prop) (P : Tokens -> Prop) (Ev : tevent -> Prop) {A} (m : T A)
    (Φ : A -> Tokens -> Prop) : Prop := forall w, Env (tw_env w) -> rely P w -> P (tw_db w) ->
  let w' := (m w).2 in
  tw_env w' = tw_env w /\ tw_quiet w' = tw_quiet w /\ P (tw_db w') /\
  (exists tr, tw_trace w' = tr ++ tw_trace w /\ Forall Ev tr) /\ Φ (m w).1 (tw_db w').

(** [ensured Pre m Φ]: the same from a table with [Pre], for the last steps of a
    request, which leave the table alone. *)
Definition ensured {A} (Pre : Tokens -> Prop) (m : T A) (Φ : A -> Tokens -> Prop) : Prop :=
  forall w, Pre (tw_db w) -> tw_db (m w).2 = tw_db w /\ Φ (m w).1 (tw_db w).

Lemma ensured_ret {A} Pre (a : A) (Φ : A -> Tokens -> Prop) : (forall s, Pre s -> Φ a s) -> ensured Pre (tret a) Φ.
Proof. intros H w Hw. split; [done|]. by apply H. Qed.
Lemma ensured_emit {A} Pre e (k : unit -> T A) Φ : ensured Pre (k tt) Φ -> ensured Pre (tbind (temit e) k) Φ.
Proof. intros H w Hw. apply (H (temit e w).2). exact Hw. Qed.

Section safe_rules.
Context (Env : (nat -> TEnv) -> Prop) (P : Tokens -> Prop) (Ev : tevent -> Prop).
Local Abbreviation safe := (safe Env P Ev).

Lemma safe_ret {A} (a : A) (Φ : A -> Tokens -> Prop) : (forall s, P s -> Φ a s) -> safe (tret a) Φ.
Proof. intros H w _ _ Hw. split_and!; try done; [by exists []|by apply H]. Qed.

Lemma safe_bind {A B} (m : T A) (k : A -> T B) Ψ Φ :
  safe m Ψ -> (forall a, (exists s, Ψ a s) -> safe (k a) Φ) -> safe (tbind m k) Φ.
Proof.
  intros Hm Hk w He Hr Hw. destruct (Hm w He Hr Hw) as (E1 & Q1 & P1 & (tr1 & T1 & F1) & H1).
  destruct (Hk (m w).1 (ex_intro _ _ H1) (m w).2) as (E2 & Q2 & P2 & (tr2 & T2 & F2) & H2).
  { by rewrite E1. } { intros n s. rewrite E1. apply Hr. } { done. }
  unfold tbind. cbn. split_and!; try congruence; try done.
  exists (tr2 ++ tr1). rewrite T2, T1, app_assoc. split; [done|by apply Forall_app].
Qed.
Lemma safe_ensured {A B} (m : T A) (k : A -> T B) Ψ Φ :
  safe m Ψ -> (forall a, safe (k a) (fun _ _ => True)) -> (forall a, ensured (Ψ a) (k a) Φ) -> safe (tbind m k) Φ.
Proof.
  intros Hm Hk Hd w He Hr Hw. destruct (Hm w He Hr Hw) as (E1 & Q1 & P1 & (tr1 & T1 & F1) & H1).
  destruct (Hk (m w).1 (m w).2) as (E2 & Q2 & P2 & (tr2 & T2 & F2) & _).
  { by rewrite E1. } { intros n s. rewrite E1. apply Hr. } { done. }
  destruct (Hd (m w).1 (m w).2 H1) as [Ed HΦ].
  unfold tbind. cbn. split_and!; try congruence; try done.
  - exists (tr2 ++ tr1). rewrite T2, T1, app_assoc. split; [done|by apply Forall_app].
Qed.
Lemma safe_post {A} (m : T A) (Ψ Φ : A -> Tokens -> Prop) :
  safe m Ψ -> (forall a s, P s -> Ψ a s -> Φ a s) -> safe m Φ.
Proof. intros Hm H w He Hr Hw. destruct (Hm w He Hr Hw) as (?&?&?&?&?). split_and!; auto. Qed.

Lemma safe_step : safe tstep (fun st s => True).
Proof. intros w He Hr Hw. cbn. split_and!; try done; [|by exists []]. destruct (tw_quiet w); [done|by apply Hr]. Qed.
Lemma safe_step_env : safe tstep (fun st s => exists env n, Env env /\ st = env n).
Proof.
  intros w He Hr Hw. cbn. split_and!; try done; [|by exists []|by eauto].
  destruct (tw_quiet w); [done|by apply Hr].
Qed.
Lemma safe_clock : safe tclock (fun _ _ => True).
Proof. eapply safe_bind; [apply safe_step|]. intros. by apply safe_ret. Qed.
Lemma safe_emit e : Ev e -> safe (temit e) (fun _ _ => True).
Proof. intros H w He Hr Hw. cbn. split_and!; try done. exists [e]. split; [done|by constructor]. Qed.
Lemma safe_when b m : (b = true -> safe m (fun _ _ => True)) -> safe (twhen b m) (fun _ _ => True).
Proof. destruct b; intros H; [by apply H|by apply safe_ret]. Qed.
Lemma safe_call e : Ev e -> safe (tcall e) (fun _ _ => True).
Proof.
  intros H. eapply safe_bind; [apply safe_step|]. intros st _.
  eapply safe_bind; [apply safe_when; intros _; by apply safe_emit|]. intros. by apply safe_ret.
Qed.
Lemma safe_forEach {A} (l : list A) f : (forall x, safe (f x) (fun _ _ => True)) -> safe (tforEach l f) (fun _ _ => True).
Proof.
  intros H. induction l as [|x l IH]; [by apply safe_ret|]. cbn. eapply safe_bind; [apply H|]. intros. exact IH.
Qed.

Lemma safe_query {A} (f : time -> Tokens -> A) Φ :
  (forall now s, P s -> Φ (f now s) s) -> safe (tquery f) (fun r s => forall a, r = Ok a -> Φ a s).
Proof.
  intros HΦ w He Hr Hw. unfold tquery. destruct (safe_step w He Hr Hw) as (E & Q & P1 & T1 & _).
  destruct (tstep w) as [st w1]. cbn [snd fst] in *. destruct (te_fault st); cbn; split_and!; try done.
  intros a [= <-]. by apply HΦ.
Qed.
Lemma safe_db op Φ :
  Ev (TWrite op) -> (forall s, P s -> P (texec op s).2) ->
  (forall s, P s -> match (texec op s).1 with Ok n => Φ n (texec op s).2 | Err _ => True end) ->
  safe (tdb op) (fun r s => forall n, r = Ok n -> Φ n s).
Proof.
  intros He Hop HΦ w HE Hr Hw. unfold tdb. destruct (safe_step w HE Hr Hw) as (E & Q & P1 & (tr & T1 & F1) & _).
  destruct (tstep w) as [st w1]. cbn [snd fst] in *. destruct (texec op (tw_db w1)) as [r s] eqn:Ex.
  pose proof (Hop _ P1) as P2. pose proof (HΦ _ P1) as H2. rewrite Ex in P2, H2. cbn [fst snd] in P2, H2.
  assert (Ht : exists tr', TWrite op :: tw_trace w1 = tr' ++ tw_trace w /\ Forall Ev tr').
  { exists (TWrite op :: tr). rewrite T1. split; [done|by constructor]. }
  destruct (te_fault st); [destruct (te_lost st)|]; cbn; split_and!; try done; try (by eexists).
  intros n ->. done.
Qed.

Lemma safe_tx {A} no (body : T (error * A)) Ψ :
  safe body Ψ -> safe (WithTx no body) (fun r _ => r.1 = None -> exists s, Ψ r s).
Proof.
  intros Hb w He Hr Hw. unfold WithTx. destruct (safe_step w He Hr Hw) as (E & Q & P1 & (tr1 & T1 & F1) & _).
  destruct (tstep w) as [st w1]. cbn [fst snd] in *. destruct (te_fault st) as [e|].
  { split_and!; try done. by exists tr1. }
  destruct (Hb (set_tquiet true w1)) as (E2 & Q2 & P2 & (tr2 & T2 & F2) & H2); [by rewrite <- E in He| |done|].
  { intros n s. cbn. rewrite E. apply Hr. }
  destruct (body (set_tquiet true w1)) as [[r a] w2]. cbn [fst snd set_tquiet tw_env tw_trace tw_db tw_quiet] in *. destruct r as [e|].
  { split_and!; cbn; try congruence; try done. by exists tr1. }
  assert (E2' : tw_env w2 = tw_env w) by congruence.
  destruct (safe_step w2) as (E3 & Q3 & P3 & (tr3 & T3 & F3) & _); [by rewrite E2'|intros n s; rewrite E2'; apply Hr|done|].
  destruct (tstep w2) as [st' w3]. cbn [fst snd] in *.
  assert (Ht : exists tr, tw_trace w3 = tr ++ tw_trace w /\ Forall Ev tr).
  { exists (tr3 ++ tr2 ++ tr1). rewrite T3, T2, T1, !app_assoc. split; [done|]. by rewrite !Forall_app. }
  destruct (te_fault st') as [e|]; [destruct (te_lost st')|]; split_and!; cbn; try congruence; try done.
  - by exists tr1.
  - intros _. by eexists.
Qed.
End safe_rules.
