(* ===== verification/Auth.v ===== *)
(** * Login, refresh and logout

    The session part of [api/handlers/auth.go]: login, the rotation of refresh tokens
    with the reuse grace, logout, logout from all sessions, the revocation of a user
    ([revokeUserAccess] of [users.go]) and the cleanup.  SHA-256 is a class; bcrypt, the
    login cache, the users and the session store answer anything at any time.  Metrics
    and logs are left out. *)

From S2P Require Import Prelude Models Store World Durations Access Tokens.
Local Open Scope string_scope.
Local Open Scope list_scope.

Class TokenHash := hashRefreshToken : string -> string.

(** ** Configuration and requests *)

Record AuthConfig := mkAuthConfig {
  ac_JWTExpiration : Z;
  ac_AccessTokenExpiration : Z;
  ac_RefreshTokenExpiration : Z;
  ac_SessionIdleTimeout : Z;
  ac_SessionMaxLifetime : Z;
  ac_RefreshReuseGrace : Z;
  ac_MaxRefreshTokensPerUser : Z
}.
Record AuthHandler := mkAuthHandler {
  ah_cfg : AuthConfig;
  ah_refreshTokenRepo : bool;
  ah_sessionStore : bool;
  ah_wsRevoker : bool;
  ah_loginCache : bool;
  ah_ssoOnly : bool
}.

(** The claims of an access token; [at_Expiration] is its lifetime. *)
Record AccessToken := mkAccess {
  at_UserID : string;
  at_Username : string;
  at_DisplayName : string;
  at_Role : string;
  at_AuthProvider : string;
  at_Email : string;
  at_SessionID : string;
  at_JTI : string;
  at_IssuedAt : time;
  at_Expiration : Z
}.

(** A request: the refresh cookie, the user agent (cut to 500 characters) and address of
    the client, and the claims of a valid bearer token. *)
Record AuthRequest := mkAuthRequest {
  aq_Cookie : option string;
  aq_UserAgent : string;
  aq_ClientIP : string;
  aq_Bearer : option AccessToken
}.

Inductive AuthBody :=
| ABError (message : string)
| ABMessage (message : string)
| ABToken (t : AccessToken)
| ABLogin (t : AccessToken) (u : User)
| ABUser (u : User)
| ABRole (id oldRole newRole : string) (changed : bool)
| ABNone.
Record AuthAnswer := mkAuthAnswer { an_Status : Z; an_Body : AuthBody }.
Definition fails (status : Z) (message : string) : AuthAnswer := mkAuthAnswer status (ABError message).

Definition errRefreshTokenConsumed := ESent "errRefreshTokenConsumed" "refresh token already consumed".
Definition errSessionRevoked := ESent "errSessionRevoked" "session_revoked".
Definition errUserGone := ESent "errUserGone" "user_not_found".
Definition errAccountDisabled := ESent "errAccountDisabled" "account_disabled".

(** [respondCancelled]. *)
Definition cancelled_answer (e : goerr) : option AuthAnswer :=
  option_map (fun a => fails a.1 a.2) (cancelledRequestError e).

Definition sessionBlockSkew : Z := Minute.
Definition userBlockTTL (accessTokenExpiration jwtExpiration : Z) : Z :=
  let ttl := if (accessTokenExpiration <? jwtExpiration)%Z then jwtExpiration else accessTokenExpiration in
  if (ttl <=? 0)%Z then (24 * Hour)%Z else ttl.

(** The session that a new refresh token belongs to. *)
Record refreshSession := mkSession {
  rs_startedAt : time;
  rs_lastActivity : option time;
  rs_familyID : string;
  rs_isNew : bool
}.
Definition continuedSession (t : RefreshToken) : refreshSession :=
  mkSession (SessionStart t) (rt_LastActivity t) (SessionFamily t) false.
Definition newRefreshSession : T refreshSession :=
  get! id := tstep in
  get! now := tclock in
  tret (mkSession now None (te_text id) true).

Section auth.
Context `{TokenHash}.
Context (h : AuthHandler).
Local Abbreviation cfg := (ah_cfg h).

Definition setRefreshCookie (rawToken : string) (expiresAt : time) : T unit :=
  get! now := tclock in
  let maxAge := Z.quot (expiresAt - now) Second in
  temit (TSetCookie rawToken (if (maxAge <? 1)%Z then 1%Z else maxAge)).
Definition clearRefreshCookie : T unit := temit TClearCookie.
Definition clear_and (a : AuthAnswer) : T AuthAnswer := do! clearRefreshCookie in tret a.

(** ** Access tokens *)

Definition authProviderOf (u : User) : string := if empty (us_AuthProvider u) then "local" else us_AuthProvider u.

(** [GenerateTokenWithOpts]: one signing. *)
Definition sign_token (u : User) (sessionID : string) (expiration : Z) : T (res AccessToken) :=
  get! st := tstep in
  tret (match te_fault st with
        | Some e => Err e
        | None => Ok (mkAccess (us_ID u) (us_Username u) (us_DisplayName u) (us_Role u) (authProviderOf u) (us_Email u)
                        sessionID (te_text st) (te_now st) expiration)
        end).
Definition sessionAccessToken (u : User) (sessionID : string) : T (res AccessToken) :=
  sign_token u sessionID (ac_AccessTokenExpiration cfg).

Definition find_user : T (res User) := get! st := tstep in tret (te_user st).
Definition recheckUserActive : T error :=
  get! r := find_user in
  tret (match r with
        | Err e => Some (if isNotFoundError e then errUserGone else e)
        | Ok u => if us_Disabled u then Some errAccountDisabled else None
        end).

(** ** Sessions *)

Definition sessionDeadline (start : time) : option time :=
  If (ac_SessionMaxLifetime cfg <=? 0)%Z Return None ;;
  Some (start + ac_SessionMaxLifetime cfg)%Z.
Definition sessionExpired (t : RefreshToken) (now : time) : bool :=
  match sessionDeadline (SessionStart t) with Some d => (d <? now)%Z | None => false end.

(** A zero activity is older than every timeout ([time.Time.Sub] saturates). *)
Definition idle_too_long (t : RefreshToken) (now : time) : bool :=
  match rt_LastActivity t with Some a => (ac_SessionIdleTimeout cfg <? now - a)%Z | None => true end.

Definition recheckSessionActive (familyID : string) : T error :=
  get! r := CountActiveInFamily familyID in
  tret (match r with
        | Err e => Some e
        | Ok n => If (n =? 0)%Z Return Some errSessionRevoked ;; None
        end).
Definition abandonSession (familyID : string) : T unit := do! RevokeFamily familyID in tret tt.

Definition createRefreshToken (q : AuthRequest) (userID : string) (sess : refreshSession) (excludeTokenID : string)
    : T (res (string * time)) :=
  get! capped := (If negb (0 <? ac_MaxRefreshTokensPerUser cfg)%Z Return tret None ;;
                  get! r := CountActiveForUser userID in
                  match r with
                  | Err e => tret (Some e)
                  | Ok n =>
                      If negb (ac_MaxRefreshTokensPerUser cfg <=? n)%Z Return tret None ;;
                      get! r := RevokeOldestForUser userID (ac_MaxRefreshTokensPerUser cfg - 1) excludeTokenID in
                      tret (match r with Err e => Some e | Ok _ => None end)
                  end) in
  match capped with
  | Some e => tret (Err e)
  | None =>
      get! raw := tstep in
      match te_fault raw with
      | Some e => tret (Err e)
      | None =>
          get! now := tclock in
          get! uuid := tstep in
          let id := if rs_isNew sess && negb (empty (rs_familyID sess)) then rs_familyID sess else te_text uuid in
          let familyID := if empty (rs_familyID sess) then id else rs_familyID sess in
          let lastActivity := match rs_lastActivity sess with Some a => a | None => now end in
          let expiresAt := (now + ac_RefreshTokenExpiration cfg)%Z in
          let expiresAt := match sessionDeadline (rs_startedAt sess) with
                           | Some d => if (d <? expiresAt)%Z then d else expiresAt
                           | None => expiresAt
                           end in
          get! err := token_Create (mkToken expiresAt (Some lastActivity) now (Some (rs_startedAt sess)) None id userID
                        (hashRefreshToken (te_text raw)) familyID (aq_UserAgent q) (aq_ClientIP q) false) in
          tret (match err with Some e => Err e | None => Ok (te_text raw, expiresAt) end)
      end
  end.

(** ** Blocks *)

Definition sessionBlockUntil : T time :=
  get! now := tclock in
  let ttl := ac_AccessTokenExpiration cfg in
  let ttl := if (ttl <=? 0)%Z then (24 * Hour)%Z else ttl in
  tret (now + (ttl + sessionBlockSkew))%Z.
Definition sessionLongBlockUntil : T time :=
  If (ac_SessionMaxLifetime cfg <=? 0)%Z Return sessionBlockUntil ;;
  get! now := tclock in
  tret (now + (ac_SessionMaxLifetime cfg + sessionBlockSkew))%Z.

Record sessionToBlock := mkToBlock { tb_id : string; tb_userID : string; tb_revokeFailed : bool }.

(** A failed block is only logged. *)
Definition block_batch (ids : list string) (until : time) : T unit :=
  If bool_decide (ids = []) Return tret tt ;;
  do! tcall (TBlockSessions ids until) in tret tt.
Definition blockSessions (sessions : list sessionToBlock) : T unit :=
  If negb (ah_sessionStore h) || bool_decide (sessions = nil) Return tret tt ;;
  let normal := List.map tb_id (List.filter (fun s => negb (tb_revokeFailed s)) sessions) in
  let long := List.map tb_id (List.filter tb_revokeFailed sessions) in
  get! until := sessionBlockUntil in
  get! longUntil := sessionLongBlockUntil in
  do! block_batch normal until in
  block_batch long longUntil.

(** [IsSessionBlocked] answers the flag of its step, or its failure. *)
Definition rejectBlockedSession (family : string) : T (option AuthAnswer) :=
  If negb (ah_sessionStore h) Return tret None ;;
  get! st := tstep in
  match te_fault st with
  | Some e => tret (cancelled_answer e)
  | None =>
      If negb (te_flag st) Return tret None ;;
      do! RevokeFamily family in
      do! clearRefreshCookie in
      tret (Some (fails 401 "Session revoked"))
  end.

(** ** Refresh *)

Definition findRefreshToken (hash : string) : T (RefreshToken + AuthAnswer) :=
  get! r := FindByTokenHash hash in
  match r with
  | Ok t => tret (inl t)
  | Err e =>
      match cancelled_answer e with
      | Some a => tret (inr a)
      | None =>
          If isNotFoundError e Return (do! clearRefreshCookie in tret (inr (fails 401 "Invalid refresh token"))) ;;
          tret (inr (fails 500 msgInternalServerError))
      end
  end.

Definition withinReuseGrace (stored : RefreshToken) (now : time) : bool :=
  match rt_RotatedAt stored with
  | None => false
  | Some rotated =>
      If (ac_RefreshReuseGrace cfg <=? 0)%Z Return false ;;
      If (ac_RefreshReuseGrace cfg <? now - rotated)%Z Return false ;;
      negb (sessionExpired stored now)
  end.

Definition rejectRefreshAfterSessionCheck (e : goerr) : T AuthAnswer :=
  match cancelled_answer e with
  | Some a => tret a
  | None =>
      do! clearRefreshCookie in
      tret (If errorsIs e "errSessionRevoked" Return fails 401 "Session revoked" ;;
            fails 500 msgInternalServerError)
  end.
Definition rejectRefreshAfterRecheck (userID : string) (e : goerr) : T AuthAnswer :=
  match cancelled_answer e with
  | Some a => tret a
  | None =>
      do! RevokeAllForUser userID in
      do! clearRefreshCookie in
      tret (If errorsIs e "errAccountDisabled" Return fails 403 "Account disabled" ;;
            If errorsIs e "errUserGone" Return fails 401 "Invalid refresh token" ;;
            fails 500 msgInternalServerError)
  end.

Definition respondGraceRefresh (u : User) (sessionID : string) : T AuthAnswer :=
  get! token := sessionAccessToken u sessionID in
  match token with
  | Err _ => tret (fails 500 msgInternalServerError)
  | Ok token =>
      get! err := recheckUserActive in
      match err with
      | Some e => rejectRefreshAfterRecheck (us_ID u) e
      | None =>
          get! err := recheckSessionActive sessionID in
          match err with
          | Some e => rejectRefreshAfterSessionCheck e
          | None => tret (mkAuthAnswer 200 (ABToken token))
          end
      end
  end.

(** [None]: the caller treats the token as a replay. *)
Definition tryGraceRefresh (stored : RefreshToken) (family : string) : T (option AuthAnswer) :=
  get! r := find_user in
  match r with
  | Err e =>
      match cancelled_answer e with
      | Some a => tret (Some a)
      | None => If negb (isNotFoundError e) Return tret (Some (fails 500 msgInternalServerError)) ;; tret None
      end
  | Ok u =>
      If us_Disabled u Return tret None ;;
      get! r := CountActiveInFamily family in
      match r with
      | Err e => tret (Some (default (fails 500 msgInternalServerError) (cancelled_answer e)))
      | Ok n =>
          If (n =? 0)%Z Return tret None ;;
          get! blocked := rejectBlockedSession family in
          match blocked with
          | Some a => tret (Some a)
          | None => get! a := respondGraceRefresh u family in tret (Some a)
          end
      end
  end.

(** A replay ends the session. *)
Definition revoke_replayed (family : string) : T AuthAnswer :=
  get! revokeErr := RevokeFamily family in
  do! blockSessions [mkToBlock family "" (bool_decide (is_Some revokeErr))] in
  clear_and (fails 401 "Invalid refresh token").

Definition refreshConsumedToken (stored : RefreshToken) (now : time) : T AuthAnswer :=
  let family := SessionFamily stored in
  get! graced := (if withinReuseGrace stored now then tryGraceRefresh stored family else tret None) in
  match graced with
  | Some a => tret a
  | None => revoke_replayed family
  end.

(** The rotation in its transaction; the session with the latest activity. *)
Definition carryLatestActivity (hash : string) (sess : refreshSession) : T (res refreshSession) :=
  get! r := FindByTokenHash hash in
  tret (match r with
        | Err e => Err e
        | Ok current =>
            Ok (mkSession (rs_startedAt sess)
                  (match rt_LastActivity current, rs_lastActivity sess with
                   | Some c, Some s => if (s <? c)%Z then Some c else Some s
                   | Some c, None => Some c
                   | None, s => s
                   end) (rs_familyID sess) (rs_isNew sess))
        end).
Definition rotate (q : AuthRequest) (stored : RefreshToken) (hash userID : string) (now : time)
    : T (error * (string * time)) :=
  get! r := WithTx ("", 0%Z) (
    get! affected := MarkRotatedIfActive (rt_ID stored) now in
    match affected with
    | Err e => tret (Some e, ("", 0%Z))
    | Ok n =>
        If (n =? 0)%Z Return tret (Some errRefreshTokenConsumed, ("", 0%Z)) ;;
        get! sess := carryLatestActivity hash (continuedSession stored) in
        match sess with
        | Err e => tret (Some e, ("", 0%Z))
        | Ok sess =>
            get! issued := createRefreshToken q userID sess (rt_ID stored) in
            tret (match issued with Err e => (Some e, ("", 0%Z)) | Ok x => (None, x) end)
        end
    end) in
  get! ctx := tstep in
  tret (withContextErr (te_fault ctx) "refresh token transaction" r.1, r.2).

(** After the checks of the stored token and of its user. *)
Definition refresh_session (q : AuthRequest) (stored : RefreshToken) (hash : string) (u : User) (now : time) : T AuthAnswer :=
  get! rotated := rotate q stored hash (us_ID u) now in
  match rotated with
  | (Some e, _) =>
      If errorsIs e "errRefreshTokenConsumed" Return (
        get! latest := findRefreshToken hash in
        match latest with
        | inr a => tret a
        | inl latest => refreshConsumedToken latest now
        end) ;;
      tret (fails 500 msgInternalServerError)
  | (None, (newRawToken, newExpiresAt)) =>
      let family := SessionFamily stored in
      get! token := sessionAccessToken u family in
      match token with
      | Err _ => tret (fails 500 msgInternalServerError)
      | Ok token =>
          get! err := recheckUserActive in
          match err with
          | Some e => rejectRefreshAfterRecheck (us_ID u) e
          | None =>
              get! err := recheckSessionActive family in
              match err with
              | Some e => rejectRefreshAfterSessionCheck e
              | None =>
                  do! setRefreshCookie newRawToken newExpiresAt in
                  tret (mkAuthAnswer 200 (ABToken token))
              end
          end
      end
  end.

(** The user of an active token; an error of the lookup is answered like a missing
    user. *)
Definition refresh_active (q : AuthRequest) (stored : RefreshToken) (hash : string) (now : time) : T AuthAnswer :=
  get! blocked := rejectBlockedSession (SessionFamily stored) in
  match blocked with
  | Some a => tret a
  | None =>
      get! r := find_user in
      match r with
      | Err e => tret (default (fails 401 "Invalid refresh token") (cancelled_answer e))
      | Ok u =>
          If us_Disabled u Return (
            do! RevokeAllForUser (rt_UserID stored) in
            clear_and (fails 403 "Account disabled")) ;;
          refresh_session q stored hash u now
      end
  end.

Definition Refresh (q : AuthRequest) : T AuthAnswer :=
  If negb (ah_refreshTokenRepo h) Return tret (fails 501 "Refresh tokens are not enabled") ;;
  let rawToken := default "" (aq_Cookie q) in
  If empty rawToken Return tret (fails 401 "Refresh token required") ;;
  let hash := hashRefreshToken rawToken in
  get! r := findRefreshToken hash in
  match r with
  | inr a => tret a
  | inl stored =>
      get! now := tclock in
      If rt_Revoked stored Return refreshConsumedToken stored now ;;
      If (rt_ExpiresAt stored <? now)%Z Return clear_and (fails 401 "Refresh token expired") ;;
      If sessionExpired stored now Return (
        do! RevokeFamily (SessionFamily stored) in
        clear_and (fails 401 "Session expired")) ;;
      If idle_too_long stored now Return (
        do! RevokeByID (rt_ID stored) in
        clear_and (fails 401 "Session idle timeout exceeded")) ;;
      refresh_active q stored hash now
  end.

(** ** Login *)

Definition msgInvalidCredentials := "Invalid username or password".
Definition msgAccountDisabled := "Account disabled".
Definition msgLocalLoginRestricted := "Local login is restricted to service accounts. Please use SSO.".

(** The check of the password: a hit of the login cache proves it, an empty or malformed
    hash is compared like a wrong one. *)
Definition password_checked (u : User) : T bool :=
  get! hit := (if ah_loginCache h then (get! st := tstep in tret (te_flag st)) else tret false) in
  If hit Return tret true ;;
  If empty (us_PasswordHash u) Return (do! tstep in tret false) ;;
  get! cost := tstep in
  If bool_decide (is_Some (te_fault cost)) Return (do! tstep in tret false) ;;
  get! compare := tstep in
  tret (bool_decide (te_fault compare = None)).

(** The user of a login: read by name, the password checked, and read again. *)
Definition login_user : T (User + AuthAnswer) :=
  get! r := find_user in
  match r with
  | Err e =>
      match cancelled_answer e with
      | Some a => tret (inr a)
      | None =>
          If negb (isNotFoundError e) Return tret (inr (fails 500 msgInternalServerError)) ;;
          do! tstep in tret (inr (fails 401 msgInvalidCredentials))
      end
  | Ok u =>
      get! ok := password_checked u in
      If negb ok Return tret (inr (fails 401 msgInvalidCredentials)) ;;
      get! r := find_user in
      tret (match r with
            | Err e =>
                match cancelled_answer e with
                | Some a => inr a
                | None => If isNotFoundError e Return inr (fails 401 msgInvalidCredentials) ;;
                          inr (fails 500 msgInternalServerError)
                end
            | Ok fresh =>
                If negb (bool_decide (us_PasswordHash fresh = us_PasswordHash u)) Return inr (fails 401 msgInvalidCredentials) ;;
                If us_Disabled fresh Return inr (fails 403 msgAccountDisabled) ;;
                If ah_ssoOnly h && negb (us_ServiceAccount fresh) Return inr (fails 403 msgLocalLoginRestricted) ;;
                inl fresh
            end)
  end.

(** The answer to a user that is gone or disabled after the signing. *)
Definition login_recheck_answer (e : goerr) : AuthAnswer :=
  match cancelled_answer e with
  | Some a => a
  | None =>
      If errorsIs e "errAccountDisabled" Return fails 403 msgAccountDisabled ;;
      If errorsIs e "errUserGone" Return fails 401 msgInvalidCredentials ;;
      fails 500 msgInternalServerError
  end.

(** The refresh token of a new session; a failed create is ignored. *)
Definition start_session (q : AuthRequest) (u : User) (sess : refreshSession) : T (option AuthAnswer) :=
  get! issued := createRefreshToken q (us_ID u) sess "" in
  match issued with
  | Err _ => tret None
  | Ok (raw, expiry) =>
      get! err := recheckSessionActive (rs_familyID sess) in
      match err with
      | Some e =>
          do! abandonSession (rs_familyID sess) in
          do! clearRefreshCookie in
          tret (Some (If errorsIs e "errSessionRevoked" Return fails 401 "Session revoked" ;;
                      fails 500 msgInternalServerError))
      | None => do! setRefreshCookie raw expiry in tret None
      end
  end.

Definition Login (q : AuthRequest) (body_ok : bool) : T AuthAnswer :=
  If negb body_ok Return tret (fails 400 msgInvalidRequestFormat) ;;
  get! r := login_user in
  match r with
  | inr a => tret a
  | inl u =>
      get! sess := (if ah_refreshTokenRepo h then (get! s := newRefreshSession in tret (Some s)) else tret None) in
      get! token := match sess with
                    | Some s => sessionAccessToken u (rs_familyID s)
                    | None => sign_token u "" (ac_JWTExpiration cfg)
                    end in
      match token with
      | Err _ => tret (fails 500 msgInternalServerError)
      | Ok token =>
          get! err := recheckUserActive in
          match err with
          | Some e => tret (login_recheck_answer e)
          | None =>
              get! refused := match sess with Some s => start_session q u s | None => tret None end in
              tret (default (mkAuthAnswer 200 (ABLogin token u)) refused)
          end
      end
  end.

(** ** Logout *)

(** The sessions that the request proves; the lookup error is kept for the answer. *)
Definition cookie_session (q : AuthRequest) : T (list sessionToBlock * bool) :=
  let rawToken := default "" (aq_Cookie q) in
  If empty rawToken Return tret ([], false) ;;
  get! r := FindByTokenHash (hashRefreshToken rawToken) in
  tret (match r with
        | Ok stored => ([mkToBlock (SessionFamily stored) (rt_UserID stored) false], false)
        | Err e => ([], negb (isNotFoundError e))
        end).
Definition add_bearer (bearer : option AccessToken) (sessions : list sessionToBlock) : list sessionToBlock :=
  match bearer with
  | Some t =>
      If empty (at_SessionID t) || bool_decide (List.map tb_id sessions = [at_SessionID t]) Return sessions ;;
      sessions ++ [mkToBlock (at_SessionID t) (at_UserID t) false]
  | None => sessions
  end.
Fixpoint revoke_each (sessions : list sessionToBlock) : T (list sessionToBlock) :=
  match sessions with
  | [] => tret []
  | s :: rest =>
      get! err := (if empty (tb_userID s) then RevokeFamily (tb_id s) else RevokeFamilyForUser (tb_id s) (tb_userID s)) in
      get! rest := revoke_each rest in
      tret (mkToBlock (tb_id s) (tb_userID s) (bool_decide (is_Some err)) :: rest)
  end.
Definition revokeLogoutSessions (q : AuthRequest) : T (list sessionToBlock * bool) :=
  If negb (ah_refreshTokenRepo h) Return tret ([], false) ;;
  get! r := cookie_session q in
  get! sessions := revoke_each (add_bearer (aq_Bearer q) r.1) in
  tret (sessions, r.2 || existsb tb_revokeFailed sessions).

(** [BlockToken] until the presented token ends. *)
Definition block_bearer (t : AccessToken) : T unit :=
  do! tcall (TBlockToken (at_JTI t) (at_IssuedAt t + at_Expiration t)%Z) in tret tt.

Definition Logout (q : AuthRequest) : T AuthAnswer :=
  get! r := revokeLogoutSessions q in
  do! blockSessions r.1 in
  do! (match aq_Bearer q with
       | Some t =>
           twhen (negb (empty (at_JTI t)))
             (do! twhen (ah_sessionStore h) (do! tclock in block_bearer t) in
              twhen (ah_wsRevoker h) (temit (TDisconnectToken (at_JTI t))))
       | None => tret tt
       end) in
  do! clearRefreshCookie in
  tret (If r.2 Return fails 500 msgInternalServerError ;;
        mkAuthAnswer 200 (ABMessage "Logged out successfully")).

Definition sessionListWindow : Z := (ac_AccessTokenExpiration cfg + sessionBlockSkew + ac_RefreshReuseGrace cfg)%Z.

(** The distinct sessions of the listing, then the one of the bearer token. *)
Fixpoint distinct (l : list string) : list string :=
  match l with
  | [] => []
  | x :: l' => x :: List.filter (fun y => negb (bool_decide (y = x))) (distinct l')
  end.
Definition recentSessionsToBlock (userID sid : string) : T (list string) :=
  get! listed := (If negb (ah_refreshTokenRepo h) Return tret [] ;;
                  get! now := tclock in
                  get! r := ListRecentFamiliesForUser userID (now - sessionListWindow) in
                  tret (match r with Ok l => l | Err _ => [] end)) in
  tret (distinct (List.filter (fun f => negb (empty f)) (listed ++ [sid]))).

(** The caller of a protected route is the user of its bearer token. *)
Definition LogoutAll (q : AuthRequest) : T AuthAnswer :=
  match aq_Bearer q with
  | None => tret (fails 401 "Authentication required")
  | Some t =>
      let userID := at_UserID t in
      If empty userID Return tret (fails 401 "Authentication required") ;;
      get! revoked := (if ah_refreshTokenRepo h then RevokeAllForUser userID else tret None) in
      let revokeFailed := bool_decide (is_Some revoked) in
      get! ids := recentSessionsToBlock userID (at_SessionID t) in
      do! blockSessions (List.map (fun id => mkToBlock id "" revokeFailed) ids) in
      do! twhen (ah_sessionStore h)
        (get! now := tclock in
         do! tcall (TBlockUser userID (now + userBlockTTL (ac_AccessTokenExpiration cfg) (ac_JWTExpiration cfg))%Z) in
         twhen (negb (empty (at_JTI t))) (block_bearer t)) in
      do! twhen (ah_wsRevoker h) (temit (TDisconnectUser userID)) in
      do! clearRefreshCookie in
      tret (If revokeFailed Return fails 500 msgInternalServerError ;;
            mkAuthAnswer 200 (ABMessage "Logged out from all sessions"))
  end.

(** [revokeUserAccess] of a [UserHandler] with the same collaborators and lifetimes,
    after a delete, disable, password reset or role change of a user; [keys]: the API key
    repository is configured. *)
Definition blockIssuedTokens (userID : string) : T unit :=
  twhen (ah_sessionStore h)
    (get! now := tclock in
     do! tcall (TBlockUser userID (now + userBlockTTL (ac_AccessTokenExpiration cfg) (ac_JWTExpiration cfg))%Z) in tret tt).
Definition revokeUserAccess (userID : string) (deleteAPIKeys keys : bool) : T unit :=
  do! (if ah_refreshTokenRepo h then RevokeAllForUser userID else tret None) in
  do! blockIssuedTokens userID in
  do! twhen (deleteAPIKeys && keys) (do! tcall (TDeleteKeys userID) in tret tt) in
  twhen (ah_wsRevoker h) (temit (TDisconnectUser userID)).

Definition CleanupExpiredTokens : T unit :=
  If negb (ah_refreshTokenRepo h) Return tret tt ;;
  get! now := tclock in
  do! DeleteExpired (now - sessionListWindow) in tret tt.

(** The activity hook of the access tokens ([sessionActivity] of [api/bootstrap.go]). *)
Definition session_activity (sessionID : string) (at_ : time) : T error := TouchFamily sessionID at_.

(** ** All requests *)

Inductive AuthCall :=
| CallLogin (body_ok : bool) | CallRefresh | CallLogout | CallLogoutAll.
Definition auth_call (k : AuthCall) (q : AuthRequest) : T AuthAnswer :=
  match k with
  | CallLogin ok => Login q ok
  | CallRefresh => Refresh q
  | CallLogout => Logout q
  | CallLogoutAll => LogoutAll q
  end.
End auth.
