(* ===== verification/Revocation.v ===== *)
(** * Sessions end for good

    Theorems about the requests of [Auth] under any interleaving with other requests
    and any failure: a revoked session gets no token again, a new access token needs a
    live session, and a session never outlives its login. *)

From S2P Require Import Prelude Models Store World Access Tokens Auth.
Local Open Scope string_scope.
Local Open Scope list_scope.

(** ** Families *)

(** No token of the family is active. *)
Definition dead (F : string) (s : Tokens) : Prop :=
  forall id t, s !! id = Some t -> in_family F t = true -> rt_Revoked t = true.
Definition live (F : string) (s : Tokens) : Prop :=
  exists id t now, s !! id = Some t /\ in_family F t = true /\ rt_Revoked t = false /\ (now < rt_ExpiresAt t)%Z.

Lemma family_in t : in_family (SessionFamily t) t = true.
Proof.
  unfold in_family, SessionFamily. apply orb_true_iff.
  destruct (empty (rt_FamilyID t)); [right|left]; by apply bool_decide_eq_true.
Qed.

Lemma has_hash_some hash s t : has_hash hash s = Some t -> exists id, s !! id = Some t.
Proof.
  intros [Hin _]%List.find_some. apply list_elem_of_In, list_elem_of_fmap in Hin as ([id t'] & -> & Hin).
  exists id. by apply elem_of_map_to_list.
Qed.

Lemma update_all_lookup guard f s id :
  (update_all guard f s).2 !! id = (fun t => if guard t then f t else t) <$> s !! id.
Proof. unfold update_all. cbn. by rewrite lookup_fmap. Qed.

(** A statement that creates no token leaves the tokens of a table where they are: what
    holds of every row and is kept by the updates holds of every row. *)
Definition keeps_rows (I : RefreshToken -> Prop) : Prop :=
  (forall t, I t -> I (set_revoked t)) /\ (forall a t, I t -> I (set_rotated a t)) /\ (forall a t, I t -> I (set_activity a t)).
Definition rows (I : RefreshToken -> Prop) (s : Tokens) : Prop := forall id t, s !! id = Some t -> I t.

Lemma texec_rows I op s :
  keeps_rows I -> (forall t, op = CreateToken t -> I t) -> rows I s -> rows I (texec op s).2.
Proof.
  intros (Hr & Hro & Ha) Hc Hs id t. destruct op; cbn [texec];
    try (rewrite update_all_lookup; destruct (s !! id) as [t0|] eqn:E; [|done]; cbn; intros [= <-];
         specialize (Hs id t0 E); case_match; auto).
  - case_match; cbn [snd]; [apply Hs|]. rewrite lookup_insert_Some. intros [[_ <-]|[_ Hl]]; [by apply Hc|by eapply Hs].
  - cbn [snd]. intros [Hl _]%map_lookup_filter_Some. by eapply Hs.
Qed.

Lemma dead_rows F s : dead F s <-> rows (fun t => in_family F t = true -> rt_Revoked t = true) s.
Proof. done. Qed.
Lemma keeps_dead F : keeps_rows (fun t => in_family F t = true -> rt_Revoked t = true).
Proof. split_and!; [done|done|]. intros a t Ht. exact Ht. Qed.

Lemma tokens_of_elem guard s t : t ∈ tokens_of guard s -> (exists id, s !! id = Some t) /\ guard t = true.
Proof.
  unfold tokens_of. intros Hin%list_elem_of_In. apply List.filter_In in Hin as [Hin Hg]. split; [|done].
  apply list_elem_of_In, list_elem_of_fmap in Hin as ([id t'] & -> & Hin). exists id. by apply elem_of_map_to_list.
Qed.

(** A family counts active tokens only when it is live. *)
Lemma count_live F now s :
  Z.of_nat (length (tokens_of (fun t => in_family F t && active t && unexpired now t) s)) <> 0%Z -> live F s.
Proof.
  destruct (tokens_of _ s) as [|t l] eqn:E; [done|]. intros _.
  assert (Ht : t ∈ tokens_of (fun t => in_family F t && active t && unexpired now t) s) by (rewrite E; by left).
  apply tokens_of_elem in Ht as [[id Hid] Hg]. apply andb_true_iff in Hg as [[Hf Ha]%andb_true_iff Hu].
  exists id, t, now. split_and!; try done; [by apply negb_true_iff|by apply Z.ltb_lt].
Qed.
Lemma live_dead F s : live F s -> dead F s -> False.
Proof. intros (id & t & n & Hl & Hf & Hr & _) Hd. specialize (Hd id t Hl Hf). congruence. Qed.

(** ** The parts of a request *)

Definition no_create (e : tevent) : Prop := forall t, e <> TWrite (CreateToken t).

Section parts.
Context `{TokenHash} (h : AuthHandler).
Context (Env : (nat -> TEnv) -> Prop) (I : RefreshToken -> Prop) (HI : keeps_rows I).
Context (Ev : tevent -> Prop) (Hev : forall e, no_create e -> Ev e).
Local Abbreviation safe := (safe Env (rows I) Ev).

Ltac ev := apply Hev; by intros ?.
Ltac pass H := eapply (safe_bind _ _ _ _ _ (fun _ _ => True)); [first [solve [apply H; try ev] | eapply safe_post; [apply H; try ev|done]]|intros ? _].

Lemma safe_exec op : no_create (TWrite op) -> safe (exec_err op) (fun _ _ => True).
Proof.
  intros Hop. unfold exec_err. eapply safe_bind.
  - apply (safe_db _ _ _ _ (fun _ _ => True)); [by apply Hev| |].
    + intros s. apply texec_rows; [done|]. intros t ->. by destruct (Hop t).
    + intros s _. by case_match.
  - intros. by apply safe_ret.
Qed.
Lemma safe_create t : I t -> Ev (TWrite (CreateToken t)) -> safe (token_Create t) (fun _ _ => True).
Proof.
  intros Ht He. unfold token_Create, exec_err. eapply safe_bind.
  - apply (safe_db _ _ _ _ (fun _ _ => True)); [done| |].
    + intros s. apply texec_rows; [done|]. by intros ? [= <-].
    + intros s _. by case_match.
  - intros. by apply safe_ret.
Qed.
Lemma safe_MarkRotated id at_ : safe (MarkRotatedIfActive id at_) (fun _ _ => True).
Proof.
  unfold MarkRotatedIfActive. eapply safe_post; [apply (safe_db _ _ _ _ (fun _ _ => True))|done].
  - ev.
  - intros s. apply texec_rows; [done|by intros ?].
  - intros s _. by case_match.
Qed.
Lemma safe_RevokeOldest u k x : safe (RevokeOldestForUser u k x) (fun _ _ => True).
Proof.
  unfold RevokeOldestForUser. eapply (safe_bind _ _ _ _ _ (fun _ _ => True)).
  - eapply safe_post; [apply (safe_query _ _ _ _ (fun _ _ => True)); done|done].
  - intros [ids|e] _; [|by apply safe_ret]. case_match; [by apply safe_ret|].
    eapply safe_post; [apply (safe_db _ _ _ _ (fun _ _ => True))|done].
    + ev.
    + intros s. apply texec_rows; [done|by intros ?].
    + intros s _. by case_match.
Qed.
Lemma safe_count {A} (f : time -> Tokens -> A) : safe (tquery f) (fun _ _ => True).
Proof. eapply safe_post; [apply (safe_query _ _ _ _ (fun _ _ => True)); done|done]. Qed.

(** A token that is found is a row of the table. *)
Lemma safe_FindByTokenHash hash :
  safe (FindByTokenHash hash) (fun r _ => forall t, r = Ok t -> I t /\ rt_TokenHash t = hash).
Proof.
  unfold FindByTokenHash. eapply safe_bind.
  - apply (safe_query _ _ _ _ (fun o _ => forall t, o = Some t -> I t /\ rt_TokenHash t = hash)).
    intros _ s Hs t Hf. split.
    + destruct (has_hash_some _ _ _ Hf) as [id Hid]. by eapply Hs.
    + apply List.find_some in Hf as [_ Hf]. by apply bool_decide_eq_true in Hf.
  - intros r [s Hr]. apply safe_ret. intros _ _ t. destruct r as [[x|]|e]; intros [= <-]. by apply (Hr (Some x)).
Qed.
Lemma safe_clear : safe clearRefreshCookie (fun _ _ => True).
Proof. apply safe_emit. ev. Qed.
Lemma safe_clear_and a (Φ : AuthAnswer -> Tokens -> Prop) : (forall s, Φ a s) -> safe (clear_and a) Φ.
Proof. intros Ha. eapply safe_bind; [apply safe_clear|]. intros. by apply safe_ret. Qed.
Lemma safe_findRefreshToken hash : safe (findRefreshToken hash)
  (fun r _ => (forall t, r = inl t -> I t /\ rt_TokenHash t = hash) /\ forall a, r = inr a -> exists c m, a = fails c m).
Proof.
  unfold findRefreshToken. eapply safe_bind; [apply safe_FindByTokenHash|]. intros [t|e] [s Hr].
  - apply safe_ret. intros _ _. split; [|done]. intros ? [= <-]. by apply Hr.
  - unfold cancelled_answer. destruct (cancelledRequestError e) as [a|]; cbn.
    + apply safe_ret. intros _ _. split; [done|]. intros ? [= <-]. eauto.
    + case_match; [eapply safe_bind; [apply safe_clear|]; intros _ _|]; apply safe_ret; intros _ _;
        (split; [done|]; intros ? [= <-]; eauto).
Qed.

(** *** Answers *)

(** The access token of an answer. *)
Definition token_of (a : AuthAnswer) : option AccessToken :=
  match an_Body a with ABToken t | ABLogin t _ => Some t | _ => None end.
Definition no_token (a : AuthAnswer) : Prop := token_of a = None.

Lemma fails_no_token c m : no_token (fails c m).
Proof. done. Qed.
Lemma cancelled_no_token e a : cancelled_answer e = Some a -> no_token a.
Proof. unfold cancelled_answer. destruct (cancelledRequestError e); [|done]. by intros [= <-]. Qed.

Lemma safe_rejectBlocked family : safe (rejectBlockedSession h family) (fun r _ => forall a, r = Some a -> no_token a).
Proof.
  unfold rejectBlockedSession. case_match; [by apply safe_ret|]. eapply safe_bind; [apply safe_step|]. intros st _.
  destruct (te_fault st) as [e|]; [apply safe_ret; intros _ _ a; apply cancelled_no_token|].
  case_match; [by apply safe_ret|]. eapply safe_bind; [apply safe_exec; by intros ?|]. intros _ _.
  eapply safe_bind; [apply safe_clear|]. intros _ _. apply safe_ret. by intros _ _ ? [= <-].
Qed.
(** Some lookup of the request found an enabled user. *)
Definition user_enabled : Prop := exists env n u, Env env /\ te_user (env n) = Ok u /\ us_Disabled u = false.
Lemma safe_recheckUser : safe recheckUserActive (fun r _ => r = None -> user_enabled).
Proof.
  unfold recheckUserActive, find_user.
  eapply (safe_bind _ _ _ _ _ (fun r _ => exists env n, Env env /\ r = te_user (env n))).
  - eapply safe_bind; [apply safe_step_env|]. intros st [_ (env & n & He & ->)]. apply safe_ret. eauto.
  - intros r [_ (env & n & He & ->)]. apply safe_ret. intros _ _ Hr. exists env, n.
    destruct (te_user (env n)) as [u|e]; [|done]. exists u. split_and!; try done. by destruct (us_Disabled u).
Qed.
Lemma safe_find_user : safe find_user (fun _ _ => True).
Proof. eapply safe_bind; [apply safe_step|]. intros. by apply safe_ret. Qed.
Lemma safe_afterRecheck u e : safe (rejectRefreshAfterRecheck u e) (fun a _ => no_token a).
Proof.
  unfold rejectRefreshAfterRecheck. destruct (cancelled_answer e) as [a|] eqn:E.
  - apply safe_ret. intros _ _. by eapply cancelled_no_token.
  - eapply safe_bind; [apply safe_exec; by intros ?|]. intros _ _. eapply safe_bind; [apply safe_clear|]. intros _ _.
    apply safe_ret. intros _ _. by repeat case_match.
Qed.
Lemma ensured_sessionCheck Pre e : ensured Pre (rejectRefreshAfterSessionCheck e) (fun a _ => no_token a).
Proof.
  unfold rejectRefreshAfterSessionCheck. destruct (cancelled_answer e) as [a|] eqn:E.
  - apply ensured_ret. intros _ _. by eapply cancelled_no_token.
  - apply ensured_emit. apply ensured_ret. intros. by repeat case_match.
Qed.
Lemma safe_sessionCheck e : safe (rejectRefreshAfterSessionCheck e) (fun _ _ => True).
Proof.
  unfold rejectRefreshAfterSessionCheck. case_match; [by apply safe_ret|].
  eapply safe_bind; [apply safe_clear|]. intros. by apply safe_ret.
Qed.
Lemma safe_sign u sid e : safe (sign_token u sid e) (fun r _ => forall t, r = Ok t -> at_SessionID t = sid).
Proof.
  unfold sign_token. eapply safe_bind; [apply safe_step|]. intros st _. apply safe_ret. intros _ _ t. case_match; [done|].
  by intros [= <-].
Qed.
Lemma safe_recheckSession F : safe (recheckSessionActive F) (fun r s => r = None -> rows I s /\ live F s).
Proof.
  unfold recheckSessionActive. eapply safe_ensured.
  - apply (safe_query _ _ _ _ (fun n s => n <> 0%Z -> rows I s /\ live F s)). intros now s Hs Hn. split; [done|by eapply count_live].
  - intros. by apply safe_ret.
  - intros r. apply ensured_ret. intros s Hr. destruct r as [n|e]; [|done]. case_match eqn:En; [done|].
    intros _. by eapply Hr, Z.eqb_neq.
Qed.

(** *** Refresh *)

(** What stands behind a new access token: a stored token of its session, whose maximum
    lifetime has not passed at a clock reading of the request, a table in which the
    session has an active token, and an enabled user. *)
Definition granted (tok : AccessToken) : Prop :=
  (exists stored env n, Env env /\ I stored /\ SessionFamily stored = at_SessionID tok /\
     sessionExpired h stored (te_now (env n)) = false) /\
  (exists s, rows I s /\ live (at_SessionID tok) s) /\ user_enabled.
Definition grants (a : AuthAnswer) : Prop := forall tok, token_of a = Some tok -> granted tok.

(** The same for a token of the session [F]. *)
Definition grants_of (F : string) (a : AuthAnswer) : Prop :=
  forall tok, token_of a = Some tok -> at_SessionID tok = F /\ granted tok.

Lemma no_token_grants_of F a : no_token a -> grants_of F a.
Proof. intros Hn tok Ht. unfold no_token in Hn. congruence. Qed.
Lemma grants_of_grants F a : grants_of F a -> grants a.
Proof. intros Hg tok Ht. by apply (Hg tok). Qed.
Lemma no_token_grants a : no_token a -> grants a.
Proof. intros Hn tok Ht. unfold no_token in Hn. congruence. Qed.

(** A token that a rotation may store after [stored]. *)
Definition generated (x : string) : Prop := exists env n, Env env /\ x = te_text (env n).
Definition successor (stored t : RefreshToken) : Prop :=
  generated (rt_ID t) /\ (exists raw, generated raw /\ rt_TokenHash t = hashRefreshToken raw) /\
  rt_FamilyID t = (if empty (SessionFamily stored) then rt_ID t else SessionFamily stored) /\
  rt_SessionStartedAt t = Some (SessionStart stored) /\ rt_Revoked t = false /\
  (forall d, sessionDeadline h (SessionStart stored) = Some d -> (rt_ExpiresAt t <= d)%Z).
Context (cookie : string) (Hcreate : forall stored t, I stored -> rt_TokenHash stored = hashRefreshToken cookie ->
  rt_Revoked stored = false -> successor stored t -> I t /\ Ev (TWrite (CreateToken t))).

Lemma safe_clock_env : safe tclock (fun now _ => exists env n, Env env /\ now = te_now (env n)).
Proof.
  eapply safe_bind; [apply safe_step_env|]. intros st [_ (env & n & He & ->)]. apply safe_ret. intros _ _. eauto.
Qed.

(** A token that [createRefreshToken] may store for a session. *)
Definition issued (sess : refreshSession) (t : RefreshToken) : Prop :=
  (generated (rt_ID t) \/ rs_isNew sess = true /\ rt_ID t = rs_familyID sess) /\
  (exists raw, generated raw /\ rt_TokenHash t = hashRefreshToken raw) /\
  rt_FamilyID t = (if empty (rs_familyID sess) then rt_ID t else rs_familyID sess) /\
  rt_SessionStartedAt t = Some (rs_startedAt sess) /\ rt_Revoked t = false /\
  (forall d, sessionDeadline h (rs_startedAt sess) = Some d -> (rt_ExpiresAt t <= d)%Z).
Lemma safe_issue q u sess x :
  (forall t, issued sess t -> I t /\ Ev (TWrite (CreateToken t))) ->
  safe (createRefreshToken h q u sess x) (fun _ _ => True).
Proof.
  intros Hi. unfold createRefreshToken. eapply (safe_bind _ _ _ _ _ (fun _ _ => True)).
  { case_match; [by apply safe_ret|]. eapply (safe_bind _ _ _ _ _ (fun _ _ => True)); [apply safe_count|].
    intros [n|e] _; [|by apply safe_ret]. case_match; [by apply safe_ret|].
    eapply safe_bind; [apply safe_RevokeOldest|]. intros. by apply safe_ret. }
  intros [e|] _; [by apply safe_ret|]. eapply safe_bind; [apply safe_step_env|].
  intros raw [_ (env & n & He & ->)]. case_match; [by apply safe_ret|]. eapply safe_bind; [apply safe_clock|]. intros now _.
  eapply safe_bind; [apply safe_step_env|]. intros uuid [_ (env' & n' & He' & ->)]. cbv zeta.
  eapply (safe_bind _ _ _ _ _ (fun _ _ => True)); [|intros; by apply safe_ret].
  match goal with |- safe (token_Create ?t) _ => destruct (Hi t) as [Hi1 He2] end; [|by apply safe_create].
  unfold issued. cbn. split_and!; try done.
  - destruct (rs_isNew sess); cbn; [|left; by exists env', n'].
    destruct (empty (rs_familyID sess)); [left; by exists env', n'|by right].
  - eexists. split; [by exists env, n|done].
  - intros d ->. destruct (Z.ltb_spec d (now + ac_RefreshTokenExpiration (ah_cfg h))); lia.
Qed.
Lemma safe_createToken q u stored sess x :
  I stored -> rt_TokenHash stored = hashRefreshToken cookie -> rt_Revoked stored = false ->
  rs_startedAt sess = SessionStart stored -> rs_familyID sess = SessionFamily stored -> rs_isNew sess = false ->
  safe (createRefreshToken h q u sess x) (fun _ _ => True).
Proof.
  intros Hst Hh Hr Es Ef En. apply safe_issue. intros t (Hid & Hraw & Hf & Hs & Hrv & Hd). rewrite Ef in Hf. rewrite Es in *.
  apply (Hcreate stored); try done. destruct Hid as [Hid|[Hn _]]; [|congruence]. by split_and!.
Qed.

Lemma safe_rotate q stored hash u now :
  I stored -> rt_TokenHash stored = hashRefreshToken cookie -> rt_Revoked stored = false ->
  safe (rotate h q stored hash u now) (fun _ _ => True).
Proof.
  intros Hst Hh Hr. unfold rotate. eapply (safe_bind _ _ _ _ _ (fun _ _ => True)).
  - eapply safe_post; [apply (safe_tx _ _ _ _ _ (fun _ _ => True))|done].
    eapply safe_bind; [apply safe_MarkRotated|]. intros [n|e] _; [|by apply safe_ret]. case_match; [by apply safe_ret|].
    eapply (safe_bind _ _ _ _ _ (fun r _ => forall s, r = Ok s -> rs_startedAt s = SessionStart stored /\
      rs_familyID s = SessionFamily stored /\ rs_isNew s = false)).
    { unfold carryLatestActivity. eapply safe_bind; [apply safe_FindByTokenHash|]. intros r _. apply safe_ret.
      intros _ _ s. destruct r; [|done]. by intros [= <-]. }
    intros [s|e] [? Hs]; [|by apply safe_ret]. destruct (Hs s eq_refl) as (? & ? & ?).
    eapply safe_bind; [by apply (safe_createToken _ _ stored)|]. intros r _. case_match; by apply safe_ret.
  - intros r _. eapply safe_bind; [apply safe_step|]. intros. by apply safe_ret.
Qed.

(** The last steps: the token is signed, the user and the session are checked again. *)
Lemma safe_hand_out stored env n u (k : AccessToken -> T AuthAnswer) :
  I stored -> Env env -> sessionExpired h stored (te_now (env n)) = false ->
  (forall t, safe (k t) (fun a _ => forall tok, token_of a = Some tok -> tok = t)) ->
  safe (get! token := sessionAccessToken h u (SessionFamily stored) in
        match token with
        | Err _ => tret (fails 500 msgInternalServerError)
        | Ok token =>
            get! err := recheckUserActive in
            match err with
            | Some e => rejectRefreshAfterRecheck (us_ID u) e
            | None =>
                get! err := recheckSessionActive (SessionFamily stored) in
                match err with
                | Some e => rejectRefreshAfterSessionCheck e
                | None => k token
                end
            end
        end) (fun a _ => grants_of (SessionFamily stored) a).
Proof.
  intros Hst He Hx Hk. eapply safe_bind; [apply safe_sign|]. intros [t|e] [? Ht]; [|by apply safe_ret].
  specialize (Ht t eq_refl). eapply safe_bind; [apply safe_recheckUser|]. intros [e|] [su Hu].
  { eapply safe_post; [apply safe_afterRecheck|]. intros a s _. apply no_token_grants_of. }
  eapply safe_bind; [apply safe_recheckSession|]. intros [e|] [s Hs].
  { eapply safe_post; [apply (safe_ensured _ _ _ (tret tt) (fun _ => rejectRefreshAfterSessionCheck e) (fun _ _ => True))|].
    - by apply safe_ret.
    - intros _. apply safe_sessionCheck.
    - intros _. apply ensured_sessionCheck.
    - intros a s' _. apply no_token_grants_of. }
  destruct (Hs eq_refl) as [Hrows Hlive]. eapply safe_post; [apply Hk|].
  intros a s' _ Ha tok Htok. rewrite (Ha tok Htok). split; [done|]. split; [by exists stored, env, n; rewrite Ht|].
  split; [exists s; by rewrite Ht|by apply Hu].
Qed.

Lemma safe_blockSessions l : safe (blockSessions h l) (fun _ _ => True).
Proof.
  assert (Hb : forall ids u, safe (block_batch ids u) (fun _ _ => True)).
  { intros ids u. unfold block_batch. case_match; [by apply safe_ret|].
    eapply safe_bind; [apply safe_call; ev|]. intros. by apply safe_ret. }
  assert (Hu : safe (sessionBlockUntil h) (fun _ _ => True)).
  { eapply safe_bind; [apply safe_clock|]. intros. by apply safe_ret. }
  unfold blockSessions. case_match; [by apply safe_ret|]. cbv zeta. eapply safe_bind; [apply Hu|]. intros u1 _.
  eapply (safe_bind _ _ _ _ _ (fun _ _ => True)).
  { unfold sessionLongBlockUntil. case_match; [apply Hu|]. eapply safe_bind; [apply safe_clock|]. intros. by apply safe_ret. }
  intros long _. eapply safe_bind; [apply Hb|]. intros _ _. apply Hb.
Qed.

Lemma safe_revoke_replayed F : safe (revoke_replayed h F) (fun a _ => no_token a).
Proof.
  unfold revoke_replayed. eapply safe_bind; [apply safe_exec; by intros ?|]. intros e _.
  eapply safe_bind; [apply safe_blockSessions|]. intros _ _. by apply safe_clear_and.
Qed.

Lemma safe_tryGrace stored now :
  I stored -> (exists env n, Env env /\ now = te_now (env n)) -> withinReuseGrace h stored now = true ->
  safe (tryGraceRefresh h stored (SessionFamily stored)) (fun r _ => forall a, r = Some a -> grants_of (SessionFamily stored) a).
Proof.
  intros Hst (env & n & He & ->) Hg. assert (Hx : sessionExpired h stored (te_now (env n)) = false).
  { unfold withinReuseGrace in Hg. destruct (rt_RotatedAt stored); [|done].
    destruct (sessionExpired h stored (te_now (env n))); [|done]. by repeat case_match. }
  unfold tryGraceRefresh. eapply safe_bind; [apply safe_find_user|]. intros [u|e] _.
  2: { destruct (cancelled_answer e) as [a|] eqn:E.
       - apply safe_ret. intros _ _ ? [= <-]. by eapply no_token_grants_of, cancelled_no_token.
       - case_match; apply safe_ret; intros _ _ ? [= <-]. by apply no_token_grants_of. }
  case_match; [by apply safe_ret|]. eapply safe_bind; [apply safe_count|]. intros [k|e] _.
  2: { apply safe_ret. intros _ _ ? [= <-]. apply no_token_grants_of. destruct (cancelled_answer e) as [a|] eqn:E; [|done].
       by eapply cancelled_no_token. }
  case_match; [by apply safe_ret|]. eapply safe_bind; [apply safe_rejectBlocked|]. intros [a|] [s Ha].
  { apply safe_ret. intros _ _ ? [= <-]. apply no_token_grants_of. by apply Ha. }
  eapply safe_bind.
  - apply (safe_hand_out stored env n u (fun t => tret (mkAuthAnswer 200 (ABToken t)))); try done.
    intros t. apply safe_ret. by intros _ _ tok [= <-].
  - intros a [s' Ha']. apply safe_ret. by intros _ _ ? [= <-].
Qed.

Lemma safe_consumed_grace stored now :
  I stored -> (exists env n, Env env /\ now = te_now (env n)) ->
  safe (refreshConsumedToken h stored now) (fun a _ =>
    no_token a \/ withinReuseGrace h stored now = true /\ grants_of (SessionFamily stored) a).
Proof.
  intros Hst Hn. unfold refreshConsumedToken.
  eapply (safe_bind _ _ _ _ _ (fun r _ => forall a, r = Some a ->
    withinReuseGrace h stored now = true /\ grants_of (SessionFamily stored) a)).
  - destruct (withinReuseGrace h stored now) eqn:E; [|by apply safe_ret].
    eapply safe_post; [by apply (safe_tryGrace stored now)|]. intros r s _ Hr a ->. by split; [|apply Hr].
  - intros [a|] [s Ha]; [by apply safe_ret; intros; right; apply Ha|].
    eapply safe_post; [apply safe_revoke_replayed|]. by left.
Qed.
Lemma safe_consumed stored now :
  I stored -> (exists env n, Env env /\ now = te_now (env n)) ->
  safe (refreshConsumedToken h stored now) (fun a _ => grants a).
Proof.
  intros Hst Hn. eapply safe_post; [by apply safe_consumed_grace|].
  intros a s _ [Hno|[_ Hg]]; [by apply no_token_grants|by eapply grants_of_grants].
Qed.

Lemma safe_setCookie raw e : safe (setRefreshCookie raw e) (fun _ _ => True).
Proof. eapply safe_bind; [apply safe_clock|]. intros now _. apply safe_emit. ev. Qed.

Lemma safe_refresh_session q stored u now :
  I stored -> rt_TokenHash stored = hashRefreshToken cookie -> rt_Revoked stored = false ->
  (exists env n, Env env /\ now = te_now (env n)) -> sessionExpired h stored now = false ->
  safe (refresh_session h q stored (hashRefreshToken cookie) u now) (fun a _ => grants a).
Proof.
  intros Hst Hh Hr Hn Hx. unfold refresh_session. eapply safe_bind; [by apply safe_rotate|].
  intros [[e|] [raw expiry]] _.
  - case_match; [|by apply safe_ret]. eapply safe_bind; [apply safe_findRefreshToken|]. intros [t|a] [s [Ht Ha]].
    + destruct (Ht t eq_refl). by apply safe_consumed.
    + destruct (Ha a eq_refl) as (? & ? & ->). by apply safe_ret.
  - destruct Hn as (env & n & He & ->). cbv zeta.
    eapply safe_post; [|intros a s _; apply grants_of_grants].
    apply (safe_hand_out stored env n u (fun t => do! setRefreshCookie raw expiry in tret (mkAuthAnswer 200 (ABToken t))));
      try done.
    intros t. eapply safe_bind; [apply safe_setCookie|]. intros _ _. apply safe_ret. by intros _ _ tok [= <-].
Qed.

Lemma safe_Refresh q : default "" (aq_Cookie q) = cookie -> safe (Refresh h q) (fun a _ => grants a).
Proof.
  intros Hc. unfold Refresh. case_match; [by apply safe_ret|]. case_match; [by apply safe_ret|]. rewrite Hc.
  eapply safe_bind; [apply safe_findRefreshToken|]. intros [stored|a] [s0 [Hst Ha]].
  2: { destruct (Ha a eq_refl) as (? & ? & ->). by apply safe_ret. }
  destruct (Hst stored eq_refl) as [Hi Hh]. eapply safe_bind; [apply safe_clock_env|]. intros now [_ Hn].
  destruct (rt_Revoked stored) eqn:Er; [by apply safe_consumed|].
  case_match; [by apply safe_clear_and|]. destruct (sessionExpired h stored now) eqn:Ex.
  { eapply safe_bind; [apply safe_exec; by intros ?|]. intros _ _. by apply safe_clear_and. }
  case_match. { eapply safe_bind; [apply safe_exec; by intros ?|]. intros _ _. by apply safe_clear_and. }
  unfold refresh_active. eapply safe_bind; [apply safe_rejectBlocked|]. intros [a|] [s1 Ha1].
  { apply safe_ret. intros _ _. by apply no_token_grants, Ha1. }
  eapply safe_bind; [apply safe_find_user|]. intros [u|e] _.
  2: { apply safe_ret. intros _ _. apply no_token_grants. destruct (cancelled_answer e) as [a|] eqn:E; [|done].
       by eapply cancelled_no_token. }
  case_match; [|by apply safe_refresh_session].
  eapply safe_bind; [apply safe_exec; by intros ?|]. intros _ _. by apply safe_clear_and.
Qed.

(** *** Login *)

Lemma safe_login_user : safe (login_user h) (fun r _ => forall a, r = inr a -> no_token a).
Proof.
  assert (Hs : forall {A} (a : A), safe (do! tstep in tret a) (fun b _ => b = a)).
  { intros A a. eapply safe_bind; [apply safe_step|]. intros. by apply safe_ret. }
  unfold login_user. eapply safe_bind; [apply safe_find_user|]. intros [u|e] _.
  - eapply (safe_bind _ _ _ _ _ (fun _ _ => True)).
    { unfold password_checked. eapply (safe_bind _ _ _ _ _ (fun _ _ => True)).
      - case_match; [|by apply safe_ret]. eapply safe_bind; [apply safe_step|]. intros. by apply safe_ret.
      - intros hit _. case_match; [by apply safe_ret|]. case_match; [by eapply safe_post; [apply Hs|]|].
        eapply safe_bind; [apply safe_step|]. intros cost _. case_match; [by eapply safe_post; [apply Hs|]|].
        eapply safe_bind; [apply safe_step|]. intros. by apply safe_ret. }
    intros ok _. case_match; [by apply safe_ret; intros _ _ ? [= <-]|].
    eapply safe_bind; [apply safe_find_user|]. intros [fresh|e] _; apply safe_ret; intros _ _ a Ha.
    + repeat (case_match; [by simplify_eq|]). done.
    + destruct (cancelled_answer e) as [a'|] eqn:E; [simplify_eq; by eapply cancelled_no_token|]. by case_match; simplify_eq.
  - destruct (cancelled_answer e) as [a|] eqn:E.
    + apply safe_ret. intros _ _ ? [= <-]. by eapply cancelled_no_token.
    + case_match; [by apply safe_ret; intros _ _ ? [= <-]|]. eapply safe_post; [apply Hs|]. by intros ? s _ -> ? [= <-].
Qed.
Lemma login_recheck_no_token e : no_token (login_recheck_answer e).
Proof.
  unfold login_recheck_answer. destruct (cancelled_answer e) as [a|] eqn:E; [by eapply cancelled_no_token|].
  by repeat case_match.
Qed.

Lemma safe_newSession : safe newRefreshSession (fun s _ => generated (rs_familyID s) /\ rs_lastActivity s = None).
Proof.
  eapply safe_bind; [apply safe_step_env|]. intros st [_ (env & n & He & ->)]. eapply safe_bind; [apply safe_clock|].
  intros now _. apply safe_ret. intros _ _. split; [by exists env, n|done].
Qed.
Lemma safe_start_session q u sess :
  (forall t, issued sess t -> I t /\ Ev (TWrite (CreateToken t))) ->
  safe (start_session h q u sess) (fun r _ => forall a, r = Some a -> no_token a).
Proof.
  intros Hi. unfold start_session. eapply safe_bind; [by apply safe_issue|]. intros [[raw expiry]|e] _; [|by apply safe_ret].
  eapply safe_bind; [apply safe_recheckSession|]. intros [e|] _.
  - eapply (safe_bind _ _ _ _ _ (fun _ _ => True)).
    { unfold abandonSession. eapply safe_bind; [apply safe_exec; by intros ?|]. intros. by apply safe_ret. }
    intros _ _. eapply safe_bind; [apply safe_clear|]. intros _ _. apply safe_ret. intros _ _ a [= <-]. by case_match.
  - eapply safe_bind; [apply safe_setCookie|]. intros _ _. by apply safe_ret.
Qed.

(** The token of a login is signed for no session or for a new one. *)
Lemma safe_Login q ok :
  (forall sess t, generated (rs_familyID sess) -> issued sess t -> I t /\ Ev (TWrite (CreateToken t))) ->
  safe (Login h q ok) (fun a _ => forall tok, token_of a = Some tok ->
    (at_SessionID tok = "" \/ generated (at_SessionID tok)) /\ user_enabled).
Proof.
  intros Hi. unfold Login. case_match; [by apply safe_ret|]. eapply safe_bind; [apply safe_login_user|].
  intros [u|a] [s0 Ha]; [|apply safe_ret; intros _ _ tok Ht; specialize (Ha a eq_refl); unfold no_token in Ha; congruence].
  eapply (safe_bind _ _ _ _ _ (fun o _ => forall sess, o = Some sess -> generated (rs_familyID sess))).
  { case_match; [|by apply safe_ret]. eapply safe_bind; [apply safe_newSession|]. intros sess [_ [Hg _]].
    apply safe_ret. by intros _ _ ? [= <-]. }
  intros sess [s1 Hsess]. eapply (safe_bind _ _ _ _ _ (fun r _ => forall t, r = Ok t ->
    at_SessionID t = "" \/ generated (at_SessionID t))).
  { destruct sess as [sess|]; (eapply safe_post; [apply safe_sign|]); intros r s _ Hr t ->; rewrite (Hr t eq_refl);
      [right; by apply Hsess|by left]. }
  intros [tok|e] [s2 Ht]; [|by apply safe_ret]. eapply safe_bind; [apply safe_recheckUser|]. intros [e|] [su Hu].
  { apply safe_ret. intros _ _ tok' Htok. by rewrite (login_recheck_no_token e) in Htok. }
  eapply (safe_bind _ _ _ _ _ (fun r _ => forall a, r = Some a -> no_token a)).
  { destruct sess as [sess|]; [|by apply safe_ret]. apply safe_start_session. intros t. apply Hi. by apply Hsess. }
  intros [a|] [s3 Hr]; apply safe_ret; intros _ _ tok' Htok; cbn in Htok.
  - by rewrite (Hr a eq_refl) in Htok.
  - injection Htok as <-. split; [by apply Ht|by apply Hu].
Qed.

(** *** Logout *)

Lemma safe_blockToken t : safe (block_bearer t) (fun _ _ => True).
Proof. eapply safe_bind; [apply safe_call; ev|]. intros. by apply safe_ret. Qed.
Lemma safe_tail (m : T unit) a (Φ : AuthAnswer -> Tokens -> Prop) : safe m (fun _ _ => True) -> (forall s, Φ a s) ->
  safe (do! m in do! clearRefreshCookie in tret a) Φ.
Proof. intros Hm Ha. eapply safe_bind; [apply Hm|]. intros _ _. by apply safe_clear_and. Qed.

Lemma safe_revoke_each l : safe (revoke_each l) (fun _ _ => True).
Proof.
  induction l as [|x l IH]; [by apply safe_ret|]. cbn. eapply (safe_bind _ _ _ _ _ (fun _ _ => True)).
  { case_match; apply safe_exec; by intros ?. }
  intros e _. eapply safe_bind; [apply IH|]. intros. by apply safe_ret.
Qed.
Lemma safe_cookie_session q : safe (cookie_session q) (fun r _ =>
  r.1 = [] \/ exists t, I t /\ r.1 = [mkToBlock (SessionFamily t) (rt_UserID t) false]).
Proof.
  unfold cookie_session. case_match; [by apply safe_ret; left|]. eapply safe_bind; [apply safe_FindByTokenHash|].
  intros [t|e] [s Hr]; apply safe_ret; intros _ _; [|by left]. right. exists t. split; [by apply Hr|done].
Qed.
Lemma safe_logout_rest q (sessions : list sessionToBlock * bool) (Φ : AuthAnswer -> Tokens -> Prop) :
  (forall s, Φ (If sessions.2 Return fails 500 msgInternalServerError ;;
                mkAuthAnswer 200 (ABMessage "Logged out successfully")) s) ->
  safe (do! blockSessions h sessions.1 in
        do! (match aq_Bearer q with
             | Some t =>
                 twhen (negb (empty (at_JTI t)))
                   (do! twhen (ah_sessionStore h) (do! tclock in block_bearer t) in
                    twhen (ah_wsRevoker h) (temit (TDisconnectToken (at_JTI t))))
             | None => tret tt
             end) in
        do! clearRefreshCookie in
        tret (If sessions.2 Return fails 500 msgInternalServerError ;;
              mkAuthAnswer 200 (ABMessage "Logged out successfully"))) Φ.
Proof.
  intros Ha. eapply safe_bind; [apply safe_blockSessions|]. intros _ _. apply safe_tail; [|done].
  destruct (aq_Bearer q) as [t|]; [|by apply safe_ret]. apply safe_when. intros _.
  eapply safe_bind; [apply safe_when; intros _; eapply safe_bind; [apply safe_clock|]; intros _ _; apply safe_blockToken|].
  intros _ _. apply safe_when. intros _. apply safe_emit. ev.
Qed.
Lemma safe_Logout q : safe (Logout h q) (fun a _ => no_token a).
Proof.
  unfold Logout. eapply (safe_bind _ _ _ _ _ (fun _ _ => True)).
  - unfold revokeLogoutSessions. case_match; [by apply safe_ret|]. eapply safe_bind; [apply safe_cookie_session|].
    intros r _. eapply safe_bind; [apply safe_revoke_each|]. intros. by apply safe_ret.
  - intros r _. apply safe_logout_rest. intros s. by case_match.
Qed.

Lemma safe_recentSessions u sid : safe (recentSessionsToBlock h u sid) (fun _ _ => True).
Proof.
  unfold recentSessionsToBlock. eapply (safe_bind _ _ _ _ _ (fun _ _ => True)); [|intros; by apply safe_ret].
  case_match; [by apply safe_ret|]. eapply safe_bind; [apply safe_clock|]. intros now _.
  eapply safe_bind; [apply safe_count|]. intros. by apply safe_ret.
Qed.
Lemma safe_logoutAll_rest t (failed : bool) (Φ : AuthAnswer -> Tokens -> Prop) :
  (forall s, Φ (If failed Return fails 500 msgInternalServerError ;;
                mkAuthAnswer 200 (ABMessage "Logged out from all sessions")) s) ->
  safe (get! ids := recentSessionsToBlock h (at_UserID t) (at_SessionID t) in
        do! blockSessions h (List.map (fun id => mkToBlock id "" failed) ids) in
        do! twhen (ah_sessionStore h)
          (get! now := tclock in
           do! tcall (TBlockUser (at_UserID t)
             (now + userBlockTTL (ac_AccessTokenExpiration (ah_cfg h)) (ac_JWTExpiration (ah_cfg h)))%Z) in
           twhen (negb (empty (at_JTI t))) (block_bearer t)) in
        do! twhen (ah_wsRevoker h) (temit (TDisconnectUser (at_UserID t))) in
        do! clearRefreshCookie in
        tret (If failed Return fails 500 msgInternalServerError ;;
              mkAuthAnswer 200 (ABMessage "Logged out from all sessions"))) Φ.
Proof.
  intros Ha. eapply safe_bind; [apply safe_recentSessions|]. intros ids _.
  eapply safe_bind; [apply safe_blockSessions|]. intros _ _. eapply (safe_bind _ _ _ _ _ (fun _ _ => True)).
  { apply safe_when. intros _. eapply safe_bind; [apply safe_clock|]. intros now _. eapply safe_bind; [apply safe_call; ev|].
    intros _ _. apply safe_when. intros _. apply safe_blockToken. }
  intros _ _. apply safe_tail; [|done]. apply safe_when. intros _. apply safe_emit. ev.
Qed.
Lemma safe_LogoutAll q : safe (LogoutAll h q) (fun a _ => no_token a).
Proof.
  unfold LogoutAll. destruct (aq_Bearer q) as [t|]; [|by apply safe_ret]. cbv zeta. case_match; [by apply safe_ret|].
  eapply (safe_bind _ _ _ _ _ (fun _ _ => True)).
  { case_match; [|by apply safe_ret]. apply safe_exec. by intros ?. }
  intros e _. apply safe_logoutAll_rest. intros s. by case_match.
Qed.
End parts.
