(* ===== verification/Endings.v ===== *)
(** * Sessions end for good

    The main theorems about [Auth]: a revoked session gets no token again, a session
    does not outlive its maximum lifetime, a consumed refresh token is not exchanged
    again, a replayed one ends its session, and a logout that reports success has
    revoked.  Other requests change the table between any two steps and every step can
    fail; a theorem asks of the others what it proves of the request ([rely]). *)

From S2P Require Import Prelude Models Store World Durations Access Tokens Auth Revocation.
Local Open Scope string_scope.
Local Open Scope list_scope.

(** No generated id or token is the name of the session. *)
Definition fresh_for (F : string) (env : nat -> TEnv) : Prop := forall n, te_text (env n) <> F.
(** The event stores no token of the session. *)
Definition no_issue (F : string) (e : tevent) : Prop := forall t, e = TWrite (CreateToken t) -> in_family F t = false.

(** The new events of a run. *)
Definition added (w w' : TWorld) (Ev : tevent -> Prop) : Prop :=
  exists tr, tw_trace w' = tr ++ tw_trace w /\ Forall Ev tr.

Lemma in_family_false F t : rt_ID t <> F -> rt_FamilyID t <> F -> in_family F t = false.
Proof. intros Hi Hf. unfold in_family. by rewrite !bool_decide_eq_false_2. Qed.
Lemma not_in_family F t : in_family F t = false -> SessionFamily t <> F.
Proof. intros Hf <-. by rewrite family_in in Hf. Qed.

Section endings.
Context `{TokenHash} (h : AuthHandler) (F : string).
Context (Env : (nat -> TEnv) -> Prop) (HE : forall env, Env env -> fresh_for F env).
Local Abbreviation rowdead := (fun t => in_family F t = true -> rt_Revoked t = true).

Lemma successor_other stored t :
  successor h Env stored t -> in_family F stored = false -> in_family F t = false.
Proof.
  intros ((env & n & He & Ei) & _ & Ef & _) Hs. assert (Hi : rt_ID t <> F) by (rewrite Ei; by apply HE).
  apply in_family_false; [done|]. rewrite Ef. case_match; [done|]. by apply not_in_family.
Qed.
Lemma issued_other sess t :
  issued h Env sess t -> rs_familyID sess <> F -> in_family F t = false.
Proof.
  intros (Hid & _ & Ef & _) Hs. assert (Hi : rt_ID t <> F).
  { destruct Hid as [(env & n & He & ->)|[_ ->]]; [by apply HE|done]. }
  apply in_family_false; [done|]. rewrite Ef. by case_match.
Qed.
Lemma generated_other x : generated Env x -> x <> F.
Proof. intros (env & n & He & ->). by apply HE. Qed.

Lemma dead_call k q : F <> "" -> safe Env (rows rowdead) (no_issue F) (auth_call h k q)
  (fun a _ => forall tok, token_of a = Some tok -> at_SessionID tok <> F).
Proof.
  intros HF. assert (Hk := keeps_dead F). assert (Hev : forall e, no_create e -> no_issue F e) by (intros e He t ->; by destruct (He t)).
  assert (Hno : forall (a : AuthAnswer) (s : Tokens), no_token a -> forall tok, token_of a = Some tok -> at_SessionID tok <> F).
  { intros a s Hn tok Ht. unfold no_token in Hn. congruence. }
  destruct k as [ok| | |]; cbn [auth_call].
  - eapply safe_post; [apply safe_Login; [done|done|]|].
    + intros sess t Hg%generated_other Hi. assert (Ht := issued_other sess t Hi Hg).
      split; [by rewrite Ht|]. by intros ? [= <-].
    + intros a s _ Ha tok Ht. destruct (Ha tok Ht) as [[->|Hg] _]; [by intros <-|by apply generated_other].
  - eapply safe_post; [apply (safe_Refresh h _ _ Hk _ Hev (default "" (aq_Cookie q)))|]; [|done|].
    + intros stored t Hst _ Hr Hs. assert (Ht : in_family F t = false).
      { apply (successor_other stored); [done|]. destruct (in_family F stored); [|done]. rewrite Hst in Hr by done. done. }
      split; [by rewrite Ht|]. by intros ? [= <-].
    + intros a s _ Ha tok Ht <-. destruct (Ha tok Ht) as (_ & (s' & Hs' & Hl) & _). by eapply live_dead.
  - eapply safe_post; [by apply safe_Logout|]. intros a s _. by apply Hno.
  - eapply safe_post; [by apply safe_LogoutAll|]. intros a s _. by apply Hno.
Qed.

(** *** The maximum lifetime *)

Context (s0 : time).
Local Abbreviation bound := (s0 + ac_SessionMaxLifetime (ah_cfg h))%Z.
Definition within (t : RefreshToken) : Prop :=
  SessionFamily t = F -> SessionStart t = s0 /\ (rt_ExpiresAt t <= bound)%Z.
Context (HM : (0 < ac_SessionMaxLifetime (ah_cfg h))%Z).

Lemma keeps_within : keeps_rows within.
Proof. by split_and!. Qed.
Lemma deadline_bound start : sessionDeadline h start = Some (start + ac_SessionMaxLifetime (ah_cfg h))%Z.
Proof. unfold sessionDeadline. case_match eqn:E; [lia|done]. Qed.
Lemma successor_within stored t : within stored -> successor h Env stored t -> within t.
Proof.
  intros Hst ((env & n & He & Ei) & _ & Ef & Es & _ & Hd) Ht. unfold SessionFamily in Ht. rewrite Ef in Ht.
  assert (Hi : rt_ID t <> F) by (rewrite Ei; by apply HE).
  destruct (empty (SessionFamily stored)) eqn:E; [by rewrite Tauto.if_same in Ht|]. rewrite E in Ht. cbn in Ht.
  destruct (Hst Ht) as [Hs0 _]. unfold SessionStart. rewrite Es. cbn. split; [done|].
  rewrite <- Hs0. by apply Hd, deadline_bound.
Qed.

Lemma lifetime_call k q : F <> "" -> safe Env (rows within) (fun _ => True) (auth_call h k q)
  (fun a _ => forall tok, token_of a = Some tok -> at_SessionID tok = F -> exists env n, Env env /\ (te_now (env n) <= bound)%Z).
Proof.
  intros HF. assert (Hk := keeps_within).
  assert (Hno : forall (a : AuthAnswer) (s : Tokens), no_token a -> forall tok, token_of a = Some tok -> at_SessionID tok = F ->
    exists env n, Env env /\ (te_now (env n) <= bound)%Z).
  { intros a s Hn tok Ht. unfold no_token in Hn. congruence. }
  destruct k as [ok| | |]; cbn [auth_call].
  - eapply safe_post; [apply safe_Login; [done|done|]|].
    + intros sess t Hg%generated_other Hi. assert (Ht := issued_other sess t Hi Hg).
      split; [|done]. by intros Hf%(not_in_family F t Ht).
    + intros a s _ Ha tok Ht Hf. destruct (Ha tok Ht) as [[He|Hg] _]; [congruence|]. by apply generated_other in Hg.
  - eapply safe_post; [apply (safe_Refresh h _ _ Hk (fun _ => True) (fun _ _ => Logic.I) (default "" (aq_Cookie q)))|]; [|done|].
    + intros stored t Hst _ _ Hs. split; [by eapply successor_within|done].
    + intros a s _ Ha tok Ht Hf. destruct (Ha tok Ht) as ((stored & env & n & He & Hst & Hsf & Hx) & _).
      exists env, n. split; [done|]. rewrite Hf in Hsf. destruct (Hst Hsf) as [<- _]. unfold sessionExpired in Hx.
      rewrite deadline_bound in Hx. lia.
  - eapply safe_post; [by apply safe_Logout|]. intros a s _. by apply Hno.
  - eapply safe_post; [by apply safe_LogoutAll|]. intros a s _. by apply Hno.
Qed.
End endings.

(** C18. Revocation is final.  When no token of a session is active, then no login,
    refresh, logout or logout from all sessions makes one active again: whatever fails
    and whatever the other requests do that keep it so, the session stays without an
    active token, the request stores no token of it, and it answers no access token for
    it.  (The ids and tokens that the request generates are not the name of the
    session.) *)
Theorem revocation_is_final `{TokenHash} h F k q w :
  F <> "" -> fresh_for F (tw_env w) -> rely (dead F) w -> dead F (tw_db w) ->
  let r := auth_call h k q w in
  dead F (tw_db r.2) /\ added w r.2 (no_issue F) /\
  (forall tok, token_of r.1 = Some tok -> at_SessionID tok <> F).
Proof. intros HF Hfr Hr Hd. destruct (dead_call h F (fresh_for F) (fun _ Hf => Hf) k q HF w Hfr Hr Hd) as (_ & _ & Hd' & Ht & Ha). by split_and!. Qed.


(** A session does not outlive its login.  When the stored tokens of a session have
    its start and expire within the configured maximum lifetime after it, then so do
    those that any login, refresh or logout leaves, however often the token was rotated,
    and an access token of the session is answered only when the clock of the request
    read a time within the maximum lifetime. *)
Theorem session_lifetime `{TokenHash} h F s0 k q w :
  (0 < ac_SessionMaxLifetime (ah_cfg h))%Z -> F <> "" -> fresh_for F (tw_env w) ->
  rely (rows (within h F s0)) w -> rows (within h F s0) (tw_db w) ->
  let r := auth_call h k q w in
  rows (within h F s0) (tw_db r.2) /\
  (forall tok, token_of r.1 = Some tok -> at_SessionID tok = F ->
     exists n, (te_now (tw_env w n) <= s0 + ac_SessionMaxLifetime (ah_cfg h))%Z).
Proof.
  intros HM HF Hfr Hr Hd. set (Env := fun env => env = tw_env w).
  assert (HE : forall env, Env env -> fresh_for F env) by (by intros env ->).
  destruct (lifetime_call h F Env HE s0 HM k q HF w eq_refl Hr Hd) as (_ & _ & Hd' & _ & Ha).
  split; [done|]. intros tok Ht Hf. destruct (Ha tok Ht Hf) as (env & n & -> & Hn). by exists n.
Qed.

(** ** Disabled users *)

Lemma enabled_call `{TokenHash} h Env k q :
  safe Env (rows (fun _ => True)) (fun _ => True) (auth_call h k q) (fun a _ => token_of a <> None -> user_enabled Env).
Proof.
  assert (Hk : keeps_rows (fun _ => True)) by (by split_and!).
  assert (Hno : forall (a : AuthAnswer) (s : Tokens), no_token a -> token_of a <> None -> user_enabled Env) by (by intros a s).
  destruct k as [ok| | |]; cbn [auth_call].
  - eapply safe_post; [apply safe_Login; [done|done|by intros ???]|]. intros a s _ Ha Ht. destruct (token_of a) as [t|] eqn:E; [by apply (Ha t)|done].
  - eapply safe_post; [apply (safe_Refresh h _ _ Hk (fun _ => True) (fun _ _ => Logic.I) (default "" (aq_Cookie q))); [done|done]|].
    intros a s _ Ha Ht. unfold grants in Ha. destruct (token_of a) as [t|] eqn:E; [by apply (Ha t)|done].
  - eapply safe_post; [by apply safe_Logout|]. intros a s _. by apply Hno.
  - eapply safe_post; [by apply safe_LogoutAll|]. intros a s _. by apply Hno.
Qed.

(** A disabled user gets no access token.  When every lookup of the user during a
    login or refresh fails or finds it disabled, then the answer holds no access token,
    whatever the password check, the session store and the other requests do. *)
Theorem disabled_user_gets_no_token `{TokenHash} h k q w :
  (forall n u, te_user (tw_env w n) = Ok u -> us_Disabled u = true) -> token_of (auth_call h k q w).1 = None.
Proof.
  intros Hd. destruct (enabled_call h (eq (tw_env w)) k q w eq_refl) as (_ & _ & _ & _ & He);
    [by intros n s _|by intros ???|]. destruct (token_of _) as [t|]; [|done]. destruct He as (env & n & u & <- & Hu & Hu'); [done|].
  specialize (Hd _ _ Hu). congruence.
Qed.

(** ** One exchange per token *)

Section once.
Context `{TokenHash} (h : AuthHandler) (cookie : string).
Local Abbreviation consumed := (fun t => rt_TokenHash t = hashRefreshToken cookie -> rt_Revoked t = true).

Lemma keeps_consumed : keeps_rows consumed.
Proof. by split_and!. Qed.

(** The reuse grace: the token was rotated at most the configured grace ago, and its
    session has not reached its maximum lifetime. *)
Definition in_grace (stored : RefreshToken) (now : time) : Prop :=
  (exists rotated, rt_RotatedAt stored = Some rotated /\ (0 < ac_RefreshReuseGrace (ah_cfg h))%Z /\
     (now - rotated <= ac_RefreshReuseGrace (ah_cfg h))%Z) /\
  ((0 < ac_SessionMaxLifetime (ah_cfg h))%Z -> (now <= SessionStart stored + ac_SessionMaxLifetime (ah_cfg h))%Z).
Lemma grace_iff stored now : withinReuseGrace h stored now = true <-> in_grace stored now.
Proof.
  unfold withinReuseGrace, in_grace, sessionExpired, sessionDeadline. destruct (rt_RotatedAt stored) as [r|].
  - destruct (ac_RefreshReuseGrace (ah_cfg h) <=? 0)%Z eqn:E1; [split; [done|intros [(?&[= <-]&?&?) ?]; lia]|].
    destruct (ac_RefreshReuseGrace (ah_cfg h) <? now - r)%Z eqn:E2; [split; [done|intros [(?&[= <-]&?&?) ?]; lia]|].
    destruct (ac_SessionMaxLifetime (ah_cfg h) <=? 0)%Z eqn:E3.
    + split; [intros _; split; [exists r; split_and!; [done|lia|lia]|lia]|done].
    + destruct (_ <? now)%Z eqn:E4; cbn.
      * split; [done|]. intros [_ Hx]. specialize (Hx ltac:(lia)). lia.
      * split; [intros _|done]. split; [exists r; split_and!; [done|lia|lia]|lia].
  - split; [done|]. by intros [(?&?&_) _].
Qed.

(** The first step of a refresh reads the row of the token. *)
Definition presented (w : TWorld) : option RefreshToken :=
  If bool_decide (is_Some (te_fault (tw_env w (tw_tick w)))) Return None ;;
  has_hash (hashRefreshToken cookie) (tw_db (tstep w).2).
Definition clock_read (w : TWorld) : time := te_now (tw_env w (S (tw_tick w))).

Lemma has_hash_Some hash s t : has_hash hash s = Some t -> exists id, s !! id = Some t /\ rt_TokenHash t = hash.
Proof.
  intros E. destruct (has_hash_some _ _ _ E) as [id Hid]. exists id. split; [done|].
  unfold has_hash in E. apply find_some in E as [_ E]. by apply bool_decide_eq_true in E.
Qed.
Lemma find_presented w :
  match presented w with
  | Some t => findRefreshToken (hashRefreshToken cookie) w = (inl t, (tstep w).2)
  | None => exists a, (findRefreshToken (hashRefreshToken cookie) w).1 = inr a /\ no_token a
  end.
Proof.
  unfold presented, findRefreshToken, FindByTokenHash, tquery, tbind. cbn [fst snd tstep].
  destruct (te_fault (tw_env w (tw_tick w))) as [e|]; cbn.
  - destruct (cancelled_answer e) as [a|] eqn:E; cbn; [exists a; split; [done|by apply (cancelled_no_token e)]|].
    destruct (isNotFoundError e); cbn; eexists; split; reflexivity.
  - destruct (has_hash _ _); cbn; [reflexivity|eexists; split; reflexivity].
Qed.
Lemma refresh_consumed q w : default "" (aq_Cookie q) = cookie -> rows consumed (tw_db (tstep w).2) ->
  match presented w with
  | Some t => rt_TokenHash t = hashRefreshToken cookie /\ (ah_refreshTokenRepo h = true -> cookie <> "" ->
      Refresh h q w = refreshConsumedToken h t (clock_read w) (tstep (tstep w).2).2)
  | None => True
  end /\ (presented w = None \/ ah_refreshTokenRepo h = false \/ cookie = "" -> no_token (Refresh h q w).1).
Proof.
  intros Hc Hd. pose proof (find_presented w) as Hf. split.
  - destruct (presented w) as [t|] eqn:E; [|done]. unfold presented in E. case_match; [done|].
    apply has_hash_Some in E as (id & Hl & Hh). split; [done|]. intros Hrepo Hne. unfold Refresh. rewrite Hrepo, Hc. cbn [negb].
    unfold empty. rewrite bool_decide_eq_false_2 by done. cbv zeta. unfold tbind at 1. rewrite Hf. cbn [fst snd].
    rewrite (Hd id t Hl Hh). reflexivity.
  - intros Hno. unfold Refresh. rewrite Hc. destruct (ah_refreshTokenRepo h) eqn:Er; [|done]. cbn [negb]. unfold empty.
    destruct (bool_decide (cookie = "")) eqn:Eb; [done|]. apply bool_decide_eq_false in Eb.
    destruct Hno as [Hno|[?|?]]; [|done|done]. rewrite Hno in Hf. destruct Hf as (a & Ha & Hn). cbv zeta. unfold tbind at 1.
    rewrite Ha. done.
Qed.

Lemma consumed_call env0 q : default "" (aq_Cookie q) = cookie ->
  safe (eq env0) (rows consumed) no_create (Refresh h q) (fun a _ => True).
Proof.
  intros Hc. assert (Hev : forall e, no_create e -> no_create e) by done. unfold Refresh.
  case_match; [by apply safe_ret|]. case_match; [by apply safe_ret|]. rewrite Hc.
  eapply safe_bind; [by apply (safe_findRefreshToken _ _ _ Hev)|]. intros [stored|a] [s0 [Hst Ha]]; [|by apply safe_ret].
  destruct (Hst stored eq_refl) as [Hi Hh]. eapply safe_bind; [apply safe_clock_env|]. intros now [_ (env & n & <- & ->)].
  rewrite (Hi Hh). eapply safe_post; [apply (safe_consumed_grace h (eq env0) _ keeps_consumed _ Hev stored); [done|by exists env0, n]|done].
Qed.

(** The answer to a consumed token. *)
Lemma consumed_answer stored now w : rely (rows consumed) w -> rows consumed (tw_db w) -> consumed stored ->
  (exists n, now = te_now (tw_env w n)) ->
  let r := refreshConsumedToken h stored now w in
  (forall tok, token_of r.1 = Some tok -> in_grace stored now /\ at_SessionID tok = SessionFamily stored) /\
  (~ in_grace stored now -> r.1 = fails 401 "Invalid refresh token" /\
     (te_fault (tw_env w (tw_tick w)) = None -> TWrite (RevokeFam (SessionFamily stored)) ∈ tw_trace r.2)).
Proof.
  cbv zeta. intros Hr Hd Hs [n Hn]. split.
  - destruct (safe_consumed_grace h (eq (tw_env w)) _ keeps_consumed no_create (fun _ x => x) stored now Hs
      (ex_intro _ _ (ex_intro _ n (conj eq_refl Hn))) w eq_refl Hr Hd) as (_ & _ & _ & _ & [Hno|[Hg Ha]]).
    + intros tok Ht. unfold no_token in Hno. congruence.
    + intros tok Ht. split; [by apply grace_iff|]. by destruct (Ha tok Ht).
  - intros Hg. rewrite <- grace_iff in Hg. apply not_true_is_false in Hg. unfold refreshConsumedToken. cbv zeta. rewrite Hg. unfold tbind, tret. cbn [fst snd].
    split; [reflexivity|]. intros Hf. unfold revoke_replayed, tbind.
    assert (Hin : TWrite (RevokeFam (SessionFamily stored)) ∈ tw_trace (exec_err (RevokeFam (SessionFamily stored)) w).2).
    { unfold exec_err, tdb, tbind, tstep. cbn [fst snd]. rewrite Hf. destruct (texec _ _). cbn. by left. }
    unfold RevokeFamily. destruct (exec_err _ w) as [e w2]. cbn [fst snd] in *.
    destruct (safe_blockSessions h (fun _ => True) (fun _ => True) (fun _ => True) (fun _ _ => Logic.I)
      [mkToBlock (SessionFamily stored) "" (bool_decide (is_Some e))] w2) as (_ & _ & _ & [tr [Etr _]] & _);
      [done|by intros ???|by intros ???|].
    unfold clear_and, clearRefreshCookie, tbind. cbn. rewrite Etr. right. apply elem_of_app. by right.
Qed.

(** *** Races *)

(** The token is consumed or deleted. *)
Definition used_up (id : string) (s : Tokens) : Prop := forall i t, s !! i = Some t -> rt_ID t = id -> rt_Revoked t = true.
Lemma keeps_used id : keeps_rows (fun t => rt_ID t = id -> rt_Revoked t = true).
Proof. by split_and!. Qed.

Lemma mark_used id at_ s : used_up id s -> (texec (MarkRotated id at_) s).1 = Ok 0%Z.
Proof.
  intros Hu. cbn. do 2 f_equal. apply (f_equal Z.of_nat (y := 0)). apply length_zero_iff_nil.
  destruct (List.filter _ _) as [|p l] eqn:E; [done|]. assert (Hp : In p (p :: l)) by by left. rewrite <- E in Hp.
  apply List.filter_In in Hp as [Hin Hg]. destruct p as [i t]. cbn in Hg.
  apply list_elem_of_In, elem_of_map_to_list in Hin. apply andb_true_iff in Hg as [[Hi Ha]%andb_true_iff _].
  apply bool_decide_eq_true in Hi. unfold active in Ha. by rewrite (Hu i t Hin Hi) in Ha.
Qed.
Lemma rotate_used q stored hash u now :
  safe (fun _ => True) (used_up (rt_ID stored)) no_create (rotate h q stored hash u now) (fun r _ => r.1 <> None).
Proof.
  unfold rotate. eapply (safe_bind _ _ _ _ _ (fun r _ => r.1 <> None)).
  - eapply safe_post; [apply (safe_tx _ _ _ _ _ (fun r _ => r.1 <> None))|].
    + eapply safe_bind; [apply (safe_db _ _ _ _ (fun n _ => n = 0%Z))|].
      * by intros ?.
      * intros s. apply texec_rows; [apply keeps_used|by intros ?].
      * intros s Hs. by rewrite (mark_used _ _ _ Hs).
      * intros [n|e] [s Hn]; [|by apply safe_ret]. rewrite (Hn n eq_refl). by apply safe_ret.
    + intros [[e|] x] s _ Hr Hc; [done|]. destruct (Hr eq_refl) as [s' Hs']. by apply Hs'.
  - intros [r x] [s Hr]. eapply safe_bind; [apply safe_step|]. intros st _. apply safe_ret. intros _ _ Hc. cbn in Hc, Hr.
    unfold withContextErr in Hc. destruct r; [|done]. by repeat case_match.
Qed.
End once.

(** C19. A refresh token is exchanged once.  When the presented token is consumed or
    revoked, then a refresh stores no new refresh token, whatever fails and whatever the
    other requests do that leave the token consumed.  It answers an access token only
    when its first statement has read the row of the token, the row was rotated at most
    the reuse grace before the clock reading of the request and its session is within its
    maximum lifetime; that access token is one of the session of the row.  Otherwise the
    use of the read row is a replay: the answer is 401 and the request revokes the tokens
    of the session, unless that statement fails. *)
Theorem refresh_token_single_use `{TokenHash} h q w :
  let cookie := default "" (aq_Cookie q) in
  let consumed := rows (fun t => rt_TokenHash t = hashRefreshToken cookie -> rt_Revoked t = true) in
  let now := clock_read w in
  rely consumed w -> consumed (tw_db w) ->
  let r := Refresh h q w in
  added w r.2 no_create /\
  (forall tok, token_of r.1 = Some tok -> exists stored,
     presented cookie w = Some stored /\ in_grace h stored now /\ at_SessionID tok = SessionFamily stored) /\
  (forall stored, ah_refreshTokenRepo h = true -> cookie <> "" -> presented cookie w = Some stored -> ~ in_grace h stored now ->
     r.1 = fails 401 "Invalid refresh token" /\
     (te_fault (tw_env w (2 + tw_tick w)) = None -> TWrite (RevokeFam (SessionFamily stored)) ∈ tw_trace r.2)).
Proof.
  cbv zeta. intros Hr Hd. destruct (consumed_call h _ (tw_env w) q eq_refl w eq_refl Hr Hd) as (_ & _ & _ & Ht & _).
  assert (Hs : forall v, rely (rows _) v -> rows _ (tw_db v) -> rows (fun t => rt_TokenHash t = hashRefreshToken (default "" (aq_Cookie q)) -> rt_Revoked t = true) (tw_db (tstep v).2))
    by (intros v Hv Hv'; cbn; destruct (tw_quiet v); [done|by apply Hv]).
  pose proof (Hs w Hr Hd) as H1. pose proof (Hs (tstep w).2 Hr H1) as H2.
  destruct (refresh_consumed h _ q w eq_refl H1) as [Hc Hno].
  split; [done|]. destruct (presented _ w) as [stored|] eqn:E.
  2: { split; [|done]. intros tok Htok. unfold no_token in Hno. rewrite Hno in Htok; [done|by left]. }
  destruct Hc as [Hh Hc]. assert (Hi : rt_TokenHash stored = hashRefreshToken (default "" (aq_Cookie q)) -> rt_Revoked stored = true).
  { intros _. unfold presented in E. case_match; [done|]. apply has_hash_Some in E as (id & Hl & _). by apply (H1 id). }
  destruct (consumed_answer h _ stored (clock_read w) (tstep (tstep w).2).2 Hr H2 Hi) as [Ha Hb]; [by exists (S (tw_tick w))|].
  split.
  - intros tok Htok. exists stored. split; [done|]. apply Ha. rewrite <- Hc; [done| |].
    + destruct (ah_refreshTokenRepo h) eqn:Er; [done|]. unfold no_token in Hno. rewrite Hno in Htok; [done|by right; left].
    + intros Hq. unfold no_token in Hno. rewrite Hno in Htok; [done|by right; right].
  - intros stored' Hrepo Hq [= <-] Hg. rewrite (Hc Hrepo Hq). by apply Hb.
Qed.

(** Two refreshes race for one token.  The rotation of a token that another request
    consumed or deleted after this one read it stores no token and fails, whatever else
    happens in its transaction. *)
Theorem rotation_race `{TokenHash} h q stored hash userID now w :
  rely (used_up (rt_ID stored)) w -> used_up (rt_ID stored) (tw_db w) ->
  let r := rotate h q stored hash userID now w in
  added w r.2 no_create /\ r.1.1 <> None.
Proof. intros Hr Hd. by destruct (rotate_used h q stored hash userID now w Logic.I Hr Hd) as (_ & _ & _ & Ht & Ha). Qed.

(** ** Revoking requests *)

Section revoking.
Context `{TokenHash} (h : AuthHandler).
Local Abbreviation any := (fun _ : nat -> TEnv => True).
Local Abbreviation yes := (fun _ : tevent => True).

Lemma keeps_true : keeps_rows (fun _ => True).
Proof. by split_and!. Qed.
Lemma rows_true s : rows (fun _ => True) s.
Proof. by intros ???. Qed.

(** A statement that reports success has had its effect. *)
Lemma exec_effect op I Q :
  keeps_rows I -> (forall t, op <> CreateToken t) -> (forall s, rows I s -> Q (texec op s).2) ->
  safe any (rows I) yes (exec_err op) (fun e s => e = None -> Q s).
Proof.
  intros HI Hop HQ. unfold exec_err. eapply safe_ensured.
  - apply (safe_db _ _ _ _ (fun _ s => Q s)); [done| |].
    + intros s. apply texec_rows; [done|]. intros t ->. by destruct (Hop t).
    + intros s Hs. case_match; [by apply HQ|done].
  - intros. by apply safe_ret.
  - intros r. apply ensured_ret. intros s Hr. destruct r; [|done]. intros _. by eapply Hr.
Qed.

(** A run that revokes first: either the effect holds at the end, or the request has seen
    the error. *)
Lemma run_effect {A} op J (k : error -> T A) (Bad : A -> Prop) w :
  keeps_rows J -> (forall t, op <> CreateToken t) -> (forall s, rows J (texec op s).2) -> rely (rows J) w ->
  safe any (rows J) yes (k None) (fun _ _ => True) ->
  (forall e, safe any (rows (fun _ => True)) yes (k (Some e)) (fun a _ => Bad a)) ->
  let r := tbind (exec_err op) k w in rows J (tw_db r.2) \/ Bad r.1.
Proof.
  intros HJ Hop HQ Hr Hk Hb. cbv zeta.
  destruct (exec_effect op _ (rows J) keeps_true Hop (fun s _ => HQ s) w Logic.I) as (E & _ & _ & _ & He);
    [by intros n s _|done|]. change (tbind (exec_err op) k w) with (k (exec_err op w).1 (exec_err op w).2).
  destruct (exec_err op w) as [[e|] w1]; cbn [fst snd] in *.
  - right. destruct (Hb e w1 Logic.I) as (_ & _ & _ & _ & Hb'); [by intros n s _|by intros ???|exact Hb'].
  - left. destruct (Hk w1 Logic.I) as (_ & _ & Hd & _); [intros n s; rewrite E; apply Hr|by apply He|exact Hd].
Qed.

(** *** Logout *)

Lemma revoke_user_effect u s : rows (fun t => rt_UserID t = u -> rt_Revoked t = true) (texec (RevokeUser u) s).2.
Proof.
  intros id t. cbn [texec]. rewrite update_all_lookup. destruct (s !! id) as [t0|]; [|done]. cbn. intros [= <-].
  case_match eqn:Eg; cbn; [done|]. intros Hu. rewrite (bool_decide_eq_true_2 _ Hu) in Eg. unfold active in Eg.
  by destruct (rt_Revoked t0).
Qed.

Context (F u : string).
Definition owned (t : RefreshToken) : Prop := in_family F t = true -> rt_UserID t = u.
Local Abbreviation rowdead := (fun t => in_family F t = true -> rt_Revoked t = true).
Lemma keeps_owned : keeps_rows owned.
Proof. by split_and!. Qed.

Definition revoke_one (x : sessionToBlock) : tokop :=
  if empty (tb_userID x) then RevokeFam (tb_id x) else RevokeFamForUser (tb_id x) (tb_userID x).
Lemma revoke_one_effect x s :
  tb_id x = F -> tb_userID x = u -> rows owned s -> rows rowdead (texec (revoke_one x) s).2.
Proof.
  intros Hx Hu Ho id t. unfold revoke_one. rewrite Hx, Hu. case_match; cbn [texec]; rewrite update_all_lookup;
    (destruct (s !! id) as [t0|] eqn:E; [|done]); cbn; intros [= <-]; case_match eqn:Eg; cbn; try done; intros Hf; rewrite Hf in Eg.
  - unfold active in Eg. by destruct (rt_Revoked t0).
  - rewrite (bool_decide_eq_true_2 _ (Ho id t0 E Hf)) in Eg. unfold active in Eg. by destruct (rt_Revoked t0).
Qed.

(** The sessions of the request are revoked one by one. *)
Lemma revoke_each_dead l w :
  rely (rows owned) w -> rely (rows rowdead) w -> rows owned (tw_db w) ->
  (forall x, x ∈ l -> tb_id x = F -> tb_userID x = u) ->
  rows rowdead (tw_db w) \/ F ∈ List.map tb_id l ->
  let r := revoke_each l w in
  existsb tb_revokeFailed r.1 = true \/ (tw_env r.2 = tw_env w /\ rows rowdead (tw_db r.2)).
Proof.
  revert w. induction l as [|x l IH]; intros w Ho Hd Hs Hl HF.
  { right. destruct HF as [HF|HF]; [done|]. by apply elem_of_nil in HF. }
  assert (Hop : forall t, revoke_one x <> CreateToken t) by (intros t; unfold revoke_one; by case_match).
  assert (Hstep : let w1 := (exec_err (revoke_one x) w).2 in tw_env w1 = tw_env w /\ rows owned (tw_db w1) /\
    (rows rowdead (tw_db w) -> rows rowdead (tw_db w1)) /\
    (tb_id x = F -> (exec_err (revoke_one x) w).1 = None -> rows rowdead (tw_db w1))).
  { destruct (exec_effect (revoke_one x) owned (fun s => tb_id x = F -> rows rowdead s) keeps_owned Hop) with w
      as (E & _ & Hs1 & _ & He); [|done..|].
    - intros s Hs' Hx. apply revoke_one_effect; [done| |done]. apply Hl; [by left|done].
    - split_and!; try done; [|by intros; apply He]. intros Hdw.
      destruct (exec_effect (revoke_one x) rowdead (fun _ => True) (keeps_dead F) Hop (fun _ _ => Logic.I) w Logic.I Hd Hdw)
        as (_ & _ & H1 & _). exact H1. }
  destruct Hstep as (E & Hs1 & Hd1 & Hx).
  assert (Er : revoke_each (x :: l) w = ((fun r => (mkToBlock (tb_id x) (tb_userID x)
      (bool_decide (is_Some (exec_err (revoke_one x) w).1)) :: r.1, r.2)) (revoke_each l (exec_err (revoke_one x) w).2))).
  { cbn [revoke_each]. unfold tbind, tret, revoke_one, RevokeFamily, RevokeFamilyForUser. by case_match. }
  rewrite Er. cbn [fst snd existsb tb_revokeFailed]. destruct (exec_err (revoke_one x) w) as [[e|] w1]; cbn [fst snd] in *.
  { left. done. }
  rewrite bool_decide_eq_false_2 by (by intros []). destruct (IH w1) as [Hf|[Hf Hdead]].
  - intros n s. rewrite E. apply Ho.
  - intros n s. rewrite E. apply Hd.
  - done.
  - intros y Hy. apply Hl. by right.
  - destruct HF as [HF|HF]; [left; by apply Hd1|]. cbn in HF. apply elem_of_cons in HF as [->|HF]; [left; by apply Hx|by right].
  - by left.
  - right. split; [congruence|done].
Qed.
Lemma in_add_bearer t l :
  at_SessionID t <> "" -> at_SessionID t ∈ List.map tb_id (add_bearer (Some t) l).
Proof.
  intros Hne. unfold add_bearer. destruct (empty (at_SessionID t)) eqn:E; [by apply bool_decide_eq_true in E|].
  cbn [orb]. case_bool_decide as Hl; [rewrite Hl; by left|]. rewrite List.map_app. apply elem_of_app. right. by left.
Qed.

(** The sessions of a logout, when those that the request proves belong to the user. *)
Lemma logout_sessions q t w :
  aq_Bearer q = Some t -> at_SessionID t = F -> at_UserID t = u -> F <> "" -> ah_refreshTokenRepo h = true ->
  rely (rows owned) w -> rely (rows rowdead) w -> rows owned (tw_db w) ->
  let r := revokeLogoutSessions h q w in
  r.1.2 = true \/ (tw_env r.2 = tw_env w /\ rows rowdead (tw_db r.2)).
Proof.
  intros Hb HF Hu Hne Hrepo Ho Hd Hs. unfold revokeLogoutSessions. rewrite Hrepo, Hb. cbn [negb]. unfold tbind, tret.
  assert (Hc := safe_cookie_session any owned yes q). destruct (Hc w Logic.I Ho Hs) as (E & _ & Hs1 & _ & Hr).
  destruct (cookie_session q w) as [[l failed] w1]. cbn [fst snd] in *.
  destruct (revoke_each_dead (add_bearer (Some t) l) w1) as [Hf|[E2 Hd2]].
  - intros n s. rewrite E. apply Ho.
  - intros n s. rewrite E. apply Hd.
  - done.
  - intros x Hx Hid. unfold add_bearer in Hx. assert (Hl : x ∈ l -> tb_userID x = u).
    { intros Hxl. destruct Hr as [->|(t0 & Ht0 & ->)]; [by apply elem_of_nil in Hxl|].
      apply list_elem_of_singleton in Hxl as ->. apply Ht0. rewrite <- Hid. apply family_in. }
    case_match; [by apply Hl|]. apply elem_of_app in Hx as [Hx|Hx]; [by apply Hl|]. by apply list_elem_of_singleton in Hx as ->.
  - right. rewrite <- HF in *. by apply in_add_bearer.
  - left. rewrite Hf. apply orb_true_r.
  - right. split; [congruence|done].
Qed.
End revoking.

(** A logout that reports success has ended the session.  A request with an access
    token of a session whose refresh tokens all belong to the user of the token either
    does not answer 200 or leaves no active token of the session, whatever fails on the
    way and whatever the refresh cookie names.  (The other requests keep the owner of
    the session and do not revive it.) *)
Theorem logout_ends_session `{TokenHash} h q t w :
  let F := at_SessionID t in
  aq_Bearer q = Some t -> F <> "" -> ah_refreshTokenRepo h = true ->
  rely (rows (owned F (at_UserID t))) w -> rely (dead F) w -> rows (owned F (at_UserID t)) (tw_db w) ->
  let r := Logout h q w in
  an_Status r.1 = 200%Z -> dead F (tw_db r.2).
Proof.
  cbv zeta. intros Hb Hne Hrepo Ho Hd Hs. assert (H200 := logout_sessions h _ _ q t w Hb eq_refl eq_refl Hne Hrepo Ho Hd Hs).
  unfold Logout. change (tbind (revokeLogoutSessions h q) ?k w) with
    (k (revokeLogoutSessions h q w).1 (revokeLogoutSessions h q w).2). cbv beta.
  destruct (revokeLogoutSessions h q w) as [r w1]. cbn [fst snd] in *. destruct H200 as [Hf|[E Hdead]].
  - destruct (safe_logout_rest h (fun _ => True) (fun _ => True) (fun _ => True) (fun _ _ => Logic.I) q r
      (fun a _ => an_Status a = 500%Z)) with w1 as (_ & _ & _ & _ & Ha); [by rewrite Hf|done|by intros n s _|by intros ???|].
    intros Hst. congruence.
  - intros _. by destruct (safe_logout_rest h (fun _ => True) (fun x => in_family (at_SessionID t) x = true -> rt_Revoked x = true)
      (fun _ => True) (fun _ _ => Logic.I) q r (fun _ _ => True)) with w1
      as (_ & _ & Hd2 & _); [done|done|intros n s; rewrite E; apply Hd| |].
Qed.

(** A logout from all sessions that reports success has ended them: it does not
    answer 200, or no refresh token of the user is active at its end. *)
Theorem logout_all_ends_sessions `{TokenHash} h q t w :
  let gone := rows (fun x => rt_UserID x = at_UserID t -> rt_Revoked x = true) in
  aq_Bearer q = Some t -> ah_refreshTokenRepo h = true -> rely gone w ->
  let r := LogoutAll h q w in
  an_Status r.1 = 200%Z -> gone (tw_db r.2).
Proof.
  cbv zeta. intros Hb Hrepo Hr. unfold LogoutAll. rewrite Hb, Hrepo. case_match; [done|].
  match goal with |- context [tbind (RevokeAllForUser ?u) ?k] =>
    destruct (run_effect (RevokeUser u) (fun x => rt_UserID x = u -> rt_Revoked x = true) k (fun a => an_Status a = 500%Z) w)
      as [Hd|Ha]
  end.
  - by split_and!.
  - done.
  - apply revoke_user_effect.
  - done.
  - by apply (safe_logoutAll_rest h (fun _ => True) _ (fun _ => True) (fun _ _ => Logic.I) t false).
  - intros e. by apply (safe_logoutAll_rest h (fun _ => True) _ (fun _ => True) (fun _ _ => Logic.I) t true).
  - intros _. exact Hd.
  - intros Hst. unfold RevokeAllForUser in Hst. congruence.
Qed.

(** ** Replays *)

Section replay.
Context `{TokenHash} (h : AuthHandler).

(** Without faults, the effects are those of the code in its order. *)
Definition fault_free (w : TWorld) : Prop := forall n, te_fault (tw_env w n) = None.

Lemma query_runs {A} (f : time -> Tokens -> A) w : fault_free w ->
  tquery f w = (Ok (f (te_now (tw_env w (tw_tick w))) (tw_db (tstep w).2)), (tstep w).2).
Proof. intros Hf. unfold tquery, tstep. cbn. by rewrite Hf. Qed.
Lemma exec_runs op w : fault_free w -> (forall t, op <> CreateToken t) ->
  (exec_err op w).1 = None /\ tw_db (exec_err op w).2 = (texec op (tw_db (tstep w).2)).2.
Proof.
  intros Hf Hop. unfold exec_err, tbind, tdb, tstep. cbn. rewrite Hf.
  destruct op; cbn; try done. by destruct (Hop t).
Qed.
Lemma call_runs e w : fault_free w -> tcall e w = (None, (temit e (tstep w).2).2).
Proof. intros Hf. unfold tcall, tbind, tstep. cbn. by rewrite Hf. Qed.

Definition block_ttl : Z :=
  (let ttl := ac_AccessTokenExpiration (ah_cfg h) in if ttl <=? 0 then 24 * Hour else ttl)%Z.

(** One session is blocked from a clock reading on. *)
Lemma blockSessions_runs F w : fault_free w -> ah_sessionStore h = true ->
  let r := blockSessions h [mkToBlock F "" false] w in
  tw_trace r.2 = TBlockSessions [F] (te_now (tw_env w (tw_tick w)) + (block_ttl + sessionBlockSkew))%Z :: tw_trace w.
Proof.
  intros Hf Hs. cbv zeta. unfold blockSessions. rewrite Hs. cbn [negb orb]. rewrite bool_decide_eq_false_2 by done.
  cbv zeta. cbn [List.filter List.map tb_revokeFailed tb_id negb]. unfold block_batch.
  rewrite bool_decide_eq_false_2 by done. rewrite bool_decide_eq_true_2 by done.
  unfold sessionLongBlockUntil, sessionBlockUntil, tclock, block_ttl. unfold tbind, tret. cbv zeta.
  destruct (_ <=? 0)%Z, (_ <=? 0)%Z; cbn; by rewrite !Hf.
Qed.

Lemma dead_effect F s : dead F (texec (RevokeFam F) s).2.
Proof.
  intros id t. cbn [texec]. rewrite update_all_lookup. destruct (s !! id) as [t0|]; [|done]. cbn. intros [= <-].
  case_match eqn:Eg; cbn; [done|]. intros Hf. rewrite Hf in Eg. unfold active in Eg. by destruct (rt_Revoked t0).
Qed.

Lemma revoke_replayed_runs F w : fault_free w -> rely (dead F) w ->
  let r := revoke_replayed h F w in
  r.1 = fails 401 "Invalid refresh token" /\ dead F (tw_db r.2) /\
  (ah_sessionStore h = true ->
     exists n, TBlockSessions [F] (te_now (tw_env w n) + (block_ttl + sessionBlockSkew))%Z ∈ tw_trace r.2).
Proof.
  intros Hf Hr. cbv zeta. unfold revoke_replayed.
  destruct (exec_runs (RevokeFam F) w Hf) as [He Hdb]; [done|].
  destruct (exec_effect (RevokeFam F) (fun _ => True) (fun _ => True) keeps_true (fun t => ltac:(done)) (fun _ _ => Logic.I) w Logic.I)
    as (E & _ & _ & (tr & Ht & _) & _); [by intros n s _|by intros ???|].
  assert (Hdw : dead F (tw_db (exec_err (RevokeFam F) w).2)) by (rewrite Hdb; apply dead_effect).
  change (tbind (RevokeFamily F) ?k w) with (k (exec_err (RevokeFam F) w).1 (exec_err (RevokeFam F) w).2). cbv beta.
  rewrite He. rewrite bool_decide_eq_false_2 by (by intros []).
  set (w1 := (exec_err (RevokeFam F) w).2) in *. clearbody w1. assert (Hf1 : fault_free w1) by (intros n; rewrite E; apply Hf).
  destruct (safe_blockSessions h (fun _ => True) (fun t => in_family F t = true -> rt_Revoked t = true) (fun _ => True) (fun _ _ => Logic.I) [mkToBlock F "" false] w1 Logic.I)
    as (E2 & _ & Hd2 & _); [intros n s; rewrite E; apply Hr|exact Hdw|].
  change (tbind (blockSessions h ?l) ?k w1) with (k tt (blockSessions h l w1).2). cbv beta.
  split_and!; [done|exact Hd2|]. intros Hs. exists (tw_tick w1). cbn. right.
  rewrite (blockSessions_runs F w1 Hf1 Hs), E. by left.
Qed.
Lemma tbind_run {A B} (m : T A) (k : A -> T B) w a w' : m w = (a, w') -> tbind m k w = k a w'.
Proof. intros E. unfold tbind. by rewrite E. Qed.
Lemma replay_run q w stored :
  fault_free w -> ah_refreshTokenRepo h = true -> default "" (aq_Cookie q) <> "" ->
  has_hash (hashRefreshToken (default "" (aq_Cookie q))) (tw_db (tstep w).2) = Some stored -> rt_Revoked stored = true ->
  withinReuseGrace h stored (te_now (tw_env w (S (tw_tick w)))) = false ->
  Refresh h q w = revoke_replayed h (SessionFamily stored) (tstep (tstep w).2).2.
Proof.
  intros Hf Hrepo Hq Hh Hrev Hg. unfold Refresh. rewrite Hrepo. cbn [negb]. unfold empty.
  rewrite bool_decide_eq_false_2 by done. cbv zeta. rewrite (tbind_run _ _ w (inl stored) (tstep w).2).
  2: { unfold findRefreshToken, FindByTokenHash, tbind. rewrite query_runs by done. by rewrite Hh. }
  rewrite (tbind_run tclock _ _ (te_now (tw_env w (S (tw_tick w)))) (tstep (tstep w).2).2) by reflexivity.
  rewrite Hrev. unfold refreshConsumedToken. cbv zeta. by rewrite Hg.
Qed.
End replay.

(** A replayed refresh token ends its session.  When the presented token is
    revoked and no reuse grace applies at the clock reading after the lookup, a refresh
    without faults answers 401, leaves no active token of the session (the other
    requests not reviving it) and, with a session store, blocks the access tokens of the
    session for at least their whole lifetime from a clock reading of the request on. *)
Theorem replay_ends_session `{TokenHash} h q w stored :
  fault_free w -> ah_refreshTokenRepo h = true -> default "" (aq_Cookie q) <> "" ->
  has_hash (hashRefreshToken (default "" (aq_Cookie q))) (tw_db (tstep w).2) = Some stored -> rt_Revoked stored = true ->
  withinReuseGrace h stored (te_now (tw_env w (S (tw_tick w)))) = false -> rely (dead (SessionFamily stored)) w ->
  let r := Refresh h q w in
  r.1 = fails 401 "Invalid refresh token" /\ dead (SessionFamily stored) (tw_db r.2) /\
  (ah_sessionStore h = true -> exists n until, TBlockSessions [SessionFamily stored] until ∈ tw_trace r.2 /\
     (te_now (tw_env w n) + ac_AccessTokenExpiration (ah_cfg h) + sessionBlockSkew <= until)%Z).
Proof.
  intros Hf Hrepo Hq Hh Hrev Hg Hr. cbv zeta. rewrite (replay_run h q w stored) by done.
  destruct (revoke_replayed_runs h (SessionFamily stored) (tstep (tstep w).2).2) as (Ha & Hd & Hb).
  - intros n. apply Hf.
  - intros n s. apply Hr.
  - split_and!; [done|done|]. intros Hs. destruct (Hb Hs) as [n Hn]. exists n. eexists. split; [exact Hn|].
    cbn. unfold block_ttl. case_match; unfold Hour, Minute, Second in *; lia.
Qed.

(** ** Sample runs *)

Section samples.
#[local] Instance sample_hash : TokenHash := fun x => "h:" +:+ x.

Definition sample_config : AuthConfig :=
  mkAuthConfig (24 * Hour) (15 * Minute) (168 * Hour) (2 * Hour) (24 * Hour) (10 * Second) 0.
Definition sample_handler : AuthHandler := mkAuthHandler sample_config true true true false false.
Definition sample_user : User := mkUser "u1" "ann" "hash" "Ann" "user" "local" None "" false false.
Definition sample_row (revoked : bool) : RefreshToken :=
  mkToken (24 * Hour) (Some 0%Z) 0 (Some 0%Z) None "t1" "u1" "h:raw" "F" "" "" revoked.
Definition sample_env : nat -> TEnv := fun n => mkTEnv id Minute None false (if (n =? 5)%nat then "t2" else "raw2") (Ok sample_user) false.
Definition sample_world (revoked : bool) : TWorld := mkTWorld {["t1" := sample_row revoked]} sample_env 0 false [].
Definition sample_bearer : AccessToken := mkAccess "u1" "ann" "Ann" "user" "local" "" "F" "jti" 0 (15 * Minute).
Definition sample_request : AuthRequest := mkAuthRequest (Some "raw") "" "" (Some sample_bearer).

Lemma sample_rows I b : I (sample_row b) -> rows I (tw_db (sample_world b)).
Proof. intros HI id t. cbn. intros [_ <-]%lookup_singleton_Some. exact HI. Qed.
Lemma sample_rely P b : rely P (sample_world b).
Proof. by intros n s. Qed.
Lemma sample_fresh b : fresh_for "F" (tw_env (sample_world b)).
Proof. intros n. cbn. by case_match. Qed.

(** A refresh of a live token: a new row of the family and an access token. *)
Example sample_refresh : (Refresh sample_handler sample_request (sample_world false)).1 =
  mkAuthAnswer 200 (ABToken (mkAccess "u1" "ann" "Ann" "user" "local" "" "F" "raw2" Minute (15 * Minute))).
Proof. vm_compute. reflexivity. Qed.

Lemma revocation_is_final_witness :
  let r := auth_call sample_handler CallRefresh sample_request (sample_world true) in
  dead "F" (tw_db r.2) /\ added (sample_world true) r.2 (no_issue "F") /\
  (forall tok, token_of r.1 = Some tok -> at_SessionID tok <> "F").
Proof.
  apply (revocation_is_final sample_handler "F" CallRefresh sample_request (sample_world true));
    [done|apply sample_fresh|apply sample_rely|by apply sample_rows].
Defined.

Lemma session_lifetime_witness :
  let r := auth_call sample_handler CallRefresh sample_request (sample_world false) in
  rows (within sample_handler "F" 0) (tw_db r.2) /\
  (forall tok, token_of r.1 = Some tok -> at_SessionID tok = "F" ->
     exists n, (te_now (tw_env (sample_world false) n) <= 0 + ac_SessionMaxLifetime (ah_cfg sample_handler))%Z).
Proof.
  apply (session_lifetime sample_handler "F" 0 CallRefresh sample_request (sample_world false)).
  - done.
  - done.
  - apply sample_fresh.
  - apply sample_rely.
  - apply sample_rows. intros _. by split.
Defined.

(** The same request when the user is disabled. *)
Definition disabled_user : User := mkUser "u1" "ann" "hash" "Ann" "user" "local" None "" true false.
Definition disabled_world : TWorld :=
  mkTWorld {["t1" := sample_row false]} (fun n => mkTEnv id Minute None false "raw2" (Ok disabled_user) false) 0 false [].
Lemma disabled_user_gets_no_token_witness : token_of (auth_call sample_handler CallRefresh sample_request disabled_world).1 = None.
Proof. apply (disabled_user_gets_no_token sample_handler CallRefresh sample_request disabled_world). by intros n u [= <-]. Defined.

Lemma refresh_token_single_use_witness :
  let r := Refresh sample_handler sample_request (sample_world true) in
  added (sample_world true) r.2 no_create /\ r.1 = fails 401 "Invalid refresh token" /\
  TWrite (RevokeFam "F") ∈ tw_trace r.2.
Proof.
  destruct (refresh_token_single_use sample_handler sample_request (sample_world true)) as (H1 & _ & H2);
    [apply sample_rely|by apply sample_rows|].
  destruct (H2 (sample_row true)) as [H3 H4]; [reflexivity|done|vm_compute; reflexivity|intros [(?&[=]&_) _]|].
  split_and!; [done|done|by apply H4].
Defined.

Lemma rotation_race_witness :
  let r := rotate sample_handler sample_request (sample_row false) "h:raw" "u1" Minute (sample_world true) in
  added (sample_world true) r.2 no_create /\ r.1.1 <> None.
Proof.
  apply (rotation_race sample_handler sample_request (sample_row false) "h:raw" "u1" Minute (sample_world true));
    [apply sample_rely|by apply sample_rows].
Defined.

Lemma logout_ends_session_witness : dead "F" (tw_db (Logout sample_handler sample_request (sample_world false)).2).
Proof.
  apply (logout_ends_session sample_handler sample_request sample_bearer (sample_world false)); try done.
  - apply sample_rely.
  - apply sample_rely.
  - by apply sample_rows.
Defined.

Lemma logout_all_ends_sessions_witness :
  rows (fun x => rt_UserID x = "u1" -> rt_Revoked x = true)
    (tw_db (LogoutAll sample_handler sample_request (sample_world false)).2).
Proof.
  apply (logout_all_ends_sessions sample_handler sample_request sample_bearer (sample_world false)); try done. apply sample_rely.
Defined.

Lemma replay_ends_session_witness :
  let r := Refresh sample_handler sample_request (sample_world true) in
  r.1 = fails 401 "Invalid refresh token" /\ dead "F" (tw_db r.2) /\
  (ah_sessionStore sample_handler = true -> exists n until, TBlockSessions ["F"] until ∈ tw_trace r.2 /\
     (te_now (tw_env (sample_world true) n) + ac_AccessTokenExpiration (ah_cfg sample_handler) + sessionBlockSkew <= until)%Z).
Proof.
  apply (replay_ends_session sample_handler sample_request (sample_world true) (sample_row true)); try done; apply sample_rely.
Defined.
End samples.
