(* ===== verification/Users.v ===== *)
(** * Users and the last admin

    [database/user_repository.go]: the table of users, the guarded changes of an admin
    (role, disable, delete) and the profile update of an SSO login, each as a
    transaction with its row locks.  The table is keyed by the id without case, as the
    MySQL collation compares ids. *)

From S2P Require Import Prelude Models Store Hooks World Access Templates Tokens.
Local Open Scope string_scope.
Local Open Scope list_scope.

(** [strings.EqualFold] for ids, which are ASCII. *)
Definition fold_id (id : string) : string := smap lower id.
Arguments fold_id : simpl never.
Definition EqualFold (a b : string) : bool := bool_decide (fold_id a = fold_id b).

Definition RoleUser := "user".
Definition RoleDevOps := "devops".
Definition RoleAdmin := "admin".
Definition IsValidRole (role : string) : bool := bool_decide (role ∈ [RoleUser; RoleDevOps; RoleAdmin]).
Definition ErrLastAdmin := ESent "ErrLastAdmin" "last enabled admin".
Definition ErrCallerNotAdmin := ESent "ErrCallerNotAdmin" "caller is not an enabled admin".

Definition us_set_Role (r : string) (u : User) : User :=
  mkUser (us_ID u) (us_Username u) (us_PasswordHash u) (us_DisplayName u) r (us_AuthProvider u) (us_ExternalID u)
    (us_Email u) (us_Disabled u) (us_ServiceAccount u).
Definition us_set_Disabled (d : bool) (u : User) : User :=
  mkUser (us_ID u) (us_Username u) (us_PasswordHash u) (us_DisplayName u) (us_Role u) (us_AuthProvider u)
    (us_ExternalID u) (us_Email u) d (us_ServiceAccount u).
Definition us_set_PasswordHash (p : string) (u : User) : User :=
  mkUser (us_ID u) (us_Username u) p (us_DisplayName u) (us_Role u) (us_AuthProvider u) (us_ExternalID u) (us_Email u)
    (us_Disabled u) (us_ServiceAccount u).

(** ** The table *)

Record UserDb := mkUserDb {
  ud_users : gmap string User;
  ud_followers : gset (string * string)
}.
Definition on_users (db : UserDb) (f : gmap string User -> gmap string User) : UserDb :=
  mkUserDb (f (ud_users db)) (ud_followers db).
Definition lookup_user (db : UserDb) (id : string) : option User := ud_users db !! fold_id id.

Definition enabled_admin (u : User) : bool := bool_decide (us_Role u = RoleAdmin) && negb (us_Disabled u).
Definition has_admin (db : UserDb) : Prop := exists k u, ud_users db !! k = Some u /\ enabled_admin u = true.
(** Every row has the key of its id. *)
Definition keyed (db : UserDb) : Prop := forall k u, ud_users db !! k = Some u -> k = fold_id (us_ID u).

(** ** Single statements *)

(** [Create]; the username is unique. *)
Definition user_Create (u : User) (db : UserDb) : res UserDb :=
  If empty (us_Username u) Return Err (EDB "create" ErrValidation) ;;
  If bool_decide (is_Some (lookup_user db (us_ID u))) ||
     existsb (fun p => bool_decide (us_Username p.2 = us_Username u)) (map_to_list (ud_users db))
    Return Err (EDB "create" ErrDuplicateKey) ;;
  Ok (on_users db <[fold_id (us_ID u) := u]>).
Definition user_FindByID (id : string) (db : UserDb) : res User :=
  match lookup_user db id with Some u => Ok u | None => Err (EDB "find_by_id" ErrNotFound) end.
Definition UpdatePassword (id hash : string) (db : UserDb) : res UserDb :=
  match lookup_user db id with
  | Some u => Ok (on_users db <[fold_id id := us_set_PasswordHash hash u]>)
  | None => Err (EDB "update_password" ErrNotFound)
  end.
(** The delete of the row and of its followers. *)
Definition delete_row (id : string) (db : UserDb) : UserDb :=
  mkUserDb (delete (fold_id id) (ud_users db)) (filter (fun p => fold_id p.1 <> fold_id id) (ud_followers db)).

(** ** Guarded changes *)

Record guardTarget := mkGuard { gt_user : User; gt_otherEnabledAdmins : Z }.
Definition wouldRemoveLastAdmin (g : guardTarget) : bool :=
  bool_decide (us_Role (gt_user g) = RoleAdmin) && negb (us_Disabled (gt_user g)) && (gt_otherEnabledAdmins g =? 0)%Z.

Inductive Change :=
| UpdateRole (role : string)
| SetDisabled (disabled : bool)
| DeleteGuarded.
Definition change_op (c : Change) : string :=
  match c with UpdateRole _ => "update_role" | SetDisabled _ => "set_disabled" | DeleteGuarded => "delete" end.

(** The write of a change on its locked target, or its refusal. *)
Definition change_write (c : Change) (g : guardTarget) : res (UserDb -> UserDb) :=
  let id := us_ID (gt_user g) in
  match c with
  | UpdateRole role =>
      If bool_decide (us_Role (gt_user g) = role) Return Ok (fun db => db) ;;
      If negb (bool_decide (role = RoleAdmin)) && wouldRemoveLastAdmin g Return Err ErrLastAdmin ;;
      Ok (fun db => on_users db (alter (us_set_Role role) (fold_id id)))
  | SetDisabled d =>
      If d && wouldRemoveLastAdmin g Return Err ErrLastAdmin ;;
      Ok (fun db => on_users db (alter (us_set_Disabled d) (fold_id id)))
  | DeleteGuarded =>
      If wouldRemoveLastAdmin g Return Err ErrLastAdmin ;;
      Ok (delete_row id)
  end.

(** The rows of [lockAdminRows]: id and disabled, by id. *)
Definition admin_row : Type := string * bool.
Definition callerOK (admins : list admin_row) (callerID : string) : bool :=
  existsb (fun a => EqualFold a.1 callerID && negb a.2) admins.
Definition other_enabled (target : User) (a : admin_row) : bool := negb (EqualFold a.1 (us_ID target)) && negb a.2.
Definition guard_of (admins : list admin_row) (target : User) : guardTarget :=
  mkGuard target (Z.of_nat (length (List.filter (other_enabled target) admins))).

(** The transaction after the locks of the admin rows and, [target], of the row of the
    user: the previous role and the write. *)
Definition guardedAdminTx (admins : list admin_row) (callerID : string) (target : option User) (c : Change)
    : res (string * (UserDb -> UserDb)) :=
  If negb (callerOK admins callerID) Return Err ErrCallerNotAdmin ;;
  match target with
  | None => Err (EDB (change_op c) ErrNotFound)
  | Some u => match change_write c (guard_of admins u) with Ok w => Ok (us_Role u, w) | Err e => Err e end
  end.

(** The admin rows, by id. *)
Definition admin_keys (db : UserDb) : list string :=
  sort_less String.ltb (List.map fst (List.filter (fun p => bool_decide (us_Role p.2 = RoleAdmin)) (map_to_list (ud_users db)))).
Definition row_of (db : UserDb) (k : string) : option admin_row :=
  (fun u => (us_ID u, us_Disabled u)) <$> ud_users db !! k.
Definition admin_rows (db : UserDb) : list admin_row := omap (row_of db) (admin_keys db).

(** The change as one atomic step: the specification of the transaction. *)
Definition guarded_spec (callerID id : string) (c : Change) (db : UserDb) : res (string * UserDb) :=
  match guardedAdminTx (admin_rows db) callerID (lookup_user db id) c with
  | Ok (old, w) => Ok (old, w db)
  | Err e => Err e
  end.

(** ** The profile of an SSO login *)

Record UserProfileUpdate := mkProfile {
  up_Email : option string;
  up_DisplayName : option string;
  up_Role : option string;
  up_LinkProvider : option string;
  up_ExternalID : option string
}.
Definition sso_user (u : User) : bool :=
  negb (bool_decide (us_AuthProvider u = "")) && negb (bool_decide (us_AuthProvider u = "local")).
(** The columns of the profile, then the role of an SSO user. *)
Definition profile_columns (upd : UserProfileUpdate) (u : User) : User :=
  let linked := bool_decide (is_Some (up_LinkProvider upd)) in
  mkUser (us_ID u) (us_Username u)
    (if linked then "" else us_PasswordHash u)
    (default (us_DisplayName u) (up_DisplayName upd))
    (us_Role u)
    (default (us_AuthProvider u) (up_LinkProvider upd))
    (if linked then up_ExternalID upd else us_ExternalID u)
    (default (us_Email u) (up_Email upd))
    (us_Disabled u) (us_ServiceAccount u).
Definition updateProfile_row (upd : UserProfileUpdate) (u : User) : User :=
  let u := profile_columns upd u in
  match up_Role upd with
  | Some role => if sso_user u then us_set_Role role u else u
  | None => u
  end.
Definition updateProfileTx (id : string) (upd : UserProfileUpdate) (db : UserDb) : res UserDb :=
  match lookup_user db id with
  | None => Err (EDB "update_profile" ErrNotFound)
  | Some u => Ok (on_users db <[fold_id id := updateProfile_row upd u]>)
  end.

(** ** Transactions with row locks

    The locking read of the admin rows takes one row after the other, in the order of
    the ids; it waits for a row that another transaction has locked and reads it when it
    has the lock.  A row that becomes an admin row behind the scan is not seen.  A commit
    writes and releases all locks of the transaction; a deadlock or a fault ends it
    without a write, and the caller may run it again. *)

Inductive TxKind :=
| KGuarded (callerID id : string) (c : Change)
| KProfile (id : string) (upd : UserProfileUpdate).
Inductive TxPhase :=
| XScan (admins : list admin_row)
| XLocked (admins : list admin_row) (target : option User)
| XDone (r : res string).
Record UserWorld := mkUserWorld {
  uw_db : UserDb;
  uw_locks : gmap string nat;
  uw_txs : gmap nat (TxKind * TxPhase)
}.

Definition scans (k : TxKind) : bool :=
  match k with KGuarded _ _ _ => true | KProfile _ upd => bool_decide (is_Some (up_Role upd)) end.
Definition target_of (k : TxKind) : string := match k with KGuarded _ id _ => id | KProfile id _ => id end.

Definition next_admin (admins : list admin_row) (db : UserDb) : option string :=
  List.find (fun k => match last admins with Some a => String.ltb (fold_id a.1) k | None => true end) (admin_keys db).
Definition lock_free (key : string) (p : nat) (w : UserWorld) : bool :=
  match uw_locks w !! key with Some q => bool_decide (q = p) | None => true end.
Definition release (p : nat) (locks : gmap string nat) : gmap string nat := filter (fun kv => kv.2 <> p) locks.
Definition set_phase (p : nat) (k : TxKind) (ph : TxPhase) (w : UserWorld) : UserWorld :=
  mkUserWorld (uw_db w) (uw_locks w) (<[p := (k, ph)]> (uw_txs w)).
Definition take_lock (key : string) (p : nat) (w : UserWorld) : UserWorld :=
  mkUserWorld (uw_db w) (<[key := p]> (uw_locks w)) (uw_txs w).
Definition finish (p : nat) (k : TxKind) (r : res string) (db : UserDb) (w : UserWorld) : UserWorld :=
  mkUserWorld db (release p (uw_locks w)) (<[p := (k, XDone r)]> (uw_txs w)).

(** The write and commit, or the refusal, once all locks are held. *)
Definition run_tx (p : nat) (k : TxKind) (admins : list admin_row) (target : option User) (w : UserWorld) : UserWorld :=
  match k with
  | KGuarded callerID id c =>
      match guardedAdminTx admins callerID target c with
      | Ok (old, write) => finish p k (Ok old) (write (uw_db w)) w
      | Err e => finish p k (Err e) (uw_db w) w
      end
  | KProfile id upd =>
      match target with
      | Some u => finish p k (Ok "") (on_users (uw_db w) <[fold_id id := updateProfile_row upd u]>) w
      | None => finish p k (Err (EDB "update_profile" ErrNotFound)) (uw_db w) w
      end
  end.
Definition lock_target (p : nat) (k : TxKind) (admins : list admin_row) (w : UserWorld) : option UserWorld :=
  let key := fold_id (target_of k) in
  match lookup_user (uw_db w) (target_of k) with
  | None => Some (set_phase p k (XLocked admins None) w)
  | Some u =>
      If negb (lock_free key p w) Return None ;;
      Some (set_phase p k (XLocked admins (Some u)) (take_lock key p w))
  end.
(** One statement of transaction [p]; [None]: it waits or has ended. *)
Definition tx_step (p : nat) (w : UserWorld) : option UserWorld :=
  match uw_txs w !! p with
  | Some (k, XScan admins) =>
      match (if scans k then next_admin admins (uw_db w) else None) with
      | Some key =>
          match row_of (uw_db w) key with
          | Some a =>
              If negb (lock_free key p w) Return None ;;
              Some (set_phase p k (XScan (admins ++ [a])) (take_lock key p w))
          | None => None
          end
      | None =>
          match k with
          | KGuarded callerID _ _ =>
              If negb (callerOK admins callerID) Return Some (finish p k (Err ErrCallerNotAdmin) (uw_db w) w) ;;
              lock_target p k admins w
          | KProfile _ _ => lock_target p k admins w
          end
      end
  | Some (k, XLocked admins target) => Some (run_tx p k admins target w)
  | _ => None
  end.

(** The identity provider takes the role of an enabled admin. *)
Definition demotes (p : nat) (w : UserWorld) : Prop :=
  exists id upd admins u, uw_txs w !! p = Some (KProfile id upd, XLocked admins (Some u)) /\
    enabled_admin u = true /\ enabled_admin (updateProfile_row upd u) = false.

(** [sso]: the identity provider may demote. *)
Inductive uw_step (sso : bool) (w : UserWorld) : UserWorld -> Prop :=
| uw_begin p k : uw_txs w !! p = None -> uw_step sso w (set_phase p k (XScan []) w)
| uw_tx p w' : tx_step p w = Some w' -> (sso = false -> ~ demotes p w) -> uw_step sso w w'
| uw_lost p k r e w' : tx_step p w = Some w' -> uw_txs w' !! p = Some (k, XDone r) -> (sso = false -> ~ demotes p w) ->
    uw_step sso w (set_phase p k (XDone (Err e)) w')
| uw_abort p k ph : uw_txs w !! p = Some (k, ph) -> (forall r, ph <> XDone r) -> forall ph',
    (ph' = XScan [] \/ exists e, ph' = XDone (Err e)) ->
    uw_step sso w (set_phase p k ph' (mkUserWorld (uw_db w) (release p (uw_locks w)) (uw_txs w)))
| uw_create u db' : user_Create u (uw_db w) = Ok db' -> uw_step sso w (mkUserWorld db' (uw_locks w) (uw_txs w))
| uw_password id hash db' : UpdatePassword id hash (uw_db w) = Ok db' -> uw_locks w !! fold_id id = None ->
    uw_step sso w (mkUserWorld db' (uw_locks w) (uw_txs w)).

Definition no_txs (w : UserWorld) : Prop := uw_txs w = ∅ /\ keyed (uw_db w).

(** The atomic steps that the transactions stand for. *)
Inductive spec_step (sso : bool) (db : UserDb) : UserDb -> Prop :=
| sp_none : spec_step sso db db
| sp_create u db' : user_Create u db = Ok db' -> spec_step sso db db'
| sp_password id hash db' : UpdatePassword id hash db = Ok db' -> spec_step sso db db'
| sp_guarded callerID id c old db' : guarded_spec callerID id c db = Ok (old, db') -> spec_step sso db db'
| sp_profile id upd db' : updateProfileTx id upd db = Ok db' ->
    (sso = false -> forall u, lookup_user db id = Some u -> enabled_admin u = true -> enabled_admin (updateProfile_row upd u) = true) ->
    spec_step sso db db'.

(** ** The snapshot of the admins is current *)

Definition row_held (p : nat) (w : UserWorld) (a : admin_row) : Prop :=
  exists u, ud_users (uw_db w) !! fold_id a.1 = Some u /\ us_Role u = RoleAdmin /\ a = (us_ID u, us_Disabled u) /\
    uw_locks w !! fold_id a.1 = Some p.
Definition tx_ok (w : UserWorld) (p : nat) (x : TxKind * TxPhase) : Prop :=
  match x.2 with
  | XScan admins => Forall (row_held p w) admins
  | XLocked admins target => Forall (row_held p w) admins /\
      match target with
      | Some u => lookup_user (uw_db w) (target_of x.1) = Some u /\ uw_locks w !! fold_id (target_of x.1) = Some p
      | None => True
      end
  | XDone _ => True
  end.
Definition uw_inv (w : UserWorld) : Prop :=
  keyed (uw_db w) /\ forall p x, uw_txs w !! p = Some x -> tx_ok w p x.

(** What [p] has locked stays. *)
Definition stable (p : nat) (w w' : UserWorld) : Prop := forall key u,
  uw_locks w !! key = Some p -> ud_users (uw_db w) !! key = Some u ->
  uw_locks w' !! key = Some p /\ ud_users (uw_db w') !! key = Some u.

Lemma row_held_stable p w w' a : stable p w w' -> row_held p w a -> row_held p w' a.
Proof. intros Hs (u & Hu & Hr & Ha & Hl). destruct (Hs _ _ Hl Hu). exists u. by split_and!. Qed.
Lemma tx_ok_stable p w w' x : stable p w w' -> tx_ok w p x -> tx_ok w' p x.
Proof.
  intros Hs. unfold tx_ok. destruct x as [k [admins|admins target|r]]; cbn; [| |done].
  - intros Hf. eapply Forall_impl; [exact Hf|]. intros a. by apply row_held_stable.
  - intros [Hf Ht]. split; [eapply Forall_impl; [exact Hf|]; intros a; by apply row_held_stable|].
    destruct target as [u|]; [|done]. destruct Ht as [Hu Hl]. by destruct (Hs _ _ Hl Hu).
Qed.

Lemma lock_free_ne key p q w : lock_free key p w = true -> uw_locks w !! key = Some q -> q = p.
Proof. unfold lock_free. intros Hf Hl. rewrite Hl in Hf. by apply bool_decide_eq_true in Hf. Qed.
Lemma stable_take p q key k ph w : lock_free key q w = true -> p <> q -> stable p w (set_phase q k ph (take_lock key q w)).
Proof.
  intros Hf Hne key' u Hl Hu. cbn. split; [|done]. rewrite lookup_insert_ne; [done|]. intros ->.
  apply Hne. by eapply lock_free_ne.
Qed.
Lemma release_other p q locks key : p <> q -> locks !! key = Some p -> release q locks !! key = Some p.
Proof. intros Hne Hl. unfold release. by rewrite map_lookup_filter_Some. Qed.
Lemma stable_finish p q k r db w : p <> q ->
  (forall key u, uw_locks w !! key = Some p -> ud_users (uw_db w) !! key = Some u -> ud_users db !! key = Some u) ->
  stable p w (finish q k r db w).
Proof. intros Hne Hdb key u Hl Hu. cbn. split; [by apply release_other|by eapply Hdb]. Qed.

(** A write changes the row of its target only. *)
Lemma change_write_other c g write db key :
  change_write c g = Ok write -> key <> fold_id (us_ID (gt_user g)) -> ud_users (write db) !! key = ud_users db !! key.
Proof.
  intros Hw Hne. destruct c; cbn in Hw; repeat (case_match; [try done|]); simplify_eq; cbn; try done.
  - by rewrite lookup_alter_ne.
  - by rewrite lookup_alter_ne.
  - by rewrite lookup_delete_ne.
Qed.
Lemma change_write_keyed c g write db : change_write c g = Ok write -> keyed db -> keyed (write db).
Proof.
  intros Hw Hk. destruct c; cbn in Hw; repeat (case_match; [try done|]); simplify_eq; try done; intros k u; cbn.
  - rewrite lookup_alter_Some. intros [(<- & u' & Hu & ->)|[_ Hu]]; by apply Hk in Hu.
  - rewrite lookup_alter_Some. intros [(<- & u' & Hu & ->)|[_ Hu]]; by apply Hk in Hu.
  - rewrite lookup_delete_Some. intros [_ Hu]. by apply Hk.
Qed.

Lemma guardedAdminTx_Ok admins caller target c old write :
  guardedAdminTx admins caller target c = Ok (old, write) ->
  callerOK admins caller = true /\ exists u, target = Some u /\ old = us_Role u /\ change_write c (guard_of admins u) = Ok write.
Proof.
  unfold guardedAdminTx. destruct (callerOK admins caller); [|done]. destruct target as [u|]; [|done]. cbn.
  destruct (change_write _ _) eqn:E; [|done]. intros [= <- <-]. eauto.
Qed.

Lemma profile_keyed id upd u db : keyed db -> lookup_user db id = Some u -> keyed (on_users db <[fold_id id := updateProfile_row upd u]>).
Proof.
  intros Hk Hu key u'. cbn. rewrite lookup_insert_Some. intros [[<- <-]|[_ H']]; [|by apply Hk].
  apply Hk in Hu. unfold updateProfile_row. repeat case_match; done.
Qed.
Lemma create_keyed u db db' : user_Create u db = Ok db' -> keyed db -> keyed db'.
Proof.
  unfold user_Create. repeat case_match; [done|done|]. intros [= <-] Hk k u'. cbn. rewrite lookup_insert_Some.
  intros [[<- <-]|[_ Hu]]; [done|by apply Hk].
Qed.
Lemma password_keyed id hash db db' : UpdatePassword id hash db = Ok db' -> keyed db -> keyed db'.
Proof.
  unfold UpdatePassword. destruct (lookup_user db id) as [u|] eqn:E; [|done]. intros [= <-] Hk k u'. cbn.
  rewrite lookup_insert_Some. intros [[<- <-]|[_ Hu]]; [|by apply Hk]. by apply Hk in E.
Qed.

(** *** Preservation *)

Lemma inv_other w w' q x :
  uw_inv w -> keyed (uw_db w') -> (forall p, p <> q -> stable p w w') -> uw_txs w' = <[q := x]> (uw_txs w) ->
  tx_ok w' q x -> uw_inv w'.
Proof.
  intros [Hk Hi] Hk' Hs Ht Hq. split; [done|]. intros p y. rewrite Ht, lookup_insert_Some.
  intros [[<- <-]|[Hne Hp]]; [done|]. eapply tx_ok_stable; [by apply Hs|by apply Hi].
Qed.

Lemma run_tx_inv p k admins target w :
  uw_inv w -> uw_txs w !! p = Some (k, XLocked admins target) -> uw_inv (run_tx p k admins target w).
Proof.
  intros Hi Hp. destruct Hi as [Hk Hall]. destruct (Hall _ _ Hp) as [_ Ht]. cbn in Ht.
  assert (Hgen : forall r db, keyed db ->
    (forall q key u, q <> p -> uw_locks w !! key = Some q -> ud_users (uw_db w) !! key = Some u -> ud_users db !! key = Some u) ->
    uw_inv (finish p k r db w)).
  { intros r db Hkd Hdb. eapply (inv_other w _ p); [by split|done| |reflexivity|done]. intros q Hne. apply stable_finish; [done|].
    intros key u. by apply Hdb. }
  destruct k as [caller id c|id upd]; cbn [run_tx].
  - destruct (guardedAdminTx admins caller target c) as [[old write]|e] eqn:E; [|by apply Hgen].
    apply guardedAdminTx_Ok in E as (_ & u & -> & -> & Hw). destruct Ht as [Hu Hl]. cbn in Hl, Hu.
    apply Hgen; [by eapply change_write_keyed|]. intros q key u' Hne Hlq Hu'.
    erewrite change_write_other; [done|done|]. intros ->. cbn in Hlq. rewrite <- (Hk _ _ Hu) in Hlq. congruence.
  - destruct target as [u|]; [|by apply Hgen]. destruct Ht as [Hu Hl]. cbn in Hl, Hu.
    apply Hgen; [by apply profile_keyed|]. intros q key u' Hne Hlq Hu'. cbn. rewrite lookup_insert_ne; [done|].
    intros <-. congruence.
Qed.
Lemma lock_target_inv p k admins w w' :
  uw_inv w -> uw_txs w !! p = Some (k, XScan admins) -> lock_target p k admins w = Some w' -> uw_inv w'.
Proof.
  intros Hi Hp. destruct Hi as [Hk Hall]. assert (Ha := Hall _ _ Hp). unfold tx_ok in Ha. cbn in Ha.
  unfold lock_target. destruct (lookup_user _ _) as [u|] eqn:Eu.
  - destruct (lock_free _ _ _) eqn:Ef; [|done]. cbn [negb]. intros [= <-].
    eapply (inv_other w _ p); [by split|done| |reflexivity|].
    + intros q Hne. by apply stable_take.
    + cbn. split; [|by rewrite lookup_insert_eq]. eapply Forall_impl; [exact Ha|].
      intros a (v & Hv & Hr & Hav & Hl). exists v. split_and!; try done. cbn. rewrite lookup_insert. by case_decide.
  - intros [= <-]. eapply (inv_other w _ p); [by split|done| |reflexivity|by split]. intros q _ key v Hl Hv. by split.
Qed.

Lemma sort_less_In {A} (less : A -> A -> bool) l x : In x (sort_less less l) -> In x l.
Proof. intros Hx. eapply Permutation_in; [symmetry; apply sort_less_perm|done]. Qed.
Lemma next_admin_row admins db key : next_admin admins db = Some key ->
  exists u, ud_users db !! key = Some u /\ us_Role u = RoleAdmin.
Proof.
  unfold next_admin. intros [Hin _]%List.find_some. apply sort_less_In in Hin. apply in_map_iff in Hin as ([k u] & <- & Hin).
  apply List.filter_In in Hin as [Hin Hr]. apply list_elem_of_In, elem_of_map_to_list in Hin. exists u.
  split; [done|by apply bool_decide_eq_true in Hr].
Qed.

Lemma tx_step_inv p w w' : uw_inv w -> tx_step p w = Some w' -> uw_inv w'.
Proof.
  intros Hi. unfold tx_step. destruct (uw_txs w !! p) as [[k [admins|admins target|r]]|] eqn:Hp; [| |done|done].
  - destruct (if scans k then next_admin admins (uw_db w) else None) as [key|] eqn:En.
    + destruct (scans k); [|done]. apply next_admin_row in En as (u & Hu & Hr). unfold row_of. rewrite Hu. cbn.
      destruct (lock_free key p w) eqn:Ef; [|done]. cbn. intros [= <-]. destruct Hi as [Hk Hall].
      assert (Ha := Hall _ _ Hp). unfold tx_ok in Ha. cbn in Ha. assert (Hkey := Hk _ _ Hu).
      eapply (inv_other w _ p); [by split|done| |reflexivity|].
      * intros q Hne. by apply stable_take.
      * cbn. apply Forall_app. split.
        -- eapply Forall_impl; [exact Ha|]. intros a (v & Hv & Hrv & Hav & Hl). exists v. split_and!; try done. cbn.
           rewrite lookup_insert. by case_decide.
        -- constructor; [|done]. exists u. cbn. rewrite <- Hkey, lookup_insert_eq. by split_and!.
    + destruct k as [caller id c|id upd]; [|by apply lock_target_inv].
      destruct (callerOK admins caller); cbn; [by apply lock_target_inv|]. intros [= <-]. destruct Hi as [Hk Hall].
      eapply (inv_other w _ p); [by split|done| |reflexivity|done]. intros q Hne. by apply stable_finish.
  - intros [= <-]. by apply run_tx_inv.
Qed.

Lemma uw_step_inv sso w w' : uw_inv w -> uw_step sso w w' -> uw_inv w'.
Proof.
  intros Hi Hs. destruct Hs as [p k Hp|p w' Hs _|p k r e w' Hs Hr _|p k ph Hp Hph ph' Hph'|u db' Hc|id hash db' Hpw Hl].
  - destruct Hi as [Hk Hall]. eapply (inv_other w _ p); [by split|done| |reflexivity|by cbn]. intros q _ key u ??. by split.
  - by eapply tx_step_inv.
  - assert (Hi' := tx_step_inv p w w' Hi Hs). destruct Hi' as [Hk' Hall'].
    eapply (inv_other w' _ p); [by split|done| |reflexivity|done]. intros q _ key u ??. by split.
  - destruct Hi as [Hk Hall]. eapply (inv_other w _ p); [by split|done| |reflexivity|].
    + intros q Hne key u Hl Hu. cbn. split; [by apply release_other|done].
    + destruct Hph' as [->|[e ->]]; by cbn.
  - destruct Hi as [Hk Hall]. split; [by eapply create_keyed|]. intros p x Hp. eapply tx_ok_stable; [|by apply (Hall p)].
    intros key v Hl Hv. split; [done|]. cbn. unfold user_Create in Hc.
    case_match; [done|]. case_match eqn:E; [done|]. injection Hc as <-. cbn. rewrite lookup_insert_ne; [done|].
    intros <-. apply orb_false_iff in E as [E _]. apply bool_decide_eq_false in E. apply E. by exists v.
  - destruct Hi as [Hk Hall]. split; [by eapply password_keyed|]. intros p x Hp. eapply tx_ok_stable; [|by apply (Hall p)].
    intros key v Hlk Hv. split; [done|]. cbn. unfold UpdatePassword in Hpw. destruct (lookup_user _ _); [|done].
    injection Hpw as <-. cbn. rewrite lookup_insert_ne; [done|]. intros <-. congruence.
Qed.

(** ** Refinement *)

Lemma row_current p w a : row_held p w a -> a ∈ admin_rows (uw_db w).
Proof.
  intros (u & Hu & Hr & Ha & _). unfold admin_rows. apply list_elem_of_omap. exists (fold_id a.1). split.
  - apply list_elem_of_In. unfold admin_keys. eapply Permutation_in; [apply sort_less_perm|].
    apply in_map_iff. exists (fold_id a.1, u). split; [done|]. apply List.filter_In. split; [|by apply bool_decide_eq_true].
    by apply list_elem_of_In, elem_of_map_to_list.
  - unfold row_of. rewrite Hu. cbn. by rewrite Ha.
Qed.
Lemma callerOK_mono l l' caller : (forall a, a ∈ l -> a ∈ l') -> callerOK l caller = true -> callerOK l' caller = true.
Proof.
  intros Hl Hc. unfold callerOK in *. apply existsb_exists in Hc as (a & Hin & Ha). apply existsb_exists. exists a.
  split; [|done]. apply list_elem_of_In, Hl. by apply list_elem_of_In.
Qed.
Lemma wouldRemove_mono l l' u :
  (forall a, a ∈ l -> a ∈ l') -> wouldRemoveLastAdmin (guard_of l' u) = true -> wouldRemoveLastAdmin (guard_of l u) = true.
Proof.
  intros Hl. unfold wouldRemoveLastAdmin. cbn [guard_of gt_user gt_otherEnabledAdmins]. intros [Hu Hn]%andb_true_iff.
  rewrite Hu. cbn [andb].
  apply Z.eqb_eq. apply Z.eqb_eq in Hn. apply (f_equal Z.of_nat (y := 0)), length_zero_iff_nil.
  assert (Hn' : length (List.filter (other_enabled u) l') = 0).
  { apply Nat2Z.inj. exact Hn. }
  apply length_zero_iff_nil in Hn'. destruct (List.filter (other_enabled u) l) as [|a r] eqn:E; [done|].
  assert (Ha : In a (a :: r)) by by left. rewrite <- E in Ha. apply List.filter_In in Ha as [Hin Ha].
  assert (Hin' : In a (List.filter (other_enabled u) l')).
  { apply List.filter_In. split; [|done]. apply list_elem_of_In, Hl. by apply list_elem_of_In. }
  by rewrite Hn' in Hin'.
Qed.
(** More admins refuse less. *)
Lemma change_write_mono c l l' u write :
  (forall a, a ∈ l -> a ∈ l') -> change_write c (guard_of l u) = Ok write -> change_write c (guard_of l' u) = Ok write.
Proof.
  intros Hl. assert (Hm := wouldRemove_mono l l' u Hl). unfold change_write. cbn [gt_user guard_of].
  destruct (wouldRemoveLastAdmin (guard_of l' u)); [|by destruct c; repeat (case_match; try done); rewrite ?andb_false_r in *].
  rewrite Hm by done. done.
Qed.
Lemma guardedAdminTx_mono l l' caller target c r :
  (forall a, a ∈ l -> a ∈ l') -> guardedAdminTx l caller target c = Ok r -> guardedAdminTx l' caller target c = Ok r.
Proof.
  intros Hl Hg. destruct r as [old write]. apply guardedAdminTx_Ok in Hg as (Hc & u & -> & -> & Hw).
  unfold guardedAdminTx. rewrite (callerOK_mono l l') by done. cbn. by rewrite (change_write_mono c l l' u write).
Qed.

(** Every commit is the atomic change of the table at that moment. *)
Lemma run_tx_spec sso p k admins target w :
  uw_inv w -> uw_txs w !! p = Some (k, XLocked admins target) -> (sso = false -> ~ demotes p w) ->
  spec_step sso (uw_db w) (uw_db (run_tx p k admins target w)).
Proof.
  intros [Hk Hall] Hp Hd. destruct (Hall _ _ Hp) as [Hf Ht]. cbn in Ht, Hf.
  assert (Hcur : forall a, a ∈ admins -> a ∈ admin_rows (uw_db w)).
  { intros a Ha. rewrite Forall_forall in Hf. eapply row_current. by apply Hf. }
  destruct k as [caller id c|id upd]; cbn [run_tx].
  - destruct (guardedAdminTx admins caller target c) as [[old write]|e] eqn:E; [|apply sp_none]. cbn.
    assert (Hu := E). apply guardedAdminTx_Ok in Hu as (_ & u & -> & _ & _). destruct Ht as [Hu _].
    eapply (sp_guarded _ _ caller id c old). unfold guarded_spec. cbn in Hu. rewrite Hu.
    by rewrite (guardedAdminTx_mono _ _ _ _ _ _ Hcur E).
  - destruct target as [u|]; [|apply sp_none]. destruct Ht as [Hu _]. cbn in Hu.
    apply (sp_profile _ _ id upd); [unfold updateProfileTx; by rewrite Hu|]. intros Hs v Hv He.
    assert (v = u) as -> by congruence. destruct (enabled_admin (updateProfile_row upd u)) eqn:E; [done|].
    exfalso. apply (Hd Hs). by exists id, upd, admins, u.
Qed.
Lemma tx_step_spec sso p w w' :
  uw_inv w -> tx_step p w = Some w' -> (sso = false -> ~ demotes p w) -> spec_step sso (uw_db w) (uw_db w').
Proof.
  intros Hi Hs Hd. unfold tx_step in Hs. destruct (uw_txs w !! p) as [[k [admins|admins target|r]]|] eqn:Hp; [| |done|done].
  - assert (Hlt : forall w', lock_target p k admins w = Some w' -> uw_db w' = uw_db w).
    { intros w1. unfold lock_target. repeat case_match; by intros [= <-]. }
    assert (uw_db w' = uw_db w) as ->; [|apply sp_none].
    repeat case_match; simplify_eq; try done; by apply Hlt.
  - injection Hs as <-. by apply run_tx_spec.
Qed.
Lemma uw_step_spec sso w w' : uw_inv w -> uw_step sso w w' -> spec_step sso (uw_db w) (uw_db w').
Proof.
  intros Hi Hs. destruct Hs as [| | | |u db' Hc|id hash db' Hpw _]; cbn; try apply sp_none.
  - by eapply tx_step_spec.
  - by eapply tx_step_spec.
  - by eapply sp_create.
  - by eapply sp_password.
Qed.
Lemma no_txs_inv w : no_txs w -> uw_inv w.
Proof. intros [Ht Hk]. split; [done|]. intros p x. by rewrite Ht, lookup_empty. Qed.
Lemma uw_steps_inv sso w w' : uw_inv w -> rtc (uw_step sso) w w' -> uw_inv w'.
Proof. intros Hi Hs. induction Hs; [done|]. eauto using uw_step_inv. Qed.

Lemma uw_steps_spec sso w w' : uw_inv w -> rtc (uw_step sso) w w' -> rtc (spec_step sso) (uw_db w) (uw_db w').
Proof.
  intros Hi Hs. induction Hs as [|w w1 w' Hs _ IH]; [done|]. eapply rtc_l; [by eapply uw_step_spec|]. apply IH.
  by eapply uw_step_inv.
Qed.

(** C22. The concurrent changes of users are atomic.  Whatever transactions run at the
    same time, wait for each other's locks, meet deadlocks, are run again or lose the
    answer of their commit, the table of users goes through a sequence of atomic steps:
    creations, password changes, profile updates, and guarded changes each of which was
    allowed by all admins of the table that it changed. *)
Theorem user_changes_atomic sso w w' :
  no_txs w -> rtc (uw_step sso) w w' -> rtc (spec_step sso) (uw_db w) (uw_db w').
Proof. intros Hi%no_txs_inv. by apply uw_steps_spec. Qed.

(** ** The last admin *)

Lemma admin_rows_elem db a : a ∈ admin_rows db -> exists k u, ud_users db !! k = Some u /\ us_Role u = RoleAdmin /\ a = (us_ID u, us_Disabled u).
Proof.
  unfold admin_rows. intros (k & Hk & Hr)%list_elem_of_omap. unfold row_of in Hr.
  apply list_elem_of_In in Hk. unfold admin_keys in Hk. apply sort_less_In, in_map_iff in Hk as ([k' u] & <- & Hin).
  apply List.filter_In in Hin as [Hin Hrole]. apply list_elem_of_In, elem_of_map_to_list in Hin. cbn in Hr.
  rewrite Hin in Hr. cbn in Hr. exists k', u. split_and!; [done|by apply bool_decide_eq_true in Hrole|congruence].
Qed.
Lemma EqualFold_false a b : EqualFold a b = false -> fold_id a <> fold_id b.
Proof. by intros ?%bool_decide_eq_false. Qed.

(** An enabled admin beside the target, when the guard passes and the target is one. *)
Lemma other_admin db u :
  keyed db -> enabled_admin u = true -> wouldRemoveLastAdmin (guard_of (admin_rows db) u) = false ->
  exists k v, ud_users db !! k = Some v /\ enabled_admin v = true /\ k <> fold_id (us_ID u).
Proof.
  intros Hk He Hw. unfold wouldRemoveLastAdmin in Hw. cbn in Hw. unfold enabled_admin in He. rewrite He in Hw. cbn in Hw.
  apply Z.eqb_neq in Hw. destruct (List.filter (other_enabled u) _) as [|a r] eqn:E; [done|].
  assert (Ha : In a (a :: r)) by by left. rewrite <- E in Ha. apply List.filter_In in Ha as [Hin [Hne Hd]%andb_true_iff].
  apply list_elem_of_In, admin_rows_elem in Hin as (k & v & Hv & Hr & ->). exists k, v. split_and!; [done| |].
  - unfold enabled_admin. rewrite Hr. by cbn in Hd.
  - rewrite (Hk _ _ Hv). by apply EqualFold_false, negb_true_iff.
Qed.
Lemma caller_admin db caller : callerOK (admin_rows db) caller = true -> has_admin db.
Proof.
  unfold callerOK. intros (a & Hin & [_ Hd]%andb_true_iff)%existsb_exists.
  apply list_elem_of_In, admin_rows_elem in Hin as (k & v & Hv & Hr & ->). exists k, v. split; [done|].
  unfold enabled_admin. by rewrite Hr.
Qed.

Lemma guarded_keeps_admin callerID id c db old db' :
  keyed db -> guarded_spec callerID id c db = Ok (old, db') -> has_admin db'.
Proof.
  intros Hk. unfold guarded_spec. destruct (guardedAdminTx _ _ _ _) as [[o write]|e] eqn:E; [|done]. intros [= <- <-].
  apply guardedAdminTx_Ok in E as (Hc & u & Hu & -> & Hw). destruct (caller_admin _ _ Hc) as (k & v & Hv & He).
  assert (Hother : enabled_admin u = false \/ wouldRemoveLastAdmin (guard_of (admin_rows db) u) = false -> has_admin (write db)).
  { intros Ho. assert (exists k v, ud_users db !! k = Some v /\ enabled_admin v = true /\ k <> fold_id (us_ID u)) as (k' & v' & Hv' & He' & Hne).
    { destruct (enabled_admin u) eqn:Eu; [destruct Ho as [?|Ho]; [done|]; by apply other_admin|].
      exists k, v. split_and!; try done. intros ->. unfold lookup_user in Hu. rewrite <- (Hk _ _ Hu) in Hv. congruence. }
    exists k', v'. split; [|done]. by rewrite (change_write_other c (guard_of (admin_rows db) u) write). }
  assert (Hkept : forall f, write = (fun db => on_users db (alter f (fold_id (us_ID u)))) ->
    (enabled_admin u = true -> enabled_admin (f u) = true) -> has_admin (write db)).
  { intros f -> Hf. destruct (enabled_admin u) eqn:Eu; [|by apply Hother; left].
    exists (fold_id (us_ID u)), (f u). split; [|by apply Hf]. cbn. unfold lookup_user in Hu. rewrite <- (Hk _ _ Hu).
    apply lookup_alter_Some. left. split; [done|]. by exists u. }
  destruct c as [role|d|]; cbn in Hw.
  - case_match; [injection Hw as <-; by exists k, v|]. case_match eqn:Eg; [done|].
    apply andb_false_iff in Eg as [Eg|Eg]; [|by apply Hother; right]. injection Hw as Hw.
    apply (Hkept (us_set_Role role)); [done|]. apply negb_false_iff, bool_decide_eq_true in Eg as ->.
    unfold enabled_admin. cbn. by intros [_ ?]%andb_true_iff.
  - case_match eqn:Eg; [done|]. apply andb_false_iff in Eg as [->|Eg]; [|by apply Hother; right]. injection Hw as Hw.
    apply (Hkept (us_set_Disabled false)); [done|]. unfold enabled_admin. cbn. intros [-> _]%andb_true_iff. done.
  - case_match eqn:Eg; [done|]. by apply Hother; right.
Qed.

Lemma alter_key_admin db db' id u u' :
  lookup_user db id = Some u -> db' = on_users db <[fold_id id := u']> ->
  (enabled_admin u = true -> enabled_admin u' = true) -> has_admin db -> has_admin db'.
Proof.
  intros Hu -> Hf (k & v & Hv & He). destruct (decide (k = fold_id id)) as [->|Hne].
  - unfold lookup_user in Hu. exists (fold_id id), u'. cbn. rewrite lookup_insert_eq. split; [done|]. apply Hf. congruence.
  - exists k, v. cbn. by rewrite lookup_insert_ne.
Qed.
Lemma spec_keeps_admin db db' : keyed db -> has_admin db -> spec_step false db db' -> keyed db' /\ has_admin db'.
Proof.
  intros Hk Ha Hs. destruct Hs as [|u db' Hc|id hash db' Hp|caller id c old db' Hg|id upd db' Hp Hd]; [done|..].
  - split; [by eapply create_keyed|]. destruct Ha as (k & v & Hv & He). exists k, v. split; [|done].
    unfold user_Create in Hc. case_match; [done|]. case_match eqn:E; [done|]. injection Hc as <-. cbn.
    rewrite lookup_insert_ne; [done|]. intros <-. apply orb_false_iff in E as [E _]. apply bool_decide_eq_false in E.
    apply E. by exists v.
  - split; [by eapply password_keyed|]. unfold UpdatePassword in Hp. destruct (lookup_user db id) as [u|] eqn:E; [|done].
    injection Hp as <-. by eapply (alter_key_admin db _ id u (us_set_PasswordHash hash u)).
  - split; [|by eapply guarded_keeps_admin]. unfold guarded_spec in Hg.
    destruct (guardedAdminTx _ _ _ _) as [[o write]|] eqn:E; [|done]. injection Hg as _ <-.
    apply guardedAdminTx_Ok in E as (_ & u & _ & _ & Hw). by eapply change_write_keyed.
  - unfold updateProfileTx in Hp. destruct (lookup_user db id) as [u|] eqn:E; [|done]. injection Hp as <-.
    split; [by apply profile_keyed|]. eapply alter_key_admin; [done|done| |done]. by apply Hd.
Qed.

(** C21. An enabled admin remains.  From a table with an enabled admin, no concurrent
    role changes, disables, deletes, creations, password changes and SSO profile updates
    leave a table without one, unless the identity provider itself takes the role of an
    enabled admin. *)
Theorem last_admin_remains w w' :
  no_txs w -> has_admin (uw_db w) -> rtc (uw_step false) w w' -> has_admin (uw_db w').
Proof.
  intros Hn Ha Hs. assert (Hsp := uw_steps_spec _ _ _ (no_txs_inv _ Hn) Hs). destruct Hn as [_ Hk].
  clear Hs. remember (uw_db w) as db eqn:Edb. clear Edb. induction Hsp as [|db db1 db2 H1 _ IH]; [done|].
  destruct (spec_keeps_admin _ _ Hk Ha H1). by apply IH.
Qed.

(** Only an enabled admin changes a user.  When a step of a reachable state commits
    a role change, disable or delete, then the caller is an enabled admin in the table
    at that moment, and not only when its request began: of two admins who demote each
    other at the same time, one fails. *)
Theorem commit_by_admin sso w0 w w' p callerID id c admins target :
  no_txs w0 -> rtc (uw_step sso) w0 w -> uw_txs w !! p = Some (KGuarded callerID id c, XLocked admins target) ->
  tx_step p w = Some w' -> uw_db w' <> uw_db w ->
  exists u, lookup_user (uw_db w) callerID = Some u /\ enabled_admin u = true.
Proof.
  intros Hn%no_txs_inv Hs Hp Ht Hne. assert (Hi := uw_steps_inv _ _ _ Hn Hs). destruct Hi as [Hk Hall].
  destruct (Hall _ _ Hp) as [Hf _]. unfold tx_step in Ht. rewrite Hp in Ht. injection Ht as <-. cbn [run_tx] in Hne.
  destruct (guardedAdminTx admins callerID target c) as [[old write]|] eqn:E; [|by cbn in Hne].
  apply guardedAdminTx_Ok in E as (Hc & _). unfold callerOK in Hc.
  apply existsb_exists in Hc as (a & Hin & [Heq Hd]%andb_true_iff). apply list_elem_of_In in Hin.
  rewrite Forall_forall in Hf. destruct (Hf a Hin) as (u & Hu & Hr & Ha & _). exists u.
  apply bool_decide_eq_true in Heq. unfold lookup_user. rewrite <- Heq. split; [done|].
  unfold enabled_admin. rewrite Hr. rewrite Ha in Hd. by cbn in Hd.
Qed.

(** ** Sample runs *)

Definition sample_admin (id : string) : User := mkUser id id "" id RoleAdmin "local" None "" false false.
Definition two_admins : UserWorld :=
  mkUserWorld (mkUserDb {["a" := sample_admin "a"; "b" := sample_admin "b"]} ∅) ∅ ∅.
(** A schedule: the begun requests, then the processes that step. *)
Fixpoint run_schedule (l : list nat) (w : UserWorld) : option UserWorld :=
  match l with
  | [] => Some w
  | p :: l' => match tx_step p w with Some w' => run_schedule l' w' | None => None end
  end.
Definition duel : UserWorld :=
  set_phase 1 (KGuarded "b" "a" (UpdateRole RoleUser)) (XScan [])
    (set_phase 0 (KGuarded "a" "b" (UpdateRole RoleUser)) (XScan []) two_admins).

(** The second admin waits for the locks of the first one and then is no admin. *)
Example duel_has_one_winner :
  (w' ← run_schedule [0; 0; 0; 0; 1; 1] duel; Some (uw_txs w' !! 0, uw_txs w' !! 1)) =
    Some (Some (KGuarded "a" "b" (UpdateRole RoleUser), XDone (Ok RoleAdmin)),
          Some (KGuarded "b" "a" (UpdateRole RoleUser), XDone (Err ErrCallerNotAdmin))) /\
  run_schedule [0; 1] duel = None.
Proof. split; vm_compute; reflexivity. Qed.

(** An SSO login can take the role of the last admin. *)
Definition sso_admin : User := mkUser "s" "s" "" "s" RoleAdmin "oidc" (Some "x") "" false false.
Example sso_demotes_last_admin :
  match updateProfileTx "s" (mkProfile None None (Some RoleUser) None None) (mkUserDb {["s" := sso_admin]} ∅) with
  | Ok db => option_map enabled_admin (lookup_user db "s") = Some false
  | Err _ => False
  end.
Proof. vm_compute. reflexivity. Qed.

Lemma two_admins_start : no_txs two_admins.
Proof.
  split; [done|]. intros k u. cbn. rewrite lookup_insert_Some, lookup_singleton_Some. intros [[<- <-]|[_ [<- <-]]]; done.
Qed.
Lemma two_admins_admin : has_admin (uw_db two_admins).
Proof. exists "a", (sample_admin "a"). by split. Qed.

Lemma schedule_steps l w w' : (forall p x, uw_txs w !! p = Some x -> exists caller id c ph, x = (KGuarded caller id c, ph)) ->
  run_schedule l w = Some w' -> rtc (uw_step false) w w'.
Proof.
  revert w. induction l as [|p l IH]; intros w Hg; cbn; [by intros [= <-]|]. destruct (tx_step p w) as [w1|] eqn:E; [|done].
  intros Hl. eapply rtc_l; [|apply IH; [|exact Hl]].
  - apply (uw_tx _ _ p); [done|]. intros _ (id & upd & admins & u & Hp & _). destruct (Hg _ _ Hp) as (? & ? & ? & ? & ?). done.
  - intros q x Hq. assert (Hk : forall k ph, uw_txs w !! p = Some (k, ph) -> exists caller id c, k = KGuarded caller id c).
    { intros k ph Hp. destruct (Hg _ _ Hp) as (caller & id & c & ph' & [= -> _]). eauto. }
    assert (Hw : exists k ph ph', uw_txs w !! p = Some (k, ph) /\ uw_txs w1 = <[p := (k, ph')]> (uw_txs w)).
    { unfold tx_step in E. destruct (uw_txs w !! p) as [[k ph]|] eqn:Hp; [|done]. exists k, ph. destruct (Hk _ _ eq_refl) as (caller & id & c & ->).
      unfold lock_target, run_tx, finish, set_phase, take_lock in E.
      repeat case_match; simplify_eq; cbn; eexists; (split; [done|reflexivity]). }
    destruct Hw as (k & ph & ph' & Hp & Hw). rewrite Hw in Hq. apply lookup_insert_Some in Hq as [[_ <-]|[_ Hq]]; [|by apply Hg in Hq].
    destruct (Hk _ _ Hp) as (caller & id & c & ->). eauto.
Qed.
Lemma duel_starts : rtc (uw_step false) two_admins duel.
Proof.
  eapply rtc_l; [by apply (uw_begin _ _ 0 (KGuarded "a" "b" (UpdateRole RoleUser)))|].
  eapply rtc_l; [by apply (uw_begin _ _ 1 (KGuarded "b" "a" (UpdateRole RoleUser)))|]. reflexivity.
Qed.
Lemma duel_guarded p x : uw_txs duel !! p = Some x -> exists caller id c ph, x = (KGuarded caller id c, ph).
Proof.
  cbn. rewrite !lookup_insert_Some, lookup_empty. intros [[_ <-]|[_ [[_ <-]|[_ ?]]]]; [by do 4 eexists|by do 4 eexists|done].
Qed.
Lemma duel_runs l w : run_schedule l duel = Some w -> rtc (uw_step false) two_admins w.
Proof. intros Hl. etrans; [apply duel_starts|]. eapply schedule_steps; [apply duel_guarded|done]. Qed.

Lemma user_changes_atomic_witness :
  match run_schedule [0; 0; 0; 0; 1; 1] duel with
  | Some w => rtc (spec_step false) (uw_db two_admins) (uw_db w)
  | None => False
  end.
Proof.
  destruct (run_schedule [0; 0; 0; 0; 1; 1] duel) as [w|] eqn:E.
  - apply (user_changes_atomic false two_admins w); [apply two_admins_start|by eapply duel_runs].
  - by apply (f_equal (fun o => bool_decide (is_Some o))) in E; vm_compute in E.
Defined.

Lemma last_admin_remains_witness :
  match run_schedule [0; 0; 0; 0; 1; 1] duel with Some w => has_admin (uw_db w) | None => False end.
Proof.
  destruct (run_schedule [0; 0; 0; 0; 1; 1] duel) as [w|] eqn:E.
  - apply (last_admin_remains two_admins w); [apply two_admins_start|apply two_admins_admin|by eapply duel_runs].
  - by apply (f_equal (fun o => bool_decide (is_Some o))) in E; vm_compute in E.
Defined.

(** The first admin has all locks of the duel. *)
Definition duel_locked : UserWorld :=
  mkUserWorld (uw_db two_admins) {["a" := 0; "b" := 0]}
    (<[0 := (KGuarded "a" "b" (UpdateRole RoleUser), XLocked [("a", false); ("b", false)] (Some (sample_admin "b")))]>
      (uw_txs duel)).
Lemma duel_locked_runs : run_schedule [0; 0; 0] duel = Some duel_locked.
Proof. vm_compute. reflexivity. Qed.
Lemma commit_by_admin_witness : exists u, lookup_user (uw_db duel_locked) "a" = Some u /\ enabled_admin u = true.
Proof.
  eapply (commit_by_admin false two_admins duel_locked _ 0 "a" "b" (UpdateRole RoleUser) [("a", false); ("b", false)] (Some (sample_admin "b"))).
  - apply two_admins_start.
  - eapply duel_runs, duel_locked_runs.
  - reflexivity.
  - vm_compute. reflexivity.
  - intros E. apply (f_equal (fun db => option_map us_Role (lookup_user db "b"))) in E. vm_compute in E. discriminate.
Defined.
