(* ===== verification/Admins.v ===== *)
(** * The administration of users

    The handlers of [api/handlers/users.go], registration and the first admin of
    [auth.go].  A handler reads the user, makes its change (the transactions of [Users],
    whose answer is any) and then ends the access of the user with [revokeUserAccess] of
    [Auth]. *)

From S2P Require Import Prelude Models Store World Durations Access Tokens Auth Revocation Endings Users.
Local Open Scope string_scope.
Local Open Scope list_scope.

Definition msgRoleManagedByIdP := "Role is managed by the identity provider".
Definition msgLastAdmin := "The last enabled admin cannot be demoted, disabled or deleted".
Definition msgCallerNotAdmin := "Admin role required".
Definition msgOwnRole := "Cannot change your own role".
Definition msgInvalidRole := "Role must be one of: user, devops, admin".

Definition isSameUserID (a b : string) : bool := negb (empty a) && EqualFold a b.
Definition mapped (e : goerr) (entity : string) : AuthAnswer := let '(c, m) := mapError e entity in fails c m.
Definition writeGuardedChangeError (e : goerr) : AuthAnswer :=
  If errorsIs e "ErrCallerNotAdmin" Return fails 403 msgCallerNotAdmin ;;
  If errorsIs e "ErrLastAdmin" Return fails 409 msgLastAdmin ;;
  mapped e "User".

(** The change as the handler sees it. *)
Definition guarded_change (c : Change) (id : string) : T error := tcall (TUserWrite (change_op c) id).
(** [UpdateRole] also gives the previous role. *)
Definition update_role (id role : string) : T (res string) :=
  get! st := tstep in
  do! twhen (bool_decide (te_fault st = None) || te_lost st) (temit (TUserWrite (change_op (UpdateRole role)) id)) in
  tret (match te_fault st with Some e => Err e | None => Ok (te_text st) end).

Section admins.
Context (h : AuthHandler) (apiKeys : bool).

(** The user of a guarded request: not the caller, neither by the path nor by the stored
    id. *)
Definition other_user (id callerID : string) (same : AuthAnswer) : T (User + AuthAnswer) :=
  If isSameUserID id callerID Return tret (inr same) ;;
  get! r := find_user in
  tret (match r with
        | Err e => inr (mapped e "User")
        | Ok u => If isSameUserID (us_ID u) callerID Return inr same ;; inl u
        end).

Definition DeleteUser (callerID id : string) : T AuthAnswer :=
  If empty id Return tret (fails 400 "User ID is required") ;;
  get! r := other_user id callerID (fails 400 "Cannot delete your own account") in
  match r with
  | inr a => tret a
  | inl u =>
      get! err := guarded_change DeleteGuarded (us_ID u) in
      match err with
      | Some e => tret (writeGuardedChangeError e)
      | None =>
          do! revokeUserAccess h (us_ID u) true apiKeys in
          tret (mkAuthAnswer 204 ABNone)
      end
  end.

Definition setDisabled (callerID id : string) (disabled : bool) : T AuthAnswer :=
  If empty id Return tret (fails 400 "User ID is required") ;;
  get! r := other_user id callerID (fails 400 "Cannot change your own account status") in
  match r with
  | inr a => tret a
  | inl u =>
      get! err := guarded_change (SetDisabled disabled) (us_ID u) in
      match err with
      | Some e => tret (writeGuardedChangeError e)
      | None =>
          do! (if disabled then revokeUserAccess h (us_ID u) false apiKeys else blockIssuedTokens h (us_ID u)) in
          tret (mkAuthAnswer 200 (ABMessage ("User " +:+ (if disabled then "disabled" else "enabled") +:+ " successfully")))
      end
  end.

Definition local_user (u : User) : bool := empty (us_AuthProvider u) || bool_decide (us_AuthProvider u = "local").

(** [body]: the new password of a valid body; its hashing can fail. *)
Definition ResetUserPassword (id : string) (body : option string) : T AuthAnswer :=
  If empty id Return tret (fails 400 "User ID is required") ;;
  match body with
  | None => tret (fails 400 msgInvalidRequestFormat)
  | Some password =>
      If (String.length password <? 8)%nat Return tret (fails 400 "Password must be at least 8 characters") ;;
      get! r := find_user in
      match r with
      | Err e => tret (mapped e "User")
      | Ok u =>
          If negb (local_user u) Return tret (fails 400 "Cannot reset password for non-local user") ;;
          get! hash := tstep in
          If bool_decide (is_Some (te_fault hash)) Return tret (fails 500 msgInternalServerError) ;;
          get! err := tcall (TUserWrite "update_password" (us_ID u)) in
          match err with
          | Some e => tret (mapped e "User")
          | None =>
              do! revokeUserAccess h (us_ID u) false apiKeys in
              tret (mkAuthAnswer 200 (ABMessage "Password reset successfully"))
          end
      end
  end.

Definition ChangeUserRole (callerID id : string) (body : option string) : T AuthAnswer :=
  If empty id Return tret (fails 400 "User ID is required") ;;
  match body with
  | None => tret (fails 400 msgInvalidRequestFormat)
  | Some role =>
      If negb (IsValidRole role) Return tret (fails 400 msgInvalidRole) ;;
      get! r := other_user id callerID (fails 403 msgOwnRole) in
      match r with
      | inr a => tret a
      | inl u =>
          If negb (local_user u) Return tret (fails 409 msgRoleManagedByIdP) ;;
          get! r := update_role (us_ID u) role in
          match r with
          | Err e => tret (writeGuardedChangeError e)
          | Ok oldRole =>
              let changed := negb (bool_decide (oldRole = role)) in
              do! (if changed then revokeUserAccess h (us_ID u) false apiKeys else tret tt) in
              tret (mkAuthAnswer 200 (ABRole (us_ID u) oldRole role changed))
          end
      end
  end.

(** ** Registration *)

Record RegisterRequest := mkRegister {
  rg_Username : string;
  rg_Password : string;
  rg_DisplayName : string;
  rg_Role : string;
  rg_ServiceAccount : bool
}.
Context (selfRegistration : bool).

(** The row of a registration: only an admin chooses a role or a service account. *)
Definition registered_user (callerRole id hash : string) (q : RegisterRequest) : User :=
  let admin := bool_decide (callerRole = "admin") in
  mkUser id (rg_Username q) hash
    (if empty (rg_DisplayName q) then rg_Username q else rg_DisplayName q)
    (if negb (empty (rg_Role q)) && admin then rg_Role q else "user")
    "local" None "" false (rg_ServiceAccount q && admin).
(** [Create] sets the error of a duplicate name. *)
Definition Register (callerRole : string) (body : option RegisterRequest) : T AuthAnswer :=
  If negb selfRegistration && negb (bool_decide (callerRole = "admin")) Return
    tret (fails 403 "Registration is disabled") ;;
  match body with
  | None => tret (fails 400 msgInvalidRequestFormat)
  | Some q =>
      If empty (rg_Username q) || empty (rg_Password q) Return tret (fails 400 "Username and password are required") ;;
      If negb (empty (rg_Role q)) && negb (IsValidRole (rg_Role q)) Return tret (fails 400 msgInvalidRole) ;;
      get! hash := tstep in
      If bool_decide (is_Some (te_fault hash)) Return tret (fails 500 msgInternalServerError) ;;
      get! uuid := tstep in
      let u := registered_user callerRole (te_text uuid) (te_text hash) q in
      get! err := tcall (TUserCreate u) in
      tret (match err with Some e => mapped e "User" | None => mkAuthAnswer 201 (ABUser u) end)
  end.
Definition GetCurrentUser (userID : string) : T AuthAnswer :=
  If empty userID Return tret (fails 401 "Authentication required") ;;
  get! r := find_user in
  tret (match r with Err e => mapped e "User" | Ok u => mkAuthAnswer 200 (ABUser u) end).

(** The admin of the configuration, when no user has its name; its provider is the default
    of the column. *)
Definition EnsureAdminUser (adminUsername adminPassword : string) : T unit :=
  If empty adminUsername || empty adminPassword Return tret tt ;;
  get! r := find_user in
  match r with
  | Ok _ => tret tt
  | Err e =>
      If negb (isNotFoundError e) Return tret tt ;;
      get! hash := tstep in
      If bool_decide (is_Some (te_fault hash)) Return tret tt ;;
      get! uuid := tstep in
      do! tcall (TUserCreate (mkUser (te_text uuid) adminUsername (te_text hash) "Administrator" "admin" "local" None "" false true)) in
      tret tt
  end.

Inductive AdminCall :=
| CallDelete
| CallDisable (disabled : bool)
| CallReset (body : option string)
| CallRole (body : option string).
Definition admin_call (k : AdminCall) (callerID id : string) : T AuthAnswer :=
  match k with
  | CallDelete => DeleteUser callerID id
  | CallDisable d => setDisabled callerID id d
  | CallReset body => ResetUserPassword id body
  | CallRole body => ChangeUserRole callerID id body
  end.
End admins.

(** ** Every step of a revocation *)

Definition gone (u : string) (t : RefreshToken) : Prop := rt_UserID t = u -> rt_Revoked t = true.
Lemma keeps_gone u : keeps_rows (gone u).
Proof. by split_and!. Qed.

Lemma userBlockTTL_covers a j : (a <= userBlockTTL a j /\ j <= userBlockTTL a j)%Z.
Proof. unfold userBlockTTL. repeat case_match; unfold Hour, Minute, Second in *; lia. Qed.

Section revoking.
Context `{TokenHash} (h : AuthHandler).
Local Abbreviation yes := (fun _ : tevent => True).
Local Abbreviation any := (fun _ : nat -> TEnv => True).

Section generic.
Context (I : RefreshToken -> Prop) (HI : keeps_rows I).
Local Abbreviation safe := (safe any (rows I) yes).

Lemma safe_blockIssued u : safe (blockIssuedTokens h u) (fun _ _ => True).
Proof.
  apply safe_when. intros _. eapply safe_bind; [apply safe_clock|]. intros now _.
  eapply safe_bind; [by apply safe_call|]. intros. by apply safe_ret.
Qed.
Lemma safe_revoke_tail u (del keys : bool) :
  safe (do! twhen (del && keys) (do! tcall (TDeleteKeys u) in tret tt) in
        twhen (ah_wsRevoker h) (temit (TDisconnectUser u))) (fun _ _ => True).
Proof.
  eapply safe_bind; [apply safe_when; intros _; eapply safe_bind; [by apply safe_call|]; intros; by apply safe_ret|].
  intros _ _. apply safe_when. intros _. by apply safe_emit.
Qed.
End generic.

(** What the access of a user ends with. *)
Definition access_ended (u : string) (w : TWorld) : Prop :=
  (ah_refreshTokenRepo h = true -> rows (gone u) (tw_db w)) /\
  (ah_sessionStore h = true -> exists n until, TBlockUser u until ∈ tw_trace w /\
     (te_now (tw_env w n) + ac_AccessTokenExpiration (ah_cfg h) <= until)%Z /\
     (te_now (tw_env w n) + ac_JWTExpiration (ah_cfg h) <= until)%Z) /\
  (ah_wsRevoker h = true -> TDisconnectUser u ∈ tw_trace w).

Lemma revoke_runs u w : fault_free w -> rely (rows (gone u)) w ->
  let m := (if ah_refreshTokenRepo h then RevokeAllForUser u else tret None) in
  let w1 := (m w).2 in
  tw_env w1 = tw_env w /\ (ah_refreshTokenRepo h = true -> rows (gone u) (tw_db w1)).
Proof.
  intros Hf Hr. cbv zeta. destruct (ah_refreshTokenRepo h); [|done]. unfold RevokeAllForUser.
  destruct (exec_runs (RevokeUser u) w Hf) as [_ Hdb]; [done|].
  destruct (exec_effect (RevokeUser u) (fun _ => True) (fun _ => True) keeps_true (fun t => ltac:(done)) (fun _ _ => Logic.I) w Logic.I)
    as (E & _); [by intros n s _|by intros ???|]. split; [done|]. intros _. rewrite Hdb. apply revoke_user_effect.
Qed.
Lemma revokeUserAccess_runs u del keys w : fault_free w -> rely (rows (gone u)) w ->
  access_ended u (revokeUserAccess h u del keys w).2 /\ tw_env (revokeUserAccess h u del keys w).2 = tw_env w.
Proof.
  intros Hf Hr. unfold revokeUserAccess.
  destruct (revoke_runs u w Hf Hr) as (E1 & Hd1). set (m := if ah_refreshTokenRepo h then _ else _) in *.
  change (tbind m ?k w) with (k (m w).1 (m w).2). cbv beta. set (w1 := (m w).2) in *. clearbody w1.
  assert (Hblock : let w2 := (blockIssuedTokens h u w1).2 in tw_env w2 = tw_env w1 /\
    (ah_sessionStore h = true -> exists n until, TBlockUser u until ∈ tw_trace w2 /\
     (te_now (tw_env w n) + ac_AccessTokenExpiration (ah_cfg h) <= until)%Z /\
     (te_now (tw_env w n) + ac_JWTExpiration (ah_cfg h) <= until)%Z)).
  { unfold blockIssuedTokens. destruct (ah_sessionStore h); [|by split]. cbn [twhen]. split.
    - unfold tbind, tclock, tcall, tstep, twhen, temit, tret. cbn. by case_match.
    - intros _. exists (tw_tick w1). eexists. split.
      + unfold tbind, tclock, tcall, tstep, twhen, temit, tret. cbn. rewrite E1, !Hf. cbn. by left.
      + rewrite ?E1. destruct (userBlockTTL_covers (ac_AccessTokenExpiration (ah_cfg h)) (ac_JWTExpiration (ah_cfg h))). lia. }
  change (tbind (blockIssuedTokens h u) ?k w1) with (k tt (blockIssuedTokens h u w1).2). cbv beta.
  destruct Hblock as [E2 Hb]. assert (Hd2 : ah_refreshTokenRepo h = true -> rows (gone u) (tw_db (blockIssuedTokens h u w1).2)).
  { intros Hrepo. destruct (safe_blockIssued (gone u) u w1 Logic.I) as (_ & _ & Hd & _); [intros n s; rewrite E1; apply Hr|by apply Hd1|done]. }
  set (w2 := (blockIssuedTokens h u w1).2) in *. clearbody w2.
  destruct (safe_revoke_tail (fun _ => True) u del keys w2 Logic.I) as (E3 & _ & _ & (tr & Ht & _) & _); [by intros n s _|by intros ???|].
  assert (Ew : tw_env w2 = tw_env w) by congruence.
  split; [|by rewrite E3]. split_and!.
  - intros Hrepo. destruct (safe_revoke_tail (gone u) u del keys w2 Logic.I) as (_ & _ & Hd & _);
      [intros n s; rewrite Ew; apply Hr|by apply Hd2|exact Hd].
  - intros Hs. destruct (Hb Hs) as (n & until & Hin & Hu). exists n, until. rewrite E3, Ew. split; [|done].
    rewrite Ht. apply elem_of_app. by right.
  - intros Hws. unfold tbind at 1. rewrite Hws. cbn. by left.
Qed.
End revoking.

(** ** Changes end the access *)

Section changes.
Context `{TokenHash} (h : AuthHandler) (apiKeys : bool).

(** The answer reports a change that must end the access of its user. *)
Definition ends_access (k : AdminCall) (a : AuthAnswer) : bool :=
  match k, an_Body a with
  | CallDisable false, _ => false
  | _, ABError _ => false
  | _, ABRole _ _ _ changed => changed
  | _, _ => true
  end.
Definition ended_for_user (w w' : TWorld) : Prop :=
  exists n u, te_user (tw_env w n) = Ok u /\ access_ended h (us_ID u) w'.

Lemma mapped_error e s : exists c m, mapped e s = fails c m.
Proof. unfold mapped. destruct (mapError e s). eauto. Qed.
Lemma guarded_error e : exists c m, writeGuardedChangeError e = fails c m.
Proof. unfold writeGuardedChangeError. repeat (case_match; [eauto|]). apply mapped_error. Qed.
Lemma ends_fails k c m : ends_access k (fails c m) = true -> False.
Proof. destruct k as [|[]| |]; done. Qed.

Context (w : TWorld) (Hf : fault_free w) (Hr : forall u, rely (rows (gone u)) w).

Lemma ended_after u del w1 n (a : AuthAnswer) : tw_env w1 = tw_env w -> te_user (tw_env w n) = Ok u ->
  ended_for_user w ((do! revokeUserAccess h (us_ID u) del apiKeys in tret a) w1).2.
Proof.
  intros E Hu. exists n, u. split; [done|].
  change (access_ended h (us_ID u) (revokeUserAccess h (us_ID u) del apiKeys w1).2).
  apply revokeUserAccess_runs; [intros i; rewrite E; apply Hf|intros i s; rewrite E; apply Hr].
Qed.
Lemma other_user_runs id caller same w1 : tw_env w1 = tw_env w ->
  let r := other_user id caller same w1 in
  tw_env r.2 = tw_env w /\ match r.1 with
  | inl u => exists n, te_user (tw_env w n) = Ok u
  | inr a => a = same \/ exists c m, a = fails c m
  end.
Proof.
  intros E. cbv zeta. unfold other_user. destruct (isSameUserID id caller); [split; [done|by left]|].
  unfold tbind, find_user, tstep, tret. cbn. split; [done|]. rewrite E.
  destruct (te_user (tw_env w (tw_tick w1))) as [u|e] eqn:Eu; cbn; [|right; apply mapped_error]. destruct (isSameUserID (us_ID u) caller); [by left|by eexists].
Qed.
Lemma call_none e w1 : tw_env w1 = tw_env w -> (tcall e w1).1 = None /\ tw_env (tcall e w1).2 = tw_env w.
Proof. intros E. rewrite call_runs by (intros n; rewrite E; apply Hf). done. Qed.

Ltac step_other :=
  match goal with |- context [tbind (other_user ?i ?c ?s) ?k ?w1] =>
    let Eo := fresh "Eo" in let Hs := fresh "Hs" in
    destruct (other_user_runs i c s w1) as [Eo Hs]; [done|];
    change (tbind (other_user i c s) k w1) with (k (other_user i c s w1).1 (other_user i c s w1).2); cbv beta;
    destruct (other_user i c s w1) as [[u|a] w2]; cbn [fst snd] in *;
    [destruct Hs as [n Hn]|destruct Hs as [->|(c' & m & ->)]; by intros ?%ends_fails]
  end.
Ltac step_call :=
  match goal with |- context [tbind (tcall ?e) ?k ?w1] =>
    let E1 := fresh "Ec" in let E2 := fresh "En" in
    destruct (call_none e w1) as [E1 E2]; [done|];
    change (tbind (tcall e) k w1) with (k (tcall e w1).1 (tcall e w1).2); cbv beta; rewrite E1
  end.

Lemma delete_ends caller id :
  ends_access CallDelete (DeleteUser h apiKeys caller id w).1 = true -> ended_for_user w (DeleteUser h apiKeys caller id w).2.
Proof.
  unfold DeleteUser. case_match; [done|]. step_other. unfold guarded_change. step_call. intros _. by eapply ended_after.
Qed.
Lemma disable_ends caller id d :
  ends_access (CallDisable d) (setDisabled h apiKeys caller id d w).1 = true ->
  ended_for_user w (setDisabled h apiKeys caller id d w).2.
Proof.
  destruct d; [|by unfold ends_access]. unfold setDisabled. case_match; [done|]. step_other. unfold guarded_change. step_call.
  intros _. by eapply ended_after.
Qed.
Lemma reset_ends id body :
  ends_access (CallReset body) (ResetUserPassword h apiKeys id body w).1 = true ->
  ended_for_user w (ResetUserPassword h apiKeys id body w).2.
Proof.
  unfold ResetUserPassword. case_match; [done|]. destruct body as [pw|]; [|done]. case_match; [done|].
  change (tbind find_user ?k w) with (k (te_user (tw_env w (tw_tick w))) (tstep w).2). cbv beta.
  destruct (te_user (tw_env w (tw_tick w))) as [u|e] eqn:Eu; [|destruct (mapped_error e "User") as (c & m & ->); done].
  case_match; [done|]. change (tbind tstep ?k (tstep w).2) with (k (tw_env w (S (tw_tick w))) (tstep (tstep w).2).2). cbv beta.
  rewrite Hf. rewrite bool_decide_eq_false_2 by (by intros []). step_call. intros _. by eapply ended_after.
Qed.
Lemma role_ends caller id body :
  ends_access (CallRole body) (ChangeUserRole h apiKeys caller id body w).1 = true ->
  ended_for_user w (ChangeUserRole h apiKeys caller id body w).2.
Proof.
  unfold ChangeUserRole. case_match; [done|]. destruct body as [role|]; [|done]. case_match; [done|]. step_other.
  case_match; [done|].
  assert (Hu : tw_env (update_role (us_ID u) role w2).2 = tw_env w /\ exists old, (update_role (us_ID u) role w2).1 = Ok old).
  { unfold update_role, tbind, tstep, twhen, temit, tret. cbn. rewrite Eo, Hf. cbn. split; [done|by eexists]. }
  destruct Hu as (E & old & Eold).
  change (tbind (update_role (us_ID u) role) ?k w2) with (k (update_role (us_ID u) role w2).1 (update_role (us_ID u) role w2).2).
  cbv beta. rewrite Eold. cbv zeta. destruct (bool_decide (old = role)) eqn:Ech; cbn [negb]; [intros Hc; by cbn in Hc|]. intros _. by eapply ended_after.
Qed.
End changes.

(** A change ends the access of its user.  When no step fails and a delete, a
    disable, a password reset or a changed role is answered as done, then at the end no
    refresh token of the user is active, the user is blocked for at least the lifetime of
    every access token from a clock reading of the request on, and its sockets are
    closed. *)
Theorem change_ends_access `{TokenHash} h apiKeys k callerID id w :
  fault_free w -> (forall u, rely (rows (gone u)) w) ->
  let r := admin_call h apiKeys k callerID id w in
  ends_access k r.1 = true -> ended_for_user h w r.2.
Proof.
  intros Hf Hr. destruct k as [|d|body|body]; cbv zeta; cbn [admin_call].
  - by apply delete_ends.
  - by apply disable_ends.
  - by apply reset_ends.
  - by apply role_ends.
Qed.

(** ** Who may change what *)

Section powers.
Context `{TokenHash} (h : AuthHandler) (apiKeys : bool).
Local Abbreviation any := (fun _ : nat -> TEnv => True).
Local Abbreviation rany := (fun _ : RefreshToken => True).

Section events.
Context (Ev : tevent -> Prop) (Hev : forall e, (forall op id, e <> TUserWrite op id) -> (forall u, e <> TUserCreate u) -> Ev e).
Local Abbreviation safe := (safe any (rows rany) Ev).

Lemma safe_revokeUserAccess u del : safe (revokeUserAccess h u del apiKeys) (fun _ _ => True).
Proof.
  assert (Hs : forall m : T error, safe m (fun _ _ => True) -> forall k : T unit, safe k (fun _ _ => True) ->
    safe (do! m in k) (fun _ _ => True)) by (intros m Hm k Hk; by eapply safe_bind; [apply Hm|]).
  unfold revokeUserAccess. apply Hs.
  { case_match; [|by apply safe_ret]. unfold RevokeAllForUser, exec_err. eapply safe_bind; [|intros; by apply safe_ret].
    apply (safe_db _ _ _ _ (fun _ _ => True)); [by apply Hev|by intros s _ ? ? ?|intros s _; by case_match]. }
  eapply safe_bind.
  { apply safe_when. intros _. eapply safe_bind; [apply safe_clock|]. intros now _.
    eapply safe_bind; [apply safe_call; by apply Hev|]. intros. by apply safe_ret. }
  intros _ _. eapply safe_bind.
  { apply safe_when. intros _. eapply safe_bind; [apply safe_call; by apply Hev|]. intros. by apply safe_ret. }
  intros _ _. apply safe_when. intros _. apply safe_emit. by apply Hev.
Qed.
Lemma safe_other_user id caller same :
  safe (other_user id caller same) (fun r _ => forall u, r = inl u -> isSameUserID (us_ID u) caller = false).
Proof.
  unfold other_user. case_match; [by apply safe_ret|]. eapply safe_bind; [by eapply safe_find_user|]. intros [u|e] _; apply safe_ret.
  - intros _ _ v. destruct (isSameUserID (us_ID u) caller) eqn:E; [done|]. by intros [= <-].
  - done.
Qed.
End events.

(** A row that is written is not the one of the caller. *)
Definition not_self (callerID : string) (e : tevent) : Prop :=
  (forall op id, e = TUserWrite op id -> isSameUserID id callerID = false) /\ forall u, e <> TUserCreate u.

Lemma safe_admin_call k callerID id : (forall body, k <> CallReset body) ->
  safe any (rows rany) (not_self callerID) (admin_call h apiKeys k callerID id) (fun _ _ => True).
Proof.
  intros Hk. assert (Hev : forall e, (forall op id, e <> TUserWrite op id) -> (forall u, e <> TUserCreate u) -> not_self callerID e).
  { intros e H1 H2. split; [intros op i ->; by destruct (H1 op i)|done]. }
  assert (Hw : forall op u, isSameUserID (us_ID u) callerID = false -> not_self callerID (TUserWrite op (us_ID u))).
  { intros op u Hu. split; [by intros ?? [= _ <-]|done]. }
  assert (Hrev : forall u del (a : AuthAnswer), safe any (rows rany) (not_self callerID)
    (do! revokeUserAccess h u del apiKeys in tret a) (fun _ _ => True)).
  { intros u del a. eapply safe_bind; [by apply safe_revokeUserAccess|]. intros. by apply safe_ret. }
  destruct k as [|d|body|body]; [| |by destruct (Hk body)|]; cbn [admin_call].
  - unfold DeleteUser. case_match; [by apply safe_ret|]. eapply safe_bind; [by apply safe_other_user|].
    intros [u|a] [s Hu]; [|by apply safe_ret]. eapply safe_bind; [apply safe_call, Hw; by apply Hu|].
    intros [e|] _; [by apply safe_ret|apply Hrev].
  - unfold setDisabled. case_match; [by apply safe_ret|]. eapply safe_bind; [by apply safe_other_user|].
    intros [u|a] [s Hu]; [|by apply safe_ret]. eapply safe_bind; [apply safe_call, Hw; by apply Hu|].
    intros [e|] _; [by apply safe_ret|]. destruct d; [apply Hrev|]. eapply safe_bind; [|intros; by apply safe_ret].
    apply safe_when. intros _. eapply safe_bind; [apply safe_clock|]. intros now _.
    eapply safe_bind; [apply safe_call; by apply Hev|]. intros. by apply (safe_ret _ _ _ _ (fun _ _ => True)).
  - unfold ChangeUserRole. case_match; [by apply safe_ret|]. destruct body as [role|]; [|by apply safe_ret].
    case_match; [by apply safe_ret|]. eapply safe_bind; [by apply safe_other_user|].
    intros [u|a] [s Hu]; [|by apply safe_ret]. case_match; [by apply safe_ret|]. eapply (safe_bind _ _ _ _ _ (fun _ _ => True)).
    { unfold update_role. eapply safe_bind; [apply safe_step|]. intros st _.
      eapply safe_bind; [apply safe_when; intros _; apply safe_emit, Hw; by apply Hu|]. intros. by apply safe_ret. }
    intros [old|e] _; [|by apply safe_ret]. cbv zeta. destruct (bool_decide (old = role)); cbn [negb]; [|apply Hrev].
    eapply safe_bind; [by apply (safe_ret _ _ _ _ (fun _ _ => True))|]. intros. by apply safe_ret.
Qed.

Lemma safe_Register self callerRole body : callerRole <> "admin" ->
  safe any (rows rany) (fun e => exists u, e = TUserCreate u /\ us_Role u = "user" /\ us_ServiceAccount u = false /\ self = true)
    (Register self callerRole body) (fun _ _ => True).
Proof.
  intros Hr. unfold Register. rewrite (bool_decide_eq_false_2 _ Hr). destruct self; cbn [negb andb]; [|by apply safe_ret].
  destruct body as [q|]; [|by apply safe_ret]. case_match; [by apply safe_ret|]. case_match; [by apply safe_ret|].
  eapply safe_bind; [apply safe_step|]. intros hash _. case_match; [by apply safe_ret|]. eapply safe_bind; [apply safe_step|].
  intros uuid _. cbv zeta. eapply safe_bind; [apply safe_call|intros; by apply safe_ret].
  eexists. split; [reflexivity|]. unfold registered_user. cbn. rewrite (bool_decide_eq_false_2 _ Hr), !andb_false_r. done.
Qed.
End powers.

(** No admin changes the own account.  A delete, disable, enable or role change
    writes no row whose id is the one of the caller in any letter case, whatever row the
    lookup finds, and creates none. *)
Theorem admin_spares_self `{TokenHash} h apiKeys k callerID id w :
  (forall body, k <> CallReset body) -> added w (admin_call h apiKeys k callerID id w).2 (not_self callerID).
Proof.
  intros Hk. by destruct (safe_admin_call h apiKeys k callerID id Hk w Logic.I) as (_ & _ & _ & Ht & _);
    [intros n s _ ???|intros ???|].
Qed.

(** A registration gives no power.  A caller that is no admin creates only a user
    with the role user that is no service account, and only when the self registration is
    on. *)
Theorem register_no_escalation selfRegistration callerRole body w :
  callerRole <> "admin" -> added w (Register selfRegistration callerRole body w).2
    (fun e => exists u, e = TUserCreate u /\ us_Role u = "user" /\ us_ServiceAccount u = false /\ selfRegistration = true).
Proof.
  intros Hr. by destruct (safe_Register selfRegistration callerRole body Hr w Logic.I) as (_ & _ & _ & Ht & _);
    [intros n s _ ???|intros ???|].
Qed.

(** ** Sample runs *)

Section samples.
#[local] Existing Instance sample_hash.

Lemma change_ends_access_witness : ended_for_user sample_handler (sample_world false)
  (admin_call sample_handler true (CallDisable true) "boss" "u1" (sample_world false)).2.
Proof.
  apply (change_ends_access sample_handler true (CallDisable true) "boss" "u1" (sample_world false));
    [done|intros u; apply sample_rely|vm_compute; reflexivity].
Defined.
Lemma admin_spares_self_witness : added (sample_world false)
  (admin_call sample_handler true CallDelete "U1" "x" (sample_world false)).2 (not_self "U1").
Proof. by apply (admin_spares_self sample_handler true CallDelete "U1" "x" (sample_world false)). Defined.
Example admin_same_id : (admin_call sample_handler true CallDelete "U1" "x" (sample_world false)).1 =
  fails 400 "Cannot delete your own account".
Proof. vm_compute. reflexivity. Qed.

Definition sample_registration : RegisterRequest := mkRegister "eve" "secret" "" "admin" true.
Lemma register_no_escalation_witness : added (sample_world false)
  (Register true "user" (Some sample_registration) (sample_world false)).2
  (fun e => exists u, e = TUserCreate u /\ us_Role u = "user" /\ us_ServiceAccount u = false /\ true = true).
Proof. by apply (register_no_escalation true "user" (Some sample_registration) (sample_world false)). Defined.
End samples.
