(* ===== verification/Kept.v ===== *)
(** * Invariants of the store across a request

    [kept I m Φ]: when the store satisfies [I] and every statement of the other
    processes preserves it, the store satisfies it after the program [m] too.  Reads
    may use the invariant.  Inside a transaction nothing interferes, so the body of
    [kept_transaction] is a plain argument about one store. *)

From S2P Require Import Prelude Models Quota Store Hooks World Manager.
Local Open Scope string_scope.

Section kept.
Context (I : Store -> Prop).

Definition preserving (op : dbop) : Prop := forall t s, keyed s -> I s -> I (exec t op s).2.
Definition guarded (w : World) : Prop := keyed (w_db w) /\ I (w_db w) /\ env_ok preserving w.
Definition kept {A} (m : M A) (Φ : A -> Prop) : Prop := forall w, guarded w -> guarded (m w).2 /\ Φ (m w).1.

Lemma guarded_evolves Ev w w' :
  (forall op, may_write Ev op -> preserving op) -> evolves Ev w w' -> guarded w -> guarded w'.
Proof.
  intros HE He (Hk & Hi & Ho). split_and!; [by apply (ev_keyed _ _ _ He)| |unfold env_ok in *; by rewrite (ev_env _ _ _ He)].
  enough (keyed (w_db w') /\ I (w_db w')) as [_ ?] by done.
  eapply (db_steps_inv preserving (fun s => keyed s /\ I s)); [| |done].
  - intros t op s Hp [Hs Hi']. split; [by apply exec_keyed|by apply Hp].
  - eapply db_steps_mono; [|by apply (ev_db _ _ _ He)]. intros op [H|H]; [by apply HE|done].
Qed.

Lemma kept_own Ev {A} (m : M A) Φ : (forall op, may_write Ev op -> preserving op) -> own Ev m Φ -> kept m Φ.
Proof.
  intros HE Hm w Hw. destruct (Hm w (proj1 Hw)) as [He Ha]. split; [by eapply guarded_evolves|done].
Qed.
Lemma kept_ret {A} (a : A) (Φ : A -> Prop) : Φ a -> kept (ret a) Φ.
Proof. intros Ha w Hw. by split. Qed.
Lemma kept_bind {A B} (m : M A) (k : A -> M B) Ψ (Φ : B -> Prop) :
  kept m Ψ -> (forall a, Ψ a -> kept (k a) Φ) -> kept (bind m k) Φ.
Proof. intros Hm Hk w Hw. destruct (Hm w Hw) as [Hw1 Ha]. apply (Hk _ Ha), Hw1. Qed.
Lemma kept_post {A} (m : M A) (Φ Ψ : A -> Prop) : kept m Ψ -> (forall a, Ψ a -> Φ a) -> kept m Φ.
Proof. intros Hm H w Hw. destruct (Hm w Hw). auto. Qed.

Lemma guarded_step w : guarded w -> guarded (step w).2.
Proof. apply (guarded_evolves (fun _ => False)); [intros op H; destruct (H 0%Z)|apply evolves_step]. Qed.

Lemma kept_query {A} (f : time -> Store -> A) (Φ : A -> Prop) :
  (forall t s, keyed s -> I s -> Φ (f t s)) -> kept (query f) (fun r => forall a, r = Ok a -> Φ a).
Proof.
  intros Hf w Hw. pose proof (guarded_step w Hw) as Hs. unfold query. destruct (step w) as [st w1] eqn:Es.
  cbn [snd] in Hs. destruct (e_fault st); cbn; (split; [done|]); [done|]. intros a [= <-]. apply Hf; apply Hs.
Qed.

Lemma guarded_quiet q w : guarded w -> guarded (set_quiet q w).
Proof. done. Qed.
Lemma guarded_rollback w0 w : guarded w0 -> w_env w = w_env w0 -> guarded (rollback w0 w).
Proof. intros (Hk & Hi & Ho) He. split_and!; [done|done|]. unfold env_ok in *. cbn. by rewrite He. Qed.

(** A transaction whose body keeps the invariant when nothing interferes. *)
Lemma kept_transaction {A} d (body : M (error * A)) :
  (forall w, w_quiet w = true -> guarded w -> guarded (body w).2) -> own (fun _ => True) body (fun _ => True) ->
  kept (transaction_with d body) (fun _ => True).
Proof.
  intros Hb Ho w Hw. split; [|done]. unfold transaction_with. pose proof (guarded_step w Hw) as Hs.
  destruct (step w) as [st w1]. cbn [snd] in Hs. destruct (e_fault st); [done|].
  specialize (Hb (set_quiet true w1) eq_refl (guarded_quiet true _ Hs)).
  pose proof (own_evolves _ _ _ _ Ho (proj1 Hs : keyed (w_db (set_quiet true w1)))) as He.
  destruct (body (set_quiet true w1)) as [[r a] w2]. cbn [snd] in *.
  pose proof (ev_env _ _ _ He) as Ee. cbn in Ee. destruct r; [by apply guarded_rollback|].
  pose proof (guarded_step _ Hb) as Hs2. pose proof (ev_env _ _ _ (evolves_step (fun _ => True) w2)) as E2.
  destruct (step w2) as [st' w3]. cbn [snd] in *.
  destruct (e_fault st'); [destruct (e_lost st')|]; cbn; try by apply guarded_quiet.
  apply guarded_rollback; [done|]. congruence.
Qed.
Lemma kept_RunInTx (body : M error) :
  (forall w, w_quiet w = true -> guarded w -> guarded (body w).2) -> own (fun _ => True) body (fun _ => True) ->
  kept (RunInTx body) (fun _ => True).
Proof.
  intros Hb Ho. unfold RunInTx, transaction. eapply (kept_bind _ _ (fun _ => True)).
  - eapply (kept_bind _ _ (fun _ => True)); [|intros; by apply kept_ret]. apply kept_transaction.
    + intros w Hq Hw. unfold bind, ret. cbn. by apply Hb.
    + eapply own_bind; [exact Ho|]. intros. by apply own_ret.
  - intros e _. eapply kept_bind; [apply (kept_own (fun _ => False)); [intros op H; destruct (H 0%Z)|apply own_ctxErr]|].
    intros. by apply kept_ret.
Qed.

Lemma kept_run {A} (m : M A) Φ w : kept m Φ -> guarded w -> guarded (m w).2.
Proof. intros Hm Hw. by apply Hm. Qed.
End kept.

(** [still m Φ]: inside a transaction [m] leaves the store alone, and its result fits the
    store. *)
Definition still {A} (m : M A) (Φ : Store -> A -> Prop) : Prop := forall w, w_quiet w = true ->
  w_db (m w).2 = w_db w /\ w_quiet (m w).2 = true /\ Φ (w_db w) (m w).1.

Lemma still_ret {A} (a : A) (Φ : Store -> A -> Prop) : (forall s, Φ s a) -> still (ret a) Φ.
Proof. intros Ha w Hq. by split_and!. Qed.
Lemma still_bind {A B} (m : M A) (k : A -> M B) Ψ Φ :
  still m Ψ -> (forall a, still (k a) (fun s b => Ψ s a -> Φ s b)) -> still (bind m k) Φ.
Proof.
  intros Hm Hk w Hq. destruct (Hm w Hq) as (Hd & Hq1 & Ha). destruct (Hk (m w).1 (m w).2 Hq1) as (Hd2 & Hq2 & Hb).
  unfold bind. split_and!; [congruence|done|]. rewrite <- Hd. apply Hb. by rewrite Hd.
Qed.
Lemma still_post {A} (m : M A) (Φ Ψ : Store -> A -> Prop) : still m Ψ -> (forall s a, Ψ s a -> Φ s a) -> still m Φ.
Proof. intros Hm H w Hq. destruct (Hm w Hq) as (? & ? & ?). auto. Qed.
Lemma still_step : still step (fun _ _ => True).
Proof. intros w Hq. unfold step. cbn. by rewrite Hq. Qed.
Lemma still_ctxErr : still ctxErr (fun _ _ => True).
Proof. eapply still_bind; [apply still_step|]. intros st. by apply still_ret. Qed.
Lemma still_clock : still clock (fun _ _ => True).
Proof. eapply still_bind; [apply still_step|]. intros st. by apply still_ret. Qed.
Lemma still_query {A} (f : time -> Store -> A) : still (query f) (fun s r => forall a, r = Ok a -> exists t, a = f t s).
Proof.
  intros w Hq. destruct (still_step w Hq) as (Hd & Hq' & _). unfold query. destruct (step w) as [st w1]. cbn [fst snd] in *.
  destruct (e_fault st); cbn; (split_and!; [done|done|]); [done|]. intros a [= <-]. exists (e_dbnow st). by rewrite Hd.
Qed.

(** A read of an instance by its key, under an invariant of its row. *)
Lemma kept_FindByID I id (P : StackInstance -> Prop) :
  (forall s i, keyed s -> I s -> st_instances s !! id = Some i -> P i) ->
  kept I (instance_FindByID id) (fun r => forall i, r = Ok i -> si_ID i = id /\ P i).
Proof.
  intros HP. unfold instance_FindByID. eapply kept_bind.
  - apply (kept_query I _ (fun o => forall i, o = Some i -> si_ID i = id /\ P i)).
    intros _ s Hk Hi i Ei. split; [by apply Hk|]. by eapply HP.
  - intros [[i|]|e] H; apply kept_ret; try done. intros ? [= <-]. by apply (H (Some i)).
Qed.
