(* ===== verification/Effects.v ===== *)
(** * Programs over a shared state

    The effects of the components that keep a table of their own, for any type of
    state, of visible calls and of external answers.  One step of a program is an
    interaction: the other processes change the state first ([en_others]), the clock
    moves, and the step can fail before or after it took effect.

    [triple R Ev q P m Q] is the program logic: when every step of the environment is
    in [R] (what the others do, the faults, the answers) and the state satisfies [P],
    then after [m] its result and the state satisfy [Q], and its calls satisfy [Ev].  [q]
    tells whether [m] runs in a transaction, where the others do not show; outside of
    one, a precondition must be stable under [R]. *)

From S2P Require Import Prelude Models Store.

Section effects.
Context {S E X : Type}.

Record Env := mkStep {
  en_others : S -> S;
  en_now : time;
  en_fault : error;
  en_lost : bool;
  en_ctx : error;
  en_answer : X
}.
Record EWorld := mkEWorld {
  ew_state : S;
  ew_env : nat -> Env;
  ew_tick : nat;
  ew_quiet : bool;
  ew_trace : list E
}.
Definition Eff (A : Type) : Type := EWorld -> A * EWorld.

Definition eret {A} (a : A) : Eff A := fun w => (a, w).
Definition ebind {A B} (m : Eff A) (k : A -> Eff B) : Eff B := fun w => let r := m w in k r.1 r.2.

Definition estep : Eff Env := fun w =>
  let st := ew_env w (ew_tick w) in
  (st, mkEWorld (if ew_quiet w then ew_state w else en_others st (ew_state w)) (ew_env w) (1 + ew_tick w) (ew_quiet w)
         (ew_trace w)).
Definition eemit (e : E) : Eff unit := fun w =>
  (tt, mkEWorld (ew_state w) (ew_env w) (ew_tick w) (ew_quiet w) (e :: ew_trace w)).

Definition eclock : Eff time := ebind estep (fun st => eret (en_now st)).
Definition ectx : Eff error := ebind estep (fun st => eret (en_ctx st)).
(** An answer from outside of the component. *)
Definition eask {A} (f : X -> A) : Eff A := ebind estep (fun st => eret (f (en_answer st))).
Definition ewhen (b : bool) (m : Eff unit) : Eff unit := if b then m else eret tt.

(** A reading and a writing statement. *)
Definition eread {A} (f : time -> S -> A) : Eff (res A) := fun w =>
  let '(st, w1) := estep w in
  match en_fault st with
  | Some e => (Err e, w1)
  | None => (Ok (f (en_now st) (ew_state w1)), w1)
  end.
Definition ewrite {A} (f : time -> S -> res A * S) (e : E) : Eff (res A) := fun w =>
  let '(st, w1) := estep w in
  let '(r, s) := f (en_now st) (ew_state w1) in
  let written := mkEWorld s (ew_env w1) (ew_tick w1) (ew_quiet w1) (e :: ew_trace w1) in
  match en_fault st with
  | Some err => (Err err, if en_lost st then written else w1)
  | None => (r, written)
  end.
(** A call of another component that can fail, with or without effect. *)
Definition ecall (e : E) : Eff error :=
  ebind estep (fun st =>
    ebind (ewhen (bool_decide (en_fault st = None) || en_lost st) (eemit e)) (fun _ => eret (en_fault st))).

Fixpoint eforeach {A} (l : list A) (f : A -> Eff unit) : Eff unit :=
  match l with
  | [] => eret tt
  | x :: l' => ebind (f x) (fun _ => eforeach l' f)
  end.

Definition set_equiet (q : bool) (w : EWorld) : EWorld := mkEWorld (ew_state w) (ew_env w) (ew_tick w) q (ew_trace w).
(** State and trace of [w0], the rest of [w]. *)
Definition erollback (w0 w : EWorld) : EWorld := mkEWorld (ew_state w0) (ew_env w) (ew_tick w) (ew_quiet w0) (ew_trace w0).
(** A transaction; an error of the body rolls back, a failed commit may have taken
    effect. *)
Definition etransaction {A} (none : A) (body : Eff (error * A)) : Eff (error * A) := fun w =>
  let '(st, w1) := estep w in
  match en_fault st with
  | Some e => ((Some e, none), w1)
  | None =>
      let '((r, a), w2) := body (set_equiet true w1) in
      match r with
      | Some e => ((Some e, a), erollback w1 w2)
      | None =>
          let '(st', w3) := estep w2 in
          match en_fault st' with
          | None => ((None, a), set_equiet (ew_quiet w1) w3)
          | Some e => ((Some e, a), if en_lost st' then set_equiet (ew_quiet w1) w3 else erollback w1 w3)
          end
      end
  end.

(** ** The program logic *)

Section logic.
Context (R : Env -> Prop) (Ev : E -> Prop).

Definition stable (P : S -> Prop) : Prop := forall st s, R st -> P s -> P (en_others st s).
Definition steady (q : bool) (P : S -> Prop) : Prop := q = true \/ stable P.

Definition triple (q : bool) {A} (P : S -> Prop) (m : Eff A) (Q : A -> S -> Prop) : Prop :=
  forall w, (forall n, R (ew_env w n)) -> ew_quiet w = q -> P (ew_state w) ->
  let r := m w in
  ew_env r.2 = ew_env w /\ ew_quiet r.2 = q /\ (exists tr, ew_trace r.2 = tr ++ ew_trace w /\ Forall Ev tr) /\
  Q r.1 (ew_state r.2).

Lemma triple_ret q {A} (a : A) P (Q : A -> S -> Prop) : (forall s, P s -> Q a s) -> triple q P (eret a) Q.
Proof. intros H w _ Hq Hp. split_and!; [done|done|by exists []|by apply H]. Qed.

Lemma triple_bind q {A B} (m : Eff A) (k : A -> Eff B) P Q0 Q :
  triple q P m Q0 -> (forall a, triple q (Q0 a) (k a) Q) -> triple q P (ebind m k) Q.
Proof.
  intros Hm Hk w HR Hq Hp. destruct (Hm w HR Hq Hp) as (E1 & Q1 & (t1 & T1 & F1) & H1).
  destruct (Hk (m w).1 (m w).2) as (E2 & Q2 & (t2 & T2 & F2) & H2); [by rewrite E1|done|done|].
  unfold ebind. cbv zeta. split_and!; [congruence|done| |done].
  exists (t2 ++ t1)%list. rewrite T2, T1, app_assoc. split; [done|]. by apply Forall_app.
Qed.

Lemma triple_conseq q {A} (m : Eff A) (P P' : S -> Prop) (Q Q' : A -> S -> Prop) :
  triple q P' m Q' -> (forall s, P s -> P' s) -> (forall a s, Q' a s -> Q a s) -> triple q P m Q.
Proof. intros Hm HP HQ w HR Hq Hp. destruct (Hm w HR Hq (HP _ Hp)) as (? & ? & ? & ?). auto 10. Qed.
Lemma triple_post q {A} (m : Eff A) P (Q Q' : A -> S -> Prop) :
  triple q P m Q' -> (forall a s, Q' a s -> Q a s) -> triple q P m Q.
Proof. intros Hm HQ. eapply triple_conseq; eauto. Qed.
Lemma triple_pre q {A} (m : Eff A) (P P' : S -> Prop) Q :
  triple q P' m Q -> (forall s, P s -> P' s) -> triple q P m Q.
Proof. intros Hm HP. eapply triple_conseq; eauto. Qed.
(** A fact without the state leaves the precondition. *)
Lemma triple_fact q {A} (m : Eff A) (F : Prop) P Q :
  (F -> triple q P m Q) -> triple q (fun s => F /\ P s) m Q.
Proof. intros Hm w HR Hq [HF Hp]. by apply Hm. Qed.
Lemma triple_exists q {A} {B} (m : Eff A) (P : B -> S -> Prop) Q :
  (forall b, triple q (P b) m Q) -> triple q (fun s => exists b, P b s) m Q.
Proof. intros Hm w HR Hq [b Hp]. by apply (Hm b). Qed.

Lemma estep_run w : estep w = (ew_env w (ew_tick w), (estep w).2).
Proof. done. Qed.
Lemma step_state q w P : (forall n, R (ew_env w n)) -> ew_quiet w = q -> steady q P -> P (ew_state w) ->
  P (ew_state (estep w).2).
Proof.
  intros HR Hq Hs Hp. unfold estep. cbn. rewrite Hq. destruct q; [done|]. destruct Hs as [|Hs]; [done|]. by apply Hs.
Qed.

Lemma triple_step q P : steady q P -> triple q P estep (fun st s => R st /\ P s).
Proof. intros Hs w HR Hq Hp. split_and!; [done|done|by exists []|apply HR|by eapply step_state]. Qed.
Lemma triple_emit q e P : Ev e -> triple q P (eemit e) (fun _ => P).
Proof. intros He w HR Hq Hp. split_and!; [done|done| |done]. exists [e]. split; [done|]. by constructor. Qed.
(** The parts of a step. *)
Lemma triple_part q {A} (f : Env -> A) P : steady q P ->
  triple q P (ebind estep (fun st => eret (f st))) (fun a s => (exists st, R st /\ a = f st) /\ P s).
Proof. intros Hs. eapply triple_bind; [by apply triple_step|]. intros st. apply triple_ret. intros s [? ?]. eauto. Qed.
Lemma triple_clock q P : steady q P -> triple q P eclock (fun t s => (exists st, R st /\ t = en_now st) /\ P s).
Proof. apply triple_part. Qed.
Lemma triple_ctx q P : steady q P -> triple q P ectx (fun e s => (exists st, R st /\ e = en_ctx st) /\ P s).
Proof. apply triple_part. Qed.
Lemma triple_ask q {A} (f : X -> A) P : steady q P ->
  triple q P (eask f) (fun a s => (exists st, R st /\ a = f (en_answer st)) /\ P s).
Proof. apply (triple_part q (fun st => f (en_answer st))). Qed.
Lemma triple_when q b m P : (b = true -> triple q P m (fun _ => P)) -> triple q P (ewhen b m) (fun _ => P).
Proof. destruct b; intros Hm; [by apply Hm|by apply triple_ret]. Qed.
Lemma triple_foreach q {A} (l : list A) f P : (forall x, x ∈ l -> triple q P (f x) (fun _ => P)) ->
  triple q P (eforeach l f) (fun _ => P).
Proof.
  induction l as [|x l IH]; intros Hf; [by apply triple_ret|]. cbn [eforeach].
  eapply triple_bind; [apply Hf; by left|]. intros u. apply IH. intros y Hy. apply Hf. by right.
Qed.

Lemma triple_read q {A} (f : time -> S -> A) P : steady q P ->
  triple q P (eread f) (fun r s => P s /\ exists st, R st /\ r = match en_fault st with Some e => Err e | None => Ok (f (en_now st) s) end).
Proof.
  intros Hs w HR Hq Hp. unfold eread. rewrite estep_run. pose proof (step_state q w P HR Hq Hs Hp) as Hp1.
  cbv beta iota. set (st := ew_env w (ew_tick w)).
  assert (exists st0, R st0 /\ match en_fault st with Some e => Err e | None => Ok (f (en_now st) (ew_state (estep w).2)) end =
    match en_fault st0 with Some e => Err e | None => Ok (f (en_now st0) (ew_state (estep w).2)) end) as Hr.
  { exists st. split; [apply HR|done]. }
  destruct (en_fault st); cbn [fst snd]; (split_and!; [done|done|by exists []|done|done]).
Qed.

Lemma triple_write q {A} (f : time -> S -> res A * S) e P (Q : res A -> S -> Prop) : steady q P -> Ev e ->
  (forall t s, P s -> Q (f t s).1 (f t s).2) ->
  (forall st err s, R st -> en_fault st = Some err -> P s -> Q (Err err) s /\ Q (Err err) (f (en_now st) s).2) ->
  triple q P (ewrite f e) Q.
Proof.
  intros Hs He Hok Hno w HR Hq Hp. unfold ewrite. rewrite estep_run. pose proof (step_state q w P HR Hq Hs Hp) as Hp1.
  set (st := ew_env w (ew_tick w)). set (w1 := (estep w).2) in *. cbv beta iota.
  specialize (Hok (en_now st) _ Hp1). pose proof (fun err He => Hno st err _ (HR _) He Hp1) as Hno'.
  destruct (f (en_now st) (ew_state w1)) as [r s]. cbn [fst snd] in *.
  destruct (en_fault st) as [err|]; [destruct (en_lost st)|]; cbn [fst snd] in *.
  - split_and!; [done|done| |by apply (Hno' err)]. exists [e]. split; [done|by constructor].
  - split_and!; [done|done|by exists []|by apply (Hno' err)].
  - split_and!; [done|done| |done]. exists [e]. split; [done|by constructor].
Qed.

Lemma triple_call q e P : steady q P -> Ev e ->
  triple q P (ecall e) (fun r s => (exists st, R st /\ r = en_fault st) /\ P s).
Proof.
  intros Hs He. eapply triple_bind; [by apply triple_step|]. intros st. apply triple_fact. intros HR.
  eapply triple_bind; [by apply triple_when; intros; apply triple_emit|]. intros u. apply triple_ret. eauto.
Qed.

Lemma triple_transaction {A} none (body : Eff (error * A)) P Qb (Q : error * A -> S -> Prop) : stable P ->
  triple true P body Qb -> (forall a s, Qb (None, a) s -> Q (None, a) s) ->
  (forall e a s, Qb (None, a) s -> Q (Some e, a) s) -> (forall e a s, P s -> Q (Some e, a) s) ->
  triple false P (etransaction none body) Q.
Proof.
  intros Hst Hb Hok Hlost Hback w HR Hq Hp. unfold etransaction. rewrite estep_run.
  pose proof (step_state false w P HR Hq (or_intror Hst) Hp) as Hp1. set (w1 := (estep w).2) in *. cbv beta iota.
  destruct (en_fault _) as [e|]; [split_and!; [done|done|by exists []|by apply Hback]|].
  destruct (Hb (set_equiet true w1)) as (E1 & Q1 & (t1 & T1 & F1) & H1); [done|done|done|].
  destruct (body (set_equiet true w1)) as [[r a] w2]. cbn [fst snd] in *.
  destruct r as [e|]; [split_and!; [done|done|by exists []|by apply Hback]|].
  rewrite estep_run. cbv beta iota.
  assert (ew_state (estep w2).2 = ew_state w2) as Es by (unfold estep; cbn; by rewrite Q1).
  destruct (en_fault _) as [e|]; [destruct (en_lost _)|]; cbn [fst snd].
  - split_and!; [done|done|by exists t1|]. cbn [ew_state set_equiet]. rewrite Es. by apply Hlost.
  - split_and!; [done|done|by exists []|by apply Hback].
  - split_and!; [done|done|by exists t1|]. cbn [ew_state set_equiet]. rewrite Es. by apply Hok.
Qed.
End logic.

Lemma triple_weaken (R R' : Env -> Prop) (Ev Ev' : E -> Prop) q {A} (m : Eff A) P Q :
  triple R Ev q P m Q -> (forall st, R' st -> R st) -> (forall e, Ev e -> Ev' e) -> triple R' Ev' q P m Q.
Proof.
  intros Hm HR HE w Hw Hq Hp. destruct (Hm w (fun n => HR _ (Hw n)) Hq Hp) as (? & ? & (tr & ? & Hf) & ?).
  split_and!; [done|done| |done]. exists tr. split; [done|]. by eapply Forall_impl.
Qed.
End effects.

Arguments Env : clear implicits.
Arguments EWorld : clear implicits.
Arguments Eff : clear implicits.

Declare Scope eff_scope.
Delimit Scope eff_scope with eff.
Notation "'let?' x ':=' m 'in' k" := (ebind m (fun x => k))
  (at level 10, x pattern, m at level 99, k at level 200) : eff_scope.
Notation "'do?' m 'in' k" := (ebind m (fun _ => k)) (at level 10, m at level 99, k at level 200) : eff_scope.
Open Scope eff_scope.

(** The invariant form: every precondition is the invariant [I]. *)
Definition keeping {S E X} R Ev (I : S -> Prop) {A} (m : Eff S E X A) (Φ : A -> Prop) : Prop :=
  triple R Ev false I m (fun a s => I s /\ Φ a).

Section keeping.
Context {S E X : Type} (R : Env S X -> Prop) (Ev : E -> Prop) (I : S -> Prop) (HI : stable R I).
Local Abbreviation keeping := (@keeping S E X R Ev I).

Lemma keeping_ret {A} (a : A) (Φ : A -> Prop) : Φ a -> keeping (eret a) Φ.
Proof. intros Ha. by apply triple_ret. Qed.
Lemma keeping_bind {A B} (m : Eff S E X A) (k : A -> Eff S E X B) Ψ Φ :
  keeping m Ψ -> (forall a, Ψ a -> keeping (k a) Φ) -> keeping (ebind m k) Φ.
Proof.
  intros Hm Hk. eapply triple_bind; [exact Hm|]. intros a w HR Hq [Hi Ha]. by apply (Hk a Ha).
Qed.
(** A part that keeps the invariant, before one with a postcondition of its own. *)
Lemma keeping_before {A B} (m : Eff S E X A) (k : A -> Eff S E X B) Ψ Q :
  keeping m Ψ -> (forall a, Ψ a -> triple R Ev false I (k a) Q) -> triple R Ev false I (ebind m k) Q.
Proof. intros Hm Hk. eapply triple_bind; [exact Hm|]. intros a w HR Hq [Hi Ha]. by apply (Hk a Ha). Qed.
Lemma keeping_post {A} (m : Eff S E X A) (Φ Ψ : A -> Prop) : keeping m Ψ -> (forall a, Ψ a -> Φ a) -> keeping m Φ.
Proof. intros Hm H. eapply triple_post; [exact Hm|]. intros a s [? ?]. auto. Qed.
Lemma keeping_part {A} (f : Env S X -> A) :
  keeping (ebind estep (fun st => eret (f st))) (fun a => exists st, R st /\ a = f st).
Proof. eapply triple_post; [apply triple_part; by right|]. intros a s [? ?]. auto. Qed.
Lemma keeping_step : keeping estep (fun st => R st).
Proof. eapply triple_post; [apply triple_step; by right|]. intros a s [? ?]. auto. Qed.
Lemma keeping_clock : keeping eclock (fun t => exists st, R st /\ t = en_now st).
Proof. apply keeping_part. Qed.
Lemma keeping_ctx : keeping ectx (fun e => exists st, R st /\ e = en_ctx st).
Proof. apply keeping_part. Qed.
Lemma keeping_ask {A} (f : X -> A) : keeping (eask f) (fun a => exists st, R st /\ a = f (en_answer st)).
Proof. apply (keeping_part (fun st => f (en_answer st))). Qed.
Lemma keeping_emit e : Ev e -> keeping (eemit e) (fun _ => True).
Proof. intros He. eapply triple_post; [by apply triple_emit|]. auto. Qed.
Lemma keeping_call e : Ev e -> keeping (ecall e) (fun r => exists st, R st /\ r = en_fault st).
Proof. intros He. eapply triple_post; [apply triple_call; [by right|done]|]. intros a s [? ?]. auto. Qed.
Lemma keeping_when b m : (b = true -> keeping m (fun _ => True)) -> keeping (ewhen b m) (fun _ => True).
Proof. destruct b; intros Hm; [by apply Hm|by apply keeping_ret]. Qed.
(** A read sees a state with the invariant. *)
Lemma keeping_read {A} (f : time -> S -> A) :
  keeping (eread f) (fun r => exists st s, R st /\ I s /\
    r = match en_fault st with Some e => Err e | None => Ok (f (en_now st) s) end).
Proof.
  eapply triple_post; [apply triple_read; by right|]. intros r s (Hi & st & Hs & Hr). split; [done|]. by exists st, s.
Qed.
Lemma keeping_write {A} (f : time -> S -> res A * S) e (Φ : res A -> Prop) : Ev e ->
  (forall t s, I s -> I (f t s).2 /\ Φ (f t s).1) -> (forall st err, R st -> en_fault st = Some err -> Φ (Err err)) ->
  keeping (ewrite f e) Φ.
Proof.
  intros He Hf Hno. apply triple_write; [by right|done|intros t s Hs; by apply Hf|]. intros st err s Hst Herr Hs.
  pose proof (Hno st err Hst Herr). split; (split; [|done]); [done|by apply Hf].
Qed.
Lemma keeping_foreach {A} (l : list A) f : (forall x, x ∈ l -> keeping (f x) (fun _ => True)) ->
  keeping (eforeach l f) (fun _ => True).
Proof.
  induction l as [|x l IH]; intros Hf; [by apply keeping_ret|]. cbn [eforeach].
  eapply keeping_bind; [apply Hf; by left|]. intros _ _. apply IH. intros y Hy. apply Hf. by right.
Qed.
End keeping.

Create HintDb eff discriminated.
#[export] Hint Resolve keeping_step keeping_clock keeping_ctx keeping_ask keeping_read : eff.

(** The trace form: [I] is an invariant of the state that the others keep, and the calls
    of [m] (newest first) and its result satisfy [Φ]. *)
Definition traced {S E X} (R : Env S X -> Prop) (I : S -> Prop) {A} (m : Eff S E X A) (Φ : list E -> A -> Prop) : Prop :=
  forall w, (forall n, R (ew_env w n)) -> I (ew_state w) ->
  let r := m w in
  ew_env r.2 = ew_env w /\ ew_quiet r.2 = ew_quiet w /\ I (ew_state r.2) /\
  exists tr, ew_trace r.2 = tr ++ ew_trace w /\ Φ tr r.1.

Section traced.
Context {S E X : Type} (R : Env S X -> Prop) (I : S -> Prop) (HI : stable R I).
Local Abbreviation traced := (@traced S E X R I).

Lemma traced_ret {A} (a : A) (Φ : list E -> A -> Prop) : Φ [] a -> traced (eret a) Φ.
Proof. intros Ha w _ Hi. split_and!; [done|done|done|]. by exists []. Qed.
Lemma traced_bind {A B} (m : Eff S E X A) (k : A -> Eff S E X B) Ψ Φ :
  traced m Ψ -> (forall tr a, Ψ tr a -> traced (k a) (fun tr' b => Φ (tr' ++ tr)%list b)) -> traced (ebind m k) Φ.
Proof.
  intros Hm Hk w HR Hi. destruct (Hm w HR Hi) as (E1 & Q1 & I1 & t1 & T1 & H1).
  destruct (Hk t1 (m w).1 H1 (m w).2) as (E2 & Q2 & I2 & t2 & T2 & H2); [by rewrite E1|done|].
  unfold ebind. cbv zeta. split_and!; [congruence|congruence|done|]. exists (t2 ++ t1)%list. rewrite T2, T1, app_assoc. done.
Qed.
Lemma traced_post {A} (m : Eff S E X A) (Φ Ψ : list E -> A -> Prop) :
  traced m Ψ -> (forall tr a, Ψ tr a -> Φ tr a) -> traced m Φ.
Proof. intros Hm H w HR Hi. destruct (Hm w HR Hi) as (? & ? & ? & tr & ? & ?). split_and!; eauto. Qed.
Lemma traced_and {A} (m : Eff S E X A) (Φ Ψ : list E -> A -> Prop) :
  traced m Φ -> traced m Ψ -> traced m (fun tr a => Φ tr a /\ Ψ tr a).
Proof.
  intros H1 H2 w HR Hi. destruct (H1 w HR Hi) as (? & ? & ? & tr & E1 & ?). destruct (H2 w HR Hi) as (_ & _ & _ & tr' & E2 & ?).
  rewrite E1 in E2. apply app_inv_tail in E2 as <-. split_and!; eauto.
Qed.
Lemma traced_emit e (Φ : list E -> unit -> Prop) : Φ [e] tt -> traced (eemit e) Φ.
Proof. intros He w _ Hi. split_and!; [done|done|done|]. by exists [e]. Qed.
Lemma estep_inv w : (forall n, R (ew_env w n)) -> I (ew_state w) -> I (ew_state (estep (E := E) w).2).
Proof. intros HR Hi. unfold estep. cbn. destruct (ew_quiet w); [done|by apply HI]. Qed.
Lemma traced_part {A} (f : Env S X -> A) (Φ : list E -> A -> Prop) : (forall st, R st -> Φ [] (f st)) ->
  traced (ebind estep (fun st => eret (f st))) Φ.
Proof. intros Hf w HR Hi. split_and!; [done|done|by apply estep_inv|]. exists []. split; [done|]. apply Hf, HR. Qed.
Lemma traced_clock (Φ : list E -> time -> Prop) : (forall st, R st -> Φ [] (en_now st)) -> traced eclock Φ.
Proof. apply traced_part. Qed.
Lemma traced_ctx (Φ : list E -> error -> Prop) : (forall st, R st -> Φ [] (en_ctx st)) -> traced ectx Φ.
Proof. apply traced_part. Qed.
Lemma traced_read {A} (f : time -> S -> A) (Φ : list E -> res A -> Prop) :
  (forall st s, R st -> I s -> Φ [] (match en_fault st with Some e => Err e | None => Ok (f (en_now st) s) end)) ->
  traced (eread f) Φ.
Proof.
  intros Hf w HR Hi. unfold eread. pose proof (estep_inv w HR Hi) as Hi1.
  destruct (estep w) as [st w1] eqn:Es. cbn [snd] in Hi1. assert (Hst : R st) by (unfold estep in Es; injection Es as <- _; apply HR).
  assert (ew_env w1 = ew_env w /\ ew_quiet w1 = ew_quiet w /\ ew_trace w1 = ew_trace w) as (H1 & H2 & H3)
    by (unfold estep in Es; injection Es as _ <-; done).
  specialize (Hf st _ Hst Hi1). destruct (en_fault st); cbn [fst snd]; (split_and!; [done|done|done|exists []]; done).
Qed.
Lemma traced_write {A} (f : time -> S -> res A * S) e (Φ : list E -> res A -> Prop) :
  (forall t s, I s -> I (f t s).2) ->
  (forall st s, R st -> I s -> match en_fault st with
     | None => Φ [e] (f (en_now st) s).1
     | Some err => if en_lost st then Φ [e] (Err err) else Φ [] (Err err)
     end) -> traced (ewrite f e) Φ.
Proof.
  intros Hi' Hf w HR Hi. unfold ewrite. pose proof (estep_inv w HR Hi) as Hi1.
  destruct (estep w) as [st w1] eqn:Es. cbn [snd] in Hi1. assert (Hst : R st) by (unfold estep in Es; injection Es as <- _; apply HR).
  assert (ew_env w1 = ew_env w /\ ew_quiet w1 = ew_quiet w /\ ew_trace w1 = ew_trace w) as (H1 & H2 & H3)
    by (unfold estep in Es; injection Es as _ <-; done).
  specialize (Hf st _ Hst Hi1). specialize (Hi' (en_now st) _ Hi1). destruct (f (en_now st) (ew_state w1)) as [r s].
  cbn [fst snd] in *. destruct (en_fault st) as [err|]; [destruct (en_lost st)|]; cbn [fst snd]; (split_and!; [done|done|done|]).
  - exists [e]. cbn. by rewrite H3.
  - by exists [].
  - exists [e]. cbn. by rewrite H3.
Qed.
Lemma traced_ask {A} (f : X -> A) (Φ : list E -> A -> Prop) : (forall st, R st -> Φ [] (f (en_answer st))) -> traced (eask f) Φ.
Proof. apply (traced_part (fun st => f (en_answer st))). Qed.
Lemma traced_when b m (Φ : list E -> unit -> Prop) : (b = true -> traced m Φ) -> (b = false -> Φ [] tt) -> traced (ewhen b m) Φ.
Proof. destruct b; intros Hm Hn; [by apply Hm|by apply traced_ret, Hn]. Qed.
(** A transaction that cannot commit and fail: an error leaves no calls. *)
Lemma traced_transaction {A} none (body : Eff S E X (error * A)) (Φb Φ : list E -> error * A -> Prop) :
  (forall st, R st -> en_lost st = false) -> traced body Φb -> (forall tr a, Φb tr (None, a) -> Φ tr (None, a)) ->
  (forall e a, Φ [] (Some e, a)) -> traced (etransaction none body) Φ.
Proof.
  intros Hl Hb Hok He w HR Hi. unfold etransaction. pose proof (estep_inv w HR Hi) as Hi1. rewrite estep_run.
  set (w1 := (estep w).2) in *. assert (Ht : ew_trace w1 = ew_trace w) by done. cbv beta iota.
  destruct (en_fault _); [split_and!; [done|done|done|exists []; by split; [|apply He]]|].
  destruct (Hb (set_equiet true w1)) as (E1 & Q1 & I1 & tr & T1 & H1); [done|done|].
  destruct (body (set_equiet true w1)) as [[r a] w2]. cbn [fst snd] in *.
  destruct r as [e|]; [split_and!; [done|done|done|exists []; by split; [|apply He]]|]. rewrite estep_run. cbv beta iota.
  rewrite Hl by (rewrite E1; apply HR).
  assert (I (ew_state (estep w2).2)) as I2 by (apply estep_inv; [by rewrite E1|done]).
  destruct (en_fault _); [split_and!; [done|done|done|exists []; by split; [|apply He]]|]. split_and!; [done|done|done|]. exists tr.
  split; [by rewrite <- Ht|by apply Hok].
Qed.
End traced.
