(* ===== verification/Keys.v ===== *)
(** * API keys

    The keys of users ([models/api_key.go]), their table
    ([database/api_key_repository.go]), their management ([api/handlers/api_keys.go]) and
    the authentication of a request by a key or a token
    ([api/middleware/combined_auth.go], [AuthRequiredWithOptions] of
    [api/middleware/auth.go]).  SHA-256, Argon2id, the JWT library and the parser of
    RFC 3339 times are parameters; users and the session store answer anything at any
    time. *)

From S2P Require Import Prelude Decimals Models Naming Store World Durations Sessions Tokens Access Effects.
Local Open Scope string_scope.
Local Open Scope list_scope.

(** ** Encodings *)

(** [strings.Split] at one character. *)
Fixpoint split_on (c : ascii) (s : string) : list string :=
  match s with
  | EmptyString => [""]
  | String d s' =>
      match split_on c s' with
      | [] => [String d ""]
      | p :: ps => if Ascii.eqb d c then "" :: p :: ps else String d p :: ps
      end
  end.

Definition byte_of (z : Z) : ascii := ascii_of_nat (Z.to_nat z).
Definition code_of (c : ascii) : Z := Z.of_nat (nat_of_ascii c).

(** [hex.EncodeToString]. *)
Definition hex_digit (n : Z) : ascii := if (n <? 10)%Z then byte_of (48 + n) else byte_of (87 + n).
Fixpoint hex_EncodeToString (s : string) : string :=
  match s with
  | EmptyString => ""
  | String c s' => String (hex_digit (code_of c / 16)) (String (hex_digit (code_of c mod 16)) (hex_EncodeToString s'))
  end.

(** [base64.RawStdEncoding]: 6 bits per character, no padding; the decoder skips line
    breaks and ignores the unused bits of the last character. *)
Definition base64_char (n : Z) : ascii :=
  (If (n <? 26) Return byte_of (65 + n) ;;
   If (n <? 52) Return byte_of (71 + n) ;;
   If (n <? 62) Return byte_of (n - 4) ;;
   If (n =? 62) Return byte_of 43 ;;
   byte_of 47)%Z.
Definition base64_value (c : ascii) : option Z :=
  let n := code_of c in
  (If (65 <=? n) && (n <=? 90) Return Some (n - 65) ;;
   If (97 <=? n) && (n <=? 122) Return Some (n - 71) ;;
   If (48 <=? n) && (n <=? 57) Return Some (n + 4) ;;
   If (n =? 43) Return Some 62 ;;
   If (n =? 47) Return Some 63 ;;
   None)%Z.
Fixpoint base64_Encode (s : string) : string :=
  match s with
  | EmptyString => ""
  | String a EmptyString => let a := code_of a in
      String (base64_char (a / 4)) (String (base64_char (a mod 4 * 16)) "")
  | String a (String b EmptyString) => let a := code_of a in let b := code_of b in
      String (base64_char (a / 4)) (String (base64_char (a mod 4 * 16 + b / 16)) (String (base64_char (b mod 16 * 4)) ""))
  | String a (String b (String c s')) => let a := code_of a in let b := code_of b in let c := code_of c in
      String (base64_char (a / 4)) (String (base64_char (a mod 4 * 16 + b / 16))
        (String (base64_char (b mod 16 * 4 + c / 64)) (String (base64_char (c mod 64)) (base64_Encode s'))))
  end.
Fixpoint base64_values (s : string) : option (list Z) :=
  match s with
  | EmptyString => Some []
  | String c s' =>
      If Ascii.eqb c "010" || Ascii.eqb c "013" Return base64_values s' ;;
      match base64_value c, base64_values s' with
      | Some v, Some l => Some (v :: l)
      | _, _ => None
      end
  end.
Fixpoint base64_bytes (l : list Z) : option string :=
  match l with
  | [] => Some ""
  | [_] => None
  | [w; x] => Some (String (byte_of (w * 4 + x / 16)) "")
  | [w; x; y] => Some (String (byte_of (w * 4 + x / 16)) (String (byte_of (x mod 16 * 16 + y / 4)) ""))
  | w :: x :: y :: z :: l' =>
      match base64_bytes l' with
      | Some s => Some (String (byte_of (w * 4 + x / 16)) (String (byte_of (x mod 16 * 16 + y / 4))
                          (String (byte_of (y mod 4 * 64 + z)) s)))
      | None => None
      end
  end.
Definition base64_DecodeString (s : string) : option string :=
  match base64_values s with Some l => base64_bytes l | None => None end.

(** ** Keys and their hashes *)

Record APIKey := mkKey {
  ak_ID : string;
  ak_UserID : string;
  ak_Name : string;
  ak_KeyHash : string;
  ak_Prefix : string;
  ak_CreatedAt : time;
  ak_LastUsedAt : option time;
  ak_ExpiresAt : option time
}.
#[global] Instance APIKey_eq_dec : EqDecision APIKey.
Proof. solve_decision. Defined.
Definition set_used (t : time) (k : APIKey) : APIKey :=
  mkKey (ak_ID k) (ak_UserID k) (ak_Name k) (ak_KeyHash k) (ak_Prefix k) (ak_CreatedAt k) (Some t) (ak_ExpiresAt k).

Abbreviation KeyTable := (gmap string APIKey).

(** Cryptography and time formats. *)
Class KeyCrypto := {
  sha256_hex : string -> string;
  argon2_IDKey : string -> string -> string;
  ParseRFC3339 : string -> option time;
  ParseDateOnly : string -> option time
}.

Section keys.
Context `{KeyCrypto}.

Definition argon2_params := "$argon2id$v=19$m=65536,t=1,p=4$".
Definition HashAPIKeyWithSalt (rawKey salt : string) : string :=
  argon2_params +:+ base64_Encode salt +:+ "$" +:+ base64_Encode (argon2_IDKey rawKey salt).
Definition VerifyAPIKeyHash (rawKey encodedHash : string) : bool :=
  If (len encodedHash =? 64)%Z && negb (Contains encodedHash "$") Return bool_decide (sha256_hex rawKey = encodedHash) ;;
  match split_on "$" encodedHash with
  | [_; name; _; _; salt; hash] =>
      If negb (bool_decide (name = "argon2id")) Return false ;;
      match base64_DecodeString salt, base64_DecodeString hash with
      | Some salt, Some hash => bool_decide (argon2_IDKey rawKey salt = hash)
      | _, _ => false
      end
  | _ => false
  end.
Definition APIKeyHashIsArgon2 (encodedHash : string) : bool := HasPrefix encodedHash "$argon2id$".

Definition keyPrefixLen : nat := 16.
(** The raw key, its prefix and its hash, from 32 random bytes. *)
Definition GenerateAPIKey (random : string) : string * string * string :=
  let rawKey := hex_EncodeToString random in
  (rawKey, stake keyPrefixLen rawKey, sha256_hex rawKey).

(** ** The table *)

Inductive key_event :=
| KeyInsert (k : APIKey)
| KeyUsed (userID keyID : string) (at_ : time)
| KeyDelete (userID keyID : string)
| KeyDeleteAll (userID : string)
| KeySockets (keyID : string)
| KeyActivity (sessionID : string) (at_ : time).
(** What a step answers: the user of an ID, a free slot for a verify, random bytes, an
    identifier, the last uses in the cache, the revocation of a token, and whether the
    cache has recent activity of a session. *)
Record KeyAnswers := mkKeyAnswers {
  ka_user : string -> res User;
  ka_slot : bool;
  ka_random : res string;
  ka_uuid : string;
  ka_lastUsed : string -> option time;
  ka_revoked : Claims -> error;
  ka_recent : string -> bool
}.
Local Abbreviation K := (Eff KeyTable key_event KeyAnswers).

Definition key_insert (k : APIKey) (t : time) (s : KeyTable) : res Z * KeyTable :=
  If bool_decide (is_Some (s !! ak_ID k)) Return (Err ErrDuplicateKey, s) ;;
  (Ok 1%Z, <[ak_ID k := k]> s).
(** The row of a user and an ID. *)
Definition key_of (userID keyID : string) (s : KeyTable) : option APIKey :=
  match s !! keyID with
  | Some k => If bool_decide (ak_UserID k = userID) Return Some k ;; None
  | None => None
  end.
Definition key_used (userID keyID : string) (at_ : time) (t : time) (s : KeyTable) : res Z * KeyTable :=
  match key_of userID keyID s with
  | Some k => (Ok (if bool_decide (ak_LastUsedAt k = Some at_) then 0 else 1)%Z, <[keyID := set_used at_ k]> s)
  | None => (Ok 0%Z, s)
  end.
Definition key_delete (userID keyID : string) (t : time) (s : KeyTable) : res Z * KeyTable :=
  match key_of userID keyID s with
  | Some k => (Ok 1%Z, delete keyID s)
  | None => (Ok 0%Z, s)
  end.
Definition key_delete_all (userID : string) (t : time) (s : KeyTable) : res Z * KeyTable :=
  let s' := filter (fun p => ak_UserID p.2 <> userID) s in
  (Ok (Z.of_nat (size s - size s')), s').
Definition keys_with (guard : APIKey -> bool) (s : KeyTable) : list APIKey :=
  List.filter guard (List.map snd (map_to_list s)).

Definition key_Create (k : APIKey) : K (error * APIKey) :=
  If empty (ak_UserID k) || empty (ak_Name k) Return eret (Some (EDB "create" ErrValidation), k) ;;
  let? uuid := eask ka_uuid in
  let? now := eclock in
  let k := mkKey (if empty (ak_ID k) then uuid else ak_ID k) (ak_UserID k) (ak_Name k) (ak_KeyHash k) (ak_Prefix k) now
             (ak_LastUsedAt k) (ak_ExpiresAt k) in
  let? r := ewrite (key_insert k) (KeyInsert k) in
  eret (match r with
        | Ok _ => (None, k)
        | Err e => (Some (EDB "create" (if errorsIs e "ErrDuplicateKey" then ErrDuplicateKey else e)), k)
        end).
Definition FindByPrefix (prefix : string) : K (res (list APIKey)) :=
  let? r := eread (fun _ s => keys_with (fun k => bool_decide (ak_Prefix k = prefix)) s) in
  eret (match r with
        | Err e => Err (EDB "find_by_prefix" e)
        | Ok [] => Err (EDB "find_by_prefix" ErrNotFound)
        | Ok l => Ok l
        end).
Definition key_ListByUser (userID : string) : K (res (list APIKey)) :=
  let? r := eread (fun _ s => sort_by (fun k => - ak_CreatedAt k)%Z (keys_with (fun k => bool_decide (ak_UserID k = userID)) s)) in
  eret (match r with Err e => Err (EDB "list_by_user" e) | Ok l => Ok l end).
Definition UpdateLastUsed (userID keyID : string) (at_ : time) : K error :=
  let? r := ewrite (key_used userID keyID at_) (KeyUsed userID keyID at_) in
  eret (match r with
        | Err e => Some (EDB "update_last_used" e)
        | Ok n => If (n =? 0)%Z Return Some (EDB "update_last_used" ErrNotFound) ;; None
        end).
Definition key_Delete (userID keyID : string) : K error :=
  let? r := ewrite (key_delete userID keyID) (KeyDelete userID keyID) in
  eret (match r with
        | Err e => Some (EDB "delete" e)
        | Ok n => If (n =? 0)%Z Return Some (EDB "delete" ErrNotFound) ;; None
        end).

Definition DeleteAllForUser (userID : string) : K (res Z) :=
  If empty userID Return eret (Err (EDB "delete_all_for_user" ErrValidation)) ;;
  let? r := ewrite (key_delete_all userID) (KeyDeleteAll userID) in
  eret (match r with Err e => Err (EDB "delete_all_for_user" e) | Ok n => Ok n end).

(** ** Authentication by a key *)

Record APIKeyAuthFailure := mkFailure { af_Status : Z; af_Message : string; af_Outcome : string }.
Definition apiKeyLookupOutcome (e : goerr) : string := if errorsIs e "ErrNotFound" then "invalid" else "failure".
Definition invalid (outcome : string) : APIKeyAuthFailure := mkFailure 401 "Invalid API key" outcome.
Definition cancelled : APIKeyAuthFailure := mkFailure statusClientClosedRequest msgClientClosedRequest "cancelled".

(** The first record whose hash matches; an Argon2id hash needs a slot. *)
Fixpoint matching_key (raw : string) (records : list APIKey) : K (option APIKey + APIKeyAuthFailure) :=
  match records with
  | [] => eret (inl None)
  | r :: rest =>
      If negb (APIKeyHashIsArgon2 (ak_KeyHash r)) Return (
        If VerifyAPIKeyHash raw (ak_KeyHash r) Return eret (inl (Some r)) ;;
        matching_key raw rest) ;;
      let? ctx := ectx in
      If bool_decide (is_Some ctx) Return eret (inr cancelled) ;;
      let? slot := eask ka_slot in
      If negb slot Return eret (inr (mkFailure 503 "Server busy, retry later" "busy")) ;;
      If VerifyAPIKeyHash raw (ak_KeyHash r) Return eret (inl (Some r)) ;;
      matching_key raw rest
  end.

Definition raw_of (header : string) : string := if HasPrefix header "sk_" then sdrop 3 header else header.

(** The last use is written at most once per minute and key, and its error ignored. *)
Definition touch_key (record : APIKey) : K unit :=
  let? now := eclock in
  let? prev := eask (fun a => ka_lastUsed a (ak_ID record)) in
  If match prev with Some p => negb (Minute <? now - p)%Z | None => false end Return eret tt ;;
  do? UpdateLastUsed (ak_UserID record) (ak_ID record) now in
  eret tt.

Definition AuthenticateAPIKey (header : string) : K ((APIKey * User) + APIKeyAuthFailure) :=
  let raw := raw_of header in
  If (len raw <? 16)%Z Return eret (inr (invalid "invalid")) ;;
  let? records := FindByPrefix (stake keyPrefixLen raw) in
  match records with
  | Err e =>
      If errorsIs e "Canceled" Return eret (inr cancelled) ;;
      eret (inr (invalid (apiKeyLookupOutcome e)))
  | Ok records =>
      let? found := matching_key raw records in
      match found with
      | inr f => eret (inr f)
      | inl None => eret (inr (invalid "invalid"))
      | inl (Some record) =>
          let? now := eclock in
          If match ak_ExpiresAt record with Some e => (e <? now)%Z | None => false end Return
            eret (inr (mkFailure 401 "API key expired" "expired")) ;;
          let? user := eask (fun a => ka_user a (ak_UserID record)) in
          match user with
          | Err e =>
              If errorsIs e "Canceled" Return eret (inr cancelled) ;;
              eret (inr (invalid (apiKeyLookupOutcome e)))
          | Ok user =>
              If us_Disabled user Return eret (inr (mkFailure 403 "Account disabled" "disabled")) ;;
              do? touch_key record in
              eret (inl (record, user))
          end
      end
  end.

(** ** The middleware *)

(** What a request is authenticated as: the caller, and the method with the key. *)
Inductive AuthMethod := AuthMethodJWT (jti sid : string) | AuthMethodAPIKey (keyID : string) (expiresAt : option time).
Definition Authenticated : Type := Caller * AuthMethod.

Definition RevocationMessage (e : goerr) : string :=
  if errorsIs e "ErrTokenRevoked" then "Token has been revoked" else "Session revoked".

Section middleware.
(** [ValidateJWT] of the JWT library at a time: the claims with the caller. *)
Context (ValidateJWT : time -> string -> option (Claims * Caller)).

(** Activity of a session, throttled by the cache. *)
Definition touch_session (sid : string) : K unit :=
  If empty sid Return eret tt ;;
  let? now := eclock in
  let? recent := eask (fun a => ka_recent a sid) in
  If recent Return eret tt ;;
  do? ecall (KeyActivity sid now) in
  eret tt.

Definition AuthRequired (authorization : string) : K (Authenticated + (Z * string)) :=
  If empty authorization Return eret (inr (401%Z, "Authorization header is required")) ;;
  match Cut authorization " " with
  | Some (scheme, token) =>
      If negb (bool_decide (ToLower scheme = "bearer")) Return
        eret (inr (401%Z, "Authorization header must be Bearer {token}")) ;;
      let? now := eclock in
      match ValidateJWT now token with
      | None => eret (inr (401%Z, "Invalid or expired token"))
      | Some (claims, caller) =>
          let? revoked := eask (fun a => ka_revoked a claims) in
          match revoked with
          | Some e => eret (inr (401%Z, RevocationMessage e))
          | None =>
              do? touch_session (cl_SessionID claims) in
              eret (inl (caller, AuthMethodJWT (cl_ID claims) (cl_SessionID claims)))
          end
      end
  | None => eret (inr (401%Z, "Authorization header must be Bearer {token}"))
  end.

Definition CombinedAuth (authorization apiKeyHeader : string) : K (Authenticated + (Z * string)) :=
  If HasPrefix (ToLower authorization) "bearer " Return AuthRequired authorization ;;
  If empty apiKeyHeader Return eret (inr (401%Z, "Authorization required")) ;;
  let? r := AuthenticateAPIKey apiKeyHeader in
  eret (match r with
        | inr f => inr (af_Status f, af_Message f)
        | inl (record, user) =>
            inl (mkCaller (us_ID user) (us_Username user) (us_Role user), AuthMethodAPIKey (ak_ID record) (ak_ExpiresAt record))
        end).
End middleware.

(** ** Management *)

Record CreateAPIKeyRequest := mkCreateKey { ck_Name : string; ck_ExpiresAt : option string; ck_ExpiresInDays : option Z }.
Inductive KeyBody :=
| KBError (message : string)
| KBCreated (k : APIKey) (rawKey : string)
| KBKeys (keys : list APIKey)
| KBEmpty.
Record KeyAnswer := mkKeyAnswer { kr_Status : Z; kr_Body : KeyBody }.
Definition key_error (status : Z) (message : string) : KeyAnswer := mkKeyAnswer status (KBError message).
Definition key_mapped (e : goerr) (entity : string) : KeyAnswer := let '(c, m) := mapError e entity in key_error c m.

Definition canAccessUserKeys (c : Caller) (userID : string) : bool :=
  bool_decide (ca_Role c = roleAdmin) || bool_decide (ca_UserID c = userID).

(** [t.AddDate(0, 0, n)] in UTC: the seconds since year 1 wrap around at 64 bits. *)
Definition Day : Z := (24 * Hour)%Z.
Definition year1 : Z := 62135596800.
Definition AddDays (n : Z) (t : time) : time :=
  ((wrap64 (t / Second + year1 + n * 86400) - year1) * Second + t mod Second)%Z.
(** The last nanosecond of the day of [t]. *)
Definition endOfDay (t : time) : time := (t / Day * Day + (Day - 1))%Z.

Definition key_expiry (req : CreateAPIKeyRequest) (now : time) : option time + string :=
  let at_ := match ck_ExpiresAt req with Some "" => None | e => e end in
  match at_, ck_ExpiresInDays req with
  | Some _, Some _ => inr "Cannot specify both expires_at and expires_in_days"
  | _, Some days =>
      If (days <=? 0)%Z Return inr "expires_in_days must be positive" ;;
      inl (Some (AddDays days now))
  | Some text, None =>
      match ParseRFC3339 text with
      | Some t => inl (Some t)
      | None =>
          match ParseDateOnly text with
          | Some t => inl (Some (t + (23 * Hour + 59 * Minute + 59 * Second))%Z)
          | None => inr "Invalid expires_at format; use YYYY-MM-DD or RFC3339"
          end
      end
  | None, None => inl None
  end.
(** The accepted expiry of a request at [now]. *)
Definition checked_expiry (maxDays : Z) (req : CreateAPIKeyRequest) (now : time) : time + string :=
  match key_expiry req now with
  | inr msg => inr msg
  | inl None => inr "Expiration is required; set expires_at or expires_in_days"
  | inl (Some e) =>
      If negb (now <? e)%Z Return inr "Expiry date must be in the future" ;;
      If (0 <? maxDays)%Z && (endOfDay (AddDays maxDays now) <? e)%Z Return
        inr ("Expiry exceeds maximum allowed lifetime of " +:+ itoa maxDays +:+ " days") ;;
      inl e
  end.

Definition CreateAPIKey (maxDays : Z) (c : Caller) (userID : string) (body : option CreateAPIKeyRequest) : K KeyAnswer :=
  If empty userID Return eret (key_error 400 "User ID is required") ;;
  If negb (canAccessUserKeys c userID) Return eret (key_error 403 "Forbidden") ;;
  let? user := eask (fun a => ka_user a userID) in
  match user with
  | Err e => eret (key_mapped e "User")
  | Ok _ =>
      match body with
      | None => eret (key_error 400 msgInvalidRequestFormat)
      | Some req =>
          let? now := eclock in
          match checked_expiry maxDays req now with
          | inr msg => eret (key_error 400 msg)
          | inl expiresAt =>
              let? random := eask ka_random in
              match random with
              | Err _ => eret (key_error 500 msgInternalServerError)
              | Ok random =>
                  let '(rawKey, prefix, hash) := GenerateAPIKey random in
                  let? r := key_Create (mkKey "" userID (ck_Name req) hash prefix 0 None (Some expiresAt)) in
                  match r with
                  | (Some e, _) => eret (key_mapped e "API key")
                  | (None, key) => eret (mkKeyAnswer 201 (KBCreated key ("sk_" +:+ rawKey)))
                  end
              end
          end
      end
  end.

Definition ListAPIKeys (c : Caller) (userID : string) : K KeyAnswer :=
  If empty userID Return eret (key_error 400 "User ID is required") ;;
  If negb (canAccessUserKeys c userID) Return eret (key_error 403 "Forbidden") ;;
  let? user := eask (fun a => ka_user a userID) in
  match user with
  | Err e => eret (key_mapped e "User")
  | Ok _ =>
      let? r := key_ListByUser userID in
      match r with
      | Err e => eret (key_mapped e "API key")
      | Ok keys => eret (mkKeyAnswer 200 (KBKeys keys))
      end
  end.

Definition DeleteAPIKey (wsRevoker : bool) (c : Caller) (userID keyID : string) : K KeyAnswer :=
  If empty userID || empty keyID Return eret (key_error 400 "User ID and key ID are required") ;;
  If negb (canAccessUserKeys c userID) Return eret (key_error 403 "Forbidden") ;;
  let? e := key_Delete userID keyID in
  match e with
  | Some e => eret (key_mapped e "API key")
  | None =>
      do? ewhen wsRevoker (eemit (KeySockets keyID)) in
      eret (mkKeyAnswer 204 KBEmpty)
  end.
End keys.
