(* ===== verification/KeyRules.v ===== *)
(** * What an API key gives access to

    Theorems about [Keys]: who is authenticated by a key, the life of a key, the rules of
    its creation, and the encodings of its hash. *)

From S2P Require Import Prelude Decimals Models Naming Store World Durations Sessions Tokens Access Effects Keys.
Local Open Scope string_scope.
Local Open Scope list_scope.

(** ** Base64 *)

Lemma code_range c : (0 <= code_of c < 256)%Z.
Proof. unfold code_of. pose proof (nat_ascii_bounded c). lia. Qed.
Lemma byte_code c : byte_of (code_of c) = c.
Proof. unfold byte_of, code_of. rewrite Nat2Z.id. apply ascii_nat_embedding. Qed.

Lemma sextet_char n : (0 <= n < 64)%Z ->
  base64_value (base64_char n) = Some n /\ Ascii.eqb (base64_char n) "010" = false /\
  Ascii.eqb (base64_char n) "013" = false /\ Ascii.eqb (base64_char n) "$" = false.
Proof.
  intros Hn. set (ok := fun k => let c := base64_char (Z.of_nat k) in
    bool_decide (base64_value c = Some (Z.of_nat k)) && negb (Ascii.eqb c "010") && negb (Ascii.eqb c "013") && negb (Ascii.eqb c "$")).
  assert (forallb ok (seq 0 64) = true) as Hok by (vm_compute; reflexivity).
  rewrite forallb_forall in Hok. specialize (Hok (Z.to_nat n) ltac:(apply in_seq; lia)). unfold ok in Hok. cbv zeta in Hok.
  rewrite Z2Nat.id in Hok by lia. rewrite !andb_true_iff, !negb_true_iff in Hok.
  destruct Hok as [[[?%bool_decide_eq_true ?] ?] ?]. done.
Qed.

(** The sextets of a text. *)
Fixpoint sextets (s : string) : list Z :=
  match s with
  | EmptyString => []
  | String a EmptyString => let a := code_of a in [a / 4; a mod 4 * 16]
  | String a (String b EmptyString) => let a := code_of a in let b := code_of b in [a / 4; a mod 4 * 16 + b / 16; b mod 16 * 4]
  | String a (String b (String c s')) => let a := code_of a in let b := code_of b in let c := code_of c in
      (a / 4) :: (a mod 4 * 16 + b / 16) :: (b mod 16 * 4 + c / 64) :: (c mod 64) :: sextets s'
  end%Z.
Definition chars (l : list Z) : string := fold_right (fun n s => String (base64_char n) s) "" l.

(** Induction three characters at a time. *)
Lemma string_ind3 (P : string -> Prop) : P "" -> (forall a, P (String a "")) -> (forall a b, P (String a (String b ""))) ->
  (forall a b c s, P s -> P (String a (String b (String c s)))) -> forall s, P s.
Proof.
  intros H0 H1 H2 H3. fix IH 1. intros s. destruct s as [|a [|b [|c s]]]; [exact H0|apply H1|apply H2|apply H3, IH].
Qed.

Lemma encode_sextets s : base64_Encode s = chars (sextets s) /\ Forall (fun n => 0 <= n < 64)%Z (sextets s).
Proof.
  induction s as [|a|a b|a b c s [IH1 IH2]] using string_ind3; cbn [base64_Encode sextets]; cbv zeta.
  - by split.
  - pose proof (code_range a). split; [done|]. repeat constructor; Z.to_euclidean_division_equations; lia.
  - pose proof (code_range a). pose proof (code_range b). split; [done|].
    repeat constructor; Z.to_euclidean_division_equations; lia.
  - pose proof (code_range a). pose proof (code_range b). pose proof (code_range c). split; [by rewrite IH1|].
    repeat constructor; try done; Z.to_euclidean_division_equations; lia.
Qed.

Lemma values_chars l : Forall (fun n => 0 <= n < 64)%Z l -> base64_values (chars l) = Some l.
Proof.
  induction 1 as [|n l Hn _ IH]; [done|]. cbn [chars fold_right base64_values]. fold (chars l).
  destruct (sextet_char n Hn) as (-> & -> & -> & _). cbn [orb]. by rewrite IH.
Qed.
Lemma bytes_sextets s : base64_bytes (sextets s) = Some s.
Proof.
  assert (forall c x, x = code_of c -> byte_of x = c) as Hb by (intros c x ->; apply byte_code).
  induction s as [|a|a b|a b c s IH] using string_ind3; cbn [sextets]; cbv zeta.
  - done.
  - pose proof (code_range a). cbn [base64_bytes]. do 2 f_equal. apply Hb. Z.to_euclidean_division_equations; lia.
  - pose proof (code_range a). pose proof (code_range b). cbn [base64_bytes]. do 2 f_equal; [|f_equal]; apply Hb;
      Z.to_euclidean_division_equations; lia.
  - pose proof (code_range a). pose proof (code_range b). pose proof (code_range c).
    assert (forall w x y z l s, base64_bytes l = Some s -> base64_bytes (w :: x :: y :: z :: l) =
      Some (String (byte_of (w * 4 + x / 16)) (String (byte_of (x mod 16 * 16 + y / 4))
                          (String (byte_of (y mod 4 * 64 + z)) s)))%Z) as Hl.
    { intros w x y z l s' Hl. cbn [base64_bytes]. by rewrite Hl. }
    rewrite (Hl _ _ _ _ _ _ IH). f_equal. f_equal; [|f_equal; [|f_equal]]; apply Hb; Z.to_euclidean_division_equations; lia.
Qed.
Lemma base64_roundtrip s : base64_DecodeString (base64_Encode s) = Some s.
Proof.
  destruct (encode_sextets s) as [-> Hs]. unfold base64_DecodeString. rewrite values_chars by done. apply bytes_sextets.
Qed.
Lemma encode_no_dollar s : sforall (fun c => negb (Ascii.eqb c "$")) (base64_Encode s) = true.
Proof.
  destruct (encode_sextets s) as [-> Hs]. induction Hs as [|n l Hn _ IH]; [done|]. cbn. fold (chars l).
  destruct (sextet_char n Hn) as (_ & _ & _ & ->). done.
Qed.

Lemma split_on_none c s : sforall (fun d => negb (Ascii.eqb d c)) s = true -> split_on c s = [s].
Proof.
  induction s as [|d s IH]; [done|]. cbn [sforall split_on]. intros [Hd Hs]%andb_true_iff. rewrite (IH Hs).
  apply negb_true_iff in Hd. by rewrite Hd.
Qed.
Lemma split_on_nonempty c s : exists p l, split_on c s = p :: l.
Proof. induction s as [|d s (p & l & E)]; [by eexists _, _|]. cbn [split_on]. rewrite E. case_match; eauto. Qed.
Lemma split_on_app c a b : sforall (fun d => negb (Ascii.eqb d c)) a = true ->
  split_on c (a +:+ String c b) = a :: split_on c b.
Proof.
  induction a as [|d a IH]; intros Ha.
  - change (split_on c (String c b) = "" :: split_on c b). cbn [split_on].
    destruct (split_on_nonempty c b) as (p & l & ->). by rewrite Ascii.eqb_refl.
  - cbn [sforall] in Ha. apply andb_true_iff in Ha as [Hd Ha]. apply negb_true_iff in Hd. rewrite sapp_cons. cbn [split_on].
    rewrite (IH Ha), Hd. done.
Qed.

Section rules.
Context `{KeyCrypto}.

(** Every key verifies against the salted hash that is made of it, whatever bytes the
    salt and the digest are: the encoded hash splits into its six parts again, and
    base64 decodes what it encoded. *)
Theorem salted_hash_verifies rawKey salt : VerifyAPIKeyHash rawKey (HashAPIKeyWithSalt rawKey salt) = true.
Proof.
  set (h := HashAPIKeyWithSalt rawKey salt).
  assert (split_on "$" h = [""; "argon2id"; "v=19"; "m=65536,t=1,p=4"; base64_Encode salt; base64_Encode (argon2_IDKey rawKey salt)]) as Hs.
  { unfold h, HashAPIKeyWithSalt, argon2_params.
    change ("$argon2id$v=19$m=65536,t=1,p=4$" +:+ base64_Encode salt +:+ "$" +:+ base64_Encode (argon2_IDKey rawKey salt)) with
      ("" +:+ String "$" ("argon2id" +:+ String "$" ("v=19" +:+ String "$" ("m=65536,t=1,p=4" +:+ String "$"
        (base64_Encode salt +:+ String "$" (base64_Encode (argon2_IDKey rawKey salt))))))).
    do 5 (rewrite split_on_app; [f_equal|first [done|apply encode_no_dollar]]). by rewrite split_on_none by apply encode_no_dollar. }
  unfold VerifyAPIKeyHash. replace (Contains h "$") with true; [|symmetry; apply Contains_iff; by eexists "", _].
  rewrite andb_false_r, Hs, !base64_roundtrip. by rewrite !bool_decide_true by done.
Qed.

(** ** Authentication by a key *)

(** A header presents a key: the prefix and the hash of the key fit. *)
Definition presents (header : string) (k : APIKey) : Prop :=
  ak_Prefix k = stake keyPrefixLen (raw_of header) /\ VerifyAPIKeyHash (raw_of header) (ak_KeyHash k) = true.

Section auth.
Context (R : Env KeyTable KeyAnswers -> Prop) (I : KeyTable -> Prop) (HI : stable R I).
Context (Hused : forall t id k s, I s -> s !! id = Some k -> I (<[id := set_used t k]> s)).

(** What an accepted key is. *)
Definition accepted (header : string) (k : APIKey) (u : User) : Prop :=
  presents header k /\ (exists s id, I s /\ s !! id = Some k) /\ us_Disabled u = false /\
  (exists st, R st /\ ka_user (en_answer st) (ak_UserID k) = Ok u) /\
  exists st, R st /\ forall e, ak_ExpiresAt k = Some e -> (en_now st <= e)%Z.
Definition auth_result (header : string) (r : (APIKey * User) + APIKeyAuthFailure) : Prop :=
  match r with
  | inl (k, u) => accepted header k u
  | inr f => af_Status f ∈ [401; 403; 499; 503]%Z
  end.
(** The only statement: the last use of a presented key. *)
Definition use_of (header : string) (e : key_event) : Prop :=
  exists k t, presents header k /\ e = KeyUsed (ak_UserID k) (ak_ID k) t.
Local Abbreviation keeping_auth header := (keeping R (use_of header) I).

Lemma keys_with_elem guard k (s : KeyTable) : k ∈ keys_with guard s -> guard k = true /\ exists id, s !! id = Some k.
Proof.
  unfold keys_with. rewrite list_elem_of_In, filter_In, in_map_iff. intros [((id & k') & <- & Hk) Hg]. split; [done|].
  exists id. apply elem_of_map_to_list. by apply list_elem_of_In.
Qed.

Lemma keeping_FindByPrefix header prefix : keeping_auth header (FindByPrefix prefix)
  (fun r => forall l, r = Ok l -> forall k, k ∈ l -> ak_Prefix k = prefix /\ exists s id, I s /\ s !! id = Some k).
Proof.
  unfold FindByPrefix. eapply keeping_bind; [by apply keeping_read|]. intros r (st & s & _ & Hs & ->). apply keeping_ret.
  intros l Hl k Hk. destruct (en_fault st); [done|].
  assert (k ∈ keys_with (fun k => bool_decide (ak_Prefix k = prefix)) s) as Hin.
  { destruct (keys_with _ s); [done|]. by injection Hl as <-. }
  apply keys_with_elem in Hin as [Hp%bool_decide_eq_true (id & Hid)]. eauto.
Qed.

Lemma keeping_matching_key header raw records : keeping_auth header (matching_key raw records)
  (fun r => match r with
            | inl (Some k) => k ∈ records /\ VerifyAPIKeyHash raw (ak_KeyHash k) = true
            | inl None => True
            | inr f => af_Status f ∈ [499; 503]%Z
            end).
Proof.
  assert (forall k r (records : list APIKey), match r with
            | inl (Some x) => x ∈ records /\ VerifyAPIKeyHash raw (ak_KeyHash x) = true
            | inl None => True
            | inr f => af_Status f ∈ [499; 503]%Z
            end -> match r with
            | inl (Some x) => x ∈ k :: records /\ VerifyAPIKeyHash raw (ak_KeyHash x) = true
            | inl None => True
            | inr f => af_Status f ∈ [499; 503]%Z
            end) as Hmore by (intros k [[x|]|f] l; [intros [? ?]; split; [by right|done]|done|done]).
  induction records as [|k records IH]; [by apply keeping_ret|]. cbn [matching_key].
  destruct (APIKeyHashIsArgon2 (ak_KeyHash k)); cbn [negb].
  - eapply keeping_bind; [by apply keeping_ctx|]. intros ctx _. case_bool_decide; [apply keeping_ret; set_solver|].
    eapply keeping_bind; [by apply keeping_ask|]. intros slot _. destruct slot; cbn [negb]; [|apply keeping_ret; set_solver].
    destruct (VerifyAPIKeyHash raw (ak_KeyHash k)) eqn:E; [apply keeping_ret; split; [by left|done]|].
    eapply keeping_post; [exact IH|]. intros r. by apply (Hmore k r records).
  - destruct (VerifyAPIKeyHash raw (ak_KeyHash k)) eqn:E; [apply keeping_ret; split; [by left|done]|].
    eapply keeping_post; [exact IH|]. intros r. by apply (Hmore k r records).
Qed.

Lemma keeping_touch_key header k : presents header k -> keeping_auth header (touch_key k) (fun _ => True).
Proof.
  intros Hk. unfold touch_key. eapply keeping_bind; [by apply keeping_clock|]. intros now _.
  eapply keeping_bind; [by apply keeping_ask|]. intros prev _. case_match; [by apply keeping_ret|].
  eapply (keeping_bind _ _ _ _ _ (fun _ => True)); [|intros; by apply keeping_ret].
  unfold UpdateLastUsed. eapply keeping_bind; [|intros; by apply keeping_ret].
  apply (keeping_write _ _ _ HI _ _ (fun _ => True)); [by exists k, now| |done]. intros t s Hs. split; [|done].
  unfold key_used, key_of. destruct (s !! ak_ID k) as [k'|] eqn:E; [|done]. case_bool_decide; [|done]. by apply Hused.
Qed.

Lemma api_key_sound_aux header : keeping R (use_of header) I (AuthenticateAPIKey header) (auth_result header).
Proof.
  unfold AuthenticateAPIKey. cbv zeta. case_match; [apply keeping_ret; cbn; set_solver|].
  eapply keeping_bind; [apply keeping_FindByPrefix|]. intros [records|e] Hr.
  2:{ destruct (errorsIs e "Canceled"); apply keeping_ret; cbn; unfold statusClientClosedRequest; set_solver. }
  specialize (Hr records eq_refl). eapply keeping_bind; [apply keeping_matching_key|].
  intros [[k|]|f] Hk; [|apply keeping_ret; cbn; set_solver|apply keeping_ret; cbn; set_solver]. destruct Hk as [Hk Hv].
  destruct (Hr k Hk) as [Hp Hs]. eapply keeping_bind; [by apply keeping_clock|]. intros now (st1 & Hst1 & ->).
  destruct (match ak_ExpiresAt k with Some e => (e <? en_now st1)%Z | None => false end) eqn:Ee; [apply keeping_ret; cbn; set_solver|].
  eapply keeping_bind; [by apply keeping_ask|]. intros user (st2 & Hst2 & Hu). destruct user as [u|e].
  2:{ destruct (errorsIs e "Canceled"); apply keeping_ret; cbn; unfold statusClientClosedRequest; set_solver. }
  destruct (us_Disabled u) eqn:Ed; [apply keeping_ret; cbn; set_solver|].
  eapply keeping_bind; [by apply keeping_touch_key|]. intros _ _. apply keeping_ret. cbn.
  split_and!; [by split|done|done|by exists st2|]. exists st1. split; [done|]. intros e He. rewrite He in Ee.
  by apply Z.ltb_ge in Ee.
Qed.

(** *** A request *)

Context (ValidateJWT : time -> string -> option (Claims * Caller)).

(** Why a request is authenticated as a caller. *)
Definition vouched (header : string) (a : Authenticated) : Prop :=
  match a with
  | (caller, AuthMethodJWT jti sid) => exists st token claims st', R st /\ ValidateJWT (en_now st) token = Some (claims, caller) /\
      R st' /\ ka_revoked (en_answer st') claims = None /\ jti = cl_ID claims /\ sid = cl_SessionID claims
  | (caller, AuthMethodAPIKey id exp) => exists k u, accepted header k u /\ id = ak_ID k /\ exp = ak_ExpiresAt k /\
      caller = mkCaller (us_ID u) (us_Username u) (us_Role u)
  end.

Lemma keeping_touch_session Ev sid : (forall t, Ev (KeyActivity sid t)) -> keeping R Ev I (touch_session sid) (fun _ => True).
Proof.
  intros Hev. unfold touch_session. case_match; [by apply keeping_ret|].
  eapply keeping_bind; [by apply keeping_clock|]. intros now _. eapply keeping_bind; [by apply keeping_ask|]. intros recent _.
  case_match; [by apply keeping_ret|]. eapply keeping_bind; [by apply keeping_call|]. intros. by apply keeping_ret.
Qed.

(** C20. A request is authenticated only as somebody who is vouched for: as the caller of
    a token that the JWT library accepted at the time of the request and that no
    blocklist lookup of the request revoked, or, without a bearer token, as the enabled
    user of a key that the table held during the request, whose prefix and hash fit the
    header and that had not expired.  Every other answer is 401, 403, 499 or 503, and
    the request writes nothing but the last use of a presented key and the activity of
    its session, whatever the other processes do and whatever fails. *)
Theorem authentication_sound authorization header :
  keeping R (fun e => use_of header e \/ exists sid t, e = KeyActivity sid t) I (CombinedAuth ValidateJWT authorization header)
    (fun r => match r with inl a => vouched header a | inr (status, _) => status ∈ [401; 403; 499; 503]%Z end).
Proof.
  unfold CombinedAuth. case_match.
  - unfold AuthRequired. case_match; [apply keeping_ret; set_solver|]. destruct (Cut authorization " ") as [[scheme token]|];
      [|apply keeping_ret; set_solver]. case_match; [apply keeping_ret; set_solver|].
    eapply keeping_bind; [by apply keeping_clock|]. intros now (st & Hst & ->).
    destruct (ValidateJWT (en_now st) token) as [[claims caller]|] eqn:Ev; [|apply keeping_ret; set_solver].
    eapply keeping_bind; [by apply keeping_ask|]. intros revoked (st' & Hst' & Hr). destruct revoked; [apply keeping_ret; set_solver|].
    eapply keeping_bind; [apply keeping_touch_session; eauto|]. intros _ _. apply keeping_ret. by exists st, token, claims, st'.
  - case_match; [apply keeping_ret; set_solver|]. eapply keeping_bind.
    + eapply triple_weaken; [apply api_key_sound_aux|done|]. by left.
    + intros [[k u]|f] Hr; apply keeping_ret; [|exact Hr]. exists k, u. by split_and!.
Qed.
End auth.

(** ** A deleted key *)

(** The others add no key that fits the header. *)
Definition no_new_match (header : string) (st : Env KeyTable KeyAnswers) : Prop :=
  forall s id k, en_others st s !! id = Some k -> presents header k -> exists k', s !! id = Some k' /\ presents header k'.
(** Only the keys of [ids] fit the header. *)
Definition fits_only (header : string) (ids : list string) (s : KeyTable) : Prop :=
  forall id k, s !! id = Some k -> presents header k -> id ∈ ids.

Lemma fits_only_stable R header ids : (forall st, R st -> no_new_match header st) -> stable R (fits_only header ids).
Proof.
  intros HR st s Hst Hs id k Hk Hp. destruct (HR st Hst s id k Hk Hp) as (k' & Hk' & Hp'). by eapply Hs.
Qed.
Lemma fits_only_used header ids t id k s : fits_only header ids s -> s !! id = Some k ->
  fits_only header ids (<[id := set_used t k]> s).
Proof.
  intros Hs Hk id' k'. rewrite lookup_insert_Some. intros [[<- <-]|[_ Hk']] Hp; [by eapply Hs|by eapply Hs].
Qed.

Definition delete_then_authenticate (ws : bool) (c : Caller) (userID keyID header : string)
    : Eff KeyTable key_event KeyAnswers (KeyAnswer * ((APIKey * User) + APIKeyAuthFailure)) :=
  let? a := DeleteAPIKey ws c userID keyID in
  let? r := AuthenticateAPIKey header in
  eret (a, r).

(** A deleted key authenticates nobody: when a delete was answered 204, a later
    request with the secret of that key is refused, as long as the other processes
    store no key with the same secret. *)
Theorem deleted_key_refused R ws c userID keyID header : (forall st, R st -> no_new_match header st) ->
  triple R (fun _ => True) false (fits_only header [keyID]) (delete_then_authenticate ws c userID keyID header)
    (fun r _ => kr_Status r.1 = 204%Z -> exists f, r.2 = inr f).
Proof.
  intros HR. pose proof (fits_only_stable R header [keyID] HR) as H1. pose proof (fits_only_stable R header [] HR) as H0.
  assert (forall ids, stable R (fits_only header ids) -> keeping R (fun _ => True) (fits_only header ids) (AuthenticateAPIKey header)
    (fun r => ids = [] -> exists f, r = inr f)) as Ha.
  { intros ids Hst w Hw Hq Hs.
    destruct (api_key_sound_aux R _ Hst (fun t id k s => fits_only_used header ids t id k s) header w Hw Hq Hs)
      as (E1 & Q1 & (tr & T1 & F1) & (S1 & Hr)).
    split_and!; [done|done| |done|].
    - exists tr. split; [done|]. by eapply Forall_impl.
    - intros ->. destruct (AuthenticateAPIKey header w).1 as [[k u]|f]; [|by exists f].
      destruct Hr as (Hp & (s & id & Hs' & Hk) & _). by apply (Hs' id k Hk), elem_of_nil in Hp. }
  unfold delete_then_authenticate. eapply (triple_bind _ _ _ _ _ _ (fun a s => fits_only header (if (kr_Status a =? 204)%Z then [] else [keyID]) s)).
  - unfold DeleteAPIKey. case_match; [by apply triple_ret|]. case_match; [by apply triple_ret|].
    eapply (triple_bind _ _ _ _ _ _ (fun e s => fits_only header (match e with None => [] | Some _ => [keyID] end) s)).
    + unfold key_Delete. eapply (triple_bind _ _ _ _ _ _ (fun r s =>
        fits_only header (match r with Ok n => if (n =? 0)%Z then [keyID] else [] | Err _ => [keyID] end) s)).
      * apply triple_write; [by right|done| |].
        -- intros t s Hs. unfold key_delete. destruct (key_of userID keyID s) as [k|]; [|done]. cbn.
           intros id k'. rewrite lookup_delete_Some. intros [Hne Hk'] Hp. specialize (Hs id k' Hk' Hp). set_solver.
        -- intros st err s _ _ Hs. split; [done|]. unfold key_delete. destruct (key_of userID keyID s) as [k|]; [|done]. cbn.
           intros id k'. rewrite lookup_delete_Some. intros [_ Hk'] Hp. by eapply Hs.
      * intros [n|e]; apply triple_ret; intros s Hs; [|done]. by destruct (n =? 0)%Z.
    + intros [e|]; [apply triple_ret; intros s Hs; unfold key_mapped; destruct (mapError e "API key") as [st m] eqn:E; cbn|].
      * apply mapError_safe in E as [E _]. replace (st =? 204)%Z with false; [done|]. symmetry. apply Z.eqb_neq. set_solver.
      * eapply triple_bind; [apply triple_when; intros; by apply triple_emit|]. intros u. by apply triple_ret.
  - intros a. eapply triple_bind.
    + apply (Ha (if (kr_Status a =? 204)%Z then [] else [keyID])). by destruct (kr_Status a =? 204)%Z.
    + intros r. apply triple_ret. cbn. intros s [_ Hr] Hs. rewrite Hs in Hr. by apply Hr.
Qed.

(** ** New keys *)

(** A key that a create may insert. *)
Definition issued (maxDays : Z) (c : Caller) (userID : string) (R : Env KeyTable KeyAnswers -> Prop) (e : key_event) : Prop :=
  exists k random st exp, e = KeyInsert k /\ R st /\ canAccessUserKeys c userID = true /\ ak_UserID k = userID /\
    ak_Prefix k = stake keyPrefixLen (hex_EncodeToString random) /\ ak_KeyHash k = sha256_hex (hex_EncodeToString random) /\
    ak_ExpiresAt k = Some exp /\ (en_now st < exp)%Z /\
    ((0 < maxDays)%Z -> (exp <= endOfDay (AddDays maxDays (en_now st)))%Z).

Lemma checked_expiry_ok maxDays req now e : checked_expiry maxDays req now = inl e ->
  (now < e)%Z /\ ((0 < maxDays)%Z -> (e <= endOfDay (AddDays maxDays now))%Z).
Proof.
  unfold checked_expiry. destruct (key_expiry req now) as [[x|]|]; [|done|done].
  destruct (now <? x)%Z eqn:E1; [|done]. cbn [negb]. destruct (0 <? maxDays)%Z eqn:E2; cbn [andb].
  - destruct (endOfDay (AddDays maxDays now) <? x)%Z eqn:E3; [done|]. intros [= <-]. apply Z.ltb_lt in E1. apply Z.ltb_ge in E3. auto.
  - intros [= <-]. apply Z.ltb_lt in E1. apply Z.ltb_ge in E2. split; [done|lia].
Qed.

(** What a create inserts and answers, from an invariant that the insert keeps. *)
Section creates.
Context (R : Env KeyTable KeyAnswers -> Prop) (I : KeyTable -> Prop) (HI : stable R I).
Context (Ins : APIKey -> Prop).
Context (Hins : forall k s, I s -> Ins k -> s !! ak_ID k = None -> I (<[ak_ID k := k]> s)).
Context (Ev : key_event -> Prop) (maxDays : Z) (c : Caller) (userID : string).
Context (Hev : forall e, issued maxDays c userID R e -> Ev e).

Lemma keeping_key_Create k : (forall k', ak_UserID k' = ak_UserID k -> ak_KeyHash k' = ak_KeyHash k ->
    ak_Prefix k' = ak_Prefix k -> ak_ExpiresAt k' = ak_ExpiresAt k -> Ev (KeyInsert k') /\ Ins k') ->
  keeping R Ev I (key_Create k) (fun r => ak_UserID r.2 = ak_UserID k /\ ak_KeyHash r.2 = ak_KeyHash k /\
    ak_Prefix r.2 = ak_Prefix k /\ ak_ExpiresAt r.2 = ak_ExpiresAt k).
Proof.
  intros Hk. unfold key_Create. case_match; [by apply keeping_ret|]. eapply keeping_bind; [by apply keeping_ask|]. intros uuid _.
  eapply keeping_bind; [by apply keeping_clock|]. intros now _. cbv zeta. set (k' := mkKey _ _ _ _ _ _ _ _).
  destruct (Hk k' eq_refl eq_refl eq_refl eq_refl) as [He Hi].
  eapply keeping_bind.
  - apply (keeping_write _ _ _ HI _ _ (fun _ => True)); [done| |done]. intros t s Hs. split; [|done]. unfold key_insert.
    case_bool_decide as Hn; [done|]. cbn. apply Hins; [done|done|]. by apply eq_None_not_Some.
  - intros [n|e] _; by apply keeping_ret.
Qed.

Lemma keeping_CreateAPIKey_aux body : (forall k, issued maxDays c userID R (KeyInsert k) -> Ins k) ->
  keeping R Ev I (CreateAPIKey maxDays c userID body)
    (fun a => forall k header, kr_Body a = KBCreated k header -> exists random,
       header = "sk_" +:+ hex_EncodeToString random /\ ak_KeyHash k = sha256_hex (hex_EncodeToString random) /\
       ak_Prefix k = stake keyPrefixLen (hex_EncodeToString random) /\ issued maxDays c userID R (KeyInsert k)).
Proof.
  intros HInsev. assert (forall e entity k header, kr_Body (key_mapped e entity) <> KBCreated k header) as Hm.
  { intros e entity k header. unfold key_mapped. by destruct (mapError e entity). }
  unfold CreateAPIKey. case_match; [by apply keeping_ret|]. destruct (canAccessUserKeys c userID) eqn:Ec; cbn [negb]; [|by apply keeping_ret].
  eapply keeping_bind; [by apply keeping_ask|]. intros [u|e] _; [|apply keeping_ret; intros k hd Hb; by apply Hm in Hb].
  destruct body as [req|]; [|by apply keeping_ret]. eapply keeping_bind; [by apply keeping_clock|]. intros now (st & Hst & ->).
  destruct (checked_expiry maxDays req (en_now st)) as [exp|msg] eqn:Ee; [|by apply keeping_ret].
  apply checked_expiry_ok in Ee as [Hfut Hmax]. eapply keeping_bind; [by apply keeping_ask|]. intros [random|e] _; [|by apply keeping_ret].
  unfold GenerateAPIKey. cbv zeta beta iota.
  assert (forall k', ak_UserID k' = userID -> ak_KeyHash k' = sha256_hex (hex_EncodeToString random) ->
    ak_Prefix k' = stake keyPrefixLen (hex_EncodeToString random) -> ak_ExpiresAt k' = Some exp ->
    issued maxDays c userID R (KeyInsert k')) as Hiss.
  { intros k' E1 E2 E3 E4. exists k', random, st, exp. by split_and!. }
  eapply keeping_bind.
  - apply keeping_key_Create. cbn. intros k' E1 E2 E3 E4. split; [by apply Hev, Hiss|]. by apply HInsev, Hiss.
  - intros [[e|] k] Hk; [apply keeping_ret; intros k0 hd Hb; by apply Hm in Hb|]. destruct Hk as (K1 & K2 & K3 & K4). cbn in *.
    apply keeping_ret. cbn. intros k0 hd [= <- <-]. exists random. split_and!; auto.
Qed.
End creates.

Lemma AddDays_small n t : (0 <= n <= 36500)%Z -> (0 <= t < 2 ^ 63)%Z -> AddDays n t = (t + n * Day)%Z.
Proof.
  intros Hn Ht. unfold AddDays, Day, Hour, Minute, Second, year1, wrap64. rewrite Z.mod_small by (Z.to_euclidean_division_equations; lia).
  Z.to_euclidean_division_equations. lia.
Qed.
Lemma endOfDay_bound t : (t <= endOfDay t < t + Day)%Z.
Proof. unfold endOfDay, Day, Hour, Minute, Second. Z.to_euclidean_division_equations. lia. Qed.

(** A new key belongs to the user of the request, whose keys the caller may manage,
    and always expires: in the future, and with a maximum lifetime of some days at most
    one day after that many days.  The table gets the prefix and the SHA-256 of the
    secret only, and the answer the secret whose prefix and hash they are. *)
Theorem api_key_limits R maxDays c userID body : (0 < maxDays <= 36500)%Z -> (forall st, R st -> 0 <= en_now st < 2 ^ 63)%Z ->
  keeping R (fun e => exists k st exp random, e = KeyInsert k /\ R st /\ canAccessUserKeys c userID = true /\ ak_UserID k = userID /\
      ak_ExpiresAt k = Some exp /\ (en_now st < exp < en_now st + (maxDays + 1) * Day)%Z /\
      ak_Prefix k = stake keyPrefixLen (hex_EncodeToString random) /\ ak_KeyHash k = sha256_hex (hex_EncodeToString random))
    (fun _ => True) (CreateAPIKey maxDays c userID body)
    (fun a => forall k header, kr_Body a = KBCreated k header -> exists random, header = "sk_" +:+ hex_EncodeToString random /\
      ak_KeyHash k = sha256_hex (hex_EncodeToString random) /\ ak_Prefix k = stake keyPrefixLen (hex_EncodeToString random)).
Proof.
  intros Hmax Hclock. eapply keeping_post.
  - apply (keeping_CreateAPIKey_aux R (fun _ => True) ltac:(done) (fun _ => True)); [done| |done].
    intros e (k & random & st & exp & -> & Hst & Hc & Hu & Hp & Hh & He & Hfut & Hlim). exists k, st, exp, random. split_and!; try done.
    specialize (Hlim ltac:(lia)). rewrite AddDays_small in Hlim by (try apply Hclock; lia || done).
    pose proof (endOfDay_bound (en_now st + maxDays * Day)). lia.
  - intros a Ha k header Hb. destruct (Ha k header Hb) as (random & ? & ? & ? & _). eauto.
Qed.

(** ** From the create to the authentication *)

Lemma hex_length s : String.length (hex_EncodeToString s) = (2 * String.length s)%nat.
Proof. induction s as [|c s IH]; [done|]. cbn. lia. Qed.
Lemma Contains_no_char c s : sforall (fun d => negb (Ascii.eqb d c)) s = true -> Contains s (String c "") = false.
Proof.
  intros Hs. destruct (Contains s (String c "")) eqn:E; [|done]. apply Contains_iff in E as (a & b & ->).
  rewrite !sforall_app in Hs. apply andb_true_iff in Hs as [_ Hs]. apply andb_true_iff in Hs as [Hs _]. cbn [sforall] in Hs.
  by rewrite Ascii.eqb_refl in Hs.
Qed.
Lemma sha_hash_fits `{!HexDigest sha256_hex} raw : VerifyAPIKeyHash raw (sha256_hex raw) = true /\ APIKeyHashIsArgon2 (sha256_hex raw) = false.
Proof.
  assert (sforall (fun d => negb (Ascii.eqb d "$")) (sha256_hex raw) = true) as Hd.
  { eapply sforall_mono, digest_hex. intros c Hc. apply negb_true_iff, not_true_iff_false. intros ->%Ascii.eqb_eq. done. }
  split.
  - unfold VerifyAPIKeyHash, len. rewrite digest_len. cbn [Z.of_nat Pos.of_succ_nat]. rewrite (Contains_no_char _ _ Hd).
    by rewrite bool_decide_true.
  - unfold APIKeyHashIsArgon2. destruct (sha256_hex raw) as [|d s]; [done|]. cbn [sforall] in Hd. cbn [HasPrefix].
    apply andb_true_iff in Hd as [Hd _]. apply negb_true_iff in Hd. by rewrite Ascii.eqb_sym, Hd.
Qed.

Section roundtrip.
Context `{!HexDigest sha256_hex}.
Context (bytes userID : string) (deadline : time).
Let header := "sk_" +:+ hex_EncodeToString bytes.
Let rawKey := hex_EncodeToString bytes.

(** Steps without a fault, before [deadline], with enabled users and these random bytes;
    the others neither add nor change a key that fits. *)
Definition undisturbed (st : Env KeyTable KeyAnswers) : Prop :=
  en_fault st = None /\ en_ctx st = None /\ ka_slot (en_answer st) = true /\ (en_now st <= deadline)%Z /\
  ka_random (en_answer st) = Ok bytes /\
  (forall id, exists u, ka_user (en_answer st) id = Ok u /\ us_Disabled u = false) /\
  forall s id k, presents header k -> en_others st s !! id = Some k <-> s !! id = Some k.

(** The table holds [k] and no other key that fits. *)
Definition holds_key (k : APIKey) (s : KeyTable) : Prop :=
  s !! ak_ID k = Some k /\ presents header k /\ fits_only header [ak_ID k] s.
Lemma holds_key_stable k : stable undisturbed (holds_key k).
Proof.
  intros st s (_ & _ & _ & _ & _ & _ & Ho) (Hk & Hp & Hf). split_and!; [by apply Ho|done|].
  intros id k' Hk' Hp'. apply (Hf id k'); [by apply Ho|done].
Qed.
Lemma no_fit_stable : stable undisturbed (fits_only header []).
Proof. apply fits_only_stable. intros st (_ & _ & _ & _ & _ & _ & Ho) s id k Hk Hp. exists k. split; [by apply Ho|done]. Qed.
Lemma raw_header : raw_of header = rawKey.
Proof. unfold header, rawKey, raw_of. rewrite HasPrefix_app. apply (sdrop_app "sk_"). Qed.

Lemma triple_key_Create k : ak_ID k = "" -> presents header k -> triple undisturbed (fun _ => True) false (fits_only header []) (key_Create k)
  (fun r s => r.1 = None -> holds_key r.2 s /\ ak_UserID r.2 = ak_UserID k /\ ak_ExpiresAt r.2 = ak_ExpiresAt k).
Proof.
  intros Hid Hp. unfold key_Create. case_match; [by apply triple_ret|].
  eapply triple_bind; [apply triple_ask; right; apply no_fit_stable|]. intros uuid. apply triple_fact. intros _.
  eapply triple_bind; [apply triple_clock; right; apply no_fit_stable|]. intros now. apply triple_fact. intros _.
  cbv zeta. set (k' := mkKey _ _ _ _ _ _ _ _).
  apply (triple_bind _ _ _ _ _ _ (fun r s => forall n, r = Ok n -> holds_key k' s)).
  - apply triple_write; [right; apply no_fit_stable|done| |].
    + intros t s Hs n. unfold key_insert. case_bool_decide as Hn; [done|]. cbn. intros _.
      split_and!; [by rewrite lookup_insert_eq|exact Hp|]. intros id k0. rewrite lookup_insert_Some.
      intros [[<- _]|[_ Hk0]] Hp0; [set_solver|]. by apply (Hs id k0 Hk0), elem_of_nil in Hp0.
    + intros st err s (Hf & _) He. congruence.
  - intros [n|e]; apply triple_ret; intros s Hs; [|done]. intros _. cbn. split_and!; [by eapply Hs|done|done].
Qed.

Lemma triple_CreateAPIKey maxDays c body :
  triple undisturbed (fun _ => True) false (fits_only header []) (CreateAPIKey maxDays c userID body)
    (fun a s => forall k h, kr_Body a = KBCreated k h -> h = header /\ holds_key k s /\ ak_UserID k = userID).
Proof.
  assert (forall e entity k h, kr_Body (key_mapped e entity) <> KBCreated k h) as Hm.
  { intros e entity k h. unfold key_mapped. by destruct (mapError e entity). }
  unfold CreateAPIKey. case_match; [by apply triple_ret|]. case_match; [by apply triple_ret|].
  eapply triple_bind; [apply triple_ask; right; apply no_fit_stable|]. intros user. apply triple_fact. intros _.
  destruct user as [u|e]; [|apply triple_ret; intros s _ k h Hb; by apply Hm in Hb]. destruct body as [req|]; [|by apply triple_ret].
  eapply triple_bind; [apply triple_clock; right; apply no_fit_stable|]. intros now. apply triple_fact. intros _.
  destruct (checked_expiry maxDays req now) as [exp|msg]; [|by apply triple_ret].
  eapply triple_bind; [apply triple_ask; right; apply no_fit_stable|]. intros random. apply triple_fact.
  intros (st & (_ & _ & _ & _ & Hr & _) & ->). rewrite Hr. unfold GenerateAPIKey. cbv zeta beta iota. fold rawKey.
  eapply triple_bind; [apply triple_key_Create; [done|]|].
  - split; [cbn; by rewrite raw_header|]. rewrite raw_header. apply sha_hash_fits.
  - intros [[e|] k]; apply triple_ret; intros s Hs k0 h Hb; [by apply Hm in Hb|]. injection Hb as <- <-.
    destruct (Hs eq_refl) as (Hh & Hu & _). done.
Qed.

Lemma triple_matching_key P k records : stable undisturbed P -> k ∈ records -> VerifyAPIKeyHash rawKey (ak_KeyHash k) = true ->
  (forall k', k' ∈ records -> VerifyAPIKeyHash rawKey (ak_KeyHash k') = true -> k' = k) ->
  triple undisturbed (fun _ => True) false P (matching_key rawKey records) (fun r s => P s /\ r = inl (Some k)).
Proof.
  intros HP Hin Hv. induction records as [|k' records IH]; intros Hu; [by apply elem_of_nil in Hin|]. cbn [matching_key].
  assert (VerifyAPIKeyHash rawKey (ak_KeyHash k') = false ->
    triple undisturbed (fun _ => True) false P (matching_key rawKey records) (fun r s => P s /\ r = inl (Some k))) as Hrest.
  { intros Hn. apply IH; [|intros; apply Hu; [by right|done]]. apply elem_of_cons in Hin as [->|Hin]; [congruence|done]. }
  destruct (VerifyAPIKeyHash rawKey (ak_KeyHash k')) eqn:E.
  - assert (k' = k) as -> by (apply Hu; [by left|done]). destruct (APIKeyHashIsArgon2 (ak_KeyHash k)); cbn [negb]; [|by apply triple_ret].
    eapply triple_bind; [apply triple_ctx; by right|]. intros ctx. apply triple_fact. intros (st & (_ & Hc & _) & ->). rewrite Hc.
    rewrite bool_decide_false by (by intros [? ?]). eapply triple_bind; [apply triple_ask; by right|]. intros slot.
    apply triple_fact. intros (st' & (_ & _ & Hs & _) & ->). rewrite Hs. by apply triple_ret.
  - specialize (Hrest eq_refl). destruct (APIKeyHashIsArgon2 (ak_KeyHash k')); cbn [negb]; [|done].
    eapply triple_bind; [apply triple_ctx; by right|]. intros ctx. apply triple_fact. intros (st & (_ & Hc & _) & ->). rewrite Hc.
    rewrite bool_decide_false by (by intros [? ?]). eapply triple_bind; [apply triple_ask; by right|]. intros slot.
    apply triple_fact. intros (st' & (_ & _ & Hs & _) & ->). by rewrite Hs.
Qed.

Lemma triple_Authenticate k : (32 <= String.length rawKey)%nat -> (forall e, ak_ExpiresAt k = Some e -> deadline <= e)%Z ->
  triple undisturbed (fun _ => True) false (holds_key k) (AuthenticateAPIKey header) (fun r s => exists u, r = inl (k, u)).
Proof.
  intros Hlen Hexp. unfold AuthenticateAPIKey. cbv zeta. rewrite raw_header.
  replace (len rawKey <? 16)%Z with false by (symmetry; apply Z.ltb_ge; unfold len; lia).
  apply (triple_bind _ _ _ _ _ _ (fun r s => holds_key k s /\ exists l, r = Ok l /\ k ∈ l /\
    forall k', k' ∈ l -> VerifyAPIKeyHash rawKey (ak_KeyHash k') = true -> k' = k)).
  - unfold FindByPrefix. eapply triple_bind; [apply triple_read; right; apply holds_key_stable|]. intros r. apply triple_ret.
    intros s [Hs (st & (Hf & _) & ->)]. rewrite Hf. split; [done|]. destruct Hs as (Hk & [Hp Hv] & Honly).
    set (guard := fun k => bool_decide (ak_Prefix k = stake keyPrefixLen rawKey)).
    assert (k ∈ keys_with guard s) as Hin.
    { unfold keys_with. rewrite list_elem_of_In, filter_In, in_map_iff. split.
      - exists (ak_ID k, k). split; [done|]. by apply list_elem_of_In, elem_of_map_to_list.
      - unfold guard. apply bool_decide_eq_true. by rewrite <- raw_header. }
    exists (keys_with guard s). split; [by destruct (keys_with guard s); [apply elem_of_nil in Hin|]|]. split; [done|].
    intros k' Hk' Hv'. apply keys_with_elem in Hk' as [Hg%bool_decide_eq_true (id & Hid)].
    assert (presents header k') as Hp' by (split; by rewrite raw_header). pose proof (Honly id k' Hid Hp') as Hi.
    apply list_elem_of_singleton in Hi as ->. congruence.
  - intros r. apply (triple_pre _ _ _ _ _ (fun s => (exists l, r = Ok l /\ k ∈ l /\
      forall k', k' ∈ l -> VerifyAPIKeyHash rawKey (ak_KeyHash k') = true -> k' = k) /\ holds_key k s)); [|by intros s [? ?]].
    apply triple_fact. intros (l & -> & Hin & Hu).
    apply (triple_pre _ _ _ _ _ (fun s => VerifyAPIKeyHash rawKey (ak_KeyHash k) = true /\ holds_key k s));
      [|intros s Hs; split; [|done]; destruct Hs as (_ & [_ Hv] & _); by rewrite raw_header in Hv].
    apply triple_fact. intros Hv.
    eapply triple_bind; [apply (triple_matching_key (holds_key k) k); [apply holds_key_stable|done|done|done]|]. intros found.
    apply (triple_pre _ _ _ _ _ (fun s => found = inl (Some k) /\ holds_key k s)); [|by intros s [? ?]].
    apply triple_fact. intros ->. eapply triple_bind; [apply triple_clock; right; apply holds_key_stable|]. intros now.
    apply triple_fact. intros (st & (_ & _ & _ & Ht & _) & ->).
    replace (match ak_ExpiresAt k with Some e => (e <? en_now st)%Z | None => false end) with false.
    2:{ symmetry. destruct (ak_ExpiresAt k) as [e|]; [|done]. specialize (Hexp e eq_refl). apply Z.ltb_ge. lia. }
    eapply triple_bind; [apply triple_ask; right; apply holds_key_stable|]. intros user. apply triple_fact.
    intros (st' & (_ & _ & _ & _ & _ & Hus & _) & ->). destruct (Hus (ak_UserID k)) as (u & -> & Hd). rewrite Hd.
    eapply (triple_bind _ _ _ _ _ _ (fun _ _ => True)); [|intros; apply triple_ret; eauto].
    unfold touch_key. eapply triple_bind; [apply triple_clock; right; apply holds_key_stable|]. intros now'. apply triple_fact. intros _.
    eapply triple_bind; [apply triple_ask; right; apply holds_key_stable|]. intros prev. apply triple_fact. intros _.
    case_match; [by apply triple_ret|]. eapply (triple_bind _ _ _ _ _ _ (fun _ _ => True)); [|intros; by apply triple_ret].
    unfold UpdateLastUsed. eapply (triple_bind _ _ _ _ _ _ (fun _ _ => True)); [|intros; by apply triple_ret].
    apply triple_write; [right; apply holds_key_stable|done|done|done].
Qed.
End roundtrip.

(** A create, and a later request with the answered secret. *)
Definition create_then_authenticate (maxDays : Z) (c : Caller) (userID : string) (body : option CreateAPIKeyRequest)
    : Eff KeyTable key_event KeyAnswers (KeyAnswer * option ((APIKey * User) + APIKeyAuthFailure)) :=
  let? a := CreateAPIKey maxDays c userID body in
  match kr_Body a with
  | KBCreated _ header => let? r := AuthenticateAPIKey header in eret (a, Some r)
  | _ => eret (a, None)
  end.

(** The secret that a create answers works: a request with it is authenticated as
    the stored key and its user until the key expires, when no step fails, the user is
    enabled and no other key has the same secret. *)
Theorem created_key_works `{!HexDigest sha256_hex} maxDays c userID body bytes deadline : String.length bytes = 32%nat ->
  triple (undisturbed bytes deadline) (fun _ => True) false (fits_only ("sk_" +:+ hex_EncodeToString bytes) [])
    (create_then_authenticate maxDays c userID body)
    (fun r _ => forall k header, kr_Body r.1 = KBCreated k header -> (forall e, ak_ExpiresAt k = Some e -> deadline <= e)%Z ->
       ak_UserID k = userID /\ exists u, r.2 = Some (inl (k, u))).
Proof.
  intros Hb. unfold create_then_authenticate. eapply triple_bind; [by apply triple_CreateAPIKey|]. intros a. destruct (kr_Body a) eqn:Ea.
  2:{ apply (triple_pre _ _ _ _ _ (fun s => (rawKey = "sk_" +:+ hex_EncodeToString bytes /\ ak_UserID k = userID) /\ holds_key bytes k s)).
      2:{ intros s Hs. destruct (Hs _ _ Ea) as (? & ? & ?). auto. }
      apply triple_fact. intros [-> Hu].
      destruct (match ak_ExpiresAt k with Some e => (deadline <=? e)%Z | None => true end) eqn:Hexp.
      - eapply triple_bind; [apply triple_Authenticate; [rewrite hex_length; lia|]|].
        + intros e He. rewrite He in Hexp. by apply Z.leb_le in Hexp.
        + intros r. apply triple_ret. cbn. intros s [u ->] k0 h Hk0 _. rewrite Ea in Hk0. injection Hk0 as <- _. eauto.
      - eapply (triple_bind _ _ _ _ _ _ (fun _ _ => True)).
        + apply (triple_conseq _ _ _ _ _ (fun _ => True) _ (fun r s => True /\ auth_result (undisturbed bytes deadline) (fun _ => True)
            ("sk_" +:+ hex_EncodeToString bytes) r));
            [|done|done].
          eapply triple_weaken; [by apply api_key_sound_aux|done|done].
        + intros r. apply triple_ret. cbn. intros s _ k0 h Hk0 He. rewrite Ea in Hk0. injection Hk0 as <- _.
          destruct (ak_ExpiresAt k) as [e|]; [|done]. specialize (He e eq_refl). apply Z.leb_gt in Hexp. lia. }
  all: apply triple_ret; cbn; intros s _ k0 h Hk0; congruence.
Qed.
End rules.

(** ** Examples *)

Section examples.
#[local] Instance sample_crypto : KeyCrypto := {
  sha256_hex := zero_digest;
  argon2_IDKey := fun raw salt => raw +:+ salt;
  ParseRFC3339 := fun _ => None;
  ParseDateOnly := fun _ => None
}.
#[local] Instance sample_digest : HexDigest (@sha256_hex sample_crypto).
Proof. split; intros x; by vm_compute. Qed.

Definition key_user : User := mkUser "u1" "ann" "" "" roleDevOps "local" None "" false false.
Definition key_bytes : string := "0123456789abcdef0123456789abcdef".
Definition key_answers : KeyAnswers :=
  mkKeyAnswers (fun _ => Ok key_user) true (Ok key_bytes) "k1" (fun _ => None) (fun _ => None) (fun _ => false).
Definition key_step : Env KeyTable KeyAnswers := mkStep (fun s => s) (10 * Second) None false None key_answers.
Definition key_world : EWorld KeyTable key_event KeyAnswers := mkEWorld ∅ (fun _ => key_step) 0 false [].
Definition ann : Caller := mkCaller "u1" "ann" roleDevOps.
Definition week_key : option CreateAPIKeyRequest := Some (mkCreateKey "ci" None (Some 7%Z)).
Definition key_header : string := "sk_" +:+ hex_EncodeToString key_bytes.

Example key_is_created_and_used :
  let r := create_then_authenticate 30 ann "u1" week_key key_world in
  kr_Status r.1.1 = 201%Z /\ match r.1.2 with Some (inl (k, u)) => (ak_ID k, us_Username u) = ("k1", "ann") | _ => False end.
Proof. vm_compute. done. Qed.
Example base64_hello : base64_Encode "hello" = "aGVsbG8" /\ base64_DecodeString "aGVsbG8" = Some "hello".
Proof. vm_compute. done. Qed.

Lemma created_key_works_witness : String.length key_bytes = 32%nat /\
  triple (undisturbed key_bytes (20 * Second)) (fun _ => True) false (fits_only key_header [])
    (create_then_authenticate 30 ann "u1" week_key)
    (fun r _ => forall k header, kr_Body r.1 = KBCreated k header -> (forall e, ak_ExpiresAt k = Some e -> 20 * Second <= e)%Z ->
       ak_UserID k = "u1" /\ exists u, r.2 = Some (inl (k, u))).
Proof. split; [done|]. apply (created_key_works 30 ann "u1" week_key key_bytes (20 * Second)). done. Defined.

Lemma api_key_limits_witness :
  let r := CreateAPIKey 30 ann "u1" week_key key_world in
  kr_Status r.1 = 201%Z /\ keeping (fun st => st = key_step) (fun e => exists k st exp random, e = KeyInsert k /\ st = key_step /\
      canAccessUserKeys ann "u1" = true /\ ak_UserID k = "u1" /\ ak_ExpiresAt k = Some exp /\
      (en_now st < exp < en_now st + (30 + 1) * Day)%Z /\
      ak_Prefix k = stake keyPrefixLen (hex_EncodeToString random) /\ ak_KeyHash k = sha256_hex (hex_EncodeToString random))
    (fun _ => True) (CreateAPIKey 30 ann "u1" week_key)
    (fun a => forall k header, kr_Body a = KBCreated k header -> exists random, header = "sk_" +:+ hex_EncodeToString random /\
      ak_KeyHash k = sha256_hex (hex_EncodeToString random) /\ ak_Prefix k = stake keyPrefixLen (hex_EncodeToString random)).
Proof.
  split; [by vm_compute|]. apply (api_key_limits (fun st => st = key_step) 30 ann "u1" week_key); [lia|].
  by intros st ->.
Defined.

Lemma deleted_key_refused_witness :
  triple (fun st => st = key_step) (fun _ => True) false (fits_only key_header ["k1"])
    (delete_then_authenticate true ann "u1" "k1" key_header)
    (fun r _ => kr_Status r.1 = 204%Z -> exists f, r.2 = inr f).
Proof.
  apply (deleted_key_refused (fun st => st = key_step) true ann "u1" "k1" key_header).
  intros st -> s id k Hk Hp. by exists k.
Defined.

Lemma authentication_sound_witness :
  keeping (fun st => st = key_step) (fun e => use_of key_header e \/ exists sid t, e = KeyActivity sid t) (fun _ => True)
    (CombinedAuth (fun _ _ => None) "" key_header)
    (fun r => match r with
              | inl a => vouched (fun st => st = key_step) (fun _ => True) (fun _ _ => None) key_header a
              | inr (status, _) => status ∈ [401; 403; 499; 503]%Z
              end).
Proof. by apply (authentication_sound (fun st => st = key_step) (fun _ => True)). Defined.
End examples.
