(* ===== verification/Instances.v ===== *)
(** * Creating and changing instances

    The handlers of create, update, extend and clone ([api/handlers/stack_instances.go]),
    the per-user limit of a cluster ([instance_limit.go]) and the unique names
    ([instance_names.go]).  A request body is the result of its JSON binding; clusters,
    definitions and the overrides of an instance answer anything at any time. *)

From S2P Require Import Prelude Decimals Models Quota Naming Store Hooks World Output Json Manager Values Templates Builder Access Requests.
Local Open Scope string_scope.
Local Open Scope list_scope.

(** ** Requests and answers *)

Record createInstanceRequest := mkCreateRequest {
  cr_ExpiresAt : option time;
  cr_StackDefinitionID : string;
  cr_Name : string;
  cr_Branch : string;
  cr_ClusterID : string;
  cr_TTLMinutes : option Z
}.
Record updateRequest := mkUpdateRequest {
  ur_ExpiresAt : option time;
  ur_Name : option string;
  ur_Branch : option string;
  ur_Namespace : option string;
  ur_TTLMinutes : option Z
}.
Record cloneInstanceRequest := mkCloneRequest {
  cl_req_Name : string;
  cl_req_Branch : string;
  cl_req_TTLMinutes : option Z;
  cl_req_ExpiresAt : option time
}.
Record extendTTLRequest := mkExtendRequest {
  xr_Minutes : option Z;
  xr_TTLMinutes : option Z;
  xr_Until : option time
}.

Inductive InstanceBody :=
| IBError (message : string)
| IBConflict (error message : string) (suggestions : list string)
| IBInstance (i : StackInstance) (warning : string).
Record InstanceAnswer := mkInstanceAnswer { ia_Status : Z; ia_Body : InstanceBody }.
Definition refused (status : Z) (message : string) : InstanceAnswer := mkInstanceAnswer status (IBError message).
Definition refused_mapped (e : goerr) (entity : string) : InstanceAnswer :=
  let '(c, m) := mapError e entity in refused c m.
(** [respondCancelled], else 500. *)
Definition cancelled_or_500 (e : goerr) : InstanceAnswer :=
  match cancelledRequestError e with
  | Some (c, m) => refused c m
  | None => refused 500 msgInternalServerError
  end.

(** ** Lookups in tables of other components *)

Record ClusterLimit := mkClusterLimit { lc_ID : string; lc_IsDefault : bool; lc_MaxInstancesPerUser : Z }.
Record InstanceLookups := mkInstanceLookups {
  il_ResolveDefault : res string;
  il_ClusterExists : string -> bool;
  il_FindDefault : res ClusterLimit;
  il_FindCluster : string -> res ClusterLimit;
  il_FindDefinition : string -> error;
  il_OwnerName : string -> string;
  il_ClusterQuota : string -> res (option ResourceQuotaConfig);
  il_ValueOverrides : string -> res (list (string * string));
  il_BranchOverrides : string -> res (list (string * string));
  il_QuotaOverride : string -> res (option InstanceQuotaOverride)
}.
(** The collaborators that a handler can be built without. *)
Record InstanceConfig := mkInstanceConfig {
  ic_registry : bool;
  ic_clusterRepo : bool;
  ic_uniqueNames : bool;
  ic_clusterQuotaRepo : bool;
  ic_valueOverrides : bool;
  ic_branchOverrides : bool;
  ic_quotaOverrides : bool
}.

Definition ErrInstanceLimitExceeded := ESent "ErrInstanceLimitExceeded" "instance limit exceeded".
Definition msgUnknownClusterID := "Unknown cluster_id".
Definition msgSourceClusterIsGone := "The cluster of the source instance no longer exists".
Definition msgInstanceNameExists := "instance name already exists".

(** ** Queries *)

Definition rows_of (s : Store) : list StackInstance := List.map snd (map_to_list (st_instances s)).
Definition FindByNamespace (namespace : string) : M (res StackInstance) :=
  let! r := query (fun _ s => List.find (fun i => bool_decide (si_Namespace i = namespace)) (rows_of s)) in
  ret match r with
      | Err e => Err (EDB "find_by_namespace" e)
      | Ok None => Err (EDB "find_by_namespace" ErrNotFound)
      | Ok (Some i) => Ok i
      end.
Definition on_cluster (clusterID : string) (includeUnassigned : bool) (i : StackInstance) : bool :=
  bool_decide (si_ClusterID i = clusterID) || (includeUnassigned && empty (si_ClusterID i)).
Definition FindByNameOnCluster (name clusterID : string) (includeUnassigned : bool) : M (res (list StackInstance)) :=
  let! r := query (fun _ s => sort_by si_CreatedAt (List.filter (fun i =>
      bool_decide (ToLower (si_Name i) = ToLower name) && on_cluster clusterID includeUnassigned i) (rows_of s))) in
  ret match r with Err e => Err (EDB "find_by_name_on_cluster" e) | Ok l => Ok l end.

(** The instances that count for the limit of an owner; the row of the user is locked
    first. *)
Definition counted (clusterID ownerID : string) (includeUnassigned : bool) (i : StackInstance) : bool :=
  bool_decide (si_OwnerID i = ownerID) && on_cluster clusterID includeUnassigned i.
Definition limit_count (clusterID ownerID : string) (includeUnassigned : bool) (s : Store) : Z :=
  Z.of_nat (length (List.filter (counted clusterID ownerID includeUnassigned) (rows_of s))).
Definition CountForInstanceLimit (clusterID ownerID : string) (includeUnassigned : bool) : M (res Z) :=
  let fail e := (let! ctx := ctxErr in
                 ret (match withContextErr ctx "count_for_instance_limit" (Some (EDB "count_for_instance_limit" e)) with
                      | Some e => Err e
                      | None => Ok 0%Z
                      end)) in
  let! lock := query (fun _ _ => tt) in
  match lock with
  | Err e => fail e
  | Ok _ =>
      let! r := query (fun _ s => limit_count clusterID ownerID includeUnassigned s) in
      match r with Err e => fail e | Ok n => ret (Ok n) end
  end.

(** ** Names *)

(** Up to 3 names; a name is cut to 48 characters. *)
Definition generateNameSuggestions (instanceName : string) : list string :=
  List.map (fun suffix => stake (Z.to_nat (MaxInstanceNameLength - len suffix)) instanceName +:+ suffix) ["-2"; "-3"; "-4"].

Definition maxCloneNameAttempts : nat := 50.
Definition cloneNameCandidate (base : string) (n : Z) : string :=
  let suffix := if (1 <? n)%Z then "-copy-" +:+ itoa n else "-copy" in
  let maxBase := (MaxInstanceNameLength - len suffix)%Z in
  let base := if (maxBase <? len base)%Z then TrimRight is_dash (stake (Z.to_nat maxBase) base) else base in
  If empty base Return sdrop 1 suffix ;;
  base +:+ suffix.

Section handlers.
Variable sha256_hex : string -> string.
Context (h : InstanceHandler) (cfg : InstanceConfig) (lookups : nat -> InstanceLookups).
Local Abbreviation namespace_of := (buildNamespace sha256_hex).

(** A read and a write in a table of another component. *)
Definition read_other {A} (f : InstanceLookups -> A) : M (res A) := fun w =>
  let r := step w in (match e_fault r.1 with Some e => Err e | None => Ok (f (lookups (w_tick w))) end, r.2).
Definition write_other (e : event) : M error :=
  let! st := step in
  run! when_ (bool_decide (e_fault st = None) || e_lost st) (emit e) in
  ret (e_fault st).
Definition ask {A} (f : InstanceLookups -> A) : M A := external (fun n => f (lookups n)).

(** ** [instanceNameGuard] *)

Definition defaultClusterID : M (res string) :=
  If negb (ic_registry cfg) Return ret (Ok "") ;;
  let! r := ask il_ResolveDefault in
  ret (match r with
       | Ok id => Ok id
       | Err e => If errorsIs e "ErrNoDefaultCluster" Return Ok "" ;; Err (EWrap "resolve default cluster: " e "")
       end).
Definition nameHolder (name clusterID excludeID : string) : M (res (option StackInstance)) :=
  let! def := defaultClusterID in
  match def with
  | Err e => ret (Err e)
  | Ok def =>
      let clusterID := if empty clusterID then def else clusterID in
      let! l := FindByNameOnCluster name clusterID (bool_decide (clusterID = def)) in
      ret (match l with
           | Err e => Err e
           | Ok l => Ok (List.find (fun i => negb (bool_decide (si_ID i = excludeID))) l)
           end)
  end.
Fixpoint free_names (clusterID owner : string) (names : list string) : M (list string) :=
  match names with
  | [] => ret []
  | s :: rest =>
      let! holder := nameHolder s clusterID "" in
      let! free := (match holder with
                    | Ok None =>
                        If empty owner Return ret true ;;
                        let! r := FindByNamespace (namespace_of s owner) in
                        ret (match r with Err e => errorsIs e "ErrNotFound" | Ok _ => false end)
                    | _ => ret false
                    end) in
      let! rest := free_names clusterID owner rest in
      ret (if free then s :: rest else rest)
  end.
Definition freeSuggestions (name clusterID owner : string) : M (list string) :=
  free_names clusterID owner (generateNameSuggestions name).

(** [None]: the name is free. *)
Definition name_check (name clusterID excludeID owner : string) : M (option InstanceAnswer) :=
  If negb (ic_uniqueNames cfg) Return ret None ;;
  let! holder := nameHolder name clusterID excludeID in
  match holder with
  | Err e => ret (Some (cancelled_or_500 e))
  | Ok None => ret None
  | Ok (Some i) =>
      let! owner_name := ask (fun l => il_OwnerName l (si_OwnerID i)) in
      let! free := freeSuggestions name clusterID owner in
      ret (Some (mkInstanceAnswer 409 (IBConflict msgInstanceNameExists
        ("A stack named " +:+ quote (si_Name i) +:+ " already exists on this cluster (owner: " +:+ owner_name +:+ ")") free)))
  end.
(** [None]: the namespace is free. *)
Definition checkNamespaceUniqueness (namespace instanceName clusterID owner : string) : M (option InstanceAnswer) :=
  let! r := FindByNamespace namespace in
  match r with
  | Err e => ret (If errorsIs e "ErrNotFound" Return None ;; Some (cancelled_or_500 e))
  | Ok _ =>
      let! suggestions := (if ic_uniqueNames cfg then freeSuggestions instanceName clusterID owner
                           else ret (generateNameSuggestions instanceName)) in
      ret (Some (mkInstanceAnswer 409 (IBConflict "namespace already exists"
        ("Namespace " +:+ quote namespace +:+ " is already in use") suggestions)))
  end.

(** ** The limit of a user on a cluster *)

Record instanceLimit := mkLimit { lm_clusterID : string; lm_max : Z; lm_isDefault : bool }.
Definition no_limit : instanceLimit := mkLimit "" 0 false.
Definition instanceLimitMessage (limit : Z) : string :=
  "Maximum instances per user reached for this cluster (limit: " +:+ itoa limit +:+ ")".

Definition instanceLimitFor (clusterID : string) (gone : InstanceAnswer) : M (instanceLimit + InstanceAnswer) :=
  If negb (ic_clusterRepo cfg) Return ret (inl no_limit) ;;
  let! r := (if empty clusterID then ask il_FindDefault else ask (fun l => il_FindCluster l clusterID)) in
  ret (match r with
       | Ok cl => inl (mkLimit (lc_ID cl) (if (0 <? lc_MaxInstancesPerUser cl)%Z then lc_MaxInstancesPerUser cl else 0) (lc_IsDefault cl))
       | Err e =>
           If empty clusterID && errorsIs e "ErrNotFound" Return inl no_limit ;;
           match cancelledRequestError e with
           | Some (c, m) => inr (refused c m)
           | None => If errorsIs e "ErrNotFound" Return inr gone ;; inr (refused 500 msgInternalServerError)
           end
       end).
Definition limit_error (limit : instanceLimit) (count : Z) : error :=
  If (lm_max limit <=? count)%Z Return
    Some (EWrap "" ErrInstanceLimitExceeded (": " +:+ instanceLimitMessage (lm_max limit))) ;;
  None.
Definition checkInstanceLimit (limit : instanceLimit) (ownerID : string) : M error :=
  If (lm_max limit <=? 0)%Z Return ret None ;;
  let! r := CountForInstanceLimit (lm_clusterID limit) ownerID (lm_isDefault limit) in
  ret (match r with Err e => Some e | Ok count => limit_error limit count end).
(** The answer to a failed create. *)
Definition create_failed (limit : instanceLimit) (e : goerr) : InstanceAnswer :=
  If errorsIs e "ErrInstanceLimitExceeded" Return refused 409 (instanceLimitMessage (lm_max limit)) ;;
  refused_mapped e entityStackInstance.

(** After the commit. *)
Definition notify_created (c : Caller) (inst : StackInstance) : M unit :=
  run! when_ (h_notifier h)
    (emit (EvNotify (si_ID inst) "instance.created" "Stack created"
             ("Stack " +:+ si_Name inst +:+ " has been created") (userTrigger c) "")) in
  when_ (bool_decide (is_Some (h_deployManager h)) && negb (empty (si_ID inst))) (emit (EvInstanceCreated (si_ID inst))).

(** ** [CreateInstance] *)

(** The cluster of the request: known, or the default one. *)
Definition requested_cluster (clusterID : string) : M (string + InstanceAnswer) :=
  If negb (ic_registry cfg) Return ret (inl clusterID) ;;
  If empty clusterID Return (
    let! r := ask il_ResolveDefault in
    ret (match r with
         | Ok id => inl id
         | Err e =>
             If errorsIs e "ErrNoDefaultCluster" Return
               inr (refused 400 "No default cluster configured; specify cluster_id") ;;
             inr (refused 500 msgInternalServerError)
         end)) ;;
  let! known := ask (fun l => il_ClusterExists l clusterID) in
  ret (If known Return inl clusterID ;; inr (refused 400 msgUnknownClusterID)).

(** The row of the request. *)
Definition new_instance (id definition name namespace owner branch cluster : string) (ttl : Z) (expiry : option time) (now : time)
    : StackInstance :=
  mkInstance id definition name namespace owner branch cluster StackStatusDraft "" "" ttl now now None expiry None None None None
    false.

Definition create_row (limit : instanceLimit) (inst : StackInstance) : M error :=
  let create := (let! err := checkInstanceLimit limit (si_OwnerID inst) in
                 match err with
                 | Some e => ret (Some e)
                 | None => instance_Create inst
                 end) in
  if h_txRunner h && (0 <? lm_max limit)%Z then RunInTx create else create.

Definition CreateInstance (c : Caller) (body : option createInstanceRequest) : M InstanceAnswer :=
  match body with
  | None => ret (refused 400 msgInvalidRequestFormat)
  | Some req =>
      let! uuid := step in
      let! now := clock in
      let branch := if empty (cr_Branch req) then "master" else cr_Branch req in
      match requestedExpiry (cr_TTLMinutes req) (cr_ExpiresAt req) (h_defaultTTLMinutes h) (maxTTL (h_maxTTLMinutes h)) now with
      | inr msg => ret (refused 400 msg)
      | inl (ttl, expiry) =>
          let! cluster := requested_cluster (cr_ClusterID req) in
          match cluster with
          | inr a => ret a
          | inl cluster =>
              let! limit := instanceLimitFor cluster (refused 400 msgUnknownClusterID) in
              match limit with
              | inr a => ret a
              | inl limit =>
                  match ValidateInstanceName (cr_Name req) with
                  | Some e => ret (refused 400 (errText e))
                  | None =>
                      let owner := ca_Username c in
                      let inst := new_instance (e_text uuid) (cr_StackDefinitionID req) (cr_Name req)
                                    (namespace_of (cr_Name req) owner) (ca_UserID c) branch cluster ttl expiry now in
                      match StackInstance_Validate inst with
                      | Some e => ret (refused 400 (errText e))
                      | None =>
                          let! taken := checkNamespaceUniqueness (si_Namespace inst) (si_Name inst) cluster owner in
                          match taken with
                          | Some a => ret a
                          | None =>
                              let! taken := name_check (si_Name inst) cluster "" owner in
                              match taken with
                              | Some a => ret a
                              | None =>
                                  let! def := ask (fun l => il_FindDefinition l (si_StackDefinitionID inst)) in
                                  match def with
                                  | Some e => ret (refused_mapped e entityStackDefinition)
                                  | None =>
                                      let! hook := fireInstanceHook (h_hooks h) EventPreInstanceCreate inst in
                                      match hook with
                                      | Some e => let '(c, m) := preHookRefusal EventPreInstanceCreate e in ret (refused c m)
                                      | None =>
                                          let! err := create_row limit inst in
                                          match err with
                                          | Some e => ret (create_failed limit e)
                                          | None =>
                                              run! firePostHook (h_hooks h) EventPostInstanceCreate inst in
                                              run! notify_created c inst in
                                              ret (mkInstanceAnswer 201 (IBInstance inst ""))
                                          end
                                      end
                                  end
                              end
                          end
                      end
                  end
              end
          end
      end
  end.

(** ** [UpdateInstance] *)

Definition si_set_Name (v : string) (x : StackInstance) : StackInstance :=
  mkInstance (si_ID x) (si_StackDefinitionID x) v (si_Namespace x) (si_OwnerID x) (si_Branch x)
    (si_ClusterID x) (si_Status x) (si_ErrorMessage x) (si_LastDeployedValues x) (si_TTLMinutes x) (si_CreatedAt x)
    (si_UpdatedAt x) (si_LastDeployedAt x) (si_ExpiresAt x) (si_ExpiryWarnedAt x) (si_StoppedAt x)
    (si_CleanedAt x) (si_PostDeployHookUntil x) (si_DeleteAfterClean x).
Definition si_set_Branch (v : string) (x : StackInstance) : StackInstance :=
  mkInstance (si_ID x) (si_StackDefinitionID x) (si_Name x) (si_Namespace x) (si_OwnerID x) v
    (si_ClusterID x) (si_Status x) (si_ErrorMessage x) (si_LastDeployedValues x) (si_TTLMinutes x) (si_CreatedAt x)
    (si_UpdatedAt x) (si_LastDeployedAt x) (si_ExpiresAt x) (si_ExpiryWarnedAt x) (si_StoppedAt x)
    (si_CleanedAt x) (si_PostDeployHookUntil x) (si_DeleteAfterClean x).
Definition si_set_TTL (v : Z) (x : StackInstance) : StackInstance :=
  mkInstance (si_ID x) (si_StackDefinitionID x) (si_Name x) (si_Namespace x) (si_OwnerID x) (si_Branch x)
    (si_ClusterID x) (si_Status x) (si_ErrorMessage x) (si_LastDeployedValues x) v (si_CreatedAt x)
    (si_UpdatedAt x) (si_LastDeployedAt x) (si_ExpiresAt x) (si_ExpiryWarnedAt x) (si_StoppedAt x)
    (si_CleanedAt x) (si_PostDeployHookUntil x) (si_DeleteAfterClean x).

(** An echoed stop time is no change; with an echoed TTL neither is the TTL. *)
Definition changed_expiry (existing : StackInstance) (update : updateRequest) : option Z * option time :=
  match ur_ExpiresAt update with
  | Some s =>
      If bool_decide (si_ExpiresAt existing = Some s) Return
        (If bool_decide (ur_TTLMinutes update = Some (si_TTLMinutes existing)) Return (None, None) ;;
         (ur_TTLMinutes update, None)) ;;
      (ur_TTLMinutes update, Some s)
  | None => (ur_TTLMinutes update, None)
  end.
Definition save_instance (inst : StackInstance) : M InstanceAnswer :=
  let! err := instance_Update inst in
  ret (match err with
       | Some e => refused_mapped e entityStackInstance
       | None => mkInstanceAnswer 200 (IBInstance inst "")
       end).
Definition load_for_change (c : Caller) (id : string) : M (StackInstance + InstanceAnswer) :=
  If empty id Return ret (inr (refused 400 msgInstanceIDRequired)) ;;
  let! r := instance_FindByID id in
  ret (match r with
       | Err e => inr (refused_mapped e entityStackInstance)
       | Ok inst => If negb (canModifyInstance c inst) Return inr (refused 403 msgInstanceModifyForbidden) ;; inl inst
       end).

Definition update_row (existing : StackInstance) (body : option updateRequest) : M InstanceAnswer :=
  match body with
  | None => ret (refused 400 msgInvalidRequestFormat)
  | Some update =>
      let newName := match ur_Name update with
                     | Some n => If bool_decide (n = si_Name existing) Return None ;; Some n
                     | None => None
                     end in
      let! renamed := (match newName with
                       | None => ret None
                       | Some n =>
                           match ValidateInstanceName n with
                           | Some e => ret (Some (refused 400 (errText e)))
                           | None => name_check n (si_ClusterID existing) (si_ID existing) ""
                           end
                       end) in
      match renamed with
      | Some a => ret a
      | None =>
          let inst := match newName with Some n => si_set_Name n existing | None => existing end in
          let inst := match ur_Branch update with Some b => si_set_Branch b inst | None => inst end in
          If match ur_Namespace update with Some ns => negb (bool_decide (ns = si_Namespace existing)) | None => false end
            Return ret (refused 400 "namespace cannot be changed") ;;
          let! now := clock in
          let inst := si_set_UpdatedAt now inst in
          let '(reqTTL, reqStop) := changed_expiry existing update in
          let expiry := (If bool_decide (reqTTL = None) && bool_decide (reqStop = None) Return inl inst ;;
                         match requestedExpiry reqTTL reqStop 0 (maxTTL (h_maxTTLMinutes h)) now with
                         | inr msg => inr msg
                         | inl (ttl, expiresAt) => inl (si_set_ExpiresAt expiresAt (si_set_TTL ttl inst))
                         end) in
          match expiry with
          | inr msg => ret (refused 400 msg)
          | inl inst =>
              match StackInstance_Validate inst with
              | Some e => ret (refused 400 (errText e))
              | None => save_instance inst
              end
          end
      end
  end.
Definition UpdateInstance (c : Caller) (id : string) (body : option updateRequest) : M InstanceAnswer :=
  let! r := load_for_change c id in
  match r with
  | inr a => ret a
  | inl existing => update_row existing body
  end.

(** ** [ExtendTTL] *)

(** The row with the extended expiry, or the message of a 400. *)
Definition extended (req : extendTTLRequest) (inst : StackInstance) (now : time) : StackInstance + string :=
  let limit := maxTTL (h_maxTTLMinutes h) in
  let nothing := (si_TTLMinutes inst <=? 0)%Z && bool_decide (si_ExpiresAt inst = None) in
  If bool_decide (is_Some (xr_Until req)) && (bool_decide (is_Some (xr_Minutes req)) || bool_decide (is_Some (xr_TTLMinutes req)))
    Return inr "Send either until, minutes or ttl_minutes" ;;
  match xr_Until req with
  | Some stop =>
      If nothing Return inr "Instance has no expiry; nothing to extend" ;;
      let earliest := match si_ExpiresAt inst with Some e => if (now <? e)%Z then e else now | None => now end in
      If negb (earliest <? stop)%Z Return inr "until must be after the current expiry" ;;
      If (now + minutes_of limit <? stop)%Z Return inr ("until must not be later than " +:+ daysText limit +:+ " from now") ;;
      inl (si_set_ExpiresAt (Some stop) inst)
  | None =>
      match xr_Minutes req with
      | Some minutes =>
          If (minutes <=? 0)%Z Return inr "minutes must be greater than 0" ;;
          If nothing Return inr "Instance has no expiry; nothing to extend" ;;
          inl (si_set_ExpiresAt (Some (extendExpiry (si_ExpiresAt inst) minutes limit now)) inst)
      | None =>
          let ttl := default 0%Z (xr_TTLMinutes req) in
          If negb (ttl =? 0)%Z Return (
            If (ttl <? 0)%Z Return inr "ttl_minutes must be greater than 0" ;;
            If (limit <? ttl)%Z Return inr (ttlExceedsMessage limit) ;;
            inl (si_set_ExpiresAt (Some (now + minutes_of ttl)%Z) (si_set_TTL ttl inst))) ;;
          If (si_TTLMinutes inst <=? 0)%Z Return inr "No TTL configured for this instance" ;;
          inl (si_set_ExpiresAt (Some (extendExpiry (si_ExpiresAt inst) (si_TTLMinutes inst) limit now)) inst)
      end
  end.
Definition extend_row (inst : StackInstance) (body : option extendTTLRequest) : M InstanceAnswer :=
  match body with
  | None => ret (refused 400 msgInvalidRequestFormat)
  | Some req =>
      let! now := clock in
      match extended req inst now with
      | inr msg => ret (refused 400 msg)
      | inl inst => save_instance (si_set_UpdatedAt now inst)
      end
  end.
Definition ExtendTTL (c : Caller) (id : string) (body : option extendTTLRequest) : M InstanceAnswer :=
  let! r := load_for_change c id in
  match r with
  | inr a => ret a
  | inl inst => extend_row inst body
  end.

(** ** [CloneInstance] *)

Definition clone_expiry (req : cloneInstanceRequest) (source : StackInstance) (now : time) : (Z * option time) + string :=
  let '(reqTTL, reqStop) :=
    match cl_req_TTLMinutes req, cl_req_ExpiresAt req with
    | None, None =>
        If hasFixedStopTime (si_TTLMinutes source) (si_ExpiresAt source) &&
           match si_ExpiresAt source with Some e => (now <? e)%Z | None => false end
          Return (None, si_ExpiresAt source) ;;
        (Some (si_TTLMinutes source), None)
    | t, e => (t, e)
    end in
  requestedExpiry reqTTL reqStop 0 (maxTTL (h_maxTTLMinutes h)) now.

(** The first free generated name, of [fuel] more after the [n]-th. *)
Fixpoint generated_name (fuel : nat) (n : Z) (base clusterID owner : string) : M (string + InstanceAnswer) :=
  match fuel with
  | O =>
      ret (inr (mkInstanceAnswer 409 (IBConflict (if ic_uniqueNames cfg then "no free clone name" else "namespace already exists")
        ("No free clone name found; send a name in the request body (tried " +:+ itoa (Z.of_nat maxCloneNameAttempts) +:+ " names)") [])))
  | S fuel' =>
      let candidate := cloneNameCandidate base n in
      let! r := FindByNamespace (namespace_of candidate owner) in
      match r with
      | Ok _ => generated_name fuel' (n + 1) base clusterID owner
      | Err e =>
          If negb (errorsIs e "ErrNotFound") Return ret (inr (cancelled_or_500 e)) ;;
          If negb (ic_uniqueNames cfg) Return ret (inl candidate) ;;
          let! holder := nameHolder candidate clusterID "" in
          match holder with
          | Err e => ret (inr (cancelled_or_500 e))
          | Ok (Some _) => generated_name fuel' (n + 1) base clusterID owner
          | Ok None => ret (inl candidate)
          end
      end
  end.
Definition clone_name (req : cloneInstanceRequest) (source : StackInstance) (owner : string) : M (string + InstanceAnswer) :=
  let name := cl_req_Name req in
  If empty name Return
    generated_name maxCloneNameAttempts 1 (sanitizeRFC1123Label (si_Name source)) (si_ClusterID source) owner ;;
  match ValidateInstanceName name with
  | Some e => ret (inr (refused 400 (errText e)))
  | None =>
      let! taken := checkNamespaceUniqueness (namespace_of name owner) name (si_ClusterID source) owner in
      match taken with
      | Some a => ret (inr a)
      | None =>
          let! taken := name_check name (si_ClusterID source) "" owner in
          ret (match taken with Some a => inr a | None => inl name end)
      end
  end.

(** Who gets the quota override of the source: [None], no copy; else the rule for one
    override, with the warning of a refusal. *)
Definition msgCloneQuotaAboveCluster (reason : string) : string :=
  "The quota override of the source was not copied: it exceeds the cluster quota (" +:+ reason +:+
  "). The clone uses the cluster quota; only admin or devops can grant more.".
Definition msgCloneQuotaLookupFailed :=
  "The quota override of the source was not copied: the cluster quota could not be checked. The clone uses the cluster quota.".
Context `{QuantityOps}.
Definition quota_policy : Type := InstanceQuotaOverride -> bool * string.
Definition cloneQuotaPolicy (c : Caller) (source : StackInstance) : M (option quota_policy) :=
  If negb (canModifyInstance c source) Return ret None ;;
  If isPrivilegedRole c || negb (ic_clusterQuotaRepo cfg) Return ret (Some (fun _ => (true, ""))) ;;
  let! quota := ask (fun l => il_ClusterQuota l (si_ClusterID source)) in
  ret (Some (match quota with
             | Err _ => fun _ => (false, msgCloneQuotaLookupFailed)
             | Ok cluster => fun q =>
                 match CheckOverrideWithinClusterQuota cluster (Some q) None with
                 | Some e => (false, msgCloneQuotaAboveCluster (errText e))
                 | None => (true, "")
                 end
             end)).

Fixpoint copy_each (kind cloneID : string) (l : list (string * string)) : M error :=
  match l with
  | [] => ret None
  | (chart, value) :: l' =>
      let! err := write_other (EvCopyOverride kind cloneID chart value) in
      match err with Some e => ret (Some e) | None => copy_each kind cloneID l' end
  end.
Definition copy_overrides (configured : bool) (kind cloneID : string) (read : InstanceLookups -> res (list (string * string))) : M error :=
  If negb configured Return ret None ;;
  let! l := read_other read in
  match l with
  | Err e | Ok (Err e) => ret (Some e)
  | Ok (Ok l) => copy_each kind cloneID l
  end.
Definition copy_quota (policy : option quota_policy) (sourceID cloneID : string) : M (error * string) :=
  match policy with
  | None => ret (None, "")
  | Some policy =>
      If negb (ic_quotaOverrides cfg) Return ret (None, "") ;;
      let! q := read_other (fun l => il_QuotaOverride l sourceID) in
      match q with
      | Err e | Ok (Err e) => ret (if errorsIs e "ErrNotFound" then None else Some e, "")
      | Ok (Ok None) => ret (None, "")
      | Ok (Ok (Some q)) =>
          let '(copy, warning) := policy q in
          If negb copy Return ret (None, warning) ;;
          let! err := write_other (EvCopyQuota cloneID q) in
          ret (err, "")
      end
  end.
Definition cloneInstanceTx (sourceID : string) (clone : StackInstance) (policy : option quota_policy) : M (error * string) :=
  let! err := instance_Create clone in
  match err with
  | Some e => ret (Some e, "")
  | None =>
      let! err := copy_overrides (ic_valueOverrides cfg) "values" (si_ID clone) (fun l => il_ValueOverrides l sourceID) in
      match err with
      | Some e => ret (Some e, "")
      | None =>
          let! err := copy_overrides (ic_branchOverrides cfg) "branch" (si_ID clone) (fun l => il_BranchOverrides l sourceID) in
          match err with
          | Some e => ret (Some e, "")
          | None => copy_quota policy sourceID (si_ID clone)
          end
      end
  end.
Definition clone_row (limit : instanceLimit) (sourceID : string) (clone : StackInstance) (policy : option quota_policy)
    : M (error * string) :=
  let! r := transaction_with "" (
    let! err := checkInstanceLimit limit (si_OwnerID clone) in
    match err with
    | Some e => ret (Some e, "")
    | None => cloneInstanceTx sourceID clone policy
    end) in
  let! ctx := ctxErr in
  ret (withContextErr ctx "transaction" r.1, r.2).

Definition CloneInstance (c : Caller) (id : string) (body : option cloneInstanceRequest) : M InstanceAnswer :=
  let! r := instance_FindByID id in
  match r with
  | Err e => ret (refused_mapped e entityStackInstance)
  | Ok source =>
      match body with
      | None => ret (refused 400 msgInvalidRequestFormat)
      | Some req =>
          let! now := clock in
          match clone_expiry req source now with
          | inr msg => ret (refused 400 msg)
          | inl (ttl, expiry) =>
              let branch := if empty (cl_req_Branch req) then si_Branch source else cl_req_Branch req in
              let! name := clone_name req source (ca_Username c) in
              match name with
              | inr a => ret a
              | inl name =>
                  let! uuid := step in
                  let clone := new_instance (e_text uuid) (si_StackDefinitionID source) name
                                 (namespace_of name (ca_Username c)) (ca_UserID c) branch (si_ClusterID source) ttl expiry now in
                  match StackInstance_Validate clone with
                  | Some e => ret (refused 400 (errText e))
                  | None =>
                      If negb (h_txRunner h) Return ret (refused 500 msgInternalServerError) ;;
                      let! limit := instanceLimitFor (si_ClusterID clone) (refused 409 msgSourceClusterIsGone) in
                      match limit with
                      | inr a => ret a
                      | inl limit =>
                          let! policy := cloneQuotaPolicy c source in
                          let! err := clone_row limit (si_ID source) clone policy in
                          match err with
                          | (Some e, _) => ret (create_failed limit e)
                          | (None, warning) =>
                              run! notify_created c clone in
                              ret (mkInstanceAnswer 201 (IBInstance clone warning))
                          end
                      end
                  end
              end
          end
      end
  end.
End handlers.
