(* ===== verification/Creation.v ===== *)
(** * What a create, a change or a clone may do

    Theorems about the handlers of [Instances]: the rows they may write, the parts of a
    row that never change, the limit of a user on a cluster, and generated names. *)

From S2P Require Import Prelude Decimals Models Quota Naming Store Hooks World Output Json Manager Calm Values Templates Builder Access Requests Answers Kept Instances.
Local Open Scope string_scope.
Local Open Scope list_scope.

Inductive InstanceRequest :=
| RqCreate (body : option createInstanceRequest)
| RqUpdate (id : string) (body : option updateRequest)
| RqExtend (id : string) (body : option extendTTLRequest)
| RqClone (id : string) (body : option cloneInstanceRequest).

(** ** Generated names *)

Lemma copy_suffix_label n : (0 <= n <= 50)%Z -> is_rfc1123_label (sdrop 1 (if (1 <? n)%Z then "-copy-" +:+ itoa n else "-copy")) /\
  (len (if (1 <? n)%Z then "-copy-" +:+ itoa n else "-copy") <= 8)%Z /\
  (if (1 <? n)%Z then "-copy-" +:+ itoa n else "-copy") = "-" +:+ sdrop 1 (if (1 <? n)%Z then "-copy-" +:+ itoa n else "-copy").
Proof.
  intros Hn. set (ok := fun n => let s := if (1 <? n)%Z then "-copy-" +:+ itoa n else "-copy" in
    sforall (fun c => is_alnum c || char_in c "-")%bool (sdrop 1 s) && first_is is_alnum (sdrop 1 s) &&
    last_is is_alnum (sdrop 1 s) && (len s <=? 8)%Z && bool_decide (s = "-" +:+ sdrop 1 s)).
  assert (forallb (fun k => ok (Z.of_nat k)) (seq 0 51) = true) as H by (vm_compute; reflexivity).
  rewrite forallb_forall in H. specialize (H (Z.to_nat n)). rewrite Z2Nat.id in H by lia.
  specialize (H ltac:(apply in_seq; lia)). unfold ok in H. cbv zeta in H.
  rewrite !andb_true_iff in H. destruct H as [[[[Ha Hb] Hc] Hd%Z.leb_le] He%bool_decide_eq_true]. done.
Qed.

Lemma cloneNameCandidate_ok base n : is_rfc1123_label base -> (0 <= n <= 50)%Z ->
  is_rfc1123_label (cloneNameCandidate base n) /\ (len (cloneNameCandidate base n) <= MaxInstanceNameLength)%Z.
Proof.
  intros Hb Hn. destruct (copy_suffix_label n Hn) as (Hl & Hs & He). unfold cloneNameCandidate. cbv zeta.
  set (suffix := if (1 <? n)%Z then _ else _) in *. set (tail := sdrop 1 suffix) in *.
  assert (He' : (if (MaxInstanceNameLength - len suffix <? len base)%Z
                 then TrimRight is_dash (stake (Z.to_nat (MaxInstanceNameLength - len suffix)) base) else base) =
                cutLabel base (MaxInstanceNameLength - len suffix)).
  { unfold cutLabel. rewrite Z.leb_antisym. by destruct (MaxInstanceNameLength - len suffix <? len base)%Z. }
  rewrite He'. destruct (cutLabel_label base (MaxInstanceNameLength - len suffix)) as [Hc Hlen];
    [unfold MaxInstanceNameLength; lia|done|].
  set (cut := cutLabel _ _) in *. destruct (empty cut) eqn:E.
  { apply empty_iff in E. pose proof (label_nonempty _ Hc) as H. rewrite E in H. by vm_compute in H. }
  split.
  - rewrite He. by apply label_join.
  - rewrite len_app. lia.
Qed.

Section instance_theorems.
Variable sha256_hex : string -> string.
Context (h : InstanceHandler) (cfg : InstanceConfig) (lookups : nat -> InstanceLookups).
Context `{QuantityOps}.

Definition handle_instance (c : Caller) (q : InstanceRequest) : M InstanceAnswer :=
  match q with
  | RqCreate body => CreateInstance sha256_hex h cfg lookups c body
  | RqUpdate id body => UpdateInstance sha256_hex h cfg lookups c id body
  | RqExtend id body => ExtendTTL h c id body
  | RqClone id body => CloneInstance sha256_hex h cfg lookups c id body
  end.

(** ** What a request may write *)

(** A new row: a draft of the caller with a valid name, the namespace of that name and an
    expiry by the rules. *)
Definition drafted (c : Caller) (i : StackInstance) : Prop :=
  si_OwnerID i = ca_UserID c /\ si_Status i = StackStatusDraft /\ ValidateInstanceName (si_Name i) = None /\
  si_Namespace i = buildNamespace sha256_hex (si_Name i) (ca_Username c) /\ si_DeleteAfterClean i = false /\
  exists ttl stop d now, requestedExpiry ttl stop d (maxTTL (h_maxTTLMinutes h)) now = inl (si_TTLMinutes i, si_ExpiresAt i).

(** The parts of a row that no change request touches. *)
Definition fixed_part (i : StackInstance) : StackInstance :=
  mkInstance (si_ID i) (si_StackDefinitionID i) "" (si_Namespace i) (si_OwnerID i) "" (si_ClusterID i) (si_Status i)
    (si_ErrorMessage i) (si_LastDeployedValues i) 0 (si_CreatedAt i) 0 (si_LastDeployedAt i) None (si_ExpiryWarnedAt i)
    (si_StoppedAt i) (si_CleanedAt i) (si_PostDeployHookUntil i) (si_DeleteAfterClean i).

(** An update of [old]: a new name is valid. *)
Definition updated (old i : StackInstance) : Prop :=
  fixed_part i = fixed_part old /\ (si_Name i = si_Name old \/ ValidateInstanceName (si_Name i) = None).
(** An extend of [old]: only the expiry changes, and never to an earlier time; the
    deprecated body sets the TTL. *)
Definition extends (body : option extendTTLRequest) (old i : StackInstance) : Prop :=
  fixed_part i = fixed_part old /\ si_Name i = si_Name old /\ si_Branch i = si_Branch old /\
  (si_TTLMinutes i = si_TTLMinutes old /\ (forall e, si_ExpiresAt old = Some e -> exists e', si_ExpiresAt i = Some e' /\ (e <= e')%Z) \/
   exists req ttl, body = Some req /\ xr_TTLMinutes req = Some ttl /\ si_TTLMinutes i = ttl).

(** The quota override of [source] may go to a clone of the caller. *)
Definition may_copy_quota (c : Caller) (source : StackInstance) (quota : InstanceQuotaOverride) : Prop :=
  canModifyInstance c source = true /\
  (isPrivilegedRole c = true \/ ic_clusterQuotaRepo cfg = false \/
   exists t cluster, il_ClusterQuota (lookups t) (si_ClusterID source) = Ok cluster /\
     CheckOverrideWithinClusterQuota cluster (Some quota) None = None).

(** The statements of a request, apart from messages. *)
Definition request_write (c : Caller) (q : InstanceRequest) (e : event) : Prop :=
  match q with
  | RqCreate _ => exists i rows, e = EvWrite (InsertInstance i) rows /\ drafted c i
  | RqUpdate id _ => exists old, si_ID old = id /\ canModifyInstance c old = true /\
      ((exists x rows, e = EvWrite (ClearExpiryWarning id x) rows) \/ exists i rows, e = EvWrite (SaveInstance i) rows /\ updated old i)
  | RqExtend id body => exists old, si_ID old = id /\ canModifyInstance c old = true /\
      ((exists x rows, e = EvWrite (ClearExpiryWarning id x) rows) \/ exists i rows, e = EvWrite (SaveInstance i) rows /\ extends body old i)
  | RqClone id _ => exists source clone, si_ID source = id /\ drafted c clone /\
      si_StackDefinitionID clone = si_StackDefinitionID source /\ si_ClusterID clone = si_ClusterID source /\
      ((exists now rows, e = EvWrite (InsertInstance (si_set_UpdatedAt now clone)) rows) \/
       (exists kind chart value, e = EvCopyOverride kind (si_ID clone) chart value) \/
       exists quota, e = EvCopyQuota (si_ID clone) quota /\ may_copy_quota c source quota)
  end.
Definition request_may (c : Caller) (q : InstanceRequest) (e : event) : Prop := message e \/ request_write c q e.

(** ** Reads *)

Section parts.
Context (Ev : event -> Prop) (Hmsg : forall e, message e -> Ev e).

Lemma own_FindByNamespace ns : own Ev (FindByNamespace ns) (fun _ => True).
Proof. unfold FindByNamespace. own_steps idtac. Qed.
Lemma own_FindByNameOnCluster name cl u : own Ev (FindByNameOnCluster name cl u) (fun _ => True).
Proof. unfold FindByNameOnCluster. own_steps idtac. Qed.
Lemma own_CountForInstanceLimit cl o u : own Ev (CountForInstanceLimit cl o u) (fun _ => True).
Proof. unfold CountForInstanceLimit. own_steps idtac. Qed.
Lemma own_ask {A} (f : InstanceLookups -> A) (Φ : A -> Prop) :
  (forall t, Φ (f (lookups t))) -> own Ev (ask lookups f) Φ.
Proof. intros Hf w _. split; [apply evolves_step|apply Hf]. Qed.
Lemma own_ask_any {A} (f : InstanceLookups -> A) : own Ev (ask lookups f) (fun _ => True).
Proof. by apply own_ask. Qed.
Lemma own_defaultClusterID : own Ev (defaultClusterID cfg lookups) (fun _ => True).
Proof. unfold defaultClusterID. pose proof @own_ask_any. own_steps idtac. Qed.
Lemma own_nameHolder name cl ex : own Ev (nameHolder cfg lookups name cl ex) (fun _ => True).
Proof.
  unfold nameHolder. eapply own_bind; [apply own_defaultClusterID|]. intros [def|e] _; [|by apply own_ret].
  eapply own_bind; [apply own_FindByNameOnCluster|]. intros. by apply own_ret.
Qed.
Lemma own_free_names cl o names : own Ev (free_names sha256_hex cfg lookups cl o names) (fun _ => True).
Proof.
  induction names as [|n names IH]; [by apply own_ret|]. cbn [free_names].
  eapply own_bind; [apply own_nameHolder|]. intros r _. eapply (own_bind _ _ _ (fun _ => True)).
  - destruct r as [[?|]|?]; [by apply own_ret| |by apply own_ret]. case_match; [by apply own_ret|].
    eapply own_bind; [apply own_FindByNamespace|]. intros. by apply own_ret.
  - intros b _. eapply own_bind; [exact IH|]. intros. by apply own_ret.
Qed.
Lemma own_name_check name cl ex o : own Ev (name_check sha256_hex cfg lookups name cl ex o) (fun _ => True).
Proof.
  unfold name_check. case_match; [by apply own_ret|]. eapply own_bind; [apply own_nameHolder|].
  intros [[i|]|e] _; try by apply own_ret. eapply own_bind; [apply own_ask_any|]. intros o' _.
  eapply own_bind; [apply own_free_names|]. intros. by apply own_ret.
Qed.
Lemma own_checkNamespaceUniqueness ns name cl o :
  own Ev (checkNamespaceUniqueness sha256_hex cfg lookups ns name cl o) (fun _ => True).
Proof.
  unfold checkNamespaceUniqueness. eapply own_bind; [apply own_FindByNamespace|]. intros [i|e] _; [|by apply own_ret].
  eapply (own_bind _ _ _ (fun _ => True)); [case_match; [apply own_free_names|by apply own_ret]|]. intros. by apply own_ret.
Qed.
Lemma own_instanceLimitFor cl gone : own Ev (instanceLimitFor cfg lookups cl gone) (fun _ => True).
Proof.
  unfold instanceLimitFor. case_match; [by apply own_ret|]. eapply (own_bind _ _ _ (fun _ => True)); [case_match; apply own_ask_any|].
  intros. by apply own_ret.
Qed.
Lemma own_checkInstanceLimit l o : own Ev (checkInstanceLimit l o) (fun _ => True).
Proof.
  unfold checkInstanceLimit. case_match; [by apply own_ret|]. eapply own_bind; [apply own_CountForInstanceLimit|].
  intros. by apply own_ret.
Qed.
Lemma own_requested_cluster cl : own Ev (requested_cluster cfg lookups cl) (fun _ => True).
Proof.
  unfold requested_cluster. case_match; [by apply own_ret|]. case_match; (eapply own_bind; [apply own_ask_any|]); intros; by apply own_ret.
Qed.
Lemma own_notify_created c i : own Ev (notify_created h c i) (fun _ => True).
Proof.
  unfold notify_created. eapply own_bind; [apply own_when; intros; by apply own_emit, Hmsg|]. intros _ _.
  apply own_when. intros. by apply own_emit, Hmsg.
Qed.
Lemma own_instance_Create i :
  (forall now, may_write Ev (InsertInstance (si_set_UpdatedAt now i))) -> own Ev (instance_Create i) (fun _ => True).
Proof.
  intros Hi. unfold instance_Create. eapply own_bind; [apply own_clock|]. intros now _.
  eapply own_bind; [apply own_db, Hi|]. intros. by apply own_ret.
Qed.
Lemma own_load_for_change c id :
  own Ev (load_for_change c id) (fun r => forall i, r = inl i -> si_ID i = id /\ canModifyInstance c i = true).
Proof.
  unfold load_for_change. case_match; [by apply own_ret|]. eapply own_bind; [apply own_FindByID|].
  intros [i|e] Hi; apply own_ret; [|done]. intros j. destruct (canModifyInstance c i) eqn:E; [|done]. cbn. intros [= <-]. auto.
Qed.
Lemma own_save_instance i :
  (forall now, may_write Ev (SaveInstance (si_set_UpdatedAt now i))) ->
  (forall e, may_write Ev (ClearExpiryWarning (si_ID i) e)) -> own Ev (save_instance i) (fun _ => True).
Proof.
  intros Hs Hc. unfold save_instance. eapply own_bind; [by apply own_Update|]. intros. by apply own_ret.
Qed.
End parts.
#[local] Hint Resolve own_FindByNamespace own_FindByNameOnCluster own_CountForInstanceLimit own_ask_any own_defaultClusterID
  own_nameHolder own_free_names own_name_check own_checkNamespaceUniqueness own_instanceLimitFor own_checkInstanceLimit
  own_requested_cluster own_load_for_change : own.

(** [next H]: one call, whose result satisfies [H]. *)
Local Ltac next := eapply own_bind; [solve [eauto with own nocore]|]; cbn beta.
Local Ltac done_ := by apply own_ret.

Lemma message_may c q e : message e -> request_may c q e.
Proof. by left. Qed.

(** ** The requests stay within their rules *)

Lemma own_create_row Ev limit i :
  (forall now, may_write Ev (InsertInstance (si_set_UpdatedAt now i))) -> own Ev (create_row h limit i) (fun _ => True).
Proof.
  intros Hi. unfold create_row. set (create := bind _ _).
  assert (own Ev create (fun _ => True)).
  { unfold create. next. intros [e|] _; [done_|]. by apply own_instance_Create. }
  case_match; [by apply own_RunInTx|done].
Qed.

Lemma own_CreateInstance c body :
  own (request_may c (RqCreate body)) (CreateInstance sha256_hex h cfg lookups c body) (fun _ => True).
Proof.
  pose proof (message_may c (RqCreate body)) as Hmsg. unfold CreateInstance. destruct body as [req|]; [|done_].
  eapply own_bind; [apply own_step|]. intros uuid _. next. intros now _.
  destruct (requestedExpiry _ _ _ _ _) as [[ttl expiry]|msg] eqn:Ex; [|done_].
  next. intros [cluster|a] _; [|done_]. next. intros [limit|a] _; [|done_].
  destruct (ValidateInstanceName _) eqn:Ev; [done_|]. cbv zeta. set (inst := new_instance _ _ _ _ _ _ _ _ _ _).
  assert (forall t, drafted c (si_set_UpdatedAt t inst)) as Hd by (intros t; split_and!; eauto 10).
  destruct (StackInstance_Validate inst); [done_|]. next. intros [a|] _; [done_|]. next. intros [a|] _; [done_|].
  next. intros [e|] _; [done_|]. eapply own_bind; [by apply own_fireInstanceHook, Hmsg|].
  intros [e|] _; [destruct (preHookRefusal _ _); done_|]. eapply own_bind; [apply own_create_row; intros t rows; right; by do 2 eexists|].
  intros [e|] _; [done_|]. eapply (own_bind _ _ _ (fun _ => True)).
  { unfold firePostHook. eapply own_bind; [by apply own_fireInstanceHook, Hmsg|]. intros. done_. }
  intros _ _. eapply own_bind; [by apply own_notify_created|]. intros. done_.
Qed.

Lemma fixed_part_ID i j : fixed_part i = fixed_part j -> si_ID i = si_ID j.
Proof. intros E. exact (f_equal si_ID E). Qed.

(** The row that an update saves. *)
Lemma own_update_row (Ev : event -> Prop) old body :
  (forall i, updated old i -> may_write Ev (SaveInstance i)) ->
  (forall e, may_write Ev (ClearExpiryWarning (si_ID old) e)) ->
  own Ev (update_row sha256_hex h cfg lookups old body) (fun _ => True).
Proof.
  intros Hs Hc. unfold update_row. destruct body as [update|]; [|done_]. cbv zeta. set (newName := match ur_Name update with
    Some n => If bool_decide (n = si_Name old) Return None ;; Some n | None => None end).
  eapply (own_bind _ _ _ (fun r : option InstanceAnswer => r = None -> forall n, newName = Some n -> ValidateInstanceName n = None)).
  { destruct newName as [n|]; [|done_]. destruct (ValidateInstanceName n) eqn:E; [done_|].
    eapply own_post; [apply own_name_check|]. intros r _ _ n' [= <-]. done. }
  intros [a|] Hn; [done_|]. specialize (Hn eq_refl).
  match goal with |- own _ (if ?b then _ else _) _ => destruct b; [done_|] end. next. intros now _.
  set (inst0 := match ur_Branch update with
    Some b => si_set_Branch b (match newName with Some n => si_set_Name n old | None => old end)
  | None => match newName with Some n => si_set_Name n old | None => old end end).
  assert (updated old inst0) as Hu.
  { unfold inst0. destruct newName as [n|] eqn:E, (ur_Branch update); (split; [done|]); auto; right; by apply Hn. }
  destruct (changed_expiry old update) as [t s].
  set (i0 := si_set_UpdatedAt now inst0).
  set (expiry := (If bool_decide (t = None) && bool_decide (s = None) Return inl i0 ;;
    match requestedExpiry t s 0 (maxTTL (h_maxTTLMinutes h)) now with
    | inr msg => inr msg
    | inl (ttl, expiresAt) => inl (si_set_ExpiresAt expiresAt (si_set_TTL ttl i0)) end)). assert (forall i, expiry = inl i -> updated old i) as He.
  { intros i. unfold expiry. destruct (bool_decide (t = None) && _); [intros Hi; injection Hi as Hi; by rewrite <- Hi|].
    destruct (requestedExpiry _ _ _ _ _) as [[ttl e]|]; [|done]. intros Hi. injection Hi as Hi. by rewrite <- Hi. }
  destruct expiry as [i|]; [|done_]. specialize (He i eq_refl). destruct (StackInstance_Validate i); [done_|].
  assert (si_ID i = si_ID old) as Ei by apply fixed_part_ID, He.
  apply own_save_instance; [intros t'; by apply Hs|by rewrite Ei].
Qed.
Lemma own_UpdateInstance c id body :
  own (request_may c (RqUpdate id body)) (UpdateInstance sha256_hex h cfg lookups c id body) (fun _ => True).
Proof.
  unfold UpdateInstance. next. intros [old|a] Ho; [|done_]. destruct (Ho _ eq_refl) as [Hid Hc].
  apply own_update_row; [intros i Hi rows|intros e rows]; right; exists old; (split_and!; [done|done|]); [right; by do 2 eexists|left].
  exists e, rows. by rewrite Hid.
Qed.

Lemma extendExpiry_later cur m mx now e : cur = Some e -> (e <= extendExpiry cur m mx now)%Z.
Proof.
  intros ->. unfold extendExpiry. cbv zeta. set (x := if (now + _ <? _)%Z then _ else _).
  destruct (x <? e)%Z eqn:E; [done|]. apply Z.ltb_ge in E. done.
Qed.
Lemma extended_ok req old now i : extended h req old now = inl i -> extends (Some req) old i.
Proof.
  unfold extended. cbv zeta. intros H'. destruct (xr_TTLMinutes req) eqn:Et; repeat case_match; simplify_eq/=; (split_and!; [done|done|done|]).
  all: try (right; eexists _, _; split_and!; [done|eassumption|done]).
  all: left; (split; [done|]); intros e He; eexists; (split; [done|]); try (by apply extendExpiry_later).
  all: rewrite ?He in *; repeat match goal with
         | H : negb _ = false |- _ => apply negb_false_iff in H
         | H : (_ <? _)%Z = true |- _ => apply Z.ltb_lt in H
         | H : (_ <? _)%Z = false |- _ => apply Z.ltb_ge in H end; repeat case_match; simplify_eq; lia.
Qed.

Lemma own_extend_row (Ev : event -> Prop) old body :
  (forall i, extends body old i -> may_write Ev (SaveInstance i)) ->
  (forall e, may_write Ev (ClearExpiryWarning (si_ID old) e)) -> own Ev (extend_row h old body) (fun _ => True).
Proof.
  intros Hs Hc. unfold extend_row. destruct body as [req|]; [|done_]. next. intros now _.
  destruct (extended h req old now) as [i|] eqn:E; [|done_].
  apply extended_ok in E. assert (si_ID i = si_ID old) as Ei by apply fixed_part_ID, E.
  apply own_save_instance; [intros t'; by apply Hs|intros e; cbn; by rewrite Ei].
Qed.
Lemma own_ExtendTTL c id body : own (request_may c (RqExtend id body)) (ExtendTTL h c id body) (fun _ => True).
Proof.
  unfold ExtendTTL. next. intros [old|a] Ho; [|done_]. destruct (Ho _ eq_refl) as [Hid Hc].
  apply own_extend_row; [intros i Hi rows|intros e rows]; right; exists old; (split_and!; [done|done|]); [right; by do 2 eexists|left].
  exists e, rows. by rewrite Hid.
Qed.

(** The name of a clone is valid, whether it was sent or generated. *)
Lemma own_generated_name Ev base cl o : is_rfc1123_label base -> forall fuel n, (0 <= n)%Z -> (n + Z.of_nat fuel <= 51)%Z ->
  own Ev (generated_name sha256_hex cfg lookups fuel n base cl o) (fun r => forall x, r = inl x -> ValidateInstanceName x = None).
Proof.
  intros Hb fuel. induction fuel as [|fuel IH]; intros n Hn Hf; [by apply own_ret|]. cbn [generated_name].
  assert (ValidateInstanceName (cloneNameCandidate base n) = None) as Hv.
  { apply validate_instance_name_iff. apply cloneNameCandidate_ok; [done|lia]. }
  next. intros [i|e] _; [apply IH; lia|]. case_match; [by apply own_ret|]. case_match; [by apply own_ret; intros x [= <-]|].
  next. intros [[i|]|e'] _; [apply IH; lia| |by apply own_ret]. by apply own_ret; intros x [= <-].
Qed.
Lemma own_clone_name Ev req source o :
  own Ev (clone_name sha256_hex cfg lookups req source o) (fun r => forall x, r = inl x -> ValidateInstanceName x = None).
Proof.
  unfold clone_name. cbv zeta. case_match.
  - apply own_generated_name; [|lia|unfold maxCloneNameAttempts; lia]. unfold sanitizeRFC1123Label.
    apply cutLabel_label; [done|apply normalizeRFC1123_label].
  - destruct (ValidateInstanceName _) eqn:E; [by apply own_ret|]. next. intros [a|] _; [by apply own_ret|].
    next. intros [a|] _; apply own_ret; [done|]. by intros x [= <-].
Qed.

Lemma own_read_other Ev {A} (f : InstanceLookups -> A) (Φ : A -> Prop) :
  (forall t, Φ (f (lookups t))) -> own Ev (read_other lookups f) (fun r => forall a, r = Ok a -> Φ a).
Proof.
  intros Hf w _. split; [apply evolves_step|]. unfold read_other. cbn. destruct (e_fault _); [done|]. by intros a [= <-].
Qed.
Lemma own_write_other (Ev : event -> Prop) e : Ev e -> own Ev (write_other e) (fun _ => True).
Proof.
  intros He. unfold write_other. eapply own_bind; [apply own_step|]. intros st _.
  eapply own_bind; [apply own_when; intros; by apply own_emit|]. intros. done_.
Qed.
Lemma own_copy_overrides (Ev : event -> Prop) b kind id read :
  (forall chart value, Ev (EvCopyOverride kind id chart value)) -> own Ev (copy_overrides lookups b kind id read) (fun _ => True).
Proof.
  intros He. unfold copy_overrides. case_match; [done_|].
  eapply own_bind; [by apply (own_read_other _ _ (fun _ => True))|]. intros [[l|e]|e] _; [|done_|done_].
  induction l as [|[chart value] l IH]; [done_|]. cbn [copy_each]. eapply own_bind; [by apply own_write_other|].
  intros [e|] _; [done_|exact IH].
Qed.

(** A policy that only lets a permitted override through. *)
Definition sound_policy (c : Caller) (source : StackInstance) (p : option quota_policy) : Prop :=
  forall policy q, p = Some policy -> (policy q).1 = true -> may_copy_quota c source q.
Lemma own_cloneQuotaPolicy Ev c source : own Ev (cloneQuotaPolicy cfg lookups c source) (sound_policy c source).
Proof.
  unfold cloneQuotaPolicy, sound_policy. destruct (canModifyInstance c source) eqn:Em; cbn [negb]; [|by apply own_ret].
  destruct (isPrivilegedRole c || negb (ic_clusterQuotaRepo cfg)) eqn:Ep.
  - apply own_ret. intros policy q _ _. split; [done|]. apply orb_true_iff in Ep as [?| ?%negb_true_iff]; auto.
  - eapply own_bind; [apply (own_ask _ _ (fun r => exists t, r = il_ClusterQuota (lookups t) (si_ClusterID source))); by eauto|].
    intros r [t Hr]. apply own_ret. intros policy q [= <-]. destruct r as [cluster|e]; [|done].
    destruct (CheckOverrideWithinClusterQuota _ _ _) eqn:Ec; [done|]. intros _. split; [done|]. right; right. by exists t, cluster.
Qed.
Lemma own_copy_quota (Ev : event -> Prop) c source p sid id :
  sound_policy c source p -> (forall q, may_copy_quota c source q -> Ev (EvCopyQuota id q)) ->
  own Ev (copy_quota cfg lookups p sid id) (fun _ => True).
Proof.
  intros Hp He. unfold copy_quota. destruct p as [policy|]; [|done_]. case_match; [done_|].
  eapply own_bind; [by apply (own_read_other _ _ (fun _ => True))|]. intros [[[q|]|e]|e] _; try done_.
  specialize (Hp policy q eq_refl). destruct (policy q) as [[] warning]; cbn [negb]; [|done_].
  eapply own_bind; [apply own_write_other; auto|]. intros. done_.
Qed.

Lemma own_clone_row (Ev : event -> Prop) c source limit clone p : sound_policy c source p ->
  (forall now, may_write Ev (InsertInstance (si_set_UpdatedAt now clone))) ->
  (forall kind chart value, Ev (EvCopyOverride kind (si_ID clone) chart value)) ->
  (forall q, may_copy_quota c source q -> Ev (EvCopyQuota (si_ID clone) q)) ->
  own Ev (clone_row cfg lookups limit (si_ID source) clone p) (fun _ => True).
Proof.
  intros Hp Hi Ho Hq. unfold clone_row. eapply (own_bind _ _ _ (fun _ => True)).
  - apply (own_transaction_with _ _ _ (fun _ => True)). next. intros [e|] _; [done_|]. unfold cloneInstanceTx.
    eapply own_bind; [by apply own_instance_Create|]. intros [e|] _; [done_|].
    eapply own_bind; [by apply own_copy_overrides|]. intros [e|] _; [done_|].
    eapply own_bind; [by apply own_copy_overrides|]. intros [e|] _; [done_|]. by eapply own_copy_quota.
  - intros r _. eapply own_bind; [apply own_ctxErr|]. intros. done_.
Qed.

Lemma clone_expiry_rule req source now ttl e : clone_expiry h req source now = inl (ttl, e) ->
  exists t s, requestedExpiry t s 0 (maxTTL (h_maxTTLMinutes h)) now = inl (ttl, e).
Proof. unfold clone_expiry. destruct (match cl_req_TTLMinutes req with Some _ => _ | None => _ end) as [t s]. eauto. Qed.

Lemma own_CloneInstance c id body :
  own (request_may c (RqClone id body)) (CloneInstance sha256_hex h cfg lookups c id body) (fun _ => True).
Proof.
  pose proof (message_may c (RqClone id body)) as Hmsg. unfold CloneInstance. next. intros [source|e] Hs; [|done_].
  specialize (Hs source eq_refl). destruct body as [req|]; [|done_]. next. intros now _.
  destruct (clone_expiry _ _ _ _) as [[ttl expiry]|] eqn:Ex; [|done_]. apply clone_expiry_rule in Ex as (t & s & Ex). cbv zeta.
  eapply own_bind; [apply own_clone_name|]. intros [name|a] Hn; [|done_]. specialize (Hn name eq_refl).
  eapply own_bind; [apply own_step|]. intros uuid _. set (clone := new_instance _ _ _ _ _ _ _ _ _ _).
  assert (drafted c clone) as Hd by (split_and!; eauto 10).
  destruct (StackInstance_Validate clone); [done_|]. case_match; [done_|]. next. intros [limit|a] _; [|done_].
  eapply own_bind; [apply own_cloneQuotaPolicy|]. intros p Hp.
  eapply own_bind; [apply (own_clone_row _ c); [done|..]|].
  - intros t' rows. right. exists source, clone. split_and!; eauto.
  - intros kind chart value. right. exists source, clone. split_and!; eauto 10.
  - intros q Hq. right. exists source, clone. split_and!; eauto 10.
  - intros [[e|] warning] _; [done_|]. eapply own_bind; [by apply own_notify_created|]. intros. done_.
Qed.

(** A create, update, extend or clone of an instance writes nothing but this, whatever
    other processes do and whatever fails.  A create and a clone insert a draft that
    belongs to the caller, with a valid name, the namespace of that name and owner and an
    expiry by the rules; a clone has the definition and the cluster of its source.  An
    update and an extend save a row of the addressed instance that the caller may modify,
    with the same namespace, owner, cluster, definition and status: an update changes the
    name only to a valid one, an extend never makes the expiry earlier.  A clone gets
    the quota override of its source only when the caller may modify the source and is
    privileged or the override stays within the quota of the cluster. *)
Theorem instance_request_confined c q : own (request_may c q) (handle_instance c q) (fun _ => True).
Proof.
  destruct q as [body|id body|id body|id body];
    [apply own_CreateInstance|apply own_UpdateInstance|apply own_ExtendTTL|apply own_CloneInstance].
Qed.

(** ** The identity of a row *)

Definition identity (i : StackInstance) : string * string * string * string :=
  (si_Namespace i, si_OwnerID i, si_StackDefinitionID i, si_ClusterID i).
(** The row [id] exists with identity [p]. *)
Definition row_is (id : string) (p : string * string * string * string) (s : Store) : Prop :=
  exists i, st_instances s !! id = Some i /\ identity i = p.

Lemma fixed_identity i j : fixed_part i = fixed_part j -> identity i = identity j.
Proof. intros E. exact (f_equal identity E). Qed.

Lemma insert_keeps_row id p i : preserving (row_is id p) (InsertInstance i).
Proof.
  intros t s _ (j & Ej & Hj). cbn [exec]. destruct (st_instances s !! si_ID i) eqn:E; [by exists j|].
  exists j. split; [|done]. cbn. rewrite lookup_insert_ne; [done|]. intros Hi. by rewrite Hi, Ej in E.
Qed.
Lemma clear_keeps_row id p i e : preserving (row_is id p) (ClearExpiryWarning i e).
Proof.
  intros t s _ (j & Ej & Hj). cbn [exec]. unfold on_instances, row_is. cbn. setoid_rewrite update_where_lookup.
  case_decide as Hi; [subst|by exists j]. rewrite Ej. eexists. split; [done|]. by case_match.
Qed.
Lemma save_keeps_row id p i : (si_ID i = id -> identity i = p) -> preserving (row_is id p) (SaveInstance i).
Proof.
  intros Hi t s _ (j & Ej & Hj). cbn [exec]. destruct (decide (si_ID i = id)) as [<-|Hne].
  - rewrite Ej. unfold on_instances, row_is. cbn. setoid_rewrite update_where_lookup. rewrite decide_True by done.
    rewrite Ej. eexists. split; [done|]. by apply Hi.
  - exists j. split; [|done]. destruct (st_instances s !! si_ID i) eqn:E; cbn.
    + by rewrite update_where_lookup, decide_False.
    + by rewrite lookup_insert_ne.
Qed.

Lemma kept_load_for_change c id id' p : kept (row_is id p) (load_for_change c id')
  (fun r => forall i, r = inl i -> si_ID i = id -> identity i = p).
Proof.
  unfold load_for_change. case_match; [by apply kept_ret|]. eapply kept_bind.
  - apply (kept_FindByID _ _ (fun i => si_ID i = id -> identity i = p)). intros s i [_ Hk] (j & Ej & Hj) Ei Hid.
    pose proof (Hk _ _ Ei) as Hi. rewrite Hi in Hid. subst. rewrite Ej in Ei. by injection Ei as <-.
  - intros [i|e] Hi; apply kept_ret; [|done]. intros j. case_match; [done|]. intros [= <-]. by apply (Hi i eq_refl).
Qed.

(** The namespace, owner, definition and cluster of an instance never change: no
    create, update, extend or clone changes them, of this instance or another, whatever
    happens in between, as long as the statements of the other processes keep them. *)
Theorem identity_fixed c q id p : kept (row_is id p) (handle_instance c q) (fun _ => True).
Proof.
  assert (forall e, message e -> forall op rows, e <> EvWrite op rows) as Hm by (by intros [] ? ? ?).
  destruct q as [body|id' body|id' body|id' body].
  - eapply kept_own; [|apply own_CreateInstance]. intros op Hop. destruct (Hop 0%Z) as [Ho|(i & rows & [= -> _] & _)]; [done|apply insert_keeps_row].
  - unfold handle_instance, UpdateInstance. eapply kept_bind; [apply kept_load_for_change|].
    intros [old|a] Ho; [|by apply kept_ret]. specialize (Ho _ eq_refl).
    eapply (kept_own _ (fun e => forall op rows, e = EvWrite op rows -> preserving (row_is id p) op)); [intros op Hop; by apply (only_writes _ _ Hop)|]. apply own_update_row.
    + intros i [Hi _] ? ? ? [= <- _]. apply save_keeps_row. intros Hid.
      rewrite (fixed_identity _ _ Hi). apply Ho. by rewrite <- (fixed_part_ID _ _ Hi).
    + intros e ? ? ? [= <- _]. apply clear_keeps_row.
  - unfold handle_instance, ExtendTTL. eapply kept_bind; [apply kept_load_for_change|].
    intros [old|a] Ho; [|by apply kept_ret]. specialize (Ho _ eq_refl).
    eapply (kept_own _ (fun e => forall op rows, e = EvWrite op rows -> preserving (row_is id p) op)); [intros op Hop; by apply (only_writes _ _ Hop)|]. apply own_extend_row.
    + intros i [Hi _] ? ? ? [= <- _]. apply save_keeps_row. intros Hid.
      rewrite (fixed_identity _ _ Hi). apply Ho. by rewrite <- (fixed_part_ID _ _ Hi).
    + intros e ? ? ? [= <- _]. apply clear_keeps_row.
  - eapply kept_own; [|apply own_CloneInstance]. intros op Hop. destruct (Hop 0%Z) as [Ho|(s & clone & _ & _ & _ & _ & Hw)]; [done|].
    destruct Hw as [(now & rows & [= -> _])|[(? & ? & ? & [=])|(? & [=] & _)]]. apply insert_keeps_row.
Qed.

(** ** The limit of a user on a cluster *)

Section limit.
Context (C o : string) (U : bool) (mx : Z).

(** The table of clusters: [C] has the limit [mx], and is the default cluster when [U]. *)
Definition cluster_row (t : nat) : Prop :=
  (forall cl, il_FindCluster (lookups t) C = Ok cl -> cl = mkClusterLimit C U mx) /\
  (U = true -> (forall cl, il_FindDefault (lookups t) = Ok cl -> cl = mkClusterLimit C U mx) /\
               forall e, il_FindDefault (lookups t) = Err e -> errorsIs e "ErrNotFound" = false).
Definition within_limit (s : Store) : Prop := (limit_count C o U s <= mx)%Z.
(** The limit that a create checks is that of the cluster, when the new row counts. *)
Definition right_limit (i : StackInstance) (l : instanceLimit) : Prop := counted C o U i = true -> l = mkLimit C mx U.

Lemma limit_count_insert i s : keyed s -> st_instances s !! si_ID i = None ->
  limit_count C o U (with_instances (<[si_ID i := i]> (st_instances s)) s) =
  (limit_count C o U s + if counted C o U i then 1 else 0)%Z.
Proof.
  intros _ Hn. unfold limit_count, rows_of. cbn [st_instances with_instances].
  assert (forall l l', Permutation l l' ->
    length (List.filter (counted C o U) (List.map (@snd string StackInstance) l)) =
    length (List.filter (counted C o U) (List.map snd l'))) as Hp.
  { intros l l' Hl. apply Permutation_length. apply (Permutation_map (@snd string StackInstance)) in Hl.
    induction Hl; cbn; repeat case_match; eauto using perm_skip, perm_swap, perm_trans. }
  rewrite (Hp _ _ (map_to_list_insert _ _ _ Hn)). cbn. destruct (counted C o U i); cbn [length]; lia.
Qed.

Lemma insert_within t s i : keyed s -> within_limit s -> (counted C o U i = true -> (limit_count C o U s < mx)%Z) ->
  within_limit (exec t (InsertInstance i) s).2.
Proof.
  intros Hk Hs Hc. cbn [exec]. destruct (st_instances s !! si_ID i) eqn:E; [done|]. unfold within_limit. cbn [snd].
  rewrite limit_count_insert by done. unfold within_limit in Hs. destruct (counted C o U i); [|lia]. specialize (Hc eq_refl). lia.
Qed.

Lemma quiet_create w i : w_quiet w = true -> guarded within_limit w ->
  (counted C o U i = true -> (limit_count C o U (w_db w) < mx)%Z) -> guarded within_limit (instance_Create i w).2.
Proof.
  intros Hq Hw Hc.
  destruct (own_instance_Create (fun _ => True) i (fun _ _ => I) w (proj1 Hw)) as [He _].
  split_and!; [by apply (ev_keyed _ _ _ He), Hw| |unfold env_ok in *; rewrite (ev_env _ _ _ He); apply Hw].
  unfold instance_Create, bind, clock, bind, ret. cbn [fst snd]. destruct (still_step w Hq) as (Hd1 & Hq1 & _).
  set (w1 := (step w).2) in *. set (i' := si_set_UpdatedAt _ i).
  assert (forall w', w_db w' = w_db w -> w_quiet w' = true -> within_limit (w_db (db (InsertInstance i') w').2)) as Hdb.
  { intros w' Hd' Hq'. destruct (still_step w' Hq') as (Hd2 & _ & _). unfold db. destruct (step w') as [st w2]. cbn [snd] in Hd2.
    assert (within_limit (exec (e_dbnow st) (InsertInstance i') (w_db w2)).2) as Hi.
    { rewrite Hd2, Hd'. apply insert_within; [apply Hw|apply Hw|]. exact Hc. }
    destruct (exec _ _ _) as [r s']. cbn [snd] in Hi.
    destruct (e_fault st); [destruct (e_lost st)|]; cbn; [done| |done]. rewrite Hd2, Hd'. apply Hw. }
  by apply Hdb.
Qed.

Lemma withContextErr_Some ctx op e : exists e', withContextErr ctx op (Some e) = Some e'.
Proof. unfold withContextErr. repeat case_match; eauto. Qed.

Lemma still_check l : (0 < mx)%Z -> l = mkLimit C mx U ->
  still (checkInstanceLimit l o) (fun s r => r = None -> (limit_count C o U s < mx)%Z).
Proof.
  intros Hm ->. unfold checkInstanceLimit. cbn [lm_max lm_clusterID lm_isDefault].
  replace (mx <=? 0)%Z with false by (symmetry; apply Z.leb_gt; lia).
  eapply (still_bind _ _ (fun s r => forall n, r = Ok n -> n = limit_count C o U s)).
  - unfold CountForInstanceLimit. cbv zeta.
    assert (forall e (Φ : Store -> Prop), still (let! ctx := ctxErr in
        ret (match withContextErr ctx "count_for_instance_limit" (Some (EDB "count_for_instance_limit" e)) with
             | Some e => Err e | None => Ok 0%Z end)) (fun s r => Φ s -> forall n, r = Ok n -> n = limit_count C o U s)) as Hf.
    { intros e Φ. eapply still_bind; [apply still_ctxErr|]. intros ctx. apply still_ret. intros s _ _ n.
      by edestruct withContextErr_Some as [e' ->]. }
    eapply still_bind; [apply still_query|]. intros [u|e]; [|apply Hf].
    eapply still_bind; [apply still_query|]. intros [n|e]; [|eapply still_post; [apply (Hf e (fun _ => True))|]; auto].
    apply still_ret. intros s Hn _ n' [= <-]. by destruct (Hn n eq_refl) as [_ ->].
  - intros [n|e]; apply still_ret; intros s Hn; [|done]. specialize (Hn n eq_refl) as ->.  unfold limit_error. cbn [lm_max].
    destruct (mx <=? _)%Z eqn:E; [done|]. by apply Z.leb_gt in E.
Qed.

(** The check and the insert in one transaction. *)
Lemma quiet_checked w l i : w_quiet w = true -> (0 < mx)%Z -> guarded within_limit w -> right_limit i l ->
  let r := checkInstanceLimit l (si_OwnerID i) w in
  guarded within_limit r.2 /\ (r.1 = None -> guarded within_limit (instance_Create i r.2).2).
Proof.
  intros Hq Hm Hw Hl. cbv zeta.
  assert (forall op : dbop, (Z -> False) -> preserving within_limit op) as Hf by (intros op Hf; destruct (Hf 0%Z)).
  pose proof (kept_own within_limit (fun _ => False) _ _ Hf (own_checkInstanceLimit _ l (si_OwnerID i)) w Hw) as [Hw1 _].
  pose proof (own_evolves _ _ _ _ (own_checkInstanceLimit (fun _ => False) l (si_OwnerID i)) (proj1 Hw)) as He.
  pose proof (ev_quiet _ _ _ He) as Hq1. rewrite Hq in Hq1. split; [done|]. intros Hn.
  apply quiet_create; [done|done|]. intros Hc. specialize (Hl Hc).
  assert (si_OwnerID i = o) as Ho by (unfold counted in Hc; apply andb_true_iff in Hc as [Hc _]; by apply bool_decide_eq_true in Hc).
  rewrite Ho in *. destruct (still_check l Hm Hl w Hq) as (Hd & _ & Hr). rewrite Hd. by apply Hr.
Qed.

Context (Hrow : forall t, cluster_row t) (Hmx : (0 < mx)%Z) (HC : C <> "").
Context (Htx : h_txRunner h = true) (Hrepo : ic_clusterRepo cfg = true).

Lemma own_right_limit Ev cl gone :
  own Ev (instanceLimitFor cfg lookups cl gone) (fun r => forall l i, r = inl l -> si_ClusterID i = cl -> right_limit i l).
Proof.
  unfold instanceLimitFor. rewrite Hrepo. cbn [negb].
  eapply (own_bind _ _ _ (fun r => exists t, r = if empty cl then il_FindDefault (lookups t) else il_FindCluster (lookups t) cl)).
  { case_match; apply own_ask; by eauto. }
  intros r [t Hr]. apply own_ret. intros l i Hl Hi Hc. destruct (Hrow t) as [Hfind Hdef].
  unfold counted in Hc. apply andb_true_iff in Hc as [_ Hc]. unfold on_cluster in Hc. rewrite Hi in Hc.
  destruct (empty cl) eqn:Ee; cbn [andb] in Hl.
  - apply empty_iff in Ee as ->. rewrite bool_decide_false in Hc by (by intros <-). cbn in Hc. rewrite andb_true_r in Hc.
    destruct (Hdef Hc) as [Hok Herr]. destruct r as [row|e]; symmetry in Hr.
    + rewrite (Hok _ Hr) in Hl. cbn in Hl. apply Z.ltb_lt in Hmx. rewrite Hmx in Hl. by injection Hl as <-.
    + rewrite (Herr _ Hr) in Hl. by destruct (cancelledRequestError e) as [[? ?]|].
  - rewrite andb_false_r, orb_false_r in Hc. apply bool_decide_eq_true in Hc as ->. destruct r as [row|e]; symmetry in Hr.
    + rewrite (Hfind _ Hr) in Hl. cbn in Hl. apply Z.ltb_lt in Hmx. rewrite Hmx in Hl. by injection Hl as <-.
    + destruct (cancelledRequestError e) as [[? ?]|]; [done|]. by case_match.
Qed.

(** Programs without statements of their own. *)
Lemma kept_silent {A} (m : M A) Φ : own message m Φ -> kept within_limit m Φ.
Proof. apply kept_own. intros op H'. destruct (H' 0%Z). Qed.

Lemma kept_create_row l i : right_limit i l -> kept within_limit (create_row h l i) (fun _ => True).
Proof.
  intros Hl. unfold create_row. rewrite Htx. cbn [andb]. set (create := bind _ _). destruct (0 <? lm_max l)%Z eqn:E.
  - apply kept_RunInTx.
    + intros w Hq Hw. destruct (quiet_checked w l i Hq Hmx Hw Hl) as [H1 H2]. unfold create, bind.
      destruct (checkInstanceLimit l (si_OwnerID i) w) as [[e|] w1]; [done|]. by apply H2.
    + unfold create. next. intros [e|] _; [done_|]. by apply own_instance_Create.
  - eapply kept_own; [|unfold create; next; intros [e|] _; [done_|];
      apply (own_instance_Create (fun e => exists now rows, e = EvWrite (InsertInstance (si_set_UpdatedAt now i)) rows)); eauto].
    intros op Hop t s Hk Hs. destruct (Hop 0%Z) as (now & rows & [= -> _]). apply insert_within; [done|done|]. intros Hc. specialize (Hl Hc) as ->. cbn in E.
    apply Z.ltb_lt in Hmx. congruence.
Qed.
Lemma kept_clone_row l sid clone p : right_limit clone l -> kept within_limit (clone_row cfg lookups l sid clone p) (fun _ => True).
Proof.
  intros Hl. unfold clone_row. eapply (kept_bind _ _ _ (fun _ => True)).
  - assert (forall Ev : event -> Prop, (forall kind x y z, Ev (EvCopyOverride kind x y z)) -> (forall x q, Ev (EvCopyQuota x q)) ->
      own Ev (let! err := copy_overrides lookups (ic_valueOverrides cfg) "values" (si_ID clone) (fun l => il_ValueOverrides l sid) in
      match err with
      | Some e => ret (Some e, "")
      | None =>
          let! err := copy_overrides lookups (ic_branchOverrides cfg) "branch" (si_ID clone) (fun l => il_BranchOverrides l sid) in
          match err with
          | Some e => ret (Some e, "")
          | None => copy_quota cfg lookups p sid (si_ID clone)
          end
      end) (fun _ => True)) as Hrest.
    { intros Ev Ho Hq. eapply own_bind; [by apply own_copy_overrides|]. intros [e|] _; [done_|].
      eapply own_bind; [by apply own_copy_overrides|]. intros [e|] _; [done_|]. unfold copy_quota. destruct p as [policy|]; [|done_].
      case_match; [done_|]. eapply own_bind; [by apply (own_read_other _ _ (fun _ => True))|].
      intros [[[q|]|e]|e] _; try done_. destruct (policy q) as [[] warning]; cbn [negb]; [|done_].
      eapply own_bind; [by apply own_write_other|]. intros. done_. }
    apply kept_transaction.
    + intros w Hq Hw. destruct (quiet_checked w l clone Hq Hmx Hw Hl) as [H1 H2]. unfold bind at 1.
      destruct (checkInstanceLimit l (si_OwnerID clone) w) as [[e|] w1]; [done|]. cbn [fst snd] in *. specialize (H2 eq_refl).
      unfold cloneInstanceTx, bind at 1. destruct (instance_Create clone w1) as [[e|] w2]; [done|]. cbn [fst snd] in *.
      eapply guarded_evolves; [|apply (own_evolves _ _ _ _ (Hrest (fun e => forall op rows, e <> EvWrite op rows) ltac:(done) ltac:(done)) (proj1 H2))|done].
      intros op Hop. by destruct (Hop 0%Z op 0%Z).
    + next. intros [e|] _; [done_|]. unfold cloneInstanceTx. eapply own_bind; [by apply own_instance_Create|].
      intros [e|] _; [done_|]. by apply Hrest.
  - intros r _. eapply kept_bind; [apply kept_silent, own_ctxErr|]. intros. by apply kept_ret.
Qed.

Local Ltac silent := eapply kept_bind; [apply kept_silent; solve [eauto with own nocore]|]; cbn beta.
Local Ltac stop := by apply kept_ret.

Lemma kept_CreateInstance c body : kept within_limit (CreateInstance sha256_hex h cfg lookups c body) (fun _ => True).
Proof.
  unfold CreateInstance. destruct body as [req|]; [|stop]. eapply kept_bind; [apply kept_silent, own_step|]. intros uuid _.
  silent. intros now _. destruct (requestedExpiry _ _ _ _ _) as [[ttl expiry]|msg]; [|stop].
  silent. intros [cluster|a] _; [|stop]. eapply kept_bind; [apply kept_silent, own_right_limit|].
  intros [limit|a] Hl; [|stop]. destruct (ValidateInstanceName _); [stop|]. cbv zeta. set (inst := new_instance _ _ _ _ _ _ _ _ _ _).
  specialize (Hl limit inst eq_refl eq_refl). destruct (StackInstance_Validate inst); [stop|].
  silent. intros [a|] _; [stop|]. silent. intros [a|] _; [stop|]. silent. intros [e|] _; [stop|].
  eapply kept_bind; [by apply kept_silent, own_fireInstanceHook|]. intros [e|] _; [destruct (preHookRefusal _ _); stop|].
  eapply kept_bind; [by apply kept_create_row|]. intros [e|] _; [stop|].
  eapply (kept_bind _ _ _ (fun _ => True)).
  { apply kept_silent. unfold firePostHook. eapply own_bind; [by apply own_fireInstanceHook|]. intros. done_. }
  intros _ _. eapply kept_bind; [by apply kept_silent, own_notify_created|]. intros. stop.
Qed.
Lemma kept_CloneInstance c id body : kept within_limit (CloneInstance sha256_hex h cfg lookups c id body) (fun _ => True).
Proof.
  unfold CloneInstance. silent. intros [source|e] _; [|stop]. destruct body as [req|]; [|stop]. silent. intros now _.
  destruct (clone_expiry _ _ _ _) as [[ttl expiry]|]; [|stop]. cbv zeta.
  eapply kept_bind; [apply kept_silent, own_clone_name|]. intros [name|a] _; [|stop].
  eapply kept_bind; [apply kept_silent, own_step|]. intros uuid _. set (clone := new_instance _ _ _ _ _ _ _ _ _ _).
  destruct (StackInstance_Validate clone); [stop|]. case_match; [stop|].
  eapply kept_bind; [apply kept_silent, own_right_limit|]. intros [limit|a] Hl; [|stop].
  specialize (Hl limit clone eq_refl eq_refl). eapply kept_bind; [apply kept_silent, own_cloneQuotaPolicy|]. intros p _.
  eapply kept_bind; [by apply kept_clone_row|]. intros [[e|] warning] _; [stop|].
  eapply kept_bind; [by apply kept_silent, own_notify_created|]. intros. stop.
Qed.
End limit.

(** A user never gets more instances on a cluster than its limit: when every cluster
    lookup shows the limit of the cluster, a create and a clone keep the number of
    instances of any owner within it, because the count and the insert are one
    transaction, whatever the other processes do within the limit and whatever fails.
    The instances without a cluster count on the default cluster.  [Races] has the
    interleavings that this isolation stands for. *)
Theorem requests_within_limit c q C owner isDefault limit :
  (match q with RqCreate _ | RqClone _ _ => True | _ => False end) ->
  (forall t, cluster_row C isDefault limit t) -> (0 < limit)%Z -> C <> "" ->
  h_txRunner h = true -> ic_clusterRepo cfg = true ->
  kept (within_limit C owner isDefault limit) (handle_instance c q) (fun _ => True).
Proof.
  intros Hq Hrow Hl HC Ht Hr. destruct q; try done; [by apply kept_CreateInstance|by apply kept_CloneInstance].
Qed.

End instance_theorems.

(** ** Examples *)

Section examples.
#[local] Existing Instance milli_ops.
Definition short_hash : string -> string := fun _ => "0123456789abcdef".
Definition bob : Caller := mkCaller "u-bob" "bob" roleUser.
Definition small_cluster : ClusterLimit := mkClusterLimit "c1" true 1.
Definition small_tables : InstanceLookups :=
  mkInstanceLookups (Ok "c1") (fun id => bool_decide (id = "c1")) (Ok small_cluster) (fun _ => Ok small_cluster) (fun _ => None)
    (fun id => id) (fun _ => Ok None) (fun _ => Ok [("ch1", "replicas: 2")]) (fun _ => Ok []) (fun _ => Err ErrNotFound).
Definition all_tables : InstanceConfig := mkInstanceConfig true true true true true true true.
Definition create_shop : InstanceRequest := RqCreate (Some (mkCreateRequest None "d1" "shop" "" "" None)).
Definition run_request (c : Caller) (q : InstanceRequest) (w : World) : InstanceAnswer * World :=
  handle_instance short_hash plain_handler all_tables (fun _ => small_tables) c q w.
Definition no_rows : World := calm_world (mkStore ∅ ∅ ∅).

(** A world whose steps carry different texts (for the identifiers). *)
Definition numbered (s : Store) : World :=
  mkWorld s (fun n => mkEnv [] (10000 + Z.of_nat n) 0 false None None false ("id" +:+ itoa (Z.of_nat n)) None 0 []
                        (fun _ => Err (ENew "unreachable")) ("", "", false) [] (mkNsStatus "healthy" []) None None)
    0 false false (mkMem ∅ ∅ ∅) [].

Example create_then_limit :
  let r1 := run_request bob create_shop (numbered (mkStore ∅ ∅ ∅)) in
  let r2 := run_request bob (RqClone "id0" (Some (mkCloneRequest "" "" None None))) r1.2 in
  ia_Status r1.1 = 201%Z /\ (fun i => (si_Namespace i, si_ClusterID i, si_Branch i)) <$> st_instances (w_db r1.2) !! "id0" =
    Some ("stack-shop-bob", "c1", "master") /\
  r2.1 = refused 409 (instanceLimitMessage 1) /\ size (st_instances (w_db r2.2)) = 1%nat.
Proof. vm_compute. done. Qed.
Example clone_names : List.map (cloneNameCandidate "shop") [1; 2; 3]%Z = ["shop-copy"; "shop-copy-2"; "shop-copy-3"].
Proof. vm_compute. done. Qed.

Lemma requests_within_limit_example :
  kept (within_limit "c1" "u-bob" true 1)
    (handle_instance short_hash plain_handler all_tables (fun _ => small_tables) bob create_shop) (fun _ => True) /\
  guarded (within_limit "c1" "u-bob" true 1) no_rows.
Proof.
  split.
  - apply (requests_within_limit short_hash plain_handler all_tables (fun _ => small_tables) bob create_shop); try done.
    intros t. split; [by intros cl [= <-]|]. intros _. split; [by intros cl [= <-]|done].
  - split; [by split|]. split; [done|]. intros n. constructor.
Defined.

(** A rename during a deploy: the deploy ends between the read and the write, and the
    rename writes the old status back. *)
Definition deploying_row : StackInstance :=
  mkInstance "i1" "d1" "shop" "stack-shop-bob" "u-bob" "main" "c1" StackStatusDeploying "" "" 0 0 0 None None None None None None false.
Definition meanwhile (op : dbop) : World :=
  mkWorld (mkStore {["i1" := deploying_row]} ∅ ∅)
    (fun n => mkEnv (if (n =? 2)%nat then [(0%Z, op)] else []) (10000 + Z.of_nat n) 0 false None None false "" None 0 []
                (fun _ => Err (ENew "unreachable")) ("", "", false) [] (mkNsStatus "healthy" []) None None)
    0 false false (mkMem ∅ ∅ ∅) [].
Definition rename : InstanceRequest := RqUpdate "i1" (Some (mkUpdateRequest None (Some "shop2") None None None)).

Example rename_overwrites_status :
  let w := meanwhile (SaveInstance (si_set_Status StackStatusRunning deploying_row)) in
  let r := run_request bob rename w in
  ia_Status r.1 = 200%Z /\ (fun i => (si_Name i, si_Status i)) <$> st_instances (w_db r.2) !! "i1" = Some ("shop2", StackStatusDeploying).
Proof. vm_compute. done. Qed.
(** A rename during a delete: the write stores the deleted row again. *)
Example rename_revives_row :
  let r := run_request bob rename (meanwhile (RemoveInstance "i1")) in
  ia_Status r.1 = 200%Z /\ is_Some (st_instances (w_db r.2) !! "i1").
Proof. vm_compute. eauto. Qed.
End examples.
