(* ===== verification/Races.v ===== *)
(** * Concurrent creates of one user

    The transactions that create an instance ([api/handlers/stack_instances.go],
    [instance_limit.go], [database/stack_instance_repository.go]) under every
    interleaving.  [World] runs a transaction without interference; here its statements
    are steps of their own: the lock of the user row ([SELECT ... FOR UPDATE]), the
    count, the insert and the commit.  A statement reads the committed rows; the rows
    of an open transaction show to nobody before its commit; the lock of a user row is
    held until the end of the transaction, and another transaction that wants it waits. *)

From stdpp Require Import sorting.
From S2P Require Import Prelude Models Store World Ends Calm Requests Instances Creation.
Local Open Scope string_scope.
Local Open Scope list_scope.

(** ** The transactions *)

(** A create or a clone: the limit that [instanceLimitFor] gave it and its row. *)
Record CreateTx := mkCreateTx { ct_limit : instanceLimit; ct_row : StackInstance }.
Inductive CreatePhase := CBegun | CLocked | CChecked | CInserted | CDone (r : error).

(** The committed rows, the users, the locks of the user rows and the transactions. *)
Record LimitWorld := mkLimitWorld {
  lw_db : Store;
  lw_users : gset string;
  lw_locks : gmap string nat;
  lw_txs : gmap nat (CreateTx * CreatePhase)
}.

Definition ct_owner (x : CreateTx) : string := si_OwnerID (ct_row x).
Definition user_free (owner : string) (p : nat) (w : LimitWorld) : bool :=
  match lw_locks w !! owner with Some q => bool_decide (q = p) | None => true end.
Definition lw_phase (p : nat) (x : CreateTx) (ph : CreatePhase) (w : LimitWorld) : LimitWorld :=
  mkLimitWorld (lw_db w) (lw_users w) (lw_locks w) (<[p := (x, ph)]> (lw_txs w)).
Definition lock_user (owner : string) (p : nat) (w : LimitWorld) : LimitWorld :=
  mkLimitWorld (lw_db w) (lw_users w) (<[owner := p]> (lw_locks w)) (lw_txs w).
Definition unlock (p : nat) (locks : gmap string nat) : gmap string nat := filter (fun kv => kv.2 <> p) locks.
(** The end of a transaction: the committed rows and its answer. *)
Definition end_create (p : nat) (x : CreateTx) (r : error) (db : Store) (w : LimitWorld) : LimitWorld :=
  mkLimitWorld db (lw_users w) (unlock p (lw_locks w)) (<[p := (x, CDone r)]> (lw_txs w)).

(** The next statement of transaction [p]; [None] while it waits for a lock or is over.
    Without a limit it starts with the insert; a lock of no user row locks nothing. *)
Definition ct_step (now : time) (p : nat) (w : LimitWorld) : option LimitWorld :=
  match lw_txs w !! p with
  | Some (x, CBegun) =>
      If (lm_max (ct_limit x) <=? 0)%Z Return Some (lw_phase p x CChecked w) ;;
      If negb (bool_decide (ct_owner x ∈ lw_users w)) Return Some (lw_phase p x CLocked w) ;;
      If user_free (ct_owner x) p w Return Some (lw_phase p x CLocked (lock_user (ct_owner x) p w)) ;;
      None
  | Some (x, CLocked) =>
      let l := ct_limit x in
      match limit_error l (limit_count (lm_clusterID l) (ct_owner x) (lm_isDefault l) (lw_db w)) with
      | Some e => Some (end_create p x (Some e) (lw_db w) w)
      | None => Some (lw_phase p x CChecked w)
      end
  | Some (x, CChecked) =>
      match (exec now (InsertInstance (ct_row x)) (lw_db w)).1 with
      | Err e => Some (end_create p x (Some (EDB "create" e)) (lw_db w) w)
      | Ok _ => Some (lw_phase p x CInserted w)
      end
  | Some (x, CInserted) =>
      let r := exec now (InsertInstance (ct_row x)) (lw_db w) in
      match r.1 with
      | Err e => Some (end_create p x (Some (EDB "create" e)) (lw_db w) w)
      | Ok _ => Some (end_create p x None r.2 w)
      end
  | Some (_, CDone _) | None => None
  end.

Section races.
Context (C o : string) (U : bool) (mx : Z).

(** A statement of another part of the program that adds no counted row of the owner. *)
Definition no_new_row (op : dbop) : Prop := forall t s, keyed s ->
  (limit_count C o U (exec t op s).2 <= limit_count C o U s)%Z.

(** What happens: a request begins with the limit of the cluster, a transaction makes a
    step, loses the answer to its commit, or ends without an effect (an error, a
    cancelled request, a lost connection), another statement runs. *)
Inductive lw_step (w : LimitWorld) : LimitWorld -> Prop :=
| lw_begin p x : lw_txs w !! p = None -> right_limit C o U mx (ct_row x) (ct_limit x) -> lw_step w (lw_phase p x CBegun w)
| lw_tx now p w' : ct_step now p w = Some w' -> lw_step w w'
| lw_lost now p x r e w' : ct_step now p w = Some w' -> lw_txs w' !! p = Some (x, CDone r) ->
    lw_step w (lw_phase p x (CDone (Some e)) w')
| lw_abort p x ph e : lw_txs w !! p = Some (x, ph) -> (forall r, ph <> CDone r) ->
    lw_step w (end_create p x (Some e) (lw_db w) w)
| lw_other t op : no_new_row op ->
    lw_step w (mkLimitWorld (exec t op (lw_db w)).2 (lw_users w) (lw_locks w) (lw_txs w)).

(** The owner has a user row, the rows are within the limit, no transaction is open. *)
Definition lw_start (w : LimitWorld) : Prop :=
  lw_txs w = ∅ /\ keyed (lw_db w) /\ o ∈ lw_users w /\ within_limit C o U mx (lw_db w).

(** ** The invariant *)

Definition counts (x : CreateTx) : Prop := counted C o U (ct_row x) = true.

(** A transaction after its lock holds it; after its check there is room for its row. *)
Definition ct_ok (w : LimitWorld) (p : nat) (x : CreateTx * CreatePhase) : Prop :=
  right_limit C o U mx (ct_row x.1) (ct_limit x.1) /\
  (counts x.1 -> match x.2 with
    | CLocked => lw_locks w !! o = Some p
    | CChecked | CInserted => lw_locks w !! o = Some p /\ (limit_count C o U (lw_db w) < mx)%Z
    | CBegun | CDone _ => True
    end).
Definition lw_inv (w : LimitWorld) : Prop :=
  keyed (lw_db w) /\ o ∈ lw_users w /\ within_limit C o U mx (lw_db w) /\
  forall p x, lw_txs w !! p = Some x -> ct_ok w p x.

Lemma counts_owner x : counts x -> ct_owner x = o.
Proof. unfold counts, counted. rewrite andb_true_iff, bool_decide_eq_true. by intros [? _]. Qed.

Lemma unlock_other p q locks k : locks !! k = Some q -> q <> p -> unlock p locks !! k = Some q.
Proof. intros Hk Hn. by apply map_lookup_filter_Some. Qed.

(** The end of [p]: its row, when it counts, had the lock, so no other transaction is
    between its check and its commit. *)
Lemma end_inv w p x r db : lw_inv w -> (exists ph, lw_txs w !! p = Some (x, ph)) -> keyed db -> within_limit C o U mx db ->
  ((limit_count C o U db <= limit_count C o U (lw_db w))%Z \/ lw_locks w !! o = Some p) ->
  lw_inv (end_create p x r db w).
Proof.
  intros (Hk & Hu & Hw & Ht) (ph & Hp) Hkd Hwd Hc. split_and!; try done. intros q y. cbn.
  rewrite lookup_insert_Some. intros [[<- <-]|[Hne Hq]]; [split; [apply (Ht _ _ Hp)|done]|].
  destruct (Ht _ _ Hq) as [Hl Hy]. split; [done|]. intros Hcy. specialize (Hy Hcy). cbn [lw_locks lw_db end_create].
  destruct y.2; try done; [by apply unlock_other|..]; destruct Hy as [Hlo Hlt]; (split; [by apply unlock_other|]);
    (destruct Hc as [Hc|Hc]; [lia|congruence]).
Qed.

(** A step of [p] that changes its phase only. *)
Lemma phase_inv w p x ph : lw_inv w -> ct_ok w p (x, ph) -> lw_inv (lw_phase p x ph w).
Proof.
  intros (Hk & Hu & Hw & Ht) Hp. split_and!; try done. intros q y. cbn. rewrite lookup_insert_Some.
  intros [[<- <-]|[_ Hq]]; [exact Hp|by apply Ht].
Qed.

Lemma lock_inv w p x : lw_inv w -> lw_txs w !! p = Some (x, CBegun) -> user_free (ct_owner x) p w = true ->
  lw_inv (lw_phase p x CLocked (lock_user (ct_owner x) p w)).
Proof.
  intros (Hk & Hu & Hw & Ht) Hp Hf. assert (Ho : forall q, lw_locks w !! o = Some q -> q <> p -> ct_owner x <> o).
  { intros q Hq Hne E. unfold user_free in Hf. rewrite E, Hq in Hf. by apply bool_decide_eq_true in Hf. }
  assert (Hl : forall q, lw_locks w !! o = Some q -> <[ct_owner x := p]> (lw_locks w) !! o = Some q).
  { intros q Hq. destruct (decide (q = p)) as [->|Hne]; [|by rewrite lookup_insert_ne; [|by eapply Ho]].
    destruct (decide (ct_owner x = o)) as [->|]; [by rewrite lookup_insert_eq|by rewrite lookup_insert_ne]. }
  split_and!; try done. intros q y. cbn. rewrite lookup_insert_Some. intros [[<- <-]|[_ Hq]].
  - split; [apply (Ht _ _ Hp)|]. intros Hc%counts_owner. cbn in Hc |- *. by rewrite Hc, lookup_insert_eq.
  - destruct (Ht _ _ Hq) as [Hr Hy]. split; [done|]. intros Hc. specialize (Hy Hc). cbn [lw_locks lw_db lw_phase lock_user].
    destruct y.2; try done; [by apply Hl|..]; (destruct Hy; split; [by apply Hl|done]).
Qed.

Lemma ct_step_inv now p w w' : (0 < mx)%Z -> lw_inv w -> ct_step now p w = Some w' -> lw_inv w'.
Proof.
  intros Hm Hi. pose proof Hi as (Hk & Hu & Hw & Ht). unfold ct_step.
  destruct (lw_txs w !! p) as [[x []]|] eqn:Hp; try done; destruct (Ht _ _ Hp) as [Hr Hx]; cbn [fst snd] in *.
  - destruct (lm_max (ct_limit x) <=? 0)%Z eqn:E0.
    { intros [= <-]. apply phase_inv; [done|]. split; [done|]. intros Hc. specialize (Hr Hc). rewrite Hr in E0. cbn in E0. lia. }
    case_bool_decide as Ho; cbn [negb].
    + destruct (user_free _ _ _) eqn:Ef; [|done]. intros [= <-]. by apply lock_inv.
    + intros [= <-]. apply phase_inv; [done|]. split; [done|]. intros Hc%counts_owner. cbn in Hc. by rewrite Hc in Ho.
  - destruct (limit_error _ _) as [e|] eqn:El; intros [= <-].
    + apply end_inv; eauto. left. lia.
    + apply phase_inv; [done|]. split; [done|]. intros Hc. split; [by apply Hx|]. specialize (Hr Hc). cbn in Hr.
      rewrite Hr, (counts_owner x Hc) in El. unfold limit_error in El. cbn in El. destruct (mx <=? _)%Z eqn:E; [done|]. lia.
  - destruct ((exec now _ _).1) as [n|e]; intros [= <-]; [by apply phase_inv|apply end_inv; eauto; left; lia].
  - assert (Hin : within_limit C o U mx (exec now (InsertInstance (ct_row x)) (lw_db w)).2).
    { apply insert_within; [done|done|]. intros Hc. by apply Hx. }
    assert (Hkd := exec_keyed now (InsertInstance (ct_row x)) _ Hk).
    destruct ((exec now _ _).1) as [n|e] eqn:Ee; intros [= <-]; [|apply end_inv; eauto; left; lia].
    apply end_inv; eauto. destruct (counted C o U (ct_row x)) eqn:Ec; [right; by apply Hx|left].
    cbn in Ee |- *. destruct (st_instances (lw_db w) !! si_ID (ct_row x)) eqn:En; [done|]. cbn.
    rewrite limit_count_insert by done. rewrite Ec. lia.
Qed.

Lemma lw_step_inv w w' : (0 < mx)%Z -> lw_inv w -> lw_step w w' -> lw_inv w'.
Proof.
  intros Hm Hi [p x Hp Hr|now p w1 Hs|now p x r e w1 Hs Hp|p x ph e Hp Hn|t op Hn].
  - by apply phase_inv.
  - by eapply ct_step_inv.
  - apply phase_inv; [by eapply ct_step_inv|]. assert (H1 : lw_inv w1) by (by eapply ct_step_inv).
    split; [apply H1 in Hp; apply Hp|done].
  - pose proof Hi as (Hk & _ & Hw & _). apply end_inv; eauto. left. lia.
  - destruct Hi as (Hk & Hu & Hw & Ht). specialize (Hn t (lw_db w) Hk).
    split_and!; [by apply exec_keyed|done|unfold within_limit in *; cbn; lia|]. intros p x Hp.
    destruct (Ht p x Hp) as [Hr Hx]. split; [done|]. intros Hc. specialize (Hx Hc). cbn.
    destruct x.2; try done; (destruct Hx; split; [done|lia]).
Qed.

Lemma lw_steps_inv w w' : (0 < mx)%Z -> lw_inv w -> rtc lw_step w w' -> lw_inv w'.
Proof. intros Hm Hi. induction 1 as [|w w1 w2 Hs _ IH]; [done|]. apply IH. by eapply lw_step_inv. Qed.
Lemma lw_start_inv w : lw_start w -> lw_inv w.
Proof. intros (Ht & Hk & Hu & Hw). split_and!; try done. intros p x. by rewrite Ht. Qed.
End races.

(** C6. The limit of a user on a cluster holds under races.  Any number of creates and
    clones of a user run at the same time, on any replicas; each begins with the limit
    [mx] of the cluster [C] (counting the rows without a cluster when it is the default
    one), makes its statements in any interleaving, and may be refused, aborted at any
    point, or lose the answer to its commit.  Statements of the rest of the program that
    add no row of that user run in between.  The user row exists, so its lock makes a
    second transaction wait until the first one is over.  Then the rows of the user on
    the cluster never exceed the limit, and a create that passed its check still has
    room when it commits. *)
Theorem user_limit_kept C o U mx w w' :
  (0 < mx)%Z -> lw_start C o U mx w -> rtc (lw_step C o U mx) w w' ->
  (limit_count C o U (lw_db w') <= mx)%Z /\
  forall p x, lw_txs w' !! p = Some (x, CChecked) \/ lw_txs w' !! p = Some (x, CInserted) ->
    counted C o U (ct_row x) = true -> (limit_count C o U (lw_db w') < mx)%Z.
Proof.
  intros Hm Hw Hs. destruct (lw_steps_inv C o U mx w w' Hm (lw_start_inv _ _ _ _ _ Hw) Hs) as (_ & _ & Hl & Ht).
  split; [exact Hl|]. intros p x [Hp|Hp] Hc; by apply (Ht _ _ Hp).
Qed.

(** ** A transaction alone

    Without other steps the transaction of this file is the one of [create_row]. *)

Fixpoint ct_run (fuel p : nat) (w : LimitWorld) : LimitWorld :=
  match fuel with
  | O => w
  | S fuel => match ct_step 0 p w with Some w' => ct_run fuel p w' | None => w end
  end.
Definition alone (s : Store) (x : CreateTx) : LimitWorld :=
  mkLimitWorld s {[ct_owner x]} ∅ {[0%nat := (x, CBegun)]}.

Lemma hoare_RunInTx_any s (body : M error) (Q : error -> Store -> Prop) :
  hoare s body (fun r s' => match r with None => Q None s' | Some _ => forall e, Q (Some e) s end) ->
  hoare s (RunInTx body) Q.
Proof.
  intros Hb. unfold RunInTx, transaction. eapply (hoare_bind _ _ _ (fun r s' => match r with None => Q None s' | Some _ => forall e, Q (Some e) s' end)).
  - eapply hoare_bind; [apply (hoare_transaction_with _ _ _ (fun r s' => match r.1 with None => Q None s' | Some _ => forall e, Q (Some e) s' end))|].
    + eapply hoare_bind; [exact Hb|]. intros [e|] s' Hr; apply hoare_ret; exact Hr.
    + intros r s' Hr. apply hoare_ret. exact Hr.
  - intros r s' Hr. eapply hoare_bind; [apply hoare_ctxErr|]. intros c ? ->. apply hoare_ret.
    destruct r as [e|]; [|exact Hr]. destruct (withContextErr_Some c "transaction" e) as [e' ->]. apply Hr.
Qed.

Lemma hoare_count s C o U : hoare s (CountForInstanceLimit C o U) (fun r s' => s' = s /\ r = Ok (limit_count C o U s)).
Proof.
  unfold CountForInstanceLimit. eapply hoare_bind; [apply hoare_query|]. intros ? ? [-> [t ->]].
  eapply hoare_bind; [apply hoare_query|]. intros ? ? [-> [t' ->]]. by apply hoare_ret.
Qed.

Lemma alone_run l i s now : (lm_max l <=? 0)%Z = false ->
  let x := mkCreateTx l (si_set_UpdatedAt now i) in
  let w := ct_run 4 0 (alone s x) in
  match limit_error l (limit_count (lm_clusterID l) (si_OwnerID i) (lm_isDefault l) s) with
  | Some e => lw_db w = s /\ lw_txs w !! 0%nat = Some (x, CDone (Some e))
  | None => match exec 0 (InsertInstance (si_set_UpdatedAt now i)) s with
            | (Err e, _) => lw_db w = s /\ lw_txs w !! 0%nat = Some (x, CDone (Some (EDB "create" e)))
            | (Ok _, s') => lw_db w = s' /\ lw_txs w !! 0%nat = Some (x, CDone None)
            end
  end.
Proof.
  intros E0 x. set (w0 := lw_phase 0 x CLocked (lock_user (ct_owner x) 0 (alone s x))).
  assert (S1 : ct_step 0 0 (alone s x) = Some w0).
  { unfold ct_step. cbn [alone lw_txs]. rewrite lookup_singleton_eq. change (ct_limit x) with l. rewrite E0.
    rewrite bool_decide_true by (cbn; set_solver). done. }
  assert (S2 : ct_step 0 0 w0 = match limit_error l (limit_count (lm_clusterID l) (si_OwnerID i) (lm_isDefault l) s) with
    | Some e => Some (end_create 0 x (Some e) s w0) | None => Some (lw_phase 0 x CChecked w0) end).
  { unfold ct_step. unfold w0 at 1. cbn [lw_phase lw_txs]. by rewrite lookup_insert_eq. }
  assert (S3 : ct_step 0 0 (lw_phase 0 x CChecked w0) = match (exec 0 (InsertInstance (ct_row x)) s).1 with
    | Err e => Some (end_create 0 x (Some (EDB "create" e)) s (lw_phase 0 x CChecked w0))
    | Ok _ => Some (lw_phase 0 x CInserted (lw_phase 0 x CChecked w0)) end).
  { unfold ct_step. cbn [lw_phase lw_txs]. by rewrite lookup_insert_eq. }
  assert (S4 : ct_step 0 0 (lw_phase 0 x CInserted (lw_phase 0 x CChecked w0)) =
    let r := exec 0 (InsertInstance (ct_row x)) s in match r.1 with
    | Err e => Some (end_create 0 x (Some (EDB "create" e)) s (lw_phase 0 x CInserted (lw_phase 0 x CChecked w0)))
    | Ok _ => Some (end_create 0 x None r.2 (lw_phase 0 x CInserted (lw_phase 0 x CChecked w0))) end).
  { unfold ct_step. cbn [lw_phase lw_txs]. by rewrite lookup_insert_eq. }
  assert (Hend : forall r db w, ct_step 0 0 (end_create 0 x r db w) = None).
  { intros. unfold ct_step. cbn [end_create lw_txs]. by rewrite lookup_insert_eq. }
  cbn [ct_run]. rewrite S1, S2. change (si_set_UpdatedAt now i) with (ct_row x).
  destruct (limit_error _ _) as [e|]; [rewrite Hend; split; [done|apply lookup_insert_eq]|]. rewrite S3. cbv zeta in S4.
  destruct (exec 0 (InsertInstance (ct_row x)) s) as [[n|e] s']; cbn [fst snd] in *.
  - rewrite S4. split; [done|apply lookup_insert_eq].
  - rewrite Hend. split; [done|apply lookup_insert_eq].
Qed.

(** The create of a handler, when nobody interferes and no statement fails, leaves the
    rows that its transaction leaves here, and is refused exactly when that is. *)
Lemma create_row_alone h l i s : h_txRunner h = true -> (0 < lm_max l)%Z ->
  hoare s (create_row h l i) (fun e s' => exists now,
    let w := ct_run 4 0 (alone s (mkCreateTx l (si_set_UpdatedAt now i))) in
    lw_db w = s' /\ exists r, lw_txs w !! 0%nat = Some (mkCreateTx l (si_set_UpdatedAt now i), CDone r) /\
      (r = None <-> e = None)).
Proof.
  intros Ht Hl. unfold create_row. rewrite Ht, (proj2 (Z.ltb_lt _ _) Hl). cbn [andb].
  assert (E0 : (lm_max l <=? 0)%Z = false) by (apply Z.leb_gt; lia). apply hoare_RunInTx_any.
  unfold checkInstanceLimit. rewrite E0. eapply hoare_bind; [eapply hoare_bind; [apply hoare_count|]|].
  { intros r s' [-> ->]. apply (hoare_ret _ _ (fun e s' => s' = s /\
      e = limit_error l (limit_count (lm_clusterID l) (si_OwnerID i) (lm_isDefault l) s))). done. }
  intros e s' [-> ->]. pose proof (fun now => alone_run l i s now E0) as Hrun. cbv zeta in Hrun |- *.
  destruct (limit_error _ _) as [e|] eqn:El.
  - apply hoare_ret. intros e'. exists 0%Z. destruct (Hrun 0%Z) as [Hd Hx]. split; [exact Hd|]. by exists (Some e).
  - unfold instance_Create. eapply hoare_bind; [apply hoare_clock|]. intros now ? ->.
    eapply hoare_bind; [apply hoare_db|]. intros r s' [t Ht']. apply hoare_ret.
    assert (Ex : exec 0 (InsertInstance (si_set_UpdatedAt now i)) s = (r, s')) by exact Ht'.
    specialize (Hrun now). rewrite Ex in Hrun. destruct r as [n|e], Hrun as [Hd Hx].
    + exists now. split; [exact Hd|]. by exists None.
    + intros e'. exists now. split; [exact Hd|]. by exists (Some (EDB "create" e)).
Qed.

(** ** Sample runs *)

Definition race_row (id : string) : StackInstance := new_instance id "d1" "shop" "stack-shop-bob" "u-bob" "main" "c1" 0 None 0.
Definition race_tx (id : string) : CreateTx := mkCreateTx (mkLimit "c1" 1 true) (race_row id).
Definition race_start : LimitWorld := mkLimitWorld (mkStore ∅ ∅ ∅) {["u-bob"]} ∅ ∅.
Definition race_begun : LimitWorld := lw_phase 1 (race_tx "i2") CBegun (lw_phase 0 (race_tx "i1") CBegun race_start).
Fixpoint ct_schedule (l : list nat) (w : LimitWorld) : option LimitWorld :=
  match l with
  | [] => Some w
  | p :: l' => match ct_step 0 p w with Some w' => ct_schedule l' w' | None => None end
  end.

(** The limit is 1: the second create waits for the lock of the first one, counts its
    row and is refused. *)
Example race_has_one_winner :
  ct_schedule [0; 1] race_begun = None /\
  (w ← ct_schedule [0; 0; 0; 0; 1; 1] race_begun; Some (size (st_instances (lw_db w)), snd <$> lw_txs w !! 0%nat, snd <$> lw_txs w !! 1%nat)) =
    Some (1%nat, Some (CDone None), Some (CDone (limit_error (mkLimit "c1" 1 true) 1))).
Proof. split; vm_compute; reflexivity. Qed.

Lemma schedule_lw C o U mx l : forall w w', ct_schedule l w = Some w' -> rtc (lw_step C o U mx) w w'.
Proof.
  induction l as [|p l IH]; intros w w'; cbn; [by intros [= <-]|]. destruct (ct_step 0 p w) as [w1|] eqn:E; [|done].
  intros Hl. eapply rtc_l; [by eapply (lw_tx _ _ _ _ _ 0 p)|by apply IH].
Qed.
Lemma race_reached w' : ct_schedule [0; 0; 0; 0; 1; 1] race_begun = Some w' -> rtc (lw_step "c1" "u-bob" true 1) race_start w'.
Proof.
  intros H. apply (rtc_l _ _ (lw_phase 0 (race_tx "i1") CBegun race_start)).
  { apply lw_begin; [reflexivity|intros _; reflexivity]. }
  apply (rtc_l _ _ race_begun); [apply lw_begin; [vm_compute; reflexivity|intros _; reflexivity]|].
  exact (schedule_lw _ _ _ _ _ _ _ H).
Qed.

Lemma user_limit_kept_witness :
  match ct_schedule [0; 0; 0; 0; 1; 1] race_begun with
  | Some w => (limit_count "c1" "u-bob" true (lw_db w) <= 1)%Z
  | None => False
  end.
Proof.
  destruct (ct_schedule [0; 0; 0; 0; 1; 1] race_begun) as [w|] eqn:E; [|vm_compute in E; discriminate].
  apply (user_limit_kept "c1" "u-bob" true 1 race_start w).
  - reflexivity.
  - split_and!; [done|by split|cbn; set_solver|vm_compute; discriminate].
  - apply race_reached, E.
Defined.
