(* ===== verification/Hub.v ===== *)
(** * The WebSocket hub

    [backend/internal/websocket]: the hub of the open sockets ([hub.go]), the pumps of a
    client ([client.go]), the revocable connections ([revocable.go]) and the
    revalidation ([revalidate.go]), as a state machine of goroutines.

    The objects of the heap are named by positive numbers: a client with its send channel
    (a bounded queue that can be closed) and its socket, and a revocable connection.  A
    region under the write lock is one step and needs that no goroutine holds the read
    lock; a send region holds the read lock and makes one step for each client.  The order
    in which a map is ranged over while sending is chosen by the step.  A send on a closed
    channel and the close of a closed channel are the panics of the Go runtime: they set
    [hb_panic].  Times count from Go's zero time.  The goroutine [1] is [Hub.Run].  Metrics and logs are left out. *)

From S2P Require Import Prelude Models Store Sessions.
Local Open Scope string_scope.
Local Open Scope list_scope.

Abbreviation ref := positive.

Definition broadcastBufferSize : nat := 256.
Definition sendBufferSize : nat := 256.
Definition closeReasonRevoked : string := "session revoked".
Definition closeReasonExpired : string := "token expired".
Definition closeReasonAPIKeyExpired : string := "api key expired".
Definition CloseCodeGoingAway : Z := 1001.
Definition CloseCodePolicyViolation : Z := 1008.
Definition CloseReasonAccessLost : string := "access revoked".
Definition CloseReasonShutdown : string := "server shutdown".

(** ** Data *)

Record ClientIdentity := mkClientIdentity {
  id_ExpiresAt : time;
  id_IssuedAt : time;
  id_UserID : string;
  id_TokenID : string;
  id_SessionID : string;
  id_APIKeyID : string
}.
#[global] Instance ClientIdentity_eq_dec : EqDecision ClientIdentity.
Proof. solve_decision. Defined.

(** A frame on the wire; the close frame with its reason. *)
Inductive Frame := TextFrame (m : string) | CloseFrame (reason : string).

Record Client := mkClient {
  cl_identity : ClientIdentity;
  cl_send : list string;
  cl_closed : bool;
  cl_closeReason : string;
  cl_pumping : bool;
  cl_frames : list Frame
}.
Record Revocable := mkRevocable {
  rv_Identity : ClientIdentity;
  rv_InstanceID : string;
  rv_Kind : string;
  rv_revoked : list (Z * string)
}.

(** What a goroutine that called the hub has still to do: the send region under the read
    lock, the removal of the slow clients, the [Revoke] calls outside of the lock, and a
    revalidation that waits for its checker. *)
Inductive Task :=
| Sending (todo : list ref) (message : string) (slow : list ref)
| Dropping (slow : list ref)
| Revoking (rs : list ref) (code : Z) (reason : string)
| Checking (identities : list ClientIdentity)
| CheckingAccess (rs : list ref).

Record Hub := mkHub {
  hb_clients : gset ref;
  hb_instanceSubs : gmap string (gset ref);
  hb_broadcast : list string;
  hb_done : bool;
  hb_revocables : gset ref;
  hb_heap : gmap ref Client;
  hb_conns : gmap ref Revocable;
  hb_tasks : gmap ref Task;
  hb_returned : bool;
  hb_panic : bool
}.
Definition NewHub : Hub := mkHub ∅ ∅ [] false ∅ ∅ ∅ ∅ false false.

Definition set_clients v h := mkHub v (hb_instanceSubs h) (hb_broadcast h) (hb_done h) (hb_revocables h) (hb_heap h)
  (hb_conns h) (hb_tasks h) (hb_returned h) (hb_panic h).
Definition set_subs v h := mkHub (hb_clients h) v (hb_broadcast h) (hb_done h) (hb_revocables h) (hb_heap h)
  (hb_conns h) (hb_tasks h) (hb_returned h) (hb_panic h).
Definition set_broadcast v h := mkHub (hb_clients h) (hb_instanceSubs h) v (hb_done h) (hb_revocables h) (hb_heap h)
  (hb_conns h) (hb_tasks h) (hb_returned h) (hb_panic h).
Definition set_done h := mkHub (hb_clients h) (hb_instanceSubs h) (hb_broadcast h) true (hb_revocables h) (hb_heap h)
  (hb_conns h) (hb_tasks h) (hb_returned h) (hb_panic h).
Definition set_revocables v h := mkHub (hb_clients h) (hb_instanceSubs h) (hb_broadcast h) (hb_done h) v (hb_heap h)
  (hb_conns h) (hb_tasks h) (hb_returned h) (hb_panic h).
Definition set_heap v h := mkHub (hb_clients h) (hb_instanceSubs h) (hb_broadcast h) (hb_done h) (hb_revocables h) v
  (hb_conns h) (hb_tasks h) (hb_returned h) (hb_panic h).
Definition set_conns v h := mkHub (hb_clients h) (hb_instanceSubs h) (hb_broadcast h) (hb_done h) (hb_revocables h)
  (hb_heap h) v (hb_tasks h) (hb_returned h) (hb_panic h).
Definition set_tasks v h := mkHub (hb_clients h) (hb_instanceSubs h) (hb_broadcast h) (hb_done h) (hb_revocables h)
  (hb_heap h) (hb_conns h) v (hb_returned h) (hb_panic h).
Definition set_returned h := mkHub (hb_clients h) (hb_instanceSubs h) (hb_broadcast h) (hb_done h) (hb_revocables h)
  (hb_heap h) (hb_conns h) (hb_tasks h) true (hb_panic h).
Definition set_panic h := mkHub (hb_clients h) (hb_instanceSubs h) (hb_broadcast h) (hb_done h) (hb_revocables h)
  (hb_heap h) (hb_conns h) (hb_tasks h) (hb_returned h) true.

Definition cl_push (m : string) (c : Client) : Client :=
  mkClient (cl_identity c) (cl_send c ++ [m]) (cl_closed c) (cl_closeReason c) (cl_pumping c) (cl_frames c).
Definition cl_close (c : Client) : Client :=
  mkClient (cl_identity c) (cl_send c) true (cl_closeReason c) (cl_pumping c) (cl_frames c).
Definition cl_set_closeReason (v : string) (c : Client) : Client :=
  mkClient (cl_identity c) (cl_send c) (cl_closed c) v (cl_pumping c) (cl_frames c).
(** The pump takes a message from the channel and writes it, or not. *)
Definition cl_write (rest : list string) (f : list Frame) (pumping : bool) (c : Client) : Client :=
  mkClient (cl_identity c) rest (cl_closed c) (cl_closeReason c) pumping (f ++ cl_frames c).
Definition rv_revoke (code : Z) (reason : string) (r : Revocable) : Revocable :=
  mkRevocable (rv_Identity r) (rv_InstanceID r) (rv_Kind r) ((code, reason) :: rv_revoked r).

(** ** Channels *)

(** [select { case client.send <- message: ... default: ... }]; [false]: the buffer is
    full. *)
Definition try_send (c : ref) (message : string) (h : Hub) : bool * Hub :=
  match hb_heap h !! c with
  | None => (true, set_panic h)
  | Some cl =>
      If cl_closed cl Return (true, set_panic h) ;;
      If (length (cl_send cl) <? sendBufferSize)%nat Return (true, set_heap (<[c := cl_push message cl]> (hb_heap h)) h) ;;
      (false, h)
  end.
(** [close(c.send)]. *)
Definition close_send (c : ref) (h : Hub) : Hub :=
  match hb_heap h !! c with
  | None => set_panic h
  | Some cl => If cl_closed cl Return set_panic h ;; set_heap (<[c := cl_close cl]> (hb_heap h)) h
  end.

(** ** Operations under the lock *)

Definition drop_sub (c : ref) (subs : gset ref) : option (gset ref) :=
  let left := subs ∖ {[c]} in if decide (left = ∅) then None else Some left.
Definition removeClientSubs (c : ref) (h : Hub) : Hub := set_subs (omap (drop_sub c) (hb_instanceSubs h)) h.

Definition removeClientLocked (c : ref) (reason : string) (h : Hub) : Hub :=
  if decide (c ∈ hb_clients h) then
    let h1 := set_clients (hb_clients h ∖ {[c]}) h in
    let h2 := set_heap (alter (cl_set_closeReason reason) c (hb_heap h1)) h1 in
    removeClientSubs c (close_send c h2)
  else h.
Definition remove_all (cs : list ref) (reason : string) (h : Hub) : Hub :=
  foldl (fun h c => removeClientLocked c reason h) h cs.

(** Registered clients and connections that satisfy a test on their identity or object. *)
Definition matching_clients (test : ClientIdentity -> bool) (h : Hub) : list ref :=
  filter (fun c => match hb_heap h !! c with Some cl => test (cl_identity cl) | None => false end = true)
    (elements (hb_clients h)).
Definition matching_revocables (test : Revocable -> bool) (h : Hub) : list ref :=
  filter (fun r => match hb_conns h !! r with Some rv => test rv | None => false end = true)
    (elements (hb_revocables h)).

Definition takeRevocablesLocked (test : Revocable -> bool) (h : Hub) : list ref * Hub :=
  let taken := matching_revocables test h in
  (taken, set_revocables (hb_revocables h ∖ list_to_set taken) h).

(** The locked part of [disconnectIdentities] and of [revokeRevocables]: the number of
    closed connections and the connections to revoke. *)
Definition disconnectIdentities (test : ClientIdentity -> bool) (h : Hub) : nat * list ref * Hub :=
  let cs := matching_clients test h in
  let '(taken, h1) := takeRevocablesLocked (fun r => test (rv_Identity r)) (remove_all cs closeReasonRevoked h) in
  ((length cs + length taken)%nat, taken, h1).
Definition revokeRevocables (test : Revocable -> bool) (h : Hub) : nat * list ref * Hub :=
  let '(taken, h1) := takeRevocablesLocked test h in (length taken, taken, h1).

(** The tests of [DisconnectUser], of a user revocation from another replica, of
    [DisconnectToken] and of [DisconnectAPIKey]. *)
Inductive Target :=
| UserTarget (userID : string)
| UserIssuedBefore (userID : string) (t : time)
| TokenTarget (tokenID : string)
| APIKeyTarget (keyID : string).
Definition targets (m : Target) (id : ClientIdentity) : bool :=
  match m with
  | UserTarget u => bool_decide (id_UserID id = u)
  | UserIssuedBefore u t =>
      If negb (bool_decide (id_UserID id = u)) Return false ;;
      IsZero (id_IssuedAt id) || IsZero t || (UnixMilli (id_IssuedAt id) <=? UnixMilli t)%Z
  | TokenTarget j => bool_decide (id_TokenID id = j)
  | APIKeyTarget k => bool_decide (id_APIKeyID id = k)
  end.
Definition disconnectUserLocal u := disconnectIdentities (targets (UserTarget u)).
Definition disconnectUserIssuedBefore u t := disconnectIdentities (targets (UserIssuedBefore u t)).
Definition disconnectTokenLocal j := disconnectIdentities (targets (TokenTarget j)).
Definition disconnectAPIKeyLocal k := disconnectIdentities (targets (APIKeyTarget k)).

Definition DisconnectClient (c : ref) (h : Hub) : bool * Hub :=
  if decide (c ∈ hb_clients h) then (true, removeClientLocked c closeReasonRevoked h) else (false, h).

(** [true]: [ErrHubClosed]. *)
Definition Register (c : ref) (h : Hub) : bool * Hub :=
  If hb_done h Return (true, h) ;; (false, set_clients ({[c]} ∪ hb_clients h) h).
Definition RegisterRevocable (r : ref) (h : Hub) : bool * Hub :=
  If hb_done h Return (true, h) ;; (false, set_revocables ({[r]} ∪ hb_revocables h) h).

Definition Subscribe (c : ref) (instanceID : string) (h : Hub) : Hub :=
  if decide (c ∈ hb_clients h) then
    set_subs (<[instanceID := {[c]} ∪ default ∅ (hb_instanceSubs h !! instanceID)]> (hb_instanceSubs h)) h
  else h.
Definition Unsubscribe (c : ref) (instanceID : string) (h : Hub) : Hub :=
  match hb_instanceSubs h !! instanceID with
  | None => h
  | Some subs => set_subs (partial_alter (fun _ => drop_sub c subs) instanceID (hb_instanceSubs h)) h
  end.

Definition deliverAll (message : string) (h : Hub) : Hub :=
  if (length (hb_broadcast h) <? broadcastBufferSize)%nat then set_broadcast (hb_broadcast h ++ [message]) h else h.

(** The clients that [deliverInstance] and [deliverUser] send to. *)
Definition instance_receivers (instanceID : string) (h : Hub) : gset ref :=
  default ∅ (hb_instanceSubs h !! instanceID) ∩ hb_clients h.
Definition user_receivers (userID : string) (h : Hub) : gset ref :=
  list_to_set (matching_clients (targets (UserTarget userID)) h).

Definition closeAllClients (h : Hub) : list ref * Hub :=
  let '(taken, h1) := takeRevocablesLocked (fun _ => true) h in
  let h2 := foldl (fun h c => set_clients (hb_clients h ∖ {[c]}) (close_send c h)) h1 (elements (hb_clients h1)) in
  (taken, set_subs ∅ h2).

(** ** Revalidation *)

Definition identityKey : Type := string * string * string * Z.
(** Go's zero time is 62135596800 seconds before 1970. *)
Definition UnixNano (t : time) : Z := (t - 62135596800 * Second)%Z.
Definition keyOf (id : ClientIdentity) : identityKey :=
  (id_UserID id, id_TokenID id, id_APIKeyID id, if IsZero (id_IssuedAt id) then 0%Z else UnixNano (id_IssuedAt id)).
Definition no_credential (id : ClientIdentity) : bool :=
  bool_decide (id_UserID id = "" /\ id_TokenID id = "" /\ id_APIKeyID id = "").

(** The distinct identities, in the order of [ids]. *)
Fixpoint distinct_identities (seen : list identityKey) (ids : list ClientIdentity) : list ClientIdentity :=
  match ids with
  | [] => []
  | id :: ids' =>
      If no_credential id || bool_decide (keyOf id ∈ seen) Return distinct_identities seen ids' ;;
      id :: distinct_identities (keyOf id :: seen) ids'
  end.
Definition open_identities (h : Hub) : list ClientIdentity :=
  omap (fun c => cl_identity <$> hb_heap h !! c) (elements (hb_clients h)) ++
  omap (fun r => rv_Identity <$> hb_conns h !! r) (elements (hb_revocables h)).

(** The keys that the checker revoked; none for a result of the wrong size. *)
Definition revokedKeys (identities : list ClientIdentity) (revoked : list bool) : list identityKey :=
  If negb (length revoked =? length identities)%nat Return [] ;;
  omap (fun p : ClientIdentity * bool => if p.2 then Some (keyOf p.1) else None) (zip identities revoked).
Definition revalidateIdentities (identities : list ClientIdentity) (revoked : list bool) (h : Hub) :
    nat * list ref * Hub :=
  let keys := revokedKeys identities revoked in
  If bool_decide (keys = []) Return (0%nat, [], h) ;;
  disconnectIdentities (fun id => bool_decide (keyOf id ∈ keys)) h.

Definition losers (rs : list ref) (lost : list bool) : list ref :=
  If negb (length lost =? length rs)%nat Return [] ;;
  omap (fun p : ref * bool => if p.2 then Some p.1 else None) (zip rs lost).
(** [revokeRevocables] with the test "is a loser". *)
Definition revalidateAccess (rs : list ref) (lost : list bool) (h : Hub) : nat * list ref * Hub :=
  let taken := filter (fun r => r ∈ losers rs lost) (elements (hb_revocables h)) in
  (length taken, taken, set_revocables (hb_revocables h ∖ list_to_set taken) h).

(** ** Messages of the clients *)

(** The decoded message: its type, and the instance ID of its payload when that decodes. *)
Record InboundMsg := mkInbound { in_Type : string; in_InstanceID : option string }.
Definition handleInbound (c : ref) (msg : option InboundMsg) (h : Hub) : Hub :=
  match msg with
  | None => h
  | Some m =>
      let p := default "" (in_InstanceID m) in
      If (in_Type m =? "subscribe")%string Return (if (p =? "")%string then h else Subscribe c p h) ;;
      If (in_Type m =? "unsubscribe")%string Return (if (p =? "")%string then h else Unsubscribe c p h) ;;
      h
  end.

(** ** Steps *)

Inductive Action :=
| ANewClient (c : ref) (identity : ClientIdentity)
| AInbound (c : ref) (msg : option InboundMsg)
| AUnregister (c : ref)
| ADeliverAll (message : string)
| ARunBroadcast (order : list ref)
| ADeliverInstance (g : ref) (instanceID message : string) (order : list ref)
| ADeliverUser (g : ref) (userID message : string) (order : list ref)
| ASend (g : ref)
| AEndSend (g : ref)
| ADrop (g : ref)
| ADisconnect (g : ref) (m : Target)
| ADisconnectClient (c : ref)
| ARegisterRevocable (r : ref) (conn : Revocable)
| AUnregisterRevocable (r : ref)
| ADisconnectInstance (g : ref) (instanceID : string)
| ARevoke (g : ref)
| ARevalidate (g : ref)
| AIdentityAnswer (g : ref) (revoked : list bool)
| ARevalidateAccess (g : ref)
| AAccessAnswer (g : ref) (lost : list bool)
| AShutdown
| ACloseAll
| AReceive (c : ref) (write_fails : bool)
| AExpire (c : ref).

Definition holds_read_lock (t : Task) : bool := match t with Sending _ _ _ => true | _ => false end.
(** No goroutine holds the read lock. *)
Definition lockable (h : Hub) : bool :=
  bool_decide (Forall (fun p : ref * Task => holds_read_lock p.2 = false) (map_to_list (hb_tasks h))).
Definition run_goroutine : ref := 1%positive.
(** [g] is a goroutine that is in no call of the hub. *)
Definition free (g : ref) (h : Hub) : bool := bool_decide (hb_tasks h !! g = None).
Definition caller (g : ref) (h : Hub) : bool := negb (bool_decide (g = run_goroutine)) && free g h.
Definition run_idle (h : Hub) : bool := free run_goroutine h && negb (hb_returned h).

Definition set_task (g : ref) (t : Task) (h : Hub) : Hub := set_tasks (<[g := t]> (hb_tasks h)) h.
Definition end_task (g : ref) (h : Hub) : Hub := set_tasks (delete g (hb_tasks h)) h.
Definition only_if (b : bool) (h : Hub) : option Hub := if b then Some h else None.
(** [order] lists the set once. *)
Definition ranges (order : list ref) (s : gset ref) : bool := bool_decide (NoDup order /\ list_to_set order = s).

(** The goroutine goes on with the [Revoke] calls. *)
Definition then_revoke (g : ref) (code : Z) (reason : string) (r : nat * list ref * Hub) : Hub :=
  set_task g (Revoking r.1.2 code reason) r.2.

Definition pump (c : ref) (write_fails : bool) (h : Hub) : option Hub :=
  match hb_heap h !! c with
  | None => None
  | Some cl =>
      If negb (cl_pumping cl) Return None ;;
      match cl_send cl with
      | m :: rest =>
          Some (set_heap (<[c := if write_fails then cl_write rest [] false cl
                                 else cl_write rest [TextFrame m] true cl]> (hb_heap h)) h)
      | [] =>
          If negb (cl_closed cl) Return None ;;
          Some (set_heap (<[c := cl_write [] [CloseFrame (cl_closeReason cl)] false cl]> (hb_heap h)) h)
      end
  end.
Definition expire (c : ref) (h : Hub) : option Hub :=
  match hb_heap h !! c with
  | None => None
  | Some cl =>
      If negb (cl_pumping cl) || IsZero (id_ExpiresAt (cl_identity cl)) Return None ;;
      let reason := if (id_APIKeyID (cl_identity cl) =? "")%string then closeReasonExpired
                    else closeReasonAPIKeyExpired in
      Some (set_heap (<[c := cl_write (cl_send cl) [CloseFrame reason] false cl]> (hb_heap h)) h)
  end.

Definition hub_step (a : Action) (h : Hub) : option Hub :=
  match a with
  | ANewClient c identity =>
      If negb (lockable h && bool_decide (hb_heap h !! c = None)) Return None ;;
      let '(closed, h1) := Register c h in
      If closed Return Some h ;;
      Some (set_heap (<[c := mkClient identity [] false "" true []]> (hb_heap h1)) h1)
  | AInbound c msg =>
      only_if (lockable h && bool_decide (is_Some (hb_heap h !! c))) (handleInbound c msg h)
  | AUnregister c => only_if (lockable h && run_idle h) (removeClientLocked c "" h)
  | ADeliverAll message => Some (deliverAll message h)
  | ARunBroadcast order =>
      match hb_broadcast h with
      | [] => None
      | message :: rest =>
          only_if (run_idle h && ranges order (hb_clients h))
            (set_task run_goroutine (Sending order message []) (set_broadcast rest h))
      end
  | ADeliverInstance g instanceID message order =>
      only_if (caller g h && ranges order (instance_receivers instanceID h)) (set_task g (Sending order message []) h)
  | ADeliverUser g userID message order =>
      only_if (caller g h && ranges order (user_receivers userID h)) (set_task g (Sending order message []) h)
  | ASend g =>
      match hb_tasks h !! g with
      | Some (Sending (c :: todo) message slow) =>
          let '(sent, h1) := try_send c message h in
          Some (set_task g (Sending todo message (if sent then slow else slow ++ [c])) h1)
      | _ => None
      end
  | AEndSend g =>
      match hb_tasks h !! g with
      | Some (Sending [] _ slow) => Some (set_task g (Dropping slow) h)
      | _ => None
      end
  | ADrop g =>
      match hb_tasks h !! g with
      | Some (Dropping slow) =>
          If bool_decide (slow = []) Return Some (end_task g h) ;;
          only_if (lockable h) (end_task g (remove_all slow "" h))
      | _ => None
      end
  | ADisconnect g m =>
      only_if (caller g h && lockable h)
        (then_revoke g CloseCodePolicyViolation closeReasonRevoked (disconnectIdentities (targets m) h))
  | ADisconnectClient c => only_if (lockable h) (DisconnectClient c h).2
  | ARegisterRevocable r conn =>
      If negb (lockable h && bool_decide (hb_conns h !! r = None)) Return None ;;
      let '(closed, h1) := RegisterRevocable r h in
      If closed Return Some h ;;
      Some (set_conns (<[r := mkRevocable (rv_Identity conn) (rv_InstanceID conn) (rv_Kind conn) []]> (hb_conns h1)) h1)
  | AUnregisterRevocable r => only_if (lockable h) (set_revocables (hb_revocables h ∖ {[r]}) h)
  | ADisconnectInstance g instanceID =>
      only_if (caller g h && lockable h && negb (instanceID =? "")%string)
        (then_revoke g CloseCodePolicyViolation CloseReasonAccessLost
           (revokeRevocables (fun r => bool_decide (rv_InstanceID r = instanceID)) h))
  | ARevoke g =>
      match hb_tasks h !! g with
      | Some (Revoking (r :: rs) code reason) =>
          Some (set_task g (Revoking rs code reason) (set_conns (alter (rv_revoke code reason) r (hb_conns h)) h))
      | Some (Revoking [] _ _) => Some (end_task g h)
      | _ => None
      end
  | ARevalidate g =>
      only_if (caller g h) (set_task g (Checking (distinct_identities [] (open_identities h))) h)
  | AIdentityAnswer g revoked =>
      match hb_tasks h !! g with
      | Some (Checking identities) =>
          only_if (lockable h)
            (then_revoke g CloseCodePolicyViolation closeReasonRevoked (revalidateIdentities identities revoked h))
      | _ => None
      end
  | ARevalidateAccess g =>
      only_if (caller g h) (set_task g (CheckingAccess (elements (hb_revocables h))) h)
  | AAccessAnswer g lost =>
      match hb_tasks h !! g with
      | Some (CheckingAccess rs) =>
          only_if (lockable h)
            (then_revoke g CloseCodePolicyViolation CloseReasonAccessLost (revalidateAccess rs lost h))
      | _ => None
      end
  | AShutdown => Some (set_done h)
  | ACloseAll =>
      If negb (hb_done h && run_idle h && lockable h) Return None ;;
      let '(taken, h1) := closeAllClients h in
      Some (set_task run_goroutine (Revoking taken CloseCodeGoingAway CloseReasonShutdown) (set_returned h1))
  | AReceive c write_fails => pump c write_fails h
  | AExpire c => expire c h
  end.

(** The steps of a run; [None]: a step was not enabled. *)
Fixpoint hub_run (actions : list Action) (h : Hub) : option Hub :=
  match actions with
  | [] => Some h
  | a :: actions' => match hub_step a h with Some h1 => hub_run actions' h1 | None => None end
  end.
