(* ===== verification/HubRules.v ===== *)
(** * The hub never panics, and a revocation is final

    The invariant of the hub ([hub_inv]) under every interleaving of its goroutines: the
    registered clients are the ones with an open channel, only they have subscriptions, a
    send region works on registered clients, and a connection is in one place: registered,
    waiting for its [Revoke] call, or revoked.  From it: no send on a closed channel and
    no double close, no message after a revocation, at most one [Revoke] for a
    connection, and nothing left after the shutdown. *)

From S2P Require Import Prelude Models Store Sessions Hub.
Local Open Scope string_scope.
Local Open Scope list_scope.

Definition open_client (h : Hub) (c : ref) : Prop := exists cl, hb_heap h !! c = Some cl /\ cl_closed cl = false.
Definition unrevoked (h : Hub) (r : ref) : Prop := exists rv, hb_conns h !! r = Some rv /\ rv_revoked rv = [].
(** The connections that a goroutine will revoke. *)
Definition to_revoke (t : Task) : list ref := match t with Revoking rs _ _ => rs | _ => [] end.

Definition task_ok (h : Hub) (t : Task) : Prop :=
  match t with
  | Sending todo _ slow => Forall (fun c => c ∈ hb_clients h) todo
  | Revoking rs _ _ => NoDup rs /\ Forall (fun r => unrevoked h r /\ r ∉ hb_revocables h) rs
  | _ => True
  end.

Record hub_inv (h : Hub) : Prop := mkHubInv {
  hi_no_panic : hb_panic h = false;
  hi_clients : forall c, c ∈ hb_clients h <-> open_client h c;
  hi_buffer : forall c cl, hb_heap h !! c = Some cl -> (length (cl_send cl) <= sendBufferSize)%nat;
  hi_subs : forall i s, hb_instanceSubs h !! i = Some s -> s <> ∅ /\ s ⊆ hb_clients h;
  hi_broadcast : (length (hb_broadcast h) <= broadcastBufferSize)%nat;
  hi_revocables : forall r, r ∈ hb_revocables h -> unrevoked h r;
  hi_tasks : map_Forall (fun _ => task_ok h) (hb_tasks h);
  hi_apart : forall g g' t t', hb_tasks h !! g = Some t -> hb_tasks h !! g' = Some t' -> g <> g' ->
    to_revoke t ## to_revoke t';
  hi_once : forall r rv, hb_conns h !! r = Some rv -> (length (rv_revoked rv) <= 1)%nat;
  hi_returned : hb_returned h = true -> hb_done h = true /\ hb_clients h = ∅ /\ hb_revocables h = ∅
}.

(** ** Tasks and the lock *)

Lemma lockable_spec h : lockable h = true <-> (forall g t, hb_tasks h !! g = Some t -> holds_read_lock t = false).
Proof.
  unfold lockable. rewrite bool_decide_eq_true, Forall_forall. split.
  - intros H g t Ht. by apply (H (g, t)), elem_of_map_to_list.
  - intros H [g t] Ht%elem_of_map_to_list. by apply (H g).
Qed.

Lemma set_task_inv h g t :
  hub_inv h -> task_ok h t -> (forall g' t', hb_tasks h !! g' = Some t' -> g <> g' -> to_revoke t ## to_revoke t') ->
  hub_inv (set_task g t h).
Proof.
  intros [H1 H2 H3 H4 H5 H6 H7 H8 H9 H10] Ht Hg. constructor; cbn [set_task set_tasks hb_panic hb_clients hb_heap
    hb_instanceSubs hb_broadcast hb_revocables hb_tasks hb_conns hb_returned hb_done]; try done.
  - intros g' t' [[<- <-]|[? ?]]%lookup_insert_Some; [done|]. by apply (H7 g').
  - intros g1 g2 t1 t2 [[<- <-]|[N1 L1]]%lookup_insert_Some [[<- <-]|[N2 L2]]%lookup_insert_Some Hn; try done.
    + by apply (Hg g2).
    + intros r Hr Hr'. by apply (Hg g1 t1 L1 (not_eq_sym Hn) r).
    + by apply (H8 g1 g2).
Qed.
Lemma set_task_plain h g t :
  hub_inv h -> task_ok h t -> to_revoke t = [] -> hub_inv (set_task g t h).
Proof. intros Hi Ht He. apply set_task_inv; [done|done|]. intros g' t' _ _. rewrite He. by intros r ?%elem_of_nil. Qed.
Lemma end_task_inv h g : hub_inv h -> hub_inv (end_task g h).
Proof.
  intros [H1 H2 H3 H4 H5 H6 H7 H8 H9 H10]. constructor; cbn [end_task set_tasks hb_panic hb_clients hb_heap
    hb_instanceSubs hb_broadcast hb_revocables hb_tasks hb_conns hb_returned hb_done]; try done.
  - intros g' t' [? ?]%lookup_delete_Some. by apply (H7 g').
  - intros g1 g2 t1 t2 [? ?]%lookup_delete_Some [? ?]%lookup_delete_Some. by apply (H8 g1 g2).
Qed.

(** ** The removal of a client *)

Lemma drop_sub_some c s s' : drop_sub c s = Some s' <-> s' = s ∖ {[c]} /\ s' <> ∅.
Proof. unfold drop_sub. destruct (decide _); split; intros H; destruct_and?; simplify_eq; done. Qed.

Definition dropped (c : ref) (reason : string) (cl : Client) (h : Hub) : Hub :=
  set_subs (omap (drop_sub c) (hb_instanceSubs h))
    (set_heap (<[c := cl_close (cl_set_closeReason reason cl)]> (hb_heap h)) (set_clients (hb_clients h ∖ {[c]}) h)).

Lemma removeClientLocked_in h c reason : hub_inv h -> c ∈ hb_clients h ->
  exists cl, hb_heap h !! c = Some cl /\ cl_closed cl = false /\ removeClientLocked c reason h = dropped c reason cl h.
Proof.
  intros Hi Hc. pose proof Hc as (cl & Hl & Ho)%(hi_clients h Hi). exists cl. split_and!; [done|done|].
  unfold removeClientLocked, dropped. rewrite decide_True by done. unfold close_send.
  cbn [set_heap set_clients hb_heap]. rewrite lookup_alter_eq, Hl. cbn [fmap option_fmap option_map].
  change (cl_closed (cl_set_closeReason reason cl)) with (cl_closed cl). rewrite Ho. cbv iota.
  unfold removeClientSubs. cbn. unfold set_subs, set_heap, set_clients. cbn. f_equal.
  apply map_eq. intros c'. destruct (decide (c = c')) as [<-|Hn]; [by rewrite !lookup_insert_eq|].
  by rewrite !lookup_insert_ne, lookup_alter_ne.
Qed.

Lemma lockable_task_ok h h' : hb_tasks h' = hb_tasks h -> hb_revocables h' ⊆ hb_revocables h -> hb_conns h' = hb_conns h ->
  lockable h = true -> map_Forall (fun _ => task_ok h) (hb_tasks h) -> map_Forall (fun _ => task_ok h') (hb_tasks h').
Proof.
  intros Et Er Ec Hl H g t Ht. rewrite Et in Ht. pose proof (proj1 (lockable_spec h) Hl g t Ht) as Hs.
  specialize (H g t Ht). destruct t; try done. destruct H as [Hn H]. split; [done|]. eapply Forall_impl; [exact H|].
  intros r [(rv & Hr & Hv) Hnr]. unfold unrevoked. rewrite Ec. split; [by exists rv|]. set_solver.
Qed.

Lemma dropped_inv h c reason cl :
  hub_inv h -> lockable h = true -> hb_heap h !! c = Some cl -> hub_inv (dropped c reason cl h).
Proof.
  intros Hi Hl Hc. pose proof Hi as [H1 H2 H3 H4 H5 H6 H7 H8 H9 H10].
  constructor; cbn [dropped set_subs set_heap set_clients hb_panic hb_clients hb_heap
    hb_instanceSubs hb_broadcast hb_revocables hb_tasks hb_conns hb_returned hb_done]; try done.
  - intros c'. rewrite elem_of_difference, elem_of_singleton, H2. unfold open_client. cbn.
    destruct (decide (c = c')) as [<-|Hn].
    + rewrite lookup_insert_eq. split; [by intros [_ ?]|intros (? & [= <-] & Hx); by cbn in Hx].
    + rewrite lookup_insert_ne by done. naive_solver.
  - intros c' cl' [[<- <-]|[_ ?]]%lookup_insert_Some; cbn; eauto.
  - intros i s (s0 & [-> Hne]%drop_sub_some & Hs)%lookup_omap_Some. destruct (H4 i s0 Hs). split; [done|]. set_solver.
  - by refine (lockable_task_ok h (dropped c reason cl h) eq_refl _ eq_refl Hl H7).
  - intros Hr. destruct (H10 Hr) as (? & E & ?). split_and!; [done| |done]. rewrite E. set_solver.
Qed.

(** What the removal of clients leaves alone. *)
Record same_rest (h h' : Hub) : Prop := {
  sr_broadcast : hb_broadcast h' = hb_broadcast h;
  sr_done : hb_done h' = hb_done h;
  sr_revocables : hb_revocables h' = hb_revocables h;
  sr_conns : hb_conns h' = hb_conns h;
  sr_tasks : hb_tasks h' = hb_tasks h;
  sr_returned : hb_returned h' = hb_returned h
}.
Lemma same_rest_trans h1 h2 h3 : same_rest h1 h2 -> same_rest h2 h3 -> same_rest h1 h3.
Proof. intros [? ? ? ? ? ?] [? ? ? ? ? ?]. constructor; congruence. Qed.
Lemma same_rest_lockable h h' : same_rest h h' -> lockable h' = lockable h.
Proof. intros [_ _ _ _ E _]. unfold lockable. by rewrite E. Qed.

(** A client that left the hub with a close reason; the other clients are untouched. *)
Definition shut (reason : string) (cl : Client) : Client := cl_close (cl_set_closeReason reason cl).

Lemma removeClientLocked_spec h c reason : hub_inv h -> lockable h = true ->
  let h' := removeClientLocked c reason h in
  hub_inv h' /\ same_rest h h' /\ hb_clients h' = hb_clients h ∖ {[c]} /\
  (forall c', hb_heap h' !! c' = if decide (c' = c /\ c ∈ hb_clients h) then shut reason <$> hb_heap h !! c' else hb_heap h !! c').
Proof.
  intros Hi Hl. cbv zeta. destruct (decide (c ∈ hb_clients h)) as [Hc|Hc].
  - destruct (removeClientLocked_in h c reason Hi Hc) as (cl & Hh & Ho & ->). split_and!.
    + by apply dropped_inv.
    + by constructor.
    + done.
    + intros c'. cbn. destruct (decide (c' = c)) as [->|Hn].
      * rewrite lookup_insert_eq, decide_True, Hh by done. done.
      * rewrite lookup_insert_ne by done. rewrite decide_False by naive_solver. done.
  - unfold removeClientLocked. rewrite decide_False by done. split_and!; [done|by constructor|set_solver|].
    intros c'. rewrite decide_False by naive_solver. done.
Qed.

Lemma remove_all_spec cs reason h : hub_inv h -> lockable h = true ->
  let h' := remove_all cs reason h in
  hub_inv h' /\ same_rest h h' /\ hb_clients h' = hb_clients h ∖ list_to_set cs /\
  (forall c, hb_heap h' !! c =
     if decide (c ∈ cs /\ c ∈ hb_clients h) then shut reason <$> hb_heap h !! c else hb_heap h !! c).
Proof.
  revert h. induction cs as [|c cs IH]; intros h Hi Hl; cbv zeta.
  - split_and!; [done|by constructor|cbn; set_solver|]. intros c. rewrite decide_False; [done|]. by intros [?%elem_of_nil _].
  - destruct (removeClientLocked_spec h c reason Hi Hl) as (I1 & S1 & C1 & P1).
    cbn [remove_all foldl]. set (h1 := removeClientLocked c reason h) in *.
    destruct (IH h1 I1) as (I2 & S2 & C2 & P2); [by rewrite (same_rest_lockable h)|].
    fold (remove_all cs reason h1). split_and!; [done|by eapply same_rest_trans|rewrite C2, C1; cbn; set_solver|].
    intros c'. rewrite P2, P1, C1. destruct (decide (c' = c)) as [->|Hn].
    + rewrite (decide_False (P := c ∈ cs /\ _)) by set_solver.
      destruct (decide (c ∈ hb_clients h)); [rewrite !decide_True by set_solver|rewrite !decide_False by set_solver]; done.
    + rewrite (decide_False (P := c' = c /\ _)) by naive_solver.
      destruct (decide (c' ∈ cs /\ c' ∈ hb_clients h)) as [[? ?]|Hx].
      * by rewrite !decide_True by set_solver.
      * rewrite !decide_False; [done| |]; set_solver.
Qed.

(** ** Revocations *)

Lemma matching_clients_spec test h c :
  c ∈ matching_clients test h <-> c ∈ hb_clients h /\ exists cl, hb_heap h !! c = Some cl /\ test (cl_identity cl) = true.
Proof.
  unfold matching_clients. rewrite list_elem_of_filter, elem_of_elements. split.
  - intros [Ht ?]. split; [done|]. destruct (hb_heap h !! c) as [cl|]; [|done]. by exists cl.
  - intros [? (cl & -> & ?)]. done.
Qed.
Lemma matching_revocables_spec test h r :
  r ∈ matching_revocables test h <-> r ∈ hb_revocables h /\ exists rv, hb_conns h !! r = Some rv /\ test rv = true.
Proof.
  unfold matching_revocables. rewrite list_elem_of_filter, elem_of_elements. split.
  - intros [Ht ?]. split; [done|]. destruct (hb_conns h !! r) as [rv|]; [|done]. by exists rv.
  - intros [? (rv & -> & ?)]. done.
Qed.
Lemma matching_revocables_NoDup test h : NoDup (matching_revocables test h).
Proof. apply NoDup_filter, NoDup_elements. Qed.

Lemma forget_inv h s : hub_inv h -> s ⊆ hb_revocables h -> hub_inv (set_revocables s h).
Proof.
  intros [H1 H2 H3 H4 H5 H6 H7 H8 H9 H10] Hs. constructor; try done; cbn [set_revocables hb_revocables hb_tasks].
  - intros r Hr. apply (H6 r). set_solver.
  - intros g t Ht. specialize (H7 g t Ht). destruct t; try done. destruct H7 as [? H7]. split; [done|].
    eapply Forall_impl; [exact H7|]. intros r [? ?]. split; [done|]. cbn. set_solver.
  - intros Hr. destruct (H10 Hr) as (? & ? & E). split_and!; [done|done|]. cbn. set_solver.
Qed.

(** A list of connections taken out of the set. *)
Definition took (taken : list ref) (h : Hub) : Hub := set_revocables (hb_revocables h ∖ list_to_set taken) h.
Lemma took_nil h : took [] h = h.
Proof. unfold took, set_revocables. destruct h; cbn. f_equal. apply difference_empty_L. Qed.

Lemma revoking_inv h g taken code reason :
  hub_inv h -> NoDup taken -> Forall (fun r => r ∈ hb_revocables h) taken ->
  hub_inv (set_task g (Revoking taken code reason) (took taken h)).
Proof.
  intros Hi Hn Ht. apply set_task_inv; [apply forget_inv; [done|set_solver]| |].
  - split; [done|]. rewrite Forall_forall in Ht |- *. intros r Hr. split; [by apply (hi_revocables h Hi), Ht|].
    cbn. set_solver.
  - intros g' t' Ht' _ r Hr Hr'. cbn [to_revoke] in Hr. rewrite Forall_forall in Ht.
    pose proof (hi_tasks h Hi g' t' Ht') as Hk. destruct t'; try by apply elem_of_nil in Hr'.
    destruct Hk as [_ Hk]. rewrite Forall_forall in Hk. destruct (Hk r Hr') as [_ Hx]. by apply Hx, Ht.
Qed.

(** The result of a locked region that takes connections. *)
Definition takes (r : nat * list ref * Hub) : Prop :=
  exists h1, hub_inv h1 /\ r.2 = took r.1.2 h1 /\ NoDup r.1.2 /\ Forall (fun x => x ∈ hb_revocables h1) r.1.2.
Lemma then_revoke_inv g code reason r : takes r -> hub_inv (then_revoke g code reason r).
Proof. intros (h1 & Hi & E & Hn & Ht). unfold then_revoke. rewrite E. by apply revoking_inv. Qed.

Lemma revokeRevocables_takes test h : hub_inv h -> takes (revokeRevocables test h).
Proof.
  intros Hi. exists h. split_and!; [done|done|apply matching_revocables_NoDup|].
  apply Forall_forall. intros r [? _]%matching_revocables_spec. done.
Qed.
Lemma disconnectIdentities_takes test h : hub_inv h -> lockable h = true -> takes (disconnectIdentities test h).
Proof.
  intros Hi Hl. destruct (remove_all_spec (matching_clients test h) closeReasonRevoked h Hi Hl) as (I1 & _).
  eexists. split_and!; [exact I1|done|apply matching_revocables_NoDup|].
  apply Forall_forall. intros r [? _]%matching_revocables_spec. done.
Qed.
Lemma nothing_takes h : hub_inv h -> takes (0%nat, [], h).
Proof. intros Hi. exists h. cbn [fst snd]. rewrite took_nil. split_and!; [done|done|constructor|constructor]. Qed.
Lemma revalidateIdentities_takes ids revoked h :
  hub_inv h -> lockable h = true -> takes (revalidateIdentities ids revoked h).
Proof.
  intros Hi Hl. unfold revalidateIdentities. destruct (bool_decide _); [by apply nothing_takes|].
  by apply disconnectIdentities_takes.
Qed.
Lemma revalidateAccess_takes rs lost h : hub_inv h -> takes (revalidateAccess rs lost h).
Proof.
  intros Hi. exists h. split_and!; [done|done|apply NoDup_filter, NoDup_elements|].
  apply Forall_forall. intros r [_ ?%elem_of_elements]%list_elem_of_filter. done.
Qed.

(** ** The remaining parts *)

Lemma set_subs_inv h subs : hub_inv h -> (forall i s, subs !! i = Some s -> s <> ∅ /\ s ⊆ hb_clients h) ->
  hub_inv (set_subs subs h).
Proof. intros [? ? ? ? ? ? ? ? ? ?] Hs. by constructor. Qed.
Lemma set_broadcast_inv h b : hub_inv h -> (length b <= broadcastBufferSize)%nat -> hub_inv (set_broadcast b h).
Proof. intros [? ? ? ? ? ? ? ? ? ?] Hs. by constructor. Qed.
Lemma set_done_inv h : hub_inv h -> hub_inv (set_done h).
Proof. intros [? ? ? ? ? ? ? ? ? H]. constructor; try done. intros Hr. by destruct (H Hr). Qed.
(** A client that keeps its channel open or closed. *)
Lemma set_client_inv h c cl cl' : hub_inv h -> hb_heap h !! c = Some cl -> cl_closed cl' = cl_closed cl ->
  (length (cl_send cl') <= sendBufferSize)%nat -> hub_inv (set_heap (<[c := cl']> (hb_heap h)) h).
Proof.
  intros [H1 H2 H3 H4 H5 H6 H7 H8 H9 H10] Hc Hk Hb. constructor; try done; cbn [set_heap hb_heap hb_clients].
  - intros c'. rewrite H2. unfold open_client. cbn. destruct (decide (c = c')) as [<-|Hn].
    + rewrite lookup_insert_eq, Hc. split; intros (x & [= <-] & Ho); eexists; (split; [done|congruence]).
    + by rewrite lookup_insert_ne.
  - intros c' x [[<- <-]|[_ ?]]%lookup_insert_Some; eauto.
Qed.

Lemma Subscribe_inv c i h : hub_inv h -> hub_inv (Subscribe c i h).
Proof.
  intros Hi. unfold Subscribe. destruct (decide _) as [Hc|]; [|done]. apply set_subs_inv; [done|].
  intros j s [[<- <-]|[_ Hs]]%lookup_insert_Some; [|by apply (hi_subs h Hi j)]. split; [set_solver|].
  destruct (hb_instanceSubs h !! i) as [s|] eqn:E; cbn; [|set_solver]. destruct (hi_subs h Hi i s E). set_solver.
Qed.
Lemma Unsubscribe_inv c i h : hub_inv h -> hub_inv (Unsubscribe c i h).
Proof.
  intros Hi. unfold Unsubscribe. destruct (hb_instanceSubs h !! i) as [subs|] eqn:E; [|done].
  apply set_subs_inv; [done|]. intros j s Hs. destruct (decide (i = j)) as [<-|Hn].
  - rewrite lookup_partial_alter_eq in Hs. apply drop_sub_some in Hs as [-> ?]. split; [done|].
    destruct (hi_subs h Hi i subs E). set_solver.
  - rewrite lookup_partial_alter_ne in Hs by done. by apply (hi_subs h Hi j).
Qed.
Lemma handleInbound_inv c msg h : hub_inv h -> hub_inv (handleInbound c msg h).
Proof.
  intros Hi. unfold handleInbound. destruct msg as [m|]; [|done]. cbv zeta.
  destruct (_ =? "subscribe")%string; [destruct (_ =? "")%string; [done|by apply Subscribe_inv]|].
  destruct (_ =? "unsubscribe")%string; [destruct (_ =? "")%string; [done|by apply Unsubscribe_inv]|done].
Qed.
Lemma deliverAll_inv m h : hub_inv h -> hub_inv (deliverAll m h).
Proof.
  intros Hi. unfold deliverAll. destruct (_ <? _)%nat eqn:E; [|done]. apply set_broadcast_inv; [done|].
  rewrite length_app. cbn. apply Nat.ltb_lt in E. lia.
Qed.

Lemma register_inv h c identity :
  hub_inv h -> lockable h = true -> hb_heap h !! c = None -> hb_done h = false ->
  hub_inv (set_heap (<[c := mkClient identity [] false "" true []]> (hb_heap h)) (set_clients ({[c]} ∪ hb_clients h) h)).
Proof.
  intros Hi Hl Hc Hd. pose proof Hi as [H1 H2 H3 H4 H5 H6 H7 H8 H9 H10].
  constructor; try done; cbn [set_heap set_clients hb_heap hb_clients hb_instanceSubs hb_tasks hb_returned].
  - intros c'. rewrite elem_of_union, elem_of_singleton, H2. unfold open_client. cbn.
    destruct (decide (c = c')) as [<-|Hn].
    + rewrite lookup_insert_eq. split; [|by left]. intros _. by eexists.
    + rewrite lookup_insert_ne by done. naive_solver.
  - intros c' x [[<- <-]|[_ ?]]%lookup_insert_Some; [cbn; lia|eauto].
  - intros i s Hs. destruct (H4 i s Hs). set_solver.
  - by refine (lockable_task_ok h (set_heap _ (set_clients _ h)) eq_refl _ eq_refl Hl H7).
  - intros Hr. destruct (H10 Hr). congruence.
Qed.

Lemma register_revocable_inv h r rv :
  hub_inv h -> hb_conns h !! r = None -> hb_done h = false -> rv_revoked rv = [] ->
  hub_inv (set_conns (<[r := rv]> (hb_conns h)) (set_revocables ({[r]} ∪ hb_revocables h) h)).
Proof.
  intros [H1 H2 H3 H4 H5 H6 H7 H8 H9 H10] Hc Hd Hv.
  assert (Hu : forall x, unrevoked h x -> unrevoked (set_conns (<[r := rv]> (hb_conns h)) (set_revocables ({[r]} ∪ hb_revocables h) h)) x
    /\ x <> r).
  { intros x (y & Hy & ?). split; [|congruence]. exists y. cbn. by rewrite lookup_insert_ne by congruence. }
  constructor; try done; cbn [set_conns set_revocables hb_revocables hb_conns hb_tasks].
  - intros x [->%elem_of_singleton|Hx]%elem_of_union; [|by apply Hu, H6]. exists rv. cbn. by rewrite lookup_insert_eq.
  - intros g t Ht. specialize (H7 g t Ht). destruct t; try done. destruct H7 as [? H7]. split; [done|].
    eapply Forall_impl; [exact H7|]. intros x [Hx ?]. destruct (Hu x Hx). split; [done|]. cbn. set_solver.
  - intros x y [[<- <-]|[_ ?]]%lookup_insert_Some; [rewrite Hv; cbn; lia|eauto].
  - cbn. intros Hr. destruct (H10 Hr). congruence.
Qed.

Lemma revoke_inv h g r rs code reason :
  hub_inv h -> hb_tasks h !! g = Some (Revoking (r :: rs) code reason) ->
  hub_inv (set_task g (Revoking rs code reason) (set_conns (alter (rv_revoke code reason) r (hb_conns h)) h)).
Proof.
  intros Hi Hg. pose proof (hi_tasks h Hi g _ Hg) as [Hnd Hrs]. apply NoDup_cons in Hnd as [Hr Hnd].
  apply Forall_cons in Hrs as [[(rv & Hrv & Hv) Hnr] Hrs].
  assert (Hu : forall x, x <> r -> unrevoked h x -> unrevoked (set_conns (alter (rv_revoke code reason) r (hb_conns h)) h) x).
  { intros x Hx (y & Hy & ?). exists y. cbn. by rewrite lookup_alter_ne. }
  destruct Hi as [H1 H2 H3 H4 H5 H6 H7 H8 H9 H10].
  constructor; try done; cbn [set_task set_tasks set_conns hb_revocables hb_conns hb_tasks].
  - intros x Hx. apply (Hu x); [|by apply H6]. by intros ->.
  - intros g' t' [[<- <-]|[Hn Ht]]%lookup_insert_Some.
    + split; [done|]. rewrite Forall_forall in Hrs |- *. intros x Hx. destruct (Hrs x Hx). split; [|done].
      apply (Hu x); [|done]. by intros ->.
    + specialize (H7 g' t' Ht). destruct t'; try done. destruct H7 as [? H7]. split; [done|].
      rewrite Forall_forall in H7 |- *. intros x Hx. destruct (H7 x Hx). split; [|done]. apply (Hu x); [|done].
      intros ->. eapply (H8 g g' _ _ Hg Ht Hn r); [by left|done].
  - intros g1 g2 t1 t2 [[<- <-]|[N1 L1]]%lookup_insert_Some [[<- <-]|[N2 L2]]%lookup_insert_Some Hn x Hx Hy; try done.
    + eapply (H8 g g2 _ _ Hg L2 Hn x); [by right|done].
    + eapply (H8 g1 g _ _ L1 Hg Hn x); [done|by right].
    + by eapply (H8 g1 g2 _ _ L1 L2 Hn x).
  - intros x y. destruct (decide (x = r)) as [->|Hn].
    + rewrite lookup_alter_eq, Hrv. intros [= <-]. cbn. rewrite Hv. cbn. lia.
    + rewrite lookup_alter_ne by done. apply H9.
Qed.

Lemma try_send_inv h c m : hub_inv h -> c ∈ hb_clients h ->
  let r := try_send c m h in
  hub_inv r.2 /\ hb_clients r.2 = hb_clients h /\ hb_tasks r.2 = hb_tasks h.
Proof.
  intros Hi Hc. pose proof Hc as (cl & Hl & Ho)%(hi_clients h Hi). unfold try_send. rewrite Hl, Ho. cbv iota zeta.
  destruct (_ <? _)%nat eqn:E; cbn; split_and!; try done. apply (set_client_inv h c cl); try done.
  cbn. rewrite length_app. cbn. apply Nat.ltb_lt in E. lia.
Qed.

(** The loop of [closeAllClients] over the registered clients. *)
Definition close_step (h : Hub) (c : ref) : Hub := set_clients (hb_clients h ∖ {[c]}) (close_send c h).
Lemma close_loop cs h : hub_inv h -> lockable h = true -> hb_instanceSubs h = ∅ -> NoDup cs ->
  Forall (fun c => c ∈ hb_clients h) cs ->
  let h' := foldl close_step h cs in
  hub_inv h' /\ same_rest h h' /\ hb_instanceSubs h' = ∅ /\ hb_clients h' = hb_clients h ∖ list_to_set cs.
Proof.
  revert h. induction cs as [|c cs IH]; intros h Hi Hl Hs Hn Hcs; cbv zeta.
  - split_and!; [done|by constructor|done|cbn; set_solver].
  - apply NoDup_cons in Hn as [Hx Hn]. apply Forall_cons in Hcs as [Hc Hcs].
    pose proof Hc as (cl & Hh & Ho)%(hi_clients h Hi).
    assert (E : close_step h c = dropped c (cl_closeReason cl) cl h).
    { unfold close_step, close_send, dropped. rewrite Hh, Ho. unfold set_clients, set_heap, set_subs. cbn.
      rewrite Hs, omap_empty. by destruct cl. }
    cbn [foldl]. rewrite E. destruct (IH (dropped c (cl_closeReason cl) cl h)) as (I2 & S2 & Z2 & C2).
    + by apply dropped_inv.
    + done.
    + cbn. by rewrite Hs, omap_empty.
    + done.
    + cbn. rewrite Forall_forall in Hcs |- *. intros y Hy. set_solver.
    + split_and!; [done|eapply same_rest_trans; [|exact S2]; by constructor|done|]. rewrite C2. cbn. set_solver.
Qed.

Lemma close_loop_frame (K : Hub -> Hub) cs h : (forall x c, close_step (K x) c = K (close_step x c)) ->
  foldl close_step (K h) cs = K (foldl close_step h cs).
Proof. intros HK. revert h. induction cs as [|c cs IH]; intros h; [done|]. cbn [foldl]. by rewrite HK, IH. Qed.
Lemma close_step_subs v x c : close_step (set_subs v x) c = set_subs v (close_step x c).
Proof. unfold close_step, close_send. cbn. destruct (hb_heap x !! c) as [cl|]; [destruct (cl_closed cl)|]; done. Qed.
Lemma close_step_revocables v x c : close_step (set_revocables v x) c = set_revocables v (close_step x c).
Proof. unfold close_step, close_send. cbn. destruct (hb_heap x !! c) as [cl|]; [destruct (cl_closed cl)|]; done. Qed.

Lemma closeAllClients_spec h : hub_inv h -> lockable h = true ->
  let taken := matching_revocables (fun _ => true) h in
  exists h1, closeAllClients h = (taken, took taken h1) /\ hub_inv h1 /\ same_rest h h1 /\ hb_clients h1 = ∅ /\
    list_to_set taken = hb_revocables h.
Proof.
  intros Hi Hl. cbv zeta. set (taken := matching_revocables (fun _ => true) h).
  destruct (close_loop (elements (hb_clients h)) (set_subs ∅ h)) as (I1 & S1 & Z1 & C1).
  - apply set_subs_inv; [done|]. intros i s Hs. by rewrite lookup_empty in Hs.
  - done.
  - done.
  - apply NoDup_elements.
  - apply Forall_forall. intros c. by rewrite elem_of_elements.
  - assert (S2 : same_rest h (foldl close_step (set_subs ∅ h) (elements (hb_clients h))))
      by (eapply same_rest_trans; [|exact S1]; by constructor).
    eexists. split_and!; [|exact I1|exact S2| |].
    + unfold closeAllClients, takeRevocablesLocked, took. fold taken. f_equal. cbn [hb_clients set_revocables].
      rewrite (sr_revocables _ _ S2). change (fun h c => set_clients _ _) with close_step.
      rewrite (close_loop_frame (set_revocables _)) by apply close_step_revocables.
      rewrite (close_loop_frame (set_subs _)) by apply close_step_subs. done.
    + rewrite C1. cbn. set_solver.
    + apply set_eq. intros r. rewrite elem_of_list_to_set. unfold taken. rewrite matching_revocables_spec. split; [by intros []|].
      intros Hr. split; [done|]. destruct (hi_revocables h Hi r Hr) as (rv & ? & _). by exists rv.
Qed.

(** ** Every step *)

Lemma only_if_some b h h' : only_if b h = Some h' -> b = true /\ h' = h.
Proof. unfold only_if. destruct b; intros [= <-]. done. Qed.
Lemma ranges_in order s : ranges order s = true -> Forall (fun c => c ∈ s) order.
Proof. unfold ranges. rewrite bool_decide_eq_true. intros [_ <-]. apply Forall_forall. intros c. by rewrite elem_of_list_to_set. Qed.
Lemma sending_inv g order m s h : hub_inv h -> ranges order s = true -> s ⊆ hb_clients h ->
  hub_inv (set_task g (Sending order m []) h).
Proof.
  intros Hi Hr%ranges_in Hs. apply set_task_plain; [done| |done]. cbn. rewrite Forall_forall in Hr |- *. set_solver.
Qed.
Lemma set_returned_inv h : hub_inv h -> hb_done h = true -> hb_clients h = ∅ -> hb_revocables h = ∅ -> hub_inv (set_returned h).
Proof. intros [? ? ? ? ? ? ? ? ? ?] Hd Hc Hr. by constructor. Qed.

Lemma pump_inv c fails h h' : hub_inv h -> pump c fails h = Some h' -> hub_inv h'.
Proof.
  intros Hi. unfold pump. destruct (hb_heap h !! c) as [cl|] eqn:Hc; [|done].
  destruct (negb _); [done|]. pose proof (hi_buffer h Hi c cl Hc) as Hb. destruct (cl_send cl) as [|m rest] eqn:Hs.
  - destruct (negb _); [done|]. intros [= <-]. apply (set_client_inv h c cl); [done|done|done|]. apply Nat.le_0_l.
  - intros [= <-]. cbn [length] in Hb. apply (set_client_inv h c cl); [done|done|by destruct fails|]. destruct fails; cbn [cl_send cl_write]; lia.
Qed.
Lemma expire_inv c h h' : hub_inv h -> expire c h = Some h' -> hub_inv h'.
Proof.
  intros Hi. unfold expire. destruct (hb_heap h !! c) as [cl|] eqn:Hc; [|done].
  destruct (_ || _); [done|]. intros [= <-]. apply (set_client_inv h c cl); [done|done|done|]. exact (hi_buffer h Hi c cl Hc).
Qed.
Lemma send_inv g h h' : hub_inv h -> hub_step (ASend g) h = Some h' -> hub_inv h'.
Proof.
  intros Hi. cbn [hub_step]. destruct (hb_tasks h !! g) as [[todo m slow|slow|rs code reason|ids|rs]|] eqn:Hg; try done.
  destruct todo as [|c todo]; [done|]. pose proof (hi_tasks h Hi g _ Hg) as Ht. cbn in Ht. apply Forall_cons in Ht as [Hc Ht].
  destruct (try_send_inv h c m Hi Hc) as (I1 & C1 & _). destruct (try_send c m h) as [sent h1]. cbn [fst snd] in *.
  intros [= <-]. apply set_task_plain; [done| |done]. cbn. by rewrite C1.
Qed.
Lemma closeAll_inv h h' : hub_inv h -> hub_step ACloseAll h = Some h' -> hub_inv h'.
Proof.
  intros Hi. cbn [hub_step]. destruct (negb _) eqn:E; [done|]. apply negb_false_iff in E. rewrite !andb_true_iff in E.
  destruct E as [[Hd _] Hl]. destruct (closeAllClients_spec h Hi Hl) as (h1 & -> & I1 & S1 & C1 & T1).
  set (taken := matching_revocables _ h) in *. intros [= <-].
  apply (set_returned_inv (set_task run_goroutine (Revoking taken CloseCodeGoingAway CloseReasonShutdown) (took taken h1))).
  - apply revoking_inv; [done|apply matching_revocables_NoDup|]. rewrite (sr_revocables _ _ S1).
    apply Forall_forall. intros r [? _]%matching_revocables_spec. done.
  - cbn. by rewrite (sr_done _ _ S1).
  - done.
  - cbn. rewrite T1, (sr_revocables _ _ S1). set_solver.
Qed.

Ltac step_guard :=
  repeat match goal with
  | H : only_if _ _ = Some _ |- _ => apply only_if_some in H as [H ->]
  | H : _ && _ = true |- _ => apply andb_true_iff in H as [? ?]
  end.

Lemma hub_step_inv a h h' : hub_inv h -> hub_step a h = Some h' -> hub_inv h'.
Proof.
  intros Hi H. destruct a; cbn [hub_step] in H.
  - destruct (negb _) eqn:E; [done|]. apply negb_false_iff in E. step_guard. unfold Register in H.
    destruct (hb_done h) eqn:Hd; injection H as <-; [done|]. apply register_inv; [done|done| |done].
    by apply bool_decide_eq_true in H1.
  - step_guard. by apply handleInbound_inv.
  - step_guard. by apply removeClientLocked_spec.
  - injection H as <-. by apply deliverAll_inv.
  - pose proof (hi_broadcast h Hi) as Hb. destruct (hb_broadcast h) as [|m rest]; [done|]. step_guard.
    eapply sending_inv; [apply set_broadcast_inv; [done|cbn in Hb; lia]|done|done].
  - step_guard. eapply sending_inv; [done..|]. unfold instance_receivers. set_solver.
  - step_guard. eapply sending_inv; [done..|]. intros c. unfold user_receivers.
    rewrite elem_of_list_to_set, matching_clients_spec. by intros [? _].
  - by eapply send_inv.
  - destruct (hb_tasks h !! g) as [[[|c todo] m slow|slow|rs code reason|ids|rs]|]; try done. injection H as <-.
    by apply set_task_plain.
  - destruct (hb_tasks h !! g) as [[todo m slow|slow|rs code reason|ids|rs]|]; try done.
    destruct (bool_decide _); [injection H as <-; by apply end_task_inv|]. step_guard.
    by apply end_task_inv, remove_all_spec.
  - step_guard. by apply then_revoke_inv, disconnectIdentities_takes.
  - step_guard. unfold DisconnectClient. destruct (decide _); [|done]. by apply removeClientLocked_spec.
  - destruct (negb _) eqn:E; [done|]. apply negb_false_iff in E. step_guard. unfold RegisterRevocable in H.
    destruct (hb_done h) eqn:Hd; injection H as <-; [done|]. apply register_revocable_inv; [done| |done|done].
    by apply bool_decide_eq_true in H1.
  - step_guard. apply forget_inv; [done|set_solver].
  - step_guard. by apply then_revoke_inv, revokeRevocables_takes.
  - destruct (hb_tasks h !! g) as [[todo m slow|slow|[|r rs] code reason|ids|rs]|] eqn:Hg; try done.
    + injection H as <-. by apply end_task_inv.
    + injection H as <-. by apply revoke_inv.
  - step_guard. by apply set_task_plain.
  - destruct (hb_tasks h !! g) as [[todo m slow|slow|rs code reason|ids|rs]|]; try done. step_guard.
    by apply then_revoke_inv, revalidateIdentities_takes.
  - step_guard. by apply set_task_plain.
  - destruct (hb_tasks h !! g) as [[todo m slow|slow|rs code reason|ids|rs]|]; try done. step_guard.
    by apply then_revoke_inv, revalidateAccess_takes.
  - injection H as <-. by apply set_done_inv.
  - by eapply closeAll_inv.
  - by eapply pump_inv.
  - by eapply expire_inv.
Qed.

Lemma NewHub_inv : hub_inv NewHub.
Proof.
  constructor; cbn [NewHub hb_panic hb_clients hb_heap hb_instanceSubs hb_broadcast hb_revocables hb_tasks hb_conns hb_returned];
    try done; try (intros *; rewrite ?lookup_empty; done).
  - intros c. unfold open_client. cbn. split; [set_solver|]. intros (cl & Hc & _). by rewrite lookup_empty in Hc.
  - apply Nat.le_0_l.
Qed.
Lemma hub_run_inv actions h h' : hub_inv h -> hub_run actions h = Some h' -> hub_inv h'.
Proof.
  revert h. induction actions as [|a actions IH]; intros h Hi H; cbn in H; [by injection H as <-|].
  destruct (hub_step a h) as [h1|] eqn:E; [|done]. apply (IH h1); [by eapply hub_step_inv|done].
Qed.

(** ** One client and one connection *)

(** What a step can do to one client. *)
Inductive client_step : option Client -> option Client -> Prop :=
| cs_same o : client_step o o
| cs_new identity : client_step None (Some (mkClient identity [] false "" true []))
| cs_message cl m : cl_closed cl = false -> client_step (Some cl) (Some (cl_push m cl))
| cs_close cl : cl_closed cl = false -> client_step (Some cl) (Some (cl_close cl))
| cs_remove cl reason : cl_closed cl = false -> client_step (Some cl) (Some (shut reason cl))
| cs_write cl m rest : cl_send cl = m :: rest -> client_step (Some cl) (Some (cl_write rest [TextFrame m] true cl))
| cs_lose cl m rest : cl_send cl = m :: rest -> client_step (Some cl) (Some (cl_write rest [] false cl))
| cs_end cl reason : client_step (Some cl) (Some (cl_write (cl_send cl) [CloseFrame reason] false cl)).

Lemma client_removed cs reason h c : hub_inv h -> lockable h = true ->
  client_step (hb_heap h !! c) (hb_heap (remove_all cs reason h) !! c).
Proof.
  intros Hi Hl. destruct (remove_all_spec cs reason h Hi Hl) as (_ & _ & _ & ->).
  destruct (decide _) as [[_ (cl & -> & Ho)%(hi_clients h Hi)]|]; [by apply cs_remove|apply cs_same].
Qed.
Lemma client_removed_one c' reason h c : hub_inv h -> lockable h = true ->
  client_step (hb_heap h !! c) (hb_heap (removeClientLocked c' reason h) !! c).
Proof. intros Hi Hl. apply (client_removed [c'] reason h c Hi Hl). Qed.

Lemma handleInbound_heap c msg h : hb_heap (handleInbound c msg h) = hb_heap h /\ hb_conns (handleInbound c msg h) = hb_conns h.
Proof.
  unfold handleInbound. destruct msg as [m|]; [|done]. cbv zeta. unfold Subscribe, Unsubscribe.
  repeat (case_match; try done).
Qed.

Lemma close_send_client c' h c : client_step (hb_heap h !! c) (hb_heap (close_send c' h) !! c).
Proof.
  unfold close_send. destruct (hb_heap h !! c') as [cl|] eqn:E; [|apply cs_same].
  destruct (cl_closed cl) eqn:Ho; [apply cs_same|]. cbn. destruct (decide (c' = c)) as [->|Hn].
  - rewrite lookup_insert_eq, E. by apply cs_close.
  - rewrite lookup_insert_ne by done. apply cs_same.
Qed.
(** The loop of [closeAllClients] closes each channel once. *)
Lemma close_loop_client cs h c : NoDup cs ->
  client_step (hb_heap h !! c) (hb_heap (foldl close_step h cs) !! c) /\
  (c ∉ cs -> hb_heap (foldl close_step h cs) !! c = hb_heap h !! c).
Proof.
  revert h. induction cs as [|c' cs IH]; intros h Hn; cbn [foldl]; [split; [apply cs_same|done]|].
  apply NoDup_cons in Hn as [Hx Hn]. destruct (IH (close_step h c') Hn) as [I1 I2].
  assert (Hk : c' <> c -> hb_heap (close_step h c') !! c = hb_heap h !! c).
  { intros Hne. unfold close_step, close_send. destruct (hb_heap h !! c') as [cl|]; [|done].
    destruct (cl_closed cl); [done|]. cbn. by rewrite lookup_insert_ne. }
  destruct (decide (c' = c)) as [->|Hne].
  - split; [|set_solver]. rewrite I2 by done. apply close_send_client.
  - rewrite Hk in I1, I2 by done. split; [done|]. intros Hni. apply I2. set_solver.
Qed.
Lemma closeAllClients_client h c : client_step (hb_heap h !! c) (hb_heap (closeAllClients h).2 !! c).
Proof. exact (proj1 (close_loop_client _ (took (matching_revocables (fun _ => true) h) h) c (NoDup_elements _))). Qed.

Lemma pump_client c' fails h h' c : pump c' fails h = Some h' -> client_step (hb_heap h !! c) (hb_heap h' !! c).
Proof.
  unfold pump. destruct (hb_heap h !! c') as [cl|] eqn:E; [|done]. destruct (negb _); [done|].
  destruct (decide (c' = c)) as [->|Hn].
  - rewrite E. destruct (cl_send cl) as [|m rest] eqn:Hs.
    + destruct (negb _); [done|]. intros [= <-]. cbn. rewrite lookup_insert_eq, <- Hs. apply cs_end.
    + intros [= <-]. cbn. rewrite lookup_insert_eq. destruct fails; [by eapply cs_lose|by apply cs_write].
  - destruct (cl_send cl) as [|m rest]; [destruct (negb _); [done|]|]; intros [= <-]; cbn;
      rewrite lookup_insert_ne by done; apply cs_same.
Qed.
Lemma expire_client c' h h' c : expire c' h = Some h' -> client_step (hb_heap h !! c) (hb_heap h' !! c).
Proof.
  unfold expire. destruct (hb_heap h !! c') as [cl|] eqn:E; [|done]. destruct (_ || _); [done|]. intros [= <-]. cbn.
  destruct (decide (c' = c)) as [->|Hn]; [rewrite lookup_insert_eq, E; apply cs_end|].
  rewrite lookup_insert_ne by done. apply cs_same.
Qed.
Lemma try_send_client c' m h c : client_step (hb_heap h !! c) (hb_heap (try_send c' m h).2 !! c).
Proof.
  unfold try_send. destruct (hb_heap h !! c') as [cl|] eqn:E; [|apply cs_same].
  destruct (cl_closed cl) eqn:Ho; [apply cs_same|]. destruct (_ <? _)%nat; [|apply cs_same]. cbn.
  destruct (decide (c' = c)) as [->|Hn]; [rewrite lookup_insert_eq, E; by apply cs_message|].
  rewrite lookup_insert_ne by done. apply cs_same.
Qed.

Lemma hub_step_client a h h' c : hub_inv h -> hub_step a h = Some h' -> client_step (hb_heap h !! c) (hb_heap h' !! c).
Proof.
  intros Hi H. destruct a; cbn [hub_step] in H.
  - destruct (negb _) eqn:E; [done|]. apply negb_false_iff in E. step_guard. unfold Register in H.
    destruct (hb_done h); injection H as <-; [apply cs_same|]. apply bool_decide_eq_true in H1. cbn.
    destruct (decide (c0 = c)) as [->|Hn]; [rewrite lookup_insert_eq, H1; apply cs_new|].
    rewrite lookup_insert_ne by done. apply cs_same.
  - step_guard. destruct (handleInbound_heap c0 msg h) as [-> _]. apply cs_same.
  - step_guard. by apply client_removed_one.
  - injection H as <-. unfold deliverAll. destruct (_ <? _)%nat; apply cs_same.
  - destruct (hb_broadcast h) as [|m rest]; [done|]. step_guard. apply cs_same.
  - step_guard. apply cs_same.
  - step_guard. apply cs_same.
  - destruct (hb_tasks h !! g) as [[[|c' todo] m slow|slow|rs code reason|ids|rs]|]; try done.
    pose proof (try_send_client c' m h c) as Hs. destruct (try_send c' m h) as [sent h1]. by injection H as <-.
  - destruct (hb_tasks h !! g) as [[[|c' todo] m slow|slow|rs code reason|ids|rs]|]; try done. injection H as <-. apply cs_same.
  - destruct (hb_tasks h !! g) as [[todo m slow|slow|rs code reason|ids|rs]|]; try done.
    destruct (bool_decide _); [injection H as <-; apply cs_same|]. step_guard. by apply client_removed.
  - step_guard. by apply client_removed.
  - step_guard. unfold DisconnectClient. destruct (decide _); [|apply cs_same]. by apply client_removed_one.
  - destruct (negb _); [done|]. unfold RegisterRevocable in H. destruct (hb_done h); injection H as <-; apply cs_same.
  - step_guard. apply cs_same.
  - step_guard. apply cs_same.
  - destruct (hb_tasks h !! g) as [[todo m slow|slow|[|r rs] code reason|ids|rs]|]; try done; injection H as <-; apply cs_same.
  - step_guard. apply cs_same.
  - destruct (hb_tasks h !! g) as [[todo m slow|slow|rs code reason|ids|rs]|]; try done. step_guard.
    unfold revalidateIdentities. destruct (bool_decide _); [apply cs_same|by apply client_removed].
  - step_guard. apply cs_same.
  - destruct (hb_tasks h !! g) as [[todo m slow|slow|rs code reason|ids|rs]|]; try done. step_guard. apply cs_same.
  - injection H as <-. apply cs_same.
  - destruct (negb _); [done|]. pose proof (closeAllClients_client h c) as Hc.
    destruct (closeAllClients h) as [taken h1]. by injection H as <-.
  - by eapply pump_client.
  - by eapply expire_client.
Qed.

(** A client whose channel is closed: nothing is added to it any more. *)
Record drained (cl cl' : Client) : Prop := {
  dr_identity : cl_identity cl' = cl_identity cl;
  dr_closed : cl_closed cl' = true;
  dr_reason : cl_closeReason cl' = cl_closeReason cl;
  dr_send : forall m, m ∈ cl_send cl' -> m ∈ cl_send cl;
  dr_frames : forall m, TextFrame m ∈ cl_frames cl' -> TextFrame m ∈ cl_frames cl \/ m ∈ cl_send cl
}.
Lemma drained_refl cl : cl_closed cl = true -> drained cl cl.
Proof. by constructor; auto. Qed.
Lemma drained_trans c1 c2 c3 : drained c1 c2 -> drained c2 c3 -> drained c1 c3.
Proof.
  intros [I1 C1 R1 S1 F1] [I2 C2 R2 S2 F2]. constructor; [congruence|done|congruence|auto|].
  intros m [?|?]%F2; [by apply F1|right; auto].
Qed.
Lemma client_step_closed cl o : client_step (Some cl) o -> cl_closed cl = true -> exists cl', o = Some cl' /\ drained cl cl'.
Proof.
  intros Hs Hc. inversion Hs as [?|?|? ? Ho|? Ho|? ? Ho|? m rest Hb|? m rest Hb|? reason]; subst; try congruence;
    eexists; (split; [done|]); [by apply drained_refl|..]; constructor; cbn; try done.
  - intros x Hx. rewrite Hb. by right.
  - intros x [[= ->]|Hx]%elem_of_cons; [right; rewrite Hb; by left|by left].
  - intros x Hx. rewrite Hb. by right.
  - intros x Hx. by left.
  - intros x [[=]|Hx]%elem_of_cons. by left.
Qed.
Lemma hub_run_closed actions h h' c cl : hub_inv h -> hub_run actions h = Some h' ->
  hb_heap h !! c = Some cl -> cl_closed cl = true -> exists cl', hb_heap h' !! c = Some cl' /\ drained cl cl'.
Proof.
  revert h cl. induction actions as [|a actions IH]; intros h cl Hi H Hc Ho; cbn in H.
  - injection H as <-. exists cl. split; [done|by apply drained_refl].
  - destruct (hub_step a h) as [h1|] eqn:E; [|done]. pose proof (hub_step_client a h h1 c Hi E) as Hs. rewrite Hc in Hs.
    destruct (client_step_closed _ _ Hs Ho) as (cl1 & H1 & D1).
    destruct (IH h1 cl1 (hub_step_inv _ _ _ Hi E) H H1 (dr_closed _ _ D1)) as (cl2 & H2 & D2).
    exists cl2. split; [done|]. by eapply drained_trans.
Qed.

(** The locked part of a revocation, client by client and connection by connection. *)
Lemma disconnectIdentities_spec test h : hub_inv h -> lockable h = true ->
  let r := disconnectIdentities test h in
  (forall c cl, hb_heap h !! c = Some cl -> hb_heap r.2 !! c =
     Some (if decide (c ∈ hb_clients h /\ test (cl_identity cl) = true) then shut closeReasonRevoked cl else cl)) /\
  (forall c cl, hb_heap h !! c = Some cl -> c ∈ hb_clients r.2 <-> c ∈ hb_clients h /\ test (cl_identity cl) = false) /\
  (forall x rv, hb_conns h !! x = Some rv -> (x ∈ r.1.2 <-> x ∈ hb_revocables h /\ test (rv_Identity rv) = true)) /\
  hb_revocables r.2 = hb_revocables h ∖ list_to_set r.1.2 /\ hb_conns r.2 = hb_conns h /\ hb_tasks r.2 = hb_tasks h.
Proof.
  intros Hi Hl. cbv zeta. pose proof (remove_all_spec (matching_clients test h) closeReasonRevoked h Hi Hl) as (_ & S1 & C1 & P1).
  unfold disconnectIdentities, takeRevocablesLocked. cbn [fst snd hb_heap hb_clients hb_revocables hb_conns hb_tasks set_revocables].
  set (h1 := remove_all _ _ h) in *. split_and!.
  - intros c cl Hc. rewrite P1. destruct (decide (c ∈ hb_clients h /\ test (cl_identity cl) = true)) as [[H1 H2]|Hn].
    + rewrite decide_True, Hc; [done|]. rewrite matching_clients_spec. eauto.
    + rewrite decide_False, Hc; [done|]. rewrite matching_clients_spec. intros [[? (x & Hx & ?)] ?]. apply Hn. naive_solver.
  - intros c cl Hc. rewrite C1, elem_of_difference, elem_of_list_to_set, matching_clients_spec.
    destruct (test (cl_identity cl)) eqn:E; (split; [intros [H1 H2]|intros [H1 H2]; try done]).
    + exfalso. eauto.
    + done.
    + split; [done|]. intros [_ (x & Hx & Ht)]. congruence.
  - intros x rv Hx. rewrite matching_revocables_spec, (sr_revocables _ _ S1), (sr_conns _ _ S1). naive_solver.
  - by rewrite (sr_revocables _ _ S1).
  - apply S1.
  - apply S1.
Qed.

(** The tasks that still have to revoke [r], by goroutine. *)
Definition pending (h : Hub) (r : ref) (g : ref) (code : Z) (reason : string) : Prop :=
  exists rs, (hb_tasks h !! g = Some (Revoking rs code reason)) /\ r ∈ rs.
(** The revocation of [r] is on its way, or done. *)
Definition being_revoked (h : Hub) (r : ref) (g : ref) (code : Z) (reason : string) : Prop :=
  (r ∉ hb_revocables h) /\
  (exists rv, (hb_conns h !! r = Some rv) /\ (pending h r g code reason \/ rv_revoked rv = [(code, reason)])).

Lemma being_revoked_frame h h' r g code reason :
  hb_conns h' !! r = hb_conns h !! r -> (r ∉ hb_revocables h -> r ∉ hb_revocables h') ->
  (forall rs, hb_tasks h !! g = Some (Revoking rs code reason) -> hb_tasks h' !! g = Some (Revoking rs code reason)) ->
  being_revoked h r g code reason -> being_revoked h' r g code reason.
Proof.
  intros Ec Er Et (Hr & rv & Hv & Hp). split; [by apply Er|]. exists rv. rewrite Ec. split; [done|].
  destruct Hp as [(rs & ? & ?)|?]; [left; exists rs; auto|by right].
Qed.

(** A step of the goroutine that revokes. *)
Lemma being_revoked_revoke h g' x rs code' reason' r g code reason : hub_inv h ->
  hb_tasks h !! g' = Some (Revoking (x :: rs) code' reason') -> being_revoked h r g code reason ->
  being_revoked (set_task g' (Revoking rs code' reason') (set_conns (alter (rv_revoke code' reason') x (hb_conns h)) h))
    r g code reason.
Proof.
  intros Hi Hg' (Hr & rv & Hv & Hp). pose proof (hi_tasks h Hi g' _ Hg') as [_ Hu]. apply Forall_cons in Hu as [[(rx & Hx & Hx0) _] _].
  destruct (decide (x = r)) as [->|Hn].
  - rewrite Hv in Hx. injection Hx as <-. destruct Hp as [(rs0 & Hg & Hin)|Hd]; [|congruence].
    destruct (decide (g' = g)) as [->|Hgn]; [|destruct (hi_apart h Hi g' g _ _ Hg' Hg Hgn r); [by left|done]].
    rewrite Hg in Hg'. injection Hg' as -> <- <-. split; [done|]. exists (rv_revoke code reason rv). cbn.
    rewrite lookup_alter_eq, Hv, Hx0. split; [done|by right].
  - split; [done|]. exists rv. cbn. rewrite lookup_alter_ne by done. split; [done|].
    destruct Hp as [(rs0 & Hg & Hin)|Hd]; [left|by right]. unfold pending. cbn.
    destruct (decide (g' = g)) as [->|Hgn].
    + rewrite Hg in Hg'. injection Hg' as -> <- <-. exists rs. rewrite lookup_insert_eq. split; [done|]. set_solver.
    + exists rs0. by rewrite lookup_insert_ne.
Qed.

(** [g] is not the goroutine of the step. *)
Ltac other_task :=
  intros ? ?; cbn [set_task end_task set_tasks hb_tasks then_revoke set_revocables set_clients set_subs set_heap set_conns
    set_broadcast set_returned];
  rewrite ?lookup_insert_ne, ?lookup_delete_ne by (intros ?; congruence); done.
Ltac framed := apply being_revoked_frame; [done|try done; cbn; set_solver|try other_task].

Lemma free_spec g h : free g h = true <-> hb_tasks h !! g = None.
Proof. unfold free. apply bool_decide_eq_true. Qed.
Lemma caller_free g h : caller g h = true -> hb_tasks h !! g = None.
Proof. unfold caller. intros [_ ?%free_spec]%andb_true_iff. done. Qed.

Lemma then_revoke_keeps h g' c' s' res r g code reason :
  hb_conns res.2 = hb_conns h -> hb_tasks res.2 = hb_tasks h -> hb_revocables res.2 ⊆ hb_revocables h ->
  (forall rs code reason, hb_tasks h !! g' <> Some (Revoking rs code reason)) ->
  being_revoked h r g code reason -> being_revoked (then_revoke g' c' s' res) r g code reason.
Proof.
  intros Ec Et Er Hg. apply being_revoked_frame; unfold then_revoke; cbn; rewrite ?Ec, ?Et; [done|set_solver|].
  intros rs Hrs. rewrite lookup_insert_ne; [done|]. intros ->. by apply Hg in Hrs.
Qed.

Lemma being_revoked_step a h h' r g code reason : hub_inv h -> hub_step a h = Some h' ->
  being_revoked h r g code reason -> being_revoked h' r g code reason.
Proof.
  intros Hi H Hb. destruct a; cbn [hub_step] in H.
  - destruct (negb _); [done|]. unfold Register in H. destruct (hb_done h); injection H as <-; [done|]. revert Hb. by framed.
  - step_guard. revert Hb. destruct (handleInbound_heap c msg h) as [_ Ec]. apply being_revoked_frame; [by rewrite Ec|..];
      unfold handleInbound, Subscribe, Unsubscribe; destruct msg as [m|]; cbv zeta; repeat case_match; done.
  - step_guard. destruct (removeClientLocked_spec h c "" Hi H) as (_ & [_ _ Er Ec Et _] & _). revert Hb.
    apply being_revoked_frame; rewrite ?Er, ?Ec, ?Et; done.
  - injection H as <-. unfold deliverAll. destruct (_ <? _)%nat; [|done]. revert Hb. by framed.
  - destruct (hb_broadcast h) as [|m rest]; [done|]. step_guard. unfold run_idle in *. step_guard.
    match goal with Hf : free _ _ = true |- _ => apply free_spec in Hf end. revert Hb. by framed.
  - step_guard. apply caller_free in H. revert Hb. by framed.
  - step_guard. apply caller_free in H. revert Hb. by framed.
  - destruct (hb_tasks h !! g0) as [[[|c' todo] m slow|slow|rs code' reason'|ids|rs]|] eqn:Hg; try done.
    unfold try_send in H. revert Hb. repeat case_match; simplify_eq; by framed.
  - destruct (hb_tasks h !! g0) as [[[|c' todo] m slow|slow|rs code' reason'|ids|rs]|] eqn:Hg; try done. injection H as <-.
    revert Hb. by framed.
  - destruct (hb_tasks h !! g0) as [[todo m slow|slow|rs code' reason'|ids|rs]|] eqn:Hg; try done.
    destruct (bool_decide _); [injection H as <-; revert Hb; by framed|]. step_guard.
    destruct (remove_all_spec slow "" h Hi H) as (_ & [_ _ Er Ec Et _] & _). revert Hb.
    apply being_revoked_frame; cbn; rewrite ?Er, ?Ec, ?Et; [done|done|]. intros rs Hrs.
    rewrite lookup_delete_ne by (intros ->; congruence). done.
  - step_guard. destruct (disconnectIdentities_spec (targets m) h Hi H0) as (_ & _ & _ & Er & Ec & Et).
    apply (then_revoke_keeps h); [done|done|rewrite Er; set_solver| |done]. by rewrite (caller_free _ _ H).
  - step_guard. unfold DisconnectClient. destruct (decide _); [|done].
    destruct (removeClientLocked_spec h c closeReasonRevoked Hi H) as (_ & [_ _ Er Ec Et _] & _). revert Hb.
    apply being_revoked_frame; cbn; rewrite ?Er, ?Ec, ?Et; done.
  - destruct (negb _) eqn:E; [done|]. apply negb_false_iff in E. step_guard. unfold RegisterRevocable in H.
    destruct (hb_done h); injection H as <-; [done|]. apply bool_decide_eq_true in H1. destruct Hb as (Hr & rv & Hv & Hp).
    assert (r <> r0) by congruence. split; [cbn; set_solver|]. exists rv. cbn. by rewrite lookup_insert_ne.
  - step_guard. revert Hb. by framed.
  - step_guard. apply (then_revoke_keeps h); [done|done|cbn; set_solver| |done]. by rewrite (caller_free _ _ H).
  - destruct (hb_tasks h !! g0) as [[todo m slow|slow|[|x rs] code' reason'|ids|rs]|] eqn:Hg; try done.
    + injection H as <-. destruct Hb as (Hr & rv & Hv & Hp). split; [done|]. exists rv. split; [done|].
      destruct Hp as [(rs & Hrs & Hin)|?]; [left|by right]. exists rs. cbn. destruct (decide (g0 = g)) as [->|Hn].
      * rewrite Hg in Hrs. injection Hrs as <- _ _. by apply elem_of_nil in Hin.
      * by rewrite lookup_delete_ne.
    + injection H as <-. by apply being_revoked_revoke.
  - step_guard. apply caller_free in H. revert Hb. by framed.
  - destruct (hb_tasks h !! g0) as [[todo m slow|slow|rs code' reason'|ids|rs]|] eqn:Hg; try done. step_guard.
    unfold revalidateIdentities. destruct (bool_decide _).
    + apply (then_revoke_keeps h); [done|done|done|by rewrite Hg|done].
    + destruct (disconnectIdentities_spec (fun id => bool_decide (keyOf id ∈ revokedKeys ids revoked)) h Hi H)
        as (_ & _ & _ & Er & Ec & Et). apply (then_revoke_keeps h); [done|done|rewrite Er; set_solver|by rewrite Hg|done].
  - step_guard. apply caller_free in H. revert Hb. by framed.
  - destruct (hb_tasks h !! g0) as [[todo m slow|slow|rs code' reason'|ids|rs]|] eqn:Hg; try done. step_guard.
    apply (then_revoke_keeps h); [done|done|cbn; set_solver|by rewrite Hg|done].
  - injection H as <-. revert Hb. by framed.
  - destruct (negb _) eqn:E; [done|]. apply negb_false_iff in E. rewrite !andb_true_iff in E. destruct E as [[Hd Hf] Hl].
    unfold run_idle in Hf. step_guard. apply free_spec in H0.
    destruct (closeAllClients_spec h Hi Hl) as (h1 & Ecl & I1 & [_ _ Er Ec Et _] & _). rewrite Ecl in H. injection H as <-.
    revert Hb. apply being_revoked_frame; cbn; rewrite ?Er, ?Ec, ?Et; [done|set_solver|]. intros rs Hrs.
    rewrite lookup_insert_ne; [done|]. intros <-. congruence.
  - revert Hb. unfold pump in H. repeat case_match; simplify_eq; by framed.
  - revert Hb. unfold expire in H. repeat case_match; simplify_eq; by framed.
Qed.
Lemma being_revoked_run actions h h' r g code reason : hub_inv h -> hub_run actions h = Some h' ->
  being_revoked h r g code reason -> being_revoked h' r g code reason.
Proof.
  revert h. induction actions as [|a actions IH]; intros h Hi H Hb; cbn in H; [by injection H as <-|].
  destruct (hub_step a h) as [h1|] eqn:E; [|done].
  apply (IH h1); [by eapply hub_step_inv|done|by eapply being_revoked_step].
Qed.

(** ** Properties *)

(** C26. Under every interleaving of the goroutines of the hub, no message is sent on a
    closed channel and no channel is closed twice; the registered clients are exactly the
    ones with an open channel, only they have subscriptions, no send buffer exceeds its
    bound, no connection is revoked twice, and after the shutdown of [Run] no client and
    no revocable connection is registered. *)
Theorem hub_never_panics actions h : hub_run actions NewHub = Some h ->
  hb_panic h = false /\
  (forall c, c ∈ hb_clients h <-> open_client h c) /\
  (forall i subs, hb_instanceSubs h !! i = Some subs -> subs <> ∅ /\ subs ⊆ hb_clients h) /\
  (forall c cl, hb_heap h !! c = Some cl -> (length (cl_send cl) <= sendBufferSize)%nat) /\
  (forall r rv, hb_conns h !! r = Some rv -> (length (rv_revoked rv) <= 1)%nat) /\
  (hb_returned h = true -> hb_clients h = ∅ /\ hb_revocables h = ∅).
Proof.
  intros Hrun. destruct (hub_run_inv actions NewHub h NewHub_inv Hrun) as [H1 H2 H3 H4 H5 H6 H7 H8 H9 H10].
  split_and!; try done. intros Hr. by destruct (H10 Hr).
Qed.

Lemma cuts_off_aux actions h g m h1 rest h2 :
  hub_run actions NewHub = Some h -> hub_step (ADisconnect g m) h = Some h1 -> hub_run rest h1 = Some h2 ->
  (forall c cl, hb_heap h !! c = Some cl -> targets m (cl_identity cl) = true -> (c ∉ hb_clients h2) /\
     exists cl2, hb_heap h2 !! c = Some cl2 /\ cl_closed cl2 = true /\
       (c ∈ hb_clients h -> cl_closeReason cl2 = closeReasonRevoked) /\
       forall t, TextFrame t ∈ cl_frames cl2 -> TextFrame t ∈ cl_frames cl \/ t ∈ cl_send cl) /\
  (forall r rv, r ∈ hb_revocables h -> hb_conns h !! r = Some rv -> targets m (rv_Identity rv) = true ->
     being_revoked h2 r g CloseCodePolicyViolation closeReasonRevoked) /\
  (forall c cl, hb_heap h !! c = Some cl -> targets m (cl_identity cl) = false ->
     hb_heap h1 !! c = Some cl /\ (c ∈ hb_clients h1 <-> c ∈ hb_clients h)).
Proof.
  intros H0 H1 H2. pose proof (hub_run_inv _ _ _ NewHub_inv H0) as Hi. pose proof (hub_step_inv _ _ _ Hi H1) as Hi1.
  pose proof (hub_run_inv _ _ _ Hi1 H2) as Hi2. cbn [hub_step] in H1. apply only_if_some in H1 as [[Hf Hl]%andb_true_iff ->].
  destruct (disconnectIdentities_spec (targets m) h Hi Hl) as (P1 & C1 & R1 & Er & Ec & Et). split_and!.
  - intros c cl Hc Ht. assert (Hcl : exists cl1, hb_heap (then_revoke g CloseCodePolicyViolation closeReasonRevoked
        (disconnectIdentities (targets m) h)) !! c = Some cl1 /\ cl_closed cl1 = true /\ cl_frames cl1 = cl_frames cl /\
        cl_send cl1 = cl_send cl /\ (c ∈ hb_clients h -> cl_closeReason cl1 = closeReasonRevoked)).
    { pose proof (P1 c cl Hc) as Hc1. destruct (decide (c ∈ hb_clients h /\ targets m (cl_identity cl) = true)) as [Hin|Hn].
      - eexists. split; [exact Hc1|done].
      - exists cl. split_and!; try done; [|by intros ?; destruct Hn]. destruct (cl_closed cl) eqn:Ho; [done|].
        destruct Hn. split; [|done]. apply (hi_clients h Hi). by exists cl. }
    destruct Hcl as (cl1 & L1 & O1 & F1 & S1 & Rs1). destruct (hub_run_closed rest _ h2 c cl1 Hi1 H2 L1 O1) as (cl2 & L2 & [D1 D2 D3 D4 D5]).
    split; [intros (x & Hx & ?)%(hi_clients h2 Hi2); congruence|]. exists cl2. split_and!; [done|done| |].
    + intros Hin. rewrite D3. auto.
    + intros t Ht2. rewrite <- F1, <- S1. auto.
  - intros r rv Hr Hv Ht. apply (being_revoked_run rest _ h2 r g _ _ Hi1 H2). pose proof (proj2 (R1 r rv Hv) (conj Hr Ht)) as Hin.
    split; [change (r ∉ hb_revocables (disconnectIdentities (targets m) h).2); rewrite Er; set_solver|]. exists rv.
    split; [exact (eq_trans (f_equal (lookup r) Ec) Hv)|left]. exists (disconnectIdentities (targets m) h).1.2.
    split; [|done]. cbn. by rewrite lookup_insert_eq.
  - intros c cl Hc Ht. pose proof (P1 c cl Hc) as Hc1. rewrite decide_False in Hc1 by (intros [_ ?]; congruence).
    split; [exact Hc1|]. change (c ∈ hb_clients (disconnectIdentities (targets m) h).2 <-> c ∈ hb_clients h).
    rewrite (C1 c cl Hc), Ht. naive_solver.
Qed.

(** After a revocation (of a user, of a token, of an API key, or of the sessions of
    a user that began before a time) in any reachable state: every client with such an
    identity is out of the hub for good, its channel is closed with the reason "session
    revoked", and whatever happens next it only gets messages that were in its buffer
    before; every registered connection with such an identity leaves the set and gets
    exactly the close code 1008; the other clients keep their registration and their
    channel. *)
Theorem revocation_cuts_off actions h g m h1 rest h2 :
  hub_run actions NewHub = Some h -> hub_step (ADisconnect g m) h = Some h1 -> hub_run rest h1 = Some h2 ->
  (forall c cl, hb_heap h !! c = Some cl -> targets m (cl_identity cl) = true -> (c ∉ hb_clients h2) /\
     exists cl2, hb_heap h2 !! c = Some cl2 /\ cl_closed cl2 = true /\
       (c ∈ hb_clients h -> cl_closeReason cl2 = closeReasonRevoked) /\
       forall t, TextFrame t ∈ cl_frames cl2 -> TextFrame t ∈ cl_frames cl \/ t ∈ cl_send cl) /\
  (forall r rv, r ∈ hb_revocables h -> hb_conns h !! r = Some rv -> targets m (rv_Identity rv) = true ->
     being_revoked h2 r g CloseCodePolicyViolation closeReasonRevoked) /\
  (forall c cl, hb_heap h !! c = Some cl -> targets m (cl_identity cl) = false ->
     hb_heap h1 !! c = Some cl /\ (c ∈ hb_clients h1 <-> c ∈ hb_clients h)).
Proof. apply cuts_off_aux. Qed.

(** The revalidation closes the clients whose identity the checker revoked, and no
    other: none when the result has the wrong size. *)
Theorem revalidation_closes_revoked identities revoked h c cl :
  hub_inv h -> lockable h = true -> hb_heap h !! c = Some cl -> c ∈ hb_clients h ->
  (c ∉ hb_clients (revalidateIdentities identities revoked h).2 <-> keyOf (cl_identity cl) ∈ revokedKeys identities revoked).
Proof.
  intros Hi Hl Hc Hin. unfold revalidateIdentities. destruct (bool_decide (revokedKeys identities revoked = [])) eqn:E.
  - apply bool_decide_eq_true in E. rewrite E. cbn. split; [done|]. by intros ?%elem_of_nil.
  - destruct (disconnectIdentities_spec (fun id => bool_decide (keyOf id ∈ revokedKeys identities revoked)) h Hi Hl)
      as (_ & C1 & _). rewrite (C1 c cl Hc), bool_decide_eq_false. destruct (decide (keyOf (cl_identity cl) ∈ revokedKeys identities revoked)); naive_solver.
Qed.
Theorem revokedKeys_spec identities revoked k :
  k ∈ revokedKeys identities revoked <->
  length revoked = length identities /\ exists n id, identities !! n = Some id /\ revoked !! n = Some true /\ keyOf id = k.
Proof.
  unfold revokedKeys. destruct (length revoked =? length identities)%nat eqn:E; cbn [negb].
  - apply Nat.eqb_eq in E. rewrite list_elem_of_omap. split.
    + intros ([id b] & Hin & Hb). cbn in Hb. destruct b; [|done]. injection Hb as <-. split; [done|].
      apply list_elem_of_lookup in Hin as (n & Hn). apply lookup_zip_Some in Hn as [? ?]. by exists n, id.
    + intros (_ & n & id & H1 & H2 & <-). exists (id, true). split; [|done].
      apply list_elem_of_lookup. exists n. by apply lookup_zip_Some.
  - apply Nat.eqb_neq in E. split; [by intros ?%elem_of_nil|]. by intros [? _].
Qed.

(** ** A run: two users, a broadcast, a revocation and the shutdown. *)

Definition token_of (user jti : string) : ClientIdentity := mkClientIdentity 0 (5 * Second) user jti "" "".
Definition demo_conn : Revocable := mkRevocable (token_of "u1" "t1") "i1" "exec" [].
Definition demo_start : list Action :=
  [ANewClient 2 (token_of "u1" "t1"); ANewClient 3 (token_of "u2" "t2"); ARegisterRevocable 2 demo_conn;
   AInbound 2 (Some (mkInbound "subscribe" (Some "i1"))); ADeliverAll "hello"; ARunBroadcast [3; 2]%positive;
   ASend 1; AReceive 3 false; ASend 1; AEndSend 1; ADrop 1].
Definition demo_end : list Action :=
  [ADeliverAll "later"; ARunBroadcast [3]%positive; ASend 1; AReceive 2 false; AReceive 2 false; ARevoke 5; AEndSend 1;
   ADrop 1; ARevoke 5; AShutdown; ACloseAll; AReceive 3 false].

Lemma hub_never_panics_witness :
  exists h, hub_run (demo_start ++ [ADisconnect 5 (UserTarget "u1")] ++ demo_end) NewHub = Some h /\
    hb_panic h = false /\ hb_returned h = true.
Proof.
  destruct (hub_run (demo_start ++ [ADisconnect 5 (UserTarget "u1")] ++ demo_end) NewHub) as [h|] eqn:E; [|by vm_compute in E].
  exists h. split_and!; [done|by apply (hub_never_panics _ h E)|].
  assert (option_map hb_returned (hub_run (demo_start ++ [ADisconnect 5 (UserTarget "u1")] ++ demo_end) NewHub) = Some true)
    as Hr by (vm_compute; reflexivity). rewrite E in Hr. by injection Hr.
Defined.

Definition demo_before : Hub := default NewHub (hub_run demo_start NewHub).
Definition demo_at : Hub := default NewHub (hub_step (ADisconnect 5 (UserTarget "u1")) demo_before).
Definition demo_after : Hub := default NewHub (hub_run demo_end demo_at).
Lemma revocation_cuts_off_witness :
  (2%positive ∉ hb_clients demo_after) /\ (being_revoked demo_after 2 5 CloseCodePolicyViolation closeReasonRevoked) /\
  (cl_frames <$> hb_heap demo_after !! 2%positive) = Some [CloseFrame "session revoked"; TextFrame "hello"] /\
  (rv_revoked <$> hb_conns demo_after !! 2%positive) = Some [(CloseCodePolicyViolation, closeReasonRevoked)].
Proof.
  assert (E0 : hub_run demo_start NewHub = Some demo_before) by (vm_compute; reflexivity).
  assert (E1 : hub_step (ADisconnect 5 (UserTarget "u1")) demo_before = Some demo_at) by (vm_compute; reflexivity).
  assert (E2 : hub_run demo_end demo_at = Some demo_after) by (vm_compute; reflexivity).
  destruct (revocation_cuts_off _ _ _ _ _ _ _ E0 E1 E2) as (Hc & Hr & _). split_and!.
  - eapply Hc; [vm_compute; reflexivity|vm_compute; reflexivity].
  - eapply Hr; [|vm_compute; reflexivity|vm_compute; reflexivity].
    apply (bool_decide_unpack _). vm_compute. exact I.
  - vm_compute. reflexivity.
  - vm_compute. reflexivity.
Defined.
