(* ===== verification/Fanout.v ===== *)
(** * The fan-out of messages and revocations between replicas

    [backend/internal/websocket/fanout.go] with the table [ws_events]
    ([database/ws_event_repository.go], [models/ws_event.go]).  The state that the
    replicas share is the table of the visible rows and the next ID.  The poller of one
    replica keeps its position in [Poller]; its hub calls are the events of its trace.
    What the other replicas do between two statements is in the environment, and so are
    the rows that were inserted and are not committed: they are not in the table yet.
    The queue of the writer is a list.  IDs are unbounded here (the code has int64) and
    start at 1.  Metrics are left out; of the logs the warnings about lost IDs and about
    a restart of the IDs are events. *)

From stdpp Require Import sorting.
From S2P Require Import Prelude Models Store Durations Sessions Effects Hub.
Local Open Scope string_scope.
Local Open Scope list_scope.
Local Open Scope Z_scope.

(** ** Constants and configuration *)

Definition DefaultFanoutPollInterval : Z := 500 * Millisecond.
Definition DefaultFanoutRetention : Z := 5 * Minute.
Definition DefaultFanoutCleanupInterval : Z := Minute.
Definition defaultFanoutPollBatch : Z := 500.
Definition defaultFanoutBufferSize : Z := 4096.
Definition defaultFanoutWriteBatch : Z := 200.
Definition defaultFanoutMaxPayload : Z := 512 * 1024.
Definition defaultFanoutGapTimeout : Z := 10 * Second.
Definition defaultFanoutMaxAge : Z := 30 * Second.
Definition defaultFanoutFlushTimeout : Z := 2 * Second.
Definition fanoutWriteBatchBytes : Z := 2 ^ 20.
Definition fanoutMaxPagesPerPoll : nat := 20.
Definition fanoutMaxGapSpan : Z := 1000.
Definition fanoutMaxMissing : Z := 10000.
Definition fanoutIDsPerRecheck : nat := 500.
Definition fanoutCleanupBatch : Z := 5000.
Definition fanoutRestartCheckEvery : Z := 20.
Definition fanoutStartReplicas : Z := 5.

Record FanoutConfig := mkFanoutConfig {
  fc_Origin : string;
  fc_PollInterval : Z;
  fc_GapTimeout : Z;
  fc_MaxAge : Z;
  fc_PollBatch : Z;
  fc_BufferSize : Z;
  fc_WriteBatch : Z;
  fc_MaxPayloadBytes : Z
}.
Definition or_default (v d : Z) : Z := if v <=? 0 then d else v.
Definition withDefaults (c : FanoutConfig) : FanoutConfig :=
  mkFanoutConfig (fc_Origin c) (or_default (fc_PollInterval c) DefaultFanoutPollInterval)
    (or_default (fc_GapTimeout c) defaultFanoutGapTimeout) (or_default (fc_MaxAge c) defaultFanoutMaxAge)
    (or_default (fc_PollBatch c) defaultFanoutPollBatch) (or_default (fc_BufferSize c) defaultFanoutBufferSize)
    (or_default (fc_WriteBatch c) defaultFanoutWriteBatch) (or_default (fc_MaxPayloadBytes c) defaultFanoutMaxPayload).

(** ** The table *)

Record WSEvent := mkWSEvent {
  we_ID : Z;
  we_CreatedAt : time;
  we_Target : string;
  we_Origin : string;
  we_Payload : string
}.
#[global] Instance WSEvent_eq_dec : EqDecision WSEvent.
Proof. solve_decision. Defined.

Record EventTable := mkEventTable { et_rows : gmap Z WSEvent; et_next : Z }.

Definition WSEventTargetAll : string := "all".
Definition WSEventTargetInstancePrefix : string := "instance:".
Definition WSEventTargetUserPrefix : string := "user:".
Definition WSEventTargetRevokeUserPrefix : string := "revoke:user:".
Definition WSEventTargetRevokeTokenPrefix : string := "revoke:token:".
Definition WSEventTargetRevokeAPIKeyPrefix : string := "revoke:apikey:".

(** ** Calls of the hub *)

(** What a row makes the hub of another replica do. *)
Inductive HubCall :=
| DeliverAll (message : string)
| DeliverInstance (instanceID message : string)
| DeliverUser (userID message : string)
| CloseUser (userID : string) (at_ : time)
| CloseToken (tokenID : string)
| CloseAPIKey (keyID : string).

(** The cases of [deliver]; [None]: an unknown target. *)
Definition call_of (ev : WSEvent) : option HubCall :=
  let t := we_Target ev in
  If HasPrefix t WSEventTargetRevokeUserPrefix
    Return Some (CloseUser (TrimPrefix t WSEventTargetRevokeUserPrefix) (we_CreatedAt ev)) ;;
  If HasPrefix t WSEventTargetRevokeTokenPrefix
    Return Some (CloseToken (TrimPrefix t WSEventTargetRevokeTokenPrefix)) ;;
  If HasPrefix t WSEventTargetRevokeAPIKeyPrefix
    Return Some (CloseAPIKey (TrimPrefix t WSEventTargetRevokeAPIKeyPrefix)) ;;
  If (t =? WSEventTargetAll)%string Return Some (DeliverAll (we_Payload ev)) ;;
  If HasPrefix t WSEventTargetInstancePrefix
    Return Some (DeliverInstance (TrimPrefix t WSEventTargetInstancePrefix) (we_Payload ev)) ;;
  If HasPrefix t WSEventTargetUserPrefix
    Return Some (DeliverUser (TrimPrefix t WSEventTargetUserPrefix) (we_Payload ev)) ;;
  None.

(** The public calls of the hub that reach the other replicas, and the target and the
    payload that they publish; [None]: nothing (an empty ID). *)
Inductive HubRequest :=
| Broadcast (message : string)
| BroadcastToInstance (instanceID message : string)
| BroadcastToUser (userID message : string)
| DisconnectUser (userID : string)
| DisconnectToken (tokenID : string)
| DisconnectAPIKey (keyID : string).
Definition published (q : HubRequest) : option (string * string) :=
  match q with
  | Broadcast m => Some (WSEventTargetAll, m)
  | BroadcastToInstance i m => Some (WSEventTargetInstancePrefix +:+ i, m)
  | BroadcastToUser u m => If (u =? "")%string Return None ;; Some (WSEventTargetUserPrefix +:+ u, m)
  | DisconnectUser u => If (u =? "")%string Return None ;; Some (WSEventTargetRevokeUserPrefix +:+ u, "")
  | DisconnectToken j => If (j =? "")%string Return None ;; Some (WSEventTargetRevokeTokenPrefix +:+ j, "")
  | DisconnectAPIKey k => If (k =? "")%string Return None ;; Some (WSEventTargetRevokeAPIKeyPrefix +:+ k, "")
  end.
(** The step of the hub that such a call makes on its own replica, and the step that a
    call of the poller makes. *)
Definition local_step (g : ref) (q : HubRequest) (order : list ref) : Action :=
  match q with
  | Broadcast m => ADeliverAll m
  | BroadcastToInstance i m => ADeliverInstance g i m order
  | BroadcastToUser u m => ADeliverUser g u m order
  | DisconnectUser u => ADisconnect g (UserTarget u)
  | DisconnectToken j => ADisconnect g (TokenTarget j)
  | DisconnectAPIKey k => ADisconnect g (APIKeyTarget k)
  end.
Definition call_step (g : ref) (c : HubCall) (order : list ref) : Action :=
  match c with
  | DeliverAll m => ADeliverAll m
  | DeliverInstance i m => ADeliverInstance g i m order
  | DeliverUser u m => ADeliverUser g u m order
  | CloseUser u t => ADisconnect g (UserIssuedBefore u t)
  | CloseToken j => ADisconnect g (TokenTarget j)
  | CloseAPIKey k => ADisconnect g (APIKeyTarget k)
  end.

(** ** Statements *)

Inductive FanoutEvent :=
| FDeliver (ev : WSEvent) (now : time) (call : HubCall)
| FSkip (ev : WSEvent) (now : time) (reason : string)
| FUntracked (from to : Z)
| FRestart
| FInsert (rows : list WSEvent)
| FDelete (upto : Z) (before : time).
Local Abbreviation F := (Eff EventTable FanoutEvent unit).

(** The rows in ID order. *)
Definition ordered_ids (t : EventTable) : list Z := merge_sort Z.le (List.map fst (map_to_list (et_rows t))).
Definition ordered_rows (t : EventTable) : list WSEvent := omap (fun id => et_rows t !! id) (ordered_ids t).
(** [CASE WHEN origin = ? THEN '' ELSE payload END]. *)
Definition without_own_payload (origin : string) (ev : WSEvent) : WSEvent :=
  if (we_Origin ev =? origin)%string then mkWSEvent (we_ID ev) (we_CreatedAt ev) (we_Target ev) (we_Origin ev) "" else ev.
Definition max_id (t : EventTable) : Z := default 0 (last (ordered_ids t)).
Definition rows_after (afterID limit : Z) (origin : string) (t : EventTable) : list WSEvent :=
  map (without_own_payload origin)
    (take (Z.to_nat limit) (filter (fun ev => afterID < we_ID ev) (ordered_rows t))).
Definition rows_with (ids : list Z) (origin : string) (t : EventTable) : list WSEvent :=
  map (without_own_payload origin) (filter (fun ev => we_ID ev ∈ ids) (ordered_rows t)).

Definition MaxID : F (res Z) := eread (fun _ t => max_id t).
Definition ListAfter (afterID limit : Z) (origin : string) : F (res (list WSEvent)) :=
  eread (fun _ t => rows_after afterID limit origin t).
Definition IDsAfter (afterID limit : Z) : F (res (list Z)) :=
  eread (fun _ t => take (Z.to_nat limit) (filter (fun id => afterID < id) (ordered_ids t))).
Definition ListByIDs (ids : list Z) (origin : string) : F (res (list WSEvent)) :=
  If bool_decide (ids = []) Return eret (Ok []) ;;
  eread (fun _ t => rows_with ids origin t).

(** One INSERT gives its rows the next IDs. *)
Definition set_id (id : Z) (ev : WSEvent) : WSEvent :=
  mkWSEvent id (we_CreatedAt ev) (we_Target ev) (we_Origin ev) (we_Payload ev).
Fixpoint insert_rows (events : list WSEvent) (t : EventTable) : EventTable :=
  match events with
  | [] => t
  | ev :: events' =>
      insert_rows events' (mkEventTable (<[et_next t := set_id (et_next t) ev]> (et_rows t)) (et_next t + 1))
  end.
Definition Insert (events : list WSEvent) : F error :=
  If bool_decide (events = []) Return eret None ;;
  let? r := ewrite (fun _ t => (Ok tt, insert_rows events t)) (FInsert events) in
  eret (match r with Ok _ => None | Err e => Some e end).

(** ** The poller *)

Record Poller := mkPoller {
  po_lastID : Z;
  po_started : bool;
  po_missing : gmap Z time;
  po_emptyPolls : Z;
  po_delivered : Z;
  po_skipped : Z
}.
Definition NewPoller : Poller := mkPoller 0 false ∅ 0 0 0.
Definition po_set_lastID v p := mkPoller v (po_started p) (po_missing p) (po_emptyPolls p) (po_delivered p) (po_skipped p).
Definition po_start v p := mkPoller v true (po_missing p) (po_emptyPolls p) (po_delivered p) (po_skipped p).
Definition po_set_missing v p := mkPoller (po_lastID p) (po_started p) v (po_emptyPolls p) (po_delivered p) (po_skipped p).
Definition po_add_emptyPoll p :=
  mkPoller (po_lastID p) (po_started p) (po_missing p) (po_emptyPolls p + 1) (po_delivered p) (po_skipped p).
Definition po_add_delivered p :=
  mkPoller (po_lastID p) (po_started p) (po_missing p) (po_emptyPolls p) (po_delivered p + 1) (po_skipped p).
Definition po_add_skipped p :=
  mkPoller (po_lastID p) (po_started p) (po_missing p) (po_emptyPolls p) (po_delivered p) (po_skipped p + 1).

Section poller.
Context (cfg : FanoutConfig).

(** [f.skip(reason)]. *)
Definition skip (ev : WSEvent) (now : time) (reason : string) (p : Poller) : F Poller :=
  do? eemit (FSkip ev now reason) in eret (po_add_skipped p).

Definition deliver (ev : WSEvent) (p : Poller) : F Poller :=
  If (we_Origin ev =? fc_Origin cfg)%string Return eret p ;;
  let? now := eclock in
  If negb (IsZero (we_CreatedAt ev)) && (fc_MaxAge cfg <? Sub now (we_CreatedAt ev)) Return skip ev now "stale" p ;;
  match call_of ev with
  | None => skip ev now "unknown_target" p
  | Some call => do? eemit (FDeliver ev now call) in eret (po_add_delivered p)
  end.

(** The loop of [trackGap]: the tracked IDs, and the first ID that did not fit. *)
Fixpoint track_ids (ids : list Z) (deadline : time) (missing : gmap Z time) : gmap Z time * option Z :=
  match ids with
  | [] => (missing, None)
  | id :: ids' =>
      If fanoutMaxMissing <=? Z.of_nat (size missing) Return (missing, Some id) ;;
      track_ids ids' deadline (<[id := deadline]> missing)
  end.
Definition trackGap (from to : Z) (p : Poller) : F Poller :=
  let span := to - from + 1 in
  If fanoutMaxGapSpan <? span Return (do? eemit (FUntracked from to) in eret p) ;;
  let? now := eclock in
  let '(missing, refused) := track_ids (seqZ from span) (now + fc_GapTimeout cfg) (po_missing p) in
  do? (match refused with Some id => eemit (FUntracked id to) | None => eret tt end) in
  eret (po_set_missing missing p).

Fixpoint consume (rows : list WSEvent) (p : Poller) : F Poller :=
  match rows with
  | [] => eret p
  | ev :: rows' =>
      If we_ID ev <=? po_lastID p Return consume rows' p ;;
      let? p1 := if po_lastID p + 1 <? we_ID ev then trackGap (po_lastID p + 1) (we_ID ev - 1) p else eret p in
      let? p2 := deliver ev (po_set_lastID (we_ID ev) p1) in
      consume rows' p2
  end.

Definition trackStartWindow (maxID : Z) (p : Poller) : F (error * Poller) :=
  let window := fc_WriteBatch cfg * fanoutStartReplicas in
  let from := Z.max (maxID - window) 0 in
  If maxID <=? from Return eret (None, p) ;;
  let? r := IDsAfter from (maxID - from) in
  match r with
  | Err e => eret (Some e, p)
  | Ok ids =>
      let? now := eclock in
      let unseen := filter (fun id => id ∉ ids) (seqZ (from + 1) (maxID - from)) in
      eret (None, po_set_missing (track_ids unseen (now + fc_GapTimeout cfg) (po_missing p)).1 p)
  end.

Definition checkIDRestart (p : Poller) : F Poller :=
  let? r := MaxID in
  match r with
  | Err _ => eret p
  | Ok maxID =>
      If (maxID <=? 0) || (po_lastID p <=? maxID) Return eret p ;;
      do? eemit FRestart in
      eret (po_set_missing ∅ (po_set_lastID 0 p))
  end.

Fixpoint recheck_rows (rows : list WSEvent) (p : Poller) : F Poller :=
  match rows with
  | [] => eret p
  | ev :: rows' =>
      If negb (bool_decide (is_Some (po_missing p !! we_ID ev))) Return recheck_rows rows' p ;;
      let? p1 := deliver ev (po_set_missing (delete (we_ID ev) (po_missing p)) p) in
      recheck_rows rows' p1
  end.
(** The queries of at most 500 IDs; [false]: one of them failed. *)
Fixpoint recheck_chunks (fuel : nat) (ids : list Z) (p : Poller) : F (bool * Poller) :=
  match fuel, ids with
  | 0%nat, _ | _, [] => eret (true, p)
  | S fuel', _ =>
      let? r := ListByIDs (take fanoutIDsPerRecheck ids) (fc_Origin cfg) in
      match r with
      | Err _ => eret (false, p)
      | Ok rows => let? p1 := recheck_rows rows p in recheck_chunks fuel' (drop fanoutIDsPerRecheck ids) p1
      end
  end.
Definition recheckGaps (p : Poller) : F Poller :=
  If bool_decide (po_missing p = ∅) Return eret p ;;
  let ids := merge_sort Z.le (List.map fst (map_to_list (po_missing p))) in
  let? r := recheck_chunks (length ids) ids p in
  If negb r.1 Return eret r.2 ;;
  let? now := eclock in
  eret (po_set_missing (filter (fun kv : Z * time => now <= kv.2) (po_missing r.2)) r.2).

Fixpoint read_pages (left : nat) (first : bool) (p : Poller) : F Poller :=
  match left with
  | 0%nat => eret p
  | S left' =>
      let? stopped := ectx in
      If bool_decide (is_Some stopped) Return eret p ;;
      let? r := ListAfter (po_lastID p) (fc_PollBatch cfg) (fc_Origin cfg) in
      match r with
      | Err _ => eret p
      | Ok rows =>
          If first && bool_decide (rows = []) Return (
            let p1 := po_add_emptyPoll p in
            If po_emptyPolls p1 mod fanoutRestartCheckEvery =? 0 Return checkIDRestart p1 ;;
            eret p1) ;;
          let? p1 := consume rows p in
          If Z.of_nat (length rows) <? fc_PollBatch cfg Return eret p1 ;;
          read_pages left' false p1
      end
  end.

(** The start of the poller; [false]: a query failed, the next tick tries again. *)
Definition start (p : Poller) : F (bool * Poller) :=
  If po_started p Return eret (true, p) ;;
  let? r := MaxID in
  match r with
  | Err _ => eret (false, p)
  | Ok maxID =>
      let? w := trackStartWindow maxID p in
      If bool_decide (is_Some w.1) Return eret (false, w.2) ;;
      eret (true, po_start maxID w.2)
  end.
Definition poll (p : Poller) : F Poller :=
  let? r := start p in
  If negb r.1 Return eret r.2 ;;
  let? p2 := recheckGaps r.2 in
  read_pages fanoutMaxPagesPerPoll true p2.

(** [pollLoop]: [n] ticks. *)
Fixpoint pollLoop (n : nat) (p : Poller) : F Poller :=
  match n with
  | 0%nat => eret p
  | S n' => let? p1 := poll p in pollLoop n' p1
  end.
End poller.

(** ** The writer *)

Record FanoutStats := mkFanoutStats { fs_Written : Z; fs_Dropped : Z }.
Record Writer := mkWriter { wr_queue : list WSEvent; wr_stopped : bool; wr_stats : FanoutStats }.
Definition add_dropped (n : Z) (s : FanoutStats) : FanoutStats := mkFanoutStats (fs_Written s) (fs_Dropped s + n).
Definition add_written (n : Z) (s : FanoutStats) : FanoutStats := mkFanoutStats (fs_Written s + n) (fs_Dropped s).
Definition wr_set_queue v w := mkWriter v (wr_stopped w) (wr_stats w).
Definition wr_count (f : FanoutStats -> FanoutStats) w := mkWriter (wr_queue w) (wr_stopped w) (f (wr_stats w)).
Definition wr_stop w := mkWriter (wr_queue w) true (wr_stats w).

Section writer.
Context (cfg : FanoutConfig).

Definition publish (target message : string) (now : time) (w : Writer) : Writer :=
  If wr_stopped w Return w ;;
  If fc_MaxPayloadBytes cfg <? Z.of_nat (String.length message) Return wr_count (add_dropped 1) w ;;
  let ev := mkWSEvent 0 now target (fc_Origin cfg) message in
  If Z.of_nat (length (wr_queue w)) <? fc_BufferSize cfg Return wr_set_queue (wr_queue w ++ [ev]) w ;;
  wr_count (add_dropped 1) w.

Definition payload_size (batch : list WSEvent) : Z :=
  foldr (fun ev n => Z.of_nat (String.length (we_Payload ev)) + n) 0 batch.
(** The batch and what stays in the queue. *)
Fixpoint fill (queue batch : list WSEvent) (size : Z) : list WSEvent * list WSEvent :=
  If negb ((Z.of_nat (length batch) <? fc_WriteBatch cfg) && (size <? fanoutWriteBatchBytes)) Return (batch, queue) ;;
  match queue with
  | [] => (batch, [])
  | ev :: queue' => fill queue' (batch ++ [ev]) (size + Z.of_nat (String.length (we_Payload ev)))
  end.
Definition fillBatch (batch queue : list WSEvent) : list WSEvent * list WSEvent := fill queue batch (payload_size batch).

(** A failed batch is dropped. *)
Definition write (batch : list WSEvent) (w : Writer) : F Writer :=
  let? err := Insert batch in
  let n := Z.of_nat (length batch) in
  eret (wr_count (if bool_decide (is_Some err) then add_dropped n else add_written n) w).

(** One round of [writeLoop]; it blocks on an empty queue. *)
Definition writeRound (w : Writer) : F Writer :=
  match wr_queue w with
  | [] => eret w
  | ev :: queue => let '(batch, rest) := fillBatch [ev] queue in write batch (wr_set_queue rest w)
  end.
(** The loop of [flush] until [deadline], with a bound on its rounds. *)
Fixpoint flush_rounds (fuel : nat) (deadline : time) (w : Writer) : F Writer :=
  match fuel with
  | 0%nat => eret w
  | S fuel' =>
      let? now := eclock in
      If negb (now <? deadline) Return eret w ;;
      let '(batch, rest) := fillBatch [] (wr_queue w) in
      If bool_decide (batch = []) Return eret w ;;
      let? w1 := write batch (wr_set_queue rest w) in
      flush_rounds fuel' deadline w1
  end.
Definition flush (w : Writer) : F Writer :=
  let? now := eclock in
  let? w1 := flush_rounds (S (length (wr_queue w))) (now + defaultFanoutFlushTimeout) w in
  eret (wr_count (add_dropped (Z.of_nat (length (wr_queue w1)))) w1).
End writer.

(** ** The cleanup *)

Definition defaultWSEventDeleteBatch : Z := 5000.
Definition old_ids (before : time) (limit : Z) (t : EventTable) : list Z :=
  take (Z.to_nat limit) (omap (fun ev => if we_CreatedAt ev <? before then Some (we_ID ev) else None) (ordered_rows t)).
Definition delete_rows (upto : Z) (before : time) (t : EventTable) : Z * EventTable :=
  let rows := filter (fun kv : Z * WSEvent => ~ (we_ID kv.2 <= upto /\ we_CreatedAt kv.2 < before)) (et_rows t) in
  (Z.of_nat (size (et_rows t) - size rows), mkEventTable rows (et_next t)).

(** The loop of [DeleteOlderThan]; [None]: the fuel is too small. *)
Fixpoint delete_batches (fuel : nat) (before : time) (batchSize total : Z) : F (option (Z * error)) :=
  match fuel with
  | 0%nat => eret None
  | S fuel' =>
      let? stopped := ectx in
      If bool_decide (is_Some stopped) Return eret (Some (total, stopped)) ;;
      let? r := eread (fun _ t => old_ids before batchSize t) in
      match r with
      | Err e => eret (Some (total, Some e))
      | Ok ids =>
          match last ids with
          | None => eret (Some (total, None))
          | Some upto =>
              let? d := ewrite (fun _ t => let '(n, t1) := delete_rows upto before t in (Ok n, t1)) (FDelete upto before) in
              match d with
              | Err e => eret (Some (total, Some e))
              | Ok n =>
                  If Z.of_nat (length ids) <? batchSize Return eret (Some (total + n, None)) ;;
                  delete_batches fuel' before batchSize (total + n)
              end
          end
      end
  end.
Definition DeleteOlderThan (fuel : nat) (before : time) (batchSize : Z) : F (option (Z * error)) :=
  delete_batches fuel before (if batchSize <=? 0 then defaultWSEventDeleteBatch else batchSize) 0.
(** [cleanup] of the event cleaner. *)
Definition cleanup (fuel : nat) (retention : Z) : F (option (Z * error)) :=
  let? now := eclock in DeleteOlderThan fuel (now - retention) fanoutCleanupBatch.

(** ** Log lines *)

Record logLimiter := mkLogLimiter { ll_last : time; ll_every : Z; ll_suppressed : Z }.
Definition allow (now : time) (l : logLimiter) : bool * Z * logLimiter :=
  If negb (IsZero (ll_last l)) && (Sub now (ll_last l) <? ll_every l)
    Return (false, 0, mkLogLimiter (ll_last l) (ll_every l) (ll_suppressed l + 1)) ;;
  (true, ll_suppressed l, mkLogLimiter now (ll_every l) 0).
