(* ===== verification/FanoutRules.v ===== *)
(** * The fan-out delivers each row once and loses none

    Two invariants of the poller, preserved by each of its functions under any behaviour
    of the database and of the other replicas: no row is delivered twice between two
    restarts of the IDs ([once]), and an ID that can still get a row stays pending
    ([alive]): above the read position, or tracked as missing.  From the second one
    follow the delivery of the rows that commit late, and the delivery within one poll
    that meets no fault. *)

From stdpp Require Import sorting.
From S2P Require Import Prelude Models Store Durations Sessions Effects Hub Fanout.
Local Open Scope string_scope.
Local Open Scope list_scope.
Local Open Scope Z_scope.

Local Abbreviation env := (Env EventTable unit).

(** ** The events of a trace *)

(** The IDs delivered since the last restart of the IDs (the newest event is first). *)
Fixpoint delivered_ids (tr : list FanoutEvent) : list Z :=
  match tr with
  | [] => []
  | FRestart :: _ => []
  | FDeliver ev _ _ :: tr' => we_ID ev :: delivered_ids tr'
  | _ :: tr' => delivered_ids tr'
  end.
(** No row is delivered again before a restart. *)
Fixpoint no_repeat (tr : list FanoutEvent) : Prop :=
  match tr with
  | [] => True
  | FDeliver ev _ _ :: tr' => (we_ID ev ∉ delivered_ids tr') /\ no_repeat tr'
  | _ :: tr' => no_repeat tr'
  end.
Definition stale (cfg : FanoutConfig) (ev : WSEvent) (now : time) : Prop :=
  we_CreatedAt ev <> 0 /\ fc_MaxAge cfg < Sub now (we_CreatedAt ev).
(** A row is delivered by what its target says, and only when it is fresh and of another
    replica. *)
Definition event_ok (cfg : FanoutConfig) (e : FanoutEvent) : Prop :=
  match e with
  | FDeliver ev now call => call_of ev = Some call /\ we_Origin ev <> fc_Origin cfg /\ ~ stale cfg ev now
  | FSkip ev now _ => we_Origin ev <> fc_Origin cfg /\ (stale cfg ev now \/ call_of ev = None)
  | FUntracked _ _ | FRestart => True
  | FInsert _ | FDelete _ _ => False
  end.

(** Traces of consecutive parts. *)
Ltac rebracket := intros ? ?; cbv beta; cbn [app]; rewrite ?app_nil_r, ?app_assoc; done.

(** ** The parts of the poller *)

Section poller.
Context (cfg : FanoutConfig) (R : env -> Prop) (I : EventTable -> Prop) (HI : stable R I).
Local Abbreviation traced := (traced R I).

(** Position and missing IDs unchanged. *)
Definition same_position (p p' : Poller) : Prop :=
  po_lastID p' = po_lastID p /\ po_missing p' = po_missing p /\ po_started p' = po_started p.

Definition delivery (ev : WSEvent) (tr : list FanoutEvent) : Prop :=
  (tr = [] /\ we_Origin ev = fc_Origin cfg) \/
  (exists st e, R st /\ tr = [e] /\ event_ok cfg e /\
     (e = FSkip ev (en_now st) "stale" \/ (e = FSkip ev (en_now st) "unknown_target" /\ call_of ev = None) \/
      exists call, e = FDeliver ev (en_now st) call)).

Lemma deliver_spec ev p : traced (deliver cfg ev p) (fun tr p' => delivery ev tr /\ same_position p p').
Proof.
  unfold deliver. destruct (_ =? _)%string eqn:Eo.
  - apply traced_ret. split; [left|done]. by apply String.eqb_eq in Eo.
  - apply String.eqb_neq in Eo. eapply (traced_bind _ _ _ _ (fun tr now => tr = [] /\ exists st, R st /\ en_now st = now)).
    { apply traced_clock; [done|]. intros st Hs. split; [done|by exists st]. }
    intros tr now [-> (st & Hst & <-)]. unfold skip. destruct (_ && _) eqn:Es.
    + eapply traced_bind; [by apply (traced_emit _ _ _ (fun tr _ => tr = [FSkip ev (en_now st) "stale"]))|]. intros tr _ ->.
      apply traced_ret. split; [right; exists st, (FSkip ev (en_now st) "stale"); split_and!; [done|done| |by left]|done].
      split; [done|left]. apply andb_true_iff in Es as [H1 H2]. apply negb_true_iff in H1. unfold IsZero in H1. split; lia.
    + destruct (call_of ev) as [call|] eqn:Ec.
      * eapply traced_bind; [by apply (traced_emit _ _ _ (fun tr _ => tr = [FDeliver ev (en_now st) call]))|]. intros tr _ ->.
        apply traced_ret. split; [right; exists st, (FDeliver ev (en_now st) call)|done].
        split_and!; [done|done| |right; right; by eexists]. split_and!; [done|done|].
        intros [H1 H2]. apply andb_false_iff in Es as [H|H]; [|lia]. apply negb_false_iff in H. unfold IsZero in H. lia.
      * eapply traced_bind; [by apply (traced_emit _ _ _ (fun tr _ => tr = [FSkip ev (en_now st) "unknown_target"]))|].
        intros tr _ ->. apply traced_ret. split; [right; exists st, (FSkip ev (en_now st) "unknown_target")|done].
        split_and!; [done|done| |by right; left]. split; [done|by right].
Qed.

(** The loop over IDs in order: each is tracked until [d], or the rest is refused. *)
Lemma track_ids_spec ids d m : StronglySorted Z.lt ids ->
  let r := track_ids ids d m in
  (forall x, r.1 !! x <> m !! x -> x ∈ ids /\ r.1 !! x = Some d) /\
  (forall x, x ∈ ids -> r.1 !! x = Some d \/ exists id, r.2 = Some id /\ id <= x).
Proof.
  revert m. induction ids as [|id ids IH]; intros m Hs; cbv zeta.
  - split; [done|]. by intros x ?%elem_of_nil.
  - apply StronglySorted_inv in Hs as [Hs Hlt]. rewrite Forall_forall in Hlt. cbn [track_ids].
    destruct (_ <=? _).
    + split; [done|]. intros x Hx. right. exists id. split; [done|].
      apply elem_of_cons in Hx as [->|Hx]; [lia|]. specialize (Hlt x Hx). lia.
    + destruct (IH (<[id := d]> m) Hs) as [H1 H2]. set (r := track_ids ids d (<[id := d]> m)) in *. split.
      * intros x Hx. destruct (decide (r.1 !! x = <[id := d]> m !! x)) as [E|Hn].
        -- rewrite E in Hx |- *. destruct (decide (id = x)) as [<-|Hn]; [rewrite lookup_insert_eq; split; [by left|done]|].
           by rewrite lookup_insert_ne in Hx.
        -- destruct (H1 x Hn). split; [by right|done].
      * intros x [->|Hx]%elem_of_cons; [|by apply H2]. left.
        destruct (decide (r.1 !! id = <[id := d]> m !! id)) as [E|Hn]; [by rewrite E, lookup_insert_eq|by apply H1].
Qed.
Lemma seqZ_sorted from n : StronglySorted Z.lt (seqZ from n).
Proof.
  remember (Z.to_nat n) as k eqn:Hk. revert from n Hk. induction k as [|k IH]; intros from n Hk.
  - rewrite seqZ_nil by lia. constructor.
  - rewrite seqZ_cons by lia. constructor; [apply IH; lia|]. apply Forall_forall. intros x ?%elem_of_seqZ. lia.
Qed.

(** What [trackGap] does to the missing IDs. *)
Definition gap_tracked (from to : Z) (p p' : Poller) (tr : list FanoutEvent) : Prop :=
  po_lastID p' = po_lastID p /\ po_started p' = po_started p /\
  (forall x, po_missing p' !! x <> po_missing p !! x ->
     from <= x <= to /\ exists st, R st /\ po_missing p' !! x = Some (en_now st + fc_GapTimeout cfg)) /\
  (forall x, from <= x <= to -> (exists st, R st /\ po_missing p' !! x = Some (en_now st + fc_GapTimeout cfg)) \/
     exists id, FUntracked id to ∈ tr /\ id <= x) /\
  Forall (fun e => exists id, e = FUntracked id to) tr.

Lemma trackGap_spec from to p : traced (trackGap cfg from to p) (fun tr p' => gap_tracked from to p p' tr).
Proof.
  unfold trackGap. destruct (_ <? _).
  - eapply traced_bind; [by apply (traced_emit _ _ _ (fun tr _ => tr = [FUntracked from to]))|]. intros tr _ ->.
    apply traced_ret. split_and!; [done|done|done| |repeat constructor; by eexists].
    intros x Hx. right. exists from. split; [by left|lia].
  - eapply (traced_bind _ _ _ _ (fun tr now => tr = [] /\ exists st, R st /\ en_now st = now)).
    { apply traced_clock; [done|]. intros st Hs. split; [done|by exists st]. }
    intros tr now [-> (st & Hst & <-)].
    destruct (track_ids_spec (seqZ from (to - from + 1)) (en_now st + fc_GapTimeout cfg) (po_missing p) (seqZ_sorted _ _)) as [H1 H2].
    destruct (track_ids _ _ _) as [m refused]. cbn [fst snd] in *.
    eapply (traced_bind _ _ _ _ (fun tr _ => tr = match refused with Some id => [FUntracked id to] | None => [] end)).
    { destruct refused; [by apply traced_emit|by apply traced_ret]. }
    intros tr _ ->. apply traced_ret. rewrite !app_nil_r. cbn [app]. split_and!; [done|done| | |].
    + intros x Hx. destruct (H1 x Hx) as [Hr%elem_of_seqZ He]. split; [lia|by exists st].
    + intros x Hx. destruct (H2 x) as [He|(id & -> & ?)]; [apply elem_of_seqZ; lia|left; by exists st|right].
      exists id. split; [by left|done].
    + destruct refused; repeat constructor. by eexists.
Qed.

(** ** No row twice *)

Record once (p : Poller) (tr : list FanoutEvent) : Prop := {
  on_distinct : no_repeat tr;
  on_passed : forall id, id ∈ delivered_ids tr -> id <= po_lastID p /\ po_missing p !! id = None;
  on_missing : forall id d, po_missing p !! id = Some d -> id <= po_lastID p;
  on_events : Forall (event_ok cfg) tr;
  on_fresh : po_started p = false -> delivered_ids tr = [] /\ po_missing p = ∅
}.
Local Abbreviation keeps_once m := (forall p tr0, once p tr0 -> po_started p = true ->
  traced (m p) (fun tr p' => once p' (tr ++ tr0) /\ po_started p' = true)).

Lemma deliver_once ev p tr0 : once p tr0 -> po_started p = true ->
  we_ID ev <= po_lastID p -> po_missing p !! we_ID ev = None -> we_ID ev ∉ delivered_ids tr0 ->
  traced (deliver cfg ev p) (fun tr p' => once p' (tr ++ tr0) /\ po_started p' = true).
Proof.
  intros [H1 H2 H3 H4 H5] Hs Hl Hm Hd. eapply traced_post; [apply deliver_spec|]. intros tr p' [Hv (L & M & St)].
  split; [|congruence].
  destruct Hv as [[-> _]|(st & e & _ & -> & He & [->|[[-> _]|(call & ->)]])];
    constructor; rewrite ?L, ?M, ?St; cbn [app delivered_ids no_repeat]; try done; try (by constructor); try (by rewrite Hs).
  intros id [->|Hi]%elem_of_cons; [done|by apply H2].
Qed.

Lemma gap_once p p' tr tr0 id : once p tr0 -> po_started p = true -> po_lastID p < id ->
  gap_tracked (po_lastID p + 1) (id - 1) p p' tr ->
  once (po_set_lastID id p') (tr ++ tr0) /\ po_started p' = true /\ po_missing p' !! id = None /\ id ∉ delivered_ids (tr ++ tr0).
Proof.
  intros [H1 H2 H3 H4 H5] Hs Hl (L & St & Hx & _ & Hf).
  assert (Ed : delivered_ids (tr ++ tr0) = delivered_ids tr0 /\ (no_repeat tr0 -> no_repeat (tr ++ tr0))).
  { clear -Hf. induction Hf as [|e tr [x ->] _ IH]; done. }
  destruct Ed as [Ed Er].
  assert (Hm : forall x, ~ (po_lastID p < x < id) -> po_missing p' !! x = po_missing p !! x).
  { intros x Hn. destruct (decide (po_missing p' !! x = po_missing p !! x)) as [|Hc]; [done|]. destruct (Hx x Hc). lia. }
  split; [|split; [congruence|split]].
  - constructor; rewrite ?Ed; cbn [po_set_lastID po_lastID po_missing po_started]; rewrite ?St; [by apply Er| | | |by rewrite Hs].
    + intros x Hin. destruct (H2 x Hin). split; [lia|]. rewrite Hm by lia. done.
    + intros x d Hd. destruct (decide (po_lastID p < x < id)); [lia|]. rewrite Hm in Hd by done. apply H3 in Hd. lia.
    + apply Forall_app. split; [|done]. eapply Forall_impl; [exact Hf|]. intros e (? & ->). done.
  - rewrite Hm by lia. destruct (po_missing p !! id) eqn:E; [|done]. apply H3 in E. lia.
  - rewrite Ed. intros Hin. apply H2 in Hin. lia.
Qed.
(** The step without a gap. *)
Lemma no_gap_tracked p : gap_tracked (po_lastID p + 1) (po_lastID p) p p [].
Proof. split_and!; [done|done|done|lia|constructor]. Qed.

Lemma consume_once rows : keeps_once (consume cfg rows).
Proof.
  induction rows as [|ev rows IH]; intros p tr0 Ho Hs; cbn [consume]; [by apply traced_ret|].
  destruct (we_ID ev <=? po_lastID p) eqn:El; [by apply IH|]. apply Z.leb_gt in El.
  eapply (traced_bind _ _ _ _ (fun tr p1 => gap_tracked (po_lastID p + 1) (we_ID ev - 1) p p1 tr)).
  { destruct (_ <? _) eqn:Eg; [apply trackGap_spec|]. apply Z.ltb_ge in Eg. apply traced_ret.
    replace (we_ID ev - 1) with (po_lastID p) by lia. apply no_gap_tracked. }
  intros tr1 p1 Hg. destruct (gap_once p p1 tr1 tr0 (we_ID ev) Ho Hs El Hg) as (Ho1 & Hs1 & Hm1 & Hd1).
  eapply traced_bind; [apply (deliver_once ev (po_set_lastID (we_ID ev) p1) (tr1 ++ tr0)); cbn; done|].
  intros tr2 p2 [Ho2 Hs2]. eapply traced_post; [by apply IH|]. rebracket.
Qed.

Lemma recheck_rows_once rows : keeps_once (recheck_rows cfg rows).
Proof.
  induction rows as [|ev rows IH]; intros p tr0 Ho Hs; cbn [recheck_rows]; [by apply traced_ret|].
  destruct (bool_decide (is_Some _)) eqn:Em; cbn [negb]; [|by apply IH]. apply bool_decide_eq_true in Em as [d Hd].
  pose proof Ho as [H1 H2 H3 H4 H5].
  assert (Hx : forall y, delete (we_ID ev) (po_missing p) !! y = None \/ delete (we_ID ev) (po_missing p) !! y = po_missing p !! y).
  { intros y. destruct (decide (we_ID ev = y)) as [<-|Hn]; [left; by rewrite lookup_delete_eq|right; by rewrite lookup_delete_ne]. }
  eapply traced_bind; [apply (deliver_once ev _ tr0)|].
  - constructor; cbn [po_set_missing po_lastID po_missing po_started]; try done; [| |by rewrite Hs].
    + intros y Hy. destruct (H2 y Hy). split; [done|]. by destruct (Hx y) as [->| ->].
    + intros y d' Hy. destruct (Hx y) as [E|E]; rewrite E in Hy; [done|]. by eapply H3.
  - done.
  - cbn. by eapply H3.
  - cbn. by rewrite lookup_delete_eq.
  - intros Hin. apply H2 in Hin. destruct Hin. congruence.
  - intros tr1 p1 [Ho1 Hs1]. eapply traced_post; [by apply IH|]. rebracket.
Qed.

(** A position that only forgets missing IDs. *)
Lemma forget_once p m tr0 : once p tr0 -> po_started p = true -> m ⊆ po_missing p -> once (po_set_missing m p) tr0.
Proof.
  intros [H1 H2 H3 H4 H5] Hs Hm. constructor; cbn [po_set_missing po_lastID po_missing po_started]; try done; [| |by rewrite Hs].
  - intros id Hi. destruct (H2 id Hi) as [? Hn]. split; [done|]. destruct (m !! id) eqn:E; [|done].
    rewrite (lookup_weaken _ _ _ _ E Hm) in Hn. done.
  - intros id d Hd. by eapply H3, lookup_weaken.
Qed.

Lemma ListByIDs_any ids o : traced (ListByIDs ids o) (fun tr _ => tr = []).
Proof. unfold ListByIDs. destruct (bool_decide _); [by apply traced_ret|]. by apply traced_read. Qed.

Lemma recheck_chunks_once fuel ids p tr0 : once p tr0 -> po_started p = true ->
  traced (recheck_chunks cfg fuel ids p) (fun tr r => once r.2 (tr ++ tr0) /\ po_started r.2 = true).
Proof.
  revert ids p tr0. induction fuel as [|fuel IH]; intros ids p tr0 Ho Hs; cbn [recheck_chunks]; [by apply traced_ret|].
  destruct ids as [|id ids]; [by apply traced_ret|].
  eapply traced_bind; [apply ListByIDs_any|]. intros tr r ->. destruct r as [rows|e]; [|by apply traced_ret].
  eapply traced_bind; [by apply (recheck_rows_once rows p tr0)|]. intros tr1 p1 [Ho1 Hs1].
  eapply traced_post; [by apply (IH _ p1 (tr1 ++ tr0))|]. rebracket.
Qed.
Lemma recheckGaps_once : keeps_once (recheckGaps cfg).
Proof.
  intros p tr0 Ho Hs. unfold recheckGaps. destruct (bool_decide _); [by apply traced_ret|]. cbv zeta.
  eapply traced_bind; [by apply (recheck_chunks_once _ _ p tr0)|]. intros tr1 r [Ho1 Hs1].
  destruct r.1; cbn [negb]; [|by apply traced_ret].
  eapply (traced_bind _ _ _ _ (fun tr _ => tr = [])); [by apply traced_clock|]. intros tr2 now ->.
  apply traced_ret. cbn [app]. split; [|done]. apply forget_once; [done|done|]. apply map_filter_subseteq.
Qed.

Lemma checkIDRestart_once : keeps_once checkIDRestart.
Proof.
  intros p tr0 Ho Hs. unfold checkIDRestart. eapply (traced_bind _ _ _ _ (fun tr _ => tr = [])); [by apply traced_read|].
  intros tr r ->. destruct r as [m|e]; [|by apply traced_ret]. destruct (_ || _); [by apply traced_ret|].
  eapply (traced_bind _ _ _ _ (fun tr _ => tr = [FRestart])); [by apply traced_emit|]. intros tr _ ->. apply traced_ret.
  split; [|done]. destruct Ho as [H1 H2 H3 H4 H5]. constructor; cbn; try done; [by intros ? ?%elem_of_nil|by constructor].
Qed.

Lemma read_pages_once left : forall first, keeps_once (read_pages cfg left first).
Proof.
  induction left as [|left IH]; intros first p tr0 Ho Hs; cbn [read_pages]; [by apply traced_ret|].
  eapply (traced_bind _ _ _ _ (fun tr _ => tr = [])); [by apply traced_ctx|]. intros tr c ->.
  destruct (bool_decide _); [by apply traced_ret|].
  eapply (traced_bind _ _ _ _ (fun tr _ => tr = [])); [by apply traced_read|]. intros tr r ->.
  destruct r as [rows|e]; [|by apply traced_ret].
  assert (Ha : once (po_add_emptyPoll p) tr0) by (by destruct Ho).
  destruct (first && _).
  - destruct (_ =? _); [|by apply traced_ret]. eapply traced_post; [by apply checkIDRestart_once|].
    rebracket.
  - eapply traced_bind; [by apply (consume_once rows p tr0)|]. intros tr1 p1 [Ho1 Hs1].
    destruct (_ <? _); [apply traced_ret; cbv beta; cbn [app]; by rewrite ?app_nil_r|].
    eapply traced_post; [by apply (IH false p1 (tr1 ++ tr0))|]. rebracket.
Qed.

Lemma track_window_spec ids d m x d' : (track_ids ids d m).1 !! x = Some d' -> m !! x = Some d' \/ (x ∈ ids /\ d' = d).
Proof.
  revert m. induction ids as [|id ids IH]; intros m; cbn [track_ids]; [by left|]. destruct (_ <=? _); [by left|].
  intros [[[<- <-]|[_ ?]]%lookup_insert_Some|[? ->]]%IH; [right; split; [by left|done]|by left|right; split; [by right|done]].
Qed.

Lemma start_once p tr0 : once p tr0 ->
  traced (start cfg p) (fun tr r => once r.2 (tr ++ tr0) /\ (r.1 = true -> po_started r.2 = true) /\
    (po_started p = true -> r.1 = true)).
Proof.
  intros Ho. unfold start. destruct (po_started p) eqn:Es; [by apply traced_ret|].
  destruct (on_fresh p tr0 Ho Es) as [Hd Hm].
  eapply (traced_bind _ _ _ _ (fun tr _ => tr = [])); [by apply traced_read|].
  intros tr r ->. destruct r as [m|e]; [|by apply traced_ret].
  eapply (traced_bind _ _ _ _ (fun tr w => tr = [] /\ po_started w.2 = false /\ delivered_ids tr0 = [] /\
    po_lastID w.2 = po_lastID p /\ (is_Some w.1 -> w.2 = p) /\ forall x d, po_missing w.2 !! x = Some d -> x <= m)).
  { unfold trackStartWindow. cbv zeta. destruct (_ <=? _); [apply traced_ret; cbn [snd]; rewrite Hm; done|].
    eapply (traced_bind _ _ _ _ (fun tr _ => tr = [])); [by apply traced_read|]. intros tr r ->.
    destruct r as [ids|e]; [|apply traced_ret; cbn [snd]; rewrite Hm; done].
    eapply (traced_bind _ _ _ _ (fun tr _ => tr = [])); [by apply traced_clock|]. intros tr now ->.
    apply traced_ret. cbn [fst snd po_set_missing po_started po_lastID po_missing]. split_and!; try done.
    intros x d [Hx|[[_ Hx]%list_elem_of_filter _]]%track_window_spec; [by rewrite Hm in Hx|]. apply elem_of_seqZ in Hx. lia. }
  intros tr [err p1] (-> & Hs1 & _ & Hl1 & He & Hm1). cbn [fst snd] in *.
  destruct (bool_decide (is_Some err)) eqn:Eb.
  - apply bool_decide_eq_true in Eb. rewrite (He Eb). by apply traced_ret.
  - apply traced_ret. split; [|done]. destruct Ho as [H1 H2 H3 H4 H5]. constructor; cbn; try done.
    intros id. rewrite Hd. by intros ?%elem_of_nil.
Qed.

Lemma poll_once p tr0 : once p tr0 ->
  traced (poll cfg p) (fun tr p' => once p' (tr ++ tr0) /\ (po_started p = true -> po_started p' = true)).
Proof.
  intros Ho. unfold poll. eapply traced_bind; [by apply (start_once p tr0)|]. intros tr1 r (Ho1 & Hs1 & Hs2).
  destruct r.1 eqn:Er; cbn [negb].
  - eapply traced_bind; [apply (recheckGaps_once r.2 (tr1 ++ tr0)); auto|]. intros tr2 p2 [Ho2 Hs3].
    eapply traced_post; [by apply (read_pages_once _ _ p2 (tr2 ++ tr1 ++ tr0))|]. intros tr3 p3 [? ?].
    by rewrite <- !app_assoc.
  - apply traced_ret. split; [done|]. intros Hp. specialize (Hs2 Hp). congruence.
Qed.
Lemma pollLoop_once n p tr0 : once p tr0 -> traced (pollLoop cfg n p) (fun tr p' => once p' (tr ++ tr0)).
Proof.
  revert p tr0. induction n as [|n IH]; intros p tr0 Ho; [by apply traced_ret|]. cbn [pollLoop].
  eapply traced_bind; [by apply (poll_once p tr0)|]. intros tr1 p1 [Ho1 _].
  eapply traced_post; [by apply (IH p1 (tr1 ++ tr0))|]. rebracket.
Qed.
End poller.

(** ** The rows in ID order *)

Definition id_lt (a b : WSEvent) : Prop := we_ID a < we_ID b.
(** The key of a row is its ID. *)
Definition keyed (t : EventTable) : Prop := forall k ev, et_rows t !! k = Some ev -> we_ID ev = k.

Lemma StronglySorted_strict l : StronglySorted Z.le l -> NoDup l -> StronglySorted Z.lt l.
Proof.
  induction 1 as [|x l Hs IH Hle]; [constructor|]. intros [Hx Hn]%NoDup_cons. constructor; [by apply IH|].
  rewrite Forall_forall in Hle |- *. intros y Hy. specialize (Hle y Hy). assert (x <> y) by (by intros ->). lia.
Qed.
Lemma sorted_keys {A} (m : gmap Z A) :
  StronglySorted Z.lt (merge_sort Z.le (List.map fst (map_to_list m))) /\
  (forall k, k ∈ merge_sort Z.le (List.map fst (map_to_list m)) <-> is_Some (m !! k)).
Proof.
  pose proof (merge_sort_Permutation Z.le (List.map fst (map_to_list m))) as Hp. split.
  - apply StronglySorted_strict; [apply StronglySorted_merge_sort; apply _|]. rewrite Hp. apply NoDup_fst_map_to_list.
  - intros k. rewrite Hp. setoid_rewrite list_elem_of_fmap. split.
    + intros ([k' x] & -> & Hx%elem_of_map_to_list). by exists x.
    + intros [x Hx]. exists (k, x). split; [done|]. by apply elem_of_map_to_list.
Qed.
Lemma ordered_rows_spec t : keyed t ->
  StronglySorted id_lt (ordered_rows t) /\ (forall ev, ev ∈ ordered_rows t <-> et_rows t !! we_ID ev = Some ev).
Proof.
  intros Hk. destruct (sorted_keys (et_rows t)) as [Hs Hin]. unfold ordered_rows. fold (ordered_ids t) in Hs, Hin. split.
  - clear Hin. induction Hs as [|x l Hs IH Hlt]; [constructor|]. cbn. destruct (et_rows t !! x) as [ev|] eqn:E; [|done].
    constructor; [done|]. rewrite Forall_forall in Hlt. apply Forall_forall. intros y (k & Hk' & Hy)%list_elem_of_omap.
    unfold id_lt. rewrite (Hk _ _ E), (Hk _ _ Hy). by apply Hlt.
  - intros ev. rewrite list_elem_of_omap. split.
    + intros (k & _ & E). by rewrite (Hk _ _ E).
    + intros E. exists (we_ID ev). split; [apply Hin; by exists ev|done].
Qed.

Lemma StronglySorted_app_mid {A} (Q : A -> A -> Prop) l1 l2 x y :
  StronglySorted Q (l1 ++ l2) -> x ∈ l1 -> y ∈ l2 -> Q x y.
Proof.
  induction l1 as [|z l1 IH]; cbn; [by intros _ ?%elem_of_nil|]. intros [Hs Hf]%StronglySorted_inv [->|Hx]%elem_of_cons Hy.
  - rewrite Forall_forall in Hf. apply Hf, elem_of_app. by right.
  - by apply IH.
Qed.
Lemma StronglySorted_take {A} (Q : A -> A -> Prop) n l : StronglySorted Q l -> StronglySorted Q (take n l).
Proof.
  intros Hs. revert n. induction Hs as [|x l Hs IH Hf]; intros n; [rewrite take_nil; constructor|].
  destruct n as [|n]; cbn; [constructor|]. constructor; [apply IH|]. by apply Forall_take.
Qed.
Lemma StronglySorted_select {A} (Q : A -> A -> Prop) (P : A -> Prop) `{forall x, Decision (P x)} l :
  StronglySorted Q l -> StronglySorted Q (filter P l).
Proof.
  induction 1 as [|x l Hs IH Hf]; [constructor|]. rewrite filter_cons. destruct (decide (P x)); [|done].
  constructor; [done|]. rewrite Forall_forall in Hf |- *. intros y [_ Hy]%list_elem_of_filter. by apply Hf.
Qed.
Lemma without_own_ID o ev : we_ID (without_own_payload o ev) = we_ID ev.
Proof. unfold without_own_payload. by destruct (_ =? _)%string. Qed.
Lemma blank_sorted o l : StronglySorted id_lt l -> StronglySorted id_lt (map (without_own_payload o) l).
Proof.
  induction 1 as [|x l Hs IH Hf]; cbn; [constructor|]. constructor; [done|]. rewrite Forall_forall in Hf |- *.
  intros y (z & -> & Hz)%list_elem_of_fmap. unfold id_lt. rewrite !without_own_ID. by apply Hf.
Qed.

(** A page: rows of the table above the position, in order; a row of the table is in it or
    the page is full of lower ones. *)
Lemma rows_after_spec after limit o t : keyed t ->
  let rows := rows_after after limit o t in
  StronglySorted id_lt rows /\
  (forall ev, ev ∈ rows -> after < we_ID ev /\ exists r, et_rows t !! we_ID ev = Some r /\ ev = without_own_payload o r) /\
  (forall r, et_rows t !! we_ID r = Some r -> after < we_ID r ->
     without_own_payload o r ∈ rows \/ (length rows = Z.to_nat limit /\ forall ev, ev ∈ rows -> we_ID ev < we_ID r)).
Proof.
  intros Hk. destruct (ordered_rows_spec t Hk) as [Hs Hin]. cbv zeta. unfold rows_after.
  set (l := filter (fun ev => after < we_ID ev) (ordered_rows t)).
  assert (Hl : StronglySorted id_lt l) by (by apply StronglySorted_select).
  split_and!.
  - by apply blank_sorted, StronglySorted_take.
  - intros ev (r & -> & [Ha Hr]%(subseteq_take (Z.to_nat limit) l)%list_elem_of_filter)%list_elem_of_fmap.
    rewrite without_own_ID. split; [done|]. exists r. split; [by apply Hin|done].
  - intros r Hr Ha. assert (Hm : r ∈ l) by (apply list_elem_of_filter; split; [done|by apply Hin]).
    rewrite <- (take_drop (Z.to_nat limit) l) in Hm. apply elem_of_app in Hm as [Hm|Hm].
    + left. apply list_elem_of_fmap. by exists r.
    + right. split.
      * rewrite length_map, length_take. apply list_elem_of_lookup in Hm as (i & Hi). rewrite lookup_drop in Hi.
        apply lookup_lt_Some in Hi. lia.
      * intros ev (x & -> & Hx)%list_elem_of_fmap. rewrite without_own_ID.
        rewrite <- (take_drop (Z.to_nat limit) l) in Hl. by apply (StronglySorted_app_mid _ _ _ _ _ Hl).
Qed.
Lemma rows_with_spec ids o t : keyed t ->
  (forall ev, ev ∈ rows_with ids o t -> exists r, et_rows t !! we_ID ev = Some r /\ ev = without_own_payload o r) /\
  (forall r, et_rows t !! we_ID r = Some r -> we_ID r ∈ ids -> without_own_payload o r ∈ rows_with ids o t).
Proof.
  intros Hk. destruct (ordered_rows_spec t Hk) as [_ Hin]. unfold rows_with. split.
  - intros ev (r & -> & [_ Hr]%list_elem_of_filter)%list_elem_of_fmap. exists r. rewrite without_own_ID. split; [by apply Hin|done].
  - intros r Hr Hi. apply list_elem_of_fmap. exists r. split; [done|]. apply list_elem_of_filter. split; [done|by apply Hin].
Qed.

(** ** No row lost *)

Definition untracked (id : Z) (tr : list FanoutEvent) : Prop := exists a b, FUntracked a b ∈ tr /\ a <= id <= b.
(** The clocks and the answers of a poll without a fault. *)
Definition healthy (st : env) : Prop := en_fault st = None /\ en_ctx st = None.

Section alive.
Context (cfg : FanoutConfig) (R : env -> Prop) (id : Z) (o : option WSEvent) (T : Z) (Hid : 0 < id).
(** The table, where the row of [id] is [o] as long as the poller runs. *)
Definition shows (t : EventTable) : Prop := keyed t /\ et_rows t !! id = o.
Local Abbreviation traced := (traced R shows).

(** The delivery of the row, or that it was skipped, by a clock of the run. *)
Definition about (r : WSEvent) (e : FanoutEvent) : Prop :=
  exists st, R st /\ event_ok cfg e /\
  match e with
  | FDeliver ev now _ => ev = r /\ now = en_now st
  | FSkip ev now _ => ev = r /\ now = en_now st
  | _ => False
  end.
(** The row was handled, or an ID without a row was given up with a warning. *)
Definition settled (tr : list FanoutEvent) : Prop :=
  match o with
  | Some r => we_Origin r = fc_Origin cfg \/ exists e, e ∈ tr /\ about r e
  | None => untracked id tr
  end.
Definition alive (p : Poller) : Prop :=
  po_lastID p < id \/ exists d, po_missing p !! id = Some d /\ (o = None -> T <= d).
Definition kept (tr : list FanoutEvent) (p : Poller) : Prop := settled tr \/ alive p.

Lemma settled_app tr tr0 : settled tr0 -> settled (tr ++ tr0).
Proof.
  unfold settled. destruct o as [r|].
  - intros [?|(e & He & Ha)]; [by left|right]. exists e. split; [|done]. apply elem_of_app. by right.
  - intros (a & b & Hab & ?). exists a, b. split; [|done]. apply elem_of_app. by right.
Qed.
Lemma settled_app_l tr tr0 : settled tr -> settled (tr ++ tr0).
Proof.
  unfold settled. destruct o as [r|].
  - intros [?|(e & He & Ha)]; [by left|right]. exists e. split; [|done]. apply elem_of_app. by left.
  - intros (a & b & Hab & ?). exists a, b. split; [|done]. apply elem_of_app. by left.
Qed.
Lemma alive_same p p' : same_position p p' -> alive p -> alive p'.
Proof. intros (L & M & _). unfold alive. by rewrite L, M. Qed.

(** A row that a query returned: with our ID it is the row. *)
Definition ours (ev : WSEvent) : Prop := we_ID ev = id -> exists r, o = Some r /\ ev = without_own_payload (fc_Origin cfg) r.
Lemma blank_other r : we_Origin r <> fc_Origin cfg -> without_own_payload (fc_Origin cfg) r = r.
Proof. unfold without_own_payload. intros Hn. by rewrite (proj2 (String.eqb_neq _ _) Hn). Qed.

Context (HI : stable R shows).
Context (HT : o = None -> forall st, R st -> T - fc_GapTimeout cfg <= en_now st <= T).

Lemma deliver_kept ev p tr0 : ours ev -> kept tr0 p ->
  traced (deliver cfg ev p) (fun tr p' => kept (tr ++ tr0) p' /\ same_position p p').
Proof.
  intros _ Hk. eapply traced_post; [by apply deliver_spec|]. intros tr p' [_ Hp]. split; [|done].
  destruct Hk as [?|?]; [left; by apply settled_app|right; by apply (alive_same p)].
Qed.
Lemma deliver_settles ev p tr0 : ours ev -> we_ID ev = id ->
  traced (deliver cfg ev p) (fun tr p' => settled (tr ++ tr0) /\ same_position p p').
Proof.
  intros Ho Hi. destruct (Ho Hi) as (r & Er & Eb). eapply traced_post; [by apply deliver_spec|]. intros tr p' [Hv Hp].
  split; [|done]. apply settled_app_l. unfold settled. rewrite Er. destruct (decide (we_Origin r = fc_Origin cfg)) as [|Hn]; [by left|].
  right. rewrite blank_other in Eb by done. subst ev.
  destruct Hv as [[_ ?]|(st & e & Hst & -> & He & Hc)]; [done|]. exists e. split; [by left|]. exists st. split_and!; [done|done|].
  destruct Hc as [->|[[-> _]|(call & ->)]]; done.
Qed.

(** A page as [rows_after_spec] gives it. *)
Definition page (p : Poller) (rows : list WSEvent) : Prop :=
  StronglySorted id_lt rows /\ Forall (fun ev => po_lastID p < we_ID ev /\ ours ev) rows /\
  (o <> None -> po_lastID p < id -> id ∈ map we_ID rows \/ Forall (fun ev => we_ID ev < id) rows).

Lemma gap_kept a b p p1 tr tr0 :
  gap_tracked cfg R (po_lastID p + 1) (b - 1) p p1 tr -> a = b -> kept tr0 p -> (o <> None -> po_lastID p < id -> b <= id) ->
  b <> id -> kept (tr ++ tr0) (po_set_lastID b p1).
Proof.
  intros (L & _ & Hx & Ht & _) -> Hk Hb Hn. destruct Hk as [Hk|[Hl|(d & Hd & HTd)]]; [left; by apply settled_app| |].
  - destruct (Z.lt_trichotomy b id) as [?|[?|Hlt]]; [right; by left|done|].
    destruct (decide (o = None)) as [Eo|Eo]; [|specialize (Hb Eo Hl); lia].
    destruct (Ht id) as [(st & Hst & Hd)|(x & Hx' & ?)]; [lia| |].
    + right. right. eexists. split; [exact Hd|]. intros _. specialize (HT Eo st Hst). lia.
    + left. apply settled_app_l. unfold settled. rewrite Eo. exists x, (b - 1). split; [done|lia].
  - right. destruct (decide (b < id)); [by left|]. right. cbn.
    destruct (decide (po_missing p1 !! id = po_missing p !! id)) as [E|Hc]; [rewrite E; eauto|].
    destruct (Hx id Hc) as [_ (st & Hst & E)]. eexists. split; [exact E|]. intros Ho. specialize (HT Ho st Hst). lia.
Qed.

Lemma consume_kept rows p tr0 : page p rows -> kept tr0 p ->
  traced (consume cfg rows p) (fun tr p' => kept (tr ++ tr0) p' /\
    (o <> None -> po_lastID p < id -> id ∈ map we_ID rows -> settled (tr ++ tr0)) /\
    po_lastID p + Z.of_nat (length rows) <= po_lastID p' /\
    po_lastID p' ∈ po_lastID p :: map we_ID rows).
Proof.
  revert p tr0. induction rows as [|ev rows IH]; intros p tr0 (Hs & Hf & Hc) Hk; cbn [consume].
  - apply traced_ret. split_and!; [done|by intros _ _ ?%elem_of_nil|cbn; lia|by left].
  - apply Forall_cons in Hf as [[Hl Ho] Hf]. apply StronglySorted_inv in Hs as [Hs Hlt].
    rewrite (proj2 (Z.leb_gt _ _) Hl).
    eapply (traced_bind _ _ _ _ (fun tr p1 => gap_tracked cfg R (po_lastID p + 1) (we_ID ev - 1) p p1 tr)).
    { destruct (_ <? _) eqn:Eg; [by apply trackGap_spec|]. apply Z.ltb_ge in Eg. apply traced_ret.
      replace (we_ID ev - 1) with (po_lastID p) by lia. apply no_gap_tracked. }
    intros tr1 p1 Hg. cbv beta.
    assert (Hnext : forall p2, po_lastID p2 = we_ID ev -> page p2 rows).
    { intros p2 El. split_and!; [done| |].
      - rewrite Forall_forall in Hf, Hlt |- *. intros x Hx. rewrite El. split; [by apply Hlt|by apply Hf].
      - intros Hn Hi. destruct (Hc Hn) as [Hin|Hin]; [lia| |].
        + cbn in Hin. apply elem_of_cons in Hin as [->|?]; [lia|by left].
        + apply Forall_cons in Hin as [_ ?]. by right. }
    destruct (decide (we_ID ev = id)) as [Ei|Hne].
    + eapply traced_bind; [by apply (deliver_settles ev _ (tr1 ++ tr0))|]. intros tr2 p2 [Hd (L2 & _)]. cbn in L2.
      eapply traced_post; [apply (IH p2 (tr2 ++ tr1 ++ tr0)); [by apply Hnext|by left]|].
      intros tr3 p3 (Hk3 & _ & Hl3 & Hm3). rewrite <- !app_assoc. split_and!; [done|intros; by apply settled_app| |].
      * cbn [length]. lia.
      * rewrite L2 in Hm3. by right.
    + eapply traced_bind; [apply (deliver_kept ev _ (tr1 ++ tr0)); [done|]|].
      { apply (gap_kept (we_ID ev) (we_ID ev) p p1 tr1 tr0 Hg); [done|done| |done].
        intros Hn Hi. destruct (Hc Hn Hi) as [Hin|Hin].
        - cbn in Hin. apply elem_of_cons in Hin as [->|Hin]; [lia|]. apply list_elem_of_fmap in Hin as (x & -> & Hx).
          rewrite Forall_forall in Hlt. specialize (Hlt x Hx). unfold id_lt in Hlt. lia.
        - apply Forall_cons in Hin as [? _]. lia. }
      intros tr2 p2 [Hk2 (L2 & _)]. cbn in L2.
      eapply traced_post; [apply (IH p2 (tr2 ++ tr1 ++ tr0)); [by apply Hnext|done]|].
      intros tr3 p3 (Hk3 & Hd3 & Hl3 & Hm3). rewrite <- !app_assoc. split_and!; [done| |cbn [length]; lia|rewrite L2 in Hm3; by right].
      intros Hn Hi Hin. cbn in Hin. apply elem_of_cons in Hin as [->|Hin]; [done|]. apply Hd3; [done| |done].
      rewrite L2. apply list_elem_of_fmap in Hin as (x & -> & Hx). rewrite Forall_forall in Hlt. by apply Hlt.
Qed.

Lemma recheck_rows_kept rows p tr0 : Forall ours rows -> kept tr0 p ->
  traced (recheck_rows cfg rows p) (fun tr p' => kept (tr ++ tr0) p' /\ po_lastID p' = po_lastID p /\
    (id ∈ map we_ID rows -> is_Some (po_missing p !! id) -> settled (tr ++ tr0)) /\
    (po_missing p' !! id = po_missing p !! id \/ settled (tr ++ tr0))).
Proof.
  revert p tr0. induction rows as [|ev rows IH]; intros p tr0 Hf Hk; cbn [recheck_rows].
  - apply traced_ret. split_and!; [done|done|by intros ?%elem_of_nil|by left].
  - apply Forall_cons in Hf as [Ho Hf]. destruct (decide (we_ID ev = id)) as [Ei|Hne].
    + destruct (bool_decide (is_Some _)) eqn:Em; cbn [negb].
      * eapply traced_bind; [by apply (deliver_settles ev _ tr0)|]. intros tr1 p1 [Hd (L1 & _)]. cbn in L1.
        eapply traced_post; [by apply (IH p1 (tr1 ++ tr0)); [done|left]|]. intros tr2 p2 (Hk2 & L2 & _ & _). rewrite <- !app_assoc.
        split_and!; [done|congruence|intros; by apply settled_app|right; by apply settled_app].
      * apply bool_decide_eq_false in Em. eapply traced_post; [by apply (IH p tr0)|]. intros tr2 p2 (? & ? & _ & ?).
        split_and!; [done|done| |done]. intros _ Hm. by rewrite Ei in Em.
    + assert (Hin : id ∈ map we_ID (ev :: rows) -> id ∈ map we_ID rows).
      { intros [->|?]%elem_of_cons; [lia|done]. }
      destruct (bool_decide (is_Some _)); cbn [negb].
      * set (p0 := po_set_missing (delete (we_ID ev) (po_missing p)) p).
        assert (Em : po_missing p0 !! id = po_missing p !! id) by (cbn; by rewrite lookup_delete_ne).
        eapply traced_bind; [apply (deliver_kept ev p0 tr0); [done|]|].
        { destruct Hk as [?|Ha]; [by left|right]. unfold alive. by rewrite Em. }
        intros tr1 p1 [Hk1 (L1 & M1 & _)]. cbn in L1. rewrite <- Em, <- M1.
        eapply traced_post; [by apply (IH p1 (tr1 ++ tr0))|]. intros tr2 p2 (Hk2 & L2 & Hd2 & M2). rewrite <- !app_assoc.
        split_and!; [done|congruence|by intros ?%Hin; apply Hd2|done].
      * eapply traced_post; [by apply (IH p tr0)|]. intros tr2 p2 (? & ? & Hd2 & ?).
        split_and!; [done|done|by intros ?%Hin; apply Hd2|done].
Qed.

Lemma ListByIDs_ours ids : traced (ListByIDs ids (fc_Origin cfg)) (fun tr r => tr = [] /\
  ((forall st, R st -> healthy st) -> exists rows, r = Ok rows) /\
  (forall rows, r = Ok rows -> Forall ours rows /\ (o <> None -> id ∈ ids -> id ∈ map we_ID rows))).
Proof.
  unfold ListByIDs. destruct (bool_decide _) eqn:Eb.
  - apply bool_decide_eq_true in Eb. subst ids. apply traced_ret. split_and!; [done|by eexists|].
    intros rows [= <-]. split; [constructor|]. by intros _ ?%elem_of_nil.
  - apply traced_read; [done|]. intros st t Hst [Hk Hr]. split_and!; [done| |].
    + intros Hh. destruct (Hh st Hst) as [-> _]. by eexists.
    + intros rows Hrows. destruct (en_fault st); [done|]. injection Hrows as <-.
      destruct (rows_with_spec ids (fc_Origin cfg) t Hk) as [H1 H2]. split.
      * apply Forall_forall. intros ev Hev. destruct (H1 ev Hev) as (r & Ht & ->). rewrite without_own_ID in Ht.
        intros Hi. rewrite without_own_ID in Hi. rewrite Hi, Hr in Ht. by exists r.
      * intros Hn Hi. destruct o as [r|] eqn:Eo; [|done]. pose proof (Hk _ _ Hr) as Ek.
        apply list_elem_of_fmap. exists (without_own_payload (fc_Origin cfg) r). rewrite without_own_ID. split; [done|].
        apply H2; by rewrite Ek.
Qed.

Lemma recheck_chunks_kept fuel ids p tr0 : (length ids <= fuel)%nat -> kept tr0 p ->
  traced (recheck_chunks cfg fuel ids p) (fun tr r => kept (tr ++ tr0) r.2 /\ po_lastID r.2 = po_lastID p /\
    ((forall st, R st -> healthy st) -> r.1 = true) /\
    (r.1 = true -> o <> None -> id ∈ ids -> is_Some (po_missing p !! id) -> settled (tr ++ tr0))).
Proof.
  revert ids p tr0. induction fuel as [|fuel IH]; intros ids p tr0 Hlen Hk; cbn [recheck_chunks].
  - destruct ids; [|cbn in Hlen; lia]. apply traced_ret. split_and!; try done. by intros _ _ ?%elem_of_nil.
  - destruct ids as [|x ids]; [apply traced_ret; split_and!; try done; by intros _ _ ?%elem_of_nil|].
    set (l := x :: ids) in *.
    eapply traced_bind; [apply ListByIDs_ours|]. intros tr r (-> & Hh & Hr). destruct r as [rows|e].
    + destruct (Hr rows eq_refl) as [Hf Hin].
      eapply traced_bind; [by apply (recheck_rows_kept rows p tr0)|]. intros tr1 p1 (Hk1 & L1 & Hd1 & M1).
      eapply traced_post; [apply (IH (drop fanoutIDsPerRecheck l) p1 (tr1 ++ tr0)); [|done]|].
      { rewrite length_drop. unfold fanoutIDsPerRecheck, l in *. cbn [length] in *. lia. }
      intros tr2 r2 (Hk2 & L2 & Hh2 & Hd2). cbn [app]. rewrite ?app_nil_r, <- ?app_assoc. split_and!; [done|congruence|done|].
      intros Hok Hn Hi Hm. destruct M1 as [M1|?]; [|by apply settled_app].
      rewrite <- (take_drop fanoutIDsPerRecheck l) in Hi. apply elem_of_app in Hi as [Hi|Hi].
      * apply settled_app, Hd1; [by apply Hin|done].
      * apply Hd2; [done|done|done|by rewrite M1].
    + apply traced_ret. split_and!; [done|done| |done]. intros Hall. destruct (Hh Hall). done.
Qed.

Lemma recheckGaps_kept p tr0 : kept tr0 p ->
  traced (recheckGaps cfg p) (fun tr p' => kept (tr ++ tr0) p' /\ po_lastID p' = po_lastID p /\
    ((forall st, R st -> healthy st) -> o <> None -> is_Some (po_missing p !! id) -> settled (tr ++ tr0))).
Proof.
  intros Hk. unfold recheckGaps. destruct (bool_decide (po_missing p = ∅)) eqn:Ee.
  - apply bool_decide_eq_true in Ee. apply traced_ret. split_and!; [done|done|]. intros _ _. rewrite Ee, lookup_empty. by intros [? ?].
  - clear Ee. cbv zeta. destruct (sorted_keys (po_missing p)) as [_ Hin].
    set (ids := merge_sort Z.le (List.map fst (map_to_list (po_missing p)))) in *.
    eapply traced_bind; [by apply (recheck_chunks_kept (length ids) ids p tr0)|]. intros tr1 r (Hk1 & L1 & Hh1 & Hd1).
    destruct r.1 eqn:Er; cbn [negb].
    + eapply (traced_bind _ _ _ _ (fun tr now => tr = [] /\ (o = None -> now <= T))).
      { apply traced_clock; [done|]. intros st Hst. split; [done|]. intros Ho. by apply (HT Ho st Hst). }
      intros tr2 now [-> Hnow]. apply traced_ret. cbn [app]. split_and!; [|done|].
      * destruct Hk1 as [?|[Hl|(d & Hd & Hle)]]; [by left|right; by left|].
        destruct (decide (o = None)) as [Eo|Eo].
        -- right. right. exists d. cbn. split; [|done]. apply map_lookup_filter_Some. split; [done|]. cbn.
           specialize (Hnow Eo). specialize (Hle Eo). lia.
        -- destruct (decide (is_Some (po_missing p !! id))) as [Hs|Hs].
           ++ left. apply Hd1; [done|done|by apply Hin|done].
           ++ destruct Hk as [?|[?|(d' & ? & _)]]; [left; by apply settled_app|right; left; cbn; lia|]. destruct Hs. by eexists.
      * intros _ Hn Hs. apply Hd1; [done|done|by apply Hin|done].
    + apply traced_ret. split_and!; [done|done|]. intros Hall. specialize (Hh1 Hall). done.
Qed.

Lemma checkIDRestart_kept p tr0 : kept tr0 p -> traced (checkIDRestart p) (fun tr p' => kept (tr ++ tr0) p').
Proof.
  intros Hk. unfold checkIDRestart. eapply (traced_bind _ _ _ _ (fun tr _ => tr = [])); [by apply traced_read|].
  intros tr r ->. destruct r as [m|e]; [|by apply traced_ret]. destruct (_ || _); [by apply traced_ret|].
  eapply (traced_bind _ _ _ _ (fun tr _ => tr = [FRestart])); [by apply traced_emit|]. intros tr _ ->. apply traced_ret.
  right. left. cbn. lia.
Qed.

(** A page of the table. *)
Lemma ListAfter_page p : traced (ListAfter (po_lastID p) (fc_PollBatch cfg) (fc_Origin cfg)) (fun tr r => tr = [] /\
  ((forall st, R st -> healthy st) -> exists rows, r = Ok rows) /\
  (forall rows, r = Ok rows -> page p rows /\
     (o <> None -> po_lastID p < id -> id ∈ map we_ID rows \/ length rows = Z.to_nat (fc_PollBatch cfg)))).
Proof.
  apply traced_read; [done|]. intros st t Hst [Hk Hr]. split_and!; [done| |].
  - intros Hh. destruct (Hh st Hst) as [-> _]. by eexists.
  - intros rows Hrows. destruct (en_fault st); [done|]. injection Hrows as <-.
    destruct (rows_after_spec (po_lastID p) (fc_PollBatch cfg) (fc_Origin cfg) t Hk) as (H1 & H2 & H3).
    assert (Hc : o <> None -> po_lastID p < id -> id ∈ map we_ID (rows_after (po_lastID p) (fc_PollBatch cfg) (fc_Origin cfg) t) \/
      (length (rows_after (po_lastID p) (fc_PollBatch cfg) (fc_Origin cfg) t) = Z.to_nat (fc_PollBatch cfg) /\
       forall ev, ev ∈ rows_after (po_lastID p) (fc_PollBatch cfg) (fc_Origin cfg) t -> we_ID ev < id)).
    { intros Hn Hl. destruct o as [r|]; [|done]. pose proof (Hk _ _ Hr) as Ek. rewrite <- Ek in Hr, Hl.
      destruct (H3 r Hr Hl) as [Hin|Hb]; [left|right; by rewrite <- Ek]. apply list_elem_of_fmap. eexists. split; [|exact Hin].
      by rewrite without_own_ID. }
    split; [split_and!; [done| |]|].
    + apply Forall_forall. intros ev Hev. destruct (H2 ev Hev) as [? (r & Ht & Eb)]. split; [done|].
      intros Hi. rewrite Hi, Hr in Ht. by exists r.
    + intros Hn Hl. destruct (Hc Hn Hl) as [?|[_ ?]]; [by left|right]. by apply Forall_forall.
    + intros Hn Hl. destruct (Hc Hn Hl) as [?|[? _]]; [by left|by right].
Qed.

Lemma read_pages_kept left first p tr0 : kept tr0 p ->
  traced (read_pages cfg left first p) (fun tr p' => kept (tr ++ tr0) p' /\
    ((forall st, R st -> healthy st) -> 0 < fc_PollBatch cfg -> o <> None ->
     po_lastID p < id <= po_lastID p + Z.of_nat left * fc_PollBatch cfg -> settled (tr ++ tr0))).
Proof.
  revert first p tr0. induction left as [|left IH]; intros first p tr0 Hk; cbn [read_pages].
  - apply traced_ret. split; [done|]. intros _ _ _ ?. lia.
  - eapply (traced_bind _ _ _ _ (fun tr c => tr = [] /\ ((forall st, R st -> healthy st) -> c = None))).
    { apply traced_ctx; [done|]. intros st Hst. split; [done|]. intros Hh. by destruct (Hh st Hst). }
    intros tr c [-> Hc]. destruct (bool_decide (is_Some c)) eqn:Eb.
    { apply bool_decide_eq_true in Eb as [e ->]. apply traced_ret. split; [done|]. intros Hh. by specialize (Hc Hh). }
    eapply traced_bind; [apply ListAfter_page|]. intros tr r (-> & Hh & Hr). destruct r as [rows|e].
    2: { apply traced_ret. split; [done|]. intros Hall. destruct (Hh Hall). done. }
    destruct (Hr rows eq_refl) as [Hpage Hfull]. clear Hr Hh Hc.
    destruct (first && bool_decide (rows = [])) eqn:Ef.
    + apply andb_true_iff in Ef as [_ Ef]. apply bool_decide_eq_true in Ef. subst rows.
      assert (Hno : 0 < fc_PollBatch cfg -> o <> None -> po_lastID p < id -> False).
      { intros Hb Hn Hl. destruct (Hfull Hn Hl) as [?%elem_of_nil|Hx]; [done|cbn in Hx; lia]. }
      assert (Hk' : kept tr0 (po_add_emptyPoll p)) by done.
      destruct (_ =? _); [|apply traced_ret; split; [done|intros _ Hb Hn [Hl _]; by destruct (Hno Hb Hn Hl)]].
      eapply traced_post; [by apply (checkIDRestart_kept _ tr0)|]. intros tr1 p1 Hk1. cbv beta. cbn [app]. rewrite ?app_nil_r.
      split; [done|]. intros _ Hb Hn [Hl _]. by destruct (Hno Hb Hn Hl).
    + clear Ef. eapply traced_bind; [by apply (consume_kept rows p tr0)|]. intros tr1 p1 (Hk1 & Hd1 & L1 & M1).
      destruct (Z.of_nat (length rows) <? fc_PollBatch cfg) eqn:El.
      * apply traced_ret. cbv beta. cbn [app]. rewrite ?app_nil_r. split; [done|]. intros _ Hb Hn [Hl _].
        destruct (Hfull Hn Hl) as [Hin|Hx]; [by apply Hd1|]. apply Z.ltb_lt in El. lia.
      * apply Z.ltb_ge in El. eapply traced_post; [by apply (IH false p1 (tr1 ++ tr0))|]. intros tr2 p2 [Hk2 Hd2].
        cbv beta. cbn [app]. rewrite ?app_nil_r, <- ?app_assoc. split; [done|]. intros Hall Hb Hn Hl.
        destruct (decide (id ∈ map we_ID rows)) as [Hin|Hni]; [apply settled_app, Hd1; [done|lia|done]|].
        destruct (decide (po_lastID p1 < id)) as [Hlt|Hge]; [apply Hd2; [done|done|done|lia]|].
        destruct Hpage as (_ & _ & Hp). destruct (Hp Hn) as [?|Hbelow]; [lia|done|].
        apply elem_of_cons in M1 as [?|(x & E & Hx)%list_elem_of_fmap]; [lia|].
        rewrite Forall_forall in Hbelow. specialize (Hbelow x Hx). lia.
Qed.

(** One poll of a started poller. *)
Lemma poll_kept p tr0 : po_started p = true -> kept tr0 p ->
  traced (poll cfg p) (fun tr p' => kept (tr ++ tr0) p' /\
    ((forall st, R st -> healthy st) -> 0 < fc_PollBatch cfg -> o <> None ->
     is_Some (po_missing p !! id) \/ po_lastID p < id <= po_lastID p + Z.of_nat fanoutMaxPagesPerPoll * fc_PollBatch cfg ->
     settled (tr ++ tr0))).
Proof.
  intros Hs Hk. unfold poll, start. rewrite Hs.
  eapply (traced_bind _ _ _ _ (fun tr r => tr = [] /\ r = (true, p))); [by apply traced_ret|]. intros tr r [-> ->]. cbn [fst snd negb].
  eapply traced_bind; [by apply (recheckGaps_kept p tr0)|]. intros tr1 p1 (Hk1 & L1 & Hd1).
  eapply traced_post; [by apply (read_pages_kept _ true p1 (tr1 ++ tr0))|]. intros tr2 p2 [Hk2 Hd2].
  cbv beta. cbn [app]. rewrite ?app_nil_r, <- ?app_assoc. split; [done|]. intros Hh Hb Hn [Hm|Hl].
  - by apply settled_app, Hd1.
  - apply Hd2; [done|done|done|]. by rewrite L1.
Qed.
Lemma pollLoop_kept n p tr0 : once cfg p tr0 -> po_started p = true -> kept tr0 p ->
  traced (pollLoop cfg n p) (fun tr p' => kept (tr ++ tr0) p' /\ po_started p' = true).
Proof.
  revert p tr0. induction n as [|n IH]; intros p tr0 Ho Hs Hk; [by apply traced_ret|]. cbn [pollLoop].
  eapply traced_bind; [apply traced_and; [by apply (poll_once cfg R shows HI p tr0)|by apply (poll_kept p tr0)]|].
  intros tr1 p1 [[Ho1 Hs1] [Hk1 _]]. eapply traced_post; [apply (IH p1 (tr1 ++ tr0)); auto|]. rebracket.
Qed.
End alive.

Lemma NewPoller_once cfg : once cfg NewPoller [].
Proof. constructor; cbn; try done. by intros ? ?%elem_of_nil. Qed.
Lemma reachable_once cfg n w : ew_trace w = [] ->
  let r := pollLoop cfg n NewPoller w in once cfg r.1 (ew_trace r.2).
Proof.
  intros Hw. destruct (pollLoop_once cfg (fun _ => True) (fun _ => True) (fun _ _ _ _ => Logic.I) n NewPoller [] (NewPoller_once cfg) w)
    as (_ & _ & _ & tr & E & Ho); [done|done|]. cbv zeta. rewrite E, Hw. done.
Qed.

(** ** Properties *)

(** C28. Whatever the database and the other replicas do, the poller never delivers a row
    again unless the IDs restarted in between, and it delivers a row only when the row is
    of another replica, not older than the maximal age, and by the hub call that its
    target names; it writes no row. *)
Theorem each_row_once cfg n w : ew_trace w = [] ->
  let tr := ew_trace (pollLoop cfg n NewPoller w).2 in no_repeat tr /\ Forall (event_ok cfg) tr.
Proof. intros Hw. destruct (reachable_once cfg n w Hw). done. Qed.

(** Every step of the environment of [w] keeps the row [o] of [id]. *)
Definition keeps_row (id : Z) (o : option WSEvent) (w : EWorld EventTable FanoutEvent unit) : Prop :=
  shows id o (ew_state w) /\ forall k t, shows id o t -> shows id o (en_others (ew_env w k) t).
Local Abbreviation steps w := (fun st => exists k, st = ew_env w k).

Lemma keeps_row_stable id o w : keeps_row id o w -> stable (steps w) (shows id o).
Proof. intros [_ H] st t [k ->]. apply H. Qed.

(** Polls of a reachable, started poller keep a row pending until it is settled. *)
Lemma polls_keep cfg n0 w0 n w id o T : 0 < id -> ew_trace w0 = [] -> ew_trace w = [] -> keeps_row id o w ->
  (o = None -> forall k, T - fc_GapTimeout cfg <= en_now (ew_env w k) <= T) ->
  let p0 := (pollLoop cfg n0 NewPoller w0).1 in po_started p0 = true -> alive id o T p0 ->
  let r := pollLoop cfg n p0 w in
  kept cfg (steps w) id o T (ew_trace r.2) r.1 /\ po_started r.1 = true.
Proof.
  intros Hid H0 Hw Hrow HT p0 Hs Ha. cbv zeta.
  pose proof (reachable_once cfg n0 w0 H0) as Ho. cbv zeta in Ho. fold p0 in Ho.
  assert (Ho' : once cfg p0 []).
  { destruct Ho as [H1 H2 H3 H4 H5]. constructor; cbn; try done; [by intros ? ?%elem_of_nil|by rewrite Hs]. }
  destruct (pollLoop_kept cfg (steps w) id o T Hid (keeps_row_stable id o w Hrow) (fun Eo st '(ex_intro _ k E) =>
    eq_ind_r (fun st => T - fc_GapTimeout cfg <= en_now st <= T) (HT Eo k) E) n p0 [] Ho' Hs (or_intror Ha) w) as (_ & _ & _ & tr & E & Hk & Hs').
  - intros k. by exists k.
  - apply Hrow.
  - rewrite E, Hw. done.
Qed.

(** A visible row of another replica that the poller has not passed (its ID is above
    the position or tracked as missing) is never lost: after any number of polls, with any
    failures of the database, it was delivered or skipped as stale or unknown, or it is
    still above the position or tracked. *)
Theorem row_never_lost cfg n0 w0 n w r :
  ew_trace w0 = [] -> ew_trace w = [] -> 0 < we_ID r -> we_Origin r <> fc_Origin cfg ->
  keeps_row (we_ID r) (Some r) w ->
  let p0 := (pollLoop cfg n0 NewPoller w0).1 in
  po_started p0 = true -> po_lastID p0 < we_ID r \/ is_Some (po_missing p0 !! we_ID r) ->
  let q := pollLoop cfg n p0 w in
  (exists now, (exists call, FDeliver r now call ∈ ew_trace q.2) \/
     exists reason, FSkip r now reason ∈ ew_trace q.2 /\ (stale cfg r now \/ call_of r = None)) \/
  po_lastID q.1 < we_ID r \/ is_Some (po_missing q.1 !! we_ID r).
Proof.
  intros H0 Hw Hid Ho Hrow p0 Hs Hp. cbv zeta.
  destruct (polls_keep cfg n0 w0 n w (we_ID r) (Some r) 0 Hid H0 Hw Hrow) as [Hk _]; [done|done| |].
  { destruct Hp as [?|[d ?]]; [by left|right; by exists d]. }
  fold p0 in Hk. destruct Hk as [[?|(e & He & st & _ & Hok & Hab)]|[?|(d & ? & _)]]; [done| |by right; left|right; right; by exists d].
  left. destruct e as [ev now call|ev now reason| | | |]; try done; destruct Hab as [-> ->]; exists (en_now st).
  - left. by exists call.
  - right. exists reason. split; [done|]. by destruct Hok.
Qed.

(** C29. A row of another replica that commits late is delivered, when its target is one that
    a replica knows, no other row ever has its ID, and it is not too old to be fresh: its ID is
    above the position of the poller; while it is not visible and the gap timeout has not passed the
    poller may read rows with higher IDs, and meet failures; when it becomes visible, one
    poll without a fault delivers it, provided that no warning gave up its ID and that it
    is tracked or within the reach of a poll. *)
Theorem late_row_delivered cfg n0 w0 n w1 w2 r T call :
  ew_trace w0 = [] -> ew_trace w1 = [] -> ew_trace w2 = [] ->
  0 < we_ID r -> we_Origin r <> fc_Origin cfg -> call_of r = Some call -> 0 < fc_PollBatch cfg ->
  let p0 := (pollLoop cfg n0 NewPoller w0).1 in
  po_started p0 = true -> po_lastID p0 < we_ID r ->
  keeps_row (we_ID r) None w1 -> (forall k, T - fc_GapTimeout cfg <= en_now (ew_env w1 k) <= T) ->
  let q := pollLoop cfg n p0 w1 in
  ~ untracked (we_ID r) (ew_trace q.2) ->
  keeps_row (we_ID r) (Some r) w2 -> (forall k, healthy (ew_env w2 k) /\ ~ stale cfg r (en_now (ew_env w2 k))) ->
  is_Some (po_missing q.1 !! we_ID r) \/
    we_ID r <= po_lastID q.1 + Z.of_nat fanoutMaxPagesPerPoll * fc_PollBatch cfg ->
  exists now, FDeliver r now call ∈ ew_trace (poll cfg q.1 w2).2.
Proof.
  intros H0 H1 H2 Hid Ho Hcall Hb p0 Hs Hl Hrow1 HT q Hnu Hrow2 Hw2 Hreach.
  destruct (polls_keep cfg n0 w0 n w1 (we_ID r) None T Hid H0 H1 Hrow1 (fun _ => HT) Hs (or_introl Hl)) as [Hk Hs1].
  fold p0 q in Hk, Hs1. destruct Hk as [Hk|Ha]; [done|].
  assert (Ha' : alive (we_ID r) (Some r) 0 q.1).
  { destruct Ha as [?|(d & ? & _)]; [by left|right; by exists d]. }
  destruct (poll_kept cfg (steps w2) (we_ID r) (Some r) 0 Hid (keeps_row_stable _ _ _ Hrow2) (fun E => False_ind _ (match E with eq_refl => I end))
    q.1 [] Hs1 (or_intror Ha') w2) as (_ & _ & _ & tr & E & _ & Hd).
  - intros k. by exists k.
  - apply Hrow2.
  - rewrite E, H2. rewrite !app_nil_r in *.
    destruct Hd as [?|(e & He & st & [k ->] & Hok & Hab)]; [|done|done| |done|].
    + intros st [k ->]. apply Hw2.
    + destruct Hreach as [?|?]; [by left|]. destruct Ha as [?|(d & ? & _)]; [right; lia|left; by exists d].
    + destruct (Hw2 k) as [_ Hfresh]. destruct e as [ev now c|ev now reason| | | |]; try done; destruct Hab as [-> ->].
      * exists (en_now (ew_env w2 k)). destruct Hok as [Hc _]. rewrite Hcall in Hc. injection Hc as <-. done.
      * destruct Hok as [_ [?|?]]; [done|congruence].
Qed.

(** ** A run: row 1 commits after row 2 was read. *)

Definition demo_cfg : FanoutConfig := withDefaults (mkFanoutConfig "b" 0 0 0 0 0 0 0).
Definition demo_row (id : Z) (m : string) : WSEvent := mkWSEvent id (100 * Second) "user:u1" "a" m.
Definition demo_world (rows : gmap Z WSEvent) (now : time) : EWorld EventTable FanoutEvent unit :=
  mkEWorld (mkEventTable rows 3) (fun _ => mkStep (fun t => t) now None false None tt) 0 false [].
Definition demo_w0 := demo_world ∅ (99 * Second).
Definition demo_w1 := demo_world {[2 := demo_row 2 "second"]} (101 * Second).
Definition demo_w2 := demo_world {[1 := demo_row 1 "first"; 2 := demo_row 2 "second"]} (105 * Second).
Definition demo_poller : Poller := (pollLoop demo_cfg 1 NewPoller demo_w0).1.

Lemma demo_keeps id o rows now : shows id o (mkEventTable rows 3) -> keeps_row id o (demo_world rows now).
Proof. by split. Qed.
Lemma demo_shows1 : shows 1 None (mkEventTable {[2 := demo_row 2 "second"]} 3).
Proof. split; [|done]. intros k ev. cbn. by intros [<- <-]%lookup_singleton_Some. Qed.
Lemma demo_shows2 : shows 1 (Some (demo_row 1 "first")) (mkEventTable {[1 := demo_row 1 "first"; 2 := demo_row 2 "second"]} 3).
Proof. split; [|done]. intros k ev. cbn. by intros [[<- <-]|[_ [<- <-]%lookup_singleton_Some]]%lookup_insert_Some. Qed.

Lemma each_row_once_witness : ew_trace demo_w2 = [] /\
  no_repeat (ew_trace (pollLoop demo_cfg 3 NewPoller demo_w2).2).
Proof. split; [reflexivity|]. apply (each_row_once demo_cfg 3 demo_w2). reflexivity. Defined.

Lemma row_never_lost_witness :
  keeps_row 1 (Some (demo_row 1 "first")) demo_w2 /\
  ((exists now, (exists call, FDeliver (demo_row 1 "first") now call ∈ ew_trace (pollLoop demo_cfg 2 demo_poller demo_w2).2) \/
     exists reason, FSkip (demo_row 1 "first") now reason ∈ ew_trace (pollLoop demo_cfg 2 demo_poller demo_w2).2 /\
       (stale demo_cfg (demo_row 1 "first") now \/ call_of (demo_row 1 "first") = None)) \/
   po_lastID (pollLoop demo_cfg 2 demo_poller demo_w2).1 < 1 \/
   is_Some (po_missing (pollLoop demo_cfg 2 demo_poller demo_w2).1 !! 1)).
Proof.
  assert (Hk : keeps_row 1 (Some (demo_row 1 "first")) demo_w2) by apply demo_keeps, demo_shows2. split; [exact Hk|].
  apply (row_never_lost demo_cfg 1 demo_w0 2 demo_w2 (demo_row 1 "first")); try reflexivity; [done|exact Hk|].
  left. vm_compute. reflexivity.
Defined.

Lemma late_row_delivered_witness :
  (po_missing (pollLoop demo_cfg 1 demo_poller demo_w1).1 !! 1 = Some (111 * Second)) /\
  exists now, FDeliver (demo_row 1 "first") now (DeliverUser "u1" "first") ∈
    ew_trace (poll demo_cfg (pollLoop demo_cfg 1 demo_poller demo_w1).1 demo_w2).2.
Proof.
  split; [vm_compute; reflexivity|].
  assert (Hk1 : keeps_row 1 None demo_w1) by apply demo_keeps, demo_shows1.
  assert (Hk2 : keeps_row 1 (Some (demo_row 1 "first")) demo_w2) by apply demo_keeps, demo_shows2.
  assert (Ht : ew_trace (pollLoop demo_cfg 1 demo_poller demo_w1).2 =
    [FDeliver (demo_row 2 "second") (101 * Second) (DeliverUser "u1" "second")]) by (vm_compute; reflexivity).
  apply (late_row_delivered demo_cfg 1 demo_w0 1 demo_w1 demo_w2 (demo_row 1 "first") (105 * Second)); try reflexivity.
  - done.
  - exact Hk1.
  - intros k. vm_compute. by split.
  - change (pollLoop demo_cfg 1 NewPoller demo_w0).1 with demo_poller. rewrite Ht.
    by intros (a & b & [?|?%elem_of_nil]%elem_of_cons & _).
  - exact Hk2.
  - intros k. split; [by split|]. intros [_ H]. by vm_compute in H.
  - left. exists (111 * Second). vm_compute. reflexivity.
Defined.
