(* ===== verification/Spread.v ===== *)
(** * From one replica to the others

    The way of a message or a revocation between replicas: the target of a published row
    names the same call on the other side, a revocation closes the sockets there, the
    writer keeps the order of the rows and loses none without counting it, and the
    cleanup deletes exactly the old rows. *)

From stdpp Require Import sorting.
From S2P Require Import Prelude Models Store Durations Sessions Effects Hub HubRules Fanout FanoutRules.
Local Open Scope string_scope.
Local Open Scope list_scope.
Local Open Scope Z_scope.

(** ** Targets *)

(** What a call of the hub asks of the other replicas at time [t]. *)
Definition remote_call (q : HubRequest) (t : time) : HubCall :=
  match q with
  | Broadcast m => DeliverAll m
  | BroadcastToInstance i m => DeliverInstance i m
  | BroadcastToUser u m => DeliverUser u m
  | DisconnectUser u => CloseUser u t
  | DisconnectToken j => CloseToken j
  | DisconnectAPIKey k => CloseAPIKey k
  end.

Lemma call_of_published_aux q target message id t origin : published q = Some (target, message) ->
  call_of (mkWSEvent id t target origin message) = Some (remote_call q t).
Proof.
  destruct q as [m|i m|u m|u|j|k]; cbn [published]; intros H; try (destruct (_ =? "")%string; [done|]);
    injection H as <- <-; unfold call_of; cbn [we_Target we_CreatedAt we_Payload remote_call].
  - done.
  - change (HasPrefix (WSEventTargetInstancePrefix +:+ i) WSEventTargetRevokeUserPrefix) with false.
    change (HasPrefix (WSEventTargetInstancePrefix +:+ i) WSEventTargetRevokeTokenPrefix) with false.
    change (HasPrefix (WSEventTargetInstancePrefix +:+ i) WSEventTargetRevokeAPIKeyPrefix) with false.
    change (WSEventTargetInstancePrefix +:+ i =? WSEventTargetAll)%string with false.
    by rewrite HasPrefix_app, TrimPrefix_app.
  - change (HasPrefix (WSEventTargetUserPrefix +:+ u) WSEventTargetRevokeUserPrefix) with false.
    change (HasPrefix (WSEventTargetUserPrefix +:+ u) WSEventTargetRevokeTokenPrefix) with false.
    change (HasPrefix (WSEventTargetUserPrefix +:+ u) WSEventTargetRevokeAPIKeyPrefix) with false.
    change (WSEventTargetUserPrefix +:+ u =? WSEventTargetAll)%string with false.
    change (HasPrefix (WSEventTargetUserPrefix +:+ u) WSEventTargetInstancePrefix) with false.
    by rewrite HasPrefix_app, TrimPrefix_app.
  - by rewrite HasPrefix_app, TrimPrefix_app.
  - change (HasPrefix (WSEventTargetRevokeTokenPrefix +:+ j) WSEventTargetRevokeUserPrefix) with false.
    by rewrite HasPrefix_app, TrimPrefix_app.
  - change (HasPrefix (WSEventTargetRevokeAPIKeyPrefix +:+ k) WSEventTargetRevokeUserPrefix) with false.
    change (HasPrefix (WSEventTargetRevokeAPIKeyPrefix +:+ k) WSEventTargetRevokeTokenPrefix) with false.
    by rewrite HasPrefix_app, TrimPrefix_app.
Qed.

(** The row that a hub call publishes makes the other replicas do the same call,
    whatever the IDs and the message are: the same step of their hub for messages, tokens
    and API keys, and for a user the close of the sessions that began until the time of
    the row. *)
Theorem published_call_read_back q target message id t origin :
  published q = Some (target, message) ->
  call_of (mkWSEvent id t target origin message) = Some (remote_call q t) /\
  forall g order, call_step g (remote_call q t) order =
    match q with DisconnectUser u => ADisconnect g (UserIssuedBefore u t) | _ => local_step g q order end.
Proof. intros H. split; [by eapply call_of_published_aux|]. by destruct q. Qed.
Lemma published_call_read_back_witness :
  published (DisconnectUser "user:7") = Some ("revoke:user:user:7", "") /\
  call_of (mkWSEvent 1 5 "revoke:user:user:7" "a" "") = Some (CloseUser "user:7" 5).
Proof. split; [reflexivity|]. apply (published_call_read_back (DisconnectUser "user:7")). reflexivity. Defined.

(** C27. The revocation of a user on one replica reaches the sockets of another: when the
    row that it published is delivered there, every client of [/ws] of the user (the exec and
    port-forward connections are [takeRevocablesLocked] of [Hub]) whose session began
    at or before the time of the row (in milliseconds, or at an unknown time) is closed
    for good and gets no message that was not in its buffer, and the sockets of later
    sessions and of other users stay. *)
Theorem revocation_spreads actions h u target message id t origin c g order h1 rest h2 :
  hub_run actions NewHub = Some h -> published (DisconnectUser u) = Some (target, message) ->
  call_of (mkWSEvent id t target origin message) = Some c ->
  hub_step (call_step g c order) h = Some h1 -> hub_run rest h1 = Some h2 ->
  (forall x cl, hb_heap h !! x = Some cl -> id_UserID (cl_identity cl) = u ->
     IsZero (id_IssuedAt (cl_identity cl)) || (UnixMilli (id_IssuedAt (cl_identity cl)) <=? UnixMilli t) = true ->
     (x ∉ hb_clients h2) /\ exists cl2, hb_heap h2 !! x = Some cl2 /\ cl_closed cl2 = true /\
       forall m, TextFrame m ∈ cl_frames cl2 -> TextFrame m ∈ cl_frames cl \/ m ∈ cl_send cl) /\
  (forall x cl, hb_heap h !! x = Some cl ->
     id_UserID (cl_identity cl) <> u \/
       (IsZero t || IsZero (id_IssuedAt (cl_identity cl)) = false /\ UnixMilli t < UnixMilli (id_IssuedAt (cl_identity cl))) ->
     hb_heap h1 !! x = Some cl /\ (x ∈ hb_clients h1 <-> x ∈ hb_clients h)).
Proof.
  intros H0 Hp Hc H1 H2. rewrite (call_of_published_aux _ _ _ id t origin Hp) in Hc. injection Hc as <-. cbn [remote_call call_step] in H1.
  destruct (cuts_off_aux _ _ _ _ _ _ _ H0 H1 H2) as (Ha & _ & Hb). split.
  - intros x cl Hx Hu Hi. destruct (Ha x cl Hx) as (? & cl2 & ? & ? & _ & ?); [|by eauto].
    unfold targets. rewrite bool_decide_eq_true_2 by done. cbn [negb]. apply orb_true_iff in Hi as [->| ->]; [done|].
    by rewrite !orb_true_r.
  - intros x cl Hx Hi. apply (Hb x cl Hx). unfold targets. destruct Hi as [Hn|[Hz Hl]].
    + by rewrite bool_decide_eq_false_2.
    + destruct (negb _); [done|]. apply orb_false_iff in Hz as [-> ->]. cbn. by apply Z.leb_gt.
Qed.

Definition spread_start : list Action := [ANewClient 2 (token_of "u1" "t1"); ANewClient 3 (token_of "u2" "t2")].
Definition spread_at : Hub := default NewHub (hub_run spread_start NewHub).
Definition spread_end : Hub := default NewHub (hub_step (ADisconnect 5 (UserIssuedBefore "u1" (6 * Second))) spread_at).
Lemma revocation_spreads_witness :
  (2%positive ∉ hb_clients spread_end) /\ (3%positive ∈ hb_clients spread_end <-> 3%positive ∈ hb_clients spread_at).
Proof.
  assert (E0 : hub_run spread_start NewHub = Some spread_at) by (vm_compute; reflexivity).
  assert (E1 : hub_step (call_step 5 (CloseUser "u1" (6 * Second)) []) spread_at = Some spread_end) by (vm_compute; reflexivity).
  assert (E2 : call_of (mkWSEvent 1 (6 * Second) "revoke:user:u1" "a" "") = Some (CloseUser "u1" (6 * Second)))
    by (vm_compute; reflexivity).
  assert (E3 : hub_run [] spread_end = Some spread_end) by reflexivity.
  destruct (revocation_spreads spread_start spread_at "u1" "revoke:user:u1" "" 1 (6 * Second) "a" (CloseUser "u1" (6 * Second))
    5 [] spread_end [] spread_end E0 eq_refl E2 E1 E3) as [Ha Hb].
  assert (C2 : hb_heap spread_at !! 2%positive = Some (mkClient (token_of "u1" "t1") [] false "" true [])) by (vm_compute; reflexivity).
  assert (C3 : hb_heap spread_at !! 3%positive = Some (mkClient (token_of "u2" "t2") [] false "" true [])) by (vm_compute; reflexivity).
  split.
  - apply (Ha _ _ C2); [reflexivity|vm_compute; reflexivity].
  - refine (proj2 (Hb _ _ C3 (or_introl _))). discriminate.
Defined.

(** ** The writer *)

(** What can happen to the queue, in any order: a publish, a round of the writer, the stop
    and, after it, the flush. *)
Inductive WriterOp := WPublish (target message : string) (now : time) | WRound | WStop | WFlush.
Definition writer_step (cfg : FanoutConfig) (op : WriterOp) (w : Writer) : Eff EventTable FanoutEvent unit Writer :=
  match op with
  | WPublish target message now => eret (publish cfg target message now w)
  | WRound => writeRound cfg w
  | WStop => eret (wr_stop w)
  | WFlush => if wr_stopped w then flush cfg w else eret w
  end.
Fixpoint writer_run (cfg : FanoutConfig) (ops : list WriterOp) (w : Writer) : Eff EventTable FanoutEvent unit Writer :=
  match ops with
  | [] => eret w
  | op :: ops' => let? w1 := writer_step cfg op w in writer_run cfg ops' w1
  end.
Definition NewWriter : Writer := mkWriter [] false (mkFanoutStats 0 0).

(** The rows that the calls offer, in their order. *)
Definition offered (cfg : FanoutConfig) (ops : list WriterOp) : list WSEvent :=
  omap (fun op => match op with
    | WPublish target message now => Some (mkWSEvent 0 now target (fc_Origin cfg) message)
    | _ => None
    end) ops.
(** The rows of the INSERT statements of a trace, oldest first. *)
Fixpoint inserted (tr : list FanoutEvent) : list WSEvent :=
  match tr with
  | [] => []
  | FInsert rows :: tr' => inserted tr' ++ rows
  | _ :: tr' => inserted tr'
  end.
Fixpoint batches (tr : list FanoutEvent) : list (list WSEvent) :=
  match tr with [] => [] | FInsert rows :: tr' => rows :: batches tr' | _ :: tr' => batches tr' end.

Section writer.
Context (cfg : FanoutConfig) (R : Env EventTable unit -> Prop).
Local Abbreviation traced := (traced R (fun _ : EventTable => True)).

Definition batch_ok (batch : list WSEvent) : Prop :=
  batch <> [] /\ Z.of_nat (length batch) <= fc_WriteBatch cfg /\
  (forall front ev, batch = front ++ [ev] -> payload_size front < fanoutWriteBatchBytes).

Lemma payload_size_app l ev : payload_size (l ++ [ev]) = payload_size l + Z.of_nat (String.length (we_Payload ev)).
Proof. induction l as [|x l IH]; cbn; [lia|]. unfold payload_size in IH. rewrite IH. lia. Qed.
Lemma fill_spec queue batch : batch = [] \/ batch_ok batch ->
  let r := fill cfg queue batch (payload_size batch) in
  r.1 ++ r.2 = batch ++ queue /\ (r.1 = [] \/ batch_ok r.1) /\ (batch <> [] -> r.1 <> []).
Proof.
  revert batch. induction queue as [|ev queue IH]; intros batch Hb; cbn [fill]; cbv zeta.
  - destruct (negb _); cbn [fst snd]; rewrite ?app_nil_r; done.
  - destruct (negb _) eqn:E; [done|]. apply negb_false_iff, andb_true_iff in E as [E1 E2]. rewrite <- payload_size_app.
    destruct (IH (batch ++ [ev])) as (H1 & H2 & H3).
    { right. split_and!; [by destruct batch|rewrite length_app; cbn; lia|]. intros front x Hx. apply app_inj_tail in Hx as [<- <-]. lia. }
    split_and!; [by rewrite H1, <- app_assoc|done|]. intros _. apply H3. by destruct batch.
Qed.
Lemma single_batch ev : 0 < fc_WriteBatch cfg -> batch_ok [ev].
Proof.
  intros Hw. split_and!; [done|cbn; lia|]. intros front x Hx. apply (app_inj_tail [] front) in Hx as [<- _]. cbn.
  unfold fanoutWriteBatchBytes. lia.
Qed.

(** The rows that were inserted and the ones in the queue, the counters and the bounds. *)
Record writer_inv (off : list WSEvent) (tr : list FanoutEvent) (w : Writer) : Prop := {
  wi_order : sublist (inserted tr ++ wr_queue w) off;
  wi_batches : Forall batch_ok (batches tr);
  wi_bound : Z.of_nat (length (wr_queue w)) <= fc_BufferSize cfg;
  wi_count : wr_stopped w = false ->
    fs_Written (wr_stats w) + fs_Dropped (wr_stats w) + Z.of_nat (length (wr_queue w)) = Z.of_nat (length off)
}.

Lemma write_inv off tr0 w batch rest : writer_inv off tr0 w -> batch_ok batch -> batch ++ rest = wr_queue w ->
  traced (write batch (wr_set_queue rest w)) (fun tr w' => writer_inv off (tr ++ tr0) w' /\ wr_stopped w' = wr_stopped w).
Proof.
  intros [H1 H2 H3 H4] Hb E. unfold write, Insert. rewrite bool_decide_eq_false_2 by apply Hb. cbv zeta.
  eapply (traced_bind _ _ _ _ (fun tr _ => tr = [] \/ tr = [FInsert batch])).
  { eapply (traced_bind _ _ _ _ (fun tr _ => tr = [] \/ tr = [FInsert batch])); [|intros tr r Hr; by apply traced_ret].
    apply traced_write; [done|done|]. intros st t _ _. destruct (en_fault st) as [e|]; [destruct (en_lost st)|]; auto. }
  intros tr err Htr. apply traced_ret. cbn [app]. rewrite <- E in H1, H3, H4. rewrite length_app in H3, H4.
  split; [|done]. constructor.
  - cbn [wr_count wr_set_queue wr_queue]. destruct Htr as [->| ->]; cbn [app inserted].
    + etrans; [|exact H1]. apply sublist_app; [done|]. by apply sublist_inserts_l.
    + by rewrite <- app_assoc.
  - destruct Htr as [->| ->]; [done|]. cbn. by constructor.
  - cbn. lia.
  - cbn. intros Hs. specialize (H4 Hs). destruct (bool_decide _); cbn; lia.
Qed.

Lemma publish_inv off tr w target message now : writer_inv off tr w ->
  writer_inv (off ++ [mkWSEvent 0 now target (fc_Origin cfg) message]) tr (publish cfg target message now w).
Proof.
  intros [H1 H2 H3 H4]. assert (Hs : sublist (inserted tr ++ wr_queue w) (off ++ [mkWSEvent 0 now target (fc_Origin cfg) message]))
    by (by apply sublist_inserts_r).
  unfold publish. destruct (wr_stopped w) eqn:Es; [|destruct (_ <? _); [|destruct (_ <? _) eqn:Eb]].
  - constructor; [done|done|done|congruence].
  - constructor; [done|done|done|]. intros _. specialize (H4 eq_refl). cbn. rewrite length_app. cbn. lia.
  - apply Z.ltb_lt in Eb. constructor; cbn [wr_set_queue wr_queue wr_stats wr_stopped]; [|done|rewrite length_app; cbn; lia|].
    + rewrite app_assoc. by apply sublist_app.
    + intros _. specialize (H4 eq_refl). rewrite !length_app. cbn. lia.
  - constructor; [done|done|done|]. intros _. specialize (H4 eq_refl). cbn. rewrite length_app. cbn. lia.
Qed.

Lemma round_inv off tr0 w : 0 < fc_WriteBatch cfg -> writer_inv off tr0 w ->
  traced (writeRound cfg w) (fun tr w' => writer_inv off (tr ++ tr0) w').
Proof.
  intros Hw Hi. unfold writeRound. destruct (wr_queue w) as [|ev queue] eqn:Eq; [by apply traced_ret|].
  unfold fillBatch. destruct (fill_spec queue [ev] (or_intror (single_batch ev Hw))) as (H1 & H2 & H3).
  destruct (fill cfg queue [ev] _) as [batch rest]. cbn [fst snd] in *.
  eapply traced_post; [apply (write_inv off tr0 w batch rest); [done| |by rewrite Eq]|].
  - destruct H2 as [E|?]; [|done]. by destruct (H3 ltac:(done)).
  - by intros tr w' [? _].
Qed.

Lemma flush_rounds_inv off fuel deadline tr0 w : writer_inv off tr0 w -> wr_stopped w = true ->
  traced (flush_rounds cfg fuel deadline w) (fun tr w' => writer_inv off (tr ++ tr0) w' /\ wr_stopped w' = true).
Proof.
  revert tr0 w. induction fuel as [|fuel IH]; intros tr0 w Hi Hs; cbn [flush_rounds]; [by apply traced_ret|].
  eapply (traced_bind _ _ _ _ (fun tr _ => tr = [])); [by apply traced_clock|]. intros tr now ->.
  destruct (negb _); [by apply traced_ret|]. unfold fillBatch. destruct (fill_spec (wr_queue w) [] (or_introl eq_refl)) as (H1 & H2 & _).
  destruct (fill cfg (wr_queue w) [] _) as [batch rest]. cbn [fst snd] in *.
  destruct (bool_decide (batch = [])) eqn:Eb; [by apply traced_ret|]. apply bool_decide_eq_false in Eb.
  eapply traced_bind; [apply (write_inv off tr0 w batch rest); [done|by destruct H2|done]|]. intros tr1 w1 [Hi1 Hs1].
  eapply traced_post; [apply (IH (tr1 ++ tr0) w1 Hi1); congruence|]. rebracket.
Qed.

Lemma writer_run_inv ops w tr0 off : 0 < fc_WriteBatch cfg -> writer_inv off tr0 w ->
  traced (writer_run cfg ops w) (fun tr w' => writer_inv (off ++ offered cfg ops) (tr ++ tr0) w').
Proof.
  intros Hw. revert w tr0 off. induction ops as [|op ops IH]; intros w tr0 off Hi; cbn [writer_run].
  - apply traced_ret. unfold offered. cbn. by rewrite app_nil_r.
  - assert (Hstep : traced (writer_step cfg op w) (fun tr w' => writer_inv (off ++ offered cfg [op]) (tr ++ tr0) w')).
    { unfold offered. destruct op as [target message now| | |]; cbn [writer_step omap list_omap]; rewrite ?app_nil_r.
      - apply traced_ret. by apply publish_inv.
      - by apply round_inv.
      - apply traced_ret. destruct Hi as [H1 H2 H3 H4]. by constructor.
      - destruct (wr_stopped w) eqn:Es; [|by apply traced_ret]. unfold flush.
        eapply (traced_bind _ _ _ _ (fun tr _ => tr = [])); [by apply traced_clock|]. intros tr now ->.
        eapply traced_bind; [by apply (flush_rounds_inv off _ _ tr0 w)|]. intros tr1 w1 [[H1 H2 H3 H4] Hs1]. apply traced_ret.
        cbn [app]. rewrite ?app_nil_r. constructor; [done|done|done|]. cbn. congruence. }
    eapply traced_bind; [exact Hstep|]. intros tr1 w1 Hi1.
    eapply traced_post; [by apply (IH w1 (tr1 ++ tr0) _ Hi1)|]. intros tr2 w2. cbv beta.
    replace (off ++ offered cfg (op :: ops)) with ((off ++ offered cfg [op]) ++ offered cfg ops)
      by (unfold offered; rewrite <- app_assoc; f_equal; destruct op; done). by rewrite app_assoc.
Qed.
End writer.

(** Under any order of publishes and writer rounds, and any failures of the database:
    the rows that reach an INSERT, followed by the ones in the queue, are published rows in
    the order of their publishing, none of them twice; no INSERT is empty, exceeds the batch
    size or goes on at 1 MiB of payload; the queue keeps its bound; and until the stop every
    published message is counted as written or dropped, or is in the queue. *)
Theorem writer_keeps_order cfg ops w : ew_trace w = [] -> 0 < fc_WriteBatch cfg -> 0 <= fc_BufferSize cfg ->
  let r := writer_run cfg ops NewWriter w in
  sublist (inserted (ew_trace r.2) ++ wr_queue r.1) (offered cfg ops) /\
  Forall (batch_ok cfg) (batches (ew_trace r.2)) /\
  Z.of_nat (length (wr_queue r.1)) <= fc_BufferSize cfg /\
  (wr_stopped r.1 = false -> fs_Written (wr_stats r.1) + fs_Dropped (wr_stats r.1) + Z.of_nat (length (wr_queue r.1)) =
     Z.of_nat (length (offered cfg ops))).
Proof.
  intros Hw Hb Hs. destruct (writer_run_inv cfg (fun _ => True) ops NewWriter [] [] Hb) with (w := w)
    as (_ & _ & _ & tr & E & [H1 H2 H3 H4]); [by constructor|done|done|].
  cbv zeta. rewrite E, Hw. rewrite !app_nil_r in *. done.
Qed.

Definition faulty_world : EWorld EventTable FanoutEvent unit :=
  mkEWorld (mkEventTable ∅ 1) (fun n => mkStep (fun t => t) (Z.of_nat n) (if (n =? 0)%nat then errorsNew "down" else None) false None tt)
    0 false [].
Definition writer_ops : list WriterOp :=
  [WPublish "all" "m1" 1; WRound; WPublish "all" "m2" 2; WPublish "user:u" "m3" 3; WRound; WPublish "all" "m4" 4].
Lemma writer_keeps_order_witness :
  let r := writer_run demo_cfg writer_ops NewWriter faulty_world in
  map we_Payload (inserted (ew_trace r.2) ++ wr_queue r.1) = ["m2"; "m3"; "m4"] /\
  sublist (inserted (ew_trace r.2) ++ wr_queue r.1) (offered demo_cfg writer_ops).
Proof.
  split; [vm_compute; reflexivity|]. apply (writer_keeps_order demo_cfg writer_ops faulty_world); [reflexivity|vm_compute; reflexivity|].
  vm_compute. discriminate.
Defined.

(** ** The cleanup *)

Definition is_old (before : time) (ev : WSEvent) : Prop := we_CreatedAt ev < before.
#[global] Instance is_old_dec before ev : Decision (is_old before ev).
Proof. unfold is_old. apply _. Defined.
(** The table without the old rows. *)
Definition cleaned (before : time) (t : EventTable) : EventTable :=
  mkEventTable (filter (fun kv : Z * WSEvent => ~ is_old before kv.2) (et_rows t)) (et_next t).
Definition old_size (before : time) (t : EventTable) : nat :=
  size (filter (fun kv : Z * WSEvent => is_old before kv.2) (et_rows t)).

Lemma delete_rows_spec upto before t : keyed t ->
  let r := delete_rows upto before t in
  keyed r.2 /\ cleaned before r.2 = cleaned before t /\ et_next r.2 = et_next t /\
  et_rows r.2 ⊆ et_rows t /\
  Z.of_nat (size (et_rows t)) = Z.of_nat (size (et_rows r.2)) + r.1.
Proof.
  intros Hk. unfold delete_rows. cbn [fst snd et_rows et_next]. split_and!; [| |done|apply map_filter_subseteq|].
  - intros k ev [Hev _]%map_lookup_filter_Some. by apply Hk.
  - unfold cleaned. cbn [et_rows et_next]. f_equal. apply map_eq. intros k. apply option_eq. intros ev.
    rewrite !map_lookup_filter_Some. unfold is_old. cbn. naive_solver.
  - rewrite Nat2Z.inj_sub; [lia|]. apply map_subseteq_size, map_filter_subseteq.
Qed.

Lemma sorted_last l u x : StronglySorted Z.lt l -> last l = Some u -> x ∈ l -> x <= u.
Proof.
  intros Hs. revert u x. induction Hs as [|y l Hs IH Hf]; intros u x; [done|]. rewrite last_cons.
  destruct (last l) as [v|] eqn:E.
  - intros [= <-] [->|Hx]%elem_of_cons; [|by apply IH]. rewrite Forall_forall in Hf.
    specialize (Hf v (last_Some_elem_of _ _ E)). lia.
  - intros [= <-]. apply last_None in E as ->. by intros ->%list_elem_of_singleton.
Qed.
Definition old_id (before : time) (ev : WSEvent) : option Z := if we_CreatedAt ev <? before then Some (we_ID ev) else None.
Lemma old_id_sorted before l : StronglySorted id_lt l -> StronglySorted Z.lt (omap (old_id before) l).
Proof.
  induction 1 as [|x l Hs IH Hf]; [constructor|]. cbn. unfold old_id at 1. destruct (_ <? _); [|done]. constructor; [done|].
  rewrite Forall_forall in Hf. apply Forall_forall. intros y (ev & Hev & Hy)%list_elem_of_omap.
  unfold old_id in Hy. destruct (_ <? _); [|done]. injection Hy as <-. by apply Hf.
Qed.
Lemma old_ids_spec before limit t : keyed t ->
  let ids := old_ids before limit t in
  (forall x, x ∈ ids -> exists ev, et_rows t !! x = Some ev /\ is_old before ev) /\
  (forall upto, last ids = Some upto -> Z.of_nat (length ids) < limit ->
     forall k ev, et_rows t !! k = Some ev -> is_old before ev -> k <= upto) /\
  (0 < limit -> ids = [] -> forall k ev, et_rows t !! k = Some ev -> ~ is_old before ev).
Proof.
  intros Hk. destruct (ordered_rows_spec t Hk) as [Hs Hin]. cbv zeta. unfold old_ids. fold (old_id before).
  set (l := omap (old_id before) (ordered_rows t)).
  assert (Hl : forall k ev, et_rows t !! k = Some ev -> is_old before ev -> k ∈ l).
  { intros k ev Hev Ho. pose proof (Hk k ev Hev) as <-. apply list_elem_of_omap. exists ev. split; [by apply Hin|].
    unfold old_id. by rewrite (proj2 (Z.ltb_lt _ _) Ho). }
  split_and!.
  - intros x (ev & Hev & Hx)%(subseteq_take _ l)%list_elem_of_omap. unfold old_id in Hx. destruct (_ <? _) eqn:E; [|done].
    injection Hx as <-. exists ev. split; [by apply Hin|]. by apply Z.ltb_lt.
  - intros upto Hu Hlen k ev Hev Ho. assert (E : take (Z.to_nat limit) l = l).
    { apply take_ge. rewrite length_take in Hlen. lia. }
    rewrite E in Hu. apply (sorted_last l); [by apply old_id_sorted|done|by eapply Hl].
  - intros Hp He k ev Hev Ho. pose proof (Hl k ev Hev Ho) as Hx. destruct l as [|y l']; [by apply elem_of_nil in Hx|].
    destruct (Z.to_nat limit) eqn:E; [lia|done].
Qed.

(** Nobody else writes to the table, and no statement fails. *)
Definition calm (st : Env EventTable unit) : Prop := (forall t, en_others st t = t) /\ healthy st.

Lemma old_size_delete before upto t : keyed t -> (exists ev, et_rows t !! upto = Some ev /\ is_old before ev) ->
  (old_size before (delete_rows upto before t).2 < old_size before t)%nat.
Proof.
  intros Hk (ev & Hev & Ho). unfold old_size. set (m := filter _ (et_rows t)).
  assert (Hm : m !! upto = Some ev) by (by apply map_lookup_filter_Some).
  assert (Hsub : filter (fun kv : Z * WSEvent => is_old before kv.2) (et_rows (delete_rows upto before t).2) ⊆ delete upto m).
  { apply map_subseteq_spec. intros k x [[Hx Hn]%map_lookup_filter_Some Hox]%map_lookup_filter_Some. cbn in Hn, Hox.
    apply lookup_delete_Some. pose proof (Hk k x Hx) as Ek. split; [intros <-; apply Hn; split; [lia|done]|by apply map_lookup_filter_Some]. }
  apply map_subseteq_size in Hsub. rewrite map_size_delete_Some in Hsub by (by exists ev).
  assert (size m <> 0%nat); [|lia]. intros Hz. apply map_size_empty_inv in Hz. by rewrite Hz in Hm.
Qed.
Lemma cleaned_none before t : (forall k ev, et_rows t !! k = Some ev -> ~ is_old before ev) -> cleaned before t = t.
Proof.
  intros Hn. unfold cleaned. destruct t as [m n]. cbn in *. f_equal. apply map_filter_id. intros k ev Hev. by apply (Hn k).
Qed.
Lemma calm_stable t : stable calm (fun s => s = t).
Proof. intros st s [Ho _] ->. apply Ho. Qed.

Lemma delete_batches_clean fuel before batch total t : keyed t -> 0 < batch -> (old_size before t < fuel)%nat ->
  triple calm (fun _ => True) false (fun s => s = t) (delete_batches fuel before batch total)
    (fun r s => s = cleaned before t /\
       r = Some (total + Z.of_nat (size (et_rows t)) - Z.of_nat (size (et_rows (cleaned before t))), None)).
Proof.
  revert total t. induction fuel as [|fuel IH]; intros total t Hk Hb Hf; [lia|]. cbn [delete_batches].
  eapply triple_bind; [apply triple_ctx; right; apply calm_stable|]. intros c. apply triple_fact. intros (st & [_ [_ Hc]] & ->).
  rewrite Hc. rewrite bool_decide_eq_false_2 by (by intros [? ?]).
  eapply triple_bind; [apply triple_read; right; apply calm_stable|]. intros r.
  eapply triple_pre with (P' := fun s => r = Ok (old_ids before batch t) /\ s = t).
  2: { intros s (-> & st' & [_ [Hft _]] & ->). by rewrite Hft. }
  apply triple_fact. intros ->. destruct (old_ids_spec before batch t Hk) as (H1 & H2 & H3).
  destruct (last (old_ids before batch t)) as [upto|] eqn:El.
  - destruct (delete_rows_spec upto before t Hk) as (Hk1 & Hc1 & Hn1 & Hs1 & Hz1). set (d := delete_rows upto before t) in *.
    eapply triple_bind with (Q0 := fun r s => r = Ok d.1 /\ s = d.2).
    { apply triple_write; [right; apply calm_stable|done| |].
      - intros now s ->. fold d. by destruct d.
      - intros st' err s [_ [Hft _]] Hx _. congruence. }
    intros r. apply triple_fact. intros ->.
    destruct (Z.of_nat (length (old_ids before batch t)) <? batch) eqn:Eb.
    + apply Z.ltb_lt in Eb. apply triple_ret. intros s ->.
      assert (E : d.2 = cleaned before t).
      { rewrite <- Hc1. symmetry. apply cleaned_none. intros k ev [Hev Hn]%map_lookup_filter_Some Ho. cbn in Hn.
        apply Hn. rewrite (Hk k ev Hev). split; [by eapply H2|done]. }
      split; [done|]. rewrite <- E. f_equal. f_equal. lia.
    + eapply triple_post; [apply (IH (total + d.1) d.2 Hk1 Hb)|].
      * assert (Hlt : (old_size before d.2 < old_size before t)%nat); [|lia].
        apply old_size_delete; [done|]. apply H1. by apply last_Some_elem_of.
      * intros r s [-> ->]. rewrite Hc1. split; [done|]. f_equal. f_equal. lia.
  - apply last_None in El. apply triple_ret. intros s ->. rewrite (cleaned_none before t) by (by apply H3).
    split; [done|]. f_equal. f_equal. lia.
Qed.

(** The cleanup ends, without a bound on the number of its rounds other than the number
    of the old rows, and deletes exactly the rows created before the given time, whatever
    the order of their times and IDs and the batch size are; it returns their number. *)
Theorem cleanup_deletes_old before batchSize t w : keyed t -> ew_state w = t -> ew_quiet w = false ->
  (forall n, calm (ew_env w n)) ->
  let r := DeleteOlderThan (S (old_size before t)) before batchSize w in
  ew_state r.2 = cleaned before t /\
  r.1 = Some (Z.of_nat (size (et_rows t)) - Z.of_nat (size (et_rows (cleaned before t))), None).
Proof.
  intros Hk Hw Hq Hc. unfold DeleteOlderThan.
  destruct (delete_batches_clean (S (old_size before t)) before (if batchSize <=? 0 then defaultWSEventDeleteBatch else batchSize) 0 t Hk)
    with (w := w) as (_ & _ & _ & Hs & Hr); [|lia|done|done|done|done].
  destruct (batchSize <=? 0) eqn:E; [done|]. apply Z.leb_gt in E. done.
Qed.

Definition old_table : EventTable :=
  mkEventTable {[1 := mkWSEvent 1 50 "all" "a" "x"; 2 := mkWSEvent 2 10 "all" "b" "y"; 3 := mkWSEvent 3 20 "all" "a" "z"]} 4.
Definition old_world : EWorld EventTable FanoutEvent unit :=
  mkEWorld old_table (fun _ => mkStep (fun t => t) 100 None false None tt) 0 false [].
Lemma cleanup_deletes_old_witness :
  let r := DeleteOlderThan 3 30 1 old_world in
  r.1 = Some (2, None) /\ ew_state r.2 = cleaned 30 old_table.
Proof.
  assert (Hk : keyed old_table).
  { intros k ev. cbn. by intros [[<- <-]|[_ [[<- <-]|[_ [<- <-]%lookup_singleton_Some]]%lookup_insert_Some]]%lookup_insert_Some. }
  split; [vm_compute; reflexivity|].
  apply (cleanup_deletes_old 30 1 old_table old_world Hk); [reflexivity|reflexivity|]. intros n. by split.
Defined.

(** ** Log lines *)

(** A line is suppressed for the whole interval after a line that was let through, and
    the next line tells how many were suppressed. *)
Lemma allow_spaced now now' l : now <> 0 -> (allow now l).1.1 = true -> Sub now' now < ll_every l ->
  (allow now' (allow now l).2).1.1 = false.
Proof.
  intros Hn. unfold allow. destruct (negb (IsZero (ll_last l)) && _); [done|]. intros _ Hs. cbn.
  unfold IsZero. rewrite (proj2 (Z.eqb_neq _ _) Hn), (proj2 (Z.ltb_lt _ _) Hs). done.
Qed.
