(* ===== verification/Clusters.v ===== *)
(** * Clusters

    The table of clusters with their encrypted credentials ([pkg/crypto/encrypt.go],
    [database/cluster_repository.go]), the requests that manage them
    ([api/handlers/clusters.go]) and the health poller ([cluster/health_poller.go]).
    AES-GCM and SHA-256 are parameters; the calls of the client registry are events,
    which [Registry] receives.  Identifiers and names compare byte by byte. *)

From S2P Require Import Prelude Models Quota Store World Access Templates Effects Keys.
Local Open Scope string_scope.
Local Open Scope list_scope.

(** ** Cryptography *)

(** [base64.StdEncoding]: groups of four characters, the last one padded; the decoder
    skips line breaks and ignores the unused bits of the last character. *)
Fixpoint base64_EncodeToString (s : string) : string :=
  match s with
  | EmptyString => ""
  | String a EmptyString => let a := code_of a in
      String (base64_char (a / 4)) (String (base64_char (a mod 4 * 16)) "==")
  | String a (String b EmptyString) => let a := code_of a in let b := code_of b in
      String (base64_char (a / 4)) (String (base64_char (a mod 4 * 16 + b / 16)) (String (base64_char (b mod 16 * 4)) "="))
  | String a (String b (String c s')) => let a := code_of a in let b := code_of b in let c := code_of c in
      String (base64_char (a / 4)) (String (base64_char (a mod 4 * 16 + b / 16))
        (String (base64_char (b mod 16 * 4 + c / 64)) (String (base64_char (c mod 64)) (base64_EncodeToString s'))))
  end.
Definition base64_pad : ascii := "=".
Fixpoint base64_groups (s : string) : option string :=
  match s with
  | EmptyString => Some ""
  | String w (String x (String y (String z s'))) =>
      match base64_value w, base64_value x with
      | Some w, Some x =>
          let b1 := byte_of (w * 4 + x / 16) in
          If Ascii.eqb y base64_pad Return (
            If Ascii.eqb z base64_pad && empty s' Return Some (String b1 "") ;; None) ;;
          match base64_value y with
          | None => None
          | Some y =>
              let b2 := byte_of (x mod 16 * 16 + y / 4) in
              If Ascii.eqb z base64_pad Return (If empty s' Return Some (String b1 (String b2 "")) ;; None) ;;
              match base64_value z, base64_groups s' with
              | Some z, Some t => Some (String b1 (String b2 (String (byte_of (y mod 4 * 64 + z)) t)))
              | _, _ => None
              end
          end
      | _, _ => None
      end
  | _ => None
  end.
Definition no_break (c : ascii) : bool := negb (Ascii.eqb c "010" || Ascii.eqb c "013").
Definition base64_StdDecode (s : string) : option string := base64_groups (sfilter no_break s).

(** [sha256.Sum256], and [Seal] and [Open] of AES-256-GCM under a key and a nonce. *)
Class ClusterCrypto := {
  Sum256 : string -> string;
  gcm_Seal : string -> string -> string -> string;
  gcm_Open : string -> string -> string -> option string
}.
Class LawfulCrypto `{ClusterCrypto} := {
  Sum256_len : forall p, len (Sum256 p) = 32%Z;
  Open_Seal : forall key nonce plain, len key = 32%Z -> len nonce = 12%Z ->
    gcm_Open key nonce (gcm_Seal key nonce plain) = Some plain
}.

Section crypto.
Context `{ClusterCrypto}.

Definition NonceSize : nat := 12.
Definition errKeyLength : goerr := ENew "encryption key must be exactly 32 bytes".
(** [nonce] is what the random source gives. *)
Definition Encrypt (nonce : res string) (plaintext key : string) : res string :=
  If negb (len key =? 32)%Z Return Err errKeyLength ;;
  match nonce with
  | Err e => Err e
  | Ok nonce => Ok (nonce +:+ gcm_Seal key nonce plaintext)
  end.
Definition Decrypt (ciphertext key : string) : res string :=
  If negb (len key =? 32)%Z Return Err errKeyLength ;;
  If (len ciphertext <? Z.of_nat NonceSize)%Z Return Err (ENew "ciphertext too short") ;;
  match gcm_Open key (stake NonceSize ciphertext) (sdrop NonceSize ciphertext) with
  | None => Err (ENew "cipher: message authentication failed")
  | Some plaintext => Ok plaintext
  end.
Definition DeriveKey (passphrase : string) : string := Sum256 passphrase.
End crypto.

(** ** The table *)

Abbreviation ClusterTable := (gmap string Cluster).

Inductive cluster_event :=
| CInsert (row : Cluster)
| CSave (keepPassword : bool) (row : Cluster)
| CSetHealth (id status : string)
| CRemove (id : string)
| CClearDefault
| CMarkDefault (id : string)
| CInvalidateClient (id : string)
| CInvalidateDefault
| CHealthChanged (id name status : string).
(** What a step answers: an identifier, random bytes, the instances on a cluster, and
    whether the API server of a cluster answers (its client cannot be built, the ping
    fails, or its version). *)
Inductive Ping := NoClient | Unreachable | Version (v : string).
Record ClusterAnswers := mkClusterAnswers {
  cs_uuid : string;
  cs_nonce : res string;
  cs_instances : string -> res (list StackInstance);
  cs_ping : string -> Ping
}.
Local Abbreviation C := (Eff ClusterTable cluster_event ClusterAnswers).

Definition rows_of (s : ClusterTable) : list Cluster := List.map snd (map_to_list s).
Definition name_taken (cl : Cluster) (s : ClusterTable) : list Cluster :=
  List.filter (fun c => bool_decide (cl_Name c = cl_Name cl) && negb (bool_decide (cl_ID c = cl_ID cl))) (rows_of s).
Definition defaults (s : ClusterTable) : list Cluster := List.filter cl_IsDefault (rows_of s).
(** [First] orders by the primary key. *)
Definition first_default (s : ClusterTable) : option Cluster :=
  head (sort_less (fun a b => String.ltb (cl_ID a) (cl_ID b)) (defaults s)).

Definition cluster_insert (row : Cluster) (t : time) (s : ClusterTable) : res Z * ClusterTable :=
  If bool_decide (is_Some (s !! cl_ID row)) || negb (bool_decide (name_taken row s = [])) Return (Err ErrDuplicateKey, s) ;;
  (Ok 1%Z, <[cl_ID row := cl_set_RegistryPasswordUnreadable false row]> s).
(** [Omit] of a [Save]: [is_default] and [health_status], and the password when
    [keepPassword]. *)
Definition saved_cluster (keepPassword : bool) (stored row : Cluster) : Cluster :=
  let row := row |> cl_set_IsDefault (cl_IsDefault stored) |> cl_set_HealthStatus (cl_HealthStatus stored)
                 |> cl_set_RegistryPasswordUnreadable false in
  if keepPassword then cl_set_RegistryPassword (cl_RegistryPassword stored) row else row.
(** The columns of a row that [Save] inserts without the omitted ones. *)
Definition inserted_cluster (keepPassword : bool) (row : Cluster) : Cluster :=
  let row := row |> cl_set_IsDefault false |> cl_set_HealthStatus "" |> cl_set_RegistryPasswordUnreadable false in
  if keepPassword then cl_set_RegistryPassword "" row else row.
(** [Save]: an update of the row; when it is gone, an insert, which on a taken name
    updates the row with that name instead (ON DUPLICATE KEY UPDATE), keeping its
    identifier and creation time. *)
Definition cluster_save (keepPassword : bool) (row : Cluster) (t : time) (s : ClusterTable) : res Z * ClusterTable :=
  match s !! cl_ID row, name_taken row s with
  | Some stored, [] => (Ok 1%Z, <[cl_ID row := saved_cluster keepPassword stored row]> s)
  | Some _, _ :: _ => (Err ErrDuplicateKey, s)
  | None, [] => (Ok 1%Z, <[cl_ID row := inserted_cluster keepPassword row]> s)
  | None, other :: _ =>
      (Ok 2%Z, <[cl_ID other := saved_cluster keepPassword other row |> cl_set_ID (cl_ID other)
                                  |> cl_set_CreatedAt (cl_CreatedAt other)]> s)
  end.
Definition cluster_health (id status : string) (at_ t : time) (s : ClusterTable) : res Z * ClusterTable :=
  let '(n, s) := update_where id (fun _ => true) (fun c => c |> cl_set_HealthStatus status |> cl_set_UpdatedAt at_) s in (Ok n, s).
Definition cluster_remove (id : string) (t : time) (s : ClusterTable) : res Z * ClusterTable :=
  match s !! id with
  | None => (Ok 0%Z, s)
  | Some _ => (Ok 1%Z, delete id s)
  end.
Definition clear_default (t : time) (s : ClusterTable) : res Z * ClusterTable :=
  (Ok (Z.of_nat (length (defaults s))),
   (fun c => if cl_IsDefault c then c |> cl_set_IsDefault false |> cl_set_UpdatedAt t else c) <$> s).
Definition mark_default (id : string) (at_ t : time) (s : ClusterTable) : res Z * ClusterTable :=
  let '(n, s) := update_where id (fun _ => true) (fun c => c |> cl_set_IsDefault true |> cl_set_UpdatedAt at_) s in (Ok n, s).

(** ** The repository *)

Section repository.
Context `{ClusterCrypto} (key : string).

Definition errKubeconfigNoKey : goerr :=
  EDB "validation" (EWrap "kubeconfig_data cannot be stored without KUBECONFIG_ENCRYPTION_KEY configured; use kubeconfig_path instead: " ErrValidation "").
Definition errRegistryPasswordNoKey : goerr :=
  EDB "validation" (EWrap "registry_password cannot be stored without KUBECONFIG_ENCRYPTION_KEY configured: " ErrValidation "").
Definition encryptedPrefix := "enc:v1:".
Definition minCiphertextLen : Z := 12 + 16.

(** The original value, and the cluster with the value encrypted in place. *)
Definition encryptKubeconfig (cl : Cluster) : C (res string * Cluster) :=
  let original := cl_KubeconfigData cl in
  If empty original Return eret (Ok "", cl) ;;
  If empty key Return eret (Err errKubeconfigNoKey, cl) ;;
  let? nonce := eask cs_nonce in
  eret (match Encrypt nonce original key with
        | Err e => (Err (EDB "encrypt" e), cl)
        | Ok encrypted => (Ok original, cl_set_KubeconfigData (base64_EncodeToString encrypted) cl)
        end).
Definition decryptKubeconfig (cl : Cluster) : res Cluster :=
  If empty (cl_KubeconfigData cl) || empty key Return Ok cl ;;
  match base64_StdDecode (cl_KubeconfigData cl) with
  | None => Ok cl
  | Some decoded =>
      match Decrypt decoded key with
      | Err e => Err (EDB "decrypt kubeconfig data" e)
      | Ok decrypted => Ok (cl_set_KubeconfigData decrypted cl)
      end
  end.
Definition encryptRegistryPassword (cl : Cluster) : C (res string * Cluster) :=
  let original := cl_RegistryPassword cl in
  If empty original Return eret (Ok original, cl) ;;
  If empty key Return eret (Err errRegistryPasswordNoKey, cl) ;;
  let? nonce := eask cs_nonce in
  eret (match Encrypt nonce original key with
        | Err e => (Err (EDB "encrypt registry password" e), cl)
        | Ok encrypted => (Ok original, cl_set_RegistryPassword (encryptedPrefix +:+ base64_EncodeToString encrypted) cl)
        end).
Definition markUnreadable (cl : Cluster) : Cluster :=
  cl |> cl_set_RegistryPassword "" |> cl_set_RegistryPasswordUnreadable true.
Definition decryptRegistryPassword (cl : Cluster) : Cluster :=
  let stored := cl_RegistryPassword cl in
  If empty stored Return cl ;;
  let prefixed := HasPrefix stored encryptedPrefix in
  If empty key Return (if prefixed then markUnreadable cl else cl) ;;
  match base64_StdDecode (TrimPrefix stored encryptedPrefix) with
  | None => if prefixed then markUnreadable cl else cl
  | Some decoded =>
      If negb prefixed && (len decoded <? minCiphertextLen)%Z Return cl ;;
      match Decrypt decoded key with
      | Err _ => markUnreadable cl
      | Ok decrypted => cl_set_RegistryPassword decrypted cl
      end
  end.
Definition decrypted (cl : Cluster) : res Cluster :=
  cl <-r decryptKubeconfig cl ;; Ok (decryptRegistryPassword cl).

Definition storedRegistryPassword (id : string) : C (res string) :=
  let? r := eread (fun _ s => match s !! id with Some c => cl_RegistryPassword c | None => "" end) in
  eret (match r with Err e => Err (EDB "find_by_id" e) | Ok p => Ok p end).
Definition keepLegacyPassword (cl : Cluster) : C (res bool) :=
  If empty (cl_RegistryPassword cl) || negb (empty key) Return eret (Ok false) ;;
  let? r := storedRegistryPassword (cl_ID cl) in
  eret (match r with Err e => Err e | Ok stored => Ok (bool_decide (stored = cl_RegistryPassword cl)) end).

(** The error of a failed write. *)
Definition write_error (ctx : error) (op : string) (e : goerr) : error :=
  If bool_decide (is_Some ctx) Return withContextErr ctx op (Some e) ;;
  Some (EDB op (if errorsIs e "ErrDuplicateKey" then ErrDuplicateKey else e)).
Definition restoreKubeconfig (original : string) (cl : Cluster) : Cluster :=
  if empty original then cl else cl_set_KubeconfigData original cl.

(** [Create] and [Update] also answer the struct of the caller. *)
Definition cluster_Create (cl : Cluster) : C (error * Cluster) :=
  let? uuid := eask cs_uuid in
  let? now := eclock in
  let cl := cl |> cl_set_ID (if empty (cl_ID cl) then uuid else cl_ID cl)
               |> cl_set_HealthStatus (if empty (cl_HealthStatus cl) then ClusterUnreachable else cl_HealthStatus cl)
               |> cl_set_CreatedAt now |> cl_set_UpdatedAt now in
  let? kc := encryptKubeconfig cl in
  match kc with
  | (Err e, cl) => eret (Some e, cl)
  | (Ok originalKC, cl) =>
      let? rp := encryptRegistryPassword cl in
      match rp with
      | (Err e, cl) => eret (Some e, restoreKubeconfig originalKC cl)
      | (Ok originalRP, row) =>
          let? r := ewrite (cluster_insert row) (CInsert row) in
          let cl := row |> restoreKubeconfig originalKC |> cl_set_RegistryPassword originalRP in
          match r with
          | Ok _ => eret (None, cl)
          | Err e => let? ctx := ectx in eret (write_error ctx "create" e, cl)
          end
      end
  end.
Definition cluster_Update (cl : Cluster) : C (error * Cluster) :=
  let? now := eclock in
  let cl := cl_set_UpdatedAt now cl in
  let? kc := encryptKubeconfig cl in
  match kc with
  | (Err e, cl) => eret (Some e, cl)
  | (Ok originalKC, cl) =>
      let? keep := keepLegacyPassword cl in
      match keep with
      | Err e => eret (Some e, restoreKubeconfig originalKC cl)
      | Ok keep =>
          let? rp := if keep : bool then eret (Ok (cl_RegistryPassword cl), cl) else encryptRegistryPassword cl in
          match rp with
          | (Err e, cl) => eret (Some e, restoreKubeconfig originalKC cl)
          | (Ok originalRP, row) =>
              let keepPassword := cl_RegistryPasswordUnreadable row && empty (cl_RegistryPassword row) &&
                                  negb (empty (cl_RegistryURL row)) in
              let? r := ewrite (cluster_save keepPassword row) (CSave keepPassword row) in
              let cl := row |> restoreKubeconfig originalKC |> cl_set_RegistryPassword originalRP in
              match r with
              | Ok _ => eret (None, cl)
              | Err e => let? ctx := ectx in eret (write_error ctx "update" e, cl)
              end
          end
      end
  end.

Definition affected_error (op : string) (r : res Z) : C error :=
  match r with
  | Err e =>
      let? ctx := ectx in
      If bool_decide (is_Some ctx) Return eret (withContextErr ctx op (Some e)) ;;
      eret (Some (EDB op e))
  | Ok n => If (n =? 0)%Z Return eret (Some (EDB op ErrNotFound)) ;; eret None
  end.
Definition UpdateHealthStatus (id status : string) : C error :=
  let? now := eclock in
  let? r := ewrite (cluster_health id status now) (CSetHealth id status) in
  affected_error "update_health_status" r.
Definition cluster_Delete (id : string) : C error :=
  let? r := ewrite (cluster_remove id) (CRemove id) in
  affected_error "delete" r.

Definition found (op : string) (r : res (option Cluster)) : res Cluster :=
  match r with
  | Err e => Err (EDB op e)
  | Ok None => Err (EDB op ErrNotFound)
  | Ok (Some cl) => decrypted cl
  end.
Definition cluster_FindByID (id : string) : C (res Cluster) :=
  let? r := eread (fun _ s => s !! id) in
  eret (found "find_by_id" r).
Definition cluster_FindDefault : C (res Cluster) :=
  let? r := eread (fun _ s => first_default s) in
  eret (found "find_default" r).
(** A row that cannot be decrypted fails the list. *)
Fixpoint decrypt_all (l : list Cluster) : res (list Cluster) :=
  match l with
  | [] => Ok []
  | cl :: l' => cl <-r decrypted cl ;; l' <-r decrypt_all l' ;; Ok (cl :: l')
  end.
Definition cluster_List : C (res (list Cluster)) :=
  let? r := eread (fun _ s => rows_of s) in
  eret (match r with Err e => Err (EDB "list" e) | Ok l => decrypt_all l end).

(** The names of the clusters in [ids], the number of passwords without a key, and
    the counts. *)
Definition NamesByIDs (ids : list string) : C (res (gmap string string)) :=
  If bool_decide (ids = []) Return eret (Ok ∅) ;;
  let? r := eread (fun _ s => cl_Name <$> filter (fun p => p.1 ∈ ids) s) in
  eret (match r with Err e => Err (EDB "names_by_ids" e) | Ok m => Ok m end).
Definition count_where (op : string) (p : Cluster -> bool) : C (res Z) :=
  let? r := eread (fun _ s => Z.of_nat (length (List.filter p (rows_of s)))) in
  eret (match r with Err e => Err (EDB op e) | Ok n => Ok n end).
Definition CountRegistryPasswordsWithoutKey : C (res (Z * Z)) :=
  If negb (empty key) Return eret (Ok (0, 0)%Z) ;;
  let stored c := negb (empty (cl_RegistryPassword c)) in
  let? total := count_where "count_registry_passwords" stored in
  match total with
  | Err e => eret (Err e)
  | Ok total =>
      let? enc := count_where "count_registry_passwords" (fun c => stored c && HasPrefix (cl_RegistryPassword c) encryptedPrefix) in
      eret (match enc with Err e => Err e | Ok enc => Ok (total - enc, enc)%Z end)
  end.
Definition CountAll : C (res Z) := count_where "count_all" (fun _ => true).
Definition CountByHealthStatus (status : string) : C (res Z) :=
  count_where "count_by_health_status" (fun c => bool_decide (cl_HealthStatus c = status)).

Definition CheckCredentialsStorable (cl : Cluster) : C error :=
  If negb (empty key) Return eret None ;;
  If negb (empty (cl_KubeconfigData cl)) Return eret (Some errKubeconfigNoKey) ;;
  If empty (cl_RegistryPassword cl) Return eret None ;;
  If empty (cl_ID cl) Return eret (Some errRegistryPasswordNoKey) ;;
  let? keep := keepLegacyPassword cl in
  eret (match keep with
        | Err e => Some e
        | Ok true => None
        | Ok false => Some errRegistryPasswordNoKey
        end).

Definition SetDefault (id : string) : C error :=
  let? r := etransaction tt (
    let? existing := eread (fun _ s => defaults s) in
    match existing with
    | Err e => eret (Some (EDB "set_default" e), tt)
    | Ok existing =>
        let? cleared := if bool_decide (existing = []) then eret (Ok 0%Z) else ewrite clear_default CClearDefault in
        match cleared with
        | Err e => eret (Some (EDB "set_default" e), tt)
        | Ok _ =>
            let? now := eclock in
            let? r := ewrite (mark_default id now) (CMarkDefault id) in
            eret (match r with
                  | Err e => (Some (EDB "set_default" e), tt)
                  | Ok n => If (n =? 0)%Z Return (Some (EDB "set_default" ErrNotFound), tt) ;; (None, tt)
                  end)
        end
    end) in
  let? ctx := ectx in
  eret (withContextErr ctx "set_default" r.1).

(** *** The stream switches *)

Record ClusterStreamFlags := mkStreamFlags { sf_PortForward : bool; sf_Exec : bool }.
Definition stream_flags (c : Cluster) : ClusterStreamFlags := mkStreamFlags (cl_AllowPortForward c) (cl_AllowExec c).
Definition DefaultClusterKey := "".
Definition clusterIDsPerQuery : nat := 500.
Fixpoint flag_queries (fuel : nat) (ids : list string) (out : gmap string ClusterStreamFlags)
    : C (res (gmap string ClusterStreamFlags)) :=
  match fuel, ids with
  | O, _ | _, [] => eret (Ok out)
  | S fuel', _ =>
      let? r := eread (fun _ s => stream_flags <$> filter (fun p => p.1 ∈ take clusterIDsPerQuery ids) s) in
      match r with
      | Err e => eret (Err (EDB "stream_flags_by_ids" e))
      | Ok rows => flag_queries fuel' (drop clusterIDsPerQuery ids) (rows ∪ out)
      end
  end.
Definition StreamFlagsByIDs (ids : list string) (includeDefault : bool) : C (res (gmap string ClusterStreamFlags)) :=
  let? r := flag_queries (length ids) ids ∅ in
  match r with
  | Err e => eret (Err e)
  | Ok out =>
      If negb includeDefault Return eret (Ok out) ;;
      let? r := eread (fun _ s => head (defaults s)) in
      eret (match r with
            | Err e => Err (EDB "stream_flags_by_ids" e)
            | Ok None => Ok out
            | Ok (Some c) => Ok (<[DefaultClusterKey := stream_flags c]> out)
            end)
  end.

(** ** The requests *)

Record CreateClusterRequest := mkCreateCluster {
  cq_Name : string;
  cq_Description : string;
  cq_APIServerURL : string;
  cq_KubeconfigData : string;
  cq_KubeconfigPath : string;
  cq_Region : string;
  cq_MaxNamespaces : Z;
  cq_MaxInstancesPerUser : Z;
  cq_IsDefault : bool;
  cq_UseInCluster : bool;
  cq_AllowPortForward : bool;
  cq_AllowExec : bool;
  cq_RegistryURL : string;
  cq_RegistryUsername : string;
  cq_RegistryPassword : string;
  cq_ImagePullSecretName : string
}.
Record UpdateClusterRequest := mkUpdateCluster {
  uq_Name : option string;
  uq_Description : option string;
  uq_APIServerURL : option string;
  uq_KubeconfigData : option string;
  uq_KubeconfigPath : option string;
  uq_Region : option string;
  uq_MaxNamespaces : option Z;
  uq_MaxInstancesPerUser : option Z;
  uq_IsDefault : option bool;
  uq_UseInCluster : option bool;
  uq_AllowPortForward : option bool;
  uq_AllowExec : option bool;
  uq_RegistryURL : option string;
  uq_RegistryUsername : option string;
  uq_RegistryPassword : option string;
  uq_ImagePullSecretName : option string
}.
Record ClusterSummary := mkClusterSummary {
  sm_ID : string; sm_Name : string; sm_IsDefault : bool; sm_AllowPortForward : bool; sm_AllowExec : bool
}.
Definition newClusterSummary (cl : Cluster) : ClusterSummary :=
  mkClusterSummary (cl_ID cl) (cl_Name cl) (cl_IsDefault cl) (cl_AllowPortForward cl) (cl_AllowExec cl).
(** The fields of a cluster that its JSON has: four are marked [json:"-"]. *)
Definition cluster_json (cl : Cluster) : Cluster :=
  mkCluster (cl_CreatedAt cl) (cl_UpdatedAt cl) (cl_ID cl) (cl_Name cl) (cl_Description cl) (cl_APIServerURL cl) "" ""
    (cl_Region cl) (cl_HealthStatus cl) (cl_RegistryURL cl) (cl_RegistryUsername cl) "" false (cl_ImagePullSecretName cl)
    (cl_MaxNamespaces cl) (cl_MaxInstancesPerUser cl) (cl_IsDefault cl) (cl_UseInCluster cl) (cl_AllowPortForward cl)
    (cl_AllowExec cl).

Inductive ClusterBody :=
| CBError (message : string)
| CBMessage (message : string)
| CBCluster (warning : bool) (cl : Cluster)
| CBSummary (s : ClusterSummary)
| CBClusters (l : list Cluster)
| CBSummaries (l : list ClusterSummary)
| CBConnected (version : string)
| CBEmpty.
Record ClusterAnswer := mkClusterAnswer { cn_Status : Z; cn_Body : ClusterBody }.
Definition cluster_error (status : Z) (message : string) : ClusterAnswer := mkClusterAnswer status (CBError message).
Definition entityCluster := "Cluster".
Definition cluster_mapped (e : goerr) : ClusterAnswer := let '(c, m) := mapError e entityCluster in cluster_error c m.
Definition cluster_body (status : Z) (warning : bool) (cl : Cluster) : ClusterAnswer :=
  mkClusterAnswer status (CBCluster warning (cluster_json cl)).

Definition new_cluster (req : CreateClusterRequest) : Cluster :=
  mkCluster 0 0 "" (cq_Name req) (cq_Description req) (cq_APIServerURL req) (cq_KubeconfigData req) (cq_KubeconfigPath req)
    (cq_Region req) ClusterUnreachable (cq_RegistryURL req) (cq_RegistryUsername req) (cq_RegistryPassword req) false
    (cq_ImagePullSecretName req) (cq_MaxNamespaces req) (cq_MaxInstancesPerUser req) false (cq_UseInCluster req)
    (cq_AllowPortForward req) (cq_AllowExec req).
(** The assignments of [UpdateCluster] in their order: a path clears the data, the data
    clear the path, and the in-cluster account clears both. *)
Definition updated_kubeconfig (req : UpdateClusterRequest) (cl : Cluster) : string * string * bool :=
  let '(data, path, changed) := (cl_KubeconfigData cl, cl_KubeconfigPath cl, false) in
  let '(data, path, changed) := match uq_KubeconfigData req with Some d => (d, "", true) | None => (data, path, changed) end in
  let '(data, path, changed) := match uq_KubeconfigPath req with Some p => ("", p, true) | None => (data, path, changed) end in
  match uq_UseInCluster req with Some true => ("", "", true) | _ => (data, path, changed) end.
Definition updated_cluster (req : UpdateClusterRequest) (cl : Cluster) : Cluster :=
  let '(data, path, _) := updated_kubeconfig req cl in
  mkCluster (cl_CreatedAt cl) (cl_UpdatedAt cl) (cl_ID cl) (default (cl_Name cl) (uq_Name req))
    (default (cl_Description cl) (uq_Description req)) (default (cl_APIServerURL cl) (uq_APIServerURL req)) data path
    (default (cl_Region cl) (uq_Region req)) (cl_HealthStatus cl) (default (cl_RegistryURL cl) (uq_RegistryURL req))
    (default (cl_RegistryUsername cl) (uq_RegistryUsername req)) (default (cl_RegistryPassword cl) (uq_RegistryPassword req))
    (cl_RegistryPasswordUnreadable cl) (default (cl_ImagePullSecretName cl) (uq_ImagePullSecretName req))
    (default (cl_MaxNamespaces cl) (uq_MaxNamespaces req)) (default (cl_MaxInstancesPerUser cl) (uq_MaxInstancesPerUser req))
    (cl_IsDefault cl) (default (cl_UseInCluster cl) (uq_UseInCluster req))
    (default (cl_AllowPortForward cl) (uq_AllowPortForward req)) (default (cl_AllowExec cl) (uq_AllowExec req)).

Section handlers.
(** Whether there is a client registry, and a hub for the poller. *)
Context (registry hub : bool).

Definition msgClusterRegistryUnavailable := "Cluster client registry is not available".
Definition msgUnsetDefault := "Cannot unset default cluster via update; use SetDefault to change the default cluster".
Definition msgPasswordUnreadable :=
  "The stored registry password cannot be read. Set registry_password again, or remove the registry (registry_url and registry_username empty).".

Definition refresh (e : cluster_event) : C unit := ewhen registry (eemit e).

Definition ListClusters (c : Caller) : C ClusterAnswer :=
  let? r := cluster_List in
  eret (match r with
        | Err e => cluster_mapped e
        | Ok l =>
            If negb (isPrivilegedRole c) Return mkClusterAnswer 200 (CBSummaries (List.map newClusterSummary l)) ;;
            mkClusterAnswer 200 (CBClusters (List.map cluster_json l))
        end).
Definition GetCluster (c : Caller) (id : string) : C ClusterAnswer :=
  let? r := cluster_FindByID id in
  eret (match r with
        | Err e => cluster_mapped e
        | Ok cl =>
            If negb (isPrivilegedRole c) Return mkClusterAnswer 200 (CBSummary (newClusterSummary cl)) ;;
            cluster_body 200 false cl
        end).

(** The default after a create: the new cluster when it is asked for, or when there is no
    default yet. *)
Definition create_default (wanted : bool) (cl : Cluster) : C ClusterAnswer :=
  let made := do? refresh CInvalidateDefault in eret (cluster_body 201 false (cl_set_IsDefault true cl)) in
  If wanted Return (
    let? e := SetDefault (cl_ID cl) in
    match e with
    | Some _ => eret (cluster_body 201 true cl)
    | None => made
    end) ;;
  let? r := cluster_FindDefault in
  match r with
  | Ok _ => eret (cluster_body 201 false cl)
  | Err e =>
      If negb (errorsIs e "ErrNotFound") Return eret (cluster_body 201 false cl) ;;
      let? e := SetDefault (cl_ID cl) in
      match e with
      | Some _ => eret (cluster_body 201 false cl)
      | None => made
      end
  end.
Definition CreateCluster (body : option CreateClusterRequest) : C ClusterAnswer :=
  match body with
  | None => eret (cluster_error 400 msgInvalidRequestFormat)
  | Some req =>
      let cl := new_cluster req in
      match Cluster_Validate cl with
      | Some e => eret (cluster_error 400 (errText e))
      | None =>
          let? r := cluster_Create cl in
          match r with
          | (Some e, _) => eret (cluster_mapped e)
          | (None, cl) => create_default (cq_IsDefault req) cl
          end
      end
  end.

Definition save_updated (id : string) (req : UpdateClusterRequest) (changed : bool) (cl : Cluster) : C ClusterAnswer :=
  let? r := cluster_Update cl in
  match r with
  | (Some e, _) => eret (cluster_mapped e)
  | (None, cl) =>
      do? ewhen changed (refresh (CInvalidateClient id)) in
      do? ewhen (bool_decide (is_Some (uq_IsDefault req))) (refresh CInvalidateDefault) in
      eret (cluster_body 200 false cl)
  end.
Definition UpdateCluster (id : string) (body : option UpdateClusterRequest) : C ClusterAnswer :=
  let? r := cluster_FindByID id in
  match r, body with
  | Err e, _ => eret (cluster_mapped e)
  | Ok _, None => eret (cluster_error 400 msgInvalidRequestFormat)
  | Ok existing, Some req =>
      let '(_, changed) := updated_kubeconfig req existing in
      let cl := updated_cluster req existing in
      If bool_decide (uq_IsDefault req = Some false) && cl_IsDefault cl Return eret (cluster_error 400 msgUnsetDefault) ;;
      let makeDefault := bool_decide (uq_IsDefault req = Some true) && negb (cl_IsDefault cl) in
      If cl_RegistryPasswordUnreadable cl && empty (cl_RegistryPassword cl) && negb (empty (cl_RegistryURL cl)) Return
        eret (cluster_error 400 msgPasswordUnreadable) ;;
      match Cluster_Validate cl with
      | Some e => eret (cluster_error 400 (errText e))
      | None =>
          let? storable := CheckCredentialsStorable cl in
          match storable with
          | Some e => eret (cluster_mapped e)
          | None =>
              If negb makeDefault Return save_updated id req changed cl ;;
              let? e := SetDefault id in
              match e with
              | Some e => eret (cluster_mapped e)
              | None =>
                  do? refresh CInvalidateDefault in
                  save_updated id req changed (cl_set_IsDefault true cl)
              end
          end
      end
  end.

(** The instances on the cluster; for the default cluster also those without one. *)
Definition clusterInstances (cl : Cluster) : C (res (list StackInstance)) :=
  let? r := eask (fun a => cs_instances a (cl_ID cl)) in
  match r with
  | Err e => eret (Err (EWrap "list cluster instances: " e ""))
  | Ok instances =>
      If negb (cl_IsDefault cl) Return eret (Ok instances) ;;
      let? r := eask (fun a => cs_instances a "") in
      eret (match r with
            | Err e => Err (EWrap "list instances without cluster: " e "")
            | Ok unassigned => Ok (instances ++ unassigned)
            end)
  end.
Definition cluster_internal (e : goerr) : ClusterAnswer :=
  match cancelledRequestError e with
  | Some (c, m) => cluster_error c m
  | None => cluster_error 500 msgInternalServerError
  end.
Definition DeleteCluster (id : string) : C ClusterAnswer :=
  let? r := cluster_FindByID id in
  match r with
  | Err e => eret (cluster_mapped e)
  | Ok cl =>
      let? r := clusterInstances cl in
      match r with
      | Err e => eret (cluster_internal e)
      | Ok (_ :: _) => eret (cluster_error 409 "Cannot delete cluster: stack instances still reference this cluster")
      | Ok [] =>
          let? e := cluster_Delete id in
          match e with
          | Some e => eret (cluster_mapped e)
          | None =>
              do? refresh (CInvalidateClient id) in
              do? refresh CInvalidateDefault in
              eret (mkClusterAnswer 204 CBEmpty)
          end
      end
  end.
Definition TestClusterConnection (id : string) : C ClusterAnswer :=
  let? r := cluster_FindByID id in
  match r with
  | Err e => eret (cluster_mapped e)
  | Ok _ =>
      If negb registry Return eret (cluster_error 503 msgClusterRegistryUnavailable) ;;
      let? ping := eask (fun a => cs_ping a id) in
      match ping with
      | NoClient => eret (cluster_error 502 "Failed to connect to cluster")
      | Unreachable => do? eemit (CInvalidateClient id) in eret (cluster_error 502 "Cluster is unreachable")
      | Version v => do? eemit (CInvalidateClient id) in eret (mkClusterAnswer 200 (CBConnected v))
      end
  end.
Definition SetDefaultCluster (id : string) : C ClusterAnswer :=
  let? e := SetDefault id in
  match e with
  | Some e => eret (cluster_mapped e)
  | None => do? refresh CInvalidateDefault in eret (mkClusterAnswer 200 (CBMessage "Default cluster updated"))
  end.

(** ** The health poller *)

Definition checkCluster (cl : Cluster) : C string :=
  let? ping := eask (fun a => cs_ping a (cl_ID cl)) in
  eret (match ping with Version _ => ClusterHealthy | _ => ClusterUnreachable end).
Fixpoint poll_clusters (l : list Cluster) : C unit :=
  match l with
  | [] => eret tt
  | cl :: l' =>
      let? newStatus := checkCluster cl in
      let? ctx := ectx in
      If bool_decide (is_Some ctx) Return eret tt ;;
      If bool_decide (newStatus = cl_HealthStatus cl) Return poll_clusters l' ;;
      let? e := UpdateHealthStatus (cl_ID cl) newStatus in
      match e with
      | Some _ =>
          let? ctx := ectx in
          If bool_decide (is_Some ctx) Return eret tt ;;
          poll_clusters l'
      | None =>
          do? ewhen hub (eemit (CHealthChanged (cl_ID cl) (cl_Name cl) newStatus)) in
          poll_clusters l'
      end
  end.
Definition health_poll : C unit :=
  If negb registry Return eret tt ;;
  let? r := cluster_List in
  match r with
  | Err _ => eret tt
  | Ok l => poll_clusters l
  end.

Inductive ClusterCall :=
| CallCreate (body : option CreateClusterRequest)
| CallUpdate (id : string) (body : option UpdateClusterRequest)
| CallDelete (id : string)
| CallSetDefault (id : string)
| CallTest (id : string)
| CallGet (c : Caller) (id : string)
| CallList (c : Caller)
| CallPoll.
Definition cluster_call (k : ClusterCall) : C ClusterAnswer :=
  match k with
  | CallCreate body => CreateCluster body
  | CallUpdate id body => UpdateCluster id body
  | CallDelete id => DeleteCluster id
  | CallSetDefault id => SetDefaultCluster id
  | CallTest id => TestClusterConnection id
  | CallGet c id => GetCluster c id
  | CallList c => ListClusters c
  | CallPoll => do? health_poll in eret (mkClusterAnswer 0 CBEmpty)
  end.
End handlers.
End repository.
