(* ===== verification/ClusterRules.v ===== *)
(** * Clusters: credentials, the default cluster and what a request refreshes

    Theorems about [Clusters]: the encodings, the credentials in the table, the one
    default cluster, and the calls of the client registry. *)

From S2P Require Import Prelude Models Naming Store World Access Templates Effects Keys KeyRules Clusters.
Local Open Scope string_scope.
Local Open Scope list_scope.

(** ** Base64 with padding *)

Lemma sextet_no_pad n : (0 <= n < 64)%Z -> Ascii.eqb (base64_char n) base64_pad = false.
Proof.
  intros Hn. assert (forallb (fun k => negb (Ascii.eqb (base64_char (Z.of_nat k)) base64_pad)) (seq 0 64) = true) as Hok
    by (vm_compute; reflexivity).
  rewrite forallb_forall in Hok. specialize (Hok (Z.to_nat n) ltac:(apply in_seq; lia)). rewrite Z2Nat.id in Hok by lia.
  by apply negb_true_iff in Hok.
Qed.
Lemma sextet_no_break n : (0 <= n < 64)%Z -> no_break (base64_char n) = true.
Proof. intros Hn. unfold no_break. destruct (sextet_char n Hn) as (_ & -> & -> & _). done. Qed.

Lemma byte_parts a b c : (0 <= a < 256)%Z -> (0 <= b < 256)%Z -> (0 <= c < 256)%Z ->
  (0 <= a / 4 < 64 /\ 0 <= a mod 4 * 16 < 64 /\ 0 <= a mod 4 * 16 + b / 16 < 64 /\ 0 <= b mod 16 * 4 < 64 /\
   0 <= b mod 16 * 4 + c / 64 < 64 /\ 0 <= c mod 64 < 64)%Z.
Proof. intros. Z.to_euclidean_division_equations; lia. Qed.
Lemma byte_back a b c : (0 <= a < 256)%Z -> (0 <= b < 256)%Z -> (0 <= c < 256)%Z ->
  (a / 4 * 4 + (a mod 4 * 16 + b / 16) / 16 = a /\ (a mod 4 * 16 + b / 16) mod 16 * 16 + (b mod 16 * 4 + c / 64) / 4 = b /\
   (b mod 16 * 4 + c / 64) mod 4 * 64 + c mod 64 = c)%Z.
Proof. intros. Z.to_euclidean_division_equations; lia. Qed.

Lemma std_clean s : sforall no_break (base64_EncodeToString s) = true.
Proof.
  induction s as [|a|a b|a b c s IH] using string_ind3; [done|..]; cbn [base64_EncodeToString sforall];
    repeat match goal with c : ascii |- _ => lazymatch goal with H : (0 <= code_of c < 256)%Z |- _ => fail | _ => pose proof (code_range c) end end.
  - destruct (byte_parts (code_of a) 0 0) as (? & ? & _); [lia..|]. by rewrite !sextet_no_break.
  - destruct (byte_parts (code_of a) (code_of b) 0) as (? & ? & ? & ? & _); [lia..|]. by rewrite !sextet_no_break.
  - destruct (byte_parts (code_of a) (code_of b) (code_of c)) as (? & ? & ? & ? & ? & ?); [lia..|].
    by rewrite !sextet_no_break, IH.
Qed.
Lemma std_groups s : base64_groups (base64_EncodeToString s) = Some s.
Proof.
  assert (forall c x, x = code_of c -> byte_of x = c) as Hb by (intros c x ->; apply byte_code).
  assert (Hv : forall n, (0 <= n < 64)%Z -> base64_value (base64_char n) = Some n) by (intros; by apply sextet_char).
  induction s as [|a|a b|a b c s IH] using string_ind3; [done|..]; cbn [base64_EncodeToString base64_groups];
    repeat match goal with c : ascii |- _ => lazymatch goal with H : (0 <= code_of c < 256)%Z |- _ => fail | _ => pose proof (code_range c) end end.
  - destruct (byte_parts (code_of a) 0 0) as (? & ? & _); [lia..|]. rewrite !Hv by done. cbn.
    do 2 f_equal. apply Hb. destruct (byte_back (code_of a) 0 0) as (E & _); [lia..|]. by rewrite Z.div_0_l, Z.add_0_r in E.
  - destruct (byte_parts (code_of a) (code_of b) 0) as (? & ? & ? & ? & _); [lia..|]. rewrite !Hv, sextet_no_pad by done. cbn [empty].
    destruct (byte_back (code_of a) (code_of b) 0) as (E1 & E2 & _); [lia..|]. rewrite Z.div_0_l, Z.add_0_r in E2 by done.
    cbn. do 2 f_equal; [by apply Hb|]. f_equal. by apply Hb.
  - destruct (byte_parts (code_of a) (code_of b) (code_of c)) as (? & ? & ? & ? & ? & ?); [lia..|].
    destruct (byte_back (code_of a) (code_of b) (code_of c)) as (E1 & E2 & E3); [lia..|].
    rewrite !Hv, !sextet_no_pad, IH by done. do 2 f_equal; [by apply Hb|]. f_equal; [by apply Hb|]. f_equal. by apply Hb.
Qed.
Lemma std_roundtrip s : base64_StdDecode (base64_EncodeToString s) = Some s.
Proof. unfold base64_StdDecode. rewrite sfilter_id by apply std_clean. apply std_groups. Qed.

(** ** Encrypted credentials *)

Lemma set_same_kubeconfig d c : cl_KubeconfigData c = d -> cl_set_KubeconfigData d c = c.
Proof. intros <-. by destruct c. Qed.
Lemma set_same_password p c : cl_RegistryPassword c = p -> cl_set_RegistryPassword p c = c.
Proof. intros <-. by destruct c. Qed.

Section secrets.
Context `{LawfulCrypto} (key : string).

(** [stored] is [plain] encrypted under the key. *)
Definition sealed (plain stored : string) : Prop :=
  len key = 32%Z /\ exists nonce, len nonce = 12%Z /\ stored = base64_EncodeToString (nonce +:+ gcm_Seal key nonce plain).

Lemma Decrypt_Encrypt nonce plain c : len nonce = 12%Z -> Encrypt (Ok nonce) plain key = Ok c -> Decrypt c key = Ok plain.
Proof.
  intros Hn. unfold Encrypt, Decrypt. destruct (len key =? 32)%Z eqn:Ek; [|done]. cbn [negb]. intros [= <-].
  apply Z.eqb_eq in Ek. assert (String.length nonce = NonceSize) as Hl by (unfold len in Hn; unfold NonceSize; lia).
  rewrite len_app, (proj2 (Z.ltb_ge _ _)) by (unfold len, NonceSize in *; lia).
  rewrite <- Hl, stake_app, sdrop_app, Nat.sub_diag by lia. replace (stake 0 _) with "" by by destruct (gcm_Seal _ _ _).
  by rewrite sapp_nil, Open_Seal.
Qed.
Lemma sealed_decrypts plain stored : sealed plain stored ->
  stored <> "" /\ exists c, base64_StdDecode stored = Some c /\ Decrypt c key = Ok plain /\ (12 <= len c)%Z.
Proof.
  intros (Hk & nonce & Hn & ->). split.
  - intros E. apply (f_equal base64_groups) in E. rewrite std_groups in E. injection E as E.
    assert (len (nonce +:+ gcm_Seal key nonce plain) = 0)%Z as Hl by by rewrite E. rewrite len_app in Hl. unfold len in *. lia.
  - exists (nonce +:+ gcm_Seal key nonce plain). rewrite std_roundtrip. split; [done|]. split.
    + apply (Decrypt_Encrypt nonce); [done|]. unfold Encrypt. by rewrite Hk.
    + rewrite len_app. unfold len in *. lia.
Qed.
Lemma Encrypt_seals nonce plain c : len nonce = 12%Z -> Encrypt (Ok nonce) plain key = Ok c ->
  sealed plain (base64_EncodeToString c).
Proof.
  intros Hn. unfold Encrypt. destruct (len key =? 32)%Z eqn:Ek; [|done]. cbn [negb]. intros [= <-].
  split; [by apply Z.eqb_eq|]. by exists nonce.
Qed.

(** The stored form of a kubeconfig and of a registry password. *)
Definition kubeconfig_of (stored plain : string) : Prop :=
  plain = "" /\ stored = "" \/ plain <> "" /\ sealed plain stored.
Definition password_of (stored plain : string) : Prop :=
  plain = "" /\ stored = "" \/ plain <> "" /\ exists t, sealed plain t /\ stored = encryptedPrefix +:+ t.
(** [row] holds the credentials of [cl]. *)
Definition stored_as (cl row : Cluster) : Prop :=
  kubeconfig_of (cl_KubeconfigData row) (cl_KubeconfigData cl) /\ password_of (cl_RegistryPassword row) (cl_RegistryPassword cl).

Lemma key_nonempty : len key = 32%Z -> empty key = false.
Proof. intros Hk. apply empty_false. intros E. by rewrite E in Hk. Qed.
Lemma sealed_key plain stored : sealed plain stored -> empty key = false.
Proof. intros [Hk _]. by apply key_nonempty. Qed.

Lemma kubeconfig_read row plain : kubeconfig_of (cl_KubeconfigData row) plain ->
  decryptKubeconfig key row = Ok (cl_set_KubeconfigData plain row).
Proof.
  unfold decryptKubeconfig. intros [[-> E]|[_ Hs]].
  - rewrite E. change (empty "") with true. cbn [orb]. by rewrite set_same_kubeconfig.
  - rewrite (sealed_key _ _ Hs). destruct (sealed_decrypts _ _ Hs) as (Hne & c & -> & -> & _).
    by rewrite (proj2 (empty_false _) Hne).
Qed.
Lemma password_read row plain : password_of (cl_RegistryPassword row) plain ->
  decryptRegistryPassword key row = cl_set_RegistryPassword plain row.
Proof.
  unfold decryptRegistryPassword. intros [[-> E]|(_ & t & Hs & ->)].
  - rewrite E. change (empty "") with true. by rewrite set_same_password.
  - rewrite (sealed_key _ _ Hs). destruct (sealed_decrypts _ _ Hs) as (_ & c & Hc & Hd & _).
    assert (empty (encryptedPrefix +:+ t) = false) as -> by done. cbv zeta. by rewrite HasPrefix_app, TrimPrefix_app, Hc, Hd.
Qed.
Lemma decrypted_stored cl row : stored_as cl row -> exists c, decrypted key row = Ok c /\
  cl_KubeconfigData c = cl_KubeconfigData cl /\ cl_RegistryPassword c = cl_RegistryPassword cl /\
  cl_RegistryPasswordUnreadable c = cl_RegistryPasswordUnreadable row.
Proof.
  intros [Hk Hp]. unfold decrypted. rewrite (kubeconfig_read _ _ Hk). cbn [res_bind].
  rewrite (password_read _ (cl_RegistryPassword cl)) by done. eauto.
Qed.

(** What is encrypted before a write. *)
Section encrypting.
Context (R : Env ClusterTable ClusterAnswers -> Prop) (Ev : cluster_event -> Prop) (I : ClusterTable -> Prop) (HI : stable R I).
Context (Hnonce : forall st n, R st -> cs_nonce (en_answer st) = Ok n -> len n = 12%Z).
Local Abbreviation kept := (@keeping ClusterTable cluster_event ClusterAnswers R Ev I).
Definition cannot_encrypt : Prop := len key <> 32%Z \/ exists st e, R st /\ cs_nonce (en_answer st) = Err e.

Lemma cannot_no_key : empty key = true -> cannot_encrypt.
Proof. intros E. left. intros Hk. by rewrite key_nonempty in E. Qed.
Lemma cannot_Encrypt st p e : R st -> Encrypt (cs_nonce (en_answer st)) p key = Err e -> cannot_encrypt.
Proof.
  intros Hst. unfold Encrypt. destruct (len key =? 32)%Z eqn:Ek; [|by left; apply Z.eqb_neq]. cbn [negb].
  destruct (cs_nonce _) as [n|e'] eqn:En; [done|]. intros _. right. by exists st, e'.
Qed.

Lemma kept_encryptKubeconfig cl : kept (encryptKubeconfig key cl) (fun r =>
  match r with
  | (Err _, cl') => cl' = cl /\ cannot_encrypt
  | (Ok o, cl') => o = cl_KubeconfigData cl /\ exists d, cl' = cl_set_KubeconfigData d cl /\ kubeconfig_of d o
  end).
Proof.
  unfold encryptKubeconfig. destruct (empty (cl_KubeconfigData cl)) eqn:E.
  - apply keeping_ret. apply empty_iff in E. split; [done|]. exists "". split; [|by left].
    by rewrite ?set_same_kubeconfig, ?set_same_password.
  - destruct (empty key) eqn:Ek; [apply keeping_ret; by split; [|apply cannot_no_key]|].
    eapply keeping_bind; [by apply keeping_ask|]. intros n (st & Hst & ->).
    apply keeping_ret. destruct (Encrypt _ _ _) as [c|e] eqn:Ec; [|by split; [|eapply cannot_Encrypt]]. split; [done|]. eexists. split; [done|]. right.
    split; [by apply empty_false|]. destruct (cs_nonce _) as [n|e] eqn:En; [|unfold Encrypt in Ec; by destruct (negb _)].
    by eapply Encrypt_seals, Ec; eapply Hnonce.
Qed.
Lemma kept_encryptRegistryPassword cl : kept (encryptRegistryPassword key cl) (fun r =>
  match r with
  | (Err _, cl') => cl' = cl /\ cannot_encrypt
  | (Ok o, cl') => o = cl_RegistryPassword cl /\ exists d, cl' = cl_set_RegistryPassword d cl /\ password_of d o
  end).
Proof.
  unfold encryptRegistryPassword. destruct (empty (cl_RegistryPassword cl)) eqn:E.
  - apply keeping_ret. apply empty_iff in E. rewrite E. split; [done|]. exists "". split; [|by left].
    by rewrite ?set_same_kubeconfig, ?set_same_password.
  - destruct (empty key) eqn:Ek; [apply keeping_ret; by split; [|apply cannot_no_key]|].
    eapply keeping_bind; [by apply keeping_ask|]. intros n (st & Hst & ->).
    apply keeping_ret. destruct (Encrypt _ _ _) as [c|e] eqn:Ec; [|by split; [|eapply cannot_Encrypt]]. split; [done|]. eexists. split; [done|]. right.
    split; [by apply empty_false|]. destruct (cs_nonce _) as [n|e] eqn:En; [|unfold Encrypt in Ec; by destruct (negb _)].
    eexists. split; [|done]. by eapply Encrypt_seals, Ec; eapply Hnonce.
Qed.
End encrypting.
End secrets.

(** ** The invariant of the table *)

Section invariant.
Context `{LawfulCrypto} (key : string) (K P : string -> Prop).

(** A credential of a row is encrypted under the key, or is one that the table had before
    ([K], [P]: values of an older version). *)
Definition row_ok (c : Cluster) : Prop :=
  (K (cl_KubeconfigData c) \/ exists p, kubeconfig_of key (cl_KubeconfigData c) p) /\
  (P (cl_RegistryPassword c) \/ exists p, password_of key (cl_RegistryPassword c) p).
Definition keyed_clusters (s : ClusterTable) : Prop := forall id c, s !! id = Some c -> cl_ID c = id.
Definition one_default (s : ClusterTable) : Prop := forall id id' c c', s !! id = Some c -> s !! id' = Some c' ->
  cl_IsDefault c = true -> cl_IsDefault c' = true -> id = id'.
Definition cluster_inv (s : ClusterTable) : Prop :=
  keyed_clusters s /\ one_default s /\ map_Forall (fun _ c => row_ok c) s.

Lemma rows_elem c s : c ∈ rows_of s <-> exists id, s !! id = Some c.
Proof.
  unfold rows_of. rewrite list_elem_of_fmap. split.
  - intros ([id c'] & -> & Hin%elem_of_map_to_list). by exists id.
  - intros [id Hc]. exists (id, c). split; [done|]. by apply elem_of_map_to_list.
Qed.
Lemma filter_elem {A} (f : A -> bool) x l : x ∈ List.filter f l <-> x ∈ l /\ f x = true.
Proof. rewrite !list_elem_of_In. apply filter_In. Qed.
Lemma defaults_elem c s : c ∈ defaults s <-> (exists id, s !! id = Some c) /\ cl_IsDefault c = true.
Proof. unfold defaults. by rewrite filter_elem, rows_elem. Qed.
Lemma no_defaults s : defaults s = [] -> forall id c, s !! id = Some c -> cl_IsDefault c = false.
Proof.
  intros Hd id c Hc. destruct (cl_IsDefault c) eqn:E; [|done]. assert (c ∈ defaults s) as Hin by (apply defaults_elem; eauto).
  rewrite Hd in Hin. by apply not_elem_of_nil in Hin.
Qed.

(** A write that keeps the identifier and the default of a row. *)
Lemma inv_row id c c' s : s !! id = Some c -> cl_ID c' = cl_ID c -> cl_IsDefault c' = cl_IsDefault c -> row_ok c' ->
  cluster_inv s -> cluster_inv (<[id := c']> s).
Proof.
  intros Hc Ei Ed Hok (Hk & Hd & Hr). split_and!.
  - intros i x [[<- <-]|[_ Hx]]%lookup_insert_Some; [by rewrite Ei; apply Hk|by apply Hk].
  - intros i i' x x' Hx Hx' Dx Dx'.
    assert (forall j y, <[id := c']> s !! j = Some y -> cl_IsDefault y = true -> exists z, s !! j = Some z /\ cl_IsDefault z = true) as Hold.
    { intros j y [[<- <-]|[_ Hy]]%lookup_insert_Some Dy; [exists c; split; [done|congruence]|eauto]. }
    destruct (Hold _ _ Hx Dx) as (z & Hz & Dz). destruct (Hold _ _ Hx' Dx') as (z' & Hz' & Dz'). by eapply Hd.
  - by apply map_Forall_insert_2.
Qed.
(** A new row that is no default. *)
Lemma inv_new c s : s !! cl_ID c = None -> cl_IsDefault c = false -> row_ok c -> cluster_inv s ->
  cluster_inv (<[cl_ID c := c]> s).
Proof.
  intros Hn Ed Hok (Hk & Hd & Hr). split_and!.
  - intros i x [[<- <-]|[_ Hx]]%lookup_insert_Some; [done|by apply Hk].
  - intros i i' x x' [[<- <-]|[_ Hx]]%lookup_insert_Some [[<- <-]|[_ Hx']]%lookup_insert_Some Dx Dx'; try congruence.
    by eapply Hd.
  - by apply map_Forall_insert_2.
Qed.

Lemma inv_insert row t s : row_ok row -> cl_IsDefault row = false -> cluster_inv s -> cluster_inv (cluster_insert row t s).2.
Proof.
  intros Hok Hd Hs. unfold cluster_insert. destruct (s !! cl_ID row) eqn:E; [done|]. cbn [is_Some].
  destruct (_ || _)%bool; [done|]. by apply (inv_new (cl_set_RegistryPasswordUnreadable false row)).
Qed.
Lemma inv_save keep row t s : row_ok row -> cluster_inv s -> cluster_inv (cluster_save keep row t s).2.
Proof.
  intros [Hkc Hpw] Hs. pose proof Hs as (Hk & _ & Hr).
  assert (Hpw' : forall id c, s !! id = Some c -> row_ok (saved_cluster keep c row)).
  { intros id c Hc. destruct (Hr _ _ Hc) as [_ Hp]. by destruct keep. }
  unfold cluster_save. destruct (s !! cl_ID row) as [stored|] eqn:E, (name_taken row s) as [|other l] eqn:En; cbn [snd].
  - eapply inv_row; [done|by destruct keep; cbn; rewrite (Hk _ _ E)|by destruct keep|by eapply Hpw'|done].
  - done.
  - assert (row_ok (inserted_cluster keep row)) as Hok.
    { destruct keep; [|done]. split; [done|]. right. exists "". by left. }
    assert (cl_ID (inserted_cluster keep row) = cl_ID row) as Ei by by destruct keep.
    rewrite <- Ei. apply inv_new; [by rewrite Ei|by destruct keep|done|done].
  - assert (other ∈ name_taken row s) as Hin by (rewrite En; by left).
    apply filter_elem in Hin as [[id Ho]%rows_elem _]. rewrite (Hk _ _ Ho).
    eapply inv_row; [done|by rewrite (Hk _ _ Ho)|by destruct keep| |done]. specialize (Hpw' _ _ Ho). by destruct keep.
Qed.
Lemma inv_update_where id f s : (forall c, cl_ID (f c) = cl_ID c) -> (forall c, cl_IsDefault (f c) = cl_IsDefault c) ->
  (forall c, row_ok c -> row_ok (f c)) -> cluster_inv s -> cluster_inv (update_where id (fun _ => true) f s).2.
Proof.
  intros Hi Hd Hok Hs. unfold update_where. destruct (s !! id) as [c|] eqn:E; [|done]. cbn.
  eapply inv_row; try done. apply Hok. by apply Hs in E.
Qed.
Lemma inv_health id status at_ t s : cluster_inv s -> cluster_inv (cluster_health id status at_ t s).2.
Proof.
  intros Hs. unfold cluster_health. pose proof (inv_update_where id (fun c => c |> cl_set_HealthStatus status |> cl_set_UpdatedAt at_) s) as Hu.
  destruct (update_where _ _ _ _). cbn in *. by apply Hu.
Qed.
Lemma inv_remove id t s : cluster_inv s -> cluster_inv (cluster_remove id t s).2.
Proof.
  intros Hs. unfold cluster_remove. destruct (s !! id) as [c0|]; [|done]. cbn. destruct Hs as (Hk & Hd & Hr). split_and!.
  - intros i c [_ Hc]%lookup_delete_Some. by apply Hk.
  - intros i i' c c' [_ Hc]%lookup_delete_Some [_ Hc']%lookup_delete_Some. by eapply Hd.
  - by apply map_Forall_delete.
Qed.
Lemma inv_clear t s : cluster_inv s -> cluster_inv (clear_default t s).2 /\ defaults (clear_default t s).2 = [].
Proof.
  intros (Hk & Hd & Hr). unfold clear_default. cbn.
  assert (Hrow : forall id c', ((fun c => if cl_IsDefault c then c |> cl_set_IsDefault false |> cl_set_UpdatedAt t else c) <$> s) !! id = Some c' ->
    cl_ID c' = id /\ cl_IsDefault c' = false /\ row_ok c').
  { intros id c'. rewrite lookup_fmap. intros (c & Hc & ->)%fmap_Some. specialize (Hk _ _ Hc). specialize (Hr _ _ Hc).
    by destruct (cl_IsDefault c) eqn:Ed. }
  split; [split_and!|].
  - intros id c Hc. by apply Hrow.
  - intros id id' c c' Hc _ Dc. apply Hrow in Hc as (_ & E & _). congruence.
  - intros id c Hc. by apply Hrow in Hc as (_ & _ & ?).
  - destruct (defaults _) as [|c l] eqn:E; [done|]. assert (c ∈ c :: l) as Hin by by left. rewrite <- E in Hin.
    apply defaults_elem in Hin as [[id Hc] Dc]. apply Hrow in Hc as (_ & Hf & _). congruence.
Qed.
Lemma inv_mark id at_ t s : cluster_inv s -> defaults s = [] -> cluster_inv (mark_default id at_ t s).2.
Proof.
  intros (Hk & Hd & Hr) Hno. pose proof (no_defaults _ Hno) as Hf. unfold mark_default, update_where.
  destruct (s !! id) as [c|] eqn:E; [|done]. cbn. split_and!.
  - intros i x [[<- <-]|[_ Hx]]%lookup_insert_Some; [apply (Hk _ _ E)|by apply Hk].
  - intros i i' x x' [[<- _]|[_ Hx]]%lookup_insert_Some [[<- _]|[_ Hx']]%lookup_insert_Some Dx Dx'; try done.
    + by rewrite (Hf _ _ Hx') in Dx'.
    + by rewrite (Hf _ _ Hx) in Dx.
    + by rewrite (Hf _ _ Hx) in Dx.
  - apply map_Forall_insert_2; [|done]. by apply Hr in E.
Qed.
End invariant.

(** ** Every request keeps the invariant *)

Section kept.
Context `{LawfulCrypto} (key : string) (K P : string -> Prop) (registry hub : bool).
Context (R : Env ClusterTable ClusterAnswers -> Prop) (HI : stable R (cluster_inv key K P)).
Context (Hnonce : forall st n, R st -> cs_nonce (en_answer st) = Ok n -> len n = 12%Z).
Local Abbreviation I := (cluster_inv key K P).
Local Abbreviation kept := (@keeping ClusterTable cluster_event ClusterAnswers R (fun _ => True) I).
Local Abbreviation keeps m := (kept m (fun _ => True)).

Lemma keeps_then {A B} (m : Eff ClusterTable cluster_event ClusterAnswers A) (k : A -> Eff ClusterTable cluster_event ClusterAnswers B) :
  keeps m -> (forall a, keeps (k a)) -> keeps (ebind m k).
Proof. intros Hm Hk. eapply keeping_bind; [exact Hm|]. intros a _. apply Hk. Qed.
Lemma keeps_any {A} (m : Eff ClusterTable cluster_event ClusterAnswers A) Φ : kept m Φ -> keeps m.
Proof. intros Hm. by eapply keeping_post. Qed.
Lemma keeps_ret {A} (a : A) : keeps (eret a).
Proof. by apply keeping_ret. Qed.
Lemma keeps_emit e : keeps (eemit e).
Proof. by apply keeping_emit. Qed.
Lemma keeps_read {A} (f : time -> ClusterTable -> A) : keeps (eread f).
Proof. by eapply keeps_any, keeping_read. Qed.
Lemma keeps_ask {A} (f : ClusterAnswers -> A) : keeps (eask f).
Proof. by eapply keeps_any, keeping_ask. Qed.
Lemma keeps_clock : keeps eclock.
Proof. by eapply keeps_any, keeping_clock. Qed.
Lemma keeps_ctx : keeps ectx.
Proof. by eapply keeps_any, keeping_ctx. Qed.
Lemma keeps_write {A} (f : time -> ClusterTable -> res A * ClusterTable) e : (forall t s, I s -> I (f t s).2) -> keeps (ewrite f e).
Proof. intros Hf. apply keeping_write; [done|done|by split; [apply Hf|]|done]. Qed.
Lemma keeps_when b m : keeps m -> keeps (ewhen b m).
Proof. intros Hm. by apply keeping_when. Qed.

Local Ltac keep := repeat first
  [ apply keeps_ret | apply keeps_emit | apply keeps_read | apply keeps_ask | apply keeps_clock | apply keeps_ctx
  | apply keeps_when
  | lazymatch goal with |- keeping _ _ _ (ebind _ _) _ => apply keeps_then; [|intros ?] end | progress case_match | done ].

Lemma keeps_SetDefault id : keeps (SetDefault id).
Proof.
  unfold SetDefault. apply keeps_then; [|intros r; keep]. eapply triple_post; [|by intros a s Hs; split; [exact Hs|]].
  apply triple_transaction with (Qb := fun r s => r.1 = None -> I s); [done| |by intros [] s Hs; apply Hs|by intros e [] s Hs; apply Hs|done].
  eapply triple_bind; [apply triple_read; by left|]. intros [existing|e]; [|by apply triple_ret].
  eapply triple_bind with (Q0 := fun r s => match r with Ok _ => I s /\ defaults s = [] | Err _ => True end).
  - destruct (bool_decide _) eqn:Eb.
    + apply bool_decide_eq_true in Eb as ->. apply triple_ret. intros s [Hs (st & _ & E)]. split; [done|].
      destruct (en_fault st); congruence.
    + apply triple_write; [by left|done| |done]. intros t s [Hs _]. cbn. by apply inv_clear.
  - intros [n|e]; [|by apply triple_ret]. eapply triple_bind; [apply triple_clock; by left|]. intros now.
    eapply triple_bind with (Q0 := fun r s => match r with Ok _ => I s | Err _ => True end).
    + apply triple_write; [by left|done| |done]. intros t s (_ & Hs & Hd).
      pose proof (inv_mark key K P id now t s Hs Hd) as Hm. by destruct (mark_default _ _ _ _) as [[?|?] ?].
    + intros [m|e]; apply triple_ret; [|done]. intros s Hs. by destruct (_ =? _)%Z.
Qed.

Lemma keeps_affected op r : keeps (affected_error op r).
Proof. unfold affected_error. keep. Qed.
Lemma keeps_UpdateHealthStatus id status : keeps (UpdateHealthStatus id status).
Proof.
  unfold UpdateHealthStatus. apply keeps_then; [keep|intros now]. apply keeps_then; [|intros r; apply keeps_affected].
  apply keeps_write. intros t s. apply inv_health.
Qed.
Lemma keeps_cluster_Delete id : keeps (cluster_Delete id).
Proof.
  unfold cluster_Delete. apply keeps_then; [|intros r; apply keeps_affected]. apply keeps_write. intros t s. apply inv_remove.
Qed.
Lemma keeps_FindByID id : keeps (cluster_FindByID key id).
Proof. unfold cluster_FindByID. keep. Qed.
Lemma keeps_FindDefault : keeps (cluster_FindDefault key).
Proof. unfold cluster_FindDefault. keep. Qed.
Lemma keeps_List : keeps (cluster_List key).
Proof. unfold cluster_List. keep. Qed.

(** A password that is kept was in the table. *)
Lemma kept_keepLegacy cl : kept (keepLegacyPassword key cl) (fun r => r = Ok true ->
  P (cl_RegistryPassword cl) \/ exists p, password_of key (cl_RegistryPassword cl) p).
Proof.
  unfold keepLegacyPassword. destruct (empty (cl_RegistryPassword cl)) eqn:Ee; [by apply keeping_ret|].
  destruct (negb (empty key)); [by apply keeping_ret|]. cbn [orb]. apply empty_false in Ee.
  eapply keeping_bind with (Ψ := fun r => forall p, r = Ok p -> p <> "" -> P p \/ exists q, password_of key p q).
  - unfold storedRegistryPassword. eapply keeping_bind; [by apply keeping_read|]. intros r (st & s & _ & Hs & ->).
    apply keeping_ret. destruct (en_fault st); [done|]. intros p [= <-] Hne. destruct (s !! _) as [c|] eqn:E; [|done].
    by apply Hs in E as [_ ?].
  - intros [p|e] Hp; apply keeping_ret; [|done]. intros [= ->%bool_decide_eq_true]. by apply Hp.
Qed.

Lemma restore_kubeconfig d cl : kubeconfig_of key d (cl_KubeconfigData cl) ->
  restoreKubeconfig (cl_KubeconfigData cl) (cl_set_KubeconfigData d cl) = cl.
Proof.
  unfold restoreKubeconfig. destruct (empty _) eqn:E; [|by destruct cl]. apply empty_iff in E. intros [[_ ->]|[? _]]; [|done].
  by apply set_same_kubeconfig.
Qed.

Lemma kept_cluster_Create cl : cl_IsDefault cl = false ->
  kept (cluster_Create key cl) (fun r => r.1 = None -> cl_KubeconfigData r.2 = cl_KubeconfigData cl).
Proof.
  intros Hd. unfold cluster_Create. eapply keeping_bind; [by apply keeping_ask|]. intros uuid _.
  eapply keeping_bind; [by apply keeping_clock|]. intros now _. set (cl0 := _ |> cl_set_UpdatedAt now).
  eapply keeping_bind; [by apply kept_encryptKubeconfig|]. intros [[okc|e] cl1] Hkc; [|by apply keeping_ret].
  destruct Hkc as (-> & d & -> & Hd1). eapply keeping_bind; [by apply kept_encryptRegistryPassword|].
  intros [[orp|e] cl2] Hrp; [|by apply keeping_ret]. destruct Hrp as (-> & p & -> & Hp1).
  eapply keeping_bind; [apply keeps_write|].
  - intros t s. apply inv_insert; [|done]. split; right; eexists; [exact Hd1|exact Hp1].
  - cbn [snd].
    assert (forall (x : error), x = None -> cl_KubeconfigData (cl_set_RegistryPassword (cl_RegistryPassword (cl_set_KubeconfigData d cl0))
      (restoreKubeconfig (cl_KubeconfigData cl0) (cl_set_RegistryPassword p (cl_set_KubeconfigData d cl0)))) = cl_KubeconfigData cl) as E.
    { intros _ _. unfold restoreKubeconfig. destruct (empty (cl_KubeconfigData cl0)) eqn:E; [|done]. apply empty_iff in E.
      cbn. destruct Hd1 as [[_ ->]|[? _]]; [by symmetry|done]. }
    intros [n|e] _; [by apply keeping_ret, E|]. eapply keeping_bind; [by apply keeping_ctx|]. intros ctx _. by apply keeping_ret, E.
Qed.

Lemma keeps_cluster_Update cl : keeps (cluster_Update key cl).
Proof.
  unfold cluster_Update. eapply keeping_bind; [by apply keeping_clock|]. intros now _. set (cl0 := cl_set_UpdatedAt now cl).
  eapply keeping_bind; [by apply kept_encryptKubeconfig|]. intros [[okc|e] cl1] Hkc; [|keep].
  destruct Hkc as (-> & d & -> & Hd1). eapply keeping_bind; [by apply kept_keepLegacy|]. intros [kp|e] Hkeep; [|keep].
  eapply keeping_bind with (Ψ := fun r => match r with
    | (Err _, _) => True
    | (Ok _, cl') => cl_KubeconfigData cl' = d /\
        (P (cl_RegistryPassword cl') \/ exists q, password_of key (cl_RegistryPassword cl') q)
    end).
  - destruct kp; [apply keeping_ret; split; [done|by apply Hkeep]|].
    eapply keeping_post; [by apply kept_encryptRegistryPassword|]. intros [[orp|e] cl2]; [|done].
    intros (-> & p & -> & Hp). split; [done|]. right. by eexists.
  - intros [[orp|e] row] Hrow; [|keep]. destruct Hrow as [Hkd Hpd]. apply keeps_then; [|intros r; keep]. apply keeps_write.
    intros t s. apply inv_save. split; [right; rewrite Hkd; by eexists|done].
Qed.

Lemma keeps_Check cl : keeps (CheckCredentialsStorable key cl).
Proof. unfold CheckCredentialsStorable, keepLegacyPassword, storedRegistryPassword. keep. Qed.
Lemma keeps_create_default wanted cl : keeps (create_default key registry wanted cl).
Proof.
  unfold create_default, refresh. cbv zeta. repeat first [apply keeps_SetDefault | apply keeps_FindDefault | progress keep].
Qed.
Lemma keeps_save_updated id req changed cl : keeps (save_updated key registry id req changed cl).
Proof. unfold save_updated, refresh. repeat first [apply keeps_cluster_Update | progress keep]. Qed.
Lemma keeps_poll l : keeps (poll_clusters hub l).
Proof.
  induction l as [|cl l IH]; [keep|]. cbn [poll_clusters]. unfold checkCluster.
  repeat first [apply IH | apply keeps_UpdateHealthStatus | progress keep].
Qed.

Lemma keeps_cluster_call k : keeps (cluster_call key registry hub k).
Proof.
  destruct k as [[req|]|id [req|]|id|id|id|c id|c|]; cbn [cluster_call];
    unfold CreateCluster, UpdateCluster, DeleteCluster, SetDefaultCluster, TestClusterConnection, GetCluster, ListClusters,
      health_poll, clusterInstances, refresh; try keep;
    repeat first [ apply keeps_create_default | apply keeps_save_updated | apply keeps_SetDefault | apply keeps_cluster_Delete
                 | apply keeps_FindByID | apply keeps_List | apply keeps_Check | apply keeps_poll
                 | by eapply keeps_any, kept_cluster_Create | progress keep ].
Qed.
End kept.

Abbreviation ClusterWorld := (EWorld ClusterTable cluster_event ClusterAnswers).
(** The random source fills its buffer; the other processes keep [I]. *)
Definition nonces (w : ClusterWorld) : Prop := forall n x, cs_nonce (en_answer (ew_env w n)) = Ok x -> len x = 12%Z.
Definition others_keep (I : ClusterTable -> Prop) (w : ClusterWorld) : Prop := forall n s, I s -> I (en_others (ew_env w n) s).

Lemma cluster_call_kept `{LawfulCrypto} key K P registry hub k w : nonces w -> others_keep (cluster_inv key K P) w ->
  ew_quiet w = false -> cluster_inv key K P (ew_state w) -> cluster_inv key K P (ew_state (cluster_call key registry hub k w).2).
Proof.
  intros Hn Ho Hq Hi.
  apply (keeps_cluster_call key K P registry hub (fun st => (forall s, cluster_inv key K P s -> cluster_inv key K P (en_others st s)) /\
      forall x, cs_nonce (en_answer st) = Ok x -> len x = 12%Z)); try done.
  - intros st s [Hs _]. apply Hs.
  - intros st n [_ Hx]. apply Hx.
  - intros n. split; [apply Ho|apply Hn].
Qed.

Definition default_inv (s : ClusterTable) : Prop := keyed_clusters s /\ one_default s.
Lemma default_inv_cluster `{ClusterCrypto} key s :
  cluster_inv key (fun _ => True) (fun _ => True) s <-> default_inv s.
Proof.
  unfold cluster_inv, default_inv. split; [tauto|]. intros [? ?]. split_and!; [done|done|]. intros id c _. by split; left.
Qed.

(** C30. There is at most one default cluster.  When the other processes keep at most one
    default, then so does every request of the cluster routes and every cycle of the
    health poller, whatever fails in between: the change of the default is one
    transaction, a create never inserts a default, and an update never writes the flag,
    also when it brings a deleted row back.  (A transaction is atomic for the others here;
    the row lock of [SetDefault] has no model of its own.) *)
Theorem one_default_cluster `{LawfulCrypto} key registry hub k w :
  nonces w -> others_keep default_inv w -> ew_quiet w = false -> default_inv (ew_state w) ->
  default_inv (ew_state (cluster_call key registry hub k w).2).
Proof.
  intros Hn Ho Hq Hi. apply (default_inv_cluster key), cluster_call_kept; [done| |done|by apply default_inv_cluster].
  intros n s Hs. apply default_inv_cluster, Ho. by eapply default_inv_cluster.
Qed.

(** C31. Credentials are encrypted at rest.  Let [K] and [P] hold of the kubeconfigs and
    registry passwords that an older version left in the table.  Then after every
    request each stored kubeconfig and password is empty, such an old value, or the
    AES-GCM text of some plaintext under the key with a nonce; without a key of 32 bytes
    nothing new is stored. *)
Theorem cluster_secrets_sealed `{LawfulCrypto} key K P registry hub k w id c :
  nonces w -> others_keep (cluster_inv key K P) w -> ew_quiet w = false -> cluster_inv key K P (ew_state w) ->
  ew_state (cluster_call key registry hub k w).2 !! id = Some c ->
  (cl_KubeconfigData c = "" \/ K (cl_KubeconfigData c) \/ exists plain, sealed key plain (cl_KubeconfigData c)) /\
  (cl_RegistryPassword c = "" \/ P (cl_RegistryPassword c) \/
   exists plain t, sealed key plain t /\ cl_RegistryPassword c = encryptedPrefix +:+ t).
Proof.
  intros Hn Ho Hq Hi Hc. destruct (cluster_call_kept key K P registry hub k w Hn Ho Hq Hi) as (_ & _ & Hr).
  destruct (Hr _ _ Hc) as [Hk Hp]. split.
  - destruct Hk as [?|(p & [[_ ?]|[_ ?]])]; eauto.
  - destruct Hp as [?|(p & [[_ ?]|(_ & t & ? & ?)])]; eauto 8.
Qed.

(** ** Stored credentials are read back *)

Section read_back.
Context `{LawfulCrypto} (key : string).
Local Abbreviation C := (Eff ClusterTable cluster_event ClusterAnswers).

Definition create_and_read (cl : Cluster) : C (goerr + res Cluster) :=
  let? r := cluster_Create key cl in
  match r with
  | (Some e, _) => eret (inl e)
  | (None, c) => let? f := cluster_FindByID key (cl_ID c) in eret (inr f)
  end.

Definition same_secrets (c c' : Cluster) : Prop :=
  cl_KubeconfigData c' = cl_KubeconfigData c /\ cl_RegistryPassword c' = cl_RegistryPassword c /\
  cl_RegistryPasswordUnreadable c' = cl_RegistryPasswordUnreadable c.
(** The others change no credentials and delete no cluster. *)
Definition others_spare (f : ClusterTable -> ClusterTable) : Prop := forall s id c, s !! id = Some c ->
  exists c', f s !! id = Some c' /\ same_secrets c c'.
Definition row_holds (cl : Cluster) (id : string) (s : ClusterTable) : Prop := exists row, s !! id = Some row /\
  stored_as key cl row /\ cl_RegistryPasswordUnreadable row = false.

(** No fault, a working random source, and others that spare the credentials. *)
Definition calm_step (st : Env ClusterTable ClusterAnswers) : Prop :=
  en_fault st = None /\ (exists n, cs_nonce (en_answer st) = Ok n /\ len n = 12%Z) /\ others_spare (en_others st).

Lemma row_holds_stable cl id : stable calm_step (row_holds cl id).
Proof.
  intros st s (_ & _ & Ho) (row & Hr & Hs & Hu). destruct (Ho _ _ _ Hr) as (row' & Hr' & E1 & E2 & E3). exists row'.
  split_and!; [done| |by rewrite E3]. destruct Hs as [? ?]. split; congruence.
Qed.

Lemma write_error_duplicate ctx op : exists e, write_error ctx op ErrDuplicateKey = Some e /\ errorsIs e "ErrDuplicateKey" = true.
Proof.
  unfold write_error, withContextErr. destruct ctx as [c|]; cbn [is_Some]; [|eexists; split; [done|reflexivity]].
  rewrite bool_decide_true by eauto. destruct (negb _); [|cbn [is_db_error]; destruct (is_db_error _)];
    (eexists; split; [done|]); cbn [errorsIs]; rewrite ?orb_true_iff; try (right; reflexivity); reflexivity.
Qed.

Lemma calm_can_encrypt : len key = 32%Z -> cannot_encrypt key calm_step -> False.
Proof. intros Hk [?|(st & e & (_ & (n & Hn & _) & _) & He)]; [done|congruence]. Qed.

Lemma create_stores cl : len key = 32%Z ->
  triple calm_step (fun _ => True) false (fun _ => True) (cluster_Create key cl) (fun r s =>
    match r with
    | (Some e, _) => errorsIs e "ErrDuplicateKey" = true
    | (None, c) => row_holds cl (cl_ID c) s
    end).
Proof.
  intros Hkey. assert (HT : stable (S := ClusterTable) calm_step (fun _ => True)) by by intros ???.
  assert (Hn : forall st n, calm_step st -> cs_nonce (en_answer st) = Ok n -> len n = 12%Z)
    by (intros st n (_ & (x & -> & Hx) & _) [= <-]; done).
  unfold cluster_Create. eapply keeping_before; [by apply keeping_ask|]. intros uuid _.
  eapply keeping_before; [by apply keeping_clock|]. intros now _. set (cl0 := _ |> cl_set_UpdatedAt now).
  eapply keeping_before; [by apply (kept_encryptKubeconfig key calm_step)|].
  intros [[okc|e] cl1] Hkc; [|by destruct Hkc as [_ []%calm_can_encrypt]]. destruct Hkc as (-> & d & -> & Hd).
  eapply keeping_before; [by apply (kept_encryptRegistryPassword key calm_step)|].
  intros [[orp|e] row] Hrp; [|by destruct Hrp as [_ []%calm_can_encrypt]]. destruct Hrp as (-> & p & -> & Hp).
  set (row := cl_set_RegistryPassword p _).
  eapply triple_bind with (Q0 := fun r s => match r with Ok _ => row_holds cl (cl_ID row) s | Err e => e = ErrDuplicateKey end).
  - apply triple_write; [by right|done| |].
    + intros t s _. unfold cluster_insert. destruct (_ || _)%bool; [done|]. cbn. eexists. rewrite lookup_insert_eq.
      split_and!; [done|by split|done].
    + intros st err s (Hf & _) Hf'. congruence.
  - intros [n|e].
    + apply triple_ret. intros s Hs. replace (cl_ID _) with (cl_ID row); [done|]. unfold restoreKubeconfig. by destruct (empty (cl_KubeconfigData cl0)).
    + eapply triple_pre with (P' := fun _ => e = ErrDuplicateKey /\ True); [|by intros s]. apply triple_fact. intros ->.
      eapply keeping_before; [by apply keeping_ctx|]. intros ctx _. apply triple_ret. intros s _.
      by destruct (write_error_duplicate ctx "create") as (e & -> & ?).
Qed.

Lemma find_holds cl id : triple calm_step (fun _ => True) false (row_holds cl id) (cluster_FindByID key id) (fun f _ =>
  exists c, f = Ok c /\ cl_KubeconfigData c = cl_KubeconfigData cl /\ cl_RegistryPassword c = cl_RegistryPassword cl /\
    cl_RegistryPasswordUnreadable c = false).
Proof.
  unfold cluster_FindByID. eapply triple_bind; [apply triple_read; right; apply row_holds_stable|]. intros r. apply triple_ret.
  intros s ((row & Hr & Hs & Hu) & st & (Hf & _) & ->). rewrite Hf, Hr. cbn [found].
  destruct (decrypted_stored _ _ _ Hs) as (c & -> & E1 & E2 & E3). exists c. split_and!; congruence.
Qed.
End read_back.

(** C32. Stored credentials are read back.  With a key of 32 bytes, no fault and others that
    spare the credentials, a create is refused as a duplicate, or the cluster read after it
    has the kubeconfig and the registry password that were given, and they are readable. *)
Theorem created_credentials_read_back `{LawfulCrypto} key cl w :
  len key = 32%Z -> (forall n, calm_step (ew_env w n)) -> ew_quiet w = false ->
  match (create_and_read key cl w).1 with
  | inl e => errorsIs e "ErrDuplicateKey" = true
  | inr f => exists c, f = Ok c /\ cl_KubeconfigData c = cl_KubeconfigData cl /\
               cl_RegistryPassword c = cl_RegistryPassword cl /\ cl_RegistryPasswordUnreadable c = false
  end.
Proof.
  intros Hkey Hw Hq. revert w Hw Hq. cut (triple calm_step (fun _ => True) false (fun _ => True) (create_and_read key cl) (fun r _ =>
    match r with
    | inl e => errorsIs e "ErrDuplicateKey" = true
    | inr f => exists c, f = Ok c /\ cl_KubeconfigData c = cl_KubeconfigData cl /\
                 cl_RegistryPassword c = cl_RegistryPassword cl /\ cl_RegistryPasswordUnreadable c = false
    end)); [intros Ht w Hw Hq; by apply Ht|].
  unfold create_and_read. eapply triple_bind; [by apply create_stores|]. intros [[e|] c]; [by apply triple_ret|].
  eapply triple_bind; [apply find_holds|]. intros f. by apply triple_ret.
Qed.

(** ** A change of the default refreshes the client registry *)

(** The writes that change which cluster is the default. *)
Definition changes_default (e : cluster_event) : bool :=
  match e with CMarkDefault _ | CRemove _ => true | CInsert row => cl_IsDefault row | _ => false end.
(** Every such write is refreshed before the next write, and no row is inserted as the
    default (the newest event first; [covered]: a refresh came after). *)
Fixpoint invalidated_from (covered : bool) (tr : list cluster_event) : bool :=
  match tr with
  | [] => true
  | CInvalidateDefault :: tr' => invalidated_from true tr'
  | CInvalidateClient _ :: tr' | CHealthChanged _ _ _ :: tr' | CClearDefault :: tr' => invalidated_from covered tr'
  | CInsert row :: tr' => negb (cl_IsDefault row) && invalidated_from false tr'
  | e :: tr' => (covered || negb (changes_default e)) && invalidated_from false tr'
  end.
Definition invalidated : list cluster_event -> bool := invalidated_from false.
Definition no_change (tr : list cluster_event) : Prop := Forall (fun e => changes_default e = false) tr.
Lemma no_change_nil : no_change [].
Proof. constructor. Qed.
#[local] Hint Resolve no_change_nil : core.
Lemma invalidated_mono c tr : invalidated tr = true -> invalidated_from c tr = true.
Proof.
  unfold invalidated. destruct c; [|done]. induction tr as [|e tr IH]; [done|].
  destruct e; cbn; try done; rewrite ?andb_true_iff; intros Ht; try (by apply IH); try (by destruct Ht).
Qed.
Lemma invalidated_from_app c tr tr' : invalidated_from c tr = true -> invalidated tr' = true -> invalidated_from c (tr ++ tr') = true.
Proof.
  intros Ht Ht'. revert c Ht. induction tr as [|e tr IH]; intros c Ht; [by apply invalidated_mono|].
  destruct e; cbn in *; rewrite ?andb_true_iff in *; try (by apply IH); destruct Ht; split; auto.
Qed.
Lemma invalidated_app tr tr' : invalidated tr = true -> invalidated tr' = true -> invalidated (tr ++ tr') = true.
Proof. apply invalidated_from_app. Qed.
Lemma no_change_invalidated tr : no_change tr -> invalidated tr = true.
Proof.
  unfold invalidated. induction 1 as [|e tr He _ IH]; [done|]. pose proof (invalidated_mono true tr IH).
  destruct e; cbn in *; rewrite ?He; done.
Qed.

Section refreshing.
Context `{ClusterCrypto} (key : string) (hub : bool).
Context (R : Env ClusterTable ClusterAnswers -> Prop) (HR : forall st, R st -> en_lost st = false).
Local Abbreviation C := (Eff ClusterTable cluster_event ClusterAnswers).
Local Abbreviation logs := (@traced ClusterTable cluster_event ClusterAnswers R (fun _ => True)).
Local Abbreviation plain m := (logs m (fun tr _ => no_change tr)).
Local Abbreviation silent m := (logs m (fun tr _ => tr = [])).

Lemma HT : stable (S := ClusterTable) R (fun _ => True).
Proof. by intros ???. Qed.
Lemma plain_then {A B} (m : C A) (k : A -> C B) : plain m -> (forall a, plain (k a)) -> plain (ebind m k).
Proof.
  intros Hm Hk. eapply traced_bind; [exact Hm|]. intros tr a Htr. eapply traced_post; [apply Hk|]. intros tr' b Htr'.
  by apply Forall_app.
Qed.
Lemma plain_ret {A} (a : A) : plain (eret a).
Proof. by apply traced_ret. Qed.
Lemma plain_emit e : changes_default e = false -> plain (eemit e).
Proof. intros He. apply traced_emit. by constructor. Qed.
Lemma plain_when b m : plain m -> plain (ewhen b m).
Proof. intros Hm. by apply traced_when; [intros _|]. Qed.
Lemma plain_ask {A} (f : ClusterAnswers -> A) : plain (eask f).
Proof. by apply traced_ask; [apply HT|]. Qed.
Lemma plain_clock : plain eclock.
Proof. by apply traced_clock; [apply HT|]. Qed.
Lemma plain_ctx : plain ectx.
Proof. by apply traced_ctx; [apply HT|]. Qed.
Lemma plain_read {A} (f : time -> ClusterTable -> A) : plain (eread f).
Proof. by apply traced_read; [apply HT|]. Qed.
Lemma plain_write {A} (f : time -> ClusterTable -> res A * ClusterTable) e : changes_default e = false -> plain (ewrite f e).
Proof.
  intros He. apply traced_write; [apply HT|done|]. intros st s _ _. assert (no_change [e]) by by constructor.
  destruct (en_fault st); [|done]. by destruct (en_lost st).
Qed.

Local Ltac plain := repeat first
  [ apply plain_ret | apply plain_emit; reflexivity | apply plain_read | apply plain_ask | apply plain_clock | apply plain_ctx
  | apply plain_when | apply plain_write; reflexivity
  | lazymatch goal with |- traced _ _ (ebind _ _) _ => apply plain_then; [|intros ?] end | progress case_match | done ].

Lemma quiet_then {A B} (m : C A) (k : A -> C B) Ψ Φ : logs m (fun tr a => tr = [] /\ Ψ a) ->
  (forall a, Ψ a -> logs (k a) Φ) -> logs (ebind m k) Φ.
Proof.
  intros Hm Hk. eapply traced_bind; [exact Hm|]. intros _ a [-> Ha]. eapply traced_post; [by apply Hk|]. intros tr b Hb.
  by rewrite app_nil_r.
Qed.
(** Encryption keeps the flag of the row. *)
Lemma logs_encryptKubeconfig cl : logs (encryptKubeconfig key cl) (fun tr r => tr = [] /\ cl_IsDefault r.2 = cl_IsDefault cl).
Proof.
  unfold encryptKubeconfig. destruct (empty _); [by apply traced_ret|]. destruct (empty _); [by apply traced_ret|].
  eapply traced_bind with (Ψ := fun tr _ => tr = []); [by apply traced_ask; [apply HT|]|]. intros _ n ->. apply traced_ret.
  by destruct (Encrypt _ _ _).
Qed.
Lemma logs_encryptRegistryPassword cl :
  logs (encryptRegistryPassword key cl) (fun tr r => tr = [] /\ cl_IsDefault r.2 = cl_IsDefault cl).
Proof.
  unfold encryptRegistryPassword. destruct (empty _); [by apply traced_ret|]. destruct (empty _); [by apply traced_ret|].
  eapply traced_bind with (Ψ := fun tr _ => tr = []); [by apply traced_ask; [apply HT|]|]. intros _ n ->. apply traced_ret.
  by destruct (Encrypt _ _ _).
Qed.
Lemma plain_Create cl : cl_IsDefault cl = false -> plain (cluster_Create key cl).
Proof.
  intros Hd. unfold cluster_Create. apply plain_then; [plain|]. intros uuid. apply plain_then; [plain|]. intros now.
  eapply quiet_then; [apply logs_encryptKubeconfig|]. intros [[okc|e] cl1] H1; [|plain].
  eapply quiet_then; [apply logs_encryptRegistryPassword|]. intros [[orp|e] row] H2; [|plain]. cbn [snd] in *.
  apply plain_then; [|intros r; plain]. apply plain_write. cbn [changes_default]. rewrite H2, H1. exact Hd.
Qed.
Lemma plain_Update cl : plain (cluster_Update key cl).
Proof.
  unfold cluster_Update, encryptKubeconfig, encryptRegistryPassword, keepLegacyPassword, storedRegistryPassword. plain.
Qed.
Lemma plain_FindByID id : plain (cluster_FindByID key id).
Proof. unfold cluster_FindByID. plain. Qed.
Lemma plain_FindDefault : plain (cluster_FindDefault key).
Proof. unfold cluster_FindDefault. plain. Qed.
Lemma plain_List : plain (cluster_List key).
Proof. unfold cluster_List. plain. Qed.
Lemma plain_Check cl : plain (CheckCredentialsStorable key cl).
Proof. unfold CheckCredentialsStorable, keepLegacyPassword, storedRegistryPassword. plain. Qed.
Lemma plain_instances cl : plain (clusterInstances cl).
Proof. unfold clusterInstances. plain. Qed.
Lemma plain_poll l : plain (poll_clusters hub l).
Proof.
  induction l as [|cl l IH]; [plain|]. cbn [poll_clusters]. unfold checkCluster, UpdateHealthStatus, affected_error.
  repeat first [apply IH | progress plain].
Qed.
Lemma plain_save_updated id req changed cl : plain (save_updated key true id req changed cl).
Proof. unfold save_updated, refresh. repeat first [apply plain_Update | progress plain]. Qed.

Lemma logs_write {A} (f : time -> ClusterTable -> res A * ClusterTable) e :
  logs (ewrite f e) (fun tr r => match r with Ok _ => tr = [e] | Err _ => tr = [e] \/ tr = [] end).
Proof.
  apply traced_write; [apply HT|done|]. intros st s Hst _. rewrite (HR _ Hst).
  destruct (en_fault st); [by right|]. destruct (f _ _) as [[?|?] ?]; [done|by left].
Qed.
(** A change of the default writes its row last; an error leaves nothing. *)
Lemma logs_SetDefault id : logs (SetDefault id) (fun tr e =>
  match e with None => tr = [CMarkDefault id] \/ tr = [CMarkDefault id; CClearDefault] | Some _ => tr = [] end).
Proof.
  set (marked := fun tr : list cluster_event => tr = [CMarkDefault id] \/ tr = [CMarkDefault id; CClearDefault]).
  unfold SetDefault. eapply traced_bind.
  - apply traced_transaction with (Φb := fun tr r => r.1 = None -> marked tr)
      (Φ := fun tr r => match r.1 with None => marked tr | Some _ => tr = [] end); [apply HT|done| |intros tr a Hm; by apply Hm|done].
    eapply traced_bind with (Ψ := fun tr _ => tr = []); [by apply traced_read; [apply HT|]|]. intros _ [existing|e] ->; [|by apply traced_ret].
    eapply traced_bind with (Ψ := fun tr r => match r with Ok _ => tr = [] \/ tr = [CClearDefault] | Err _ => True end).
    { destruct (bool_decide _); [by apply traced_ret; left|]. eapply traced_post; [apply logs_write|]. intros tr [n|e]; [by right|done]. }
    intros tr [n|e] Htr; [|by apply traced_ret].
    eapply traced_bind with (Ψ := fun tr _ => tr = []); [by apply traced_clock; [apply HT|]|]. intros _ now ->.
    eapply traced_bind; [apply logs_write|]. intros tr1 [m|e] Htr1; apply traced_ret; [|done]. intros _. rewrite Htr1. cbn.
    rewrite ?app_nil_r. destruct Htr as [->| ->]; [by left|by right].
  - intros tr r Hr. eapply traced_bind with (Ψ := fun tr _ => tr = []); [by apply traced_ctx; [apply HT|]|].
    intros _ ctx ->. apply traced_ret. cbn [app]. cbn beta in Hr. destruct (r.1) as [e|]; [|destruct ctx; exact Hr]. subst tr.
    unfold withContextErr. destruct ctx; [|done]. by repeat case_match.
Qed.
Lemma logs_Delete id : logs (cluster_Delete id) (fun tr e =>
  match e with
  | None => tr = [CRemove id]
  | Some e => tr = [] \/ tr = [CRemove id] /\ e = EDB "delete" ErrNotFound
  end).
Proof.
  unfold cluster_Delete. eapply traced_bind with (Ψ := fun tr r => match r with Ok _ => tr = [CRemove id] | Err _ => tr = [] end).
  - apply traced_write; [apply HT|done|]. intros st s Hst _. rewrite (HR _ Hst). destruct (en_fault st); [done|].
    unfold cluster_remove. by destruct (s !! id).
  - intros tr [n|e] ->; unfold affected_error.
    + destruct (n =? 0)%Z; apply traced_ret; [by right|done].
    + eapply traced_bind with (Ψ := fun tr _ => tr = []); [by apply traced_ctx; [apply HT|]|]. intros _ ctx ->.
      destruct ctx as [c|]; apply traced_ret; [|by left]. unfold withContextErr. repeat case_match; simplify_eq; try done; by left.
Qed.

Local Abbreviation fresh m := (logs m (fun tr _ => invalidated tr = true)).
Lemma fresh_then {A B} (m : C A) (k : A -> C B) : fresh m -> (forall a, fresh (k a)) -> fresh (ebind m k).
Proof.
  intros Hm Hk. eapply traced_bind; [exact Hm|]. intros tr a Htr. eapply traced_post; [apply Hk|]. intros tr' b Htr'.
  by apply invalidated_app.
Qed.
Lemma fresh_plain {A} (m : C A) : plain m -> fresh m.
Proof. intros Hm. eapply traced_post; [exact Hm|]. intros tr a. apply no_change_invalidated. Qed.
Lemma fresh_ret {A} (a : A) : fresh (eret a).
Proof. by apply traced_ret. Qed.
(** A new default, and what follows its refresh. *)
Lemma fresh_default {B} id (bad : goerr -> B) (good : C B) : fresh good ->
  fresh (let? e := SetDefault id in
         match e with Some e => eret (bad e) | None => do? refresh true CInvalidateDefault in good end).
Proof.
  intros Hg. eapply traced_bind; [apply logs_SetDefault|]. intros tr [e|] Htr.
  - rewrite Htr by done. by apply traced_ret.
  - eapply traced_bind with (Ψ := fun tr _ => tr = [CInvalidateDefault]); [by apply traced_emit|].
    intros _ _ ->. eapply traced_post; [apply Hg|]. intros tr' b Htr'. rewrite <- app_assoc.
    apply invalidated_app; [done|]. by destruct Htr as [->| ->].
Qed.

Lemma fresh_create_default wanted cl : fresh (create_default key true wanted cl).
Proof.
  unfold create_default. cbv zeta. destruct wanted.
  - apply (fresh_default (cl_ID cl) (fun _ => cluster_body 201 true cl)), fresh_ret.
  - apply fresh_then; [apply fresh_plain, plain_FindDefault|]. intros [c|e]; [apply fresh_ret|].
    destruct (negb _); [apply fresh_ret|]. apply (fresh_default (cl_ID cl) (fun _ => cluster_body 201 false cl)), fresh_ret.
Qed.
Lemma fresh_UpdateCluster id body : fresh (UpdateCluster key true id body).
Proof.
  unfold UpdateCluster. apply fresh_then; [apply fresh_plain, plain_FindByID|]. intros [existing|e]; [|apply fresh_ret].
  destruct body as [req|]; [|apply fresh_ret]. destruct (updated_kubeconfig req existing) as [dp changed].
  do 2 (lazymatch goal with |- traced _ _ (if ?b then _ else _) _ => destruct b end; [apply fresh_ret|]).
  destruct (Cluster_Validate _); [apply fresh_ret|].
  apply fresh_then; [apply fresh_plain, plain_Check|]. intros [e|]; [apply fresh_ret|].
  destruct (negb _); [apply fresh_plain, plain_save_updated|]. apply (fresh_default id cluster_mapped), fresh_plain, plain_save_updated.
Qed.

Lemma silent_then {A B} (m : C A) (k : A -> C B) Φ : silent m -> (forall a, logs (k a) Φ) -> logs (ebind m k) Φ.
Proof.
  intros Hm Hk. eapply quiet_then with (Ψ := fun _ => True); [|intros a _; apply Hk]. eapply traced_post; [exact Hm|]. by intros tr a ->.
Qed.
Lemma silent_ret {A} (a : A) : silent (eret a).
Proof. by apply traced_ret. Qed.
Lemma silent_instances cl : silent (clusterInstances cl).
Proof.
  unfold clusterInstances. apply silent_then; [by apply traced_ask; [apply HT|]|]. intros [l|e]; [|apply silent_ret].
  destruct (negb _); [apply silent_ret|]. apply silent_then; [by apply traced_ask; [apply HT|]|]. intros r. apply silent_ret.
Qed.

(** The trace of a delete that found no row to delete. *)
Definition refreshed (tr : list cluster_event) (a : ClusterAnswer) : Prop :=
  invalidated tr = true \/ (exists id, tr = [CRemove id]) /\ cn_Status a = 404%Z.
Lemma refreshed_fresh (m : C ClusterAnswer) : fresh m -> logs m refreshed.
Proof. intros Hm. eapply traced_post; [exact Hm|]. intros tr a. by left. Qed.

Lemma logs_DeleteCluster id : logs (DeleteCluster key true id) refreshed.
Proof.
  unfold DeleteCluster. apply silent_then.
  { unfold cluster_FindByID. apply silent_then; [by apply traced_read; [apply HT|]|]. intros r. apply silent_ret. }
  intros [cl|e]; [|by apply refreshed_fresh, fresh_ret]. apply silent_then; [apply silent_instances|].
  intros [[|i l]|e]; try by apply refreshed_fresh, fresh_ret.
  eapply traced_bind; [apply logs_Delete|]. intros tr [e|] Htr.
  - apply traced_ret. destruct Htr as [->|[-> ->]]; [by left|]. right. split; [by exists id|done].
  - eapply traced_bind with (Ψ := fun tr _ => tr = [CInvalidateClient id]); [by apply traced_emit|]. intros _ _ ->.
    eapply traced_bind with (Ψ := fun tr _ => tr = [CInvalidateDefault]); [by apply traced_emit|]. intros _ _ ->.
    apply traced_ret. rewrite Htr. by left.
Qed.

Lemma logs_cluster_call k : logs (cluster_call key true hub k) refreshed.
Proof.
  destruct k as [[req|]|id body|id|id|id|c id|c|]; cbn [cluster_call]; try (apply logs_DeleteCluster); apply refreshed_fresh.
  - unfold CreateCluster. case_match; [apply fresh_ret|]. apply fresh_then; [by apply fresh_plain, plain_Create|].
    intros [[e|] cl]; [apply fresh_ret|apply fresh_create_default].
  - apply fresh_ret.
  - apply fresh_UpdateCluster.
  - apply (fresh_default id cluster_mapped), fresh_ret.
  - apply fresh_plain. unfold TestClusterConnection. repeat first [apply plain_FindByID | progress plain].
  - apply fresh_plain. unfold GetCluster. repeat first [apply plain_FindByID | progress plain].
  - apply fresh_plain. unfold ListClusters. repeat first [apply plain_List | progress plain].
  - apply fresh_plain. unfold health_poll. repeat first [apply plain_List | apply plain_poll | progress plain].
Qed.
End refreshing.

(** ** Samples *)

Section samples.
Definition sample_tag := "0123456789abcdef".
#[local] Instance sample_crypto : ClusterCrypto := {|
  Sum256 p := "abcdefghabcdefghabcdefghabcdefgh";
  gcm_Seal key nonce plain := plain +:+ sample_tag;
  gcm_Open key nonce c := Some (stake (String.length c - String.length sample_tag) c)
|}.
#[local] Instance sample_lawful : LawfulCrypto.
Proof.
  split; [done|]. intros key nonce plain _ _. cbn [gcm_Open gcm_Seal sample_crypto].
  rewrite slength_app, Nat.add_sub, stake_app, Nat.sub_diag by lia. f_equal. change (stake 0 _) with "". apply sapp_nil.
Defined.

Definition sample_key : string := DeriveKey "secret".
Definition sample_request (name : string) (isDefault : bool) : CreateClusterRequest :=
  mkCreateCluster name "" "https://api" "kube: config" "" "" 0 0 isDefault false false false "reg.io" "user" "pass" "".
Definition sample_step (n : nat) : Env ClusterTable ClusterAnswers :=
  mkStep (fun s => s) (Z.of_nat n) None false None
    (mkClusterAnswers (String (ascii_of_nat (97 + n)) "") (Ok "nonce0123456") (fun _ => Ok []) (fun _ => Version "v1")).
Definition sample_world (s : ClusterTable) : ClusterWorld := mkEWorld s sample_step 0 false [].
Definition first_world : ClusterWorld :=
  (cluster_call sample_key true true (CallCreate (Some (sample_request "one" true))) (sample_world ∅)).2.
Definition sample_default : Cluster :=
  mkCluster 0 0 "c0" "zero" "" "https://api" "" "/etc/kube" "" ClusterHealthy "" "" "" false "" 0 0 true false false false.

Lemma sample_nonces s : nonces (sample_world s).
Proof. by intros n x [= <-]. Defined.
Lemma sample_table_inv : default_inv {["c0" := sample_default]}.
Proof.
  split; [intros id c [<- <-]%lookup_singleton_Some; done|].
  intros id id' c c' [<- _]%lookup_singleton_Some [<- _]%lookup_singleton_Some. done.
Defined.

(** The second cluster takes over the default. *)
Lemma one_default_cluster_witness :
  let k := CallCreate (Some (sample_request "one" true)) in
  let w := (cluster_call sample_key true true k (sample_world {["c0" := sample_default]})).2 in
  default_inv (ew_state w) /\ List.map (fun c => (cl_Name c, cl_IsDefault c)) (rows_of (ew_state w)) = [("zero", false); ("one", true)].
Proof.
  split; [|vm_compute; reflexivity]. apply one_default_cluster; [apply sample_nonces|by intros n s Hs|done|apply sample_table_inv].
Defined.

Lemma cluster_secrets_sealed_witness :
  is_Some (ew_state first_world !! "a") /\ forall c, ew_state first_world !! "a" = Some c ->
    (cl_KubeconfigData c = "" \/ cl_KubeconfigData c = "old" \/ exists plain, sealed sample_key plain (cl_KubeconfigData c)) /\
    (cl_RegistryPassword c = "" \/ cl_RegistryPassword c = "old" \/
     exists plain t, sealed sample_key plain t /\ cl_RegistryPassword c = encryptedPrefix +:+ t).
Proof.
  split; [vm_compute; eexists; reflexivity|]. unfold first_world. intros c.
  apply (cluster_secrets_sealed sample_key (fun x => x = "old") (fun x => x = "old") true true
    (CallCreate (Some (sample_request "one" true))) (sample_world ∅) "a" c); [apply sample_nonces|by intros n s Hs|reflexivity|].
  change (ew_state (sample_world ∅)) with (∅ : ClusterTable).
  split_and!; [by intros id x []%lookup_empty_Some|by intros ???? []%lookup_empty_Some|by intros id x []%lookup_empty_Some].
Defined.

Lemma created_credentials_read_back_witness :
  let cl := new_cluster (sample_request "one" false) in
  match (create_and_read sample_key cl (sample_world ∅)).1 with
  | inl e => errorsIs e "ErrDuplicateKey" = true
  | inr f => exists c, f = Ok c /\ cl_KubeconfigData c = "kube: config" /\ cl_RegistryPassword c = "pass" /\
               cl_RegistryPasswordUnreadable c = false
  end.
Proof.
  intros cl. apply created_credentials_read_back; [reflexivity| |reflexivity].
  intros n. split_and!; [reflexivity|exists "nonce0123456"; split; reflexivity|]. intros s id c Hc. by exists c.
Defined.

End samples.
