(* ===== verification/Registry.v ===== *)
(** * The client registry of the clusters

    [cluster/registry.go]: the Kubernetes and Helm clients of each cluster, built on the
    first use and cached, and the cached default cluster, behind one mutex.  Requests run
    as goroutines of a step machine: a section of the mutex without a query is one step;
    the query for the default runs with the mutex held, the query and the build for a
    client without it.  The stored rows change between any two steps by the commits of
    the requests of [Clusters].  The client factories and the files of the operating
    system answer as arguments. *)

From S2P Require Import Prelude Models Store World Access Templates Effects Keys Clusters.
Local Open Scope string_scope.
Local Open Scope list_scope.

(** ** Clients *)

(** The options that a built client depends on. *)
Record RegistryOptions := mkRegistryOptions {
  ro_NamespaceLabels : list (string * string);
  ro_AccessBinding : bool;
  ro_InClusterFallback : string
}.
Record K8sClient := mkK8sClient {
  kc_Kubeconfig : string;
  kc_NamespaceLabels : list (string * string);
  kc_AccessBinding : bool
}.
(** The Helm client is its kubeconfig path; [cc_kubeconfigPath] is the temporary file. *)
Record ClusterClients := mkClients {
  cc_K8s : K8sClient;
  cc_Helm : string;
  cc_kubeconfigPath : string
}.
#[global] Instance K8sClient_eq_dec : EqDecision K8sClient.
Proof. solve_decision. Defined.
#[global] Instance ClusterClients_eq_dec : EqDecision ClusterClients.
Proof. solve_decision. Defined.

(** What a build meets: whether the backend runs in a pod, the temporary file that it
    creates with the errors of its mode, write and close, and the Kubernetes factory. *)
Record BuildEnv := mkBuildEnv {
  be_inCluster : bool;
  be_temp : res string;
  be_chmod : error;
  be_write : error;
  be_close : error;
  be_k8s : string -> error
}.
Abbreviation Files := (gset string).
Definition written (b : BuildEnv) : bool := bool_decide (be_chmod b = None /\ be_write b = None /\ be_close b = None).
Definition remove_file (f : string) (files : Files) : Files := if empty f then files else files ∖ {[f]}.

(** The kubeconfig path, the temporary file, and the files.  A file that could not be
    written is removed, and its path used all the same. *)
Definition config_source (o : RegistryOptions) (b : BuildEnv) (cl : Cluster) (files : Files) : res (string * string * Files) :=
  If cl_UseInCluster cl Return
    Ok (if negb (empty (ro_InClusterFallback o)) && negb (be_inCluster b) then ro_InClusterFallback o else "", "", files) ;;
  If negb (empty (cl_KubeconfigPath cl)) Return Ok (cl_KubeconfigPath cl, "", files) ;;
  If negb (empty (cl_KubeconfigData cl)) Return (
    match be_temp b with
    | Err e => Err (EWrap "create temp kubeconfig file: " e "")
    | Ok f => Ok (f, f, if written b then {[f]} ∪ files else files)
    end) ;;
  Err (ENew "cluster has neither kubeconfig path nor kubeconfig data").
Definition buildClients (o : RegistryOptions) (b : BuildEnv) (cl : Cluster) (files : Files) : res ClusterClients * Files :=
  match config_source o b cl files with
  | Err e => (Err e, files)
  | Ok (path, temp, files) =>
      match be_k8s b path with
      | Some e => (Err (EWrap "create k8s client: " e ""), remove_file temp files)
      | None =>
          (Ok (mkClients (mkK8sClient path (ro_NamespaceLabels o) (cl_UseInCluster cl && ro_AccessBinding o)) path temp), files)
      end
  end.
Definition cleanupTempKubeconfig (cc : ClusterClients) (files : Files) : Files := remove_file (cc_kubeconfigPath cc) files.

(** ** The goroutines *)

(** Which method resolves the default: [GetDefaultClients], [ResolveClusterID] or
    [GetRegistryConfig]. *)
Inductive Want := WantClients | WantID | WantConfig.
Inductive Reply :=
| GotClients (cc : ClusterClients)
| GotID (id : string)
| GotConfig (c : option RegistryConfig)
| Failed (e : goerr)
| Finished.
(** A request of [Clusters], as its writes and the calls of the registry after them. *)
Inductive Action :=
| Commit (e : cluster_event)
| Forget (id : string)
| ForgetDefault
| CloseAll.
Inductive Pc :=
| PClients (id : string)
| PFetch (id : string)
| PBuild (id : string) (cl : Cluster)
| PStore (id : string) (cc : ClusterClients)
| PDefault (want : Want)
| PLock (want : Want)
| PFind (want : Want)
| PFound (want : Want) (r : res Cluster)
| PConfig (id : string)
| PHandler (l : list Action)
| PDone (r : Reply).

Inductive RegistryCall :=
| GetClients (id : string)
| GetDefaultClients
| GetK8sClient (id : string)
| GetHelmExecutor (id : string)
| ResolveClusterID (id : string)
| GetRegistryConfig (id : string)
| InvalidateClient (id : string)
| InvalidateDefault
| Close
| Handler (l : list Action).
Definition start_pc (c : RegistryCall) : Pc :=
  match c with
  | GetClients id => PClients id
  | GetDefaultClients => PDefault WantClients
  | GetK8sClient id | GetHelmExecutor id => if empty id then PDefault WantClients else PClients id
  | ResolveClusterID id => if empty id then PDefault WantID else PDone (GotID id)
  | GetRegistryConfig id => if empty id then PDefault WantConfig else PConfig id
  | InvalidateClient id => PHandler [Forget id]
  | InvalidateDefault => PHandler [ForgetDefault]
  | Close => PHandler [CloseAll]
  | Handler l => PHandler l
  end.

Record RegistryState := mkRegistryState {
  rs_rows : ClusterTable;
  rs_clients : gmap string ClusterClients;
  rs_defaultID : string;
  rs_defaultResolved : bool;
  rs_lock : option nat;
  rs_files : Files;
  rs_procs : gmap nat Pc
}.
Definition set_rows (v : ClusterTable) (s : RegistryState) : RegistryState :=
  mkRegistryState v (rs_clients s) (rs_defaultID s) (rs_defaultResolved s) (rs_lock s) (rs_files s) (rs_procs s).
Definition set_clients (v : gmap string ClusterClients) (s : RegistryState) : RegistryState :=
  mkRegistryState (rs_rows s) v (rs_defaultID s) (rs_defaultResolved s) (rs_lock s) (rs_files s) (rs_procs s).
Definition set_default (id : string) (resolved : bool) (s : RegistryState) : RegistryState :=
  mkRegistryState (rs_rows s) (rs_clients s) id resolved (rs_lock s) (rs_files s) (rs_procs s).
Definition set_lock (v : option nat) (s : RegistryState) : RegistryState :=
  mkRegistryState (rs_rows s) (rs_clients s) (rs_defaultID s) (rs_defaultResolved s) v (rs_files s) (rs_procs s).
Definition set_files (v : Files) (s : RegistryState) : RegistryState :=
  mkRegistryState (rs_rows s) (rs_clients s) (rs_defaultID s) (rs_defaultResolved s) (rs_lock s) v (rs_procs s).
Definition goto (p : nat) (pc : Pc) (s : RegistryState) : RegistryState :=
  mkRegistryState (rs_rows s) (rs_clients s) (rs_defaultID s) (rs_defaultResolved s) (rs_lock s) (rs_files s) (<[p := pc]> (rs_procs s)).

(** ** Steps *)

Section registry.
Context `{ClusterCrypto} (key : string) (o : RegistryOptions).

(** What a step meets: the time, a failed query or write, and the surroundings of a
    build. *)
Record StepEnv := mkStepEnv { se_now : time; se_fault : error; se_build : BuildEnv }.

Definition isNotFoundError (e : goerr) : bool := errorsIs e "ErrNotFound".
Definition find_row (id : string) (fault : error) (rows : ClusterTable) : res Cluster :=
  found key "find_by_id" (match fault with Some e => Err e | None => Ok (rows !! id) end).
Definition find_default (fault : error) (rows : ClusterTable) : res Cluster :=
  found key "find_default" (match fault with Some e => Err e | None => Ok (first_default rows) end).

(** What follows a known default. *)
Definition settle (want : Want) (id : string) : Pc :=
  match want with
  | WantClients => if empty id then PDone (Failed (ENew "no default cluster configured")) else PClients id
  | WantID => if empty id then PDone (Failed ErrNoDefaultCluster) else PDone (GotID id)
  | WantConfig => if empty id then PDone (GotConfig None) else PConfig id
  end.
Definition default_missing (want : Want) (e : goerr) : Reply :=
  match want with
  | WantClients => Failed (EWrap "no default cluster configured: " e "")
  | WantID => Failed (EWrap2 ErrNoDefaultCluster ": " e)
  | WantConfig => GotConfig None
  end.
Definition default_unknown (want : Want) (e : goerr) : Reply :=
  match want with
  | WantConfig => GotConfig None
  | _ => Failed (EWrap "find default cluster: " e "")
  end.
(** The end of the section that looked the default up: only a default that does not exist
    is remembered as missing, and [GetRegistryConfig] remembers no miss. *)
Definition found_default (p : nat) (want : Want) (r : res Cluster) (s : RegistryState) : RegistryState :=
  match r with
  | Ok cl => s |> set_default (cl_ID cl) true |> goto p (settle want (cl_ID cl))
  | Err e =>
      match want with
      | WantConfig => goto p (PDone (GotConfig None)) s
      | _ =>
          If isNotFoundError e Return s |> set_default "" true |> goto p (PDone (default_missing want e)) ;;
          goto p (PDone (default_unknown want e)) s
      end
  end.

(** The effect of a committed write; [None]: it found no row, or a duplicate.  The change
    of the default is one transaction. *)
Definition commit (e : cluster_event) (t : time) (rows : ClusterTable) : option ClusterTable :=
  let affected r := match r with (Ok n, rows') => If (n =? 0)%Z Return None ;; Some rows' | (Err _, _) => None end in
  match e with
  | CInsert row => affected (cluster_insert row t rows)
  | CSave keep row => affected (cluster_save keep row t rows)
  | CSetHealth id status => affected (cluster_health id status t t rows)
  | CRemove id => affected (cluster_remove id t rows)
  | CMarkDefault id =>
      match rows !! id with
      | None => None
      | Some _ => Some (mark_default id t t (clear_default t rows).2).2
      end
  | _ => Some rows
  end.

Definition forget_client (id : string) (s : RegistryState) : RegistryState :=
  match rs_clients s !! id with
  | Some cc => s |> set_files (cleanupTempKubeconfig cc (rs_files s)) |> set_clients (delete id (rs_clients s))
  | None => s
  end.
Definition close_all (s : RegistryState) : RegistryState :=
  s |> set_files (map_fold (fun _ cc files => cleanupTempKubeconfig cc files) (rs_files s) (rs_clients s)) |> set_clients ∅.

Definition locked (s : RegistryState) : bool := bool_decide (is_Some (rs_lock s)).
Definition handler_step (p : nat) (e : StepEnv) (a : Action) (l : list Action) (s : RegistryState) : option RegistryState :=
  match a with
  | Commit ev =>
      match (if bool_decide (is_Some (se_fault e)) then None else commit ev (se_now e) (rs_rows s)) with
      | None => Some (goto p (PDone Finished) s)
      | Some rows => Some (s |> set_rows rows |> goto p (PHandler l))
      end
  | Forget id => If locked s Return None ;; Some (goto p (PHandler l) (forget_client id s))
  | ForgetDefault => If locked s Return None ;; Some (s |> set_default "" false |> goto p (PHandler l))
  | CloseAll => If locked s Return None ;; Some (goto p (PHandler l) (close_all s))
  end.
(** One step of the goroutine [p]; [None]: it waits for the mutex or is done. *)
Definition registry_run (p : nat) (e : StepEnv) (s : RegistryState) : option RegistryState :=
  match rs_procs s !! p with
  | None | Some (PDone _) => None
  | Some (PClients id) =>
      If locked s Return None ;;
      Some (goto p (match rs_clients s !! id with Some cc => PDone (GotClients cc) | None => PFetch id end) s)
  | Some (PFetch id) =>
      Some (goto p (match find_row id (se_fault e) (rs_rows s) with
                    | Err err => PDone (Failed (EWrap ("cluster " +:+ id +:+ ": ") err ""))
                    | Ok cl => PBuild id cl
                    end) s)
  | Some (PBuild id cl) =>
      let '(r, files) := buildClients o (se_build e) cl (rs_files s) in
      Some (s |> set_files files |>
            goto p (match r with
                    | Err err => PDone (Failed (EWrap ("cluster " +:+ id +:+ ": build clients: ") err ""))
                    | Ok cc => PStore id cc
                    end))
  | Some (PStore id cc) =>
      If locked s Return None ;;
      match rs_clients s !! id with
      | Some existing => Some (s |> set_files (cleanupTempKubeconfig cc (rs_files s)) |> goto p (PDone (GotClients existing)))
      | None => Some (s |> set_clients (<[id := cc]> (rs_clients s)) |> goto p (PDone (GotClients cc)))
      end
  | Some (PDefault want) =>
      If locked s Return None ;;
      Some (goto p (if rs_defaultResolved s then settle want (rs_defaultID s) else PLock want) s)
  | Some (PLock want) =>
      If locked s Return None ;;
      If rs_defaultResolved s Return Some (goto p (settle want (rs_defaultID s)) s) ;;
      Some (s |> set_lock (Some p) |> goto p (PFind want))
  | Some (PFind want) => Some (goto p (PFound want (find_default (se_fault e) (rs_rows s))) s)
  | Some (PFound want r) => Some (found_default p want r (set_lock None s))
  | Some (PConfig id) =>
      Some (goto p (PDone (match find_row id (se_fault e) (rs_rows s) with
                           | Err err => Failed (EWrap ("cluster " +:+ id +:+ ": ") err "")
                           | Ok cl => GotConfig (Cluster_RegistryConfig cl)
                           end)) s)
  | Some (PHandler []) => Some (goto p (PDone Finished) s)
  | Some (PHandler (a :: l)) => handler_step p e a l s
  end.

(** [CreateTemp] picks a name that is not in use; the error of a failed query does not
    say that a row is missing; with [calm] the files can be written.  [ok] tells which
    handlers start. *)
Definition env_ok (calm : bool) (e : StepEnv) (s : RegistryState) : Prop :=
  (forall err, se_fault e = Some err -> isNotFoundError err = false) /\ (calm = true -> written (se_build e) = true) /\
  forall f, be_temp (se_build e) = Ok f -> (f ∉ rs_files s) /\ f <> "".
Inductive registry_step (ok : list Action -> bool) (calm : bool) (s : RegistryState) : RegistryState -> Prop :=
| step_start p c : rs_procs s !! p = None -> match c with Handler l => ok l = true | _ => True end ->
    registry_step ok calm s (goto p (start_pc c) s)
| step_run p e s' : env_ok calm e s -> registry_run p e s = Some s' -> registry_step ok calm s s'.
Definition NewRegistry (rows : ClusterTable) : RegistryState := mkRegistryState rows ∅ "" false None ∅ ∅.

(** ** The readiness check *)

(** [answers]: for each listed cluster whether the check ran out of time before it, and
    the error of its client or its ping. *)
Fixpoint some_reachable (answers : list (bool * error)) : bool :=
  match answers with
  | [] => false
  | (late, e) :: l => negb late && (bool_decide (e = None) || some_reachable l)
  end.
Definition HealthCheck (listed : res (list (bool * error))) : error :=
  match listed with
  | Err _ => errorsNew "cluster registry unavailable"
  | Ok [] => None
  | Ok l => If some_reachable l Return None ;; errorsNew ("all " +:+ itoa (Z.of_nat (length l)) +:+ " registered clusters are unreachable")
  end.
Definition ClusterExists (id : string) (fault : error) (rows : ClusterTable) : bool :=
  match find_row id fault rows with Ok _ => true | Err e => negb (isNotFoundError e) end.
End registry.
