(* ===== verification/RegistryRules.v ===== *)
(** * The client registry: a fresh default and tracked kubeconfig files

    Theorems about [Registry], for every interleaving of the goroutines: the cached default
    against the stored one, the temporary kubeconfig files, and the progress of the mutex;
    and about the requests of [Clusters] as the handlers that it assumes. *)

From S2P Require Import Prelude Models Store World Access Templates Effects Keys Clusters ClusterRules Registry.
Local Open Scope string_scope.
Local Open Scope list_scope.

(** ** Handlers that refresh the default *)

(** The default is forgotten before anything else is written. *)
Fixpoint due (l : list Action) : bool :=
  match l with
  | ForgetDefault :: _ => true
  | Forget _ :: l' | CloseAll :: l' => due l'
  | _ => false
  end.
Definition inserts_default (e : cluster_event) : bool := match e with CInsert row => cl_IsDefault row | _ => false end.
Fixpoint refreshes (l : list Action) : bool :=
  match l with
  | [] => true
  | Commit e :: l' => negb (inserts_default e) && (negb (changes_default e) || due l') && refreshes l'
  | _ :: l' => refreshes l'
  end.
(** The writes and calls of a request, oldest first; a cleared default belongs to the
    transaction of the new one. *)
Fixpoint actions_of (tr : list cluster_event) : list Action :=
  match tr with
  | [] => []
  | CInvalidateClient id :: tr' => Forget id :: actions_of tr'
  | CInvalidateDefault :: tr' => ForgetDefault :: actions_of tr'
  | CHealthChanged _ _ _ :: tr' | CClearDefault :: tr' => actions_of tr'
  | e :: tr' => Commit e :: actions_of tr'
  end.

Lemma actions_of_app tr tr' : actions_of (tr ++ tr') = actions_of tr ++ actions_of tr'.
Proof. induction tr as [|e tr IH]; [done|]. destruct e; cbn; by rewrite IH. Qed.
Lemma invalidated_refreshes c tr l : invalidated_from c tr = true -> refreshes l = true -> (c = true -> due l = true) ->
  refreshes (actions_of (rev tr) ++ l) = true.
Proof.
  revert c l. induction tr as [|e tr IH]; intros c l Ht Hl Hc; [done|]. cbn [rev].
  rewrite actions_of_app, <- app_assoc.
  destruct e as [row|keep row|id st|id| |id|id| |id name st]; cbn in *; rewrite ?andb_true_iff in Ht;
    try (by eapply IH); try (by destruct Ht as [Hn Ht]; eapply IH; [exact Ht| |done]; cbn; rewrite ?Hn, ?Hl; done).
  - destruct Ht as [Hn Ht]. eapply IH; [exact Ht| |done]. cbn. rewrite Hl. destruct c; [by rewrite Hc|done].
  - destruct Ht as [Hn Ht]. eapply IH; [exact Ht| |done]. cbn. rewrite Hl. destruct c; [by rewrite Hc|done].
Qed.

(** C33. A change of the default refreshes the client registry.  With a registry, and when no
    write takes effect and fails (the answer to no commit is lost), the writes and calls of every request form a program
    that forgets the cached default right after each write that made a cluster the
    default or deleted one; the one exception is a delete that found nothing to delete,
    which answers 404. *)
Theorem default_change_refreshes `{ClusterCrypto} key hub k w : (forall n, en_lost (ew_env w n) = false) ->
  exists tr, ew_trace (cluster_call key true hub k w).2 = tr ++ ew_trace w /\
    (refreshes (actions_of (rev tr)) = true \/
     (exists id, tr = [CRemove id]) /\ cn_Status (cluster_call key true hub k w).1 = 404%Z).
Proof.
  intros Hl. destruct (logs_cluster_call key hub (fun st => en_lost st = false) (fun st Hst => Hst) k w) as (_ & _ & _ & tr & Ht & Hr);
    [done|done|]. exists tr. split; [done|]. destruct Hr as [Hr|Hr]; [left|by right].
  rewrite <- (app_nil_r (actions_of _)). by eapply invalidated_refreshes.
Qed.

(** ** The stored default *)

Lemma sorted_elem {A} (less : A -> A -> bool) x l : x ∈ sort_less less l <-> x ∈ l.
Proof. by rewrite <- (sort_less_perm less l). Qed.
Lemma first_default_in s c : first_default s = Some c -> c ∈ defaults s.
Proof.
  unfold first_default. intros Hh. apply (sorted_elem (fun a b => String.ltb (cl_ID a) (cl_ID b))).
  destruct (sort_less _ _) as [|x l]; [done|]. injection Hh as ->. by left.
Qed.
(** With one default, it is the one. *)
Lemma first_default_unique s id c : one_default s -> s !! id = Some c -> cl_IsDefault c = true -> first_default s = Some c.
Proof.
  intros Ho Hc Hd. destruct (first_default s) as [c'|] eqn:E.
  - apply first_default_in, defaults_elem in E as [[id' Hc'] Hd']. rewrite (Ho _ _ _ _ Hc Hc' Hd Hd') in Hc. congruence.
  - assert (c ∈ sort_less (fun a b => String.ltb (cl_ID a) (cl_ID b)) (defaults s)) as Hin by (apply sorted_elem, defaults_elem; eauto).
    unfold first_default in E. destruct (sort_less _ _); [by apply not_elem_of_nil in Hin|done].
Qed.

(** The identifier of the default cluster, empty when there is none. *)
Definition current_default (rows : ClusterTable) : string := match first_default rows with Some c => cl_ID c | None => "" end.
Definition has_default (rows : ClusterTable) (id : string) : Prop := exists c, rows !! id = Some c /\ cl_IsDefault c = true.

Lemma current_is rows id : default_inv rows -> has_default rows id -> current_default rows = id.
Proof. intros [Hk Ho] (c & Hc & Hd). unfold current_default. rewrite (first_default_unique _ _ _ Ho Hc Hd). by apply Hk. Qed.
Lemma current_none rows : (forall id, has_default rows id -> False) -> current_default rows = "".
Proof.
  intros Hn. unfold current_default. destruct (first_default rows) as [c|] eqn:E; [|done].
  apply first_default_in, defaults_elem in E as [[id Hc] Hd]. exfalso. apply (Hn id). by exists c.
Qed.
Lemma current_same rows rows' : default_inv rows -> default_inv rows' ->
  (forall id, has_default rows' id <-> has_default rows id) -> current_default rows' = current_default rows.
Proof.
  intros Hi Hi' Hs. destruct (first_default rows) as [c|] eqn:E.
  - apply first_default_in, defaults_elem in E as [[id Hc] Hd]. assert (has_default rows id) as Hh by by exists c.
    rewrite (current_is rows id), (current_is rows' id); [done|done|by apply Hs|done|done].
  - assert (forall id, has_default rows id -> False) as Hn.
    { intros id (c & Hc & Hd). destruct Hi as [_ Ho]. by rewrite (first_default_unique _ _ _ Ho Hc Hd) in E. }
    rewrite !current_none; [done|done|]. intros id Hh. by eapply Hn, Hs.
Qed.

Section commits.
Context `{LawfulCrypto} (key : string).
Local Abbreviation top := (fun _ : string => True).

Lemma row_ok_top c : row_ok key top top c.
Proof. by split; left. Qed.
Lemma has_default_row rows id c c' x : rows !! id = Some c -> cl_IsDefault c' = cl_IsDefault c ->
  has_default (<[id := c']> rows) x <-> has_default rows x.
Proof.
  intros Hc Hd. unfold has_default. split.
  - intros (y & [[<- <-]|[_ Hy]]%lookup_insert_Some & Dy); [exists c; split; [done|congruence]|by exists y].
  - intros (y & Hy & Dy). destruct (decide (x = id)) as [->|Hne].
    + exists c'. rewrite lookup_insert_eq. split; [done|congruence].
    + exists y. by rewrite lookup_insert_ne.
Qed.
Lemma has_default_new rows id c x : rows !! id = None -> cl_IsDefault c = false ->
  has_default (<[id := c]> rows) x <-> has_default rows x.
Proof.
  intros Hn Hd. unfold has_default. split.
  - intros (y & [[<- <-]|[_ Hy]]%lookup_insert_Some & Dy); [congruence|by exists y].
  - intros (y & Hy & Dy). exists y. rewrite lookup_insert_ne; [done|congruence].
Qed.

(** A write keeps one default at most, and the same one unless it is a change. *)
Lemma commit_default e t rows rows' : commit e t rows = Some rows' -> inserts_default e = false -> default_inv rows ->
  default_inv rows' /\ (changes_default e = false -> current_default rows' = current_default rows).
Proof.
  intros Hc Hi Hr. assert (cluster_inv key top top rows) as Hr' by by apply default_inv_cluster.
  cut (cluster_inv key top top rows' /\ (changes_default e = false -> forall x, has_default rows' x <-> has_default rows x)).
  { intros [Hi' Hs]. apply default_inv_cluster in Hi'. split; [done|]. intros Hch. by apply current_same; [..|apply Hs]. }
  destruct e as [row|keep row|id st|id| |id|id| |id name st]; cbn [commit] in Hc; try (by injection Hc as <-).
  - pose proof (inv_insert key top top row t rows (row_ok_top row) Hi Hr') as Hn. unfold cluster_insert in *.
    destruct (rows !! cl_ID row) eqn:E; cbn in *; [done|]. destruct (negb _); [done|]. injection Hc as <-. split; [done|].
    intros _ x. by apply has_default_new.
  - pose proof (inv_save key top top keep row t rows (row_ok_top row) Hr') as Hn. unfold cluster_save in *.
    destruct (rows !! cl_ID row) as [stored|] eqn:E, (name_taken row rows) as [|other l] eqn:En; cbn in *;
      try done; injection Hc as <-; (split; [exact Hn|]); intros _ x.
    + apply (has_default_row _ _ stored); [done|by destruct keep].
    + apply has_default_new; [done|by destruct keep].
    + assert (other ∈ name_taken row rows) as Hin by (rewrite En; by left). apply filter_elem in Hin as [[id Ho]%rows_elem _].
      apply (has_default_row _ _ other); [|by destruct keep]. by rewrite (proj1 Hr _ _ Ho).
  - pose proof (inv_health key top top id st t t rows Hr') as Hn. unfold cluster_health, update_where in *.
    destruct (rows !! id) as [c|] eqn:E; [|done]. cbn in *. destruct (decide _); [done|]. injection Hc as <-. split; [done|].
    intros _ x. by apply (has_default_row _ _ c).
  - pose proof (inv_remove key top top id t rows Hr') as Hn. unfold cluster_remove in *.
    destruct (rows !! id); [|done]. by injection Hc as <-.
  - destruct (rows !! id); [|done]. injection Hc as <-. split; [|done].
    destruct (inv_clear key top top t rows Hr') as [Hcl Hno]. by apply inv_mark.
Qed.
End commits.

(** ** The cached default *)

Section fresh_default.
Context `{LawfulCrypto} (key : string) (o : RegistryOptions) (calm : bool).
Local Abbreviation rstep := (registry_step key o refreshes calm).

(** A handler that is about to forget the default. *)
Definition due_now (procs : gmap nat Pc) : Prop := exists p l, procs !! p = Some (PHandler l) /\ due l = true.
Definition agrees (r : res Cluster) (rows : ClusterTable) : Prop :=
  match r with
  | Ok cl => cl_ID cl = current_default rows
  | Err e => isNotFoundError e = true -> current_default rows = ""
  end.
(** What is cached, and what was read for the cache, is the stored default. *)
Definition synced (s : RegistryState) : Prop :=
  (rs_defaultResolved s = true -> rs_defaultID s = current_default (rs_rows s)) /\
  forall p want r, rs_procs s !! p = Some (PFound want r) -> agrees r (rs_rows s).
Definition pc_ok (lock : option nat) (p : nat) (pc : Pc) : Prop :=
  match pc with
  | PHandler l => refreshes l = true
  | PFind _ | PFound _ _ => lock = Some p
  | _ => True
  end.
Definition fresh_inv (s : RegistryState) : Prop :=
  default_inv (rs_rows s) /\ (forall p pc, rs_procs s !! p = Some pc -> pc_ok (rs_lock s) p pc) /\
  (due_now (rs_procs s) \/ synced s).

Lemma due_insert procs p pc pc' : due_now procs -> procs !! p = Some pc ->
  (forall l, pc = PHandler l -> due l = true -> exists l', pc' = PHandler l' /\ due l' = true) -> due_now (<[p := pc']> procs).
Proof.
  intros (q & l & Hq & Hl) Hp Hd. destruct (decide (q = p)) as [->|Hne].
  - rewrite Hp in Hq. injection Hq as ->. destruct (Hd l eq_refl Hl) as (l' & -> & Hl'). exists p, l'. by rewrite lookup_insert_eq.
  - exists q, l. by rewrite lookup_insert_ne.
Qed.

(** A step of [p]: what the caller shows about its new position and the cache. *)
Lemma fresh_move s s' p pc pc' : fresh_inv s -> rs_procs s !! p = Some pc -> rs_procs s' = <[p := pc']> (rs_procs s) ->
  default_inv (rs_rows s') -> rs_lock s = rs_lock s' \/ rs_lock s = None \/ rs_lock s = Some p -> pc_ok (rs_lock s') p pc' ->
  (due_now (rs_procs s) -> due_now (rs_procs s') \/ synced s') -> (synced s -> due_now (rs_procs s') \/ synced s') -> fresh_inv s'.
Proof.
  intros (Hr & Hp & Hd) Hpc Es Hr' Hlock Hok Hdue Hsync. split_and!; [done| |].
  - intros q x. rewrite Es. intros [[<- <-]|[Hne Hq]]%lookup_insert_Some; [done|]. specialize (Hp _ _ Hq).
    destruct Hlock as [<-|Hlock]; [done|]. destruct x; cbn in *; try done; destruct Hlock; congruence.
  - destruct Hd; auto.
Qed.

Definition is_handler (pc : Pc) : bool := match pc with PHandler _ => true | _ => false end.
(** A goroutine that is no handler moves, and the cached default stays. *)
Lemma fresh_goto s s' p pc pc' : fresh_inv s -> rs_procs s !! p = Some pc -> is_handler pc = false ->
  rs_procs s' = <[p := pc']> (rs_procs s) -> rs_rows s' = rs_rows s -> rs_lock s = rs_lock s' \/ rs_lock s = None ->
  rs_defaultID s' = rs_defaultID s -> rs_defaultResolved s' = rs_defaultResolved s -> pc_ok (rs_lock s') p pc' ->
  (forall want r, pc' = PFound want r -> agrees r (rs_rows s)) -> fresh_inv s'.
Proof.
  intros Hi Hp Hh Es Er Hl Ei Ev Hok Hf. eapply fresh_move; try done; [by rewrite Er; apply Hi|tauto| |].
  - intros Hd. left. rewrite Es. eapply due_insert; [done..|]. by intros l ->.
  - intros [Hc Hpf]. right. split; [by rewrite Ei, Ev, Er|]. intros q want r. rewrite Es, Er.
    intros [[<- ->]|[_ Hq]]%lookup_insert_Some; [by eapply Hf|by eapply Hpf].
Qed.

Lemma find_default_agrees fault rows : (forall err, fault = Some err -> isNotFoundError err = false) ->
  agrees (find_default key fault rows) rows.
Proof.
  intros Hf. unfold find_default, agrees, current_default. destruct fault as [err|]; cbn [found].
  - intros Hn. specialize (Hf err eq_refl). unfold isNotFoundError in *. cbn in Hn. congruence.
  - destruct (first_default rows) as [c|]; [|done].
    unfold found, decrypted, decryptKubeconfig. destruct (_ || _)%bool; [|destruct (base64_StdDecode _) as [d|]; [destruct (Decrypt d key) eqn:E|]].
    all: cbn [res_bind]; try (unfold decryptRegistryPassword, markUnreadable; repeat case_match; reflexivity).
    intros Hn. exfalso. revert E Hn. unfold Decrypt, isNotFoundError. repeat case_match; intros [= <-]; done.
Qed.

Lemma fresh_found s p want r : fresh_inv s -> rs_procs s !! p = Some (PFound want r) ->
  fresh_inv (found_default p want r (set_lock None s)).
Proof.
  intros Hi Hp. pose proof Hi as (Hr & Hok & _). pose proof (Hok _ _ Hp) as Hlock. cbn in Hlock.
  assert (Hnone : forall q w r', rs_procs s !! q = Some (PFound w r') -> q = p) by (intros q w r' Hq; specialize (Hok _ _ Hq); cbn in Hok; congruence).
  assert (Hmove : forall s' pc', rs_procs s' = <[p := pc']> (rs_procs s) -> rs_rows s' = rs_rows s -> rs_lock s' = None ->
    pc_ok None p pc' -> (forall w x, pc' <> PFound w x) ->
    (agrees r (rs_rows s) -> rs_defaultResolved s' = true -> (rs_defaultResolved s = true -> rs_defaultID s = current_default (rs_rows s)) ->
       rs_defaultID s' = current_default (rs_rows s)) -> fresh_inv s').
  { intros s' pc' Es Er El Hpc Hnf Hc. eapply fresh_move; try done; [by rewrite Er|tauto|by rewrite El| |].
    - intros Hd. left. rewrite Es. by eapply due_insert.
    - intros [Hcur Hpf]. right. split; [rewrite Er; intros Hv; apply Hc; [by eapply Hpf|done|done]|].
      intros q w x. rewrite Es. intros [[<- Hx]|[Hne Hq]]%lookup_insert_Some; [by destruct (Hnf w x)|].
      by destruct Hne; symmetry; eapply Hnone. }
  assert (Hsettle : forall id, pc_ok None p (settle want id) /\ forall w x, settle want id <> PFound w x)
    by (intros id; unfold settle; destruct want; by destruct (empty id)).
  unfold found_default. destruct r as [cl|e]; [|destruct want]; try (destruct (isNotFoundError e) eqn:En);
    eapply Hmove; try done; try (by apply Hsettle); cbn; intros Ha Hv Hold; try (by apply Hold).
  - symmetry. by apply Ha.
  - symmetry. by apply Ha.
Qed.

Lemma fresh_start s p c : rs_procs s !! p = None -> match c with Handler l => refreshes l = true | _ => True end ->
  fresh_inv s -> fresh_inv (goto p (start_pc c) s).
Proof.
  intros Hp Hc (Hr & Hok & Hd).
  assert (Hpc : pc_ok (rs_lock s) p (start_pc c) /\ forall w r, start_pc c <> PFound w r)
    by (destruct c as [id| |id|id|id|id|id| | |l]; cbn; try done; by destruct (empty id)).
  destruct Hpc as [Hpc Hnf]. split_and!; [done| |].
  - intros q x. cbn. intros [[<- <-]|[_ Hq]]%lookup_insert_Some; [done|by apply Hok].
  - destruct Hd as [(q & l & Hq & Hl)|[Hcur Hpf]]; [left; exists q, l; split; [|done]; cbn; rewrite lookup_insert_ne; [done|congruence]|].
    right. split; [done|]. intros q w r. cbn. intros [[<- Hx]|[_ Hq]]%lookup_insert_Some; [by destruct (Hnf w r)|by eapply Hpf].
Qed.

(** A handler moves on without a write. *)
Lemma fresh_skip s s' p a l : fresh_inv s -> rs_procs s !! p = Some (PHandler (a :: l)) -> refreshes l = true ->
  (due (a :: l) = true -> due l = true) ->
  rs_procs s' = <[p := PHandler l]> (rs_procs s) -> rs_rows s' = rs_rows s -> rs_lock s' = rs_lock s ->
  rs_defaultID s' = rs_defaultID s -> rs_defaultResolved s' = rs_defaultResolved s -> fresh_inv s'.
Proof.
  intros Hi Hp Hl Hdue Es Er El Ei Ev. eapply fresh_move; try done; [by rewrite Er; apply Hi|by left| |].
  - intros Hd. left. rewrite Es. eapply due_insert; [done..|]. intros l0 [= <-] Hl0. eauto.
  - intros [Hc Hpf]. right. split; [by rewrite Ei, Ev, Er|]. intros q w r. rewrite Es, Er.
    intros [[_ Hx]|[_ Hq]]%lookup_insert_Some; [done|by eapply Hpf].
Qed.

Lemma fresh_handler s s' p e a l : fresh_inv s -> rs_procs s !! p = Some (PHandler (a :: l)) ->
  handler_step p e a l s = Some s' -> fresh_inv s'.
Proof.
  intros Hi Hp Hs. pose proof Hi as (Hr & Hok & _). pose proof (Hok _ _ Hp) as Href. cbn [pc_ok] in Href.
  destruct a as [ev|id| |]; cbn [handler_step] in Hs.
  - cbn [refreshes] in Href. apply andb_true_iff in Href as [[Hins Hch]%andb_true_iff Hl]. apply negb_true_iff in Hins.
    assert (Hsame : forall q w r pc', (forall w x, pc' <> PFound w x) -> <[p := pc']> (rs_procs s) !! q = Some (PFound w r) ->
      rs_procs s !! q = Some (PFound w r)).
    { intros q w r pc' Hn [[_ Hx]|[_ Hq]]%lookup_insert_Some; [by destruct (Hn w r)|done]. }
    destruct (if bool_decide _ then _ else _) as [rows|] eqn:Ec; injection Hs as <-.
    + destruct (bool_decide _); [done|]. destruct (commit_default key ev _ _ rows Ec Hins Hr) as [Hr' Hcur].
      eapply fresh_move with (p := p); [done|done|reflexivity|done|by left|done| |]; cbn.
      * intros Hd. left. eapply due_insert; [done..|]. by intros l0 [= <-].
      * intros [Hc Hpf]. destruct (changes_default ev) eqn:Ech.
        -- left. exists p, l. rewrite lookup_insert_eq. split; [done|]. by destruct (due l).
        -- right. split; cbn; [by rewrite Hcur|]. intros q w r Hq. apply Hsame in Hq; [|done]. specialize (Hpf _ _ _ Hq).
           unfold agrees in *. by rewrite Hcur.
    + eapply fresh_move with (p := p); [done|done|reflexivity|done|by left|done| |]; cbn.
      * intros Hd. left. eapply due_insert; [done..|]. by intros l0 [= <-].
      * intros [Hc Hpf]. right. split; [done|]. intros q w r Hq. apply Hsame in Hq; [|done]. by eapply Hpf.
  - destruct (locked s); [done|]. injection Hs as <-. eapply fresh_skip; try done; unfold forget_client; by destruct (_ !! id).
  - destruct (locked s) eqn:El; [done|]. injection Hs as <-. unfold locked in El. apply bool_decide_eq_false in El.
    assert (synced (goto p (PHandler l) (set_default "" false s))) as Hsync.
    { split; [done|]. cbn. intros q w r [[_ Hx]|[_ Hq]]%lookup_insert_Some; [done|].
      specialize (Hok _ _ Hq). cbn in Hok. rewrite Hok in El. by destruct El. }
    eapply fresh_move with (p := p); [done|done|reflexivity|done|by left|done|by right|by right].
  - destruct (locked s); [done|]. injection Hs as <-. by eapply fresh_skip.
Qed.

Lemma fresh_run s s' p e : env_ok calm e s -> registry_run key o p e s = Some s' -> fresh_inv s -> fresh_inv s'.
Proof.
  intros (Hf & _) Hs Hi. unfold registry_run in Hs. destruct (rs_procs s !! p) as [pc|] eqn:Hp; [|done].
  assert (Hset : forall l want id, pc_ok l p (settle want id)) by (intros l want id; unfold settle; destruct want; by destruct (empty id)).
  assert (Hnf : forall want id w r, settle want id <> PFound w r) by (intros want id w r; unfold settle; destruct want; by destruct (empty id)).
  destruct pc as [id|id|id cl|id cc|want|want|want|want r|id|[|a l]|r]; [..|done].
  - destruct (locked s); [done|]. injection Hs as <-. eapply fresh_goto; try done; [by left|by destruct (rs_clients s !! id)|].
    intros w r. by destruct (rs_clients s !! id).
  - injection Hs as <-. eapply fresh_goto; try done; [by left|by destruct (find_row _ _ _ _)|]. intros w r. by destruct (find_row _ _ _ _).
  - destruct (buildClients _ _ _ _) as [r files]. injection Hs as <-. eapply fresh_goto; try done; [by left|by destruct r|].
    intros w x. by destruct r.
  - destruct (locked s); [done|]. destruct (rs_clients s !! id); injection Hs as <-; eapply fresh_goto; try done; by left.
  - destruct (locked s); [done|]. injection Hs as <-. eapply fresh_goto; try done; [by left|by destruct (rs_defaultResolved s)|].
    intros w r. destruct (rs_defaultResolved s); [|done]. intros Hx. by destruct (Hnf want (rs_defaultID s) w r).
  - destruct (locked s) eqn:El; [done|]. destruct (rs_defaultResolved s); injection Hs as <-.
    + eapply fresh_goto; try done; [by left|]. intros w r Hx. by destruct (Hnf want (rs_defaultID s) w r).
    + unfold locked in El. apply bool_decide_eq_false in El. eapply fresh_goto; try done. right. cbn.
      destruct (rs_lock s); [by destruct El|done].
  - injection Hs as <-. pose proof Hi as (_ & Hok & _). specialize (Hok _ _ Hp). eapply fresh_goto; try done; [by left|].
    intros w r [= _ <-]. by apply find_default_agrees.
  - injection Hs as <-. by apply fresh_found.
  - injection Hs as <-. eapply fresh_goto; try done. by left.
  - injection Hs as <-. eapply fresh_move with (p := p); [done|done|reflexivity|apply Hi|by left|done| |]; cbn.
    + intros Hd. left. eapply due_insert; [done..|]. by intros l0 [= <-].
    + intros [Hc Hpf]. right. split; [done|]. intros q w r. cbn. intros [[_ Hx]|[_ Hq]]%lookup_insert_Some; [done|by eapply Hpf].
  - by eapply fresh_handler.
Qed.

Lemma fresh_reachable rows s : default_inv rows -> rtc rstep (NewRegistry rows) s -> fresh_inv s.
Proof.
  intros Hr Hs. assert (fresh_inv (NewRegistry rows)) as Hi.
  { split_and!; [done|by intros p pc Hp; cbn in Hp; rewrite lookup_empty in Hp|]. right. split; [done|].
    intros p want r Hp. cbn in Hp. by rewrite lookup_empty in Hp. }
  clear Hr. induction Hs as [|x y z Hxy _ IH]; [done|]. apply IH. destruct Hxy as [p c Hp Hc|p e s' He Hrun].
  - by apply fresh_start.
  - by eapply fresh_run.
Qed.
End fresh_default.

(** C34. The cached default is the stored default.  From a table with at most one default, for
    every interleaving of lookups, builds, invalidations and of handlers that forget the
    default right after they changed it: when the default is resolved and no handler is
    about to forget it, it is the identifier of the stored default cluster, and empty
    when there is none. *)
Theorem cached_default_fresh `{LawfulCrypto} key o calm rows s :
  default_inv rows -> rtc (registry_step key o refreshes calm) (NewRegistry rows) s ->
  rs_defaultResolved s = true -> (forall p l, rs_procs s !! p = Some (PHandler l) -> due l = false) ->
  rs_defaultID s = current_default (rs_rows s).
Proof.
  intros Hr Hs Hv Hn. destruct (fresh_reachable key o calm rows s Hr Hs) as (_ & _ & [(p & l & Hp & Hl)|[Hc _]]); [|by apply Hc].
  rewrite (Hn _ _ Hp) in Hl. done.
Qed.

(** ** Temporary kubeconfig files *)

Section files.
Context `{ClusterCrypto} (key : string) (o : RegistryOptions) (ok : list Action -> bool) (calm : bool).

(** Who cleans a file up: a cached client, or a goroutine that is about to store one. *)
Definition owns (s : RegistryState) (x : string + nat) (f : string) : Prop :=
  match x with
  | inl id => exists cc, rs_clients s !! id = Some cc /\ cc_kubeconfigPath cc = f
  | inr p => exists id cc, rs_procs s !! p = Some (PStore id cc) /\ cc_kubeconfigPath cc = f
  end.
Definition files_inv (s : RegistryState) : Prop :=
  (forall f, f ∈ rs_files s -> f <> "" /\ exists x, owns s x f) /\
  (calm = true -> (forall x f, owns s x f -> f <> "" -> f ∈ rs_files s) /\
     forall x y f, owns s x f -> owns s y f -> f <> "" -> x = y).

Lemma elem_remove f g files : g <> "" -> g ∈ remove_file f files <-> g ∈ files /\ g <> f.
Proof. intros Hg. unfold remove_file. destruct (empty f) eqn:E; [apply empty_iff in E; set_solver|set_solver]. Qed.
Lemma elem_remove_in f g files : g ∈ remove_file f files -> g ∈ files.
Proof. unfold remove_file. destruct (empty f); set_solver. Qed.

(** The same owners, the same files. *)
Lemma files_same s s' : (forall x f, owns s' x f <-> owns s x f) -> rs_files s' = rs_files s -> files_inv s -> files_inv s'.
Proof.
  intros Ho Ef [Hf Hc]. split.
  - intros f. rewrite Ef. intros [Hne [x Hx]]%Hf. split; [done|]. exists x. by apply Ho.
  - intros Hcalm. destruct (Hc Hcalm) as [Hin Hun]. split.
    + intros x f. rewrite Ho, Ef. apply Hin.
    + intros x y f. rewrite !Ho. apply Hun.
Qed.
(** An owner goes away with its file. *)
Lemma files_drop s s' x0 f0 : owns s x0 f0 -> (forall x f, owns s' x f <-> owns s x f /\ x <> x0) ->
  rs_files s' = remove_file f0 (rs_files s) -> (forall f, owns s x0 f -> f = f0) -> files_inv s -> files_inv s'.
Proof.
  intros H0 Ho Ef Hfun [Hf Hc]. split.
  - intros f. rewrite Ef. intros Hin. pose proof (elem_remove_in _ _ _ Hin) as Hin'. destruct (Hf _ Hin') as [Hne [x Hx]].
    split; [done|]. apply elem_remove in Hin as [_ Hne']; [|done]. exists x. apply Ho. split; [done|]. intros ->.
    by apply Hfun in Hx.
  - intros Hcalm. destruct (Hc Hcalm) as [Hin Hun]. split.
    + intros x f [Hx Hne]%Ho Hf'. rewrite Ef. apply elem_remove; [done|]. split; [by eapply Hin|]. intros ->.
      by specialize (Hun _ _ _ Hx H0 Hf').
    + intros x y f [Hx _]%Ho [Hy _]%Ho. by apply Hun.
Qed.

Lemma owns_goto s p pc x f : (forall id cc, rs_procs s !! p <> Some (PStore id cc)) -> (forall id cc, pc <> PStore id cc) ->
  owns (goto p pc s) x f <-> owns s x f.
Proof.
  intros Hp Hpc. destruct x as [id|q]; [done|]. cbn. split.
  - intros (id & cc & [[_ Hx]|[_ Hq]]%lookup_insert_Some & Hf); [by destruct (Hpc id cc)|by exists id, cc].
  - intros (id & cc & Hq & Hf). exists id, cc. split; [|done]. rewrite lookup_insert_ne; [done|]. intros ->. by destruct (Hp id cc).
Qed.
Lemma files_goto s p pc : (forall id cc, rs_procs s !! p <> Some (PStore id cc)) -> (forall id cc, pc <> PStore id cc) ->
  files_inv s -> files_inv (goto p pc s).
Proof. intros Hp Hpc. apply files_same; [|done]. intros x f. by apply owns_goto. Qed.

Lemma config_source_files b cl files path temp files' : (forall f, be_temp b = Ok f -> (f ∉ files) /\ f <> "") ->
  config_source o b cl files = Ok (path, temp, files') ->
  temp = "" /\ files' = files \/
  (temp <> "") /\ (temp ∉ files) /\ (files' = files /\ written b = false \/ files' = {[temp]} ∪ files).
Proof.
  intros Hb. unfold config_source. destruct (cl_UseInCluster cl); [intros [= _ <- <-]; by left|].
  destruct (negb _); [intros [= _ <- <-]; by left|]. destruct (negb _); [|done].
  destruct (be_temp b) as [f|e] eqn:E; [|done]. intros [= _ <- <-]. right. destruct (Hb f eq_refl) as [? ?].
  split_and!; [done|done|]. destruct (written b); [by right|by left].
Qed.
Lemma buildClients_files b cl files : (forall f, be_temp b = Ok f -> (f ∉ files) /\ f <> "") ->
  match buildClients o b cl files with
  | (Err _, files') => files' = files
  | (Ok cc, files') => cc_kubeconfigPath cc = "" /\ files' = files \/
      (cc_kubeconfigPath cc <> "") /\ (cc_kubeconfigPath cc ∉ files) /\
      (files' = files /\ written b = false \/ files' = {[cc_kubeconfigPath cc]} ∪ files)
  end.
Proof.
  intros Hb. unfold buildClients. destruct (config_source _ _ _ _) as [[[path temp] files']|e] eqn:E; [|done].
  apply config_source_files in E; [|done]. destruct (be_k8s b path); cbn; [|done].
  unfold remove_file. destruct E as [[-> ->]|(Hne & Hnin & [[-> _]| ->])]; [done|..];
    rewrite (proj2 (empty_false _) Hne); apply set_eq; set_solver.
Qed.

Lemma files_build s p id cl e : rs_procs s !! p = Some (PBuild id cl) -> env_ok calm e s -> files_inv s ->
  let '(r, files) := buildClients o (se_build e) cl (rs_files s) in
  files_inv (s |> set_files files |>
    goto p (match r with Err err => PDone (Failed (EWrap ("cluster " +:+ id +:+ ": build clients: ") err "")) | Ok cc => PStore id cc end)).
Proof.
  intros Hp (_ & Hcalm & Hb) Hi. pose proof (buildClients_files _ cl _ Hb) as Hr.
  destruct (buildClients _ _ _ _) as [[cc|err] files]; [|subst files; apply files_goto; [cbn; congruence|done|by destruct s]].
  destruct Hi as [Hf Hc].
  assert (Hold : forall x f, owns s x f -> owns (goto p (PStore id cc) (set_files files s)) x f).
  { intros [i|q] f; [done|]. cbn. intros (i & c & Hq & Hx). exists i, c. split; [|done]. rewrite lookup_insert_ne; [done|congruence]. }
  assert (Hnew : forall x f, owns (goto p (PStore id cc) (set_files files s)) x f ->
    owns s x f \/ x = inr p /\ f = cc_kubeconfigPath cc).
  { intros [i|q] f; [by left|]. cbn. intros (i & c & [[<- [= -> ->]]|[_ Hq]]%lookup_insert_Some & Hx); [by right|left; by exists i, c]. }
  split; cbn [rs_files goto set_files].
  - intros f Hin. assert (f ∈ rs_files s \/ f = cc_kubeconfigPath cc /\ f <> "") as [[Hne [x Hx]]%Hf|[-> Hne]]
      by (destruct Hr as [[_ ->]|(? & ? & [[-> _]| ->])]; set_solver); [split; [done|]; exists x; by apply Hold|].
    split; [done|]. exists (inr p), id, cc. split; [apply lookup_insert_eq|done].
  - intros Hcm. destruct (Hc Hcm) as [Hin Hun]. specialize (Hcalm Hcm).
    assert (Hsub : forall f, f ∈ rs_files s -> f ∈ files) by (destruct Hr as [[_ ->]|(_ & _ & [[-> _]| ->])]; set_solver).
    split.
    + intros x f [Hx|[-> ->]]%Hnew Hne; [by eapply Hsub, Hin|]. destruct Hr as [[? _]|(_ & _ & [[_ ?]| ->])]; [done|congruence|set_solver].
    + intros x y f Hx Hy Hne. apply Hnew in Hx, Hy.
      assert (Hfresh : cc_kubeconfigPath cc <> "" -> forall z, owns s z (cc_kubeconfigPath cc) -> False).
      { intros Hn z Hz. apply Hin in Hz; [|done]. by destruct Hr as [[? _]|(_ & ? & _)]. }
      destruct Hx as [Hx|[-> ->]], Hy as [Hy|[-> Ey]]; [by eapply Hun|subst; by destruct (Hfresh Hne x)|by destruct (Hfresh Hne y)|done].
Qed.

Lemma files_store s p id cc : rs_procs s !! p = Some (PStore id cc) -> files_inv s ->
  files_inv (match rs_clients s !! id with
             | Some existing => s |> set_files (cleanupTempKubeconfig cc (rs_files s)) |> goto p (PDone (GotClients existing))
             | None => s |> set_clients (<[id := cc]> (rs_clients s)) |> goto p (PDone (GotClients cc))
             end).
Proof.
  intros Hp Hi. assert (Hgone : forall (procs : gmap nat Pc) q r i c, <[p := PDone r]> procs !! q = Some (PStore i c) -> q <> p /\ procs !! q = Some (PStore i c)).
  { intros procs q r i c [[_ Hx]|[Hne Hq]]%lookup_insert_Some; done. }
  destruct (rs_clients s !! id) as [ex|] eqn:E.
  - eapply (files_drop _ _ (inr p) (cc_kubeconfigPath cc)); [by exists id, cc| |done| |done].
    + intros [i|q] f; cbn; [split; [intros; by split|by intros []]|]. split.
      * intros (i & c & [Hne Hq]%Hgone & Hf). split; [by exists i, c|congruence].
      * intros [(i & c & Hq & Hf) Hne]. exists i, c. by rewrite lookup_insert_ne by congruence.
    + intros f (i & c & Hq & <-). congruence.
  - destruct Hi as [Hf Hc]. set (s' := goto _ _ _).
    (* the goroutine hands its file over to the cache *)
    assert (Hold : forall x f, owns s' x f -> exists y, owns s y f /\ (y = x \/ y = inr p /\ x = inl id)).
    { intros [i|q] f; cbn.
      - intros (c & [[<- <-]|[Hne Hi]]%lookup_insert_Some & Hx); [exists (inr p); split; [by exists id, cc|by right]|].
        exists (inl i). split; [by exists c|by left].
      - intros (i & c & [Hne Hq]%Hgone & Hx). exists (inr q). split; [by exists i, c|by left]. }
    assert (Hnew : forall x f, owns s x f -> exists y, owns s' y f).
    { intros [i|q] f; cbn.
      - intros (c & Hi & Hx). exists (inl i), c. split; [|done]. cbn. rewrite lookup_insert_ne; [done|congruence].
      - intros (i & c & Hq & Hx). destruct (decide (q = p)) as [->|Hne].
        + rewrite Hp in Hq. injection Hq as <- <-. exists (inl id), cc. cbn. by rewrite lookup_insert_eq.
        + exists (inr q), i, c. cbn. by rewrite lookup_insert_ne by congruence. }
    assert (Hnop : forall f, owns s' (inr p) f -> False) by (intros f; cbn; by intros (i & c & [Hne _]%Hgone & _)).
    assert (Hnoid : forall f, owns s (inl id) f -> False) by (intros f (c & Hi & _); congruence).
    split; cbn [rs_files goto set_clients].
    + intros f [Hne [x Hx]]%Hf. split; [done|]. by eapply Hnew.
    + intros Hcm. destruct (Hc Hcm) as [Hin Hun]. split.
      * intros x f (y & Hy & _)%Hold. by eapply Hin.
      * intros x y f Hx Hy Hne. destruct (Hold _ _ Hx) as (x' & Hx' & Ex), (Hold _ _ Hy) as (y' & Hy' & Ey).
        pose proof (Hun _ _ _ Hx' Hy' Hne) as Exy. destruct Ex as [->|[-> ->]], Ey as [->|[-> ->]]; try done.
        -- subst. by destruct (Hnop f).
        -- subst. by destruct (Hnop f).
Qed.

Lemma files_forget s id : files_inv s -> files_inv (forget_client id s).
Proof.
  intros Hi. unfold forget_client. destruct (rs_clients s !! id) as [cc|] eqn:E; [|done].
  eapply (files_drop s _ (inl id) (cc_kubeconfigPath cc)); [by exists cc| |done| |done].
  - intros [i|q] f; cbn; [|split; [intros; by split|by intros []]]. split.
    + intros (c & [Hne Hi']%lookup_delete_Some & Hf). split; [by exists c|congruence].
    + intros [(c & Hi' & Hf) Hne]. exists c. by rewrite lookup_delete_ne by congruence.
  - intros f (c & Hi' & <-). congruence.
Qed.

Lemma elem_close f (m : gmap string ClusterClients) files : f <> "" ->
  f ∈ map_fold (fun _ cc files => cleanupTempKubeconfig cc files) files m <->
  f ∈ files /\ forall id cc, m !! id = Some cc -> cc_kubeconfigPath cc <> f.
Proof.
  intros Hf. revert f Hf. apply (map_fold_weak_ind (fun r m => forall f, f <> "" -> f ∈ r <->
    f ∈ files /\ forall id cc, m !! id = Some cc -> cc_kubeconfigPath cc <> f)).
  - intros f _. split; [|by intros []]. intros Hin. split; [done|]. intros id cc Hx. by rewrite lookup_empty in Hx.
  - intros id cc m' r Hn IH f Hf. unfold cleanupTempKubeconfig. rewrite elem_remove, IH by done. split.
    + intros [[Hin Hm] Hne]. split; [done|]. intros i c [[_ <-]|[_ Hi]]%lookup_insert_Some; [congruence|by eapply Hm].
    + intros [Hin Hm]. split; [split; [done|]|].
      * intros i c Hi. apply (Hm i). rewrite lookup_insert_ne; [done|congruence].
      * intros ->. apply (Hm id cc); [apply lookup_insert_eq|done].
Qed.
Lemma elem_close_in f (m : gmap string ClusterClients) files :
  f ∈ map_fold (fun _ cc files => cleanupTempKubeconfig cc files) files m -> f ∈ files.
Proof.
  apply (map_fold_weak_ind (fun r m => f ∈ r -> f ∈ files)); [done|]. intros id cc m' r Hn IH Hin. apply IH.
  by apply elem_remove_in in Hin.
Qed.
Lemma files_close s : files_inv s -> files_inv (close_all s).
Proof.
  intros [Hf Hc].
  assert (Hown : forall x f, owns (close_all s) x f -> owns s x f /\ exists p, x = inr p)
    by (intros [i|q] f; [intros (c & Hi & _); cbn in Hi; by rewrite lookup_empty in Hi|intros Hq; split; [done|by exists q]]).
  split.
  - intros f Hin. pose proof (elem_close_in _ _ _ Hin) as Hin'. destruct (Hf _ Hin') as [Hne [x Hx]]. split; [done|].
    apply elem_close in Hin as [_ Hm]; [|done]. destruct x as [id|p]; [|by exists (inr p)].
    destruct Hx as (cc & Hi & Hp). by destruct (Hm _ _ Hi).
  - intros Hcm. destruct (Hc Hcm) as [Hin Hun]. split.
    + intros x f [Hx [p ->]]%Hown Hne. apply elem_close; [done|]. split; [by eapply Hin|]. intros id cc Hi E.
      assert (owns s (inl id) f) as Ho by by exists cc. by specialize (Hun _ _ _ Hx Ho Hne).
    + intros x y f [Hx _]%Hown [Hy _]%Hown. by apply Hun.
Qed.

Lemma files_step s s' : registry_step key o ok calm s s' -> files_inv s -> files_inv s'.
Proof.
  intros Hs Hi. destruct Hs as [p c Hp Hc|p e s' He Hrun].
  - apply files_goto; [congruence| |done]. intros i cc. destruct c as [id| |id|id|id|id|id| | |l]; cbn; try done; by destruct (empty id).
  - unfold registry_run in Hrun. destruct (rs_procs s !! p) as [pc|] eqn:Hp; [|done].
    assert (Hset : forall want i id cc, settle want i <> PStore id cc) by (intros want i id cc; unfold settle; destruct want; by destruct (empty i)).
    destruct pc as [id|id|id cl|id cc|want|want|want|want r|id|[|a l]|r]; [..|done].
    + destruct (locked s); [done|]. injection Hrun as <-. apply files_goto; [congruence|by destruct (rs_clients s !! id)|done].
    + injection Hrun as <-. apply files_goto; [congruence|by destruct (find_row _ _ _ _)|done].
    + pose proof (files_build s p id cl e Hp He Hi) as Hb. destruct (buildClients _ _ _ _) as [r files]. by injection Hrun as <-.
    + destruct (locked s); [done|]. pose proof (files_store s p id cc Hp Hi) as Hb. by destruct (rs_clients s !! id); injection Hrun as <-.
    + destruct (locked s); [done|]. injection Hrun as <-. apply files_goto; [congruence|by destruct (rs_defaultResolved s)|done].
    + destruct (locked s); [done|]. destruct (rs_defaultResolved s); injection Hrun as <-.
      * by apply files_goto; [congruence|..].
      * apply files_goto; [cbn; congruence|done|by destruct s].
    + injection Hrun as <-. by apply files_goto; [congruence|..].
    + injection Hrun as <-. unfold found_default. destruct r as [cl|e0]; [|destruct want];
        repeat case_match; apply files_goto; try done; cbn; try congruence; by destruct s.
    + injection Hrun as <-. by apply files_goto; [congruence|..].
    + injection Hrun as <-. by apply files_goto; [congruence|..].
    + destruct a as [ev|id| |]; cbn [handler_step] in Hrun.
      * destruct (if bool_decide _ then _ else _); injection Hrun as <-; apply files_goto; try done; cbn; try congruence; by destruct s.
      * destruct (locked s); [done|]. injection Hrun as <-. apply files_goto; [|done|by apply files_forget].
        intros i cc. unfold forget_client. destruct (rs_clients s !! id); cbn; congruence.
      * destruct (locked s); [done|]. injection Hrun as <-. apply files_goto; [cbn; congruence|done|by destruct s].
      * destruct (locked s); [done|]. injection Hrun as <-. apply files_goto; [cbn; congruence|done|by apply files_close].
Qed.
Lemma files_reachable rows s : rtc (registry_step key o ok calm) (NewRegistry rows) s -> files_inv s.
Proof.
  intros Hs. assert (files_inv (NewRegistry rows)) as Hi.
  { assert (Hno : forall x f, owns (NewRegistry rows) x f -> False).
    { intros [i|p] f; cbn; [intros (c & Hx & _)|intros (i & c & Hx & _)]; by rewrite lookup_empty in Hx. }
    split; [intros f; cbn; set_solver|]. intros _. split; [intros x f Hx; by destruct (Hno x f)|]. intros x y f Hx. by destruct (Hno x f). }
  induction Hs as [|x y z Hxy _ IH]; [done|]. apply IH. by eapply files_step.
Qed.
End files.

(** No kubeconfig file is left behind.  For every interleaving, every temporary kubeconfig
    file on the disk belongs to a cached client or to a goroutine that is about to store
    one, so after a close no file is left once the builds in progress have ended; and as
    long as files can be written, every cached client has its file, and no two clients
    share one. *)
Theorem kubeconfig_files_tracked `{ClusterCrypto} key o ok calm rows s :
  rtc (registry_step key o ok calm) (NewRegistry rows) s ->
  (forall f, f ∈ rs_files s -> f <> "" /\ exists x, owns s x f) /\
  (calm = true -> (forall id cc, rs_clients s !! id = Some cc -> cc_kubeconfigPath cc <> "" -> cc_kubeconfigPath cc ∈ rs_files s) /\
     forall id id' cc cc', rs_clients s !! id = Some cc -> rs_clients s !! id' = Some cc' ->
       cc_kubeconfigPath cc = cc_kubeconfigPath cc' -> cc_kubeconfigPath cc <> "" -> id = id').
Proof.
  intros Hs. destruct (files_reachable key o ok calm rows s Hs) as [Hf Hc]. split; [done|]. intros Hcm.
  destruct (Hc Hcm) as [Hin Hun]. split.
  - intros id cc Hi Hne. apply (Hin (inl id)); [by exists cc|done].
  - intros id id' cc cc' Hi Hi' E Hne. assert (@inl string nat id = inl id') as [= ->]; [|done].
    apply (Hun _ _ (cc_kubeconfigPath cc)); [by exists cc|exists cc'; split; [done|by symmetry]|done].
Qed.

(** ** Progress *)

(** The holder of the mutex looks a default up. *)
Definition holder_inv (s : RegistryState) : Prop := forall q, rs_lock s = Some q ->
  exists w, rs_procs s !! q = Some (PFind w) \/ exists r, rs_procs s !! q = Some (PFound w r).
Definition done_pc (pc : Pc) : bool := match pc with PDone _ => true | _ => false end.

Section progress.
Context `{ClusterCrypto} (key : string) (o : RegistryOptions) (ok : list Action -> bool) (calm : bool).

Lemma holder_goto s p pc : (forall w, rs_procs s !! p <> Some (PFind w)) -> (forall w r, rs_procs s !! p <> Some (PFound w r)) ->
  holder_inv s -> holder_inv (goto p pc s).
Proof.
  intros H1 H2 Hi q Hq. destruct (Hi q Hq) as [w Hw]. exists w. cbn.
  destruct (decide (q = p)) as [->|Hne]; [|by rewrite lookup_insert_ne].
  exfalso. destruct Hw as [Hw|[r Hw]]; [by eapply H1|by eapply H2].
Qed.
Lemma holder_eq s s' : rs_lock s' = rs_lock s -> rs_procs s' = rs_procs s -> holder_inv s -> holder_inv s'.
Proof. intros E1 E2 Hi q. rewrite E1, E2. apply Hi. Qed.
Lemma holder_none s : rs_lock s = None -> holder_inv s.
Proof. intros E q. by rewrite E. Qed.

Lemma holder_step s s' : registry_step key o ok calm s s' -> holder_inv s -> holder_inv s'.
Proof.
  intros Hs Hi. destruct Hs as [p c Hp Hc|p e s' He Hrun]; [apply holder_goto; [congruence..|done]|].
  unfold registry_run in Hrun. destruct (rs_procs s !! p) as [pc|] eqn:Hp; [|done].
  destruct pc as [id|id|id cl|id cc|want|want|want|want r|id|[|a l]|r]; [..|done].
  - destruct (locked s); [done|]. injection Hrun as <-. by apply holder_goto; [congruence..|].
  - injection Hrun as <-. by apply holder_goto; [congruence..|].
  - destruct (buildClients _ _ _ _) as [r files]. injection Hrun as <-. apply holder_goto; [cbn; congruence..|]. by apply (holder_eq s).
  - destruct (locked s); [done|]. destruct (rs_clients s !! id); injection Hrun as <-; (apply holder_goto; [cbn; congruence..|]);
      by apply (holder_eq s).
  - destruct (locked s); [done|]. injection Hrun as <-. by apply holder_goto; [congruence..|].
  - destruct (locked s) eqn:El; [done|]. destruct (rs_defaultResolved s); injection Hrun as <-; [by apply holder_goto; [congruence..|]|].
    intros q [= <-]. exists want. left. cbn. apply lookup_insert_eq.
  - injection Hrun as <-. intros q Hq. cbn in *. destruct (decide (q = p)) as [->|Hne].
    + exists want. right. eexists. apply lookup_insert_eq.
    + destruct (Hi q Hq) as [w Hw]. exists w. by rewrite lookup_insert_ne by congruence.
  - injection Hrun as <-. apply holder_none. unfold found_default. destruct r as [cl|e0]; [done|]. destruct want; by repeat case_match.
  - injection Hrun as <-. by apply holder_goto; [congruence..|].
  - injection Hrun as <-. by apply holder_goto; [congruence..|].
  - destruct a as [ev|id| |]; cbn [handler_step] in Hrun.
    + destruct (if bool_decide _ then _ else _); injection Hrun as <-; (apply holder_goto; [cbn; congruence..|]); by apply (holder_eq s).
    + destruct (locked s); [done|]. injection Hrun as <-.
      apply holder_goto; [unfold forget_client; by destruct (rs_clients s !! id); cbn; congruence..|].
      apply (holder_eq s); unfold forget_client; by destruct (rs_clients s !! id).
    + destruct (locked s); [done|]. injection Hrun as <-. apply holder_goto; [cbn; congruence..|]. by apply (holder_eq s).
    + destruct (locked s); [done|]. injection Hrun as <-. apply holder_goto; [cbn; congruence..|]. by apply (holder_eq s).
Qed.

(** A goroutine that is not done can step, or it waits for the mutex and its holder can
    step: there is no deadlock. *)
Lemma registry_progress rows s p pc e : rtc (registry_step key o ok calm) (NewRegistry rows) s ->
  rs_procs s !! p = Some pc -> done_pc pc = false ->
  is_Some (registry_run key o p e s) \/ exists q, rs_lock s = Some q /\ is_Some (registry_run key o q e s).
Proof.
  intros Hs Hp Hd. assert (holder_inv s) as Hi.
  { assert (holder_inv (NewRegistry rows)) as Hi by by apply holder_none.
    clear Hp Hd. induction Hs as [|x y z Hxy _ IH]; [done|]. apply IH. by eapply holder_step. }
  destruct (rs_lock s) as [q|] eqn:El.
  - right. exists q. split; [done|]. destruct (Hi q El) as [w [Hq|[r Hq]]]; unfold registry_run; rewrite Hq; by eexists.
  - left. unfold registry_run. rewrite Hp. unfold locked. rewrite El. cbn.
    destruct pc as [id|id|id cl|id cc|want|want|want|want r|id|[|a l]|r]; try done; try by eexists.
    + destruct (buildClients _ _ _ _). by eexists.
    + by destruct (rs_clients s !! id); eexists.
    + by destruct (rs_defaultResolved s); eexists.
    + unfold handler_step, locked. rewrite El. destruct a; cbn; try by eexists. by destruct (if bool_decide _ then _ else _); eexists.
Qed.
End progress.

(** ** Runs *)

Inductive Move := MStart (p : nat) (c : RegistryCall) | MRun (p : nat) (e : StepEnv).
Section runs.
Context `{ClusterCrypto} (key : string) (o : RegistryOptions) (ok : list Action -> bool) (calm : bool).

Definition env_check (e : StepEnv) (s : RegistryState) : bool :=
  match se_fault e with Some err => negb (isNotFoundError err) | None => true end &&
  (negb calm || written (se_build e)) &&
  match be_temp (se_build e) with Ok f => bool_decide ((f ∉ rs_files s) /\ f <> "") | Err _ => true end.
Definition move (m : Move) (s : RegistryState) : option RegistryState :=
  match m with
  | MStart p c =>
      If negb (bool_decide (rs_procs s !! p = None) && match c with Handler l => ok l | _ => true end) Return None ;;
      Some (goto p (start_pc c) s)
  | MRun p e => If negb (env_check e s) Return None ;; registry_run key o p e s
  end.
Fixpoint moves (l : list Move) (s : RegistryState) : option RegistryState :=
  match l with
  | [] => Some s
  | m :: l' => match move m s with Some s' => moves l' s' | None => None end
  end.
Lemma move_step m s s' : move m s = Some s' -> registry_step key o ok calm s s'.
Proof.
  destruct m as [p c|p e]; cbn [move]; intros Hm.
  - destruct (negb _) eqn:E; [done|]. injection Hm as <-. apply negb_false_iff, andb_true_iff in E as [Hp%bool_decide_eq_true Hc].
    constructor; [done|]. by destruct c.
  - destruct (negb _) eqn:E; [done|]. apply negb_false_iff in E. unfold env_check in E. apply andb_true_iff in E as [[E1 E2]%andb_true_iff E3].
    eapply step_run; [|done]. split_and!.
    + intros err Hf. rewrite Hf in E1. by apply negb_true_iff in E1.
    + intros ->. done.
    + intros f Hf. rewrite Hf in E3. by apply bool_decide_eq_true in E3.
Qed.
Lemma moves_steps l s s' : moves l s = Some s' -> rtc (registry_step key o ok calm) s s'.
Proof.
  revert s. induction l as [|m l IH]; intros s; cbn; [intros [= <-]; constructor|].
  destruct (move m s) as [s1|] eqn:E; [|done]. intros Hl. econstructor; [by apply move_step in E|by apply IH].
Qed.
End runs.

Section samples.
#[local] Existing Instance sample_crypto.
#[local] Existing Instance sample_lawful.

Definition sample_options : RegistryOptions := mkRegistryOptions [] false "".
Definition sample_second : Cluster :=
  mkCluster 0 0 "c1" "one" "" "https://api" "kube: config" "" "" ClusterHealthy "" "" "" false "" 0 0 false false false false.
Definition sample_rows : ClusterTable := {["c0" := sample_default; "c1" := sample_second]}.
Definition meets (f : res string) : StepEnv := mkStepEnv 5 None (mkBuildEnv false f None None None (fun _ => None)).
Definition run_of (p n : nat) : list Move := repeat (MRun p (meets (Err (ENew "no file")))) n.
Definition build_of (p : nat) (f : string) : list Move := [MRun p (meets (Ok f))].

Lemma sample_rows_inv : default_inv sample_rows.
Proof.
  unfold sample_rows. split.
  - by intros id c [[<- <-]|[_ [<- <-]%lookup_singleton_Some]]%lookup_insert_Some.
  - by intros id id' c c' [[<- <-]|[_ [<- <-]%lookup_singleton_Some]]%lookup_insert_Some
      [[<- <-]|[_ [<- <-]%lookup_singleton_Some]]%lookup_insert_Some.
Defined.

(** The default is resolved, changed and resolved again. *)
Definition change_run : list Move :=
  [MStart 0 (ResolveClusterID "")] ++ run_of 0 4 ++
  [MStart 1 (Handler [Commit (CMarkDefault "c1"); ForgetDefault])] ++ run_of 1 3 ++
  [MStart 2 (ResolveClusterID "")] ++ run_of 2 4.
Definition changed_state : RegistryState :=
  default (NewRegistry ∅) (moves "" sample_options refreshes true change_run (NewRegistry sample_rows)).
Definition replies (s : RegistryState) : list (option Reply) :=
  List.map (fun p => match rs_procs s !! p with Some (PDone r) => Some r | _ => None end) [0; 1; 2]%nat.
Lemma changed_reached : rtc (registry_step "" sample_options refreshes true) (NewRegistry sample_rows) changed_state.
Proof. apply (moves_steps _ _ _ _ change_run). vm_compute. reflexivity. Defined.

Lemma default_change_refreshes_witness :
  List.map changes_default (ew_trace first_world) = [false; true; false] /\
  exists tr, ew_trace first_world = tr ++ [] /\
    (refreshes (actions_of (rev tr)) = true \/
     (exists id, tr = [CRemove id]) /\
       cn_Status (cluster_call sample_key true true (CallCreate (Some (sample_request "one" true))) (sample_world ∅)).1 = 404%Z).
Proof. split; [vm_compute; reflexivity|]. apply (default_change_refreshes sample_key true). done. Defined.

Lemma cached_default_fresh_witness :
  replies changed_state = [Some (GotID "c0"); Some Finished; Some (GotID "c1")] /\
  rs_defaultID changed_state = current_default (rs_rows changed_state).
Proof.
  split; [vm_compute; reflexivity|].
  apply (cached_default_fresh "" sample_options true sample_rows); [apply sample_rows_inv|apply changed_reached|vm_compute; reflexivity|].
  assert (forallb (fun x => negb (is_handler x.2)) (map_to_list (rs_procs changed_state)) = true) as Hno by (vm_compute; reflexivity).
  intros p l Hp. apply elem_of_map_to_list, list_elem_of_In in Hp. by specialize (proj1 (forallb_forall _ _) Hno _ Hp).
Defined.

(** Two goroutines build clients of the same cluster: one file stays. *)
Definition build_run : list Move :=
  [MStart 0 (GetClients "c1"); MStart 1 (GetClients "c1")] ++ run_of 0 2 ++ build_of 0 "a" ++ run_of 1 2 ++ build_of 1 "b" ++
  run_of 0 1 ++ run_of 1 1.
Definition built_state : RegistryState :=
  default (NewRegistry ∅) (moves "" sample_options refreshes false build_run (NewRegistry sample_rows)).
Lemma kubeconfig_files_tracked_witness :
  elements (rs_files built_state) = ["a"] /\ forall f, f ∈ rs_files built_state -> f <> "" /\ exists x, owns built_state x f.
Proof.
  split; [vm_compute; reflexivity|].
  apply (kubeconfig_files_tracked "" sample_options refreshes false sample_rows).
  apply (moves_steps _ _ _ _ build_run). vm_compute. reflexivity.
Defined.

(** A build that read the row before an update stores its clients after the update told
    the registry to forget them: they keep the old kubeconfig. *)
Definition stale_run : list Move :=
  [MStart 0 (GetClients "c0")] ++ run_of 0 2 ++
  [MStart 1 (Handler [Commit (CSave false (cl_set_KubeconfigPath "/new" sample_default)); Forget "c0"])] ++ run_of 1 3 ++
  run_of 0 2 ++ [MStart 2 (GetClients "c0")] ++ run_of 2 1.
Example stale_clients_cached :
  match moves "" sample_options refreshes true stale_run (NewRegistry sample_rows) with
  | Some s => (cl_KubeconfigPath <$> rs_rows s !! "c0", (fun cc => kc_Kubeconfig (cc_K8s cc)) <$> rs_clients s !! "c0",
               List.map (fun r => match r with Some (GotClients cc) => cc_Helm cc | _ => "" end) (replies s))
  | None => (None, None, [])
  end = (Some "/new", Some "/etc/kube", ["/etc/kube"; ""; "/etc/kube"]).
Proof. vm_compute. reflexivity. Qed.

(** The connection test of a cluster removes the kubeconfig file of the Helm client that a
    running operation holds. *)
Definition tested_run : list Move :=
  [MStart 0 (GetHelmExecutor "c1")] ++ run_of 0 2 ++ build_of 0 "a" ++ run_of 0 1 ++ [MStart 1 (InvalidateClient "c1")] ++ run_of 1 2.
Example kubeconfig_removed_in_use :
  match moves "" sample_options refreshes true tested_run (NewRegistry sample_rows) with
  | Some s => (List.map (fun r => match r with Some (GotClients cc) => cc_Helm cc | _ => "" end) (replies s), elements (rs_files s))
  | None => ([], ["none"])
  end = (["a"; ""; ""], []).
Proof. vm_compute. reflexivity. Qed.

(** A change of the default by another replica is not seen. *)
Definition remote_run : list Move :=
  [MStart 0 (ResolveClusterID "")] ++ run_of 0 4 ++
  [MStart 1 (Handler [Commit (CMarkDefault "c1")])] ++ run_of 1 2 ++ [MStart 2 (ResolveClusterID "")] ++ run_of 2 1.
Example remote_default_unseen :
  match moves "" sample_options (fun _ => true) true remote_run (NewRegistry sample_rows) with
  | Some s => (replies s, current_default (rs_rows s))
  | None => ([], "")
  end = ([Some (GotID "c0"); Some Finished; Some (GotID "c0")], "c1").
Proof. vm_compute. reflexivity. Qed.
End samples.
