(* ===== verification/Catalog.v ===== *)
(** * The catalog

    Templates, their charts and versions, stack definitions and their charts: the tables
    and the repositories ([database/stack_template_repository.go],
    [template_chart_config_repository.go], [template_version_repository.go],
    [stack_definition_repository.go], [chart_config_repository.go]).  The requests are in
    [Publishing] and [Definitions].  Creation times are stored for versions only, where
    they order the rows; texts compare byte by byte.  Rows with equal sort keys come in
    the order that the database chooses ([ka_rank]). *)

From S2P Require Import Prelude Models Store World Access Templates Builder Effects.
Local Open Scope string_scope.
Local Open Scope list_scope.

(** ** The tables *)

Record CatalogStore := mkCatalog {
  ct_templates : gmap string StackTemplate;
  ct_tcharts : gmap string TemplateChartConfig;
  ct_versions : gmap string TemplateVersion;
  ct_definitions : gmap string StackDefinition;
  ct_charts : gmap string ChartConfig
}.

Inductive CatalogRow :=
| RTemplate (t : StackTemplate)
| RTChart (c : TemplateChartConfig)
| RVersion (v : TemplateVersion)
| RDefinition (d : StackDefinition)
| RChart (c : ChartConfig).
Inductive CatalogTable := TTemplates | TTCharts | TVersions | TDefinitions | TCharts.
Inductive catalog_event :=
| KInsert (row : CatalogRow)
| KSave (row : CatalogRow)
| KDelete (table : CatalogTable) (id : string)
| KLink (id templateID version : string).

(** What a step answers: an identifier, the order of rows with equal keys, and whether an
    instance of a definition has a status. *)
Record CatalogAnswers := mkCatalogAnswers {
  ka_uuid : string;
  ka_rank : string -> Z;
  ka_instances : string -> string -> res bool
}.
Abbreviation Cat := (Eff CatalogStore catalog_event CatalogAnswers).

(** One table with the model of its rows. *)
Record Table (A : Type) := mkTable {
  tb_name : CatalogTable;
  tb_get : CatalogStore -> gmap string A;
  tb_set : gmap string A -> CatalogStore -> CatalogStore;
  tb_id : A -> string;
  tb_row : A -> CatalogRow
}.
Arguments mkTable {A}. Arguments tb_name {A}. Arguments tb_get {A}. Arguments tb_set {A}.
Arguments tb_id {A}. Arguments tb_row {A}.

Definition stack_templates : Table StackTemplate :=
  mkTable TTemplates ct_templates
    (fun m s => mkCatalog m (ct_tcharts s) (ct_versions s) (ct_definitions s) (ct_charts s)) tm_ID RTemplate.
Definition template_chart_configs : Table TemplateChartConfig :=
  mkTable TTCharts ct_tcharts
    (fun m s => mkCatalog (ct_templates s) m (ct_versions s) (ct_definitions s) (ct_charts s)) tc_ID RTChart.
Definition template_versions : Table TemplateVersion :=
  mkTable TVersions ct_versions
    (fun m s => mkCatalog (ct_templates s) (ct_tcharts s) m (ct_definitions s) (ct_charts s)) tvr_ID RVersion.
Definition stack_definitions : Table StackDefinition :=
  mkTable TDefinitions ct_definitions
    (fun m s => mkCatalog (ct_templates s) (ct_tcharts s) (ct_versions s) m (ct_charts s)) df_ID RDefinition.
Definition chart_configs : Table ChartConfig :=
  mkTable TCharts ct_charts
    (fun m s => mkCatalog (ct_templates s) (ct_tcharts s) (ct_versions s) (ct_definitions s) m) cc_ID RChart.

(** ** The statements *)

Section statements.
Context {A : Type} (T : Table A).

Definition row_insert (row : A) (t : time) (s : CatalogStore) : res Z * CatalogStore :=
  If bool_decide (is_Some (tb_get T s !! tb_id T row)) Return (Err ErrDuplicateKey, s) ;;
  (Ok 1%Z, tb_set T (<[tb_id T row := row]> (tb_get T s)) s).
(** gorm's [Save]: an update of all columns, or an insert when the row is gone. *)
Definition row_save (row : A) (t : time) (s : CatalogStore) : res Z * CatalogStore :=
  (Ok 1%Z, tb_set T (<[tb_id T row := row]> (tb_get T s)) s).
Definition row_delete (id : string) (t : time) (s : CatalogStore) : res Z * CatalogStore :=
  match tb_get T s !! id with
  | None => (Ok 0%Z, s)
  | Some _ => (Ok 1%Z, tb_set T (delete id (tb_get T s)) s)
  end.

(** ** The repositories

    [BaseRepository] ([database/base_repository.go]); the other repositories have methods
    of the same shape. *)

Definition mapped_error (op : string) (r : res Z) : error :=
  match r with
  | Ok _ => None
  | Err e => Some (EDB op (if errorsIs e "ErrDuplicateKey" then ErrDuplicateKey else e))
  end.
(** The text of a driver error does not name the sentinel. *)
Definition errDuplicateEntry : goerr := ENew "Error 1062 (23000): Duplicate entry".
Definition raw_error (op : string) (r : res Z) : error :=
  match r with
  | Ok _ => None
  | Err e => Some (EDB op (if errorsIs e "ErrDuplicateKey" then errDuplicateEntry else e))
  end.

Definition found_row (op : string) (r : res (option A)) : res A :=
  match r with
  | Err e => Err (EDB op e)
  | Ok None => Err (EDB op ErrNotFound)
  | Ok (Some row) => Ok row
  end.
Definition row_FindByID (op id : string) : Cat (res A) :=
  let? r := eread (fun _ s => tb_get T s !! id) in
  eret (found_row op r).
Definition row_Delete (id : string) : Cat error :=
  let? r := ewrite (row_delete id) (KDelete (tb_name T) id) in
  eret (match r with
        | Err e => Some (EDB "delete" e)
        | Ok n => If (n =? 0)%Z Return Some (EDB "delete" ErrNotFound) ;; None
        end).
Definition row_Create (row : A) : Cat error :=
  let? r := ewrite (row_insert row) (KInsert (tb_row T row)) in
  eret (mapped_error "create" r).
Definition row_Save (row : A) : Cat error :=
  let? r := ewrite (row_save row) (KSave (tb_row T row)) in
  eret (mapped_error "update" r).
End statements.

(** The rows that satisfy [p]; those with equal keys in the order of [rank]. *)
Definition rows_where {A} (p : A -> bool) (m : gmap string A) : list A := List.filter p (List.map snd (map_to_list m)).
Definition ranked {A} (rank : string -> Z) (id : A -> string) (less : A -> A -> bool) (l : list A) : list A :=
  sort_less less (sort_less (fun a b => (rank (id a) <? rank (id b))%Z) l).

Section repositories.
(** The allowed chart sources of the configuration. *)
Context (allowed : list string).

Definition set_uuid {A} (id : A -> string) (set_id : string -> A -> A) (row : A) : Cat A :=
  let? uuid := eask ka_uuid in
  eret (if empty (id row) then set_id uuid row else row).

Definition tm_set_ID (v : string) (t : StackTemplate) : StackTemplate :=
  mkTemplate v (tm_Name t) (tm_Description t) (tm_Category t) (tm_DefaultBranch t) (tm_IsPublished t) (tm_Version t) (tm_OwnerID t).
Definition tc_set_ID (v : string) (c : TemplateChartConfig) : TemplateChartConfig :=
  mkTChart v (tc_StackTemplateID c) (tc_ChartName c) (tc_RepositoryURL c) (tc_SourceRepoURL c) (tc_BuildPipelineID c)
    (tc_ChartPath c) (tc_ChartVersion c) (tc_DefaultValues c) (tc_LockedValues c) (tc_DeployOrder c) (tc_Required c).
Definition df_set_ID (v : string) (d : StackDefinition) : StackDefinition :=
  mkDefinition v (df_Name d) (df_Description d) (df_OwnerID d) (df_SourceTemplateID d) (df_SourceTemplateVersion d)
    (df_DefaultBranch d) (df_OwnerInstanceID d).
Definition cc_set_ID (v : string) (c : ChartConfig) : ChartConfig :=
  mkChart v (cc_StackDefinitionID c) (cc_ChartName c) (cc_RepositoryURL c) (cc_SourceRepoURL c) (cc_BuildPipelineID c)
    (cc_ChartPath c) (cc_ChartVersion c) (cc_DefaultValues c) (cc_DeployOrder c).

(** *** Templates *)

(** A [Create] also answers the struct of the caller, which has its identifier. *)
Definition template_Create (t : StackTemplate) : Cat (error * StackTemplate) :=
  let? t := set_uuid tm_ID tm_set_ID t in
  let? e := row_Create stack_templates t in
  eret (e, t).
Definition template_FindByID : string -> Cat (res StackTemplate) := row_FindByID stack_templates "find_by_id".
(** The row lock lasts until the transaction ends; in a transaction the others do not
    show. *)
Definition template_FindByIDForUpdate : string -> Cat (res StackTemplate) :=
  row_FindByID stack_templates "find_by_id_for_update".
Definition template_Update : StackTemplate -> Cat error := row_Save stack_templates.
Definition template_Delete : string -> Cat error := row_Delete stack_templates.
(** The published templates with a name, at most [limit], after their count. *)
Definition published_named (name : string) (t : StackTemplate) : bool :=
  tm_IsPublished t && (empty name || bool_decide (tm_Name t = name)).
Definition ListPublishedPaged (limit : nat) (name : string) : Cat (res (list StackTemplate * Z)) :=
  let? total := eread (fun _ s => Z.of_nat (length (rows_where (published_named name) (ct_templates s)))) in
  match total with
  | Err e => eret (Err (EDB "count_published" e))
  | Ok total =>
      let? rank := eask ka_rank in
      let? r := eread (fun _ s =>
        take limit (ranked rank tm_ID (fun _ _ => false) (rows_where (published_named name) (ct_templates s)))) in
      eret (match r with Err e => Err (EDB "list_published_paged" e) | Ok l => Ok (l, total) end)
  end.

(** *** Template charts *)

Definition invalid (op : string) (e : goerr) : goerr := EDB op (EWrap "" ErrValidation (": " +:+ errText e)).
Definition tchart_Create (c : TemplateChartConfig) : Cat (error * TemplateChartConfig) :=
  match TemplateChartConfig_Validate allowed c with
  | Some e => eret (Some (invalid "create" e), c)
  | None =>
      let? c := set_uuid tc_ID tc_set_ID c in
      let? e := row_Create template_chart_configs c in
      eret (e, c)
  end.
Definition tchart_Update (c : TemplateChartConfig) : Cat error :=
  match TemplateChartConfig_Validate allowed c with
  | Some e => eret (Some (invalid "update" e))
  | None => row_Save template_chart_configs c
  end.
Definition tchart_FindByID : string -> Cat (res TemplateChartConfig) := row_FindByID template_chart_configs "find_by_id".
Definition tchart_Delete : string -> Cat error := row_Delete template_chart_configs.
Definition tcharts_of (rank : string -> Z) (tid : string) (s : CatalogStore) : list TemplateChartConfig :=
  ranked rank tc_ID (fun a b => (tc_DeployOrder a <? tc_DeployOrder b)%Z)
    (rows_where (fun c => bool_decide (tc_StackTemplateID c = tid)) (ct_tcharts s)).
Definition tchart_ListByTemplate (tid : string) : Cat (res (list TemplateChartConfig)) :=
  let? rank := eask ka_rank in
  let? r := eread (fun _ => tcharts_of rank tid) in
  eret (match r with Err e => Err (EDB "list_by_template" e) | Ok l => Ok l end).

(** *** Versions *)

(** The column has milliseconds; the database rounds to the nearest one. *)
Definition stored_time (t : time) : time := ((t + 500000) / 1000000 * 1000000)%Z.
Definition tvr_set_CreatedAt (v : time) (r : TemplateVersion) : TemplateVersion :=
  mkVersion (tvr_ID r) (tvr_TemplateID r) (tvr_Version r) (tvr_Snapshot r) (tvr_ChangeSummary r) (tvr_CreatedBy r) v.
Definition version_Create (v : TemplateVersion) : Cat error :=
  let row := tvr_set_CreatedAt (stored_time (tvr_CreatedAt v)) v in
  let? r := ewrite (row_insert template_versions row) (KInsert (RVersion row)) in
  eret (raw_error "create" r).
(** [created_at DESC, id DESC]. *)
Definition newer (a b : TemplateVersion) : bool :=
  If negb (tvr_CreatedAt a =? tvr_CreatedAt b)%Z Return (tvr_CreatedAt b <? tvr_CreatedAt a)%Z ;;
  String.ltb (tvr_ID b) (tvr_ID a).
Definition versions_of (tid : string) (s : CatalogStore) : list TemplateVersion :=
  sort_less newer (rows_where (fun v => bool_decide (tvr_TemplateID v = tid)) (ct_versions s)).
Definition version_ListByTemplate (tid : string) : Cat (res (list TemplateVersion)) :=
  let? r := eread (fun _ => versions_of tid) in
  eret (match r with Err e => Err (EDB "list" e) | Ok l => Ok l end).
Definition version_GetByID (tid id : string) : Cat (res TemplateVersion) :=
  let? r := eread (fun _ s => head (List.filter (fun v => bool_decide (tvr_ID v = id)) (versions_of tid s))) in
  eret (found_row "find" r).
Definition GetLatestByTemplate (tid : string) : Cat (res TemplateVersion) :=
  let? r := eread (fun _ s => head (versions_of tid s)) in
  eret (found_row "find" r).

(** *** Definitions *)

Definition definition_Create (d : StackDefinition) : Cat (error * StackDefinition) :=
  let? d := set_uuid df_ID df_set_ID d in
  let? e := row_Create stack_definitions d in
  eret (e, d).
Definition definition_FindByID : string -> Cat (res StackDefinition) := row_FindByID stack_definitions "find_by_id".
Definition definitions_named (name : string) (s : CatalogStore) : list StackDefinition :=
  rows_where (fun d => bool_decide (df_Name d = name)) (ct_definitions s).
Definition definition_FindByName (name : string) : Cat (res (list StackDefinition)) :=
  let? r := eread (fun _ => definitions_named name) in
  eret (match r with Err e => Err (EDB "find_by_name" e) | Ok l => Ok l end).
Definition definition_ListByTemplate (tid : string) : Cat (res (list StackDefinition)) :=
  let? r := eread (fun _ s => rows_where (fun d => bool_decide (df_SourceTemplateID d = tid)) (ct_definitions s)) in
  eret (match r with Err e => Err (EDB "list_by_template" e) | Ok l => Ok l end).
Definition df_set_link (tid version : string) (d : StackDefinition) : StackDefinition :=
  mkDefinition (df_ID d) (df_Name d) (df_Description d) (df_OwnerID d) tid version (df_DefaultBranch d) (df_OwnerInstanceID d).
(** The update also sets the time of the row, so it always changes the row when it is there;
    a count of 0 asks again. *)
Definition link_row (id tid version : string) (t : time) (s : CatalogStore) : res Z * CatalogStore :=
  match ct_definitions s !! id with
  | None => (Ok 0%Z, s)
  | Some d => (Ok 1%Z, tb_set stack_definitions (<[id := df_set_link tid version d]> (ct_definitions s)) s)
  end.
Definition SetTemplateLink (id tid version : string) : Cat error :=
  let? r := ewrite (link_row id tid version) (KLink id tid version) in
  match r with
  | Err e => eret (Some (EDB "set_template_link" e))
  | Ok n =>
      If negb (n =? 0)%Z Return eret None ;;
      let? r := eread (fun _ s => bool_decide (is_Some (ct_definitions s !! id))) in
      eret (match r with
            | Err e => Some (EDB "set_template_link" e)
            | Ok there => If there Return None ;; Some (EDB "set_template_link" ErrNotFound)
            end)
  end.
Definition definition_Update (d : StackDefinition) : Cat error :=
  let? r := ewrite (row_save stack_definitions d) (KSave (RDefinition d)) in
  match r with
  | Ok _ => eret None
  | Err e =>
      let? ctx := ectx in
      If bool_decide (is_Some ctx) Return eret (withContextErr ctx "update" (Some e)) ;;
      eret (mapped_error "update" r)
  end.
Definition definition_Delete : string -> Cat error := row_Delete stack_definitions.

(** *** Charts of definitions *)

Definition chart_Create (c : ChartConfig) : Cat (error * ChartConfig) :=
  match ChartConfig_Validate allowed c with
  | Some e => eret (Some (invalid "create" e), c)
  | None =>
      let? c := set_uuid cc_ID cc_set_ID c in
      let? r := ewrite (row_insert chart_configs c) (KInsert (RChart c)) in
      eret (raw_error "create" r, c)
  end.
Definition chart_Update (c : ChartConfig) : Cat error :=
  match ChartConfig_Validate allowed c with
  | Some e => eret (Some (invalid "update" e))
  | None =>
      let? r := ewrite (row_save chart_configs c) (KSave (RChart c)) in
      eret (raw_error "update" r)
  end.
Definition chart_FindByID : string -> Cat (res ChartConfig) := row_FindByID chart_configs "find_by_id".
Definition chart_Delete : string -> Cat error := row_Delete chart_configs.
Definition charts_of (rank : string -> Z) (did : string) (s : CatalogStore) : list ChartConfig :=
  ranked rank cc_ID (fun a b => (cc_DeployOrder a <? cc_DeployOrder b)%Z)
    (rows_where (fun c => bool_decide (cc_StackDefinitionID c = did)) (ct_charts s)).
Definition ListByDefinition (did : string) : Cat (res (list ChartConfig)) :=
  let? rank := eask ka_rank in
  let? r := eread (fun _ => charts_of rank did) in
  eret (match r with Err e => Err (EDB "list_by_definition" e) | Ok l => Ok l end).

(** [RunInTx] ([database/tx_runner.go]). *)
Definition RunInTx {A} (none : A) (body : Cat (error * A)) : Cat (error * A) :=
  let? r := etransaction none body in
  let? ctx := ectx in
  eret (withContextErr ctx "transaction" r.1, r.2).

(** ** Releases

    [latestTemplateRelease] and its users read the repositories: the working copy only for
    a snapshot of the old format. *)

Context `{SnapshotJSON} (versioned : bool).

Definition is_legacy (v : TemplateVersion) : bool :=
  match snapshot_Unmarshal (tvr_Snapshot v) with Ok s => (ts_SchemaVersion s <? 1)%Z | Err _ => false end.
Definition read_release {A} (use : option (res TemplateVersion) -> option (res (list TemplateChartConfig)) -> A)
    (tid : string) : Cat A :=
  If negb versioned Return eret (use None (Some (Ok []))) ;;
  let? latest := GetLatestByTemplate tid in
  match latest with
  | Ok v =>
      If negb (is_legacy v) Return eret (use (Some latest) (Some (Ok []))) ;;
      let? working := tchart_ListByTemplate tid in
      eret (use (Some latest) (Some working))
  | Err _ => eret (use (Some latest) (Some (Ok [])))
  end.
Definition read_latestTemplateRelease (tid : string) : Cat (res templateRelease) :=
  read_release (fun v w => latestTemplateRelease v w tid) tid.
Definition read_usableTemplateRelease (tmpl : StackTemplate) : Cat (res templateRelease) :=
  If negb (tm_IsPublished tmpl) Return eret (Err errNoPublishedVersion) ;;
  read_latestTemplateRelease (tm_ID tmpl).
(** Without a release, the working copy. *)
Definition read_releasedTemplateCharts (tid : string) : Cat (res (list TemplateChartConfig)) :=
  let? release := read_latestTemplateRelease tid in
  match release with
  | Ok release => eret (Ok (tr_Charts release))
  | Err e =>
      If negb (errorsIs e "errNoPublishedVersion") Return eret (Err e) ;;
      tchart_ListByTemplate tid
  end.
End repositories.
