(* ===== verification/Diffs.v ===== *)
(** * Differences of charts

    The comparison of two snapshots ([api/handlers/template_versions.go]) and of a
    definition with its template ([upgradeChartDiffs], [upgradeTargetChart] of
    [api/handlers/stack_definitions.go]), as pure functions, with what the entries of a
    comparison say. *)

From S2P Require Import Prelude Models Templates Builder.
Local Open Scope string_scope.
Local Open Scope list_scope.

(** ** Entries

    [de_Left] and [de_Right] hold the fields [Left..] and [Right..] of an entry; without a
    chart on that side they are all empty. *)

Record chartDiffEntry := mkDiff {
  de_ChartName : string;
  de_Left : option TemplateChartSnapshotData;
  de_Right : option TemplateChartSnapshotData;
  de_HasDifferences : bool;
  de_ChangeType : string
}.
(** The fields of a chart that an entry has: all but its identifier. *)
Definition diff_side (c : TemplateChartSnapshotData) : TemplateChartSnapshotData :=
  mkChartSnapshot (sc_ChartName c) (sc_RepoURL c) (sc_DefaultValues c) (sc_LockedValues c) (sc_IsRequired c) (sc_SortOrder c)
    "" (sc_SourceRepoURL c) (sc_BuildPipelineID c) (sc_ChartPath c) (sc_ChartVersion c).
Definition chart_names (l : list TemplateChartSnapshotData) : list string := List.map sc_ChartName l.
(** Of two charts with one name the last one stays. *)
Definition snapshot_by_name (l : list TemplateChartSnapshotData) : gmap string TemplateChartSnapshotData :=
  fold_left (fun m c => <[sc_ChartName c := c]> m) l ∅.

Definition chart_differs (compareSource : bool) (ch rch : TemplateChartSnapshotData) : bool :=
  negb (bool_decide (NormalizeValues (sc_DefaultValues ch) = NormalizeValues (sc_DefaultValues rch))) ||
  negb (bool_decide (NormalizeValues (sc_LockedValues ch) = NormalizeValues (sc_LockedValues rch))) ||
  negb (bool_decide (sc_RepoURL ch = sc_RepoURL rch)) ||
  negb (Bool.eqb (sc_IsRequired ch) (sc_IsRequired rch)) ||
  negb (sc_SortOrder ch =? sc_SortOrder rch)%Z ||
  (compareSource &&
   (negb (bool_decide (sc_ChartVersion ch = sc_ChartVersion rch)) || negb (bool_decide (sc_ChartPath ch = sc_ChartPath rch)) ||
    negb (bool_decide (sc_SourceRepoURL ch = sc_SourceRepoURL rch)) ||
    negb (bool_decide (sc_BuildPipelineID ch = sc_BuildPipelineID rch)))).

Definition left_entry (compareSource : bool) (rightMap : gmap string TemplateChartSnapshotData)
    (ch : TemplateChartSnapshotData) : chartDiffEntry :=
  match rightMap !! sc_ChartName ch with
  | None => mkDiff (sc_ChartName ch) (Some (diff_side ch)) None true "removed"
  | Some rch =>
      let hasDiff := chart_differs compareSource ch rch in
      mkDiff (sc_ChartName ch) (Some (diff_side ch)) (Some (diff_side rch)) hasDiff (if hasDiff then "modified" else "unchanged")
  end.
Definition added_entry (ch : TemplateChartSnapshotData) : chartDiffEntry :=
  mkDiff (sc_ChartName ch) None (Some (diff_side ch)) true "added".
Definition diff_less (a b : chartDiffEntry) : bool := String.ltb (de_ChartName a) (de_ChartName b).

Definition computeChartDiffs (leftCharts rightCharts : list TemplateChartSnapshotData) (compareSource : bool)
    : list chartDiffEntry :=
  let rightMap := snapshot_by_name rightCharts in
  let unseen ch := negb (bool_decide (sc_ChartName ch ∈ chart_names leftCharts)) in
  sort_less diff_less
    (List.map (left_entry compareSource rightMap) leftCharts ++ List.map added_entry (List.filter unseen rightCharts)).

Record templateFieldDiff := mkFieldDiff { fd_Field : string; fd_Left : string; fd_Right : string }.
Definition computeTemplateFieldDiffs (left right : TemplateSnapshotData) : list templateFieldDiff :=
  List.filter (fun d => negb (bool_decide (fd_Left d = fd_Right d)))
    [mkFieldDiff "name" (sd_Name left) (sd_Name right);
     mkFieldDiff "description" (sd_Description left) (sd_Description right);
     mkFieldDiff "category" (sd_Category left) (sd_Category right);
     mkFieldDiff "default_branch" (sd_DefaultBranch left) (sd_DefaultBranch right);
     mkFieldDiff "version" (sd_Version left) (sd_Version right)].

(** ** Upgrades *)

Definition upgradeDiffChart (ch : ChartConfig) (locked : string) (required : bool) : TemplateChartSnapshotData :=
  mkChartSnapshot (cc_ChartName ch) (cc_RepositoryURL ch) (cc_DefaultValues ch) locked required (cc_DeployOrder ch) ""
    (cc_SourceRepoURL ch) (cc_BuildPipelineID ch) (cc_ChartPath ch) (cc_ChartVersion ch).
Definition or_keep (new old : string) : string := if empty new then old else new.
Definition upgradeTargetChart (existing : ChartConfig) (tch : TemplateChartConfig) : ChartConfig :=
  mkChart (cc_ID existing) (cc_StackDefinitionID existing) (tc_ChartName tch) (tc_RepositoryURL tch)
    (or_keep (tc_SourceRepoURL tch) (cc_SourceRepoURL existing)) (or_keep (tc_BuildPipelineID tch) (cc_BuildPipelineID existing))
    (or_keep (tc_ChartPath tch) (cc_ChartPath existing)) (or_keep (tc_ChartVersion tch) (cc_ChartVersion existing))
    (tc_DefaultValues tch) (tc_DeployOrder tch).
Definition zero_chart : ChartConfig := mkChart "" "" "" "" "" "" "" "" "" 0.

Definition current_by_name (l : list ChartConfig) : gmap string ChartConfig :=
  fold_left (fun m c => <[cc_ChartName c := c]> m) l ∅.

(** The charts of the first snapshot with the version of the definition. *)
Definition source_charts `{SnapshotJSON} (version : string) (versions : res (list TemplateVersion))
    : gmap string TemplateChartSnapshotData :=
  match versions with
  | Err _ => ∅
  | Ok versions =>
      match head (List.filter (fun v => bool_decide (tvr_Version v = version)) versions) with
      | None => ∅
      | Some v => match snapshot_Unmarshal (tvr_Snapshot v) with Ok snap => snapshot_by_name (ts_Charts snap) | Err _ => ∅ end
      end
  end.
Definition upgrade_left (sourceCharts : gmap string TemplateChartSnapshotData) (targetCharts : gmap string TemplateChartConfig)
    (ch : ChartConfig) : TemplateChartSnapshotData :=
  match sourceCharts !! cc_ChartName ch with
  | Some src => upgradeDiffChart ch (sc_LockedValues src) (sc_IsRequired src)
  | None =>
      match targetCharts !! cc_ChartName ch with
      | Some tch => upgradeDiffChart ch (tc_LockedValues tch) (tc_Required tch)
      | None => upgradeDiffChart ch "" false
      end
  end.
Definition upgrade_right (currentByName : gmap string ChartConfig) (tch : TemplateChartConfig) : TemplateChartSnapshotData :=
  upgradeDiffChart (upgradeTargetChart (default zero_chart (currentByName !! tc_ChartName tch)) tch)
    (tc_LockedValues tch) (tc_Required tch).
Definition upgradeChartDiffs (sourceCharts : gmap string TemplateChartSnapshotData) (current : list ChartConfig)
    (target : list TemplateChartConfig) : list chartDiffEntry :=
  computeChartDiffs (List.map (upgrade_left sourceCharts (by_name target)) current)
    (List.map (upgrade_right (current_by_name current)) target) true.

Record upgradeChanges := mkChanges {
  ug_Added : list string;
  ug_Removed : list string;
  ug_Modified : list string;
  ug_Unchanged : list string
}.
Definition upgradeChangesFromDiffs (diffs : list chartDiffEntry) : upgradeChanges :=
  let names p := List.map de_ChartName (List.filter (fun d => p (de_ChangeType d)) diffs) in
  mkChanges (names (String.eqb "added")) (names (String.eqb "removed")) (names (String.eqb "modified"))
    (names (fun t => negb (String.eqb "added" t || String.eqb "removed" t || String.eqb "modified" t))).
