(* ===== verification/Definitions.v ===== *)
(** * Stack definitions

    The requests on stack definitions and their charts ([api/handlers/stack_definitions.go],
    [definition_names.go], [definition_template_link.go], [chart_configs.go]).  The names of
    owners, the chart counts and the times of a response are left out.  The YAML library is
    a class, and so is the wording of its errors. *)

From S2P Require Import Prelude Decimals Models Store World Access Templates Builder Values Effects Catalog Diffs.
Local Open Scope string_scope.
Local Open Scope list_scope.

(** ** Answers *)

Record SourceTemplateExportData := mkSourceExport { se_ID : string; se_Name : string; se_Version : string }.
Record ChartConfigExportData := mkChartExport {
  xc_ChartName : string;
  xc_RepositoryURL : string;
  xc_SourceRepoURL : string;
  xc_BuildPipelineID : string;
  xc_ChartPath : string;
  xc_ChartVersion : string;
  xc_DefaultValues : string;
  xc_DeployOrder : Z
}.
Record DefinitionExportBundle := mkBundle {
  xb_SchemaVersion : string;
  xb_SourceTemplate : option SourceTemplateExportData;
  xb_Name : string;
  xb_Description : string;
  xb_DefaultBranch : string;
  xb_Charts : list ChartConfigExportData
}.
Record upgradeCheckResponse := mkUpgradeCheck {
  uc_UpgradeAvailable : bool;
  uc_CurrentVersion : string;
  uc_LatestVersion : string;
  uc_Reason : string;
  uc_Changes : option upgradeChanges;
  uc_ChartDiffs : list chartDiffEntry
}.
Record TemplateDetail := mkDetail {
  td_Template : StackTemplate;
  td_Charts : list TemplateChartConfig;
  td_PublishedVersion : option string;
  td_PublishedVersionID : option string;
  td_HasUnpublishedChanges : bool;
  td_PublishedCharts : option (list TemplateChartConfig)
}.
Record versionDiffSide := mkDiffSide {
  vs_ID : string;
  vs_Version : string;
  vs_ChangeSummary : string;
  vs_CreatedBy : string;
  vs_IsWorkingCopy : bool;
  vs_Snapshot : TemplateSnapshot
}.
Record BulkTemplateResultItem := mkBulkItem { bi_TemplateID : string; bi_TemplateName : string; bi_Error : option string }.

Inductive CatalogBody :=
| KBError (message : string)
| KBTemplate (t : StackTemplate)
| KBDetail (d : TemplateDetail)
| KBPublished (t : StackTemplate) (version versionID : string) (created : bool)
| KBTChart (c : TemplateChartConfig)
| KBVersions (l : list TemplateVersion)
| KBVersion (v : TemplateVersion) (snapshot : TemplateSnapshot)
| KBDiff (left right : versionDiffSide) (fields : list templateFieldDiff) (charts : list chartDiffEntry)
| KBBulk (total succeeded failed : Z) (results : list BulkTemplateResultItem)
| KBDefinition (d : StackDefinition)
| KBDefinitionCharts (d : StackDefinition) (charts : list ChartConfig) (warnings : list string)
| KBChart (c : ChartConfig)
| KBBundle (b : DefinitionExportBundle)
| KBUpgrade (u : upgradeCheckResponse)
| KBEmpty.
Record CatalogAnswer := mkCatalogAnswer { kn_Status : Z; kn_Body : CatalogBody }.
Definition catalog_error (status : Z) (message : string) : CatalogAnswer := mkCatalogAnswer status (KBError message).
Definition catalog_mapped (entity : string) (e : goerr) : CatalogAnswer :=
  let '(c, m) := mapError e entity in catalog_error c m.
Definition catalog_internal (e : goerr) : CatalogAnswer :=
  match cancelledRequestError e with
  | Some (c, m) => catalog_error c m
  | None => catalog_error 500 msgInternalServerError
  end.

Definition entityChartConfig := "Chart config".
Definition entityTemplate := "Template".

(** ** Rules *)

Definition requireDefinitionModify (c : Caller) (def : StackDefinition) : bool :=
  isPrivilegedRole c || (negb (empty (df_OwnerID def)) && bool_decide (df_OwnerID def = ca_UserID c)).
Definition msgDefinitionModifyForbidden := "Only the owner, devops or admin users can change this definition".
Definition msgDefinitionIDRequired := "Definition ID is required".
Definition msgChartSourceForbidden := "Only devops and admin users can change the chart name, repository, path or version".
Definition supportedSchemaVersions : list string := ["1.0"].

Definition StackDefinition_Validate (d : StackDefinition) : error :=
  If empty (df_Name d) Return errorsNew "name is required" ;;
  If empty (df_OwnerID d) Return errorsNew "owner_id is required" ;;
  None.

(** The text of a YAML error for the user ([describeYAMLError] rewords the message of the
    library). *)
Class YamlProblem := values_problem : string -> goerr -> string.

Section values.
Context `{Yaml} `{YamlProblem}.
Definition ValidateValues (s : string) : error :=
  match parseYAML s with
  | Ok _ => None
  | Err e => errorsNew (values_problem s e)
  end.
Definition validateChartValues (field chartName value : string) : error :=
  match ValidateValues value with
  | None => None
  | Some e =>
      errorsNew ("Invalid YAML in " +:+ (if empty chartName then "" else "chart " +:+ quote chartName +:+ " ") +:+ field +:+
                 ": " +:+ errText e)
  end.
End values.

(** *** Names *)

Definition maxDefinitionNameAttempts : nat := 100.
Definition errNoFreeDefinitionName := ESent "errNoFreeDefinitionName" "no free definition name".
Definition taken_by (ownerID excludeID : string) (defs : list StackDefinition) : bool :=
  existsb (fun d => bool_decide (df_OwnerID d = ownerID) && negb (bool_decide (df_ID d = excludeID))) defs.
Definition definitionNameTaken (ownerID name excludeID : string) : Cat (res bool) :=
  let? r := definition_FindByName name in
  eret (match r with Err e => Err e | Ok defs => Ok (taken_by ownerID excludeID defs) end).
Fixpoint first_free (left : nat) (n : Z) (ownerID : string) (candidate : Z -> string) : Cat (res string) :=
  match left with
  | O => eret (Err errNoFreeDefinitionName)
  | S left' =>
      let? taken := definitionNameTaken ownerID (candidate n) "" in
      match taken with
      | Err e => eret (Err e)
      | Ok true => first_free left' (n + 1) ownerID candidate
      | Ok false => eret (Ok (candidate n))
      end
  end.
Definition uniqueDefinitionName : string -> (Z -> string) -> Cat (res string) := first_free maxDefinitionNameAttempts 1.
Definition importedDefinitionName (base : string) (n : Z) : string :=
  If (n =? 1)%Z Return base ;;
  If (n =? 2)%Z Return base +:+ " (imported)" ;;
  base +:+ " (imported " +:+ itoa (n - 1) +:+ ")".
Definition numberedDefinitionName (base : string) (n : Z) : string :=
  If (n =? 1)%Z Return base ;;
  base +:+ " (" +:+ itoa n +:+ ")".
Definition msgNameTaken (name : string) : string :=
  "A stack definition named " +:+ quote name +:+ " already exists for this owner".
Definition respondDefinitionNameTaken (ownerID name excludeID : string) : Cat (option CatalogAnswer) :=
  let? taken := definitionNameTaken ownerID name excludeID in
  eret (match taken with
        | Err e => Some (catalog_mapped entityStackDefinition e)
        | Ok true => Some (catalog_error 409 (msgNameTaken name))
        | Ok false => None
        end).

(** ** The handlers *)

Section handlers.
Context `{SnapshotJSON} `{Yaml} `{YamlProblem}.
(** The allowed chart sources; whether there is a version repository and a transaction
    runner. *)
Context (allowed : list string) (versioned hasTx : bool).

Definition df_set_owner (id ownerID branch ownerInstance : string) (d : StackDefinition) : StackDefinition :=
  mkDefinition id (df_Name d) (df_Description d) ownerID (df_SourceTemplateID d) (df_SourceTemplateVersion d) branch ownerInstance.
Definition or_master (branch : string) : string := if empty branch then "master" else branch.

Definition CreateDefinition (c : Caller) (body : option StackDefinition) : Cat CatalogAnswer :=
  match body with
  | None => eret (catalog_error 400 msgInvalidRequestFormat)
  | Some def =>
      let? uuid := eask ka_uuid in
      let def := df_set_owner uuid (ca_UserID c) (or_master (df_DefaultBranch def)) (df_OwnerInstanceID def) def in
      match StackDefinition_Validate def with
      | Some e => eret (catalog_error 400 (errText e))
      | None =>
          let def := df_set_owner (df_ID def) (df_OwnerID def) (df_DefaultBranch def) "" def in
          let? taken := respondDefinitionNameTaken (df_OwnerID def) (df_Name def) "" in
          match taken with
          | Some a => eret a
          | None =>
              let? r := definition_Create def in
              eret (match r with
                    | (Some e, _) => catalog_mapped entityStackDefinition e
                    | (None, def) => mkCatalogAnswer 201 (KBDefinition def)
                    end)
          end
      end
  end.

Definition GetDefinition (id : string) : Cat CatalogAnswer :=
  If empty id Return eret (catalog_error 400 msgDefinitionIDRequired) ;;
  let? def := definition_FindByID id in
  match def with
  | Err e => eret (catalog_mapped entityStackDefinition e)
  | Ok def =>
      let? charts := ListByDefinition id in
      eret (match charts with
            | Err e => catalog_mapped entityChartConfigs e
            | Ok charts => mkCatalogAnswer 200 (KBDefinitionCharts def charts [])
            end)
  end.

(** The definition that the caller may change, or the answer. *)
Definition modifiable (c : Caller) (id : string) : Cat (StackDefinition + CatalogAnswer) :=
  let? def := definition_FindByID id in
  eret (match def with
        | Err e => inr (catalog_mapped entityStackDefinition e)
        | Ok def =>
            If negb (requireDefinitionModify c def) Return inr (catalog_error 403 msgDefinitionModifyForbidden) ;;
            inl def
        end).

Definition updated_definition (update existing : StackDefinition) : StackDefinition :=
  mkDefinition (df_ID existing) (df_Name update) (df_Description update) (df_OwnerID existing) (df_SourceTemplateID existing)
    (df_SourceTemplateVersion existing) (df_DefaultBranch update) (df_OwnerInstanceID existing).
Definition save_definition (def : StackDefinition) : Cat CatalogAnswer :=
  match StackDefinition_Validate def with
  | Some e => eret (catalog_error 400 (errText e))
  | None =>
      let? e := definition_Update def in
      eret (match e with
            | Some e => catalog_mapped entityStackDefinition e
            | None => mkCatalogAnswer 200 (KBDefinition def)
            end)
  end.
Definition UpdateDefinition (c : Caller) (id : string) (body : option StackDefinition) : Cat CatalogAnswer :=
  If empty id Return eret (catalog_error 400 msgDefinitionIDRequired) ;;
  let? r := modifiable c id in
  match r, body with
  | inr a, _ => eret a
  | inl _, None => eret (catalog_error 400 msgInvalidRequestFormat)
  | inl existing, Some update =>
      If bool_decide (df_Name update = df_Name existing) || empty (df_Name update) Return
        save_definition (updated_definition update existing) ;;
      let? taken := respondDefinitionNameTaken (df_OwnerID existing) (df_Name update) (df_ID existing) in
      match taken with
      | Some a => eret a
      | None => save_definition (updated_definition update existing)
      end
  end.

Definition msgRunningInstances := "Cannot delete definition: running instances exist".
Fixpoint instances_block (id : string) (statuses : list string) : Cat (option CatalogAnswer) :=
  match statuses with
  | [] => eret None
  | status :: statuses' =>
      let? r := eask (fun a => ka_instances a id status) in
      match r with
      | Err e => eret (Some (catalog_internal e))
      | Ok true => eret (Some (catalog_error 409 msgRunningInstances))
      | Ok false => instances_block id statuses'
      end
  end.
Definition DeleteDefinition (c : Caller) (id : string) : Cat CatalogAnswer :=
  If empty id Return eret (catalog_error 400 msgDefinitionIDRequired) ;;
  let? r := modifiable c id in
  match r with
  | inr a => eret a
  | inl _ =>
      let? blocked := instances_block id [StackStatusRunning; StackStatusDeploying] in
      match blocked with
      | Some a => eret a
      | None =>
          let? e := definition_Delete id in
          eret (match e with
                | Some e => catalog_mapped entityStackDefinition e
                | None => mkCatalogAnswer 204 KBEmpty
                end)
      end
  end.

(** *** Export and import *)

Definition export_chart (ch : ChartConfig) : ChartConfigExportData :=
  mkChartExport (cc_ChartName ch) (cc_RepositoryURL ch) (cc_SourceRepoURL ch) (cc_BuildPipelineID ch) (cc_ChartPath ch)
    (cc_ChartVersion ch) (cc_DefaultValues ch) (cc_DeployOrder ch).
Definition export_source (def : StackDefinition) : Cat (option SourceTemplateExportData) :=
  If empty (df_SourceTemplateID def) Return eret None ;;
  let? tmpl := template_FindByID (df_SourceTemplateID def) in
  eret (Some (mkSourceExport (df_SourceTemplateID def) (match tmpl with Ok t => tm_Name t | Err _ => "" end)
                (df_SourceTemplateVersion def))).
Definition ExportDefinition (id : string) : Cat CatalogAnswer :=
  If empty id Return eret (catalog_error 400 msgDefinitionIDRequired) ;;
  let? def := definition_FindByID id in
  match def with
  | Err e => eret (catalog_mapped entityStackDefinition e)
  | Ok def =>
      let? charts := ListByDefinition id in
      match charts with
      | Err e => eret (catalog_mapped entityChartConfigs e)
      | Ok charts =>
          let? src := export_source def in
          eret (mkCatalogAnswer 200 (KBBundle
            (mkBundle "1.0" src (df_Name def) (df_Description def) (df_DefaultBranch def) (List.map export_chart charts))))
      end
  end.

(** A link to a template, a refusal of it ([templateLinkError]), or another error. *)
Inductive LinkResult :=
| Linked (tmpl : StackTemplate) (version : string)
| LinkRefused (status : Z) (message : string)
| LinkFailed (e : goerr).
Definition resolveTemplateLink (templateID version : string) : Cat LinkResult :=
  let? tmpl := template_FindByID templateID in
  match tmpl with
  | Err e =>
      If isNotFoundError e Return eret (LinkRefused 404 "Template not found") ;;
      eret (LinkFailed (EWrap "find template: " e ""))
  | Ok tmpl =>
      If negb (tm_IsPublished tmpl) || negb versioned Return eret (LinkRefused 409 msgNoPublishedVersion) ;;
      If empty version Return (
        let? latest := GetLatestByTemplate (tm_ID tmpl) in
        eret (match latest with
              | Err e =>
                  If isNotFoundError e Return LinkRefused 409 msgNoPublishedVersion ;;
                  LinkFailed (EWrap "get latest template version: " e "")
              | Ok v => Linked tmpl (tvr_Version v)
              end)) ;;
      let? versions := version_ListByTemplate (tm_ID tmpl) in
      eret (match versions with
            | Err e => LinkFailed (EWrap "list template versions: " e "")
            | Ok versions =>
                If existsb (fun v => bool_decide (tvr_Version v = version)) versions Return Linked tmpl version ;;
                LinkRefused 400 ("Version " +:+ quote version +:+ " is not a published version of template " +:+ quote (tm_Name tmpl))
            end)
  end.

Definition unchecked_warning (label : string) : string :=
  "The source template " +:+ quote label +:+ " could not be checked; the definition is not linked".
(** The template that an import names: by its identifier, else by its name. *)
Definition import_template (id name label : string) : Cat (string + string) :=
  let? by_id := if empty id then eret (Ok "") else
    (let? r := template_FindByID id in
     eret (match r with
           | Ok _ => Ok id
           | Err e => If isNotFoundError e Return Ok "" ;; Err e
           end)) in
  match by_id with
  | Err _ => eret (inr (unchecked_warning label))
  | Ok templateID =>
      If negb (empty templateID) || empty name Return eret (inl templateID) ;;
      let? matches := ListPublishedPaged 2 name in
      eret (match matches with
            | Err _ => inr (unchecked_warning label)
            | Ok ([], _) => inl ""
            | Ok ([t], _) => inl (tm_ID t)
            | Ok (_, _) => inr ("More than one template is named " +:+ quote name +:+ "; the definition is not linked")
            end)
  end.
(** The template and version to store, and a warning. *)
Definition importTemplateLink (src : option SourceTemplateExportData) : Cat (string * string * string) :=
  match src with
  | None => eret ("", "", "")
  | Some src =>
      let id := TrimSpace (se_ID src) in
      let name := TrimSpace (se_Name src) in
      let version := TrimSpace (se_Version src) in
      If empty id && empty name Return eret ("", "", "") ;;
      let label := if empty name then id else name in
      let? t := import_template id name label in
      match t with
      | inr warning => eret ("", "", warning)
      | inl templateID =>
          If empty templateID Return
            eret ("", "", "The source template " +:+ quote label +:+ " does not exist; the definition is not linked") ;;
          let? link := resolveTemplateLink templateID version in
          eret (match link with
                | Linked tmpl resolved => (tm_ID tmpl, resolved, "")
                | LinkRefused _ message => ("", "", "The definition is not linked to template " +:+ quote label +:+ ": " +:+ message)
                | LinkFailed _ => ("", "", unchecked_warning label)
                end)
      end
  end.

Fixpoint invalid_bundle_chart (l : list ChartConfigExportData) : option string :=
  match l with
  | [] => None
  | ch :: l' =>
      If empty (xc_ChartName ch) Return Some "chart_name is required for all charts" ;;
      match validateChartValues "default_values" (xc_ChartName ch) (xc_DefaultValues ch) with
      | Some e => Some (errText e)
      | None => invalid_bundle_chart l'
      end
  end.
Definition imported_chart (uuid did : string) (ch : ChartConfigExportData) : ChartConfig :=
  mkChart uuid did (xc_ChartName ch) (xc_RepositoryURL ch) (xc_SourceRepoURL ch) (xc_BuildPipelineID ch) (xc_ChartPath ch)
    (xc_ChartVersion ch) (xc_DefaultValues ch) (xc_DeployOrder ch).
(** Each element with a fresh identifier. *)
Fixpoint with_uuids {A B} (f : string -> A -> B) (l : list A) : Cat (list B) :=
  match l with
  | [] => eret []
  | x :: l' =>
      let? uuid := eask ka_uuid in
      let? ys := with_uuids f l' in
      eret (f uuid x :: ys)
  end.
Fixpoint create_charts (l : list ChartConfig) : Cat (error * list ChartConfig) :=
  match l with
  | [] => eret (None, [])
  | ch :: l' =>
      let? r := chart_Create allowed ch in
      match r with
      | (Some e, _) => eret (Some e, [])
      | (None, ch) => let? r := create_charts l' in eret (r.1, ch :: r.2)
      end
  end.
(** The definition and its charts in one transaction. *)
Definition create_definition_tx (def : StackDefinition) (charts : list ChartConfig)
    : Cat (error * (StackDefinition * list ChartConfig)) :=
  RunInTx (def, []) (
    let? r := definition_Create def in
    match r with
    | (Some e, def) => eret (Some e, (def, []))
    | (None, def) => let? r := create_charts charts in eret (r.1, (def, r.2))
    end).

Definition bundle_problem (bundle : DefinitionExportBundle) : option string :=
  If empty (xb_SchemaVersion bundle) Return Some "schema_version is required" ;;
  If negb (bool_decide (xb_SchemaVersion bundle ∈ supportedSchemaVersions)) Return
    Some ("unsupported schema_version: " +:+ xb_SchemaVersion bundle) ;;
  If empty (xb_Name bundle) Return Some "definition name is required" ;;
  invalid_bundle_chart (xb_Charts bundle).
Definition import_bundle (c : Caller) (bundle : DefinitionExportBundle) (def : StackDefinition) : Cat CatalogAnswer :=
  let? link := importTemplateLink (xb_SourceTemplate bundle) in
  let '(templateID, templateVersion, warning) := link in
  let def := df_set_link templateID templateVersion def in
  let warnings := if empty warning then [] else [warning] in
  let? name := uniqueDefinitionName (df_OwnerID def) (importedDefinitionName (df_Name def)) in
  match name with
  | Err e =>
      If errorsIs e "errNoFreeDefinitionName" Return eret (catalog_error 409 (msgNameTaken (df_Name def))) ;;
      eret (catalog_mapped entityStackDefinition e)
  | Ok name =>
      let def := updated_definition (mkDefinition "" name (df_Description def) "" "" "" (df_DefaultBranch def) "") def in
      let? charts := with_uuids (fun uuid => imported_chart uuid (df_ID def)) (xb_Charts bundle) in
      If negb hasTx Return eret (catalog_error 500 msgInternalServerError) ;;
      let? r := create_definition_tx def charts in
      eret (match r with
            | (Some e, _) => catalog_mapped entityStackDefinition e
            | (None, (def, created)) => mkCatalogAnswer 201 (KBDefinitionCharts def created warnings)
            end)
  end.
Definition ImportDefinition (c : Caller) (body : option DefinitionExportBundle) : Cat CatalogAnswer :=
  match body with
  | None => eret (catalog_error 400 msgInvalidRequestFormat)
  | Some bundle =>
      match bundle_problem bundle with
      | Some message => eret (catalog_error 400 message)
      | None =>
          let? uuid := eask ka_uuid in
          let def := mkDefinition uuid (xb_Name bundle) (xb_Description bundle) (ca_UserID c) "" ""
                       (or_master (xb_DefaultBranch bundle)) "" in
          match StackDefinition_Validate def with
          | Some e => eret (catalog_error 400 (errText e))
          | None => import_bundle c bundle def
          end
      end
  end.
End handlers.
