(* ===== verification/Upgrades.v ===== *)
(** * Upgrades, links and charts of definitions

    The requests that bring a definition to the latest version of its template
    ([CheckUpgrade] and [ApplyUpgrade] of [api/handlers/stack_definitions.go]), that link it
    to a template ([definition_template_link.go]) and that change its charts
    ([chart_configs.go]). *)

From S2P Require Import Prelude Models Store World Access Templates Builder Values Effects Catalog Diffs Definitions.
Local Open Scope string_scope.
Local Open Scope list_scope.

Section handlers.
Context `{SnapshotJSON} `{Yaml} `{YamlProblem}.
Context (allowed : list string) (versioned : bool).

(** ** Upgrades *)

Definition upgradeReasonNoSourceTemplate := "no_source_template".
Definition upgradeReasonNoPublishedVersion := "no_published_version".
Definition upgradeReasonUpToDate := "up_to_date".
Definition no_upgrade (current latest reason : string) : CatalogAnswer :=
  mkCatalogAnswer 200 (KBUpgrade (mkUpgradeCheck false current latest reason None [])).

Definition upgradeRelease (tid : string) : Cat (res templateRelease) :=
  let? tmpl := template_FindByID tid in
  match tmpl with
  | Err e =>
      If errorsIs e "ErrNotFound" Return eret (Err errNoPublishedVersion) ;;
      eret (Err (EWrap "find template: " e ""))
  | Ok tmpl =>
      If negb (tm_IsPublished tmpl) Return eret (Err errNoPublishedVersion) ;;
      read_latestTemplateRelease versioned tid
  end.

Definition CheckUpgrade (id : string) : Cat CatalogAnswer :=
  If empty id Return eret (catalog_error 400 msgDefinitionIDRequired) ;;
  let? def := definition_FindByID id in
  match def with
  | Err e => eret (catalog_mapped entityStackDefinition e)
  | Ok def =>
      let tid := df_SourceTemplateID def in
      let current := df_SourceTemplateVersion def in
      If empty tid || negb versioned Return eret (no_upgrade "" "" upgradeReasonNoSourceTemplate) ;;
      let? release := upgradeRelease tid in
      match release with
      | Err e =>
          If errorsIs e "errNoPublishedVersion" Return eret (no_upgrade current "" upgradeReasonNoPublishedVersion) ;;
          eret (catalog_internal e)
      | Ok release =>
          let latest := tvr_Version (tr_version release) in
          If bool_decide (latest = current) Return eret (no_upgrade current latest upgradeReasonUpToDate) ;;
          let? charts := ListByDefinition id in
          match charts with
          | Err e => eret (catalog_mapped entityChartConfigs e)
          | Ok charts =>
              let? versions := version_ListByTemplate tid in
              let diffs := upgradeChartDiffs (source_charts current versions) charts (tr_Charts release) in
              eret (mkCatalogAnswer 200 (KBUpgrade
                (mkUpgradeCheck true current latest "" (Some (upgradeChangesFromDiffs diffs)) diffs)))
          end
      end
  end.

(** The loop of [ApplyUpgrade] over the charts of the release.  [current] holds the charts
    of the definition by name; the loop changes them in place. *)
Definition cc_set_definition (id did : string) (c : ChartConfig) : ChartConfig :=
  mkChart id did (cc_ChartName c) (cc_RepositoryURL c) (cc_SourceRepoURL c) (cc_BuildPipelineID c) (cc_ChartPath c)
    (cc_ChartVersion c) (cc_DefaultValues c) (cc_DeployOrder c).
Fixpoint apply_charts (did : string) (current : gmap string ChartConfig) (charts : list TemplateChartConfig) : Cat error :=
  match charts with
  | [] => eret None
  | tch :: charts' =>
      match current !! tc_ChartName tch with
      | None =>
          let? uuid := eask ka_uuid in
          let? r := chart_Create allowed (cc_set_definition uuid did (upgradeTargetChart zero_chart tch)) in
          match r with
          | (Some e, _) => eret (Some e)
          | (None, _) => apply_charts did current charts'
          end
      | Some existing =>
          let updated := upgradeTargetChart existing tch in
          let? e := chart_Update allowed updated in
          match e with
          | Some e => eret (Some e)
          | None => apply_charts did (<[tc_ChartName tch := updated]> current) charts'
          end
      end
  end.

(** The writes of an upgrade: the charts, then the version of the definition. *)
Definition apply_release (def : StackDefinition) (charts : list ChartConfig) (release : templateRelease) : Cat CatalogAnswer :=
  let? e := apply_charts (df_ID def) (current_by_name charts) (tr_Charts release) in
  match e with
  | Some e => eret (catalog_mapped entityChartConfig e)
  | None =>
      let def := df_set_link (df_SourceTemplateID def) (tvr_Version (tr_version release)) def in
      let? e := definition_Update def in
      match e with
      | Some e => eret (catalog_mapped entityStackDefinition e)
      | None =>
          let? updated := ListByDefinition (df_ID def) in
          eret (match updated with
                | Err e => catalog_mapped entityChartConfigs e
                | Ok updated => mkCatalogAnswer 200 (KBDefinitionCharts def updated [])
                end)
      end
  end.
Definition ApplyUpgrade (c : Caller) (id : string) : Cat CatalogAnswer :=
  If empty id Return eret (catalog_error 400 msgDefinitionIDRequired) ;;
  let? r := modifiable c id in
  match r with
  | inr a => eret a
  | inl def =>
      let tid := df_SourceTemplateID def in
      If empty tid || negb versioned Return eret (catalog_error 400 "Definition has no source template") ;;
      let? release := upgradeRelease tid in
      match release with
      | Err e =>
          If errorsIs e "errNoPublishedVersion" Return eret (catalog_error 409 msgNoPublishedVersion) ;;
          eret (catalog_internal e)
      | Ok release =>
          If bool_decide (tvr_Version (tr_version release) = df_SourceTemplateVersion def) Return
            eret (catalog_error 409 "Definition is already at the latest version") ;;
          let? charts := ListByDefinition id in
          match charts with
          | Err e => eret (catalog_mapped entityChartConfigs e)
          | Ok charts => apply_release def charts release
          end
      end
  end.

(** ** The link to a template *)

Record templateLinkRequest := mkLinkRequest { lk_TemplateID : string; lk_Version : string }.
Definition save_link (def : StackDefinition) (tid version : string) : Cat CatalogAnswer :=
  let? e := SetTemplateLink (df_ID def) tid version in
  match e with
  | Some e => eret (catalog_mapped entityStackDefinition e)
  | None =>
      let? updated := definition_FindByID (df_ID def) in
      eret (match updated with
            | Err e => catalog_mapped entityStackDefinition e
            | Ok updated => mkCatalogAnswer 200 (KBDefinition updated)
            end)
  end.
Definition SetTemplateLinkRequest (c : Caller) (id : string) (body : option templateLinkRequest) : Cat CatalogAnswer :=
  let? r := modifiable c id in
  match r, body with
  | inr a, _ => eret a
  | inl _, None => eret (catalog_error 400 msgInvalidRequestFormat)
  | inl def, Some req =>
      let tid := TrimSpace (lk_TemplateID req) in
      let version := TrimSpace (lk_Version req) in
      If empty tid Return (
        If negb (empty version) Return eret (catalog_error 400 "version needs a template_id") ;;
        save_link def "" "") ;;
      let? link := resolveTemplateLink versioned tid version in
      match link with
      | LinkRefused status message => eret (catalog_error status message)
      | LinkFailed e => eret (catalog_internal e)
      | Linked tmpl resolved => save_link def (tm_ID tmpl) resolved
      end
  end.

(** ** The charts of a definition *)

Definition AddChartConfig (did : string) (body : option ChartConfig) : Cat CatalogAnswer :=
  let? def := definition_FindByID did in
  match def, body with
  | Err e, _ => eret (catalog_mapped entityStackDefinition e)
  | Ok _, None => eret (catalog_error 400 msgInvalidRequestFormat)
  | Ok _, Some chart =>
      let? uuid := eask ka_uuid in
      let chart := cc_set_definition uuid did chart in
      match ChartConfig_Validate allowed chart with
      | Some e => eret (catalog_error 400 (errText e))
      | None =>
          match validateChartValues "default_values" "" (cc_DefaultValues chart) with
          | Some e => eret (catalog_error 400 (errText e))
          | None =>
              let? r := chart_Create allowed chart in
              eret (match r with
                    | (Some e, _) => catalog_mapped entityChartConfig e
                    | (None, chart) => mkCatalogAnswer 201 (KBChart chart)
                    end)
          end
      end
  end.

Definition requireChartInDefinition (did chartID : string) : Cat (ChartConfig + CatalogAnswer) :=
  let? chart := chart_FindByID chartID in
  eret (match chart with
        | Err e => inr (catalog_mapped entityChartConfig e)
        | Ok chart =>
            If negb (bool_decide (cc_StackDefinitionID chart = did)) Return
              inr (catalog_error 404 (entityChartConfig +:+ " not found")) ;;
            inl chart
        end).
Definition GetChartConfig (did chartID : string) : Cat CatalogAnswer :=
  let? r := requireChartInDefinition did chartID in
  eret (match r with inr a => a | inl chart => mkCatalogAnswer 200 (KBChart chart) end).

Record chartConfigUpdateRequest := mkChartUpdate {
  cu_ChartName : option string;
  cu_RepositoryURL : option string;
  cu_SourceRepoURL : option string;
  cu_BuildPipelineID : option string;
  cu_ChartPath : option string;
  cu_ChartVersion : option string;
  cu_DefaultValues : option string;
  cu_DeployOrder : option Z
}.
Definition changed (p : option string) (cur : string) : bool :=
  match p with Some v => negb (bool_decide (v = cur)) | None => false end.
Definition chartSourceChanged (existing : ChartConfig) (update : chartConfigUpdateRequest) : bool :=
  changed (cu_ChartName update) (cc_ChartName existing) ||
  changed (cu_RepositoryURL update) (cc_RepositoryURL existing) ||
  changed (cu_ChartPath update) (cc_ChartPath existing) ||
  changed (cu_ChartVersion update) (cc_ChartVersion existing).
Definition updated_chart (existing : ChartConfig) (update : chartConfigUpdateRequest) : ChartConfig :=
  mkChart (cc_ID existing) (cc_StackDefinitionID existing) (default (cc_ChartName existing) (cu_ChartName update))
    (default (cc_RepositoryURL existing) (cu_RepositoryURL update)) (default (cc_SourceRepoURL existing) (cu_SourceRepoURL update))
    (default (cc_BuildPipelineID existing) (cu_BuildPipelineID update)) (default (cc_ChartPath existing) (cu_ChartPath update))
    (default (cc_ChartVersion existing) (cu_ChartVersion update)) (default (cc_DefaultValues existing) (cu_DefaultValues update))
    (default (cc_DeployOrder existing) (cu_DeployOrder update)).
(** Whether the caller may change the chart: the owner of the definition may, but not its
    source. *)
Definition chart_gate (c : Caller) (existing : ChartConfig) (update : chartConfigUpdateRequest) : Cat (option CatalogAnswer) :=
  If isPrivilegedRole c Return eret None ;;
  let? r := modifiable c (cc_StackDefinitionID existing) in
  eret (match r with
        | inr a => Some a
        | inl _ => If chartSourceChanged existing update Return Some (catalog_error 403 msgChartSourceForbidden) ;; None
        end).
Definition UpdateChartConfig (c : Caller) (did chartID : string) (body : option chartConfigUpdateRequest) : Cat CatalogAnswer :=
  let? r := requireChartInDefinition did chartID in
  match r, body with
  | inr a, _ => eret a
  | inl _, None => eret (catalog_error 400 msgInvalidRequestFormat)
  | inl existing, Some update =>
      let? refused := chart_gate c existing update in
      match refused with
      | Some a => eret a
      | None =>
          match (if changed (cu_DefaultValues update) (cc_DefaultValues existing)
                 then validateChartValues "default_values" "" (default "" (cu_DefaultValues update)) else None) with
          | Some e => eret (catalog_error 400 (errText e))
          | None =>
              let chart := updated_chart existing update in
              match ChartConfig_Validate allowed chart with
              | Some e => eret (catalog_error 400 (errText e))
              | None =>
                  let? e := chart_Update allowed chart in
                  eret (match e with
                        | Some e => catalog_mapped entityChartConfig e
                        | None => mkCatalogAnswer 200 (KBChart chart)
                        end)
              end
          end
      end
  end.

(** Whether a required chart of the template stops the delete. *)
Definition required_gate (did : string) (chart : ChartConfig) : Cat (option CatalogAnswer) :=
  If empty did Return eret None ;;
  let? def := definition_FindByID did in
  match def with
  | Err e => If isNotFoundError e Return eret None ;; eret (Some (catalog_mapped entityStackDefinition e))
  | Ok def =>
      If empty (df_SourceTemplateID def) Return eret None ;;
      let? charts := read_releasedTemplateCharts versioned (df_SourceTemplateID def) in
      eret (match charts with
            | Err e => Some (catalog_internal e)
            | Ok charts =>
                If existsb (fun tc => bool_decide (tc_ChartName tc = cc_ChartName chart) && tc_Required tc) charts Return
                  Some (catalog_error 409 ("Cannot delete required chart: " +:+ cc_ChartName chart)) ;;
                None
            end)
  end.
Definition DeleteChartConfig (did chartID : string) : Cat CatalogAnswer :=
  let? r := requireChartInDefinition did chartID in
  match r with
  | inr a => eret a
  | inl chart =>
      let? refused := required_gate did chart in
      match refused with
      | Some a => eret a
      | None =>
          let? e := chart_Delete chartID in
          eret (match e with
                | Some e => catalog_mapped entityChartConfig e
                | None => mkCatalogAnswer 204 KBEmpty
                end)
      end
  end.

(** ** The routes

    The group [/stack-definitions] of [api/routes/routes.go], without the list. *)

Context (hasTx : bool).

Inductive DefinitionRequest :=
| DCreate (body : option StackDefinition)
| DImport (body : option DefinitionExportBundle)
| DGet (id : string)
| DExport (id : string)
| DUpdate (id : string) (body : option StackDefinition)
| DDelete (id : string)
| DCheckUpgrade (id : string)
| DUpgrade (id : string)
| DLink (id : string) (body : option templateLinkRequest)
| DAddChart (id : string) (body : option ChartConfig)
| DGetChart (id chartID : string)
| DUpdateChart (id chartID : string) (body : option chartConfigUpdateRequest)
| DDeleteChart (id chartID : string).

Definition devops (c : Caller) (k : Cat CatalogAnswer) : Cat CatalogAnswer :=
  match RequireDevOps (ca_Role c) with
  | Next => k
  | Abort status message => eret (catalog_error status message)
  end.
Definition handle_definition (c : Caller) (q : DefinitionRequest) : Cat CatalogAnswer :=
  match q with
  | DCreate body => devops c (CreateDefinition c body)
  | DImport body => devops c (ImportDefinition allowed versioned hasTx c body)
  | DGet id => GetDefinition id
  | DExport id => devops c (ExportDefinition id)
  | DUpdate id body => UpdateDefinition c id body
  | DDelete id => DeleteDefinition c id
  | DCheckUpgrade id => CheckUpgrade id
  | DUpgrade id => ApplyUpgrade c id
  | DLink id body => devops c (SetTemplateLinkRequest c id body)
  | DAddChart id body => devops c (AddChartConfig id body)
  | DGetChart id chartID => GetChartConfig id chartID
  | DUpdateChart id chartID body => UpdateChartConfig c id chartID body
  | DDeleteChart id chartID => devops c (DeleteChartConfig id chartID)
  end.
End handlers.
