(* ===== verification/Publishing.v ===== *)
(** * Templates and their publication

    The requests on templates ([api/handlers/stack_templates.go], [template_charts.go],
    [bulk_template_operations.go], [resolveChartOverrides] of [template_releases.go]) and on
    their versions ([template_versions.go]).  The error types of a publish are sentinels
    with the text of the error; the iteration of a Go map is a list in any order.  Lists
    with pages, the names of users and the times of a response are left out. *)

From S2P Require Import Prelude Decimals Models Store World Access Templates Builder Values Effects Catalog Diffs Definitions.
Local Open Scope string_scope.
Local Open Scope list_scope.

Definition canManageTemplate (c : Caller) (tmpl : StackTemplate) : bool :=
  bool_decide (ca_Role c = roleAdmin) || bool_decide (tm_OwnerID tmpl = ca_UserID c).
Definition msgTemplateIDRequired := "Template ID is required".
Definition msgTemplateForbidden := "Only the template owner or an admin can change this template".
Definition entityTemplateCharts := "Template charts".
Definition entityTemplateChart := "Template chart".
Definition entityTemplateVersion := "Template version".
Definition maxPublishVersionLength : Z := 50.
Definition maxChangeSummaryLength : Z := 2000.

Definition StackTemplate_Validate (t : StackTemplate) : error :=
  If empty (tm_Name t) Return errorsNew "name is required" ;;
  If empty (tm_OwnerID t) Return errorsNew "owner_id is required" ;;
  None.

(** The encoder of a snapshot ([encoding/json]). *)
Class SnapshotEncoder := snapshot_Marshal : TemplateSnapshot -> string.

(** ** Publish *)

Definition errVersionExists (version : string) : goerr := ESent "errVersionExists" ("Version " +:+ version +:+ " already exists").
Definition errPublishValidation (msg : string) : goerr := ESent "errPublishValidation" msg.
Definition as_sentinel (name : string) : goerr -> option string :=
  errorsAs (fun e => match e with ESent n m => if bool_decide (n = name) then Some m else None | _ => None end).

Definition tooLong (what : string) (limit : Z) : string := what +:+ " must be at most " +:+ itoa limit +:+ " characters".
Definition validatePublishInput (version changeSummary : string) : res string :=
  let version := TrimSpace version in
  If empty version Return Err (errPublishValidation "Version is required to publish") ;;
  If (maxPublishVersionLength <? len version)%Z Return Err (errPublishValidation (tooLong "Version" maxPublishVersionLength)) ;;
  If (maxChangeSummaryLength <? len changeSummary)%Z Return
    Err (errPublishValidation (tooLong "Change summary" maxChangeSummaryLength)) ;;
  Ok version.

Definition tm_set_published (version : string) (t : StackTemplate) : StackTemplate :=
  mkTemplate (tm_ID t) (tm_Name t) (tm_Description t) (tm_Category t) (tm_DefaultBranch t) true version (tm_OwnerID t).
Definition tm_set_IsPublished (v : bool) (t : StackTemplate) : StackTemplate :=
  mkTemplate (tm_ID t) (tm_Name t) (tm_Description t) (tm_Category t) (tm_DefaultBranch t) v (tm_Version t) (tm_OwnerID t).

Definition publish_time (latest now : time) : time := if (latest <? now)%Z then now else (latest + Millisecond)%Z.

Section publish.
Context `{SnapshotJSON} `{SnapshotEncoder}.

(** What a publish does with the versions of the template (newest first): the latest one
    stays when it has the same content, else a new one, with its time. *)
Definition publish_plan (version : string) (snapshot : TemplateSnapshot) (versions : list TemplateVersion) (now : time)
    : res (option TemplateVersion * time) :=
  match versions with
  | [] => Ok (None, now)
  | latest :: _ =>
      latestSnapshot <-r res_wrap ("unmarshal template version " +:+ tvr_ID latest +:+ ": ") (snapshot_Unmarshal (tvr_Snapshot latest)) ;;
      let createdAt := publish_time (tvr_CreatedAt latest) now in
      let legacy := (ts_SchemaVersion latestSnapshot <? TemplateSnapshotSchemaVersion)%Z in
      If negb legacy && SameTemplateContent latestSnapshot snapshot Return Ok (Some latest, createdAt) ;;
      let reused := legacy && negb (empty (tvr_Version latest)) && bool_decide (version = tvr_Version latest) in
      If existsb (fun v => bool_decide (tvr_Version v = version) && negb reused) versions Return Err (errVersionExists version) ;;
      Ok (None, createdAt)
  end.

(** The version that users get after a publish, and whether it is new. *)
Definition store_version (tmpl : StackTemplate) (version changeSummary userID : string) (snapshot : TemplateSnapshot)
    (plan : option TemplateVersion * time) : Cat (res (TemplateVersion * bool)) :=
  match plan with
  | (Some latest, _) => eret (Ok (latest, false))
  | (None, createdAt) =>
      let? uuid := eask ka_uuid in
      let v := mkVersion uuid (tm_ID tmpl) version (snapshot_Marshal snapshot) changeSummary userID createdAt in
      let? e := version_Create v in
      eret (match e with Some e => Err (EWrap "create template version: " e "") | None => Ok (v, true) end)
  end.
Definition Published : Type := StackTemplate * option TemplateVersion * bool.
Definition mark_published (tmpl : StackTemplate) (version : string) (v : TemplateVersion) (created : bool) : Cat (error * Published) :=
  If tm_IsPublished tmpl && bool_decide (tm_Version tmpl = version) Return eret (None, (tmpl, Some v, created)) ;;
  let tmpl := tm_set_published version tmpl in
  let? e := template_Update tmpl in
  eret (e, (tmpl, Some v, created)).
Definition publishInTx (tmpl : StackTemplate) (version changeSummary userID : string) : Cat (error * Published) :=
  let failed e : Cat (error * Published) := eret (Some e, (tmpl, None, false)) in
  match validatePublishInput (if empty version then tm_Version tmpl else version) changeSummary with
  | Err e => failed e
  | Ok version =>
      let? charts := tchart_ListByTemplate (tm_ID tmpl) in
      match charts with
      | Err e => failed (EWrap "list template charts: " e "")
      | Ok charts =>
          let snapshot := NewTemplateSnapshot (tm_set_published version tmpl) charts in
          let? versions := version_ListByTemplate (tm_ID tmpl) in
          match versions with
          | Err e => failed (EWrap "list template versions: " e "")
          | Ok versions =>
              let? now := eclock in
              match publish_plan version snapshot versions now with
              | Err e => failed e
              | Ok plan =>
                  let? r := store_version tmpl version changeSummary userID snapshot plan in
                  match r with
                  | Err e => failed e
                  | Ok (v, created) => mark_published tmpl version v created
                  end
              end
          end
      end
  end.

Section handlers.
Context `{Yaml} `{YamlProblem}.
Context (allowed : list string) (versioned hasTx : bool).

Definition publish_flag (tid version changeSummary : string) : Cat (error * Published) :=
  let none := mkTemplate "" "" "" "" "" false "" "" in
  let? tmpl := template_FindByID tid in
  match tmpl with
  | Err e => eret (Some e, (none, None, false))
  | Ok tmpl =>
      match validatePublishInput (if empty version then tm_Version tmpl else version) changeSummary with
      | Err e => eret (Some e, (none, None, false))
      | Ok version =>
          let tmpl := tm_set_published version tmpl in
          let? e := template_Update tmpl in
          eret (e, (tmpl, None, false))
      end
  end.
Definition publishWorkingCopy (tid version changeSummary userID : string) : Cat (error * Published) :=
  let none := (mkTemplate "" "" "" "" "" false "" "", None, false) in
  If negb versioned Return publish_flag tid version changeSummary ;;
  If negb hasTx Return eret (Some (ENew "publish requires a transaction runner"), none) ;;
  RunInTx none (
    let? locked := template_FindByIDForUpdate tid in
    match locked with
    | Err e => eret (Some e, none)
    | Ok locked => publishInTx locked version changeSummary userID
    end).
Definition respondPublishError (e : goerr) : CatalogAnswer :=
  match as_sentinel "errVersionExists" e, as_sentinel "errPublishValidation" e with
  | Some m, _ => catalog_error 409 m
  | None, Some m => catalog_error 400 m
  | None, None => catalog_mapped entityTemplate e
  end.

(** The template that the caller may change, or the answer. *)
Definition findManagedTemplate (c : Caller) (id : string) : Cat (StackTemplate + CatalogAnswer) :=
  If empty id Return eret (inr (catalog_error 400 msgTemplateIDRequired)) ;;
  let? tmpl := template_FindByID id in
  eret (match tmpl with
        | Err e => inr (catalog_mapped entityTemplate e)
        | Ok tmpl => If negb (canManageTemplate c tmpl) Return inr (catalog_error 403 msgTemplateForbidden) ;; inl tmpl
        end).

Record publishTemplateRequest := mkPublishRequest { pq_Version : string; pq_ChangeSummary : string }.
(** An empty body is a request without fields. *)
Definition PublishTemplate (c : Caller) (id : string) (body : option publishTemplateRequest) : Cat CatalogAnswer :=
  match body with
  | None => eret (catalog_error 400 msgInvalidRequestFormat)
  | Some req =>
      let? r := findManagedTemplate c id in
      match r with
      | inr a => eret a
      | inl tmpl =>
          let? p := publishWorkingCopy (tm_ID tmpl) (pq_Version req) (pq_ChangeSummary req) (ca_UserID c) in
          eret (match p with
                | (Some e, _) => respondPublishError e
                | (None, (updated, v, created)) =>
                    let text f := match v with Some v => f v | None => "" end in
                    mkCatalogAnswer 200 (KBPublished updated (text tvr_Version) (text tvr_ID) created)
                end)
      end
  end.
Definition save_template (tmpl : StackTemplate) : Cat CatalogAnswer :=
  let? e := template_Update tmpl in
  eret (match e with Some e => catalog_mapped entityTemplate e | None => mkCatalogAnswer 200 (KBTemplate tmpl) end).
Definition UnpublishTemplate (c : Caller) (id : string) : Cat CatalogAnswer :=
  let? r := findManagedTemplate c id in
  match r with
  | inr a => eret a
  | inl tmpl => save_template (tm_set_IsPublished false tmpl)
  end.

(** ** Create, read, update, delete *)

Record createTemplateRequest := mkCreateTemplate {
  ct_Name : string;
  ct_Description : string;
  ct_Category : string;
  ct_Version : string;
  ct_DefaultBranch : string;
  ct_IsPublished : bool;
  ct_Charts : list TemplateChartConfig
}.
Definition tc_stamp (id tid : string) (c : TemplateChartConfig) : TemplateChartConfig :=
  mkTChart id tid (tc_ChartName c) (tc_RepositoryURL c) (tc_SourceRepoURL c) (tc_BuildPipelineID c)
    (tc_ChartPath c) (tc_ChartVersion c) (tc_DefaultValues c) (tc_LockedValues c) (tc_DeployOrder c) (tc_Required c).
Definition or_error (e : error) (k : error) : error := match e with Some e => Some e | None => k end.
Definition chart_values_problem (name : string) (ch : TemplateChartConfig) : error :=
  or_error (validateChartValues "default_values" name (tc_DefaultValues ch))
    (validateChartValues "locked_values" name (tc_LockedValues ch)).
Fixpoint stamp_charts (tid : string) (i : Z) (l : list TemplateChartConfig) : Cat (list TemplateChartConfig + CatalogAnswer) :=
  match l with
  | [] => eret (inl [])
  | ch :: l' =>
      let? uuid := eask ka_uuid in
      let ch := tc_stamp uuid tid ch in
      match TemplateChartConfig_Validate allowed ch with
      | Some e => eret (inr (catalog_error 400 ("charts[" +:+ itoa i +:+ "]: " +:+ errText e)))
      | None =>
          match chart_values_problem (tc_ChartName ch) ch with
          | Some e => eret (inr (catalog_error 400 (errText e)))
          | None =>
              let? r := stamp_charts tid (i + 1) l' in
              eret (match r with inl l => inl (ch :: l) | inr a => inr a end)
          end
      end
  end.
Fixpoint create_tcharts (l : list TemplateChartConfig) : Cat error :=
  match l with
  | [] => eret None
  | ch :: l' =>
      let? r := tchart_Create allowed ch in
      match r.1 with
      | Some e => eret (Some e)
      | None => create_tcharts l'
      end
  end.
(** The template, its charts and its first version in one transaction. *)
Definition create_template_tx (c : Caller) (publish : bool) (tmpl : StackTemplate) (charts : list TemplateChartConfig)
    : Cat (error * Published) :=
  RunInTx (tmpl, None, false) (
    let? r := template_Create tmpl in
    match r with
    | (Some e, tmpl) => eret (Some e, (tmpl, None, false))
    | (None, tmpl) =>
        let? e := create_tcharts charts in
        match e with
        | Some e => eret (Some e, (tmpl, None, false))
        | None =>
            If negb publish Return eret (None, (tmpl, None, false)) ;;
            publishInTx tmpl "" "" (ca_UserID c)
        end
    end).
Definition created_detail (tmpl : StackTemplate) (charts : list TemplateChartConfig) (published : option TemplateVersion)
    : TemplateDetail :=
  match published with
  | None => mkDetail tmpl charts None None true None
  | Some v => mkDetail tmpl charts (Some (tvr_Version v)) (Some (tvr_ID v)) false
                (Some (ChartConfigs (NewTemplateSnapshot tmpl charts) (tm_ID tmpl) []))
  end.
Definition create_template (c : Caller) (publish : bool) (tmpl : StackTemplate) (charts : list TemplateChartConfig) : Cat CatalogAnswer :=
  If bool_decide (charts = []) && negb publish Return (
    let? r := template_Create tmpl in
    eret (match r with
          | (Some e, _) => catalog_mapped entityTemplate e
          | (None, tmpl) => mkCatalogAnswer 201 (KBDetail (mkDetail tmpl [] None None true None))
          end)) ;;
  If negb hasTx Return eret (catalog_error 500 msgInternalServerError) ;;
  let? r := create_template_tx c publish tmpl charts in
  eret (match r with
        | (Some e, _) => if publish then respondPublishError e else catalog_mapped entityTemplate e
        | (None, (tmpl, v, _)) => mkCatalogAnswer 201 (KBDetail (created_detail tmpl charts v))
        end).
(** A request without a name does not decode. *)
Definition CreateTemplate (c : Caller) (body : option createTemplateRequest) : Cat CatalogAnswer :=
  match body with
  | None => eret (catalog_error 400 msgInvalidRequestFormat)
  | Some req =>
      If empty (ct_Name req) Return eret (catalog_error 400 msgInvalidRequestFormat) ;;
      let? uuid := eask ka_uuid in
      let tmpl := mkTemplate uuid (ct_Name req) (ct_Description req) (ct_Category req) (ct_DefaultBranch req)
                    (ct_IsPublished req) (TrimSpace (ct_Version req)) (ca_UserID c) in
      match StackTemplate_Validate tmpl with
      | Some e => eret (catalog_error 400 (errText e))
      | None =>
          let publish := tm_IsPublished tmpl && versioned in
          match (if publish then validatePublishInput (tm_Version tmpl) "" else Ok "") with
          | Err e => eret (respondPublishError e)
          | Ok _ =>
              let tmpl := if publish then tm_set_IsPublished false tmpl else tmpl in
              let? r := stamp_charts (tm_ID tmpl) 0 (ct_Charts req) in
              match r with
              | inr a => eret a
              | inl charts => create_template c publish tmpl charts
              end
          end
      end
  end.

(** What a caller sees: who cannot manage the template sees only its published charts. *)
Definition visible_detail (c : Caller) (d : TemplateDetail) : TemplateDetail :=
  If canManageTemplate c (td_Template d) Return d ;;
  let t := td_Template d in
  mkDetail (mkTemplate (tm_ID t) (tm_Name t) (tm_Description t) (tm_Category t) (tm_DefaultBranch t) (tm_IsPublished t)
              (default "" (td_PublishedVersion d)) (tm_OwnerID t))
    (default [] (td_PublishedCharts d)) (td_PublishedVersion d) (td_PublishedVersionID d) false (td_PublishedCharts d).
Definition detail_of (tmpl : StackTemplate) (charts : list TemplateChartConfig) (release : res templateRelease)
    : TemplateDetail + CatalogAnswer :=
  match release with
  | Ok r =>
      let changed := (ts_SchemaVersion (tr_snapshot r) <? TemplateSnapshotSchemaVersion)%Z ||
                     negb (SameTemplateContent (tr_snapshot r) (NewTemplateSnapshot tmpl charts)) in
      inl (mkDetail tmpl charts (Some (tvr_Version (tr_version r))) (Some (tvr_ID (tr_version r))) changed (Some (tr_Charts r)))
  | Err e =>
      If errorsIs e "errNoPublishedVersion" Return inl (mkDetail tmpl charts None None true None) ;;
      inr (catalog_error 500 msgInternalServerError)
  end.
Definition GetTemplate (c : Caller) (id : string) : Cat CatalogAnswer :=
  If empty id Return eret (catalog_error 400 msgTemplateIDRequired) ;;
  let? tmpl := template_FindByID id in
  match tmpl with
  | Err e => eret (catalog_mapped entityTemplate e)
  | Ok tmpl =>
      let? charts := tchart_ListByTemplate id in
      match charts with
      | Err e => eret (catalog_mapped entityTemplateCharts e)
      | Ok charts =>
          If negb versioned Return eret (mkCatalogAnswer 200 (KBDetail (mkDetail tmpl charts None None true None))) ;;
          let? release := read_latestTemplateRelease versioned id in
          eret (match detail_of tmpl charts release with
                | inl d => mkCatalogAnswer 200 (KBDetail (visible_detail c d))
                | inr a => a
                end)
      end
  end.

Record updateTemplateRequest := mkUpdateTemplate {
  ut_Name : option string;
  ut_Description : option string;
  ut_Category : option string;
  ut_Version : option string;
  ut_DefaultBranch : option string
}.
Definition updated_template (req : updateTemplateRequest) (t : StackTemplate) : StackTemplate :=
  mkTemplate (tm_ID t) (default (tm_Name t) (ut_Name req)) (default (tm_Description t) (ut_Description req))
    (default (tm_Category t) (ut_Category req)) (default (tm_DefaultBranch t) (ut_DefaultBranch req)) (tm_IsPublished t)
    (match ut_Version req with Some v => TrimSpace v | None => tm_Version t end) (tm_OwnerID t).
Definition UpdateTemplate (c : Caller) (id : string) (body : option updateTemplateRequest) : Cat CatalogAnswer :=
  let? r := findManagedTemplate c id in
  match r, body with
  | inr a, _ => eret a
  | inl _, None => eret (catalog_error 400 msgInvalidRequestFormat)
  | inl existing, Some req =>
      let tmpl := updated_template req existing in
      match StackTemplate_Validate tmpl with
      | Some e => eret (catalog_error 400 (errText e))
      | None =>
          If (maxPublishVersionLength <? len (tm_Version tmpl))%Z Return
            eret (catalog_error 400 (tooLong "Version" maxPublishVersionLength)) ;;
          save_template tmpl
      end
  end.

Definition msgTemplateReferenced := "Cannot delete template: stack definitions reference it".
Definition DeleteTemplate (c : Caller) (id : string) : Cat CatalogAnswer :=
  let? r := findManagedTemplate c id in
  match r with
  | inr a => eret a
  | inl tmpl =>
      let? defs := definition_ListByTemplate (tm_ID tmpl) in
      match defs with
      | Err e => eret (catalog_mapped entityStackDefinition e)
      | Ok (_ :: _) => eret (catalog_error 409 msgTemplateReferenced)
      | Ok [] =>
          let? e := template_Delete (tm_ID tmpl) in
          eret (match e with Some e => catalog_mapped entityTemplate e | None => mkCatalogAnswer 204 KBEmpty end)
      end
  end.

(** ** Charts of a template *)

Definition AddTemplateChart (c : Caller) (id : string) (body : option TemplateChartConfig) : Cat CatalogAnswer :=
  let? r := findManagedTemplate c id in
  match r, body with
  | inr a, _ => eret a
  | inl _, None => eret (catalog_error 400 msgInvalidRequestFormat)
  | inl tmpl, Some chart =>
      let? uuid := eask ka_uuid in
      let chart := tc_stamp uuid (tm_ID tmpl) chart in
      match or_error (TemplateChartConfig_Validate allowed chart) (chart_values_problem "" chart) with
      | Some e => eret (catalog_error 400 (errText e))
      | None =>
          let? r := tchart_Create allowed chart in
          eret (match r with
                | (Some e, _) => catalog_mapped entityTemplateChart e
                | (None, chart) => mkCatalogAnswer 201 (KBTChart chart)
                end)
      end
  end.
Definition findManagedTemplateChart (c : Caller) (id chartID : string) : Cat (TemplateChartConfig + CatalogAnswer) :=
  let? r := findManagedTemplate c id in
  match r with
  | inr a => eret (inr a)
  | inl tmpl =>
      let? chart := tchart_FindByID chartID in
      eret (match chart with
            | Err e => inr (catalog_mapped entityTemplateChart e)
            | Ok chart =>
                If negb (bool_decide (tc_StackTemplateID chart = tm_ID tmpl)) Return
                  inr (catalog_error 404 (entityTemplateChart +:+ " not found")) ;;
                inl chart
            end)
  end.
Definition changed_values_problem (field new old : string) : error :=
  If bool_decide (new = old) Return None ;;
  validateChartValues field "" new.
Definition UpdateTemplateChart (c : Caller) (id chartID : string) (body : option TemplateChartConfig) : Cat CatalogAnswer :=
  let? r := findManagedTemplateChart c id chartID in
  match r, body with
  | inr a, _ => eret a
  | inl _, None => eret (catalog_error 400 msgInvalidRequestFormat)
  | inl existing, Some update =>
      let chart := tc_stamp (tc_ID existing) (tc_StackTemplateID existing) update in
      match or_error (changed_values_problem "default_values" (tc_DefaultValues update) (tc_DefaultValues existing))
              (or_error (changed_values_problem "locked_values" (tc_LockedValues update) (tc_LockedValues existing))
                 (TemplateChartConfig_Validate allowed chart)) with
      | Some e => eret (catalog_error 400 (errText e))
      | None =>
          let? e := tchart_Update allowed chart in
          eret (match e with Some e => catalog_mapped entityTemplateChart e | None => mkCatalogAnswer 200 (KBTChart chart) end)
      end
  end.
Definition DeleteTemplateChart (c : Caller) (id chartID : string) : Cat CatalogAnswer :=
  let? r := findManagedTemplateChart c id chartID in
  match r with
  | inr a => eret a
  | inl chart =>
      let? e := tchart_Delete (tc_ID chart) in
      eret (match e with Some e => catalog_mapped entityTemplateChart e | None => mkCatalogAnswer 204 KBEmpty end)
  end.
End handlers.
End publish.
