(* ===== verification/Instantiation.v ===== *)
(** * The use of templates

    The requests that make a definition or a template from a template
    ([InstantiateTemplate], [CloneTemplate] of [api/handlers/stack_templates.go]), the
    overrides of an instantiation ([template_releases.go]), the versions of a template and
    their comparison ([template_versions.go]), and the bulk operations
    ([bulk_template_operations.go]). *)

From S2P Require Import Prelude Decimals Models Store World Access Templates Builder Values Effects Catalog Diffs Definitions Upgrades Publishing.
Local Open Scope string_scope.
Local Open Scope list_scope.

(** ** Overrides *)

(** The chart names of identifiers, without empty identifiers: the last one stays. *)
Definition names_by_id (l : list TemplateChartConfig) : gmap string string :=
  fold_left (fun m c => if empty (tc_ID c) then m else <[tc_ID c := tc_ChartName c]> m) l ∅.
Definition working_names (l : list TemplateChartConfig) : gmap string string :=
  fold_left (fun m c => <[tc_ID c := tc_ChartName c]> m) l ∅.

Section overrides.
Context (release : list TemplateChartConfig) (loadWorking : Cat (res (list TemplateChartConfig))).
Definition in_release (name : string) : bool := bool_decide (name ∈ List.map tc_ChartName release).
Definition override_working (workingByID : gmap string string) (key values : string) (out : gmap string string) : gmap string string :=
  match workingByID !! key with
  | Some name => if in_release name then <[name := values]> out else out
  | None => out
  end.
(** [overrides] in the order of the iteration; the working copy is read at most once. *)
Fixpoint resolve_overrides (overrides : list (string * string)) (workingByID : option (gmap string string))
    (out : gmap string string) : Cat (res (gmap string string)) :=
  match overrides with
  | [] => eret (Ok out)
  | (key, values) :: overrides' =>
      match names_by_id release !! key with
      | Some name => resolve_overrides overrides' workingByID (<[name := values]> out)
      | None =>
          If in_release key Return resolve_overrides overrides' workingByID (<[key := values]> out) ;;
          match workingByID with
          | Some w => resolve_overrides overrides' workingByID (override_working w key values out)
          | None =>
              let? r := loadWorking in
              match r with
              | Err e => eret (Err e)
              | Ok working =>
                  let w := working_names working in
                  resolve_overrides overrides' (Some w) (override_working w key values out)
              end
          end
      end
  end.
Definition resolveChartOverrides (overrides : list (string * string)) : Cat (res (gmap string string)) :=
  resolve_overrides overrides None ∅.
End overrides.

Section handlers.
Context `{SnapshotJSON} `{SnapshotEncoder} `{Yaml} `{YamlProblem}.
Context (allowed : list string) (versioned hasTx : bool).

(** ** Instantiate and clone *)

Record instantiateTemplateRequest := mkInstantiate {
  iq_Name : string;
  iq_Description : string;
  iq_ChartOverrides : list (string * string)
}.
Fixpoint override_problem (overrides : gmap string string) (l : list TemplateChartConfig) : option string :=
  match l with
  | [] => None
  | rc :: l' =>
      match (match overrides !! tc_ChartName rc with
             | Some values => validateChartValues "default_values" (tc_ChartName rc) values
             | None => None
             end) with
      | Some e => Some (errText e)
      | None => override_problem overrides l'
      end
  end.
Definition tc_set_DefaultValues (v : string) (c : TemplateChartConfig) : TemplateChartConfig :=
  mkTChart (tc_ID c) (tc_StackTemplateID c) (tc_ChartName c) (tc_RepositoryURL c) (tc_SourceRepoURL c) (tc_BuildPipelineID c)
    (tc_ChartPath c) (tc_ChartVersion c) v (tc_LockedValues c) (tc_DeployOrder c) (tc_Required c).
Definition overridden (overrides : gmap string string) (c : TemplateChartConfig) : TemplateChartConfig :=
  match overrides !! tc_ChartName c with Some values => tc_set_DefaultValues values c | None => c end.
Definition chart_of_template (uuid did : string) (tc : TemplateChartConfig) : ChartConfig :=
  mkChart uuid did (tc_ChartName tc) (tc_RepositoryURL tc) (tc_SourceRepoURL tc) (tc_BuildPipelineID tc) (tc_ChartPath tc)
    (tc_ChartVersion tc) (tc_DefaultValues tc) (tc_DeployOrder tc).
Fixpoint copyTemplateChartsToDefinitionTx (did : string) (l : list TemplateChartConfig) : Cat (error * list ChartConfig) :=
  match l with
  | [] => eret (None, [])
  | tc :: l' =>
      let? uuid := eask ka_uuid in
      let? r := chart_Create allowed (chart_of_template uuid did tc) in
      match r with
      | (Some e, _) => eret (Some e, [])
      | (None, cc) =>
          let? r := copyTemplateChartsToDefinitionTx did l' in
          eret (r.1, cc :: r.2)
      end
  end.
Definition instantiate_release (c : Caller) (tmpl : StackTemplate) (input : instantiateTemplateRequest) (release : templateRelease)
    (overrides : gmap string string) : Cat CatalogAnswer :=
  let charts := List.map (overridden overrides) (tr_Charts release) in
  let? uuid := eask ka_uuid in
  let def := mkDefinition uuid (iq_Name input) (iq_Description input) (ca_UserID c) (tm_ID tmpl)
               (tvr_Version (tr_version release)) (sd_DefaultBranch (ts_Template (tr_snapshot release))) "" in
  let? taken := respondDefinitionNameTaken (df_OwnerID def) (df_Name def) "" in
  match taken with
  | Some a => eret a
  | None =>
      let? r := RunInTx (def, []) (
        let? r := definition_Create def in
        match r with
        | (Some e, def) => eret (Some e, (def, []))
        | (None, def) => let? r := copyTemplateChartsToDefinitionTx (df_ID def) charts in eret (r.1, (def, r.2))
        end) in
      eret (match r with
            | (Some e, _) => catalog_mapped entityStackDefinition e
            | (None, (def, created)) => mkCatalogAnswer 201 (KBDefinitionCharts def created [])
            end)
  end.
Definition InstantiateTemplate (c : Caller) (id : string) (body : option instantiateTemplateRequest) : Cat CatalogAnswer :=
  let? tmpl := template_FindByID id in
  match tmpl, body with
  | Err e, _ => eret (catalog_mapped entityTemplate e)
  | Ok _, None => eret (catalog_error 400 msgInvalidRequestFormat)
  | Ok tmpl, Some input =>
      If empty (iq_Name input) Return eret (catalog_error 400 "Name is required") ;;
      let? release := read_usableTemplateRelease versioned tmpl in
      match release with
      | Err e =>
          If errorsIs e "errNoPublishedVersion" Return eret (catalog_error 409 msgNoPublishedVersion) ;;
          eret (catalog_internal e)
      | Ok release =>
          let? overrides := resolveChartOverrides (tr_Charts release) (tchart_ListByTemplate (tm_ID tmpl)) (iq_ChartOverrides input) in
          match overrides with
          | Err e => eret (catalog_internal e)
          | Ok overrides =>
              match override_problem overrides (tr_Charts release) with
              | Some message => eret (catalog_error 400 message)
              | None => instantiate_release c tmpl input release overrides
              end
          end
      end
  end.

(** The clone of a chart has no build pipeline. *)
Definition clone_chart (uuid tid : string) (ch : TemplateChartConfig) : TemplateChartConfig :=
  mkTChart uuid tid (tc_ChartName ch) (tc_RepositoryURL ch) (tc_SourceRepoURL ch) "" (tc_ChartPath ch) (tc_ChartVersion ch)
    (tc_DefaultValues ch) (tc_LockedValues ch) (tc_DeployOrder ch) (tc_Required ch).
(** The name of the body, if there is one; [None] does not decode. *)
Definition CloneTemplate (c : Caller) (id : string) (body : option (option string)) : Cat CatalogAnswer :=
  match body with
  | None => eret (catalog_error 400 msgInvalidRequestFormat)
  | Some name =>
      let? source := template_FindByID id in
      match source with
      | Err e => eret (catalog_mapped entityTemplate e)
      | Ok source =>
          let name := match name with Some n => TrimSpace n | None => tm_Name source +:+ " (Copy)" end in
          let? uuid := eask ka_uuid in
          let clone := mkTemplate uuid name (tm_Description source) (tm_Category source) (tm_DefaultBranch source) false
                         (tm_Version source) (ca_UserID c) in
          match StackTemplate_Validate clone with
          | Some e => eret (catalog_error 400 (errText e))
          | None =>
              let? charts := tchart_ListByTemplate (tm_ID source) in
              match charts with
              | Err e => eret (catalog_mapped entityTemplateCharts e)
              | Ok charts =>
                  let? clones := with_uuids (fun uuid => clone_chart uuid (tm_ID clone)) charts in
                  let? r := create_template_tx allowed c false clone clones in
                  eret (match r with
                        | (Some e, _) => catalog_mapped entityTemplate e
                        | (None, (clone, _, _)) => mkCatalogAnswer 201 (KBTemplate clone)
                        end)
              end
          end
      end
  end.

(** ** Versions *)

Definition workingCopyVersionID := "working".
Definition ListVersions (id : string) : Cat CatalogAnswer :=
  If empty id Return eret (catalog_error 400 msgTemplateIDRequired) ;;
  let? tmpl := template_FindByID id in
  match tmpl with
  | Err e => eret (catalog_mapped entityTemplate e)
  | Ok _ =>
      let? versions := version_ListByTemplate id in
      eret (match versions with
            | Err e => catalog_mapped entityTemplateVersion e
            | Ok versions => mkCatalogAnswer 200 (KBVersions versions)
            end)
  end.
Definition GetVersion (tid vid : string) : Cat CatalogAnswer :=
  If empty tid || empty vid Return eret (catalog_error 400 "Template ID and Version ID are required") ;;
  let? v := version_GetByID tid vid in
  eret (match v with
        | Err e => catalog_mapped entityTemplateVersion e
        | Ok v => match snapshot_Unmarshal (tvr_Snapshot v) with
                  | Err _ => catalog_error 500 msgInternalServerError
                  | Ok snapshot => mkCatalogAnswer 200 (KBVersion v snapshot)
                  end
        end).
Definition diffSide (c : Caller) (tid vid : string) : Cat (versionDiffSide + CatalogAnswer) :=
  If negb (String.eqb vid workingCopyVersionID) Return (
    let? v := version_GetByID tid vid in
    eret (match v with
          | Err e => inr (catalog_mapped entityTemplateVersion e)
          | Ok v =>
              match snapshot_Unmarshal (tvr_Snapshot v) with
              | Err _ => inr (catalog_error 500 msgInternalServerError)
              | Ok snapshot =>
                  inl (mkDiffSide (tvr_ID v) (tvr_Version v) (tvr_ChangeSummary v) (tvr_CreatedBy v) false snapshot)
              end
          end)) ;;
  let? tmpl := template_FindByID tid in
  match tmpl with
  | Err e => eret (inr (catalog_mapped entityTemplate e))
  | Ok tmpl =>
      If negb (canManageTemplate c tmpl) Return
        eret (inr (catalog_error 403 "Only the template owner or an admin can see the working copy")) ;;
      let? charts := tchart_ListByTemplate tid in
      eret (match charts with
            | Err e => inr (catalog_mapped entityTemplateCharts e)
            | Ok charts =>
                inl (mkDiffSide workingCopyVersionID (tm_Version tmpl) "" "" true (NewTemplateSnapshot tmpl charts))
            end)
  end.
Definition DiffVersions (c : Caller) (tid v1 v2 : string) : Cat CatalogAnswer :=
  If empty tid || empty v1 || empty v2 Return
    eret (catalog_error 400 "Template ID, left version ID, and right version ID are required") ;;
  let? ls := diffSide c tid v1 in
  match ls with
  | inr a => eret a
  | inl ls =>
      let? rs := diffSide c tid v2 in
      eret (match rs with
            | inr a => a
            | inl rs =>
                let l := vs_Snapshot ls in
                let r := vs_Snapshot rs in
                let compareSource := (1 <=? ts_SchemaVersion l)%Z && (1 <=? ts_SchemaVersion r)%Z in
                mkCatalogAnswer 200 (KBDiff ls rs (computeTemplateFieldDiffs (ts_Template l) (ts_Template r))
                  (computeChartDiffs (ts_Charts l) (ts_Charts r) compareSource))
            end)
  end.

(** ** Bulk operations *)

Definition MaxBulkTemplates : Z := 50.
(** Without empty and repeated identifiers, in their order. *)
Fixpoint unique_ids (seen l : list string) : list string :=
  match l with
  | [] => []
  | id :: l' =>
      If empty id || bool_decide (id ∈ seen) Return unique_ids seen l' ;;
      id :: unique_ids (id :: seen) l'
  end.
Definition find_problem (e : goerr) : string :=
  If errorsIs e "ErrNotFound" Return "template not found" ;;
  If errorsIs e "Canceled" Return "request cancelled" ;;
  msgInternalServerError.
Definition bulk_item (c : Caller) (op : StackTemplate -> Cat error) (id : string) : Cat BulkTemplateResultItem :=
  let? tmpl := template_FindByID id in
  match tmpl with
  | Err e => eret (mkBulkItem id "" (Some (find_problem e)))
  | Ok tmpl =>
      If negb (canManageTemplate c tmpl) Return eret (mkBulkItem id (tm_Name tmpl) (Some "not authorized")) ;;
      let? e := op tmpl in
      eret (mkBulkItem id (tm_Name tmpl) (option_map errText e))
  end.
Fixpoint bulk_items (c : Caller) (op : StackTemplate -> Cat error) (ids : list string) : Cat (list BulkTemplateResultItem) :=
  match ids with
  | [] => eret []
  | id :: ids' => let? x := bulk_item c op id in let? xs := bulk_items c op ids' in eret (x :: xs)
  end.
Definition executeBulkTemplateOperation (c : Caller) (op : StackTemplate -> Cat error) (body : option (list string))
    : Cat CatalogAnswer :=
  match body with
  | None => eret (catalog_error 400 "Invalid request format: template_ids is required")
  | Some ids =>
      let ids := unique_ids [] ids in
      let total := Z.of_nat (length ids) in
      If (total =? 0)%Z Return eret (catalog_error 400 "template_ids must not be empty") ;;
      If (MaxBulkTemplates <? total)%Z Return
        eret (catalog_error 400 ("Too many templates: maximum is " +:+ itoa MaxBulkTemplates)) ;;
      let? results := bulk_items c op ids in
      let failed := Z.of_nat (length (List.filter (fun r => bool_decide (is_Some (bi_Error r))) results)) in
      eret (mkCatalogAnswer 200 (KBBulk total (total - failed) failed results))
  end.

Definition bulk_delete (tmpl : StackTemplate) : Cat error :=
  If tm_IsPublished tmpl Return eret (errorsNew "template is published") ;;
  let? defs := definition_ListByTemplate (tm_ID tmpl) in
  match defs with
  | Err e => If errorsIs e "Canceled" Return eret (errorsNew "request cancelled") ;;
             eret (errorsNew "failed to check linked definitions")
  | Ok (d :: defs) => eret (errorsNew ("template is used by " +:+ itoa (Z.of_nat (length (d :: defs))) +:+ " definition(s)"))
  | Ok [] =>
      let? e := template_Delete (tm_ID tmpl) in
      eret (match e with Some _ => errorsNew "failed to delete template" | None => None end)
  end.
Definition bulk_publish (c : Caller) (tmpl : StackTemplate) : Cat error :=
  let? r := publishWorkingCopy versioned hasTx (tm_ID tmpl) "" "" (ca_UserID c) in
  eret (match r.1 with
        | None => None
        | Some e =>
            If bool_decide (is_Some (as_sentinel "errVersionExists" e)) ||
               bool_decide (is_Some (as_sentinel "errPublishValidation" e)) Return Some e ;;
            errorsNew "failed to publish template"
        end).
Definition bulk_unpublish (tmpl : StackTemplate) : Cat error :=
  If negb (tm_IsPublished tmpl) Return eret None ;;
  let? e := template_Update (tm_set_IsPublished false tmpl) in
  eret (match e with Some _ => errorsNew "failed to unpublish template" | None => None end).
Definition BulkDeleteTemplates (c : Caller) : option (list string) -> Cat CatalogAnswer :=
  executeBulkTemplateOperation c bulk_delete.
Definition BulkPublishTemplates (c : Caller) : option (list string) -> Cat CatalogAnswer :=
  executeBulkTemplateOperation c (bulk_publish c).
Definition BulkUnpublishTemplates (c : Caller) : option (list string) -> Cat CatalogAnswer :=
  executeBulkTemplateOperation c bulk_unpublish.

(** ** The routes

    The group [/templates] of [api/routes/routes.go], without the list and quick deploy. *)

Inductive TemplateRequest :=
| TCreate (body : option createTemplateRequest)
| TGet (id : string)
| TUpdate (id : string) (body : option updateTemplateRequest)
| TDelete (id : string)
| TPublish (id : string) (body : option publishTemplateRequest)
| TUnpublish (id : string)
| TInstantiate (id : string) (body : option instantiateTemplateRequest)
| TClone (id : string) (body : option (option string))
| TBulkDelete (body : option (list string))
| TBulkPublish (body : option (list string))
| TBulkUnpublish (body : option (list string))
| TAddChart (id : string) (body : option TemplateChartConfig)
| TUpdateChart (id chartID : string) (body : option TemplateChartConfig)
| TDeleteChart (id chartID : string)
| TListVersions (id : string)
| TDiffVersions (id v1 v2 : string)
| TGetVersion (id v : string).

Definition handle_template (c : Caller) (q : TemplateRequest) : Cat CatalogAnswer :=
  match q with
  | TCreate body => devops c (CreateTemplate allowed versioned hasTx c body)
  | TGet id => GetTemplate versioned c id
  | TUpdate id body => devops c (UpdateTemplate c id body)
  | TDelete id => devops c (DeleteTemplate c id)
  | TPublish id body => devops c (PublishTemplate versioned hasTx c id body)
  | TUnpublish id => devops c (UnpublishTemplate c id)
  | TInstantiate id body => InstantiateTemplate c id body
  | TClone id body => devops c (CloneTemplate c id body)
  | TBulkDelete body => devops c (BulkDeleteTemplates c body)
  | TBulkPublish body => devops c (BulkPublishTemplates c body)
  | TBulkUnpublish body => devops c (BulkUnpublishTemplates c body)
  | TAddChart id body => devops c (AddTemplateChart allowed c id body)
  | TUpdateChart id chartID body => devops c (UpdateTemplateChart allowed c id chartID body)
  | TDeleteChart id chartID => devops c (DeleteTemplateChart c id chartID)
  | TListVersions id => ListVersions id
  | TDiffVersions id v1 v2 => DiffVersions c id v1 v2
  | TGetVersion id v => GetVersion id v
  end.
End handlers.
