(* ===== verification/UpgradeRules.v ===== *)
(** * What an upgrade does

    A check of an upgrade shows what the upgrade then writes, and an upgrade that stopped
    half way is completed by the next one.  The requests run here while the others do not
    change the catalog, under any faults. *)

From S2P Require Import Prelude Decimals Models Store World Access Templates Builder Values Effects Catalog Diffs Definitions Upgrades.
Local Open Scope string_scope.
Local Open Scope list_scope.

(** ** Without other writers *)

(** The others do not change the catalog; anything can fail. *)
Definition still (st : Env CatalogStore CatalogAnswers) : Prop := forall s, en_others st s = s.
Definition any_event (e : catalog_event) : Prop := True.
Abbreviation holds P m Q := (triple still any_event false P m Q).

Lemma still_stable (P : CatalogStore -> Prop) : stable still P.
Proof. intros st s Hst Hp. by rewrite Hst. Qed.
Lemma still_steady q (P : CatalogStore -> Prop) : steady still q P.
Proof. right. apply still_stable. Qed.
#[local] Hint Resolve still_stable still_steady : core.

Lemma holds_ask {A} (f : CatalogAnswers -> A) P : holds P (eask f) (fun _ s => P s).
Proof. eapply triple_post; [apply triple_ask; auto|]. by intros a s [_ ?]. Qed.
Lemma holds_ctx P : holds P ectx (fun _ s => P s).
Proof. eapply triple_post; [apply triple_ctx; auto|]. by intros a s [_ ?]. Qed.
Lemma holds_read {A} (f : time -> CatalogStore -> A) P :
  holds P (eread f) (fun r s => P s /\ ((exists t, r = Ok (f t s)) \/ exists e, r = Err e)).
Proof.
  eapply triple_post; [apply triple_read; auto|]. intros r s (Hp & st & _ & ->). split; [done|]. destruct (en_fault st); eauto.
Qed.
Lemma holds_find {A} (T : Table A) op id P :
  holds P (row_FindByID T op id) (fun r s => P s /\ (forall row, r = Ok row -> tb_get T s !! id = Some row)).
Proof.
  eapply triple_bind; [apply holds_read|]. intros r. apply triple_ret. intros s [Hp Hr]. split; [done|]. intros row E.
  destruct Hr as [[t ->]|[e ->]]; [|done]. cbn in E. destruct (tb_get T s !! id); [by injection E as ->|done].
Qed.

(** ** Indexes by name *)

Section index.
Context {A : Type} (f : A -> string).
Definition index_from (m : gmap string A) (l : list A) : gmap string A :=
  fold_left (fun m c => (<[f c := c]> m)) l m.

Lemma index_from_lookup l : forall m k c, NoDup (List.map f l) ->
  index_from m l !! k = Some c <-> (c ∈ l /\ f c = k) \/ ((k ∉ List.map f l) /\ m !! k = Some c).
Proof.
  unfold index_from. induction l as [|x l IH]; intros m k c Hn; cbn [fold_left List.map] in *.
  - split; [intros Hm; right; split; [apply not_elem_of_nil|done]|intros [[Hx _]|[_ Hm]]; [by apply not_elem_of_nil in Hx|done]].
  - apply NoDup_cons in Hn as [Hx Hn]. rewrite IH by done. split.
    + intros [[Hc Hk]|[Hk Hm]]; [left; split; [by right|done]|]. destruct (decide (f x = k)) as [<-|Hne].
      * rewrite lookup_insert_eq in Hm. injection Hm as <-. left. split; [by left|done].
      * rewrite lookup_insert_ne in Hm by done. right. split; [|done]. by intros [->|H]%elem_of_cons.
    + intros [[[->|Hc]%elem_of_cons Hk]|[Hk Hm]].
      * right. subst k. split; [done|]. by rewrite lookup_insert_eq.
      * by left.
      * apply not_elem_of_cons in Hk as [Hne Hk]. right. split; [done|]. by rewrite lookup_insert_ne.
Qed.
Lemma index_lookup l k c : NoDup (List.map f l) -> index_from ∅ l !! k = Some c <-> c ∈ l /\ f c = k.
Proof. intros Hn. rewrite index_from_lookup by done. rewrite lookup_empty. naive_solver. Qed.
Lemma index_none l k : NoDup (List.map f l) -> index_from ∅ l !! k = None <-> k ∉ List.map f l.
Proof.
  intros Hn. rewrite eq_None_not_Some. split.
  - intros H (c & -> & Hc)%list_elem_of_fmap. apply H. exists c. by apply index_lookup.
  - intros H [c (Hc & Hk)%index_lookup]; [|done]. apply H. apply list_elem_of_fmap. eauto.
Qed.
End index.

(** ** The entries of a comparison *)

Lemma diffs_entries L R src e :
  e ∈ computeChartDiffs L R src <->
  (exists ch, ch ∈ L /\ e = left_entry src (snapshot_by_name R) ch) \/
  (exists ch, ch ∈ R /\ (sc_ChartName ch ∉ chart_names L) /\ e = added_entry ch).
Proof.
  unfold computeChartDiffs. rewrite <- (sort_less_perm diff_less). rewrite elem_of_app, !list_elem_of_fmap.
  split; (intros [(ch & E & Hc)|(ch & E & Hc)]; [left|right]).
  - eauto.
  - apply list_elem_of_In, filter_In in Hc as [Hc Hn]. rewrite negb_true_iff, bool_decide_eq_false in Hn.
    exists ch. by rewrite list_elem_of_In.
  - eauto.
  - destruct Hc as [Hn ->]. exists ch. split; [done|]. apply list_elem_of_In, filter_In. rewrite <- list_elem_of_In. split; [done|].
    by rewrite negb_true_iff, bool_decide_eq_false.
Qed.

(** Two charts with the same content, up to the end of their values. *)
Definition same_content (c c' : ChartConfig) : Prop :=
  NormalizeValues (cc_DefaultValues c) = NormalizeValues (cc_DefaultValues c') /\
  cc_RepositoryURL c = cc_RepositoryURL c' /\ cc_DeployOrder c = cc_DeployOrder c' /\
  cc_ChartVersion c = cc_ChartVersion c' /\ cc_ChartPath c = cc_ChartPath c' /\
  cc_SourceRepoURL c = cc_SourceRepoURL c' /\ cc_BuildPipelineID c = cc_BuildPipelineID c'.
(** A side of an entry shows the chart [c]. *)
Definition shows (side : option TemplateChartSnapshotData) (c : ChartConfig) : Prop :=
  exists locked required, side = Some (diff_side (upgradeDiffChart c locked required)).

Lemma same_differs c c' l r l' r' :
  chart_differs true (upgradeDiffChart c l r) (upgradeDiffChart c' l' r') = false -> same_content c c'.
Proof.
  unfold chart_differs, same_content. cbn [upgradeDiffChart sc_DefaultValues sc_RepoURL sc_SortOrder sc_ChartVersion sc_ChartPath
    sc_SourceRepoURL sc_BuildPipelineID sc_LockedValues sc_IsRequired andb].
  rewrite !orb_false_iff, !negb_false_iff, !bool_decide_eq_true, Z.eqb_eq. tauto.
Qed.
Lemma differs_content c c' l r :
  chart_differs true (upgradeDiffChart c l r) (upgradeDiffChart c' l r) = true -> ~ same_content c c'.
Proof.
  unfold chart_differs, same_content. cbn [upgradeDiffChart sc_DefaultValues sc_RepoURL sc_SortOrder sc_ChartVersion sc_ChartPath
    sc_SourceRepoURL sc_BuildPipelineID sc_LockedValues sc_IsRequired andb].
  intros Hd (E1 & E2 & E3 & E4 & E5 & E6 & E7). rewrite E1, E2, E3, E4, E5, E6, E7, Z.eqb_refl, Bool.eqb_reflx in Hd.
  rewrite !bool_decide_true in Hd by done. done.
Qed.

(** ** The charts of a definition *)

Definition in_definition (did name : string) (c : ChartConfig) : Prop := cc_StackDefinitionID c = did /\ cc_ChartName c = name.
Definition keyed (m : gmap string ChartConfig) : Prop := forall id c, m !! id = Some c -> cc_ID c = id.
Definition one_per_name (did : string) (m : gmap string ChartConfig) : Prop :=
  forall id1 id2 c1 c2 n, m !! id1 = Some c1 -> m !! id2 = Some c2 ->
    in_definition did n c1 -> in_definition did n c2 -> id1 = id2.

Lemma rows_where_elem {A} (p : A -> bool) (m : gmap string A) c :
  c ∈ rows_where p m <-> (exists id, m !! id = Some c) /\ p c = true.
Proof.
  unfold rows_where. rewrite list_elem_of_In, filter_In, <- list_elem_of_In, list_elem_of_fmap.
  split; intros [H Hp]; (split; [|done]).
  - destruct H as ([id c'] & -> & H). apply elem_of_map_to_list in H. by exists id.
  - destruct H as [id H]. exists (id, c). split; [done|]. by apply elem_of_map_to_list.
Qed.
Lemma ranked_perm {A} rank (id : A -> string) less l : Permutation l (ranked rank id less l).
Proof. unfold ranked. by rewrite <- !sort_less_perm. Qed.
Lemma charts_of_elem rank did s c :
  c ∈ charts_of rank did s <-> (exists id, ct_charts s !! id = Some c) /\ cc_StackDefinitionID c = did.
Proof. unfold charts_of. by rewrite <- ranked_perm, rows_where_elem, bool_decide_eq_true. Qed.

Lemma rows_names {A} (f : A -> string) (p : A -> bool) (m : gmap string A) :
  (forall i j c d, m !! i = Some c -> m !! j = Some d -> p c = true -> p d = true -> f c = f d -> i = j) ->
  NoDup (List.map f (rows_where p m)).
Proof.
  intros Hu. unfold rows_where.
  assert (forall l, NoDup (List.map fst l) -> (forall i c, (i, c) ∈ l -> m !! i = Some c) ->
    NoDup (List.map f (List.filter p (List.map snd l)))) as H.
  { induction l as [|[i c] l IH]; intros Hn Hl; cbn in *; [constructor|]. apply NoDup_cons in Hn as [Hi Hn].
    specialize (IH Hn (fun i c H => Hl i c (list_elem_of_further _ _ _ H))).
    destruct (p c) eqn:Hp; [|done]. cbn. apply NoDup_cons. split; [|done].
    intros (d & E & Hd)%list_elem_of_fmap. apply list_elem_of_In, filter_In in Hd as [Hd Hq].
    apply list_elem_of_In, list_elem_of_fmap in Hd as ([j d'] & -> & Hd). cbn in *. apply Hi.
    apply list_elem_of_fmap. exists (j, d'). split; [|done]. cbn.
    eapply (Hu i j c d'); [apply Hl; by left|apply Hl; by right|done..]. }
  apply H; [apply NoDup_fst_map_to_list|]. intros i c Hc. by apply elem_of_map_to_list.
Qed.
Lemma charts_of_names rank did s : one_per_name did (ct_charts s) -> NoDup (List.map cc_ChartName (charts_of rank did s)).
Proof.
  intros Hu. unfold charts_of. match goal with |- NoDup (List.map _ (ranked ?r ?i ?less ?l)) =>
    pose proof (fmap_Permutation cc_ChartName _ _ (ranked_perm r i less l)) as Hp end.
  unfold fmap, list_fmap in Hp. rewrite <- Hp. apply rows_names.
  intros i j c d Hc Hd E1%bool_decide_eq_true E2%bool_decide_eq_true En. by eapply (Hu i j c d (cc_ChartName c)).
Qed.

(** ** Upgraded charts *)

Section release.
Context (did : string) (release : list TemplateChartConfig) (Hnames : NoDup (List.map tc_ChartName release)).

(** The row after the upgrade. *)
Definition upgrade_row (c : ChartConfig) : ChartConfig :=
  If negb (bool_decide (cc_StackDefinitionID c = did)) Return c ;;
  match by_name release !! cc_ChartName c with
  | Some tch => upgradeTargetChart c tch
  | None => c
  end.
Definition new_chart (id : string) (tch : TemplateChartConfig) : ChartConfig :=
  cc_set_definition id did (upgradeTargetChart zero_chart tch).
(** The charts [m] came from [before] by a part of the upgrade. *)
Record between (before m : gmap string ChartConfig) : Prop := {
  bt_keyed : keyed m;
  bt_names : one_per_name did m;
  bt_old : forall id c, before !! id = Some c -> m !! id = Some c \/ m !! id = Some (upgrade_row c);
  bt_new : forall id c, m !! id = Some c -> before !! id = None ->
    exists tch, tch ∈ release /\ c = new_chart id tch /\
      (forall id' c', before !! id' = Some c' -> ~ in_definition did (tc_ChartName tch) c')
}.
(** All of the upgrade. *)
Record upgraded (before after : gmap string ChartConfig) : Prop := {
  up_keyed : keyed after;
  up_names : one_per_name did after;
  up_old : forall id c, before !! id = Some c -> after !! id = Some (upgrade_row c);
  up_new : forall id c, after !! id = Some c -> before !! id = None ->
    exists tch, tch ∈ release /\ c = new_chart id tch /\
      (forall id' c', before !! id' = Some c' -> ~ in_definition did (tc_ChartName tch) c');
  up_all : forall tch, tch ∈ release -> exists id c, after !! id = Some c /\ in_definition did (tc_ChartName tch) c
}.

Lemma or_keep_twice new old : or_keep new (or_keep new old) = or_keep new old.
Proof. unfold or_keep. by destruct (empty new). Qed.
Lemma upgrade_twice c tch : upgradeTargetChart (upgradeTargetChart c tch) tch = upgradeTargetChart c tch.
Proof. unfold upgradeTargetChart. cbn. by rewrite !or_keep_twice. Qed.
Lemma upgrade_row_target c tch : tch ∈ release -> in_definition did (tc_ChartName tch) c ->
  upgrade_row c = upgradeTargetChart c tch.
Proof.
  intros Ht [Hd Hn]. unfold upgrade_row. rewrite bool_decide_true by done. cbn [negb].
  assert (by_name release !! cc_ChartName c = Some tch) as -> by (by apply (index_lookup tc_ChartName)). done.
Qed.
Lemma upgrade_row_other c : (forall tch, tch ∈ release -> ~ in_definition did (tc_ChartName tch) c) -> upgrade_row c = c.
Proof.
  intros Ho. unfold upgrade_row. destruct (bool_decide (cc_StackDefinitionID c = did)) eqn:Hd; [|done]. cbn [negb].
  destruct (by_name release !! cc_ChartName c) as [tch|] eqn:Hn; [|done].
  apply (index_lookup tc_ChartName) in Hn as [Ht Hn]; [|done]. apply bool_decide_eq_true in Hd.
  by destruct (Ho tch Ht).
Qed.
(** An upgrade keeps the identifier, the definition and the name of a chart. *)
Lemma upgrade_row_keeps c : cc_ID (upgrade_row c) = cc_ID c /\ cc_StackDefinitionID (upgrade_row c) = cc_StackDefinitionID c /\
  cc_ChartName (upgrade_row c) = cc_ChartName c.
Proof.
  unfold upgrade_row. destruct (bool_decide _); [|done]. cbn [negb].
  destruct (by_name release !! cc_ChartName c) as [tch|] eqn:Hn; [|done].
  by apply (index_lookup tc_ChartName) in Hn as [_ Hn].
Qed.

Lemma between_refl m : keyed m -> one_per_name did m -> between m m.
Proof. intros Hk Hn. constructor; [done|done|by left|]. intros id c H1 H2. congruence. Qed.

(** The chart with the content of [tch] is there. *)
Definition done_chart (tch : TemplateChartConfig) (m : gmap string ChartConfig) : Prop :=
  exists id c, m !! id = Some c /\ in_definition did (tc_ChartName tch) c /\ upgradeTargetChart c tch = c.

Lemma between_upgraded before m : keyed before -> between before m -> (forall tch, tch ∈ release -> done_chart tch m) -> upgraded before m.
Proof.
  intros Hk [Hkm Hn Hold Hnew] Hdone. constructor; [done|done| |done|].
  - intros id c Hc. destruct (Hold id c Hc) as [Hm|Hm]; [|done]. rewrite Hm. f_equal.
    destruct (decide (cc_StackDefinitionID c = did)) as [Hd|Hd]; [|unfold upgrade_row; by rewrite bool_decide_false].
    destruct (by_name release !! cc_ChartName c) as [tch|] eqn:Hb.
    2:{ unfold upgrade_row. rewrite bool_decide_true by done. cbn [negb]. by rewrite Hb. }
    apply (index_lookup tc_ChartName) in Hb as [Ht Hb]; [|done].
    assert (in_definition did (tc_ChartName tch) c) as Hin by done.
    rewrite (upgrade_row_target c tch Ht Hin). destruct (Hdone tch Ht) as (id' & c' & Hc' & Hin' & Hu).
    assert (id = id') as <- by (by eapply Hn). congruence.
  - intros tch Ht. destruct (Hdone tch Ht) as (id & c & Hc & Hin & _). eauto.
Qed.

(** *** One write of the upgrade *)

Lemma release_eq tch tch' : tch ∈ release -> tch' ∈ release -> tc_ChartName tch = tc_ChartName tch' -> tch = tch'.
Proof.
  intros H1 H2 E. assert (by_name release !! tc_ChartName tch = Some tch) as Hb by (by apply (index_lookup tc_ChartName)).
  assert (by_name release !! tc_ChartName tch = Some tch') as Hb' by (by apply (index_lookup tc_ChartName)). congruence.
Qed.

Section write.
Context (before m : gmap string ChartConfig) (Hk : keyed before) (Hb : between before m).
Context (tch : TemplateChartConfig) (Ht : tch ∈ release).

Lemma between_update id c : m !! id = Some c -> in_definition did (tc_ChartName tch) c ->
  between before (<[id := upgradeTargetChart c tch]> m).
Proof.
  intros Hc Hin. destruct Hb as [Hkm Hn Hold Hnew]. constructor.
  - intros i d [[<- <-]|[Hne Hd]]%lookup_insert_Some; [by apply Hkm in Hc|by apply Hkm].
  - intros i j d d' n Hd Hd' Hin1 Hin2.
    assert (forall k e, <[id := upgradeTargetChart c tch]> m !! k = Some e -> exists e', m !! k = Some e' /\
      (forall n, in_definition did n e -> in_definition did n e')) as Hm.
    { intros k e [[<- <-]|[Hne He]]%lookup_insert_Some; [|by exists e]. exists c. split; [done|]. intros n' [H1 H2].
      split; [done|]. destruct Hin as [_ Hin]. by rewrite Hin, <- H2. }
    destruct (Hm i d Hd) as (e & He & H1). destruct (Hm j d' Hd') as (e' & He' & H2). eapply (Hn i j e e' n); auto.
  - intros i d Hd. destruct (decide (id = i)) as [<-|Hne]; [|rewrite lookup_insert_ne by done; by apply Hold].
    rewrite lookup_insert_eq. right. f_equal.
    destruct (Hold id d Hd) as [Hm|Hm]; rewrite Hc in Hm; injection Hm as ->; [by rewrite (upgrade_row_target d tch)|].
    destruct (upgrade_row_keeps d) as (_ & E2 & E3). destruct Hin as [Hin1 Hin2].
    rewrite (upgrade_row_target d tch) by (done || split; congruence). by rewrite upgrade_twice.
  - intros i d [[<- <-]|[Hne Hd]]%lookup_insert_Some Hi; [|by apply Hnew].
    destruct (Hnew id c Hc Hi) as (tch' & Ht' & -> & Hno). exists tch'. split; [done|]. split; [|done].
    assert (tch = tch') as -> by (apply release_eq; [done|done|symmetry; apply Hin]).
    unfold new_chart, cc_set_definition, upgradeTargetChart. cbn. by rewrite !or_keep_twice.
Qed.
Lemma between_insert id : m !! id = None -> (forall i c, m !! i = Some c -> ~ in_definition did (tc_ChartName tch) c) ->
  between before (<[id := new_chart id tch]> m).
Proof.
  intros Hid Hno. destruct Hb as [Hkm Hn Hold Hnew].
  assert (before !! id = None) as Hbid.
  { destruct (before !! id) as [d|] eqn:Hd; [|done]. destruct (Hold id d Hd); congruence. }
  constructor.
  - intros i d [[<- <-]|[Hne Hd]]%lookup_insert_Some; [done|by apply Hkm].
  - intros i j d d' n [[<- <-]|[Hne Hd]]%lookup_insert_Some [[<- <-]|[Hne' Hd']]%lookup_insert_Some Hin1 Hin2.
    + done.
    + destruct Hin1 as [_ <-]. by destruct (Hno j d' Hd').
    + destruct Hin2 as [_ <-]. by destruct (Hno i d Hd).
    + by eapply (Hn i j d d' n).
  - intros i d Hd. rewrite lookup_insert_ne by congruence. by apply Hold.
  - intros i d [[<- <-]|[Hne Hd]]%lookup_insert_Some Hi; [|by apply Hnew].
    exists tch. split; [done|]. split; [done|]. intros i c Hc Hin.
    destruct (Hold i c Hc) as [Hm|Hm]; [by apply (Hno i c)|]. destruct (upgrade_row_keeps c) as (_ & E2 & E3).
    apply (Hno i (upgrade_row c) Hm). destruct Hin. split; congruence.
Qed.
Lemma done_update id c tch' : tch' ∈ release -> m !! id = Some c -> in_definition did (tc_ChartName tch) c ->
  done_chart tch' m \/ tch' = tch -> done_chart tch' (<[id := upgradeTargetChart c tch]> m).
Proof.
  intros Ht' Hc Hin Hd. destruct (decide (tc_ChartName tch' = tc_ChartName tch)) as [E|Hne].
  - apply (release_eq tch' tch) in E as ->; [|done|done]. exists id, (upgradeTargetChart c tch). rewrite lookup_insert_eq. split; [done|]. split; [by destruct Hin|]. apply upgrade_twice.
  - destruct Hd as [(i & d & Hd & Hin' & Hu)| ->]; [|done]. exists i, d. split; [|done].
    destruct (decide (id = i)) as [<-|Hni]; [|by rewrite lookup_insert_ne].
    destruct Hne, Hin, Hin'. congruence.
Qed.
Lemma done_insert id tch' : m !! id = None -> done_chart tch' m \/ tch' = tch -> done_chart tch' (<[id := new_chart id tch]> m).
Proof.
  intros Hid [(i & d & Hd & Hin & Hu)| ->].
  - exists i, d. rewrite lookup_insert_ne by congruence. done.
  - exists id, (new_chart id tch). rewrite lookup_insert_eq. split; [done|]. split; [done|].
    unfold new_chart, cc_set_definition, upgradeTargetChart. cbn. by rewrite !or_keep_twice.
Qed.
End write.

(** What [current] says about the charts that are left. *)
Definition current_ok (current : gmap string ChartConfig) (left : list TemplateChartConfig) (m : gmap string ChartConfig) : Prop :=
  forall tch, tch ∈ left ->
    match current !! tc_ChartName tch with
    | Some c => m !! cc_ID c = Some c /\ in_definition did (tc_ChartName tch) c
    | None => forall i c, m !! i = Some c -> ~ in_definition did (tc_ChartName tch) c
    end.

(** *** The program *)

Context (allowed : list string) (before : gmap string ChartConfig) (Hk : keyed before) (s0 : CatalogStore).

Definition same_rest (s : CatalogStore) : Prop :=
  ct_templates s = ct_templates s0 /\ ct_tcharts s = ct_tcharts s0 /\ ct_versions s = ct_versions s0.
Definition part_done (s : CatalogStore) : Prop := between before (ct_charts s) /\ same_rest s.
Definition upgrading (current : gmap string ChartConfig) (left : list TemplateChartConfig) (s : CatalogStore) : Prop :=
  part_done s /\ ct_definitions s = ct_definitions s0 /\ current_ok current left (ct_charts s) /\
  (forall tch, tch ∈ release -> tch ∈ left \/ done_chart tch (ct_charts s)).
Definition after_write (P : CatalogStore -> Prop) (e : error) (s : CatalogStore) : Prop :=
  match e with None => P s | Some _ => part_done s /\ ct_definitions s = ct_definitions s0 end.

Lemma next_ok current current' tch left m m' : NoDup (List.map tc_ChartName (tch :: left)) ->
  (forall tch', tch' ∈ left -> current' !! tc_ChartName tch' = current !! tc_ChartName tch') ->
  (forall i c n, n <> tc_ChartName tch -> in_definition did n c -> m !! i = Some c <-> m' !! i = Some c) ->
  current_ok current (tch :: left) m -> current_ok current' left m'.
Proof.
  intros Hn Hc Hm Hok tch' Ht'. specialize (Hok tch' (list_elem_of_further _ _ _ Ht')). rewrite Hc by done.
  apply NoDup_cons in Hn as [Hnot _].
  assert (tc_ChartName tch' <> tc_ChartName tch) as Hne by (intros E; apply Hnot; rewrite <- E; apply list_elem_of_fmap; eauto).
  destruct (current !! tc_ChartName tch') as [c|].
  - destruct Hok as [H1 H2]. split; [|done]. by apply (Hm _ _ _ Hne H2).
  - intros i c Hi Hin. apply (Hok i c); [|done]. by apply (Hm i c _ Hne Hin).
Qed.

Definition write_chart (id : string) (c : ChartConfig) (s : CatalogStore) : CatalogStore :=
  tb_set chart_configs (<[id := c]> (ct_charts s)) s.

Lemma upgrading_part current left s : upgrading current left s -> part_done s /\ ct_definitions s = ct_definitions s0.
Proof. intros (? & ? & _). done. Qed.
Lemma upgrading_update current tch left c s : NoDup (List.map tc_ChartName (tch :: left)) -> tch ∈ release ->
  current !! tc_ChartName tch = Some c -> upgrading current (tch :: left) s ->
  let c' := upgradeTargetChart c tch in
  upgrading (<[tc_ChartName tch := c']> current) left (write_chart (cc_ID c) c' s).
Proof.
  intros Hn Ht Hc ([Hb Hr] & Hdf & Hok & Hd) c'. pose proof (Hok tch (list_elem_of_here _ _)) as Hthis. rewrite Hc in Hthis. destruct Hthis as [Hm Hin].
  split; [split; [by apply between_update|done]|]. split; [done|]. split.
  - eapply (next_ok current _ tch); [done| | |exact Hok].
    + intros tch' Ht'. apply lookup_insert_ne. apply NoDup_cons in Hn as [Hnot _]. intros E. apply Hnot. rewrite E.
      apply list_elem_of_fmap. eauto.
    + intros i d n Hne Hd'. cbn. destruct (decide (cc_ID c = i)) as [<-|Hni]; [|by rewrite lookup_insert_ne].
      rewrite lookup_insert_eq, Hm. split; intros [= <-]; destruct Hne, Hd', Hin; cbn in *; congruence.
  - intros tch' Ht'. destruct (Hd tch' Ht') as [[->|Hl]%elem_of_cons|Hdone]; [right|by left|right];
      (apply (done_update (ct_charts s)); auto).
Qed.
Lemma upgrading_insert current tch left id s : NoDup (List.map tc_ChartName (tch :: left)) -> tch ∈ release ->
  current !! tc_ChartName tch = None -> ct_charts s !! id = None -> upgrading current (tch :: left) s ->
  upgrading current left (write_chart id (new_chart id tch) s).
Proof.
  intros Hn Ht Hc Hid ([Hb Hr] & Hdf & Hok & Hd). pose proof (Hok tch (list_elem_of_here _ _)) as Hno. rewrite Hc in Hno.
  split; [split; [by apply between_insert|done]|]. split; [done|]. split.
  - eapply (next_ok current _ tch); [done|done| |exact Hok].
    intros i d n Hne Hd'. cbn. destruct (decide (id = i)) as [<-|Hni]; [|by rewrite lookup_insert_ne].
    rewrite lookup_insert_eq, Hid. split; [done|]. intros [= <-]. destruct Hne, Hd'. cbn in *. congruence.
  - intros tch' Ht'. destruct (Hd tch' Ht') as [[->|Hl]%elem_of_cons|Hdone]; [right|by left|right];
      (apply done_insert; auto).
Qed.

Lemma update_holds current tch left c : NoDup (List.map tc_ChartName (tch :: left)) -> tch ∈ release ->
  current !! tc_ChartName tch = Some c ->
  let c' := upgradeTargetChart c tch in
  holds (upgrading current (tch :: left)) (chart_Update allowed c')
    (after_write (upgrading (<[tc_ChartName tch := c']> current) left)).
Proof.
  intros Hn Ht Hc c'. unfold chart_Update. destruct (ChartConfig_Validate allowed c') as [e|].
  { apply triple_ret. intros s Hs. by eapply upgrading_part. }
  pose (Q := fun (r : res Z) s => match r with
    | Ok _ => upgrading (<[tc_ChartName tch := c']> current) left s
    | Err _ => part_done s /\ ct_definitions s = ct_definitions s0
    end).
  eapply (triple_bind _ _ _ _ _ _ Q).
  - apply triple_write; [auto|done| |].
    + intros t s Hs. by apply upgrading_update.
    + intros st err s _ _ Hs. split; [by eapply upgrading_part|].
      apply (upgrading_part (<[tc_ChartName tch := c']> current) left (write_chart (cc_ID c) c' s)). by apply upgrading_update.
  - intros [n|e]; apply triple_ret; intros s Hs; [done|]. cbn. by destruct (errorsIs e "ErrDuplicateKey").
Qed.
Lemma insert_holds current tch left uuid : NoDup (List.map tc_ChartName (tch :: left)) -> tch ∈ release ->
  current !! tc_ChartName tch = None ->
  holds (upgrading current (tch :: left)) (chart_Create allowed (new_chart uuid tch))
    (fun r => after_write (upgrading current left) r.1).
Proof.
  intros Hn Ht Hc. unfold chart_Create. destruct (ChartConfig_Validate allowed _) as [e|].
  { apply triple_ret. intros s Hs. by eapply upgrading_part. }
  eapply triple_bind; [apply (triple_bind _ _ _ _ _ _ (fun _ => upgrading current (tch :: left))); [apply holds_ask|]|].
  { intros uuid'. apply (triple_ret _ _ _ _ _ (fun c s => (exists id, c = new_chart id tch) /\ upgrading current (tch :: left) s)).
    intros s Hs. split; [|done]. destruct (empty _); [by exists uuid'|by exists uuid]. }
  intros row. apply triple_fact. intros [id ->].
  pose (Q := fun (r : res Z) s => match r with
    | Ok _ => upgrading current left s
    | Err _ => part_done s /\ ct_definitions s = ct_definitions s0
    end).
  assert (forall t s, upgrading current (tch :: left) s -> Q (row_insert chart_configs (new_chart id tch) t s).1
    (row_insert chart_configs (new_chart id tch) t s).2) as Hw.
  { intros t s Hs. unfold row_insert. cbn [tb_get tb_id chart_configs new_chart cc_set_definition cc_ID].
    destruct (ct_charts s !! id) as [d|] eqn:Hid; [rewrite bool_decide_true by done; by eapply upgrading_part|].
    rewrite bool_decide_false by (by intros []). by apply upgrading_insert. }
  eapply (triple_bind _ _ _ _ _ _ Q).
  - apply triple_write; [auto|done|done|]. intros st err s _ _ Hs. split; [by eapply upgrading_part|].
    specialize (Hw (en_now st) s Hs). destruct (row_insert _ _ _ _) as [[n|e] s']; [|done]. by apply (upgrading_part current left).
  - intros [n|e]; apply triple_ret; intros s Hs; [done|]. cbn. by destruct (errorsIs e "ErrDuplicateKey").
Qed.

Definition finished (s : CatalogStore) : Prop :=
  (part_done s /\ ct_definitions s = ct_definitions s0) /\ forall tch, tch ∈ release -> done_chart tch (ct_charts s).
Lemma apply_holds left : forall current, NoDup (List.map tc_ChartName left) -> left ⊆ release ->
  holds (upgrading current left) (apply_charts allowed did current left) (after_write finished).
Proof.
  induction left as [|tch left IH]; intros current Hn Hl; cbn [apply_charts].
  - apply triple_ret. intros s (Hp & Hdf & _ & Hd). split; [done|]. intros tch Ht. by destruct (Hd tch Ht) as [?%not_elem_of_nil|].
  - assert (tch ∈ release) as Ht by (apply Hl; by left).
    assert (left ⊆ release) as Hl' by (intros x Hx; apply Hl; by right).
    assert (NoDup (List.map tc_ChartName left)) as Hn' by (by apply NoDup_cons in Hn as [_ Hn]).
    destruct (current !! tc_ChartName tch) as [c|] eqn:Hc.
    + eapply triple_bind; [by apply update_holds|]. intros [e|]; [by apply triple_ret|by apply IH].
    + eapply triple_bind; [apply holds_ask|]. intros uuid. eapply triple_bind; [by apply insert_holds|].
      intros [[e|] row]; [by apply triple_ret|by apply IH].
Qed.
End release.

(** ** The requests *)

Lemma mapped_not_ok entity e : kn_Status (catalog_mapped entity e) <> 200%Z.
Proof.
  unfold catalog_mapped. destruct (mapError e entity) as [st m] eqn:E. apply mapError_safe in E as [E _]. cbn. set_solver.
Qed.
Lemma internal_not_ok e : kn_Status (catalog_internal e) <> 200%Z.
Proof. unfold catalog_internal, cancelledRequestError. by destruct (errorsIs e "Canceled"). Qed.

(** A triple whose result is an error answer. *)
Lemma holds_refuse (P : CatalogStore -> Prop) a (Q : CatalogStore -> Prop) (R : CatalogStore -> Prop) :
  kn_Status a <> 200%Z -> (forall s, P s -> Q s) -> holds P (eret a) (fun a s => Q s /\ (kn_Status a = 200%Z -> R s)).
Proof. intros Ha HP. apply triple_ret. intros s Hs. split; [auto|done]. Qed.

Section requests.
Context `{SnapshotJSON}.
Context (allowed : list string).

(** The release of a template in the state [s], when rows with equal keys come in the order
    of [rank]. *)
Definition release_in (s : CatalogStore) (tid : string) (rank : string -> Z) : res templateRelease :=
  latestTemplateRelease (Some (found_row "find" (Ok (head (versions_of tid s))))) (Some (Ok (tcharts_of rank tid s))) tid.

Lemma release_no_working v w w' tid : is_legacy v = false ->
  latestTemplateRelease (Some (Ok v)) w tid = latestTemplateRelease (Some (Ok v)) w' tid.
Proof.
  unfold is_legacy, latestTemplateRelease. destruct (snapshot_Unmarshal (tvr_Snapshot v)) as [snap|e]; [|done].
  cbn [res_wrap res_bind]. intros Hl. by rewrite Hl.
Qed.
Lemma holds_release tid P : holds P (read_latestTemplateRelease true tid)
  (fun r s => P s /\ forall rel, r = Ok rel -> exists rank, release_in s tid rank = Ok rel).
Proof.
  unfold read_latestTemplateRelease, read_release. cbn [negb].
  eapply (triple_bind _ _ _ _ _ _ (fun r s => P s /\ ((exists v, r = Ok v /\ head (versions_of tid s) = Some v) \/ exists e, r = Err e))).
  { eapply triple_bind; [apply holds_read|]. intros r. apply triple_ret. intros s [Hp Hr]. split; [done|].
    destruct Hr as [[t ->]|[e ->]]; [|right; by eexists]. cbn. destruct (head (versions_of tid s)); [left|right]; eauto. }
  intros [v|e].
  2:{ apply triple_ret. intros s [Hp _]. split; [done|]. cbn. by destruct (errorsIs e _). }
  destruct (is_legacy v) eqn:Hl; cbn [negb].
  - eapply triple_bind; [eapply triple_bind; [apply holds_ask|]|].
    { intros rank. eapply triple_bind; [apply holds_read|]. intros r.
      apply (triple_ret _ _ _ _ _ (fun w s => (P s /\ head (versions_of tid s) = Some v) /\
        ((exists rank, w = Ok (tcharts_of rank tid s)) \/ exists e, w = Err e))).
      intros s [[Hp Hv] Hr]. split; [split; [done|]|destruct Hr as [[t ->]|[e ->]]; [left|right]; eauto].
      destruct Hv as [(v' & [= <-] & Hv)|[e [=]]]. done. }
    intros w. apply triple_ret. intros s [[Hp Hv] Hw]. split; [done|]. intros rel Hrel. unfold release_in. rewrite Hv. cbn [found_row].
    destruct Hw as [[rank ->]|[e ->]]; [by exists rank|]. cbn in Hrel. unfold is_legacy in Hl.
    destruct (snapshot_Unmarshal (tvr_Snapshot v)); [|done]. cbn in Hrel. by rewrite Hl in Hrel.
  - apply triple_ret. intros s [Hp Hv]. split; [done|]. intros rel Hrel. exists (fun _ => 0%Z). unfold release_in.
    destruct Hv as [(v' & [= <-] & Hv)|[e [=]]]. rewrite Hv. cbn [found_row]. by rewrite (release_no_working _ _ (Some (Ok [])) _ Hl).
Qed.

(** *** The run of an upgrade *)

Section run.
Context (s0 : CatalogStore) (c : Caller) (did : string) (release : templateRelease) (tid : string).
Context (Hrelease : forall rank, release_in s0 tid rank = Ok release).
Context (Hnames : NoDup (List.map tc_ChartName (tr_Charts release))).
Context (before : gmap string ChartConfig) (Hk : keyed before).
Local Abbreviation part s := (part_done did (tr_Charts release) before s0 s).

Lemma same_release s rank : same_rest s0 s -> release_in s tid rank = Ok release.
Proof.
  intros (_ & E2 & E3). rewrite <- (Hrelease rank). unfold release_in, versions_of, tcharts_of. by rewrite E2, E3.
Qed.
Lemma holds_release_is P : (forall s, P s -> same_rest s0 s) ->
  holds P (read_latestTemplateRelease true tid) (fun r s => P s /\ (forall rel, r = Ok rel -> rel = release)).
Proof.
  intros HP. eapply triple_post; [apply holds_release|]. intros r s [Hp Hr]. split; [done|]. intros rel E.
  destruct (Hr rel E) as [rank Hin]. rewrite same_release in Hin by auto. by injection Hin.
Qed.
Lemma holds_upgradeRelease P : (forall s, P s -> same_rest s0 s) ->
  holds P (upgradeRelease true tid) (fun r s => P s /\ (forall rel, r = Ok rel -> rel = release)).
Proof.
  intros HP. unfold upgradeRelease. eapply triple_bind; [apply holds_find|]. intros r.
  apply (triple_pre _ _ _ _ _ P); [|by intros s [? _]]. destruct r as [t|e].
  - destruct (tm_IsPublished t); [by apply holds_release_is|]. by apply triple_ret.
  - destruct (errorsIs e _); by apply triple_ret.
Qed.
Lemma holds_charts P : holds P (ListByDefinition did)
  (fun r s => P s /\ (forall l, r = Ok l -> exists rank, l = charts_of rank did s)).
Proof.
  unfold ListByDefinition. eapply triple_bind; [apply holds_ask|]. intros rank. eapply triple_bind; [apply holds_read|]. intros r.
  apply triple_ret. intros s [Hp Hr]. split; [done|]. intros l E. destruct Hr as [[t ->]|[e ->]]; [|done]. injection E as <-. by exists rank.
Qed.
Lemma current_charts_ok rank s : part s -> current_ok did (current_by_name (charts_of rank did s)) (tr_Charts release) (ct_charts s).
Proof.
  intros [[Hkm Hn _ _] _] tch Ht. pose proof (charts_of_names rank did s Hn) as Hnd.
  destruct (current_by_name _ !! tc_ChartName tch) as [d|] eqn:E.
  - apply (index_lookup cc_ChartName) in E as [Hd E]; [|done]. apply charts_of_elem in Hd as [[id Hd] Hdid].
    rewrite (Hkm id d Hd). done.
  - apply (index_none cc_ChartName) in E; [|done]. intros i d Hd [H1 H2]. apply E. rewrite <- H2.
    apply list_elem_of_fmap. exists d. split; [done|]. apply charts_of_elem. eauto.
Qed.

Context (s1 : CatalogStore) (Hs1 : part s1) (def : StackDefinition).
Context (Hdef : ct_definitions s1 !! did = Some def) (Hid : df_ID def = did) (Htid : df_SourceTemplateID def = tid).
Definition upgraded_definition : StackDefinition := df_set_link tid (tvr_Version (tr_version release)) def.
(** The state after the run, when it answers 200. *)
Definition complete (s : CatalogStore) : Prop :=
  (forall tch, tch ∈ tr_Charts release -> done_chart did tch (ct_charts s)) /\
  ct_definitions s = <[did := upgraded_definition]> (ct_definitions s1).

Lemma holds_definition_update d (P Q : CatalogStore -> Prop) : (forall s, P s -> Q s) ->
  (forall s, P s -> Q (tb_set stack_definitions (<[df_ID d := d]> (ct_definitions s)) s)) ->
  holds P (definition_Update d) (fun e s => Q s /\ (e = None -> exists s', P s' /\
    s = tb_set stack_definitions (<[df_ID d := d]> (ct_definitions s')) s')).
Proof.
  intros HP HQ. unfold definition_Update.
  eapply (triple_bind _ _ _ _ _ _ (fun r s => Q s /\ ((exists n : Z, r = Ok n) -> exists s', P s' /\
    s = tb_set stack_definitions (<[df_ID d := d]> (ct_definitions s')) s'))).
  - apply triple_write; [auto|done| |].
    + intros t s Hs. split; [by apply HQ|]. intros _. exists s. done.
    + intros st err s _ _ Hs. split; (split; [auto|by intros [n [=]]]). by apply HQ.
  - intros [n|e].
    + apply triple_ret. intros s [Hs Hn]. split; [done|]. intros _. apply Hn. by exists n.
    + eapply triple_bind; [apply holds_ctx|]. intros ctx.
      destruct (bool_decide (is_Some ctx)) eqn:Hc; apply triple_ret; intros s [Hs _]; (split; [done|]); [|done].
      apply bool_decide_eq_true in Hc as [c' ->]. cbn. by repeat case_match.
Qed.

(** Its state at any time. *)
Definition run_state (s : CatalogStore) : Prop :=
  part s /\ (ct_definitions s = ct_definitions s1 \/ ct_definitions s = <[did := upgraded_definition]> (ct_definitions s1)).

Lemma run_release : holds (fun s => s = s1) (
    let? charts := ListByDefinition did in
    match charts with
    | Err e => eret (catalog_mapped entityChartConfigs e)
    | Ok charts => apply_release allowed def charts release
    end) (fun a s => run_state s /\ (kn_Status a = 200%Z -> complete s)).
Proof.
  eapply triple_bind; [apply holds_charts|]. intros [charts|e].
  2:{ apply holds_refuse; [apply mapped_not_ok|]. intros s [-> _]. split; [done|by left]. }
  assert (df_ID upgraded_definition = did) as Hid' by done. unfold apply_release. rewrite Htid. fold upgraded_definition.
  cbv zeta. rewrite Hid, Hid'.
  set (s2 := mkCatalog (ct_templates s0) (ct_tcharts s0) (ct_versions s0) (ct_definitions s1) (ct_charts s0)).
  eapply triple_bind; [eapply triple_pre; [apply (apply_holds did (tr_Charts release) Hnames allowed before s2); done|]|].
  { intros s [-> Hc]. destruct (Hc charts eq_refl) as [rank ->]. split; [exact Hs1|]. split; [done|].
    split; [by apply current_charts_ok|]. by left. }
  intros [e|].
  { apply holds_refuse; [apply mapped_not_ok|]. intros s [? Hdf]. split; [done|by left]. }
  eapply triple_bind; [apply (holds_definition_update upgraded_definition _ run_state)|].
  - intros s [[Hp Hdf] _]. split; [exact Hp|by left].
  - intros s [[Hp Hdf] _]. split; [exact Hp|right]. cbn. by rewrite Hdf, Hid.
  - intros [e|]; [apply holds_refuse; [apply mapped_not_ok|]; by intros s [? _]|].
    eapply triple_bind; [eapply triple_pre; [apply (holds_charts (fun s => run_state s /\ complete s))|]|].
    { intros s [Hp Hs]. split; [done|]. destruct (Hs eq_refl) as (s' & [[_ Hdf] Hdone] & ->). split; [done|]. cbn. by rewrite Hdf, Hid. }
    intros [l|e]; [apply triple_ret; by intros s [[? ?] _]|]. apply holds_refuse; [apply mapped_not_ok|]. by intros s [[? ?] _].
Qed.

Lemma run_apply : holds (fun s => s = s1) (ApplyUpgrade allowed true c did) (fun a s => run_state s /\ (kn_Status a = 200%Z -> complete s)).
Proof.
  assert (forall s, s = s1 -> run_state s) as H1 by (intros s ->; split; [done|by left]).
  unfold ApplyUpgrade. destruct (empty did); [by apply holds_refuse|]. unfold modifiable.
  eapply triple_bind; [eapply triple_bind; [apply holds_find|]|].
  { intros r. apply (triple_ret _ _ _ _ _ (fun r s => s = s1 /\ match r with inl d => d = def | inr a => kn_Status a <> 200%Z end)).
    intros s [-> Hr]. split; [done|]. destruct r as [d|e]; [|apply mapped_not_ok].
    destruct (negb (requireDefinitionModify c d)); [done|]. specialize (Hr d eq_refl). cbn in Hr. congruence. }
  intros [d|a].
  2:{ eapply triple_pre; [apply (triple_fact _ _ _ _ (kn_Status a <> 200%Z) (fun s => s = s1)); intros Ha; by apply holds_refuse|].
      by intros s [? ?]. }
  eapply triple_pre; [apply (triple_fact _ _ _ _ (d = def) (fun s => s = s1)); intros ->|by intros s [? ?]].
  rewrite Htid. cbv zeta. destruct (empty tid || negb true); [by apply holds_refuse|].
  eapply triple_bind; [apply (holds_upgradeRelease (fun s => s = s1)); intros s ->; apply Hs1|].
  intros [rel|e].
  - eapply triple_pre; [apply (triple_fact _ _ _ _ (rel = release) (fun s => s = s1)); intros ->|intros s [Hs Hr]; split; [by apply Hr|done]].
    destruct (bool_decide _); [by apply holds_refuse|]. apply run_release.
  - destruct (errorsIs e _); apply holds_refuse; [done|by intros s [-> _]; apply H1|apply internal_not_ok|by intros s [-> _]; apply H1].
Qed.

Lemma run_check : holds (fun s => s = s1) (CheckUpgrade true did) (fun a s => s = s1 /\
  forall u, kn_Body a = KBUpgrade u -> uc_UpgradeAvailable u = true ->
    exists rank sources, uc_ChartDiffs u = upgradeChartDiffs sources (charts_of rank did s1) (tr_Charts release)).
Proof.
  set (Q := fun a s => s = s1 /\ forall u, kn_Body a = KBUpgrade u -> uc_UpgradeAvailable u = true ->
    exists rank sources, uc_ChartDiffs u = upgradeChartDiffs sources (charts_of rank did s1) (tr_Charts release)).
  assert (forall a (P : CatalogStore -> Prop), (forall s, P s -> s = s1) ->
    (forall u, kn_Body a = KBUpgrade u -> uc_UpgradeAvailable u = true -> False) -> holds P (eret a) Q) as Hno.
  { intros a P HP Ha. apply triple_ret. intros s Hs. split; [auto|]. intros u E1 E2. by destruct (Ha u E1 E2). }
  assert (forall entity e u, kn_Body (catalog_mapped entity e) = KBUpgrade u -> False) as Hm
    by (intros ? ? ?; unfold catalog_mapped; by destruct (mapError _ _)).
  assert (forall e u, kn_Body (catalog_internal e) = KBUpgrade u -> False) as Hi
    by (intros ? ?; unfold catalog_internal; by destruct (cancelledRequestError e) as [[]|]).
  assert (forall a b d u, kn_Body (no_upgrade a b d) = KBUpgrade u -> uc_UpgradeAvailable u = true -> False) as Hn
    by (by intros ? ? ? ? [= <-]).
  unfold CheckUpgrade. destruct (empty did); [by apply Hno|]. eapply triple_bind; [apply holds_find|]. intros [d|e].
  2:{ apply Hno; [by intros s [? _]|]. intros u E. by apply Hm in E. }
  eapply triple_pre; [apply (triple_fact _ _ _ _ (d = def) (fun s => s = s1)); intros ->|].
  2:{ intros s [-> Hd]. split; [|done]. specialize (Hd d eq_refl). cbn in Hd. congruence. }
  rewrite Htid. cbv zeta. destruct (empty tid || negb true); [apply Hno; [done|apply Hn]|].
  eapply triple_bind; [apply (holds_upgradeRelease (fun s => s = s1)); intros s ->; apply Hs1|]. intros [rel|e].
  2:{ destruct (errorsIs e _); apply Hno; [by intros s [? _]|apply Hn|by intros s [? _]|]. intros u E. by apply Hi in E. }
  eapply triple_pre; [apply (triple_fact _ _ _ _ (rel = release) (fun s => s = s1)); intros ->|intros s [Hs Hr]; split; [by apply Hr|done]].
  destruct (bool_decide _); [apply Hno; [done|apply Hn]|].
  eapply triple_bind; [apply holds_charts|]. intros [charts|e].
  2:{ apply Hno; [by intros s [? _]|]. intros u E. by apply Hm in E. }
  eapply triple_bind; [eapply triple_bind; [apply holds_read|]|].
  { intros r. apply (triple_ret _ _ _ _ _ (fun _ s => s = s1 /\ exists rank, charts = charts_of rank did s1)).
    intros s [[-> Hc] _]. split; [done|]. by apply Hc. }
  intros versions. apply triple_ret. intros s [-> [rank ->]]. split; [done|]. intros u [= <-] _. cbn. eauto.
Qed.
End run.

(** ** The meaning of the entries *)

(** A definition with its release. *)
Record upgradable (s : CatalogStore) (did : string) (def : StackDefinition) (release : templateRelease) : Prop := {
  ua_definition : ct_definitions s !! did = Some def;
  ua_id : df_ID def = did;
  ua_release : forall rank, release_in s (df_SourceTemplateID def) rank = Ok release;
  ua_names : NoDup (List.map tc_ChartName (tr_Charts release));
  ua_keyed : keyed (ct_charts s);
  ua_one : one_per_name did (ct_charts s)
}.

Definition rules_differ (e : chartDiffEntry) : Prop :=
  exists l r, de_Left e = Some l /\ de_Right e = Some r /\
    (NormalizeValues (sc_LockedValues l) <> NormalizeValues (sc_LockedValues r) \/ sc_IsRequired l <> sc_IsRequired r).
(** An entry tells how the chart of its name goes from [before] to [after]. *)
Definition entry_true (did : string) (before after : gmap string ChartConfig) (e : chartDiffEntry) : Prop :=
  let at_ m id c := m !! id = Some c /\ in_definition did (de_ChartName e) c in
  (de_ChangeType e = "removed" /\ exists id c, at_ before id c /\ at_ after id c /\ shows (de_Left e) c) \/
  (de_ChangeType e = "added" /\ (forall id c, ~ at_ before id c) /\ exists id c, at_ after id c /\ shows (de_Right e) c) \/
  (exists id c c', at_ before id c /\ at_ after id c' /\ shows (de_Left e) c /\ shows (de_Right e) c' /\
     (de_ChangeType e = "unchanged" /\ same_content c c' \/
      de_ChangeType e = "modified" /\ (same_content c c' -> rules_differ e))).

Section entries.
Context (did : string) (rel : list TemplateChartConfig) (before after : gmap string ChartConfig) (cur : list ChartConfig).
Context (sources : gmap string TemplateChartSnapshotData).
Context (Hnames : NoDup (List.map tc_ChartName rel)) (Hkeyed : keyed before) (Hup : upgraded did rel before after).
Context (Hcur : forall c, c ∈ cur <-> (exists id, before !! id = Some c) /\ cc_StackDefinitionID c = did).
Context (Hcnames : NoDup (List.map cc_ChartName cur)).
Local Abbreviation L := (List.map (upgrade_left sources (by_name rel)) cur).
Local Abbreviation R := (List.map (upgrade_right (current_by_name cur)) rel).

Lemma left_shows ch : exists l r, upgrade_left sources (by_name rel) ch = upgradeDiffChart ch l r.
Proof. unfold upgrade_left. repeat case_match; eauto. Qed.
Lemma left_name ch : sc_ChartName (upgrade_left sources (by_name rel) ch) = cc_ChartName ch.
Proof. by destruct (left_shows ch) as (l & r & ->). Qed.
Lemma left_names : chart_names L = List.map cc_ChartName cur.
Proof. unfold chart_names. rewrite map_map. apply map_ext, left_name. Qed.
Lemma right_names : List.map sc_ChartName R = List.map tc_ChartName rel.
Proof. by rewrite map_map. Qed.
Lemma right_lookup n rch : snapshot_by_name R !! n = Some rch <->
  exists tch, tch ∈ rel /\ tc_ChartName tch = n /\ rch = upgrade_right (current_by_name cur) tch.
Proof.
  change (snapshot_by_name R) with (index_from sc_ChartName ∅ R). rewrite (index_lookup sc_ChartName) by (by rewrite right_names). rewrite list_elem_of_fmap. naive_solver.
Qed.
Lemma after_current id c tch : before !! id = Some c -> tch ∈ rel -> in_definition did (tc_ChartName tch) c ->
  after !! id = Some (upgradeTargetChart c tch).
Proof. intros Hc Ht Hin. rewrite (up_old _ _ _ _ Hup id c Hc). by rewrite (upgrade_row_target did rel Hnames c tch). Qed.
Lemma after_new tch : tch ∈ rel -> (forall id c, before !! id = Some c -> ~ in_definition did (tc_ChartName tch) c) ->
  exists id, after !! id = Some (new_chart did id tch).
Proof.
  intros Ht Hno. destruct (up_all _ _ _ _ Hup tch Ht) as (id & c & Hc & Hin). exists id. rewrite Hc. f_equal.
  destruct (before !! id) as [d|] eqn:Hd.
  - rewrite (up_old _ _ _ _ Hup id d Hd) in Hc. injection Hc as <-. destruct (upgrade_row_keeps did rel Hnames d) as (_ & E1 & E2).
    destruct (Hno id d Hd). destruct Hin. split; congruence.
  - destruct (up_new _ _ _ _ Hup id c Hc Hd) as (tch' & Ht' & -> & _). f_equal.
    apply (release_eq rel Hnames); [done|done|]. by destruct Hin.
Qed.

Lemma left_entry_true id ch : before !! id = Some ch -> cc_StackDefinitionID ch = did ->
  entry_true did before after (left_entry true (snapshot_by_name R) (upgrade_left sources (by_name rel) ch)).
Proof.
  intros Hid Hd. assert (ch ∈ cur) as Hin by (apply Hcur; eauto). unfold left_entry. rewrite left_name.
  destruct (left_shows ch) as (l & r & El). destruct (snapshot_by_name R !! cc_ChartName ch) as [rch|] eqn:E.
  - apply right_lookup in E as (tch & Ht & En & ->). right. right. exists id, ch, (upgradeTargetChart ch tch).
    pose proof (after_current id ch tch Hid Ht (conj Hd (eq_sym En))) as Ha.
    assert (current_by_name cur !! tc_ChartName tch = Some ch) as Hc by (by apply (index_lookup cc_ChartName)).
    unfold upgrade_right. rewrite Hc, El. cbn [default de_ChartName de_Left de_Right de_ChangeType].
    split_and!; [done|by split|done|by split|by exists l, r|by eexists _, _|].
    destruct (chart_differs true _ _) eqn:Hdiff; [right|left]; (split; [done|]); [|by eapply same_differs].
    intros Hsame. eexists _, _. split; [done|]. split; [done|]. cbn.
    destruct (decide (NormalizeValues l = NormalizeValues (tc_LockedValues tch))) as [E1|]; [|by left].
    destruct (decide (r = tc_Required tch)) as [->|]; [|by right].
    exfalso. revert Hdiff Hsame. unfold chart_differs. cbn [upgradeDiffChart sc_LockedValues]. rewrite E1.
    apply (differs_content ch (upgradeTargetChart ch tch) (tc_LockedValues tch) (tc_Required tch)).
  - left. split; [done|]. exists id, ch. cbn [de_ChartName de_Left].
    assert (after !! id = Some ch) as Ha.
    { rewrite (up_old _ _ _ _ Hup id ch Hid). f_equal. apply upgrade_row_other; [done|]. intros tch Ht [_ Hn].
      assert (snapshot_by_name R !! cc_ChartName ch = Some (upgrade_right (current_by_name cur) tch)) as E'
        by (apply right_lookup; eauto). congruence. }
    split_and!; [done|by split|done|by split|]. rewrite El. by exists l, r.
Qed.
Lemma added_entry_true tch : tch ∈ rel -> tc_ChartName tch ∉ List.map cc_ChartName cur ->
  entry_true did before after (added_entry (upgrade_right (current_by_name cur) tch)).
Proof.
  intros Ht Hn. right. left. split; [done|]. cbn [added_entry de_ChartName de_Right upgrade_right upgradeDiffChart sc_ChartName upgradeTargetChart cc_ChartName].
  assert (forall id c, before !! id = Some c -> ~ in_definition did (tc_ChartName tch) c) as Hno.
  { intros id c Hc [Hd E]. apply Hn. rewrite <- E. apply list_elem_of_fmap. exists c. split; [done|]. apply Hcur. eauto. }
  split; [intros id c [Hc Hin]; by apply (Hno id c)|]. destruct (after_new tch Ht Hno) as [id Ha]. exists id, (new_chart did id tch).
  split; [split; [done|by split]|]. unfold upgrade_right.
  assert (current_by_name cur !! tc_ChartName tch = None) as -> by (by apply (index_none cc_ChartName)). by eexists _, _.
Qed.
Lemma entries_true e : e ∈ upgradeChartDiffs sources cur rel -> entry_true did before after e.
Proof.
  intros [(ch & Hc & ->)|(ch & Hc & Hn & ->)]%diffs_entries.
  - apply list_elem_of_fmap in Hc as (c & -> & Hc). apply Hcur in Hc as [[id Hid] Hd]. by eapply left_entry_true.
  - apply list_elem_of_fmap in Hc as (tch & -> & Ht). apply added_entry_true; [done|]. by rewrite <- left_names.
Qed.
Lemma entries_complete id c : after !! id = Some c -> cc_StackDefinitionID c = did ->
  exists e, e ∈ upgradeChartDiffs sources cur rel /\ de_ChartName e = cc_ChartName c.
Proof.
  intros Hc Hd. unfold upgradeChartDiffs. destruct (before !! id) as [d|] eqn:Hb.
  - rewrite (up_old _ _ _ _ Hup id d Hb) in Hc. injection Hc as <-. destruct (upgrade_row_keeps did rel Hnames d) as (_ & E1 & E2).
    eexists. split; [apply diffs_entries; left; exists (upgrade_left sources (by_name rel) d); split; [|done]|].
    + apply list_elem_of_fmap. exists d. split; [done|]. apply Hcur. split; [eauto|congruence].
    + unfold left_entry. rewrite E2. case_match; apply left_name.
  - destruct (up_new _ _ _ _ Hup id c Hc Hb) as (tch & Ht & -> & Hno).
    exists (added_entry (upgrade_right (current_by_name cur) tch)). split; [|done]. apply diffs_entries. right.
    exists (upgrade_right (current_by_name cur) tch). split_and!; [apply list_elem_of_fmap; eauto| |done].
    rewrite left_names. intros (d & E & [[i Hi] Hdd]%Hcur)%list_elem_of_fmap. by apply (Hno i d Hi).
Qed.
End entries.

(** ** Theorems *)

(** C36. The check of an upgrade tells what the upgrade does.  While nobody else changes the
    catalog, when a check answers that an upgrade is there and an upgrade of the same state
    answers 200, each entry of the check tells how the chart of its name changes (removed
    charts stay in the definition), every chart that the definition has afterwards has an
    entry, the charts of other definitions stay, and the definition has the new version. *)
Theorem check_shows_upgrade (did : string) (def : StackDefinition) (release : templateRelease) (c : Caller)
    (w1 w2 : EWorld CatalogStore catalog_event CatalogAnswers) (u : upgradeCheckResponse) :
  (forall n, still (ew_env w1 n)) -> (forall n, still (ew_env w2 n)) -> ew_quiet w1 = false -> ew_quiet w2 = false ->
  ew_state w1 = ew_state w2 -> upgradable (ew_state w2) did def release ->
  kn_Body (CheckUpgrade true did w1).1 = KBUpgrade u -> uc_UpgradeAvailable u = true ->
  let r := ApplyUpgrade allowed true c did w2 in
  kn_Status r.1 = 200%Z ->
  let before := ct_charts (ew_state w2) in
  let after := ct_charts (ew_state r.2) in
  (forall e, e ∈ uc_ChartDiffs u -> entry_true did before after e) /\
  (forall id ch, after !! id = Some ch -> cc_StackDefinitionID ch = did ->
     exists e, e ∈ uc_ChartDiffs u /\ de_ChartName e = cc_ChartName ch) /\
  (forall id ch, cc_StackDefinitionID ch <> did -> after !! id = Some ch <-> before !! id = Some ch) /\
  ct_definitions (ew_state r.2) =
    <[did := df_set_link (df_SourceTemplateID def) (tvr_Version (tr_version release)) def]> (ct_definitions (ew_state w2)).
Proof.
  intros H1 H2 Q1 Q2 Es [Hdef Hid Hrel Hn Hk Ho] Hu Ha r Hr before after.
  assert (part_done did (tr_Charts release) before (ew_state w2) (ew_state w2)) as Hpart by (by split; [apply between_refl|]).
  destruct (run_check (ew_state w2) did release (df_SourceTemplateID def) Hrel before (ew_state w2) Hpart def Hdef eq_refl w1 H1 Q1 Es)
    as (_ & _ & _ & _ & Hd). destruct (Hd u Hu Ha) as (rank & sources & Ed).
  destruct (run_apply (ew_state w2) c did release _ Hrel Hn before (ew_state w2) Hpart def Hdef Hid eq_refl w2 H2 Q2 eq_refl)
    as (_ & _ & _ & [Hp _] & Hc). destruct (Hc Hr) as [Hdone Hdefs].
  assert (upgraded did (tr_Charts release) before after) as Hup by (apply between_upgraded; [done|done|apply Hp|done]).
  rewrite Ed. pose proof (charts_of_names rank did (ew_state w2) Ho) as Hcn.
  pose proof (charts_of_elem rank did (ew_state w2)) as Hce. split_and!; [|intros id ch; by eapply entries_complete| |done].
  - intros e. by apply entries_true.
  - intros id ch Hne. split; intros Hch.
    + destruct (before !! id) as [d|] eqn:Hb.
      * rewrite (up_old _ _ _ _ Hup id d Hb) in Hch. injection Hch as <-.
        destruct (upgrade_row_keeps did (tr_Charts release) Hn d) as (_ & E & _). unfold upgrade_row. rewrite bool_decide_false by congruence. done.
      * destruct (up_new _ _ _ _ Hup id ch Hch Hb) as (tch & _ & -> & _). done.
    + rewrite (up_old _ _ _ _ Hup id ch Hch). unfold upgrade_row. by rewrite bool_decide_false.
Qed.

(** Attempts of an upgrade, whatever they answer. *)
Inductive attempts (did : string) (s : CatalogStore) : CatalogStore -> Prop :=
| att_none : attempts did s s
| att_more c w : attempts did s (ew_state w) -> (forall n, still (ew_env w n)) -> ew_quiet w = false ->
    attempts did s (ew_state (ApplyUpgrade allowed true c did w).2).

Section resume.
Context (did : string) (def : StackDefinition) (release : templateRelease) (s0 : CatalogStore).
Context (Hup : upgradable s0 did def release).
Definition linked : StackDefinition := df_set_link (df_SourceTemplateID def) (tvr_Version (tr_version release)) def.
Definition attempted (s : CatalogStore) : Prop :=
  part_done did (tr_Charts release) (ct_charts s0) s0 s /\
  (ct_definitions s = ct_definitions s0 \/ ct_definitions s = <[did := linked]> (ct_definitions s0)).

Lemma attempt_run c w : (forall n, still (ew_env w n)) -> ew_quiet w = false -> attempted (ew_state w) ->
  let r := ApplyUpgrade allowed true c did w in
  attempted (ew_state r.2) /\ (kn_Status r.1 = 200%Z ->
    upgraded did (tr_Charts release) (ct_charts s0) (ct_charts (ew_state r.2)) /\
    ct_definitions (ew_state r.2) = <[did := linked]> (ct_definitions s0)).
Proof.
  intros Hw Hq [Hp Hd] r. destruct Hup as [Hdef Hid Hrel Hn Hk Ho].
  assert (exists d, ct_definitions (ew_state w) !! did = Some d /\ (d = def \/ d = linked)) as (d & Hfd & Hdd).
  { destruct Hd as [->| ->]; [by exists def; auto|]. exists linked. rewrite lookup_insert_eq. auto. }
  assert (df_ID d = did /\ df_SourceTemplateID d = df_SourceTemplateID def /\
    upgraded_definition release (df_SourceTemplateID def) d = linked) as (E1 & E2 & E3) by (by destruct Hdd as [->| ->]).
  destruct (run_apply s0 c did release _ Hrel Hn (ct_charts s0) (ew_state w) Hp d Hfd E1 E2 w Hw Hq eq_refl)
    as (_ & _ & _ & [Hp' Hd'] & Hc). rewrite E3 in *. fold r in Hp', Hd', Hc.
  assert (<[did := linked]> (ct_definitions (ew_state w)) = <[did := linked]> (ct_definitions s0)) as E4.
  { destruct Hd as [->| ->]; [done|]. by rewrite insert_insert_eq. }
  split.
  - split; [done|]. destruct Hd' as [->| ->]; [done|]. right. done.
  - intros Hr. destruct (Hc Hr) as [Hdone Hdefs]. rewrite E3 in Hdefs. split; [apply between_upgraded; [done|done|apply Hp'|done]|].
    by rewrite Hdefs.
Qed.
Lemma attempts_state s : attempts did s0 s -> attempted s.
Proof.
  induction 1 as [|c w _ IH Hw Hq]; [|by apply attempt_run]. split; [|by left].
  split; [|done]. apply between_refl; apply Hup.
Qed.
End resume.

(** C35. An upgrade that stops half way is completed by a later one.  Nobody else writes, the
    charts of the definition have distinct names and so have those of the release: after any number of
    attempts that failed at any step, with any statement lost or not, one that answers 200
    leaves exactly the charts that one upgrade of the first state would leave (each released
    chart once, with the released content and the old row when there was one; all other rows
    as they were), and the definition has the new version. *)
Theorem upgrade_resumes (did : string) (def : StackDefinition) (release : templateRelease) (c : Caller) (s0 : CatalogStore)
    (w : EWorld CatalogStore catalog_event CatalogAnswers) :
  upgradable s0 did def release -> attempts did s0 (ew_state w) -> (forall n, still (ew_env w n)) -> ew_quiet w = false ->
  let r := ApplyUpgrade allowed true c did w in
  kn_Status r.1 = 200%Z ->
  upgraded did (tr_Charts release) (ct_charts s0) (ct_charts (ew_state r.2)) /\
  ct_definitions (ew_state r.2) =
    <[did := df_set_link (df_SourceTemplateID def) (tvr_Version (tr_version release)) def]> (ct_definitions s0).
Proof.
  intros Hup Ha Hw Hq r Hr. pose proof (attempts_state did def release s0 Hup _ Ha) as Hs.
  by destruct (attempt_run did def release s0 Hup c w Hw Hq Hs) as [_ Hok]; apply Hok.
Qed.
End requests.

(** ** An example

    A definition with the charts web and worker, whose template now has web and cache. *)

Lemma index_unique {A} (f : A -> string) l c d : NoDup (List.map f l) -> c ∈ l -> d ∈ l -> f c = f d -> c = d.
Proof.
  intros Hn Hc Hd E. assert (index_from f ∅ l !! f c = Some c) as H1 by (by apply index_lookup).
  assert (index_from f ∅ l !! f c = Some d) as H2 by (by apply index_lookup). congruence.
Qed.
Lemma keyed_check m : forallb (fun p => String.eqb (cc_ID p.2) p.1) (map_to_list m) = true -> keyed m.
Proof.
  rewrite forallb_forall. intros Hf id c Hc. apply elem_of_map_to_list, list_elem_of_In, Hf in Hc. by apply String.eqb_eq in Hc.
Qed.
Lemma one_per_name_check did m : keyed m ->
  NoDup (List.map cc_ChartName (rows_where (fun c => bool_decide (cc_StackDefinitionID c = did)) m)) -> one_per_name did m.
Proof.
  intros Hk Hn i j c d n Hc Hd [D1 N1] [D2 N2]. rewrite <- (Hk i c Hc), <- (Hk j d Hd). f_equal.
  eapply (index_unique cc_ChartName); [exact Hn| | |congruence]; apply rows_where_elem; rewrite bool_decide_eq_true; eauto.
Qed.

Section example.
Let web : TemplateChartConfig := mkTChart "t-web" "t1" "web" "https://charts" "" "" "" "2.0" "replicas: 3" "" 0 true.
Let cache : TemplateChartConfig := mkTChart "t-cache" "t1" "cache" "https://charts" "" "" "" "1.0" "" "" 1 false.
Let shop : StackTemplate := mkTemplate "t1" "shop" "" "" "main" true "2.0" "u1".
#[local] Instance shop_json : SnapshotJSON := fun _ => Ok (NewTemplateSnapshot shop [web; cache]).
Definition shop_def : StackDefinition := mkDefinition "d1" "mine" "" "alice" "t1" "1.0" "main" "".
Definition shop_catalog : CatalogStore :=
  mkCatalog {["t1" := shop]} ∅ {["v2" := mkVersion "v2" "t1" "2.0" "stored" "" "u1" 0]} {["d1" := shop_def]}
    {["c1" := mkChart "c1" "d1" "web" "https://charts" "" "" "" "1.0" "replicas: 1" 0;
      "c2" := mkChart "c2" "d1" "worker" "https://charts" "" "" "" "1.0" "" 2]}.
Definition shop_step (fault : error) (n : nat) : Env CatalogStore CatalogAnswers :=
  mkStep (fun s => s) 0 fault false None (mkCatalogAnswers ("new-" +:+ itoa (Z.of_nat n)) (fun _ => 0%Z) (fun _ _ => Ok false)).
Definition shop_world (fault : nat -> error) (s : CatalogStore) : EWorld CatalogStore catalog_event CatalogAnswers :=
  mkEWorld s (fun n => shop_step (fault n) n) 0 false [].
Definition alice : Caller := mkCaller "alice" "alice" roleUser.

Example shop_changes :
  exists u, kn_Body (CheckUpgrade true "d1" (shop_world (fun _ => None) shop_catalog)).1 = KBUpgrade u /\
    uc_Changes u = Some (mkChanges ["cache"] ["worker"] ["web"] []).
Proof. eexists. vm_compute. done. Qed.

Lemma shop_still fault s n : still (ew_env (shop_world fault s) n).
Proof. done. Qed.
Lemma shop_upgradable : exists release, upgradable shop_catalog "d1" shop_def release /\
  List.map tc_ChartName (tr_Charts release) = ["web"; "cache"] /\ tvr_Version (tr_version release) = "2.0".
Proof.
  assert (keyed (ct_charts shop_catalog)) as Hk by (apply keyed_check; by vm_compute).
  eexists. split; [split; [done|done|intros rank; vm_compute; reflexivity| |done|]|by vm_compute].
  - vm_compute. repeat constructor; set_solver.
  - apply one_per_name_check; [done|]. vm_compute. repeat constructor; set_solver.
Qed.

Lemma check_shows_upgrade_witness :
  exists u after, kn_Body (CheckUpgrade true "d1" (shop_world (fun _ => None) shop_catalog)).1 = KBUpgrade u /\
    length (uc_ChartDiffs u) = 3%nat /\ (forall e, e ∈ uc_ChartDiffs u -> entry_true "d1" (ct_charts shop_catalog) after e).
Proof.
  destruct shop_upgradable as (release & Hup & _).
  eexists _, _. split; [by vm_compute|]. split; [by vm_compute|].
  eapply (check_shows_upgrade [] "d1" shop_def release alice (shop_world (fun _ => None) shop_catalog)
    (shop_world (fun _ => None) shop_catalog)); [done|done|done|done|done|exact Hup|by vm_compute|done|by vm_compute].
Defined.

(** The write of the second chart fails; the next attempt completes the upgrade. *)
Lemma upgrade_resumes_witness :
  exists s after, attempts [] "d1" shop_catalog s /\ ct_definitions s = ct_definitions shop_catalog /\
    (cc_ChartVersion <$> ct_charts s !! "c1") = Some "2.0" /\ kn_Status (ApplyUpgrade [] true alice "d1" (shop_world (fun _ => None) s)).1 = 200%Z /\
    exists release, upgraded "d1" (tr_Charts release) (ct_charts shop_catalog) after.
Proof.
  destruct shop_upgradable as (release & Hup & _).
  set (faulty := shop_world (fun n => if Nat.eqb n 8 then Some (ENew "gone") else None) shop_catalog).
  pose (s := (ew_state (ApplyUpgrade [] true alice "d1" faulty).2)).
  exists s. assert (attempts [] "d1" shop_catalog s) as Ha by (apply (att_more _ _ _ alice faulty); [apply att_none|done|done]).
  eexists. split; [exact Ha|]. split; [by vm_compute|]. split; [by vm_compute|]. split; [by vm_compute|]. exists release.
  eapply (upgrade_resumes [] "d1" shop_def release alice shop_catalog (shop_world (fun _ => None) s)); [exact Hup|exact Ha|done|done|by vm_compute].
Defined.
End example.
