(* ===== verification/DefinitionRules.v ===== *)
(** * Rules of definitions

    What a caller without the devops or admin role can do to definitions, and that an import
    of an export gives the exported definition again. *)

From S2P Require Import Prelude Decimals Models Store World Access Templates Builder Values Effects Catalog Diffs Definitions Upgrades UpgradeRules.
Local Open Scope string_scope.
Local Open Scope list_scope.

Lemma devops_gate c k : isPrivilegedRole c = false -> exists a, devops c k = eret a.
Proof.
  unfold isPrivilegedRole. intros Hp%bool_decide_eq_false. unfold devops, RequireDevOps.
  destruct (RequireRole [roleDevOps] (ca_Role c)) eqn:E; [|by eexists]. exfalso. apply Hp.
  apply RequireRole_spec in E as (level & Hl & Hr). assert (level <> 1%Z) as Hne.
  { intros ->. destruct Hr as [Hn|(q & l & Hq & El & Hle)]; [by apply (Hn roleDevOps 2%Z); [left|]|].
    apply list_elem_of_singleton in Hq as ->. by injection El as <-. }
  unfold role_level, roleHierarchy in Hl. apply lookup_insert_Some in Hl as [[_ <-]|[_ Hl]]; [done|].
  apply lookup_insert_Some in Hl as [[<- _]|[_ Hl]]; [set_solver|]. apply lookup_singleton_Some in Hl as [<- _]. set_solver.
Qed.

Section rules.
Context `{SnapshotJSON} `{Yaml} `{YamlProblem}.
Context (allowed : list string) (versioned hasTx : bool) (c : Caller).
Context (Hrole : isPrivilegedRole c = false).

(** ** Requests that only read *)

Section reading.
Context (step : Env CatalogStore CatalogAnswers -> Prop) (ev : catalog_event -> Prop) (inv : CatalogStore -> Prop).
Context (Hstable : stable step inv).
Local Abbreviation safe m Φ := (keeping step ev inv m Φ).

Lemma safe_read_any {A} (f : time -> CatalogStore -> A) : safe (eread f) (fun _ => True).
Proof. eapply keeping_post; [by apply keeping_read|]. done. Qed.
Lemma safe_ask_any {A} (f : CatalogAnswers -> A) : safe (eask f) (fun _ => True).
Proof. eapply keeping_post; [by apply keeping_ask|]. done. Qed.

Lemma any_find {A} (T : Table A) op i : safe (row_FindByID T op i) (fun _ => True).
Proof. eapply keeping_bind; [apply safe_read_any|]. intros; by apply keeping_ret. Qed.
Lemma any_list did : safe (ListByDefinition did) (fun _ => True).
Proof.
  eapply keeping_bind; [apply safe_ask_any|]. intros rank _. eapply keeping_bind; [apply safe_read_any|]. intros; by apply keeping_ret.
Qed.
Lemma any_modifiable i : safe (modifiable c i) (fun _ => True).
Proof. eapply keeping_bind; [apply any_find|]. intros; by apply keeping_ret. Qed.
Lemma safe_read_release tid : safe (read_latestTemplateRelease versioned tid) (fun _ => True).
Proof.
  unfold read_latestTemplateRelease, read_release. destruct (negb versioned); [by apply keeping_ret|].
  eapply (keeping_bind _ _ _ _ _ (fun _ => True)); [eapply keeping_bind; [apply safe_read_any|]; intros; by apply keeping_ret|].
  intros [v|e] _; [|by apply keeping_ret]. destruct (negb (is_legacy v)); [by apply keeping_ret|].
  eapply (keeping_bind _ _ _ _ _ (fun _ => True)); [|intros; by apply keeping_ret].
  eapply keeping_bind; [apply safe_ask_any|]. intros rank _. eapply keeping_bind; [apply safe_read_any|]. intros; by apply keeping_ret.
Qed.
Lemma safe_upgradeRelease tid : safe (upgradeRelease versioned tid) (fun _ => True).
Proof.
  unfold upgradeRelease. eapply keeping_bind; [apply any_find|]. intros [t|e] _.
  - destruct (negb (tm_IsPublished t)); [by apply keeping_ret|apply safe_read_release].
  - destruct (errorsIs e _); by apply keeping_ret.
Qed.
Lemma safe_check i : safe (CheckUpgrade versioned i) (fun _ => True).
Proof.
  unfold CheckUpgrade. destruct (empty i); [by apply keeping_ret|]. eapply keeping_bind; [apply any_find|].
  intros [d|e] _; [|by apply keeping_ret]. destruct (_ || _); [by apply keeping_ret|].
  eapply keeping_bind; [apply safe_upgradeRelease|]. intros [rel|e] _; [|destruct (errorsIs e _); by apply keeping_ret].
  destruct (bool_decide _); [by apply keeping_ret|]. eapply keeping_bind; [apply any_list|]. intros [l|e] _; [|by apply keeping_ret].
  eapply (keeping_bind _ _ _ _ _ (fun _ => True)); [|intros; by apply keeping_ret].
  eapply keeping_bind; [apply safe_read_any|]. intros; by apply keeping_ret.
Qed.
Lemma safe_chart did chid : safe (requireChartInDefinition did chid) (fun _ => True).
Proof. eapply keeping_bind; [apply any_find|]. intros; by apply keeping_ret. Qed.
Lemma safe_get i : safe (GetDefinition i) (fun _ => True).
Proof.
  unfold GetDefinition. destruct (empty i); [by apply keeping_ret|]. eapply keeping_bind; [apply any_find|].
  intros [d|e] _; [|by apply keeping_ret]. eapply keeping_bind; [apply any_list|]. intros; by apply keeping_ret.
Qed.
Lemma safe_blocked i l : safe (instances_block i l) (fun _ => True).
Proof.
  induction l as [|st l IH]; cbn; [by apply keeping_ret|]. eapply keeping_bind; [apply safe_ask_any|].
  intros [[|]|e] _; [by apply keeping_ret|done|by apply keeping_ret].
Qed.
End reading.

(** ** Definitions of others *)

Section foreign.
Context (id owner : string) (Howner : ca_UserID c <> owner).

(** [id] belongs to [owner], when it is there. *)
Definition owned (s : CatalogStore) : Prop :=
  forall i d, ct_definitions s !! i = Some d -> df_ID d = i /\ (i = id -> df_OwnerID d = owner).
Definition owned_step (st : Env CatalogStore CatalogAnswers) : Prop := forall s, owned s -> owned (en_others st s).
(** A statement on the definition or its charts, or one that such a caller never makes. *)
Definition spares (e : catalog_event) : Prop :=
  match e with
  | KInsert (RChart ch) | KSave (RChart ch) => cc_StackDefinitionID ch <> id
  | KSave (RDefinition d) => df_ID d <> id
  | KDelete TDefinitions i => i <> id
  | _ => False
  end.
Local Abbreviation safe m Φ := (keeping owned_step spares owned m Φ).

Lemma owned_stable : stable owned_step owned.
Proof. intros st s Hst Hs. by apply Hst. Qed.
#[local] Hint Resolve owned_stable : core.

Lemma safe_find {A} (T : Table A) op i : safe (row_FindByID T op i) (fun r => forall row, r = Ok row -> exists s, owned s /\ tb_get T s !! i = Some row).
Proof.
  eapply keeping_bind; [by apply keeping_read|]. intros r (st & s & _ & Hs & ->). apply keeping_ret. intros row E. exists s.
  split; [done|]. destruct (en_fault st); [done|]. cbn in E. destruct (tb_get T s !! i); [by injection E as ->|done].
Qed.
(** The caller changes only definitions of its own. *)
Lemma safe_modifiable i : safe (modifiable c i) (fun r => forall d, r = inl d -> df_ID d = i /\ i <> id).
Proof.
  eapply keeping_bind; [apply safe_find|]. intros [d|e] Hr; apply keeping_ret; [|done]. intros d'.
  unfold requireDefinitionModify. rewrite Hrole. destruct (bool_decide (df_OwnerID d = ca_UserID c)) eqn:E.
  2:{ by rewrite andb_false_r. }
  destruct (negb (empty (df_OwnerID d))); [|done]. intros [= <-]. destruct (Hr d eq_refl) as (s & Hs & Hd).
  destruct (Hs i d Hd) as [Hi Ho]. split; [done|]. intros ->. apply bool_decide_eq_true in E. rewrite Ho in E by done. by destruct Howner.
Qed.

Lemma safe_save {A} (T : Table A) row (k : res Z -> error) : spares (KSave (tb_row T row)) ->
  (forall t s, owned s -> owned (row_save T row t s).2) ->
  safe (let? r := ewrite (row_save T row) (KSave (tb_row T row)) in eret (k r)) (fun _ => True).
Proof.
  intros He Hw. eapply (keeping_bind _ _ _ _ _ (fun _ => True)); [|intros; by apply keeping_ret].
  apply keeping_write; [done|done|..]; auto.
Qed.
Lemma safe_chart_update ch : cc_StackDefinitionID ch <> id -> safe (chart_Update allowed ch) (fun _ => True).
Proof.
  intros Hne. unfold chart_Update. destruct (ChartConfig_Validate allowed ch); [by apply keeping_ret|].
  by apply (safe_save chart_configs).
Qed.
Lemma safe_chart_create ch : cc_StackDefinitionID ch <> id -> safe (chart_Create allowed ch) (fun _ => True).
Proof.
  intros Hne. unfold chart_Create. destruct (ChartConfig_Validate allowed ch); [by apply keeping_ret|].
  eapply (keeping_bind _ _ _ _ _ (fun ch => cc_StackDefinitionID ch <> id)).
  { eapply keeping_bind; [by apply safe_ask_any|]. intros uuid _. apply keeping_ret. by destruct (empty _). }
  intros row Hrow. eapply (keeping_bind _ _ _ _ _ (fun _ => True)); [|intros; by apply keeping_ret].
  apply keeping_write; [done|done| |done]. intros t s Hs. split; [|done]. unfold row_insert. by destruct (bool_decide _).
Qed.
Lemma safe_definition_update d : df_ID d <> id -> safe (definition_Update d) (fun _ => True).
Proof.
  intros Hne. unfold definition_Update. eapply (keeping_bind _ _ _ _ _ (fun _ => True)).
  - apply keeping_write; [done|done| |done]. intros t s Hs. split; [|done]. intros i d' Hl. cbn in Hl.
    apply lookup_insert_Some in Hl as [[<- <-]|[Hi Hd]]; [|by apply Hs].
    split; [done|]. by intros E.
  - intros [n|e] _; [by apply keeping_ret|]. eapply keeping_bind; [by apply keeping_ctx|]. intros ctx _.
    destruct (bool_decide _); by apply keeping_ret.
Qed.

Lemma safe_list did : safe (ListByDefinition did) (fun r => forall l, r = Ok l -> forall ch, ch ∈ l -> cc_StackDefinitionID ch = did).
Proof.
  eapply keeping_bind; [by apply safe_ask_any|]. intros rank _. eapply keeping_bind; [by apply keeping_read|].
  intros r (st & s & _ & _ & ->). apply keeping_ret. intros l E ch Hch. destruct (en_fault st); [done|]. injection E as <-.
  by apply charts_of_elem in Hch as [_ Hch].
Qed.
Lemma safe_apply did l : did <> id -> forall current, (forall n ch, current !! n = Some ch -> cc_StackDefinitionID ch = did) ->
  safe (apply_charts allowed did current l) (fun _ => True).
Proof.
  intros Hne. induction l as [|tch l IH]; intros current Hc; cbn [apply_charts]; [by apply keeping_ret|].
  destruct (current !! tc_ChartName tch) as [ch|] eqn:E.
  - pose proof (Hc _ _ E) as Hd. eapply keeping_bind; [apply safe_chart_update; cbn; congruence|]. intros [e|] _; [by apply keeping_ret|].
    apply IH. intros n ch' [[<- <-]|[Hn Hch]]%lookup_insert_Some; [done|by eapply Hc].
  - eapply keeping_bind; [by apply safe_ask_any|]. intros uuid _. eapply keeping_bind; [by apply safe_chart_create|].
    intros [[e|] row] _; [by apply keeping_ret|]. by apply IH.
Qed.

Lemma index_values {A} (f : A -> string) (P : A -> Prop) l : (forall x, x ∈ l -> P x) ->
  forall m n x, (forall n x, m !! n = Some x -> P x) -> index_from f m l !! n = Some x -> P x.
Proof.
  unfold index_from. induction l as [|y l IH]; intros Hl m n x Hm; [apply Hm|]. apply IH; [intros z Hz; apply Hl; by right|].
  intros k z [[_ <-]|[_ Hz]]%lookup_insert_Some; [apply Hl; by left|by eapply Hm].
Qed.

(** *** The requests *)

Lemma safe_update i body : safe (UpdateDefinition c i body) (fun _ => True).
Proof.
  unfold UpdateDefinition. destruct (empty i); [by apply keeping_ret|]. eapply keeping_bind; [apply safe_modifiable|].
  intros [d|a] Hd; [|by apply keeping_ret]. destruct (Hd d eq_refl) as [Ei Hne].
  destruct body as [update|]; [|by apply keeping_ret].
  assert (safe (save_definition (updated_definition update d)) (fun _ => True)) as Hsave.
  { unfold save_definition. destruct (StackDefinition_Validate _); [by apply keeping_ret|].
    eapply keeping_bind; [apply safe_definition_update; cbn; congruence|]. intros e _. by apply keeping_ret. }
  destruct (_ || _); [done|]. eapply (keeping_bind _ _ _ _ _ (fun _ => True)); [|intros [a|] _; [by apply keeping_ret|done]].
  eapply (keeping_bind _ _ _ _ _ (fun _ => True)); [|intros; by apply keeping_ret].
  eapply (keeping_bind _ _ _ _ _ (fun _ => True)); [|intros; by apply keeping_ret].
  eapply keeping_bind; [by apply safe_read_any|]. intros; by apply keeping_ret.
Qed.
Lemma safe_delete i : safe (DeleteDefinition c i) (fun _ => True).
Proof.
  unfold DeleteDefinition. destruct (empty i); [by apply keeping_ret|]. eapply keeping_bind; [apply safe_modifiable|].
  intros [d|a] Hd; [|by apply keeping_ret]. destruct (Hd d eq_refl) as [Ei Hne].
  eapply keeping_bind; [by apply safe_blocked|]. intros [a|] _; [by apply keeping_ret|].
  eapply (keeping_bind _ _ _ _ _ (fun _ => True)); [|intros; by apply keeping_ret].
  eapply (keeping_bind _ _ _ _ _ (fun _ => True)); [|intros; by apply keeping_ret].
  apply keeping_write; [done|done| |done]. intros t s Hs. split; [|done]. unfold row_delete.
  destruct (tb_get _ s !! i); [|done]. intros j d' Hl. cbn in Hl. apply lookup_delete_Some in Hl as [_ Hl]. by apply Hs.
Qed.
Lemma safe_upgrade i : safe (ApplyUpgrade allowed versioned c i) (fun _ => True).
Proof.
  unfold ApplyUpgrade. destruct (empty i); [by apply keeping_ret|]. eapply keeping_bind; [apply safe_modifiable|].
  intros [d|a] Hd; [|by apply keeping_ret]. destruct (Hd d eq_refl) as [Ei Hne].
  destruct (_ || _); [by apply keeping_ret|]. eapply keeping_bind; [by apply safe_upgradeRelease|]. intros [rel|e] _.
  2:{ destruct (errorsIs e _); by apply keeping_ret. }
  destruct (bool_decide _); [by apply keeping_ret|]. eapply keeping_bind; [apply safe_list|]. intros [l|e] Hl; [|by apply keeping_ret].
  unfold apply_release. rewrite Ei. eapply keeping_bind.
  { apply safe_apply; [done|]. intros n ch. apply (index_values cc_ChartName (fun ch => cc_StackDefinitionID ch = i)); [by apply Hl|].
    intros k x Hk. by rewrite lookup_empty in Hk. }
  intros [e|] _; [by apply keeping_ret|]. eapply keeping_bind; [apply safe_definition_update; cbn; congruence|].
  intros [e|] _; [by apply keeping_ret|]. eapply keeping_bind; [apply safe_list|]. intros; by apply keeping_ret.
Qed.
Lemma safe_update_chart did chid body : safe (UpdateChartConfig allowed c did chid body) (fun _ => True).
Proof.
  unfold UpdateChartConfig. eapply keeping_bind; [by apply safe_chart|]. intros [ch|a] _; [|by apply keeping_ret].
  destruct body as [update|]; [|by apply keeping_ret].
  eapply (keeping_bind _ _ _ _ _ (fun r => r = None -> cc_StackDefinitionID ch <> id)).
  { unfold chart_gate. rewrite Hrole. eapply keeping_bind; [apply safe_modifiable|]. intros [d|a] Hd; apply keeping_ret; [|done].
    intros _. by destruct (Hd d eq_refl). }
  intros [a|] Hg; [by apply keeping_ret|]. destruct (if changed _ _ then _ else _); [by apply keeping_ret|].
  destruct (ChartConfig_Validate allowed _); [by apply keeping_ret|].
  eapply keeping_bind; [apply safe_chart_update; by apply Hg|]. intros; by apply keeping_ret.
Qed.
Lemma safe_request q : safe (handle_definition allowed versioned hasTx c q) (fun _ => True).
Proof.
  destruct q; cbn [handle_definition];
    try (match goal with |- context [devops c ?k] => destruct (devops_gate c k Hrole) as [a ->]; by apply keeping_ret end).
  - by apply safe_get.
  - apply safe_update.
  - apply safe_delete.
  - by apply safe_check.
  - apply safe_upgrade.
  - unfold GetChartConfig. eapply keeping_bind; [by apply safe_chart|]. intros [ch|a] _; by apply keeping_ret.
  - apply safe_update_chart.
Qed.
End foreign.

(** ** The source of a chart *)

Definition chart_source (ch : ChartConfig) : string * string * string * string :=
  (cc_ChartName ch, cc_RepositoryURL ch, cc_ChartPath ch, cc_ChartVersion ch).

Section source.
Context (chid : string) (src : string * string * string * string).

(** The chart [chid] has the source [src], when it is there. *)
Definition has_source (s : CatalogStore) : Prop :=
  forall i ch, ct_charts s !! i = Some ch -> cc_ID ch = i /\ (i = chid -> chart_source ch = src).
Definition source_step (st : Env CatalogStore CatalogAnswers) : Prop := forall s, has_source s -> has_source (en_others st s).
(** A save of a chart keeps the source; no chart is added or removed. *)
Definition keeps_source (e : catalog_event) : Prop :=
  match e with
  | KSave (RChart ch) => cc_ID ch = chid -> chart_source ch = src
  | KSave (RDefinition _) | KDelete TDefinitions _ => True
  | _ => False
  end.
Local Abbreviation safe m Φ := (keeping source_step keeps_source has_source m Φ).

Lemma source_stable : stable source_step has_source.
Proof. intros st s Hst Hs. by apply Hst. Qed.
#[local] Hint Resolve source_stable : core.

Lemma changed_no p cur : changed p cur = false -> default cur p = cur.
Proof. destruct p as [v|]; [|done]. cbn. by intros Hv%negb_false_iff%bool_decide_eq_true. Qed.
Lemma source_unchanged ch update : chartSourceChanged ch update = false -> chart_source (updated_chart ch update) = chart_source ch.
Proof.
  unfold chartSourceChanged, chart_source. rewrite !orb_false_iff. intros [[[? ?] ?] ?]. cbn. by rewrite !changed_no.
Qed.
Lemma source_find i : safe (row_FindByID chart_configs "find_by_id" i)
  (fun r => forall ch, r = Ok ch -> cc_ID ch = i /\ (i = chid -> chart_source ch = src)).
Proof.
  eapply keeping_bind; [by apply keeping_read|]. intros r (st & s & _ & Hs & ->). apply keeping_ret.
  intros ch E. destruct (en_fault st); [done|]. cbn in E. destruct (ct_charts s !! i) as [ch'|] eqn:Hc; [|done]. injection E as ->.
  by apply (Hs i).
Qed.
Lemma source_update did i body : safe (UpdateChartConfig allowed c did i body) (fun _ => True).
Proof.
  unfold UpdateChartConfig.
  eapply (keeping_bind _ _ _ _ _ (fun r => forall ch, r = inl ch -> cc_ID ch = i /\ (i = chid -> chart_source ch = src))).
  { eapply keeping_bind; [apply source_find|]. intros [ch|e] Hch; apply keeping_ret; [|done].
    intros ch'. destruct (negb _); [done|]. intros [= <-]. by apply Hch. }
  intros [ch|a] Hch; [|by apply keeping_ret]. destruct (Hch ch eq_refl) as [Hid Hsrc]. destruct body as [update|]; [|by apply keeping_ret].
  eapply (keeping_bind _ _ _ _ _ (fun r => r = None -> chartSourceChanged ch update = false)).
  { unfold chart_gate. rewrite Hrole. eapply keeping_bind; [by apply any_modifiable|].
    intros [d|a] _; apply keeping_ret; [|done]. by destruct (chartSourceChanged ch update). }
  intros [a|] Hg; [by apply keeping_ret|]. specialize (Hg eq_refl).
  destruct (if changed _ _ then _ else _); [by apply keeping_ret|]. destruct (ChartConfig_Validate allowed _) eqn:Hv; [by apply keeping_ret|].
  eapply (keeping_bind _ _ _ _ _ (fun _ => True)); [|intros; by apply keeping_ret]. unfold chart_Update. rewrite Hv.
  assert (cc_ID (updated_chart ch update) = chid -> chart_source (updated_chart ch update) = src) as Hsame.
  { cbn [cc_ID updated_chart]. rewrite Hid. intros ->. rewrite source_unchanged by done. by apply Hsrc. }
  eapply (keeping_bind _ _ _ _ _ (fun _ => True)); [|intros; by apply keeping_ret].
  apply keeping_write; [done|exact Hsame| |done]. intros t s Hs. split; [|done]. intros k ch' Hl. cbn in Hl.
  apply lookup_insert_Some in Hl as [[<- <-]|[_ Hl]]; [|by apply Hs]. split; [done|]. exact Hsame.
Qed.

(** A write that leaves the charts as they are. *)
Lemma source_write {A} (f : time -> CatalogStore -> res A * CatalogStore) e : keeps_source e ->
  (forall t s, ct_charts (f t s).2 = ct_charts s) -> safe (ewrite f e) (fun _ => True).
Proof.
  intros He Hf. apply keeping_write; [done|done| |done]. intros t s Hs. split; [|done]. intros i ch. rewrite Hf. apply Hs.
Qed.
Lemma source_definition i body : safe (UpdateDefinition c i body) (fun _ => True).
Proof.
  unfold UpdateDefinition. destruct (empty i); [by apply keeping_ret|]. eapply keeping_bind; [by apply any_modifiable|].
  intros [d|a] _; [|by apply keeping_ret]. destruct body as [update|]; [|by apply keeping_ret].
  assert (safe (save_definition (updated_definition update d)) (fun _ => True)) as Hsave.
  { unfold save_definition, definition_Update. destruct (StackDefinition_Validate _); [by apply keeping_ret|].
    eapply (keeping_bind _ _ _ _ _ (fun _ => True)); [|intros; by apply keeping_ret].
    eapply keeping_bind; [by apply source_write|]. intros [n|e] _; [by apply keeping_ret|].
    eapply keeping_bind; [by apply keeping_ctx|]. intros ctx _. destruct (bool_decide _); by apply keeping_ret. }
  destruct (_ || _); [done|]. eapply (keeping_bind _ _ _ _ _ (fun _ => True)); [|intros [a|] _; [by apply keeping_ret|done]].
  eapply (keeping_bind _ _ _ _ _ (fun _ => True)); [|intros; by apply keeping_ret].
  eapply (keeping_bind _ _ _ _ _ (fun _ => True)); [|intros; by apply keeping_ret]. eapply keeping_bind; [by apply safe_read_any|]. intros; by apply keeping_ret.
Qed.
Lemma source_delete i : safe (DeleteDefinition c i) (fun _ => True).
Proof.
  unfold DeleteDefinition. destruct (empty i); [by apply keeping_ret|]. eapply keeping_bind; [by apply any_modifiable|].
  intros [d|a] _; [|by apply keeping_ret]. eapply keeping_bind; [by apply safe_blocked|]. intros [a|] _; [by apply keeping_ret|].
  eapply (keeping_bind _ _ _ _ _ (fun _ => True)); [|intros; by apply keeping_ret].
  eapply (keeping_bind _ _ _ _ _ (fun _ => True)); [|intros; by apply keeping_ret].
  apply source_write; [done|]. intros t s. unfold row_delete. by destruct (tb_get _ s !! i).
Qed.
Lemma source_request q : (forall id, q <> DUpgrade id) -> safe (handle_definition allowed versioned hasTx c q) (fun _ => True).
Proof.
  intros Hq. destruct q; cbn [handle_definition];
    try (match goal with |- context [devops c ?k] => destruct (devops_gate c k Hrole) as [a ->]; by apply keeping_ret end).
  - by apply safe_get.
  - apply source_definition.
  - apply source_delete.
  - by apply safe_check.
  - by destruct (Hq id).
  - unfold GetChartConfig. eapply keeping_bind; [by apply safe_chart|]. intros [ch|a] _; by apply keeping_ret.
  - apply source_update.
Qed.
End source.

(** *** The source of an upgrade *)

Section upgrade.
Context (repos : list string).

(** The repositories of all published charts. *)
Definition published_repos (s : CatalogStore) : Prop :=
  forall i v snap ch, ct_versions s !! i = Some v -> snapshot_Unmarshal (tvr_Snapshot v) = Ok snap -> ch ∈ ts_Charts snap ->
    sc_RepoURL ch ∈ repos.
Definition published_step (st : Env CatalogStore CatalogAnswers) : Prop := forall s, published_repos s -> published_repos (en_others st s).
Definition from_published (e : catalog_event) : Prop :=
  match e with
  | KInsert (RChart ch) | KSave (RChart ch) => cc_RepositoryURL ch ∈ repos
  | KSave (RDefinition _) => True
  | _ => False
  end.
Local Abbreviation safe m Φ := (keeping published_step from_published published_repos m Φ).
Local Abbreviation released r := (forall rel, r = Ok rel -> forall tch, tch ∈ tr_Charts rel -> tc_RepositoryURL tch ∈ repos).

Lemma published_stable : stable published_step published_repos.
Proof. intros st s Hst Hs. by apply Hst. Qed.
#[local] Hint Resolve published_stable : core.

Lemma latest_repos v charts tid rel : (forall snap ch, snapshot_Unmarshal (tvr_Snapshot v) = Ok snap -> ch ∈ ts_Charts snap -> sc_RepoURL ch ∈ repos) ->
  latestTemplateRelease (Some (Ok v)) charts tid = Ok rel -> forall tch, tch ∈ tr_Charts rel -> tc_RepositoryURL tch ∈ repos.
Proof.
  intros Hv Hr. cbn in Hr. destruct (snapshot_Unmarshal (tvr_Snapshot v)) as [snap|e] eqn:Es; [|done]. cbn [res_wrap res_bind] in Hr.
  destruct (if negb _ then _ else _) as [working|e]; [|done]. injection Hr as <-. intros tch Ht. cbn in Ht. unfold ChartConfigs in Ht.
  apply list_elem_of_In, in_map_iff in Ht as (ch & <- & Hch%list_elem_of_In).
  assert (tc_RepositoryURL (released_chart tid (ts_SchemaVersion snap <? 1)%Z (by_name working) ch) = sc_RepoURL ch) as ->
    by (unfold released_chart; destruct (negb _); [done|]; by destruct (_ !! _)).
  by apply (Hv snap).
Qed.
Lemma published_release tid : safe (read_latestTemplateRelease versioned tid) (fun r => released r).
Proof.
  unfold read_latestTemplateRelease, read_release. destruct (negb versioned); [by apply keeping_ret|].
  eapply (keeping_bind _ _ _ _ _ (fun r => forall v, r = Ok v -> forall snap ch, snapshot_Unmarshal (tvr_Snapshot v) = Ok snap -> ch ∈ ts_Charts snap -> sc_RepoURL ch ∈ repos)).
  - eapply keeping_bind; [by apply keeping_read|]. intros r (st & s & _ & Hs & ->). apply keeping_ret. intros v E snap ch.
    destruct (en_fault st); [done|]. destruct (versions_of tid s) as [|x l] eqn:El; [done|]. injection E as <-.
    assert (x ∈ versions_of tid s) as Hx by (rewrite El; by left). unfold versions_of in Hx. rewrite <- sort_less_perm in Hx.
    apply rows_where_elem in Hx as [[i Hi] _]. by apply (Hs i).
  - intros [v|e] Hv; [|apply keeping_ret; intros rel; cbn; by destruct (errorsIs e _)]. specialize (Hv v eq_refl). destruct (negb (is_legacy v)).
    + apply keeping_ret. intros rel Hr. by eapply latest_repos.
    + eapply (keeping_bind _ _ _ _ _ (fun _ => True)); [|intros charts _; apply keeping_ret; intros rel Hr; by eapply latest_repos].
      eapply keeping_bind; [by apply safe_ask_any|]. intros rank _. eapply keeping_bind; [by apply safe_read_any|]. intros; by apply keeping_ret.
Qed.
Lemma published_upgradeRelease tid : safe (upgradeRelease versioned tid) (fun r => released r).
Proof.
  unfold upgradeRelease. eapply keeping_bind; [by apply any_find|]. intros [t|e] _.
  - destruct (negb (tm_IsPublished t)); [by apply keeping_ret|apply published_release].
  - destruct (errorsIs e _); by apply keeping_ret.
Qed.
Lemma published_write {A} (f : time -> CatalogStore -> res A * CatalogStore) e : from_published e ->
  (forall t s, ct_versions (f t s).2 = ct_versions s) -> safe (ewrite f e) (fun _ => True).
Proof.
  intros He Hf. apply keeping_write; [done|done| |done]. intros t s Hs. split; [|done]. intros i v. rewrite Hf. apply Hs.
Qed.
Lemma published_apply did l : (forall tch, tch ∈ l -> tc_RepositoryURL tch ∈ repos) -> forall current,
  safe (apply_charts allowed did current l) (fun _ => True).
Proof.
  induction l as [|tch l IH]; intros Hl current; cbn [apply_charts]; [by apply keeping_ret|].
  assert (tc_RepositoryURL tch ∈ repos) as Ht by (apply Hl; by left). specialize (IH (fun x Hx => Hl x (list_elem_of_further _ _ _ Hx))).
  destruct (current !! tc_ChartName tch) as [ch|].
  - eapply (keeping_bind _ _ _ _ _ (fun _ => True)); [|intros [e|] _; [by apply keeping_ret|apply IH]].
    unfold chart_Update. destruct (ChartConfig_Validate allowed _); [by apply keeping_ret|].
    eapply (keeping_bind _ _ _ _ _ (fun _ => True)); [by apply published_write|intros; by apply keeping_ret].
  - eapply keeping_bind; [by apply safe_ask_any|]. intros uuid _.
    eapply (keeping_bind _ _ _ _ _ (fun _ => True)); [|intros [[e|] row] _; [by apply keeping_ret|apply IH]].
    unfold chart_Create. destruct (ChartConfig_Validate allowed _); [by apply keeping_ret|].
    eapply (keeping_bind _ _ _ _ _ (fun ch => cc_RepositoryURL ch ∈ repos)).
    { eapply keeping_bind; [by apply safe_ask_any|]. intros uuid' _. apply keeping_ret. by destruct (empty _). }
    intros row Hrow. eapply (keeping_bind _ _ _ _ _ (fun _ => True)); [|intros; by apply keeping_ret].
    apply published_write; [done|]. intros t s. unfold row_insert. by destruct (bool_decide _).
Qed.
Lemma published_upgrade i : safe (ApplyUpgrade allowed versioned c i) (fun _ => True).
Proof.
  unfold ApplyUpgrade. destruct (empty i); [by apply keeping_ret|]. eapply keeping_bind; [by apply any_modifiable|].
  intros [d|a] _; [|by apply keeping_ret]. destruct (_ || _); [by apply keeping_ret|].
  eapply keeping_bind; [apply published_upgradeRelease|]. intros [rel|e] Hrel.
  2:{ destruct (errorsIs e _); by apply keeping_ret. }
  destruct (bool_decide _); [by apply keeping_ret|]. eapply keeping_bind; [by apply any_list|]. intros [l|e] _; [|by apply keeping_ret].
  unfold apply_release. eapply keeping_bind; [apply published_apply; by apply Hrel|]. intros [e|] _; [by apply keeping_ret|].
  eapply (keeping_bind _ _ _ _ _ (fun _ => True)).
  - unfold definition_Update. eapply keeping_bind; [by apply published_write|]. intros [n|e] _; [by apply keeping_ret|].
    eapply keeping_bind; [by apply keeping_ctx|]. intros ctx _. destruct (bool_decide _); by apply keeping_ret.
  - intros [e|] _; [by apply keeping_ret|]. eapply keeping_bind; [by apply any_list|]. intros; by apply keeping_ret.
Qed.
End upgrade.
End rules.

(** C39. What a user without the devops or admin role can do to definitions, whatever the
    others do meanwhile.  No request on definitions makes a statement on a definition of
    somebody else or on its charts.  Every request but an upgrade keeps the name, the
    repository, the path and the version of each chart that it saves, and adds and removes
    no chart.  An upgrade writes charts too, but each with a repository that a published
    version of a template has. *)
Theorem user_definition_rules `{SnapshotJSON} `{Yaml} `{YamlProblem} (allowed : list string) (versioned hasTx : bool)
    (c : Caller) :
  isPrivilegedRole c = false ->
  (forall q id owner, ca_UserID c <> owner ->
     keeping (owned_step id owner) (spares id) (owned id owner) (handle_definition allowed versioned hasTx c q) (fun _ => True)) /\
  (forall q chid src, (forall id, q <> DUpgrade id) ->
     keeping (source_step chid src) (keeps_source chid src) (has_source chid src)
       (handle_definition allowed versioned hasTx c q) (fun _ => True)) /\
  (forall id repos,
     keeping (published_step repos) (from_published repos) (published_repos repos)
       (handle_definition allowed versioned hasTx c (DUpgrade id)) (fun _ => True)).
Proof.
  intros Hrole. split_and!.
  - intros q id owner Hne. by apply safe_request.
  - intros q chid src Hq. by apply source_request.
  - intros id repos. apply published_upgrade.
Qed.

Section example.
#[local] Instance any_json : SnapshotJSON := fun _ => Err (ENew "no snapshot").
#[local] Instance any_yaml : Yaml := {| Unmarshal := fun _ => Ok None; Encode := fun _ => Ok "" |}.
#[local] Instance any_problem : YamlProblem := fun _ _ => "".
Let bob : Caller := mkCaller "bob" "bob" roleUser.

(** Bob updates the definition of alice: 403, and her definition stays. *)
Lemma user_definition_rules_witness :
  let w := shop_world (fun _ => None) shop_catalog in
  let r := handle_definition [] true true bob (DUpdate "d1" (Some (mkDefinition "" "his" "" "" "" "" "" ""))) w in
  kn_Status r.1 = 403%Z /\ exists tr, ew_trace r.2 = tr ++ [] /\ Forall (spares "d1") tr.
Proof.
  intros w r. split; [by vm_compute|].
  destruct (user_definition_rules (H := any_json) (H0 := any_yaml) (H1 := any_problem) [] true true bob eq_refl) as [Hrule _].
  destruct (Hrule (DUpdate "d1" (Some (mkDefinition "" "his" "" "" "" "" "" ""))) "d1" "alice" ltac:(discriminate) w)
    as (_ & _ & Ht & _); [by intros n s Hs|done| |exact Ht].
  intros i d Hd. cbn in Hd. apply lookup_singleton_Some in Hd as [<- <-]. done.
Defined.
End example.
