(* ===== verification/Transfer.v ===== *)
(** * Export and import

    The import of an exported definition gives a definition with the same content: the same
    charts, the description, the branch, a name that the caller does not use yet, and the
    link to the template when the catalog has it. *)

From S2P Require Import Prelude Decimals Models Store World Access Templates Builder Values Effects Catalog Diffs Definitions Upgrades UpgradeRules.
Local Open Scope string_scope.
Local Open Scope list_scope.

Abbreviation holds P m Q := (triple still any_event false P m Q).
Abbreviation in_tx P m Q := (triple still any_event true P m Q).
#[local] Hint Resolve still_stable still_steady : core.

(** ** Stored rows *)

Fixpoint stored (l : list ChartConfig) (m m' : gmap string ChartConfig) : Prop :=
  match l with
  | [] => m' = m
  | ch :: l' => m !! cc_ID ch = None /\ stored l' (<[cc_ID ch := ch]> m) m'
  end.
Lemma stored_old l : forall m m' i ch, stored l m m' -> m !! i = Some ch -> m' !! i = Some ch.
Proof.
  induction l as [|x l IH]; intros m m' i ch; cbn; [by intros ->|]. intros [Hn Hs] Hi. eapply IH; [exact Hs|].
  by rewrite lookup_insert_ne by congruence.
Qed.
Lemma filter_perm {A} (p : A -> bool) l l' : Permutation l l' -> Permutation (List.filter p l) (List.filter p l').
Proof.
  induction 1 as [|x l l' _ IH|x y l|l l1 l' _ IH1 _ IH2]; cbn; [done| | |by etrans].
  - by destruct (p x); [constructor|].
  - destruct (p x), (p y); [constructor|done..].
Qed.
Lemma rows_where_insert {A} (p : A -> bool) (m : gmap string A) i x : m !! i = None -> p x = true ->
  Permutation (rows_where p (<[i := x]> m)) (x :: rows_where p m).
Proof.
  intros Hi Hp. unfold rows_where. assert (Permutation (List.map snd (map_to_list (<[i := x]> m))) (x :: List.map snd (map_to_list m))) as Hm.
  { etrans; [apply Permutation_map, map_to_list_insert, Hi|done]. }
  rewrite (filter_perm p _ _ Hm). cbn. by rewrite Hp.
Qed.
Lemma stored_rows (p : ChartConfig -> bool) l : forall m m', stored l m m' -> (forall ch, ch ∈ l -> p ch = true) ->
  Permutation (rows_where p m') (l ++ rows_where p m).
Proof.
  induction l as [|x l IH]; intros m m'; cbn; [by intros -> _|]. intros [Hn Hs] Hp. rewrite (IH _ _ Hs) by (intros ch Hch; apply Hp; by right).
  rewrite rows_where_insert by (done || apply Hp; by left). by rewrite Permutation_middle.
Qed.

(** ** Transactions *)

Section transfer.
Context `{SnapshotJSON} `{Yaml} `{YamlProblem}.
Context (allowed : list string).

Lemma tx_ask {A} (f : CatalogAnswers -> A) P : in_tx P (eask f) (fun _ s => P s).
Proof. eapply triple_post; [apply triple_ask; auto|]. by intros a s [_ ?]. Qed.

(** An insert in a transaction. *)
Lemma tx_insert {A} (T : Table A) (row : A) s1 (k : res Z -> error) : (forall e, k (Err e) <> None) ->
  in_tx (fun s => s = s1) (let? r := ewrite (row_insert T row) (KInsert (tb_row T row)) in eret (k r))
    (fun e s => e = None -> tb_get T s1 !! tb_id T row = None /\ s = tb_set T (<[tb_id T row := row]> (tb_get T s1)) s1).
Proof.
  intros Hk. eapply (triple_bind _ _ _ _ _ _ (fun r s => (exists n : Z, r = Ok n) ->
    tb_get T s1 !! tb_id T row = None /\ s = tb_set T (<[tb_id T row := row]> (tb_get T s1)) s1)).
  - apply triple_write; [auto|done| |].
    + intros t s ->. unfold row_insert. destruct (tb_get T s1 !! tb_id T row); [by intros [n [=]]|]. done.
    + intros st err s _ _ _. split; by intros [n [=]].
  - intros [n|e]; apply triple_ret; intros s Hs E; [apply Hs; by exists n|]. by apply Hk in E.
Qed.
Lemma raw_error_none op e : raw_error op (Err e) <> None.
Proof. done. Qed.
Lemma mapped_error_none op e : mapped_error op (Err e) <> None.
Proof. done. Qed.

Lemma tx_chart ch s1 : in_tx (fun s => s = s1) (chart_Create allowed ch) (fun r s => r.1 = None ->
  export_chart r.2 = export_chart ch /\ cc_StackDefinitionID r.2 = cc_StackDefinitionID ch /\ cc_StackDefinitionID ch <> "" /\
  ct_charts s1 !! cc_ID r.2 = None /\ s = tb_set chart_configs (<[cc_ID r.2 := r.2]> (ct_charts s1)) s1).
Proof.
  unfold chart_Create. destruct (ChartConfig_Validate allowed ch) as [e|] eqn:Hv; [by apply triple_ret|].
  assert (cc_StackDefinitionID ch <> "") as Hne.
  { unfold ChartConfig_Validate in Hv. destruct (empty (cc_StackDefinitionID ch)) eqn:E; [done|]. by apply empty_false. }
  eapply (triple_bind _ _ _ _ _ _ (fun row s => (export_chart row = export_chart ch /\
    cc_StackDefinitionID row = cc_StackDefinitionID ch) /\ s = s1)).
  { eapply triple_bind; [apply (tx_ask ka_uuid (fun s => s = s1))|]. intros uuid. apply triple_ret. intros s ->. split; [|done].
    by destruct (empty _). }
  intros row. apply triple_fact. intros [E1 E2].
  assert (in_tx (fun s => s = s1) (let? r := ewrite (row_insert chart_configs row) (KInsert (RChart row)) in eret (raw_error "create" r, row))
    (fun r s => r.2 = row /\ (r.1 = None -> ct_charts s1 !! cc_ID row = None /\ s = tb_set chart_configs (<[cc_ID row := row]> (ct_charts s1)) s1))) as Hi.
  { eapply (triple_bind _ _ _ _ _ _ (fun r s => raw_error "create" r = None ->
      ct_charts s1 !! cc_ID row = None /\ s = tb_set chart_configs (<[cc_ID row := row]> (ct_charts s1)) s1)).
    2:{ intros r. apply triple_ret. auto. }
    apply triple_write; [auto|done| |].
    - intros t s ->. unfold row_insert. cbn [tb_get tb_id chart_configs]. destruct (ct_charts s1 !! cc_ID row); [done|]. done.
    - intros st err s _ _ _. by split. }
  eapply triple_post; [exact Hi|]. intros r s [-> Hr] E. destruct (Hr E) as [? ?]. auto 10.
Qed.
Lemma tx_charts l : forall s1, in_tx (fun s => s = s1) (create_charts allowed l) (fun r s => r.1 = None ->
  List.map export_chart r.2 = List.map export_chart l /\
  List.map cc_StackDefinitionID r.2 = List.map cc_StackDefinitionID l /\ (forall ch, ch ∈ l -> cc_StackDefinitionID ch <> "") /\
  stored r.2 (ct_charts s1) (ct_charts s) /\ ct_definitions s = ct_definitions s1).
Proof.
  induction l as [|ch l IH]; intros s1; cbn [create_charts].
  { apply triple_ret. intros s -> _. split_and!; [done|done|by intros ch Hch%elem_of_nil|done|done]. }
  eapply triple_bind; [apply tx_chart|]. intros [[e|] row]; [by apply triple_ret|]. cbn [fst snd].
  set (s2 := tb_set chart_configs (<[cc_ID row := row]> (ct_charts s1)) s1).
  eapply triple_pre; [apply (triple_fact _ _ _ _ (export_chart row = export_chart ch /\ cc_StackDefinitionID row = cc_StackDefinitionID ch /\
    cc_StackDefinitionID ch <> "" /\ ct_charts s1 !! cc_ID row = None) (fun s => s = s2))|].
  2:{ intros s Hs. destruct (Hs eq_refl) as (? & ? & ? & ? & ?). auto 10. }
  intros (E1 & E2 & E3 & E4). eapply triple_bind; [apply IH|]. intros r. apply triple_ret. intros s Hs E. cbn in *.
  destruct (Hs E) as (F1 & F2 & F3 & F4 & F5). split_and!; [by rewrite E1, F1|by rewrite E2, F2| |by rewrite E4|exact F4|done].
  by intros x [->|Hx]%elem_of_cons; [|apply F3].
Qed.

Lemma withContextErr_none ctx op e : withContextErr ctx op (Some e) <> None.
Proof. unfold withContextErr. by repeat case_match. Qed.
Lemma holds_tx {A} (none : A) (body : Cat (error * A)) s1 (F : A -> CatalogStore -> Prop) :
  in_tx (fun s => s = s1) body (fun r s => r.1 = None -> F r.2 s) ->
  holds (fun s => s = s1) (RunInTx none body) (fun r s => r.1 = None -> F r.2 s).
Proof.
  intros Hb. unfold RunInTx. eapply (triple_bind _ _ _ _ _ _ (fun r s => r.1 = None -> F r.2 s)).
  - by eapply triple_transaction; [auto|exact Hb|..].
  - intros [e a]. eapply triple_bind; [apply holds_ctx|]. intros ctx. apply triple_ret. intros s Hs E. apply Hs.
    cbn in *. destruct e; [by apply withContextErr_none in E|done].
Qed.

(** What a committed create of a definition with its charts has written. *)
Definition created (s1 : CatalogStore) (def : StackDefinition) (charts : list ChartConfig)
    (r : StackDefinition * list ChartConfig) (s : CatalogStore) : Prop :=
  let d := r.1 in
  (exists id, d = df_set_ID id def) /\ (df_ID def <> "" -> d = def) /\
  ct_definitions s1 !! df_ID d = None /\ ct_definitions s = <[df_ID d := d]> (ct_definitions s1) /\
  List.map export_chart r.2 = List.map export_chart charts /\
  List.map cc_StackDefinitionID r.2 = List.map cc_StackDefinitionID charts /\
  (forall ch, ch ∈ charts -> cc_StackDefinitionID ch <> "") /\ stored r.2 (ct_charts s1) (ct_charts s).

Lemma holds_create def charts s1 : holds (fun s => s = s1) (create_definition_tx allowed def charts)
  (fun r s => r.1 = None -> created s1 def charts r.2 s).
Proof.
  apply holds_tx.
  eapply (triple_bind _ _ _ _ _ _ (fun r s => r.1 = None -> ((exists id, r.2 = df_set_ID id def) /\ (df_ID def <> "" -> r.2 = def) /\
    ct_definitions s1 !! df_ID r.2 = None) /\ s = tb_set stack_definitions (<[df_ID r.2 := r.2]> (ct_definitions s1)) s1)).
  { unfold definition_Create. eapply (triple_bind _ _ _ _ _ _ (fun d s => ((exists id, d = df_set_ID id def) /\ (df_ID def <> "" -> d = def)) /\ s = s1)).
    - eapply triple_bind; [apply (tx_ask ka_uuid (fun s => s = s1))|]. intros uuid. apply triple_ret. intros s ->. split; [|done].
      destruct (empty (df_ID def)) eqn:E; [split; [by exists uuid|]; by apply empty_iff in E|]. split; [exists (df_ID def); by destruct def|done].
    - intros d. apply triple_fact. intros [E1 E2].
      eapply triple_bind; [apply (tx_insert stack_definitions d s1 (mapped_error "create")); apply mapped_error_none|].
      intros e. apply triple_ret. intros s Hs E. cbn in *. by destruct (Hs E). }
  intros [[e|] d]; [by apply triple_ret|]. cbn [fst snd].
  eapply triple_pre; [apply (triple_fact _ _ _ _ ((exists id, d = df_set_ID id def) /\ (df_ID def <> "" -> d = def) /\
    ct_definitions s1 !! df_ID d = None) (fun s => s = tb_set stack_definitions (<[df_ID d := d]> (ct_definitions s1)) s1))|].
  2:{ intros s Hs. by apply Hs. }
  intros (E1 & E2 & E3). eapply triple_bind; [apply tx_charts|]. intros r. apply triple_ret. intros s Hs E. cbn in *.
  destruct (Hs E) as (F1 & F2 & F3 & F4 & F5). by split_and!.
Qed.

(** ** Names *)

Lemma holds_taken owner name exclude s1 : holds (fun s => s = s1) (definitionNameTaken owner name exclude)
  (fun r s => s = s1 /\ (forall b, r = Ok b -> b = taken_by owner exclude (definitions_named name s1))).
Proof.
  eapply triple_bind; [eapply triple_bind; [apply holds_read|]|].
  - intros r. apply (triple_ret _ _ _ _ _ (fun r s => s = s1 /\ (forall l, r = Ok l -> l = definitions_named name s1))).
    intros s [-> [[t ->]|[e ->]]]; (split; [done|]); [by intros l [= <-]|done].
  - intros [l|e]; apply triple_ret; intros s [-> Hl]; (split; [done|]); [|done]. intros b [= <-]. by rewrite (Hl l eq_refl).
Qed.
Lemma holds_first_free left owner candidate s1 : forall n, holds (fun s => s = s1) (first_free left n owner candidate)
  (fun r s => s = s1 /\ (forall name, r = Ok name -> exists i, (n <= i < n + Z.of_nat left)%Z /\ name = candidate i /\
     taken_by owner "" (definitions_named name s1) = false)).
Proof.
  induction left as [|left IH]; intros n; cbn [first_free]; [by apply triple_ret|].
  eapply triple_bind; [apply holds_taken|]. intros [[|]|e].
  - eapply triple_conseq; [apply IH|by intros s [? _]|]. intros r s [Hs Hr]. split; [done|]. intros name E.
    destruct (Hr name E) as (i & Hi & ? & ?). exists i. split; [lia|done].
  - apply triple_ret. intros s [-> Hb]. split; [done|]. intros name [= <-]. exists n. split_and!; [lia|lia|done|]. symmetry. by apply Hb.
  - apply triple_ret. by intros s [-> _].
Qed.

(** ** Links *)

(** The template that [src] names is published and has the version. *)
Definition linked_to (s : CatalogStore) (src : SourceTemplateExportData) (tid version : string) : Prop :=
  exists tmpl, ct_templates s !! tid = Some tmpl /\ tm_IsPublished tmpl = true /\
    (tid = TrimSpace (se_ID src) \/ TrimSpace (se_Name src) <> "" /\ tm_Name tmpl = TrimSpace (se_Name src)) /\
    (exists v, v ∈ versions_of tid s /\ tvr_Version v = version) /\
    (TrimSpace (se_Version src) <> "" -> version = TrimSpace (se_Version src)).
Definition named (src : SourceTemplateExportData) : bool := negb (empty (TrimSpace (se_ID src)) && empty (TrimSpace (se_Name src))).
Definition keyed_templates (s : CatalogStore) : Prop := forall i t, ct_templates s !! i = Some t -> tm_ID t = i.

Lemma holds_resolve tid version s1 : keyed_templates s1 -> holds (fun s => s = s1) (resolveTemplateLink true tid version)
  (fun r s => s = s1 /\ (forall tmpl v, r = Linked tmpl v -> ct_templates s1 !! tid = Some tmpl /\ tm_IsPublished tmpl = true /\ tm_ID tmpl = tid /\
     (exists row, row ∈ versions_of tid s1 /\ tvr_Version row = v) /\ (version <> "" -> v = version))).
Proof.
  intros Hk. unfold resolveTemplateLink. eapply triple_bind; [apply holds_find|]. intros [t|e].
  2:{ destruct (isNotFoundError e); apply triple_ret; by intros s [-> _]. }
  eapply triple_pre; [apply (triple_fact _ _ _ _ (ct_templates s1 !! tid = Some t) (fun s => s = s1)); intros Ht|].
  2:{ intros s [-> Hr]. split; [by apply Hr|done]. }
  pose proof (Hk tid t Ht) as Eid. rewrite Eid. destruct (tm_IsPublished t) eqn:Hp; [|by apply triple_ret]. cbn [negb orb].
  destruct (empty version) eqn:Ev.
  - apply empty_iff in Ev. eapply triple_bind; [eapply triple_bind; [apply holds_read|]|].
    + intros r. apply (triple_ret _ _ _ _ _ (fun r s => s = s1 /\ forall v, r = Ok v -> v ∈ versions_of tid s1)).
      intros s [-> [[t' ->]|[e ->]]]; (split; [done|]); [|done]. intros v. cbn.
      destruct (versions_of tid s1) as [|x l]; [done|]. cbn. intros [= <-]. by left.
    + intros [v|e]; [|destruct (isNotFoundError e); apply triple_ret; by intros s [-> _]].
      apply triple_ret. intros s [-> Hv]. split; [done|]. intros tmpl v' [= <- <-]. split_and!; [done|done|done|by eauto|by intros []].
  - apply empty_false in Ev. eapply triple_bind; [eapply triple_bind; [apply holds_read|]|].
    + intros r. apply (triple_ret _ _ _ _ _ (fun r s => s = s1 /\ forall l, r = Ok l -> l = versions_of tid s1)).
      intros s [-> [[t' ->]|[e ->]]]; (split; [done|]); [by intros l [= <-]|done].
    + intros [l|e]; [|by apply triple_ret; intros s [-> _]]. apply triple_ret. intros s [-> Hl]. split; [done|].
      rewrite (Hl l eq_refl). destruct (existsb _ _) eqn:Ex; [|done]. intros tmpl v [= <- <-].
      apply existsb_exists in Ex as (row & Hrow & Erow%bool_decide_eq_true). apply list_elem_of_In in Hrow.
      split_and!; [done|done|done|by exists row|done].
Qed.

Lemma holds_import_template id name label s1 : keyed_templates s1 -> holds (fun s => s = s1) (import_template id name label)
  (fun r s => s = s1 /\ (forall w, r = inr w -> empty w = false) /\
     (forall tid, r = inl tid -> tid <> "" -> tid = id \/ name <> "" /\ exists t, ct_templates s1 !! tid = Some t /\ tm_Name t = name)).
Proof.
  intros Hk. unfold import_template.
  eapply (triple_bind _ _ _ _ _ _ (fun r s => s = s1 /\ forall tid, r = Ok tid -> tid <> "" -> tid = id)).
  { destruct (empty id); [apply triple_ret; intros s ->; split; [done|]; by intros tid [= <-]|].
    eapply triple_bind; [apply holds_find|]. intros [t|e]; [|destruct (isNotFoundError e)]; apply triple_ret; intros s [-> _];
      (split; [done|]); by intros tid [= <-]. }
  intros [tid|e].
  2:{ apply triple_ret. intros s [-> _]. split_and!; [done| |done]. by intros w [= <-]. }
  destruct (negb (empty tid) || empty name) eqn:E.
  { apply triple_ret. intros s [-> Ht]. split_and!; [done|done|]. intros tid' [= <-] Hne. left. by apply Ht. }
  apply orb_false_iff in E as [_ Hname]. unfold ListPublishedPaged.
  eapply (triple_bind _ _ _ _ _ _ (fun r s => s = s1 /\ forall l n, r = Ok (l, n) -> forall t, t ∈ l ->
    (exists i, ct_templates s1 !! i = Some t) /\ tm_Name t = name)).
  { eapply triple_bind; [apply holds_read|]. intros [total|e]; [|by apply triple_ret; intros s [[-> _] _]].
    eapply triple_bind; [apply holds_ask|]. intros rank. eapply triple_bind; [apply holds_read|]. intros r. apply triple_ret.
    intros s [[[-> _] _] [[t' ->]|[e ->]]]; (split; [done|]); [|done]. intros l n [= <- _] t Ht.
    assert (t ∈ rows_where (published_named name) (ct_templates s1)) as Hr.
    { rewrite (ranked_perm rank tm_ID (fun _ _ => false)). by eapply elem_of_take in Ht as (i & Hi & _); apply list_elem_of_lookup_2 in Hi. }
    apply rows_where_elem in Hr as [Hr Hp]. split; [done|]. unfold published_named in Hp. rewrite Hname in Hp.
    apply andb_true_iff in Hp as [_ Hp]. by apply bool_decide_eq_true in Hp. }
  intros [[[|t [|t2 l]] n]|e]; apply triple_ret; intros s [-> Hl]; (split_and!; [done|by intros w [= <-]|]); try done.
  - by intros tid' [= <-].
  - intros tid' [= <-] _. destruct (Hl [t] n eq_refl t) as [[i Hi] Hn]; [by left|]. right.
    split; [by apply empty_false|]. exists t. by rewrite (Hk i t Hi).
Qed.

(** The link of an import: none without a source, and none with a warning. *)
Definition link_result (s : CatalogStore) (src : option SourceTemplateExportData) (r : string * string * string) : Prop :=
  let '(tid, version, warning) := r in
  match src with
  | Some src => If named src Return (tid = "" /\ version = "" /\ empty warning = false) \/ (warning = "" /\ linked_to s src tid version) ;;
                r = ("", "", "")
  | None => r = ("", "", "")
  end.
Lemma holds_link src s1 : keyed_templates s1 -> holds (fun s => s = s1) (importTemplateLink true src)
  (fun r s => s = s1 /\ link_result s1 src r).
Proof.
  intros Hk. unfold importTemplateLink. destruct src as [src|]; [|by apply triple_ret].
  unfold link_result, named. destruct (empty (TrimSpace (se_ID src)) && empty (TrimSpace (se_Name src))) eqn:En;
    cbn [negb]; [by apply triple_ret|].
  set (label := if empty (TrimSpace (se_Name src)) then _ else _).
  eapply triple_bind; [by apply holds_import_template|]. intros [tid|w].
  2:{ apply triple_ret. intros s (-> & Hw & _). split; [done|]. left. split_and!; [done|done|by apply Hw]. }
  eapply triple_pre; [apply (triple_fact _ _ _ _ (tid <> "" -> tid = TrimSpace (se_ID src) \/ TrimSpace (se_Name src) <> "" /\
    exists t, ct_templates s1 !! tid = Some t /\ tm_Name t = TrimSpace (se_Name src)) (fun s => s = s1)); intros Hid|].
  2:{ intros s (-> & _ & Hid). split; [by apply Hid|done]. }
  destruct (empty tid) eqn:Et; [apply triple_ret; intros s ->; split; [done|]; by left|]. apply empty_false in Et.
  eapply triple_bind; [by apply holds_resolve|]. intros [tmpl v|st m|e]; apply triple_ret; intros s [-> Hr]; (split; [done|]); [|by left..].
  destruct (Hr tmpl v eq_refl) as (Ht & Hp & Ei & Hv & Hver). right. split; [done|]. rewrite Ei. exists tmpl.
  split_and!; [done|done| |done|done]. destruct (Hid Et) as [|(Hne & t & Ht' & Hn)]; [by left|]. right. split; [done|congruence].
Qed.

(** ** The requests *)

Lemma mapped_not_created entity e : kn_Status (catalog_mapped entity e) <> 201%Z.
Proof.
  unfold catalog_mapped. destruct (mapError e entity) as [st m] eqn:E. apply mapError_safe in E as [E _]. cbn. set_solver.
Qed.

(** What an import that answers 201 has done. *)
Definition imported (s1 : CatalogStore) (c : Caller) (b : DefinitionExportBundle) (d : StackDefinition) (charts : list ChartConfig)
    (warnings : list string) (s : CatalogStore) : Prop :=
  (exists i, (1 <= i <= 100)%Z /\ df_Name d = importedDefinitionName (xb_Name b) i) /\
  taken_by (ca_UserID c) "" (definitions_named (df_Name d) s1) = false /\
  df_Description d = xb_Description b /\ df_DefaultBranch d = or_master (xb_DefaultBranch b) /\ df_OwnerID d = ca_UserID c /\
  (exists warning, warnings = (if empty warning then [] else [warning]) /\
     link_result s1 (xb_SourceTemplate b) (df_SourceTemplateID d, df_SourceTemplateVersion d, warning)) /\
  ct_definitions s1 !! df_ID d = None /\ ct_definitions s = <[df_ID d := d]> (ct_definitions s1) /\
  List.map export_chart charts = xb_Charts b /\ (forall ch, ch ∈ charts -> cc_StackDefinitionID ch = df_ID d) /\
  stored charts (ct_charts s1) (ct_charts s).

Lemma holds_uuids {A B} (f : string -> A -> B) (P : B -> Prop) l s1 : (forall uuid x, P (f uuid x)) ->
  forall (C : Type) (g : A -> C) (h : B -> C), (forall uuid x, h (f uuid x) = g x) ->
  holds (fun s => s = s1) (with_uuids f l) (fun ys s => (List.map h ys = List.map g l /\ forall y, y ∈ ys -> P y) /\ s = s1).
Proof.
  intros HP C g h Hh. induction l as [|x l IH]; cbn [with_uuids].
  - apply triple_ret. intros s ->. split; [|done]. split; [done|]. by intros y Hy%elem_of_nil.
  - eapply triple_bind; [apply (holds_ask ka_uuid (fun s => s = s1))|]. intros uuid. eapply triple_bind; [apply IH|].
    intros ys. apply triple_ret. intros s [[E Hys] ->]. split; [|done]. split; [cbn; by rewrite Hh, E|].
    intros y [->|Hy]%elem_of_cons; [apply HP|by apply Hys].
Qed.

Lemma holds_import_bundle c b def s1 : keyed_templates s1 ->
  df_Name def = xb_Name b -> df_Description def = xb_Description b -> df_DefaultBranch def = or_master (xb_DefaultBranch b) ->
  df_OwnerID def = ca_UserID c ->
  holds (fun s => s = s1) (import_bundle allowed true true c b def)
    (fun a s => forall d charts warnings, kn_Status a = 201%Z -> kn_Body a = KBDefinitionCharts d charts warnings ->
       imported s1 c b d charts warnings s).
Proof.
  intros Hk En Ed Eb Eo. unfold import_bundle. eapply triple_bind; [by apply holds_link|]. intros [[tid ver] warning].
  eapply triple_pre; [apply (triple_fact _ _ _ _ (link_result s1 (xb_SourceTemplate b) (tid, ver, warning)) (fun s => s = s1)); intros Hl|].
  2:{ intros s [? ?]. auto. }
  eapply triple_bind; [apply holds_first_free|]. intros [name|e].
  2:{ destruct (errorsIs e _); apply triple_ret; intros s _ d charts ws Hs; [done|by apply mapped_not_created in Hs]. }
  cbn [df_OwnerID df_set_link df_Name].
  eapply triple_pre; [apply (triple_fact _ _ _ _ (exists i, (1 <= i <= 100)%Z /\ name = importedDefinitionName (df_Name def) i /\
    taken_by (df_OwnerID def) "" (definitions_named name s1) = false) (fun s => s = s1)); intros (i & Hi & Ename & Htaken)|].
  2:{ intros s [-> Hr]. split; [|done]. destruct (Hr name eq_refl) as (i & Hi & ? & ?). exists i. unfold maxDefinitionNameAttempts in Hi.
      split; [lia|done]. }
  set (def' := updated_definition _ _). eapply triple_bind.
  { apply (holds_uuids (fun uuid => imported_chart uuid (df_ID def')) (fun ch => cc_StackDefinitionID ch = df_ID def') (xb_Charts b) s1
      (fun _ _ => eq_refl) _ (fun x => x) export_chart). by intros uuid []. }
  intros charts. apply triple_fact. intros [Ec Hdid]. cbn [negb].
  eapply triple_bind; [apply holds_create|]. intros [[e|] [d created]].
  { apply triple_ret. intros s _ d' charts' ws Hs. by apply mapped_not_created in Hs. }
  apply triple_ret. intros s Hc d' charts' ws _ [= <- <- <-]. destruct (Hc eq_refl) as ([id Eid] & Hsame & F1 & F2 & F3 & F4 & F5 & F6).
  cbn [fst snd] in *.
  assert (df_Name d = name /\ df_Description d = df_Description def /\ df_DefaultBranch d = df_DefaultBranch def /\
    df_OwnerID d = df_OwnerID def /\ df_SourceTemplateID d = tid /\ df_SourceTemplateVersion d = ver) as (G1 & G2 & G3 & G4 & G5 & G6)
    by (by rewrite Eid).
  unfold imported. rewrite G1, G2, G3, G4, G5, G6, <- Eo. split_and!; [|done|done|done|done|by exists warning|done|done| | |done].
  - exists i. by rewrite <- En.
  - rewrite F3, Ec. apply map_id.
  - intros ch Hch. assert (cc_StackDefinitionID ch ∈ List.map cc_StackDefinitionID created) as Hin by (apply list_elem_of_fmap; eauto).
    rewrite F4 in Hin. apply list_elem_of_fmap in Hin as (x & Ex & Hx). rewrite Ex, (Hdid x Hx). f_equal. symmetry. apply Hsame.
    intros E. apply (F5 x Hx). by rewrite (Hdid x Hx).
Qed.

Lemma holds_import c b s1 : keyed_templates s1 ->
  holds (fun s => s = s1) (ImportDefinition allowed true true c (Some b))
    (fun a s => forall d charts warnings, kn_Status a = 201%Z -> kn_Body a = KBDefinitionCharts d charts warnings ->
       imported s1 c b d charts warnings s).
Proof.
  intros Hk. unfold ImportDefinition. destruct (bundle_problem b); [by apply triple_ret|].
  eapply triple_bind; [apply (holds_ask ka_uuid (fun s => s = s1))|]. intros uuid.
  destruct (StackDefinition_Validate _); [by apply triple_ret|]. by apply holds_import_bundle.
Qed.

(** The bundle of an export. *)
Definition exported (s : CatalogStore) (def : StackDefinition) (b : DefinitionExportBundle) : Prop :=
  xb_Name b = df_Name def /\ xb_Description b = df_Description def /\ xb_DefaultBranch b = df_DefaultBranch def /\
  (exists rank, xb_Charts b = List.map export_chart (charts_of rank (df_ID def) s)) /\
  match xb_SourceTemplate b with
  | None => df_SourceTemplateID def = ""
  | Some src => df_SourceTemplateID def <> "" /\ se_ID src = df_SourceTemplateID def /\ se_Version src = df_SourceTemplateVersion def /\
      (se_Name src = "" \/ exists t, ct_templates s !! df_SourceTemplateID def = Some t /\ se_Name src = tm_Name t)
  end.
Lemma holds_export did def s1 : ct_definitions s1 !! did = Some def -> df_ID def = did ->
  holds (fun s => s = s1) (ExportDefinition did) (fun a s => forall b, kn_Body a = KBBundle b -> exported s1 def b).
Proof.
  intros Hdef Hid. unfold ExportDefinition. destruct (empty did); [by apply triple_ret|].
  assert (forall e entity b, kn_Body (catalog_mapped entity e) <> KBBundle b) as Hm
    by (intros ? ? ?; unfold catalog_mapped; by destruct (mapError _ _)).
  eapply triple_bind; [apply holds_find|]. intros [d|e]; [|apply triple_ret; intros s _ b E; by apply Hm in E].
  eapply triple_pre; [apply (triple_fact _ _ _ _ (d = def) (fun s => s = s1)); intros ->|].
  2:{ intros s [-> Hr]. split; [|done]. specialize (Hr d eq_refl). cbn in Hr. congruence. }
  eapply (triple_bind _ _ _ _ _ _ (fun r s => s = s1 /\ forall l, r = Ok l -> exists rank, l = charts_of rank did s1)).
  { eapply triple_bind; [apply (holds_ask ka_rank (fun s => s = s1))|]. intros rank. eapply triple_bind; [apply holds_read|].
    intros r. apply triple_ret. intros s [-> [[t ->]|[e ->]]]; (split; [done|]); [|done]. intros l [= <-]. by exists rank. }
  intros [l|e]; [|apply triple_ret; intros s _ b E; by apply Hm in E].
  eapply triple_pre; [apply (triple_fact _ _ _ _ (exists rank, l = charts_of rank did s1) (fun s => s = s1)); intros [rank ->]|].
  2:{ intros s [-> Hl]. split; [by apply Hl|done]. }
  assert (holds (fun s => s = s1) (export_source def) (fun src s => match src with
    | None => df_SourceTemplateID def = ""
    | Some src => df_SourceTemplateID def <> "" /\ se_ID src = df_SourceTemplateID def /\ se_Version src = df_SourceTemplateVersion def /\
        (se_Name src = "" \/ exists t, ct_templates s1 !! df_SourceTemplateID def = Some t /\ se_Name src = tm_Name t)
    end)) as Hsrc.
  { unfold export_source. destruct (empty (df_SourceTemplateID def)) eqn:E; [apply empty_iff in E; by apply triple_ret|].
    apply empty_false in E. eapply triple_bind; [apply holds_find|]. intros r. apply triple_ret. intros s [-> Hr]. split_and!; [done|done|done|].
    cbn. destruct r as [t|e]; [right|by left]. exists t. split; [by apply Hr|done]. }
  eapply triple_bind; [exact Hsrc|]. intros src. apply triple_ret. intros s Hs b [= <-].
  unfold exported. cbn. split_and!; [done|done|done| |done]. exists rank. by rewrite Hid.
Qed.

(** What a chart says, without its identifier and its definition. *)
Definition chart_content (ch : ChartConfig) : list string * Z :=
  ([cc_ChartName ch; cc_RepositoryURL ch; cc_SourceRepoURL ch; cc_BuildPipelineID ch; cc_ChartPath ch; cc_ChartVersion ch;
    cc_DefaultValues ch], cc_DeployOrder ch).
Lemma exported_content l l' : Permutation (List.map export_chart l) (List.map export_chart l') ->
  Permutation (List.map chart_content l) (List.map chart_content l').
Proof.
  pose (content := fun x => ([xc_ChartName x; xc_RepositoryURL x; xc_SourceRepoURL x; xc_BuildPipelineID x; xc_ChartPath x;
    xc_ChartVersion x; xc_DefaultValues x], xc_DeployOrder x)).
  intros Hp. assert (forall l, List.map chart_content l = List.map content (List.map export_chart l)) as E
    by (intros k; rewrite map_map; by apply map_ext).
  rewrite !E. by apply Permutation_map.
Qed.

(** C40. The import of an exported definition gives the definition again.  While nobody else
    changes the two catalogs (they can be the same), when an import of the bundle of an export
    answers 201, the new definition is stored with the description and the branch of the
    exported one ("master" for none), it belongs to the caller, its name is a form of the old
    name that the caller does not use, its charts have the names, repositories, pipelines,
    paths, versions, values and order of the exported ones, no other row changes, and a
    definition without a template stays without one.  For one with a template, a warning is
    answered, or the new definition is linked to a published template, which has the identifier
    or the name of the old one, with a version of it, the old one if there was one. *)
Theorem export_import_roundtrip (did : string) (def : StackDefinition) (c : Caller)
    (w1 w2 : EWorld CatalogStore catalog_event CatalogAnswers) (b : DefinitionExportBundle) (d : StackDefinition)
    (charts : list ChartConfig) (warnings : list string) :
  (forall n, still (ew_env w1 n)) -> (forall n, still (ew_env w2 n)) -> ew_quiet w1 = false -> ew_quiet w2 = false ->
  ct_definitions (ew_state w1) !! did = Some def -> df_ID def = did -> keyed_templates (ew_state w2) ->
  kn_Body (ExportDefinition did w1).1 = KBBundle b ->
  let r := ImportDefinition allowed true true c (Some b) w2 in
  kn_Status r.1 = 201%Z -> kn_Body r.1 = KBDefinitionCharts d charts warnings ->
  (forall i ch, ct_charts (ew_state w2) !! i = Some ch -> cc_StackDefinitionID ch <> df_ID d) ->
  let s := ew_state r.2 in
  ct_definitions s = <[df_ID d := d]> (ct_definitions (ew_state w2)) /\ ct_definitions (ew_state w2) !! df_ID d = None /\
  df_Description d = df_Description def /\ df_DefaultBranch d = or_master (df_DefaultBranch def) /\ df_OwnerID d = ca_UserID c /\
  (exists i, (1 <= i <= 100)%Z /\ df_Name d = importedDefinitionName (df_Name def) i) /\
  taken_by (ca_UserID c) "" (definitions_named (df_Name d) (ew_state w2)) = false /\
  (forall rank rank', Permutation (List.map chart_content (charts_of rank (df_ID d) s))
                                  (List.map chart_content (charts_of rank' did (ew_state w1)))) /\
  (df_SourceTemplateID def = "" -> df_SourceTemplateID d = "") /\
  (warnings = [] -> TrimSpace (df_SourceTemplateID def) <> "" -> exists tmpl,
     ct_templates (ew_state w2) !! df_SourceTemplateID d = Some tmpl /\ tm_IsPublished tmpl = true /\
     (df_SourceTemplateID d = TrimSpace (df_SourceTemplateID def) \/
      exists t, ct_templates (ew_state w1) !! df_SourceTemplateID def = Some t /\ TrimSpace (tm_Name t) <> "" /\
        tm_Name tmpl = TrimSpace (tm_Name t)) /\
     (exists v, v ∈ versions_of (df_SourceTemplateID d) (ew_state w2) /\ tvr_Version v = df_SourceTemplateVersion d) /\
     (TrimSpace (df_SourceTemplateVersion def) <> "" -> df_SourceTemplateVersion d = TrimSpace (df_SourceTemplateVersion def))) /\
  (forall i ch, ct_charts (ew_state w2) !! i = Some ch -> ct_charts s !! i = Some ch).
Proof.
  intros W1 W2 Q1 Q2 Hdef Hid Hk Hb r Hst Hbody Hfresh s.
  destruct (holds_export did def (ew_state w1) Hdef Hid w1 W1 Q1 eq_refl) as (_ & _ & _ & He).
  destruct (He b Hb) as (E1 & E2 & E3 & [rank0 E4] & E5).
  destruct (holds_import c b (ew_state w2) Hk w2 W2 Q2 eq_refl) as (_ & _ & _ & Hi).
  destruct (Hi d charts warnings Hst Hbody) as ((i & Hi1 & Hname) & I2 & I3 & I4 & I5 & (warning & Ew & Hlink) & I6 & I7 & I8 & I9 & I10).
  fold r in I7, I10. fold s in I7, I10. rewrite E1 in Hname. rewrite E2 in I3. rewrite E3 in I4.
  split_and!; [done|done|done|done|done|by exists i|done| | | |].
  - intros rank rank'. apply exported_content. etrans; [apply Permutation_map; symmetry; apply ranked_perm|].
    etrans; [|apply Permutation_map; apply ranked_perm].
    rewrite (stored_rows _ charts _ _ I10) by (intros ch Hch; apply bool_decide_eq_true; by apply I9).
    assert (rows_where (fun ch => bool_decide (cc_StackDefinitionID ch = df_ID d)) (ct_charts (ew_state w2)) = []) as ->.
    { apply elem_of_nil_inv. intros ch [[j Hj] Hp%bool_decide_eq_true]%rows_where_elem. by apply (Hfresh j ch). }
    rewrite app_nil_r, I8, E4, Hid. apply Permutation_map. symmetry. apply ranked_perm.
  - intros Hno. destruct (xb_SourceTemplate b) as [src|]; [by destruct E5|]. by injection Hlink.
  - intros Hw Hsrc. destruct (xb_SourceTemplate b) as [src|]; [|by rewrite E5 in Hsrc]. destruct E5 as (_ & E5 & E6 & E7).
    unfold link_result in Hlink. destruct (named src) eqn:En.
    + destruct Hlink as [(_ & _ & Hwarn)|[_ Hl]]; [rewrite Hwarn in Ew; by rewrite Hw in Ew|].
      destruct Hl as (tmpl & L1 & L2 & L3 & L4 & L5). rewrite E5 in L3. rewrite E6 in L5. exists tmpl. split_and!; [done|done| |done|done].
      destruct L3 as [|[Hne Hn]]; [by left|]. right. destruct E7 as [E7|(t & Ht & E7)]; rewrite E7 in Hne, Hn; [done|by exists t].
    + unfold named in En. apply negb_false_iff, andb_true_iff in En as [En _]. apply empty_iff in En. by rewrite E5 in En.
  - intros j ch Hj. by eapply stored_old.
Qed.
End transfer.

(** ** An example

    The definition of [UpgradeRules] imported into another catalog, where a template of the
    same name and version is published. *)

Section example.
#[local] Instance any_yaml : Yaml := {| Unmarshal := fun _ => Ok None; Encode := fun _ => Ok "" |}.
#[local] Instance any_problem : YamlProblem := fun _ _ => "".
Definition other_catalog : CatalogStore :=
  mkCatalog {["t9" := mkTemplate "t9" "shop" "" "" "main" true "1.0" "u1"]} ∅
    {["v9" := mkVersion "v9" "t9" "1.0" "stored" "" "u1" 0]} {["d7" := mkDefinition "d7" "mine" "" "alice" "" "" "main" ""]} ∅.
Definition shop_bundle : DefinitionExportBundle :=
  match kn_Body (ExportDefinition "d1" (shop_world (fun _ => None) shop_catalog)).1 with
  | KBBundle b => b
  | _ => mkBundle "" None "" "" "" []
  end.

Lemma export_import_roundtrip_witness :
  exists (d : StackDefinition) (charts : list ChartConfig) (s : CatalogStore), df_Name d = "mine (imported)" /\ df_SourceTemplateID d = "t9" /\ length charts = 2%nat /\
    Permutation (List.map chart_content (charts_of (fun _ => 0%Z) (df_ID d) s))
                (List.map chart_content (charts_of (fun _ => 0%Z) "d1" shop_catalog)).
Proof.
  pose (w := shop_world (fun _ => None) other_catalog).
  pose (r := ImportDefinition [] true true alice (Some shop_bundle) w).
  exists (match kn_Body r.1 with KBDefinitionCharts d _ _ => d | _ => shop_def end).
  exists (match kn_Body r.1 with KBDefinitionCharts _ l _ => l | _ => [] end), (ew_state r.2).
  split; [by vm_compute|]. split; [by vm_compute|]. split; [by vm_compute|].
  destruct (export_import_roundtrip [] "d1" shop_def alice (shop_world (fun _ => None) shop_catalog) w shop_bundle
    (match kn_Body r.1 with KBDefinitionCharts d _ _ => d | _ => shop_def end)
    (match kn_Body r.1 with KBDefinitionCharts _ l _ => l | _ => [] end)
    (match kn_Body r.1 with KBDefinitionCharts _ _ l => l | _ => [] end)) as (_ & _ & _ & _ & _ & _ & _ & Hp & _);
    [done|done|done|done|done|done| |by vm_compute|by vm_compute|by vm_compute| |by apply Hp].
  - intros i t Ht. change (ct_templates other_catalog !! i = Some t) in Ht. unfold other_catalog in Ht. cbn [ct_templates] in Ht.
    by apply lookup_singleton_Some in Ht as [<- <-].
  - intros i ch Hch. change (ct_charts other_catalog !! i = Some ch) in Hch. unfold other_catalog in Hch. cbn [ct_charts] in Hch.
    rewrite lookup_empty in Hch. discriminate Hch.
Defined.
End example.
