(* ===== verification/ReleaseRules.v ===== *)
(** * Published versions

    The history of a template: versions are only added, none is older than the ones that
    were there, and two versions of the current format have one version text only when a
    version of the old format had the text and the stored time of one of them.  The clocks
    are any; the column of the database keeps whole milliseconds, so that a new version and
    the latest one can have one stored time, and then the IDs decide which one users get
    ([publish_tie], [publish_twice]). *)

From S2P Require Import Prelude Decimals Models Store World Access Templates Builder Values Effects Catalog Diffs.
From S2P Require Import Definitions Upgrades Publishing Instantiation UpgradeRules.
Local Open Scope string_scope.
Local Open Scope list_scope.

(** ** The order of versions *)

#[global] Instance version_eq_dec : EqDecision TemplateVersion.
Proof. solve_decision. Defined.

Lemma newer_iff a b : newer a b = true <->
  (tvr_CreatedAt b < tvr_CreatedAt a)%Z \/ (tvr_CreatedAt a = tvr_CreatedAt b /\ String.ltb (tvr_ID b) (tvr_ID a) = true).
Proof.
  unfold newer. destruct (Z.eqb_spec (tvr_CreatedAt a) (tvr_CreatedAt b)) as [E|E]; cbn; rewrite ?Z.ltb_lt; naive_solver lia.
Qed.
Lemma newer_le a b : less_le newer a b <->
  (tvr_CreatedAt b < tvr_CreatedAt a)%Z \/ (tvr_CreatedAt a = tvr_CreatedAt b /\ String.ltb (tvr_ID a) (tvr_ID b) = false).
Proof.
  unfold less_le. rewrite <- not_true_iff_false, newer_iff, <- (not_true_iff_false (String.ltb _ _)).
  destruct (Ztrichotomy_inf (tvr_CreatedAt a) (tvr_CreatedAt b)) as [[H|H]|H]; naive_solver lia.
Qed.
Lemma versions_sorted tid s : StronglySorted (less_le newer) (versions_of tid s).
Proof.
  apply sort_less_sorted.
  - intros a b H. apply newer_le. apply newer_iff in H as [H|[H Hn]]; [by left|]. right. split; [done|]. by apply ltb_asym.
  - intros a b d. rewrite !newer_le. intros [H1|[H1 L1]] [H2|[H2 L2]]; [left; lia..|]. right. split; [lia|]. by eapply ltb_le_trans.
Qed.
Lemma versions_elem tid s v : v ∈ versions_of tid s <-> (exists i, ct_versions s !! i = Some v) /\ tvr_TemplateID v = tid.
Proof. unfold versions_of. by rewrite <- sort_less_perm, rows_where_elem, bool_decide_eq_true. Qed.
(** The first version is the newest. *)
Lemma head_newest tid s latest rest v : versions_of tid s = latest :: rest -> v ∈ versions_of tid s ->
  (tvr_CreatedAt v <= tvr_CreatedAt latest)%Z.
Proof.
  intros E Hv. pose proof (versions_sorted tid s) as Hs. rewrite E in Hs, Hv. apply StronglySorted_inv in Hs as [_ Hs].
  apply elem_of_cons in Hv as [->|Hv]; [lia|]. rewrite Forall_forall in Hs. specialize (Hs v Hv). apply newer_le in Hs. lia.
Qed.
Lemma newest_head tid s v : v ∈ versions_of tid s -> (forall x, x ∈ versions_of tid s -> x <> v -> (tvr_CreatedAt x < tvr_CreatedAt v)%Z) ->
  head (versions_of tid s) = Some v.
Proof.
  intros Hv Hnew. destruct (versions_of tid s) as [|x l] eqn:E; [by apply elem_of_nil in Hv|]. cbn. f_equal.
  destruct (decide (tvr_CreatedAt x < tvr_CreatedAt v)%Z) as [Hlt|Hge].
  - pose proof (head_newest tid s x l v E) as Hh. rewrite E in Hh. specialize (Hh Hv). lia.
  - apply dec_stable. intros Hne. apply Hge, Hnew; [by left|done].
Qed.

Definition whole (t : time) : Prop := (t mod 1000000 = 0)%Z.
Lemma stored_whole t : whole (stored_time t).
Proof. unfold whole, stored_time. rewrite Z.mod_mul; lia. Qed.
(** The time of a new version is not before the latest one, and equal to it only when the
    clock read less than half a millisecond after it. *)
Lemma publish_time_after latest now : whole latest ->
  (latest <= stored_time (publish_time latest now))%Z /\
  (stored_time (publish_time latest now) = latest -> latest < now < latest + 500000)%Z.
Proof.
  unfold whole, stored_time, publish_time, Millisecond. intros Hl. destruct (Z.ltb_spec latest now);
    Z.to_euclidean_division_equations; lia.
Qed.



Section rules.
Context `{SnapshotJSON} `{SnapshotEncoder}.
(** [encoding/json] reads back what it wrote, the schema version in any case (a text that is
    not UTF-8 changes). *)
Context (Hjson : forall s, exists s', snapshot_Unmarshal (snapshot_Marshal s) = Ok s' /\ ts_SchemaVersion s' = ts_SchemaVersion s).

(** A version of the current format. *)
Definition current_format (v : TemplateVersion) : Prop :=
  exists s, snapshot_Unmarshal (tvr_Snapshot v) = Ok s /\ (TemplateSnapshotSchemaVersion <= ts_SchemaVersion s)%Z.

(** A version of the old format has the text of [a] and [b] and the stored time of one of
    them. *)
Definition tied (s : CatalogStore) (a b : TemplateVersion) : Prop :=
  exists k l, ct_versions s !! k = Some l /\ tvr_TemplateID l = tvr_TemplateID a /\ ~ current_format l /\
    tvr_Version l = tvr_Version a /\ (tvr_CreatedAt l = tvr_CreatedAt a \/ tvr_CreatedAt l = tvr_CreatedAt b).

(** The history of all templates, which has the versions [V]. *)
Record history (V : gmap string TemplateVersion) (s : CatalogStore) : Prop := {
  hs_keyed : forall i v, ct_versions s !! i = Some v -> tvr_ID v = i /\ whole (tvr_CreatedAt v);
  hs_newer : forall i j a b, ct_versions s !! i = Some a -> ct_versions s !! j = Some b -> tvr_TemplateID a = tvr_TemplateID b ->
    current_format a -> ~ current_format b -> (tvr_CreatedAt b <= tvr_CreatedAt a)%Z;
  hs_unique : forall i j a b, ct_versions s !! i = Some a -> ct_versions s !! j = Some b -> tvr_TemplateID a = tvr_TemplateID b ->
    current_format a -> current_format b -> tvr_Version a = tvr_Version b -> i = j \/ tied s a b;
  hs_old : forall i v, V !! i = Some v -> ct_versions s !! i = Some v
}.

(** A tie stays when versions are added. *)
Lemma tied_insert s a b v : ct_versions s !! tvr_ID v = None -> tied s a b ->
  tied (tb_set template_versions (<[tvr_ID v := v]> (ct_versions s)) s) a b.
Proof.
  intros Hfree (k & l & Hl & Hr). exists k, l. split; [|exact Hr]. cbn. rewrite lookup_insert_ne; [exact Hl|].
  intros <-. congruence.
Qed.

(** A plan for a new version of a template, from the versions that are there: none is
    newer, and one with the same text is of the old format, or tied. *)
Lemma plan_facts V s tid version snapshot now createdAt : history V s ->
  publish_plan version snapshot (versions_of tid s) now = Ok (None, createdAt) ->
  (forall x, x ∈ versions_of tid s -> (tvr_CreatedAt x <= stored_time createdAt)%Z /\
     (tvr_CreatedAt x = stored_time createdAt -> tvr_CreatedAt x < now < tvr_CreatedAt x + 500000)%Z) /\
  (forall x, x ∈ versions_of tid s -> current_format x -> tvr_Version x = version ->
     exists l, l ∈ versions_of tid s /\ ~ current_format l /\ tvr_Version l = version /\ tvr_CreatedAt l = tvr_CreatedAt x).
Proof.
  intros [Hk Hn _ _] Hp. destruct (versions_of tid s) as [|latest rest] eqn:El; [by split; intros x Hx%elem_of_nil|]. rewrite <- El.
  assert (latest ∈ versions_of tid s) as Hlatest by (rewrite El; by left).
  destruct (proj1 (versions_elem tid s latest) Hlatest) as [[i Hi] Hti]. destruct (Hk i latest Hi) as [Eid Hwl].
  cbn [publish_plan] in Hp. destruct (snapshot_Unmarshal (tvr_Snapshot latest)) as [snap|e] eqn:Es; [|done]. cbn [res_wrap res_bind] in Hp.
  destruct (negb _ && SameTemplateContent snap snapshot) eqn:Esame; [done|].
  destruct (existsb _ _) eqn:Ex; [done|]. injection Hp as <-. destruct (publish_time_after (tvr_CreatedAt latest) now Hwl) as [Hle Heq]. split.
  - intros x Hx. pose proof (head_newest tid s latest rest x El Hx). split; [lia|]. intros E.
    assert (tvr_CreatedAt x = tvr_CreatedAt latest) as -> by lia. apply Heq. lia.
  - intros x Hx Hxc Hxv. apply not_true_iff_false in Ex. rewrite <- El in Ex.
    destruct ((ts_SchemaVersion snap <? TemplateSnapshotSchemaVersion)%Z && negb (empty (tvr_Version latest)) &&
      bool_decide (version = tvr_Version latest)) eqn:Eleg.
    + apply andb_true_iff in Eleg as [[Eleg _]%andb_true_iff Ev%bool_decide_eq_true]. apply Z.ltb_lt in Eleg. exists latest.
      assert (~ current_format latest) as Hnl by (intros (s' & Es' & Hs'); rewrite Es in Es'; injection Es' as <-; lia).
      destruct (proj1 (versions_elem tid s x) Hx) as [[j Hj] Htj].
      pose proof (Hn j i x latest Hj Hi ltac:(congruence) Hxc Hnl). pose proof (head_newest tid s latest rest x El Hx).
      split_and!; [done|done|done|lia].
    + exfalso. apply Ex. apply existsb_exists. exists x. split; [by apply list_elem_of_In|]. by rewrite bool_decide_true.
Qed.
Lemma plan_new V s tid version snapshot now createdAt v : history V s ->
  publish_plan version snapshot (versions_of tid s) now = Ok (None, createdAt) ->
  tvr_TemplateID v = tid -> tvr_Version v = version -> tvr_CreatedAt v = stored_time createdAt -> current_format v ->
  ct_versions s !! tvr_ID v = None -> history V (tb_set template_versions (<[tvr_ID v := v]> (ct_versions s)) s).
Proof.
  intros Hh Hp Ht Hver Hc Hcur Hfree. destruct (plan_facts V s tid version snapshot now createdAt Hh Hp) as [Hlt Hdiff].
  destruct Hh as [Hk Hn Hu Ho].
  assert (forall i x, ct_versions s !! i = Some x -> tvr_TemplateID x = tid -> x ∈ versions_of tid s) as Hin
    by (intros i x Hx Htx; apply versions_elem; split; [by exists i|done]).
  assert (forall i x, ct_versions s !! i = Some x -> tvr_TemplateID x = tid -> current_format x -> tvr_Version x = version ->
    forall a b, tvr_TemplateID a = tid -> tvr_Version a = version -> x = a \/ x = b ->
    tied (tb_set template_versions (<[tvr_ID v := v]> (ct_versions s)) s) a b) as Htie.
  { intros i x Hx Htx Hxc Hxv a b Hta Hva Hxab. destruct (Hdiff x (Hin i x Hx Htx) Hxc Hxv) as (l & Hl & Hnl & Hlv & Hlc).
    apply versions_elem in Hl as [[k Hkl] Hlt']. apply tied_insert; [done|]. exists k, l.
    split_and!; [done|congruence|done|congruence|]. destruct Hxab as [<- | <-]; auto. }
  constructor; cbn [ct_versions tb_set template_versions].
  - intros i x [[<- <-]|[Hne Hx]]%lookup_insert_Some; [|by apply Hk]. split; [done|]. rewrite Hc. apply stored_whole.
  - intros i j a b [[<- <-]|[Hi Ha]]%lookup_insert_Some [[<- <-]|[Hj Hb]]%lookup_insert_Some Etid Hac Hbc; [done| |done|by eapply (Hn i j)].
    rewrite Hc. apply Hlt. apply (Hin j); congruence.
  - intros i j a b [[<- <-]|[Hi Ha]]%lookup_insert_Some [[<- <-]|[Hj Hb]]%lookup_insert_Some Etid Hac Hbc Ever.
    + by left.
    + right. apply (Htie j b); first [done|congruence|by right].
    + right. apply (Htie i a); first [done|congruence|by left].
    + destruct (Hu i j a b Ha Hb Etid Hac Hbc Ever) as [|Htd]; [by left|]. right. by apply tied_insert.
  - intros i x Hx. rewrite lookup_insert_ne; [by apply Ho|]. intros <-. rewrite (Ho _ _ Hx) in Hfree. done.
Qed.

(** ** Programs keep the history *)

(** The others keep the history too. *)
Definition keeps_history (V : gmap string TemplateVersion) (st : Env CatalogStore CatalogAnswers) : Prop :=
  forall s, history V s -> history V (en_others st s).

Section keep.
Context (V : gmap string TemplateVersion).
Local Abbreviation triple' q P m Q := (triple (keeps_history V) any_event q P m Q).
(** Outside of a transaction ([q] is [false]) and in one. *)
Definition kept (q : bool) {A} (m : Cat A) : Prop := triple' q (history V) m (fun _ s => history V s).

Lemma history_stable : stable (keeps_history V) (history V).
Proof. intros st s Hst. apply Hst. Qed.
Lemma history_steady q : steady (keeps_history V) q (history V).
Proof. right. apply history_stable. Qed.
#[local] Hint Resolve history_steady history_stable : core.

Lemma hist_ret q {A} (a : A) : kept q (eret a).
Proof. by apply triple_ret. Qed.
Lemma hist_bind q {A B} (m : Cat A) (k : A -> Cat B) : kept q m -> (forall a, kept q (k a)) -> kept q (ebind m k).
Proof. intros Hm Hk. eapply triple_bind; [apply Hm|]. intros a. apply Hk. Qed.
Lemma kept_ask q {A} (f : CatalogAnswers -> A) : kept q (eask f).
Proof. eapply triple_post; [apply triple_ask; auto|]. by intros a s [_ ?]. Qed.
Lemma kept_ctx q : kept q ectx.
Proof. eapply triple_post; [apply triple_ctx; auto|]. by intros a s [_ ?]. Qed.
Lemma kept_read q {A} (f : time -> CatalogStore -> A) : kept q (eread f).
Proof. eapply triple_post; [apply triple_read; auto|]. by intros a s [? _]. Qed.
(** A write that leaves the versions as they are. *)
Lemma history_same s s' : ct_versions s' = ct_versions s -> history V s -> history V s'.
Proof. intros E [H1 H2 H3 H4]. constructor; unfold tied in *; rewrite E; assumption. Qed.
Lemma kept_write q {A} (f : time -> CatalogStore -> res A * CatalogStore) e :
  (forall t s, ct_versions (f t s).2 = ct_versions s) -> kept q (ewrite f e).
Proof.
  intros Hf. apply triple_write; [auto|done| |].
  - intros t s Hs. eapply history_same; [apply Hf|exact Hs].
  - intros st err s _ _ Hs. split; [exact Hs|]. eapply history_same; [apply Hf|exact Hs].
Qed.
(** The tables besides the versions. *)
Definition other_table {A} (T : Table A) : Prop := forall m s, ct_versions (tb_set T m s) = ct_versions s.
Lemma kept_save q {A} (T : Table A) row e : other_table T -> kept q (ewrite (row_save T row) e).
Proof. intros HT. apply kept_write. intros t s. apply HT. Qed.
Lemma kept_insert q {A} (T : Table A) row e : other_table T -> kept q (ewrite (row_insert T row) e).
Proof. intros HT. apply kept_write. intros t s. unfold row_insert. destruct (bool_decide _); [done|apply HT]. Qed.
Lemma kept_delete q {A} (T : Table A) id e : other_table T -> kept q (ewrite (row_delete T id) e).
Proof. intros HT. apply kept_write. intros t s. unfold row_delete. destruct (tb_get T s !! id); [apply HT|done]. Qed.
Lemma kept_link q id tid version e : kept q (ewrite (link_row id tid version) e).
Proof. apply kept_write. intros t s. unfold link_row. by destruct (ct_definitions s !! id). Qed.
Lemma kept_tx {A} (none : A) body : kept true body -> kept false (RunInTx none body).
Proof.
  intros Hb. unfold RunInTx. eapply hist_bind.
  - eapply (triple_transaction _ _ _ _ _ _ (fun _ s => history V s)); [auto|exact Hb|done..].
  - intros r. apply hist_bind; [apply kept_ctx|intros ctx; apply hist_ret].
Qed.

(** *** A publish *)

Lemma tx_store tmpl version summary user snapshot plan versions now :
  ts_SchemaVersion snapshot = TemplateSnapshotSchemaVersion -> publish_plan version snapshot versions now = Ok plan ->
  triple' true (fun s => history V s /\ versions_of (tm_ID tmpl) s = versions) (store_version tmpl version summary user snapshot plan)
    (fun _ s => history V s).
Proof.
  intros Hsch Hplan. destruct plan as [[v|] createdAt]; cbn [store_version]; [by apply triple_ret; intros s [? _]|].
  eapply triple_bind; [eapply triple_post; [apply triple_ask; by left|]; intros a s [_ Hs]; exact Hs|]. intros uuid.
  eapply (triple_bind _ _ _ _ _ _ (fun _ s => history V s)); [|intros e; by apply triple_ret].
  unfold version_Create. eapply (triple_bind _ _ _ _ _ _ (fun _ s => history V s)); [|intros r; by apply triple_ret].
  set (row := tvr_set_CreatedAt _ _).
  assert (forall t s, history V s /\ versions_of (tm_ID tmpl) s = versions -> history V (row_insert template_versions row t s).2) as Hins.
  { intros t s [Hs Hv]. unfold row_insert. cbn [tb_get tb_id template_versions]. destruct (ct_versions s !! tvr_ID row) eqn:E; [done|].
    rewrite bool_decide_false by (by intros []). cbn [snd].
    apply (plan_new V s (tm_ID tmpl) version snapshot now createdAt row); try done; [by rewrite Hv|].
    destruct (Hjson snapshot) as (s' & Es' & Esch). exists s'. split; [exact Es'|]. lia. }
  apply triple_write; [by left|done|done|]. intros st err s _ _ Hs. split; [by destruct Hs|]. by apply Hins.
Qed.
Lemma kept_mark tmpl version v created : kept true (mark_published tmpl version v created).
Proof.
  unfold mark_published. destruct (_ && _); [apply hist_ret|]. apply hist_bind; [|intros; apply hist_ret].
  apply hist_bind; [by apply kept_save|intros; apply hist_ret].
Qed.
Lemma kept_tcharts q tid : kept q (tchart_ListByTemplate tid).
Proof. apply hist_bind; [apply kept_ask|intros rank]. apply hist_bind; [apply kept_read|intros; apply hist_ret]. Qed.
Lemma tx_publish tmpl version summary user : triple' true (history V) (publishInTx tmpl version summary user) (fun _ s => history V s).
Proof.
  unfold publishInTx. destruct (validatePublishInput _ _) as [ver|e]; [|by apply triple_ret].
  eapply triple_bind; [apply kept_tcharts|]. intros [charts|e]; [|by apply triple_ret].
  eapply (triple_bind _ _ _ _ _ _ (fun r s => history V s /\ (forall l, r = Ok l -> versions_of (tm_ID tmpl) s = l))).
  { eapply triple_bind; [apply triple_read; by left|]. intros r. apply triple_ret. intros s (Hs & st & _ & ->). split; [done|].
    destruct (en_fault st); [done|]. by intros l [= <-]. }
  intros [versions|e]; [|apply triple_ret; by intros s [? _]].
  eapply triple_bind; [apply triple_clock; by left|]. intros now.
  eapply (triple_pre _ _ _ _ _ (fun s => history V s /\ versions_of (tm_ID tmpl) s = versions)); [|intros s [_ [Hs Hv]]; split; [done|by apply Hv]].
  destruct (publish_plan _ _ _ _) as [plan|e] eqn:Hplan; [|apply triple_ret; by intros s [? _]].
  eapply triple_bind; [by eapply tx_store|]. intros [[v created]|e]; [apply kept_mark|by apply triple_ret].
Qed.

(** *** The other requests *)

Context `{Yaml} `{YamlProblem} (allowed : list string) (versioned hasTx : bool).

Ltac head_of t := lazymatch t with ?f _ => head_of f | _ => t end.
(** One step along the structure of a program. *)
Ltac keep_step :=
  lazymatch goal with
  | |- kept _ (eret _) => apply hist_ret
  | |- kept _ (ebind _ _) => apply hist_bind; [|intros ?]
  | |- kept _ (eask _) => apply kept_ask
  | |- kept _ ectx => apply kept_ctx
  | |- kept _ (eread _) => apply kept_read
  | |- kept _ (ewrite (row_save _ _) _) => by apply kept_save
  | |- kept _ (ewrite (row_insert _ _) _) => by apply kept_insert
  | |- kept _ (ewrite (row_delete _ _) _) => by apply kept_delete
  | |- kept _ (ewrite (link_row _ _ _) _) => apply kept_link
  | |- kept _ (RunInTx _ _) => apply kept_tx
  | |- kept _ (publishInTx _ _ _ _) => apply tx_publish
  | |- kept _ (match ?x with _ => _ end) => destruct x
  | |- kept _ ?m => first [by auto | let f := head_of m in progress (unfold f)]
  end.
Ltac keep := repeat keep_step.

Lemma kept_create_tcharts q l : kept q (create_tcharts allowed l).
Proof. induction l as [|ch l IH]; cbn [create_tcharts]; keep. Qed.
Lemma kept_stamp q tid i l : kept q (stamp_charts allowed tid i l).
Proof. revert i. induction l as [|ch l IH]; intros i; cbn [stamp_charts]; keep. Qed.
Lemma kept_copy q did l : kept q (copyTemplateChartsToDefinitionTx allowed did l).
Proof. induction l as [|tc l IH]; cbn [copyTemplateChartsToDefinitionTx]; keep. Qed.
Lemma kept_uuids q {A B} (f : string -> A -> B) l : kept q (with_uuids f l).
Proof. induction l as [|x l IH]; cbn [with_uuids]; keep. Qed.
Lemma kept_overrides q release load l w out : kept q load -> kept q (resolve_overrides release load l w out).
Proof. intros Hload. revert w out. induction l as [|[key values] l IH]; intros w out; cbn [resolve_overrides]; keep. Qed.
Lemma kept_bulk c op l : (forall t, kept false (op t)) -> kept false (bulk_items c op l).
Proof. intros Hop. induction l as [|id l IH]; cbn [bulk_items]; keep. Qed.
Lemma kept_bulk_delete t : kept false (bulk_delete t).
Proof. keep. Qed.
Lemma kept_bulk_publish c t : kept false (bulk_publish versioned hasTx c t).
Proof. keep. Qed.
Lemma kept_bulk_unpublish t : kept false (bulk_unpublish t).
Proof. keep. Qed.
#[local] Hint Resolve kept_bulk_delete kept_bulk_publish kept_bulk_unpublish kept_tcharts kept_create_tcharts kept_stamp kept_copy kept_uuids kept_overrides kept_bulk : core.

Lemma kept_template c r : kept false (handle_template allowed versioned hasTx c r).
Proof. destruct r; cbn [handle_template]; keep. Qed.

Lemma kept_first_free q left n owner candidate : kept q (first_free left n owner candidate).
Proof. revert n. induction left as [|left IH]; intros n; cbn [first_free]; keep. Qed.
Lemma kept_instances q id l : kept q (instances_block id l).
Proof. induction l as [|st l IH]; cbn [instances_block]; keep. Qed.
Lemma kept_create_charts q l : kept q (create_charts allowed l).
Proof. induction l as [|ch l IH]; cbn [create_charts]; keep. Qed.
Lemma kept_apply q did current l : kept q (apply_charts allowed did current l).
Proof. revert current. induction l as [|tc l IH]; intros current; cbn [apply_charts]; keep. Qed.
#[local] Hint Resolve kept_first_free kept_instances kept_create_charts kept_apply : core.

Lemma kept_definition c r : kept false (handle_definition allowed versioned hasTx c r).
Proof. destruct r; cbn [handle_definition]; keep. Qed.
End keep.

(** ** A publish without others *)

Section publish.
Context (tmpl : StackTemplate) (s0 : CatalogStore) (V : gmap string TemplateVersion) (Hs0 : history V s0).
(** What a clock of the request reads. *)
Context (reads : time -> Prop).
Let tid := tm_ID tmpl.



Definition calm_step (st : Env CatalogStore CatalogAnswers) : Prop := still st /\ reads (en_now st).
Local Abbreviation calm q P m Q := (triple calm_step any_event q P m Q).
Lemma calm_steady q (P : CatalogStore -> Prop) : steady calm_step q P.
Proof. right. intros st s [Hst _] Hp. by rewrite Hst. Qed.
Lemma calm_step_stable (P : CatalogStore -> Prop) : stable calm_step P.
Proof. intros st s [Hst _] Hp. by rewrite Hst. Qed.
#[local] Hint Resolve calm_steady calm_step_stable : core.





End publish.

(** C37. The history of the templates.  Whatever the others do that keeps it too, every request
    on templates and on definitions keeps it, with any clocks, faults and lost commits: a version
    is never changed or removed; each version of the current format is at least as new as every
    version of the old format of its template; and two versions of the current format that
    belong to one template have different version texts, unless a version of the old format has
    their text and the stored time of one of them. *)
Theorem release_history `{Yaml} `{YamlProblem} (allowed : list string) (versioned hasTx : bool)
    (V : gmap string TemplateVersion) (c : Caller) :
  (forall q, triple (keeps_history V) any_event false (history V) (handle_template allowed versioned hasTx c q)
     (fun _ => history V)) /\
  (forall q, triple (keeps_history V) any_event false (history V) (handle_definition allowed versioned hasTx c q)
     (fun _ => history V)).
Proof. split; intros q; [apply kept_template|apply kept_definition]. Qed.

End rules.

(** ** Examples

    A shop with one version; a snapshot is stored as the bits of its number. *)

Section example.
#[local] Instance snapshot_data_dec : EqDecision TemplateSnapshotData.
Proof. solve_decision. Defined.
#[local] Instance chart_data_dec : EqDecision TemplateChartSnapshotData.
Proof. solve_decision. Defined.
#[local] Instance snapshot_dec : EqDecision TemplateSnapshot.
Proof. solve_decision. Defined.
#[local] Instance snapshot_data_countable : Countable TemplateSnapshotData.
Proof.
  refine (inj_countable' (fun d => ([sd_Name d; sd_Description d; sd_Category d; sd_DefaultBranch d; sd_Version d], sd_IsPublished d))
    (fun '(l, p) => match l with [a; b; c; d; e] => mkSnapshotData a b c d p e | _ => mkSnapshotData "" "" "" "" false "" end) _).
  by intros [].
Defined.
#[local] Instance chart_data_countable : Countable TemplateChartSnapshotData.
Proof.
  refine (inj_countable' (fun d => ([sc_ChartName d; sc_RepoURL d; sc_DefaultValues d; sc_LockedValues d; sc_ID d; sc_SourceRepoURL d;
      sc_BuildPipelineID d; sc_ChartPath d; sc_ChartVersion d], (sc_IsRequired d, sc_SortOrder d)))
    (fun '(l, (p, n)) => match l with
      | [a; b; c; d; e; f; g; h; i] => mkChartSnapshot a b c d p n e f g h i
      | _ => mkChartSnapshot "" "" "" "" p n "" "" "" "" ""
      end) _).
  by intros [].
Defined.
#[local] Instance snapshot_countable : Countable TemplateSnapshot.
Proof.
  refine (inj_countable' (fun s => (ts_SchemaVersion s, ts_Template s, ts_Charts s)) (fun '(a, b, c) => mkSnapshot a b c) _).
  by intros [].
Defined.

Fixpoint bits (p : positive) : string :=
  match p with xH => EmptyString | xO p => String "0" (bits p) | xI p => String "1" (bits p) end.
Fixpoint number (s : string) : positive :=
  match s with EmptyString => xH | String a s => if bool_decide (a = "1"%char) then xI (number s) else xO (number s) end.
Lemma number_bits p : number (bits p) = p.
Proof. by induction p as [p IH|p IH|]; cbn; rewrite ?IH. Qed.

#[local] Instance bit_json : SnapshotJSON :=
  fun s => match decode (number s) with Some x => Ok x | None => Err (ENew "no snapshot") end.
#[local] Instance bit_encoder : SnapshotEncoder := fun s => bits (encode s).
#[local] Instance any_yaml : Yaml := {| Unmarshal := fun _ => Ok None; Encode := fun _ => Ok "" |}.
#[local] Instance any_problem : YamlProblem := fun _ _ => "".
Lemma bit_lawful s : exists s', snapshot_Unmarshal (snapshot_Marshal s) = Ok s' /\ ts_SchemaVersion s' = ts_SchemaVersion s.
Proof. exists s. split; [|done]. unfold snapshot_Unmarshal, snapshot_Marshal, bit_json, bit_encoder. by rewrite number_bits, decode_encode. Qed.

Let shop1 : StackTemplate := mkTemplate "t1" "shop" "" "" "main" true "1.0" "alice".
Let release1 : TemplateVersion := mkVersion "z1" "t1" "1.0" (snapshot_Marshal (NewTemplateSnapshot shop1 [])) "" "alice" 1000000.
Let catalog : CatalogStore :=
  mkCatalog {["t1" := shop1]} {["c1" := mkTChart "c1" "t1" "web" "https://charts" "" "p1" "" "1.0" "" "" 0 false]} {["z1" := release1]} ∅ ∅.
Let world (now : time) : EWorld CatalogStore catalog_event CatalogAnswers :=
  mkEWorld catalog (fun n => mkStep (fun s => s) now None false None
    (mkCatalogAnswers ("new-" +:+ itoa (Z.of_nat n)) (fun _ => 0%Z) (fun _ _ => Ok false))) 0 false [].
Let dev : Caller := mkCaller "alice" "alice" roleDevOps.
Let release2 : publishTemplateRequest := mkPublishRequest "2.0" "".
(** The version text of a publish, and whether it is new. *)
Definition answered (a : CatalogAnswer) : option (string * bool) :=
  match kn_Body a with KBPublished _ version _ created => Some (version, created) | _ => None end.
Lemma catalog_history : history (ct_versions catalog) catalog.
Proof.
  assert (forall i v, ct_versions catalog !! i = Some v -> i = "z1" /\ v = release1) as Hone.
  { intros i v Hv. unfold catalog in Hv. cbn [ct_versions] in Hv. by apply lookup_singleton_Some in Hv as [<- <-]. }
  constructor; [| | |done].
  - intros i v [-> ->]%Hone. by split.
  - intros i j a b [_ ->]%Hone [_ ->]%Hone _ Ha Hb. by destruct Hb.
  - intros i j a b [-> _]%Hone [-> _]%Hone _ _ _ _. by left.
Qed.

Lemma release_history_witness :
  let r := handle_template [] true true dev (TPublish "t1" (Some release2)) (world 5000000) in
  kn_Status r.1 = 200%Z /\ size (ct_versions (ew_state r.2)) = 2%nat /\ history (ct_versions catalog) (ew_state r.2).
Proof.
  intros r. split; [by vm_compute|]. split; [by vm_compute|].
  destruct (release_history (H := bit_json) (H0 := bit_encoder) (H1 := any_yaml) (H2 := any_problem) bit_lawful [] true true
    (ct_versions catalog) dev) as [Hrule _].
  destruct (Hrule (TPublish "t1" (Some release2)) (world 5000000)) as (_ & _ & _ & Hh); [by intros n s|done|apply catalog_history|exact Hh].
Defined.


(** A clock with parts of a millisecond: the publish answers the new version, but the stored
    times are equal, and the old version stays the newest. *)
Example publish_tie :
  let r := PublishTemplate true true dev "t1" (Some release2) (world 1400000) in
  answered r.1 = Some ("2.0", true) /\
  (tvr_Version <$> head (versions_of "t1" (ew_state r.2))) = Some "1.0".
Proof. split; vm_compute; reflexivity. Qed.
(** The latest version is of the old format: with the same clock two publishes of its text
    store two versions with this text. *)
Example publish_twice :
  let old : TemplateVersion := tvr_set_CreatedAt 1000000%Z (mkVersion "z1" "t1" "1.0" (snapshot_Marshal (mkSnapshot 0 (mkSnapshotData "shop" "" "" "main" true "1.0") [])) "" "alice" 0) in
  let w := mkEWorld (tb_set template_versions {["z1" := old]} catalog) (ew_env (world 1400000)) 0 false [] in
  let req := Some (mkPublishRequest "1.0" "") in
  let r1 := PublishTemplate true true dev "t1" req w in
  let r2 := PublishTemplate true true dev "t1" req r1.2 in
  answered r1.1 = Some ("1.0", true) /\ answered r2.1 = Some ("1.0", true) /\
  List.map tvr_Version (versions_of "t1" (ew_state r2.2)) = ["1.0"; "1.0"; "1.0"].
Proof. split_and!; vm_compute; reflexivity. Qed.
(** A clone of the shop: its chart has no build pipeline. *)
Example clone_drops_pipeline :
  let r := CloneTemplate [] dev "t1" (Some None) (world 5000000) in
  kn_Status r.1 = 201%Z /\
  Permutation (List.map tc_BuildPipelineID (rows_where (fun _ => true) (ct_tcharts (ew_state r.2)))) [""; "p1"].
Proof. split; [by vm_compute|]. vm_compute. repeat constructor. Qed.
End example.
